(* ===== verification/_CoqProject ===== *)
-Q . S2P
Prelude.v
F64.v
F64Arith.v
Types.v
Geometry.v
Floor.v
TakeBack.v
Injection.v
Wire.v
Messages.v
Codec.v
Sequence.v
SessionWire.v
Clipboard.v
OrdSet.v
HeldInput.v
Ownership.v
Chord.v
Translator.v
GestureLatch.v
DisplaySettle.v
Topology.v
Clicks.v
CaptureControl.v
CaptureEvent.v
CaptureQueue.v
CaptureLease.v
CapturePhysical.v
SessionPacer.v
SessionOutbox.v
SessionHealth.v
SessionQuality.v
Receiver.v
ReceiverSafety.v
SourceEdges.v
SourceState.v
Source.v
SourceKept.v
SourceStream.v
SourceSafety.v
SourceRemote.v
SourceCalls.v
SourceSystem.v
SourceTotal.v
SourceTheorems.v
SessionStartup.v
CaptureLedger.v
CaptureStream.v
CaptureTheorems.v
SourceFloor.v
CaptureRoute.v
Hub.v
HubSafety.v
HubFloor.v
HubTheorems.v
ReceiverActor.v
ReceiverFollow.v
LinkedPair.v
LinkedTheorems.v
Policy.v
PairingCode.v
Autoscroll.v
Revocation.v
Keymaps.v
MacDecode.v
DisplayArrangement.v
Handshake.v
Ordering.v
Fingerprint.v
SavedLayout.v
GroupRecord.v
GroupTheorems.v
SetupFile.v
SetupTheorems.v
GroupPlan.v
