(* ===== verification/Prelude.v ===== *)
(** * MonHop: a verification development

    MonHop lets one keyboard and mouse drive several computers.  A source
    captures local input, decides which computer's display the pointer is on,
    and sends frames over a session; the receiver injects them into its own
    operating system, and gives control back at once when its own user touches
    the machine.  The parts modelled here are the ones that carry this logic,
    the crates monhop-core and monhop-protocol, and from monhop-transport the
    ledger that decides which injected press is still allowed, the source
    controller that turns captured input into frames, the receiver and its actor
    that turn frames into injected input, the startup of a link, the hub that
    shares one capture and one floor among the links of a group, and the queue,
    pacing, heartbeat and link quality of a session.  The whole path is composed:
    from the native records of a hand's keys to the keys the peer's operating
    system was asked to hold.  Around it stand the parts that decide who may share
    with whom: the network policy, the pairing code, the handshake, and the group
    records of the desktop application, which every member keeps a copy of and
    from which each makes its topology, permissions and hub.

    ** Parts, files and sources

    Shared.
    - Prelude.v: machine integers at their width, durations in nanoseconds,
      [result] with its [?] notation, big-endian bytes, bit fields, tactics
      ([result_inv], [bool_inv]) and hint databases.
    - F64.v, F64Arith.v: [f64] as its 64-bit pattern.  Comparisons are integer
      comparisons of a key, arithmetic is SpecFloat's at binary64;
      F64Arith.v proves that rounding is canonical, so encoding loses nothing,
      and the facts about NaN, infinity and zero that the geometry needs.
    - OrdSet.v: [BTreeSet] as its ascending list.
    - Types.v: identifiers, points and gestures (core types.rs, pointer.rs).

    Who has control.
    - Floor.v (core floor.rs): the session floor, one packed 64-bit word that
      says which direction holds the floor, with which peer, at which
      generation.  The abstract floor is a triple with its legal edges.
    - TakeBack.v (core take_back.rs): the gate through which local input takes
      control back.  It is written against the class [SharedFloorI], which the
      packed word implements.
    - Injection.v (transport session_native.rs, session_receiver.rs): the
      injector's ledger of presses it has down.  [Race] makes every atomic
      access of the injector, of the capture callback that takes back and of the
      coordinator a step.
    - Ownership.v (core ownership.rs): the pointer-ownership state machine with
      its transition epochs and recovery plans.

    What is sent.
    - Wire.v, Messages.v, Codec.v (protocol lib.rs): readers and writers, every
      message and its validation, the encoder and decoder of frames.
    - Sequence.v (protocol lib.rs): the replay gate and the rate limiter.
    - Clipboard.v (protocol clipboard.rs): clipboard headers and payload checks.

    What is held and pressed.
    - HeldInput.v (core input.rs): keys and buttons held across a change of
      destination, and the emergency escape.
    - Chord.v, Translator.v (core chord.rs, dimming.rs, control_as_command.rs):
      key plans and the per-key targets of a keyboard used on the other platform.
    - Clicks.v (core clicks.rs): counting and landing multi-clicks.
    - GestureLatch.v (core gesture_latch.rs): one route per touch session.

    Where the pointer is.
    - Geometry.v, Topology.v (core topology.rs): rectangles, validated
      topologies, edge crossings.
    - DisplaySettle.v (core display_settle.rs): whether a display change holds.
    - DisplayArrangement.v (transport display_arrangement.rs): one topology from
      the displays of every member and the crossings between them.

    Who may connect.
    - Policy.v (transport policy.rs): which network interfaces and peers a
      session uses, and the lock that is checked for every packet.
    - PairingCode.v (transport pairing_code.rs): the code one computer shows and
      the other types, with its check symbols and the address it carries.
    - Fingerprint.v (crypto.rs, group_record.rs): certificate fingerprints as
      text.
    - Handshake.v (session_handshake.rs): the three frames that open a session,
      from both ends of an authenticated connection.

    Which computers share.
    - Ordering.v: [Ord] as a comparison with its laws, derived orders on lists,
      pairs and options, and Rust's stable sort.
    - SavedLayout.v (desktop sharing.rs, sharing_preferences.rs): displays as
      they are saved, a user's layout and its validation, pairing saved displays
      with those shown now by monitor.
    - GroupRecord.v, GroupTheorems.v (group_record.rs): the record of a group:
      validation, content digest and stamp, the topology of each member, following
      changed displays, and its copies sent over a link.
    - SetupFile.v, SetupTheorems.v (sharing_preferences.rs): the saved setup,
      every change the application makes to it, and its validation on load.
    - GroupPlan.v (sharing_hub.rs, session_setup.rs): the hub and the handshakes
      a member makes from a record, composed with Hub.v and Handshake.v.

    A session.
    - Receiver.v, ReceiverSafety.v (transport session_receiver.rs): the whole
      InputReceiver, from a frame to the actions on its destination.  The
      destination is an oracle that answers each action from the ones before it,
      and [r_calls] is what was asked of it; its floor is the abstract floor of
      Floor.v behind [SharedFloorI].
    - SourceEdges.v, SourceState.v, Source.v (transport session_source.rs, core
      pointer_speed.rs): the whole SourceController, from captured input, polled
      positions and the peer's frames to the effects it hands out.  It reads the
      floor as the abstract floor of Floor.v.  [SourceStream] gives the peer's
      view of its frames ([frame_step]) and the invariant between the two;
      SourceKept.v, SourceSafety.v, SourceRemote.v and SourceCalls.v keep it
      through every operation; SourceSystem.v has the histories ([Run]) of a
      controller with an honest peer and native capture, SourceTotal.v that no
      call panics, SourceTheorems.v the properties.
    - SessionStartup.v (session_startup.rs): StartupControl, the exchange of
      heartbeats and announcements before a link carries input, and both ends of
      a direction over streams that may lose heartbeats ([startup_step]).
    - ReceiverActor.v (session_actor.rs): the thread that owns the receiver: its
      turns, its two bounded channels, the numbers of its answers, its stop and
      cleanup.  ReceiverFollow.v: a receiver that reads a source's frames keeps
      the view the source has of it.
    - LinkedPair.v, LinkedTheorems.v: a source controller, its outbox, the
      streams and the receiver actor of the peer as one step relation ([linked]),
      its invariant and its properties.
    - CaptureRoute.v (session_source_runtime.rs): how the effects of a controller
      reach native capture, behind the class [CaptureControlI], and its peer.
    - Hub.v (session_group.rs): HubCore, programs over a world that holds the hub,
      the capture it is passed, the clock readings and the switches.  SourceFloor.v
      has what a controller does to the floor; HubSafety.v the invariant of the hub
      and rules for its programs; HubFloor.v that every entry point keeps it;
      HubTheorems.v the runs of a hub ([hub_reach]) and the properties.
    - SessionOutbox.v (session_outbox.rs): the send queue, with [Wake] for the
      writer that waits on it.
    - SessionPacer.v (session_pacer.rs): coalescing motion at an interval.
    - SessionHealth.v (session_health.rs): heartbeats and the peer's liveness,
      together with the suppression lease of CaptureLease.v it renews.
    - SessionQuality.v (session_quality.rs): the link's tier from its replies.
    - SessionWire.v (session_wire.rs): frames cut out of a byte stream.
    - Revocation.v (core revocation.rs): the flag that ends a session and wakes
      the task that waits on it; the waker cell is the class [AtomicWakerI].
    - Autoscroll.v (session_autoscroll.rs, session_native.rs): scrolling with
      the middle button at the receiver.

    How input is captured.
    - CaptureEvent.v, CaptureQueue.v, CaptureLease.v (core capture.rs): events as
      slot words, the lock-free ring, the suppression lease.  [Ring] makes every
      atomic access a step.
    - CaptureControl.v (core capture_control.rs): the command mailbox, with
      [Mail] for its two threads.
    - CapturePhysical.v (core capture_physical.rs): the ledger of the capture
      thread, which decides for each native record whether the applications and
      the session see it, over the class [CaptureSink] that the ring implements.
      CaptureLedger.v has what the applications see, CaptureStream.v what the
      source controller reads of it (normalize of session_source_runtime.rs),
      CaptureTheorems.v the properties.
    - Keymaps.v (keymap.rs of both platforms, the decoding of Windows hooks): scan
      codes and virtual keys as HID usages.
    - MacDecode.v (macOS capture decoding): event-tap records as keys, modifiers,
      pointer, wheel, gestures and page swipes.

    ** Correspondence

    A struct is a [Record], an enum an [Inductive] with the source's
    constructors, a method a function from the state to the new state and its
    result.  [Result] is [result]; a call that could panic returns an [option]
    whose [None] is the panic, and the theorems show that it does not.  A
    [BTreeMap] whose order does not matter is a [gmap].  Shared atomics are
    interleaved as a sequence of single accesses; weaker orderings are not
    modelled, the sources use release and acquire exactly where a value is
    published.  Instants and durations are integers, the clock is an argument.
    SHA-256, the length and text of serde's JSON, the TLS exporter and the QUIC
    streams are arguments of the definitions that use them; no theorem assumes
    that a digest tells contents apart.

    ** What the theorems show

    - Control: the packed floor implements the abstract one and excludes both
      directions at once ([floor_refines_spec], [floor_exclusive],
      [floor_stale_transition_refused], [floor_reachable_well_formed]); a
      take-back yields, closes admission and reports ([take_back_trigger],
      [delayed_take_back_keeps_newer_admission]); in every interleaving no press
      admitted before a take-back is posted or left down after it
      ([no_press_after_take_back]) and the held count is exact
      ([injected_count_exact]); acknowledgements and failures of ownership
      ([acknowledgement_guard], [failure_recovers_locally]).
    - Wire: decode inverts encode, and accepts nothing but what encode writes
      ([decode_encode], [decode_canonical], [encode_bounds],
      [clipboard_header_roundtrip]); frames are never replayed, of
      heartbeats those since the gate was last seeded ([sequence_gate_no_replay]) and never faster than the rate
      ([rate_limiter_bound]).
    - Input: destinations are left holding exactly what the sender recorded
      ([held_input_in_sync], [translator_in_sync], [chord_plan_net_effect]);
      gestures do not split ([gesture_never_splits]); multi-clicks are counted
      and landed ([click_counter_numbers], [landing_stays_on_display]).
    - Geometry: every sample on an accepted topology resolves, to a point inside
      the destination along its edge ([transition_for_motion_resolves],
      [topology_new_accepts], [edge_position_has_one_link],
      [clamp_half_open_inside]).
    - Capture: the ring is a bounded queue in every interleaving
      ([capture_ring_fifo], [capture_queue_calls]), events survive their slot
      ([captured_event_roundtrip]), commands arrive whole
      ([mailbox_commands_intact], [submit_take_complete]), and suppression ends
      within 120 ms of the last renewal ([suppression_is_bounded]).

    - Receiver: when it stops everything it injected is released, with retries
      until the destination accepts it ([receiver_releases_everything]); a key it
      has down is one its source holds ([receiver_no_stuck_key]); a frame
      injects only on a live link that was activated, and nothing while the local
      user takes the floor back ([receiver_injects_only_live]);
      gestures reach the destination as begun, changed, ended
      ([receiver_gesture_phases]).
    - Source: every frame it sends is one its peer accepts
      ([source_stream_accepted]); what the peer was told is down is held by the
      hand or about to be released ([source_no_stuck_input]); it holds the floor
      exactly as its state says ([source_floor_discipline]); a failure restores
      native capture ([source_failure_restores]) unless the effects of the call
      are used up, which happens ([source_cleanup_dropped]); afterwards it is
      silent ([source_failed_is_silent]); no call panics
      ([source_never_panics]).
    - Linked computers: whatever the interleaving, the receiver never fails with
      a failure that blames its source ([pair_never_blames]); once everything
      sent was read both ends agree on the epoch and on what is held
      ([pair_agrees_at_rest]), and while the source runs every key down at the
      destination is one a hand still holds at the source, or one it is told to
      let go when the pointer lands on another display ([pair_no_stuck_key]).
    - Physical input: the ledger says what the applications see down
      ([capture_apps_exact]); the records queued are ones the controller accepts
      while the emergency chord is up ([capture_keys_accepted]), and a broken
      chord ends the session ([broken_chord_ends_session]); the chord stops the
      capture whatever else is captured meanwhile ([emergency_chord_stops]); a handoff moves everything held
      ([handoff_moves_all]).
    - Startup: no end blames the other ([startup_never_blames]) and ends that go
      on agree on their counters ([startup_hands_over]).
    - Hub: among peers that send what they like, a floor that goes out is claimed by
      the one ready link it names or held by the hub's own restore
      ([hub_floor_never_stranded]); a controller that routes input does not ask
      whether a program confines the cursor ([hub_crosses_while_confined]).
    - Session: the outbox sends what was pushed, in order, less the frames newer
      ones replace ([outbox_in_order]) and its writer never sleeps over a frame
      ([outbox_no_lost_wakeup]); pacing keeps the newest ([pacer_keeps_newest]);
      a dead peer is found in half a second and only answers to challenges count
      ([heartbeat_deadline], [heartbeat_tokens]), and suppression ends before that
      ([suppression_within_liveness]); the tier follows the evidence
      ([quality_tier_discipline]) and recovers ([quality_recovers]); frames come
      out of a stream whole and in order however it is cut, and then its end
      ([wire_survives_any_cut]); a revocation is never slept through
      ([revocation_never_lost]); autoscroll leaves no middle button behind
      ([autoscroll_never_strands_middle]).
    - Platform input: a key captured on Windows is the one its scan code injects, and
      the tables are bijections but for three keys that borrow others on the Mac
      ([keyboards_agree]); on macOS the modifiers decoded are those of the hand
      whatever injected copies do ([mac_captures_the_hand]) and a swipe fires once
      ([mac_gestures_fire_once]).
    - Trust: a packet is admitted only from a pinned peer on the selected network
      ([policy_admits_only_pinned]); a pairing code finds the computer that shows
      it ([pairing_code_finds_shower]) and a mistyped one is refused
      ([pairing_code_catches_typo]); a session comes only from the pinned
      certificate ([handshake_trusts_only_the_pin]) and both ends of a handshake
      reach the same verdict ([handshake_ends_agree]).
    - Groups: a group's topology has the given crossings and exactly the seams of
      each member's displays, over the stretches they share
      ([group_inherits_its_seams]); saved displays read back
      ([displays_survive_saving]); the digest of a record is that of its layout
      ([content_digest_canonical]); a record followed to changed displays is valid
      and its crossings are the old ones of the displays followed by monitor or
      number ([adapted_record_fits]), also those of a gone display whose number
      another one took ([gone_display_keeps_crossing]); the other end of
      a link accepts the record it is sent ([shared_record_arrives]); the saved
      setup always loads ([setup_file_always_loads]); copies converge on the
      newest record ([adopted_records_converge]) and a change made here is newer
      than all seen ([local_change_wins]); from a record every member starts its
      hub ([group_plan_starts_hub]) and any two make handshakes that agree
      ([group_members_agree]).

    ** Bounds and fuel

    [TakeBack.yield_loop] takes fuel: without interference one turn is enough,
    and its theorems hold for any positive fuel.  The receiver's two
    compare-and-swap loops, [release_inbound] and [admit_loop], run with
    [LOOP_FUEL] turns; [receiver_loops_terminate] proves that each decides
    in its first turn, so that more change nothing.  Freshness of a floor
    snapshot is proved for fewer than 2^57 changes of the floor, the number of
    generations in the packed word; the hub's world notes when the generation of
    its floor starts again ([w_wrapped]), and its theorems hold until then; the
    injected count is proved exact for fewer
    than 2^31 posts that fail, far below the 32-bit counter.  Ring positions and
    mailbox revisions are unbounded: the first wrap at 2^64, the second stop at
    the last revision.  Every other loop is structural.

    ** Not modelled

    The session tasks over QUIC that execute the actions of the hub, dial and
    accept links and carry the clipboard, the sockets, and cryptography but for
    the text of fingerprints and codes (asynchronous I/O and third-party
    libraries); the platform layers but for their key tables and the decoding of
    captured records (foreign calls into Quartz, IOKit and Win32); of the desktop
    application, its commands, tasks and user interface, the reading and writing
    of its files, and the migration of files of earlier versions; the
    command-line program; pointer ballistics and drawing constants.  The motion
    records of a capture are not composed with the controller: their coordinates
    are native.  Wakers (but those of Revocation.v), logging, debug output and
    call-site records are left out of the components that are modelled. *)

From Stdlib Require Export ZArith Lia.
From stdpp Require Export base list numbers option.

#[global] Open Scope Z_scope.

(** ** Machine integers

    A Rust integer of width [w] is a [Z]; its type is the range predicate
    below, and the operators that wrap, saturate or fail are written out. *)

Definition u8_max : Z := 255.
Definition u16_max : Z := 65535.
Definition u32_max : Z := 4294967295.
Definition u64_max : Z := 18446744073709551615.

Definition is_u8 (z : Z) : Prop := 0 <= z <= u8_max.
Definition is_u16 (z : Z) : Prop := 0 <= z <= u16_max.
Definition is_u32 (z : Z) : Prop := 0 <= z <= u32_max.
Definition is_u64 (z : Z) : Prop := 0 <= z <= u64_max.

#[global] Instance is_u8_dec z : Decision (is_u8 z).
Proof. unfold is_u8. apply _. Defined.
#[global] Instance is_u16_dec z : Decision (is_u16 z).
Proof. unfold is_u16. apply _. Defined.
#[global] Instance is_u32_dec z : Decision (is_u32 z).
Proof. unfold is_u32. apply _. Defined.
#[global] Instance is_u64_dec z : Decision (is_u64 z).
Proof. unfold is_u64. apply _. Defined.

(** [uN::checked_add], [saturating_*] and [wrapping_add] for the widths the
    program uses. *)
Definition checked_add_u64 (a b : Z) : option Z :=
  if a + b <=? u64_max then Some (a + b) else None.
Definition saturating_add_u64 (a b : Z) : Z := Z.min (a + b) u64_max.
Definition saturating_sub (a b : Z) : Z := Z.max (a - b) 0.
Definition saturating_mul_u64 (a b : Z) : Z := Z.min (a * b) u64_max.
Definition saturating_add_u8 (a b : Z) : Z := Z.min (a + b) u8_max.
Definition wrapping_add_u64 (a b : Z) : Z := (a + b) mod 2 ^ 64.
Definition wrapping_add_u32 (a b : Z) : Z := (a + b) mod 2 ^ 32.
Definition checked_sub (a b : Z) : option Z :=
  if b <=? a then Some (a - b) else None.

Ltac unfold_int :=
  unfold is_u8, is_u16, is_u32, is_u64, checked_add_u64, saturating_add_u64, saturating_sub,
    saturating_mul_u64, saturating_add_u8, checked_sub,
    u8_max, u16_max, u32_max, u64_max in *.

Lemma checked_add_u64_Some a b : checked_add_u64 a 1 = Some b -> b = a + 1.
Proof. unfold checked_add_u64. case_match; intros; by simplify_eq. Qed.
Lemma checked_add_u64_max a b : checked_add_u64 a 1 = Some b -> a + 1 <= u64_max.
Proof. unfold checked_add_u64. case_match eqn:E; [|done]. by apply Z.leb_le in E. Qed.

(** ** Durations

    [std::time::Duration] as its number of nanoseconds. *)
Definition ms (n : Z) : Z := n * 1000000.
Definition secs (n : Z) : Z := n * 1000000000.
Definition duration_max : Z := u64_max * 1000000000 + 999999999.
Definition is_duration (d : Z) : Prop := 0 <= d <= duration_max.
Definition checked_add_duration (a b : Z) : option Z :=
  if a + b <=? duration_max then Some (a + b) else None.

(** [session_clock::millis_u64]. *)
Definition millis_u64 (d : Z) : Z := Z.min (d / 1000000) u64_max.

(** ** Results

    [Result<A, E>] with the error first, so that [result E] is a monad and the
    [?] operator is the bind of stdpp's notation. *)
Inductive result (E A : Type) : Type :=
| Ok (a : A)
| Err (e : E).
Arguments Ok {E A} a.
Arguments Err {E A} e.

#[global] Instance result_ret E : MRet (result E) := fun A a => Ok a.
#[global] Instance result_bind E : MBind (result E) := fun A B f m =>
  match m with Ok a => f a | Err e => Err e end.
#[global] Instance result_fmap E : FMap (result E) := fun A B f m =>
  match m with Ok a => Ok (f a) | Err e => Err e end.
#[global] Instance result_eq_dec E A `{EqDecision E, EqDecision A} :
  EqDecision (result E A).
Proof. solve_decision. Defined.

Definition is_ok {E A} (r : result E A) : bool :=
  match r with Ok _ => true | Err _ => false end.
Definition map_err {E F A} (f : E -> F) (r : result E A) : result F A :=
  match r with Ok a => Ok a | Err e => Err (f e) end.
Definition ok_or {E A} (e : E) (o : option A) : result E A :=
  match o with Some a => Ok a | None => Err e end.

Section Results.
Context {E A B : Type}.

Lemma result_bind_Ok (m : result E A) (f : A -> result E B) b :
  m ≫= f = Ok b <-> exists a, m = Ok a /\ f a = Ok b.
Proof. destruct m as [a|e]; cbn; naive_solver. Qed.

Lemma result_bind_Err (m : result E A) (f : A -> result E B) e :
  m ≫= f = Err e <-> m = Err e \/ exists a, m = Ok a /\ f a = Err e.
Proof. destruct m as [a|e']; cbn; naive_solver. Qed.

Lemma result_bind_ret (a : A) (f : A -> result E B) : Ok a ≫= f = f a.
Proof. reflexivity. Qed.

Lemma map_err_Ok {F} (g : E -> F) (m : result E A) a :
  map_err g m = Ok a <-> m = Ok a.
Proof. destruct m; cbn; naive_solver. Qed.

Lemma ok_or_Ok (e : E) (o : option A) a : ok_or e o = Ok a <-> o = Some a.
Proof. destruct o; cbn; naive_solver. Qed.
End Results.

(** Code that changes state and may fail: the state is kept on both paths, and
    [let?] is the [?] operator of a method that takes [&mut self]. *)
Definition st_bind {S E A B} (m : S * result E A) (f : S -> A -> S * result E B)
  : S * result E B :=
  match m with (s, Ok a) => f s a | (s, Err e) => (s, Err e) end.

Declare Scope monhop_scope.
Delimit Scope monhop_scope with monhop.
Notation "'let?' ( s , a ) := m 'in' f" := (st_bind m (fun s a => f))
  (at level 200, s name, a name, f at level 200,
   format "'let?'  ( s ,  a )  :=  m  'in' '//' f") : monhop_scope.
#[global] Open Scope monhop_scope.

Section StateResults.
Context {S E A B : Type}.

Lemma st_bind_Ok (m : S * result E A) (f : S -> A -> S * result E B) s' b :
  st_bind m f = (s', Ok b) <-> exists s a, m = (s, Ok a) /\ f s a = (s', Ok b).
Proof. destruct m as [s [a|e]]; cbn; naive_solver. Qed.

Lemma st_bind_Err (m : S * result E A) (f : S -> A -> S * result E B) s' e :
  st_bind m f = (s', Err e) <->
  m = (s', Err e) \/ exists s a, m = (s, Ok a) /\ f s a = (s', Err e).
Proof. destruct m as [s [a|e']]; cbn; naive_solver. Qed.

Lemma st_bind_assoc {C} (m : S * result E A) (f : S -> A -> S * result E B)
    (g : S -> B -> S * result E C) :
  st_bind (st_bind m f) g = st_bind m (fun s a => st_bind (f s a) g).
Proof. by destruct m as [s [a|e]]. Qed.

(** An invariant of both parts is one of the whole. *)
Lemma st_bind_fst (P : S -> Prop) (m : S * result E A) (f : S -> A -> S * result E B) :
  P (fst m) -> (forall s a, m = (s, Ok a) -> P s -> P (fst (f s a))) -> P (fst (st_bind m f)).
Proof. destruct m as [s [a|e]]; cbn; auto. Qed.
End StateResults.

(** [result_inv] opens a successful run of a chain of [?] operators, and splits
    the guards that were passed on the way. *)
Ltac result_step :=
  match goal with
  | H : Ok _ = Ok _ |- _ => injection H as H
  | H : Err _ = Err _ |- _ => injection H as H
  | H : Ok _ = Err _ |- _ => discriminate H
  | H : Err _ = Ok _ |- _ => discriminate H
  | H : Some _ = Some _ |- _ => injection H as H
  | H : None = Some _ |- _ => discriminate H
  | H : Some _ = None |- _ => discriminate H
  | H : _ ≫= _ = Ok _ |- _ => apply result_bind_Ok in H as (? & ? & H)
  | H : map_err _ _ = Ok _ |- _ => apply map_err_Ok in H
  | H : ok_or _ _ = Ok _ |- _ => apply ok_or_Ok in H
  | H : (if ?b then _ else _) = Ok _ |- _ =>
      let E := fresh "G" in destruct b eqn:E
  | H : (if ?b then _ else _) = Some _ |- _ =>
      let E := fresh "G" in destruct b eqn:E
  | H : exists _, _ |- _ => destruct H
  | H : _ /\ _ |- _ => destruct H
  end.
Ltac result_inv := repeat (result_step; try discriminate).

(** Boolean guards to propositions. *)
Lemma Z_eqb_neq_false a b : negb (a =? b) = false <-> a = b.
Proof. rewrite negb_false_iff. apply Z.eqb_eq. Qed.

Ltac bool_step :=
  match goal with
  | H : _ && _ = true |- _ => apply andb_true_iff in H as [? ?]
  | H : _ || _ = false |- _ => apply orb_false_iff in H as [? ?]
  | H : _ || _ = true |- _ => apply orb_true_iff in H
  | H : _ && _ = false |- _ => apply andb_false_iff in H
  | H : negb _ = true |- _ => apply negb_true_iff in H
  | H : negb _ = false |- _ => apply negb_false_iff in H
  | H : (_ =? _) = true |- _ => apply Z.eqb_eq in H
  | H : (_ =? _) = false |- _ => apply Z.eqb_neq in H
  | H : (_ <? _) = true |- _ => apply Z.ltb_lt in H
  | H : (_ <? _) = false |- _ => apply Z.ltb_ge in H
  | H : (_ <=? _) = true |- _ => apply Z.leb_le in H
  | H : (_ <=? _) = false |- _ => apply Z.leb_gt in H
  | H : (_ >? _) = true |- _ => rewrite Z.gtb_ltb in H
  | H : (_ >? _) = false |- _ => rewrite Z.gtb_ltb in H
  | H : bool_decide _ = true |- _ => apply bool_decide_eq_true in H
  | H : bool_decide _ = false |- _ => apply bool_decide_eq_false in H
  end.
Ltac bool_inv := repeat bool_step.

(** ** Bytes *)

Definition bytes (l : list Z) : Prop := Forall is_u8 l.
#[global] Instance bytes_dec l : Decision (bytes l).
Proof. unfold bytes. apply _. Defined.

(** [u8::to_ascii_uppercase] and [to_ascii_lowercase]. *)
Definition to_ascii_uppercase (b : Z) : Z := if (97 <=? b) && (b <=? 122) then b - 32 else b.
Definition to_ascii_lowercase (b : Z) : Z := if (65 <=? b) && (b <=? 90) then b + 32 else b.

(** [to_be_bytes] of an [n]-byte integer and its inverse. *)
Fixpoint be_bytes (n : nat) (z : Z) : list Z :=
  match n with
  | O => []
  | S k => (z / 256 ^ Z.of_nat k) mod 256 :: be_bytes k z
  end.

Fixpoint be_value (l : list Z) : Z :=
  match l with
  | [] => 0
  | b :: l => b * 256 ^ Z.of_nat (length l) + be_value l
  end.

Section BigEndian.

Lemma length_be_bytes n z : length (be_bytes n z) = n.
Proof. induction n; cbn; congruence. Qed.

Lemma be_bytes_bytes n z : bytes (be_bytes n z).
Proof.
  induction n as [|n IH]; cbn; constructor; [|exact IH].
  pose proof (Z.mod_pos_bound (z / 256 ^ Z.of_nat n) 256). unfold_int. lia.
Qed.

Lemma pow256_pos n : 0 < 256 ^ Z.of_nat n.
Proof. apply Z.pow_pos_nonneg; lia. Qed.

Lemma pow256_S n : 256 ^ Z.of_nat (S n) = 256 * 256 ^ Z.of_nat n.
Proof. rewrite Nat2Z.inj_succ, Z.pow_succ_r by lia. reflexivity. Qed.

Lemma be_value_bound l : bytes l -> 0 <= be_value l < 256 ^ Z.of_nat (length l).
Proof.
  induction 1 as [|b l Hb Hl IH]; cbn [be_value length]; [cbn; lia|].
  rewrite pow256_S. pose proof (pow256_pos (length l)). unfold_int. nia.
Qed.

Lemma be_value_be_bytes n z : be_value (be_bytes n z) = z mod 256 ^ Z.of_nat n.
Proof.
  induction n as [|n IH]; cbn [be_value be_bytes]; [now rewrite Z.mod_1_r|].
  rewrite length_be_bytes, IH, pow256_S.
  pose proof (pow256_pos n).
  rewrite (Z.mul_comm 256), Z.rem_mul_r by lia. lia.
Qed.

Lemma be_value_roundtrip n z :
  0 <= z < 256 ^ Z.of_nat n -> be_value (be_bytes n z) = z.
Proof. intros. rewrite be_value_be_bytes. now apply Z.mod_small. Qed.

Lemma be_bytes_mod n z w :
  z mod 256 ^ Z.of_nat n = w mod 256 ^ Z.of_nat n -> be_bytes n z = be_bytes n w.
Proof.
  revert z w. induction n as [|n IH]; intros z w H; cbn [be_bytes]; [reflexivity|].
  rewrite pow256_S in H. pose proof (pow256_pos n).
  f_equal.
  - apply (f_equal (fun x => x / 256 ^ Z.of_nat n)) in H.
    rewrite (Z.mul_comm 256), !Z.rem_mul_r in H by lia.
    rewrite !(Z.mul_comm (256 ^ Z.of_nat n)), !Z.div_add in H by lia.
    rewrite !(Z.div_small (_ mod 256 ^ Z.of_nat n)) in H
      by (apply Z.mod_pos_bound; lia). lia.
  - apply IH.
    apply (f_equal (fun x => x mod 256 ^ Z.of_nat n)) in H.
    rewrite (Z.mul_comm 256), !Z.rem_mul_r in H by lia.
    rewrite !(Z.mul_comm (256 ^ Z.of_nat n)), !Z.mod_add in H by lia.
    now rewrite !Z.mod_mod in H by lia.
Qed.

Lemma be_bytes_be_value l : bytes l -> be_bytes (length l) (be_value l) = l.
Proof.
  induction 1 as [|b l Hb Hl IH]; cbn [be_bytes be_value length]; [reflexivity|].
  pose proof (be_value_bound l Hl). pose proof (pow256_pos (length l)).
  f_equal.
  - rewrite Z.div_add_l by lia. rewrite (Z.div_small (be_value l)) by lia.
    rewrite Z.mod_small; unfold_int; lia.
  - etransitivity; [apply be_bytes_mod | exact IH].
    rewrite Z.add_comm, Z.mod_add by lia. reflexivity.
Qed.
End BigEndian.

(** ** Bit fields *)

Section BitFields.

Lemma land_shiftl_low a b n : 0 <= n -> 0 <= b < 2 ^ n -> Z.land (a ≪ n) b = 0.
Proof.
  intros Hn Hb. apply Z.bits_inj'. intros i Hi.
  rewrite Z.land_spec, Z.bits_0.
  destruct (Z.lt_ge_cases i n).
  - rewrite Z.shiftl_spec_low by done. reflexivity.
  - rewrite <- (Z.mod_small b (2 ^ n)), Z.mod_pow2_bits_high by lia.
    apply andb_false_r.
Qed.

(** A field above [n] low bits: [or] is addition. *)
Lemma lor_shiftl a b n :
  0 <= n -> 0 <= b < 2 ^ n -> Z.lor (a ≪ n) b = a * 2 ^ n + b.
Proof.
  intros. rewrite <- Z.add_nocarry_lor by now apply land_shiftl_low.
  now rewrite Z.shiftl_mul_pow2.
Qed.

Lemma lor_shiftl_r a b n :
  0 <= n -> 0 <= b < 2 ^ n -> Z.lor b (a ≪ n) = b + a * 2 ^ n.
Proof. intros. rewrite Z.lor_comm, lor_shiftl by done. lia. Qed.

Lemma land_mask x n : 0 <= n -> Z.land x (2 ^ n - 1) = x mod 2 ^ n.
Proof.
  intros. rewrite <- Z.land_ones by done. f_equal. rewrite Z.ones_equiv. lia.
Qed.

Lemma div_field a b k : 0 <= b < k -> (a * k + b) / k = a.
Proof. intros. rewrite Z.div_add_l by lia. rewrite (Z.div_small b) by lia. lia. Qed.

Lemma mod_field a b k : 0 <= b < k -> (a * k + b) mod k = b.
Proof.
  intros. rewrite Z.add_comm, Z.mod_add by lia. now apply Z.mod_small.
Qed.
End BitFields.

(** ** Lists *)

Section Lists.
Context {A : Type}.

Lemma take_app_exact (l k : list A) n : length l = n -> take n (l ++ k) = l.
Proof. intros <-. apply take_app_length. Qed.

Lemma drop_app_exact (l k : list A) n : length l = n -> drop n (l ++ k) = k.
Proof. intros <-. apply drop_app_length. Qed.
End Lists.

Create HintDb monhop.
Create Rewrite HintDb monhop_len.
#[export] Hint Rewrite length_be_bytes @length_app @length_replicate : monhop_len.
#[export] Hint Resolve be_bytes_bytes : monhop.
