(* ===== verification/F64.v ===== *)
(** * IEEE-754 binary64 and binary32 values as bit patterns

    Rust's [f64] is modelled by the 64-bit pattern that [to_bits] returns, so
    NaN payloads and the sign of zero survive a round trip through
    [from_bits]/[to_bits].  Comparisons are comparisons of an integer key;
    arithmetic decodes both patterns, runs the operation of
    [Corelib.Floats.SpecFloat] at precision 53 and maximal exponent 1024, and
    encodes the rounded result.  [f64_key_compare] shows that the key order is
    SpecFloat's comparison, and [f64_of_sf_to_sf] that decoding loses nothing
    but NaN payloads. *)

From Corelib Require Import SpecFloat.
From S2P Require Import Prelude.

(** ** Classification *)

Definition f64_sign (b : Z) : bool := 2 ^ 63 <=? b.
(** The pattern without its sign bit, which is also [f64::abs]. *)
Definition f64_abs (b : Z) : Z := if f64_sign b then b - 2 ^ 63 else b.
Definition f64_inf_bits : Z := 0x7FF0000000000000.
Definition f64_nan_bits : Z := 0x7FF8000000000000.

Definition f64_is_nan (b : Z) : bool := f64_inf_bits <? f64_abs b.
Definition f64_is_finite (b : Z) : bool := f64_abs b <? f64_inf_bits.

(** ** Order

    Both zeros have key 0; negative numbers have the negated key. *)
Definition f64_key (b : Z) : Z := if f64_sign b then 2 ^ 63 - b else b.

Definition f64_eqb (a b : Z) : bool :=
  negb (f64_is_nan a) && negb (f64_is_nan b) && (f64_key a =? f64_key b).
Definition f64_ltb (a b : Z) : bool :=
  negb (f64_is_nan a) && negb (f64_is_nan b) && (f64_key a <? f64_key b).
Definition f64_leb (a b : Z) : bool :=
  negb (f64_is_nan a) && negb (f64_is_nan b) && (f64_key a <=? f64_key b).

(** ** Arithmetic *)

Definition f64_to_sf (b : Z) : spec_float :=
  let s := f64_sign b in
  let a := f64_abs b in
  let e := a / 2 ^ 52 in
  let m := a mod 2 ^ 52 in
  if e =? 0 then
    (if m =? 0 then S754_zero s else S754_finite s (Z.to_pos m) (-1074))
  else if e =? 2047 then
    (if m =? 0 then S754_infinity s else S754_nan)
  else S754_finite s (Z.to_pos (m + 2 ^ 52)) (e - 1075).

(** The operations of SpecFloat return canonical values (shown in F64Arith.v),
    for which the range check below holds; the check only makes the encoding
    total. *)
Definition f64_of_sf (x : spec_float) : Z :=
  let sign (s : bool) := if s then 2 ^ 63 else 0 in
  match x with
  | S754_zero s => sign s
  | S754_infinity s => sign s + f64_inf_bits
  | S754_nan => f64_nan_bits
  | S754_finite s m e =>
      if (Z.pos m <? 2 ^ 52) && (e =? -1074) then sign s + Z.pos m
      else if (2 ^ 52 <=? Z.pos m) && (Z.pos m <? 2 ^ 53)
              && (-1074 <=? e) && (e <=? 971)
      then sign s + (e + 1075) * 2 ^ 52 + (Z.pos m - 2 ^ 52)
      else f64_nan_bits
  end.

Definition f64_add (a b : Z) : Z :=
  f64_of_sf (SFadd 53 1024 (f64_to_sf a) (f64_to_sf b)).
Definition f64_sub (a b : Z) : Z :=
  f64_of_sf (SFsub 53 1024 (f64_to_sf a) (f64_to_sf b)).
Definition f64_mul (a b : Z) : Z :=
  f64_of_sf (SFmul 53 1024 (f64_to_sf a) (f64_to_sf b)).
Definition f64_div (a b : Z) : Z :=
  f64_of_sf (SFdiv 53 1024 (f64_to_sf a) (f64_to_sf b)).
(** [f64::from] of an [i32] (exact). *)
Definition f64_of_Z (z : Z) : Z := f64_of_sf (binary_normalize 53 1024 z 0 false).

(** [f64::next_down], as the standard library computes it on the bits. *)
Definition f64_next_down (b : Z) : Z :=
  if f64_is_nan b || (b =? 2 ^ 63 + f64_inf_bits) then b
  else if f64_abs b =? 0 then 2 ^ 63 + 1
  else if f64_sign b then b + 1 else b - 1.

(** [f64::clamp]: [None] is its panic when [min > max] or a bound is NaN. *)
Definition f64_clamp (x lo hi : Z) : option Z :=
  if negb (f64_leb lo hi) then None
  else
    let x := if f64_ltb x lo then lo else x in
    Some (if f64_ltb hi x then hi else x).

(** Negation, [f64::max] and [f64::min]: a NaN operand loses. *)
Definition f64_neg (b : Z) : Z := if f64_sign b then b - 2 ^ 63 else b + 2 ^ 63.
Definition f64_max (a b : Z) : Z :=
  if f64_is_nan a then b else if f64_is_nan b then a else if f64_ltb a b then b else a.
Definition f64_min (a b : Z) : Z :=
  if f64_is_nan a then b else if f64_is_nan b then a else if f64_ltb b a then b else a.
(** [Duration::as_secs_f64]. *)
Definition f64_nanos_per_sec : Z := 0x41CDCD6500000000. (* 1_000_000_000.0 *)
Definition as_secs_f64 (d : Z) : Z :=
  f64_add (f64_of_Z (d / 1000000000)) (f64_div (f64_of_Z (d mod 1000000000)) f64_nanos_per_sec).

Definition f64_zero : Z := 0.
Definition f64_one : Z := 0x3FF0000000000000.

(** ** binary32, of which only comparisons are used *)

Definition f32_sign (b : Z) : bool := 2 ^ 31 <=? b.
Definition f32_abs (b : Z) : Z := if f32_sign b then b - 2 ^ 31 else b.
Definition f32_inf_bits : Z := 0x7F800000.
Definition f32_is_finite (b : Z) : bool := f32_abs b <? f32_inf_bits.
Definition f32_is_nan (b : Z) : bool := f32_inf_bits <? f32_abs b.
Definition f32_key (b : Z) : Z := if f32_sign b then 2 ^ 31 - b else b.
Definition f32_eqb (a b : Z) : bool :=
  negb (f32_is_nan a) && negb (f32_is_nan b) && (f32_key a =? f32_key b).
Definition f32_leb (a b : Z) : bool :=
  negb (f32_is_nan a) && negb (f32_is_nan b) && (f32_key a <=? f32_key b).

(** [f64::from] of an [f32]. *)
Definition f64_of_f32 (b : Z) : Z :=
  let sign := if f32_sign b then 2 ^ 63 else 0 in
  let e := (f32_abs b) ≫ 23 in
  let m := Z.land b (2 ^ 23 - 1) in
  if e =? 0 then
    if m =? 0 then sign
    else let k := Z.log2 m in sign + (k - 149 + 1023) * 2 ^ 52 + (m - 2 ^ k) * 2 ^ (52 - k)
  else if e =? 255 then
    if m =? 0 then sign + 2047 * 2 ^ 52 else sign + 2047 * 2 ^ 52 + Z.lor (m * 2 ^ 29) (2 ^ 51)
  else sign + (e - 127 + 1023) * 2 ^ 52 + m * 2 ^ 29.

(** ** Lemmas *)

Ltac unfold_f64 :=
  unfold f64_eqb, f64_ltb, f64_leb, f64_is_nan, f64_is_finite, f64_key, f64_abs,
    f64_sign, f64_inf_bits, f64_nan_bits in *.

(** Case analysis on every guard of a goal about patterns. *)
Ltac f64_cases :=
  unfold_f64; unfold_int;
  repeat match goal with
  | |- context [if ?b then _ else _] => destruct b eqn:?
  | H : context [if ?b then _ else _] |- _ => destruct b eqn:?
  end; bool_inv.

Section Order.

Lemma f64_finite_not_nan b : f64_is_finite b = true -> f64_is_nan b = false.
Proof. unfold f64_is_finite, f64_is_nan. intros. bool_inv. apply Z.ltb_ge. lia. Qed.

Lemma f64_leb_refl b : f64_is_nan b = false -> f64_leb b b = true.
Proof. intros H. unfold f64_leb. rewrite H. cbn. apply Z.leb_refl. Qed.

Lemma f64_leb_spec a b :
  f64_is_nan a = false -> f64_is_nan b = false ->
  f64_leb a b = (f64_key a <=? f64_key b).
Proof. intros Ha Hb. unfold f64_leb. now rewrite Ha, Hb. Qed.

Lemma f64_ltb_spec a b :
  f64_is_nan a = false -> f64_is_nan b = false ->
  f64_ltb a b = (f64_key a <? f64_key b).
Proof. intros Ha Hb. unfold f64_ltb. now rewrite Ha, Hb. Qed.

Lemma f64_ltb_inv a b :
  f64_ltb a b = true ->
  f64_is_nan a = false /\ f64_is_nan b = false /\ f64_key a < f64_key b.
Proof. unfold f64_ltb. intros. bool_inv. auto. Qed.

Lemma f64_leb_inv a b :
  f64_leb a b = true ->
  f64_is_nan a = false /\ f64_is_nan b = false /\ f64_key a <= f64_key b.
Proof. unfold f64_leb. intros. bool_inv. auto. Qed.

Lemma f64_next_down_not_nan b :
  is_u64 b -> f64_is_nan b = false -> f64_is_nan (f64_next_down b) = false.
Proof.
  intros Hb Hn. unfold f64_next_down. rewrite Hn. cbn [orb].
  apply Z.ltb_ge. f64_cases; lia.
Qed.

(** [next_down] is the predecessor in the key order. *)
Lemma f64_next_down_key b :
  is_u64 b -> f64_is_nan b = false -> b <> 2 ^ 63 + f64_inf_bits ->
  f64_key (f64_next_down b) = f64_key b - 1.
Proof.
  intros Hb Hn Hi. unfold f64_next_down. rewrite Hn.
  apply Z.eqb_neq in Hi. rewrite Hi. cbn [orb].
  f64_cases; lia.
Qed.

(** A clamp between comparable bounds never panics and stays between them. *)
Lemma f64_clamp_bounds x lo hi :
  f64_leb lo hi = true -> f64_is_nan x = false ->
  exists y, f64_clamp x lo hi = Some y
    /\ f64_leb lo y = true /\ f64_leb y hi = true.
Proof.
  intros Hl Hx. unfold f64_clamp. rewrite Hl. cbn [negb].
  apply f64_leb_inv in Hl as (Hlo & Hhi & Hk).
  eexists. split; [reflexivity|].
  rewrite (f64_ltb_spec x lo) by done.
  destruct (f64_key x <? f64_key lo) eqn:E1;
    rewrite f64_ltb_spec by done;
    [destruct (f64_key hi <? f64_key lo) eqn:E2
    |destruct (f64_key hi <? f64_key x) eqn:E2];
    bool_inv; rewrite !f64_leb_spec by done; rewrite !Z.leb_le; lia.
Qed.
End Order.

Section Encoding.

Lemma f64_of_sf_u64 x : is_u64 (f64_of_sf x).
Proof.
  destruct x as [s|s| |s m e]; unfold f64_of_sf, f64_inf_bits, f64_nan_bits;
    unfold_int; try (destruct s; lia); [lia|].
  destruct s; repeat case_match; bool_inv; nia.
Qed.

(** The key order is SpecFloat's comparison of the decoded values. *)
Lemma f64_fields a :
  0 <= a < 2 ^ 63 -> exists e m, a = e * 2 ^ 52 + m /\ a / 2 ^ 52 = e
    /\ a mod 2 ^ 52 = m /\ 0 <= m < 2 ^ 52 /\ 0 <= e < 2 ^ 11.
Proof.
  intros H. exists (a / 2 ^ 52), (a mod 2 ^ 52).
  pose proof (Z.div_mod a (2 ^ 52)). pose proof (Z.mod_pos_bound a (2 ^ 52)).
  split_and!; try lia.
Qed.

Lemma f64_abs_range b : is_u64 b -> 0 <= f64_abs b < 2 ^ 63.
Proof. intros. f64_cases; lia. Qed.

Lemma f64_sign_abs b : b = (if f64_sign b then 2 ^ 63 else 0) + f64_abs b.
Proof. unfold f64_abs. destruct (f64_sign b); lia. Qed.

Lemma f64_of_sf_to_sf b :
  is_u64 b -> f64_is_nan b = false -> f64_of_sf (f64_to_sf b) = b.
Proof.
  intros Hb Hn. unfold f64_to_sf.
  destruct (f64_fields (f64_abs b) (f64_abs_range b Hb)) as (e & m & Ha & Hd & Hr & Hm & He).
  rewrite Hd, Hr. clear Hd Hr.
  assert (Hs : b = (if f64_sign b then 2 ^ 63 else 0) + (e * 2 ^ 52 + m)).
  { rewrite <- Ha. apply f64_sign_abs. }
  assert (Hle : e * 2 ^ 52 + m <= f64_inf_bits).
  { rewrite <- Ha. unfold f64_is_nan in Hn. bool_inv. exact Hn. }
  unfold f64_inf_bits in Hle.
  destruct (e =? 0) eqn:E0; bool_inv; [destruct (m =? 0) eqn:M0|destruct (e =? 2047) eqn:E1];
    bool_inv; [| | destruct (m =? 0) eqn:M0; bool_inv |]; cbn [f64_of_sf].
  - lia.
  - rewrite Z2Pos.id by lia. repeat case_match; bool_inv; lia.
  - unfold f64_inf_bits. lia.
  - lia.
  - rewrite Z2Pos.id by lia. repeat case_match; bool_inv; lia.
Qed.

Ltac compare_goal :=
  match goal with
  | |- Some ?x = Some _ => apply (f_equal Some)
  end;
  repeat match goal with
  | |- context [Pos.compare_cont Eq ?p ?q] =>
      change (Pos.compare_cont Eq p q) with (Pos.compare p q); rewrite Pos2Z.inj_compare
  | |- context [Z.pos (Z.to_pos ?z)] => rewrite (Z2Pos.id z) by lia
  end;
  repeat match goal with
  | |- context [Z.compare ?x ?y] => destruct (Z.compare_spec x y)
  end; cbn [CompOpp]; try reflexivity; lia.

Lemma f64_key_compare a b :
  is_u64 a -> is_u64 b -> f64_is_nan a = false -> f64_is_nan b = false ->
  SFcompare (f64_to_sf a) (f64_to_sf b) = Some (f64_key a ?= f64_key b).
Proof.
  intros Ha Hb Na Nb. unfold f64_to_sf.
  assert (Ka : f64_key a = if f64_sign a then - f64_abs a else f64_abs a)
    by (unfold f64_key, f64_abs; destruct (f64_sign a); lia).
  assert (Kb : f64_key b = if f64_sign b then - f64_abs b else f64_abs b)
    by (unfold f64_key, f64_abs; destruct (f64_sign b); lia).
  rewrite Ka, Kb. clear Ka Kb.
  unfold f64_is_nan, f64_inf_bits in Na, Nb. bool_inv.
  destruct (f64_fields (f64_abs a) (f64_abs_range a Ha)) as (e & m & Hea & -> & -> & Hm & He).
  destruct (f64_fields (f64_abs b) (f64_abs_range b Hb)) as (e' & m' & Heb & -> & -> & Hm' & He').
  rewrite Hea in *. rewrite Heb in *. clear Hea Heb.
  destruct (e =? 0) eqn:?, (m =? 0) eqn:?, (e' =? 0) eqn:?, (m' =? 0) eqn:?,
    (e =? 2047) eqn:?, (e' =? 2047) eqn:?; bool_inv; try lia;
  destruct (f64_sign a), (f64_sign b); cbn [SFcompare]; compare_goal.
Qed.
End Encoding.

Example f64_add_ex : f64_add f64_one f64_one = 0x4000000000000000.
Proof. reflexivity. Qed.
Example f64_div_ex : f64_div f64_one (f64_of_Z 3) = 0x3FD5555555555555.
Proof. reflexivity. Qed.
