(* ===== verification/F64Arith.v ===== *)
(** * The encoded binary64 arithmetic is SpecFloat's arithmetic

    [F64.f64_of_sf] checks that a finite result is canonical before it packs
    it.  This file shows that the check never fails: rounding returns canonical
    values, so on 64-bit patterns [f64_add], [f64_sub], [f64_mul] and [f64_div]
    decode to exactly the results of SpecFloat ([f64_add_sf] and its
    siblings).  From there come the facts about NaN, infinity and zero that the
    geometry needs. *)

From Corelib Require Import SpecFloat.
From S2P Require Import Prelude F64.

Abbreviation fexp64 := (fexp 53 1024).
Abbreviation valid64 := (valid_binary 53 1024).

Ltac unfold_fexp := unfold fexp, emin in *.

(** ** Digits *)

Section Digits.

Lemma digits2_pos_log2 p : Z.pos (digits2_pos p) = Z.log2 (Z.pos p) + 1.
Proof.
  induction p as [p IH|p IH|]; cbn [digits2_pos]; [| |reflexivity];
    rewrite Pos2Z.inj_succ, IH.
  - rewrite (Pos2Z.inj_xI p), Z.log2_succ_double by lia. lia.
  - rewrite (Pos2Z.inj_xO p), Z.log2_double by lia. lia.
Qed.

Lemma digits_pos m : 0 < m -> Zdigits2 m = Z.log2 m + 1.
Proof. destruct m; [lia| |lia]. intros _. apply digits2_pos_log2. Qed.

Lemma digits_nonneg m : 0 <= m -> 0 <= Zdigits2 m.
Proof. destruct m; cbn; lia. Qed.

Lemma digits_bounds m : 0 < m -> 2 ^ (Zdigits2 m - 1) <= m < 2 ^ Zdigits2 m.
Proof.
  intros H. rewrite digits_pos by done. replace (Z.log2 m + 1 - 1) with (Z.log2 m) by lia.
  rewrite Z.add_1_r. by apply Z.log2_spec.
Qed.

(** The digit count is the least exponent that bounds the integer. *)
Lemma digits_le m d : 0 <= m -> 0 <= d -> m < 2 ^ d -> Zdigits2 m <= d.
Proof.
  intros Hm Hd H. destruct (Z.eq_dec m 0) as [->|]; [cbn; lia|].
  rewrite digits_pos by lia. apply Z.log2_lt_pow2 in H; lia.
Qed.

Lemma digits_ge m d : 0 <= d -> 2 ^ d <= m -> d + 1 <= Zdigits2 m.
Proof.
  intros Hd H. pose proof (Z.pow_pos_nonneg 2 d). rewrite digits_pos by lia.
  apply Z.log2_le_pow2 in H; lia.
Qed.

Lemma digits_mono a b : 0 <= a <= b -> Zdigits2 a <= Zdigits2 b.
Proof.
  intros H. destruct (Z.eq_dec a 0) as [->|]; [apply digits_nonneg; lia|].
  rewrite !digits_pos by lia. pose proof (Z.log2_le_mono a b). lia.
Qed.

Lemma digits_div m n :
  0 <= m -> 0 <= n -> Zdigits2 (m / 2 ^ n) = Z.max 0 (Zdigits2 m - n).
Proof.
  intros Hm Hn. destruct (Z.eq_dec m 0) as [->|].
  { rewrite Z.div_0_l by lia. cbn. lia. }
  destruct (Z_lt_le_dec m (2 ^ n)) as [Hlt|Hge].
  - rewrite Z.div_small by lia. pose proof (digits_le m n). cbn. lia.
  - pose proof (digits_ge m n Hn Hge).
    pose proof (Z.div_str_pos m (2 ^ n)).
    rewrite digits_pos by lia. rewrite <- Z.shiftr_div_pow2 by done.
    rewrite Z.log2_shiftr by lia. rewrite (digits_pos m) in * by lia. lia.
Qed.

Lemma digits_shiftl m n : 0 < m -> 0 <= n -> Zdigits2 (m * 2 ^ n) = Zdigits2 m + n.
Proof.
  intros Hm Hn. pose proof (Z.pow_pos_nonneg 2 n).
  rewrite !digits_pos by nia. rewrite Z.log2_mul_pow2 by lia. lia.
Qed.
End Digits.

(** ** Rounding *)

Section Rounding.

Lemma shr_1_m r : 0 <= shr_m r -> shr_m (shr_1 r) = shr_m r / 2.
Proof.
  destruct r as [m r s]. cbn [shr_m]. intros H.
  rewrite <- Z.div2_div. destruct m as [|[p|p|]|p]; cbn; try reflexivity; lia.
Qed.

Lemma iter_shr_m p r : 0 <= shr_m r -> shr_m (SpecFloat.iter_pos shr_1 p r) = shr_m r / 2 ^ Z.pos p.
Proof.
  assert (Hdiv : forall a b c, 0 <= a -> 0 <= b -> c / 2 ^ a / 2 ^ b = c / 2 ^ (a + b)).
  { intros a b c Ha Hb. pose proof (Z.pow_pos_nonneg 2 a). pose proof (Z.pow_pos_nonneg 2 b).
    rewrite Z.pow_add_r, Z.div_div by lia. reflexivity. }
  revert r. induction p as [p IH|p IH|]; intros r Hr; cbn [SpecFloat.iter_pos].
  - assert (H1 := shr_1_m r Hr). assert (H2 : 0 <= shr_m (shr_1 r)) by (rewrite H1; apply Z.div_pos; lia).
    rewrite !IH; [|done|rewrite IH by done; apply Z.div_pos; [done|lia]].
    rewrite H1. change 2 with (2 ^ 1) at 1. rewrite !Hdiv by lia. do 2 f_equal. lia.
  - rewrite !IH; [|done|rewrite IH by done; apply Z.div_pos; [done|lia]].
    rewrite Hdiv by lia. do 2 f_equal. lia.
  - by rewrite shr_1_m.
Qed.

Lemma shr_record_m m l : shr_m (shr_record_of_loc m l) = m.
Proof. by destruct l as [|[]]. Qed.

(** Shifting to the canonical exponent, when the mantissa is long enough. *)
Lemma shr_fexp_spec m e l :
  0 <= m -> e <= fexp64 (Zdigits2 m + e) ->
  exists r, shr_fexp 53 1024 m e l = (r, fexp64 (Zdigits2 m + e))
    /\ shr_m r = m / 2 ^ (fexp64 (Zdigits2 m + e) - e).
Proof.
  intros Hm He. unfold shr_fexp, shr.
  destruct (fexp64 (Zdigits2 m + e) - e) as [|p|p] eqn:E; [| |lia].
  - eexists. split; [f_equal; lia|]. rewrite shr_record_m, Z.div_1_r. done.
  - eexists. split; [f_equal; lia|]. rewrite iter_shr_m; rewrite shr_record_m; done.
Qed.

Lemma round_even_cases m l :
  round_nearest_even m l = m \/ round_nearest_even m l = m + 1.
Proof. destruct l as [|[]]; cbn; try case_match; auto. Qed.

(** A mantissa shifted to its canonical exponent is canonical or zero. *)
Lemma fexp_shifted m e :
  0 <= m -> e <= fexp64 (Zdigits2 m + e) ->
  let e' := fexp64 (Zdigits2 m + e) in
  let m' := m / 2 ^ (e' - e) in
  0 <= m' /\ e' <= fexp64 (Zdigits2 m' + e')
  /\ (0 < m' -> fexp64 (Zdigits2 m' + e') = e').
Proof.
  intros Hm He e' m'. pose proof (Z.pow_pos_nonneg 2 (e' - e)).
  assert (Hd : Zdigits2 m' = Z.max 0 (Zdigits2 m - (e' - e))) by (apply digits_div; lia).
  split; [apply Z.div_pos; lia|]. rewrite Hd.
  split; [unfold e' in *; unfold_fexp; lia|].
  intros Hp. pose proof (digits_pos m' Hp). pose proof (Z.log2_nonneg m').
  unfold e' in *. unfold_fexp. lia.
Qed.

(** Rounding is canonical and never yields NaN; it is finite when the exact
    value has at most 1023 digits before the point, and nonzero when it has a
    digit at or above the least exponent. *)
Lemma binary_round_aux_spec s m e l :
  0 <= m -> e <= fexp64 (Zdigits2 m + e) ->
  let x := binary_round_aux 53 1024 s m e l in
  valid64 x = true /\ x <> S754_nan
  /\ (Zdigits2 m + e <= 1023 -> forall s', x <> S754_infinity s')
  /\ (-1074 < Zdigits2 m + e -> 0 < m -> forall s', x <> S754_zero s').
Proof.
  intros Hm He x. unfold x, binary_round_aux. clear x.
  destruct (shr_fexp_spec m e l Hm He) as (r & -> & Hr).
  destruct (fexp_shifted m e Hm He) as (Hm' & He' & Hc').
  set (e' := fexp64 (Zdigits2 m + e)) in *. cbv zeta in *. rewrite <- Hr in Hm', He', Hc'.
  assert (Hdig : Zdigits2 (shr_m r) = Z.max 0 (Zdigits2 m - (e' - e)))
    by (rewrite Hr; apply digits_div; lia).
  set (m2 := round_nearest_even (shr_m r) (loc_of_shr_record r)).
  assert (Hm2 : shr_m r <= m2 <= shr_m r + 1)
    by (unfold m2; destruct (round_even_cases (shr_m r) (loc_of_shr_record r)) as [->| ->]; lia).
  clearbody m2. pose proof (digits_mono (shr_m r) m2) as Hmono.
  assert (He2 : e' <= fexp64 (Zdigits2 m2 + e')) by (unfold_fexp; lia).
  destruct (shr_fexp_spec m2 e' loc_Exact ltac:(lia) He2) as (r2 & -> & Hr2).
  destruct (fexp_shifted m2 e' ltac:(lia) He2) as (Hm3 & He3 & Hc3).
  cbv zeta in *. rewrite <- Hr2 in Hm3, He3, Hc3.
  assert (Hd2 : Zdigits2 m2 <= Zdigits2 (shr_m r) + 1).
  { apply digits_le; [lia|pose proof (digits_nonneg (shr_m r)); lia|].
    destruct (Z.eq_dec (shr_m r) 0) as [Hz|].
    - rewrite Hz. cbn. lia.
    - pose proof (digits_bounds (shr_m r)). rewrite Z.pow_add_r by (pose proof (digits_nonneg (shr_m r)); lia). lia. }
  assert (Hd3 : Zdigits2 (shr_m r2) = Z.max 0 (Zdigits2 m2 - (fexp64 (Zdigits2 m2 + e') - e')))
    by (rewrite Hr2; apply digits_div; lia).
  destruct (shr_m r2) as [|p|p] eqn:Ep; [| |lia].
  - split_and!; try done. intros Hbig Hpos s' _.
    assert (0 < shr_m r).
    { destruct (Z.eq_dec (shr_m r) 0) as [Hz|]; [|lia]. exfalso.
      rewrite Hz in Hdig. cbn [Zdigits2] in Hdig. unfold e' in *. unfold_fexp. lia. }
    pose proof (digits_pos m2 ltac:(lia)). pose proof (Z.log2_nonneg m2).
    cbn [Zdigits2] in Hd3. unfold e' in *. unfold_fexp. lia.
  - destruct (fexp64 (Zdigits2 m2 + e') <=? 1024 - 53) eqn:Ei; split_and!; try done.
    + cbn [valid_binary]. unfold bounded, canonical_mantissa.
      apply andb_true_intro. split; [|done]. apply Z.eqb_eq. apply Hc3. lia.
    + intros Hs s' _. bool_inv. unfold e' in *. unfold_fexp. lia.
Qed.
End Rounding.

(** ** Encoding and decoding *)

Section Codec64.

(** A valid finite value is subnormal or has exactly 53 digits. *)
Lemma valid_finite s m e :
  valid64 (S754_finite s m e) = true ->
  (Z.pos m < 2 ^ 52 /\ e = -1074) \/ (2 ^ 52 <= Z.pos m < 2 ^ 53 /\ -1074 <= e <= 971).
Proof.
  cbn [valid_binary]. unfold bounded, canonical_mantissa. intros H. bool_inv.
  change (Z.pos (digits2_pos m)) with (Zdigits2 (Z.pos m)) in *.
  pose proof (digits_bounds (Z.pos m) ltac:(lia)) as [Hl Hu].
  destruct (Z_lt_le_dec (Z.pos m) (2 ^ 52)).
  - left. pose proof (digits_le (Z.pos m) 52). unfold_fexp. lia.
  - right. pose proof (digits_ge (Z.pos m) 52).
    assert (Hd : Zdigits2 (Z.pos m) = 53) by (unfold_fexp; lia).
    rewrite Hd in *. unfold_fexp. lia.
Qed.

Lemma valid_of_digits s m e :
  (Z.pos m < 2 ^ 52 /\ e = -1074) \/ (2 ^ 52 <= Z.pos m < 2 ^ 53 /\ -1074 <= e <= 971) ->
  valid64 (S754_finite s m e) = true.
Proof.
  intros H. cbn [valid_binary]. unfold bounded, canonical_mantissa.
  change (Z.pos (digits2_pos m)) with (Zdigits2 (Z.pos m)).
  apply andb_true_intro. rewrite Z.eqb_eq, Z.leb_le.
  pose proof (digits_le (Z.pos m) 52). pose proof (digits_le (Z.pos m) 53).
  pose proof (digits_ge (Z.pos m) 52). unfold_fexp. lia.
Qed.

Lemma f64_to_sf_valid b : is_u64 b -> valid64 (f64_to_sf b) = true.
Proof.
  intros Hb. unfold f64_to_sf.
  destruct (f64_fields (f64_abs b) (f64_abs_range b Hb)) as (e & m & Ha & -> & -> & Hm & He).
  repeat case_match; bool_inv; try done; apply valid_of_digits; rewrite Z2Pos.id by lia; lia.
Qed.

(** Sign and magnitude of a packed pattern. *)
Lemma f64_packed (s : bool) a :
  0 <= a < 2 ^ 63 ->
  f64_sign ((if s then 2 ^ 63 else 0) + a) = s /\ f64_abs ((if s then 2 ^ 63 else 0) + a) = a.
Proof.
  intros Ha. unfold f64_abs, f64_sign.
  destruct s; [rewrite (proj2 (Z.leb_le _ _)) by lia|rewrite (proj2 (Z.leb_gt _ _)) by lia];
    split; try reflexivity; lia.
Qed.

(** Decoding inverts encoding on every valid value. *)
Lemma f64_to_of_sf x : valid64 x = true -> f64_to_sf (f64_of_sf x) = x.
Proof.
  destruct x as [s|s| |s m e]; intros Hv; [by destruct s|by destruct s|reflexivity|].
  pose proof (valid_finite _ _ _ Hv) as [[Hm He]|[Hm He]]; cbn [f64_of_sf].
  - rewrite (proj2 (Z.ltb_lt _ _)), (proj2 (Z.eqb_eq _ _)) by done. cbn [andb].
    unfold f64_to_sf. destruct (f64_packed s (Z.pos m)) as [-> ->]; [lia|].
    rewrite Z.div_small, Z.mod_small by lia. cbn. by subst e.
  - rewrite (proj2 (Z.ltb_ge _ _)), !(proj2 (Z.leb_le _ _)), (proj2 (Z.ltb_lt _ _)) by lia. cbn [andb].
    unfold f64_to_sf. rewrite <- Z.add_assoc.
    destruct (f64_packed s ((e + 1075) * 2 ^ 52 + (Z.pos m - 2 ^ 52))) as [-> ->]; [lia|].
    rewrite div_field, mod_field by lia.
    rewrite (proj2 (Z.eqb_neq (e + 1075) 0)), (proj2 (Z.eqb_neq _ 2047)) by lia.
    f_equal; [|lia]. replace (Z.pos m - 2 ^ 52 + 2 ^ 52) with (Z.pos m) by lia. reflexivity.
Qed.
End Codec64.

(** ** The four operations *)

Section Operations.

Lemma shl_align_m m e e' :
  Z.pos (fst (shl_align m e e')) = Z.pos m * 2 ^ (Z.max 0 (e - e')).
Proof.
  unfold shl_align. destruct (e' - e) as [|d|d] eqn:E; cbn [fst].
  - replace (Z.max 0 (e - e')) with 0 by lia. lia.
  - replace (Z.max 0 (e - e')) with 0 by lia. lia.
  - replace (Z.max 0 (e - e')) with (Z.pos d) by lia.
    rewrite <- (Pos2Z.inj_pow 2 d), <- Pos2Z.inj_mul. f_equal. clear.
    induction d as [|d IH] using Pos.peano_ind; [cbn; lia|].
    rewrite Pos.iter_succ, IH, Pos.pow_succ_r. lia.
Qed.

(** The facts of a rounding of the exact value [m * 2 ^ e]. *)
Definition rounds (x : spec_float) (m e : Z) : Prop :=
  valid64 x = true /\ x <> S754_nan
  /\ (Zdigits2 (Z.abs m) + e <= 1023 -> forall s, x <> S754_infinity s)
  /\ (m <> 0 -> -1074 <= e -> forall s, x <> S754_zero s).

Lemma binary_normalize_spec m e s : rounds (binary_normalize 53 1024 m e s) m e.
Proof.
  assert (Hpos : forall sx p, rounds (binary_round 53 1024 sx p e) (Z.pos p) e).
  { intros sx p. unfold binary_round.
    set (e' := fexp64 (Z.pos (digits2_pos p) + e)).
    pose proof (shl_align_m p e e') as Hz.
    assert (He : snd (shl_align p e e') = Z.min e e')
      by (unfold shl_align; destruct (e' - e) eqn:?; cbn; lia).
    destruct (shl_align p e e') as [mz ez]. cbn [fst snd] in *.
    assert (Hd : Zdigits2 (Z.pos mz) + ez = Zdigits2 (Z.pos p) + e)
      by (rewrite Hz, digits_shiftl by lia; lia).
    destruct (binary_round_aux_spec sx (Z.pos mz) ez loc_Exact) as (H1 & H2 & H3 & H4); [lia| |].
    { rewrite Hd. change (Zdigits2 (Z.pos p)) with (Z.pos (digits2_pos p)). fold e'. lia. }
    rewrite Hd in *. unfold rounds. split_and!; try done.
    intros _ Hz'. apply H4; [|lia]. pose proof (digits_pos (Z.pos p)). pose proof (Z.log2_nonneg (Z.pos p)). lia. }
  destruct m as [|p|p]; cbn [binary_normalize].
  - unfold rounds. split_and!; done.
  - apply Hpos.
  - destruct (Hpos true p) as (H1 & H2 & H3 & H4). unfold rounds. split_and!; try done.
    intros _. by apply H4.
Qed.

Lemma SFadd_valid x y : valid64 x = true -> valid64 y = true -> valid64 (SFadd 53 1024 x y) = true.
Proof.
  intros Hx Hy. destruct x as [[]|[]| |? ? ?], y as [[]|[]| |? ? ?]; try done.
  cbn [SFadd]. cbv zeta. apply binary_normalize_spec.
Qed.

Lemma SFsub_valid x y : valid64 x = true -> valid64 y = true -> valid64 (SFsub 53 1024 x y) = true.
Proof.
  intros Hx Hy. destruct x as [[]|[]| |? ? ?], y as [[]|[]| |? ? ?]; try done.
  cbn [SFsub]. cbv zeta. apply binary_normalize_spec.
Qed.

Lemma SFmul_round s m1 e1 m2 e2 s1 s2 :
  valid64 (S754_finite s1 m1 e1) = true -> valid64 (S754_finite s2 m2 e2) = true ->
  let x := binary_round_aux 53 1024 s (Z.pos (m1 * m2)) (e1 + e2) loc_Exact in
  valid64 x = true /\ x <> S754_nan.
Proof.
  intros H1%valid_finite H2%valid_finite x.
  destruct (binary_round_aux_spec s (Z.pos (m1 * m2)) (e1 + e2) loc_Exact) as (? & ? & _); [lia| |done].
  assert (Hbig : 2 ^ 52 <= Z.pos (m1 * m2) -> 53 <= Zdigits2 (Z.pos (m1 * m2)))
    by (intros; pose proof (digits_ge (Z.pos (m1 * m2)) 52); lia).
  rewrite Pos2Z.inj_mul in *. pose proof (digits_nonneg (Z.pos m1 * Z.pos m2)).
  destruct H1 as [[? ->]|[? ?]]; [destruct H2 as [[? ->]|[? ?]]|]; unfold_fexp; [lia| |];
    specialize (Hbig ltac:(nia)); lia.
Qed.

Lemma SFmul_valid x y : valid64 x = true -> valid64 y = true -> valid64 (SFmul 53 1024 x y) = true.
Proof.
  intros Hx Hy. destruct x as [s1|s1| |s1 m1 e1], y as [s2|s2| |s2 m2 e2]; try done.
  cbn [SFmul]. by apply (SFmul_round _ m1 e1 m2 e2 s1 s2).
Qed.

Lemma SFdiv_round s m1 e1 m2 e2 :
  let '(q, e, l) := SFdiv_core_binary 53 1024 (Z.pos m1) e1 (Z.pos m2) e2 in
  let x := binary_round_aux 53 1024 s q e l in
  valid64 x = true /\ x <> S754_nan.
Proof.
  unfold SFdiv_core_binary.
  set (e := Z.min (fexp64 (Zdigits2 (Z.pos m1) + e1 - (Zdigits2 (Z.pos m2) + e2))) (e1 - e2)).
  set (n := e1 - e2 - e).
  assert (Hn : 0 <= n) by (unfold n, e; lia).
  assert (Hm : match n with Z0 => Z.pos m1 | Z.pos _ => Z.shiftl (Z.pos m1) n | Z.neg _ => 0 end
               = Z.pos m1 * 2 ^ n).
  { destruct n; [lia|by rewrite Z.shiftl_mul_pow2|lia]. }
  rewrite Hm. pose proof (Z_div_mod (Z.pos m1 * 2 ^ n) (Z.pos m2) ltac:(lia)) as Hq.
  destruct (Z.div_eucl (Z.pos m1 * 2 ^ n) (Z.pos m2)) as [q r]. destruct Hq as [Hq Hr].
  pose proof (Z.pow_pos_nonneg 2 n).
  assert (Hq0 : 0 <= q) by nia.
  destruct (binary_round_aux_spec s q e (new_location (Z.pos m2) r)) as (? & ? & _); [done| |done].
  enough (Zdigits2 (Z.pos m1) + n - Zdigits2 (Z.pos m2) <= Zdigits2 q)
    by (unfold n, e in *; unfold_fexp; lia).
  rewrite <- digits_shiftl, Hq by lia.
  pose proof (digits_nonneg q Hq0). pose proof (digits_nonneg (Z.pos m2) ltac:(lia)).
  enough (Zdigits2 (Z.pos m2 * q + r) <= Zdigits2 (Z.pos m2) + Zdigits2 q) by lia.
  apply digits_le; [nia|lia|]. rewrite Z.pow_add_r by lia.
  pose proof (digits_bounds (Z.pos m2) ltac:(lia)).
  assert (q < 2 ^ Zdigits2 q) by (destruct (Z.eq_dec q 0) as [->|]; [cbn; lia|apply digits_bounds; lia]).
  nia.
Qed.

Lemma SFdiv_valid x y : valid64 x = true -> valid64 y = true -> valid64 (SFdiv 53 1024 x y) = true.
Proof.
  intros Hx Hy. destruct x as [s1|s1| |s1 m1 e1], y as [s2|s2| |s2 m2 e2]; try done.
  cbn [SFdiv]. pose proof (SFdiv_round (xorb s1 s2) m1 e1 m2 e2) as H.
  destruct (SFdiv_core_binary 53 1024 (Z.pos m1) e1 (Z.pos m2) e2) as [[q e] l]. apply H.
Qed.

(** On 64-bit patterns the encoded operations are SpecFloat's. *)
Lemma f64_add_sf a b : is_u64 a -> is_u64 b ->
  f64_to_sf (f64_add a b) = SFadd 53 1024 (f64_to_sf a) (f64_to_sf b).
Proof. intros. apply f64_to_of_sf, SFadd_valid; by apply f64_to_sf_valid. Qed.
Lemma f64_sub_sf a b : is_u64 a -> is_u64 b ->
  f64_to_sf (f64_sub a b) = SFsub 53 1024 (f64_to_sf a) (f64_to_sf b).
Proof. intros. apply f64_to_of_sf, SFsub_valid; by apply f64_to_sf_valid. Qed.
Lemma f64_mul_sf a b : is_u64 a -> is_u64 b ->
  f64_to_sf (f64_mul a b) = SFmul 53 1024 (f64_to_sf a) (f64_to_sf b).
Proof. intros. apply f64_to_of_sf, SFmul_valid; by apply f64_to_sf_valid. Qed.
Lemma f64_div_sf a b : is_u64 a -> is_u64 b ->
  f64_to_sf (f64_div a b) = SFdiv 53 1024 (f64_to_sf a) (f64_to_sf b).
Proof. intros. apply f64_to_of_sf, SFdiv_valid; by apply f64_to_sf_valid. Qed.
End Operations.

(** ** NaN, infinity and zero *)

Section Classes.

Lemma f64_nan_sf b : is_u64 b -> f64_is_nan b = true <-> f64_to_sf b = S754_nan.
Proof.
  intros Hb. unfold f64_is_nan, f64_to_sf, f64_inf_bits.
  destruct (f64_fields (f64_abs b) (f64_abs_range b Hb)) as (e & m & Ha & -> & -> & Hm & He).
  rewrite Z.ltb_lt, Ha. repeat case_match; bool_inv; (split; intros Hq; [try lia|try discriminate Hq]);
    try reflexivity; lia.
Qed.

Lemma f64_not_nan_sf b : is_u64 b -> f64_is_nan b = false <-> f64_to_sf b <> S754_nan.
Proof. intros Hb. rewrite <- f64_nan_sf by done. by rewrite not_true_iff_false. Qed.

Lemma f64_finite_sf b :
  is_u64 b ->
  f64_is_finite b = true <-> (f64_to_sf b <> S754_nan /\ forall s, f64_to_sf b <> S754_infinity s).
Proof.
  intros Hb. unfold f64_is_finite, f64_to_sf, f64_inf_bits.
  destruct (f64_fields (f64_abs b) (f64_abs_range b Hb)) as (e & m & Ha & -> & -> & Hm & He).
  rewrite Z.ltb_lt, Ha. repeat case_match; bool_inv; (split; [intros Hq; try lia|intros [Hq Hi]; try lia]);
    try done.
  - by specialize (Hi (f64_sign b)).
Qed.

Lemma f64_zero_sf b : is_u64 b -> f64_key b = 0 <-> exists s, f64_to_sf b = S754_zero s.
Proof.
  intros Hb. unfold f64_to_sf.
  assert (K : f64_key b = if f64_sign b then - f64_abs b else f64_abs b)
    by (unfold f64_key, f64_abs; destruct (f64_sign b); lia).
  rewrite K. clear K.
  destruct (f64_fields (f64_abs b) (f64_abs_range b Hb)) as (e & m & Ha & -> & -> & Hm & He).
  rewrite Ha. repeat case_match; bool_inv; (split; [intros Hq; try lia|intros [s' Hq]; try discriminate Hq]);
    eauto; lia.
Qed.

Lemma f64_arith_u64 a b :
  is_u64 (f64_add a b) /\ is_u64 (f64_sub a b) /\ is_u64 (f64_mul a b) /\ is_u64 (f64_div a b).
Proof. split_and!; apply f64_of_sf_u64. Qed.

(** A finite number plus anything but NaN is not NaN. *)
Lemma f64_add_not_nan a b :
  is_u64 a -> is_u64 b -> f64_is_finite a = true -> f64_is_nan b = false ->
  f64_is_nan (f64_add a b) = false.
Proof.
  intros Ha Hb [Fn Fi]%f64_finite_sf Hn%f64_not_nan_sf; try done.
  apply f64_not_nan_sf; [apply f64_of_sf_u64|]. rewrite f64_add_sf by done.
  destruct (f64_to_sf a) as [[]|s| |? ? ?], (f64_to_sf b) as [[]|[]| |? ? ?]; try done;
    try (by specialize (Fi s)).
  apply binary_normalize_spec.
Qed.

(** A finite nonzero number times anything but NaN is not NaN. *)
Lemma f64_mul_not_nan a b :
  is_u64 a -> is_u64 b -> f64_is_finite a = true -> f64_key a <> 0 -> f64_is_nan b = false ->
  f64_is_nan (f64_mul a b) = false.
Proof.
  intros Ha Hb [Fn Fi]%f64_finite_sf Hz Hn%f64_not_nan_sf; try done.
  rewrite f64_zero_sf in Hz by done.
  apply f64_not_nan_sf; [apply f64_of_sf_u64|]. rewrite f64_mul_sf by done.
  pose proof (f64_to_sf_valid a Ha) as Va. pose proof (f64_to_sf_valid b Hb) as Vb.
  destruct (f64_to_sf a) as [s|s| |s1 m1 e1], (f64_to_sf b) as [s'|s'| |s2 m2 e2]; try done;
    try (by specialize (Fi s)); try (by destruct Hz; eauto).
  by apply (SFmul_round _ m1 e1 m2 e2 s1 s2).
Qed.

(** Multiplication is NaN-free from the other side as well. *)
Lemma f64_mul_not_nan_r a b :
  is_u64 a -> is_u64 b -> f64_is_nan a = false -> f64_is_finite b = true -> f64_key b <> 0 ->
  f64_is_nan (f64_mul a b) = false.
Proof.
  intros Ha Hb Hn%f64_not_nan_sf [Fn Fi]%f64_finite_sf Hz; try done.
  rewrite f64_zero_sf in Hz by done.
  apply f64_not_nan_sf; [apply f64_of_sf_u64|]. rewrite f64_mul_sf by done.
  pose proof (f64_to_sf_valid a Ha) as Va. pose proof (f64_to_sf_valid b Hb) as Vb.
  destruct (f64_to_sf a) as [s'|s'| |s1 m1 e1], (f64_to_sf b) as [s|s| |s2 m2 e2]; try done;
    try (by specialize (Fi s)); try (by destruct Hz; eauto).
  by apply (SFmul_round _ m1 e1 m2 e2 s1 s2).
Qed.

(** A finite number over a finite nonzero one is not NaN. *)
Lemma f64_div_not_nan a b :
  is_u64 a -> is_u64 b -> f64_is_finite a = true -> f64_is_finite b = true -> f64_key b <> 0 ->
  f64_is_nan (f64_div a b) = false.
Proof.
  intros Ha Hb [Fn Fi]%f64_finite_sf [Gn Gi]%f64_finite_sf Hz; try done.
  rewrite f64_zero_sf in Hz by done.
  apply f64_not_nan_sf; [apply f64_of_sf_u64|]. rewrite f64_div_sf by done.
  destruct (f64_to_sf a) as [s'|s'| |s1 m1 e1], (f64_to_sf b) as [s|s| |s2 m2 e2]; try done;
    try (by specialize (Fi s')); try (by specialize (Gi s)); try (by destruct Hz; eauto).
  cbn [SFdiv]. pose proof (SFdiv_round (xorb s1 s2) m1 e1 m2 e2) as H.
  destruct (SFdiv_core_binary 53 1024 (Z.pos m1) e1 (Z.pos m2) e2) as [[q e] l]. apply H.
Qed.

(** Finite operands subtract without NaN; unequal ones to a nonzero result. *)
Lemma f64_sub_finite_operands a b :
  is_u64 a -> is_u64 b -> f64_is_finite a = true -> f64_is_finite b = true ->
  f64_is_nan (f64_sub a b) = false /\ (f64_key a <> f64_key b -> f64_key (f64_sub a b) <> 0).
Proof.
  intros Ha Hb Fa Fb.
  pose proof (f64_key_compare a b Ha Hb (f64_finite_not_nan a Fa) (f64_finite_not_nan b Fb)) as Hk.
  apply f64_finite_sf in Fa as [Fn Fi]; [|done]. apply f64_finite_sf in Fb as [Gn Gi]; [|done].
  rewrite f64_not_nan_sf, f64_zero_sf by apply f64_of_sf_u64. rewrite !f64_sub_sf by done.
  pose proof (f64_to_sf_valid a Ha) as Va. pose proof (f64_to_sf_valid b Hb) as Vb.
  assert (Hne : f64_key a <> f64_key b -> SFcompare (f64_to_sf a) (f64_to_sf b) <> Some Eq).
  { rewrite Hk. intros Hd [= E%Z.compare_eq]. done. }
  clear Hk. destruct (f64_to_sf a) as [s1|s1| |s1 m1 e1], (f64_to_sf b) as [s2|s2| |s2 m2 e2];
    try done; try (by specialize (Fi s1)); try (by specialize (Gi s2)); cbn [SFsub].
  - split; [by destruct s1, s2|]. intros Hd. by specialize (Hne Hd).
  - split; [done|]. by intros _ [? ?].
  - split; [done|]. by intros _ [? ?].
  - cbv zeta. set (d := (_ - _)%Z).
    destruct (binary_normalize_spec d (Z.min e1 e2) false) as (_ & H1 & _ & H2).
    split; [done|]. intros Hd [s Hs]. specialize (Hne Hd). revert Hs. apply H2.
    2:{ apply valid_finite in Va, Vb. lia. }
    intros Hz. apply Hne. unfold d, cond_Zopp in Hz. clear - Hz Va Vb.
    rewrite !shl_align_m in Hz.
    pose proof (Z.pow_pos_nonneg 2 (Z.max 0 (e1 - Z.min e1 e2))).
    pose proof (Z.pow_pos_nonneg 2 (Z.max 0 (e2 - Z.min e1 e2))).
    assert (Hs : s1 = s2) by (destruct s1, s2; nia). subst s2.
    assert (Hm : Z.pos m1 * 2 ^ Z.max 0 (e1 - Z.min e1 e2)
                 = Z.pos m2 * 2 ^ Z.max 0 (e2 - Z.min e1 e2)) by (destruct s1; lia).
    pose proof (f_equal Zdigits2 Hm) as Hdg. rewrite !digits_shiftl in Hdg by lia.
    assert (e1 = e2).
    { apply andb_true_iff in Va as [Va _], Vb as [Vb _].
      unfold canonical_mantissa in Va, Vb. bool_inv. cbn [Zdigits2] in Hdg.
      unfold_fexp. lia. }
    subst e2. rewrite Z.min_id, Z.sub_diag, Z.max_id in Hm. assert (m1 = m2) by lia. subst m2.
    cbn [SFcompare]. rewrite Z.compare_refl, Pos.compare_cont_refl. by destruct s1.
Qed.

(** Numbers of the unit interval, which include both zeros, subtract to a
    finite number. *)
Lemma f64_sub_unit_finite a b :
  is_u64 a -> is_u64 b -> 0 <= f64_key a <= f64_one -> 0 <= f64_key b <= f64_one ->
  f64_is_finite (f64_sub a b) = true.
Proof.
  intros Ha Hb Ka Kb.
  assert (Hunit : forall x, is_u64 x -> 0 <= f64_key x <= f64_one ->
    exists s, f64_to_sf x = S754_zero s \/ exists m e, f64_to_sf x = S754_finite s m e
      /\ Zdigits2 (Z.pos m) + e <= 1).
  { intros x Hx Kx. exists (f64_sign x). unfold f64_to_sf.
    assert (K : f64_abs x <= f64_one).
    { revert Kx. unfold f64_key, f64_abs, f64_sign, f64_one. unfold_int. case_match; bool_inv; lia. }
    destruct (f64_fields (f64_abs x) (f64_abs_range x Hx)) as (e & m & Hax & -> & -> & Hm & He).
    unfold f64_one in K. rewrite Hax in K.
    repeat case_match; bool_inv; [by left| |lia|lia|]; right; do 2 eexists; (split; [reflexivity|]);
      rewrite Z2Pos.id by lia.
    - pose proof (digits_le m 52). lia.
    - pose proof (digits_le (m + 2 ^ 52) 53). lia. }
  destruct (Hunit a Ha Ka) as (s1 & H1), (Hunit b Hb Kb) as (s2 & H2). clear Hunit.
  apply f64_finite_sf; [apply f64_of_sf_u64|]. rewrite f64_sub_sf by done.
  destruct H1 as [->|(m1 & e1 & -> & D1)], H2 as [->|(m2 & e2 & -> & D2)].
  - by destruct s1, s2.
  - done.
  - done.
  - cbn [SFsub]. cbv zeta. set (d := (_ - _)%Z). set (e := Z.min e1 e2).
    destruct (binary_normalize_spec d e false) as (_ & Hn & Hi & _).
    split; [done|]. apply Hi. clear Hn Hi.
    assert (Hb1 : forall m e', Zdigits2 (Z.pos m) + e' <= 1 -> e <= e' ->
                  Z.pos (fst (shl_align m e' e)) < 2 ^ (1 - e)).
    { intros m e' Hd He'. rewrite shl_align_m, (Z.max_r 0 (e' - e)) by lia.
      pose proof (digits_bounds (Z.pos m) ltac:(lia)) as [_ Hu].
      pose proof (digits_pos (Z.pos m) ltac:(lia)). pose proof (Z.log2_nonneg (Z.pos m)).
      apply Z.lt_le_trans with (2 ^ Zdigits2 (Z.pos m) * 2 ^ (e' - e)).
      - apply Z.mul_lt_mono_pos_r; [apply Z.pow_pos_nonneg; lia|done].
      - rewrite <- Z.pow_add_r by lia. apply Z.pow_le_mono_r; lia. }
    pose proof (Hb1 m1 e1 D1 ltac:(lia)). pose proof (Hb1 m2 e2 D2 ltac:(lia)). clear Hb1.
    assert (He1 : 0 <= 1 - e).
    { pose proof (digits_pos (Z.pos m1)). pose proof (digits_pos (Z.pos m2)).
      pose proof (Z.log2_nonneg (Z.pos m1)). pose proof (Z.log2_nonneg (Z.pos m2)). lia. }
    assert (Hd : Z.abs d < 2 ^ (2 - e)).
    { replace (2 - e) with (1 - e + 1) by lia. rewrite Z.pow_add_r by lia.
      unfold d, cond_Zopp. fold e. destruct s1, s2; lia. }
    pose proof (digits_le (Z.abs d) (2 - e)). lia.
Qed.
End Classes.
