(* ===== verification/Types.v ===== *)
(** * Platform-neutral identifiers (monhop-core/src/types.rs) and trackpad
      semantics (monhop-core/src/pointer.rs)

    [HidUsage], [DisplayId] and [ModifierState] are newtypes over integers, a
    [DeviceId] is its 16 bytes, a [Point] is a pair of binary64 patterns.  The
    wire bytes of the gesture enumerations are shown to be injective and
    exactly the accepted ones, and [PointerGesture.from_parts] is shown to be
    the one validation rule: it inverts [kind], [phase] and [value] exactly on
    the gestures that [validate] accepts. *)

From S2P Require Import Prelude F64.

Abbreviation DeviceId := (list Z) (only parsing).
Abbreviation DisplayId := Z (only parsing).
Abbreviation HidUsage := Z (only parsing).
Abbreviation ModifierState := Z (only parsing).
Abbreviation f64 := Z (only parsing).

Definition is_device_id (d : DeviceId) : Prop := length d = 16%nat /\ bytes d.
#[global] Instance is_device_id_dec d : Decision (is_device_id d).
Proof. unfold is_device_id. apply _. Defined.

(** [DeviceId]'s order: its bytes, first to last. *)
Fixpoint device_ltb (a b : DeviceId) : bool :=
  match a, b with
  | _, [] => false
  | [], _ => true
  | x :: a, y :: b => (x <? y) || ((x =? y) && device_ltb a b)
  end.
Lemma device_ltb_flip (a b : DeviceId) : length a = length b -> a <> b -> device_ltb b a = negb (device_ltb a b).
Proof.
  revert b. induction a as [|x a IH]; intros [|y b] Hl Hne; try done. injection Hl as Hl. cbn [device_ltb].
  destruct (Z.lt_trichotomy x y) as [H|[->|H]].
  - rewrite (proj2 (Z.ltb_lt x y)), (proj2 (Z.ltb_ge y x)), (proj2 (Z.eqb_neq y x)) by lia. done.
  - rewrite !Z.ltb_irrefl, Z.eqb_refl. cbn [orb andb]. apply IH; congruence.
  - rewrite (proj2 (Z.ltb_lt y x)), (proj2 (Z.ltb_ge x y)), (proj2 (Z.eqb_neq x y)) by lia. done.
Qed.

(** [HidUsage::is_valid] and [HidUsage::is_modifier]. *)
Definition usage_is_valid (usage : HidUsage) : bool :=
  ((0x04 <=? usage) && (usage <=? 0xA4)) || ((0xE0 <=? usage) && (usage <=? 0xE7)).
Definition usage_is_modifier (usage : HidUsage) : bool :=
  (0xE0 <=? usage) && (usage <=? 0xE7).

Inductive Platform := Windows | MacOs.
#[global] Instance Platform_eq_dec : EqDecision Platform.
Proof. solve_decision. Defined.

Inductive MouseButton := LeftButton | RightButton | MiddleButton | BackButton | ForwardButton.
#[global] Instance MouseButton_eq_dec : EqDecision MouseButton.
Proof. solve_decision. Defined.

(** [MouseButton::ALL], [index] and [from_index]. *)
Definition all_buttons : list MouseButton :=
  [LeftButton; RightButton; MiddleButton; BackButton; ForwardButton].
Definition button_index (b : MouseButton) : Z :=
  match b with
  | LeftButton => 0 | RightButton => 1 | MiddleButton => 2
  | BackButton => 3 | ForwardButton => 4
  end.
Definition button_from_index (i : Z) : option MouseButton :=
  match i with
  | 0 => Some LeftButton | 1 => Some RightButton | 2 => Some MiddleButton
  | 3 => Some BackButton | 4 => Some ForwardButton | _ => None
  end.

(** [ModifierState::contains]. *)
Definition modifiers_contain (state mask : Z) : bool := Z.land state mask =? mask.

Record Point := mkPoint { px : f64; py : f64 }.
Add Printing Constructor Point.
#[global] Instance Point_eq_dec : EqDecision Point.
Proof. solve_decision. Defined.
Definition is_point (p : Point) : Prop := is_u64 (px p) /\ is_u64 (py p).
#[global] Instance is_point_dec p : Decision (is_point p).
Proof. unfold is_point. apply _. Defined.
Definition point_is_finite (p : Point) : bool :=
  f64_is_finite (px p) && f64_is_finite (py p).
(** Rust's derived [==] on [Point]: IEEE equality of both coordinates. *)
Definition point_eqb (p q : Point) : bool :=
  f64_eqb (px p) (px q) && f64_eqb (py p) (py q).

(** [topology::MAX_DISPLAYS]. *)
Definition MAX_DISPLAYS : nat := 16.

Record MonitorIdentity := mkMonitorIdentity {
  vendor : Z; product : Z; serial : Z }.
#[global] Instance MonitorIdentity_eq_dec : EqDecision MonitorIdentity.
Proof. solve_decision. Defined.
(** [MonitorIdentity::new]. *)
Definition new_monitor_identity (v p s : Z) : option MonitorIdentity :=
  if (v =? 0) || (p =? 0) then None else Some (mkMonitorIdentity v p s).
(** A value of the type: integers of their width. The constructor's test is a
    separate predicate, because the fields are public. *)
Definition is_monitor_identity (m : MonitorIdentity) : Prop :=
  is_u16 (vendor m) /\ is_u16 (product m) /\ is_u32 (serial m).
#[global] Instance is_monitor_identity_dec m : Decision (is_monitor_identity m).
Proof. unfold is_monitor_identity. apply _. Defined.

(** ** pointer.rs *)

Definition MIN_MAGNIFY_DELTA : f64 := 0xBFF0000000000000. (* -1.0 *)
Definition MAX_MAGNIFY_DELTA : f64 := 0x4010000000000000. (* 4.0 *)
Definition MAX_ROTATE_DEGREES : f64 := 0x4066800000000000. (* 180.0 *)

Inductive GesturePhase := Began | Changed | Ended | Cancelled.
#[global] Instance GesturePhase_eq_dec : EqDecision GesturePhase.
Proof. solve_decision. Defined.
(** [GesturePhase::is_terminal]. *)
Definition phase_is_terminal (p : GesturePhase) : bool :=
  match p with Ended | Cancelled => true | _ => false end.
Definition phase_to_wire (p : GesturePhase) : Z :=
  match p with Began => 1 | Changed => 2 | Ended => 3 | Cancelled => 4 end.
Definition phase_from_wire (v : Z) : option GesturePhase :=
  match v with
  | 1 => Some Began | 2 => Some Changed | 3 => Some Ended | 4 => Some Cancelled
  | _ => None
  end.

Inductive GestureKind := KMagnify | KRotate | KSmartMagnify | KForceClick.
#[global] Instance GestureKind_eq_dec : EqDecision GestureKind.
Proof. solve_decision. Defined.
Definition kind_to_wire (k : GestureKind) : Z :=
  match k with KMagnify => 1 | KRotate => 2 | KSmartMagnify => 3 | KForceClick => 4 end.
Definition kind_from_wire (v : Z) : option GestureKind :=
  match v with
  | 1 => Some KMagnify | 2 => Some KRotate | 3 => Some KSmartMagnify
  | 4 => Some KForceClick | _ => None
  end.
Definition kind_is_discrete (k : GestureKind) : bool :=
  match k with KSmartMagnify | KForceClick => true | _ => false end.

Inductive PointerGesture :=
| Magnify (phase : GesturePhase) (delta : f64)
| Rotate (phase : GesturePhase) (degrees : f64)
| SmartMagnify
| ForceClick.
#[global] Instance PointerGesture_eq_dec : EqDecision PointerGesture.
Proof. solve_decision. Defined.

Inductive GestureError := Shape | NonFinite | OutOfRange.
#[global] Instance GestureError_eq_dec : EqDecision GestureError.
Proof. solve_decision. Defined.

(** [PointerGesture::from_parts]. *)
Definition from_parts (kind : GestureKind) (phase : option GesturePhase) (value : f64)
  : result GestureError PointerGesture :=
  if kind_is_discrete kind then
    if bool_decide (phase <> None) || negb (value =? 0) then Err Shape
    else Ok (match kind with KSmartMagnify => SmartMagnify | _ => ForceClick end)
  else match phase with
  | None => Err Shape
  | Some phase =>
      if negb (f64_is_finite value) then Err NonFinite
      else match kind with
      | KMagnify =>
          if f64_leb value MIN_MAGNIFY_DELTA || f64_ltb MAX_MAGNIFY_DELTA value
          then Err OutOfRange else Ok (Magnify phase value)
      | _ =>
          if f64_ltb MAX_ROTATE_DEGREES (f64_abs value)
          then Err OutOfRange else Ok (Rotate phase value)
      end
  end.

Definition gesture_kind (g : PointerGesture) : GestureKind :=
  match g with
  | Magnify _ _ => KMagnify | Rotate _ _ => KRotate
  | SmartMagnify => KSmartMagnify | ForceClick => KForceClick
  end.
Definition gesture_phase (g : PointerGesture) : option GesturePhase :=
  match g with
  | Magnify phase _ | Rotate phase _ => Some phase
  | SmartMagnify | ForceClick => None
  end.
Definition gesture_value (g : PointerGesture) : f64 :=
  match g with
  | Magnify _ v | Rotate _ v => v
  | SmartMagnify | ForceClick => f64_zero
  end.
(** [PointerGesture::validate]. *)
Definition validate_gesture (g : PointerGesture) : result GestureError () :=
  match from_parts (gesture_kind g) (gesture_phase g) (gesture_value g) with
  | Ok _ => Ok () | Err e => Err e
  end.

Inductive SystemGesture :=
| Overview | AppWindows | DesktopPrevious | DesktopNext | ShowDesktop | Launcher
| NavigateBack | NavigateForward | NotificationCenter | Search
| SwitchAppPrevious | SwitchAppNext.
#[global] Instance SystemGesture_eq_dec : EqDecision SystemGesture.
Proof. solve_decision. Defined.
Definition system_to_wire (g : SystemGesture) : Z :=
  match g with
  | Overview => 1 | AppWindows => 2 | DesktopPrevious => 3 | DesktopNext => 4
  | ShowDesktop => 5 | Launcher => 6 | NavigateBack => 7 | NavigateForward => 8
  | NotificationCenter => 9 | Search => 10 | SwitchAppPrevious => 11
  | SwitchAppNext => 12
  end.
Definition system_from_wire (v : Z) : option SystemGesture :=
  match v with
  | 1 => Some Overview | 2 => Some AppWindows | 3 => Some DesktopPrevious
  | 4 => Some DesktopNext | 5 => Some ShowDesktop | 6 => Some Launcher
  | 7 => Some NavigateBack | 8 => Some NavigateForward
  | 9 => Some NotificationCenter | 10 => Some Search
  | 11 => Some SwitchAppPrevious | 12 => Some SwitchAppNext | _ => None
  end.

(** ** Lemmas *)

Section Wire.

Lemma button_from_index_index b : button_from_index (button_index b) = Some b.
Proof. now destruct b. Qed.
Lemma button_index_from_index i b :
  button_from_index i = Some b -> button_index b = i.
Proof. unfold button_from_index. intros H. repeat case_match; now simplify_eq. Qed.
Lemma button_index_range b : 0 <= button_index b < 5.
Proof. destruct b; cbn; lia. Qed.
#[global] Instance button_index_inj : Inj (=) (=) button_index.
Proof. intros [] []; cbn; congruence. Qed.

Lemma phase_from_to_wire p : phase_from_wire (phase_to_wire p) = Some p.
Proof. now destruct p. Qed.
Lemma phase_to_from_wire v p : phase_from_wire v = Some p -> phase_to_wire p = v.
Proof. unfold phase_from_wire. intros H. repeat case_match; now simplify_eq. Qed.
Lemma phase_wire_range p : 1 <= phase_to_wire p <= 4.
Proof. destruct p; cbn; lia. Qed.

Lemma kind_from_to_wire k : kind_from_wire (kind_to_wire k) = Some k.
Proof. now destruct k. Qed.
Lemma kind_to_from_wire v k : kind_from_wire v = Some k -> kind_to_wire k = v.
Proof. unfold kind_from_wire. intros H. repeat case_match; now simplify_eq. Qed.
Lemma kind_wire_range k : 1 <= kind_to_wire k <= 4.
Proof. destruct k; cbn; lia. Qed.

Lemma system_from_to_wire g : system_from_wire (system_to_wire g) = Some g.
Proof. now destruct g. Qed.
Lemma system_to_from_wire v g : system_from_wire v = Some g -> system_to_wire g = v.
Proof. unfold system_from_wire. intros H. repeat case_match; now simplify_eq. Qed.
Lemma system_wire_range g : 1 <= system_to_wire g <= 12.
Proof. destruct g; cbn; lia. Qed.
End Wire.

Section Gestures.

(** Whatever [from_parts] accepts is rebuilt from the same three parts. *)
Lemma from_parts_parts kind phase value g :
  from_parts kind phase value = Ok g ->
  gesture_kind g = kind /\ gesture_phase g = phase /\ gesture_value g = value.
Proof.
  unfold from_parts. destruct kind, phase as [p|]; cbn;
    repeat case_match; intros; simplify_eq; bool_inv; naive_solver.
Qed.

Lemma from_parts_valid kind phase value g :
  from_parts kind phase value = Ok g -> validate_gesture g = Ok ().
Proof.
  intros H. pose proof (from_parts_parts _ _ _ _ H) as (Hk & Hp & Hv).
  unfold validate_gesture. now rewrite Hk, Hp, Hv, H.
Qed.

Lemma validate_from_parts g :
  validate_gesture g = Ok () ->
  from_parts (gesture_kind g) (gesture_phase g) (gesture_value g) = Ok g.
Proof.
  unfold validate_gesture, from_parts.
  destruct g as [p v|p v| |]; cbn; repeat case_match; naive_solver.
Qed.
End Gestures.
