(* ===== verification/Geometry.v ===== *)
(** * Logical rectangles (monhop-core/src/topology.rs)

    A display's logical bounds as a closed rectangle for membership and as a
    half-open one for ownership of a point, with the clamp into the half-open
    one.  Coordinates are binary64 patterns; [None] is the panic of
    [f64::clamp]. *)

From S2P Require Import Prelude F64 F64Arith Types.

Record LogicalSize := mkSize { width : f64; height : f64 }.
Record LogicalRect := mkRect { rect_origin : Point; rect_size : LogicalSize }.
#[global] Instance LogicalSize_eq_dec : EqDecision LogicalSize.
Proof. solve_decision. Defined.
#[global] Instance LogicalRect_eq_dec : EqDecision LogicalRect.
Proof. solve_decision. Defined.

Definition max_x (r : LogicalRect) : f64 := f64_add (px (rect_origin r)) (width (rect_size r)).
Definition max_y (r : LogicalRect) : f64 := f64_add (py (rect_origin r)) (height (rect_size r)).

(** [LogicalRect::contains]. *)
Definition rect_contains (r : LogicalRect) (p : Point) : bool :=
  point_is_finite p
  && f64_leb (px (rect_origin r)) (px p) && f64_leb (px p) (max_x r)
  && f64_leb (py (rect_origin r)) (py p) && f64_leb (py p) (max_y r).

Definition contains_half_open (r : LogicalRect) (p : Point) : bool :=
  point_is_finite p
  && f64_leb (px (rect_origin r)) (px p) && f64_ltb (px p) (max_x r)
  && f64_leb (py (rect_origin r)) (py p) && f64_ltb (py p) (max_y r).

Definition clamp_half_open (r : LogicalRect) (p : Point) : option Point :=
  x ← f64_clamp (px p) (px (rect_origin r)) (f64_next_down (max_x r));
  y ← f64_clamp (py p) (py (rect_origin r)) (f64_next_down (max_y r));
  Some (mkPoint x y).

(** An axis [lo, hi) that is not empty and whose ends are finite. *)
Definition axis_ok (lo hi : f64) : Prop :=
  is_u64 lo /\ is_u64 hi /\ f64_is_finite lo = true /\ f64_is_finite hi = true
  /\ f64_ltb lo hi = true.
#[global] Instance axis_ok_dec lo hi : Decision (axis_ok lo hi).
Proof. unfold axis_ok. apply _. Defined.
Definition rect_ok (r : LogicalRect) : Prop :=
  axis_ok (px (rect_origin r)) (max_x r) /\ axis_ok (py (rect_origin r)) (max_y r).
#[global] Instance rect_ok_dec r : Decision (rect_ok r).
Proof. unfold rect_ok. apply _. Defined.

(** The coordinate of the half-open axis nearest to [v]. *)
Definition nearest_in (lo hi v : f64) : f64 :=
  if f64_ltb v lo then lo else if f64_ltb v hi then v else f64_next_down hi.

Section Axis.

Lemma f64_next_down_u64 b : is_u64 b -> is_u64 (f64_next_down b).
Proof.
  unfold f64_next_down, f64_is_nan, f64_abs, f64_sign, f64_inf_bits, is_u64, u64_max. intros Hb.
  repeat case_match; bool_inv; lia.
Qed.

Lemma axis_last lo hi :
  axis_ok lo hi ->
  is_u64 (f64_next_down hi) /\ f64_is_nan (f64_next_down hi) = false
  /\ f64_key (f64_next_down hi) = f64_key hi - 1
  /\ f64_leb lo (f64_next_down hi) = true.
Proof.
  intros (Hlo & Hhi & Flo & Fhi & Hlt). apply f64_ltb_inv in Hlt as (Nlo & Nhi & Hk).
  assert (Hinf : hi <> 2 ^ 63 + f64_inf_bits).
  { intros ->. unfold f64_is_finite, f64_abs, f64_sign, f64_inf_bits in Fhi. repeat case_match; bool_inv; lia. }
  pose proof (f64_next_down_key hi Hhi Nhi Hinf) as K.
  pose proof (f64_next_down_not_nan hi Hhi Nhi) as N.
  split_and!; [| done | done |].
  - by apply f64_next_down_u64.
  - rewrite f64_leb_spec by done. apply Z.leb_le. lia.
Qed.

Lemma f64_finite_key b :
  is_u64 b -> f64_is_finite b = true <-> - f64_inf_bits < f64_key b < f64_inf_bits.
Proof.
  intros Hb. unfold f64_is_finite. rewrite Z.ltb_lt. unfold f64_key, f64_abs.
  unfold f64_inf_bits. destruct (f64_sign b) eqn:E; unfold f64_sign in E; bool_inv; unfold_int; lia.
Qed.

(** A pattern between finite ones is finite. *)
Lemma f64_between_finite a b c :
  is_u64 a -> is_u64 b -> is_u64 c -> f64_is_finite a = true -> f64_is_finite c = true ->
  f64_leb a b = true -> f64_leb b c = true -> f64_is_finite b = true.
Proof.
  intros Ha Hb Hc Fa Fc (_ & _ & K1)%f64_leb_inv (_ & _ & K2)%f64_leb_inv.
  rewrite f64_finite_key in * by done. lia.
Qed.

Lemma clamp_axis lo hi v :
  axis_ok lo hi -> is_u64 v -> f64_is_nan v = false ->
  f64_clamp v lo (f64_next_down hi) = Some (nearest_in lo hi v)
  /\ is_u64 (nearest_in lo hi v)
  /\ f64_is_finite (nearest_in lo hi v) = true
  /\ f64_leb lo (nearest_in lo hi v) = true /\ f64_ltb (nearest_in lo hi v) hi = true.
Proof.
  intros Hax Hv Nv. pose proof (axis_last lo hi Hax) as (Ul & Nl & Kl & Hl).
  destruct Hax as (Hlo & Hhi & Flo & Fhi & Hlt). apply f64_ltb_inv in Hlt as (Nlo & Nhi & Hk).
  apply f64_leb_inv in Hl as Hl'.
  assert (Hc : f64_clamp v lo (f64_next_down hi) = Some (nearest_in lo hi v)).
  { unfold f64_clamp, nearest_in. rewrite Hl. cbn [negb].
    rewrite !(f64_ltb_spec v) by done.
    destruct (f64_key v <? f64_key lo) eqn:E1; rewrite f64_ltb_spec by done;
      [|destruct (f64_key v <? f64_key hi) eqn:E2]; case_match; bool_inv; try reflexivity; lia. }
  assert (Hin : is_u64 (nearest_in lo hi v) /\ f64_leb lo (nearest_in lo hi v) = true
                /\ f64_ltb (nearest_in lo hi v) hi = true).
  { unfold nearest_in. rewrite !(f64_ltb_spec v) by done.
    repeat case_match; bool_inv; (split; [done|]); rewrite f64_leb_spec, f64_ltb_spec, Z.leb_le, Z.ltb_lt by done; lia. }
  destruct Hin as (Hu & H1 & H2). split_and!; try done.
  apply (f64_between_finite lo _ hi); try done.
  apply f64_ltb_inv in H2 as (? & ? & ?). rewrite f64_leb_spec, Z.leb_le by done. lia.
Qed.
End Axis.

(** Clamping a point without NaN into a nonempty rectangle. *)
Lemma clamp_half_open_nearest r p :
  rect_ok r -> is_point p -> f64_is_nan (px p) = false -> f64_is_nan (py p) = false ->
  exists q, clamp_half_open r p = Some q /\ is_point q /\ contains_half_open r q = true
    /\ q = mkPoint (nearest_in (px (rect_origin r)) (max_x r) (px p))
                   (nearest_in (py (rect_origin r)) (max_y r) (py p)).
Proof.
  intros [Hx Hy] [Ux Uy] Nx Ny.
  destruct (clamp_axis _ _ (px p) Hx Ux Nx) as (Cx & Ux' & Fx & Lx & Gx).
  destruct (clamp_axis _ _ (py p) Hy Uy Ny) as (Cy & Uy' & Fy & Ly & Gy).
  unfold clamp_half_open. rewrite Cx, Cy. cbn [mbind option_bind].
  eexists. split_and!; [done|done..| |done].
  unfold contains_half_open, point_is_finite. cbn [px py]. by rewrite Fx, Fy, Lx, Gx, Ly, Gy.
Qed.

(** A point inside is its own nearest point. *)
Lemma nearest_inside r p :
  contains_half_open r p = true ->
  mkPoint (nearest_in (px (rect_origin r)) (max_x r) (px p))
          (nearest_in (py (rect_origin r)) (max_y r) (py p)) = p.
Proof.
  unfold contains_half_open. intros Hin. bool_inv. destruct p as [a b]. cbn [px py] in *.
  assert (Hid : forall lo hi v, f64_leb lo v = true -> f64_ltb v hi = true -> nearest_in lo hi v = v).
  { intros lo hi v (? & ? & ?)%f64_leb_inv Hh. unfold nearest_in. rewrite Hh.
    by rewrite f64_ltb_spec, (proj2 (Z.ltb_ge _ _)) by done. }
  by rewrite !Hid.
Qed.

Lemma contains_half_open_finite r p :
  contains_half_open r p = true -> f64_is_finite (px p) = true /\ f64_is_finite (py p) = true.
Proof. unfold contains_half_open, point_is_finite. intros. by bool_inv. Qed.

(** ** Properties *)

(** Clamping into a nonempty rectangle never panics for a point without
    NaN: it returns the nearest point that the half-open rectangle claims, per
    axis, which is the point itself when it was inside; and of two rectangles
    that abut on an axis (one ends where the other begins, or before) no point
    is claimed by both. *)
Theorem clamp_half_open_inside (r r' : LogicalRect) (p : Point) :
  rect_ok r -> is_point p -> f64_is_nan (px p) = false -> f64_is_nan (py p) = false ->
  exists q, clamp_half_open r p = Some q
    /\ contains_half_open r q = true
    /\ q = mkPoint (nearest_in (px (rect_origin r)) (max_x r) (px p))
                   (nearest_in (py (rect_origin r)) (max_y r) (py p))
    /\ (contains_half_open r p = true -> q = p)
    /\ (f64_leb (max_x r) (px (rect_origin r')) = true
        \/ f64_leb (max_y r) (py (rect_origin r')) = true -> contains_half_open r' q = false).
Proof.
  intros Hr Hp Nx Ny. destruct (clamp_half_open_nearest r p Hr Hp Nx Ny) as (q & Hc & _ & Hin & Hq).
  exists q. split_and!; try done.
  - intros Hself. rewrite Hq. by apply nearest_inside.
  - intros Hab. apply not_true_iff_false. unfold contains_half_open in *. intros Hin'. bool_inv.
    assert (Hno : forall a b c, f64_ltb a b = true -> f64_leb b c = true -> f64_leb c a = true -> False).
    { intros a b c (_ & _ & ?)%f64_ltb_inv (_ & _ & ?)%f64_leb_inv (_ & _ & ?)%f64_leb_inv. lia. }
    destruct Hab; eapply Hno; eauto.
Qed.

Definition sample_rect : LogicalRect :=
  mkRect (mkPoint (f64_of_Z 0) (f64_of_Z 0)) (mkSize (f64_of_Z 1920) (f64_of_Z 1080)).

Lemma clamp_half_open_inside_witness :
  contains_half_open sample_rect (mkPoint (f64_of_Z 1920) (f64_of_Z 5)) = false
  /\ exists q, clamp_half_open sample_rect (mkPoint (f64_of_Z 1920) (f64_of_Z 5)) = Some q
    /\ contains_half_open sample_rect q = true.
Proof.
  split; [vm_compute; reflexivity|].
  destruct (clamp_half_open_inside sample_rect sample_rect (mkPoint (f64_of_Z 1920) (f64_of_Z 5)))
    as (q & H1 & H2 & _).
  - eapply bool_decide_eq_true_1. vm_compute. reflexivity.
  - eapply bool_decide_eq_true_1. vm_compute. reflexivity.
  - vm_compute. reflexivity.
  - vm_compute. reflexivity.
  - exact (ex_intro _ q (conj H1 H2)).
Defined.
