(* ===== verification/Floor.v ===== *)
(** * The session floor (monhop-core/src/floor.rs)

    One atomic 64-bit word packs the floor's state, the owning peer's slot and
    a 57-bit generation.  [SharedFloor] is that word; each method is a function
    from the word it acts on to the new word and the method's result, [None]
    being the panic of [from_code].  [FloorSpec] is the abstract floor, a
    snapshot changed only through the exact snapshot the caller holds;
    [floor_refines_spec] shows the packed word implements it. *)

From S2P Require Import Prelude.

Inductive FloorState := Free | Requesting | Sending | Returning | Receiving | Yielding.
#[global] Instance FloorState_eq_dec : EqDecision FloorState.
Proof. solve_decision. Defined.

Inductive FloorOwner := Outbound | Inbound.
#[global] Instance FloorOwner_eq_dec : EqDecision FloorOwner.
Proof. solve_decision. Defined.

(** [FloorState::owner], [code], [from_code] and [allows]. *)
Definition floor_owner (s : FloorState) : option FloorOwner :=
  match s with
  | Free => None
  | Requesting | Sending | Returning => Some Outbound
  | Receiving | Yielding => Some Inbound
  end.

Definition floor_code (s : FloorState) : Z :=
  match s with
  | Free => 0 | Requesting => 1 | Sending => 2 | Returning => 3
  | Receiving => 4 | Yielding => 5
  end.

Definition floor_from_code (c : Z) : option FloorState :=
  match c with
  | 0 => Some Free | 1 => Some Requesting | 2 => Some Sending
  | 3 => Some Returning | 4 => Some Receiving | 5 => Some Yielding
  | _ => None
  end.

Definition floor_allows (from to : FloorState) : bool :=
  match from, to with
  | Free, (Requesting | Receiving)
  | Requesting, (Sending | Free | Receiving)
  | Sending, Returning
  | Returning, Free
  | Receiving, (Yielding | Free)
  | Yielding, Free => true
  | _, _ => false
  end.

Definition MAX_GROUP_PEERS : Z := 7.
Definition MAX_SLOT : Z := MAX_GROUP_PEERS.

(** [FloorPeer] is its slot number; [PEER_NONE] accompanies Free. *)
Definition PEER_NONE : Z := 0.
Definition PEER_SOLE : Z := 1.
Definition peer_slot (slot : Z) : option Z :=
  if (1 <=? slot) && (slot <=? MAX_SLOT) then Some slot else None.
(** Every [FloorPeer] a caller can make: [NONE], [SOLE] or a [slot]. *)
Definition is_peer (p : Z) : Prop := 0 <= p <= MAX_SLOT.
#[global] Instance is_peer_dec p : Decision (is_peer p).
Proof. unfold is_peer. apply _. Defined.

Record FloorSnapshot := mkSnapshot {
  state : FloorState; generation : Z; peer : Z }.
Add Printing Constructor FloorSnapshot.
#[global] Instance FloorSnapshot_eq_dec : EqDecision FloorSnapshot.
Proof. solve_decision. Defined.

Definition STATE_BITS : Z := 3.
Definition PEER_BITS : Z := 4.
Definition STATE_MASK : Z := 1 ≪ STATE_BITS - 1.
Definition PEER_MASK : Z := 1 ≪ PEER_BITS - 1.
Definition GENERATION_SHIFT : Z := STATE_BITS + PEER_BITS.
Definition MAX_GENERATION : Z := u64_max ≫ GENERATION_SHIFT.

Definition pack (s : FloorSnapshot) : Z :=
  Z.lor (Z.lor ((generation s ≪ GENERATION_SHIFT) mod 2 ^ 64) (peer s ≪ STATE_BITS))
    (floor_code (state s)).

Definition unpack (word : Z) : option FloorSnapshot :=
  st ← floor_from_code (Z.land word STATE_MASK);
  Some (mkSnapshot st (word ≫ GENERATION_SHIFT)
          (Z.land (word ≫ STATE_BITS) PEER_MASK)).

Definition is_well_formed (s : FloorSnapshot) : bool :=
  negb (generation s =? 0) && (generation s <=? MAX_GENERATION)
  && (peer s <=? MAX_SLOT)
  && Bool.eqb (bool_decide (state s = Free)) (peer s =? PEER_NONE).

Definition next (s : FloorSnapshot) (st : FloorState) (p : Z) : FloorSnapshot :=
  mkSnapshot st
    (if MAX_GENERATION <=? generation s then 1 else generation s + 1) p.

Definition freed (s : FloorSnapshot) : FloorSnapshot := next s Free PEER_NONE.

(** ** [SharedFloor] *)

Abbreviation floor_result := (result FloorSnapshot FloorSnapshot).

Definition new_floor : Z := pack (mkSnapshot Free 1 PEER_NONE).
Definition snapshot (word : Z) : option FloorSnapshot := unpack word.

Definition swap_exact (word : Z) (from to : FloorSnapshot) : option (Z * floor_result) :=
  if word =? pack from then Some (pack to, Ok to)
  else current ← unpack word; Some (word, Err current).

(** The refusal of every method: load the word and return it as the error. *)
Definition refuse (word : Z) : option (Z * floor_result) :=
  current ← snapshot word; Some (word, Err current).

Definition transition (word : Z) (from : FloorSnapshot) (to : FloorState)
  : option (Z * floor_result) :=
  if negb (is_well_formed from) || negb (floor_allows (state from) to) then refuse word
  else
    let p := match state from, to with
             | _, Free => PEER_NONE
             | Free, _ => PEER_SOLE
             | _, _ => peer from
             end in
    swap_exact word from (next from to p).

Definition claim (word : Z) (from : FloorSnapshot) (to : FloorState) (p : Z)
  : option (Z * floor_result) :=
  let allowed := match state from, to with
                 | Free, (Requesting | Receiving) => negb (p =? PEER_NONE)
                 | Requesting, Receiving => peer from =? p
                 | _, _ => false
                 end in
  if negb (is_well_formed from) || negb allowed then refuse word
  else swap_exact word from (next from to p).

Definition hand_over (word : Z) (from : FloorSnapshot) (to : Z)
  : option (Z * floor_result) :=
  if negb (is_well_formed from) || negb (bool_decide (state from = Returning))
     || (to =? PEER_NONE) || (to =? peer from)
  then refuse word
  else swap_exact word from (next from Sending to).

(** [release] and [release_peer] load the word, decide, and then compare and
    swap: [loaded] is the word of the load, [word] the one the swap meets. *)
Definition release (loaded word : Z) (owner : FloorOwner) (gen : Z) : option (Z * bool) :=
  current ← snapshot loaded;
  if (generation current =? gen) && bool_decide (floor_owner (state current) = Some owner)
  then '(w, r) ← swap_exact word current (freed current); Some (w, is_ok r)
  else Some (word, false).

Definition release_peer (loaded word : Z) (p gen : Z) : option (Z * bool) :=
  current ← snapshot loaded;
  if negb (p =? PEER_NONE) && (peer current =? p) && (generation current =? gen)
  then '(w, r) ← swap_exact word current (freed current); Some (w, is_ok r)
  else Some (word, false).

(** [reset]'s [fetch_update] ends with a successful swap of some word. *)
Definition reset (word : Z) : option Z :=
  s ← unpack word; Some (pack (freed s)).

(** ** Sequences of method calls *)

Inductive FloorOp :=
| OpTransition (from : FloorSnapshot) (to : FloorState)
| OpClaim (from : FloorSnapshot) (to : FloorState) (p : Z)
| OpHandOver (from : FloorSnapshot) (to : Z)
| OpRelease (owner : FloorOwner) (gen : Z)
| OpReleasePeer (p gen : Z)
| OpReset.

(** The word after one uninterrupted call. *)
Definition floor_step (word : Z) (op : FloorOp) : option Z :=
  match op with
  | OpTransition from to => fst <$> transition word from to
  | OpClaim from to p => fst <$> claim word from to p
  | OpHandOver from to => fst <$> hand_over word from to
  | OpRelease owner gen => fst <$> release word word owner gen
  | OpReleasePeer p gen => fst <$> release_peer word word p gen
  | OpReset => reset word
  end.

Definition op_peers_ok (op : FloorOp) : Prop :=
  match op with
  | OpClaim _ _ p | OpHandOver _ p => is_peer p
  | _ => True
  end.
(** The snapshots callers hold have a nonnegative peer and generation: both
    fields are unsigned. *)
Definition op_from_ok (op : FloorOp) : Prop :=
  match op with
  | OpTransition s _ | OpClaim s _ _ | OpHandOver s _ =>
      0 <= generation s /\ 0 <= peer s
  | _ => True
  end.
Definition op_ok (op : FloorOp) : Prop := op_peers_ok op /\ op_from_ok op.

(** ** The abstract floor *)

Module FloorSpec.

(** What a call may do to the floor, stated on snapshots. *)
Definition edge (from : FloorSnapshot) (op : FloorOp) : option FloorSnapshot :=
  match op with
  | OpTransition s to =>
      if bool_decide (s = from) && floor_allows (state from) to
      then Some (next from to
             (if bool_decide (to = Free) then PEER_NONE
              else if bool_decide (state from = Free) then PEER_SOLE else peer from))
      else None
  | OpClaim s to p =>
      if bool_decide (s = from) && bool_decide (to = Receiving \/ to = Requesting)
         && ((bool_decide (state from = Free) && negb (p =? PEER_NONE))
             || (bool_decide (state from = Requesting /\ to = Receiving)
                 && (peer from =? p)))
      then Some (next from to p) else None
  | OpHandOver s p =>
      if bool_decide (s = from) && bool_decide (state from = Returning)
         && negb (p =? PEER_NONE) && negb (p =? peer from)
      then Some (next from Sending p) else None
  | OpRelease owner gen =>
      if (generation from =? gen) && bool_decide (floor_owner (state from) = Some owner)
      then Some (freed from) else None
  | OpReleasePeer p gen =>
      if negb (p =? PEER_NONE) && (peer from =? p) && (generation from =? gen)
      then Some (freed from) else None
  | OpReset => Some (freed from)
  end.

Definition step (s : FloorSnapshot) (op : FloorOp) : FloorSnapshot :=
  default s (edge s op).
End FloorSpec.

(** Calls on the abstract floor, with the result the packed word would give. *)
Definition floor_call (f : FloorSnapshot) (op : FloorOp) : FloorSnapshot * floor_result :=
  match FloorSpec.edge f op with Some t => (t, Ok t) | None => (f, Err f) end.
Definition floor_transition (f from : FloorSnapshot) (to : FloorState) : FloorSnapshot * floor_result :=
  floor_call f (OpTransition from to).
Definition floor_claim (f from : FloorSnapshot) (to : FloorState) (p : Z)
  : FloorSnapshot * floor_result :=
  floor_call f (OpClaim from to p).
Definition floor_hand_over (f from : FloorSnapshot) (p : Z) : FloorSnapshot * floor_result :=
  floor_call f (OpHandOver from p).

(** ** Packing *)

Section Packing.

Definition snapshot_ok (s : FloorSnapshot) : Prop :=
  is_well_formed s = true /\ 0 <= generation s /\ 0 <= peer s.

Lemma max_generation_eq : MAX_GENERATION = 2 ^ 57 - 1.
Proof. reflexivity. Qed.

Lemma floor_code_range s : 0 <= floor_code s < 8.
Proof. destruct s; cbn; lia. Qed.
Lemma floor_from_code_code s : floor_from_code (floor_code s) = Some s.
Proof. now destruct s. Qed.

Lemma snapshot_ok_spec s :
  snapshot_ok s <->
  1 <= generation s <= MAX_GENERATION /\ 0 <= peer s <= MAX_SLOT
  /\ (state s = Free <-> peer s = PEER_NONE).
Proof.
  unfold snapshot_ok, is_well_formed. rewrite !andb_true_iff, negb_true_iff.
  rewrite Bool.eqb_true_iff, Z.eqb_neq, !Z.leb_le.
  assert (bool_decide (state s = Free) = (peer s =? PEER_NONE)
          <-> (state s = Free <-> peer s = PEER_NONE)) as ->.
  { destruct (peer s =? PEER_NONE) eqn:E; bool_inv;
      rewrite ?bool_decide_eq_true, ?bool_decide_eq_false; intuition. }
  intuition lia.
Qed.

Lemma pack_arith s :
  0 <= generation s <= MAX_GENERATION -> 0 <= peer s <= MAX_SLOT ->
  pack s = generation s * 128 + peer s * 8 + floor_code (state s).
Proof.
  rewrite max_generation_eq. unfold MAX_SLOT, MAX_GROUP_PEERS. intros Hg Hp.
  pose proof (floor_code_range (state s)) as Hc.
  unfold pack. change GENERATION_SHIFT with 7. change STATE_BITS with 3.
  rewrite Z.mod_small by (rewrite Z.shiftl_mul_pow2 by lia; lia).
  rewrite lor_shiftl by (rewrite ?Z.shiftl_mul_pow2 by lia; lia).
  rewrite Z.shiftl_mul_pow2 by lia.
  replace (generation s * 2 ^ 7 + peer s * 2 ^ 3)
    with ((generation s * 16 + peer s) ≪ 3) by (rewrite Z.shiftl_mul_pow2; lia).
  rewrite lor_shiftl by (cbn; lia). lia.
Qed.

Lemma pack_u64 s : snapshot_ok s -> is_u64 (pack s).
Proof.
  rewrite snapshot_ok_spec, max_generation_eq. unfold MAX_SLOT, MAX_GROUP_PEERS.
  intros (Hg & Hp & _).
  rewrite pack_arith by (rewrite ?max_generation_eq; unfold MAX_SLOT, MAX_GROUP_PEERS; lia).
  pose proof (floor_code_range (state s)). unfold_int. lia.
Qed.

Lemma unpack_arith g p c st :
  0 <= p < 16 -> 0 <= c < 8 -> floor_from_code c = Some st ->
  unpack (g * 128 + p * 8 + c) = Some (mkSnapshot st g p).
Proof.
  intros Hp Hc Hst. unfold unpack. change STATE_MASK with (2 ^ 3 - 1).
  change PEER_MASK with (2 ^ 4 - 1). change GENERATION_SHIFT with 7.
  change STATE_BITS with 3.
  rewrite !land_mask, !Z.shiftr_div_pow2 by lia.
  replace (g * 128 + p * 8 + c) with ((g * 16 + p) * 2 ^ 3 + c) by lia.
  rewrite mod_field, div_field by (cbn; lia). rewrite Hst. cbn [mbind option_bind].
  change (2 ^ 4) with 16.
  rewrite mod_field by lia.
  replace ((g * 16 + p) * 2 ^ 3 + c) with (g * 2 ^ 7 + (p * 8 + c)) by lia.
  rewrite div_field by lia. reflexivity.
Qed.

Lemma unpack_pack s : snapshot_ok s -> unpack (pack s) = Some s.
Proof.
  rewrite snapshot_ok_spec. intros (Hg & Hp & _). rewrite pack_arith by lia.
  destruct s as [st g p]; cbn in *. unfold MAX_SLOT, MAX_GROUP_PEERS in Hp.
  apply unpack_arith; [lia | apply floor_code_range | apply floor_from_code_code].
Qed.

Lemma pack_inj s t : snapshot_ok s -> snapshot_ok t -> pack s = pack t -> s = t.
Proof.
  intros Hs Ht H. apply (f_equal unpack) in H.
  rewrite !unpack_pack in H by done. congruence.
Qed.

Lemma next_ok s st p :
  snapshot_ok s -> 0 <= p <= MAX_SLOT -> (st = Free <-> p = PEER_NONE) ->
  snapshot_ok (next s st p).
Proof.
  rewrite !snapshot_ok_spec. intros (Hg & Hp & Hf) Hp' Hst.
  unfold next; cbn. case_match; bool_inv; rewrite max_generation_eq in *; lia || intuition lia.
Qed.

Lemma freed_ok s : snapshot_ok s -> snapshot_ok (freed s).
Proof. intros. apply next_ok; [done | unfold MAX_SLOT, MAX_GROUP_PEERS, PEER_NONE; lia | done]. Qed.
End Packing.

#[export] Hint Resolve unpack_pack freed_ok : monhop.

(** ** The packed word implements the abstract floor *)

Section Refinement.

Lemma swap_exact_spec s from to :
  snapshot_ok s -> snapshot_ok from ->
  swap_exact (pack s) from to =
    Some (if bool_decide (from = s) then (pack to, Ok to) else (pack s, Err s)).
Proof.
  intros Hs Hf. unfold swap_exact. rewrite unpack_pack by done. cbn.
  destruct (pack s =? pack from) eqn:E; bool_inv.
  - apply pack_inj in E; [|done..]. subst. now rewrite bool_decide_eq_true_2.
  - rewrite bool_decide_eq_false_2; [done|]. congruence.
Qed.

Lemma refuse_spec s : snapshot_ok s -> refuse (pack s) = Some (pack s, Err s).
Proof. intros. unfold refuse, snapshot. now rewrite unpack_pack. Qed.

Lemma from_ok_wf s :
  0 <= generation s /\ 0 <= peer s -> is_well_formed s = true -> snapshot_ok s.
Proof. unfold snapshot_ok. tauto. Qed.

(** The word and result of a call that takes the edge [o] out of [s], if any. *)
Definition guarded (s : FloorSnapshot) (o : option FloorSnapshot) : Z * floor_result :=
  match o with
  | Some to => (pack to, Ok to)
  | None => (pack s, Err s)
  end.

Lemma transition_spec s from to :
  snapshot_ok s -> op_ok (OpTransition from to) ->
  transition (pack s) from to =
    Some (guarded s (FloorSpec.edge s (OpTransition from to))).
Proof.
  intros Hs [_ Hf]. unfold transition. cbn [FloorSpec.edge].
  destruct (is_well_formed from) eqn:Hw; cbn [negb orb].
  - destruct (floor_allows (state from) to) eqn:Ha; cbn [negb].
    + rewrite swap_exact_spec by auto using from_ok_wf.
      case_bool_decide as E; [subst from|reflexivity].
      rewrite Ha. cbn [andb guarded].
      destruct (state s) eqn:Es, to; rewrite ?Es; reflexivity.
    + rewrite refuse_spec by done. case_bool_decide; [subst|done]. now rewrite Ha.
  - rewrite refuse_spec by done. rewrite bool_decide_eq_false_2; [done|].
    intros ->. destruct Hs. congruence.
Qed.

Lemma claim_spec s from to p :
  snapshot_ok s -> op_ok (OpClaim from to p) ->
  claim (pack s) from to p =
    Some (guarded s (FloorSpec.edge s (OpClaim from to p))).
Proof.
  intros Hs [_ Hf]. unfold claim. cbn [FloorSpec.edge].
  destruct (is_well_formed from) eqn:Hw; cbn [negb orb].
  - destruct (bool_decide (from = s)) eqn:E; bool_inv.
    + subst from. cbn [andb].
      destruct (state s) eqn:Es, to; cbn;
        rewrite ?refuse_spec by done;
        try (destruct (p =? PEER_NONE)); try (destruct (peer s =? p)); cbn;
        rewrite ?refuse_spec, ?swap_exact_spec by done;
        rewrite ?bool_decide_eq_true_2 by done; reflexivity.
    + cbn [andb guarded]. case_match; [now rewrite refuse_spec|].
      rewrite swap_exact_spec by auto using from_ok_wf.
      now rewrite bool_decide_eq_false_2.
  - rewrite refuse_spec by done. rewrite bool_decide_eq_false_2; [done|].
    intros ->. destruct Hs. congruence.
Qed.

Lemma hand_over_spec s from p :
  snapshot_ok s -> op_ok (OpHandOver from p) ->
  hand_over (pack s) from p =
    Some (guarded s (FloorSpec.edge s (OpHandOver from p))).
Proof.
  intros Hs [_ Hf]. unfold hand_over. cbn [FloorSpec.edge].
  destruct (is_well_formed from) eqn:Hw; cbn [negb orb].
  - destruct (bool_decide (from = s)) eqn:E; bool_inv.
    + subst from. cbn [andb].
      destruct (bool_decide (state s = Returning)), (p =? PEER_NONE), (p =? peer s); cbn;
        rewrite ?refuse_spec, ?swap_exact_spec by done;
        rewrite ?bool_decide_eq_true_2 by done; reflexivity.
    + cbn [andb guarded]. case_match; [now rewrite refuse_spec|].
      rewrite swap_exact_spec by auto using from_ok_wf.
      now rewrite bool_decide_eq_false_2.
  - rewrite refuse_spec by done. rewrite bool_decide_eq_false_2; [done|].
    intros ->. destruct Hs. congruence.
Qed.

Lemma release_spec s owner gen :
  snapshot_ok s ->
  release (pack s) (pack s) owner gen =
    Some (match FloorSpec.edge s (OpRelease owner gen) with
          | Some to => (pack to, true) | None => (pack s, false) end).
Proof.
  intros Hs. unfold release, snapshot. rewrite unpack_pack by done. cbn.
  destruct (generation s =? gen), (bool_decide _); try reflexivity.
  cbn [andb]. rewrite swap_exact_spec by done. now rewrite bool_decide_eq_true_2.
Qed.

Lemma release_peer_spec s p gen :
  snapshot_ok s ->
  release_peer (pack s) (pack s) p gen =
    Some (match FloorSpec.edge s (OpReleasePeer p gen) with
          | Some to => (pack to, true) | None => (pack s, false) end).
Proof.
  intros Hs. unfold release_peer, snapshot. rewrite unpack_pack by done. cbn.
  destruct (p =? PEER_NONE), (peer s =? p), (generation s =? gen); try reflexivity.
  cbn [andb negb]. rewrite swap_exact_spec by done. now rewrite bool_decide_eq_true_2.
Qed.

(** Every edge of the abstract floor keeps the snapshot well formed. *)
Lemma edge_ok s op t :
  snapshot_ok s -> op_ok op -> FloorSpec.edge s op = Some t -> snapshot_ok t.
Proof.
  intros Hs [Hp _] He. pose proof Hs as (Hg & Hpr & Hfree)%snapshot_ok_spec.
  assert (Hn : forall st p, 0 <= p <= MAX_SLOT -> (st = Free <-> p = PEER_NONE) ->
               snapshot_ok (next s st p)) by auto using next_ok.
  destruct op as [from to|from to p|from p|owner gen|p gen|];
    cbn [FloorSpec.edge op_peers_ok] in He, Hp;
    try (case_match; [|done]); simplify_eq; try (by apply freed_ok); bool_inv; apply Hn;
    unfold is_peer, MAX_SLOT, MAX_GROUP_PEERS, PEER_NONE, PEER_SOLE in *.
  - repeat case_bool_decide; lia.
  - repeat case_bool_decide; naive_solver lia.
  - done.
  - repeat match goal with H : _ \/ _ |- _ => destruct H end; bool_inv;
      naive_solver congruence.
  - done.
  - naive_solver lia.
Qed.

Lemma floor_step_spec s op :
  snapshot_ok s -> op_ok op ->
  floor_step (pack s) op = Some (pack (FloorSpec.step s op)).
Proof.
  intros Hs Ho. unfold FloorSpec.step. destruct op; cbn [floor_step].
  - rewrite transition_spec by done. cbn. now destruct (_ && _).
  - rewrite claim_spec by done. cbn. now destruct (_ && _).
  - rewrite hand_over_spec by done. cbn. now destruct (_ && _).
  - rewrite release_spec by done. cbn. now destruct (_ && _).
  - rewrite release_peer_spec by done. cbn. now destruct (_ && _).
  - unfold reset. now rewrite unpack_pack.
Qed.

Lemma spec_step_ok s op : snapshot_ok s -> op_ok op -> snapshot_ok (FloorSpec.step s op).
Proof.
  intros Hs Ho. unfold FloorSpec.step.
  destruct (FloorSpec.edge s op) eqn:E; cbn; [|done]. eauto using edge_ok.
Qed.
End Refinement.

(** ** Reachable floors *)

Inductive floor_reach (w0 : Z) : Z -> Prop :=
| floor_reach_refl : floor_reach w0 w0
| floor_reach_step w op w' :
    floor_reach w0 w -> op_ok op -> floor_step w op = Some w' -> floor_reach w0 w'.

(** [changes n s t]: [n] calls that changed the floor lead from [s] to [t];
    calls that were refused are not counted. *)
Inductive changes : nat -> FloorSnapshot -> FloorSnapshot -> Prop :=
| changes_0 s : changes 0 s s
| changes_S n s t op u :
    changes n s t -> op_ok op -> FloorSpec.edge t op = Some u -> changes (S n) s u.

Section Reachability.

Lemma new_floor_ok : snapshot_ok (mkSnapshot Free 1 PEER_NONE).
Proof. rewrite snapshot_ok_spec. cbn. unfold MAX_SLOT, MAX_GROUP_PEERS, PEER_NONE.
  rewrite max_generation_eq. intuition lia. Qed.

Lemma floor_reach_ok s w :
  snapshot_ok s -> floor_reach (pack s) w -> exists t, snapshot_ok t /\ w = pack t.
Proof.
  intros Hs H. induction H as [|w op w' _ (t & Ht & ->) Ho Hstep]; [eauto|].
  rewrite floor_step_spec in Hstep by done. simplify_eq.
  eauto using spec_step_ok.
Qed.

(** The generation of a changed floor. *)
Definition bump (g : Z) : Z := if MAX_GENERATION <=? g then 1 else g + 1.

Lemma edge_generation s op t :
  FloorSpec.edge s op = Some t -> generation t = bump (generation s).
Proof.
  destruct op; cbn [FloorSpec.edge]; intros; repeat case_match; simplify_eq; reflexivity.
Qed.

Lemma bump_arith g : 1 <= g <= MAX_GENERATION -> bump g = g mod MAX_GENERATION + 1.
Proof.
  intros Hg. unfold bump. case_match; bool_inv.
  - assert (g = MAX_GENERATION) as -> by lia. rewrite Z.mod_same; [done|].
    rewrite max_generation_eq. lia.
  - now rewrite Z.mod_small by lia.
Qed.

Lemma changes_ok n s t : snapshot_ok s -> changes n s t -> snapshot_ok t.
Proof. induction 2; eauto using edge_ok. Qed.

(** Generations count the changes modulo [MAX_GENERATION], skipping 0. *)
Lemma changes_generation n s t :
  snapshot_ok s -> changes n s t ->
  generation t = (generation s - 1 + Z.of_nat n) mod MAX_GENERATION + 1.
Proof.
  intros Hs H. pose proof max_generation_eq as HM.
  pose proof Hs as (Hg & _ & _)%snapshot_ok_spec.
  induction H as [s|n s t op u Hc IH Ho He].
  - rewrite Z.mod_small; lia.
  - rewrite (edge_generation _ _ _ He), (IH Hs Hg).
    pose proof (Z.mod_pos_bound (generation s - 1 + Z.of_nat n) MAX_GENERATION).
    rewrite bump_arith by lia. f_equal.
    rewrite Z.add_mod_idemp_l by lia. f_equal. lia.
Qed.

Lemma changes_distinct n s t :
  snapshot_ok s -> changes n s t -> (0 < Z.of_nat n < MAX_GENERATION) ->
  generation t <> generation s.
Proof.
  intros Hs Hc Hn. rewrite (changes_generation _ _ _ Hs Hc).
  pose proof Hs as (Hg & _ & _)%snapshot_ok_spec.
  pose proof max_generation_eq as HM.
  intros Heq. assert ((generation s - 1 + Z.of_nat n) mod MAX_GENERATION
                      = generation s - 1) as Hm by lia.
  destruct (Z.lt_ge_cases (generation s - 1 + Z.of_nat n) MAX_GENERATION).
  - rewrite Z.mod_small in Hm by lia. lia.
  - rewrite <- (Z.mod_add _ (-1)) in Hm by lia.
    rewrite Z.mod_small in Hm by lia. lia.
Qed.
End Reachability.

#[export] Hint Resolve new_floor_ok : monhop.

(** ** Properties *)

(** Packing a well-formed snapshot into the shared word loses nothing: the
    word fits 64 bits and unpacks to the same state, generation and peer. *)
Theorem floor_pack_roundtrip (s : FloorSnapshot) :
  is_well_formed s = true -> 0 <= generation s -> 0 <= peer s ->
  is_u64 (pack s) /\ unpack (pack s) = Some s.
Proof.
  intros. assert (snapshot_ok s) by (split; auto).
  auto using pack_u64, unpack_pack.
Qed.

Definition top_sending : FloorSnapshot := mkSnapshot Sending MAX_GENERATION 7.

Lemma floor_pack_roundtrip_witness :
  is_u64 (pack top_sending) /\ unpack (pack top_sending) = Some top_sending.
Proof. apply floor_pack_roundtrip; vm_compute; congruence. Defined.

(** C39. From [SharedFloor::new], no sequence of calls, however the callers
    choose their arguments, panics or leaves a word that is not a well-formed
    snapshot: Free exactly when no peer is named, generation never 0. *)
Theorem floor_reachable_well_formed (w : Z) (op : FloorOp) :
  floor_reach new_floor w -> op_ok op ->
  exists s w', snapshot w = Some s /\ is_well_formed s = true /\ pack s = w
    /\ floor_step w op = Some w' /\ floor_reach new_floor w'.
Proof.
  intros H Ho. destruct (floor_reach_ok _ _ new_floor_ok H) as (t & Ht & ->).
  exists t, (pack (FloorSpec.step t op)).
  pose proof (floor_step_spec t op Ht Ho).
  split_and!; [by apply unpack_pack | by destruct Ht | done | done |].
  eapply floor_reach_step; eauto.
Qed.

Lemma floor_reachable_well_formed_witness :
  exists s w', snapshot new_floor = Some s /\ is_well_formed s = true /\ pack s = new_floor
    /\ floor_step new_floor OpReset = Some w' /\ floor_reach new_floor w'.
Proof.
  apply floor_reachable_well_formed; [apply floor_reach_refl | split; exact I].
Defined.

(** C12. Refinement: on the packed word of any well-formed floor, [transition],
    [claim] and [hand_over] succeed exactly when the abstract floor has the
    edge from the caller's snapshot, then store and return its target, and
    otherwise leave the word alone and return the current snapshot. *)
Theorem floor_refines_spec (s : FloorSnapshot) (from : FloorSnapshot) (to : FloorState) (p : Z) :
  snapshot_ok s -> 0 <= generation from -> 0 <= peer from -> is_peer p ->
  transition (pack s) from to = Some (guarded s (FloorSpec.edge s (OpTransition from to)))
  /\ claim (pack s) from to p = Some (guarded s (FloorSpec.edge s (OpClaim from to p)))
  /\ hand_over (pack s) from p = Some (guarded s (FloorSpec.edge s (OpHandOver from p))).
Proof.
  intros Hs Hg Hp Hpeer.
  rewrite transition_spec, claim_spec, hand_over_spec by (done || (repeat split; done)).
  auto.
Qed.

Definition floor_free2 : FloorSnapshot := mkSnapshot Free 2 0.
Lemma floor_refines_spec_witness :
  transition (pack floor_free2) floor_free2 Requesting =
    Some (guarded floor_free2 (FloorSpec.edge floor_free2 (OpTransition floor_free2 Requesting)))
  /\ claim (pack floor_free2) floor_free2 Requesting 3 =
    Some (guarded floor_free2 (FloorSpec.edge floor_free2 (OpClaim floor_free2 Requesting 3)))
  /\ hand_over (pack floor_free2) floor_free2 3 =
    Some (guarded floor_free2 (FloorSpec.edge floor_free2 (OpHandOver floor_free2 3))).
Proof.
  apply floor_refines_spec; vm_compute; try (split; congruence); try congruence.
  split_and!; congruence.
Defined.

(** No ABA: after [n] changes of the floor, for any [n] below the 57-bit
    generation budget, the word differs from the one the caller read, so a
    stale [transition] is refused and changes nothing. *)
Theorem floor_stale_transition_refused (n : nat) (s t : FloorSnapshot) (to : FloorState) :
  snapshot_ok s -> changes n s t -> 0 < Z.of_nat n < MAX_GENERATION ->
  transition (pack t) s to = Some (pack t, Err t).
Proof.
  intros Hs Hc Hn. pose proof (changes_distinct _ _ _ Hs Hc Hn) as Hd.
  rewrite transition_spec; [|eauto using changes_ok|].
  - cbn [FloorSpec.edge]. rewrite bool_decide_eq_false_2; [done|]. now intros ->.
  - apply snapshot_ok_spec in Hs. split; [exact I|]. cbn. lia.
Qed.

Lemma floor_stale_transition_refused_witness :
  transition (pack (mkSnapshot Free 3 0)) floor_free2 Requesting =
    Some (pack (mkSnapshot Free 3 0), Err (mkSnapshot Free 3 0)).
Proof.
  apply (floor_stale_transition_refused 1).
  - vm_compute. split_and!; congruence.
  - eapply (changes_S 0 _ floor_free2 OpReset); [constructor | split; exact I | reflexivity].
  - vm_compute. split; congruence.
Defined.

(** One direction at a time: a change between an active outbound state
    (Sending, Returning) and an inbound one (Receiving, Yielding) always
    passes through Free, and while the floor is held its peer only changes by
    a [hand_over] from Returning for one peer to Sending for another. *)
Theorem floor_exclusive (s t : FloorSnapshot) (op : FloorOp) :
  snapshot_ok s -> FloorSpec.edge s op = Some t ->
  (state s = Sending \/ state s = Returning -> floor_owner (state t) <> Some Inbound)
  /\ (floor_owner (state s) = Some Inbound -> floor_owner (state t) <> Some Outbound)
  /\ (state s <> Free -> state t <> Free -> peer t <> peer s ->
        state s = Returning /\ state t = Sending).
Proof.
  intros (Hg & Hp & Hf)%snapshot_ok_spec He.
  destruct op as [from to|from to p|from p|owner gen|p gen|];
    cbn [FloorSpec.edge] in He; try (case_match; [|done]); simplify_eq; bool_inv; cbn.
  - destruct (state s), to; cbn in *; naive_solver.
  - repeat match goal with H : _ \/ _ |- _ => destruct H end; bool_inv; destruct_and?;
      subst; repeat match goal with H : state s = _ |- _ => rewrite H in * end;
      cbn; intuition congruence.
  - repeat match goal with H : state s = _ |- _ => rewrite H in * end;
      cbn; intuition congruence.
  - intuition congruence.
  - intuition congruence.
  - intuition congruence.
Qed.

Lemma floor_exclusive_witness :
  (state top_sending = Sending \/ state top_sending = Returning ->
     floor_owner Returning <> Some Inbound)
  /\ (floor_owner (state top_sending) = Some Inbound -> floor_owner Returning <> Some Outbound)
  /\ (state top_sending <> Free -> Returning <> Free -> 7 <> peer top_sending ->
        state top_sending = Returning /\ Returning = Sending).
Proof.
  apply (floor_exclusive top_sending (mkSnapshot Returning 1 7)
           (OpTransition top_sending Returning)).
  - vm_compute. split_and!; congruence.
  - reflexivity.
Defined.

(** [release] frees only what its caller owns at the generation it names:
    when it reports success the floor was held by that owner at that
    generation and is now Free one generation later; otherwise, also when
    another call changed the word between its load and its swap, the word it
    met is unchanged. *)
Theorem floor_release_owned (loaded s : FloorSnapshot) (owner : FloorOwner) (gen : Z) :
  snapshot_ok loaded -> snapshot_ok s ->
  exists w b, release (pack loaded) (pack s) owner gen = Some (w, b)
    /\ (if b then loaded = s /\ floor_owner (state s) = Some owner
                  /\ generation s = gen /\ w = pack (freed s)
                  /\ state (freed s) = Free /\ generation (freed s) <> gen
        else w = pack s).
Proof.
  intros Hl Hs. unfold release, snapshot. rewrite unpack_pack by done. cbn.
  destruct (_ && _) eqn:E; [|by eexists _, false].
  rewrite swap_exact_spec by done. cbn.
  destruct (bool_decide (loaded = s)) eqn:Els; bool_inv; subst; cbn;
    eexists _, _; (split; [reflexivity|]); [|done].
  split_and!; try done.
  apply (changes_distinct 1 s (freed s)); [done| |rewrite max_generation_eq; lia].
  eapply (changes_S 0 _ s OpReset); [constructor | split; exact I | reflexivity].
Qed.

Definition floor_recv5 : FloorSnapshot := mkSnapshot Receiving 5 1.
Lemma floor_release_owned_witness :
  exists w b, release (pack floor_recv5) (pack floor_recv5) Inbound 5 = Some (w, b)
    /\ (if b then floor_recv5 = floor_recv5 /\ floor_owner (state floor_recv5) = Some Inbound
                  /\ generation floor_recv5 = 5 /\ w = pack (freed floor_recv5)
                  /\ state (freed floor_recv5) = Free /\ generation (freed floor_recv5) <> 5
        else w = pack floor_recv5).
Proof. apply floor_release_owned; vm_compute; split_and!; congruence. Defined.
