(* ===== verification/TakeBack.v ===== *)
(** * Take-back (monhop-core/src/take_back.rs)

    Local input wins: the capture callback moves the floor from Receiving to
    Yielding, closes injection admission for that generation only, and reports
    whether injected input was down.  The gate is a record of its atomic
    fields; every method is a function of that record.  The gate is written
    against the interface [SharedFloorI] of the floor it shares, which the
    packed word of [Floor] implements ([word_floor]).

    This file runs the methods one at a time; [Injection] interleaves the
    injector's and the callback's atomic steps. *)

From S2P Require Import Prelude Floor.

(** ** What the gate needs of the floor *)

Class SharedFloorI (F : Type) := {
  fl_snapshot : F -> option FloorSnapshot;
  fl_transition : F -> FloorSnapshot -> FloorState -> option (F * floor_result);
  (** The abstract floor a representation stands for. *)
  fl_holds : F -> FloorSnapshot -> Prop;
  fl_holds_ok f s : fl_holds f s -> snapshot_ok s;
  fl_snapshot_spec f s : fl_holds f s -> fl_snapshot f = Some s;
  fl_transition_spec f s from to :
    fl_holds f s -> snapshot_ok from ->
    match FloorSpec.edge s (OpTransition from to) with
    | Some t => exists f', fl_transition f from to = Some (f', Ok t) /\ fl_holds f' t
    | None => fl_transition f from to = Some (f, Err s)
    end }.

(** The packed word is such a floor. *)
#[global, refine] Instance word_floor : SharedFloorI Z := {|
  fl_snapshot := snapshot;
  fl_transition := transition;
  fl_holds w s := snapshot_ok s /\ w = pack s |}.
Proof.
  - by intros f s [].
  - intros f s [Hs ->]. by apply unpack_pack.
  - intros f s from to [Hs ->] Hf. rewrite transition_spec; [|done|].
    + destruct (FloorSpec.edge s (OpTransition from to)) as [t|] eqn:E; cbn; [|done].
      exists (pack t). split; [done|]. split; [|done].
      eapply (edge_ok s); [done| |exact E].
      split; [exact I|]. apply snapshot_ok_spec in Hf. cbn. lia.
    + split; [exact I|]. apply snapshot_ok_spec in Hf. cbn. lia.
Defined.

Definition CLOSED : Z := 0.

Inductive TakeBackOutcome :=
| NotReceiving
| Triggered (withhold : bool).

Section Gate.
Context {F : Type} `{SharedFloorI F}.

(** [GateInner]; [woken] counts the runs of the registered waker. *)
Record Gate := mkGate {
  gate_floor : F;
  admission : Z;
  held : Z;
  note_changes : Z;
  triggered : Z;
  waker : bool;
  woken : Z }.

Definition new_gate (f : F) : Gate := mkGate f CLOSED 0 0 0 false 0.

Definition open_injection (g : Gate) (gen : Z) : Gate :=
  mkGate (gate_floor g) gen (held g) (note_changes g) (triggered g) (waker g) (woken g).

(** [admits_injection] loads the admission and then the floor: the two
    arguments are what those loads returned. *)
Definition admits (admitted : Z) (fs : FloorSnapshot) : bool :=
  negb (admitted =? CLOSED)
  && bool_decide (state fs = Receiving) && (generation fs =? admitted).

Definition admits_injection (g : Gate) : option bool :=
  fs ← fl_snapshot (gate_floor g); Some (admits (admission g) fs).

Definition with_held (g : Gate) (h : Z) : Gate :=
  mkGate (gate_floor g) (admission g) h (wrapping_add_u64 (note_changes g) 1)
    (triggered g) (waker g) (woken g).

Definition note_injected_press (g : Gate) : Gate :=
  with_held g (wrapping_add_u32 (held g) 1).
Definition note_injected_up (g : Gate) : Gate :=
  with_held g (default (held g) (checked_sub (held g) 1)).
Definition note_injected_released (g : Gate) : Gate := with_held g 0.

Definition injected_held (g : Gate) : bool := 0 <? held g.
Definition injection_changes (g : Gate) : Z := note_changes g.

Definition set_waker (g : Gate) : Gate * bool :=
  if waker g then (g, false)
  else (mkGate (gate_floor g) (admission g) (held g) (note_changes g) (triggered g)
          true (woken g), true).

Definition take_triggered (g : Gate) : Gate * option Z :=
  (mkGate (gate_floor g) (admission g) (held g) (note_changes g) 0 (waker g) (woken g),
   if triggered g =? 0 then None else Some (triggered g)).

Definition with_floor (g : Gate) (f : F) : Gate :=
  mkGate f (admission g) (held g) (note_changes g) (triggered g) (waker g) (woken g).

(** The compare-and-swap loop of [yield_floor]; [fuel] bounds its turns. *)
Fixpoint yield_loop (fuel : nat) (g : Gate) (current : FloorSnapshot)
  : option (Gate * option (FloorSnapshot * FloorSnapshot)) :=
  match fuel with
  | O => None
  | S fuel =>
      if negb (bool_decide (state current = Receiving)) then Some (g, None)
      else
        '(f, r) ← fl_transition (gate_floor g) current Yielding;
        match r with
        | Ok yielding => Some (with_floor g f, Some (current, yielding))
        | Err changed => yield_loop fuel (with_floor g f) changed
        end
  end.

Definition yield_floor (fuel : nat) (g : Gate)
  : option (Gate * option (FloorSnapshot * FloorSnapshot)) :=
  current ← fl_snapshot (gate_floor g); yield_loop fuel g current.

Definition close_yielded (g : Gate) (receiving yielding : FloorSnapshot)
  : Gate * TakeBackOutcome :=
  let withhold := 0 <? held g in
  (mkGate (gate_floor g)
     (if admission g =? generation receiving then CLOSED else admission g)
     (held g) (note_changes g) (generation yielding) (waker g)
     (if waker g then woken g + 1 else woken g),
   Triggered withhold).

Definition trigger (fuel : nat) (g : Gate) : option (Gate * TakeBackOutcome) :=
  '(g, y) ← yield_floor fuel g;
  Some (match y with
        | Some (receiving, yielding) => close_yielded g receiving yielding
        | None => (g, NotReceiving)
        end).

(** ** Lemmas *)

Lemma admits_spec admitted fs :
  admits admitted fs = true <->
  admitted <> CLOSED /\ state fs = Receiving /\ generation fs = admitted.
Proof.
  unfold admits. rewrite !andb_true_iff, negb_true_iff, Z.eqb_neq, bool_decide_eq_true, Z.eqb_eq.
  tauto.
Qed.

(** The one edge out of Receiving that a take-back uses. *)
Lemma yield_edge s :
  state s = Receiving ->
  FloorSpec.edge s (OpTransition s Yielding) = Some (next s Yielding (peer s)).
Proof.
  intros Hs. cbn [FloorSpec.edge]. rewrite Hs, !bool_decide_eq_true_2 by done. reflexivity.
Qed.

(** Uninterrupted, one turn of the loop is enough. *)
Lemma yield_floor_spec fuel g s :
  fl_holds (gate_floor g) s ->
  (state s = Receiving ->
     exists f, yield_floor (S fuel) g = Some (with_floor g f, Some (s, next s Yielding (peer s)))
       /\ fl_holds f (next s Yielding (peer s)))
  /\ (state s <> Receiving -> yield_floor (S fuel) g = Some (g, None)).
Proof.
  intros Hh. unfold yield_floor. rewrite (fl_snapshot_spec _ _ Hh). cbn [mbind option_bind].
  split; intros Hs; cbn [yield_loop].
  - rewrite bool_decide_eq_true_2 by done. cbn [negb].
    pose proof (fl_transition_spec _ _ s Yielding Hh (fl_holds_ok _ _ Hh)) as Ht.
    rewrite yield_edge in Ht by done. destruct Ht as (f & -> & Hf). cbn. eauto.
  - by rewrite bool_decide_eq_false_2.
Qed.
End Gate.
Arguments Gate : clear implicits.

(** ** Properties *)

(** A take-back run on a Receiving floor always completes in one turn of its
    compare-and-swap loop: the floor is Yielding for the same peer one
    generation later, nothing is admitted any more (whatever generation is
    opened for the one just yielded), the coordinator can take the Yielding
    generation once, the waker ran once if registered, and the report says
    whether injected input was down. On any other floor it changes nothing. *)
Theorem take_back_trigger {F} `{SharedFloorI F} (g : Gate F) (s : FloorSnapshot) (fuel : nat) :
  fl_holds (gate_floor g) s ->
  (state s = Receiving ->
   exists g' y, trigger (S fuel) g = Some (g', Triggered (injected_held g))
     /\ y = next s Yielding (peer s) /\ fl_holds (gate_floor g') y
     /\ admits_injection g' = Some false
     /\ admits_injection (open_injection g' (generation s)) = Some false
     /\ snd (take_triggered g') = Some (generation y)
     /\ snd (take_triggered (fst (take_triggered g'))) = None
     /\ woken g' = woken g + Z.b2z (waker g) /\ held g' = held g)
  /\ (state s <> Receiving -> trigger (S fuel) g = Some (g, NotReceiving)).
Proof.
  intros Hh. destruct (yield_floor_spec fuel g s Hh) as [Hy Hn].
  unfold trigger. split; intros Hs; [|by rewrite (Hn Hs)].
  destruct (Hy Hs) as (f & -> & Hf). cbn.
  eexists _, _. split; [reflexivity|]. split; [reflexivity|].
  unfold admits_injection; cbn. rewrite (fl_snapshot_spec _ _ Hf). cbn.
  pose proof (fl_holds_ok _ _ Hf) as (Hg & _ & _)%snapshot_ok_spec; cbn in Hg.
  unfold admits; cbn. rewrite !andb_false_r, !andb_false_l.
  split_and!; try done.
  - rewrite (proj2 (Z.eqb_neq _ 0)) by (cbn in *; lia). reflexivity.
  - destruct (waker g); cbn; lia.
Qed.

Definition recv_gate : Gate Z :=
  mkGate (pack floor_recv5) 5 2 4 0 true 0.

Lemma take_back_trigger_witness :
  (state floor_recv5 = Receiving ->
   exists g' y, trigger 1 recv_gate = Some (g', Triggered (injected_held recv_gate))
     /\ y = next floor_recv5 Yielding (peer floor_recv5) /\ fl_holds (gate_floor g') y
     /\ admits_injection g' = Some false
     /\ admits_injection (open_injection g' (generation floor_recv5)) = Some false
     /\ snd (take_triggered g') = Some (generation y)
     /\ snd (take_triggered (fst (take_triggered g'))) = None
     /\ woken g' = woken recv_gate + Z.b2z (waker recv_gate) /\ held g' = held recv_gate)
  /\ (state floor_recv5 <> Receiving -> trigger 1 recv_gate = Some (recv_gate, NotReceiving)).
Proof.
  apply (take_back_trigger recv_gate floor_recv5 0).
  split; [|reflexivity]. vm_compute. split_and!; congruence.
Defined.

(** A take-back delayed between its two steps never closes a newer
    activation: if the admission was opened for another generation meanwhile,
    [close_yielded] leaves it open, and an admission it does close was the
    yielded generation's own. *)
Theorem delayed_take_back_keeps_newer_admission {F} `{SharedFloorI F}
    (g : Gate F) (receiving yielding now : FloorSnapshot) :
  fl_holds (gate_floor g) now -> generation now <> generation receiving ->
  admits_injection (fst (close_yielded g receiving yielding)) = admits_injection g
  /\ (admission (fst (close_yielded g receiving yielding)) <> admission g ->
        admission g = generation receiving
        /\ admission (fst (close_yielded g receiving yielding)) = CLOSED).
Proof.
  intros Hh Hg. unfold admits_injection; cbn. rewrite (fl_snapshot_spec _ _ Hh). cbn.
  destruct (admission g =? generation receiving) eqn:E; bool_inv; [|done].
  split; [|done]. f_equal. unfold admits.
  rewrite (proj2 (Z.eqb_neq (generation now) (admission g))) by congruence.
  rewrite (proj2 (Z.eqb_eq CLOSED CLOSED)) by done. by rewrite !andb_false_r.
Qed.

Definition newer_gate : Gate Z :=
  mkGate (pack (mkSnapshot Receiving 9 1)) 9 0 0 0 false 0.
Lemma delayed_take_back_keeps_newer_admission_witness :
  admits_injection (fst (close_yielded newer_gate floor_recv5 (next floor_recv5 Yielding 1)))
    = admits_injection newer_gate
  /\ (admission (fst (close_yielded newer_gate floor_recv5 (next floor_recv5 Yielding 1)))
        <> admission newer_gate ->
        admission newer_gate = generation floor_recv5
        /\ admission (fst (close_yielded newer_gate floor_recv5 (next floor_recv5 Yielding 1)))
           = CLOSED).
Proof.
  apply (delayed_take_back_keeps_newer_admission newer_gate floor_recv5
           (next floor_recv5 Yielding 1) (mkSnapshot Receiving 9 1)).
  - split; [|reflexivity]. vm_compute. split_and!; congruence.
  - vm_compute. congruence.
Defined.
