(* ===== verification/Injection.v ===== *)
(** * The injector's admission ledger, and its race with take-back
      (monhop-transport/src/session_native.rs, session_receiver.rs)

    [InjectionLedger] counts every native key or button press into the
    take-back gate before it checks admission, and uncounts it after the
    release.  The first half of this file models it call by call.  The second
    half interleaves the injector thread, the capture callback's take-back and
    the coordinator at the granularity of their atomic accesses (all SeqCst,
    so every execution is such an interleaving) and proves the claim of
    take_back.rs: no injected press can land after a take-back that decided
    not to withhold. *)

From stdpp Require Import gmap.
From S2P Require Import Prelude Types Floor TakeBack.

Inductive DestinationAction :=
| MoveTo (p : Point)
| ActKey (usage : HidUsage) (pressed : bool)
| ActButton (button : MouseButton) (pressed : bool) (click_count : Z)
| ActScroll (horizontal vertical : f64)
| ActGesture (g : PointerGesture)
| ActSystem (g : SystemGesture)
| EndGestures
| ReleaseAll.

(** [DestinationAction::is_release]. *)
Definition is_release (a : DestinationAction) : bool :=
  match a with EndGestures | ReleaseAll => true | _ => false end.

(** The ledger's flags: [keys[usage]], [buttons[index]] and [magnify]. *)
Inductive Slot := SlotKey (usage : Z) | SlotButton (index : Z) | SlotMagnify.
#[global] Instance Slot_eq_dec : EqDecision Slot.
Proof. solve_decision. Defined.
#[global] Instance Slot_countable : Countable Slot.
Proof.
  refine (inj_countable'
    (fun s => match s with
              | SlotKey u => inl u | SlotButton i => inr (Some i) | SlotMagnify => inr None
              end)
    (fun s => match s with
              | inl u => SlotKey u | inr (Some i) => SlotButton i | inr None => SlotMagnify
              end) _).
  by intros [].
Defined.

(** [InjectionLedger]: the flags that are set. *)
Record Ledger := mkLedger { flags : gset Slot; pinch_holds_modifier : bool }.

Definition new_ledger (pinch : bool) : Ledger := mkLedger ∅ pinch.
Definition with_flags (l : Ledger) (s : gset Slot) : Ledger :=
  mkLedger s (pinch_holds_modifier l).

Definition is_new_press (l : Ledger) (a : DestinationAction) : bool :=
  match a with
  | ActKey usage true => bool_decide (SlotKey usage ∉ flags l)
  | ActButton button true _ => bool_decide (SlotButton (button_index button) ∉ flags l)
  | ActGesture (Magnify Began _) =>
      pinch_holds_modifier l && bool_decide (SlotMagnify ∉ flags l)
  | ActSystem _ => true
  | _ => false
  end.

Section Ledger.
Context {F : Type} `{SharedFloorI F}.

(** [InjectionLedger::refuse]. *)
Definition refuse_press (g : Gate F) (l : Ledger) (a : DestinationAction) : Gate F :=
  if is_new_press l a then note_injected_up g else g.

(** [InjectionLedger::begin]. *)
Definition begin_action (g : Gate F) (l : Ledger) (a : DestinationAction)
  : option (Gate F * bool) :=
  if is_release a then Some (g, true)
  else
    let g := if is_new_press l a then note_injected_press g else g in
    ok ← admits_injection g;
    Some (if (ok : bool) then (g, true) else (refuse_press g l a, false)).

(** A flag written to [pressed], uncounting a press that was set. *)
Definition set_flag (g : Gate F) (l : Ledger) (s : Slot) (pressed : bool) : Gate F * Ledger :=
  (if negb pressed && bool_decide (s ∈ flags l) then note_injected_up g else g,
   with_flags l (if pressed then {[s]} ∪ flags l else flags l ∖ {[s]})).

Definition end_magnify (g : Gate F) (l : Ledger) : Gate F * Ledger :=
  (if bool_decide (SlotMagnify ∈ flags l) then note_injected_up g else g,
   with_flags l (flags l ∖ {[SlotMagnify]})).

(** [InjectionLedger::complete]. *)
Definition complete (g : Gate F) (l : Ledger) (a : DestinationAction) : Gate F * Ledger :=
  match a with
  | ActKey usage pressed => set_flag g l (SlotKey usage) pressed
  | ActButton button pressed _ => set_flag g l (SlotButton (button_index button)) pressed
  | ActGesture (Magnify phase _) =>
      match phase with
      | Began =>
          (g, with_flags l (if pinch_holds_modifier l then {[SlotMagnify]} ∪ flags l
                            else flags l ∖ {[SlotMagnify]}))
      | Ended | Cancelled => end_magnify g l
      | Changed => (g, l)
      end
  | ActSystem _ => (note_injected_up g, l)
  | EndGestures => end_magnify g l
  | ReleaseAll => (note_injected_released g, with_flags l ∅)
  | _ => (g, l)
  end.

(** [require_action_authorization]. *)
Definition authorized (stopping : bool) (a : DestinationAction) : bool :=
  negb (stopping && negb (is_release a)).

(** What happened outside the ledger while [Sequencer::apply] ran one action:
    whether the session was stopping when it began, the outcomes of the snap's
    post and of the check after it (when the landing snaps first), and the
    outcome of the action's own post. *)
Record Outside := mkOutside { stopping : bool; snap : option (bool * bool); posted : bool }.

(** [Sequencer::apply] on the ledger: [false] is the error of a refused
    authorization or of a failed post. *)
Definition apply_action (g : Gate F) (l : Ledger) (a : DestinationAction) (o : Outside)
  : option (Gate F * Ledger * bool) :=
  if negb (authorized (stopping o) a) then Some (g, l, false)
  else
    '(g, go) ← begin_action g l a;
    let own := if posted o then (complete g l a, true) else (g, l, false) in
    Some (if negb go then (g, l, true)
          else match a, snap o with
               | ActButton _ true _, Some (false, _) => (g, l, false)
               | ActButton _ true _, Some (true, false) => (refuse_press g l a, l, true)
               | _, _ => own
               end).
End Ledger.

(** ** Counting, call by call *)

Section Counting.
Context {F : Type} `{SharedFloorI F}.
Implicit Types (g : Gate F) (l : Ledger).

(** Only an injector whose pinch holds a modifier ever sets [magnify]. *)
Definition ledger_ok l : Prop := pinch_holds_modifier l = false -> SlotMagnify ∉ flags l.
Definition set_count l : Z := Z.of_nat (size (flags l)).

Lemma set_count_nonneg l : 0 <= set_count l.
Proof. unfold set_count. lia. Qed.

Lemma size_set_add (s : Slot) (x : gset Slot) :
  s ∉ x -> Z.of_nat (size ({[s]} ∪ x)) = Z.of_nat (size x) + 1.
Proof. intros. rewrite size_union by set_solver. rewrite size_singleton. lia. Qed.

Lemma size_set_del (s : Slot) (x : gset Slot) :
  s ∈ x -> Z.of_nat (size (x ∖ {[s]})) = Z.of_nat (size x) - 1.
Proof.
  intros. assert (x = {[s]} ∪ (x ∖ {[s]})) as Hx by (apply union_difference_singleton_L; done).
  rewrite Hx at 2. rewrite size_set_add by set_solver. lia.
Qed.

Lemma held_press g : 0 <= held g < u32_max -> held (note_injected_press g) = held g + 1.
Proof. unfold_int. intros. cbn. unfold wrapping_add_u32. rewrite Z.mod_small; lia. Qed.

Lemma held_up g : 0 < held g -> held (note_injected_up g) = held g - 1.
Proof.
  intros. cbn. unfold checked_sub. rewrite (proj2 (Z.leb_le 1 (held g))) by lia. reflexivity.
Qed.

Lemma set_flag_held g l s pressed n :
  0 <= n ->
  held g = set_count l + n + (if pressed && bool_decide (s ∉ flags l) then 1 else 0) ->
  held (fst (set_flag g l s pressed)) = set_count (snd (set_flag g l s pressed)) + n.
Proof.
  intros Hn Hh. unfold set_flag, set_count in *.
  destruct (decide (s ∈ flags l)) as [Hs|Hs], pressed;
    cbn [negb andb fst snd flags with_flags] in *.
  - rewrite bool_decide_eq_false_2 in Hh by tauto.
    replace ({[s]} ∪ flags l) with (flags l) by set_solver. lia.
  - rewrite bool_decide_eq_true_2 by done. pose proof (size_set_del s (flags l) Hs).
    rewrite held_up; lia.
  - rewrite bool_decide_eq_true_2 in Hh by done. rewrite size_set_add by done. lia.
  - rewrite bool_decide_eq_false_2 by done.
    replace (flags l ∖ {[s]}) with (flags l) by set_solver. lia.
Qed.

Lemma end_magnify_held g l n :
  0 <= n -> held g = set_count l + n ->
  held (fst (end_magnify g l)) = set_count (snd (end_magnify g l)) + n.
Proof.
  intros Hn Hh. pose proof (set_flag_held g l SlotMagnify false n Hn) as Hs.
  cbn in Hs. unfold end_magnify. apply Hs. lia.
Qed.

(** After its post an action leaves the count at the set flags, plus the [n]
    presses that failed posts left counted; [ReleaseAll] clears those too. *)
Lemma complete_held g l a n :
  ledger_ok l -> 0 <= n ->
  held g = set_count l + n + (if is_new_press l a then 1 else 0) ->
  held (fst (complete g l a)) =
    set_count (snd (complete g l a)) + (match a with ReleaseAll => 0 | _ => n end).
Proof.
  intros Hl Hn Hh. pose proof (set_count_nonneg l).
  destruct a as [p|u pr|b pr c|h v|gs|sg| |]; cbn [complete is_new_press] in *; try (cbn; lia).
  - apply set_flag_held; [done|]. destruct pr; exact Hh.
  - apply set_flag_held; [done|]. destruct pr; exact Hh.
  - destruct gs as [ph d|ph d| |]; cbn [fst snd]; try lia.
    destruct ph; cbn [fst snd]; try (apply end_magnify_held; lia); [|lia].
    unfold set_count in *; cbn [flags with_flags].
    destruct (pinch_holds_modifier l) eqn:Ep; cbn [andb] in Hh.
    + case_bool_decide; [rewrite size_set_add by done; lia|].
      replace ({[SlotMagnify]} ∪ flags l) with (flags l) by set_solver. lia.
    + specialize (Hl Ep).
      replace (flags l ∖ {[SlotMagnify]}) with (flags l) by set_solver. lia.
  - cbn [fst snd]. rewrite held_up by lia. lia.
  - apply end_magnify_held; lia.
  - reflexivity.
Qed.

Lemma complete_ledger_ok g l a : ledger_ok l -> ledger_ok (snd (complete g l a)).
Proof.
  unfold ledger_ok. intros Hl.
  destruct a as [p|u []|b [] c|h v|[[] d|ph d| |]|sg| |]; cbn; auto; intros Hp;
    specialize (Hl Hp); try rewrite Hp; set_solver.
Qed.

(** Only a new press sets a flag. *)
Lemma complete_sets g l a s :
  s ∈ flags (snd (complete g l a)) -> s ∉ flags l -> is_new_press l a = true.
Proof.
  destruct a as [p|u []|b [] c|h v|[[] d|ph d| |]|sg| |]; cbn;
    try (destruct (pinch_holds_modifier l)); intros Hin Hout;
    try (exfalso; set_solver); try done;
    apply bool_decide_eq_true; set_solver.
Qed.
End Counting.

(** ** The three threads

    [injector] is where the injector stands in [Sequencer::apply]; [callback] where the
    capture callback stands in [TakeBackGate::trigger].  [nchanges] counts the floor's
    changes, [fails] the posts that failed and [lost] those of them counted
    since the last ReleaseAll.  [tag] is the generation each set flag was
    admitted under and [decided] the take-backs so far, as the Receiving
    generation each ended and whether it withheld.  [nchanges], [fails], [lost], [tag]
    and [decided] are not in the code: no step reads them. *)

Module Race.

Inductive InjectorAt :=
| IIdle
| IChecking (a : DestinationAction)
| ILoaded (a : DestinationAction) (admitted : Z)
| IAdmitted (a : DestinationAction) (gen : Z)
| IRefusing (a : DestinationAction).

Inductive CallbackAt :=
| CIdle
| CHave (current : FloorSnapshot)
| CYielded (receiving yielding : FloorSnapshot)
| CClosed (receiving yielding : FloorSnapshot)
| CRead (receiving yielding : FloorSnapshot) (withhold : bool).

Record Sys := mkSys {
  gate : Gate Z; ledger : Ledger; injector : InjectorAt; callback : CallbackAt;
  nchanges : Z; fails : Z; lost : Z; tag : Slot -> Z; decided : list (Z * bool) }.

Definition sys_init (pinch : bool) : Sys :=
  mkSys (new_gate new_floor) (new_ledger pinch) IIdle CIdle 0 0 0 (fun _ => 0) [].

(** What the codec admits: a valid key usage, which is below 256. *)
Definition action_ok (a : DestinationAction) : Prop :=
  match a with ActKey u _ => usage_is_valid u = true | _ => True end.

Definition retag (st : Sys) (gen : Z) (s : Slot) : Z :=
  if bool_decide (s ∈ flags (ledger st)) then tag st s else gen.

Definition at_injector (st : Sys) (g : Gate Z) (pc : InjectorAt) : Sys :=
  mkSys g (ledger st) pc (callback st) (nchanges st) (fails st) (lost st) (tag st) (decided st).
Definition at_callback (st : Sys) (g : Gate Z) (pc : CallbackAt) : Sys :=
  mkSys g (ledger st) (injector st) pc (nchanges st) (fails st) (lost st) (tag st) (decided st).

(** The compare-exchange and the stores of [close_yielded]. *)
Definition close_admission (g : Gate Z) (receiving : FloorSnapshot) : Gate Z :=
  if admission g =? generation receiving then open_injection g CLOSED else g.
Definition publish (g : Gate Z) (yielding : FloorSnapshot) : Gate Z :=
  mkGate (gate_floor g) (admission g) (held g) (note_changes g) (generation yielding)
    (waker g) (if waker g then woken g + 1 else woken g).

Inductive sys_step (st : Sys) : Sys -> Prop :=
(* the injector *)
| step_begin a :
    injector st = IIdle -> action_ok a -> is_release a = false ->
    sys_step st (at_injector st
      (if is_new_press (ledger st) a then note_injected_press (gate st) else gate st)
      (IChecking a))
| step_begin_release a :
    injector st = IIdle -> is_release a = true ->
    sys_step st (at_injector st (gate st) (IAdmitted a 0))
| step_load_admission a :
    injector st = IChecking a ->
    sys_step st (at_injector st (gate st) (ILoaded a (admission (gate st))))
| step_load_floor a adm fs :
    injector st = ILoaded a adm -> snapshot (gate_floor (gate st)) = Some fs ->
    sys_step st (at_injector st (gate st)
      (if admits adm fs then IAdmitted a adm else IRefusing a))
| step_snap_lost_control a gen :
    injector st = IAdmitted a gen -> is_release a = false ->
    sys_step st (at_injector st (gate st) (IRefusing a))
| step_refuse a :
    injector st = IRefusing a ->
    sys_step st (at_injector st (refuse_press (gate st) (ledger st) a) IIdle)
| step_post_failed a gen :
    injector st = IAdmitted a gen ->
    sys_step st (mkSys (gate st) (ledger st) IIdle (callback st) (nchanges st) (fails st + 1)
      (lost st + Z.b2z (is_new_press (ledger st) a)) (tag st) (decided st))
| step_posted a gen :
    injector st = IAdmitted a gen ->
    sys_step st (mkSys (fst (complete (gate st) (ledger st) a))
      (snd (complete (gate st) (ledger st) a)) IIdle (callback st) (nchanges st) (fails st)
      (match a with ReleaseAll => 0 | _ => lost st end) (retag st gen) (decided st))
(* the capture callback *)
| step_trigger s :
    callback st = CIdle -> snapshot (gate_floor (gate st)) = Some s ->
    sys_step st (at_callback st (gate st) (CHave s))
| step_not_receiving s :
    callback st = CHave s -> state s <> Receiving ->
    sys_step st (at_callback st (gate st) CIdle)
| step_yield s w y :
    callback st = CHave s -> state s = Receiving ->
    transition (gate_floor (gate st)) s Yielding = Some (w, Ok y) ->
    sys_step st (mkSys (with_floor (gate st) w) (ledger st) (injector st) (CYielded s y)
      (nchanges st + 1) (fails st) (lost st) (tag st) (decided st))
| step_yield_retry s w c :
    callback st = CHave s -> state s = Receiving ->
    transition (gate_floor (gate st)) s Yielding = Some (w, Err c) ->
    sys_step st (at_callback st (with_floor (gate st) w) (CHave c))
| step_close r y :
    callback st = CYielded r y ->
    sys_step st (at_callback st (close_admission (gate st) r) (CClosed r y))
| step_read_held r y :
    callback st = CClosed r y ->
    sys_step st (mkSys (gate st) (ledger st) (injector st) (CRead r y (injected_held (gate st)))
      (nchanges st) (fails st) (lost st) (tag st)
      ((generation r, injected_held (gate st)) :: decided st))
| step_publish r y withhold :
    callback st = CRead r y withhold ->
    sys_step st (at_callback st (publish (gate st) y) CIdle)
(* the coordinator *)
| step_floor fs op to :
    op_ok op -> snapshot (gate_floor (gate st)) = Some fs -> FloorSpec.edge fs op = Some to ->
    floor_step (gate_floor (gate st)) op = Some (pack to) ->
    sys_step st (mkSys (with_floor (gate st) (pack to)) (ledger st) (injector st) (callback st)
      (nchanges st + 1) (fails st) (lost st) (tag st) (decided st))
| step_open gen :
    is_u64 gen ->
    sys_step st (at_injector st (open_injection (gate st) gen) (injector st))
| step_take_triggered :
    sys_step st (at_injector st (fst (take_triggered (gate st))) (injector st)).

Inductive sys_reach (pinch : bool) : Sys -> Prop :=
| sys_reach_init : sys_reach pinch (sys_init pinch)
| sys_reach_step st st' : sys_reach pinch st -> sys_step st st' -> sys_reach pinch st'.

(** ** The invariant *)

Definition all_slots : gset Slot :=
  list_to_set (SlotMagnify :: (SlotKey <$> seqZ 0 256) ++ (SlotButton <$> seqZ 0 5)).

(** The press counted and not yet settled. *)
Definition in_flight (st : Sys) : Z :=
  match injector st with
  | IIdle => 0
  | IChecking a | ILoaded a _ | IAdmitted a _ | IRefusing a =>
      Z.b2z (is_new_press (ledger st) a)
  end.

Definition cb_ok (st : Sys) (gen : Z) : Prop :=
  match callback st with
  | CIdle => True
  | CHave s => snapshot_ok s
  | CYielded r _ | CClosed r _ | CRead r _ _ => generation r < gen
  end.

(** No press admitted under [r] or before is about to land or still down. *)
Definition settled (st : Sys) (r : Z) : Prop :=
  (forall a gen, injector st = IAdmitted a gen -> is_new_press (ledger st) a = true -> r < gen)
  /\ (forall s, s ∈ flags (ledger st) -> r < tag st s).

Record sys_inv (st : Sys) : Prop := {
  inv_floor : exists fs, snapshot_ok fs /\ gate_floor (gate st) = pack fs
    /\ generation fs = 1 + nchanges st /\ cb_ok st (generation fs)
    /\ forall r w, (r, w) ∈ decided st -> r < generation fs;
  inv_ledger : ledger_ok (ledger st) /\ flags (ledger st) ⊆ all_slots;
  inv_action : match injector st with
               | IIdle => True
               | IChecking a | ILoaded a _ | IRefusing a => action_ok a /\ is_release a = false
               | IAdmitted a _ => action_ok a
               end;
  inv_lost : 0 <= lost st <= fails st;
  inv_held : held (gate st) = set_count (ledger st) + lost st + in_flight st;
  inv_settled r : (r, false) ∈ decided st -> settled st r }.

Lemma all_slots_size : Z.of_nat (size all_slots) = 262.
Proof. vm_compute. reflexivity. Qed.

(** The slot an action may set. *)
Definition action_slot (a : DestinationAction) : Slot :=
  match a with
  | ActKey u _ => SlotKey u
  | ActButton b _ _ => SlotButton (button_index b)
  | _ => SlotMagnify
  end.

Lemma complete_flags (g : Gate Z) l a (S : gset Slot) :
  action_slot a ∈ S -> flags l ⊆ S -> flags (snd (complete g l a)) ⊆ S.
Proof.
  intros Ha Hl. destruct a as [p|u []|b [] c|h v|[[] d|ph d| |]|sg| |]; cbn in *; try done;
    try (destruct (pinch_holds_modifier l)); set_solver.
Qed.

Lemma action_slot_ok a : action_ok a -> action_slot a ∈ all_slots.
Proof.
  intros Ha. unfold all_slots. apply elem_of_list_to_set.
  destruct a; cbn [action_slot]; try (apply elem_of_cons; by left); apply elem_of_cons; right;
    apply elem_of_app.
  - left. apply list_elem_of_fmap_2, elem_of_seqZ. cbn in Ha.
    unfold usage_is_valid in Ha. bool_inv. destruct Ha; bool_inv; lia.
  - right. apply list_elem_of_fmap_2, elem_of_seqZ. destruct button; cbn; lia.
Qed.

Lemma set_count_bound l : flags l ⊆ all_slots -> set_count l <= 262.
Proof.
  intros H%subseteq_size. unfold set_count. pose proof all_slots_size. lia.
Qed.

Lemma refuse_held (g : Gate Z) l a :
  held g >= Z.b2z (is_new_press l a) ->
  held (refuse_press g l a) = held g - Z.b2z (is_new_press l a).
Proof.
  intros. unfold refuse_press. destruct (is_new_press l a); cbn [Z.b2z] in *; [|lia].
  rewrite held_up; lia.
Qed.

Lemma refuse_floor (g : Gate Z) l a : gate_floor (refuse_press g l a) = gate_floor g.
Proof. unfold refuse_press. by case_match. Qed.

Lemma complete_floor (g : Gate Z) l a : gate_floor (fst (complete g l a)) = gate_floor g.
Proof.
  destruct a as [p|u pr|b pr c|h v|[ph d|ph d| |]|sg| |];
    cbn [complete set_flag end_magnify fst snd]; try destruct ph; unfold end_magnify; cbn;
    try (by case_match); done.
Qed.

(** Below the generation budget a change counts up by one. *)
Lemma edge_next fs op to k :
  generation fs = 1 + k -> 1 + k < MAX_GENERATION ->
  FloorSpec.edge fs op = Some to -> generation to = 1 + (k + 1).
Proof.
  intros Hg Hk He. rewrite (edge_generation _ _ _ He). unfold bump.
  rewrite (proj2 (Z.leb_gt _ _)); lia.
Qed.

Definition pc_ok (pc : InjectorAt) : Prop :=
  match pc with
  | IIdle => True
  | IChecking a | ILoaded a _ | IRefusing a => action_ok a /\ is_release a = false
  | IAdmitted a _ => action_ok a
  end.

Lemma inv_injector_step st g pc :
  sys_inv st -> gate_floor g = gate_floor (gate st) -> pc_ok pc ->
  held g = set_count (ledger st) + lost st + in_flight (at_injector st g pc) ->
  (forall a gen r, pc = IAdmitted a gen -> is_new_press (ledger st) a = true ->
     (r, false) ∈ decided st -> r < gen) ->
  sys_inv (at_injector st g pc).
Proof.
  intros [(fs & ?) Hl Ha Hlo Hh Hs] Hg Hpc Hheld Hadm. split; cbn; try done.
  - exists fs. rewrite Hg. done.
  - intros r Hr. destruct (Hs r Hr). split; cbn; eauto.
Qed.

Lemma inv_callback_step st g pc fs :
  sys_inv st -> gate_floor g = gate_floor (gate st) -> held g = held (gate st) ->
  gate_floor (gate st) = pack fs -> snapshot_ok fs ->
  cb_ok (at_callback st g pc) (generation fs) -> sys_inv (at_callback st g pc).
Proof.
  intros [(fs' & Hok & Hw & Hn & Hc & Hd) Hl Ha Hlo Hh Hs] Hg He Hf Hfs Hcb.
  assert (fs' = fs) as -> by (apply pack_inj; congruence).
  split; cbn; try done; [exists fs|..].
  - rewrite Hg. done.
  - rewrite He. exact Hh.
Qed.

(** The floor moves on: every take-back so far stays behind it. *)
Lemma inv_floor_change st fs op to pc :
  sys_inv st -> gate_floor (gate st) = pack fs -> snapshot_ok fs -> op_ok op ->
  FloorSpec.edge fs op = Some to -> nchanges st + 1 < MAX_GENERATION ->
  (pc = callback st \/ exists y, pc = CYielded fs y) ->
  sys_inv (mkSys (with_floor (gate st) (pack to)) (ledger st) (injector st) pc
      (nchanges st + 1) (fails st) (lost st) (tag st) (decided st)).
Proof.
  intros [(fs' & Hok & Hw & Hn & Hc & Hd) Hl Ha Hlo Hh Hs] Hf Hfs Hop He Hb Hpc.
  assert (fs' = fs) as -> by (apply pack_inj; congruence).
  assert (Hto : generation to = 1 + (nchanges st + 1)) by (eapply edge_next; eauto; lia).
  split; cbn; try done. exists to. split_and!; [by eapply edge_ok|done|done| |].
  - destruct Hpc as [->|[y ->]]; [|cbn; lia]. unfold cb_ok in *; cbn.
    destruct (callback st); try done; lia.
  - intros r w Hr. specialize (Hd r w Hr). lia.
Qed.

Lemma inv_posted st a gen :
  sys_inv st -> injector st = IAdmitted a gen ->
  sys_inv (mkSys (fst (complete (gate st) (ledger st) a))
      (snd (complete (gate st) (ledger st) a)) IIdle (callback st) (nchanges st) (fails st)
      (match a with ReleaseAll => 0 | _ => lost st end) (retag st gen) (decided st)).
Proof.
  intros [(fs & ?) [Hl Hsl] Ha Hlo Hh Hs] Hi. unfold in_flight in Hh. rewrite Hi in *.
  split; cbn [gate ledger injector lost fails decided nchanges in_flight]; try done.
  - exists fs. rewrite complete_floor. done.
  - split; [by apply complete_ledger_ok|]. apply complete_flags; [by apply action_slot_ok|done].
  - destruct a; lia.
  - erewrite complete_held; [|done|apply Hlo|].
    + unfold in_flight; cbn. destruct a; lia.
    + rewrite Hh. unfold Z.b2z. done.
  - intros r Hr. destruct (Hs r Hr) as [Hin Hfl]. split; cbn; [done|].
    intros s Hin'. unfold retag. case_bool_decide; [auto|].
    eapply Hin; [done|]. eapply complete_sets; eauto.
Qed.

Lemma held_bound st : sys_inv st -> fails st < 2 ^ 31 -> 0 <= held (gate st) < u32_max.
Proof.
  intros [_ [_ Hl] _ Hlo Hh _] Hf. pose proof (set_count_bound _ Hl).
  pose proof (set_count_nonneg (ledger st)). rewrite Hh. unfold in_flight, u32_max.
  destruct (injector st); try destruct (is_new_press _ _); cbn; lia.
Qed.

Lemma in_flight_held st a :
  sys_inv st -> injector st = IRefusing a ->
  held (gate st) >= Z.b2z (is_new_press (ledger st) a).
Proof.
  intros [_ _ _ Hlo Hh _] Hi. pose proof (set_count_nonneg (ledger st)).
  unfold in_flight in Hh. rewrite Hi in Hh. lia.
Qed.

(** A callback that reads a zero count finds nothing down and nothing in flight. *)
Lemma zero_held_settled st r :
  sys_inv st -> injected_held (gate st) = false -> settled st r.
Proof.
  intros [_ _ _ Hlo Hh _] Hz. unfold injected_held in Hz. bool_inv.
  pose proof (set_count_nonneg (ledger st)). unfold in_flight, set_count in *. split.
  - intros a gen Hi Hp. rewrite Hi, Hp in Hh. cbn in Hh. lia.
  - intros s Hs. assert (size (flags (ledger st)) ≠ 0%nat).
    { intros H0%size_empty_inv. set_solver. }
    destruct (injector st); try destruct (is_new_press _ _); cbn in Hh; lia.
Qed.

Lemma inv_injector st st' :
  sys_inv st -> fails st' < 2 ^ 31 ->
  (exists a, st' = at_injector st
     (if is_new_press (ledger st) a then note_injected_press (gate st) else gate st)
     (IChecking a) /\ injector st = IIdle /\ action_ok a /\ is_release a = false)
  \/ (exists a, st' = at_injector st (refuse_press (gate st) (ledger st) a) IIdle
       /\ injector st = IRefusing a) ->
  sys_inv st'.
Proof.
  intros Hinv Hf [(a & -> & Hi & Ha & Hr)|(a & -> & Hi)];
    pose proof (held_bound st Hinv Hf) as Hb; cbn in Hf;
    pose proof Hinv as [_ _ _ Hlo Hh _]; unfold in_flight in Hh; rewrite Hi in Hh.
  - apply inv_injector_step; try done; [by case_match|].
    unfold in_flight; cbn [at_injector injector ledger].
    destruct (is_new_press _ _); cbn [Z.b2z]; [rewrite held_press by done|]; lia.
  - apply inv_injector_step; try done; [by rewrite refuse_floor|].
    rewrite refuse_held by (by apply in_flight_held). unfold in_flight; cbn. lia.
Qed.

Lemma inv_step st st' :
  sys_inv st -> sys_step st st' ->
  nchanges st' < MAX_GENERATION -> fails st' < 2 ^ 31 -> sys_inv st'.
Proof.
  intros Hinv Hstep Hn Hf.
  pose proof Hinv as [(fs & Hok & Hw & Hg & Hc & Hd) Hl Ha Hlo Hh Hs].
  assert (Hsnap : snapshot (gate_floor (gate st)) = Some fs)
    by (rewrite Hw; by apply unpack_pack).
  destruct Hstep as [a Hi Hok' Hrel|a Hi Hrel|a Hi|a adm f Hi Hf'|a gen Hi Hrel|a Hi|a gen Hi
    |a gen Hi|s Hi Hf'|s Hi _|s w y Hi Hst Ht|s w c Hi Hst Ht|r y Hi|r y Hi|r y wh Hi
    |f op to Hop Hf' He _|gen _|];
    try (unfold in_flight in Hh; rewrite Hi in Ha, Hh); unfold cb_ok in Hc; try rewrite Hi in Hc.
  - eapply inv_injector; eauto 10.
  - apply inv_injector_step; try done.
    + destruct a; done.
    + rewrite Hh. unfold in_flight; cbn. destruct a; done.
    + intros a' gen r Heq Hp Hr. simplify_eq. by destruct a'.
  - by apply inv_injector_step.
  - destruct (admits adm f) eqn:E; apply inv_injector_step; try done; [by destruct Ha|].
    intros a' gen r ? _ Hr. simplify_eq. apply admits_spec in E as (_ & _ & <-). eauto.
  - by apply inv_injector_step.
  - eapply inv_injector; eauto 10.
  - cbn in Hf. split; cbn; try done.
    + exists fs. done.
    + destruct (is_new_press _ _); cbn; lia.
    + rewrite Hh. unfold in_flight; cbn. lia.
    + intros r Hr. destruct (Hs r Hr). done.
  - by apply inv_posted.
  - eapply inv_callback_step; eauto. simplify_eq. done.
  - eapply inv_callback_step; eauto. done.
  - rewrite Hw in Ht. rewrite transition_spec in Ht; [|done|].
    + destruct (FloorSpec.edge fs (OpTransition s Yielding)) as [t|] eqn:E; cbn in Ht; [|done].
      simplify_eq. assert (s = fs) as ->.
      { cbn in E. destruct (bool_decide (s = fs)) eqn:Es; by bool_inv. }
      apply (inv_floor_change st fs (OpTransition fs Yielding)); eauto.
      apply snapshot_ok_spec in Hok. split; [exact I|cbn; lia].
    + apply snapshot_ok_spec in Hc. split; [exact I|cbn; lia].
  - rewrite Hw in Ht. rewrite transition_spec in Ht; [|done|].
    + destruct (FloorSpec.edge _ _) as [t|]; cbn in Ht; [done|]. simplify_eq.
      eapply inv_callback_step; eauto.
    + apply snapshot_ok_spec in Hc. split; [exact I|cbn; lia].
  - eapply inv_callback_step; eauto; unfold close_admission; by destruct (_ =? _).
  - split; cbn; try done.
    + exists fs. split_and!; try done. intros r' w' [?|?]%elem_of_cons; simplify_eq; eauto.
    + intros r' [?|?]%elem_of_cons; [|eauto]. simplify_eq.
      eapply zero_held_settled in Hinv; [|done]. exact Hinv.
  - eapply inv_callback_step; eauto. done.
  - simplify_eq. eapply inv_floor_change; eauto.
  - by apply inv_injector_step; try done; intros a g r Hi ? Hr; destruct (Hs r Hr); eauto.
  - by apply inv_injector_step; try done; intros a g r Hi ? Hr; destruct (Hs r Hr); eauto.
Qed.

Lemma sys_init_inv pinch : sys_inv (sys_init pinch).
Proof.
  split; cbn; try done.
  - exists (mkSnapshot Free 1 PEER_NONE). split_and!; try done; try apply new_floor_ok.
    intros r w H%elem_of_nil. done.
Qed.

Lemma step_monotone st st' :
  sys_step st st' -> nchanges st <= nchanges st' /\ fails st <= fails st'.
Proof. destruct 1; cbn; lia. Qed.

Lemma sys_reach_inv pinch st :
  sys_reach pinch st -> nchanges st < MAX_GENERATION -> fails st < 2 ^ 31 -> sys_inv st.
Proof.
  induction 1 as [|st st' _ IH Hstep]; intros Hn Hf; [apply sys_init_inv|].
  destruct (step_monotone _ _ Hstep). eapply inv_step; eauto. apply IH; lia.
Qed.

(** ** The steps are the code's calls

    Run without interruption, the injector's steps are [begin_action] and the
    callback's are [trigger]. *)
Lemma begin_action_steps st a g go :
  injector st = IIdle -> action_ok a ->
  begin_action (gate st) (ledger st) a = Some (g, go) ->
  exists gen, rtc sys_step st (at_injector st g (if go then IAdmitted a gen else IIdle)).
Proof.
  intros Hi Ha Hb. unfold begin_action in Hb. destruct (is_release a) eqn:Hr.
  { simplify_eq. exists 0. apply rtc_once, step_begin_release; done. }
  set (g1 := if is_new_press (ledger st) a then note_injected_press (gate st) else gate st) in *.
  set (s1 := at_injector st g1 (IChecking a)).
  set (s2 := at_injector st g1 (ILoaded a (admission g1))).
  assert (sys_step st s1) by (by apply step_begin).
  assert (sys_step s1 s2) by (by eapply (step_load_admission s1 a)).
  unfold admits_injection in Hb. destruct (fl_snapshot (gate_floor g1)) as [fs|] eqn:Ef; [|done].
  cbn [mbind option_bind] in Hb.
  pose proof (step_load_floor s2 a (admission g1) fs eq_refl Ef) as H3.
  destruct (admits (admission g1) fs); injection Hb as <- <-.
  - exists (admission g1). eapply rtc_l; [done|]. eapply rtc_l; [done|]. by apply rtc_once.
  - exists 0. eapply rtc_l; [done|]. eapply rtc_l; [done|]. eapply rtc_l; [exact H3|].
    apply rtc_once. by apply (step_refuse (at_injector st g1 (IRefusing a))).
Qed.

Lemma trigger_steps st fs g out :
  callback st = CIdle -> snapshot_ok fs -> gate_floor (gate st) = pack fs ->
  trigger 1 (gate st) = Some (g, out) ->
  exists st', rtc sys_step st st' /\ gate st' = g /\ callback st' = CIdle
    /\ decided st' = match out with
                     | NotReceiving => decided st
                     | Triggered w => (generation fs, w) :: decided st
                     end.
Proof.
  intros Hc Hok Hw Ht. unfold trigger in Ht.
  destruct (yield_floor_spec 0 (gate st) fs) as [Hy Hn]; [done|].
  assert (Hs : snapshot (gate_floor (gate st)) = Some fs) by (rewrite Hw; by apply unpack_pack).
  pose proof (step_trigger st fs Hc Hs) as H1.
  destruct (decide (state fs = Receiving)) as [Hr|Hr].
  - destruct (Hy Hr) as (f & Hyf & Hf). rewrite Hyf in Ht. cbn in Ht. simplify_eq.
    destruct Hf as [_ ->]. set (y := next fs Yielding (peer fs)) in *.
    pose proof (step_yield (at_callback st (gate st) (CHave fs)) fs (pack y) y eq_refl Hr) as H2.
    cbn [at_callback gate] in H2. rewrite Hw, transition_spec, yield_edge in H2; try done;
      [|apply snapshot_ok_spec in Hok; split; [exact I|cbn; lia]].
    specialize (H2 eq_refl).
    eexists. split.
    + eapply rtc_l; [exact H1|]. eapply rtc_l; [exact H2|].
      eapply rtc_l; [by eapply step_close|]. eapply rtc_l; [by eapply step_read_held|].
      apply rtc_once. by eapply step_publish.
    + unfold close_yielded in Ht. injection Ht as <- <-.
      unfold close_admission; cbn. by destruct (_ =? _).
  - rewrite (Hn Hr) in Ht. cbn in Ht. simplify_eq.
    eexists. split; [eapply rtc_l; [exact H1|]; apply rtc_once; by eapply step_not_receiving|].
    done.
Qed.
End Race.

(** ** A run of the three threads

    Peer 1 controls this machine at generation 2; local input takes it back
    while nothing is held; the peer is admitted again at generation 5 and
    presses a key. *)
Section Run.
Import Race.

Definition run_floor (st : Sys) (w : Z) : Sys :=
  mkSys (with_floor (gate st) w) (ledger st) (injector st) (callback st) (nchanges st + 1)
    (fails st) (lost st) (tag st) (decided st).

Definition run_press : DestinationAction := ActKey 4 true.
Definition run0 : Sys := run_floor (sys_init false) (pack (mkSnapshot Receiving 2 1)).
Definition run1 : Sys := at_injector run0 (open_injection (gate run0) 2) IIdle.
Definition run2 : Sys := at_callback run1 (gate run1) (CHave (mkSnapshot Receiving 2 1)).
Definition run3 : Sys :=
  mkSys (with_floor (gate run2) (pack (mkSnapshot Yielding 3 1))) (ledger run2) (injector run2)
    (CYielded (mkSnapshot Receiving 2 1) (mkSnapshot Yielding 3 1))
    2 0 0 (tag run2) (decided run2).
Definition run4 : Sys :=
  at_callback run3 (close_admission (gate run3) (mkSnapshot Receiving 2 1))
    (CClosed (mkSnapshot Receiving 2 1) (mkSnapshot Yielding 3 1)).
Definition run5 : Sys :=
  mkSys (gate run4) (ledger run4) (injector run4)
    (CRead (mkSnapshot Receiving 2 1) (mkSnapshot Yielding 3 1) false)
    2 0 0 (tag run4) [(2, false)].
Definition run6 : Sys := at_callback run5 (publish (gate run5) (mkSnapshot Yielding 3 1)) CIdle.
Definition run7 : Sys := run_floor run6 (pack (mkSnapshot Free 4 0)).
Definition run8 : Sys := run_floor run7 (pack (mkSnapshot Receiving 5 1)).
Definition run9 : Sys := at_injector run8 (open_injection (gate run8) 5) IIdle.
Definition run10 : Sys :=
  at_injector run9 (note_injected_press (gate run9)) (IChecking run_press).
Definition run11 : Sys := at_injector run10 (gate run10) (ILoaded run_press 5).
Definition run12 : Sys := at_injector run11 (gate run11) (IAdmitted run_press 5).

Lemma run_floor_step st fs op to :
  op_ok op -> snapshot (gate_floor (gate st)) = Some fs -> FloorSpec.edge fs op = Some to ->
  floor_step (gate_floor (gate st)) op = Some (pack to) ->
  sys_step st (run_floor st (pack to)).
Proof. intros. by apply (step_floor st fs op to). Qed.

Lemma run_reach : sys_reach false run12.
Proof.
  assert (H0 : sys_reach false run0).
  { eapply sys_reach_step; [apply sys_reach_init|].
    apply (run_floor_step _ (mkSnapshot Free 1 0) (OpTransition (mkSnapshot Free 1 0) Receiving));
      [vm_compute; intuition congruence|reflexivity..]. }
  assert (H6 : sys_reach false run6).
  { eapply sys_reach_step; [|by eapply (step_publish run5)].
    eapply sys_reach_step; [|by eapply (step_read_held run4)].
    eapply sys_reach_step; [|by eapply (step_close run3)].
    eapply sys_reach_step; [|by eapply (step_yield run2)].
    eapply sys_reach_step; [|by eapply (step_trigger run1)].
    eapply sys_reach_step; [exact H0|]. apply step_open. vm_compute. intuition congruence. }
  assert (H8 : sys_reach false run8).
  { eapply sys_reach_step; [eapply sys_reach_step; [exact H6|]|].
    - apply (run_floor_step _ (mkSnapshot Yielding 3 1)
               (OpTransition (mkSnapshot Yielding 3 1) Free));
        [vm_compute; intuition congruence|reflexivity..].
    - apply (run_floor_step _ (mkSnapshot Free 4 0)
               (OpTransition (mkSnapshot Free 4 0) Receiving));
        [vm_compute; intuition congruence|reflexivity..]. }
  eapply sys_reach_step; [|by apply (step_load_floor run11 run_press 5 (mkSnapshot Receiving 5 1))].
  eapply sys_reach_step; [|by eapply (step_load_admission run10)].
  eapply sys_reach_step; [|apply (step_begin run9 run_press); try done;
    vm_compute; intuition congruence].
  eapply sys_reach_step; [exact H8|]. apply step_open. vm_compute. intuition congruence.
Qed.
End Run.

(** ** Properties *)

(** C3. The race the gate is designed for: however the injector, the capture
    callback and the coordinator interleave (below 2^57 floor changes and 2^31
    failed posts), once a take-back that ended Receiving generation [r] decided
    not to withhold local input, every press the injector is about to post and
    every injected key, button or pinch still down was admitted under a
    generation newer than [r]. *)
Theorem no_press_after_take_back (pinch : bool) (st : Race.Sys) (r : Z) :
  Race.sys_reach pinch st ->
  Race.nchanges st < MAX_GENERATION -> Race.fails st < 2 ^ 31 ->
  (r, false) ∈ Race.decided st ->
  (forall a gen, Race.injector st = Race.IAdmitted a gen ->
     is_new_press (Race.ledger st) a = true -> r < gen)
  /\ (forall s, s ∈ flags (Race.ledger st) -> r < Race.tag st s).
Proof. intros Hr Hn Hf Hd. exact (Race.inv_settled st (Race.sys_reach_inv _ _ Hr Hn Hf) r Hd). Qed.

Lemma no_press_after_take_back_witness :
  (2, false) ∈ Race.decided run12 /\ Race.injector run12 = Race.IAdmitted run_press 5
  /\ (forall a gen, Race.injector run12 = Race.IAdmitted a gen ->
        is_new_press (Race.ledger run12) a = true -> 2 < gen)
  /\ (forall s, s ∈ flags (Race.ledger run12) -> 2 < Race.tag run12 s).
Proof.
  split; [left|]. split; [reflexivity|].
  apply (no_press_after_take_back false run12 2 run_reach); [reflexivity..|left].
Defined.

(** The gate's count is exact under the same interleavings: it never wraps
    and always equals the injected keys, buttons and pinches that are down,
    plus the press in flight, plus the presses whose post failed since the
    last ReleaseAll; so a take-back withholds exactly when one of those
    exists. *)
Theorem injected_count_exact (pinch : bool) (st : Race.Sys) :
  Race.sys_reach pinch st ->
  Race.nchanges st < MAX_GENERATION -> Race.fails st < 2 ^ 31 ->
  held (Race.gate st)
    = Z.of_nat (size (flags (Race.ledger st))) + Race.lost st + Race.in_flight st
  /\ is_u32 (held (Race.gate st))
  /\ (injected_held (Race.gate st) = false <->
        flags (Race.ledger st) = ∅ /\ Race.lost st = 0 /\ Race.in_flight st = 0).
Proof.
  intros Hr Hn Hf. pose proof (Race.sys_reach_inv _ _ Hr Hn Hf) as Hinv.
  pose proof (Race.held_bound st Hinv Hf) as Hb. pose proof Hinv as [_ _ _ Hlo Hh _].
  split; [exact Hh|]. split; [unfold_int; lia|].
  assert (0 <= Race.in_flight st)
    by (unfold Race.in_flight; destruct (Race.injector st); try destruct (is_new_press _ _); done).
  unfold injected_held. rewrite Z.ltb_ge. unfold set_count in Hh. split.
  - intros. split_and!; try lia. apply leibniz_equiv, size_empty_inv. lia.
  - intros (He & ? & ?). rewrite He, size_empty in Hh. lia.
Qed.

Lemma injected_count_exact_witness :
  held (Race.gate run12)
    = Z.of_nat (size (flags (Race.ledger run12))) + Race.lost run12 + Race.in_flight run12
  /\ is_u32 (held (Race.gate run12))
  /\ (injected_held (Race.gate run12) = false <->
        flags (Race.ledger run12) = ∅ /\ Race.lost run12 = 0 /\ Race.in_flight run12 = 0).
Proof. apply (injected_count_exact false run12 run_reach); reflexivity. Defined.

(** Cleanup is never refused: whatever the gate admits and even while the
    session is stopping, a posted [ReleaseAll] leaves no flag set and nothing
    counted; any other action that is not admitted changes neither the flags
    nor the count. *)
Theorem release_all_clears {F} `{SharedFloorI F} (g : Gate F) (l : Ledger) (a : DestinationAction)
    (o : Outside) (s : FloorSnapshot) :
  fl_holds (gate_floor g) s -> 0 <= held g < u32_max ->
  (posted o = true ->
   exists g', apply_action g l ReleaseAll o = Some (g', with_flags l ∅, true)
     /\ held g' = 0 /\ gate_floor g' = gate_floor g /\ admission g' = admission g)
  /\ (is_release a = false -> stopping o = true \/ admits (admission g) s = false ->
      exists g' ok, apply_action g l a o = Some (g', l, ok)
        /\ held g' = held g /\ ok = negb (stopping o)).
Proof.
  intros Hf Hh. split.
  - intros Hp. unfold apply_action, authorized, begin_action. rewrite Hp. cbn.
    rewrite andb_false_r. cbn. by eexists.
  - intros Hr Hno. unfold apply_action, authorized. rewrite Hr. cbn [negb].
    rewrite andb_true_r, negb_involutive. destruct (stopping o); [by eexists _, _|].
    destruct Hno as [|Hno]; [done|]. unfold begin_action. rewrite Hr.
    assert (Ha : forall g', gate_floor g' = gate_floor g -> admission g' = admission g ->
                   admits_injection g' = Some false).
    { intros g' Hg1 Hg2. unfold admits_injection.
      rewrite Hg1, Hg2, (fl_snapshot_spec _ _ Hf). cbn. by rewrite Hno. }
    rewrite Ha by by destruct (is_new_press l a). cbn [mbind option_bind negb].
    eexists _, _. split; [reflexivity|]. split; [|done].
    unfold refuse_press. destruct (is_new_press l a); [|done].
    rewrite held_up; rewrite held_press by done; lia.
Qed.

Definition held_ledger : Ledger := mkLedger {[SlotKey 4; SlotButton 0]} true.
Lemma release_all_clears_witness :
  (posted (mkOutside true None true) = true ->
   exists g', apply_action recv_gate held_ledger ReleaseAll (mkOutside true None true)
      = Some (g', with_flags held_ledger ∅, true)
     /\ held g' = 0 /\ gate_floor g' = gate_floor recv_gate /\ admission g' = admission recv_gate)
  /\ (is_release (ActKey 5 true) = false ->
      stopping (mkOutside true None true) = true \/ admits (admission recv_gate) floor_recv5 = false ->
      exists g' ok, apply_action recv_gate held_ledger (ActKey 5 true) (mkOutside true None true)
          = Some (g', held_ledger, ok)
        /\ held g' = held recv_gate /\ ok = negb (stopping (mkOutside true None true))).
Proof.
  apply (release_all_clears recv_gate held_ledger (ActKey 5 true) (mkOutside true None true)
           floor_recv5).
  - split; [|reflexivity]. vm_compute. split_and!; congruence.
  - vm_compute. intuition congruence.
Defined.
