(* ===== verification/Wire.v ===== *)
(** * Byte readers of the wire codec (monhop-protocol/src/lib.rs, [Cursor])

    A [Cursor] is the bytes it has not read yet, so a reading function is a
    [Reader]: it fails with a [DecodeError] or returns a value and the rest.
    [reads r bs a] says that [r] consumes exactly [bs] and returns [a] whatever
    follows; the lemmas [read_*_inv] go the other way, from a successful read to
    the bytes it consumed.  UTF-8 validity ([str::from_utf8]) is written out. *)

From S2P Require Import Prelude F64.

Inductive DecodeError :=
| DFrameTooLarge | Truncated | InvalidMagic | UnsupportedVersion | UnknownMessageType
| NonZeroReservedField | InvalidLength | InvalidEpoch | TrailingBytes | InvalidBoolean
| InvalidEnum | DInvalidCapabilities | DInvalidTopology | InvalidUtf8 | DNonFiniteCoordinate
| DCoordinateOutOfRange | DInvalidKeyUsage | InvalidModifierMask | DInvalidKeyState
| InvalidScope | InvalidControl | InvalidDeclineReason | DInvalidClickCount | DInvalidGesture.
#[global] Instance DecodeError_eq_dec : EqDecision DecodeError.
Proof. solve_decision. Defined.

Definition Reader (A : Type) : Type := list Z -> result DecodeError (A * list Z).

#[global] Instance reader_ret : MRet Reader := fun A a inp => Ok (a, inp).
#[global] Instance reader_bind : MBind Reader := fun A B f r inp =>
  match r inp with Ok (a, rest) => f a rest | Err e => Err e end.

(** A [Result] used inside a reading function, and its early returns. *)
Definition lift {A} (r : result DecodeError A) : Reader A := fun inp =>
  match r with Ok a => Ok (a, inp) | Err e => Err e end.
Definition refuse_if (b : bool) (e : DecodeError) : Reader () :=
  lift (if b then Err e else Ok ()).

(** [Cursor::take]. *)
Definition cursor_take (count : nat) : Reader (list Z) := fun inp =>
  if bool_decide (count <= length inp)%nat then Ok (take count inp, drop count inp)
  else Err Truncated.

Definition require_zero (count : nat) : Reader () :=
  bs ← cursor_take count;
  refuse_if (existsb (fun b => negb (b =? 0)) bs) NonZeroReservedField.

Definition read_u8 : Reader Z := bs ← cursor_take 1; mret (be_value bs).
Definition read_u16 : Reader Z := bs ← cursor_take 2; mret (be_value bs).
Definition read_u32 : Reader Z := bs ← cursor_take 4; mret (be_value bs).
Definition read_u64 : Reader Z := bs ← cursor_take 8; mret (be_value bs).

Definition read_f32 : Reader Z :=
  value ← read_u32; _ ← refuse_if (negb (f32_is_finite value)) DNonFiniteCoordinate; mret value.
Definition read_f64 : Reader Z :=
  value ← read_u64; _ ← refuse_if (negb (f64_is_finite value)) DNonFiniteCoordinate; mret value.

Definition bool_from_wire (b : Z) : result DecodeError bool :=
  match b with 0 => Ok false | 1 => Ok true | _ => Err InvalidBoolean end.
Definition read_bool : Reader bool := b ← read_u8; lift (bool_from_wire b).

(** [write_u16] and the like append [to_be_bytes]. *)
Definition write_u8 (v : Z) : list Z := be_bytes 1 v.
Definition write_u16 (v : Z) : list Z := be_bytes 2 v.
Definition write_u32 (v : Z) : list Z := be_bytes 4 v.
Definition write_u64 (v : Z) : list Z := be_bytes 8 v.
Definition write_f32 (v : Z) : list Z := write_u32 v.
Definition write_f64 (v : Z) : list Z := write_u64 v.
Definition write_bool (b : bool) : list Z := write_u8 (Z.b2z b).
Definition zeros (n : nat) : list Z := replicate n 0.
Arguments write_u8 : simpl never.
Arguments write_u16 : simpl never.
Arguments write_u32 : simpl never.
Arguments write_u64 : simpl never.
Arguments write_f32 : simpl never.
Arguments write_f64 : simpl never.
Arguments write_bool : simpl never.
Arguments zeros : simpl never.

(** ** UTF-8

    The well-formed byte sequences of the Unicode standard (table 3-7), which
    are what [str::from_utf8] accepts: no overlong form, no surrogate, nothing
    above U+10FFFF. *)
Definition in_range (lo b hi : Z) : bool := (lo <=? b) && (b <=? hi).
Definition continuation (b : Z) : bool := in_range 0x80 b 0xBF.

Fixpoint valid_utf8 (l : list Z) : bool :=
  match l with
  | [] => true
  | b :: r =>
      if in_range 0 b 0x7F then valid_utf8 r
      else match r with
      | b1 :: r1 =>
          if in_range 0xC2 b 0xDF then continuation b1 && valid_utf8 r1
          else match r1 with
          | b2 :: r2 =>
              if b =? 0xE0 then in_range 0xA0 b1 0xBF && continuation b2 && valid_utf8 r2
              else if b =? 0xED then in_range 0x80 b1 0x9F && continuation b2 && valid_utf8 r2
              else if in_range 0xE1 b 0xEF then continuation b1 && continuation b2 && valid_utf8 r2
              else match r2 with
              | b3 :: r3 =>
                  (if b =? 0xF0 then in_range 0x90 b1 0xBF
                   else if in_range 0xF1 b 0xF3 then continuation b1
                   else (b =? 0xF4) && in_range 0x80 b1 0x8F)
                  && continuation b2 && continuation b3 && valid_utf8 r3
              | [] => false
              end
          | [] => false
          end
      | [] => false
      end
  end.

(** ** Reading what was written *)

Definition reads {A} (r : Reader A) (bs : list Z) (a : A) : Prop :=
  forall rest, r (bs ++ rest) = Ok (a, rest).

Section Reads.

Lemma reads_ret {A} (a : A) : reads (mret a) [] a.
Proof. intros rest. reflexivity. Qed.

Lemma reads_bind {A B} (r : Reader A) (f : A -> Reader B) bs bs' a b :
  reads r bs a -> reads (f a) bs' b -> reads (r ≫= f) (bs ++ bs') b.
Proof.
  intros Hr Hf rest. rewrite <- app_assoc.
  unfold mbind, reader_bind. rewrite Hr. apply Hf.
Qed.

(** A step that reads nothing. *)
Lemma reads_bind_pure {A B} (r : Reader A) (f : A -> Reader B) bs a b :
  reads r [] a -> reads (f a) bs b -> reads (r ≫= f) bs b.
Proof. intros Hr Hf. exact (reads_bind r f [] bs a b Hr Hf). Qed.

(** The last step that reads. *)
Lemma reads_bind_last {A B} (r : Reader A) (f : A -> Reader B) bs a b :
  reads r bs a -> reads (f a) [] b -> reads (r ≫= f) bs b.
Proof. intros Hr Hf. rewrite <- (app_nil_r bs). exact (reads_bind r f bs [] a b Hr Hf). Qed.

Lemma reads_lift {A} (r : result DecodeError A) a : r = Ok a -> reads (lift r) [] a.
Proof. intros -> rest. reflexivity. Qed.

Lemma reads_refuse b e : b = false -> reads (refuse_if b e) [] ().
Proof. intros ->. now apply reads_lift. Qed.

Lemma reads_take n bs : length bs = n -> reads (cursor_take n) bs bs.
Proof.
  intros Hn rest. unfold cursor_take. rewrite bool_decide_eq_true_2.
  - now rewrite take_app_exact, drop_app_exact.
  - rewrite length_app. lia.
Qed.

Lemma reads_zero n : reads (require_zero n) (zeros n) ().
Proof.
  unfold require_zero, zeros. rewrite <- (app_nil_r (replicate n 0)) at 1.
  eapply reads_bind; [apply reads_take, length_replicate|].
  apply reads_refuse. induction n; cbn; auto.
Qed.

Lemma reads_int n v :
  0 <= v < 256 ^ Z.of_nat n ->
  reads (bs ← cursor_take n; mret (be_value bs)) (be_bytes n v) v.
Proof.
  intros Hv. rewrite <- (app_nil_r (be_bytes n v)).
  eapply reads_bind; [apply reads_take, length_be_bytes|].
  rewrite <- (be_value_roundtrip n v Hv) at 2. apply reads_ret.
Qed.

Lemma reads_u8 v : is_u8 v -> reads read_u8 (write_u8 v) v.
Proof. intros. apply reads_int. unfold_int. lia. Qed.
Lemma reads_u16 v : is_u16 v -> reads read_u16 (write_u16 v) v.
Proof. intros. apply reads_int. unfold_int. lia. Qed.
Lemma reads_u32 v : is_u32 v -> reads read_u32 (write_u32 v) v.
Proof. intros. apply reads_int. unfold_int. lia. Qed.
Lemma reads_u64 v : is_u64 v -> reads read_u64 (write_u64 v) v.
Proof. intros. apply reads_int. unfold_int. lia. Qed.

Lemma reads_f64 v : is_u64 v -> f64_is_finite v = true -> reads read_f64 (write_f64 v) v.
Proof.
  intros Hv Hf. unfold write_f64. rewrite <- (app_nil_r (write_u64 v)).
  eapply reads_bind; [by apply reads_u64|].
  eapply reads_bind_pure; [apply reads_refuse; by rewrite Hf|apply reads_ret].
Qed.

Lemma reads_f32 v : is_u32 v -> f32_is_finite v = true -> reads read_f32 (write_f32 v) v.
Proof.
  intros Hv Hf. unfold write_f32. rewrite <- (app_nil_r (write_u32 v)).
  eapply reads_bind; [by apply reads_u32|].
  eapply reads_bind_pure; [apply reads_refuse; by rewrite Hf|apply reads_ret].
Qed.

Lemma reads_bool b : reads read_bool (write_bool b) b.
Proof.
  unfold write_bool. rewrite <- (app_nil_r (write_u8 _)).
  eapply reads_bind; [apply reads_u8|apply reads_lift]; now destruct b.
Qed.
End Reads.

#[export] Hint Resolve reads_ret reads_refuse reads_zero reads_u8 reads_u16 reads_u32
  reads_u64 reads_f64 reads_f32 reads_bool reads_lift reads_take : monhop.

(** ** What a successful read consumed *)

Section Inversion.

Lemma reader_bind_Ok {A B} (r : Reader A) (f : A -> Reader B) inp b rest :
  (r ≫= f) inp = Ok (b, rest) -> exists a mid, r inp = Ok (a, mid) /\ f a mid = Ok (b, rest).
Proof.
  unfold mbind, reader_bind. destruct (r inp) as [[a mid]|]; naive_solver.
Qed.

Lemma reader_ret_Ok {A} (a b : A) inp rest :
  (mret a : Reader A) inp = Ok (b, rest) -> b = a /\ rest = inp.
Proof. unfold mret, reader_ret. naive_solver. Qed.

Lemma lift_Ok {A} (r : result DecodeError A) a inp rest :
  lift r inp = Ok (a, rest) -> r = Ok a /\ rest = inp.
Proof. unfold lift. destruct r; naive_solver. Qed.

Lemma refuse_if_Ok b e u inp rest :
  refuse_if b e inp = Ok (u, rest) -> b = false /\ rest = inp.
Proof. intros [Hb ->]%lift_Ok. destruct b; naive_solver. Qed.

Lemma cursor_take_Ok n inp bs rest :
  cursor_take n inp = Ok (bs, rest) -> length bs = n /\ inp = bs ++ rest.
Proof.
  unfold cursor_take. case_bool_decide; [|done]. intros [= <- <-].
  split; [rewrite length_take; lia|]. symmetry. apply take_drop.
Qed.

Lemma read_int_inv n inp v rest :
  bytes inp -> (bs ← cursor_take n; mret (be_value bs)) inp = Ok (v, rest) ->
  0 <= v < 256 ^ Z.of_nat n /\ inp = be_bytes n v ++ rest /\ bytes rest.
Proof.
  intros Hb H. apply (reader_bind_Ok (cursor_take n)) in H as (bs & mid & Ht & Hr).
  apply reader_ret_Ok in Hr as [-> ->]. apply cursor_take_Ok in Ht as [<- ->].
  apply Forall_app in Hb as [Hb Hm]. split; [by apply be_value_bound|].
  by rewrite be_bytes_be_value.
Qed.

Lemma read_u8_inv inp v rest :
  bytes inp -> read_u8 inp = Ok (v, rest) ->
  is_u8 v /\ inp = write_u8 v ++ rest /\ bytes rest.
Proof. intros Hb (Hv & H)%read_int_inv; [|done]. split; [unfold_int; lia|done]. Qed.
Lemma read_u16_inv inp v rest :
  bytes inp -> read_u16 inp = Ok (v, rest) ->
  is_u16 v /\ inp = write_u16 v ++ rest /\ bytes rest.
Proof. intros Hb (Hv & H)%read_int_inv; [|done]. split; [unfold_int; lia|done]. Qed.
Lemma read_u32_inv inp v rest :
  bytes inp -> read_u32 inp = Ok (v, rest) ->
  is_u32 v /\ inp = write_u32 v ++ rest /\ bytes rest.
Proof. intros Hb (Hv & H)%read_int_inv; [|done]. split; [unfold_int; lia|done]. Qed.
Lemma read_u64_inv inp v rest :
  bytes inp -> read_u64 inp = Ok (v, rest) ->
  is_u64 v /\ inp = write_u64 v ++ rest /\ bytes rest.
Proof. intros Hb (Hv & H)%read_int_inv; [|done]. split; [unfold_int; lia|done]. Qed.

Lemma read_f64_inv inp v rest :
  bytes inp -> read_f64 inp = Ok (v, rest) ->
  is_u64 v /\ f64_is_finite v = true /\ inp = write_f64 v ++ rest /\ bytes rest.
Proof.
  intros Hb H. apply (reader_bind_Ok read_u64) in H as (x & mid & Hx & H).
  apply reader_bind_Ok in H as (u & m2 & [Hf ->]%refuse_if_Ok & [-> ->]%reader_ret_Ok).
  apply negb_false_iff in Hf. apply read_u64_inv in Hx; naive_solver.
Qed.

Lemma read_f32_inv inp v rest :
  bytes inp -> read_f32 inp = Ok (v, rest) ->
  is_u32 v /\ f32_is_finite v = true /\ inp = write_f32 v ++ rest /\ bytes rest.
Proof.
  intros Hb H. apply (reader_bind_Ok read_u32) in H as (x & mid & Hx & H).
  apply reader_bind_Ok in H as (u & m2 & [Hf ->]%refuse_if_Ok & [-> ->]%reader_ret_Ok).
  apply negb_false_iff in Hf. apply read_u32_inv in Hx; naive_solver.
Qed.

Lemma read_bool_inv inp v rest :
  bytes inp -> read_bool inp = Ok (v, rest) -> inp = write_bool v ++ rest /\ bytes rest.
Proof.
  intros Hb H. apply (reader_bind_Ok read_u8) in H as (x & mid & Hx & [Hv ->]%lift_Ok).
  apply read_u8_inv in Hx as (_ & -> & ?); [|done]. split; [|done].
  unfold bool_from_wire in Hv. repeat case_match; by simplify_eq.
Qed.

Lemma require_zero_inv n inp u rest :
  bytes inp -> require_zero n inp = Ok (u, rest) -> inp = zeros n ++ rest /\ bytes rest.
Proof.
  intros Hb H. apply (reader_bind_Ok (cursor_take n)) in H
    as (bs & mid & [<- ->]%cursor_take_Ok & [Hz ->]%refuse_if_Ok).
  apply Forall_app in Hb as [_ ?]. split; [|done]. f_equal. clear -Hz.
  induction bs as [|b bs IH]; cbn in *; [done|].
  apply orb_false_iff in Hz as [Hz1 Hz2]. apply negb_false_iff, Z.eqb_eq in Hz1.
  unfold zeros in *. cbn. rewrite <- IH by done. by subst.
Qed.

Lemma cursor_take_inv n inp bs rest :
  bytes inp -> cursor_take n inp = Ok (bs, rest) ->
  length bs = n /\ bytes bs /\ inp = bs ++ rest /\ bytes rest.
Proof.
  intros Hb [? ->]%cursor_take_Ok. apply Forall_app in Hb as [? ?]. done.
Qed.
End Inversion.

(** [reader_inv] walks a successful run of a reading function, replacing its
    input by the bytes each primitive consumed. *)
Ltac reader_step :=
  match goal with
  | H : (_ ≫= _) _ = Ok _ |- _ => apply reader_bind_Ok in H as (? & ? & ? & H)
  | H : mret _ _ = Ok _ |- _ => apply reader_ret_Ok in H as [? ->]
  | H : lift _ _ = Ok _ |- _ => apply lift_Ok in H as [? ->]
  | H : refuse_if _ _ _ = Ok _ |- _ => apply refuse_if_Ok in H as [? ->]
  | Hb : bytes ?i, H : read_u8 ?i = Ok _ |- _ =>
      apply (read_u8_inv _ _ _ Hb) in H as (? & -> & ?)
  | Hb : bytes ?i, H : read_u16 ?i = Ok _ |- _ =>
      apply (read_u16_inv _ _ _ Hb) in H as (? & -> & ?)
  | Hb : bytes ?i, H : read_u32 ?i = Ok _ |- _ =>
      apply (read_u32_inv _ _ _ Hb) in H as (? & -> & ?)
  | Hb : bytes ?i, H : read_u64 ?i = Ok _ |- _ =>
      apply (read_u64_inv _ _ _ Hb) in H as (? & -> & ?)
  | Hb : bytes ?i, H : read_f64 ?i = Ok _ |- _ =>
      apply (read_f64_inv _ _ _ Hb) in H as (? & ? & -> & ?)
  | Hb : bytes ?i, H : read_f32 ?i = Ok _ |- _ =>
      apply (read_f32_inv _ _ _ Hb) in H as (? & ? & -> & ?)
  | Hb : bytes ?i, H : read_bool ?i = Ok _ |- _ =>
      apply (read_bool_inv _ _ _ Hb) in H as (-> & ?)
  | Hb : bytes ?i, H : require_zero _ ?i = Ok _ |- _ =>
      apply (require_zero_inv _ _ _ _ Hb) in H as (-> & ?)
  | Hb : bytes ?i, H : cursor_take _ ?i = Ok _ |- _ =>
      apply (cursor_take_inv _ _ _ _ Hb) in H as (? & ? & -> & ?)
  end.
Ltac reader_inv := repeat reader_step.

(** [reads_solve] proves that a reading function reads the bytes it is given,
    one primitive at a time; side conditions go to the hint database. *)
Ltac reads_solve :=
  repeat first
    [ apply reads_ret
    | eapply reads_bind_pure; [solve [apply reads_refuse; eauto with monhop]|]
    | eapply reads_bind_pure; [solve [apply reads_lift; eauto with monhop]|]
    | eapply reads_bind; [solve [eauto 4 with monhop]|]
    | eapply reads_bind_last; [solve [eauto 4 with monhop]|]
    | solve [eauto 4 with monhop] ].

Lemma length_write_u8 v : length (write_u8 v) = 1%nat.
Proof. apply length_be_bytes. Qed.
Lemma length_write_u16 v : length (write_u16 v) = 2%nat.
Proof. apply length_be_bytes. Qed.
Lemma length_write_u32 v : length (write_u32 v) = 4%nat.
Proof. apply length_be_bytes. Qed.
Lemma length_write_u64 v : length (write_u64 v) = 8%nat.
Proof. apply length_be_bytes. Qed.
Lemma length_write_f32 v : length (write_f32 v) = 4%nat.
Proof. apply length_be_bytes. Qed.
Lemma length_write_f64 v : length (write_f64 v) = 8%nat.
Proof. apply length_be_bytes. Qed.
Lemma length_write_bool b : length (write_bool b) = 1%nat.
Proof. apply length_be_bytes. Qed.
Lemma length_zeros n : length (zeros n) = n.
Proof. apply length_replicate. Qed.
#[export] Hint Rewrite length_write_u8 length_write_u16 length_write_u32 length_write_u64
  length_write_f32 length_write_f64 length_write_bool length_zeros : monhop_len.

Lemma zeros_bytes n : bytes (zeros n).
Proof. apply Forall_replicate. unfold_int. lia. Qed.
Lemma write_u8_bytes v : bytes (write_u8 v).
Proof. apply be_bytes_bytes. Qed.
Lemma write_u16_bytes v : bytes (write_u16 v).
Proof. apply be_bytes_bytes. Qed.
Lemma write_u32_bytes v : bytes (write_u32 v).
Proof. apply be_bytes_bytes. Qed.
Lemma write_u64_bytes v : bytes (write_u64 v).
Proof. apply be_bytes_bytes. Qed.
#[export] Hint Resolve zeros_bytes write_u8_bytes write_u16_bytes write_u32_bytes
  write_u64_bytes : monhop.
