(* ===== verification/Messages.v ===== *)
(** * Messages of the session protocol (monhop-protocol/src/lib.rs)

    The typed messages, display topologies and their validation, the control
    permissions, and the wire bytes of every enumeration.  Constructors carry
    the prefix [Msg] or a short suffix where the source's name is taken by
    another type. *)

From S2P Require Import Prelude F64 Types Wire.

Definition MAGIC : list Z := [0x4C; 0x4B; 0x4D; 0x21].
Definition PROTOCOL_VERSION : Z := 13.
Definition HEADER_LEN : nat := 28.
Definition MAX_FRAME_LEN : nat := Z.to_nat 8192.
Definition MAX_DISPLAY_NAME_BYTES : nat := 96.
Definition MAX_EVENTS_PER_SECOND : Z := 100000.
Definition MAX_NATIVE_DIMENSION : Z := 65535.
Definition MAX_LOGICAL_SIZE : f64 := 0x412E848000000000. (* 1_000_000.0 *)
Definition MAX_LOGICAL_ORIGIN_ABS : f64 := 0x41CDCD6500000000. (* 1_000_000_000.0 *)
Definition MIN_SCALE_FACTOR : Z := 0x3DCCCCCD. (* 0.1_f32 *)
Definition MAX_SCALE_FACTOR : Z := 0x41800000. (* 16.0_f32 *)
Definition TOPOLOGY_PREFIX_LEN : nat := 4.
Definition DISPLAY_FIXED_LEN : nat := 64.
Definition MODIFIER_MASK : Z := 255.

(** [SessionEpoch::new] and [Capabilities::new]. *)
Definition session_epoch (v : Z) : option Z := if v =? 0 then None else Some v.
Definition KNOWN_BITS : Z := Z.lor (Z.lor (1 ≪ 0) (1 ≪ 1)) (1 ≪ 2).
Definition capabilities (bits : Z) : option Z :=
  if negb (Z.ldiff bits KNOWN_BITS =? 0) then None else Some bits.

Record Hello := mkHello {
  device_id : DeviceId; platform : Platform; protocol_version : Z;
  hello_capabilities : Z; agreement : list Z }.

(** ** Display topologies *)

Record DisplayDescription := mkDisplay {
  display_id : DisplayId;
  display_name : list Z;
  native_width : Z;
  native_height : Z;
  logical_origin : Point;
  logical_size : Point;
  scale_factor : Z;
  is_primary : bool;
  monitor : option MonitorIdentity }.

Inductive TopologyError :=
| TEmpty | TooManyDisplays | DisplayNameTooLong | DuplicateDisplayId | InvalidNativeSize
| NonFiniteGeometry | GeometryOverflow | LogicalOriginOutOfRange | InvalidLogicalSize
| InvalidScaleFactor | PrimaryDisplayCount.
#[global] Instance TopologyError_eq_dec : EqDecision TopologyError.
Proof. solve_decision. Defined.

(** The checks of one turn of [DisplayTopology::validate]'s loop, but the last
    (the repeated id), which follows the primary's count. *)
Definition validate_display (d : DisplayDescription) : result TopologyError () :=
  if (MAX_DISPLAY_NAME_BYTES <? length (display_name d))%nat then Err DisplayNameTooLong
  else if (native_width d =? 0) || (native_height d =? 0)
          || (MAX_NATIVE_DIMENSION <? native_width d)
          || (MAX_NATIVE_DIMENSION <? native_height d)
  then Err InvalidNativeSize
  else if negb (point_is_finite (logical_origin d)) || negb (point_is_finite (logical_size d))
  then Err NonFiniteGeometry
  else
    let logical_end_x := f64_add (px (logical_origin d)) (px (logical_size d)) in
    let logical_end_y := f64_add (py (logical_origin d)) (py (logical_size d)) in
    if negb (f64_is_finite logical_end_x) || negb (f64_is_finite logical_end_y)
    then Err GeometryOverflow
    else if f64_ltb MAX_LOGICAL_ORIGIN_ABS (f64_abs (px (logical_origin d)))
         || f64_ltb MAX_LOGICAL_ORIGIN_ABS (f64_abs (py (logical_origin d)))
    then Err LogicalOriginOutOfRange
    else if f64_leb (px (logical_size d)) f64_zero || f64_leb (py (logical_size d)) f64_zero
         || f64_ltb MAX_LOGICAL_SIZE (px (logical_size d))
         || f64_ltb MAX_LOGICAL_SIZE (py (logical_size d))
    then Err InvalidLogicalSize
    else if negb (f32_is_finite (scale_factor d))
         || negb (f32_leb MIN_SCALE_FACTOR (scale_factor d)
                  && f32_leb (scale_factor d) MAX_SCALE_FACTOR)
    then Err InvalidScaleFactor
    else Ok ().

(** The loop: [previous] is the displays before the current index. *)
Fixpoint validate_loop (previous : list DisplayId) (primary_count : Z)
    (ds : list DisplayDescription) : result TopologyError Z :=
  match ds with
  | [] => Ok primary_count
  | d :: ds =>
      _ ← validate_display d;
      let primary_count := if is_primary d then primary_count + 1 else primary_count in
      if bool_decide (display_id d ∈ previous) then Err DuplicateDisplayId
      else validate_loop (previous ++ [display_id d]) primary_count ds
  end.

Definition validate_topology (ds : list DisplayDescription) : result TopologyError () :=
  if (length ds =? 0)%nat then Err TEmpty
  else if (MAX_DISPLAYS <? length ds)%nat then Err TooManyDisplays
  else
    primary_count ← validate_loop [] 0 ds;
    if negb (primary_count =? 1) then Err PrimaryDisplayCount else Ok ().

(** [DisplayTopology::new]; a topology is its list of displays. *)
Definition new_topology (ds : list DisplayDescription)
  : result TopologyError (list DisplayDescription) :=
  _ ← validate_topology ds; Ok ds.

(** ** Messages *)

Inductive Motion := Absolute (p : Point) | Relative (p : Point).

Inductive DisconnectCode := Requested | TransportLost | DcProtocolViolation | DcSessionExpired.
Inductive ErrorCode :=
| MalformedFrame | ErrUnsupportedVersion | ErrSessionExpired | RateLimited
| ErrProtocolViolation.
Inductive SessionPurpose := Share | Setup.
#[global] Instance SessionPurpose_eq_dec : EqDecision SessionPurpose.
Proof. solve_decision. Defined.
Inductive DeclineReason := Contended | Busy | Disabled.

Record ControlPermissions := mkControl {
  lower_controls_higher : bool; higher_controls_lower : bool }.
#[global] Instance ControlPermissions_eq_dec : EqDecision ControlPermissions.
Proof. solve_decision. Defined.
Definition control_both : ControlPermissions := mkControl true true.

Definition control_to_wire (c : ControlPermissions) : Z :=
  Z.lor (Z.b2z (lower_controls_higher c)) (Z.b2z (higher_controls_lower c) ≪ 1).
Definition control_from_wire (v : Z) : result DecodeError ControlPermissions :=
  if (v =? 0) || (3 <? v) then Err InvalidControl
  else Ok (mkControl (negb (Z.land v 1 =? 0)) (negb (Z.land v 2 =? 0))).

Inductive FrameScope := Connection | LowerControlsHigher | HigherControlsLower.
#[global] Instance FrameScope_eq_dec : EqDecision FrameScope.
Proof. solve_decision. Defined.
Definition scope_to_wire (s : FrameScope) : Z :=
  match s with Connection => 0 | LowerControlsHigher => 1 | HigherControlsLower => 2 end.
Definition scope_from_wire (v : Z) : result DecodeError FrameScope :=
  match v with
  | 0 => Ok Connection | 1 => Ok LowerControlsHigher | 2 => Ok HigherControlsLower
  | _ => Err InvalidScope
  end.
(** [ControlPermissions::allows]. *)
Definition control_allows (c : ControlPermissions) (s : FrameScope) : bool :=
  match s with
  | Connection => false
  | LowerControlsHigher => lower_controls_higher c
  | HigherControlsLower => higher_controls_lower c
  end.

Inductive Message :=
| MsgHello (h : Hello)
| MsgSessionSetup (purpose : SessionPurpose) (control : ControlPermissions)
| MsgSessionReady
| MsgDisplayTopology (displays : list DisplayDescription)
| MsgMotion (m : Motion)
| MsgButton (button : MouseButton) (is_down : bool) (click_count : Z)
| MsgScroll (horizontal vertical : f64)
| MsgGesture (g : PointerGesture)
| MsgSystemGesture (g : SystemGesture)
| MsgKey (usage : HidUsage) (is_down repeat : bool) (modifiers : ModifierState)
| MsgModifiers (m : ModifierState)
| MsgActivateDisplay (d : DisplayId)
| MsgActivateDisplayAt (d : DisplayId) (position : Point) (control_as_command : bool)
| MsgActivationAck (d : DisplayId)
| MsgActivationDeclined (d : DisplayId) (reason : DeclineReason)
| MsgReleaseAll
| MsgReleaseAck
| MsgTakeBack
| MsgPing (nonce : Z)
| MsgPong (nonce : Z)
| MsgDisconnect (c : DisconnectCode)
| MsgError (c : ErrorCode).

Inductive DeliveryClass := Reliable | MotionDatagram.
#[global] Instance DeliveryClass_eq_dec : EqDecision DeliveryClass.
Proof. solve_decision. Defined.
(** [Message::delivery]. *)
Definition delivery (m : Message) : DeliveryClass :=
  match m with MsgMotion (Absolute _) => MotionDatagram | _ => Reliable end.

Inductive MessageKind :=
| KHello | KDisplayTopology | KMotion | KButton | KScroll | KKey | KModifiers
| KActivateDisplay | KReleaseAll | KPing | KPong | KDisconnect | KError | KSessionSetup
| KActivateDisplayAt | KActivationAck | KReleaseAck | KSessionReady | KActivationDeclined
| KTakeBack | KGesture | KSystemGesture.
(** The discriminants of [MessageKind], and [MessageKind::from_wire]. *)
Definition message_kind_to_wire (k : MessageKind) : Z :=
  match k with
  | KHello => 1 | KDisplayTopology => 2 | KMotion => 3 | KButton => 4 | KScroll => 5
  | KKey => 6 | KModifiers => 7 | KActivateDisplay => 8 | KReleaseAll => 9 | KPing => 10
  | KPong => 11 | KDisconnect => 12 | KError => 13 | KSessionSetup => 14
  | KActivateDisplayAt => 15 | KActivationAck => 16 | KReleaseAck => 17 | KSessionReady => 18
  | KActivationDeclined => 19 | KTakeBack => 20 | KGesture => 21 | KSystemGesture => 22
  end.
Definition message_kind_from_wire (v : Z) : result DecodeError MessageKind :=
  match v with
  | 1 => Ok KHello | 2 => Ok KDisplayTopology | 3 => Ok KMotion | 4 => Ok KButton
  | 5 => Ok KScroll | 6 => Ok KKey | 7 => Ok KModifiers | 8 => Ok KActivateDisplay
  | 9 => Ok KReleaseAll | 10 => Ok KPing | 11 => Ok KPong | 12 => Ok KDisconnect
  | 13 => Ok KError | 14 => Ok KSessionSetup | 15 => Ok KActivateDisplayAt
  | 16 => Ok KActivationAck | 17 => Ok KReleaseAck | 18 => Ok KSessionReady
  | 19 => Ok KActivationDeclined | 20 => Ok KTakeBack | 21 => Ok KGesture
  | 22 => Ok KSystemGesture | _ => Err UnknownMessageType
  end.
(** [Message::kind]. *)
Definition message_kind (m : Message) : MessageKind :=
  match m with
  | MsgHello _ => KHello | MsgSessionSetup _ _ => KSessionSetup
  | MsgSessionReady => KSessionReady | MsgDisplayTopology _ => KDisplayTopology
  | MsgMotion _ => KMotion | MsgButton _ _ _ => KButton | MsgScroll _ _ => KScroll
  | MsgGesture _ => KGesture | MsgSystemGesture _ => KSystemGesture
  | MsgKey _ _ _ _ => KKey | MsgModifiers _ => KModifiers
  | MsgActivateDisplay _ => KActivateDisplay | MsgActivateDisplayAt _ _ _ => KActivateDisplayAt
  | MsgActivationAck _ => KActivationAck | MsgActivationDeclined _ _ => KActivationDeclined
  | MsgReleaseAll => KReleaseAll | MsgReleaseAck => KReleaseAck | MsgTakeBack => KTakeBack
  | MsgPing _ => KPing | MsgPong _ => KPong | MsgDisconnect _ => KDisconnect
  | MsgError _ => KError
  end.

Record Frame := mkFrame { epoch : Z; sequence : Z; message : Message; scope : FrameScope }.

(** ** Wire bytes of the enumerations *)

Definition platform_to_wire (p : Platform) : Z := match p with Windows => 1 | MacOs => 2 end.
Definition platform_from_wire (v : Z) : result DecodeError Platform :=
  match v with 1 => Ok Windows | 2 => Ok MacOs | _ => Err InvalidEnum end.
Definition session_purpose_to_wire (p : SessionPurpose) : Z :=
  match p with Share => 1 | Setup => 2 end.
Definition session_purpose_from_wire (v : Z) : result DecodeError SessionPurpose :=
  match v with 1 => Ok Share | 2 => Ok Setup | _ => Err InvalidEnum end.
Definition decline_reason_to_wire (r : DeclineReason) : Z :=
  match r with Contended => 1 | Busy => 2 | Disabled => 3 end.
Definition decline_reason_from_wire (v : Z) : result DecodeError DeclineReason :=
  match v with
  | 1 => Ok Contended | 2 => Ok Busy | 3 => Ok Disabled | _ => Err InvalidDeclineReason
  end.
Definition button_to_wire (b : MouseButton) : Z :=
  match b with
  | LeftButton => 1 | RightButton => 2 | MiddleButton => 3 | BackButton => 4 | ForwardButton => 5
  end.
Definition button_from_wire (v : Z) : result DecodeError MouseButton :=
  match v with
  | 1 => Ok LeftButton | 2 => Ok RightButton | 3 => Ok MiddleButton | 4 => Ok BackButton
  | 5 => Ok ForwardButton | _ => Err InvalidEnum
  end.
Definition disconnect_to_wire (c : DisconnectCode) : Z :=
  match c with
  | Requested => 1 | TransportLost => 2 | DcProtocolViolation => 3 | DcSessionExpired => 4
  end.
Definition disconnect_from_wire (v : Z) : result DecodeError DisconnectCode :=
  match v with
  | 1 => Ok Requested | 2 => Ok TransportLost | 3 => Ok DcProtocolViolation
  | 4 => Ok DcSessionExpired | _ => Err InvalidEnum
  end.
Definition error_to_wire (c : ErrorCode) : Z :=
  match c with
  | MalformedFrame => 1 | ErrUnsupportedVersion => 2 | ErrSessionExpired => 3
  | RateLimited => 4 | ErrProtocolViolation => 5
  end.
Definition error_from_wire (v : Z) : result DecodeError ErrorCode :=
  match v with
  | 1 => Ok MalformedFrame | 2 => Ok ErrUnsupportedVersion | 3 => Ok ErrSessionExpired
  | 4 => Ok RateLimited | 5 => Ok ErrProtocolViolation | _ => Err InvalidEnum
  end.

(** ** Lemmas *)

(** A byte enumeration: [from] accepts exactly the bytes of [to]. *)
Class WireEnum {A} (to : A -> Z) (from : Z -> result DecodeError A) : Prop := {
  wire_u8 a : is_u8 (to a);
  wire_from_to a : from (to a) = Ok a;
  wire_to_from v a : from v = Ok a -> to a = v }.

Ltac wire_enum :=
  split; [intros []; cbv; split; congruence | intros []; reflexivity
         |intros v a H; match type of H with ?f v = _ => unfold f in H end;
          repeat case_match; by simplify_eq].

#[export] Instance platform_wire : WireEnum platform_to_wire platform_from_wire.
Proof. wire_enum. Qed.
#[export] Instance purpose_wire : WireEnum session_purpose_to_wire session_purpose_from_wire.
Proof. wire_enum. Qed.
#[export] Instance decline_wire : WireEnum decline_reason_to_wire decline_reason_from_wire.
Proof. wire_enum. Qed.
#[export] Instance button_wire : WireEnum button_to_wire button_from_wire.
Proof. wire_enum. Qed.
#[export] Instance disconnect_wire : WireEnum disconnect_to_wire disconnect_from_wire.
Proof. wire_enum. Qed.
#[export] Instance error_wire : WireEnum error_to_wire error_from_wire.
Proof. wire_enum. Qed.
#[export] Instance scope_wire : WireEnum scope_to_wire scope_from_wire.
Proof. wire_enum. Qed.
#[export] Instance message_kind_wire : WireEnum message_kind_to_wire message_kind_from_wire.
Proof. wire_enum. Qed.

#[export] Hint Extern 1 (is_u8 (_ _)) => apply wire_u8 : monhop.
#[export] Hint Extern 1 (_ (_ _) = Ok _) => apply wire_from_to : monhop.

(** A control byte names at least one direction. *)
Lemma control_wire_from_to c :
  c <> mkControl false false -> control_from_wire (control_to_wire c) = Ok c.
Proof. destruct c as [[] []]; done. Qed.
Lemma control_wire_to_from v c :
  is_u8 v -> control_from_wire v = Ok c -> control_to_wire c = v /\ c <> mkControl false false.
Proof.
  unfold control_from_wire. intros Hv H. result_inv. bool_inv.
  assert (v = 1 \/ v = 2 \/ v = 3) as [->|[->| ->]] by (unfold_int; lia);
    cbn in *; subst; done.
Qed.
Lemma control_wire_u8 c : is_u8 (control_to_wire c).
Proof. destruct c as [[] []]; cbv; split; congruence. Qed.

Section Topology.

(** A validated topology: every display passes its checks, the ids are
    distinct and exactly one display is primary. *)
Definition primaries (ds : list DisplayDescription) : Z :=
  Z.of_nat (length (filter (fun d => is_primary d = true) ds)).

Lemma primaries_cons d ds :
  primaries (d :: ds) = (if is_primary d then 1 else 0) + primaries ds.
Proof.
  unfold primaries. rewrite filter_cons. destruct (is_primary d).
  - rewrite decide_True by done. cbn [length]. lia.
  - rewrite decide_False by done. lia.
Qed.

Lemma validate_loop_Ok previous n ds k :
  validate_loop previous n ds = Ok k <->
  Forall (fun d => validate_display d = Ok ()) ds
  /\ NoDup (display_id <$> ds) /\ (forall d, d ∈ ds -> display_id d ∉ previous)
  /\ k = n + primaries ds.
Proof.
  revert previous n. induction ds as [|d ds IH]; intros previous n.
  { cbn. unfold primaries; cbn. rewrite Z.add_0_r. split.
    - intros [= <-]. split_and!; try constructor. by intros d ?%not_elem_of_nil.
    - by intros (_ & _ & _ & ->). }
  cbn [validate_loop]. rewrite result_bind_Ok. split.
  - intros ([] & Hd & H). case_bool_decide as Hin; [done|].
    apply IH in H as (Hf & Hn & Hp & ->).
    assert (display_id d ∉ display_id <$> ds).
    { intros (d' & He & Hd')%list_elem_of_fmap. apply (Hp d' Hd').
      rewrite elem_of_app, list_elem_of_singleton. auto. }
    split_and!.
    + by constructor.
    + cbn. by constructor.
    + intros d' [->|Hd']%elem_of_cons; [done|].
      intros Hp'. apply (Hp d' Hd'). apply elem_of_app. auto.
    + rewrite primaries_cons. destruct (is_primary d); lia.
  - intros (Hf & Hn & Hp & ->). apply list.Forall_cons in Hf as [Hd Hf].
    exists (). split; [done|]. cbn in Hn. apply list.NoDup_cons in Hn as [Hnd Hn].
    rewrite bool_decide_eq_false_2 by (apply Hp; by left).
    apply IH. split_and!; try done.
    + intros d' Hd'. rewrite elem_of_app, list_elem_of_singleton. intros [Hx|Hx].
      * apply (Hp d'); [by right|done].
      * apply Hnd. rewrite <- Hx. by apply list_elem_of_fmap_2.
    + rewrite primaries_cons. destruct (is_primary d); lia.
Qed.

Lemma validate_topology_Ok ds :
  validate_topology ds = Ok () <->
  (0 < length ds <= MAX_DISPLAYS)%nat /\ Forall (fun d => validate_display d = Ok ()) ds
  /\ NoDup (display_id <$> ds) /\ primaries ds = 1.
Proof.
  unfold validate_topology. destruct (length ds =? 0)%nat eqn:E0.
  { apply Nat.eqb_eq in E0. split; [done|lia]. }
  apply Nat.eqb_neq in E0. destruct (MAX_DISPLAYS <? length ds)%nat eqn:E1.
  { apply Nat.ltb_lt in E1. split; [done|lia]. }
  apply Nat.ltb_ge in E1. rewrite result_bind_Ok. setoid_rewrite validate_loop_Ok. split.
  - intros (k & (Hf & Hn & _ & ->) & Hk). case_match; [done|]. bool_inv.
    split_and!; try done; lia.
  - intros (_ & Hf & Hn & Hp). exists 1. split; [|done]. split_and!; try done.
    intros d _. apply not_elem_of_nil.
Qed.
End Topology.
