(* ===== verification/Codec.v ===== *)
(** * The frame codec (monhop-protocol/src/lib.rs)

    [encode_into] writes a 28-byte header and the message's body into a reused
    buffer; [decode] accepts a complete frame or fails.  The theorems show that
    decoding inverts encoding on everything the encoder accepts, that the
    decoder accepts only valid messages and only the bytes the encoder writes
    (an unnamed monitor apart), and that no valid frame is too large. *)

From S2P Require Import Prelude F64 Types Wire Messages.

Inductive EncodeError :=
| EFrameTooLarge | InvalidHelloVersion | EInvalidCapabilities | EInvalidTopology
| ENonFiniteCoordinate | ECoordinateOutOfRange | EInvalidKeyUsage | EInvalidKeyState
| EInvalidClickCount | EInvalidGesture.
#[global] Instance EncodeError_eq_dec : EqDecision EncodeError.
Proof. solve_decision. Defined.

Inductive InputPointError := PNonFinite | POutOfRange.
Definition point_encode_error (e : InputPointError) : EncodeError :=
  match e with PNonFinite => ENonFiniteCoordinate | POutOfRange => ECoordinateOutOfRange end.
Definition point_decode_error (e : InputPointError) : DecodeError :=
  match e with PNonFinite => DNonFiniteCoordinate | POutOfRange => DCoordinateOutOfRange end.
Definition gesture_encode_error (e : GestureError) : EncodeError :=
  match e with NonFinite => ENonFiniteCoordinate | Shape | OutOfRange => EInvalidGesture end.
Definition gesture_decode_error (e : GestureError) : DecodeError :=
  match e with NonFinite => DNonFiniteCoordinate | Shape | OutOfRange => DInvalidGesture end.

Definition validate_input_point (p : Point) : result InputPointError () :=
  if negb (point_is_finite p) then Err PNonFinite
  else if f64_ltb MAX_LOGICAL_ORIGIN_ABS (f64_abs (px p))
       || f64_ltb MAX_LOGICAL_ORIGIN_ABS (f64_abs (py p)) then Err POutOfRange
  else Ok ().

Definition motion_point (m : Motion) : Point := match m with Absolute p | Relative p => p end.

(** ** Encoding *)

(** [body_len], whose [usize] sums cannot overflow: at most 16 displays. *)
Definition body_len (m : Message) : result EncodeError nat :=
  match m with
  | MsgHello h =>
      if negb (protocol_version h =? PROTOCOL_VERSION) then Err InvalidHelloVersion
      else if bool_decide (capabilities (hello_capabilities h) = None)
      then Err EInvalidCapabilities
      else Ok 56%nat
  | MsgSessionSetup _ _ => Ok 8%nat
  | MsgDisplayTopology ds =>
      _ ← map_err (fun _ => EInvalidTopology) (validate_topology ds);
      Ok (foldl (fun total d => total + DISPLAY_FIXED_LEN + length (display_name d))%nat
            TOPOLOGY_PREFIX_LEN ds)
  | MsgMotion m =>
      _ ← map_err point_encode_error (validate_input_point (motion_point m)); Ok 20%nat
  | MsgButton _ _ click_count =>
      if click_count =? 0 then Err EInvalidClickCount else Ok 4%nat
  | MsgScroll h v =>
      if negb (f64_is_finite h) || negb (f64_is_finite v) then Err ENonFiniteCoordinate
      else Ok 16%nat
  | MsgGesture g => _ ← map_err gesture_encode_error (validate_gesture g); Ok 16%nat
  | MsgSystemGesture _ => Ok 4%nat
  | MsgKey usage is_down repeat _ =>
      if negb (usage_is_valid usage) then Err EInvalidKeyUsage
      else if negb is_down && repeat then Err EInvalidKeyState
      else Ok 8%nat
  | MsgModifiers _ => Ok 4%nat
  | MsgActivateDisplay _ => Ok 8%nat
  | MsgActivateDisplayAt _ position _ =>
      _ ← map_err point_encode_error (validate_input_point position); Ok 32%nat
  | MsgActivationAck _ => Ok 8%nat
  | MsgActivationDeclined _ _ => Ok 16%nat
  | MsgReleaseAll | MsgReleaseAck | MsgSessionReady | MsgTakeBack => Ok 0%nat
  | MsgPing _ | MsgPong _ => Ok 8%nat
  | MsgDisconnect _ | MsgError _ => Ok 4%nat
  end.

(** [Frame::encoded_len]. *)
Definition encoded_len (f : Frame) : result EncodeError nat :=
  n ← body_len (message f);
  if (HEADER_LEN + n <=? MAX_FRAME_LEN)%nat then Ok (HEADER_LEN + n)%nat
  else Err EFrameTooLarge.

Definition write_point (p : Point) : list Z := write_f64 (px p) ++ write_f64 (py p).

Definition encode_monitor (m : option MonitorIdentity) : list Z :=
  let m := default (mkMonitorIdentity 0 0 0) m in
  write_u16 (vendor m) ++ write_u16 (product m) ++ write_u32 (serial m).

Definition encode_display (d : DisplayDescription) : list Z :=
  write_u64 (display_id d) ++ write_u8 (Z.of_nat (length (display_name d)))
  ++ write_bool (is_primary d) ++ zeros 2
  ++ write_u32 (native_width d) ++ write_u32 (native_height d)
  ++ write_f64 (px (logical_origin d)) ++ write_f64 (py (logical_origin d))
  ++ write_f64 (px (logical_size d)) ++ write_f64 (py (logical_size d))
  ++ write_f32 (scale_factor d) ++ display_name d ++ encode_monitor (monitor d).

Definition encode_body (m : Message) : list Z :=
  match m with
  | MsgHello h =>
      device_id h ++ write_u8 (platform_to_wire (platform h)) ++ zeros 1
      ++ write_u16 (protocol_version h) ++ write_u32 (hello_capabilities h) ++ agreement h
  | MsgSessionSetup purpose control =>
      write_u8 (session_purpose_to_wire purpose) ++ write_u8 (control_to_wire control) ++ zeros 6
  | MsgDisplayTopology ds =>
      write_u8 (Z.of_nat (length ds)) ++ zeros 3 ++ concat (encode_display <$> ds)
  | MsgMotion m =>
      write_u8 (match m with Absolute _ => 1 | Relative _ => 2 end) ++ zeros 3
      ++ write_f64 (px (motion_point m)) ++ write_f64 (py (motion_point m))
  | MsgButton button is_down click_count =>
      write_u8 (button_to_wire button) ++ write_bool is_down ++ write_u8 click_count ++ zeros 1
  | MsgScroll h v => write_f64 h ++ write_f64 v
  | MsgGesture g =>
      write_u8 (kind_to_wire (gesture_kind g))
      ++ write_u8 (match gesture_phase g with Some p => phase_to_wire p | None => 0 end)
      ++ zeros 6 ++ write_f64 (gesture_value g)
  | MsgSystemGesture g => write_u8 (system_to_wire g) ++ zeros 3
  | MsgKey usage is_down repeat modifiers =>
      write_u16 usage ++ write_bool is_down ++ write_bool repeat ++ write_u16 modifiers ++ zeros 2
  | MsgModifiers modifiers => write_u16 modifiers ++ zeros 2
  | MsgActivateDisplay d | MsgActivationAck d => write_u64 d
  | MsgActivateDisplayAt d position control_as_command =>
      write_u64 d ++ write_f64 (px position) ++ write_f64 (py position)
      ++ write_bool control_as_command ++ zeros 7
  | MsgActivationDeclined d reason =>
      write_u64 d ++ write_u8 (decline_reason_to_wire reason) ++ zeros 7
  | MsgReleaseAll | MsgReleaseAck | MsgSessionReady | MsgTakeBack => []
  | MsgPing nonce | MsgPong nonce => write_u64 nonce
  | MsgDisconnect c => write_u8 (disconnect_to_wire c) ++ zeros 3
  | MsgError c => write_u8 (error_to_wire c) ++ zeros 3
  end.

Definition encode_header (f : Frame) (body_len : nat) : list Z :=
  write_u16 PROTOCOL_VERSION ++ write_u8 (message_kind_to_wire (message_kind (message f)))
  ++ write_u8 (scope_to_wire (scope f)) ++ write_u16 (Z.of_nat body_len) ++ zeros 2
  ++ write_u64 (epoch f) ++ write_u64 (sequence f).

(** [encode_into]: the result, and the output buffer after the call. *)
Definition encode_into (f : Frame) (output : list Z) : result EncodeError () * list Z :=
  match encoded_len f with
  | Err e => (Err e, output)
  | Ok total_len =>
      let body_len := (total_len - HEADER_LEN)%nat in
      if u16_max <? Z.of_nat body_len then (Err EFrameTooLarge, output)
      else (Ok (), MAGIC ++ encode_header f body_len ++ encode_body (message f))
  end.

(** ** Decoding *)

Definition read_modifiers : Reader ModifierState :=
  raw ← read_u16;
  _ ← refuse_if (negb (Z.ldiff raw MODIFIER_MASK =? 0)) InvalidModifierMask;
  mret raw.

Definition read_point : Reader Point :=
  x ← read_f64; y ← read_f64; mret (mkPoint x y).

Definition decode_display : Reader DisplayDescription :=
  id ← read_u64;
  name_len ← read_u8;
  primary ← read_bool;
  _ ← require_zero 2;
  width ← read_u32;
  height ← read_u32;
  ox ← read_f64; oy ← read_f64;
  sx ← read_f64; sy ← read_f64;
  scale ← read_f32;
  _ ← refuse_if (Z.of_nat MAX_DISPLAY_NAME_BYTES <? name_len) DInvalidTopology;
  name ← cursor_take (Z.to_nat name_len);
  _ ← refuse_if (negb (valid_utf8 name)) InvalidUtf8;
  v ← read_u16; p ← read_u16; s ← read_u32;
  mret (mkDisplay id name width height (mkPoint ox oy) (mkPoint sx sy) scale primary
          (new_monitor_identity v p s)).

(** [for _ in 0..count]. *)
Fixpoint decode_displays (count : nat) : Reader (list DisplayDescription) :=
  match count with
  | O => mret []
  | S count => d ← decode_display; ds ← decode_displays count; mret (d :: ds)
  end.

Definition phase_byte (v : Z) : result DecodeError (option GesturePhase) :=
  match v with 0 => Ok None | _ => p ← ok_or InvalidEnum (phase_from_wire v); Ok (Some p) end.

Definition decode_body (kind : MessageKind) : Reader Message :=
  match kind with
  | KHello =>
      device ← cursor_take 16;
      b ← read_u8; p ← lift (platform_from_wire b);
      _ ← require_zero 1;
      version ← read_u16;
      _ ← refuse_if (negb (version =? PROTOCOL_VERSION)) UnsupportedVersion;
      bits ← read_u32; caps ← lift (ok_or DInvalidCapabilities (capabilities bits));
      digest ← cursor_take 32;
      mret (MsgHello (mkHello device p version caps digest))
  | KSessionSetup =>
      b ← read_u8; purpose ← lift (session_purpose_from_wire b);
      c ← read_u8; control ← lift (control_from_wire c);
      _ ← require_zero 6;
      _ ← refuse_if (bool_decide (purpose = Setup) && negb (bool_decide (control = control_both)))
            InvalidControl;
      mret (MsgSessionSetup purpose control)
  | KDisplayTopology =>
      count ← read_u8;
      _ ← require_zero 3;
      _ ← refuse_if ((count =? 0) || (Z.of_nat MAX_DISPLAYS <? count)) DInvalidTopology;
      ds ← decode_displays (Z.to_nat count);
      ds ← lift (map_err (fun _ => DInvalidTopology) (new_topology ds));
      mret (MsgDisplayTopology ds)
  | KMotion =>
      representation ← read_u8;
      _ ← require_zero 3;
      x ← read_f64; y ← read_f64;
      _ ← lift (map_err point_decode_error (validate_input_point (mkPoint x y)));
      m ← lift (match representation with
                | 1 => Ok (Absolute (mkPoint x y)) | 2 => Ok (Relative (mkPoint x y))
                | _ => Err InvalidEnum
                end);
      mret (MsgMotion m)
  | KButton =>
      b ← read_u8; button ← lift (button_from_wire b);
      is_down ← read_bool;
      click_count ← read_u8;
      _ ← refuse_if (click_count =? 0) DInvalidClickCount;
      _ ← require_zero 1;
      mret (MsgButton button is_down click_count)
  | KScroll => h ← read_f64; v ← read_f64; mret (MsgScroll h v)
  | KGesture =>
      k ← read_u8; kind ← lift (ok_or InvalidEnum (kind_from_wire k));
      p ← read_u8; phase ← lift (phase_byte p);
      _ ← require_zero 6;
      value ← read_f64;
      g ← lift (map_err gesture_decode_error (from_parts kind phase value));
      mret (MsgGesture g)
  | KSystemGesture =>
      b ← read_u8; g ← lift (ok_or InvalidEnum (system_from_wire b));
      _ ← require_zero 3;
      mret (MsgSystemGesture g)
  | KKey =>
      usage ← read_u16;
      _ ← refuse_if (negb (usage_is_valid usage)) DInvalidKeyUsage;
      is_down ← read_bool;
      repeat ← read_bool;
      modifiers ← read_modifiers;
      _ ← require_zero 2;
      _ ← refuse_if (negb is_down && repeat) DInvalidKeyState;
      mret (MsgKey usage is_down repeat modifiers)
  | KModifiers => m ← read_modifiers; _ ← require_zero 2; mret (MsgModifiers m)
  | KActivateDisplay => d ← read_u64; mret (MsgActivateDisplay d)
  | KActivateDisplayAt =>
      d ← read_u64;
      x ← read_f64; y ← read_f64;
      _ ← lift (map_err point_decode_error (validate_input_point (mkPoint x y)));
      control_as_command ← read_bool;
      _ ← require_zero 7;
      mret (MsgActivateDisplayAt d (mkPoint x y) control_as_command)
  | KActivationAck => d ← read_u64; mret (MsgActivationAck d)
  | KActivationDeclined =>
      d ← read_u64;
      b ← read_u8; reason ← lift (decline_reason_from_wire b);
      _ ← require_zero 7;
      mret (MsgActivationDeclined d reason)
  | KReleaseAll => mret MsgReleaseAll
  | KReleaseAck => mret MsgReleaseAck
  | KSessionReady => mret MsgSessionReady
  | KTakeBack => mret MsgTakeBack
  | KPing => nonce ← read_u64; mret (MsgPing nonce)
  | KPong => nonce ← read_u64; mret (MsgPong nonce)
  | KDisconnect =>
      b ← read_u8; c ← lift (disconnect_from_wire b); _ ← require_zero 3; mret (MsgDisconnect c)
  | KError =>
      b ← read_u8; c ← lift (error_from_wire b); _ ← require_zero 3; mret (MsgError c)
  end.

(** The header fields after the magic; [len] is the whole input's length. *)
Definition decode_header (len : nat) : Reader (MessageKind * FrameScope * Z * Z) :=
  version ← read_u16;
  _ ← refuse_if (negb (version =? PROTOCOL_VERSION)) UnsupportedVersion;
  k ← read_u8; kind ← lift (message_kind_from_wire k);
  s ← read_u8; sc ← lift (scope_from_wire s);
  body_len ← read_u16;
  reserved ← read_u16;
  _ ← refuse_if (negb (reserved =? 0)) NonZeroReservedField;
  _ ← refuse_if (negb (HEADER_LEN + Z.to_nat body_len =? len)%nat) InvalidLength;
  e ← read_u64; e ← lift (ok_or InvalidEpoch (session_epoch e));
  seq ← read_u64;
  mret (kind, sc, e, seq).

Definition decode (input : list Z) : result DecodeError Frame :=
  if (MAX_FRAME_LEN <? length input)%nat then Err DFrameTooLarge
  else if (length input <? HEADER_LEN)%nat then Err Truncated
  else if negb (bool_decide (take 4 input = MAGIC)) then Err InvalidMagic
  else
    '(kind, sc, e, seq, _) ← decode_header (length input) (take (HEADER_LEN - 4) (drop 4 input));
    '(m, rest) ← decode_body kind (drop HEADER_LEN input);
    if negb (length rest =? 0)%nat then Err TrailingBytes
    else Ok (mkFrame e seq m sc).

Inductive DatagramDecodeError := DatagramDecode (e : DecodeError) | ReliableMessage.
Definition decode_datagram (input : list Z) : result DatagramDecodeError Frame :=
  f ← map_err DatagramDecode (decode input);
  if negb (bool_decide (delivery (message f) = MotionDatagram)) then Err ReliableMessage
  else Ok f.

(** ** Values of the types

    What Rust's types guarantee of a message before it is encoded. *)

Definition display_typed (d : DisplayDescription) : Prop :=
  is_u64 (display_id d) /\ bytes (display_name d) /\ valid_utf8 (display_name d) = true
  /\ is_u32 (native_width d) /\ is_u32 (native_height d)
  /\ is_point (logical_origin d) /\ is_point (logical_size d) /\ is_u32 (scale_factor d)
  /\ match monitor d with Some m => is_monitor_identity m | None => True end.

Definition message_typed (m : Message) : Prop :=
  match m with
  | MsgHello h =>
      is_device_id (device_id h) /\ is_u16 (protocol_version h)
      /\ is_u32 (hello_capabilities h) /\ length (agreement h) = 32%nat /\ bytes (agreement h)
  | MsgDisplayTopology ds => Forall display_typed ds
  | MsgMotion m => is_point (motion_point m)
  | MsgButton _ _ c => is_u8 c
  | MsgScroll h v => is_u64 h /\ is_u64 v
  | MsgGesture g => is_u64 (gesture_value g)
  | MsgKey u _ _ m => is_u16 u /\ is_u8 m
  | MsgModifiers m => is_u8 m
  | MsgActivateDisplay d | MsgActivationAck d | MsgActivationDeclined d _ => is_u64 d
  | MsgActivateDisplayAt d p _ => is_u64 d /\ is_point p
  | MsgPing n | MsgPong n => is_u64 n
  | _ => True
  end.

Definition frame_typed (f : Frame) : Prop :=
  is_u64 (epoch f) /\ epoch f <> 0 /\ is_u64 (sequence f) /\ message_typed (message f).

(** The rule on a setup proposal that only the decoder enforces. *)
Definition setup_ok (m : Message) : bool :=
  match m with
  | MsgSessionSetup purpose control =>
      negb (bool_decide (control = mkControl false false))
      && (bool_decide (purpose = Share) || bool_decide (control = control_both))
  | _ => true
  end.

(** A monitor identity without vendor or product is not told from none. *)
Definition normalise_display (d : DisplayDescription) : DisplayDescription :=
  mkDisplay (display_id d) (display_name d) (native_width d) (native_height d)
    (logical_origin d) (logical_size d) (scale_factor d) (is_primary d)
    (m ← monitor d; new_monitor_identity (vendor m) (product m) (serial m)).
Definition normalise (m : Message) : Message :=
  match m with
  | MsgDisplayTopology ds => MsgDisplayTopology (normalise_display <$> ds)
  | _ => m
  end.
(** Every display names its monitor. *)
Definition monitors_named (m : Message) : Prop :=
  match m with MsgDisplayTopology ds => Forall (fun d => monitor d <> None) ds | _ => True end.

(** ** Decoding what was encoded *)

Section RoundTrip.

Lemma ok_or_Some {E A} (e : E) (o : option A) a : o = Some a -> ok_or e o = Ok a.
Proof. by intros ->. Qed.
Lemma map_err_ok {E F A} (g : E -> F) (r : result E A) a : r = Ok a -> map_err g r = Ok a.
Proof. by intros ->. Qed.
Hint Resolve ok_or_Some map_err_ok kind_from_to_wire system_from_to_wire : monhop.

Lemma system_wire_u8 g : is_u8 (system_to_wire g).
Proof. pose proof (system_wire_range g). unfold_int. lia. Qed.
Lemma kind_wire_u8 k : is_u8 (kind_to_wire k).
Proof. pose proof (kind_wire_range k). unfold_int. lia. Qed.
Hint Resolve system_wire_u8 kind_wire_u8 control_wire_u8 : monhop.

Lemma modifier_mask m : 0 <= m -> Z.ldiff m MODIFIER_MASK = 0 <-> m <= u8_max.
Proof.
  intros Hm. change MODIFIER_MASK with (Z.ones 8).
  rewrite Z.ldiff_ones_r, Z.shiftl_mul_pow2, Z.shiftr_div_pow2 by lia. unfold u8_max.
  pose proof (Z.div_mod m (2 ^ 8)). pose proof (Z.mod_pos_bound m (2 ^ 8)). split; intros; nia.
Qed.

Lemma reads_modifiers m : is_u8 m -> reads read_modifiers (write_u16 m) m.
Proof.
  intros Hm. unfold read_modifiers.
  eapply reads_bind_last; [apply reads_u16; unfold_int; lia|].
  eapply reads_bind_pure; [apply reads_refuse|apply reads_ret].
  apply Z_eqb_neq_false, modifier_mask; unfold_int; lia.
Qed.
Hint Resolve reads_modifiers : monhop.

Lemma validate_input_point_finite p :
  validate_input_point p = Ok () -> f64_is_finite (px p) = true /\ f64_is_finite (py p) = true.
Proof.
  unfold validate_input_point, point_is_finite. intros H. case_match; [done|]. by bool_inv.
Qed.

Lemma validate_display_finite d :
  validate_display d = Ok () ->
  (length (display_name d) <= MAX_DISPLAY_NAME_BYTES)%nat
  /\ f64_is_finite (px (logical_origin d)) = true /\ f64_is_finite (py (logical_origin d)) = true
  /\ f64_is_finite (px (logical_size d)) = true /\ f64_is_finite (py (logical_size d)) = true
  /\ f32_is_finite (scale_factor d) = true.
Proof.
  unfold validate_display, point_is_finite. intros H. result_inv. bool_inv.
  apply Nat.ltb_ge in G. done.
Qed.

Lemma reads_display d :
  display_typed d -> validate_display d = Ok () ->
  reads decode_display (encode_display d) (normalise_display d).
Proof.
  intros (Hid & Hn & Hu & Hw & Hh & [Hox Hoy] & [Hsx Hsy] & Hsc & Hm) Hv.
  apply validate_display_finite in Hv as (Hl & ? & ? & ? & ? & ?).
  unfold MAX_DISPLAY_NAME_BYTES in Hl.
  assert (is_u8 (Z.of_nat (length (display_name d)))) by (unfold_int; lia).
  assert (is_monitor_identity (default (mkMonitorIdentity 0 0 0) (monitor d))) as (Hv & Hp & Hs).
  { destruct (monitor d); [done|]. cbv. intuition congruence. }
  unfold encode_display, encode_monitor, decode_display.
  do 11 (eapply reads_bind; [solve [eauto with monhop]|]).
  eapply reads_bind_pure; [apply reads_refuse; apply Z.ltb_ge; unfold MAX_DISPLAY_NAME_BYTES; lia|].
  rewrite Nat2Z.id.
  eapply reads_bind; [by apply reads_take|].
  eapply reads_bind_pure; [apply reads_refuse; by rewrite Hu|].
  do 2 (eapply reads_bind; [solve [eauto with monhop]|]).
  eapply reads_bind_last; [solve [eauto with monhop]|].
  unfold normalise_display. destruct d as [? ? ? ? [] [] ? ? []]; cbn; apply reads_ret.
Qed.

Lemma reads_displays ds :
  Forall display_typed ds -> Forall (fun d => validate_display d = Ok ()) ds ->
  reads (decode_displays (length ds)) (concat (encode_display <$> ds)) (normalise_display <$> ds).
Proof.
  induction ds as [|d ds IH]; intros Ht Hv; cbn [length decode_displays fmap list_fmap concat];
    [apply reads_ret|].
  apply list.Forall_cons in Ht as [? ?]. apply list.Forall_cons in Hv as [? ?].
  eapply reads_bind; [by apply reads_display|].
  eapply reads_bind_last; [by apply IH|]. apply reads_ret.
Qed.

Lemma normalise_validate ds : validate_topology (normalise_display <$> ds) = validate_topology ds.
Proof.
  unfold validate_topology. rewrite length_fmap.
  assert (H : forall l k, validate_loop l k (normalise_display <$> ds) = validate_loop l k ds).
  { induction ds as [|d ds IH]; intros l k; [done|]. cbn [fmap list_fmap validate_loop].
    change (validate_display (normalise_display d)) with (validate_display d).
    destruct (validate_display d); [|done]. cbn [mbind result_bind]. by rewrite IH. }
  by rewrite H.
Qed.

Lemma reads_topology ds :
  Forall display_typed ds -> validate_topology ds = Ok () ->
  reads (decode_body KDisplayTopology) (encode_body (MsgDisplayTopology ds))
    (normalise (MsgDisplayTopology ds)).
Proof.
  intros Ht Hv. pose proof Hv as ((? & Hl) & Hf & _ & _)%validate_topology_Ok.
  unfold MAX_DISPLAYS in Hl. cbn [decode_body encode_body].
  eapply reads_bind; [apply reads_u8; unfold_int; lia|].
  eapply reads_bind; [apply reads_zero|].
  eapply reads_bind_pure.
  { apply reads_refuse, orb_false_iff. rewrite Z.eqb_neq, Z.ltb_ge. unfold MAX_DISPLAYS. lia. }
  rewrite Nat2Z.id. eapply reads_bind_last; [by apply reads_displays|].
  eapply reads_bind_pure; [apply reads_lift|apply reads_ret].
  unfold new_topology. by rewrite normalise_validate, Hv.
Qed.

Lemma reads_gesture g :
  is_u64 (gesture_value g) -> validate_gesture g = Ok () ->
  reads (decode_body KGesture) (encode_body (MsgGesture g)) (MsgGesture g).
Proof.
  intros Ht Hv. apply validate_from_parts in Hv. cbn [decode_body encode_body].
  assert (Hfin : f64_is_finite (gesture_value g) = true).
  { unfold from_parts in Hv. destruct g; cbn in *; try done;
      destruct (f64_is_finite _); done. }
  assert (Hp : is_u8 (match gesture_phase g with Some p => phase_to_wire p | None => 0 end)
     /\ phase_byte (match gesture_phase g with Some p => phase_to_wire p | None => 0 end)
        = Ok (gesture_phase g)).
  { destruct (gesture_phase g) as [[]|]; split; try done; cbv; split; congruence. }
  destruct Hp. reads_solve.
Qed.

(** Whatever the encoder accepts is read back, a setup proposal only when it
    satisfies the rule the decoder adds. *)
Lemma reads_body m n :
  message_typed m -> body_len m = Ok n -> setup_ok m = true ->
  reads (decode_body (message_kind m)) (encode_body m) (normalise m).
Proof.
  intros Ht Hb Hs.
  destruct m as [h|pu co| |ds|mo|b d c|h v|g|g|u d r mo|mo|d|d p c|d|d re| | | |no|no|c|c];
    cbn [body_len message_kind normalise message_typed] in *; try by (unfold decode_body; reads_solve).
  - destruct Ht as ([? ?] & ? & ? & ? & ?). result_inv. bool_inv.
    destruct (capabilities (hello_capabilities h)) as [cap|] eqn:Ec; [|congruence].
    assert (cap = hello_capabilities h) as ->.
    { unfold capabilities in Ec. by result_inv. }
    cbn [decode_body encode_body]. destruct h as [dev pl ver caps ag]; cbn in *. subst ver.
    eapply reads_bind; [by apply reads_take|]. reads_solve.
  - cbn [setup_ok] in Hs. bool_inv. cbn [decode_body encode_body].
    reads_solve. eapply reads_bind_pure; [apply reads_lift; by apply control_wire_from_to|].
    reads_solve. eapply reads_bind_pure; [apply reads_refuse|apply reads_ret].
    match goal with H : _ \/ _ |- _ => destruct H end; bool_inv; subst; [done|].
    rewrite (bool_decide_eq_true_2 (control_both = _)) by done. apply andb_false_r.
  - result_inv. destruct x. by apply reads_topology.
  - destruct Ht. result_inv. destruct x.
    pose proof (validate_input_point_finite _ H1) as [? ?].
    cbn [decode_body encode_body]. eapply reads_bind; [apply reads_u8; by destruct mo|].
    destruct mo as [[x y]|[x y]]; cbn [motion_point px py] in *; reads_solve.
  - result_inv. bool_inv. cbn [decode_body encode_body]. reads_solve.
    eapply reads_bind_pure; [apply reads_refuse; by apply Z.eqb_neq|]. reads_solve.
  - destruct Ht. result_inv. bool_inv. cbn [decode_body encode_body]. reads_solve.
  - result_inv. destruct x. by apply reads_gesture.
  - destruct Ht. result_inv. cbn [decode_body encode_body]. reads_solve.
  - destruct Ht. result_inv. destruct x.
    pose proof (validate_input_point_finite _ H1) as [? ?].
    cbn [decode_body encode_body]. destruct p as [x y]; destruct H0; cbn [px py] in *. reads_solve.
Qed.

Lemma length_encode_display d :
  length (encode_display d) = (DISPLAY_FIXED_LEN + length (display_name d))%nat.
Proof.
  unfold encode_display, encode_monitor, DISPLAY_FIXED_LEN. autorewrite with monhop_len. lia.
Qed.

Lemma foldl_len ds k :
  foldl (fun total d => total + DISPLAY_FIXED_LEN + length (display_name d))%nat k ds
  = (k + length (concat (encode_display <$> ds)))%nat.
Proof.
  revert k. induction ds as [|d ds IH]; intros k; cbn [foldl fmap list_fmap concat]; [cbn; lia|].
  rewrite IH, length_app, length_encode_display. lia.
Qed.

(** [body_len] is the length of the body that [encode_body] writes. *)
Lemma length_encode_body m n : message_typed m -> body_len m = Ok n -> length (encode_body m) = n.
Proof.
  intros Ht Hb. destruct m; cbn [body_len message_typed encode_body] in *; result_inv; subst;
    autorewrite with monhop_len; try done.
  - unfold is_device_id in *. destruct_and!. lia.
  - rewrite foldl_len. cbn. lia.
Qed.

(** The longest body is a topology of 16 displays with 96-byte names. *)
Lemma body_len_bound m n : body_len m = Ok n -> (n <= 2564)%nat.
Proof.
  intros Hb. destruct m; cbn [body_len] in *; result_inv; subst; try lia.
  destruct x. apply validate_topology_Ok in H as ((_ & Hl) & Hf & _).
  rewrite foldl_len. unfold MAX_DISPLAYS, TOPOLOGY_PREFIX_LEN in *.
  assert (Hc : (length (concat (encode_display <$> displays)) <= length displays * 160)%nat).
  { clear Hl. induction Hf as [|d ds Hd _ IH]; [cbn; lia|].
    rewrite fmap_cons. cbn [concat]. rewrite length_app, length_encode_display.
    apply validate_display_finite in Hd as (? & _).
    unfold DISPLAY_FIXED_LEN, MAX_DISPLAY_NAME_BYTES in *. cbn [length]. lia. }
  lia.
Qed.
End RoundTrip.

(** ** What the decoder accepts *)

Section Accepts.

Lemma app_eq_len {A} (x y : list A) : x = y -> length x = length y.
Proof. by intros ->. Qed.

Lemma new_monitor_fields v p s m :
  new_monitor_identity v p s = Some m -> m = mkMonitorIdentity v p s.
Proof. unfold new_monitor_identity. intros. by result_inv. Qed.

Lemma decode_display_inv inp d rest :
  bytes inp -> decode_display inp = Ok (d, rest) ->
  display_typed d /\ normalise_display d = d /\ bytes rest
  /\ length inp = (length (encode_display d) + length rest)%nat
  /\ (monitor d <> None -> inp = encode_display d ++ rest).
Proof.
  intros Hb H. unfold decode_display in H. reader_inv. bool_inv.
  match goal with Hn : length ?name = Z.to_nat ?l |- _ =>
    assert (Hl : Z.of_nat (length name) = l) by (unfold_int; lia) end.
  match goal with H : d = mkDisplay _ _ _ _ _ _ _ _ (new_monitor_identity ?v ?p ?s) |- _ =>
    pose proof (new_monitor_fields v p s) as Hm; subst d;
    destruct (new_monitor_identity v p s) as [m|] eqn:E;
    [specialize (Hm m eq_refl); subst m|] end;
  unfold display_typed, is_point, normalise_display;
  cbn [display_id display_name native_width native_height logical_origin logical_size
       scale_factor is_primary monitor px py mbind option_bind vendor product serial];
  rewrite ?E; split_and!; try done;
    try (rewrite length_encode_display; cbn [display_name]; autorewrite with monhop_len;
         unfold DISPLAY_FIXED_LEN; lia).
  intros _. unfold encode_display, encode_monitor; cbn. rewrite Hl. by rewrite <- !app_assoc.
Qed.

Lemma decode_displays_inv k inp ds rest :
  bytes inp -> decode_displays k inp = Ok (ds, rest) ->
  length ds = k /\ Forall display_typed ds /\ normalise_display <$> ds = ds /\ bytes rest
  /\ length inp = (length (concat (encode_display <$> ds)) + length rest)%nat
  /\ (Forall (fun d => monitor d <> None) ds -> inp = concat (encode_display <$> ds) ++ rest).
Proof.
  revert inp ds. induction k as [|k IH]; intros inp ds Hb H; cbn [decode_displays] in H.
  { reader_inv. by subst. }
  reader_inv. subst ds. apply decode_display_inv in H0 as (Ht & Hn & Hb' & Hl & He); [|done].
  apply IH in H1 as (<- & Hts & Hns & Hb'' & Hls & Hes); [|done].
  rewrite !fmap_cons. cbn [concat length]. rewrite length_app, Hn, Hns.
  split_and!; try done; [by constructor|lia|].
  intros [Hm Hms]%list.Forall_cons. rewrite (He Hm), (Hes Hms). by rewrite app_assoc.
Qed.

Lemma read_modifiers_inv inp m rest :
  bytes inp -> read_modifiers inp = Ok (m, rest) ->
  is_u8 m /\ inp = write_u16 m ++ rest /\ bytes rest.
Proof.
  intros Hb H. unfold read_modifiers in H. reader_inv. subst m.
  apply Z_eqb_neq_false, modifier_mask in H1; unfold_int; [|lia]. split_and!; try done; lia.
Qed.

(** Everything [decode_body] accepts is a valid message that encodes to the
    bytes that were read. *)
Definition accepted (m : Message) (kind : MessageKind) (inp rest : list Z) : Prop :=
  message_typed m /\ message_kind m = kind /\ setup_ok m = true /\ normalise m = m
  /\ (exists n, body_len m = Ok n) /\ length inp = (length (encode_body m) + length rest)%nat
  /\ (monitors_named m -> inp = encode_body m ++ rest).

Lemma accepted_intro m kind inp rest :
  message_typed m -> message_kind m = kind -> setup_ok m = true -> normalise m = m ->
  (exists n, body_len m = Ok n) -> inp = encode_body m ++ rest ->
  accepted m kind inp rest.
Proof. intros. unfold accepted. subst inp. rewrite length_app. done. Qed.

Lemma decode_topology_inv inp m rest :
  bytes inp -> decode_body KDisplayTopology inp = Ok (m, rest) ->
  accepted m KDisplayTopology inp rest.
Proof.
  intros Hb H. cbn [decode_body] in H. reader_inv. bool_inv.
  match goal with
  | Hd : decode_displays _ _ = Ok (?l, _), Hn : map_err _ (new_topology ?l) = Ok ?t,
    Hc : is_u8 ?c |- _ =>
      apply decode_displays_inv in Hd as (Hk & Hts & Hn' & _ & Hl & He); [|done];
      apply map_err_Ok in Hn; unfold new_topology in Hn;
      apply result_bind_Ok in Hn as ([] & Hv & [= <-]);
      assert (Hx : Z.of_nat (length l) = c) by (unfold_int; lia)
  end.
  subst m. unfold accepted.
  cbn [message_typed message_kind setup_ok normalise encode_body monitors_named body_len].
  split_and!; try done.
  - by rewrite Hn'.
  - rewrite Hv. cbn. eauto.
  - autorewrite with monhop_len. lia.
  - intros Hm. rewrite (He Hm), Hx. by rewrite !app_assoc.
Qed.

(** Replaces a byte that an enumeration accepted by the byte it writes. *)
Ltac wire_inv :=
  repeat match goal with
  | H : read_modifiers _ = Ok _, Hb : bytes _ |- _ =>
      apply (read_modifiers_inv _ _ _ Hb) in H as (? & -> & ?)
  | H : ok_or _ _ = Ok _ |- _ => apply ok_or_Ok in H
  | H : map_err _ _ = Ok _ |- _ => apply map_err_Ok in H
  | H : kind_from_wire _ = Some _ |- _ => apply kind_to_from_wire in H; subst
  | H : system_from_wire _ = Some _ |- _ => apply system_to_from_wire in H; subst
  | H : ?from ?v = Ok ?a |- _ =>
      let H' := fresh in
      pose proof (wire_to_from v a H) as H'; clear H; subst v
  end.

Lemma phase_byte_inv v p :
  phase_byte v = Ok p -> v = match p with Some p => phase_to_wire p | None => 0 end.
Proof.
  unfold phase_byte. destruct (decide (v = 0)) as [->|Hv]; [by intros [= <-]|].
  intros H. assert (H' : (p ← ok_or InvalidEnum (phase_from_wire v); Ok (Some p)) = Ok p)
    by (by destruct v). result_inv. subst. symmetry. by apply phase_to_from_wire.
Qed.

Lemma capabilities_same bits c : capabilities bits = Some c -> c = bits.
Proof. unfold capabilities. intros. by result_inv. Qed.

Lemma decode_hello_inv inp m rest :
  bytes inp -> decode_body KHello inp = Ok (m, rest) -> accepted m KHello inp rest.
Proof.
  intros Hb H. cbn [decode_body] in H. reader_inv. wire_inv. bool_inv. subst m.
  match goal with Hc : capabilities _ = Some _ |- _ =>
    pose proof (capabilities_same _ _ Hc) as ->; rename Hc into Hcap end.
  apply accepted_intro; cbn [message_typed message_kind setup_ok normalise encode_body body_len
    device_id platform protocol_version hello_capabilities agreement];
    rewrite <- ?app_assoc; try done.
  exists 56%nat. rewrite Hcap. by subst.
Qed.

Lemma decode_setup_inv inp m rest :
  bytes inp -> decode_body KSessionSetup inp = Ok (m, rest) -> accepted m KSessionSetup inp rest.
Proof.
  intros Hb H. cbn [decode_body] in H. reader_inv.
  match goal with Hc : control_from_wire _ = Ok _ |- _ =>
    apply control_wire_to_from in Hc as [<- Hne]; [|done] end.
  wire_inv. subst m.
  apply accepted_intro; cbn [message_typed message_kind setup_ok normalise encode_body body_len];
    rewrite <- ?app_assoc; try done; [|eauto].
  rewrite bool_decide_eq_false_2 by done. cbn [negb andb].
  match goal with H : bool_decide (?p = Setup) && _ = false |- _ => destruct p end; [done|].
  match goal with H : bool_decide (Setup = Setup) && negb ?b = false |- _ => destruct b end; done.
Qed.

Lemma decode_motion_inv inp m rest :
  bytes inp -> decode_body KMotion inp = Ok (m, rest) -> accepted m KMotion inp rest.
Proof.
  intros Hb H. cbn [decode_body] in H. reader_inv.
  match goal with
  | Hp : map_err _ (validate_input_point ?p) = Ok ?u,
    Hr : match ?r with _ => _ end = Ok ?mo |- _ =>
      apply map_err_Ok in Hp; destruct u;
      assert (Hmo : (r = 1 /\ mo = Absolute p) \/ (r = 2 /\ mo = Relative p))
        by (repeat case_match; simplify_eq; auto); clear Hr;
      rename Hp into Hval
  end.
  subst m. destruct Hmo as [[-> ->]|[-> ->]];
    (apply accepted_intro; cbn [message_typed message_kind setup_ok normalise encode_body body_len
      motion_point px py]; rewrite <- ?app_assoc; try done; rewrite Hval; eauto).
Qed.

Lemma decode_gesture_inv inp m rest :
  bytes inp -> decode_body KGesture inp = Ok (m, rest) -> accepted m KGesture inp rest.
Proof.
  intros Hb H. cbn [decode_body] in H. reader_inv. wire_inv.
  match goal with
  | Hk : phase_byte _ = Ok _, Hp : from_parts _ _ _ = Ok _ |- _ =>
      apply phase_byte_inv in Hk; pose proof (from_parts_valid _ _ _ _ Hp);
      apply from_parts_parts in Hp as (<- & <- & <-)
  end.
  subst. apply accepted_intro; cbn [message_typed message_kind setup_ok normalise encode_body
    body_len]; rewrite <- ?app_assoc; try done.
  match goal with H : validate_gesture _ = Ok () |- _ => rewrite H end. cbn. eauto.
Qed.

Lemma decode_key_inv inp m rest :
  bytes inp -> decode_body KKey inp = Ok (m, rest) -> accepted m KKey inp rest.
Proof.
  intros Hb H. cbn [decode_body] in H. reader_inv. wire_inv. reader_inv. subst m.
  apply accepted_intro; cbn [message_typed message_kind setup_ok normalise encode_body body_len];
    rewrite <- ?app_assoc; try done.
  match goal with H : negb (usage_is_valid _) = false |- _ => rewrite H end.
  match goal with H : negb _ && _ = false |- _ => rewrite H end. eauto.
Qed.

Lemma decode_body_inv kind inp m rest :
  bytes inp -> decode_body kind inp = Ok (m, rest) -> accepted m kind inp rest.
Proof.
  intros Hb H.
  destruct kind; eauto using decode_topology_inv, decode_hello_inv, decode_setup_inv,
    decode_motion_inv, decode_gesture_inv, decode_key_inv;
    cbn [decode_body] in H; reader_inv; wire_inv; reader_inv; subst;
    (apply accepted_intro; cbn [message_typed message_kind setup_ok normalise encode_body
       body_len motion_point px py]; rewrite <- ?app_assoc; try done; eauto).
  - match goal with H : (_ =? 0) = false |- _ => rewrite H end. eauto.
  - match goal with H : f64_is_finite _ = true, H' : f64_is_finite _ = true |- _ =>
      rewrite H, H' end. eauto.
  - match goal with H : validate_input_point _ = Ok _ |- _ => rewrite H end. cbn. eauto.
Qed.
End Accepts.

(** ** Whole frames *)

Section Frames.

Lemma encode_into_Ok f out bs :
  encode_into f out = (Ok (), bs) <->
  exists n, body_len (message f) = Ok n
    /\ bs = MAGIC ++ encode_header f n ++ encode_body (message f).
Proof.
  unfold encode_into, encoded_len. destruct (body_len (message f)) as [n|e] eqn:E;
    cbn [mbind result_bind]; [|naive_solver].
  pose proof (body_len_bound _ _ E). unfold HEADER_LEN, MAX_FRAME_LEN.
  rewrite (proj2 (Nat.leb_le _ _)) by lia. rewrite Nat.add_comm, Nat.add_sub.
  rewrite (proj2 (Z.ltb_ge _ _)) by (unfold_int; lia). naive_solver.
Qed.

Lemma length_encode_header f n : length (encode_header f n) = (HEADER_LEN - 4)%nat.
Proof. unfold encode_header. autorewrite with monhop_len. reflexivity. Qed.

Lemma reads_header f n :
  frame_typed f -> (n <= 2564)%nat ->
  reads (decode_header (HEADER_LEN + n)) (encode_header f n)
    (message_kind (message f), scope f, epoch f, sequence f).
Proof.
  intros (He & Hz & Hs & _) Hn. unfold decode_header, encode_header.
  eapply reads_bind; [apply reads_u16; by vm_compute|]. reads_solve.
  eapply reads_bind; [apply reads_u16; unfold_int; lia|].
  eapply reads_bind; [apply (reads_u16 0); by vm_compute|]. reads_solve.
  eapply reads_bind_pure; [apply reads_refuse; rewrite Nat2Z.id; by rewrite Nat.eqb_refl|].
  eapply reads_bind; [by apply reads_u64|].
  eapply reads_bind_pure; [apply reads_lift; unfold session_epoch;
    by rewrite (proj2 (Z.eqb_neq _ 0))|]. reads_solve.
Qed.

(** The frame's bytes, cut where the decoder cuts them. *)
Lemma decode_frame (hdr body : list Z) :
  length hdr = (HEADER_LEN - 4)%nat -> (length body <= 2564)%nat ->
  decode (MAGIC ++ hdr ++ body) =
    ('(kind, sc, e, seq, _) ← decode_header (HEADER_LEN + length body) hdr;
     '(m, rest) ← decode_body kind body;
     if negb (length rest =? 0)%nat then Err TrailingBytes
     else Ok (mkFrame e seq m sc)).
Proof.
  intros Hh Hb. unfold decode.
  assert (Hl : length (MAGIC ++ hdr ++ body) = (HEADER_LEN + length body)%nat)
    by (rewrite !length_app, Hh; unfold HEADER_LEN, MAGIC; cbn [length]; lia).
  rewrite Hl. unfold MAX_FRAME_LEN, HEADER_LEN in *.
  rewrite (proj2 (Nat.ltb_ge _ _)) by lia. rewrite (proj2 (Nat.ltb_ge _ _)) by lia.
  rewrite take_app_exact by done. rewrite bool_decide_eq_true_2 by done. cbn [negb].
  rewrite (drop_app_exact MAGIC _ 4), (take_app_exact hdr) by done.
  rewrite app_assoc, (drop_app_exact (MAGIC ++ hdr)) by (by rewrite length_app, Hh). done.
Qed.

Lemma decode_encoded f n :
  frame_typed f -> body_len (message f) = Ok n ->
  decode (MAGIC ++ encode_header f n ++ encode_body (message f)) =
    ('(m, rest) ← decode_body (message_kind (message f)) (encode_body (message f));
     if negb (length rest =? 0)%nat then Err TrailingBytes
     else Ok (mkFrame (epoch f) (sequence f) m (scope f))).
Proof.
  intros Ht Hn. pose proof Ht as (_ & _ & _ & Hm).
  pose proof (length_encode_body _ _ Hm Hn) as Hl. pose proof (body_len_bound _ _ Hn).
  rewrite decode_frame, Hl by (try apply length_encode_header; lia).
  rewrite <- (app_nil_r (encode_header f n)), (reads_header f n Ht) by lia. reflexivity.
Qed.

Lemma decode_header_inv len h m sc e seq rest :
  bytes h -> decode_header len h = Ok (message_kind m, sc, e, seq, rest) ->
  is_u64 e /\ e <> 0 /\ is_u64 seq
  /\ exists n, len = (HEADER_LEN + n)%nat /\ h = encode_header (mkFrame e seq m sc) n ++ rest.
Proof.
  intros Hb H. unfold decode_header in H. reader_inv.
  match goal with Hk : message_kind_from_wire _ = Ok ?k, He : _ = (?k, _, _, _) |- _ =>
    injection He as <- <- <- <- end.
  bool_inv.
  repeat match goal with
  | H : (_ =? _)%nat = true |- _ => apply Nat.eqb_eq in H
  | H : message_kind_from_wire _ = Ok _ |- _ => apply wire_to_from in H; subst
  | H : scope_from_wire _ = Ok _ |- _ => apply wire_to_from in H; subst
  | H : ok_or _ (session_epoch ?x) = Ok _ |- _ =>
      apply ok_or_Ok in H; unfold session_epoch in H; destruct (x =? 0) eqn:?; [done|];
      injection H as <-; bool_inv
  end.
  split_and!; try done.
  match goal with |- context [Z.to_nat ?b] => exists (Z.to_nat b) end.
  split; [done|]. unfold encode_header; cbn [message scope epoch sequence].
  rewrite Z2Nat.id by (unfold_int; lia). rewrite <- ?app_assoc. subst. done.
Qed.

(** The bytes of an accepted frame. *)
Lemma decode_inv bs f :
  bytes bs -> decode bs = Ok f ->
  exists body, frame_typed f /\ length bs = (HEADER_LEN + length body)%nat /\ bytes body
    /\ (length bs <= MAX_FRAME_LEN)%nat
    /\ bs = MAGIC ++ encode_header f (length body) ++ body
    /\ accepted (message f) (message_kind (message f)) body [].
Proof.
  intros Hb H. unfold decode in H.
  destruct (MAX_FRAME_LEN <? length bs)%nat eqn:E1; [done|]. apply Nat.ltb_ge in E1.
  destruct (length bs <? HEADER_LEN)%nat eqn:E2; [done|]. apply Nat.ltb_ge in E2.
  destruct (bool_decide (take 4 bs = MAGIC)) eqn:E3; [|done]. bool_inv. cbn [negb] in H.
  apply result_bind_Ok in H as ([[[[kind sc] e] seq] r0] & Hh & H).
  apply result_bind_Ok in H as ([m rest] & Hd & H).
  destruct (length rest =? 0)%nat eqn:E4; [|done]. apply Nat.eqb_eq, nil_length_inv in E4.
  subst rest. cbn [negb] in H. injection H as <-.
  set (body := drop HEADER_LEN bs) in *.
  assert (Hbb : bytes body) by (by apply Forall_drop).
  assert (Hbh : bytes (take (HEADER_LEN - 4) (drop 4 bs)))
    by (by apply Forall_take, Forall_drop).
  assert (Hsplit : bs = MAGIC ++ take (HEADER_LEN - 4) (drop 4 bs) ++ body).
  { rewrite <- E3, <- (take_drop 4 bs) at 1. f_equal.
    rewrite <- (take_drop (HEADER_LEN - 4) (drop 4 bs)) at 1. f_equal.
    rewrite drop_drop. done. }
  assert (Hlb : length bs = (HEADER_LEN + length body)%nat)
    by (unfold body; rewrite length_drop; lia).
  assert (Hlh : length (take (HEADER_LEN - 4) (drop 4 bs)) = (HEADER_LEN - 4)%nat)
    by (rewrite length_take, length_drop; unfold HEADER_LEN in *; lia).
  apply decode_body_inv in Hd as Hacc; [|done]. pose proof Hacc as (Hmt & Hk & _).
  subst kind. apply decode_header_inv in Hh as (He & Hz & Hs & n & Hn & Hhd); [|done].
  assert (n = length body) as -> by lia.
  assert (r0 = []) as ->.
  { apply nil_length_inv. rewrite Hhd, length_app, length_encode_header in Hlh. lia. }
  exists body. split_and!; try done. rewrite Hsplit at 1. by rewrite Hhd, app_nil_r.
Qed.
End Frames.

(** ** Properties *)

(** C9. Round trip: whatever frame the encoder accepts, the decoder returns it
    unchanged, but for monitor identities without a vendor or product, which
    come back as none; the exception is a setup proposal that breaks the rule
    on its control permissions, which the encoder writes and every decoder
    refuses with [InvalidControl]. *)
Theorem decode_encode (f : Frame) (out bs : list Z) :
  frame_typed f -> encode_into f out = (Ok (), bs) ->
  decode bs =
    if setup_ok (message f)
    then Ok (mkFrame (epoch f) (sequence f) (normalise (message f)) (scope f))
    else Err InvalidControl.
Proof.
  intros Ht (n & Hn & ->)%encode_into_Ok. rewrite decode_encoded by done.
  destruct (setup_ok (message f)) eqn:Hs.
  - destruct Ht as (_ & _ & _ & Hm). rewrite <- (app_nil_r (encode_body _)).
    rewrite (reads_body _ n Hm Hn Hs). reflexivity.
  - destruct (message f) as [|pu [l h]| | | | | | | | | | | | | | | | | | | |]; try done.
    destruct pu, l, h; done.
Qed.

Definition sample_display (id : Z) (primary : bool) (m : option MonitorIdentity)
  : DisplayDescription :=
  mkDisplay id [68; 101; 195; 169] 1920 1080 (mkPoint 0 0)
    (mkPoint 0x409E000000000000 0x4090E00000000000) 0x3F800000 primary m.
Definition sample_frame : Frame :=
  mkFrame 7 41
    (MsgDisplayTopology [sample_display 1 true (Some (mkMonitorIdentity 4268 16 99));
                         sample_display 2 false (Some (mkMonitorIdentity 0 16 99))])
    Connection.

Lemma sample_frame_typed : frame_typed sample_frame.
Proof.
  assert (Hd : forall id primary v p, is_u64 id -> is_u16 v -> is_u16 p ->
            display_typed (sample_display id primary (Some (mkMonitorIdentity v p 99)))).
  { intros. unfold display_typed, is_monitor_identity, is_point, bytes.
    cbn [sample_display display_id display_name native_width native_height logical_origin
         logical_size scale_factor monitor px py vendor product serial].
    split_and!; try done; repeat constructor; unfold_int; lia. }
  unfold frame_typed; cbn [sample_frame epoch sequence message message_typed].
  split_and!; try (unfold_int; lia). 
  constructor; [|constructor; [|constructor]]; apply Hd; unfold_int; lia.
Qed.

Lemma decode_encode_witness :
  decode (snd (encode_into sample_frame [1; 2])) =
    Ok (mkFrame 7 41 (normalise (message sample_frame)) Connection)
  /\ normalise (message sample_frame) <> message sample_frame.
Proof.
  split; [|vm_compute; congruence].
  rewrite (decode_encode sample_frame [1; 2] (snd (encode_into sample_frame [1; 2])));
    [reflexivity|apply sample_frame_typed|vm_compute; reflexivity].
Defined.

(** The decoder accepts only canonical input: an accepted frame has a
    nonzero epoch and a valid message (finite, in range, known key usages and
    enumerations, a valid topology, an allowed setup proposal), the encoder
    writes it back at the same length, and byte for byte the same when every
    display names its monitor. *)
Theorem decode_canonical (bs out : list Z) (f : Frame) :
  bytes bs -> decode bs = Ok f ->
  frame_typed f /\ setup_ok (message f) = true /\ normalise (message f) = message f
  /\ exists bs', encode_into f out = (Ok (), bs') /\ length bs' = length bs
       /\ decode bs' = Ok f /\ (monitors_named (message f) -> bs' = bs).
Proof.
  intros Hb H. apply decode_inv in H as (body & Ht & Hl & Hbb & Hmax & Hbs & Hacc); [|done].
  pose proof Hacc as (Hm & _ & Hs & Hn & (n & Hlen) & Hlb & He).
  split_and!; try done.
  pose proof (length_encode_body _ _ Hm Hlen) as Hle.
  exists (MAGIC ++ encode_header f n ++ encode_body (message f)).
  split; [apply encode_into_Ok; eauto|]. split_and!.
  - rewrite !length_app, length_encode_header. unfold MAGIC, HEADER_LEN in *. cbn [length] in *. lia.
  - rewrite decode_encoded by done. rewrite <- (app_nil_r (encode_body _)).
    rewrite (reads_body _ n Hm Hlen Hs), Hn. by destruct f.
  - intros Hnm. rewrite Hbs, (He Hnm), app_nil_r. by rewrite Hle.
Qed.

Lemma decode_canonical_witness :
  exists f, frame_typed f /\ setup_ok (message f) = true /\ normalise (message f) = message f
  /\ exists bs', encode_into f [] = (Ok (), bs')
       /\ length bs' = length (snd (encode_into sample_frame []))
       /\ decode bs' = Ok f
       /\ (monitors_named (message f) -> bs' = snd (encode_into sample_frame [])).
Proof.
  eexists. apply decode_canonical; [|vm_compute; reflexivity].
  eapply (bool_decide_eq_true_1 (bytes _)). vm_compute. reflexivity.
Defined.

(** No valid message is too large: [encode_into] never fails with
    [FrameTooLarge], an accepted frame fits 2,592 of the 8,192 bytes and has
    exactly the length [encoded_len] announced, and a refused frame leaves the
    caller's buffer as it was. *)
Theorem encode_bounds (f : Frame) (out : list Z) :
  message_typed (message f) ->
  match encode_into f out with
  | (Ok (), bs) => encoded_len f = Ok (length bs) /\ (length bs <= 2592)%nat
  | (Err e, bs) => e <> EFrameTooLarge /\ bs = out /\ body_len (message f) = Err e
  end.
Proof.
  intros Ht. destruct (encode_into f out) as [[[]|e] bs] eqn:E.
  - apply encode_into_Ok in E as (n & Hn & ->). pose proof (body_len_bound _ _ Hn).
    pose proof (length_encode_body _ _ Ht Hn).
    assert (Hl : length (MAGIC ++ encode_header f n ++ encode_body (message f))
                 = (HEADER_LEN + n)%nat).
    { rewrite !length_app, length_encode_header. unfold MAGIC, HEADER_LEN. cbn [length]. lia. }
    rewrite Hl. unfold encoded_len. rewrite Hn. cbn [mbind result_bind].
    unfold HEADER_LEN, MAX_FRAME_LEN. rewrite (proj2 (Nat.leb_le _ _)) by lia. split; [done|lia].
  - unfold encode_into, encoded_len in E. destruct (body_len (message f)) as [n|e'] eqn:Hn.
    + pose proof (proj2 (encode_into_Ok f out _) (ex_intro _ n (conj Hn eq_refl))) as E'.
      unfold encode_into, encoded_len in E'. rewrite Hn in E'. congruence.
    + cbn in E. injection E as <- <-. split_and!; try done.
      destruct (message f); cbn in Hn; repeat case_match; simplify_eq; try done;
        unfold map_err, point_encode_error, gesture_encode_error in *; repeat case_match;
        simplify_eq; cbn in *; simplify_eq; done.
Qed.

Lemma encode_bounds_witness :
  match encode_into sample_frame [1] with
  | (Ok (), bs) => encoded_len sample_frame = Ok (length bs) /\ (length bs <= 2592)%nat
  | (Err e, bs) => e <> EFrameTooLarge /\ bs = [1] /\ body_len (message sample_frame) = Err e
  end.
Proof. apply (encode_bounds sample_frame [1]). apply sample_frame_typed. Defined.

(** A datagram can only ever move the pointer: [decode_datagram] succeeds
    exactly on the accepted frames that carry an absolute position, so a key,
    a button or a session message cannot arrive on the lossy channel. *)
Theorem datagram_only_motion (bs : list Z) (f : Frame) :
  decode_datagram bs = Ok f <->
  decode bs = Ok f /\ exists p, message f = MsgMotion (Absolute p).
Proof.
  unfold decode_datagram. rewrite result_bind_Ok. split.
  - intros (f' & Hd%map_err_Ok & H). destruct (bool_decide _) eqn:E; [|done]. bool_inv.
    cbn in H. injection H as <-. split; [done|].
    destruct (message f') as [| | | |[]| | | | | | | | | | | | | | | | |]; try done. eauto.
  - intros (Hd & p & Hp). exists f. rewrite map_err_Ok, Hp. split; [done|]. reflexivity.
Qed.
