(* ===== verification/Sequence.v ===== *)
(** * Session sequence gate and rate limiter (monhop-protocol/src/lib.rs)

    [SequenceGate] admits each frame of the active epoch at most once per
    sequence space; [RateLimiter] is a token bucket over caller-supplied
    milliseconds.  Both are records with one function per method; the theorems
    are about whole runs of calls. *)

From Stdlib Require Import Sorting.Sorted.
From S2P Require Import Prelude Messages.

(** ** [SequenceGate] *)

Inductive SequenceGateError :=
| NotHeartbeat | EpochNotActivated | EpochNotNew | EpochMismatch | StaleOrReplay.

Record SequenceGate := mkSeqGate {
  active_epoch : option Z;
  reliable_sequence : option Z;
  motion_sequence : option Z;
  heartbeat_sequence : option Z }.

Definition default_gate : SequenceGate := mkSeqGate None None None None.

Definition seed_heartbeat (g : SequenceGate) (last : option Z) : SequenceGate :=
  mkSeqGate (active_epoch g) (reliable_sequence g) (motion_sequence g) last.

Definition activate_epoch (g : SequenceGate) (e : Z)
  : SequenceGate * result SequenceGateError () :=
  match active_epoch g with
  | Some active => if e <=? active then (g, Err EpochNotNew)
                   else (mkSeqGate (Some e) None None None, Ok ())
  | None => (mkSeqGate (Some e) None None None, Ok ())
  end.

Definition check_epoch (g : SequenceGate) (f : Frame) : result SequenceGateError () :=
  match active_epoch g with
  | None => Err EpochNotActivated
  | Some e => if negb (e =? epoch f) then Err EpochMismatch else Ok ()
  end.

Definition advance (last : option Z) (s : Z) : result SequenceGateError (option Z) :=
  match last with
  | Some l => if s <=? l then Err StaleOrReplay else Ok (Some s)
  | None => Ok (Some s)
  end.

(** The three sequence spaces, as fields of the gate. *)
Inductive Space := SpReliable | SpMotion | SpHeartbeat.
#[global] Instance Space_eq_dec : EqDecision Space.
Proof. solve_decision. Defined.
Definition last_of (g : SequenceGate) (s : Space) : option Z :=
  match s with
  | SpReliable => reliable_sequence g
  | SpMotion => motion_sequence g
  | SpHeartbeat => heartbeat_sequence g
  end.
Definition with_last (g : SequenceGate) (s : Space) (l : option Z) : SequenceGate :=
  match s with
  | SpReliable => mkSeqGate (active_epoch g) l (motion_sequence g) (heartbeat_sequence g)
  | SpMotion => mkSeqGate (active_epoch g) (reliable_sequence g) l (heartbeat_sequence g)
  | SpHeartbeat => mkSeqGate (active_epoch g) (reliable_sequence g) (motion_sequence g) l
  end.

Definition admit_frame (g : SequenceGate) (s : Space) (f : Frame)
  : SequenceGate * result SequenceGateError () :=
  match check_epoch g f with
  | Err e => (g, Err e)
  | Ok () =>
      match advance (last_of g s) (sequence f) with
      | Err e => (g, Err e)
      | Ok l => (with_last g s l, Ok ())
      end
  end.

Definition space_of (m : Message) : Space :=
  match delivery m with Reliable => SpReliable | MotionDatagram => SpMotion end.

Definition accept (g : SequenceGate) (f : Frame) : SequenceGate * result SequenceGateError () :=
  admit_frame g (space_of (message f)) f.

Definition is_heartbeat (m : Message) : bool :=
  match m with MsgPing _ | MsgPong _ => true | _ => false end.

Definition accept_heartbeat (g : SequenceGate) (f : Frame)
  : SequenceGate * result SequenceGateError () :=
  if negb (is_heartbeat (message f)) then (g, Err NotHeartbeat) else admit_frame g SpHeartbeat f.

(** ** Runs of the gate

    [log] is the newest-first list of the admitted frames' epoch, space and
    sequence. *)

Inductive GateOp :=
| GActivate (e : Z)
| GAccept (f : Frame)
| GHeartbeat (f : Frame)
| GSeed (last : option Z).

Definition AcceptedFrame : Type := Z * Space * Z.

Definition gate_step (st : SequenceGate * list AcceptedFrame) (op : GateOp)
  : SequenceGate * list AcceptedFrame :=
  let '(g, log) := st in
  match op with
  | GActivate e => (fst (activate_epoch g e), log)
  | GAccept f =>
      let '(g', r) := accept g f in
      (g', if is_ok r then (epoch f, space_of (message f), sequence f) :: log else log)
  | GHeartbeat f =>
      let '(g', r) := accept_heartbeat g f in
      (g', if is_ok r then (epoch f, SpHeartbeat, sequence f) :: log else log)
  | GSeed last => (seed_heartbeat g last, log)
  end.

Definition gate_run (ops : list GateOp) : SequenceGate * list AcceptedFrame :=
  foldl gate_step (default_gate, []) ops.

(** [newer a b]: in the same space, [a] is of a later epoch, or of the same
    epoch with a larger sequence. *)
Definition newer (a b : AcceptedFrame) : Prop :=
  let '(e1, s1, q1) := a in
  let '(e2, s2, q2) := b in
  s1 = s2 -> e2 < e1 \/ (e2 = e1 /\ q2 < q1).

Section Gate.

(** A logged frame is behind the gate's current epoch and sequence. *)
Definition behind (g : SequenceGate) (a : AcceptedFrame) : Prop :=
  let '(e, s, q) := a in
  exists active, active_epoch g = Some active
    /\ (e < active \/ (e = active /\ exists l, last_of g s = Some l /\ q <= l)).

Lemma admit_frame_Ok g s f g' :
  admit_frame g s f = (g', Ok ()) ->
  active_epoch g = Some (epoch f) /\ g' = with_last g s (Some (sequence f))
  /\ (forall l, last_of g s = Some l -> l < sequence f).
Proof.
  unfold admit_frame, check_epoch, advance. intros H.
  destruct (active_epoch g) as [e|]; [|done]. destruct (e =? epoch f) eqn:E; [|done]. bool_inv.
  cbn in H. destruct (last_of g s) as [l|]; [destruct (sequence f <=? l) eqn:El; [done|]|];
    bool_inv; simplify_eq; split_and!; try done; intros; simplify_eq; lia.
Qed.

Lemma admit_frame_Err g s f g' e : admit_frame g s f = (g', Err e) -> g' = g.
Proof. unfold admit_frame. intros H. repeat case_match; by simplify_eq. Qed.

Lemma last_with_last g s t l :
  last_of (with_last g s l) t = if decide (t = s) then l else last_of g t.
Proof. destruct s, t; reflexivity. Qed.

Lemma behind_newer g s f a :
  active_epoch g = Some (epoch f) -> (forall l, last_of g s = Some l -> l < sequence f) ->
  behind g a -> newer (epoch f, s, sequence f) a.
Proof.
  destruct a as [[e t] q]. cbn. intros Ha Hl (active & Hact & Hb) <-. simplify_eq.
  destruct Hb as [?|(-> & l & Hlast & ?)]; [by left|]. right. specialize (Hl l Hlast). lia.
Qed.

Lemma behind_admit_frame g s f a :
  active_epoch g = Some (epoch f) -> (forall l, last_of g s = Some l -> l < sequence f) ->
  behind g a -> behind (with_last g s (Some (sequence f))) a.
Proof.
  destruct a as [[e t] q]. cbn. intros Ha Hl (active & Hact & Hb).
  exists active. split; [by destruct s|].
  destruct Hb as [?|(-> & l & Hlast & ?)]; [by left|]. right. split; [done|].
  rewrite last_with_last. case_decide; [|eauto]. subst. specialize (Hl l Hlast).
  eexists. split; [done|]. lia.
Qed.

Lemma behind_activate g e a : behind g a -> behind (fst (activate_epoch g e)) a.
Proof.
  destruct a as [[e' t] q]. intros (active & Hact & Hb). unfold activate_epoch. rewrite Hact.
  destruct (e <=? active) eqn:E; cbn; [exists active; split; done|]. bool_inv.
  exists e. split; [done|]. left. destruct Hb as [?|[-> ?]]; lia.
Qed.

Lemma seed_behind g last e s q :
  s <> SpHeartbeat -> behind g (e, s, q) -> behind (seed_heartbeat g last) (e, s, q).
Proof. destruct s; done. Qed.

(** One admitted frame keeps the log ordered and behind the gate. *)
Lemma admit_frame_log g s f g' log (P : AcceptedFrame -> Prop) :
  admit_frame g s f = (g', Ok ()) -> (forall a, P a -> a ∈ log -> behind g a) ->
  (forall a, P a -> a ∈ (epoch f, s, sequence f) :: log -> behind g' a)
  /\ (forall a, P a -> a ∈ log -> newer (epoch f, s, sequence f) a).
Proof.
  intros (Ha & -> & Hl)%admit_frame_Ok Hb. split; [|eauto using behind_newer].
  intros a Hp [->|Hin]%elem_of_cons; [|eauto using behind_admit_frame].
  cbn. exists (epoch f). split; [by destruct s|]. right. split; [done|].
  rewrite last_with_last, decide_True by done. eexists; split; [done|lia].
Qed.

Definition seeds (op : GateOp) : bool := match op with GSeed _ => true | _ => false end.

(** The frames whose order is guaranteed: heartbeats only while the gate is
    never seeded. *)
Definition ordered (ops : list GateOp) (a : AcceptedFrame) : Prop :=
  (snd (fst a)) <> SpHeartbeat \/ existsb seeds ops = false.

Lemma gate_step_log ops op g log g' log' :
  (forall a, ordered ops a -> a ∈ log -> behind g a) ->
  StronglySorted (fun a b => ordered ops b -> newer a b) log ->
  (seeds op = true -> existsb seeds ops = true) ->
  gate_step (g, log) op = (g', log') ->
  (forall a, ordered ops a -> a ∈ log' -> behind g' a)
  /\ StronglySorted (fun a b => ordered ops b -> newer a b) log'.
Proof.
  intros Hb Hs Hseed H.
  assert (Hadm : forall s f h r, admit_frame g s f = (h, r) -> 
    (g', log') = (h, if is_ok r then (epoch f, s, sequence f) :: log else log) ->
    (forall a, ordered ops a -> a ∈ log' -> behind g' a)
    /\ StronglySorted (fun a b => ordered ops b -> newer a b) log').
  { intros s f h [[]|e] Ha Heq; simplify_eq/=.
    - destruct (admit_frame_log _ _ _ _ log (ordered ops) Ha Hb) as [H1 H2]. split; [done|].
      constructor; [done|]. apply list.Forall_forall. auto.
    - by rewrite (admit_frame_Err _ _ _ _ _ Ha). }
  destruct op as [e|f|f|last]; cbn [gate_step] in H.
  - simplify_eq. split; [|done]. intros a Ho Hin. apply behind_activate; eauto.
  - unfold accept in H. destruct (admit_frame g (space_of (message f)) f) as [h r] eqn:E. eauto.
  - unfold accept_heartbeat in H. destruct (negb _); [by simplify_eq/=|].
    destruct (admit_frame g SpHeartbeat f) as [h r] eqn:E. eauto.
  - simplify_eq. split; [|done]. intros [[e s] q] Ho Hin.
    apply seed_behind; [|eauto]. destruct Ho as [Ho|Ho]; [done|].
    rewrite Hseed in Ho by done. done.
Qed.

Lemma gate_log_from ops g log :
  (forall a, ordered ops a -> a ∈ log -> behind g a) ->
  StronglySorted (fun a b => ordered ops b -> newer a b) log ->
  StronglySorted (fun a b => ordered ops b -> newer a b) (snd (foldl gate_step (g, log) ops)).
Proof.
  assert (Hsub : forall op, op ∈ ops -> seeds op = true -> existsb seeds ops = true).
  { intros op Hin Hs. apply existsb_exists. exists op. by rewrite <- list_elem_of_In. }
  assert (Hgen : forall l g log,
    (forall op, op ∈ l -> seeds op = true -> existsb seeds ops = true) ->
    (forall a, ordered ops a -> a ∈ log -> behind g a) ->
    StronglySorted (fun a b => ordered ops b -> newer a b) log ->
    StronglySorted (fun a b => ordered ops b -> newer a b) (snd (foldl gate_step (g, log) l))).
  { clear Hsub. induction l as [|op l IH]; intros g' log' Hl Hb Hs; [done|]. cbn [foldl].
    destruct (gate_step (g', log') op) as [g2 log2] eqn:E.
    eapply gate_step_log in E as [H1 H2]; eauto; [|apply Hl; by left].
    apply IH; try done. intros. eapply Hl; [by right|done]. }
  by apply Hgen.
Qed.

(** What a run admits does not depend on what was logged before it. *)
Lemma gate_run_from ops g old :
  foldl gate_step (g, old) ops
  = (fst (foldl gate_step (g, []) ops), snd (foldl gate_step (g, []) ops) ++ old).
Proof.
  revert g old. induction ops as [|op ops IH]; intros g old; [done|]. cbn [foldl].
  assert (gate_step (g, old) op = (fst (gate_step (g, []) op), snd (gate_step (g, []) op) ++ old)) as ->.
  { destruct op; cbn [gate_step]; repeat case_match; done. }
  destruct (gate_step (g, []) op) as [g' log']. cbn [fst snd]. rewrite IH, (IH g' log'). cbn [fst snd].
  by rewrite <- app_assoc.
Qed.

Lemma sorted_lookup {A} (R : A -> A -> Prop) l i j a b :
  StronglySorted R l -> l !! i = Some a -> l !! j = Some b -> (i < j)%nat -> R a b.
Proof.
  intros Hs. revert i j. induction Hs as [|x l _ IH Hx]; intros i j Hi Hj Hlt; [done|].
  destruct j as [|j]; [lia|]. cbn in Hj. destruct i as [|i]; cbn in Hi.
  - simplify_eq. rewrite Forall_lookup in Hx. by eapply Hx.
  - eapply (IH i j); eauto. lia.
Qed.
End Gate.

(** ** [RateLimiter] *)

Inductive RateLimitConfigError := ZeroRate | RateTooHigh.
Inductive RateLimitError := ClockMovedBackwards | Exceeded.

Record RateLimiter := mkLimiter {
  rate_per_second : Z; credits_milli : Z; last_timestamp_ms : option Z }.

Definition new_limiter (rate : Z) : result RateLimitConfigError RateLimiter :=
  if rate =? 0 then Err ZeroRate
  else if MAX_EVENTS_PER_SECOND <? rate then Err RateTooHigh
  else Ok (mkLimiter rate (rate * 1000) None).

Definition allow_at (l : RateLimiter) (timestamp_ms : Z)
  : RateLimiter * result RateLimitError () :=
  let spend (credits : Z) :=
    if credits <? 1000
    then (mkLimiter (rate_per_second l) credits (Some timestamp_ms), Err Exceeded)
    else (mkLimiter (rate_per_second l) (credits - 1000) (Some timestamp_ms), Ok ()) in
  match last_timestamp_ms l with
  | Some last =>
      if timestamp_ms <? last then (l, Err ClockMovedBackwards)
      else
        let capacity := rate_per_second l * 1000 in
        let refill :=
          saturating_mul_u64 (saturating_sub timestamp_ms last) (rate_per_second l) in
        spend (Z.min (saturating_add_u64 (credits_milli l) refill) capacity)
  | None => spend (credits_milli l)
  end.

(** How many of a list of calls are allowed. *)
Fixpoint allowed (l : RateLimiter) (ts : list Z) : Z :=
  match ts with
  | [] => 0
  | t :: ts =>
      let '(l', r) := allow_at l t in (if is_ok r then 1 else 0) + allowed l' ts
  end.

Section Limiter.

Definition limiter_ok (l : RateLimiter) : Prop :=
  0 < rate_per_second l <= MAX_EVENTS_PER_SECOND
  /\ 0 <= credits_milli l <= rate_per_second l * 1000.

Lemma new_limiter_ok rate l : 0 <= rate -> new_limiter rate = Ok l -> limiter_ok l.
Proof.
  unfold new_limiter, limiter_ok. intros Hr H. result_inv. bool_inv. subst l; cbn. lia.
Qed.

(** What one call does to the credit, for a clock that does not go back. *)
Lemma allow_at_credit l t last :
  limiter_ok l -> last_timestamp_ms l = Some last -> last <= t ->
  exists c, 0 <= c <= rate_per_second l * 1000
    /\ c <= credits_milli l + rate_per_second l * (t - last)
    /\ (1000 <= credits_milli l \/ 1000 <= rate_per_second l * (t - last) -> 1000 <= c)
    /\ allow_at l t =
         if c <? 1000 then (mkLimiter (rate_per_second l) c (Some t), Err Exceeded)
         else (mkLimiter (rate_per_second l) (c - 1000) (Some t), Ok ()).
Proof.
  intros ((Hr & Hmax) & Hc) Hl Ht. unfold allow_at. rewrite Hl.
  rewrite (proj2 (Z.ltb_ge t last)) by lia.
  exists (Z.min (saturating_add_u64 (credits_milli l)
            (saturating_mul_u64 (saturating_sub t last) (rate_per_second l)))
            (rate_per_second l * 1000)).
  unfold MAX_EVENTS_PER_SECOND in *. unfold_int.
  assert (Hm : Z.max (t - last) 0 * rate_per_second l = rate_per_second l * (t - last)) by nia.
  rewrite Hm. assert (0 <= rate_per_second l * (t - last)) by nia.
  split_and!; try lia. reflexivity.
Qed.

Lemma allow_at_ok l t : limiter_ok l -> limiter_ok (fst (allow_at l t)).
Proof.
  intros Hl. pose proof Hl as (Hr & Hc). destruct (last_timestamp_ms l) as [last|] eqn:E.
  - destruct (Z.lt_ge_cases t last) as [Hlt|Hge].
    + unfold allow_at. rewrite E, (proj2 (Z.ltb_lt _ _)) by lia. done.
    + destruct (allow_at_credit l t last Hl E Hge) as (c & ? & _ & _ & ->).
      destruct (c <? 1000) eqn:Ec; bool_inv; unfold limiter_ok; cbn; lia.
  - unfold allow_at. rewrite E. destruct (credits_milli l <? 1000) eqn:Ec; bool_inv;
      unfold limiter_ok; cbn; lia.
Qed.

(** The time of the last call of a run that starts at [last]. *)
Fixpoint end_time (last : Z) (ts : list Z) : Z :=
  match ts with [] => last | t :: ts => end_time t ts end.

(** The bucket's balance over a run that starts at [last]. *)
Lemma allowed_balance ts l last :
  limiter_ok l -> last_timestamp_ms l = Some last -> Sorted Z.le (last :: ts) ->
  1000 * allowed l ts <= credits_milli l + rate_per_second l * (end_time last ts - last).
Proof.
  revert l last. induction ts as [|t ts IH]; intros l last Hok Hl Hs.
  { cbn. destruct Hok. lia. }
  cbn [allowed end_time]. apply Sorted_inv in Hs as [Hs Hd]. apply HdRel_inv in Hd.
  destruct (allow_at_credit l t last Hok Hl Hd) as (c & Hc & Hcb & _ & Ha).
  pose proof (allow_at_ok l t Hok) as Hok'. rewrite Ha in Hok'.
  rewrite Ha. destruct Hok as [Hr _].
  destruct (c <? 1000) eqn:Ec; bool_inv; cbn [fst is_ok] in *;
    specialize (IH _ t Hok' eq_refl Hs); cbn [credits_milli rate_per_second] in IH; nia.
Qed.

End Limiter.

(** ** Properties *)

(** C35. No replay: take any run [pre] of activations, frames and heartbeat seeds,
    such as the one that sets up the gate of a session controller with the number
    of the last heartbeat of its startup, and any further run [post] that does not
    seed again.  The frames admitted outside the heartbeat space, in both runs,
    and the heartbeats admitted since the last seed strictly increase in (epoch,
    sequence) within their space, so none of them is admitted twice and none of
    an earlier epoch is admitted after a later one was activated; and every
    heartbeat of the seeded epoch is numbered above the seed. *)
Theorem sequence_gate_no_replay (pre post : list GateOp) (i j : nat) (a b : AcceptedFrame) :
  existsb seeds post = false ->
  let '(g, old) := gate_run pre in
  let log := snd (gate_run (pre ++ post)) in
  let since := (length log - length old)%nat in
  (log !! i = Some a -> log !! j = Some b -> (i < j)%nat ->
   snd (fst b) <> SpHeartbeat \/ (j < since)%nat -> newer a b /\ a <> b)
  /\ (forall e q l, log !! i = Some (e, SpHeartbeat, q) -> (i < since)%nat ->
        active_epoch g = Some e -> heartbeat_sequence g = Some l -> l < q).
Proof.
  intros Hp. destruct (gate_run pre) as [g old] eqn:E. cbn zeta.
  assert (snd (gate_run (pre ++ post)) = snd (foldl gate_step (g, []) post) ++ old) as Elog
    by (unfold gate_run in *; by rewrite foldl_app, E, gate_run_from).
  pose proof (gate_log_from (pre ++ post) default_gate []) as Hall. fold (gate_run (pre ++ post)) in Hall.
  rewrite Elog in *. clear Elog. set (new := snd (foldl gate_step (g, []) post)) in *.
  assert (forall v, behind g v -> forall a, a ∈ new -> newer a v) as Hafter.
  { intros v Hv x Hx. pose proof (gate_log_from post g [v]) as Hs. rewrite gate_run_from in Hs. fold new in Hs. cbn [snd] in Hs.
    apply list_elem_of_lookup in Hx as [n Hn].
    specialize (Hs ltac:(by intros ? _ ->%list_elem_of_singleton) ltac:(repeat constructor)).
    apply (sorted_lookup _ _ n (length new) x v Hs); [by apply lookup_app_l_Some| | |by right].
    - by rewrite lookup_app_r, Nat.sub_diag by lia.
    - by apply lookup_lt_Some in Hn. }
  rewrite length_app. split.
  - intros Hi Hj Hlt Ho. assert (newer a b) as Hn.
    { destruct Ho as [Ho|Ho].
      - specialize (Hall ltac:(by intros ? _ ?%not_elem_of_nil) ltac:(constructor)).
        apply (sorted_lookup _ _ i j a b Hall); [done..|by left].
      - rewrite lookup_app_l in Hi, Hj by lia.
        pose proof (gate_log_from post g [] ltac:(by intros ? _ ?%not_elem_of_nil) ltac:(constructor)) as Hs.
        apply (sorted_lookup _ _ i j a b Hs); [done..|by right]. }
    split; [done|]. intros ->. destruct b as [[e s] q]. cbn in Hn. destruct (Hn eq_refl); lia.
  - intros e q l Hi Hlt He Hl. assert (i < length new)%nat as Hin by (revert Hlt; clear; lia). rewrite lookup_app_l in Hi by exact Hin.
    assert (behind g (e, SpHeartbeat, l)) as Hb by (exists e; split; [done|]; right; split; [done|]; by exists l).
    pose proof (Hafter _ Hb _ (list_elem_of_lookup_2 _ _ _ Hi) eq_refl). lia.
Qed.

Definition ping (e q : Z) : Frame := mkFrame e q (MsgPing 0) Connection.
(** A gate seeded with heartbeat 5, the session after it, and heartbeats replayed. *)
Definition sample_setup : list GateOp := [GActivate 3; GSeed (Some 5)].
Definition sample_ops : list GateOp :=
  [GAccept (ping 3 1); GHeartbeat (ping 3 5); GHeartbeat (ping 3 6); GAccept (ping 3 1); GAccept (ping 3 5);
   GHeartbeat (ping 3 6); GHeartbeat (ping 3 8); GActivate 4; GAccept (ping 3 6); GAccept (ping 4 1)].

Lemma sequence_gate_no_replay_witness :
  snd (gate_run (sample_setup ++ sample_ops))
    = [(4, SpReliable, 1); (3, SpHeartbeat, 8); (3, SpReliable, 5); (3, SpHeartbeat, 6); (3, SpReliable, 1)]
  /\ newer (3, SpHeartbeat, 8) (3, SpHeartbeat, 6) /\ (3, SpHeartbeat, 8) <> (3, SpHeartbeat, 6)
  /\ 5 < 6.
Proof.
  split; [reflexivity|].
  destruct (sequence_gate_no_replay sample_setup sample_ops 1 3 (3, SpHeartbeat, 8) (3, SpHeartbeat, 6) eq_refl) as [H _].
  destruct (sequence_gate_no_replay sample_setup sample_ops 3 3 (3, SpHeartbeat, 6) (3, SpHeartbeat, 6) eq_refl) as [_ H'].
  destruct H as [H1 H2]; [reflexivity..|lia|right; cbn; lia|].
  split_and!; [exact H1|exact H2|]. apply (H' 3 6 5); [reflexivity|cbn; lia|reflexivity..].
Defined.

(** C37. The token bucket bounds bursts: over any run of calls with a clock that
    does not go back, starting at time [t0], the calls admitted are at most
    one second's worth plus [rate] per elapsed second; and a call is never
    refused when enough time for one event has passed since the last call. *)
Theorem rate_limiter_bound (l : RateLimiter) (t0 t : Z) (ts : list Z) :
  limiter_ok l -> last_timestamp_ms l = Some t0 -> Sorted Z.le (t0 :: ts) -> t0 <= t ->
  1000 * allowed l ts
    <= rate_per_second l * 1000 + rate_per_second l * (end_time t0 ts - t0)
  /\ (1000 <= rate_per_second l * (t - t0) -> is_ok (snd (allow_at l t)) = true).
Proof.
  intros Hok Hl Hs Ht. split.
  - pose proof (allowed_balance ts l t0 Hok Hl Hs). destruct Hok. lia.
  - intros Hr. destruct (allow_at_credit l t t0 Hok Hl Ht) as (c & _ & _ & Hc & ->).
    rewrite (proj2 (Z.ltb_ge _ _)) by (apply Hc; lia). reflexivity.
Qed.

Definition sample_limiter : RateLimiter := mkLimiter 2 2000 (Some 10).
Lemma rate_limiter_bound_witness :
  1000 * allowed sample_limiter [10; 11; 12; 600]
    <= 2 * 1000 + 2 * (end_time 10 [10; 11; 12; 600] - 10)
  /\ (1000 <= 2 * (510 - 10) -> is_ok (snd (allow_at sample_limiter 510)) = true).
Proof.
  apply (rate_limiter_bound sample_limiter 10 510 [10; 11; 12; 600]).
  - vm_compute. intuition congruence.
  - reflexivity.
  - repeat constructor; lia.
  - lia.
Defined.
