(* ===== verification/SessionWire.v ===== *)
(** * Framing of the session stream (monhop-transport/src/session_wire.rs)

    The reader that cuts an ordered byte stream into frames, whatever pieces the
    stream arrives in, and the writer's encoding.  Quinn's streams are not
    modelled: a read hands over some bytes, the end of the stream or an error. *)

From stdpp Require Import gmap list.
From S2P Require Import Prelude F64 Types Wire Messages Codec.

Inductive SessionWireError := WireIo | WireClosed | WireTruncated | WireInvalidFrame | WireUnsupportedVersion | WireTooLarge
| WireTimedOut | WireTerminal.

Record FrameReader := mkReader { buffer : list Z; filled : nat; expected_len : option nat; terminal : bool }.
Definition new_reader : FrameReader := mkReader (replicate MAX_FRAME_LEN 0) 0 None false.
Definition target_len (r : FrameReader) : nat := default HEADER_LEN (expected_len r).
Definition wire_fail (r : FrameReader) (e : SessionWireError) : FrameReader * SessionWireError :=
  (mkReader (buffer r) (filled r) (expected_len r) true, e).
Definition eof_error (r : FrameReader) : FrameReader * SessionWireError :=
  wire_fail r (if (filled r =? 0)%nat then WireClosed else WireTruncated).
Definition wire_error (e : DecodeError) : SessionWireError :=
  match e with DFrameTooLarge => WireTooLarge | UnsupportedVersion => WireUnsupportedVersion | _ => WireInvalidFrame end.

(** [u16::from_be_bytes] of bytes 8 and 9. *)
Definition declared_len (r : FrameReader) : nat :=
  Z.to_nat (256 * default 0 (buffer r !! 8%nat) + default 0 (buffer r !! 9%nat)).
Definition decode_if_complete (r : FrameReader) : FrameReader * result SessionWireError (option Frame) :=
  let header := bool_decide (expected_len r = None) && (filled r =? HEADER_LEN)%nat in
  let total := (HEADER_LEN + declared_len r)%nat in
  if header && (MAX_FRAME_LEN <? total)%nat then let '(r, e) := wire_fail r WireTooLarge in (r, Err e)
  else
    let r := if header then mkReader (buffer r) (filled r) (Some total) (terminal r) else r in
    match expected_len r with
    | None => (r, Ok None)
    | Some n =>
        if negb (filled r =? n)%nat then (r, Ok None)
        else match decode (take n (buffer r)) with
             | Err e => let '(r, e) := wire_fail r (wire_error e) in (r, Err e)
             | Ok f => (mkReader (buffer r) 0 None (terminal r), Ok (Some f))
             end
    end.

(** Bytes copied behind those that wait. *)
Definition fill (r : FrameReader) (b : list Z) : FrameReader :=
  mkReader (take (filled r) (buffer r) ++ b ++ drop (filled r + length b) (buffer r)) (filled r + length b) (expected_len r) (terminal r).

(** [feed]: how much it took, and a frame when one is whole. *)
Definition feed (r : FrameReader) (input : list Z) : FrameReader * result SessionWireError (nat * option Frame) :=
  if terminal r then (r, Err WireTerminal)
  else
    let consumed := Nat.min (length input) (target_len r - filled r) in
    let '(r, frame) := decode_if_complete (fill r (take consumed input)) in
    (r, match frame with Ok f => Ok (consumed, f) | Err e => Err e end).
Definition finish (r : FrameReader) : FrameReader * result SessionWireError () :=
  if terminal r then (r, Err WireTerminal) else let '(r, e) := eof_error r in (r, Err e).

(** [RecvStream::read] into [room] bytes: some of what is left of the stream [s], and
    [None] is an error.  At the end of the stream there is nothing. *)
Definition recv_read (room : nat) (s : list Z) (k : nat) : list Z * list Z :=
  let n := Nat.min (S k) room in (take n s, drop n s).
(** [read_frame] over the reads it awaits; [None]: it still waits. *)
Fixpoint read_turns (r : FrameReader) (s : list Z) (reads : list (option nat))
  : FrameReader * list Z * list (option nat) * option (result SessionWireError Frame) :=
  match reads with
  | [] => (r, s, [], None)
  | None :: reads => let '(r, e) := wire_fail r WireIo in (r, s, reads, Some (Err e))
  | Some k :: reads =>
      let '(b, s) := recv_read (target_len r - filled r) s k in
      if bool_decide (b = []) then let '(r, e) := eof_error r in (r, s, reads, Some (Err e))
      else
        let '(r, frame) := decode_if_complete (fill r b) in
        match frame with
        | Err e => (r, s, reads, Some (Err e))
        | Ok (Some f) => (r, s, reads, Some (Ok f))
        | Ok None => read_turns r s reads
        end
  end.
Definition read_frame (r : FrameReader) (s : list Z) (reads : list (option nat))
  : FrameReader * list Z * list (option nat) * option (result SessionWireError Frame) :=
  if terminal r then (r, s, reads, Some (Err WireTerminal)) else read_turns r s reads.

Definition is_heartbeat_message (m : Message) : bool := match m with MsgPing _ | MsgPong _ => true | _ => false end.
(** [decode_datagram] of this module. *)
Definition decode_heartbeat (b : list Z) : result SessionWireError Frame :=
  f ← map_err wire_error (decode b);
  if is_heartbeat_message (message f) then Ok f else Err WireInvalidFrame.

(** [FrameWriter::write_within], up to the write itself: the encoding buffer and the
    bytes handed to the stream. *)
Definition write_frame (encoded : list Z) (f : Frame) : list Z * result SessionWireError (list Z) :=
  match encode_into f [] with
  | (Ok (), b) => (b, Ok b)
  | (Err EFrameTooLarge, b) => (b, Err WireTooLarge)
  | (Err _, b) => (b, Err WireInvalidFrame)
  end.

(** ** What a reader holds *)

(** A reader between two reads, with the bytes [p] of an unfinished frame. *)
Definition Holds (r : FrameReader) (p : list Z) : Prop :=
  terminal r = false /\ length (buffer r) = MAX_FRAME_LEN /\ filled r = length p /\ take (length p) (buffer r) = p
  /\ match expected_len r with
     | None => (length p < HEADER_LEN)%nat
     | Some n => (HEADER_LEN <= length p < n)%nat /\ (n <= MAX_FRAME_LEN)%nat
         /\ n = (HEADER_LEN + Z.to_nat (256 * default 0%Z (p !! 8%nat) + default 0%Z (p !! 9%nat)))%nat
     end.
Lemma new_reader_holds : Holds new_reader [].
Proof. unfold Holds, new_reader. cbn [terminal buffer filled expected_len length]. rewrite length_replicate, take_0. split_and!; try done. unfold HEADER_LEN. lia. Qed.

Lemma fill_holds r p b : length (buffer r) = MAX_FRAME_LEN -> filled r = length p -> take (length p) (buffer r) = p ->
  (length p + length b <= MAX_FRAME_LEN)%nat ->
  length (buffer (fill r b)) = MAX_FRAME_LEN /\ filled (fill r b) = length (p ++ b)
  /\ take (length (p ++ b)) (buffer (fill r b)) = p ++ b.
Proof.
  intros Hl Hf Ht Hb. unfold fill. cbn [buffer filled]. rewrite Hf, Ht, !length_app, length_drop. split_and!; [lia|done|].
  rewrite app_assoc. apply take_app_exact. by rewrite length_app.
Qed.

(** An encoded frame declares its own length. *)
Definition wire_frame (f : Frame) (bs : list Z) : Prop :=
  frame_typed f /\ setup_ok (message f) = true /\ encode_into f [] = (Ok (), bs).
Definition arrives (f : Frame) : Frame := mkFrame (epoch f) (sequence f) (normalise (message f)) (scope f).
Lemma wire_frame_spec f bs : wire_frame f bs ->
  decode bs = Ok (arrives f) /\ (HEADER_LEN <= length bs <= MAX_FRAME_LEN)%nat
  /\ length bs = (HEADER_LEN + Z.to_nat (256 * default 0%Z (bs !! 8%nat) + default 0%Z (bs !! 9%nat)))%nat.
Proof.
  intros (Ht & Hs & (n & Hn & ->)%encode_into_Ok). pose proof Ht as (_ & _ & _ & Hm).
  pose proof (body_len_bound _ _ Hn) as Hb. pose proof (length_encode_body _ _ Hm Hn) as Hl. split; [|split].
  - rewrite decode_encoded by done. rewrite <- (app_nil_r (encode_body _)), (reads_body _ n Hm Hn Hs). done.
  - rewrite !length_app, length_encode_header, Hl. unfold MAGIC, HEADER_LEN, MAX_FRAME_LEN. cbn [length]. lia.
  - rewrite !length_app, length_encode_header, Hl.
    assert ((MAGIC ++ encode_header f n ++ encode_body (message f)) !! 8%nat = Some (Z.of_nat n / 256 mod 256)
      /\ (MAGIC ++ encode_header f n ++ encode_body (message f)) !! 9%nat = Some (Z.of_nat n mod 256)) as [-> ->].
    { unfold MAGIC, encode_header, write_u16, write_u8. cbn. change (Z.of_nat 1) with 1. change (Z.of_nat 0) with 0. rewrite Z.pow_1_r, Z.pow_0_r, Z.div_1_r. done. }
    cbn [default from_option]. unfold id, MAGIC, HEADER_LEN. cbn [length]. Z.div_mod_to_equations. lia.
Qed.

Lemma take_lookup_pre (l p : list Z) k : take (length p) l = p -> (k < length p)%nat -> l !! k = p !! k.
Proof. intros Ht Hk. rewrite <-Ht. by rewrite lookup_take_lt. Qed.

(** A reader that knows the length of its frame [bs], of which it has [q]. *)
Definition Knows (r : FrameReader) (q bs : list Z) : Prop :=
  terminal r = false /\ length (buffer r) = MAX_FRAME_LEN /\ filled r = length q /\ take (length q) (buffer r) = q
  /\ expected_len r = Some (length bs).
Definition settled (r : FrameReader) : FrameReader * result SessionWireError (option Frame) :=
  match expected_len r with
  | None => (r, Ok None)
  | Some n =>
      if negb (filled r =? n)%nat then (r, Ok None)
      else match decode (take n (buffer r)) with
           | Err e => let '(r, e) := wire_fail r (wire_error e) in (r, Err e)
           | Ok f => (mkReader (buffer r) 0 None (terminal r), Ok (Some f))
           end
  end.
Definition gives (m : FrameReader * result SessionWireError (option Frame)) (q rest : list Z) (f : Frame) : Prop :=
  exists r', (rest <> [] /\ m = (r', Ok None) /\ Holds r' q) \/ (rest = [] /\ m = (r', Ok (Some (arrives f))) /\ Holds r' []).
Lemma knows_gives r q rest f bs : wire_frame f bs -> q ++ rest = bs -> (HEADER_LEN <= length q)%nat -> Knows r q bs ->
  gives (settled r) q rest f.
Proof.
  intros Hw Eq Hq (Ht & Hb & Hf & Hp & He). destruct (wire_frame_spec f bs Hw) as (Hd & [Hlo Hhi] & Hlen).
  pose proof (f_equal length Eq) as El. rewrite length_app in El. unfold settled. rewrite He, Hf. destruct rest as [|x rest].
  - rewrite app_nil_r in Eq. subst q. rewrite Nat.eqb_refl, Hp, Hd. cbn [negb]. eexists. right. split_and!; try done.
    unfold Holds. cbn [terminal buffer filled expected_len length]. rewrite take_0. split_and!; try done. unfold HEADER_LEN. lia.
  - cbn [length] in El. assert (length q =? length bs = false)%nat as -> by (apply Nat.eqb_neq; lia). cbn [negb].
    exists r. left. split_and!; try done. unfold Holds. rewrite He. split_and!; try done; try lia.
    rewrite Hlen. rewrite <-Eq, !lookup_app_l by (unfold HEADER_LEN in Hq; lia). done.
Qed.

(** One read within a frame [bs]: the reader gives the frame with its last byte. *)
Lemma read_within r p b rest f bs : wire_frame f bs -> Holds r p -> p ++ b ++ rest = bs ->
  (length p + length b <= target_len r)%nat -> gives (decode_if_complete (fill r b)) (p ++ b) rest f.
Proof.
  intros Hw (Ht & Hb & Hf & Hp & He) Ebs Hroom. destruct (wire_frame_spec f bs Hw) as (_ & [Hlo Hhi] & Hlen).
  rewrite app_assoc in Ebs. pose proof (f_equal length Ebs) as El. rewrite !length_app in El.
  destruct (fill_holds r p b Hb Hf Hp ltac:(lia)) as (Fb & Ff & Fp). set (r1 := fill r b) in *. unfold target_len in Hroom.
  assert (terminal r1 = false) as Ft by exact Ht. unfold decode_if_complete. change (expected_len r1) with (expected_len r).
  assert (forall q k, p ++ q = bs -> (k < length p)%nat -> bs !! k = p !! k) as Hpre by (intros q k <- ?; by rewrite lookup_app_l).
  destruct (expected_len r) as [n|] eqn:Er.
  - destruct He as ((He1 & He2) & He3 & En). rewrite (bool_decide_eq_false_2 (Some n = None)) by done. cbn [andb].
    apply (knows_gives r1 _ _ f bs Hw Ebs); [rewrite length_app; lia|]. split_and!; try done.
    change (expected_len r1) with (expected_len r). rewrite Er, En, Hlen.
    assert (p ++ b ++ rest = bs) as E' by (by rewrite app_assoc). unfold HEADER_LEN in He1.
    by rewrite (Hpre _ 8%nat E'), (Hpre _ 9%nat E') by lia.
  - cbn [default from_option id] in Hroom. rewrite bool_decide_eq_true_2 by done. cbn [andb]. rewrite Ff.
    destruct (length (p ++ b) =? HEADER_LEN)%nat eqn:Eh; cbn [andb].
    + apply Nat.eqb_eq in Eh. assert (HEADER_LEN + declared_len r1 = length bs)%nat as Et.
      { assert (forall k, (k < 28)%nat -> buffer r1 !! k = bs !! k) as Hk.
        { intros k Hk. unfold HEADER_LEN in Eh. rewrite (take_lookup_pre _ (p ++ b) k Fp) by lia. by rewrite <-Ebs, (lookup_app_l (p ++ b)) by lia. }
        rewrite Hlen. unfold declared_len. by rewrite !Hk by lia. }
      rewrite Et. assert (MAX_FRAME_LEN <? length bs = false)%nat as -> by (apply Nat.ltb_ge; lia).
      apply (knows_gives _ _ _ f bs Hw Ebs); [lia|]. by split_and!.
    + apply Nat.eqb_neq in Eh. change (expected_len r1) with (expected_len r). rewrite Er. exists r1. left.
      rewrite length_app in *. split_and!; [intros ->; cbn in El; lia|done|].
      unfold Holds. change (expected_len r1) with (expected_len r). rewrite Er. rewrite length_app in *. split_and!; try done. lia.
Qed.

(** ** Streams *)

(** The frames [fs] still to come: [p] of the first is held, and [s] follows. *)
Definition Coming (p s : list Z) (fs : list Frame) : Prop :=
  exists encs, Forall2 wire_frame fs encs /\ p ++ s = concat encs
    /\ match encs with [] => p = [] | bs :: _ => (length p < length bs)%nat end.
Lemma coming_fresh s fs encs : Forall2 wire_frame fs encs -> s = concat encs -> Coming [] s fs.
Proof.
  intros HF ->. exists encs. split_and!; try done. destruct encs as [|bs encs]; [done|]. inversion HF as [|f ? fs' ? Hw]; subst.
  destruct (wire_frame_spec f bs Hw) as (_ & [Hlo _] & _). unfold HEADER_LEN in Hlo. cbn. lia.
Qed.
Lemma coming_end p fs : Coming p [] fs -> p = [] /\ fs = [].
Proof.
  intros (encs & HF & E & Hlt). rewrite app_nil_r in E. destruct encs as [|bs encs]; [by inversion HF; subst|].
  cbn in E. apply (f_equal length) in E. rewrite length_app in E. lia.
Qed.
Lemma target_within r p q f bs : wire_frame f bs -> Holds r p -> p ++ q = bs -> (filled r < target_len r <= length bs)%nat.
Proof.
  intros Hw (_ & _ & Hf & _ & He) E. destruct (wire_frame_spec f bs Hw) as (_ & [Hlo _] & Hlen). unfold target_len. rewrite Hf.
  destruct (expected_len r) as [n|]; cbn [default from_option id]; [|lia]. destruct He as ((H1 & H2) & _ & En). unfold HEADER_LEN in H1.
  assert (n = length bs) as ->; [|lia]. rewrite En, Hlen, <-E, !lookup_app_l by lia. done.
Qed.
(** One feed: what it takes is of the first frame. *)
Lemma feed_coming r p input tl fs : Holds r p -> Coming p (input ++ tl) fs -> input <> [] ->
  exists r' consumed p' done_ fs', feed r input = (r', Ok (consumed, arrives <$> done_)) /\ (0 < consumed <= length input)%nat
    /\ Holds r' p' /\ Coming p' (drop consumed input ++ tl) fs' /\ fs = option_list done_ ++ fs'
    /\ (is_Some done_ -> p' = []).
Proof.
  intros Hr (encs & HF & E & Hlt) Hne. destruct encs as [|bs encs].
  { cbn in E. rewrite Hlt in E. apply app_nil in E as [_ E]. by apply app_nil in E as [-> _]. }
  inversion HF as [|f ? fs' ? Hw HF']; subst. cbn [concat] in E.
  assert (exists q, p ++ q = bs) as [q Eq].
  { exists (drop (length p) bs). rewrite <-(take_drop (length p) bs) at 2. f_equal.
    transitivity (take (length p) (bs ++ concat encs)); [by rewrite <-E, take_app_exact|by rewrite take_app_le by lia]. }
  pose proof (target_within r p q f bs Hw Hr Eq) as [Hlo Hhi]. pose proof Hr as (Ht & _ & Hf & _ & _).
  set (consumed := Nat.min (length input) (target_len r - filled r)). set (b := take consumed input).
  assert (0 < length input)%nat as Hin by (destruct input; [done|cbn; lia]).
  assert (length b = consumed) as Hb by (unfold b; rewrite length_take; lia).
  assert (q ++ concat encs = input ++ tl) as Eqi.
  { apply (app_inv_head p). by rewrite app_assoc, Eq. }
  assert (exists rest, b ++ rest = q) as [rest Erest].
  { exists (drop consumed q). rewrite <-(take_drop consumed q) at 2. f_equal. pose proof (f_equal length Eq) as El. rewrite length_app in El.
    unfold b. transitivity (take consumed (input ++ tl)); [by rewrite take_app_le by lia|]. rewrite <-Eqi. by rewrite take_app_le by lia. }
  assert (rest ++ concat encs = drop consumed input ++ tl) as Er.
  { apply (app_inv_head b). rewrite app_assoc, Erest, Eqi. unfold b. by rewrite app_assoc, take_drop. }
  subst q. destruct (read_within r p b rest f bs Hw Hr Eq ltac:(lia)) as (r' & [(Hrest & Ed & Hr')|(-> & Ed & Hr')]).
  - exists r', consumed, (p ++ b), None, (f :: fs'). unfold feed. rewrite Ht. fold consumed. fold b. rewrite Ed. split_and!; try done; try lia.
    exists (bs :: encs). split_and!; try done.
    + cbn [concat]. rewrite <-Eq, <-Er. by rewrite <-!app_assoc.
    + rewrite <-Eq, !length_app. destruct rest; [done|]. cbn. lia.
  - exists r', consumed, [], (Some f), fs'. unfold feed. rewrite Ht. fold consumed. fold b. rewrite Ed. split_and!; try done; try lia.
    rewrite <-Er. by eapply coming_fresh.
Qed.
(** A session reads frame after frame, until a read does not return or fails. *)
Fixpoint read_frames (fuel : nat) (r : FrameReader) (s : list Z) (reads : list (option nat)) : list Frame * option SessionWireError :=
  match fuel with
  | O => ([], None)
  | S fuel =>
      match read_frame r s reads with
      | (_, _, _, None) => ([], None)
      | (_, _, _, Some (Err e)) => ([], Some e)
      | (r, s, reads, Some (Ok f)) => let '(l, e) := read_frames fuel r s reads in (f :: l, e)
      end
  end.

Lemma turn_coming r p s fs k : Holds r p -> Coming p s fs -> s <> [] ->
  exists b s' r' p' d fs', recv_read (target_len r - filled r) s k = (b, s') /\ b <> [] /\ (length s' < length s)%nat
    /\ decode_if_complete (fill r b) = (r', Ok (arrives <$> d)) /\ Holds r' p' /\ Coming p' s' fs' /\ fs = option_list d ++ fs'
    /\ (is_Some d -> p' = []).
Proof.
  intros Hr HC Hne. rewrite <-(take_drop (S k) s) in HC. assert (take (S k) s <> []) as Hin by (by destruct s).
  destruct (feed_coming r p _ _ fs Hr HC Hin) as (r' & consumed & p' & d & fs' & Ef & [Hc Hle] & Hr' & HC' & E & Hd).
  pose proof Hr as (Ht & _). unfold feed in Ef. rewrite Ht in Ef. revert Ef.
  set (n := Nat.min (length (take (S k) s)) (target_len r - filled r)). intros Ef.
  destruct (decode_if_complete (fill r (take n (take (S k) s)))) as [r1 [fr|e]] eqn:Ed; [|done]. injection Ef as -> <- Efr.
  assert (n = Nat.min (Nat.min (S k) (length s)) (target_len r - filled r)) as Hn by (unfold n; by rewrite length_take). clearbody n.
  rewrite length_take in *.
  assert (take n (take (S k) s) = take (Nat.min (S k) (target_len r - filled r)) s) as Eb.
  { rewrite take_take. destruct (Nat.le_gt_cases (length s) (Nat.min (S k) (target_len r - filled r))).
    - rewrite !take_ge by lia. done.
    - f_equal. lia. }
  exists (take n (take (S k) s)), (drop (Nat.min (S k) (target_len r - filled r)) s), r', p', d, fs'.
  unfold recv_read. rewrite Eb in *. split_and!; try done.
  - intros E0. apply (f_equal length) in E0. rewrite length_take in E0. cbn [length] in E0. lia.
  - rewrite length_drop. lia.
  - rewrite Ed. by rewrite Efr.
  - assert (drop n (take (S k) s) ++ drop (S k) s = drop (Nat.min (S k) (target_len r - filled r)) s) as <-; [|done].
    apply (app_inv_head (take n (take (S k) s))). rewrite app_assoc, take_drop, take_drop. rewrite Eb. by rewrite take_drop.
Qed.
Lemma read_turns_coming ks r p s fs : Holds r p -> Coming p s fs ->
  match read_turns r s (Some <$> ks) with
  | (_, s', _, None) => (length s' + length ks <= length s)%nat /\ exists p', Coming p' s' fs
  | (r', s', reads, Some (Ok f')) => exists f fs' ks', fs = f :: fs' /\ f' = arrives f /\ Holds r' [] /\ Coming [] s' fs'
      /\ reads = Some <$> ks' /\ (length ks' < length ks)%nat /\ (length s' + length ks <= length s + length ks')%nat
  | (_, _, _, Some (Err e)) => e = WireClosed /\ fs = []
  end.
Proof.
  revert r p s fs. induction ks as [|k ks IH]; intros r p s fs Hr HC; cbn [fmap list_fmap read_turns]; [cbn [length]; split; [lia|eauto]|].
  destruct (decide (s = [])) as [->|Hne].
  - unfold recv_read. rewrite take_nil. cbn [bool_decide]. rewrite bool_decide_eq_true_2 by done. unfold eof_error, wire_fail.
    apply coming_end in HC as [-> ->]. destruct Hr as (_ & _ & -> & _). done.
  - destruct (turn_coming r p s fs k Hr HC Hne) as (b & s' & r' & p' & d & fs' & -> & Hb & Hlt & Ed & Hr' & HC' & -> & Hd).
    rewrite bool_decide_eq_false_2 by done. rewrite Ed. destruct d as [f|]; cbn [fmap option_fmap option_map option_list app] in *.
    + exists f, fs', ks. rewrite (Hd ltac:(eauto)) in *. cbn [length]. split_and!; try done; lia.
    + specialize (IH r' p' s' fs' Hr' HC'). destruct (read_turns r' s' (Some <$> ks)) as [[[r2 s2] reads] [[f'|e]|]]; cbn [length].
      * destruct IH as (f & fs2 & ks' & ? & ? & ? & ? & ? & ? & ?). exists f, fs2, ks'. split_and!; try done; lia.
      * done.
      * destruct IH as [? ?]. split; [lia|done].
Qed.

(** C26. However the stream is cut into reads, the frames a session reads are those
    that were written, in order and whole, and the only error is the clean close at
    the end of the stream, after all of them.  With as many reads as there are
    bytes it has read every frame, and the next read reports the close: a reader
    neither waits for more than was written nor goes on reading past the end. *)
Theorem wire_survives_any_cut fs encs ks : Forall2 wire_frame fs encs ->
  exists fs1 fs2 e, read_frames (S (length ks)) new_reader (concat encs) (Some <$> ks) = (arrives <$> fs1, e)
    /\ fs = fs1 ++ fs2 /\ (e = None \/ (e = Some WireClosed /\ fs2 = []))
    /\ ((length (concat encs) <= length ks)%nat -> fs2 = [])
    /\ ((length (concat encs) < length ks)%nat -> e = Some WireClosed).
Proof.
  intros HF. assert (forall fuel ks r s fs, Holds r [] -> Coming [] s fs -> (length ks < fuel)%nat ->
    exists fs1 fs2 e, read_frames fuel r s (Some <$> ks) = (arrives <$> fs1, e) /\ fs = fs1 ++ fs2
      /\ (e = None \/ (e = Some WireClosed /\ fs2 = [])) /\ ((length s <= length ks)%nat -> fs2 = [])
      /\ ((length s < length ks)%nat -> e = Some WireClosed)) as H.
  2: { apply H; [apply new_reader_holds|by eapply coming_fresh|lia]. }
  clear. intros fuel. induction fuel as [|fuel IH]; intros ks r s fs Hr HC Hf; [lia|]. cbn [read_frames]. unfold read_frame.
  pose proof Hr as (-> & _). pose proof (read_turns_coming ks r [] s fs Hr HC) as Ht.
  destruct (read_turns r s (Some <$> ks)) as [[[r2 s2] reads] [[f'|e]|]].
  - destruct Ht as (f & fs' & ks' & -> & -> & Hr2 & HC2 & -> & Hk & Hl).
    destruct (IH ks' r2 s2 fs' Hr2 HC2 ltac:(lia)) as (fs1 & fs2 & e & -> & -> & He & Hall & Hend).
    exists (f :: fs1), fs2, e. split_and!; try done; intros Hs; [apply Hall; lia|apply Hend; lia].
  - destruct Ht as [-> ->]. exists [], [], (Some WireClosed). split_and!; auto.
  - destruct Ht as [Hl [p' HC']]. exists [], fs, None. split_and!; auto; [|lia]. intros Hs.
    assert (s2 = []) as -> by (apply nil_length_inv; lia). by apply coming_end in HC' as [_ ->].
Qed.

Definition sample_bytes : list Z := snd (encode_into sample_frame []).
Lemma wire_survives_any_cut_witness :
  read_frames 601 new_reader (concat [sample_bytes; sample_bytes]) (Some <$> replicate 600 6%nat)
  = (arrives <$> [sample_frame; sample_frame], Some WireClosed).
Proof.
  assert (wire_frame sample_frame sample_bytes) as Hw by (split; [exact sample_frame_typed|split; vm_compute; reflexivity]).
  destruct (wire_survives_any_cut [sample_frame; sample_frame] [sample_bytes; sample_bytes] (replicate 600 6%nat))
    as (fs1 & fs2 & e & E & Ef & _ & Hall & Hend); [by repeat constructor|].
  rewrite Hall, app_nil_r in Ef by (apply Nat.leb_le; vm_compute; reflexivity). subst fs1.
  rewrite Hend in E by (apply Nat.ltb_lt; vm_compute; reflexivity). exact E.
Defined.
