(* ===== verification/Clipboard.v ===== *)
(** * Clipboard stream header and payload checks (monhop-protocol/src/clipboard.rs)

    The fixed 32-byte header of a clipboard stream, the checks on text, and the
    prefix of a PNG that is read before anything is decoded. *)

From S2P Require Import Prelude Wire Messages.

Module Clipboard.

Definition CLIPBOARD_MAGIC : list Z := [0x4C; 0x4B; 0x4D; 0x43].
Definition CLIPBOARD_FORMAT_VERSION : Z := 1.
Definition CLIPBOARD_HEADER_LEN : nat := 32.
Definition MAX_CLIPBOARD_TEXT : Z := 1024 * 1024.
Definition MAX_CLIPBOARD_PNG : Z := 32 * 1024 * 1024.
Definition MAX_CLIPBOARD_PIXELS : Z := 64000000.
Definition MAX_CLIPBOARD_SIDE : Z := 32768.
Definition STATE_PAYLOAD_LEN : Z := 1.
Definition MIN_PNG_PAYLOAD_LEN : Z := 33.
Definition PNG_PREFIX_LEN : nat := 33.
Definition PNG_SIGNATURE : list Z := [0x89; 0x50; 0x4E; 0x47; 0x0D; 0x0A; 0x1A; 0x0A].
Definition PNG_IHDR_TYPE : list Z := [0x49; 0x48; 0x44; 0x52].
Definition PNG_IHDR_DATA_LEN : Z := 13.

Inductive ClipboardKind := State | Text | Png.

Inductive ClipboardHeaderError :=
| BadMagic | UnsupportedVersion | UnsupportedFormatVersion | InvalidKind | NonZeroReserved
| EpochMismatch | ZeroSequence | InvalidPayloadLength.

Definition kind_from_wire (v : Z) : result ClipboardHeaderError ClipboardKind :=
  match v with 1 => Ok State | 2 => Ok Text | 3 => Ok Png | _ => Err InvalidKind end.
Definition kind_to_wire (k : ClipboardKind) : Z :=
  match k with State => 1 | Text => 2 | Png => 3 end.
Definition payload_bounds (k : ClipboardKind) : Z * Z :=
  match k with
  | State => (STATE_PAYLOAD_LEN, STATE_PAYLOAD_LEN)
  | Text => (1, MAX_CLIPBOARD_TEXT)
  | Png => (MIN_PNG_PAYLOAD_LEN, MAX_CLIPBOARD_PNG)
  end.

Record ClipboardHeader := mkHeader {
  kind : ClipboardKind; h_epoch : Z; h_sequence : Z; payload_len : Z }.

(** [bytes[a..b]]. *)
Definition slice (a b : nat) (l : list Z) : list Z := take (b - a) (drop a l).

Definition encode_header (h : ClipboardHeader) : list Z :=
  CLIPBOARD_MAGIC ++ write_u16 PROTOCOL_VERSION ++ write_u8 CLIPBOARD_FORMAT_VERSION
  ++ write_u8 (kind_to_wire (kind h)) ++ write_u64 (h_epoch h) ++ write_u64 (h_sequence h)
  ++ write_u32 (payload_len h) ++ zeros 4.

Definition decode_header (bs : list Z) (expected_epoch : Z)
  : result ClipboardHeaderError ClipboardHeader :=
  if negb (bool_decide (slice 0 4 bs = CLIPBOARD_MAGIC)) then Err BadMagic
  else if negb (be_value (slice 4 6 bs) =? PROTOCOL_VERSION) then Err UnsupportedVersion
  else if negb (be_value (slice 6 7 bs) =? CLIPBOARD_FORMAT_VERSION)
  then Err UnsupportedFormatVersion
  else
    k ← kind_from_wire (be_value (slice 7 8 bs));
    if negb (bool_decide (slice 28 32 bs = zeros 4)) then Err NonZeroReserved
    else
      let e := be_value (slice 8 16 bs) in
      if negb (e =? expected_epoch) then Err EpochMismatch
      else
        let s := be_value (slice 16 24 bs) in
        if s =? 0 then Err ZeroSequence
        else
          let n := be_value (slice 24 28 bs) in
          let '(lo, hi) := payload_bounds k in
          if negb ((lo <=? n) && (n <=? hi)) then Err InvalidPayloadLength
          else Ok (mkHeader k e s n).

Inductive ClipboardTextError := TextEmpty | TextTooLarge | TextInvalidUtf8 | ContainsNul.

(** [text.contains('\0')] on valid UTF-8, whose only NUL is the byte 0. *)
Definition validate_text (bs : list Z) : result ClipboardTextError () :=
  if (length bs =? 0)%nat then Err TextEmpty
  else if MAX_CLIPBOARD_TEXT <? Z.of_nat (length bs) then Err TextTooLarge
  else if negb (valid_utf8 bs) then Err TextInvalidUtf8
  else if bool_decide (0 ∈ bs) then Err ContainsNul
  else Ok ().

Inductive ClipboardPngError :=
| PngTruncated | BadSignature | IhdrNotFirst | InvalidIhdrLength | InvalidDimensions
| InvalidBitDepthColorType | InvalidInterlace.

Definition image_within_caps (width height : Z) : bool :=
  (1 <=? width) && (width <=? MAX_CLIPBOARD_SIDE)
  && ((1 <=? height) && (height <=? MAX_CLIPBOARD_SIDE))
  && (width * height <=? MAX_CLIPBOARD_PIXELS).

Definition valid_bit_depth_color_type (color_type bit_depth : Z) : bool :=
  match color_type with
  | 0 => bool_decide (bit_depth ∈ [1; 2; 4; 8; 16])
  | 2 | 4 | 6 => bool_decide (bit_depth ∈ [8; 16])
  | 3 => bool_decide (bit_depth ∈ [1; 2; 4; 8])
  | _ => false
  end.

Definition png_dimensions (bs : list Z) : result ClipboardPngError (Z * Z) :=
  if (length bs <? PNG_PREFIX_LEN)%nat then Err PngTruncated
  else
    let prefix := take PNG_PREFIX_LEN bs in
    if negb (bool_decide (slice 0 8 prefix = PNG_SIGNATURE)) then Err BadSignature
    else if negb (bool_decide (slice 12 16 prefix = PNG_IHDR_TYPE)) then Err IhdrNotFirst
    else if negb (be_value (slice 8 12 prefix) =? PNG_IHDR_DATA_LEN) then Err InvalidIhdrLength
    else
      let width := be_value (slice 16 20 prefix) in
      let height := be_value (slice 20 24 prefix) in
      if negb (image_within_caps width height) then Err InvalidDimensions
      else
        let bit_depth := be_value (slice 24 25 prefix) in
        let color_type := be_value (slice 25 26 prefix) in
        if negb (valid_bit_depth_color_type color_type bit_depth)
        then Err InvalidBitDepthColorType
        else if 1 <? be_value (slice 28 29 prefix) then Err InvalidInterlace
        else Ok (width, height).

(** ** Lemmas *)

Definition header_ok (h : ClipboardHeader) : Prop :=
  is_u64 (h_epoch h) /\ is_u64 (h_sequence h) /\ is_u32 (payload_len h).

Lemma kind_from_to k : kind_from_wire (kind_to_wire k) = Ok k.
Proof. by destruct k. Qed.
Lemma kind_to_from v k : kind_from_wire v = Ok k -> kind_to_wire k = v.
Proof. unfold kind_from_wire. intros. repeat case_match; by simplify_eq. Qed.

(** A field [w] of a concatenation, at offset [length l]. *)
Lemma slice_app l w r a b :
  length l = a -> (length l + length w)%nat = b -> slice a b (l ++ w ++ r) = w.
Proof.
  intros <- <-. unfold slice. rewrite drop_app_length.
  apply take_app_exact. lia.
Qed.

(** The header cut into its fields. *)
Lemma header_slices (m v f k e s n z : list Z) :
  length m = 4%nat -> length v = 2%nat -> length f = 1%nat -> length k = 1%nat ->
  length e = 8%nat -> length s = 8%nat -> length n = 4%nat -> length z = 4%nat ->
  let bs := m ++ v ++ f ++ k ++ e ++ s ++ n ++ z in
  slice 0 4 bs = m /\ slice 4 6 bs = v /\ slice 6 7 bs = f /\ slice 7 8 bs = k
  /\ slice 8 16 bs = e /\ slice 16 24 bs = s /\ slice 24 28 bs = n /\ slice 28 32 bs = z.
Proof.
  intros Hm Hv Hf Hk He Hs Hn Hz bs. subst bs.
  pose proof (slice_app [] m (v ++ f ++ k ++ e ++ s ++ n ++ z) 0 4) as H0.
  pose proof (slice_app m v (f ++ k ++ e ++ s ++ n ++ z) 4 6) as H1.
  pose proof (slice_app (m ++ v) f (k ++ e ++ s ++ n ++ z) 6 7) as H2.
  pose proof (slice_app (m ++ v ++ f) k (e ++ s ++ n ++ z) 7 8) as H3.
  pose proof (slice_app (m ++ v ++ f ++ k) e (s ++ n ++ z) 8 16) as H4.
  pose proof (slice_app (m ++ v ++ f ++ k ++ e) s (n ++ z) 16 24) as H5.
  pose proof (slice_app (m ++ v ++ f ++ k ++ e ++ s) n z 24 28) as H6.
  pose proof (slice_app (m ++ v ++ f ++ k ++ e ++ s ++ n) z [] 28 32) as H7.
  rewrite <- ?app_assoc, ?app_nil_r, ?length_app in *. cbn [length app] in *.
  split_and!; auto with lia.
Qed.

Lemma cut n (l : list Z) :
  (n <= length l)%nat -> exists a b, l = a ++ b /\ length a = n /\ length b = (length l - n)%nat.
Proof.
  intros. exists (take n l), (drop n l).
  rewrite take_drop, length_take, length_drop. split_and!; [done|lia..].
Qed.

(** Any 32 bytes are such fields. *)
Lemma header_split (bs : list Z) :
  length bs = CLIPBOARD_HEADER_LEN ->
  exists m v f k e s n z : list Z, bs = m ++ v ++ f ++ k ++ e ++ s ++ n ++ z
  /\ length m = 4%nat /\ length v = 2%nat /\ length f = 1%nat /\ length k = 1%nat
  /\ length e = 8%nat /\ length s = 8%nat /\ length n = 4%nat /\ length z = 4%nat.
Proof.
  unfold CLIPBOARD_HEADER_LEN. intros H.
  destruct (cut 4 bs) as (m & r0 & -> & ? & ?); [lia|].
  destruct (cut 2 r0) as (v & r1 & -> & ? & ?); [lia|].
  destruct (cut 1 r1) as (f & r2 & -> & ? & ?); [lia|].
  destruct (cut 1 r2) as (k & r3 & -> & ? & ?); [lia|].
  destruct (cut 8 r3) as (e & r4 & -> & ? & ?); [lia|].
  destruct (cut 8 r4) as (s & r5 & -> & ? & ?); [lia|].
  destruct (cut 4 r5) as (n & z & -> & ? & ?); [lia|].
  exists m, v, f, k, e, s, n, z. split_and!; try done; lia.
Qed.

Lemma be_eq l n v : bytes l -> length l = n -> be_value l = v -> l = be_bytes n v.
Proof. intros Hb <- <-. by rewrite be_bytes_be_value. Qed.
End Clipboard.
Import Clipboard.

(** ** Properties *)

(** The header's round trip and its checks: encoding then decoding under the
    session's epoch returns the header exactly when its sequence is nonzero
    and its payload length is within its kind's bounds; and 32 bytes that
    decode under an epoch are the encoding of the header returned, which
    satisfies both. *)
Theorem clipboard_header_roundtrip (h : ClipboardHeader) (bs : list Z) (e : Z) :
  header_ok h -> bytes bs -> length bs = CLIPBOARD_HEADER_LEN ->
  length (encode_header h) = CLIPBOARD_HEADER_LEN
  /\ (decode_header (encode_header h) (h_epoch h) = Ok h <->
        h_sequence h <> 0 /\ fst (payload_bounds (kind h)) <= payload_len h
          <= snd (payload_bounds (kind h)))
  /\ (forall h', decode_header bs e = Ok h' ->
        bs = encode_header h' /\ h_epoch h' = e /\ h_sequence h' <> 0
        /\ fst (payload_bounds (kind h')) <= payload_len h'
             <= snd (payload_bounds (kind h'))).
Proof.
  intros (He & Hs & Hn) Hb Hl. split; [reflexivity|]. split.
  - unfold encode_header, decode_header.
    match goal with |- context [slice 0 4 (?m ++ ?v ++ ?f ++ ?k ++ ?ee ++ ?s ++ ?n ++ ?z)] =>
      destruct (header_slices m v f k ee s n z) as (-> & -> & -> & -> & -> & -> & -> & ->);
        try reflexivity end.
    unfold write_u64, write_u32.
    rewrite !bool_decide_eq_true_2 by done. rewrite !be_value_roundtrip by (unfold_int; lia).
    change (be_value (write_u16 PROTOCOL_VERSION)) with PROTOCOL_VERSION.
    change (be_value (write_u8 CLIPBOARD_FORMAT_VERSION)) with CLIPBOARD_FORMAT_VERSION.
    unfold write_u8. rewrite be_value_roundtrip by (destruct (kind h); cbn; lia).
    rewrite kind_from_to, !Z.eqb_refl. cbn [negb mbind result_bind].
    destruct (payload_bounds (kind h)) as [lo hi]; cbn [fst snd].
    destruct (h_sequence h =? 0) eqn:E0, (lo <=? payload_len h) eqn:E1,
      (payload_len h <=? hi) eqn:E2; bool_inv; cbn [negb andb];
      (split; [intros; split_and?; try done; try lia | intros [? ?]; try lia]).
    by destruct h.
  - intros h' H.
    destruct (header_split bs Hl) as (m & v & f & k & ee & s & n & z & -> & ? & ? & ? & ? & ? & ? & ? & ?).
    unfold decode_header in H.
    destruct (header_slices m v f k ee s n z) as (S0 & S1 & S2 & S3 & S4 & S5 & S6 & S7); try done.
    rewrite S0, S1, S2, S3, S4, S5, S6, S7 in H. clear S0 S1 S2 S3 S4 S5 S6 S7.
    unfold bytes in Hb. rewrite !Forall_app in Hb. destruct_and!.
    result_inv. destruct (payload_bounds x) as [lo hi] eqn:Ep. result_inv. bool_inv.
    subst h'. cbn [kind h_epoch h_sequence payload_len]. rewrite Ep; cbn [fst snd].
    split_and!; try done. unfold encode_header; cbn [kind h_epoch h_sequence payload_len].
    match goal with Hk : kind_from_wire _ = Ok _ |- _ => apply kind_to_from in Hk end.
    unfold write_u16, write_u8, write_u64, write_u32.
    rewrite <- (be_eq v 2 PROTOCOL_VERSION), <- (be_eq f 1 CLIPBOARD_FORMAT_VERSION),
      <- (be_eq k 1 (kind_to_wire x)), <- (be_eq ee 8 (be_value ee)), <- (be_eq s 8 (be_value s)),
      <- (be_eq n 4 (be_value n)) by (done || congruence). congruence.
Qed.

Definition sample_header : ClipboardHeader := mkHeader Text 9 1 12.
Lemma clipboard_header_roundtrip_witness :
  length (encode_header sample_header) = CLIPBOARD_HEADER_LEN
  /\ (decode_header (encode_header sample_header) 9 = Ok sample_header <->
        1 <> 0 /\ 1 <= 12 <= MAX_CLIPBOARD_TEXT)
  /\ (forall h', decode_header (encode_header sample_header) 9 = Ok h' ->
        encode_header sample_header = encode_header h' /\ h_epoch h' = 9 /\ h_sequence h' <> 0
        /\ fst (payload_bounds (kind h')) <= payload_len h'
             <= snd (payload_bounds (kind h'))).
Proof.
  apply (clipboard_header_roundtrip sample_header (encode_header sample_header) 9).
  - vm_compute. intuition congruence.
  - eapply (bool_decide_eq_true_1 (bytes _)). vm_compute. reflexivity.
  - reflexivity.
Defined.
