(* ===== verification/OrdSet.v ===== *)
(** * [BTreeSet] as a strictly ascending list

    Rust's [BTreeSet] iterates in ascending order, and the order of the actions
    a component emits comes from it, so a set is the list of its elements in
    that order.  The elements are compared by an integer key ([Ord] of a
    newtype over an integer, or of an enumeration by declaration order). *)

From Stdlib Require Import Sorting.Sorted.
From S2P Require Import Prelude.

Section OrdSet.
Context {A : Type} (key : A -> Z).
Context `{Hinj : !Inj (=) (=) key}.

(** [BTreeSet::insert]: the set, and whether the element was new. *)
Fixpoint set_insert (x : A) (l : list A) : list A * bool :=
  match l with
  | [] => ([x], true)
  | y :: l' =>
      if key x <? key y then (x :: l, true)
      else if key x =? key y then (l, false)
      else let '(l'', b) := set_insert x l' in (y :: l'', b)
  end.

(** [BTreeSet::remove]: the set, and whether the element was there. *)
Fixpoint set_remove (x : A) (l : list A) : list A * bool :=
  match l with
  | [] => ([], false)
  | y :: l' =>
      if key x =? key y then (l', true)
      else let '(l'', b) := set_remove x l' in (y :: l'', b)
  end.

Definition set_contains (x : A) (l : list A) : bool := existsb (fun y => key x =? key y) l.

Definition ascending (l : list A) : Prop := StronglySorted (fun x y => key x < key y) l.

Lemma key_eqb x y : (key x =? key y) = true <-> x = y.
Proof. rewrite Z.eqb_eq. split; [apply Hinj|by intros ->]. Qed.

Lemma set_contains_spec x l : set_contains x l = true <-> x ∈ l.
Proof.
  unfold set_contains. rewrite existsb_exists. setoid_rewrite key_eqb.
  setoid_rewrite <- list_elem_of_In. naive_solver.
Qed.

Lemma set_insert_elem x y l : y ∈ fst (set_insert x l) <-> y = x \/ y ∈ l.
Proof.
  induction l as [|z l IH]; cbn; [rewrite list_elem_of_singleton, elem_of_nil; tauto|].
  destruct (key x <? key z) eqn:E1; cbn; [rewrite !elem_of_cons; tauto|].
  destruct (key x =? key z) eqn:E2; cbn.
  - apply key_eqb in E2 as ->. rewrite !elem_of_cons. tauto.
  - destruct (set_insert x l) as [l'' b]. cbn in *. rewrite !elem_of_cons, IH. tauto.
Qed.

Lemma ascending_head x l : ascending (x :: l) -> x ∉ l.
Proof.
  intros [_ Hx]%StronglySorted_inv Hin. rewrite list.Forall_forall in Hx.
  specialize (Hx x Hin). lia.
Qed.

Lemma set_insert_new x l : ascending l -> snd (set_insert x l) = negb (set_contains x l).
Proof.
  induction l as [|z l IH]; cbn; [done|]. intros [Hs Hz]%StronglySorted_inv.
  destruct (key x <? key z) eqn:E1; cbn; bool_inv.
  - symmetry. apply negb_true_iff, orb_false_iff. split; [apply Z.eqb_neq; lia|].
    apply not_true_iff_false. change (set_contains x l <> true).
    rewrite set_contains_spec. intros Hin.
    rewrite list.Forall_forall in Hz. specialize (Hz x Hin). lia.
  - destruct (key x =? key z) eqn:E2; cbn; [done|].
    change (existsb _ l) with (set_contains x l). rewrite <- IH by done.
    by destruct (set_insert x l).
Qed.

Lemma set_insert_ascending x l : ascending l -> ascending (fst (set_insert x l)).
Proof.
  induction l as [|z l IH]; cbn; [repeat constructor|]. intros Hl.
  pose proof Hl as [Hs Hz]%StronglySorted_inv.
  destruct (key x <? key z) eqn:E1; cbn; bool_inv.
  - constructor; [done|]. constructor; [lia|]. eapply list.Forall_impl; [exact Hz|]. intros; cbn in *; lia.
  - destruct (key x =? key z) eqn:E2; cbn; [done|]. bool_inv.
    pose proof (set_insert_elem x) as Hel. destruct (set_insert x l) as [l'' b] eqn:E.
    cbn in *. constructor; [by apply IH|]. apply list.Forall_forall. intros y Hy.
    specialize (Hel y l). rewrite E in Hel. cbn in Hel. apply Hel in Hy as [->|Hy]; [lia|].
    rewrite list.Forall_forall in Hz. by apply Hz.
Qed.

Lemma set_remove_elem x y l :
  ascending l -> y ∈ fst (set_remove x l) <-> y <> x /\ y ∈ l.
Proof.
  induction l as [|z l IH]; cbn; [rewrite elem_of_nil; tauto|]. intros Hl.
  pose proof (ascending_head z l Hl) as Hz. apply StronglySorted_inv in Hl as [Hs _].
  destruct (key x =? key z) eqn:E; cbn.
  - apply key_eqb in E as ->. rewrite elem_of_cons. split; [|naive_solver].
    intros Hy. split; [|auto]. by intros ->.
  - specialize (IH Hs). destruct (set_remove x l) as [l'' b]. cbn in *.
    rewrite !elem_of_cons, IH. split; [|tauto]. intros [->|?]; [|tauto].
    split; [|auto]. intros ->. by rewrite Z.eqb_refl in E.
Qed.

Lemma set_remove_found x l : snd (set_remove x l) = set_contains x l.
Proof.
  induction l as [|z l IH]; cbn; [done|]. destruct (key x =? key z); cbn; [done|].
  change (existsb _ l) with (set_contains x l). rewrite <- IH. by destruct (set_remove x l).
Qed.

Lemma set_remove_ascending x l : ascending l -> ascending (fst (set_remove x l)).
Proof.
  induction l as [|z l IH]; cbn; [done|]. intros [Hs Hz]%StronglySorted_inv.
  destruct (key x =? key z); cbn; [done|].
  pose proof (fun y => set_remove_elem x y l Hs) as Hel. specialize (IH Hs).
  destruct (set_remove x l) as [l'' b]. cbn in *.
  constructor; [done|]. apply list.Forall_forall. intros y Hy. apply Hel in Hy as [_ Hy].
  rewrite list.Forall_forall in Hz. by apply Hz.
Qed.

Lemma set_insert_present x l : ascending l -> x ∈ l -> set_insert x l = (l, false).
Proof.
  induction l as [|z l IH]; [by intros _ ?%not_elem_of_nil|].
  intros [Hs Hz]%StronglySorted_inv [->|Hin]%elem_of_cons; cbn.
  - by rewrite Z.ltb_irrefl, Z.eqb_refl.
  - pose proof Hin as Hin'. rewrite list.Forall_forall in Hz. apply Hz in Hin'.
    rewrite (proj2 (Z.ltb_ge _ _)), (proj2 (Z.eqb_neq _ _)) by lia. by rewrite IH.
Qed.

Lemma set_remove_absent x l : x ∉ l -> set_remove x l = (l, false).
Proof.
  induction l as [|z l IH]; cbn; [done|]. intros [Hx Hin]%not_elem_of_cons.
  rewrite (proj2 (Z.eqb_neq _ _)) by (intros He; by apply Hinj in He). by rewrite IH.
Qed.

Lemma set_remove_insert x l : x ∉ l -> set_remove x (fst (set_insert x l)) = (l, true).
Proof.
  induction l as [|z l IH]; cbn; [by rewrite Z.eqb_refl|]. intros [Hx Hin]%not_elem_of_cons.
  destruct (key x <? key z) eqn:E1; cbn; [by rewrite Z.eqb_refl|].
  assert (key x <> key z) as E2 by (intros He; by apply Hinj in He).
  rewrite (proj2 (Z.eqb_neq _ _) E2). specialize (IH Hin).
  destruct (set_insert x l) as [l'' b]; cbn in *.
  rewrite (proj2 (Z.eqb_neq _ _) E2). by rewrite IH.
Qed.

Lemma ascending_filter (P : A -> Prop) `{forall x, Decision (P x)} l :
  ascending l -> ascending (filter P l).
Proof.
  induction 1 as [|x l Hs IH Hx]; [constructor|]. rewrite filter_cons.
  case_decide; [|done]. constructor; [done|]. apply list.Forall_forall.
  intros y [_ Hy]%list_elem_of_filter. rewrite list.Forall_forall in Hx. by apply Hx.
Qed.
End OrdSet.
#[export] Hint Resolve set_insert_ascending set_remove_ascending : monhop.
