(* ===== verification/HeldInput.v ===== *)
(** * Held input (monhop-core/src/input.rs)

    [HeldInput] is the sender's account of what is physically down and of what
    it has delivered to the current destination.  The theorems replay the
    emitted actions on a destination that holds what it was told to press: the
    two always agree, so a handoff leaves nothing stuck on the old destination.
    [EmergencyEscape] fires once per two-second hold. *)

From stdpp Require Import gmap.
From S2P Require Import Prelude Types OrdSet.

Definition HID_ESCAPE : HidUsage := 0x29.
Definition HID_LEFT_CONTROL : HidUsage := 0xE0.
Definition HID_RIGHT_CONTROL : HidUsage := 0xE4.

Inductive ModifierSide := LeftSide | RightSide.
Inductive SemanticModifierKind := Control | Shift | Alternate | System.
Record SemanticModifier := mkSemantic { mod_side : ModifierSide; mod_kind : SemanticModifierKind }.

(** [SemanticModifier::usage] and its inverse. *)
Definition semantic_usage (m : SemanticModifier) : HidUsage :=
  0xE0 + (match mod_side m with LeftSide => 0 | RightSide => 4 end)
  + (match mod_kind m with Control => 0 | Shift => 1 | Alternate => 2 | System => 3 end).
Definition semantic_modifier (usage : HidUsage) : option SemanticModifier :=
  match usage with
  | 0xE0 => Some (mkSemantic LeftSide Control)
  | 0xE1 => Some (mkSemantic LeftSide Shift)
  | 0xE2 => Some (mkSemantic LeftSide Alternate)
  | 0xE3 => Some (mkSemantic LeftSide System)
  | 0xE4 => Some (mkSemantic RightSide Control)
  | 0xE5 => Some (mkSemantic RightSide Shift)
  | 0xE6 => Some (mkSemantic RightSide Alternate)
  | 0xE7 => Some (mkSemantic RightSide System)
  | _ => None
  end.

Inductive DestinationModifierKey := DControl | DShift | DAlt | DOption | DSuper | DCommand.
Record DestinationModifier := mkDestination {
  dest_side : ModifierSide; dest_key : DestinationModifierKey }.
Definition map_modifier_for_destination (usage : HidUsage) (destination : Platform)
  : option DestinationModifier :=
  modifier ← semantic_modifier usage;
  Some (mkDestination (mod_side modifier)
    (match mod_kind modifier, destination with
     | Control, _ => DControl
     | Shift, _ => DShift
     | Alternate, Windows => DAlt
     | Alternate, MacOs => DOption
     | System, Windows => DSuper
     | System, MacOs => DCommand
     end)).

Inductive InputAction :=
| InKey (usage : HidUsage) (pressed repeat : bool) (modifier : option DestinationModifier)
| InButton (button : MouseButton) (pressed : bool).

Inductive InputError := InvalidHidUsage.

(** Elements of the two [BTreeSet]s; a button is ordered by declaration. *)
Record HeldInput := mkHeld {
  physical_keys : list HidUsage;
  physical_buttons : list MouseButton;
  delivered_keys : list HidUsage;
  delivered_buttons : list MouseButton }.
Definition default_held : HeldInput := mkHeld [] [] [] [].

Definition usage_key (u : HidUsage) : Z := u.
#[global] Instance usage_key_inj : Inj (=) (=) usage_key.
Proof. by intros ??. Qed.

Definition key_action (usage : HidUsage) (pressed repeat : bool) (d : Platform) : InputAction :=
  InKey usage pressed repeat (map_modifier_for_destination usage d).

Definition key_down (h : HeldInput) (usage : HidUsage) (destination : Platform)
  : HeldInput * result InputError (option InputAction) :=
  if negb (usage_is_valid usage) then (h, Err InvalidHidUsage)
  else
    let '(physical, new_physical) := set_insert usage_key usage (physical_keys h) in
    let '(delivered, new_delivered) := set_insert usage_key usage (delivered_keys h) in
    let h1 := mkHeld physical (physical_buttons h) delivered (delivered_buttons h) in
    if negb new_delivered then (h1, Ok (Some (key_action usage true true destination)))
    else if negb new_physical then
      (mkHeld physical (physical_buttons h) (fst (set_remove usage_key usage delivered))
         (delivered_buttons h), Ok None)
    else (h1, Ok (Some (key_action usage true false destination))).

Definition key_up (h : HeldInput) (usage : HidUsage) (destination : Platform)
  : HeldInput * result InputError (option InputAction) :=
  if negb (usage_is_valid usage) then (h, Err InvalidHidUsage)
  else
    let '(physical, was_physical) := set_remove usage_key usage (physical_keys h) in
    if negb was_physical then
      (mkHeld physical (physical_buttons h) (delivered_keys h) (delivered_buttons h), Ok None)
    else
      let '(delivered, was_delivered) := set_remove usage_key usage (delivered_keys h) in
      (mkHeld physical (physical_buttons h) delivered (delivered_buttons h),
       Ok (if was_delivered then Some (key_action usage false false destination) else None)).

Definition button_down (h : HeldInput) (b : MouseButton) : HeldInput * option InputAction :=
  let '(physical, new_physical) := set_insert button_index b (physical_buttons h) in
  if negb new_physical then
    (mkHeld (physical_keys h) physical (delivered_keys h) (delivered_buttons h), None)
  else
    let '(delivered, new_delivered) := set_insert button_index b (delivered_buttons h) in
    (mkHeld (physical_keys h) physical (delivered_keys h) delivered,
     if new_delivered then Some (InButton b true) else None).

Definition button_up (h : HeldInput) (b : MouseButton) : HeldInput * option InputAction :=
  let '(physical, was_physical) := set_remove button_index b (physical_buttons h) in
  if negb was_physical then
    (mkHeld (physical_keys h) physical (delivered_keys h) (delivered_buttons h), None)
  else
    let '(delivered, was_delivered) := set_remove button_index b (delivered_buttons h) in
    (mkHeld (physical_keys h) physical (delivered_keys h) delivered,
     if was_delivered then Some (InButton b false) else None).

Definition release_destination (h : HeldInput) (d : Platform) : HeldInput * list InputAction :=
  (mkHeld (physical_keys h) (physical_buttons h) [] [],
   ((fun u => key_action u false false d) <$> delivered_keys h)
   ++ ((fun b => InButton b false) <$> delivered_buttons h)).

Definition held_transition (h : HeldInput) (outgoing incoming : Platform)
  : HeldInput * (list InputAction * list InputAction) :=
  let '(h1, release_outgoing) := release_destination h outgoing in
  let modifiers := filter (fun u => usage_is_modifier u = true) (physical_keys h1) in
  let delivered_k :=
    foldl (fun s u => fst (set_insert usage_key u s)) (delivered_keys h1) modifiers in
  let delivered_b :=
    foldl (fun s b => fst (set_insert button_index b s)) (delivered_buttons h1)
      (physical_buttons h1) in
  (mkHeld (physical_keys h1) (physical_buttons h1) delivered_k delivered_b,
   (release_outgoing,
    ((fun u => key_action u true false incoming) <$> modifiers)
    ++ ((fun b => InButton b true) <$> physical_buttons h1))).

Definition is_key_pressed (h : HeldInput) (u : HidUsage) : bool :=
  set_contains usage_key u (physical_keys h).

Definition modifier_mask (usage : HidUsage) : Z :=
  match usage with
  | 0xE0 => 1 | 0xE1 => 2 | 0xE2 => 4 | 0xE3 => 8
  | 0xE4 => 16 | 0xE5 => 32 | 0xE6 => 64 | 0xE7 => 128
  | _ => 0
  end.
Definition modifier_state (h : HeldInput) : ModifierState :=
  foldl (fun s u => Z.lor s (modifier_mask u)) 0 (physical_keys h).

(** ** What a destination holds

    A destination that applies every action: an initial press must find its
    key or button up, a repeat must find it down, and a release must find it
    down; [None] is a stream that breaks this. *)
Record View := mkView { view_keys : gset Z; view_buttons : gset Z }.
Definition empty_view : View := mkView ∅ ∅.

Definition apply_input (v : View) (a : InputAction) : option View :=
  match a with
  | InKey u pressed repeat _ =>
      let down := bool_decide (u ∈ view_keys v) in
      if Bool.eqb down (repeat || negb pressed) then
        Some (mkView (if pressed then {[u]} ∪ view_keys v else view_keys v ∖ {[u]})
                (view_buttons v))
      else None
  | InButton b pressed =>
      let down := bool_decide (button_index b ∈ view_buttons v) in
      if Bool.eqb down (negb pressed) then
        Some (mkView (view_keys v)
                (if pressed then {[button_index b]} ∪ view_buttons v
                 else view_buttons v ∖ {[button_index b]}))
      else None
  end.

Definition apply_inputs (v : View) (l : list InputAction) : option View :=
  foldl (fun v a => v ← v; apply_input v a) (Some v) l.

(** ** [EmergencyEscape] *)

Record EmergencyEscape := mkEscape { held_since : option Z; esc_triggered : bool }.
Definition default_escape : EmergencyEscape := mkEscape None false.
Definition HOLD_DURATION : Z := secs 2.

Definition combination_held (h : HeldInput) : bool :=
  is_key_pressed h HID_LEFT_CONTROL && is_key_pressed h HID_RIGHT_CONTROL
  && is_key_pressed h HID_ESCAPE.

Definition evaluate (e : EmergencyEscape) (h : HeldInput) (now : Z) : EmergencyEscape * bool :=
  if negb (combination_held h) then (mkEscape None false, false)
  else match held_since e with
  | None => (mkEscape (Some now) (esc_triggered e), false)
  | Some since =>
      match checked_sub now since with
      | None => (mkEscape (Some now) false, false)
      | Some held_for =>
          if negb (esc_triggered e) && (HOLD_DURATION <=? held_for)
          then (mkEscape (Some since) true, true)
          else (e, false)
      end
  end.

(** ** Lemmas *)

Section Held.

Definition held_ok (h : HeldInput) : Prop :=
  ascending usage_key (physical_keys h) /\ ascending usage_key (delivered_keys h)
  /\ ascending button_index (physical_buttons h) /\ ascending button_index (delivered_buttons h)
  /\ (forall u, u ∈ delivered_keys h -> u ∈ physical_keys h)
  /\ (forall b, b ∈ delivered_buttons h -> b ∈ physical_buttons h).

(** The destination's view is what the sender has delivered. *)
Definition in_sync (h : HeldInput) (v : View) : Prop :=
  (forall u, u ∈ view_keys v <-> u ∈ delivered_keys h)
  /\ (forall i, i ∈ view_buttons v <-> i ∈ button_index <$> delivered_buttons h).

Lemma in_sync_button h v b :
  in_sync h v -> button_index b ∈ view_buttons v <-> b ∈ delivered_buttons h.
Proof.
  intros [_ Hb]. rewrite Hb, list_elem_of_fmap. split; [|eauto].
  by intros (c & Hc%(inj button_index) & Hin); subst.
Qed.

Lemma view_eq v w :
  (forall u, u ∈ view_keys v <-> u ∈ view_keys w) ->
  (forall b, b ∈ view_buttons v <-> b ∈ view_buttons w) -> v = w.
Proof.
  intros H1 H2. destruct v as [k1 b1], w as [k2 b2]; cbn in *. f_equal; apply set_eq; done.
Qed.

Lemma apply_inputs_cons v a l :
  apply_inputs v (a :: l) = v ← apply_input v a; apply_inputs v l.
Proof.
  unfold apply_inputs. cbn [foldl mbind option_bind].
  destruct (apply_input v a) as [w|]; cbn; [done|].
  induction l as [|b l IH]; cbn; [done|]. exact IH.
Qed.

Lemma apply_inputs_app v l k :
  apply_inputs v (l ++ k) = v ← apply_inputs v l; apply_inputs v k.
Proof.
  revert v. induction l as [|a l IH]; intros v; [done|].
  rewrite <- app_comm_cons, !apply_inputs_cons. destruct (apply_input v a); cbn; [apply IH|done].
Qed.

(** Pressing a list of keys that are up, and releasing keys that are down. *)
Lemma apply_key_presses d l v :
  NoDup l -> (forall u, u ∈ l -> u ∉ view_keys v) ->
  apply_inputs v ((fun u => key_action u true false d) <$> l)
  = Some (mkView (list_to_set l ∪ view_keys v) (view_buttons v)).
Proof.
  revert v. induction l as [|u l IH]; intros v Hn Hv.
  { cbn. f_equal. apply view_eq; cbn; set_solver. }
  apply list.NoDup_cons in Hn as [Hu Hn]. rewrite fmap_cons, apply_inputs_cons.
  cbn [apply_input key_action]. rewrite bool_decide_eq_false_2 by (apply Hv; by left).
  cbn. rewrite IH by (done || (cbn; set_solver)). f_equal. apply view_eq; cbn; set_solver.
Qed.

Lemma apply_key_releases d l v :
  NoDup l -> (forall u, u ∈ l -> u ∈ view_keys v) ->
  apply_inputs v ((fun u => key_action u false false d) <$> l)
  = Some (mkView (view_keys v ∖ list_to_set l) (view_buttons v)).
Proof.
  revert v. induction l as [|u l IH]; intros v Hn Hv.
  { cbn. f_equal. apply view_eq; cbn; set_solver. }
  apply list.NoDup_cons in Hn as [Hu Hn]. rewrite fmap_cons, apply_inputs_cons.
  cbn [apply_input key_action]. rewrite bool_decide_eq_true_2 by (apply Hv; by left).
  cbn. rewrite IH by (done || (cbn; set_solver)). f_equal. apply view_eq; cbn; set_solver.
Qed.

Lemma apply_button_presses l v :
  NoDup l -> (forall b, b ∈ l -> button_index b ∉ view_buttons v) ->
  apply_inputs v ((fun b => InButton b true) <$> l)
  = Some (mkView (view_keys v) (list_to_set (button_index <$> l) ∪ view_buttons v)).
Proof.
  revert v. induction l as [|u l IH]; intros v Hn Hv.
  { cbn. f_equal. apply view_eq; cbn; set_solver. }
  apply list.NoDup_cons in Hn as [Hu Hn]. rewrite fmap_cons, apply_inputs_cons.
  cbn [apply_input]. rewrite bool_decide_eq_false_2 by (apply Hv; by left).
  cbn. rewrite IH; cbn; [f_equal; apply view_eq; cbn; set_solver|done|].
  intros b Hb. rewrite elem_of_union, elem_of_singleton.
  intros [He%(inj button_index)|He]; [by subst|]. by apply (Hv b); [right|].
Qed.

Lemma apply_button_releases l v :
  NoDup l -> (forall b, b ∈ l -> button_index b ∈ view_buttons v) ->
  apply_inputs v ((fun b => InButton b false) <$> l)
  = Some (mkView (view_keys v) (view_buttons v ∖ list_to_set (button_index <$> l))).
Proof.
  revert v. induction l as [|u l IH]; intros v Hn Hv.
  { cbn. f_equal. apply view_eq; cbn; set_solver. }
  apply list.NoDup_cons in Hn as [Hu Hn]. rewrite fmap_cons, apply_inputs_cons.
  cbn [apply_input]. rewrite bool_decide_eq_true_2 by (apply Hv; by left).
  cbn. rewrite IH; cbn; [f_equal; apply view_eq; cbn; set_solver|done|].
  intros b Hb. rewrite elem_of_difference, elem_of_singleton.
  split; [apply Hv; by right|]. intros He%(inj button_index). by subst.
Qed.

Lemma ascending_NoDup {A} (key : A -> Z) l : ascending key l -> NoDup l.
Proof.
  induction l as [|x l IH]; intros Hl; constructor.
  - by eapply ascending_head.
  - apply IH. by apply Sorted.StronglySorted_inv in Hl as [? _].
Qed.

(** The actions a call emitted. *)
Definition emitted (r : result InputError (option InputAction)) : list InputAction :=
  match r with Ok (Some a) => [a] | _ => [] end.

Definition synced (h : HeldInput) (v : View) (l : list InputAction) : Prop :=
  held_ok h /\ exists w, apply_inputs v l = Some w /\ in_sync h w.

Lemma insert_cases {A} (key : A -> Z) `{!Inj (=) (=) key} x l s b :
  ascending key l -> set_insert key x l = (s, b) ->
  ascending key s /\ (forall y, y ∈ s <-> y = x \/ y ∈ l) /\ (b = false <-> x ∈ l).
Proof.
  intros Hl E. pose proof (set_insert_ascending key x l Hl) as Ha.
  pose proof (fun y => set_insert_elem key x y l) as He.
  pose proof (set_insert_new key x l Hl) as Hn. rewrite E in *. cbn in *. subst b.
  split_and!; try done; rewrite negb_false_iff; by apply set_contains_spec.
Qed.

Lemma remove_cases {A} (key : A -> Z) `{!Inj (=) (=) key} x l s b :
  ascending key l -> set_remove key x l = (s, b) ->
  ascending key s /\ (forall y, y ∈ s <-> y <> x /\ y ∈ l) /\ (b = true <-> x ∈ l).
Proof.
  intros Hl E. pose proof (set_remove_ascending key x l Hl) as Ha.
  pose proof (fun y => set_remove_elem key x y l Hl) as He.
  pose proof (set_remove_found key x l) as Hn. rewrite E in *. cbn in *. subst b.
  split_and!; try done; by apply set_contains_spec.
Qed.

(** [held_ok] after an insertion or a removal, from the elements' specification. *)
Ltac held_tac :=
  unfold held_ok; cbn; split_and!; try done;
  let x := fresh in
  let Hx := fresh in
  intros x Hx;
  repeat match goal with
  | H : forall y, y ∈ ?l <-> _, Hy : x ∈ ?l |- _ => apply H in Hy
  | H : forall y, y ∈ ?l <-> _ |- x ∈ ?l => apply H
  | H : x <> _ /\ _ |- _ => destruct H
  end; intuition (subst; auto).

Lemma key_down_sync h v u d :
  held_ok h -> in_sync h v -> synced (fst (key_down h u d)) v (emitted (snd (key_down h u d))).
Proof.
  intros Hok Hv. pose proof Hok as (Hpk & Hdk & Hpb & Hdb & Hk & Hb). unfold key_down.
  destruct (usage_is_valid u); cbn [negb]; [|split; [done|exists v; done]].
  destruct (set_insert usage_key u (physical_keys h)) as [pk np] eqn:Ep.
  destruct (set_insert usage_key u (delivered_keys h)) as [dk nd] eqn:Ed.
  apply (insert_cases usage_key) in Ep as (Hpa & Hpe & Hpn); [|done].
  apply (insert_cases usage_key) in Ed as (Hda & Hde & Hdn); [|done].
  destruct nd; cbn [negb].
  - assert (u ∉ delivered_keys h) as Hnd by (intros Hin; by apply Hdn in Hin).
    destruct np; cbn [negb fst snd emitted].
    + split; [held_tac|].
      eexists. split; [cbn; rewrite bool_decide_eq_false_2 by (by rewrite (proj1 Hv)); done|].
      split; cbn; [|apply Hv]. intros x. rewrite Hde, elem_of_union, elem_of_singleton, (proj1 Hv).
      done.
    + destruct (set_remove usage_key u dk) as [dk' b] eqn:Er.
      apply (remove_cases usage_key) in Er as (Hra & Hre & _); [|done]. cbn [fst].
      split; [held_tac|].
      exists v. split; [done|]. split; cbn; [|apply Hv]. intros x. rewrite (proj1 Hv), Hre, Hde.
      split; [|tauto]. intros Hx. split; [by intros ->|by right].
  - assert (u ∈ delivered_keys h) as Hd by (by apply Hdn).
    split; [held_tac|].
    eexists. split; [cbn; rewrite bool_decide_eq_true_2 by (by rewrite (proj1 Hv)); done|].
    split; cbn; [|apply Hv]. intros x. rewrite Hde, elem_of_union, elem_of_singleton, (proj1 Hv).
    done.
Qed.

Lemma key_up_sync h v u d :
  held_ok h -> in_sync h v -> synced (fst (key_up h u d)) v (emitted (snd (key_up h u d))).
Proof.
  intros Hok Hv. pose proof Hok as (Hpk & Hdk & Hpb & Hdb & Hk & Hb). unfold key_up.
  destruct (usage_is_valid u); cbn [negb]; [|split; [done|exists v; done]].
  destruct (set_remove usage_key u (physical_keys h)) as [pk np] eqn:Ep.
  destruct (set_remove usage_key u (delivered_keys h)) as [dk nd] eqn:Ed.
  apply (remove_cases usage_key) in Ep as (Hpa & Hpe & Hpn); [|done].
  apply (remove_cases usage_key) in Ed as (Hda & Hde & Hdn); [|done].
  destruct np; cbn [negb fst snd].
  - split; [held_tac|].
    destruct nd; cbn [emitted].
    + assert (u ∈ delivered_keys h) as Hd by (by apply Hdn).
      eexists. split; [cbn; rewrite bool_decide_eq_true_2 by (by rewrite (proj1 Hv)); done|].
      split; cbn; [|apply Hv]. intros x.
      rewrite Hde, elem_of_difference, elem_of_singleton, (proj1 Hv). tauto.
    + assert (u ∉ delivered_keys h) as Hnd by (intros Hin; by apply Hdn in Hin).
      exists v. split; [done|]. split; cbn; [|apply Hv]. intros x. rewrite (proj1 Hv), Hde.
      split; [|tauto]. intros Hx. split; [by intros ->|done].
  - assert (u ∉ physical_keys h) as Hnp by (intros Hin; by apply Hpn in Hin).
    split; [held_tac|].
    exists v. done.
Qed.

Lemma in_sync_buttons h v (bs : list MouseButton) (w : gset Z) :
  in_sync h v -> (forall b, b ∈ bs <-> button_index b ∈ w) ->
  (forall i, i ∈ w -> i ∈ view_buttons v \/ exists b, button_index b = i) ->
  (forall i, i ∈ w <-> i ∈ button_index <$> bs).
Proof.
  intros [_ Hv] Hb Hw i. rewrite list_elem_of_fmap. split.
  - intros Hi. destruct (Hw i Hi) as [Hi'|[b <-]]; [|exists b; by rewrite Hb].
    apply Hv, list_elem_of_fmap in Hi' as (b & -> & _). exists b. by rewrite Hb.
  - by intros (b & -> & ?%Hb).
Qed.

Lemma button_down_sync h v b :
  held_ok h -> in_sync h v ->
  synced (fst (button_down h b)) v (emitted (Ok (snd (button_down h b)))).
Proof.
  intros Hok Hv. pose proof Hok as (Hpk & Hdk & Hpb & Hdb & Hk & Hb). unfold button_down.
  destruct (set_insert button_index b (physical_buttons h)) as [pb np] eqn:Ep.
  destruct (set_insert button_index b (delivered_buttons h)) as [db nd] eqn:Ed.
  apply (insert_cases button_index) in Ep as (Hpa & Hpe & Hpn); [|done].
  apply (insert_cases button_index) in Ed as (Hda & Hde & Hdn); [|done].
  destruct np; cbn [negb fst snd].
  - assert (b ∉ delivered_buttons h) as Hnd by (intros Hin%Hb; by apply Hpn in Hin).
    destruct nd; [|exfalso; apply Hnd; by apply Hdn].
    split; [held_tac|]. cbn [emitted].
    eexists. split.
    { cbn. rewrite bool_decide_eq_false_2 by (by rewrite (in_sync_button _ _ _ Hv)). done. }
    split; cbn; [apply Hv|]. eapply (in_sync_buttons h v); [done| |].
    + intros c. rewrite Hde, elem_of_union, elem_of_singleton, (in_sync_button _ _ _ Hv).
      split; (intros [Hc|Hc]; [left|by right]); [by subst|by apply (inj button_index)].
    + intros i [->%elem_of_singleton|?]%elem_of_union; eauto.
  - assert (b ∈ physical_buttons h) as Hp by (by apply Hpn).
    split; [held_tac|]. exists v. done.
Qed.

Lemma button_up_sync h v b :
  held_ok h -> in_sync h v ->
  synced (fst (button_up h b)) v (emitted (Ok (snd (button_up h b)))).
Proof.
  intros Hok Hv. pose proof Hok as (Hpk & Hdk & Hpb & Hdb & Hk & Hb). unfold button_up.
  destruct (set_remove button_index b (physical_buttons h)) as [pb np] eqn:Ep.
  destruct (set_remove button_index b (delivered_buttons h)) as [db nd] eqn:Ed.
  apply (remove_cases button_index) in Ep as (Hpa & Hpe & Hpn); [|done].
  apply (remove_cases button_index) in Ed as (Hda & Hde & Hdn); [|done].
  destruct np; cbn [negb fst snd].
  - split; [held_tac|].
    destruct nd; cbn [emitted].
    + assert (b ∈ delivered_buttons h) as Hd by (by apply Hdn).
      eexists. split.
      { cbn. rewrite bool_decide_eq_true_2 by (by rewrite (in_sync_button _ _ _ Hv)). done. }
      split; cbn; [apply Hv|]. eapply (in_sync_buttons h v); [done| |].
      * intros c. rewrite Hde, elem_of_difference, elem_of_singleton, (in_sync_button _ _ _ Hv).
        assert (button_index c = button_index b <-> c = b)
          by (split; [apply (inj button_index)|congruence]). tauto.
      * intros i [? _]%elem_of_difference. auto.
    + assert (b ∉ delivered_buttons h) as Hnd by (intros Hin; by apply Hdn in Hin).
      exists v. split; [done|]. split; cbn; [apply Hv|].
      eapply (in_sync_buttons h v); [done| |auto].
      intros c. rewrite Hde, (in_sync_button _ _ _ Hv). split; [tauto|].
      intros Hc. split; [by intros ->|done].
  - assert (b ∉ physical_buttons h) as Hnp by (intros Hin; by apply Hpn in Hin).
    split; [held_tac|]. exists v. done.
Qed.

Lemma foldl_insert {A} (key : A -> Z) `{!Inj (=) (=) key} (l s : list A) :
  ascending key s ->
  ascending key (foldl (fun s u => fst (set_insert key u s)) s l)
  /\ forall x, x ∈ foldl (fun s u => fst (set_insert key u s)) s l <-> x ∈ s \/ x ∈ l.
Proof.
  revert s. induction l as [|u l IH]; intros s Hs; cbn [foldl].
  { split; [done|]. intros. rewrite elem_of_nil. tauto. }
  destruct (IH (fst (set_insert key u s))) as [H1 H2]; [by apply set_insert_ascending|].
  split; [done|]. intros x. rewrite H2, set_insert_elem, elem_of_cons by done. tauto.
Qed.

Lemma release_sync h v d :
  held_ok h -> in_sync h v ->
  held_ok (fst (release_destination h d))
  /\ apply_inputs v (snd (release_destination h d)) = Some empty_view
  /\ in_sync (fst (release_destination h d)) empty_view.
Proof.
  intros (Hpk & Hdk & Hpb & Hdb & Hk & Hb) Hv. split; [|split].
  - unfold held_ok; cbn. split_and!; try done; try constructor; by intros ? ?%not_elem_of_nil.
  - cbn [release_destination snd]. rewrite apply_inputs_app, apply_key_releases.
    + cbn [mbind option_bind]. rewrite apply_button_releases; cbn.
      * f_equal. apply view_eq; cbn; intros x.
        -- rewrite elem_of_difference, elem_of_list_to_set, (proj1 Hv). set_solver.
        -- rewrite elem_of_difference, elem_of_list_to_set, (proj2 Hv). set_solver.
      * by eapply ascending_NoDup.
      * intros b. by rewrite (in_sync_button _ _ _ Hv).
    + by eapply ascending_NoDup.
    + intros u. by rewrite (proj1 Hv).
  - split; cbn; set_solver.
Qed.

Lemma transition_sync h v d1 d2 :
  held_ok h -> in_sync h v ->
  exists w, apply_inputs v (fst (snd (held_transition h d1 d2))) = Some empty_view
    /\ apply_inputs empty_view (snd (snd (held_transition h d1 d2))) = Some w
    /\ held_ok (fst (held_transition h d1 d2)) /\ in_sync (fst (held_transition h d1 d2)) w.
Proof.
  intros Hok Hv. pose proof (release_sync h v d1 Hok Hv) as (_ & Hr & _).
  destruct Hok as (Hpk & _ & Hpb & _).
  destruct (foldl_insert usage_key (filter (fun u => usage_is_modifier u = true) (physical_keys h))
              []) as [Hka Hke]; [constructor|].
  destruct (foldl_insert button_index (physical_buttons h) []) as [Hba Hbe]; [constructor|].
  unfold held_transition. cbn [release_destination fst snd physical_keys physical_buttons
    delivered_keys delivered_buttons] in *.
  eexists. split; [exact Hr|]. split.
  { rewrite apply_inputs_app, apply_key_presses.
    - cbn [mbind option_bind]. rewrite apply_button_presses; [reflexivity| |].
      + by eapply ascending_NoDup.
      + intros b _. cbn. set_solver.
    - by eapply ascending_NoDup, ascending_filter.
    - cbn. set_solver. }
  split.
  - unfold held_ok; cbn. split_and!; try done.
    + intros u [?%not_elem_of_nil|[_ ?]%list_elem_of_filter]%Hke; done.
    + intros b [?%not_elem_of_nil|?]%Hbe; done.
  - split; cbn.
    + intros u. rewrite Hke, elem_of_union, elem_of_list_to_set. set_solver.
    + intros i. rewrite elem_of_union, elem_of_list_to_set, !list_elem_of_fmap.
      setoid_rewrite Hbe. set_solver.
Qed.

(** A key that is down but not delivered: silent until its release. *)
Lemma key_down_silent h u d :
  held_ok h -> usage_is_valid u = true -> u ∈ physical_keys h -> u ∉ delivered_keys h ->
  key_down h u d = (h, Ok None).
Proof.
  intros (Hpk & Hdk & _) Hu Hp Hd. unfold key_down. rewrite Hu. cbn [negb].
  rewrite set_insert_present by done.
  pose proof (set_remove_insert usage_key u _ Hd) as Hr.
  destruct (set_insert usage_key u (delivered_keys h)) as [dk nd] eqn:Ed.
  apply (insert_cases usage_key) in Ed as (_ & _ & Hn); [|done].
  destruct nd; [|exfalso; by apply Hd, Hn]. cbn [negb fst] in *. rewrite Hr. by destruct h.
Qed.

Lemma key_up_silent h u d :
  held_ok h -> usage_is_valid u = true -> u ∈ physical_keys h -> u ∉ delivered_keys h ->
  key_up h u d = (mkHeld (fst (set_remove usage_key u (physical_keys h))) (physical_buttons h)
                    (delivered_keys h) (delivered_buttons h), Ok None).
Proof.
  intros (Hpk & Hdk & _) Hu Hp Hd. unfold key_up. rewrite Hu. cbn [negb].
  rewrite (set_remove_absent usage_key u (delivered_keys h)) by done.
  destruct (set_remove usage_key u (physical_keys h)) as [pk np] eqn:Ep.
  apply (remove_cases usage_key) in Ep as (_ & _ & Hn); [|done].
  rewrite (proj2 Hn Hp). reflexivity.
Qed.

Lemma key_down_fresh h u d :
  held_ok h -> usage_is_valid u = true -> u ∉ physical_keys h ->
  snd (key_down h u d) = Ok (Some (key_action u true false d)).
Proof.
  intros (Hpk & Hdk & _ & _ & Hk & _) Hu Hp. unfold key_down. rewrite Hu. cbn [negb].
  destruct (set_insert usage_key u (physical_keys h)) as [pk np] eqn:Ep.
  destruct (set_insert usage_key u (delivered_keys h)) as [dk nd] eqn:Ed.
  apply (insert_cases usage_key) in Ep as (_ & _ & Hpn); [|done].
  apply (insert_cases usage_key) in Ed as (_ & _ & Hdn); [|done].
  destruct nd; [|exfalso; by apply Hp, Hk, Hdn]. cbn [negb].
  destruct np; [done|exfalso; by apply Hp, Hpn].
Qed.

Lemma default_held_ok : held_ok default_held /\ in_sync default_held empty_view.
Proof.
  split; [unfold held_ok; cbn; split_and!; try constructor; by intros ? ?%not_elem_of_nil|].
  split; cbn; set_solver.
Qed.
End Held.

(** ** Runs of a sender

    The platform is the current destination's; a switch starts the next
    destination with nothing held. *)

Inductive HeldOp :=
| HKeyDown (u : HidUsage)
| HKeyUp (u : HidUsage)
| HButtonDown (b : MouseButton)
| HButtonUp (b : MouseButton)
| HSwitch (to : Platform)
| HRelease.

(** The state after an operation, and the view its old destination is left
    with; [None] when a destination was sent a stream that breaks its rule. *)
Definition held_step (st : HeldInput * Platform * View) (op : HeldOp)
  : option (HeldInput * Platform * View * View) :=
  let '(h, d, v) := st in
  match op with
  | HKeyDown u =>
      w ← apply_inputs v (emitted (snd (key_down h u d)));
      Some (fst (key_down h u d), d, w, w)
  | HKeyUp u =>
      w ← apply_inputs v (emitted (snd (key_up h u d)));
      Some (fst (key_up h u d), d, w, w)
  | HButtonDown b =>
      w ← apply_inputs v (emitted (Ok (snd (button_down h b))));
      Some (fst (button_down h b), d, w, w)
  | HButtonUp b =>
      w ← apply_inputs v (emitted (Ok (snd (button_up h b))));
      Some (fst (button_up h b), d, w, w)
  | HSwitch to =>
      let '(h', (release, transfer)) := held_transition h d to in
      left ← apply_inputs v release;
      w ← apply_inputs empty_view transfer;
      Some (h', to, w, left)
  | HRelease =>
      let '(h', release) := release_destination h d in
      w ← apply_inputs v release;
      Some (h', d, w, w)
  end.

Inductive held_reach (d0 : Platform) : HeldInput * Platform * View -> Prop :=
| held_reach_init : held_reach d0 (default_held, d0, empty_view)
| held_reach_step st op h d v left :
    held_reach d0 st -> held_step st op = Some (h, d, v, left) -> held_reach d0 (h, d, v).

Lemma held_step_sync h d v op :
  held_ok h -> in_sync h v ->
  exists h' d' v' left, held_step (h, d, v) op = Some (h', d', v', left)
    /\ held_ok h' /\ in_sync h' v'
    /\ match op with HSwitch _ | HRelease => left = empty_view | _ => left = v' end.
Proof.
  intros Hok Hv. destruct op as [u|u|b|b|to|]; cbn [held_step].
  - destruct (key_down_sync h v u d Hok Hv) as (Hh & w & -> & Hw). cbn. eauto 10.
  - destruct (key_up_sync h v u d Hok Hv) as (Hh & w & -> & Hw). cbn. eauto 10.
  - destruct (button_down_sync h v b Hok Hv) as (Hh & w & -> & Hw). cbn. eauto 10.
  - destruct (button_up_sync h v b Hok Hv) as (Hh & w & -> & Hw). cbn. eauto 10.
  - destruct (transition_sync h v d to Hok Hv) as (w & H1 & H2 & Hh & Hw).
    destruct (held_transition h d to) as [h' [rel tr]]. cbn [fst snd] in *. rewrite H1.
    cbn [mbind option_bind]. rewrite H2. cbn. eauto 10.
  - destruct (release_sync h v d Hok Hv) as (Hh & H1 & Hw).
    destruct (release_destination h d) as [h' rel]. cbn [fst snd] in *. rewrite H1.
    cbn. eauto 10.
Qed.

Lemma held_reach_sync d0 h d v : held_reach d0 (h, d, v) -> held_ok h /\ in_sync h v.
Proof.
  remember (h, d, v) as st eqn:E. intros H. revert h d v E.
  induction H as [|[[h d] v] op h' d' v' left _ IH Hs]; intros h1 d1 v1 E; simplify_eq.
  - apply default_held_ok.
  - destruct (IH _ _ _ eq_refl) as [Hok Hv].
    destruct (held_step_sync h d v op Hok Hv) as (? & ? & ? & ? & Hs' & ? & ? & _).
    rewrite Hs in Hs'. by simplify_eq.
Qed.

(** ** [EmergencyEscape] over a hold *)

Section Escape.

(** The answers to evaluations at the times [ts] while the combination is held. *)
Fixpoint answers (e : EmergencyEscape) (h : HeldInput) (ts : list Z) : list bool :=
  match ts with
  | [] => []
  | t :: ts => let '(e', b) := evaluate e h t in b :: answers e' h ts
  end.

(** Fires at the first time two seconds after [t0], once. *)
Fixpoint fires_once (t0 : Z) (fired : bool) (ts : list Z) : list bool :=
  match ts with
  | [] => []
  | t :: ts =>
      let fire := negb fired && (HOLD_DURATION <=? t - t0) in
      fire :: fires_once t0 (fired || fire) ts
  end.

Lemma evaluate_held h t0 t fired :
  combination_held h = true -> t0 <= t ->
  evaluate (mkEscape (Some t0) fired) h t =
    (mkEscape (Some t0) (fired || (negb fired && (HOLD_DURATION <=? t - t0))),
     negb fired && (HOLD_DURATION <=? t - t0)).
Proof.
  intros Hc Ht. unfold evaluate, checked_sub. rewrite Hc. cbn [negb held_since esc_triggered].
  rewrite (proj2 (Z.leb_le t0 t)) by done. by destruct fired, (HOLD_DURATION <=? t - t0).
Qed.

Lemma answers_held h t0 fired ts :
  combination_held h = true -> Forall (fun t => t0 <= t) ts ->
  answers (mkEscape (Some t0) fired) h ts = fires_once t0 fired ts.
Proof.
  intros Hc Hts. revert fired. induction Hts as [|t ts Ht _ IH]; intros fired; [done|].
  cbn [answers fires_once]. rewrite evaluate_held by done. by rewrite IH.
Qed.
End Escape.

(** ** Properties *)

(** C11. Nothing is left stuck: whatever keys and buttons go down and up and
    however often the destination changes, every destination receives a stream
    it can follow (a press of what is up, a repeat or a release of what is
    down), holds exactly what the sender recorded as delivered, all of which
    is physically down, and is left holding nothing by a switch or a
    release. *)
Theorem held_input_in_sync (d0 d : Platform) (h : HeldInput) (v : View) (op : HeldOp) :
  held_reach d0 (h, d, v) ->
  (forall u, u ∈ view_keys v <-> u ∈ delivered_keys h)
  /\ (forall u, u ∈ delivered_keys h -> u ∈ physical_keys h)
  /\ (forall b, button_index b ∈ view_buttons v <-> b ∈ delivered_buttons h)
  /\ (forall b, b ∈ delivered_buttons h -> b ∈ physical_buttons h)
  /\ exists h' d' v' left, held_step (h, d, v) op = Some (h', d', v', left)
       /\ held_reach d0 (h', d', v')
       /\ match op with HSwitch _ | HRelease => left = empty_view | _ => left = v' end.
Proof.
  intros Hr. destruct (held_reach_sync _ _ _ _ Hr) as [Hok Hv].
  pose proof Hok as (_ & _ & _ & _ & Hk & Hb).
  destruct (held_step_sync h d v op Hok Hv) as (h' & d' & v' & l & Hs & _ & _ & Hl).
  split_and!; try done; [apply Hv|intros b; by apply in_sync_button|].
  exists h', d', v', l. split_and!; try done. eapply held_reach_step; eauto.
Qed.

Definition shift_held : HeldInput * Platform * View :=
  (mkHeld [0x04; 0xE1] [LeftButton] [0xE1] [LeftButton], Windows,
   mkView {[0xE1]} {[0]}).
Lemma shift_held_reach : held_reach MacOs shift_held.
Proof.
  eapply (held_reach_step _ (mkHeld [0x04; 0xE1] [LeftButton] [0x04; 0xE1] [LeftButton], MacOs,
            mkView {[0x04; 0xE1]} {[0]}) (HSwitch Windows)); [|vm_compute; reflexivity].
  eapply (held_reach_step _ (mkHeld [0x04; 0xE1] [] [0x04; 0xE1] [], MacOs,
            mkView {[0x04; 0xE1]} ∅) (HButtonDown LeftButton)); [|vm_compute; reflexivity].
  eapply (held_reach_step _ (mkHeld [0xE1] [] [0xE1] [], MacOs, mkView {[0xE1]} ∅)
            (HKeyDown 0x04)); [|vm_compute; reflexivity].
  eapply (held_reach_step _ _ (HKeyDown 0xE1)); [apply held_reach_init|vm_compute; reflexivity].
Qed.

Lemma held_input_in_sync_witness :
  let '(h, d, v) := shift_held in
  (forall u, u ∈ view_keys v <-> u ∈ delivered_keys h)
  /\ (forall u, u ∈ delivered_keys h -> u ∈ physical_keys h)
  /\ (forall b, button_index b ∈ view_buttons v <-> b ∈ delivered_buttons h)
  /\ (forall b, b ∈ delivered_buttons h -> b ∈ physical_buttons h)
  /\ exists h' d' v' left, held_step (h, d, v) HRelease = Some (h', d', v', left)
       /\ held_reach MacOs (h', d', v') /\ left = empty_view.
Proof. apply (held_input_in_sync MacOs _ _ _ HRelease). apply shift_held_reach. Defined.

(** A held key is not repeated across a handoff: after a switch the new
    destination is pressing exactly the modifiers and buttons that are
    physically down; a key that was held through it stays silent, however
    often it repeats, until it is released and pressed again. *)
Theorem held_through_handoff (h : HeldInput) (v : View) (from to : Platform) (u : HidUsage) :
  held_ok h -> in_sync h v -> usage_is_valid u = true -> usage_is_modifier u = false ->
  u ∈ physical_keys h ->
  let h1 := fst (held_transition h from to) in
  (forall k, k ∈ delivered_keys h1 <-> k ∈ physical_keys h /\ usage_is_modifier k = true)
  /\ (forall b, b ∈ delivered_buttons h1 <-> b ∈ physical_buttons h)
  /\ snd (key_down h1 u to) = Ok None /\ fst (key_down h1 u to) = h1
  /\ snd (key_up h1 u to) = Ok None
  /\ snd (key_down (fst (key_up h1 u to)) u to) = Ok (Some (key_action u true false to)).
Proof.
  intros Hok Hv Hu Hm Hp h1.
  destruct (transition_sync h v from to Hok Hv) as (w & _ & _ & Hok1 & Hw).
  fold h1 in Hok1, Hw.
  assert (Hphys : physical_keys h1 = physical_keys h) by reflexivity.
  destruct (foldl_insert usage_key (filter (fun u => usage_is_modifier u = true) (physical_keys h))
              []) as [_ Hke]; [constructor|].
  destruct (foldl_insert button_index (physical_buttons h) []) as [_ Hbe]; [constructor|].
  assert (Hdel : forall k, k ∈ delivered_keys h1 <-> k ∈ physical_keys h
                   /\ usage_is_modifier k = true).
  { intros k. unfold h1; cbn. rewrite Hke, elem_of_nil, list_elem_of_filter. tauto. }
  split; [done|]. split; [intros b; unfold h1; cbn; rewrite Hbe, elem_of_nil; tauto|].
  assert (Hnd : u ∉ delivered_keys h1) by (rewrite Hdel; intros [_ ?]; congruence).
  assert (Hp1 : u ∈ physical_keys h1) by done.
  rewrite key_down_silent, key_up_silent by done. split_and!; try done.
  cbn [fst]. apply key_down_fresh; [|done|].
  - pose proof (key_up_sync h1 w u to Hok1 Hw) as [Hok2 _].
    by rewrite key_up_silent in Hok2.
  - cbn. rewrite (set_remove_elem usage_key) by apply Hok1. tauto.
Qed.

Lemma held_through_handoff_witness :
  let '(h, d, v) := shift_held in
  let h1 := fst (held_transition h Windows MacOs) in
  (forall k, k ∈ delivered_keys h1 <-> k ∈ physical_keys h /\ usage_is_modifier k = true)
  /\ (forall b, b ∈ delivered_buttons h1 <-> b ∈ physical_buttons h)
  /\ snd (key_down h1 0x04 MacOs) = Ok None /\ fst (key_down h1 0x04 MacOs) = h1
  /\ snd (key_up h1 0x04 MacOs) = Ok None
  /\ snd (key_down (fst (key_up h1 0x04 MacOs)) 0x04 MacOs)
       = Ok (Some (key_action 0x04 true false MacOs)).
Proof.
  pose proof (held_reach_sync _ _ _ _ shift_held_reach) as [Hok Hv].
  apply (held_through_handoff _ _ Windows MacOs 0x04 Hok Hv); try reflexivity. left.
Defined.

(** The emergency escape needs a full two-second hold and fires once: from
    the first evaluation that sees both Control keys and Escape down, with a
    clock that does not go back, the answers are true exactly at the first
    time at least two seconds later; letting go of any of the three resets
    it. *)
Theorem escape_fires_once (e : EmergencyEscape) (h h0 : HeldInput) (t0 t : Z) (ts : list Z) :
  combination_held h = true -> Forall (fun t => t0 <= t) ts -> combination_held h0 = false ->
  evaluate e h0 t = (default_escape, false)
  /\ answers default_escape h (t0 :: ts) = false :: fires_once t0 false ts.
Proof.
  intros Hc Hts Hr. split; [unfold evaluate; by rewrite Hr|].
  cbn [answers]. unfold evaluate at 1. rewrite Hc. cbn. by rewrite answers_held.
Qed.

Definition escape_held : HeldInput := mkHeld [0x29; 0xE0; 0xE4] [] [] [].
Lemma escape_fires_once_witness :
  evaluate (mkEscape (Some 5) true) default_held 9 = (default_escape, false)
  /\ answers default_escape escape_held (secs 1 :: [secs 2; secs 3; secs 4])
     = false :: fires_once (secs 1) false [secs 2; secs 3; secs 4]
  /\ fires_once (secs 1) false [secs 2; secs 3; secs 4] = [false; true; false].
Proof.
  destruct (escape_fires_once (mkEscape (Some 5) true) escape_held default_held (secs 1) 9
              [secs 2; secs 3; secs 4]) as [H1 H2]; [reflexivity| |reflexivity|].
  - repeat constructor; vm_compute; congruence.
  - split; [exact H1|]. split; [exact H2|reflexivity].
Defined.
