(* ===== verification/Ownership.v ===== *)
(** * Pointer ownership (monhop-core/src/ownership.rs)

    Which machine and display the pointer belongs to, as a state machine whose
    handoffs are guarded by an epoch counter.  [own_step] runs one call;
    [own_reach] is reachability from [PointerOwnership::new]. *)

From Stdlib Require Import Sorting.Sorted.
From S2P Require Import Prelude Types.

Record PointerTarget := mkTarget { machine : DeviceId; display : DisplayId }.
#[global] Instance PointerTarget_eq_dec : EqDecision PointerTarget.
Proof. solve_decision. Defined.

Inductive OwnershipState :=
| LocalActive (target : PointerTarget)
| Transitioning (from to : PointerTarget) (ep : Z)
| RemoteActive (target : PointerTarget) (ep : Z)
| Disconnected (local : PointerTarget) (ep : Z)
| Recovering (local : PointerTarget) (ep : Z).

Record TransitionAcknowledgement := mkAck { ack_target : PointerTarget; ack_epoch : Z }.

Inductive OwnershipCommand :=
| BeginTransition (from to : PointerTarget) (ep : Z)
| Activate (target : PointerTarget) (ep : Z).

Inductive FailureReason := FDisconnected | FTimeout | FInputOverflow | FEmergencyEscape.

Record RecoveryPlan := mkPlan {
  reason : FailureReason; plan_local : PointerTarget;
  remote_to_release : option PointerTarget; plan_epoch : Z }.

Inductive OwnershipError :=
| LocalTargetMustBelongToLocalMachine | TransitionAlreadyInProgress | NotReady | SameTarget
| UnsolicitedAcknowledgement | StaleAcknowledgement | StaleRecovery | EpochExhausted.

Record PointerOwnership := mkOwnership {
  own_local : PointerTarget; own_state : OwnershipState; own_epoch : Z }.

Definition new_ownership (local_machine : DeviceId) (local : PointerTarget)
  : result OwnershipError PointerOwnership :=
  if negb (bool_decide (machine local = local_machine))
  then Err LocalTargetMustBelongToLocalMachine
  else Ok (mkOwnership local (LocalActive local) 0).

Definition active_destination (o : PointerOwnership) : PointerTarget :=
  match own_state o with
  | LocalActive target | RemoteActive target _ => target
  | Transitioning from _ _ => from
  | Disconnected local _ | Recovering local _ => local
  end.

Definition next_epoch (o : PointerOwnership) : result OwnershipError Z :=
  ok_or EpochExhausted (checked_add_u64 (own_epoch o) 1).

Definition begin_transition (o : PointerOwnership) (to : PointerTarget)
  : PointerOwnership * result OwnershipError OwnershipCommand :=
  let go (from : PointerTarget) :=
    if bool_decide (from = to) then (o, Err SameTarget)
    else match next_epoch o with
    | Err e => (o, Err e)
    | Ok ep => (mkOwnership (own_local o) (Transitioning from to ep) ep,
                Ok (BeginTransition from to ep))
    end in
  match own_state o with
  | LocalActive target | RemoteActive target _ => go target
  | Transitioning _ _ _ => (o, Err TransitionAlreadyInProgress)
  | Disconnected _ _ | Recovering _ _ => (o, Err NotReady)
  end.

Definition acknowledge_transition (o : PointerOwnership) (a : TransitionAcknowledgement)
  : PointerOwnership * result OwnershipError OwnershipCommand :=
  match own_state o with
  | Transitioning _ to ep =>
      if negb (ack_epoch a =? ep) || negb (bool_decide (ack_target a = to))
      then (o, Err StaleAcknowledgement)
      else
        (mkOwnership (own_local o)
           (if bool_decide (machine to = machine (own_local o)) then LocalActive to
            else RemoteActive to ep) (own_epoch o),
         Ok (Activate to ep))
  | _ => (o, Err UnsolicitedAcknowledgement)
  end.

Definition to_release (o : PointerOwnership) : option PointerTarget :=
  let remote (t : PointerTarget) := negb (bool_decide (machine t = machine (own_local o))) in
  match own_state o with
  | RemoteActive target _ => if remote target then Some target else None
  | Transitioning from to _ =>
      if remote to then Some to else if remote from then Some from else None
  | _ => None
  end.

Definition enter_failure (o : PointerOwnership) (why : FailureReason) (disconnected : bool)
  : PointerOwnership * result OwnershipError RecoveryPlan :=
  match next_epoch o with
  | Err e => (o, Err e)
  | Ok ep =>
      (mkOwnership (own_local o)
         (if disconnected then Disconnected (own_local o) ep else Recovering (own_local o) ep) ep,
       Ok (mkPlan why (own_local o) (to_release o) ep))
  end.

Definition on_failure (o : PointerOwnership) (why : FailureReason) :=
  enter_failure o why (match why with FDisconnected => true | _ => false end).

Definition begin_recovery (o : PointerOwnership) : PointerOwnership * result OwnershipError Z :=
  match own_state o with
  | Disconnected local ep => (mkOwnership (own_local o) (Recovering local ep) (own_epoch o), Ok ep)
  | _ => (o, Err NotReady)
  end.

Definition complete_recovery (o : PointerOwnership) (ep : Z)
  : PointerOwnership * result OwnershipError () :=
  match own_state o with
  | Recovering local expected =>
      if negb (ep =? expected) then (o, Err StaleRecovery)
      else (mkOwnership (own_local o) (LocalActive local) (own_epoch o), Ok ())
  | _ => (o, Err NotReady)
  end.

(** ** Runs

    [log] is the newest-first list of the epochs whose acknowledgement
    activated a target. *)

Inductive OwnOp :=
| OBegin (to : PointerTarget)
| OAck (a : TransitionAcknowledgement)
| OFail (why : FailureReason)
| OBeginRecovery
| OCompleteRecovery (ep : Z).

Definition own_step (st : PointerOwnership * list Z) (op : OwnOp) : PointerOwnership * list Z :=
  let '(o, log) := st in
  match op with
  | OBegin to => (fst (begin_transition o to), log)
  | OAck a =>
      let '(o', r) := acknowledge_transition o a in
      (o', if is_ok r then ack_epoch a :: log else log)
  | OFail why => (fst (on_failure o why), log)
  | OBeginRecovery => (fst (begin_recovery o), log)
  | OCompleteRecovery ep => (fst (complete_recovery o ep), log)
  end.

Inductive own_reach (local : PointerTarget) : PointerOwnership * list Z -> Prop :=
| own_reach_init : own_reach local (mkOwnership local (LocalActive local) 0, [])
| own_reach_step st op : own_reach local st -> own_reach local (own_step st op).

Section Ownership.

(** The states that can be reached: the epoch of a handoff or a recovery is the
    last one issued, a transition changes the target, and [RemoteActive] is
    never on the local machine, nor [LocalActive] on another. *)
Definition own_ok (local : PointerTarget) (o : PointerOwnership) : Prop :=
  own_local o = local /\ is_u64 (own_epoch o)
  /\ match own_state o with
     | LocalActive t => machine t = machine local
     | Transitioning from to ep => from <> to /\ ep = own_epoch o
     | RemoteActive t ep => machine t <> machine local /\ ep = own_epoch o
     | Disconnected l ep | Recovering l ep => l = local /\ ep = own_epoch o
     end.

(** The epochs acknowledged so far are issued, and the pending one is not yet. *)
Definition log_ok (o : PointerOwnership) (log : list Z) : Prop :=
  StronglySorted (fun a b => b < a) log
  /\ Forall (fun e => match own_state o with
                      | Transitioning _ _ ep => e < ep
                      | _ => e <= own_epoch o
                      end) log.

Lemma next_epoch_Ok o ep :
  next_epoch o = Ok ep <-> ep = own_epoch o + 1 /\ own_epoch o + 1 <= u64_max.
Proof.
  unfold next_epoch. rewrite ok_or_Ok. unfold checked_add_u64.
  destruct (own_epoch o + 1 <=? u64_max) eqn:E; bool_inv; naive_solver lia.
Qed.

Lemma begin_spec local o to o' r :
  own_ok local o -> begin_transition o to = (o', r) ->
  own_ok local o' /\ (is_ok r = true -> own_epoch o' = own_epoch o + 1
                       /\ own_state o' = Transitioning (active_destination o) to (own_epoch o'))
  /\ (is_ok r = false -> o' = o).
Proof.
  intros Hok H. pose proof Hok as (Hl & He & Hs). unfold begin_transition in H.
  assert (Hgo : forall from, from = active_destination o ->
    (if bool_decide (from = to) then (o, Err SameTarget)
     else match next_epoch o with
          | Err e => (o, Err e)
          | Ok ep => (mkOwnership (own_local o) (Transitioning from to ep) ep,
                      Ok (BeginTransition from to ep))
          end) = (o', r) ->
    own_ok local o' /\ (is_ok r = true -> own_epoch o' = own_epoch o + 1
                       /\ own_state o' = Transitioning (active_destination o) to (own_epoch o'))
    /\ (is_ok r = false -> o' = o)).
  { intros from -> Hgo. destruct (bool_decide _) eqn:E; bool_inv; [by simplify_eq|].
    destruct (next_epoch o) as [ep|e] eqn:En; [|by simplify_eq].
    apply next_epoch_Ok in En as [-> Hmax]. simplify_eq/=. unfold own_ok; cbn.
    split_and!; try done; unfold_int; lia. }
  destruct (own_state o) eqn:E;
    try (injection H as <- <-; split_and!; [done|intros ?; discriminate|done]);
    (eapply Hgo; [|exact H]; unfold active_destination; by rewrite E).
Qed.

Lemma ack_spec local o a o' r :
  own_ok local o -> acknowledge_transition o a = (o', r) ->
  own_ok local o' /\ own_epoch o' = own_epoch o
  /\ (is_ok r = true -> exists from, own_state o = Transitioning from (ack_target a) (ack_epoch a)
        /\ own_state o' = (if bool_decide (machine (ack_target a) = machine local)
                           then LocalActive (ack_target a)
                           else RemoteActive (ack_target a) (ack_epoch a)))
  /\ (is_ok r = false -> o' = o).
Proof.
  intros Hok H. pose proof Hok as (Hl & He & Hs). unfold acknowledge_transition in H.
  destruct (own_state o) as [|from to ep| | |] eqn:E; try by simplify_eq.
  destruct (negb _ || _) eqn:Eg; [by simplify_eq|]. bool_inv. simplify_eq/=.
  destruct Hs as [Hne Hep].
  split_and!; try done; [|eauto].
  unfold own_ok; cbn. split_and!; try done. case_bool_decide; done.
Qed.

Lemma fail_spec local o why o' r :
  own_ok local o -> on_failure o why = (o', r) ->
  own_ok local o'
  /\ (is_ok r = true -> own_epoch o' = own_epoch o + 1 /\ active_destination o' = local
        /\ (own_state o' = Disconnected local (own_epoch o')
            \/ own_state o' = Recovering local (own_epoch o')))
  /\ (is_ok r = false -> o' = o /\ own_epoch o = u64_max).
Proof.
  intros (Hl & He & Hs) H. unfold on_failure, enter_failure in H.
  destruct (next_epoch o) as [ep|e] eqn:En.
  - apply next_epoch_Ok in En as [-> Hmax]. simplify_eq/=. unfold own_ok; cbn.
    split_and!; try done; unfold_int; try lia; destruct why; cbn; auto.
  - injection H as <- <-. unfold next_epoch, checked_add_u64 in En.
    destruct (own_epoch o + 1 <=? u64_max) eqn:Eb; [done|]. bool_inv. unfold_int.
    split_and!; try done; intros; split; try done; lia.
Qed.

Lemma recovery_spec local o :
  own_ok local o ->
  own_ok local (fst (begin_recovery o)) /\ own_epoch (fst (begin_recovery o)) = own_epoch o
  /\ forall ep, own_ok local (fst (complete_recovery o ep))
       /\ own_epoch (fst (complete_recovery o ep)) = own_epoch o.
Proof.
  intros Hok. pose proof Hok as (Hl & He & Hs). unfold begin_recovery, complete_recovery.
  destruct (own_state o) eqn:E; split_and!; cbn; try done; try (intros ep'; split_and!; done).
  - intros ep'. destruct (negb _) eqn:Eg; cbn; [done|].
    unfold own_ok; cbn. destruct Hs as [-> _]. split_and!; done.
Qed.

Lemma log_weaken o o' log :
  log_ok o log ->
  (match own_state o' with
   | Transitioning _ _ ep => own_epoch o < ep
   | _ => own_epoch o <= own_epoch o'
   end \/ o' = o) ->
  (match own_state o with Transitioning _ _ ep => ep <= own_epoch o | _ => True end) ->
  log_ok o' log.
Proof.
  intros [Hs Hf] Ho He. destruct Ho as [Ho| ->]; [|done]. split; [done|].
  eapply list.Forall_impl; [exact Hf|]. intros e Hle. cbn in *.
  destruct (own_state o), (own_state o'); lia.
Qed.

Lemma own_step_ok local o log op :
  own_ok local o -> log_ok o log ->
  own_ok local (fst (own_step (o, log) op))
  /\ log_ok (fst (own_step (o, log) op)) (snd (own_step (o, log) op)).
Proof.
  intros Hok Hlog. pose proof Hok as (Hl & He & Hs).
  assert (Hcur : match own_state o with Transitioning _ _ ep => ep <= own_epoch o | _ => True end)
    by (destruct (own_state o); [done|lia|done..]).
  destruct op as [to|a|why| |ep]; cbn [own_step].
  - destruct (begin_transition o to) as [o' r] eqn:E.
    destruct (begin_spec _ _ _ _ _ Hok E) as (Hok' & Ht & Hf). cbn. split; [done|].
    eapply log_weaken; eauto. destruct (is_ok r); [left|right; auto].
    destruct (Ht eq_refl) as [H1 ->]. lia.
  - destruct (acknowledge_transition o a) as [o' r] eqn:E.
    destruct (ack_spec _ _ _ _ _ Hok E) as (Hok' & Hep & Ht & Hf). cbn. split; [done|].
    destruct (is_ok r); [|by rewrite Hf]. destruct (Ht eq_refl) as (from & E1 & E2).
    rewrite E1 in *. destruct Hlog as [Hsort Hlt]. rewrite E1 in Hlt. split.
    + constructor; [done|]. exact Hlt.
    + constructor.
      * rewrite E2, Hep. case_bool_decide; lia.
      * eapply list.Forall_impl; [exact Hlt|]. intros e Hlte. cbn in *. rewrite E2, Hep.
        case_bool_decide; lia.
  - destruct (on_failure o why) as [o' r] eqn:E.
    destruct (fail_spec _ _ _ _ _ Hok E) as (Hok' & Ht & Hf). cbn. split; [done|].
    eapply log_weaken; eauto. destruct (is_ok r); [left|right; by apply Hf].
    destruct (Ht eq_refl) as (H1 & _ & [->| ->]); lia.
  - destruct (recovery_spec local o Hok) as (H1 & H2 & _). cbn. split; [done|].
    eapply log_weaken; eauto. unfold begin_recovery in *.
    destruct (own_state o); cbn in *; auto; left; cbn; lia.
  - destruct (recovery_spec local o Hok) as (_ & _ & H3). destruct (H3 ep) as [H1 H2]. cbn.
    split; [done|]. eapply log_weaken; eauto. unfold complete_recovery in *.
    destruct (own_state o); cbn in *; auto. destruct (negb _); cbn in *; auto. left; cbn; lia.
Qed.

Lemma own_reach_ok local o log : own_reach local (o, log) -> own_ok local o /\ log_ok o log.
Proof.
  remember (o, log) as st eqn:E. intros H. revert o log E.
  induction H as [|[o' log'] op _ IH]; intros o log E.
  - simplify_eq. split; [|split; constructor]. unfold own_ok; cbn. unfold_int. lia || done.
  - destruct (IH _ _ eq_refl) as [Hok Hlog].
    destruct (own_step_ok local o' log' op Hok Hlog) as [H1 H2]. rewrite E in *. done.
Qed.
End Ownership.

(** ** Properties *)

(** The epoch guard: on every reachable state, an acknowledgement activates
    a target exactly when a transition to it is pending under that epoch, which
    is the last epoch issued; and over a whole run the acknowledged epochs
    strictly increase, so an acknowledgement that was delayed past a failure or
    a later handoff, or repeated, activates nothing. *)
Theorem acknowledgement_guard (local : PointerTarget) (o : PointerOwnership) (log : list Z)
    (a : TransitionAcknowledgement) :
  own_reach local (o, log) ->
  (is_ok (snd (acknowledge_transition o a)) = true <->
     exists from, own_state o = Transitioning from (ack_target a) (ack_epoch a))
  /\ (is_ok (snd (acknowledge_transition o a)) = true -> ack_epoch a = own_epoch o)
  /\ (is_ok (snd (acknowledge_transition o a)) = false -> fst (acknowledge_transition o a) = o)
  /\ StronglySorted (fun x y => y < x) log
  /\ (ack_epoch a ∈ log -> is_ok (snd (acknowledge_transition o a)) = false).
Proof.
  intros (Hok & Hsort & Hlog)%own_reach_ok. pose proof Hok as (_ & _ & Hs).
  destruct (acknowledge_transition o a) as [o' r] eqn:E.
  destruct (ack_spec _ _ _ _ _ Hok E) as (_ & _ & Ht & Hf). cbn [fst snd].
  assert (Hiff : is_ok r = true <->
     exists from, own_state o = Transitioning from (ack_target a) (ack_epoch a)).
  { split; [intros H; destruct (Ht H) as (from & ? & _); eauto|]. intros [from Hst].
    unfold acknowledge_transition in E. rewrite Hst, Z.eqb_refl, bool_decide_eq_true_2 in E by done.
    by injection E as <- <-. }
  split_and!; try done.
  - intros (from & Hst)%Hiff. rewrite Hst in Hs. by destruct Hs.
  - intros Hin. apply not_true_iff_false. intros (from & Hst)%Hiff.
    rewrite list.Forall_forall in Hlog. specialize (Hlog _ Hin). rewrite Hst in Hlog. lia.
Qed.

Definition home : PointerTarget := mkTarget [1] 1.
Definition away : PointerTarget := mkTarget [2] 7.
Definition own0 : PointerOwnership * list Z := (mkOwnership home (LocalActive home) 0, []).
Definition own_sample : PointerOwnership * list Z :=
  foldl own_step own0
    [OBegin away; OAck (mkAck away 1); OFail FTimeout; OCompleteRecovery 2; OBegin away].
Lemma own_sample_reach : own_reach home own_sample.
Proof. unfold own_sample. cbn [foldl]. do 5 apply own_reach_step. apply own_reach_init. Qed.

Lemma acknowledgement_guard_witness :
  let o := fst own_sample in
  (is_ok (snd (acknowledge_transition o (mkAck away 1))) = true <->
     exists from, own_state o = Transitioning from away 1)
  /\ (is_ok (snd (acknowledge_transition o (mkAck away 1))) = true -> 1 = own_epoch o)
  /\ (is_ok (snd (acknowledge_transition o (mkAck away 1))) = false ->
        fst (acknowledge_transition o (mkAck away 1)) = o)
  /\ StronglySorted (fun x y => y < x) (snd own_sample)
  /\ (1 ∈ snd own_sample -> is_ok (snd (acknowledge_transition o (mkAck away 1))) = false).
Proof.
  apply (acknowledgement_guard home (fst own_sample) (snd own_sample) (mkAck away 1)).
  apply own_sample_reach.
Defined.

(** A failure brings the pointer home: below the last epoch, every failure
    of a reachable state succeeds, makes the local target the owner, names the
    remote that was owner or, during a handoff, the remote about to be (only
    that one when both are remote), and refuses transitions and
    acknowledgements until a recovery under its own epoch completes; at the
    last epoch it is refused and nothing changes. *)
Theorem failure_recovers_locally (local : PointerTarget) (o : PointerOwnership) (log : list Z)
    (why : FailureReason) (to : PointerTarget) (a : TransitionAcknowledgement) (ep : Z) :
  own_reach local (o, log) ->
  let o' := fst (on_failure o why) in
  (own_epoch o < u64_max ->
     on_failure o why = (o', Ok (mkPlan why local (to_release o) (own_epoch o + 1)))
     /\ active_destination o' = local
     /\ (forall t e, own_state o = RemoteActive t e -> to_release o = Some t)
     /\ (forall f t e, own_state o = Transitioning f t e ->
           to_release o = if bool_decide (machine t = machine local)
                          then if bool_decide (machine f = machine local) then None else Some f
                          else Some t)
     /\ snd (begin_transition o' to) = Err NotReady
     /\ snd (acknowledge_transition o' a) = Err UnsolicitedAcknowledgement
     /\ (is_ok (snd (complete_recovery (fst (begin_recovery o')) ep)) = true ->
           ep = own_epoch o + 1)
     /\ (is_ok (snd (complete_recovery o' ep)) = true -> ep = own_epoch o + 1))
  /\ (own_epoch o = u64_max -> on_failure o why = (o, Err EpochExhausted)).
Proof.
  intros (Hok & _)%own_reach_ok o'. subst o'. pose proof Hok as (Hl & He & Hs). split.
  - intros Hlt. unfold on_failure, enter_failure.
    rewrite (proj2 (next_epoch_Ok o (own_epoch o + 1))) by (split; lia). cbn [fst].
    rewrite Hl. split_and!; try done; try (by destruct why).
    + intros t e Hst. rewrite Hst in Hs. unfold to_release. rewrite Hst, Hl.
      by rewrite bool_decide_eq_false_2 by apply Hs.
    + intros f t e Hst. unfold to_release. rewrite Hst, Hl. by do 2 case_bool_decide.
    + destruct why; cbn; destruct (negb (ep =? own_epoch o + 1)) eqn:E; cbn; try done;
        by bool_inv.
    + destruct why; cbn; try done; destruct (negb (ep =? own_epoch o + 1)) eqn:E; cbn; try done;
        by bool_inv.
  - intros Hmax. unfold on_failure, enter_failure, next_epoch, checked_add_u64. rewrite Hmax.
    reflexivity.
Qed.

Lemma failure_recovers_locally_witness :
  let o := fst own_sample in
  let o' := fst (on_failure o FDisconnected) in
  (own_epoch o < u64_max ->
     on_failure o FDisconnected
       = (o', Ok (mkPlan FDisconnected home (to_release o) (own_epoch o + 1)))
     /\ active_destination o' = home
     /\ (forall t e, own_state o = RemoteActive t e -> to_release o = Some t)
     /\ (forall f t e, own_state o = Transitioning f t e ->
           to_release o = if bool_decide (machine t = machine home)
                          then if bool_decide (machine f = machine home) then None else Some f
                          else Some t)
     /\ snd (begin_transition o' away) = Err NotReady
     /\ snd (acknowledge_transition o' (mkAck away 3)) = Err UnsolicitedAcknowledgement
     /\ (is_ok (snd (complete_recovery (fst (begin_recovery o')) 4)) = true ->
           4 = own_epoch o + 1)
     /\ (is_ok (snd (complete_recovery o' 4)) = true -> 4 = own_epoch o + 1))
  /\ (own_epoch o = u64_max -> on_failure o FDisconnected = (o, Err EpochExhausted)).
Proof.
  apply (failure_recovers_locally home (fst own_sample) (snd own_sample) FDisconnected away
           (mkAck away 3) 4). apply own_sample_reach.
Defined.
