(* ===== verification/Chord.v ===== *)
(** * Keyboard chords and the dimming chord (monhop-core/src/chord.rs, dimming.rs)

    A chord a receiver injects for a system gesture, planned against the keys
    the wire already holds.  A [KeyPlan] is the list of its steps; the bound of
    its array is [MAX_CHORD_STEPS], and the theorems show that no plan exceeds
    it, so [KeyPlan::push] never indexes out of range. *)

From stdpp Require Import gmap.
From S2P Require Import Prelude F64 Types HeldInput.

(** ** dimming.rs *)

Definition DIM_MIN : Z := 10.
Definition DIM_MAX : Z := 99.
(** [DimLevel::new]: a level is its percentage. *)
Definition dim_level (percent : Z) : option Z :=
  if (DIM_MIN <=? percent) && (percent <=? DIM_MAX) then Some percent else None.
(** [DimLevel::alpha]. *)
Definition dim_alpha (percent : Z) : f64 := f64_div (f64_of_Z percent) (f64_of_Z 100).

Record DimChord := mkDimChord {
  dim_control : bool; dim_alt : bool; dim_shift : bool; dim_command : bool; dim_key : HidUsage }.
Definition DIM_TOGGLE : DimChord := mkDimChord true true false false 0x27.

(** ** Chords *)

Definition CHORD_NONE : Z := 0.
Definition CHORD_CONTROL : Z := 1.
Definition CHORD_SHIFT : Z := 1 ≪ 1.
Definition CHORD_ALTERNATE : Z := 1 ≪ 2.
Definition CHORD_SYSTEM : Z := 1 ≪ 3.
Definition chord_union (a b : Z) : Z := Z.lor a b.
Definition chord_contains (a b : Z) : bool := Z.land a b =? b.
Definition chord_without (a b : Z) : Z := Z.ldiff a b.
Definition MODIFIER_KINDS : list Z := [CHORD_CONTROL; CHORD_SHIFT; CHORD_ALTERNATE; CHORD_SYSTEM].

Record Chord := mkChord { chord_modifiers : Z; chord_key : HidUsage }.
Record KeyStep := mkStep { step_usage : HidUsage; step_pressed : bool }.
Definition MAX_CHORD_STEPS : nat := 10.

(** The kinds that a list of held keys satisfies. *)
Definition kind_of_usage (usage : HidUsage) : Z :=
  nth (Z.to_nat ((usage - HID_LEFT_CONTROL) mod 4)) MODIFIER_KINDS 0.

Fixpoint held_kinds (held : list HidUsage) (key : HidUsage) (kinds : Z) : option Z :=
  match held with
  | [] => Some kinds
  | usage :: held =>
      if usage =? key then None
      else held_kinds held key
             (if usage_is_modifier usage then chord_union kinds (kind_of_usage usage) else kinds)
  end.

(** The indices of the modifiers the plan presses, in HID order. *)
Definition missing_indices (missing : Z) : list Z :=
  filter (fun i => chord_contains missing (nth (Z.to_nat i) MODIFIER_KINDS 0) = true)
    [0; 1; 2; 3].

Definition chord_plan (held : list HidUsage) (chord : Chord) : list KeyStep :=
  match held_kinds held (chord_key chord) CHORD_NONE with
  | None => []
  | Some kinds =>
      let missing := missing_indices (chord_without (chord_modifiers chord) kinds) in
      ((fun i => mkStep (HID_LEFT_CONTROL + i) true) <$> missing)
      ++ [mkStep (chord_key chord) true; mkStep (chord_key chord) false]
      ++ ((fun i => mkStep (HID_LEFT_CONTROL + i) false) <$> reverse missing)
  end.

Definition KEY_D : HidUsage := 0x07.
Definition KEY_N : HidUsage := 0x11.
Definition KEY_S : HidUsage := 0x16.
Definition KEY_TAB : HidUsage := 0x2B.
Definition KEY_SPACE : HidUsage := 0x2C.
Definition KEY_LEFT_BRACKET : HidUsage := 0x2F.
Definition KEY_RIGHT_BRACKET : HidUsage := 0x30.
Definition KEY_F11 : HidUsage := 0x44.
Definition KEY_RIGHT_ARROW : HidUsage := 0x4F.
Definition KEY_LEFT_ARROW : HidUsage := 0x50.
Definition KEY_DOWN_ARROW : HidUsage := 0x51.
Definition KEY_UP_ARROW : HidUsage := 0x52.
Definition KEY_LEFT_SYSTEM : HidUsage := 0xE3.

Definition windows_chord (g : SystemGesture) : option Chord :=
  let system := CHORD_SYSTEM in
  match g with
  | Overview | AppWindows => Some (mkChord system KEY_TAB)
  | DesktopPrevious => Some (mkChord (chord_union CHORD_CONTROL system) KEY_LEFT_ARROW)
  | DesktopNext => Some (mkChord (chord_union CHORD_CONTROL system) KEY_RIGHT_ARROW)
  | ShowDesktop => Some (mkChord system KEY_D)
  | Launcher => Some (mkChord CHORD_NONE KEY_LEFT_SYSTEM)
  | NotificationCenter => Some (mkChord system KEY_N)
  | Search => Some (mkChord system KEY_S)
  | SwitchAppNext => Some (mkChord CHORD_ALTERNATE KEY_TAB)
  | SwitchAppPrevious => Some (mkChord (chord_union CHORD_ALTERNATE CHORD_SHIFT) KEY_TAB)
  | NavigateBack | NavigateForward => None
  end.
Definition mac_chord (g : SystemGesture) : option Chord :=
  let control := CHORD_CONTROL in
  let command := CHORD_SYSTEM in
  match g with
  | Overview => Some (mkChord control KEY_UP_ARROW)
  | AppWindows => Some (mkChord control KEY_DOWN_ARROW)
  | DesktopPrevious => Some (mkChord control KEY_LEFT_ARROW)
  | DesktopNext => Some (mkChord control KEY_RIGHT_ARROW)
  | ShowDesktop => Some (mkChord CHORD_NONE KEY_F11)
  | NavigateBack => Some (mkChord command KEY_LEFT_BRACKET)
  | NavigateForward => Some (mkChord command KEY_RIGHT_BRACKET)
  | Search => Some (mkChord command KEY_SPACE)
  | SwitchAppNext => Some (mkChord command KEY_TAB)
  | SwitchAppPrevious => Some (mkChord (chord_union command CHORD_SHIFT) KEY_TAB)
  | Launcher | NotificationCenter => None
  end.
Definition system_chord (destination : Platform) (g : SystemGesture) : option Chord :=
  match destination with Windows => windows_chord g | MacOs => mac_chord g end.

(** ** What a destination holds after a plan *)

Definition apply_key (s : gset Z) (k : KeyStep) : gset Z :=
  if step_pressed k then {[step_usage k]} ∪ s else s ∖ {[step_usage k]}.
Definition apply_keys (s : gset Z) (plan : list KeyStep) : gset Z := foldl apply_key s plan.

(** A modifier kind is down when either of its keys is. *)
Definition kind_down (s : gset Z) (i : Z) : Prop :=
  HID_LEFT_CONTROL + i ∈ s \/ HID_RIGHT_CONTROL + i ∈ s.

Section Plans.

Lemma apply_keys_app s a b : apply_keys s (a ++ b) = apply_keys (apply_keys s a) b.
Proof. apply foldl_app. Qed.

Lemma apply_presses s (l : list Z) :
  apply_keys s ((fun u => mkStep u true) <$> l) = list_to_set l ∪ s.
Proof.
  revert s. induction l as [|u l IH]; intros s; cbn [fmap list_fmap]; [cbn; set_solver|].
  change (apply_keys s (mkStep u true :: ((fun u => mkStep u true) <$> l)))
    with (apply_keys ({[u]} ∪ s) ((fun u => mkStep u true) <$> l)).
  rewrite IH. set_solver.
Qed.

Lemma apply_releases s (l : list Z) :
  apply_keys s ((fun u => mkStep u false) <$> l) = s ∖ list_to_set l.
Proof.
  revert s. induction l as [|u l IH]; intros s; cbn [fmap list_fmap]; [cbn; set_solver|].
  change (apply_keys s (mkStep u false :: ((fun u => mkStep u false) <$> l)))
    with (apply_keys (s ∖ {[u]}) ((fun u => mkStep u false) <$> l)).
  rewrite IH. set_solver.
Qed.

Lemma held_kinds_None held key k : held_kinds held key k = None <-> key ∈ held.
Proof.
  revert k. induction held as [|u held IH]; intros k; cbn [held_kinds].
  { rewrite elem_of_nil. split; [done|tauto]. }
  rewrite elem_of_cons. destruct (u =? key) eqn:E; bool_inv; [naive_solver|].
  rewrite IH. split; [auto|]. intros [?|?]; [congruence|done].
Qed.

Lemma chord_contains_bit x i : 0 <= i -> chord_contains x (1 ≪ i) = Z.testbit x i.
Proof.
  intros Hi. unfold chord_contains. destruct (Z.testbit x i) eqn:E.
  - apply Z.eqb_eq, Z.bits_inj'. intros j Hj. rewrite Z.land_spec.
    destruct (decide (j = i)) as [->|Hn]; [by rewrite E|].
    rewrite Z.shiftl_spec by lia.
    replace (Z.testbit 1 (j - i)) with false; [by rewrite andb_false_r|].
    symmetry. destruct (Z.lt_ge_cases j i); [apply Z.testbit_neg_r; lia|].
    apply (Z.bits_above_log2 1); [lia|]. cbn. lia.
  - apply Z.eqb_neq. intros He. apply (f_equal (fun z => Z.testbit z i)) in He.
    rewrite Z.land_spec, E, Z.shiftl_spec, Z.sub_diag in He by lia. done.
Qed.

(** A kind of modifier is recorded exactly when one of its two keys is held. *)
Lemma land_kind_union a b i :
  0 <= i -> chord_contains (chord_union a b) (1 ≪ i)
            = chord_contains a (1 ≪ i) || chord_contains b (1 ≪ i).
Proof.
  intros Hi. rewrite !chord_contains_bit by done. apply Z.lor_spec.
Qed.

Lemma kind_of_usage_spec u i :
  usage_is_modifier u = true -> 0 <= i < 4 ->
  chord_contains (kind_of_usage u) (1 ≪ i) = true
  <-> u = HID_LEFT_CONTROL + i \/ u = HID_RIGHT_CONTROL + i.
Proof.
  unfold usage_is_modifier. intros Hu Hi. bool_inv.
  assert (Hc : u = 0xE0 \/ u = 0xE1 \/ u = 0xE2 \/ u = 0xE3 \/ u = 0xE4 \/ u = 0xE5 \/ u = 0xE6
               \/ u = 0xE7) by lia.
  assert (Hd : i = 0 \/ i = 1 \/ i = 2 \/ i = 3) by lia.
  unfold HID_LEFT_CONTROL, HID_RIGHT_CONTROL.
  destruct Hd as [->|[->|[->| ->]]];
    destruct Hc as [->|[->|[->|[->|[->|[->|[->| ->]]]]]]]; vm_compute; intuition congruence.
Qed.

Lemma held_kinds_spec held key k kinds i :
  held_kinds held key k = Some kinds -> 0 <= i < 4 ->
  chord_contains kinds (1 ≪ i) = true <->
  chord_contains k (1 ≪ i) = true \/ HID_LEFT_CONTROL + i ∈ held \/ HID_RIGHT_CONTROL + i ∈ held.
Proof.
  intros H Hi. revert k H. induction held as [|u held IH]; intros k H; cbn [held_kinds] in H.
  { simplify_eq. rewrite !elem_of_nil. tauto. }
  destruct (u =? key) eqn:E; [done|]. rewrite (IH _ H), !elem_of_cons.
  destruct (usage_is_modifier u) eqn:Em.
  - rewrite land_kind_union, orb_true_iff, kind_of_usage_spec by (lia || done).
    intuition congruence.
  - assert (HID_LEFT_CONTROL + i <> u /\ HID_RIGHT_CONTROL + i <> u).
    { unfold usage_is_modifier in Em. unfold HID_LEFT_CONTROL, HID_RIGHT_CONTROL.
      bool_inv. destruct Em; bool_inv; lia. }
    intuition congruence.
Qed.

Definition chord_usage (i : Z) : HidUsage := HID_LEFT_CONTROL + i.

(** The plan as presses, the tap, and the releases of the same keys. *)
Lemma chord_plan_shape held chord kinds :
  held_kinds held (chord_key chord) CHORD_NONE = Some kinds ->
  let missing :=
    chord_usage <$> missing_indices (chord_without (chord_modifiers chord) kinds) in
  chord_plan held chord =
    ((fun u => mkStep u true) <$> missing)
    ++ [mkStep (chord_key chord) true; mkStep (chord_key chord) false]
    ++ ((fun u => mkStep u false) <$> reverse missing).
Proof.
  intros H. unfold chord_plan. rewrite H. cbv zeta.
  rewrite <- fmap_reverse, <- !list_fmap_compose. done.
Qed.

Lemma missing_indices_elem missing i :
  i ∈ missing_indices missing <-> 0 <= i < 4 /\ chord_contains missing (1 ≪ i) = true.
Proof.
  unfold missing_indices. rewrite list_elem_of_filter.
  split.
  - intros [Hc Hi]. rewrite !elem_of_cons, elem_of_nil in Hi.
    destruct Hi as [->|[->|[->|[->|[]]]]]; split; try lia; exact Hc.
  - intros [Hi Hc]. assert (i = 0 \/ i = 1 \/ i = 2 \/ i = 3) as [->|[->|[->| ->]]] by lia;
      (split; [exact Hc|rewrite !elem_of_cons; tauto]).
Qed.

Lemma chord_without_contains a b i :
  0 <= i -> chord_contains (chord_without a b) (1 ≪ i)
            = chord_contains a (1 ≪ i) && negb (chord_contains b (1 ≪ i)).
Proof.
  intros Hi. rewrite !chord_contains_bit by done. apply Z.ldiff_spec.
Qed.

Lemma missing_not_held held chord kinds u :
  held_kinds held (chord_key chord) CHORD_NONE = Some kinds ->
  u ∈ chord_usage <$> missing_indices (chord_without (chord_modifiers chord) kinds) ->
  u ∉ held /\ exists i, 0 <= i < 4 /\ u = chord_usage i
    /\ chord_contains (chord_modifiers chord) (1 ≪ i) = true.
Proof.
  intros Hk (i & -> & [Hi Hc]%missing_indices_elem)%list_elem_of_fmap.
  rewrite chord_without_contains in Hc by lia. bool_inv.
  split; [|eauto]. intros Hin. apply not_true_iff_false in H0. apply H0.
  rewrite (held_kinds_spec _ _ _ _ _ Hk Hi). auto.
Qed.
End Plans.

(** ** Properties *)

(** A chord never leaves a modifier stuck: its plan fits the ten steps of a
    [KeyPlan]; it is empty exactly when its key is already held; otherwise it
    presses and releases no key that is held, has every modifier of the chord
    down when it taps the key, and leaves the destination holding what it held
    before. *)
Theorem chord_plan_net_effect (held : list HidUsage) (chord : Chord) :
  (length (chord_plan held chord) <= MAX_CHORD_STEPS)%nat
  /\ (chord_plan held chord = [] <-> chord_key chord ∈ held)
  /\ (forall k, k ∈ chord_plan held chord -> step_usage k ∉ held)
  /\ apply_keys (list_to_set held) (chord_plan held chord) = list_to_set held
  /\ (chord_key chord ∉ held ->
      exists before after, chord_plan held chord
        = before ++ [mkStep (chord_key chord) true; mkStep (chord_key chord) false] ++ after
      /\ forall i, 0 <= i < 4 -> chord_contains (chord_modifiers chord) (1 ≪ i) = true ->
           kind_down (apply_keys (list_to_set held) before) i).
Proof.
  destruct (held_kinds held (chord_key chord) CHORD_NONE) as [kinds|] eqn:Hk.
  2:{ pose proof (proj1 (held_kinds_None _ _ _) Hk) as Hin.
      assert (Hp : chord_plan held chord = []) by (unfold chord_plan; by rewrite Hk).
      rewrite Hp. split_and!; try done; [cbn; lia|by intros k ?%not_elem_of_nil]. }
  assert (Hout : chord_key chord ∉ held) by (rewrite <- (held_kinds_None held _ CHORD_NONE), Hk; done).
  rewrite (chord_plan_shape _ _ _ Hk). cbv zeta.
  set (ks := chord_usage <$> missing_indices (chord_without (chord_modifiers chord) kinds)).
  assert (Hks : forall u, u ∈ ks -> u ∉ held) by (intros u Hu; by eapply missing_not_held in Hu as [? _]).
  split_and!.
  - rewrite !length_app, !length_fmap, length_reverse. unfold ks. rewrite length_fmap.
    unfold missing_indices, MAX_CHORD_STEPS.
    pose proof (length_filter (fun i => chord_contains (chord_without (chord_modifiers chord) kinds)
      (nth (Z.to_nat i) MODIFIER_KINDS 0) = true) [0; 1; 2; 3]). cbn [length] in *. lia.
  - split; [|done]. intros H. by apply app_eq_nil in H as [_ H].
  - intros k Hin. rewrite !elem_of_app, !elem_of_cons, elem_of_nil, !list_elem_of_fmap in Hin.
    destruct Hin as [(u & -> & Hu)|[[->|[->|[]]]|(u & -> & Hu)]]; cbn [step_usage].
    + by apply Hks.
    + done.
    + done.
    + apply Hks. by rewrite elem_of_reverse in Hu.
  - rewrite !apply_keys_app, apply_presses, apply_releases. cbn [apply_keys foldl].
    unfold apply_key; cbn [step_pressed step_usage]. apply set_eq. intros x.
    rewrite !elem_of_difference, !elem_of_union, !elem_of_list_to_set, elem_of_reverse,
      elem_of_singleton.
    destruct (decide (x ∈ held)) as [Hx|Hx]; [|naive_solver].
    assert (x ∉ ks) by (intros Hu; by apply Hks in Hu). assert (x <> chord_key chord) by congruence.
    tauto.
  - intros _. eexists _, _. split; [reflexivity|]. intros i Hi Hc. rewrite apply_presses.
    unfold kind_down. rewrite !elem_of_union, !elem_of_list_to_set.
    destruct (chord_contains kinds (1 ≪ i)) eqn:E.
    + apply (held_kinds_spec _ _ _ _ _ Hk Hi) in E as [E|[E|E]]; auto.
      rewrite chord_contains_bit in E by lia. by rewrite Z.bits_0 in E.
    + left. left. unfold ks. apply list_elem_of_fmap_2, missing_indices_elem.
      rewrite chord_without_contains, Hc, E by lia. done.
Qed.
