(* ===== verification/Translator.v ===== *)
(** * Shortcuts typed across platforms (monhop-core/src/control_as_command.rs)

    The receiver's [Translator] maps each physical key that is down to the key
    the destination holds for it, and moves the modifiers that follow the next
    key.  The array [held] is a list of 256 entries.  The theorems replay the
    plans on a destination: it always holds exactly the targets of the keys
    that are down, and every plan fits a [KeyPlan]'s ten steps. *)

From stdpp Require Import gmap.
From S2P Require Import Prelude Types HeldInput Chord.

Definition HID_BACKSPACE : HidUsage := 0x2A.
Definition HID_TAB : HidUsage := 0x2B.
Definition HID_DELETE_FORWARD : HidUsage := 0x4C.
Definition HID_RIGHT_ARROW : HidUsage := 0x4F.
Definition HID_LEFT_ARROW : HidUsage := 0x50.

Inductive Direction := WindowsOnMac | MacOnWindows.
#[global] Instance Direction_eq_dec : EqDecision Direction.
Proof. solve_decision. Defined.

(** [Direction::between]. *)
Definition direction_between (keyboard destination : option Platform) : option Direction :=
  match keyboard, destination with
  | Some Windows, Some MacOs => Some WindowsOnMac
  | Some MacOs, Some Windows => Some MacOnWindows
  | _, _ => None
  end.

Definition presses_first (d : Direction) : bool :=
  match d with MacOnWindows => true | WindowsOnMac => false end.

Record Held := mkHeldKey { target : HidUsage; follows : bool; switching : bool }.
#[global] Instance Held_eq_dec : EqDecision Held.
Proof. solve_decision. Defined.
Definition held_fixed (t : HidUsage) : Held := mkHeldKey t false false.

Record Kinds := mkKinds { k_control : bool; k_shift : bool; k_alt : bool; k_system : bool }.

(** [Translator]: its array. *)
Abbreviation Translator := (list (option Held)).
Definition default_translator : Translator := replicate 256 None.

Definition t_index (tr : Translator) (usage : HidUsage) : option nat :=
  if (Z.to_nat usage <? length tr)%nat then Some (Z.to_nat usage) else None.

Definition entry (tr : Translator) (i : nat) : option Held := default None (tr !! i).

Definition targets_key (t : HidUsage) (o : option Held) : bool :=
  match o with Some h => target h =? t | None => false end.
(** [Translator::holds]. *)
Definition t_holds (tr : Translator) (t : HidUsage) : bool := existsb (targets_key t) tr.

Definition modifier_usages : list HidUsage :=
  [0xE0; 0xE1; 0xE2; 0xE3; 0xE4; 0xE5; 0xE6; 0xE7].

(** [Translator::kinds]. *)
Definition add_kind (tr : Translator) (k : Kinds) (usage : HidUsage) : Kinds :=
  match entry tr (Z.to_nat usage), semantic_modifier usage with
  | Some _, Some m =>
      match mod_kind m with
      | Control => mkKinds true (k_shift k) (k_alt k) (k_system k)
      | Shift => mkKinds (k_control k) true (k_alt k) (k_system k)
      | Alternate => mkKinds (k_control k) (k_shift k) true (k_system k)
      | System => mkKinds (k_control k) (k_shift k) (k_alt k) true
      end
  | _, _ => k
  end.
Definition t_kinds (tr : Translator) : Kinds :=
  foldl (add_kind tr) (mkKinds false false false false) modifier_usages.

Definition dims (key : HidUsage) (k : Kinds) : bool :=
  (key =? dim_key DIM_TOGGLE) && Bool.eqb (k_control k) (dim_control DIM_TOGGLE)
  && Bool.eqb (k_alt k) (dim_alt DIM_TOGGLE) && Bool.eqb (k_shift k) (dim_shift DIM_TOGGLE)
  && Bool.eqb (k_system k) (dim_command DIM_TOGGLE).

(** [first]: what a modifier pressed while translating holds. *)
Definition first_target (d : Direction) (m : SemanticModifier) : Held :=
  let kind := match mod_kind m with Control => System | System => Control | other => other end in
  let follow := match d, mod_kind m with
                | WindowsOnMac, (Control | Alternate) => true
                | WindowsOnMac, _ => false
                | MacOnWindows, Shift => false
                | MacOnWindows, _ => true
                end in
  mkHeldKey (semantic_usage (mkSemantic (mod_side m) kind)) follow false.

(** The match of [wanted] on the conditions it computes. *)
Definition wanted_kind (d : Direction) (kind : SemanticModifierKind)
    (switches control_stays word : bool) (k : Kinds) : SemanticModifierKind * bool :=
  match d, kind with
  | WindowsOnMac, Control =>
      if control_stays then (Control, false)
      else if word && negb (k_alt k) && negb (k_system k) then (Alternate, false)
      else (System, false)
  | WindowsOnMac, Alternate => if switches then (System, true) else (Alternate, false)
  | MacOnWindows, System => if switches then (Alternate, true) else (Control, false)
  | MacOnWindows, Control => if control_stays then (Control, false) else (System, false)
  | MacOnWindows, Alternate =>
      if switches then (Alternate, true)
      else if word && negb (k_control k) && negb (k_system k) then (Control, false)
      else (Alternate, false)
  | _, kind => (kind, false)
  end.

Definition is_tab (key : option HidUsage) : bool := bool_decide (key = Some HID_TAB).
Definition is_word (key : option HidUsage) : bool :=
  bool_decide (key ∈ [Some HID_LEFT_ARROW; Some HID_RIGHT_ARROW; Some HID_BACKSPACE;
                      Some HID_DELETE_FORWARD]).
Definition stays (key : option HidUsage) (k : Kinds) : bool :=
  is_tab key || match key with Some key => dims key k | None => false end.

Definition wanted (d : Direction) (m : SemanticModifier) (h : Held) (key : option HidUsage)
    (k : Kinds) : Held :=
  let '(kind, sw) :=
    wanted_kind d (mod_kind m) (switching h || is_tab key) (stays key k) (is_word key) k in
  mkHeldKey (semantic_usage (mkSemantic (mod_side m) kind)) (follows h) sw.

(** One turn of [Translator::follow]'s loop. *)
Definition follow_step (d : Direction) (key : option HidUsage) (k : Kinds)
    (st : Translator * list KeyStep) (usage : HidUsage) : Translator * list KeyStep :=
  let '(tr, plan) := st in
  let index := Z.to_nat usage in
  match entry tr index, semantic_modifier usage with
  | Some h, Some m =>
      if negb (follows h) then (tr, plan)
      else
        let next := wanted d m h key k in
        let moves := negb (target next =? target h) in
        let press := (mkStep (target next) true, moves && negb (t_holds tr (target next))) in
        let tr' := <[index := Some next]> tr in
        let release := (mkStep (target h) false, moves && negb (t_holds tr' (target h))) in
        let steps := if presses_first d then [press; release] else [release; press] in
        (tr', plan ++ (fst <$> filter (fun s => snd s = true) steps))
  | _, _ => (tr, plan)
  end.

Definition follow (d : Direction) (key : option HidUsage) (st : Translator * list KeyStep)
  : Translator * list KeyStep :=
  foldl (follow_step d key (t_kinds (fst st))) st modifier_usages.

(** [Translator::key]. *)
Definition t_key (tr : Translator) (usage : HidUsage) (pressed : bool)
    (translate : option Direction) : Translator * list KeyStep :=
  match t_index tr usage with
  | None => (tr, [mkStep usage pressed])
  | Some index =>
      if negb pressed then
        let t := match entry tr index with Some h => target h | None => usage end in
        let tr' := <[index := None]> tr in
        (tr', if negb (t_holds tr' t) then [mkStep t false] else [])
      else
        let modifier := semantic_modifier usage in
        let '(tr, plan) :=
          match translate, modifier with
          | Some d, None => follow d (Some usage) (tr, [])
          | _, _ => (tr, [])
          end in
        match entry tr index with
        | Some h => (tr, plan ++ [mkStep (target h) true])
        | None =>
            let h := match modifier, translate with
                     | Some m, Some d => first_target d m
                     | _, _ => held_fixed usage
                     end in
            (<[index := Some h]> tr,
             plan ++ (if negb (t_holds tr (target h)) then [mkStep (target h) true] else []))
        end
  end.

(** [Translator::click] and [Translator::clear]. *)
Definition t_click (tr : Translator) (translate : option Direction)
  : Translator * list KeyStep :=
  match translate with Some d => follow d None (tr, []) | None => (tr, []) end.
Definition t_clear (tr : Translator) : Translator := replicate 256 None.

(** ** The destination's view *)

Definition t_targets (tr : Translator) : gset Z :=
  list_to_set (omap (fun o => target <$> o) tr).

Section View.

Lemma elem_of_targets tr t :
  t ∈ t_targets tr <-> exists i h, tr !! i = Some (Some h) /\ target h = t.
Proof.
  unfold t_targets. rewrite elem_of_list_to_set, list_elem_of_omap. split.
  - intros (o & [i Hi]%list_elem_of_lookup & Ho). destruct o as [h|]; [|done].
    cbn in Ho. simplify_eq. eauto.
  - intros (i & h & Hi & <-). exists (Some h). split; [|done]. by eapply list_elem_of_lookup_2.
Qed.

Lemma t_holds_spec tr t : t_holds tr t = true <-> t ∈ t_targets tr.
Proof.
  unfold t_holds. rewrite existsb_exists, elem_of_targets. setoid_rewrite <- list_elem_of_In.
  split.
  - intros (o & [i Hi]%list_elem_of_lookup & Ho). destruct o as [h|]; [|done].
    cbn in Ho. bool_inv. eauto.
  - intros (i & h & Hi & <-). exists (Some h). split; [by eapply list_elem_of_lookup_2|].
    cbn. apply Z.eqb_refl.
Qed.

(** The targets of the keys other than [i]. *)
Definition others (tr : Translator) (i : nat) : gset Z := t_targets (<[i := None]> tr).

Lemma targets_entry tr i o :
  (i < length tr)%nat ->
  t_targets (<[i := o]> tr) = (match o with Some h => {[target h]} | None => ∅ end) ∪ others tr i.
Proof.
  intros Hi. unfold others. apply set_eq. intros t.
  assert (Hs : forall o, t ∈ t_targets (<[i := o]> tr) <->
    (exists h, o = Some h /\ target h = t)
    \/ exists j h, j <> i /\ tr !! j = Some (Some h) /\ target h = t).
  { intros o'. rewrite elem_of_targets. split.
    - intros (j & h & Hj & <-). destruct (decide (j = i)) as [->|Hn].
      + rewrite list_lookup_insert_eq in Hj by done. simplify_eq. left. eauto.
      + rewrite list_lookup_insert_ne in Hj by done. right. eauto.
    - intros [(h & -> & <-)|(j & h & Hn & Hj & <-)].
      + exists i, h. by rewrite list_lookup_insert_eq.
      + exists j, h. by rewrite list_lookup_insert_ne. }
  rewrite elem_of_union, !Hs. destruct o; [rewrite elem_of_singleton|rewrite elem_of_empty];
    naive_solver.
Qed.

Lemma entry_insert tr i : tr !! i = Some (entry tr i) -> <[i := entry tr i]> tr = tr.
Proof. intros H. by apply list_insert_id. Qed.

Lemma entry_lookup tr i : (i < length tr)%nat -> tr !! i = Some (entry tr i).
Proof.
  intros Hi. unfold entry. destruct (tr !! i) eqn:E; [done|].
  apply lookup_ge_None in E. lia.
Qed.

Lemma targets_now tr i :
  (i < length tr)%nat ->
  t_targets tr = (match entry tr i with Some h => {[target h]} | None => ∅ end) ∪ others tr i.
Proof.
  intros Hi. rewrite <- targets_entry by done. by rewrite entry_insert by by apply entry_lookup.
Qed.

(** Moving one target: the steps needed, in either order. *)
Lemma retarget_steps (O : gset Z) (old new : Z) (first : bool) :
  old <> new ->
  let S := {[old]} ∪ O in
  let S' := {[new]} ∪ O in
  let press := (mkStep new true, negb (bool_decide (new ∈ S))) in
  let release := (mkStep old false, negb (bool_decide (old ∈ S'))) in
  apply_keys S (fst <$> filter (fun s => snd s = true)
                  (if first then [press; release] else [release; press])) = S'.
Proof.
  intros Hne S S' press release. subst S S' press release.
  destruct (decide (new ∈ O)) as [Hn|Hn], (decide (old ∈ O)) as [Ho|Ho];
    repeat first [rewrite bool_decide_eq_true_2 by set_solver
                 |rewrite bool_decide_eq_false_2 by set_solver];
    destruct first; unfold apply_keys; cbn; unfold apply_key; cbn; set_solver.
Qed.

Lemma t_holds_bool tr t : t_holds tr t = bool_decide (t ∈ t_targets tr).
Proof.
  destruct (bool_decide (t ∈ t_targets tr)) eqn:E; bool_inv; [by apply t_holds_spec|].
  apply not_true_iff_false. by rewrite t_holds_spec.
Qed.

Lemma follow_step_sync d key k tr plan usage S :
  length tr = 256%nat -> 0 <= usage < 256 -> apply_keys S plan = t_targets tr ->
  let '(tr', plan') := follow_step d key k (tr, plan) usage in
  length tr' = 256%nat /\ apply_keys S plan' = t_targets tr'
  /\ forall i, entry tr' i = None <-> entry tr i = None.
Proof.
  intros Hl Hu HS. unfold follow_step.
  destruct (entry tr (Z.to_nat usage)) as [h|] eqn:E; [|done].
  destruct (semantic_modifier usage) as [m|]; [|done].
  destruct (negb (follows h)); [done|].
  set (nx := wanted d m h key k). split_and!; [by rewrite length_insert| |].
  - assert (Hi : (Z.to_nat usage < length tr)%nat) by lia.
    rewrite apply_keys_app, HS, !t_holds_bool, targets_entry by done.
    rewrite (targets_now tr (Z.to_nat usage)), E by done.
    destruct (target nx =? target h) eqn:Et; bool_inv; cbn [negb andb].
    + rewrite Et. destruct (presses_first d); reflexivity.
    + apply retarget_steps. congruence.
  - intros i. unfold entry in *. destruct (decide (i = Z.to_nat usage)) as [->|Hn].
    + rewrite list_lookup_insert_eq by lia. cbn. rewrite E. done.
    + by rewrite list_lookup_insert_ne.
Qed.

Lemma follow_sync d key tr plan S :
  length tr = 256%nat -> apply_keys S plan = t_targets tr ->
  let '(tr', plan') := follow d key (tr, plan) in
  length tr' = 256%nat /\ apply_keys S plan' = t_targets tr'
  /\ forall i, entry tr' i = None <-> entry tr i = None.
Proof.
  intros Hl HS. unfold follow. cbn [fst]. generalize (t_kinds tr). intros k.
  assert (Hu : Forall (fun u => 0 <= u < 256) modifier_usages) by (repeat constructor; lia).
  revert tr plan Hl HS. induction Hu as [|u us Hu _ IH]; intros tr plan Hl HS; [done|].
  cbn [foldl]. pose proof (follow_step_sync d key k tr plan u S Hl Hu HS) as Hstep.
  destruct (follow_step d key k (tr, plan) u) as [tr1 plan1].
  destruct Hstep as (Hl1 & HS1 & He1). specialize (IH tr1 plan1 Hl1 HS1).
  destruct (foldl _ _ _) as [tr2 plan2]. destruct IH as (? & ? & He). split_and!; try done.
  intros i. rewrite He. apply He1.
Qed.

(** The physical keys down after an event. *)
Definition down_after (down : gset Z) (usage : HidUsage) (pressed : bool) : gset Z :=
  if pressed then {[usage]} ∪ down else down ∖ {[usage]}.

(** [tr] has an entry for exactly the physical keys that are down. *)
Definition tracks (tr : Translator) (down : gset Z) : Prop :=
  length tr = 256%nat /\ forall u, 0 <= u < 256 -> entry tr (Z.to_nat u) <> None <-> u ∈ down.

Lemma tracks_insert tr down u o :
  tracks tr down -> 0 <= u < 256 ->
  tracks (<[Z.to_nat u := o]> tr)
    (match o with Some _ => {[u]} ∪ down | None => down ∖ {[u]} end).
Proof.
  intros [Hl Hd] Hu. split; [by rewrite length_insert|]. intros v Hv.
  unfold entry. destruct (decide (v = u)) as [->|Hn].
  - rewrite list_lookup_insert_eq by lia. destruct o; set_solver.
  - rewrite list_lookup_insert_ne by lia. fold (entry tr (Z.to_nat v)). rewrite (Hd v Hv).
    destruct o; set_solver.
Qed.

Lemma t_press_sync tr plan S down usage (h : Held) :
  tracks tr down -> 0 <= usage < 256 -> apply_keys S plan = t_targets tr ->
  entry tr (Z.to_nat usage) = None ->
  tracks (<[Z.to_nat usage := Some h]> tr) ({[usage]} ∪ down)
  /\ apply_keys S (plan ++ (if negb (t_holds tr (target h)) then [mkStep (target h) true] else []))
     = t_targets (<[Z.to_nat usage := Some h]> tr).
Proof.
  intros Ht Hu HS He. split; [by apply (tracks_insert tr down usage (Some h))|].
  destruct Ht as [Hl _].
  rewrite apply_keys_app, HS, targets_entry, t_holds_bool by lia.
  rewrite (targets_now tr (Z.to_nat usage)), He by lia. rewrite (left_id_L ∅ (∪)).
  case_bool_decide; cbn; unfold apply_key; cbn; set_solver.
Qed.

Lemma t_key_sync tr down usage pressed translate :
  tracks tr down -> 0 <= usage < 256 ->
  let '(tr', plan) := t_key tr usage pressed translate in
  tracks tr' (down_after down usage pressed)
  /\ apply_keys (t_targets tr) plan = t_targets tr'.
Proof.
  intros Ht Hu. pose proof Ht as [Hl Hd]. unfold t_key, t_index. rewrite Hl.
  rewrite (proj2 (Nat.ltb_lt _ _)) by lia. destruct pressed; cbn [negb].
  - assert (Hf : let '(tr1, plan1) :=
        match translate, semantic_modifier usage with
        | Some d, None => follow d (Some usage) (tr, [])
        | _, _ => (tr, [])
        end in
      tracks tr1 down /\ apply_keys (t_targets tr) plan1 = t_targets tr1).
    { destruct translate as [d|]; [|done]. destruct (semantic_modifier usage); [done|].
      pose proof (follow_sync d (Some usage) tr [] (t_targets tr) Hl eq_refl) as Hf.
      destruct (follow d (Some usage) (tr, [])) as [tr1 plan1]. destruct Hf as (H1 & H2 & H3).
      split; [|done]. split; [done|]. intros u Hu'. by rewrite <- Hd, H3. }
    destruct (match translate, semantic_modifier usage with
              | Some d, None => follow d (Some usage) (tr, [])
              | _, _ => (tr, [])
              end) as [tr1 plan1].
    destruct Hf as [Ht1 HS1]. cbn [down_after].
    destruct (entry tr1 (Z.to_nat usage)) as [h|] eqn:E.
    + destruct Ht1 as [Hl1 Hd1]. assert (usage ∈ down) by (apply Hd1; [done|congruence]).
      replace ({[usage]} ∪ down) with down by set_solver. split; [done|].
      rewrite apply_keys_app, HS1. cbn. unfold apply_key; cbn.
      assert (target h ∈ t_targets tr1); [|set_solver].
      apply elem_of_targets. exists (Z.to_nat usage), h. rewrite entry_lookup by lia. by rewrite E.
    + by apply t_press_sync.
  - cbn [down_after]. split; [by apply (tracks_insert tr down usage None)|].
    rewrite t_holds_bool, targets_entry, (targets_now tr (Z.to_nat usage)) by lia.
    rewrite (left_id_L ∅ (∪)).
    destruct (entry tr (Z.to_nat usage)) as [h|] eqn:E.
    + case_bool_decide; cbn; unfold apply_key; cbn; set_solver.
    + rewrite (left_id_L ∅ (∪)). case_bool_decide; cbn; unfold apply_key; cbn; set_solver.
Qed.
End View.

(** ** Runs of a receiver

    [dest] is what the destination holds, [down] the physical keys that are
    down; a clear follows a release of every key at the destination. *)

Inductive TOp :=
| TKey (usage : HidUsage) (pressed : bool) (translate : option Direction)
| TClick (translate : option Direction)
| TClear.

Definition t_step (st : Translator * gset Z * gset Z) (op : TOp)
  : Translator * gset Z * gset Z * list KeyStep :=
  let '(tr, dest, down) := st in
  match op with
  | TKey usage pressed translate =>
      let '(tr', plan) := t_key tr usage pressed translate in
      (tr', apply_keys dest plan, down_after down usage pressed, plan)
  | TClick translate =>
      let '(tr', plan) := t_click tr translate in
      (tr', apply_keys dest plan, down, plan)
  | TClear => (t_clear tr, ∅, ∅, [])
  end.

(** Usages of the wire are below 256; a receiver translates in one direction or
    not at all, its own platform's ([direction_between]). *)
Definition t_op_ok (d : Direction) (op : TOp) : Prop :=
  match op with
  | TKey usage _ translate => 0 <= usage < 256 /\ (translate = None \/ translate = Some d)
  | TClick translate => translate = None \/ translate = Some d
  | TClear => True
  end.

Inductive t_reach (d : Direction) : Translator * gset Z * gset Z -> Prop :=
| t_reach_init : t_reach d (default_translator, ∅, ∅)
| t_reach_step st op tr dest down plan :
    t_reach d st -> t_op_ok d op -> t_step st op = (tr, dest, down, plan) ->
    t_reach d (tr, dest, down).

Section Runs.

Definition t_ok (st : Translator * gset Z * gset Z) : Prop :=
  let '(tr, dest, down) := st in tracks tr down /\ dest = t_targets tr.

Lemma default_ok : t_ok (default_translator, ∅, ∅).
Proof.
  split; [split; [reflexivity|]|reflexivity]. intros u Hu. unfold entry, default_translator.
  rewrite lookup_replicate_2 by lia. set_solver.
Qed.

Lemma t_step_ok st op tr dest down plan d :
  t_ok st -> t_op_ok d op -> t_step st op = (tr, dest, down, plan) -> t_ok (tr, dest, down).
Proof.
  destruct st as [[tr0 dest0] down0]. intros [Ht ->] Hop H.
  destruct op as [u p t|t|]; cbn [t_step t_op_ok] in *.
  - destruct Hop as [Hu _]. pose proof (t_key_sync tr0 down0 u p t Ht Hu) as Hk.
    destruct (t_key tr0 u p t) as [tr1 plan1]. destruct Hk. simplify_eq. done.
  - unfold t_click in H. destruct t as [d'|]; [|simplify_eq; done].
    destruct Ht as [Hl Hd].
    pose proof (follow_sync d' None tr0 [] (t_targets tr0) Hl eq_refl) as Hf.
    destruct (follow d' None (tr0, [])) as [tr1 plan1]. destruct Hf as (H1 & H2 & H3).
    simplify_eq. split; [|done]. split; [done|]. intros u Hu. by rewrite <- Hd, H3.
  - simplify_eq. apply default_ok.
Qed.

Lemma t_reach_ok d st : t_reach d st -> t_ok st.
Proof. induction 1; eauto using t_step_ok. apply default_ok. Qed.
End Runs.

(** ** Plans fit

    What an entry can be when a receiver only ever translates in direction [d],
    and the follow loop of one side (its four keys) on those entries alone. *)

Section Fits.

Definition follow_kinds (d : Direction) (k : SemanticModifierKind) : list SemanticModifierKind :=
  match d, k with
  | WindowsOnMac, Control => [Control; Alternate; System]
  | WindowsOnMac, Alternate => [Alternate; System]
  | MacOnWindows, Control => [Control; System]
  | MacOnWindows, System => [Control; Alternate]
  | MacOnWindows, Alternate => [Alternate; Control]
  | _, _ => []
  end.

Definition entry_options (d : Direction) (m : SemanticModifier) : list (option Held) :=
  None :: Some (held_fixed (semantic_usage m))
  :: (if follows (first_target d m)
      then k ← follow_kinds d (mod_kind m); sw ← [false; true];
           [Some (mkHeldKey (semantic_usage (mkSemantic (mod_side m) k)) true sw)]
      else [Some (first_target d m)]).

Definition side_base (sd : ModifierSide) : Z := match sd with LeftSide => 0xE0 | RightSide => 0xE4 end.
Definition all_kinds : list SemanticModifierKind := [Control; Shift; Alternate; System].
Definition kind_index (k : SemanticModifierKind) : nat :=
  match k with Control => 0 | Shift => 1 | Alternate => 2 | System => 3 end.

(** One turn of the loop on a side's entries [s]: the number of steps it adds. *)
Definition side_step (d : Direction) (sd : ModifierSide) (tab st word : bool) (k : Kinds)
    (acc : list (option Held) * nat) (kind : SemanticModifierKind) : list (option Held) * nat :=
  let '(s, n) := acc in
  match entry s (kind_index kind) with
  | Some h =>
      if negb (follows h) then (s, n)
      else
        let '(kind', sw) := wanted_kind d kind (switching h || tab) st word k in
        let next := mkHeldKey (semantic_usage (mkSemantic sd kind')) (follows h) sw in
        let moves := negb (target next =? target h) in
        let s' := <[kind_index kind := Some next]> s in
        (s', n + Nat.b2n (moves && negb (t_holds s (target next)))
               + Nat.b2n (moves && negb (t_holds s' (target h))))%nat
  | None => (s, n)
  end.

Definition side_follow (d : Direction) (sd : ModifierSide) (tab st word : bool) (k : Kinds)
    (s : list (option Held)) : nat :=
  snd (foldl (side_step d sd tab st word k) (s, 0%nat) all_kinds).

(** Every state of a side, by enumeration: at most four steps. *)
Definition side_states (d : Direction) (sd : ModifierSide) : list (list (option Held)) :=
  a ← entry_options d (mkSemantic sd Control);
  b ← entry_options d (mkSemantic sd Shift);
  c ← entry_options d (mkSemantic sd Alternate);
  y ← entry_options d (mkSemantic sd System);
  [[a; b; c; y]].

Definition bools : list bool := [true; false].
Lemma sides_fit :
  forallb (fun d => forallb (fun sd => forallb (fun tab => forallb (fun st => forallb (fun word =>
  forallb (fun c => forallb (fun sh => forallb (fun a => forallb (fun y =>
  forallb (fun s => (side_follow d sd tab st word (mkKinds c sh a y) s <=? 4)%nat)
    (side_states d sd)) bools) bools) bools) bools) bools) bools) bools) [LeftSide; RightSide])
  [WindowsOnMac; MacOnWindows] = true.
Proof. vm_compute. reflexivity. Qed.

Lemma forallb_use {A} (f : A -> bool) l x : forallb f l = true -> x ∈ l -> f x = true.
Proof. rewrite forallb_forall. intros H Hx. apply H. by apply list_elem_of_In. Qed.

Lemma in_bools b : b ∈ bools.
Proof. destruct b; [left|right; left]. Qed.

Lemma in_directions d : d ∈ [WindowsOnMac; MacOnWindows].
Proof. destruct d; [left|right; left]. Qed.
Lemma in_sides sd : sd ∈ [LeftSide; RightSide].
Proof. destruct sd; [left|right; left]. Qed.

Lemma side_follow_fits d sd tab st word k s :
  s ∈ side_states d sd -> (side_follow d sd tab st word k s <= 4)%nat.
Proof.
  intros Hs. destruct k as [c sh a y].
  pose proof (forallb_use _ _ d sides_fit (in_directions d)) as H.
  pose proof (forallb_use _ _ sd H (in_sides sd)) as H0.
  pose proof (forallb_use _ _ tab H0 (in_bools tab)) as H1.
  pose proof (forallb_use _ _ st H1 (in_bools st)) as H2.
  pose proof (forallb_use _ _ word H2 (in_bools word)) as H3.
  pose proof (forallb_use _ _ c H3 (in_bools c)) as H4.
  pose proof (forallb_use _ _ sh H4 (in_bools sh)) as H4'.
  pose proof (forallb_use _ _ a H4' (in_bools a)) as H5.
  pose proof (forallb_use _ _ y H5 (in_bools y)) as H6.
  pose proof (forallb_use _ _ s H6 Hs) as H7.
  apply Nat.leb_le. exact H7.
Qed.

(** What the entries of a receiver that only translates in direction [d] are. *)
Definition entries_ok (d : Direction) (tr : Translator) : Prop :=
  length tr = 256%nat
  /\ forall u, 0 <= u < 256 ->
     match semantic_modifier u with
     | Some m => entry tr (Z.to_nat u) ∈ entry_options d m
     | None => entry tr (Z.to_nat u) = None \/ entry tr (Z.to_nat u) = Some (held_fixed u)
     end.

Lemma semantic_usage_range m :
  side_base (mod_side m) <= semantic_usage m < side_base (mod_side m) + 4.
Proof. destruct m as [[] []]; vm_compute; intuition congruence. Qed.

Lemma semantic_modifier_usage m : semantic_modifier (semantic_usage m) = Some m.
Proof. by destruct m as [[] []]. Qed.

Lemma semantic_modifier_inv u m : semantic_modifier u = Some m -> u = semantic_usage m.
Proof. unfold semantic_modifier. intros. repeat case_match; by simplify_eq. Qed.

(** An entry of one side's modifier targets a key of that side. *)
Lemma entry_options_side d m h :
  Some h ∈ entry_options d m ->
  side_base (mod_side m) <= target h < side_base (mod_side m) + 4.
Proof.
  unfold entry_options. rewrite !elem_of_cons. intros [|[Hf|H]]; [done| |].
  - injection Hf as ->. apply semantic_usage_range.
  - destruct (follows (first_target d m)).
    + rewrite list_elem_of_bind in H. destruct H as (k & H & _).
      rewrite list_elem_of_bind in H. destruct H as (sw & H & _).
      apply list_elem_of_singleton in H. injection H as ->. cbn [target].
      exact (semantic_usage_range (mkSemantic (mod_side m) k)).
    + apply list_elem_of_singleton in H. injection H as ->. cbn [target first_target].
      exact (semantic_usage_range (mkSemantic (mod_side m) _)).
Qed.

Lemma entry_options_first d m : Some (first_target d m) ∈ entry_options d m.
Proof. destruct d, m as [[] []]; eapply (bool_decide_eq_true_1 (_ ∈ _)); vm_compute; reflexivity. Qed.

Lemma entry_options_wanted d m h key k :
  Some h ∈ entry_options d m -> follows h = true -> Some (wanted d m h key k) ∈ entry_options d m.
Proof.
  intros Hin Hf. unfold wanted. generalize (stays key k), (is_word key).
  generalize (switching h || is_tab key). intros sw st wd. rewrite Hf.
  assert (Hfollow : follows (first_target d m) = true).
  { unfold entry_options in Hin. rewrite !elem_of_cons in Hin. destruct Hin as [|[H|H]]; [done| |].
    - injection H as ->. done.
    - destruct (follows (first_target d m)) eqn:E; [done|].
      apply list_elem_of_singleton in H. injection H as ->. congruence. }
  destruct k as [kc ks ka ky].
  destruct d, m as [[] []]; try done; destruct sw, st, wd, kc, ka, ky;
    eapply (bool_decide_eq_true_1 (_ ∈ _)); vm_compute; reflexivity.
Qed.

Definition side_usage (sd : ModifierSide) (k : SemanticModifierKind) : HidUsage :=
  semantic_usage (mkSemantic sd k).
Definition side_entries (tr : Translator) (sd : ModifierSide) : list (option Held) :=
  (fun k => entry tr (Z.to_nat (side_usage sd k))) <$> all_kinds.

Lemma side_usage_range sd k : 0xE0 <= side_usage sd k < 0xE8.
Proof. destruct sd, k; vm_compute; intuition congruence. Qed.

Lemma side_entries_state d tr sd : entries_ok d tr -> side_entries tr sd ∈ side_states d sd.
Proof.
  intros [_ H].
  assert (Hk : forall k, entry tr (Z.to_nat (side_usage sd k)) ∈ entry_options d (mkSemantic sd k)).
  { intros k. pose proof (side_usage_range sd k). specialize (H (side_usage sd k) ltac:(lia)).
    unfold side_usage in *. by rewrite semantic_modifier_usage in H. }
  unfold side_entries, side_states; cbn [fmap list_fmap all_kinds].
  apply list_elem_of_bind. eexists. split; [|apply Hk].
  apply list_elem_of_bind. eexists. split; [|apply Hk].
  apply list_elem_of_bind. eexists. split; [|apply Hk].
  apply list_elem_of_bind. eexists. split; [|apply Hk].
  by apply list_elem_of_singleton.
Qed.

(** Only a side's own entries target its keys. *)
Lemma side_holds d tr sd t :
  entries_ok d tr -> side_base sd <= t < side_base sd + 4 ->
  t_holds tr t = t_holds (side_entries tr sd) t.
Proof.
  intros [Hl H] Ht. apply eq_true_iff_eq. rewrite !t_holds_spec, !elem_of_targets. split.
  - intros (i & h & Hi & <-). pose proof (lookup_lt_Some _ _ _ Hi) as Hlt. rewrite Hl in Hlt.
    specialize (H (Z.of_nat i) ltac:(lia)). unfold entry in H. rewrite Nat2Z.id, Hi in H.
    cbn [default] in H. destruct (semantic_modifier (Z.of_nat i)) as [m|] eqn:Em.
    + pose proof (entry_options_side d m h H) as Hs.
      assert (mod_side m = sd) as Hsd
        by (destruct (mod_side m), sd; cbn in *; try done; lia).
      apply semantic_modifier_inv in Em.
      exists (kind_index (mod_kind m)), h. split; [|done]. unfold side_entries.
      assert (Hu : Z.to_nat (side_usage sd (mod_kind m)) = i).
      { unfold side_usage. rewrite <- Hsd. destruct m as [a b]; cbn [mod_side mod_kind] in *. lia. }
      destruct m as [a []]; cbn [mod_kind kind_index fmap list_fmap all_kinds] in *;
        cbn; unfold entry; rewrite Hu, Hi; done.
    + exfalso. destruct H as [H|H]; [done|]. injection H as ->. cbn [target held_fixed] in Ht.
      assert (Hr : 0xE0 <= Z.of_nat i < 0xE8) by (destruct sd; cbn in Ht; lia).
      assert (Hc : Z.of_nat i = 0xE0 \/ Z.of_nat i = 0xE1 \/ Z.of_nat i = 0xE2 \/ Z.of_nat i = 0xE3
        \/ Z.of_nat i = 0xE4 \/ Z.of_nat i = 0xE5 \/ Z.of_nat i = 0xE6 \/ Z.of_nat i = 0xE7) by lia.
      destruct Hc as [E|[E|[E|[E|[E|[E|[E|E]]]]]]]; by rewrite E in Em.
  - intros (j & h & Hj & <-). unfold side_entries in Hj.
    apply list_lookup_fmap_Some in Hj as (k & Hj & Hk).
    exists (Z.to_nat (side_usage sd k)), h. split; [|done]. pose proof (side_usage_range sd k).
    rewrite entry_lookup by lia. congruence.
Qed.

Lemma side_entries_insert tr sd k o :
  length tr = 256%nat ->
  side_entries (<[Z.to_nat (side_usage sd k) := o]> tr) sd
  = <[kind_index k := o]> (side_entries tr sd).
Proof.
  intros Hl. unfold side_entries, entry.
  destruct sd, k; cbn [fmap list_fmap all_kinds kind_index insert list_insert];
    repeat first [rewrite list_lookup_insert_eq by (rewrite Hl; vm_compute; lia)
                 |rewrite list_lookup_insert_ne by (vm_compute; lia)]; reflexivity.
Qed.

Lemma side_entries_other tr sd sd' k o :
  sd' <> sd -> side_entries (<[Z.to_nat (side_usage sd k) := o]> tr) sd' = side_entries tr sd'.
Proof.
  intros Hne. unfold side_entries, entry.
  destruct sd, sd', k; try done; cbn [fmap list_fmap all_kinds];
    repeat rewrite list_lookup_insert_ne by (vm_compute; lia); reflexivity.
Qed.

Lemma entries_ok_insert d tr u o :
  entries_ok d tr -> 0 <= u < 256 ->
  match semantic_modifier u with
  | Some m => o ∈ entry_options d m
  | None => o = None \/ o = Some (held_fixed u)
  end ->
  entries_ok d (<[Z.to_nat u := o]> tr).
Proof.
  intros [Hl H] Hu Ho. split; [by rewrite length_insert|]. intros v Hv. unfold entry.
  destruct (decide (v = u)) as [->|Hn].
  - by rewrite list_lookup_insert_eq by lia.
  - rewrite list_lookup_insert_ne by lia. by apply H.
Qed.

Lemma steps_count (p r : KeyStep) (a b first : bool) :
  length (filter (fun s : KeyStep * bool => snd s = true)
            (if first then [(p, a); (r, b)] else [(r, b); (p, a)]))
  = (Nat.b2n a + Nat.b2n b)%nat.
Proof. by destruct first, a, b. Qed.

(** The loop's turn on the array is the side's turn on its entries. *)
Lemma follow_step_side d key k tr plan sd kind :
  entries_ok d tr ->
  let '(tr', plan') := follow_step d key k (tr, plan) (side_usage sd kind) in
  entries_ok d tr' /\ (forall sd', sd' <> sd -> side_entries tr' sd' = side_entries tr sd')
  /\ side_step d sd (is_tab key) (stays key k) (is_word key) k
       (side_entries tr sd, length plan) kind = (side_entries tr' sd, length plan').
Proof.
  intros Hok. pose proof Hok as [Hl He]. pose proof (side_usage_range sd kind) as Hr.
  unfold follow_step, side_step.
  assert (Hent : entry (side_entries tr sd) (kind_index kind)
                 = entry tr (Z.to_nat (side_usage sd kind))) by (destruct kind; reflexivity).
  rewrite Hent. destruct (entry tr (Z.to_nat (side_usage sd kind))) as [h|] eqn:E; [|done].
  unfold side_usage at 1. rewrite semantic_modifier_usage.
  destruct (follows h) eqn:Ef; cbn [negb]; [|done].
  specialize (He (side_usage sd kind) ltac:(lia)). rewrite E in He.
  unfold side_usage in He at 1. rewrite semantic_modifier_usage in He.
  pose proof (entry_options_wanted d _ h key k He Ef) as Hw.
  pose proof (entry_options_side d _ _ Hw) as Hwt. pose proof (entry_options_side d _ _ He) as Hht.
  assert (Hok' : entries_ok d (<[Z.to_nat (side_usage sd kind)
                    := Some (wanted d (mkSemantic sd kind) h key k)]> tr)).
  { apply entries_ok_insert; [done|lia|]. unfold side_usage. by rewrite semantic_modifier_usage. }
  split_and!; [done|intros; by apply side_entries_other|].
  rewrite (side_holds d tr sd _ Hok Hwt), (side_holds d _ sd _ Hok' Hht).
  rewrite side_entries_insert by done.
  unfold wanted in *. cbn [mod_kind mod_side] in *.
  destruct (wanted_kind d kind (switching h || is_tab key) (stays key k) (is_word key) k)
    as [kind' sw]. rewrite Ef. f_equal. rewrite length_app, length_fmap, steps_count.
  cbn [target]. lia.
Qed.

Lemma side_step_add d sd tab st word k s n kind :
  side_step d sd tab st word k (s, n) kind
  = (fst (side_step d sd tab st word k (s, 0%nat) kind),
     n + snd (side_step d sd tab st word k (s, 0%nat) kind))%nat.
Proof.
  unfold side_step. destruct (entry s (kind_index kind)) as [h|]; [|cbn; f_equal; lia].
  destruct (negb (follows h)); [cbn; f_equal; lia|].
  destruct (wanted_kind _ _ _ _ _ _). cbn [fst snd]. f_equal. lia.
Qed.

Lemma side_foldl_add d sd tab st word k l s n :
  snd (foldl (side_step d sd tab st word k) (s, n) l)
  = (n + snd (foldl (side_step d sd tab st word k) (s, 0%nat) l))%nat.
Proof.
  revert s n. induction l as [|kind l IH]; intros s n; cbn [foldl]; [cbn; lia|].
  rewrite side_step_add. rewrite (IH _ (n + _)%nat).
  destruct (side_step d sd tab st word k (s, 0%nat) kind) as [s' m]. cbn [fst snd].
  rewrite (IH s' m). lia.
Qed.

Lemma follow_side_fits d key k tr plan sd (l : list SemanticModifierKind) :
  entries_ok d tr ->
  let '(tr', plan') := foldl (follow_step d key k) (tr, plan) (side_usage sd <$> l) in
  entries_ok d tr' /\ (forall sd', sd' <> sd -> side_entries tr' sd' = side_entries tr sd')
  /\ length plan'
     = snd (foldl (side_step d sd (is_tab key) (stays key k) (is_word key) k)
              (side_entries tr sd, length plan) l).
Proof.
  revert tr plan. induction l as [|kind l IH]; intros tr plan Hok; [done|].
  rewrite fmap_cons. cbn [foldl]. pose proof (follow_step_side d key k tr plan sd kind Hok) as H.
  destruct (follow_step d key k (tr, plan) (side_usage sd kind)) as [tr1 plan1].
  destruct H as (Hok1 & Ho1 & ->). specialize (IH tr1 plan1 Hok1).
  destruct (foldl (follow_step d key k) (tr1, plan1) (side_usage sd <$> l)) as [tr2 plan2].
  destruct IH as (Hok2 & Ho2 & Hlen). split_and!; try done.
  intros sd' Hne. by rewrite Ho2, Ho1.
Qed.

Lemma follow_fits d key tr :
  entries_ok d tr ->
  entries_ok d (fst (follow d key (tr, []))) /\ (length (snd (follow d key (tr, []))) <= 8)%nat.
Proof.
  intros Hok. unfold follow. cbn [fst]. generalize (t_kinds tr). intros k.
  change modifier_usages
    with ((side_usage LeftSide <$> all_kinds) ++ (side_usage RightSide <$> all_kinds)).
  rewrite foldl_app. pose proof (follow_side_fits d key k tr [] LeftSide all_kinds Hok) as H1.
  destruct (foldl _ (tr, []) _) as [tr1 plan1]. destruct H1 as (Hok1 & Ho1 & Hl1).
  pose proof (follow_side_fits d key k tr1 plan1 RightSide all_kinds Hok1) as H2.
  destruct (foldl _ (tr1, plan1) _) as [tr2 plan2]. destruct H2 as (Hok2 & _ & Hl2).
  split; [done|]. cbn [snd]. rewrite Hl2, side_foldl_add, Hl1.
  pose proof (side_follow_fits d LeftSide (is_tab key) (stays key k) (is_word key) k _
                (side_entries_state d tr LeftSide Hok)).
  pose proof (side_follow_fits d RightSide (is_tab key) (stays key k) (is_word key) k _
                (side_entries_state d tr1 RightSide Hok1)).
  unfold side_follow in *. cbn [length]. lia.
Qed.
End Fits.

Section Bound.

Lemma default_entries_ok d : entries_ok d default_translator.
Proof.
  split; [reflexivity|]. intros u Hu. unfold entry, default_translator.
  rewrite lookup_replicate_2 by lia. cbn. destruct (semantic_modifier u); [by left|by left].
Qed.

Lemma t_key_fits d tr usage pressed translate :
  entries_ok d tr -> 0 <= usage < 256 -> translate = None \/ translate = Some d ->
  entries_ok d (fst (t_key tr usage pressed translate))
  /\ (length (snd (t_key tr usage pressed translate)) <= 9)%nat.
Proof.
  intros Hok Hu Ht. pose proof Hok as [Hl _]. unfold t_key, t_index. rewrite Hl.
  rewrite (proj2 (Nat.ltb_lt _ _)) by lia. destruct pressed; cbn [negb].
  - destruct (match translate, semantic_modifier usage with
              | Some d, None => follow d (Some usage) (tr, [])
              | _, _ => (tr, [])
              end) as [tr1 plan1] eqn:Ef.
    assert (Hf : entries_ok d tr1 /\ (length plan1 <= 8)%nat).
    { destruct Ht as [->| ->], (semantic_modifier usage);
        try (injection Ef as <- <-; split; [done|cbn; lia]).
      pose proof (follow_fits d (Some usage) tr Hok) as Hf. rewrite Ef in Hf. done. }
    destruct Hf as [Hok1 Hlen].
    destruct (entry tr1 (Z.to_nat usage)) as [h|] eqn:E; cbn [fst snd].
    + split; [done|]. rewrite length_app. cbn. lia.
    + split; [|rewrite length_app; destruct (negb _); cbn; lia].
      apply entries_ok_insert; [done|done|].
      destruct (semantic_modifier usage) as [m|] eqn:Em; [|by right].
      apply semantic_modifier_inv in Em as ->.
      destruct Ht as [->| ->]; [right; left|]. apply entry_options_first.
  - cbn [fst snd]. split; [|destruct (negb _); cbn; lia]. apply entries_ok_insert; [done|done|].
    destruct (semantic_modifier usage); by left.
Qed.

Lemma t_step_fits d tr dest down op :
  entries_ok d tr -> t_op_ok d op ->
  let '(tr', _, _, plan) := t_step (tr, dest, down) op in
  entries_ok d tr' /\ (length plan <= 9)%nat.
Proof.
  intros Hok Hop. destruct op as [u p t|t|]; cbn [t_step t_op_ok] in *.
  - destruct Hop as [Hu Ht]. pose proof (t_key_fits d tr u p t Hok Hu Ht) as H.
    by destruct (t_key tr u p t).
  - unfold t_click. destruct Hop as [->| ->]; [split; [done|cbn; lia]|].
    pose proof (follow_fits d None tr Hok) as [H1 H2].
    destruct (follow d None (tr, [])) as [tr' plan]. cbn in *. split; [done|lia].
  - split; [apply default_entries_ok|cbn; lia].
Qed.

Lemma t_reach_fits d tr dest down : t_reach d (tr, dest, down) -> entries_ok d tr.
Proof.
  remember (tr, dest, down) as st eqn:E. intros H. revert tr dest down E.
  induction H as [|[[tr0 dest0] down0] op tr1 dest1 down1 plan Hr IH Hop Hs];
    intros tr dest down E; simplify_eq; [apply default_entries_ok|].
  pose proof (t_step_fits d tr0 dest0 down0 op (IH _ _ _ eq_refl) Hop) as H.
  rewrite Hs in H. by destruct H.
Qed.
End Bound.

(** ** Properties *)

(** A translated keyboard leaves nothing stuck: whatever keys go down and
    up, translated or not, and however the modifiers are retargeted, the
    destination holds exactly the targets of the physical keys that are down,
    so it holds nothing once they are all up; and every plan fits the ten steps
    of a [KeyPlan], so none of them panics. *)
Theorem translator_in_sync (d : Direction) (tr : Translator) (dest down : gset Z) (op : TOp) :
  t_reach d (tr, dest, down) -> t_op_ok d op ->
  (forall t, t ∈ dest <-> exists u h, 0 <= u < 256 /\ u ∈ down
     /\ entry tr (Z.to_nat u) = Some h /\ target h = t)
  /\ (down = ∅ -> dest = ∅)
  /\ exists tr' dest' down' plan, t_step (tr, dest, down) op = (tr', dest', down', plan)
       /\ t_reach d (tr', dest', down') /\ (length plan <= MAX_CHORD_STEPS)%nat.
Proof.
  intros Hr Hop. pose proof (t_reach_ok _ _ Hr) as [[Hl Hd] Hdest].
  pose proof (t_step_fits d tr dest down op (t_reach_fits _ _ _ _ Hr) Hop) as Hf.
  assert (Hiff : forall t, t ∈ dest <-> exists u h, 0 <= u < 256 /\ u ∈ down
     /\ entry tr (Z.to_nat u) = Some h /\ target h = t).
  { intros t. rewrite Hdest, elem_of_targets. split.
    - intros (i & h & Hi & <-). pose proof (lookup_lt_Some _ _ _ Hi) as Hlt.
      assert (He : entry tr (Z.to_nat (Z.of_nat i)) = Some h)
        by (unfold entry; by rewrite Nat2Z.id, Hi).
      exists (Z.of_nat i), h. rewrite <- Hd by lia. split_and!; try done; [lia|lia|congruence].
    - intros (u & h & Hu & _ & He & <-). exists (Z.to_nat u), h.
      rewrite entry_lookup by lia. by rewrite He. }
  split_and!; [done| |].
  - intros ->. apply set_eq. intros t. rewrite Hiff. set_solver.
  - destruct (t_step (tr, dest, down) op) as [[[tr' dest'] down'] plan] eqn:E.
    exists tr', dest', down', plan. destruct Hf as [_ Hlen]. split_and!; [done| |].
    + by eapply t_reach_step.
    + unfold MAX_CHORD_STEPS. lia.
Qed.

Definition t_sample : Translator * gset Z * gset Z :=
  let '(tr, dest, down, _) := t_step (default_translator, ∅, ∅) (TKey 0xE0 true (Some WindowsOnMac)) in
  (tr, dest, down).
Lemma t_sample_reach : t_reach WindowsOnMac t_sample.
Proof.
  eapply (t_reach_step _ _ (TKey 0xE0 true (Some WindowsOnMac))); [apply t_reach_init| |].
  - split; [lia|by right].
  - reflexivity.
Qed.

Lemma translator_in_sync_witness :
  let '(tr, dest, down) := t_sample in
  dest = {[0xE3]} /\
  (forall t, t ∈ dest <-> exists u h, 0 <= u < 256 /\ u ∈ down
     /\ entry tr (Z.to_nat u) = Some h /\ target h = t)
  /\ (down = ∅ -> dest = ∅)
  /\ exists tr' dest' down' plan,
       t_step (tr, dest, down) (TKey 0x2B true (Some WindowsOnMac)) = (tr', dest', down', plan)
       /\ t_reach WindowsOnMac (tr', dest', down') /\ (length plan <= MAX_CHORD_STEPS)%nat.
Proof.
  split; [vm_compute; reflexivity|].
  apply (translator_in_sync WindowsOnMac); [apply t_sample_reach|]. split; [lia|by right].
Defined.
