(* ===== verification/GestureLatch.v ===== *)
(** * Touch sessions keep their route (monhop-core/src/gesture_latch.rs)

    A multi-finger touch session stays on the route it started on.  Times are
    nanoseconds. *)

From S2P Require Import Prelude.

Definition TOUCH_STREAM_IDLE : Z := ms 500.

Inductive TouchRecord := Opens | Continues | Closes | Standalone.
#[global] Instance TouchRecord_eq_dec : EqDecision TouchRecord.
Proof. solve_decision. Defined.

Record LatchDecision := mkDecision { deliver_locally : bool; publish_now : bool }.
(** [LatchDecision::routed]. *)
Definition routed (latched_remote remote : bool) : LatchDecision :=
  mkDecision (negb latched_remote) (Bool.eqb latched_remote remote).

Record OpenSession := mkOpen { session_remote : bool; session_last : Z }.
(** [GestureLatch] is its open session. *)
Abbreviation GestureLatch := (option OpenSession).
Definition new_latch : GestureLatch := None.

Definition latched (l : GestureLatch) (now : Z) : option bool :=
  match l with
  | Some s => if saturating_sub now (session_last s) <? TOUCH_STREAM_IDLE
              then Some (session_remote s) else None
  | None => None
  end.

Definition latch_expire (l : GestureLatch) (now : Z) : GestureLatch :=
  match latched l now with Some _ => l | None => None end.

Definition decide_record (l : GestureLatch) (record : TouchRecord) (remote : bool) (now : Z)
  : GestureLatch * LatchDecision :=
  let l := latch_expire l now in
  match record with
  | Opens => (Some (mkOpen remote now), routed remote remote)
  | Continues | Closes =>
      match l with
      | None => (None, routed remote remote)
      | Some s =>
          (if bool_decide (record = Closes) then None else Some (mkOpen (session_remote s) now),
           routed (session_remote s) remote)
      end
  | Standalone => (l, routed remote remote)
  end.

(** A record with the capture route and the time it was captured at. *)
Definition Touch : Type := TouchRecord * bool * Z.

Fixpoint decisions (l : GestureLatch) (ts : list Touch) : list LatchDecision * GestureLatch :=
  match ts with
  | [] => ([], l)
  | (r, remote, now) :: ts =>
      let '(l', d) := decide_record l r remote now in
      let '(ds, l'') := decisions l' ts in (d :: ds, l'')
  end.

(** The records of one open session: continuations and standalone records, with
    no idle gap between the session's own records. *)
Fixpoint in_session (last : Z) (ts : list Touch) : Prop :=
  match ts with
  | [] => True
  | (r, _, now) :: ts =>
      now - last < TOUCH_STREAM_IDLE
      /\ match r with
         | Continues => in_session now ts
         | Standalone => in_session last ts
         | Opens | Closes => False
         end
  end.

Definition session_decision (latched_remote : bool) (t : Touch) : LatchDecision :=
  match t with
  | (Standalone, remote, _) => routed remote remote
  | (_, remote, _) => routed latched_remote remote
  end.

(** The time of the session's last own record. *)
Fixpoint session_end (last : Z) (ts : list Touch) : Z :=
  match ts with
  | [] => last
  | (Standalone, _, _) :: ts => session_end last ts
  | (_, _, now) :: ts => session_end now ts
  end.

Section Latch.

Lemma latched_open r last now :
  now - last < TOUCH_STREAM_IDLE -> latch_expire (Some (mkOpen r last)) now = Some (mkOpen r last).
Proof.
  intros H. unfold latch_expire, latched, saturating_sub; cbn [session_last].
  rewrite (proj2 (Z.ltb_lt _ _)); [done|]. unfold TOUCH_STREAM_IDLE, ms in *. lia.
Qed.

Lemma session_decisions r last ts :
  in_session last ts ->
  decisions (Some (mkOpen r last)) ts
  = (session_decision r <$> ts, Some (mkOpen r (session_end last ts))).
Proof.
  revert last. induction ts as [|[[rec remote] now] ts IH]; intros last H; [done|].
  destruct H as [Hgap H]. cbn [decisions]. unfold decide_record. rewrite latched_open by done.
  destruct rec; try done.
  - rewrite bool_decide_eq_false_2 by done. cbn [session_remote]. by rewrite (IH now H).
  - by rewrite (IH last H).
Qed.

Lemma decisions_app l ts ts' :
  decisions l (ts ++ ts')
  = (fst (decisions l ts) ++ fst (decisions (snd (decisions l ts)) ts'),
     snd (decisions (snd (decisions l ts)) ts')).
Proof.
  revert l. induction ts as [|[[r remote] now] ts IH]; intros l.
  { cbn. by destruct (decisions l ts'). }
  cbn [decisions app]. destruct (decide_record l r remote now) as [l' d].
  rewrite IH. by destruct (decisions l' ts).
Qed.
End Latch.

(** A gesture never splits between the two computers: however the capture
    route changes meanwhile, every record of a session that opened on route
    [r0] and was never idle for half a second is decided by that route (local
    apps see all of it or none of it, and it is published only while the route
    is the session's), the closing record included, after which no route is
    latched; a standalone record follows the route of its moment. A session
    that falls idle loses its route: its next record follows the route now. *)
Theorem gesture_never_splits (l : GestureLatch) (r0 rc : bool) (t0 tc : Z) (ts : list Touch) :
  in_session t0 ts ->
  (tc - session_end t0 ts < TOUCH_STREAM_IDLE ->
   decisions l ((Opens, r0, t0) :: ts ++ [(Closes, rc, tc)])
   = (routed r0 r0 :: (session_decision r0 <$> ts) ++ [routed r0 rc], None))
  /\ (TOUCH_STREAM_IDLE <= tc - session_end t0 ts ->
      decisions l ((Opens, r0, t0) :: ts ++ [(Continues, rc, tc)])
      = (routed r0 r0 :: (session_decision r0 <$> ts) ++ [routed rc rc], None)).
Proof.
  intros H. split; intros Hc; cbn [decisions decide_record];
    rewrite decisions_app, session_decisions by done; cbn [fst snd decisions];
    unfold decide_record.
  - by rewrite latched_open.
  - unfold latch_expire, latched, saturating_sub; cbn [session_last].
    rewrite (proj2 (Z.ltb_ge _ _)) by lia. reflexivity.
Qed.

Lemma gesture_never_splits_witness :
  (ms 40 - session_end 0 [(Continues, false, ms 10); (Standalone, false, ms 20)]
     < TOUCH_STREAM_IDLE ->
   decisions None ((Opens, true, 0) :: [(Continues, false, ms 10); (Standalone, false, ms 20)]
                     ++ [(Closes, false, ms 40)])
   = (routed true true
        :: (session_decision true <$> [(Continues, false, ms 10); (Standalone, false, ms 20)])
        ++ [routed true false], None))
  /\ (TOUCH_STREAM_IDLE
        <= ms 40 - session_end 0 [(Continues, false, ms 10); (Standalone, false, ms 20)] ->
      decisions None ((Opens, true, 0) :: [(Continues, false, ms 10); (Standalone, false, ms 20)]
                        ++ [(Continues, false, ms 40)])
      = (routed true true
           :: (session_decision true <$> [(Continues, false, ms 10); (Standalone, false, ms 20)])
           ++ [routed false false], None)).
Proof.
  apply (gesture_never_splits None true false 0 (ms 40)). vm_compute. intuition congruence.
Defined.
