(* ===== verification/DisplaySettle.v ===== *)
(** * Whether a display change is real (monhop-core/src/display_settle.rs)

    A settle window over rereads of the displays.  Instants and durations are
    nanoseconds. *)

From S2P Require Import Prelude.

Definition DISPLAY_SETTLE_LIMIT : Z := secs 3.
Definition DISPLAY_STEADY_FOR : Z := ms 250.

Inductive DisplayRead := Same | Different | Unreadable.
#[global] Instance DisplayRead_eq_dec : EqDecision DisplayRead.
Proof. solve_decision. Defined.
Inductive DisplayVerdict := Steady | Unsettled | Recovered (away : Z) | DChanged.
#[global] Instance DisplayVerdict_eq_dec : EqDecision DisplayVerdict.
Proof. solve_decision. Defined.

Record DisplaySettle := mkSettle {
  limit : Z; steady_for : Z; since : option Z; matching_since : option Z; decided : bool }.

Definition with_timing (limit steady_for : Z) : DisplaySettle :=
  mkSettle limit steady_for None None false.
Definition new_settle : DisplaySettle := with_timing DISPLAY_SETTLE_LIMIT DISPLAY_STEADY_FOR.

Definition is_unsettled (s : DisplaySettle) : bool := bool_decide (since s <> None).

Definition suspect (s : DisplaySettle) (now : Z) : DisplaySettle :=
  mkSettle (limit s) (steady_for s) (Some (default now (since s))) None (decided s).

Definition settle_expire (s : DisplaySettle) (from now : Z) : DisplaySettle * DisplayVerdict :=
  if limit s <=? saturating_sub now from
  then (mkSettle (limit s) (steady_for s) (since s) (matching_since s) true, DChanged)
  else (s, Unsettled).

Definition observe (s : DisplaySettle) (read : DisplayRead) (now : Z)
  : DisplaySettle * DisplayVerdict :=
  if decided s then (s, DChanged)
  else match since s with
  | None =>
      if bool_decide (read = Same) then (s, Steady)
      else settle_expire
             (mkSettle (limit s) (steady_for s) (Some now) (matching_since s) (decided s)) now now
  | Some from =>
      if negb (bool_decide (read = Same)) then
        settle_expire (mkSettle (limit s) (steady_for s) (Some from) None (decided s)) from now
      else
        let matching := default now (matching_since s) in
        if steady_for s <=? saturating_sub now matching then
          (mkSettle (limit s) (steady_for s) None None (decided s),
           Recovered (saturating_sub matching from))
        else (mkSettle (limit s) (steady_for s) (Some from) (Some matching) (decided s), Unsettled)
  end.

(** The verdicts of a run of rereads. *)
Fixpoint verdicts (s : DisplaySettle) (reads : list (DisplayRead * Z))
  : list DisplayVerdict * DisplaySettle :=
  match reads with
  | [] => ([], s)
  | (r, now) :: reads =>
      let '(s', v) := observe s r now in
      let '(vs, s'') := verdicts s' reads in (v :: vs, s'')
  end.

Section Settle.

(** While a suspicion from [from] is open: no reread matches. *)
Definition not_same (reads : list (DisplayRead * Z)) : Prop :=
  Forall (fun r => fst r <> Same) reads.

Lemma decided_stays s reads :
  decided s = true -> verdicts s reads = (const DChanged <$> reads, s).
Proof.
  intros Hd. induction reads as [|[r now] reads IH]; [done|]. cbn [verdicts].
  unfold observe. rewrite Hd, IH. done.
Qed.

(** A suspicion that is never contradicted is decided at the first reread past
    the limit, and not before. *)
Fixpoint decides_at (lim from : Z) (reads : list (DisplayRead * Z)) : list DisplayVerdict :=
  match reads with
  | [] => []
  | (_, now) :: reads =>
      if lim <=? saturating_sub now from then DChanged :: (const DChanged <$> reads)
      else Unsettled :: decides_at lim from reads
  end.

Lemma suspicion_holds lim st from m reads :
  not_same reads ->
  fst (verdicts (mkSettle lim st (Some from) m false) reads) = decides_at lim from reads.
Proof.
  intros H. revert m. induction H as [|[r now] reads Hr _ IH]; intros m; [done|].
  cbn [verdicts decides_at]. cbn in Hr. unfold observe. cbn [decided since].
  rewrite bool_decide_eq_false_2 by done. cbn [negb]. unfold settle_expire; cbn [limit].
  destruct (lim <=? saturating_sub now from).
  - rewrite decided_stays by done. done.
  - specialize (IH None). cbn [steady_for decided since matching_since limit] in *.
    destruct (verdicts _ reads). cbn in *. by rewrite IH.
Qed.

(** No verdict of a run decides before the limit has passed since its first
    reread. *)
Lemma no_early_change s reads t0 :
  decided s = false -> (forall from, since s = Some from -> t0 <= from) ->
  Forall (fun r => t0 <= snd r /\ snd r - t0 < limit s) reads ->
  DChanged ∉ fst (verdicts s reads).
Proof.
  intros Hd Hs Hr. revert s Hd Hs Hr.
  induction reads as [|[r now] reads IH]; intros s Hd Hs Hr; [apply not_elem_of_nil|].
  apply list.Forall_cons in Hr as [[Hlo Hhi] Hr]. cbn [snd] in *. cbn [verdicts].
  destruct (observe s r now) as [s' v] eqn:E.
  assert (Hnext : v <> DChanged /\ decided s' = false /\ limit s' = limit s
                  /\ forall from, since s' = Some from -> t0 <= from).
  { unfold observe in E. rewrite Hd in E.
    assert (Hexp : forall s1 from, t0 <= from -> limit s1 = limit s ->
      settle_expire s1 from now = (s1, Unsettled)).
    { intros s1 from Hf Hl. unfold settle_expire, saturating_sub. rewrite Hl.
      rewrite (proj2 (Z.leb_gt _ _)) by lia. done. }
    destruct (since s) as [from|] eqn:Es.
    - specialize (Hs from eq_refl). destruct (bool_decide (r = Same)); cbn [negb] in E.
      + destruct (steady_for s <=? _); simplify_eq/=; split_and!; try done; intros; simplify_eq; done.
      + rewrite Hexp in E by done. simplify_eq/=. split_and!; try done. intros; simplify_eq; done.
    - destruct (bool_decide (r = Same)).
      + simplify_eq. split_and!; try done. intros; congruence.
      + rewrite Hexp in E by done. simplify_eq/=. split_and!; try done. intros; simplify_eq; done. }
  destruct Hnext as (Hv & Hd' & Hl' & Hs').
  specialize (IH s' Hd' Hs'). rewrite Hl' in IH. specialize (IH Hr).
  destruct (verdicts s' reads) as [vs s'']. cbn [fst] in *.
  rewrite not_elem_of_cons. split; [congruence|done].
Qed.
End Settle.

(** A session survives a flap and ends on a change that holds: rereads that
    all fall within the settle limit of the first one never decide a change,
    whatever they read; displays that stay different or unreadable are decided
    at the first reread at least the limit after the suspicion began, and the
    verdict then never changes again. *)
Theorem display_settle_window (s : DisplaySettle) (from : Z) (r0 : DisplayRead)
    (reads flaps : list (DisplayRead * Z)) :
  decided s = false -> since s = None -> 0 < limit s -> r0 <> Same -> not_same reads ->
  Forall (fun r => from <= snd r /\ snd r - from < limit s) flaps ->
  fst (verdicts s ((r0, from) :: reads)) = Unsettled :: decides_at (limit s) from reads
  /\ DChanged ∉ fst (verdicts s ((r0, from) :: flaps)).
Proof.
  intros Hd Hs Hl Hr Hreads Hflaps. split.
  - cbn [verdicts]. unfold observe. rewrite Hd, Hs, bool_decide_eq_false_2 by done.
    unfold settle_expire, saturating_sub; cbn [limit].
    rewrite (proj2 (Z.leb_gt _ _)) by lia.
    pose proof (suspicion_holds (limit s) (steady_for s) from (matching_since s) reads Hreads) as H.
    destruct (verdicts _ reads). cbn in *. by rewrite H.
  - apply (no_early_change s _ from); [done|congruence|]. constructor; [cbn; lia|done].
Qed.

Lemma display_settle_window_witness :
  fst (verdicts new_settle ((Unreadable, 0) :: [(Different, secs 2); (Unreadable, secs 3)]))
    = Unsettled :: decides_at (limit new_settle) 0 [(Different, secs 2); (Unreadable, secs 3)]
  /\ DChanged ∉ fst (verdicts new_settle ((Unreadable, 0) :: [(Same, secs 1); (Different, secs 2)])).
Proof.
  apply (display_settle_window new_settle 0 Unreadable); try reflexivity.
  - done.
  - repeat constructor; done.
  - repeat constructor; vm_compute; congruence.
Defined.
