(* ===== verification/Topology.v ===== *)
(** * Display topology and edge crossings (monhop-core/src/topology.rs)

    A topology is the configured machines and displays with directed links
    between display edges.  [new_topology] validates it; [transition_for_motion]
    resolves one motion sample against the links of its source display.  A
    [BTreeMap] is a [gmap]; an outer [option] is a Rust call that may panic
    ([f64::clamp] on an empty range). *)

From stdpp Require Import gmap.
From S2P Require Import Prelude F64 F64Arith Types Geometry.

Record Machine := mkMachine { m_id : DeviceId; m_platform : Platform }.
Record NativeSize := mkNative { n_width : Z; n_height : Z }.

Record Display := mkDisplay {
  d_id : DisplayId; d_machine : DeviceId; d_name : list Z; d_native : NativeSize;
  d_logical : LogicalSize; d_origin : Point; d_scale : f64; d_refresh : option f64;
  d_primary : bool; d_monitor : option MonitorIdentity; d_in_use : bool }.

(** [Display::bounds]. *)
Definition bounds (d : Display) : LogicalRect := mkRect (d_origin d) (d_logical d).

Inductive Edge := LeftEdge | RightEdge | TopEdge | BottomEdge.
#[global] Instance Edge_eq_dec : EqDecision Edge.
Proof. solve_decision. Defined.

Definition normal_extent (e : Edge) (r : LogicalRect) : f64 :=
  match e with
  | LeftEdge | RightEdge => width (rect_size r)
  | TopEdge | BottomEdge => height (rect_size r)
  end.

Inductive TopologyError :=
| EmptyTopology
| TooManyDisplays (count : nat)
| DuplicateMachine (machine : DeviceId)
| DuplicateDisplay (display : DisplayId)
| UnknownMachine (machine : DeviceId)
| UnknownDisplay (display : DisplayId)
| InvalidNativeSize (display : DisplayId)
| InvalidLogicalSize (display : DisplayId)
| InvalidOrigin (display : DisplayId)
| InvalidScaleFactor (display : DisplayId)
| InvalidRefreshRate (display : DisplayId)
| InvalidNormalizedSpan (start end_ : f64)
| SameDisplayLink (from_display : DisplayId)
| InvalidHysteresis (hysteresis : f64)
| HysteresisExceedsDisplay (from_display to_display : DisplayId)
| OverlappingSourceLinks (display : DisplayId) (edge : Edge)
| NonFiniteMotionPoint.
#[global] Instance TopologyError_eq_dec : EqDecision TopologyError.
Proof. solve_decision. Defined.

(** ** Spans of an edge *)

Record NormalizedSpan := mkSpan { span_start : f64; span_end : f64 }.

(** [NormalizedSpan::new]: the fields are private, so every span comes from it. *)
Definition new_span (start end_ : f64) : result TopologyError NormalizedSpan :=
  if negb (f64_is_finite start) || negb (f64_is_finite end_)
     || negb (f64_leb f64_zero start && f64_leb start f64_one)
     || negb (f64_leb f64_zero end_ && f64_leb end_ f64_one)
     || f64_leb end_ start
  then Err (InvalidNormalizedSpan start end_)
  else Ok (mkSpan start end_).

Definition span_contains (s : NormalizedSpan) (position : f64) : bool :=
  f64_leb (span_start s) position
  && (f64_ltb position (span_end s) || (f64_eqb (span_end s) f64_one && f64_eqb position f64_one)).

Definition map_to (s destination : NormalizedSpan) (position : f64) : f64 :=
  let progress := f64_div (f64_sub position (span_start s)) (f64_sub (span_end s) (span_start s)) in
  f64_add (span_start destination)
    (f64_mul progress (f64_sub (span_end destination) (span_start destination))).

Definition overlaps (s other : NormalizedSpan) : bool :=
  f64_ltb (span_start s) (span_end other) && f64_ltb (span_start other) (span_end s).

(** ** Links *)

Record EdgeLink := mkLink {
  from_display : DisplayId; from_edge : Edge; from_span : NormalizedSpan;
  to_display : DisplayId; to_edge : Edge; to_span : NormalizedSpan; hysteresis : f64 }.

Record EdgeTransition := mkTransition {
  tr_from : DisplayId; tr_to : DisplayId; tr_from_edge : Edge; tr_to_edge : Edge;
  tr_crossing : Point; tr_entry : Point }.

Definition validate_link_shape (from_d to_d : DisplayId) (hyst : f64) : result TopologyError unit :=
  if from_d =? to_d then Err (SameDisplayLink from_d)
  else if negb (f64_is_finite hyst) || f64_leb hyst f64_zero then Err (InvalidHysteresis hyst)
  else Ok ().

(** [EdgeLink::new]. *)
Definition new_link (from_d : DisplayId) (from_e : Edge) (from_s : NormalizedSpan)
    (to_d : DisplayId) (to_e : Edge) (to_s : NormalizedSpan) (hyst : f64)
  : result TopologyError EdgeLink :=
  _ ← validate_link_shape from_d to_d hyst;
  Ok (mkLink from_d from_e from_s to_d to_e to_s hyst).

(** ** Validation *)

Definition validate_display (d : Display) : result TopologyError unit :=
  if (n_width (d_native d) =? 0) || (n_height (d_native d) =? 0) then Err (InvalidNativeSize (d_id d))
  else if negb (f64_is_finite (width (d_logical d))) || negb (f64_is_finite (height (d_logical d)))
          || f64_leb (width (d_logical d)) f64_zero || f64_leb (height (d_logical d)) f64_zero
  then Err (InvalidLogicalSize (d_id d))
  else if negb (point_is_finite (d_origin d)) then Err (InvalidOrigin (d_id d))
  else if negb (f64_is_finite (max_x (bounds d))) || negb (f64_is_finite (max_y (bounds d)))
          || f64_leb (max_x (bounds d)) (px (d_origin d)) || f64_leb (max_y (bounds d)) (py (d_origin d))
  then Err (InvalidLogicalSize (d_id d))
  else if negb (f64_is_finite (d_scale d)) || f64_leb (d_scale d) f64_zero
  then Err (InvalidScaleFactor (d_id d))
  else if match d_refresh d with
          | Some hz => negb (f64_is_finite hz) || f64_leb hz f64_zero
          | None => false
          end
  then Err (InvalidRefreshRate (d_id d))
  else Ok ().

(** One step of the first loop of [validate_links]. *)
Definition validate_link (displays : gmap Z Display) (l : EdgeLink) : result TopologyError unit :=
  _ ← validate_link_shape (from_display l) (to_display l) (hysteresis l);
  from_d ← ok_or (UnknownDisplay (from_display l)) (displays !! from_display l);
  to_d ← ok_or (UnknownDisplay (to_display l)) (displays !! to_display l);
  if f64_leb (normal_extent (from_edge l) (bounds from_d)) (hysteresis l)
     || f64_leb (normal_extent (to_edge l) (bounds to_d)) (hysteresis l)
  then Err (HysteresisExceedsDisplay (from_display l) (to_display l))
  else Ok ().

Fixpoint validate_each (displays : gmap Z Display) (links : list EdgeLink) : result TopologyError unit :=
  match links with
  | [] => Ok ()
  | l :: links => _ ← validate_link displays l; validate_each displays links
  end.

Definition same_source (l other : EdgeLink) : bool :=
  (from_display l =? from_display other) && bool_decide (from_edge l = from_edge other)
  && overlaps (from_span l) (from_span other).

(** The second loop: every link against the later ones. *)
Fixpoint validate_overlaps (links : list EdgeLink) : result TopologyError unit :=
  match links with
  | [] => Ok ()
  | l :: links =>
      if existsb (same_source l) links then Err (OverlappingSourceLinks (from_display l) (from_edge l))
      else validate_overlaps links
  end.

Definition validate_links (displays : gmap Z Display) (links : list EdgeLink)
  : result TopologyError unit :=
  _ ← validate_each displays links; validate_overlaps links.

(** ** The topology *)

Record Topology := mkTopology {
  machines : gmap (list Z) Machine;
  displays : gmap Z Display;
  links : list EdgeLink;
  links_by_source : gmap Z (list EdgeLink) }.

Fixpoint insert_machines (ms : list Machine) (acc : gmap (list Z) Machine)
  : result TopologyError (gmap (list Z) Machine) :=
  match ms with
  | [] => Ok acc
  | m :: ms =>
      if bool_decide (is_Some (acc !! m_id m)) then Err (DuplicateMachine (m_id m))
      else insert_machines ms (<[m_id m := m]> acc)
  end.

Fixpoint insert_displays (machine_map : gmap (list Z) Machine) (ds : list Display)
    (acc : gmap Z Display) : result TopologyError (gmap Z Display) :=
  match ds with
  | [] => Ok acc
  | d :: ds =>
      _ ← validate_display d;
      if bool_decide (machine_map !! d_machine d = None) then Err (UnknownMachine (d_machine d))
      else if bool_decide (is_Some (acc !! d_id d)) then Err (DuplicateDisplay (d_id d))
      else insert_displays machine_map ds (<[d_id d := d]> acc)
  end.

(** [entry(link.from_display).or_default().push(link)] for every link in turn. *)
Definition index_link (acc : gmap Z (list EdgeLink)) (l : EdgeLink) : gmap Z (list EdgeLink) :=
  <[from_display l := default [] (acc !! from_display l) ++ [l]]> acc.
Definition index_links (ls : list EdgeLink) : gmap Z (list EdgeLink) := foldl index_link ∅ ls.

(** [Topology::new]. *)
Definition new_topology (ms : list Machine) (ds : list Display) (ls : list EdgeLink)
  : result TopologyError Topology :=
  if (length ds =? 0)%nat then Err EmptyTopology
  else if (MAX_DISPLAYS <? length ds)%nat then Err (TooManyDisplays (length ds))
  else
    machine_map ← insert_machines ms ∅;
    display_map ← insert_displays machine_map ds ∅;
    _ ← validate_links display_map ls;
    Ok (mkTopology machine_map display_map ls (index_links ls)).

(** [Topology::display] and [Topology::machine_for_display]. *)
Definition display (t : Topology) (id : DisplayId) : result TopologyError Display :=
  ok_or (UnknownDisplay id) (displays t !! id).
Definition machine_for_display (t : Topology) (id : DisplayId) : result TopologyError Machine :=
  d ← display t id;
  ok_or (UnknownMachine (d_machine d)) (machines t !! d_machine d).

(** ** Crossing an edge *)

Definition interpolate_at_x (previous current : Point) (x : f64) : Point :=
  let progress := f64_div (f64_sub x (px previous)) (f64_sub (px current) (px previous)) in
  mkPoint x (f64_add (py previous) (f64_mul (f64_sub (py current) (py previous)) progress)).
Definition interpolate_at_y (previous current : Point) (y : f64) : Point :=
  let progress := f64_div (f64_sub y (py previous)) (f64_sub (py current) (py previous)) in
  mkPoint (f64_add (px previous) (f64_mul (f64_sub (px current) (px previous)) progress)) y.

Definition crossing_point (r : LogicalRect) (l : EdgeLink) (previous current : Point)
  : option Point :=
  match from_edge l with
  | LeftEdge =>
      let at_ := f64_sub (px (rect_origin r)) (hysteresis l) in
      if f64_leb (px previous) (max_x r) && f64_leb at_ (px previous)
         && f64_ltb (px current) at_ && f64_ltb (px current) (px previous)
      then Some (mkPoint (px (rect_origin r)) (py (interpolate_at_x previous current at_)))
      else None
  | RightEdge =>
      let at_ := f64_add (max_x r) (hysteresis l) in
      if f64_leb (px (rect_origin r)) (px previous) && f64_leb (px previous) at_
         && f64_ltb at_ (px current) && f64_ltb (px previous) (px current)
      then Some (mkPoint (max_x r) (py (interpolate_at_x previous current at_)))
      else None
  | TopEdge =>
      let at_ := f64_sub (py (rect_origin r)) (hysteresis l) in
      if f64_leb (py previous) (max_y r) && f64_leb at_ (py previous)
         && f64_ltb (py current) at_ && f64_ltb (py current) (py previous)
      then Some (mkPoint (px (interpolate_at_y previous current at_)) (py (rect_origin r)))
      else None
  | BottomEdge =>
      let at_ := f64_add (max_y r) (hysteresis l) in
      if f64_leb (py (rect_origin r)) (py previous) && f64_leb (py previous) at_
         && f64_ltb at_ (py current) && f64_ltb (py previous) (py current)
      then Some (mkPoint (px (interpolate_at_y previous current at_)) (max_y r))
      else None
  end.

Definition normalized_position (r : LogicalRect) (e : Edge) (p : Point) : f64 :=
  match e with
  | LeftEdge | RightEdge => f64_div (f64_sub (py p) (py (rect_origin r))) (height (rect_size r))
  | TopEdge | BottomEdge => f64_div (f64_sub (px p) (px (rect_origin r))) (width (rect_size r))
  end.

Definition clamp_tangential (value min max : f64) : option f64 :=
  f64_clamp value min (f64_next_down max).

Definition tangent_y (r : LogicalRect) (position : f64) : option f64 :=
  clamp_tangential (f64_add (py (rect_origin r)) (f64_mul (height (rect_size r)) position))
    (py (rect_origin r)) (max_y r).
Definition tangent_x (r : LogicalRect) (position : f64) : option f64 :=
  clamp_tangential (f64_add (px (rect_origin r)) (f64_mul (width (rect_size r)) position))
    (px (rect_origin r)) (max_x r).

Definition destination_entry_point (r : LogicalRect) (e : Edge) (position inset : f64)
  : option Point :=
  match e with
  | LeftEdge => y ← tangent_y r position; Some (mkPoint (f64_add (px (rect_origin r)) inset) y)
  | RightEdge => y ← tangent_y r position; Some (mkPoint (f64_sub (max_x r) inset) y)
  | TopEdge => x ← tangent_x r position; Some (mkPoint x (f64_add (py (rect_origin r)) inset))
  | BottomEdge => x ← tangent_x r position; Some (mkPoint x (f64_sub (max_y r) inset))
  end.

(** The body of the loop for one link: [None] is [continue]. *)
Definition link_position (r : LogicalRect) (l : EdgeLink) (previous current : Point)
  : option (Point * f64) :=
  crossing ← crossing_point r l previous current;
  let position := normalized_position r (from_edge l) crossing in
  if span_contains (from_span l) position then Some (crossing, position) else None.

Definition take_link (t : Topology) (source : DisplayId) (l : EdgeLink) (crossing : Point)
    (position : f64) : option (result TopologyError (option EdgeTransition)) :=
  match display t (to_display l) with
  | Err e => Some (Err e)
  | Ok destination =>
      entry ← destination_entry_point (bounds destination) (to_edge l)
                (map_to (from_span l) (to_span l) position) (hysteresis l);
      Some (Ok (Some (mkTransition source (to_display l) (from_edge l) (to_edge l) crossing entry)))
  end.

Fixpoint scan_links (t : Topology) (source : DisplayId) (r : LogicalRect) (previous current : Point)
    (ls : list EdgeLink) : option (result TopologyError (option EdgeTransition)) :=
  match ls with
  | [] => Some (Ok None)
  | l :: ls =>
      match link_position r l previous current with
      | None => scan_links t source r previous current ls
      | Some (crossing, position) => take_link t source l crossing position
      end
  end.

Definition transition_for_motion (t : Topology) (source : DisplayId) (previous current : Point)
  : option (result TopologyError (option EdgeTransition)) :=
  if negb (point_is_finite previous) || negb (point_is_finite current)
  then Some (Err NonFiniteMotionPoint)
  else match display t source with
  | Err e => Some (Err e)
  | Ok d =>
      match links_by_source t !! source with
      | None => Some (Ok None)
      | Some ls => scan_links t source (bounds d) previous current ls
      end
  end.

(** ** Values of the types *)

Definition is_span (s : NormalizedSpan) : Prop :=
  is_u64 (span_start s) /\ is_u64 (span_end s) /\ new_span (span_start s) (span_end s) = Ok s.
Definition is_display (d : Display) : Prop :=
  is_u64 (width (d_logical d)) /\ is_u64 (height (d_logical d)) /\ is_point (d_origin d).
Definition is_link (l : EdgeLink) : Prop :=
  is_span (from_span l) /\ is_span (to_span l) /\ is_u64 (hysteresis l).

#[global] Instance NormalizedSpan_eq_dec : EqDecision NormalizedSpan.
Proof. solve_decision. Defined.
#[global] Instance is_display_dec d : Decision (is_display d).
Proof. unfold is_display. apply _. Defined.
#[global] Instance is_link_dec l : Decision (is_link l).
Proof. unfold is_link, is_span. apply _. Defined.

(** ** What the constructor establishes *)

Section Build.

Lemma insert_machines_Ok ms acc mm :
  insert_machines ms acc = Ok mm <->
  NoDup (m_id <$> ms) /\ (forall m, m ∈ ms -> acc !! m_id m = None)
  /\ mm = foldl (fun a m => <[m_id m := m]> a) acc ms.
Proof.
  revert acc. induction ms as [|m ms IH]; intros acc; cbn [insert_machines foldl fmap list_fmap].
  - split; [intros [= ->]; split_and!; [constructor|by intros m ?%not_elem_of_nil|done]|].
    by intros (_ & _ & ->).
  - destruct (acc !! m_id m) as [m'|] eqn:E.
    { rewrite bool_decide_eq_true_2 by eauto. split; [done|].
      intros (_ & H & _). specialize (H m (list_elem_of_here m ms)). congruence. }
    rewrite bool_decide_eq_false_2 by (by intros [??]). rewrite IH, list.NoDup_cons.
    rewrite list_elem_of_fmap. setoid_rewrite elem_of_cons. split.
    + intros (Hnd & Hf & ->). split_and!; try done.
      * intros (m' & Hid & Hin). specialize (Hf m' Hin). rewrite <- Hid, lookup_insert_eq in Hf. done.
      * intros m' [->|Hin]; [done|]. specialize (Hf m' Hin). by apply lookup_insert_None in Hf as [? _].
    + intros ((Hni & Hnd) & Hf & ->). split_and!; try done. intros m' Hin.
      rewrite lookup_insert_ne; [by apply Hf; right|]. intros Hid. apply Hni. eauto.
Qed.

Lemma insert_displays_Ok mm ds acc dm :
  insert_displays mm ds acc = Ok dm <->
  NoDup (d_id <$> ds) /\ (forall d, d ∈ ds -> acc !! d_id d = None)
  /\ (forall d, d ∈ ds -> validate_display d = Ok () /\ is_Some (mm !! d_machine d))
  /\ dm = foldl (fun a d => <[d_id d := d]> a) acc ds.
Proof.
  revert acc. induction ds as [|d ds IH]; intros acc; cbn [insert_displays foldl fmap list_fmap].
  - split; [intros [= ->]; split_and!; [constructor|by intros d ?%not_elem_of_nil..|done]|].
    by intros (_ & _ & _ & ->).
  - assert (Hd : forall P : Display -> Prop, (forall d', d' ∈ d :: ds -> P d')
                   <-> P d /\ forall d', d' ∈ ds -> P d')
      by (intros P; setoid_rewrite elem_of_cons; naive_solver).
    rewrite !Hd. destruct (validate_display d) as [[]|e] eqn:V; cbn [mbind result_bind].
    2:{ split; [done|]. by intros (_ & _ & [[? _] _] & _). }
    destruct (mm !! d_machine d) as [m|] eqn:M.
    2:{ rewrite bool_decide_eq_true_2 by done. split; [done|].
        intros (_ & _ & [[_ [? ?]] _] & _). congruence. }
    rewrite bool_decide_eq_false_2 by done.
    destruct (acc !! d_id d) as [d'|] eqn:E.
    { rewrite bool_decide_eq_true_2 by eauto. split; [done|]. intros (_ & [? _] & _). congruence. }
    rewrite bool_decide_eq_false_2 by (by intros [??]). rewrite IH, list.NoDup_cons, list_elem_of_fmap.
    split.
    + intros (Hnd & Hf & Hv & ->). split_and!; try done.
      * intros (d' & Hid & Hin). specialize (Hf d' Hin). rewrite <- Hid, lookup_insert_eq in Hf. done.
      * intros d' Hin. specialize (Hf d' Hin). by apply lookup_insert_None in Hf as [? _].
    + intros ((Hni & Hnd) & [_ Hf] & [_ Hv] & ->). split_and!; try done. intros d' Hin.
      rewrite lookup_insert_ne; [by apply Hf|]. intros Hid. apply Hni. eauto.
Qed.

(** Folding insertions of distinct keys stores exactly the list. *)
Lemma foldl_insert_lookup {K A} `{Countable K} (key : A -> K) (l : list A) (acc : gmap K A) i x :
  NoDup (key <$> l) -> (forall y, y ∈ l -> acc !! key y = None) ->
  foldl (fun a y => <[key y := y]> a) acc l !! i = Some x
  <-> acc !! i = Some x \/ (x ∈ l /\ key x = i).
Proof.
  revert acc. induction l as [|y l IH]; intros acc Hnd Hf; cbn [foldl].
  - rewrite elem_of_nil. tauto.
  - cbn [fmap list_fmap] in Hnd. apply list.NoDup_cons in Hnd as [Hni Hnd].
    rewrite IH; [|done|].
    + rewrite elem_of_cons. destruct (decide (key y = i)) as [<-|Hne].
      * rewrite lookup_insert_eq, (Hf y) by apply list_elem_of_here.
        split; [intros [[= ->]|?]; tauto|]. intros [?|[[->|Hin] Hk]]; [done|by left|].
        exfalso. apply Hni. rewrite <- Hk. by apply list_elem_of_fmap_2.
      * rewrite lookup_insert_ne by done. naive_solver.
    + intros z Hz. rewrite lookup_insert_ne; [apply Hf; by right|].
      intros Hk. apply Hni. rewrite Hk. by apply list_elem_of_fmap_2.
Qed.

Lemma validate_each_Ok dm ls :
  validate_each dm ls = Ok () <-> Forall (fun l => validate_link dm l = Ok ()) ls.
Proof.
  induction ls as [|l ls IH]; cbn [validate_each]; [by split; [constructor|]|].
  rewrite list.Forall_cons, <- IH. destruct (validate_link dm l) as [[]|e]; cbn; naive_solver.
Qed.

Lemma validate_overlaps_Ok ls :
  validate_overlaps ls = Ok () <->
  forall i j l l', ls !! i = Some l -> ls !! j = Some l' -> (i < j)%nat -> same_source l l' = false.
Proof.
  induction ls as [|l ls IH]; cbn [validate_overlaps]; [by split|].
  destruct (existsb (same_source l) ls) eqn:E.
  - apply existsb_exists in E as (l' & Hin & Hs). apply list_elem_of_In, list_elem_of_lookup in Hin as [j Hj].
    split; [done|]. intros H. specialize (H 0%nat (S j) l l' eq_refl Hj ltac:(lia)). congruence.
  - rewrite IH. split; intros H i j a b Hi Hj Hlt.
    + destruct j as [|j]; [lia|]. cbn in Hj. destruct i as [|i]; cbn in Hi.
      * injection Hi as <-. apply not_true_iff_false. intros Hs. apply not_true_iff_false in E. apply E.
        apply existsb_exists. exists b. split; [|done]. eapply list_elem_of_In, list_elem_of_lookup_2; eauto.
      * eapply H; eauto. lia.
    + eapply (H (S i) (S j)); eauto. lia.
Qed.

(** The index lists, for each display, its links in configuration order. *)
Lemma index_links_lookup ls i :
  default [] (index_links ls !! i) = filter (fun l => from_display l = i) ls
  /\ (index_links ls !! i = None <-> filter (fun l => from_display l = i) ls = []).
Proof.
  unfold index_links.
  assert (G : forall acc, (forall j, acc !! j <> Some []) ->
    default [] (foldl index_link acc ls !! i)
      = default [] (acc !! i) ++ filter (fun l => from_display l = i) ls
    /\ (forall j, foldl index_link acc ls !! j <> Some [])).
  { induction ls as [|l ls IH]; intros acc Hacc; cbn [foldl].
    - rewrite filter_nil, app_nil_r. done.
    - destruct (IH (index_link acc l)) as [-> Hne].
      { intros j. unfold index_link. destruct (decide (from_display l = j)) as [<-|Hne].
        - rewrite lookup_insert_eq. intros [= Hn]. by apply app_eq_nil in Hn as [_ ?].
        - by rewrite lookup_insert_ne. }
      split; [|done]. unfold index_link. rewrite filter_cons.
      destruct (decide (from_display l = i)) as [<-|Hd].
      + rewrite lookup_insert_eq. cbn [default from_option id]. by rewrite <- app_assoc.
      + by rewrite lookup_insert_ne. }
  destruct (G ∅) as [Hd Hne]; [by intros j; rewrite lookup_empty|].
  rewrite lookup_empty in Hd. cbn [default from_option id app] in Hd.
  split; [done|]. rewrite <- Hd. specialize (Hne i).
  destruct (foldl index_link ∅ ls !! i) as [[|a k]|]; cbn [default from_option id]; done.
Qed.
End Build.

Section Built.

(** The acceptance conditions of [Topology::new], stated on its arguments. *)
Definition link_accepted (ds : list Display) (l : EdgeLink) : Prop :=
  from_display l <> to_display l
  /\ f64_is_finite (hysteresis l) = true /\ f64_leb (hysteresis l) f64_zero = false
  /\ exists d d', d ∈ ds /\ d' ∈ ds /\ d_id d = from_display l /\ d_id d' = to_display l
     /\ f64_leb (normal_extent (from_edge l) (bounds d)) (hysteresis l) = false
     /\ f64_leb (normal_extent (to_edge l) (bounds d')) (hysteresis l) = false.

Definition accepted (ms : list Machine) (ds : list Display) (ls : list EdgeLink) : Prop :=
  (0 < length ds <= MAX_DISPLAYS)%nat
  /\ NoDup (m_id <$> ms) /\ NoDup (d_id <$> ds)
  /\ (forall d, d ∈ ds -> validate_display d = Ok () /\ d_machine d ∈ m_id <$> ms)
  /\ (forall l, l ∈ ls -> link_accepted ds l)
  /\ (forall i j l l', ls !! i = Some l -> ls !! j = Some l' -> (i < j)%nat -> same_source l l' = false).

(** What a built topology stores. *)
Definition stores (t : Topology) (ms : list Machine) (ds : list Display) (ls : list EdgeLink) : Prop :=
  (forall i m, machines t !! i = Some m <-> m ∈ ms /\ m_id m = i)
  /\ (forall i d, displays t !! i = Some d <-> d ∈ ds /\ d_id d = i)
  /\ links t = ls /\ links_by_source t = index_links ls.

Lemma validate_link_accepted dm ds l :
  (forall i d, dm !! i = Some d <-> d ∈ ds /\ d_id d = i) ->
  validate_link dm l = Ok () <-> link_accepted ds l.
Proof.
  intros Hdm. unfold validate_link, validate_link_shape, link_accepted.
  destruct (from_display l =? to_display l) eqn:E; cbn [mbind result_bind]; bool_inv.
  { split; [done|]. by intros [? _]. }
  destruct (f64_is_finite (hysteresis l)); cbn [negb orb mbind result_bind]; [|split; [done|by intros (_ & ? & _)]].
  destruct (f64_leb (hysteresis l) f64_zero); cbn [mbind result_bind]; [split; [done|by intros (_ & _ & ? & _)]|].
  destruct (dm !! from_display l) as [d|] eqn:Ed; cbn [ok_or mbind result_bind].
  2:{ split; [done|]. intros (_ & _ & _ & d & d' & Hd & _ & Hid & _).
      pose proof (proj2 (Hdm _ d) (conj Hd Hid)). congruence. }
  destruct (dm !! to_display l) as [d'|] eqn:Ed'; cbn [ok_or mbind result_bind].
  2:{ split; [done|]. intros (_ & _ & _ & d0 & d' & _ & Hd & _ & Hid & _).
      pose proof (proj2 (Hdm _ d') (conj Hd Hid)). congruence. }
  assert (Huse : forall a a', a ∈ ds -> a' ∈ ds -> d_id a = from_display l -> d_id a' = to_display l ->
                 a = d /\ a' = d').
  { intros a a' Ha Ha' Hi Hi'. pose proof (proj2 (Hdm _ a) (conj Ha Hi)).
    pose proof (proj2 (Hdm _ a') (conj Ha' Hi')). split; congruence. }
  apply Hdm in Ed as [Hd0 Hi0]. apply Hdm in Ed' as [Hd1 Hi1].
  destruct (f64_leb (normal_extent (from_edge l) (bounds d)) (hysteresis l)) eqn:X1; cbn [orb];
    [|destruct (f64_leb (normal_extent (to_edge l) (bounds d')) (hysteresis l)) eqn:X2].
  1,2: split; [done|]; intros (_ & _ & _ & a & a' & H1 & H2 & H3 & H4 & H5 & H6);
       destruct (Huse a a' H1 H2 H3 H4) as [-> ->]; congruence.
  split; [|done]. intros _. split_and!; try done. exists d, d'. done.
Qed.

(** The maps the two insertion loops build. *)
Definition machine_map_of (ms : list Machine) : gmap (list Z) Machine :=
  foldl (fun a m => <[m_id m := m]> a) ∅ ms.
Definition display_map_of (ds : list Display) : gmap Z Display :=
  foldl (fun a d => <[d_id d := d]> a) ∅ ds.

Lemma machine_map_lookup ms i m :
  NoDup (m_id <$> ms) -> machine_map_of ms !! i = Some m <-> m ∈ ms /\ m_id m = i.
Proof.
  intros Hnd. unfold machine_map_of. rewrite (foldl_insert_lookup m_id), lookup_empty by done.
  naive_solver.
Qed.

Lemma machine_map_known ms i :
  NoDup (m_id <$> ms) -> is_Some (machine_map_of ms !! i) <-> i ∈ m_id <$> ms.
Proof.
  intros Hnd. rewrite list_elem_of_fmap. split.
  - intros [m [? ?]%machine_map_lookup]; naive_solver.
  - intros (m & -> & Hin). exists m. by apply machine_map_lookup.
Qed.

Lemma display_map_lookup ds i d :
  NoDup (d_id <$> ds) -> display_map_of ds !! i = Some d <-> d ∈ ds /\ d_id d = i.
Proof.
  intros Hnd. unfold display_map_of. rewrite (foldl_insert_lookup d_id), lookup_empty by done.
  naive_solver.
Qed.

Lemma validate_links_accepted ds ls :
  NoDup (d_id <$> ds) ->
  validate_links (display_map_of ds) ls = Ok () <->
  (forall l, l ∈ ls -> link_accepted ds l)
  /\ (forall i j l l', ls !! i = Some l -> ls !! j = Some l' -> (i < j)%nat -> same_source l l' = false).
Proof.
  intros Hnd. unfold validate_links.
  assert (Heach : validate_each (display_map_of ds) ls = Ok () <-> forall l, l ∈ ls -> link_accepted ds l).
  { rewrite validate_each_Ok, list.Forall_forall. pose proof (fun i d => display_map_lookup ds i d Hnd) as Hdm.
    split; intros H l Hl; apply (validate_link_accepted _ ds l Hdm); auto. }
  rewrite <- Heach, <- validate_overlaps_Ok.
  destruct (validate_each (display_map_of ds) ls) as [[]|e]; cbn [mbind result_bind]; naive_solver.
Qed.

Lemma new_topology_iff ms ds ls t :
  new_topology ms ds ls = Ok t <->
  accepted ms ds ls /\ t = mkTopology (machine_map_of ms) (display_map_of ds) ls (index_links ls).
Proof.
  unfold new_topology, accepted.
  destruct (length ds =? 0)%nat eqn:E0; [apply Nat.eqb_eq in E0; split; [done|lia]|].
  apply Nat.eqb_neq in E0.
  destruct (MAX_DISPLAYS <? length ds)%nat eqn:E1; [apply Nat.ltb_lt in E1; split; [done|lia]|].
  apply Nat.ltb_ge in E1. rewrite result_bind_Ok. setoid_rewrite result_bind_Ok.
  setoid_rewrite result_bind_Ok. setoid_rewrite insert_machines_Ok. setoid_rewrite insert_displays_Ok.
  split.
  - intros (mm & (Hm & _ & ->) & dm & (Hd & _ & Hv & ->) & [] & Hl & [= <-]).
    apply validate_links_accepted in Hl as [Hl Ho]; [|done]. split; [|done]. split_and!; try done; [lia|].
    intros d Hin. rewrite <- machine_map_known by done. by apply Hv.
  - intros ((_ & Hm & Hd & Hv & Hl & Ho) & ->). eexists. split; [done|]. eexists. split.
    { split_and!; try done. intros d Hin. change (validate_display d = Ok ()
      /\ is_Some (machine_map_of ms !! d_machine d)). rewrite machine_map_known by done. by apply Hv. }
    exists (). split; [by apply validate_links_accepted|done].
Qed.

Lemma new_topology_stores ms ds ls t :
  new_topology ms ds ls = Ok t -> accepted ms ds ls /\ stores t ms ds ls.
Proof.
  intros [Ha ->]%new_topology_iff. split; [done|]. destruct Ha as (_ & Hm & Hd & _).
  split_and!; cbn; try done; intros; [by apply machine_map_lookup|by apply display_map_lookup].
Qed.
End Built.

Section Crossing.

Lemma span_keys s :
  is_span s ->
  0 <= f64_key (span_start s) < f64_key (span_end s) /\ f64_key (span_end s) <= f64_one
  /\ f64_is_finite (span_start s) = true /\ f64_is_finite (span_end s) = true.
Proof.
  intros (Hs & He & Hn). unfold new_span in Hn. result_inv. bool_inv.
  repeat match goal with H : f64_leb _ _ = true |- _ => apply f64_leb_inv in H as (? & ? & ?) end.
  match goal with H : f64_leb (span_end s) _ = false |- _ => rewrite f64_leb_spec in H by done end.
  bool_inv. change (f64_key f64_zero) with 0 in *. change (f64_key f64_one) with f64_one in *.
  split_and!; try done; lia.
Qed.

Lemma span_contains_key s p :
  is_span s -> span_contains s p = true ->
  f64_key (span_start s) <= f64_key p <= f64_key (span_end s).
Proof.
  intros Hs Hc. pose proof (span_keys s Hs) as (Hk & Hone & _). unfold span_contains in Hc. bool_inv.
  apply f64_leb_inv in H as (_ & _ & Hl). split; [done|]. destruct H0 as [Hlt|Heq].
  - apply f64_ltb_inv in Hlt as (_ & _ & ?). lia.
  - unfold f64_eqb in Heq. bool_inv. lia.
Qed.

(** Spans that share a position overlap. *)
Lemma spans_share_overlap s s' p :
  is_span s -> is_span s' -> span_contains s p = true -> span_contains s' p = true ->
  overlaps s s' = true.
Proof.
  intros Hs Hs' Hc Hc'. pose proof (span_keys s Hs) as (K & K1 & F & G).
  pose proof (span_keys s' Hs') as (K' & K1' & F' & G').
  assert (Hp : forall a, is_span a -> span_contains a p = true ->
               f64_key (span_start a) <= f64_key p
               /\ (f64_key p < f64_key (span_end a) \/ f64_key (span_end a) = f64_one /\ f64_key p = f64_one)).
  { intros a Ha Hca. split; [by apply span_contains_key|]. unfold span_contains in Hca. bool_inv.
    destruct H0 as [(_ & _ & ?)%f64_ltb_inv|Heq]; [by left|]. unfold f64_eqb in Heq. bool_inv. right. done. }
  pose proof (Hp s Hs Hc). pose proof (Hp s' Hs' Hc').
  unfold overlaps. rewrite !f64_ltb_spec, andb_true_iff, !Z.ltb_lt by (by apply f64_finite_not_nan). lia.
Qed.

(** The position mapped onto the destination span is a number. *)
Lemma map_to_not_nan s d p :
  is_span s -> is_span d -> is_u64 p -> span_contains s p = true -> f64_is_nan (map_to s d p) = false.
Proof.
  intros Hs Hd Hp Hc. pose proof (span_contains_key s p Hs Hc) as Kp.
  pose proof (span_keys s Hs) as (Ks & K1 & Fs & Fe). pose proof (span_keys d Hd) as (Kd & K1' & Fs' & Fe').
  destruct Hs as (Us & Ue & _), Hd as (Us' & Ue' & _).
  unfold map_to. apply f64_add_not_nan; try done; [apply f64_arith_u64|].
  apply f64_mul_not_nan_r; try apply f64_arith_u64.
  - apply f64_div_not_nan; try apply f64_arith_u64; try (apply f64_sub_unit_finite; done || lia).
    apply (f64_sub_finite_operands (span_end s) (span_start s)); try done. lia.
  - apply f64_sub_unit_finite; done || lia.
  - apply (f64_sub_finite_operands (span_end d) (span_start d)); try done. lia.
Qed.

Lemma validated_display d :
  is_display d -> validate_display d = Ok () ->
  rect_ok (bounds d)
  /\ f64_is_finite (width (d_logical d)) = true /\ f64_key (width (d_logical d)) <> 0
  /\ f64_is_finite (height (d_logical d)) = true /\ f64_key (height (d_logical d)) <> 0.
Proof.
  intros (Uw & Uh & Ux & Uy) Hv. unfold validate_display in Hv. result_inv. bool_inv.
  unfold point_is_finite in *. bool_inv.
  repeat match goal with H : f64_leb _ _ = false |- _ =>
    rewrite f64_leb_spec in H by (apply f64_finite_not_nan; done || reflexivity) end.
  bool_inv. change (f64_key f64_zero) with 0 in *.
  assert (Hlt : forall lo hi, f64_is_finite lo = true -> f64_is_finite hi = true ->
                f64_key lo < f64_key hi -> f64_ltb lo hi = true).
  { intros lo hi ? ? ?. rewrite f64_ltb_spec by (by apply f64_finite_not_nan). by apply Z.ltb_lt. }
  unfold rect_ok, axis_ok. split_and!; try done; try lia; try apply f64_of_sf_u64; by apply Hlt.
Qed.

(** A tangential coordinate of an entry point: inside the half-open axis. *)
Lemma tangent_inside lo extent hi position :
  axis_ok lo hi -> is_u64 extent -> is_u64 position ->
  f64_is_finite extent = true -> f64_key extent <> 0 -> f64_is_nan position = false ->
  exists v, clamp_tangential (f64_add lo (f64_mul extent position)) lo hi = Some v
    /\ f64_leb lo v = true /\ f64_ltb v hi = true.
Proof.
  intros Hax Ue Up Fe Ke Np. destruct (clamp_axis lo hi (f64_add lo (f64_mul extent position)) Hax)
    as (Hc & _ & _ & H1 & H2); [apply f64_arith_u64| |by eexists].
  destruct Hax as (Ulo & _ & Flo & _). apply f64_add_not_nan; try done; [apply f64_arith_u64|].
  by apply f64_mul_not_nan.
Qed.

(** An entry point: on the inset line of its edge, inside along the edge. *)
Definition enters_at (r : LogicalRect) (e : Edge) (inset : f64) (p : Point) : Prop :=
  match e with
  | LeftEdge => px p = f64_add (px (rect_origin r)) inset
  | RightEdge => px p = f64_sub (max_x r) inset
  | TopEdge => py p = f64_add (py (rect_origin r)) inset
  | BottomEdge => py p = f64_sub (max_y r) inset
  end
  /\ match e with
     | LeftEdge | RightEdge => f64_leb (py (rect_origin r)) (py p) = true /\ f64_ltb (py p) (max_y r) = true
     | TopEdge | BottomEdge => f64_leb (px (rect_origin r)) (px p) = true /\ f64_ltb (px p) (max_x r) = true
     end.

Lemma entry_point_inside d e position inset :
  is_display d -> validate_display d = Ok () -> is_u64 position -> f64_is_nan position = false ->
  exists p, destination_entry_point (bounds d) e position inset = Some p
    /\ enters_at (bounds d) e inset p.
Proof.
  intros Hd Hv Up Np. destruct (validated_display d Hd Hv) as ([Hx Hy] & Fw & Kw & Fh & Kh).
  destruct Hd as (Uw & Uh & _).
  destruct (tangent_inside _ (width (d_logical d)) _ position Hx) as (x & Ex & Hx1 & Hx2); try done.
  destruct (tangent_inside _ (height (d_logical d)) _ position Hy) as (y & Ey & Hy1 & Hy2); try done.
  unfold destination_entry_point, tangent_x, tangent_y, enters_at. cbn [bounds rect_size] in *.
  rewrite Ex, Ey. destruct e; cbn [mbind option_bind]; (eexists; split; [reflexivity|]; cbn [px py]; done).
Qed.

Lemma normalized_position_u64 r e p : is_u64 (normalized_position r e p).
Proof. destruct e; apply f64_of_sf_u64. Qed.

(** A link of a built topology that matches is taken. *)
Lemma take_link_total t ms ds ls source l c position :
  accepted ms ds ls -> stores t ms ds ls -> Forall is_display ds -> is_link l -> l ∈ ls ->
  is_u64 position -> span_contains (from_span l) position = true ->
  exists d p, d ∈ ds /\ d_id d = to_display l
    /\ take_link t source l c position
       = Some (Ok (Some (mkTransition source (to_display l) (from_edge l) (to_edge l) c p)))
    /\ enters_at (bounds d) (to_edge l) (hysteresis l) p.
Proof.
  intros (_ & _ & _ & Hv & Hl & _) (_ & Hds & _) Hty (Hs & Hs' & _) Hin Up Hc.
  destruct (Hl l Hin) as (_ & _ & _ & _ & d & _ & Hd & _ & Hid & _).
  rewrite list.Forall_forall in Hty.
  assert (Um : is_u64 (map_to (from_span l) (to_span l) position)) by apply f64_of_sf_u64.
  destruct (entry_point_inside d (to_edge l) (map_to (from_span l) (to_span l) position) (hysteresis l))
    as (p & Hp & He); [by apply Hty|by apply Hv|done|by apply map_to_not_nan|].
  exists d, p. split_and!; try done. unfold take_link, display.
  rewrite (proj2 (Hds _ d) (conj Hd Hid)). cbn [ok_or]. by rewrite Hp.
Qed.

(** The scan takes the first link that matches. *)
Lemma scan_links_find t source r previous current ls :
  scan_links t source r previous current ls
  = match list_find (fun l => link_position r l previous current <> None) ls with
    | None => Some (Ok None)
    | Some (_, l) =>
        match link_position r l previous current with
        | None => Some (Ok None)
        | Some (c, position) => take_link t source l c position
        end
    end.
Proof.
  induction ls as [|l ls IH]; cbn [scan_links list_find]; [reflexivity|].
  destruct (link_position r l previous current) as [[c position]|] eqn:E.
  - rewrite decide_True by congruence. by rewrite E.
  - rewrite decide_False by congruence. rewrite IH.
    destruct (list_find _ ls) as [[? ?]|]; reflexivity.
Qed.

(** Scanning the indexed links is scanning the display's links in order. *)
Lemma scan_index t source r previous current ls :
  match index_links ls !! source with
  | None => Some (Ok None)
  | Some ls => scan_links t source r previous current ls
  end = scan_links t source r previous current (filter (fun l => from_display l = source) ls).
Proof.
  destruct (index_links_lookup ls source) as [<- Hn].
  destruct (index_links ls !! source); [done|reflexivity].
Qed.

(** The [n]-th element of a filtered list, placed in the list. *)
Lemma filter_lookup_split (ls : list EdgeLink) (source : DisplayId) n l :
  filter (fun l => from_display l = source) ls !! n = Some l ->
  exists before after, ls = before ++ l :: after /\ from_display l = source
    /\ forall l', l' ∈ before -> from_display l' = source ->
       exists k, filter (fun l => from_display l = source) ls !! k = Some l' /\ (k < n)%nat.
Proof.
  revert n. induction ls as [|a ls IH]; intros n; [done|]. rewrite filter_cons.
  destruct (decide (from_display a = source)) as [Ha|Ha].
  - destruct n as [|n]; cbn.
    + intros [= <-]. exists [], ls. split_and!; try done. by intros ? ?%not_elem_of_nil.
    + intros (before & after & -> & Hs & Hb)%IH. exists (a :: before), after. split_and!; try done.
      intros l' [->|Hin]%elem_of_cons Hs'; [exists 0%nat; split; [done|lia]|].
      destruct (Hb l' Hin Hs') as (k & Hk & Hlt). exists (S k). split; [done|lia].
  - intros (before & after & -> & Hs & Hb)%IH. exists (a :: before), after. split_and!; try done.
    intros l' [->|Hin]%elem_of_cons Hs'; [done|]. by apply Hb.
Qed.

Lemma link_position_span r l previous current c position :
  link_position r l previous current = Some (c, position) ->
  crossing_point r l previous current = Some c
  /\ position = normalized_position r (from_edge l) c
  /\ span_contains (from_span l) position = true.
Proof.
  unfold link_position. destruct (crossing_point r l previous current) as [c'|]; cbn; [|done].
  case_match; [|done]. by intros [= <- <-].
Qed.
End Crossing.

(** What a motion sample comes to on an accepted topology. *)
Lemma motion_resolution (ms : list Machine) (ds : list Display) (ls : list EdgeLink)
    (t : Topology) (source : DisplayId) (previous current : Point) :
  new_topology ms ds ls = Ok t -> Forall is_display ds -> Forall is_link ls ->
  exists r, transition_for_motion t source previous current = Some r /\
  match r with
  | Err NonFiniteMotionPoint => point_is_finite previous && point_is_finite current = false
  | Err e => point_is_finite previous && point_is_finite current = true
      /\ e = UnknownDisplay source /\ source ∉ d_id <$> ds
  | Ok None => point_is_finite previous && point_is_finite current = true
      /\ exists d, d ∈ ds /\ d_id d = source
      /\ forall l, l ∈ ls -> from_display l = source -> link_position (bounds d) l previous current = None
  | Ok (Some tr) => point_is_finite previous && point_is_finite current = true
      /\ exists d d' before l after position,
      d ∈ ds /\ d_id d = source /\ ls = before ++ l :: after /\ from_display l = source
      /\ (forall l', l' ∈ before -> from_display l' = source ->
          link_position (bounds d) l' previous current = None)
      /\ link_position (bounds d) l previous current = Some (tr_crossing tr, position)
      /\ d' ∈ ds /\ d_id d' = to_display l
      /\ tr = mkTransition source (to_display l) (from_edge l) (to_edge l) (tr_crossing tr) (tr_entry tr)
      /\ enters_at (bounds d') (to_edge l) (hysteresis l) (tr_entry tr)
  end.
Proof.
  intros Ht Hty Hlty. apply new_topology_stores in Ht as [Ha Hst].
  unfold transition_for_motion. rewrite <- negb_andb.
  destruct (point_is_finite previous && point_is_finite current) eqn:Hfin; cbn [negb];
    [|eexists; split; [reflexivity|done]].
  pose proof Hst as (_ & Hds & _ & Hidx). unfold display.
  destruct (displays t !! source) as [d|] eqn:Ed; cbn [ok_or].
  2:{ eexists. split; [reflexivity|]. split_and!; try done.
      intros (d & -> & Hin)%list_elem_of_fmap. by rewrite (proj2 (Hds _ d) (conj Hin eq_refl)) in Ed. }
  apply Hds in Ed as [Hd Hid]. rewrite Hidx.
  rewrite scan_index, scan_links_find.
  destruct (list_find _ _) as [[n l]|] eqn:Ef.
  - apply list_find_Some in Ef as (Hl & Hmatch & Hbefore).
    destruct (link_position (bounds d) l previous current) as [[c position]|] eqn:El; [|done].
    destruct (filter_lookup_split ls source n l Hl) as (before & after & Hls & Hlsrc & Hb).
    destruct (link_position_span _ _ _ _ _ _ El) as (_ & Hpos & Hspan).
    assert (Hin : l ∈ ls) by (rewrite Hls; set_solver).
    destruct (take_link_total t ms ds ls source l c position Ha Hst Hty) as (d' & p & Hd' & Hid' & Htl & He); try done.
    { rewrite list.Forall_forall in Hlty. by apply Hlty. }
    { rewrite Hpos. apply normalized_position_u64. }
    rewrite Htl. eexists. split; [reflexivity|]. cbn [tr_crossing tr_entry]. split; [done|].
    exists d, d', before, l, after, position. split_and!; try done.
    intros l' Hl' Hs'. destruct (Hb l' Hl' Hs') as (k & Hk & Hlt).
    specialize (Hbefore k l' Hk Hlt). destruct (link_position (bounds d) l' previous current); [|done].
    exfalso. by apply Hbefore.
  - apply list_find_None in Ef. eexists. split; [reflexivity|]. split; [done|]. exists d. split_and!; try done.
    intros l Hl Hs. rewrite list.Forall_forall in Ef. specialize (Ef l).
    rewrite list_elem_of_filter in Ef. specialize (Ef (conj Hs Hl)).
    destruct (link_position (bounds d) l previous current); [|done]. exfalso. by apply Ef.
Qed.
Lemma transition_for_motion_total (ms : list Machine) (ds : list Display) (ls : list EdgeLink)
    (t : Topology) (source : DisplayId) (previous current : Point) :
  new_topology ms ds ls = Ok t -> Forall is_display ds -> Forall is_link ls ->
  is_Some (transition_for_motion t source previous current).
Proof. intros H1 H2 H3. destruct (motion_resolution ms ds ls t source previous current H1 H2 H3) as (r & -> & _). eauto. Qed.

(** ** Properties *)

(** On an accepted topology every motion sample is resolved, without a
    panic and without an error other than its own: a sample that is not finite
    and an unknown source display are reported as such; otherwise the first
    link of the source display, in configuration order, whose dead zone the
    segment leaves and whose span contains the crossing is taken, to a point on
    the inset line of the destination edge that lies inside the destination
    along that edge (half open, never NaN); no transition means that no link of
    the source display matches. *)
Theorem transition_for_motion_resolves (ms : list Machine) (ds : list Display) (ls : list EdgeLink)
    (t : Topology) (source : DisplayId) (previous current : Point) :
  new_topology ms ds ls = Ok t -> Forall is_display ds -> Forall is_link ls ->
  exists r, transition_for_motion t source previous current = Some r /\
  match r with
  | Err NonFiniteMotionPoint => point_is_finite previous && point_is_finite current = false
  | Err e => point_is_finite previous && point_is_finite current = true
      /\ e = UnknownDisplay source /\ source ∉ d_id <$> ds
  | Ok None => point_is_finite previous && point_is_finite current = true
      /\ exists d, d ∈ ds /\ d_id d = source
      /\ forall l, l ∈ ls -> from_display l = source -> link_position (bounds d) l previous current = None
  | Ok (Some tr) => point_is_finite previous && point_is_finite current = true
      /\ exists d d' before l after position,
      d ∈ ds /\ d_id d = source /\ ls = before ++ l :: after /\ from_display l = source
      /\ (forall l', l' ∈ before -> from_display l' = source ->
          link_position (bounds d) l' previous current = None)
      /\ link_position (bounds d) l previous current = Some (tr_crossing tr, position)
      /\ d' ∈ ds /\ d_id d' = to_display l
      /\ tr = mkTransition source (to_display l) (from_edge l) (to_edge l) (tr_crossing tr) (tr_entry tr)
      /\ enters_at (bounds d') (to_edge l) (hysteresis l) (tr_entry tr)
  end.
Proof. apply motion_resolution. Qed.

(** Two computers side by side: the right edge of display 1 leads to the left
    edge of display 2 and back. *)
Definition sample_machines : list Machine :=
  [mkMachine (replicate 16 1) Windows; mkMachine (replicate 16 2) MacOs].
Definition sample_display (id : DisplayId) (m : DeviceId) : Display :=
  mkDisplay id m [68] (mkNative 1920 1080) (mkSize (f64_of_Z 1920) (f64_of_Z 1080))
    (mkPoint f64_zero f64_zero) f64_one (Some (f64_of_Z 60)) true None true.
Definition sample_displays : list Display :=
  [sample_display 1 (replicate 16 1); sample_display 2 (replicate 16 2)].
Definition whole_edge : NormalizedSpan := mkSpan f64_zero f64_one.
Definition sample_links : list EdgeLink :=
  [mkLink 1 RightEdge whole_edge 2 LeftEdge whole_edge (f64_of_Z 2);
   mkLink 2 LeftEdge whole_edge 1 RightEdge whole_edge (f64_of_Z 2)].
Definition sample_topology : Topology :=
  mkTopology (machine_map_of sample_machines) (display_map_of sample_displays) sample_links
    (index_links sample_links).

Lemma sample_displays_typed : Forall is_display sample_displays.
Proof. apply (bool_decide_eq_true_1 _). vm_compute. reflexivity. Qed.
Lemma sample_links_typed : Forall is_link sample_links.
Proof. apply (bool_decide_eq_true_1 _). vm_compute. reflexivity. Qed.
Lemma sample_topology_built :
  new_topology sample_machines sample_displays sample_links = Ok sample_topology.
Proof. vm_compute. reflexivity. Qed.

Lemma transition_for_motion_resolves_witness :
  exists tr, transition_for_motion sample_topology 1
      (mkPoint (f64_of_Z 1900) (f64_of_Z 540)) (mkPoint (f64_of_Z 1930) (f64_of_Z 540))
    = Some (Ok (Some tr))
  /\ tr_to tr = 2 /\ tr_entry tr = mkPoint (f64_of_Z 2) (f64_of_Z 540)
  /\ exists r, transition_for_motion sample_topology 1
       (mkPoint (f64_of_Z 1900) (f64_of_Z 540)) (mkPoint (f64_of_Z 1930) (f64_of_Z 540)) = Some r.
Proof.
  eexists. split; [vm_compute; reflexivity|]. split; [reflexivity|]. split; [vm_compute; reflexivity|].
  destruct (transition_for_motion_resolves sample_machines sample_displays sample_links sample_topology 1
    (mkPoint (f64_of_Z 1900) (f64_of_Z 540)) (mkPoint (f64_of_Z 1930) (f64_of_Z 540))) as [r [Hr _]].
  - exact sample_topology_built.
  - exact sample_displays_typed.
  - exact sample_links_typed.
  - exists r. exact Hr.
Defined.

(** [Topology::new] accepts exactly the well-formed configurations (one
    to sixteen valid displays with distinct ids on distinct known machines,
    links between two different known displays whose hysteresis is smaller than
    either display, no two source spans overlapping), and what it builds finds
    every display and its machine and no other. *)
Theorem topology_new_accepts (ms : list Machine) (ds : list Display) (ls : list EdgeLink) :
  (is_ok (new_topology ms ds ls) = true <-> accepted ms ds ls)
  /\ forall t, new_topology ms ds ls = Ok t ->
     links t = ls
     /\ (forall id d, display t id = Ok d <-> d ∈ ds /\ d_id d = id)
     /\ (forall id, is_ok (display t id) = is_ok (machine_for_display t id))
     /\ (forall id m, machine_for_display t id = Ok m
          <-> m ∈ ms /\ exists d, d ∈ ds /\ d_id d = id /\ d_machine d = m_id m).
Proof.
  split.
  { pose proof (new_topology_iff ms ds ls) as H. split.
    - destruct (new_topology ms ds ls) as [t|]; [|done]. intros _. by apply (H t).
    - intros Ha. by rewrite (proj2 (H _) (conj Ha eq_refl)). }
  intros t Ht. apply new_topology_stores in Ht as [(_ & _ & Hnd & Hv & _) (Hms & Hds & Hls & _)].
  assert (Hdisp : forall id d, display t id = Ok d <-> d ∈ ds /\ d_id d = id)
    by (intros id d; unfold display; by rewrite ok_or_Ok).
  assert (Hmach : forall id m, machine_for_display t id = Ok m
            <-> m ∈ ms /\ exists d, d ∈ ds /\ d_id d = id /\ d_machine d = m_id m).
  { intros id m. unfold machine_for_display. rewrite result_bind_Ok. split.
    - intros (d & [Hd Hid]%Hdisp & [Hm Heq]%ok_or_Ok%Hms). split; [done|]. by exists d.
    - intros (Hm & d & Hd & Hid & Heq). exists d. split; [by apply Hdisp|].
      apply ok_or_Ok, Hms. done. }
  split_and!; try done. intros id.
  destruct (display t id) as [d|e] eqn:Ed.
  - apply Hdisp in Ed as [Hd Hid]. destruct (Hv d Hd) as [_ Hm].
    apply list_elem_of_fmap in Hm as (m & Hmid & Hm).
    assert (Hok : machine_for_display t id = Ok m) by (apply Hmach; naive_solver).
    by rewrite Hok.
  - unfold machine_for_display. by rewrite Ed.
Qed.

Lemma topology_new_accepts_witness :
  exists t, new_topology sample_machines sample_displays sample_links = Ok t
    /\ accepted sample_machines sample_displays sample_links
    /\ is_ok (machine_for_display t 2) = true.
Proof.
  exists sample_topology. split; [exact sample_topology_built|]. split; [|vm_compute; reflexivity].
  apply (topology_new_accepts sample_machines sample_displays sample_links).
  rewrite sample_topology_built. reflexivity.
Defined.

(** Along one edge of a display at most one link claims any position, so
    which of that edge's links a crossing takes does not depend on their order;
    spans that touch give the shared end to the one that starts there, and an
    end at 1 belongs to the span that ends there. *)
Theorem edge_position_has_one_link (ms : list Machine) (ds : list Display) (ls : list EdgeLink)
    (t : Topology) (i j : nat) (l l' : EdgeLink) (position : f64) :
  new_topology ms ds ls = Ok t -> Forall is_link ls ->
  links t !! i = Some l -> links t !! j = Some l' ->
  from_display l = from_display l' -> from_edge l = from_edge l' ->
  span_contains (from_span l) position = true -> span_contains (from_span l') position = true ->
  i = j.
Proof.
  intros Ht Hty. apply new_topology_stores in Ht as [(_ & _ & _ & _ & _ & Hov) (_ & _ & -> & _)].
  rewrite list.Forall_forall in Hty.
  assert (Hno : forall i j l l', ls !! i = Some l -> ls !! j = Some l' -> (i < j)%nat ->
    from_display l = from_display l' -> from_edge l = from_edge l' ->
    span_contains (from_span l) position = true -> span_contains (from_span l') position = true -> False).
  { clear i j l l'. intros i j l l' Hi Hj Hlt Hd He Hc Hc'.
    specialize (Hov i j l l' Hi Hj Hlt). apply not_true_iff_false in Hov. apply Hov.
    unfold same_source. rewrite Hd, He, Z.eqb_refl, bool_decide_eq_true_2 by done. cbn [andb].
    apply spans_share_overlap with position; try done;
      apply Hty; by eapply list_elem_of_lookup_2. }
  intros Hi Hj Hd He Hc Hc'. destruct (Nat.lt_trichotomy i j) as [Hlt|[->|Hlt]]; [|done|]; exfalso.
  - by eapply (Hno i j l l').
  - by eapply (Hno j i l' l).
Qed.

Lemma edge_position_has_one_link_witness :
  span_contains whole_edge f64_one = true /\ (0 = 0)%nat.
Proof.
  split; [vm_compute; reflexivity|].
  apply (edge_position_has_one_link sample_machines sample_displays sample_links sample_topology 0 0
    (mkLink 1 RightEdge whole_edge 2 LeftEdge whole_edge (f64_of_Z 2))
    (mkLink 1 RightEdge whole_edge 2 LeftEdge whole_edge (f64_of_Z 2)) f64_one).
  - exact sample_topology_built.
  - exact sample_links_typed.
  - reflexivity.
  - reflexivity.
  - reflexivity.
  - reflexivity.
  - vm_compute. reflexivity.
  - vm_compute. reflexivity.
Defined.
