(* ===== verification/Clicks.v ===== *)
(** * Multi-clicks (monhop-core/src/clicks.rs)

    The source numbers presses with a [ClickCounter]; the receiver lands the
    later presses of a multi-click on its first one with a [ClickLanding].
    Times are [Duration]s in nanoseconds.  An outer [option] is a call that may
    panic (an index out of range or [f64::clamp] on an empty range). *)

From S2P Require Import Prelude F64 F64Arith Types Geometry.

Definition SINGLE_CLICK : Z := 1.
Definition FALLBACK_DOUBLE_CLICK_INTERVAL : Z := ms 500.
Definition DOUBLE_CLICK_SLOP : f64 := 0x4020000000000000. (* 8.0 *)

Definition within_slop (from to : Point) : bool :=
  f64_leb (f64_abs (f64_sub (px from) (px to))) DOUBLE_CLICK_SLOP
  && f64_leb (f64_abs (f64_sub (py from) (py to))) DOUBLE_CLICK_SLOP.

(** ** Numbering presses *)

Record ClickSequence := mkSequence {
  seq_button : MouseButton; seq_anchor : Point; seq_at : Z; seq_count : Z }.
Record ClickCounter := mkCounter { interval : Z; last_press : option ClickSequence }.

Definition new_counter (i : Z) : ClickCounter := mkCounter i None.
Definition default_counter : ClickCounter := new_counter FALLBACK_DOUBLE_CLICK_INTERVAL.

(** The guard of the first arm of [press]. *)
Definition continues_sequence (c : ClickCounter) (last : ClickSequence) (button : MouseButton)
    (position : Point) (at_ : Z) : bool :=
  bool_decide (seq_button last = button)
  && match checked_sub at_ (seq_at last) with Some gap => gap <=? interval c | None => false end
  && within_slop position (seq_anchor last).

Definition next_sequence (c : ClickCounter) (button : MouseButton) (position : Point) (at_ : Z)
  : ClickSequence :=
  match last_press c with
  | Some last =>
      if continues_sequence c last button position at_
      then mkSequence (seq_button last) (seq_anchor last) at_ (saturating_add_u8 (seq_count last) 1)
      else mkSequence button position at_ SINGLE_CLICK
  | None => mkSequence button position at_ SINGLE_CLICK
  end.

(** [ClickCounter::press] and [ClickCounter::reset]. *)
Definition press (c : ClickCounter) (button : MouseButton) (position : Point) (at_ : Z)
  : ClickCounter * Z :=
  let next := next_sequence c button position at_ in
  (mkCounter (interval c) (Some next), seq_count next).
Definition reset_counter (c : ClickCounter) : ClickCounter := mkCounter (interval c) None.

(** ** Landing forwarded clicks *)

Record Shift := mkShift { shift_button : MouseButton; shift_display : nat; shift_by : Point }.
Record ClickLanding := mkLanding {
  land_displays : list LogicalRect; land_source : option Point;
  land_first : list (option Point); land_shift : option Shift }.

Definition new_landing (displays : list LogicalRect) : ClickLanding :=
  mkLanding displays None (replicate (length all_buttons) None) None.

Definition shifted (source : Point) (by_ : Point) : Point :=
  mkPoint (f64_add (px source) (px by_)) (f64_add (py source) (py by_)).

Definition move_target (s : ClickLanding) (source : Point) : option Point :=
  match land_shift s with
  | None => Some source
  | Some shift =>
      display ← land_displays s !! shift_display shift;
      if contains_half_open display source then clamp_half_open display (shifted source (shift_by shift))
      else Some source
  end.

Definition point_default : Point := mkPoint f64_zero f64_zero.

(** [ClickLanding::moved]. *)
Definition moved (s : ClickLanding) (source : Point) : option ClickLanding :=
  match land_shift s with
  | None => Some (mkLanding (land_displays s) (Some source) (land_first s) None)
  | Some shift =>
      display ← land_displays s !! shift_display shift;
      let shift := if contains_half_open display source then shift
                   else mkShift (shift_button shift) (shift_display shift) point_default in
      Some (mkLanding (land_displays s) (Some source) (land_first s) (Some shift))
  end.

Definition first_of (s : ClickLanding) (button : MouseButton) : option (option Point) :=
  land_first s !! Z.to_nat (button_index button).

Definition continued (s : ClickLanding) (button : MouseButton) (click_count : Z)
  : option (option Point) :=
  first ← first_of s button;
  Some (match first with
        | None => None
        | Some first =>
            if SINGLE_CLICK <? click_count then
              match land_source s with
              | None => None
              | Some source => if within_slop source first then Some first else None
              end
            else None
        end).

(** [iter().position(..)]: the first display that claims the point. *)
Definition display_position (ds : list LogicalRect) (p : Point) : option nat :=
  fst <$> list_find (fun d => contains_half_open d p = true) ds.

Definition snap (s : ClickLanding) (button : MouseButton) (click_count : Z)
  : option (option (Point * Shift)) :=
  match land_shift s, land_source s with
  | Some _, _ => Some None
  | None, None => Some None
  | None, Some source =>
      first ← continued s button click_count;
      match first, display_position (land_displays s) source with
      | Some first, Some i =>
          display ← land_displays s !! i;
          target ← clamp_half_open display first;
          let by_ := mkPoint (f64_sub (px target) (px source)) (f64_sub (py target) (py source)) in
          Some (if negb (point_eqb target source) then Some (target, mkShift button i by_) else None)
      | _, _ => Some None
      end
  end.

Definition press_target (s : ClickLanding) (button : MouseButton) (click_count : Z)
  : option (option Point) :=
  sn ← snap s button click_count;
  Some (match sn with Some (target, _) => Some target | None => None end).

(** [ClickLanding::pressed]. *)
Definition pressed (s : ClickLanding) (button : MouseButton) (click_count : Z)
  : option ClickLanding :=
  sn ← snap s button click_count;
  match sn with
  | Some (_, shift) => Some (mkLanding (land_displays s) (land_source s) (land_first s) (Some shift))
  | None =>
      cont ← continued s button click_count;
      match cont with
      | Some _ => Some s
      | None =>
          landing ← match land_source s with
                    | None => Some None
                    | Some source => p ← move_target s source; Some (Some p)
                    end;
          Some (mkLanding (land_displays s) (land_source s)
                  (<[Z.to_nat (button_index button) := landing]> (land_first s)) (land_shift s))
      end
  end.

Definition release_target (s : ClickLanding) (button : MouseButton) : option (option Point) :=
  match land_shift s with
  | Some shift =>
      if bool_decide (shift_button shift = button) then
        match land_source s with
        | None => Some None
        | Some source =>
            p ← move_target s source;
            Some (if negb (point_eqb p source) then Some source else None)
        end
      else Some None
  | None => Some None
  end.

Definition released (s : ClickLanding) (button : MouseButton) : ClickLanding :=
  match land_shift s with
  | Some shift =>
      if bool_decide (shift_button shift = button)
      then mkLanding (land_displays s) (land_source s) (land_first s) None else s
  | None => s
  end.

Definition clear_landing (s : ClickLanding) : ClickLanding :=
  mkLanding (land_displays s) None (replicate (length all_buttons) None) None.

(** ** Runs of presses *)

(** The counts of a list of presses [(button, position, time)]. *)
Fixpoint counts (c : ClickCounter) (ps : list (MouseButton * Point * Z)) : list Z * ClickCounter :=
  match ps with
  | [] => ([], c)
  | (b, p, t) :: ps =>
      let '(c', n) := press c b p t in
      let '(ns, c'') := counts c' ps in (n :: ns, c'')
  end.

(** Presses that all continue one sequence: same button, each within the
    interval of the one before, all within the slop of the first position. *)
Fixpoint one_sequence (i : Z) (b : MouseButton) (anchor : Point) (last : Z)
    (ps : list (MouseButton * Point * Z)) : Prop :=
  match ps with
  | [] => True
  | (b', p, t) :: ps =>
      b' = b /\ 0 <= t - last <= i /\ within_slop p anchor = true /\ one_sequence i b anchor t ps
  end.

Definition last_time (last : Z) (ps : list (MouseButton * Point * Z)) : Z :=
  foldl (fun _ p => snd p) last ps.

Section Counting.

Lemma continues_spec c last b p t :
  continues_sequence c last b p t = true <->
  seq_button last = b /\ 0 <= t - seq_at last <= interval c /\ within_slop p (seq_anchor last) = true.
Proof.
  unfold continues_sequence, checked_sub. rewrite !andb_true_iff, bool_decide_eq_true.
  destruct (seq_at last <=? t) eqn:E; bool_inv; [rewrite Z.leb_le|]; intuition (lia || done).
Qed.

Lemma counts_sequence i b anchor last n ps :
  1 <= n <= 255 -> one_sequence i b anchor last ps ->
  counts (mkCounter i (Some (mkSequence b anchor last n))) ps
  = ((fun k => Z.min (n + 1 + Z.of_nat k) 255) <$> seq 0 (length ps),
     mkCounter i (Some (mkSequence b anchor (last_time last ps) (Z.min (n + Z.of_nat (length ps)) 255)))).
Proof.
  revert last n. induction ps as [|[[b' p] t] ps IH]; intros last n Hn Hs.
  - cbn [counts length seq fmap list_fmap last_time foldl]. rewrite Z.add_0_r, Z.min_l by lia. reflexivity.
  - destruct Hs as (-> & Ht & Hw & Hs).
    cbn [counts length seq fmap list_fmap last_time foldl snd]. unfold press, next_sequence; cbn [last_press].
    rewrite (proj2 (continues_spec _ _ _ _ _)) by done. cbn [seq_button seq_anchor seq_count interval].
    unfold saturating_add_u8, u8_max. rewrite IH by (done || lia).
    f_equal; [|do 3 f_equal; lia]. f_equal; [lia|].
    rewrite <- fmap_S_seq, <- list_fmap_compose. apply list_fmap_ext. intros ? k _. cbn. lia.
Qed.

Lemma counts_app c ps qs :
  counts c (ps ++ qs) = (fst (counts c ps) ++ fst (counts (snd (counts c ps)) qs),
                         snd (counts (snd (counts c ps)) qs)).
Proof.
  revert c. induction ps as [|[[b p] t] ps IH]; intros c; cbn [app counts fst snd].
  - by destruct (counts c qs).
  - destruct (press c b p t) as [c' n]. rewrite IH. by destruct (counts c' ps) as [ns c''].
Qed.
End Counting.

(** ** Landings that can occur *)

Inductive LandOp :=
| LMove (source : Point)
| LPress (button : MouseButton) (click_count : Z)
| LRelease (button : MouseButton)
| LClear.

Definition land_step (s : ClickLanding) (op : LandOp) : option ClickLanding :=
  match op with
  | LMove p => moved s p
  | LPress b n => pressed s b n
  | LRelease b => Some (released s b)
  | LClear => Some (clear_landing s)
  end.

Definition land_op_ok (op : LandOp) : Prop := match op with LMove p => is_point p | _ => True end.

Inductive land_reach (ds : list LogicalRect) : ClickLanding -> Prop :=
| land_reach_new : land_reach ds (new_landing ds)
| land_reach_step s op s' :
    land_reach ds s -> land_op_ok op -> land_step s op = Some s' -> land_reach ds s'.

Definition is_number (p : Point) : Prop :=
  is_point p /\ f64_is_nan (px p) = false /\ f64_is_nan (py p) = false.

Definition shift_ok (ds : list LogicalRect) (sh : Shift) : Prop :=
  is_Some (ds !! shift_display sh) /\ is_number (shift_by sh).

Definition land_ok (ds : list LogicalRect) (s : ClickLanding) : Prop :=
  land_displays s = ds
  /\ (forall p, land_source s = Some p -> is_point p)
  /\ length (land_first s) = 5%nat
  /\ (forall i p, land_first s !! i = Some (Some p) -> is_point p)
  /\ (forall sh, land_shift s = Some sh -> shift_ok ds sh).

Section Landing.
Context (ds : list LogicalRect) (Hds : Forall rect_ok ds).

Lemma display_ok i d : ds !! i = Some d -> rect_ok d.
Proof using Hds. intros Hi. rewrite Forall_lookup in Hds. by eapply Hds. Qed.

Lemma f64_sub_number a b :
  is_u64 a -> is_u64 b -> f64_is_nan (f64_sub a b) = false ->
  f64_is_nan a = false /\ f64_is_nan b = false.
Proof.
  intros Ha Hb. rewrite !f64_not_nan_sf by (done || apply f64_of_sf_u64).
  rewrite f64_sub_sf by done. intros H.
  destruct (f64_to_sf a) as [[]|[]| |? ? ?], (f64_to_sf b) as [[]|[]| |? ? ?]; done.
Qed.

Lemma f64_abs_nan b : is_u64 b -> f64_is_nan (f64_abs b) = f64_is_nan b.
Proof.
  intros Hb. pose proof (f64_abs_range b Hb). unfold f64_is_nan. f_equal.
  unfold f64_abs at 1, f64_sign. rewrite (proj2 (Z.leb_gt _ _)) by lia. done.
Qed.

(** Points within the slop of each other are numbers. *)
Lemma within_slop_number p q : is_point p -> is_point q -> within_slop p q = true -> is_number p /\ is_number q.
Proof.
  intros [Hpx Hpy] [Hqx Hqy] Hw. unfold within_slop in Hw. bool_inv.
  apply f64_leb_inv in H as (Hx & _), H0 as (Hy & _).
  rewrite f64_abs_nan in Hx, Hy by apply f64_of_sf_u64.
  apply f64_sub_number in Hx as [? ?], Hy as [? ?]; try done.
Qed.

Lemma clamp_number d p :
  rect_ok d -> is_number p ->
  exists q, clamp_half_open d p = Some q /\ is_point q /\ contains_half_open d q = true
    /\ (contains_half_open d p = true -> q = p).
Proof.
  intros Hd (Hp & Nx & Ny). destruct (clamp_half_open_nearest d p Hd Hp Nx Ny) as (q & Hc & Hq & Hin & Heq).
  exists q. split_and!; try done. intros Hself. rewrite Heq. by apply nearest_inside.
Qed.

Lemma shifted_number d p by_ :
  is_point p -> contains_half_open d p = true -> is_number by_ -> is_number (shifted p by_).
Proof.
  intros [Ux Uy] [Fx Fy]%contains_half_open_finite ([? ?] & ? & ?).
  split; [split; apply f64_of_sf_u64|]. split; by apply f64_add_not_nan.
Qed.

Lemma move_target_spec s p :
  land_ok ds s -> is_point p ->
  exists q, move_target s p = Some q /\ is_point q
    /\ match land_shift s with
       | None => q = p
       | Some sh => exists d, ds !! shift_display sh = Some d
           /\ if contains_half_open d p then contains_half_open d q = true else q = p
       end.
Proof using Hds.
  intros (Hd & _ & _ & _ & Hsh) Hp. unfold move_target.
  destruct (land_shift s) as [sh|]; [|by exists p].
  destruct (Hsh sh eq_refl) as [[d Hi] Hby]. rewrite Hd, Hi. cbn [mbind option_bind].
  destruct (contains_half_open d p) eqn:Hin; [|by exists p; split_and!; try done; exists d; rewrite Hin].
  destruct (clamp_number d (shifted p (shift_by sh))) as (q & Hc & Hq & Hqin & _);
    [by eapply display_ok|by eapply shifted_number|].
  exists q. split_and!; try done. exists d. by rewrite Hin.
Qed.

Lemma continued_spec s b n :
  land_ok ds s ->
  exists r, continued s b n = Some r
    /\ forall first, r = Some first ->
       exists source, land_source s = Some source /\ first_of s b = Some (Some first)
         /\ within_slop source first = true /\ is_number first.
Proof.
  intros (_ & Hsrc & Hlen & Hfirst & _). unfold continued.
  pose proof (button_index_range b).
  assert (Hl : is_Some (first_of s b)) by (apply lookup_lt_is_Some; rewrite Hlen; lia).
  destruct Hl as [f Hf]. rewrite Hf. cbn [mbind option_bind]. eexists. split; [reflexivity|].
  intros first. destruct f as [f|]; [|done]. destruct (SINGLE_CLICK <? n); [|done].
  destruct (land_source s) as [source|] eqn:Es; [|done].
  destruct (within_slop source f) eqn:Ew; [|done]. intros [= <-].
  exists source. split_and!; try done. apply (within_slop_number source f); try done; [by apply Hsrc|].
  by eapply Hfirst.
Qed.

Lemma display_position_spec p i :
  display_position ds p = Some i -> exists d, ds !! i = Some d /\ contains_half_open d p = true.
Proof.
  unfold display_position. destruct (list_find _ ds) as [[j d]|] eqn:E; [|done].
  apply list_find_Some in E as (? & ? & _). intros [= <-]. by exists d.
Qed.

(** A snap lands on the display that claims the source's cursor, on the first
    landing itself when that display claims it too. *)
Lemma snap_spec s b n :
  land_ok ds s ->
  exists r, snap s b n = Some r
    /\ forall target sh, r = Some (target, sh) ->
       land_shift s = None /\ shift_button sh = b /\ shift_ok ds sh
       /\ exists source first d, land_source s = Some source /\ first_of s b = Some (Some first)
          /\ within_slop source first = true
          /\ ds !! shift_display sh = Some d
          /\ contains_half_open d source = true /\ contains_half_open d target = true
          /\ (contains_half_open d first = true -> target = first).
Proof using Hds.
  intros Hok. unfold snap. destruct (land_shift s) as [sh|] eqn:Esh; [eexists; split; [done|]; done|].
  destruct (land_source s) as [source|] eqn:Es; [|eexists; split; [done|]; done].
  destruct (continued_spec s b n Hok) as (r & -> & Hr). cbn [mbind option_bind].
  pose proof Hok as (Hd & Hsrc & _). rewrite Hd.
  destruct r as [first|]; [|eexists; split; [done|]; done].
  destruct (Hr first eq_refl) as (source' & Hs' & Hf & Hw & Hnum). assert (source' = source) as -> by congruence.
  destruct (display_position ds source) as [i|] eqn:Ei; [|eexists; split; [done|]; done].
  destruct (display_position_spec _ _ Ei) as (d & Hi & Hin). rewrite Hi. cbn [mbind option_bind].
  destruct (clamp_number d first (display_ok _ _ Hi) Hnum) as (target & -> & Hpt & Htin & Hself).
  cbn [mbind option_bind]. eexists. split; [done|]. intros target' sh.
  destruct (point_eqb target source); [done|]. intros [= <- <-].
  pose proof (contains_half_open_finite _ _ Htin) as [Ftx Fty].
  pose proof (contains_half_open_finite _ _ Hin) as [Fsx Fsy].
  destruct (Hsrc source Es) as [Ux Uy], Hpt as [Vx Vy].
  split_and!; try done.
  - split; [by exists d|]. split; [split; apply f64_of_sf_u64|]. cbn [shift_by px py].
    split; by apply f64_sub_finite_operands.
  - exists source, first, d. done.
Qed.

Lemma new_landing_ok : land_ok ds (new_landing ds).
Proof.
  split_and!; try done. intros i p Hi. apply lookup_replicate in Hi as [? _]. done.
Qed.

Lemma clear_landing_ok s : land_ok ds s -> land_ok ds (clear_landing s).
Proof.
  intros (Hd & _). split_and!; try done. intros i p Hi. apply lookup_replicate in Hi as [? _]. done.
Qed.

Lemma moved_ok s p : land_ok ds s -> is_point p -> exists s', moved s p = Some s' /\ land_ok ds s'.
Proof.
  intros (Hd & Hsrc & Hlen & Hfirst & Hsh) Hp. unfold moved.
  destruct (land_shift s) as [sh|] eqn:Esh.
  - destruct (Hsh sh eq_refl) as [[d Hi] Hby]. rewrite Hd, Hi. cbn [mbind option_bind].
    eexists. split; [done|]. split_and!; cbn; try done; [by intros ? [= <-]|].
    intros sh' [= <-]. case_match; (split; [by exists d|done]).
  - eexists. split; [done|]. split_and!; cbn; try done. by intros ? [= <-].
Qed.

Lemma pressed_ok s b n : land_ok ds s -> exists s', pressed s b n = Some s' /\ land_ok ds s'.
Proof using Hds.
  intros Hok. pose proof Hok as (Hd & Hsrc & Hlen & Hfirst & Hsh). unfold pressed.
  destruct (snap_spec s b n Hok) as (r & -> & Hr). cbn [mbind option_bind].
  destruct r as [[target sh]|].
  { destruct (Hr target sh eq_refl) as (_ & _ & Hshok & _). eexists. split; [done|].
    split_and!; cbn; try done. by intros ? [= <-]. }
  destruct (continued_spec s b n Hok) as (c & -> & _). cbn [mbind option_bind].
  destruct c as [first|]; [by exists s|].
  assert (Hland : exists l, match land_source s with
                            | None => Some None
                            | Some source => p ← move_target s source; Some (Some p)
                            end = Some l /\ forall p, l = Some p -> is_point p).
  { destruct (land_source s) as [source|] eqn:Es; [|by exists None].
    destruct (move_target_spec s source Hok (Hsrc source eq_refl)) as (q & -> & Hq & _).
    exists (Some q). split; [done|]. by intros ? [= <-]. }
  destruct Hland as (l & -> & Hl). cbn [mbind option_bind]. eexists. split; [done|].
  split_and!; cbn [land_displays land_source land_first land_shift]; try done; [by rewrite length_insert|].
  intros i p Hi. apply list_lookup_insert_Some in Hi as [(_ & Heq & _)|[_ Hi]]; [|by eapply Hfirst].
  by apply Hl.
Qed.

Lemma land_step_ok s op :
  land_ok ds s -> land_op_ok op -> exists s', land_step s op = Some s' /\ land_ok ds s'.
Proof using Hds.
  intros Hok Hop. destruct op as [p|b n|b|]; cbn [land_step].
  - by apply moved_ok.
  - by apply pressed_ok.
  - eexists. split; [done|]. unfold released. destruct (land_shift s) as [sh|]; [|done].
    case_match; [|done]. destruct Hok as (? & ? & ? & ? & _). split_and!; done.
  - eexists. split; [done|]. by apply clear_landing_ok.
Qed.

Lemma land_reach_ok s : land_reach ds s -> land_ok ds s.
Proof using Hds.
  induction 1 as [|s op s' _ IH Hop Hs]; [apply new_landing_ok|].
  destruct (land_step_ok s op IH Hop) as (s'' & Hs'' & Hok). by simplify_eq.
Qed.
End Landing.

(** ** Properties *)

(** Presses are numbered by their place in a multi-click: from a press
    that continues nothing, each press of the same button within the interval
    of the one before and within the slop of the first counts one more, up to
    255; the first press that breaks any of the three starts again at 1. *)
Theorem click_counter_numbers (c : ClickCounter) (b b' : MouseButton) (p p' : Point) (t t' : Z)
    (ps : list (MouseButton * Point * Z)) :
  (forall last, last_press c = Some last -> continues_sequence c last b p t = false) ->
  one_sequence (interval c) b p t ps ->
  ~ (b' = b /\ 0 <= t' - last_time t ps <= interval c /\ within_slop p' p = true) ->
  fst (counts c (((b, p, t) :: ps) ++ [(b', p', t')]))
  = ((fun k => Z.min (Z.of_nat k + 1) 255) <$> seq 0 (S (length ps))) ++ [1].
Proof.
  intros Hnew Hseq Hbreak.
  assert (Hfirst : press c b p t = (mkCounter (interval c) (Some (mkSequence b p t 1)), 1)).
  { unfold press, next_sequence. destruct (last_press c) as [last|] eqn:E; [|done]. by rewrite Hnew. }
  rewrite counts_app. cbn [counts]. rewrite Hfirst. cbv beta iota.
  rewrite counts_sequence by (done || lia).
  cbn [fst snd counts]. unfold press, next_sequence. cbn [last_press].
  destruct (continues_sequence _ _ b' p' t') eqn:E.
  { apply continues_spec in E. cbn in E. exfalso. naive_solver. }
  cbn [fst seq fmap list_fmap app]. f_equal. f_equal.
  rewrite <- fmap_S_seq, <- list_fmap_compose. apply list_fmap_ext. intros ? k _. cbn. lia.
Qed.

Definition at_px (x y : Z) : Point := mkPoint (f64_of_Z x) (f64_of_Z y).

Lemma click_counter_numbers_witness :
  fst (counts default_counter
    [(LeftButton, at_px 10 10, ms 0); (LeftButton, at_px 14 9, ms 300); (LeftButton, at_px 10 40, ms 400)])
  = [1; 2; 1].
Proof.
  apply (click_counter_numbers default_counter LeftButton LeftButton (at_px 10 10) (at_px 10 40)
    (ms 0) (ms 400) [(LeftButton, at_px 14 9, ms 300)]).
  - intros last [=].
  - split; [reflexivity|]. split; [vm_compute; split; intros ?; discriminate|].
    split; [vm_compute; reflexivity|exact I].
  - intros (_ & _ & H). vm_compute in H. discriminate.
Defined.

(** A landing never panics and never leaves its display: after any
    sequence of moves, presses, releases and clears, every operation succeeds;
    a move whose source point the snapped display claims is posted inside that
    display and any other move is posted where the source put it; a press is
    moved only when it continues a multi-click from within the slop of its
    first landing, onto the display that claims the source's cursor and onto
    the first landing itself if that display claims it; the release of the
    snapped button moves back to the source's own point, and then no move is
    shifted. *)
Theorem landing_stays_on_display (ds : list LogicalRect) (s : ClickLanding) (op : LandOp)
    (p : Point) (b : MouseButton) (n : Z) :
  Forall rect_ok ds -> land_reach ds s -> land_op_ok op -> is_point p ->
  (exists s', land_step s op = Some s' /\ land_reach ds s')
  /\ (exists q, move_target s p = Some q
      /\ match land_shift s with
         | None => q = p
         | Some sh => exists d, ds !! shift_display sh = Some d
             /\ if contains_half_open d p then contains_half_open d q = true else q = p
         end)
  /\ (exists r, press_target s b n = Some r
      /\ forall target, r = Some target -> land_shift s = None
         /\ exists i d source first, ds !! i = Some d /\ land_source s = Some source
            /\ first_of s b = Some (Some first) /\ within_slop source first = true
            /\ contains_half_open d source = true /\ contains_half_open d target = true
            /\ (contains_half_open d first = true -> target = first))
  /\ (exists r, release_target s b = Some r
      /\ forall q, r = Some q -> land_source s = Some q
         /\ exists sh, land_shift s = Some sh /\ shift_button sh = b)
  /\ (forall sh, land_shift s = Some sh -> shift_button sh = b ->
      move_target (released s b) p = Some p).
Proof.
  intros Hds Hr Hop Hp. pose proof (land_reach_ok ds Hds s Hr) as Hok. split_and!.
  - destruct (land_step_ok ds Hds s op Hok Hop) as (s' & Hs' & _). exists s'. split; [done|].
    by eapply land_reach_step.
  - destruct (move_target_spec ds Hds s p Hok Hp) as (q & Hq & _ & H). by exists q.
  - unfold press_target. destruct (snap_spec ds Hds s b n Hok) as (r & -> & Hsn).
    cbn [mbind option_bind]. eexists. split; [done|]. destruct r as [[tg sh]|]; [|done].
    intros target [= <-].
    destruct (Hsn tg sh eq_refl) as (Hn & _ & _ & source & first & d & Hrest).
    split; [done|]. exists (shift_display sh), d, source, first. naive_solver.
  - unfold release_target. destruct (land_shift s) as [sh|] eqn:Esh; [|by exists None].
    case_bool_decide as Hb; [|by exists None].
    destruct (land_source s) as [source|] eqn:Es; [|by exists None].
    destruct Hok as (Hd & Hsrc & Hrest). 
    destruct (move_target_spec ds Hds s source (conj Hd (conj Hsrc Hrest)) (Hsrc source Es)) as (q & -> & _).
    cbn [mbind option_bind]. eexists. split; [done|]. intros q'. case_match; [|done]. intros [= <-].
    split; [done|]. by exists sh.
  - intros sh Hsh Hb. unfold released, move_target. rewrite Hsh.
    rewrite bool_decide_eq_true_2 by done. done.
Qed.

(** A double click with a little jitter: the second press lands on the first. *)
Definition sample_moved (x y : Z) (s : ClickLanding) : ClickLanding := default s (moved s (at_px x y)).
Definition sample_pressed (s : ClickLanding) : ClickLanding := default s (pressed s LeftButton 1).
Definition sample_first : ClickLanding := sample_moved 100 100 (new_landing [sample_rect]).
Definition sample_clicked : ClickLanding := released (sample_pressed sample_first) LeftButton.
Definition sample_landing : ClickLanding := sample_moved 103 98 sample_clicked.

Lemma sample_landing_reach : land_reach [sample_rect] sample_landing.
Proof.
  assert (Hty : forall x y, bool_decide (is_point (at_px x y)) = true -> land_op_ok (LMove (at_px x y)))
    by (intros x y H; by apply bool_decide_eq_true in H).
  apply (land_reach_step _ sample_clicked (LMove (at_px 103 98))).
  2:{ apply Hty. vm_compute. reflexivity. }
  2:{ vm_compute. reflexivity. }
  apply (land_reach_step _ (sample_pressed sample_first) (LRelease LeftButton)); [|exact I|reflexivity].
  apply (land_reach_step _ sample_first (LPress LeftButton 1)); [|exact I|vm_compute; reflexivity].
  apply (land_reach_step _ (new_landing [sample_rect]) (LMove (at_px 100 100))); [apply land_reach_new| |].
  - apply Hty. vm_compute. reflexivity.
  - vm_compute. reflexivity.
Qed.

Lemma landing_stays_on_display_witness :
  press_target sample_landing LeftButton 2 = Some (Some (at_px 100 100))
  /\ exists s', land_step sample_landing (LPress LeftButton 2) = Some s' /\ land_reach [sample_rect] s'.
Proof.
  split; [vm_compute; reflexivity|].
  apply (landing_stays_on_display [sample_rect] sample_landing (LPress LeftButton 2)
    (at_px 1 1) LeftButton 2).
  - apply (bool_decide_eq_true_1 _). vm_compute. reflexivity.
  - exact sample_landing_reach.
  - exact I.
  - apply (bool_decide_eq_true_1 _). vm_compute. reflexivity.
Defined.
