(* ===== verification/CaptureControl.v ===== *)
(** * The capture command mailbox (monhop-core/src/capture_control.rs)

    One controller publishes a command, one capture thread takes and completes
    it.  The mailbox is seven atomics; [submit], [pending] and [complete] are
    written first as the calls run alone, then [Mail] gives every atomic access
    as a step of the two threads.  The accesses are interleaved as a sequence
    (the code publishes [requested] and [completed] with release stores and
    reads them with acquire loads).  [Duration] is its nanoseconds. *)

From S2P Require Import Prelude F64 Types.

Inductive CaptureCommand :=
| ActivateRemote (deadline : Z)
| RemoteUntil (deadline : Z)
| LocalAt (position : Point)
| Local.
#[global] Instance CaptureCommand_eq_dec : EqDecision CaptureCommand.
Proof. solve_decision. Defined.

Inductive ControlError := Pending | Failed | Exhausted | InvalidDeadline | InvalidPoint.
#[global] Instance ControlError_eq_dec : EqDecision ControlError.
Proof. solve_decision. Defined.

Inductive ControlCompletion := CApplied | CFailed.
#[global] Instance ControlCompletion_eq_dec : EqDecision ControlCompletion.
Proof. solve_decision. Defined.

Definition encoded (c : ControlCompletion) : Z := match c with CApplied => 1 | CFailed => 2 end.
Definition from_encoded (v : Z) : option ControlCompletion :=
  match v with 1 => Some CApplied | 2 => Some CFailed | _ => None end.

Record Mailbox := mkMailbox {
  requested : Z; completed : Z; completion : Z;
  mkind : Z; deadline_ns : Z; position_x_bits : Z; position_y_bits : Z }.

(** [control_channel]. *)
Definition control_channel : Mailbox := mkMailbox 0 0 (encoded CApplied) 0 0 0 0.

(** The payload of a command: kind, deadline and position bits. *)
Definition encode_command (c : CaptureCommand) : result ControlError (Z * Z * Z * Z) :=
  match c with
  | ActivateRemote d => if d <=? u64_max then Ok (1, d, 0, 0) else Err InvalidDeadline
  | RemoteUntil d => if d <=? u64_max then Ok (2, d, 0, 0) else Err InvalidDeadline
  | LocalAt p => if negb (point_is_finite p) then Err InvalidPoint else Ok (3, 0, px p, py p)
  | Local => Ok (4, 0, 0, 0)
  end.

(** The command a payload stands for; [None] is the unreachable arm. *)
Definition decode_command (kind deadline x y : Z) : option CaptureCommand :=
  match kind with
  | 1 => Some (ActivateRemote deadline)
  | 2 => Some (RemoteUntil deadline)
  | 3 => Some (LocalAt (mkPoint x y))
  | 4 => Some Local
  | _ => None
  end.

Definition submit (m : Mailbox) (command : CaptureCommand) : Mailbox * result ControlError Z :=
  let previous := requested m in
  if negb (completed m =? previous) then (m, Err Pending)
  else if bool_decide (from_encoded (completion m) = Some CFailed) then (m, Err Failed)
  else match checked_add_u64 previous 1 with
  | None => (m, Err Exhausted)
  | Some revision =>
      match encode_command command with
      | Err e => (m, Err e)
      | Ok (k, d, x, y) =>
          (mkMailbox revision (completed m) (completion m) k d x y, Ok revision)
      end
  end.

(** [completed_revision]; the outer [None] is the unreachable arm. *)
Definition completed_revision (m : Mailbox) : option (result ControlError Z) :=
  match from_encoded (completion m) with
  | Some CApplied => Some (Ok (completed m))
  | Some CFailed => Some (Err Failed)
  | None => None
  end.

(** [pending]; the outer [None] is the unreachable arm. *)
Definition pending (m : Mailbox) : option (option (Z * CaptureCommand)) :=
  let revision := requested m in
  if revision =? completed m then Some None
  else
    command ← decode_command (mkind m) (deadline_ns m) (position_x_bits m) (position_y_bits m);
    Some (Some (revision, command)).

Definition complete_command (m : Mailbox) (revision : Z) (c : ControlCompletion) : Mailbox :=
  mkMailbox (requested m) revision (encoded c) (mkind m) (deadline_ns m)
    (position_x_bits m) (position_y_bits m).

(** ** The two threads, one atomic access at a time *)

Module Mail.

(** Where the controller is inside [submit]. *)
Inductive Writer :=
| WIdle
| WLoaded (command : CaptureCommand) (previous : Z)
| WOpen (command : CaptureCommand) (previous : Z)
| WStore (stored : nat) (command : CaptureCommand) (revision : Z) (payload : Z * Z * Z * Z).

(** Where the capture thread is inside [pending] and [complete]. *)
Inductive Reader :=
| RIdle
| RRequested (revision : Z)
| RFresh (revision : Z)
| RKind (revision kind : Z)
| RHalf (revision x : Z)
| RHave (revision : Z) (command : CaptureCommand)
| RMarked (revision : Z)
| RPanic.

(** [log] lists the published commands, the first at revision 1. *)
Record Sys := mkSys { box : Mailbox; writer : Writer; reader : Reader; log : list CaptureCommand }.

Definition start : Sys := mkSys control_channel WIdle RIdle [].

Definition store_field (stored : nat) (payload : Z * Z * Z * Z) (m : Mailbox) : Mailbox :=
  let '(k, d, x, y) := payload in
  match stored with
  | 0%nat => mkMailbox (requested m) (completed m) (completion m) k (deadline_ns m) (position_x_bits m) (position_y_bits m)
  | 1%nat => mkMailbox (requested m) (completed m) (completion m) (mkind m) d (position_x_bits m) (position_y_bits m)
  | 2%nat => mkMailbox (requested m) (completed m) (completion m) (mkind m) (deadline_ns m) x (position_y_bits m)
  | _ => mkMailbox (requested m) (completed m) (completion m) (mkind m) (deadline_ns m) (position_x_bits m) y
  end.
Definition publish_revision (revision : Z) (m : Mailbox) : Mailbox :=
  mkMailbox revision (completed m) (completion m) (mkind m) (deadline_ns m) (position_x_bits m) (position_y_bits m).

(** One access of [submit]; [call] is the command of a new call. *)
Definition writer_step (call : CaptureCommand) (s : Sys) : Sys :=
  let m := box s in
  match writer s with
  | WIdle => mkSys m (WLoaded call (requested m)) (reader s) (log s)
  | WLoaded c previous =>
      mkSys m (if negb (completed m =? previous) then WIdle else WOpen c previous) (reader s) (log s)
  | WOpen c previous =>
      mkSys m (if bool_decide (from_encoded (completion m) = Some CFailed) then WIdle
               else match checked_add_u64 previous 1, encode_command c with
                    | Some revision, Ok payload => WStore 0 c revision payload
                    | _, _ => WIdle
                    end) (reader s) (log s)
  | WStore 4 c revision _ => mkSys (publish_revision revision m) WIdle (reader s) (log s ++ [c])
  | WStore n c revision payload =>
      mkSys (store_field n payload m) (WStore (S n) c revision payload) (reader s) (log s)
  end.

(** One access of [pending] or [complete]; [c] is the result of the command. *)
Definition reader_step (c : ControlCompletion) (s : Sys) : Sys :=
  let m := box s in
  let go r := mkSys m (writer s) r (log s) in
  match reader s with
  | RIdle => go (RRequested (requested m))
  | RRequested revision => go (if revision =? completed m then RIdle else RFresh revision)
  | RFresh revision => go (RKind revision (mkind m))
  | RKind revision k =>
      go (match k with
          | 1 => RHave revision (ActivateRemote (deadline_ns m))
          | 2 => RHave revision (RemoteUntil (deadline_ns m))
          | 3 => RHalf revision (position_x_bits m)
          | 4 => RHave revision Local
          | _ => RPanic
          end)
  | RHalf revision x => go (RHave revision (LocalAt (mkPoint x (position_y_bits m))))
  | RHave revision _ =>
      mkSys (mkMailbox (requested m) (completed m) (encoded c) (mkind m) (deadline_ns m)
               (position_x_bits m) (position_y_bits m)) (writer s) (RMarked revision) (log s)
  | RMarked revision =>
      mkSys (mkMailbox (requested m) revision (completion m) (mkind m) (deadline_ns m)
               (position_x_bits m) (position_y_bits m)) (writer s) RIdle (log s)
  | RPanic => s
  end.

Inductive step : Sys -> Sys -> Prop :=
| step_writer call s : step s (writer_step call s)
| step_reader c s : step s (reader_step c s).

Inductive reach : Sys -> Prop :=
| reach_start : reach start
| reach_step s s' : reach s -> step s s' -> reach s'.

(** ** The invariant *)

Definition stored_fields (n : nat) (payload : Z * Z * Z * Z) (m : Mailbox) : Prop :=
  let '(k, d, x, y) := payload in
  ((0 < n)%nat -> mkind m = k) /\ ((1 < n)%nat -> deadline_ns m = d)
  /\ ((2 < n)%nat -> position_x_bits m = x) /\ ((3 < n)%nat -> position_y_bits m = y).

Definition outstanding (m : Mailbox) : Prop := completed m + 1 = requested m.
Definition settled (m : Mailbox) : Prop := completed m = requested m.

Definition holds_last (m : Mailbox) (l : list CaptureCommand) : Prop :=
  exists c, list.last l = Some c
    /\ encode_command c = Ok (mkind m, deadline_ns m, position_x_bits m, position_y_bits m).

Definition writer_ok (m : Mailbox) (w : Writer) : Prop :=
  match w with
  | WIdle => True
  | WLoaded _ previous => previous = requested m
  | WOpen _ previous => previous = requested m /\ settled m
  | WStore n c revision payload =>
      settled m /\ revision = requested m + 1 /\ revision <= u64_max
      /\ encode_command c = Ok payload /\ (n <= 4)%nat /\ stored_fields n payload m
  end.

Definition reader_ok (m : Mailbox) (l : list CaptureCommand) (r : Reader) : Prop :=
  match r with
  | RIdle => True
  | RRequested revision => completed m <= revision <= requested m
  | RFresh revision | RMarked revision => revision = requested m /\ outstanding m
  | RKind revision k => revision = requested m /\ outstanding m /\ k = mkind m
  | RHalf revision x =>
      revision = requested m /\ outstanding m /\ mkind m = 3 /\ x = position_x_bits m
  | RHave revision command => revision = requested m /\ outstanding m /\ list.last l = Some command
  | RPanic => False
  end.

Definition inv (s : Sys) : Prop :=
  requested (box s) = Z.of_nat (length (log s)) /\ requested (box s) <= u64_max
  /\ (settled (box s) \/ outstanding (box s) /\ holds_last (box s) (log s))
  /\ from_encoded (completion (box s)) <> None
  /\ writer_ok (box s) (writer s) /\ reader_ok (box s) (log s) (reader s).

Ltac mail := cbn in *; unfold settled, outstanding in *; bool_inv; try done; try lia.

Lemma encode_kind c k d x y :
  encode_command c = Ok (k, d, x, y) -> decode_command k d x y = Some c.
Proof.
  destruct c as [t|t|[a b]|]; cbn; try case_match; intros Hq; try discriminate Hq; injection Hq as <- <- <- <-; done.
Qed.

Lemma mail_inv_start : inv start.
Proof. unfold inv. split_and!; cbn; try done; [left; reflexivity]. Qed.

Lemma inv_writer call s : inv s -> inv (writer_step call s).
Proof.
  destruct s as [m w r l]. unfold inv, writer_step; cbn [box writer reader log].
  intros (Hreq & Hu & Hbox & Hc & Hw & Hr).
  destruct w as [|c previous|c previous|n c revision [[[k d] x] y]]; cbn [writer_ok] in Hw.
  - split_and!; done.
  - split_and!; try done. destruct (completed m =? previous) eqn:E; mail.
  - split_and!; try done. destruct Hw as [-> Hs].
    case_bool_decide; [done|]. unfold checked_add_u64. destruct (requested m + 1 <=? u64_max) eqn:E; [|done].
    destruct (encode_command c) as [[[[k d] x] y]|] eqn:Ec; [|done]. bool_inv. cbn.
    split_and!; try done; lia.
  - destruct Hw as (Hs & -> & Hm & Hc' & Hn & Hf & Hf1 & Hf2 & Hf3).
    destruct n as [|[|[|[|[|n]]]]]; [..|lia];
      cbn [box writer reader log store_field publish_revision requested completed completion].
    1,2,3,4: split_and!; try done; try (left; exact Hs); try (by destruct r; mail);
      cbn; split_and!; try exact Hs; try done; try lia; intros ?; auto with lia.
    + rewrite length_app. cbn [length]. split_and!; try done; try lia.
      * right. split; [unfold outstanding, settled in *; cbn; lia|]. unfold holds_last. exists c. rewrite list.last_snoc. split; [done|]. cbn.
        rewrite Hf, Hf1, Hf2, Hf3 by lia. done.
      * destruct r; mail.
Qed.

Lemma inv_reader c s : inv s -> inv (reader_step c s).
Proof.
  destruct s as [m w r l]. unfold inv, reader_step; cbn [box writer reader log].
  intros (Hreq & Hu & Hbox & Hc & Hw & Hr).
  destruct r as [|rev|rev|rev k|rev x|rev cmd|rev|]; cbn [reader_ok] in Hr;
    cbn [box writer reader log requested completed completion].
  - split_and!; try done. cbn. destruct Hbox as [|[? _]]; mail.
  - split_and!; try done. destruct (rev =? completed m) eqn:E; mail.
  - split_and!; try done. cbn. tauto.
  - split_and!; try done. destruct Hr as (-> & Ho & ->).
    destruct Hbox as [Hs|[_ (cm & Hl & He%encode_kind)]]; [mail|].
    unfold decode_command in He.
    destruct (mkind m) as [|[[|[]|]|[|[]|]|]|] eqn:Ek; try discriminate He; injection He as <-; done.
  - split_and!; try done. destruct Hr as (-> & Ho & Hk & ->).
    destruct Hbox as [Hs|[_ (cm & Hl & He%encode_kind)]]; [mail|].
    rewrite Hk in He. injection He as <-. done.
  - split_and!; try done; [by destruct c|]. cbn. destruct Hr as (-> & Ho & _). done.
  - destruct Hr as (-> & Ho). split_and!; try done; [left; mail|].
    destruct w as [|?|?|?]; mail.
  - done.
Qed.

Lemma mail_reach_inv s : reach s -> inv s.
Proof.
  induction 1 as [|s s' _ IH Hs]; [apply mail_inv_start|].
  destruct Hs; [by apply inv_writer|by apply inv_reader].
Qed.

(** Run alone, the accesses of a call are the call. *)
Fixpoint writer_run (n : nat) (call : CaptureCommand) (s : Sys) : Sys :=
  match n with O => s | S n => writer_run n call (writer_step call s) end.
Fixpoint reader_run (n : nat) (c : ControlCompletion) (s : Sys) : Sys :=
  match n with O => s | S n => reader_run n c (reader_step c s) end.

Lemma submit_steps s call m' revision :
  writer s = WIdle -> submit (box s) call = (m', Ok revision) ->
  writer_run 8 call s = mkSys m' WIdle (reader s) (log s ++ [call]).
Proof.
  destruct s as [m w r l]. cbn [writer box]. intros -> Hs. unfold submit in Hs.
  destruct (completed m =? requested m) eqn:E1; cbn [negb] in Hs; [|done].
  case_bool_decide as E2; [done|].
  destruct (checked_add_u64 (requested m) 1) as [rev|] eqn:E3; [|done].
  destruct (encode_command call) as [[[[k d] x] y]|] eqn:E4; [|done]. injection Hs as <- <-.
  cbn [writer_run]. unfold writer_step at 8. cbn [writer box].
  unfold writer_step at 7. cbn [writer box]. rewrite E1. cbn [negb].
  unfold writer_step at 6. cbn [writer box]. rewrite bool_decide_eq_false_2, E3, E4 by done.
  reflexivity.
Qed.
End Mail.

(** ** Properties *)

(** However the controller's and the capture thread's atomic accesses
    interleave, the capture thread only ever holds a whole command, the one
    published at the revision it holds, and never reaches an unreachable arm;
    at most one command is outstanding, and a new one is published only after
    the previous one was completed. *)
Theorem mailbox_commands_intact (s s' : Mail.Sys) :
  Mail.reach s -> Mail.step s s' ->
  Mail.reader s <> Mail.RPanic /\ is_Some (pending (Mail.box s)) /\ is_Some (completed_revision (Mail.box s))
  /\ (forall revision command, Mail.reader s = Mail.RHave revision command ->
      0 < revision /\ Mail.log s !! Z.to_nat (revision - 1) = Some command
      /\ revision = requested (Mail.box s))
  /\ (completed (Mail.box s) = requested (Mail.box s) \/ completed (Mail.box s) + 1 = requested (Mail.box s))
  /\ (Mail.log s' = Mail.log s
      \/ exists command, Mail.log s' = Mail.log s ++ [command] /\ completed (Mail.box s) = requested (Mail.box s)).
Proof.
  intros Hr Hs. pose proof (Mail.mail_reach_inv s Hr) as (Hreq & Hu & Hbox & Hc & Hw & Hrd).
  split_and!.
  - intros E. by rewrite E in Hrd.
  - unfold pending. case_match eqn:E; [by eexists|]. destruct Hbox as [Hset|[_ (c & _ & He)]].
    { unfold Mail.settled in Hset. bool_inv. congruence. }
    rewrite (Mail.encode_kind _ _ _ _ _ He). by eexists.
  - unfold completed_revision. destruct (from_encoded (completion (Mail.box s))) as [[]|]; [by eexists..|done].
  - intros rev cmd E. rewrite E in Hrd. destruct Hrd as (-> & Ho & Hl).
    rewrite list.last_lookup in Hl. unfold Mail.outstanding in Ho.
    assert (length (Mail.log s) <> 0%nat) by (destruct (Mail.log s); [done|cbn; lia]).
    split_and!; [lia| |done]. rewrite <- Hl. f_equal. lia.
  - unfold Mail.settled, Mail.outstanding in Hbox. tauto.
  - destruct Hs as [call s|c s].
    + unfold Mail.writer_step. destruct (Mail.writer s) as [|? ?|? ?|[|[|[|[|[|n]]]]] c0 rev pay]; cbn; auto.
      right. exists c0. split; [done|]. by destruct Hw.
    + left. unfold Mail.reader_step. destruct (Mail.reader s); cbn; done.
Qed.

Definition mail_sample : Mail.Sys :=
  Mail.reader_run 5 CApplied
    (Mail.writer_run 8 (LocalAt (mkPoint f64_one f64_zero)) Mail.start).

Lemma mail_run_reach n c m call s :
  Mail.reach s -> Mail.reach (Mail.reader_run n c (Mail.writer_run m call s)).
Proof.
  intros Hr. revert s Hr. induction m as [|m IHm]; intros s Hr; cbn.
  - revert s Hr. induction n as [|n IHn]; intros s Hr; cbn; [done|].
    apply IHn. eapply Mail.reach_step; [done|apply Mail.step_reader].
  - apply IHm. eapply Mail.reach_step; [done|apply Mail.step_writer].
Qed.

Lemma mailbox_commands_intact_witness :
  Mail.reader mail_sample = Mail.RHave 1 (LocalAt (mkPoint f64_one f64_zero))
  /\ Mail.log mail_sample !! Z.to_nat (1 - 1) = Some (LocalAt (mkPoint f64_one f64_zero)).
Proof.
  split; [reflexivity|].
  apply (mailbox_commands_intact mail_sample (Mail.reader_step CApplied mail_sample)).
  - apply mail_run_reach, Mail.reach_start.
  - apply Mail.step_reader.
  - reflexivity.
Defined.

(** Alone, a controller that finds the mailbox settled and not failed
    publishes a valid command under the next revision, the capture thread takes
    exactly that command, further commands are refused as pending until it is
    completed, and a failed completion refuses every later command; an invalid
    deadline or point and the last revision leave the mailbox as it was. *)
Theorem submit_take_complete (m : Mailbox) (command other : CaptureCommand) (c : ControlCompletion) :
  completed m = requested m -> from_encoded (completion m) = Some CApplied ->
  match encode_command command with
  | Ok _ =>
      if requested m <? u64_max then
        exists m', submit m command = (m', Ok (requested m + 1))
        /\ pending m' = Some (Some (requested m + 1, command))
        /\ submit m' other = (m', Err Pending)
        /\ pending (complete_command m' (requested m + 1) c) = Some None
        /\ completed_revision (complete_command m' (requested m + 1) c)
           = Some (match c with CApplied => Ok (requested m + 1) | CFailed => Err Failed end)
        /\ (c = CFailed -> submit (complete_command m' (requested m + 1) c) other
                           = (complete_command m' (requested m + 1) c, Err Failed))
      else submit m command = (m, Err Exhausted)
  | Err e =>
      submit m command = (m, Err (if requested m <? u64_max then e else Exhausted))
  end.
Proof.
  intros Hset Happ. unfold submit at 1. rewrite Hset, Z.eqb_refl, Happ. cbn [negb].
  rewrite bool_decide_eq_false_2 by done. unfold checked_add_u64.
  replace (requested m + 1 <=? u64_max) with (requested m <? u64_max) by lia.
  destruct (encode_command command) as [[[[k d] x] y]|e] eqn:Ee.
  2:{ unfold submit. rewrite Hset, Z.eqb_refl, Happ, bool_decide_eq_false_2 by done. cbn [negb].
      unfold checked_add_u64. replace (requested m + 1 <=? u64_max) with (requested m <? u64_max) by lia.
      destruct (requested m <? u64_max); [by rewrite Ee|done]. }
  destruct (requested m <? u64_max) eqn:Eu.
  2:{ unfold submit. rewrite Hset, Z.eqb_refl, Happ, bool_decide_eq_false_2 by done. cbn [negb].
      unfold checked_add_u64. by replace (requested m + 1 <=? u64_max) with false by lia. }
  eexists. split; [done|]. unfold pending, complete_command, completed_revision, submit;
    cbn [requested completed completion mkind deadline_ns position_x_bits position_y_bits].
  rewrite !Z.eqb_refl. replace (requested m + 1 =? requested m) with false by lia.
  replace (requested m =? requested m + 1) with false by lia. cbn [negb].
  rewrite (Mail.encode_kind _ _ _ _ _ Ee). split_and!; try done; [by destruct c|].
  intros ->. reflexivity.
Qed.

Lemma submit_take_complete_witness :
  exists m', submit control_channel (RemoteUntil (ms 5)) = (m', Ok 1)
    /\ pending m' = Some (Some (1, RemoteUntil (ms 5))).
Proof.
  destruct (submit_take_complete control_channel (RemoteUntil (ms 5)) Local CApplied eq_refl eq_refl)
    as (m' & H1 & H2 & _).
  exists m'. split; [exact H1|exact H2].
Defined.
