(* ===== verification/CaptureEvent.v ===== *)
(** * Captured events, their slot words and stop reasons
      (monhop-core/src/capture.rs)

    A captured event crosses the capture ring as three words, a header with
    bit fields, a payload and a revision, and is validated again when it is
    taken out.  [i32] values are [Z] in range; [as u32] is the remainder
    modulo 2^32.  The events' [Debug] output is not modelled. *)

From S2P Require Import Prelude F64 Types.

Inductive CaptureEvent :=
| EvKey (usage : HidUsage) (pressed repeat : bool) (modifiers : ModifierState)
| EvButton (button : MouseButton) (pressed : bool) (at_ : Z)
| EvAbsoluteMotion (x y : Z)
| EvRelativeMotion (dx dy : Z) (gain : f64)
| EvScroll (horizontal vertical : Z)
| EvLogicalAbsoluteMotion (x y : f64)
| EvLogicalRelativeMotion (dx dy : f64)
| EvLogicalScroll (horizontal vertical : f64)
| EvRouteChanged (remote : bool) (revision : Z)
| EvGesture (kind : GestureKind) (phase : option GesturePhase) (value : f64)
| EvSystemGesture (gesture : SystemGesture).
#[global] Instance CaptureEvent_eq_dec : EqDecision CaptureEvent.
Proof. solve_decision. Defined.

(** [CaptureEvent::is_valid]. *)
Definition event_is_valid (e : CaptureEvent) : bool :=
  match e with
  | EvKey usage _ _ _ => usage_is_valid usage
  | EvButton _ _ _ | EvAbsoluteMotion _ _ => true
  | EvRelativeMotion dx dy gain =>
      (negb (dx =? 0) || negb (dy =? 0)) && f64_is_finite gain && f64_leb f64_zero gain
  | EvScroll h v => negb (h =? 0) || negb (v =? 0)
  | EvLogicalAbsoluteMotion x y => f64_is_finite x && f64_is_finite y
  | EvLogicalRelativeMotion dx dy =>
      f64_is_finite dx && f64_is_finite dy && (negb (f64_eqb dx f64_zero) || negb (f64_eqb dy f64_zero))
  | EvLogicalScroll h v =>
      f64_is_finite h && f64_is_finite v && (negb (f64_eqb h f64_zero) || negb (f64_eqb v f64_zero))
  | EvRouteChanged _ _ | EvSystemGesture _ => true
  | EvGesture kind phase value => is_ok (from_parts kind phase value)
  end.

(** [CaptureEvent::gesture]. *)
Definition gesture_event (g : PointerGesture) : CaptureEvent :=
  EvGesture (gesture_kind g) (gesture_phase g) (gesture_value g).

(** ** Stop reasons *)

Inductive StopReason :=
| Requested | QueueFull | QueueContended | ConsumerDropped | LeaseExpired | ClockRegression
| InvalidInput | EmergencyEscapeStop | NativeFailure | DisplaysChanged.
#[global] Instance StopReason_eq_dec : EqDecision StopReason.
Proof. solve_decision. Defined.

Definition ends_session (r : StopReason) : bool := match r with Requested => false | _ => true end.
Definition stop_encoded (r : StopReason) : Z :=
  match r with
  | Requested => 1 | QueueFull => 2 | QueueContended => 3 | ConsumerDropped => 4
  | LeaseExpired => 5 | ClockRegression => 6 | InvalidInput => 7
  | EmergencyEscapeStop => 8 | NativeFailure => 9 | DisplaysChanged => 10
  end.
Definition stop_from_encoded (v : Z) : option StopReason :=
  match v with
  | 1 => Some Requested | 2 => Some QueueFull | 3 => Some QueueContended | 4 => Some ConsumerDropped
  | 5 => Some LeaseExpired | 6 => Some ClockRegression | 7 => Some InvalidInput
  | 8 => Some EmergencyEscapeStop | 9 => Some NativeFailure | 10 => Some DisplaysChanged
  | _ => None
  end.

(** [CaptureStop]: the shared byte, 0 until the first stop.  Its call-site
    record is not modelled. *)
Abbreviation CaptureStop := Z (only parsing).
Definition new_stop : CaptureStop := 0.
Definition stop_with (s : CaptureStop) (r : StopReason) : CaptureStop :=
  if s =? 0 then stop_encoded r else s.
Definition stop_reason (s : CaptureStop) : option StopReason := stop_from_encoded s.
Definition is_stopped (s : CaptureStop) : bool := bool_decide (is_Some (stop_reason s)).
Definition stop_ends_session (s : CaptureStop) : bool :=
  match stop_reason s with Some r => ends_session r | None => false end.
(** [stopped_or]: [None] is the [expect] that fails. *)
Definition stopped_or (s : CaptureStop) (r : StopReason) : CaptureStop * option StopReason :=
  let s := stop_with s r in (s, stop_reason s).

(** ** Slot words *)

Definition EVENT_KEY : Z := 1.
Definition EVENT_BUTTON : Z := 2.
Definition EVENT_ABSOLUTE_MOTION : Z := 3.
Definition EVENT_RELATIVE_MOTION : Z := 4.
Definition EVENT_SCROLL : Z := 5.
Definition EVENT_ROUTE_CHANGED : Z := 6.
Definition EVENT_LOGICAL_ABSOLUTE_MOTION : Z := 7.
Definition EVENT_LOGICAL_RELATIVE_MOTION : Z := 8.
Definition EVENT_LOGICAL_SCROLL : Z := 9.
Definition EVENT_GESTURE : Z := 10.
Definition EVENT_SYSTEM_GESTURE : Z := 11.
Definition EVENT_KIND_MASK : Z := 0xff.
Definition GESTURE_FIELD_MASK : Z := 0xf.

Definition as_u32 (z : Z) : Z := z mod 2 ^ 32.
Definition as_i32 (z : Z) : Z := let u := as_u32 z in if u <? 2 ^ 31 then u else u - 2 ^ 32.
Definition is_i32 (z : Z) : Prop := - 2 ^ 31 <= z < 2 ^ 31.
#[global] Instance is_i32_dec z : Decision (is_i32 z).
Proof. unfold is_i32. apply _. Defined.

Definition pack_i32_pair (first second : Z) : Z := Z.lor (as_u32 first) (as_u32 second ≪ 32).
Definition unpack_i32_pair (packed : Z) : Z * Z := (as_i32 packed, as_i32 (packed ≫ 32)).

Record EncodedEvent := mkEncoded { enc_header : Z; enc_payload : Z; enc_revision : Z }.

Definition u64_of_bool (b : bool) : Z := if b then 1 else 0.

(** [EncodedEvent::from]. *)
Definition encode_event (e : CaptureEvent) : EncodedEvent :=
  match e with
  | EvKey usage pressed repeat modifiers =>
      mkEncoded (Z.lor (Z.lor (Z.lor (Z.lor EVENT_KEY (usage ≪ 8)) (u64_of_bool pressed ≪ 24))
                   (u64_of_bool repeat ≪ 25)) (modifiers ≪ 26)) 0 0
  | EvButton button pressed at_ =>
      mkEncoded (Z.lor (Z.lor EVENT_BUTTON (button_index button ≪ 8)) (u64_of_bool pressed ≪ 11))
        (Z.min at_ u64_max) 0
  | EvAbsoluteMotion x y => mkEncoded EVENT_ABSOLUTE_MOTION (pack_i32_pair x y) 0
  | EvRelativeMotion dx dy gain => mkEncoded EVENT_RELATIVE_MOTION (pack_i32_pair dx dy) gain
  | EvScroll h v => mkEncoded EVENT_SCROLL (pack_i32_pair h v) 0
  | EvLogicalAbsoluteMotion x y => mkEncoded EVENT_LOGICAL_ABSOLUTE_MOTION x y
  | EvLogicalRelativeMotion dx dy => mkEncoded EVENT_LOGICAL_RELATIVE_MOTION dx dy
  | EvLogicalScroll h v => mkEncoded EVENT_LOGICAL_SCROLL h v
  | EvRouteChanged remote revision =>
      mkEncoded (Z.lor EVENT_ROUTE_CHANGED (u64_of_bool remote ≪ 8)) 0 revision
  | EvGesture kind phase value =>
      mkEncoded (Z.lor (Z.lor EVENT_GESTURE (kind_to_wire kind ≪ 8))
                   (from_option phase_to_wire 0 phase ≪ 12)) value 0
  | EvSystemGesture g => mkEncoded (Z.lor EVENT_SYSTEM_GESTURE (system_to_wire g ≪ 8)) 0 0
  end.

Record CapturedEvent := mkCaptured {
  event : CaptureEvent; routing_revision : Z; remote : bool; floor_generation : Z }.

Definition header_bit (header bit : Z) : bool := negb (Z.land header (1 ≪ bit) =? 0).

Definition decode_event (header payload event_revision : Z) : option CaptureEvent :=
  match Z.land header EVENT_KIND_MASK with
  | 1 => Some (EvKey (Z.land (header ≫ 8) u16_max) (header_bit header 24) (header_bit header 25)
                (Z.land (header ≫ 26) u8_max))
  | 2 => button ← button_from_index (Z.land (header ≫ 8) 0x07);
         Some (EvButton button (header_bit header 11) payload)
  | 3 => let '(x, y) := unpack_i32_pair payload in Some (EvAbsoluteMotion x y)
  | 4 => let '(dx, dy) := unpack_i32_pair payload in Some (EvRelativeMotion dx dy event_revision)
  | 5 => let '(h, v) := unpack_i32_pair payload in Some (EvScroll h v)
  | 6 => Some (EvRouteChanged (header_bit header 8) event_revision)
  | 7 => Some (EvLogicalAbsoluteMotion payload event_revision)
  | 8 => Some (EvLogicalRelativeMotion payload event_revision)
  | 9 => Some (EvLogicalScroll payload event_revision)
  | 10 =>
      kind ← kind_from_wire (Z.land (header ≫ 8) GESTURE_FIELD_MASK);
      phase ← match Z.land (header ≫ 12) GESTURE_FIELD_MASK with
              | 0 => Some None
              | p => Some <$> phase_from_wire p
              end;
      Some (EvGesture kind phase payload)
  | 11 => EvSystemGesture <$> system_from_wire (Z.land (header ≫ 8) u8_max)
  | _ => None
  end.

(** A route change whose tag differs from its route. *)
Definition route_mismatch (e : CaptureEvent) (remote : bool) (routing_revision : Z) : bool :=
  match e with
  | EvRouteChanged event_remote revision =>
      negb (Bool.eqb event_remote remote) || negb (revision =? routing_revision)
  | _ => false
  end.

(** [CapturedEvent::decode]. *)
Definition decode_captured (header payload event_revision routing_revision routing_remote
    floor_generation : Z) : option CapturedEvent :=
  remote ← match routing_remote with 0 => Some false | 1 => Some true | _ => None end;
  event ← decode_event header payload event_revision;
  if route_mismatch event remote routing_revision then None
  else if event_is_valid event
  then Some (mkCaptured event routing_revision remote floor_generation) else None.

(** ** Values of the types *)

Definition is_event (e : CaptureEvent) : Prop :=
  match e with
  | EvKey usage _ _ modifiers => is_u16 usage /\ is_u8 modifiers
  | EvButton _ _ at_ => is_duration at_
  | EvAbsoluteMotion x y | EvScroll x y => is_i32 x /\ is_i32 y
  | EvRelativeMotion dx dy gain => is_i32 dx /\ is_i32 dy /\ is_u64 gain
  | EvLogicalAbsoluteMotion x y | EvLogicalRelativeMotion x y | EvLogicalScroll x y =>
      is_u64 x /\ is_u64 y
  | EvRouteChanged _ revision => is_u64 revision
  | EvGesture _ _ value => is_u64 value
  | EvSystemGesture _ => True
  end.

(** What a slot keeps of an event: a button's time saturates at [u64::MAX]
    nanoseconds, everything else is exact. *)
Definition slot_event (e : CaptureEvent) : CaptureEvent :=
  match e with EvButton b p at_ => EvButton b p (Z.min at_ u64_max) | _ => e end.

Definition encoded_words (r : CapturedEvent) : list Z :=
  let e := encode_event (event r) in
  [enc_header e; enc_payload e; enc_revision e; routing_revision r; u64_of_bool (remote r);
   floor_generation r].

(** ** Lemmas *)

(** The stop byte is 0 or a reason. *)
Definition stop_ok (s : CaptureStop) : Prop := s = 0 \/ is_Some (stop_reason s).

Lemma stop_with_reason s r : stop_ok s -> is_Some (stop_reason (stop_with s r)).
Proof.
  intros Hs. unfold stop_with. destruct (s =? 0) eqn:E; [by destruct r; eexists|].
  bool_inv. by destruct Hs.
Qed.

Lemma stop_with_ok s r : stop_ok s -> stop_ok (stop_with s r).
Proof. intros Hs. right. by apply stop_with_reason. Qed.

Section Fields.

Lemma header_bit_div h n : 0 <= n -> header_bit h n = Z.odd (h / 2 ^ n).
Proof.
  intros Hn. unfold header_bit. rewrite <- Z.shiftr_div_pow2, <- Z.bit0_odd, Z.shiftr_spec by lia.
  cbn [Z.add]. replace (0 + n) with n by lia.
  destruct (Z.testbit h n) eqn:E.
  - apply negb_true_iff, Z.eqb_neq. intros H0.
    assert (Hf : Z.testbit (Z.land h (1 ≪ n)) n = true)
      by (rewrite Z.land_spec, Z.shiftl_spec, Z.sub_diag, E by lia; reflexivity).
    rewrite H0, Z.bits_0 in Hf. discriminate.
  - apply negb_false_iff, Z.eqb_eq, Z.bits_inj'. intros i Hi.
    rewrite Z.land_spec, Z.shiftl_spec, Z.bits_0 by lia.
    destruct (Z.eq_dec i n) as [->|Hne]; [by rewrite E|].
    destruct (Z.ltb_spec i n); [rewrite (Z.testbit_neg_r 1) by lia; apply andb_false_r|].
    replace (Z.testbit 1 (i - n)) with false; [apply andb_false_r|].
    symmetry. apply Z.bits_above_log2; cbn; lia.
Qed.

Lemma shiftr_field h n : 0 <= n -> h ≫ n = h / 2 ^ n.
Proof. apply Z.shiftr_div_pow2. Qed.

Lemma pack_unpack x y : is_i32 x -> is_i32 y -> unpack_i32_pair (pack_i32_pair x y) = (x, y).
Proof.
  unfold is_i32, pack_i32_pair, unpack_i32_pair, as_i32, as_u32. intros Hx Hy.
  pose proof (Z.mod_pos_bound x (2 ^ 32) ltac:(lia)). pose proof (Z.mod_pos_bound y (2 ^ 32) ltac:(lia)).
  rewrite lor_shiftl_r by lia. rewrite shiftr_field by lia.
  rewrite (Z.add_comm (x mod 2 ^ 32)), mod_field, div_field, Z.mod_mod by lia.
  assert (Hm : forall z, - 2 ^ 31 <= z < 2 ^ 31 ->
               (if z mod 2 ^ 32 <? 2 ^ 31 then z mod 2 ^ 32 else z mod 2 ^ 32 - 2 ^ 32) = z).
  { intros z Hz. destruct (Z_lt_le_dec z 0).
    - rewrite <- (Z.mod_unique z (2 ^ 32) (-1) (z + 2 ^ 32)) by lia. case_match; bool_inv; lia.
    - rewrite Z.mod_small by lia. case_match; bool_inv; lia. }
  f_equal; by apply Hm.
Qed.

Lemma pack_i32_u64 x y : is_u64 (pack_i32_pair x y).
Proof.
  unfold pack_i32_pair, as_u32. pose proof (Z.mod_pos_bound x (2 ^ 32) ltac:(lia)).
  pose proof (Z.mod_pos_bound y (2 ^ 32) ltac:(lia)). rewrite lor_shiftl_r by lia. unfold_int. lia.
Qed.

(** The headers as sums of their fields. *)
Lemma key_header usage pressed repeat modifiers :
  is_u16 usage -> is_u8 modifiers ->
  enc_header (encode_event (EvKey usage pressed repeat modifiers))
  = 1 + usage * 2 ^ 8 + u64_of_bool pressed * 2 ^ 24 + u64_of_bool repeat * 2 ^ 25 + modifiers * 2 ^ 26.
Proof.
  unfold_int. intros Hu Hm. cbn [encode_event enc_header]. unfold EVENT_KEY, u64_of_bool.
  rewrite (lor_shiftl_r usage 1) by lia.
  rewrite (lor_shiftl_r (if pressed then 1 else 0)) by lia.
  rewrite (lor_shiftl_r (if repeat then 1 else 0)) by (destruct pressed; lia).
  rewrite lor_shiftl_r by (destruct pressed, repeat; lia). lia.
Qed.

(** Fields of a sum of constants and variables. *)
Ltac fields :=
  change EVENT_KIND_MASK with (2 ^ 8 - 1); change u16_max with (2 ^ 16 - 1);
  change u8_max with (2 ^ 8 - 1); change 0x07 with (2 ^ 3 - 1);
  rewrite ?land_mask, ?header_bit_div, ?shiftr_field by lia.

Lemma decode_key usage pressed repeat modifiers :
  is_u16 usage -> is_u8 modifiers ->
  decode_event (enc_header (encode_event (EvKey usage pressed repeat modifiers))) 0 0
  = Some (EvKey usage pressed repeat modifiers).
Proof.
  intros Hu Hm. rewrite key_header by done. unfold_int. unfold decode_event. fields.
  set (h := 1 + _ + _ + _ + _).
  assert (H0 : h mod 2 ^ 8 = 1) by (unfold h; Z.to_euclidean_division_equations; lia).
  assert (H1 : h / 2 ^ 8 mod 2 ^ 16 = usage)
    by (unfold h, u64_of_bool; destruct pressed, repeat; Z.to_euclidean_division_equations; lia).
  assert (H2 : h / 2 ^ 26 mod 2 ^ 8 = modifiers)
    by (unfold h, u64_of_bool; destruct pressed, repeat; Z.to_euclidean_division_equations; lia).
  assert (H3 : h / 2 ^ 24 = u64_of_bool pressed + 2 * (u64_of_bool repeat + 2 * modifiers))
    by (unfold h, u64_of_bool; destruct pressed, repeat; Z.to_euclidean_division_equations; lia).
  assert (H4 : h / 2 ^ 25 = u64_of_bool repeat + 2 * modifiers)
    by (unfold h, u64_of_bool; destruct pressed, repeat; Z.to_euclidean_division_equations; lia).
  rewrite H0, H1, H2, H3, H4, !Z.odd_add_mul_2. by destruct pressed, repeat.
Qed.

(** Taking an event out of a slot gives what the slot keeps of it. *)
Lemma decode_encode_event e :
  is_event e ->
  decode_event (enc_header (encode_event e)) (enc_payload (encode_event e)) (enc_revision (encode_event e))
  = Some (slot_event e).
Proof.
  destruct e as [usage pr rep mods|b pr t|x y|dx dy g|h v|x y|dx dy|h v|rem rev|k ph v|g];
    intros He; cbn [is_event] in He.
  - destruct He. by apply decode_key.
  - by destruct b, pr.
  - destruct He. unfold decode_event. cbn [encode_event enc_payload]. by rewrite pack_unpack.
  - destruct He as (? & ? & ?). unfold decode_event. cbn [encode_event enc_payload]. by rewrite pack_unpack.
  - destruct He. unfold decode_event. cbn [encode_event enc_payload]. by rewrite pack_unpack.
  - done.
  - done.
  - done.
  - by destruct rem.
  - by destruct k, ph as [[]|].
  - by destruct g.
Qed.

Lemma slot_event_valid e : event_is_valid (slot_event e) = event_is_valid e.
Proof. by destruct e. Qed.

Lemma route_mismatch_slot e rem rev : route_mismatch (slot_event e) rem rev = route_mismatch e rem rev.
Proof. by destruct e. Qed.
End Fields.

(** ** Properties *)

(** A captured event survives its slot: the words the producer writes for
    a valid event that matches its route tag decode to the same event, tag and
    floor generation (a button's time saturating at [u64::MAX] nanoseconds),
    and decoding refuses every other route flag and every mismatched or invalid
    event, so nothing invalid leaves the ring whatever its words hold. *)
Theorem captured_event_roundtrip (r : CapturedEvent) :
  is_event (event r) -> event_is_valid (event r) = true ->
  route_mismatch (event r) (remote r) (routing_revision r) = false ->
  (exists h p v g m f, encoded_words r = [h; p; v; g; m; f]
    /\ decode_captured h p v g m f
       = Some (mkCaptured (slot_event (event r)) (routing_revision r) (remote r) (floor_generation r)))
  /\ (forall h p v g m f r', decode_captured h p v g m f = Some r' ->
      event_is_valid (event r') = true /\ m = u64_of_bool (remote r') /\ g = routing_revision r'
      /\ f = floor_generation r' /\ route_mismatch (event r') (remote r') g = false).
Proof.
  intros He Hv Hm. split.
  - do 6 eexists. split; [reflexivity|]. unfold decode_captured.
    assert (Hb : match u64_of_bool (remote r) with 0 => Some false | 1 => Some true | _ => None end
                 = Some (remote r)) by (by destruct (remote r)).
    rewrite Hb. cbn [mbind option_bind]. rewrite decode_encode_event by done. cbn [mbind option_bind].
    by rewrite route_mismatch_slot, Hm, slot_event_valid, Hv.
  - intros h p v g m f r'. unfold decode_captured.
    destruct (decode_event h p v) as [e|] eqn:E;
      [|destruct m as [|[]|]; intros [=]].
    intros H. assert (Hbit : exists b, m = u64_of_bool b
      /\ (if route_mismatch e b g then None else if event_is_valid e then Some (mkCaptured e g b f) else None) = Some r').
    { destruct m as [|[|[]|]|]; try discriminate H; [exists false|exists true]; done. }
    destruct Hbit as (b & -> & Hd). destruct (route_mismatch e b g) eqn:Er; [done|].
    destruct (event_is_valid e) eqn:Ev; [|done]. injection Hd as <-. done.
Qed.

Definition sample_captured : CapturedEvent := mkCaptured (EvKey 4 true false 2) 7 true 3.

Lemma captured_event_roundtrip_witness :
  encoded_words sample_captured = [0x9000401; 0; 0; 7; 1; 3]
  /\ decode_captured 0x9000401 0 0 7 1 3 = Some sample_captured.
Proof.
  split; [reflexivity|].
  destruct (captured_event_roundtrip sample_captured) as [(h & p & v & g & m & f & H1 & H2) _].
  - split; (split; [vm_compute; discriminate|vm_compute; discriminate]).
  - reflexivity.
  - reflexivity.
  - injection H1 as <- <- <- <- <- <-. exact H2.
Defined.

