(* ===== verification/CaptureQueue.v ===== *)
(** * The capture ring (monhop-core/src/capture.rs)

    A single-producer, single-consumer ring of 512 slots, each seven atomic
    words.  [try_push_tagged] and [try_pop_tagged] are the calls run alone;
    [Ring] gives every atomic access of the hook thread and of the consumer as a
    step, together with stops from any other thread.  Accesses are interleaved
    as a sequence (the code orders them with release stores and acquire loads
    of [publish]).  Positions are [u64] and wrap.  The waker, the debug output
    and the call-site record of a stop are not modelled. *)

From S2P Require Import Prelude F64 Types CaptureEvent.

Definition CAPTURE_QUEUE_CAPACITY : Z := 512.

Record Slot := mkSlot {
  slot_publish : Z; event_header : Z; event_payload : Z; event_revision : Z;
  slot_routing_revision : Z; slot_routing_remote : Z; slot_floor_generation : Z }.

Definition new_slot (position : Z) : Slot := mkSlot position 0 0 0 0 0 0.

Definition slot_index (position : Z) : nat := Z.to_nat (position mod CAPTURE_QUEUE_CAPACITY).

Record Producer := mkProducer { tail : Z; p_routing_revision : Z; p_remote : bool }.
Record Consumer := mkConsumer { head : Z }.
Record Queue := mkQueue { q_stop : CaptureStop; q_slots : list Slot }.

(** [capture_channel] on a shared stop. *)
Definition capture_channel (s : CaptureStop) : Queue * Producer * Consumer :=
  (mkQueue s ((fun i => new_slot (Z.of_nat i)) <$> seq 0 (Z.to_nat CAPTURE_QUEUE_CAPACITY)),
   mkProducer 0 0 false, mkConsumer 0).

Definition accepts_route (p : Producer) (r : CapturedEvent) : bool :=
  match event r with
  | EvRouteChanged rem revision =>
      (p_routing_revision p <? revision) && (routing_revision r =? revision) && Bool.eqb (remote r) rem
  | _ => (routing_revision r =? p_routing_revision p) && Bool.eqb (remote r) (p_remote p)
  end.

(** The six payload words in the order the producer stores them. *)
Definition words (s : Slot) : list Z :=
  [event_header s; event_payload s; event_revision s; slot_routing_revision s;
   slot_routing_remote s; slot_floor_generation s].
Definition set_word (n : nat) (v : Z) (s : Slot) : Slot :=
  let '(mkSlot p a b c d e f) := s in
  match n with
  | 0%nat => mkSlot p v b c d e f | 1%nat => mkSlot p a v c d e f | 2%nat => mkSlot p a b v d e f
  | 3%nat => mkSlot p a b c v e f | 4%nat => mkSlot p a b c d v f | _ => mkSlot p a b c d e v
  end.
Definition set_publish (v : Z) (s : Slot) : Slot :=
  let '(mkSlot _ a b c d e f) := s in mkSlot v a b c d e f.

(** The producer after publishing [r]. *)
Definition advance (p : Producer) (r : CapturedEvent) : Producer :=
  match event r with
  | EvRouteChanged rem revision => mkProducer (wrapping_add_u64 (tail p) 1) revision rem
  | _ => mkProducer (wrapping_add_u64 (tail p) 1) (p_routing_revision p) (p_remote p)
  end.

Definition fill (r : CapturedEvent) (s : Slot) : Slot :=
  let e := encode_event (event r) in
  mkSlot (slot_publish s) (enc_header e) (enc_payload e) (enc_revision e) (routing_revision r)
    (u64_of_bool (remote r)) (floor_generation r).

(** [try_push_tagged]; the outer [None] is a panic (an index out of range, or a
    stop byte that is no reason). *)
Definition try_push_tagged (q : Queue) (p : Producer) (r : CapturedEvent)
  : option (Queue * Producer * result StopReason unit) :=
  match stop_reason (q_stop q) with
  | Some reason => Some (q, p, Err reason)
  | None =>
      if negb (event_is_valid (event r)) || negb (accepts_route p r) then
        let '(s, reason) := stopped_or (q_stop q) InvalidInput in
        reason ← reason; Some (mkQueue s (q_slots q), p, Err reason)
      else
        let position := tail p in
        slot ← q_slots q !! slot_index position;
        if negb (slot_publish slot =? position) then
          let '(s, reason) := stopped_or (q_stop q) QueueFull in
          reason ← reason; Some (mkQueue s (q_slots q), p, Err reason)
        else
          let slot := set_publish (wrapping_add_u64 position 1) (fill r slot) in
          Some (mkQueue (q_stop q) (<[slot_index position := slot]> (q_slots q)), advance p r, Ok ())
  end.

Definition decode_words (ws : list Z) : option CapturedEvent :=
  match ws with
  | [h; p; v; g; m; f] => decode_captured h p v g m f
  | _ => None
  end.

Definition try_pop_tagged (q : Queue) (c : Consumer)
  : option (Queue * Consumer * result StopReason (option CapturedEvent)) :=
  match stop_reason (q_stop q) with
  | Some reason => Some (q, c, Err reason)
  | None =>
      let position := head c in
      slot ← q_slots q !! slot_index position;
      if negb (slot_publish slot =? wrapping_add_u64 position 1) then Some (q, c, Ok None)
      else
        let slots := <[slot_index position :=
                        set_publish (wrapping_add_u64 position CAPTURE_QUEUE_CAPACITY) slot]> (q_slots q) in
        let c := mkConsumer (wrapping_add_u64 position 1) in
        match decode_words (words slot) with
        | None =>
            let '(s, reason) := stopped_or (q_stop q) NativeFailure in
            reason ← reason; Some (mkQueue s slots, c, Err reason)
        | Some record => Some (mkQueue (q_stop q) slots, c, Ok (Some record))
        end
  end.

(** [Drop] of the consumer. *)
Definition drop_consumer (q : Queue) : Queue := mkQueue (stop_with (q_stop q) ConsumerDropped) (q_slots q).

(** ** What the slots hold

    The records [l] pushed so far are numbered from 0; those from [h] on are in
    the ring, at the slot of their number modulo 512. *)

Abbreviation count l := (Z.of_nat (length l)).

Definition cell (l : list CapturedEvent) (p : Z) (s : Slot) : Prop :=
  if p <? count l
  then slot_publish s = (p + 1) mod 2 ^ 64
       /\ exists r, l !! Z.to_nat p = Some r /\ words s = encoded_words r
  else slot_publish s = p mod 2 ^ 64.

Definition ring (sl : list Slot) (l : list CapturedEvent) (h : Z) : Prop :=
  0 <= h <= count l /\ count l <= h + 512
  /\ forall p, h <= p < h + 512 -> exists s, sl !! slot_index p = Some s /\ cell l p s.

Section Slots.

Lemma slot_index_wrap p : slot_index (p mod 2 ^ 64) = slot_index p.
Proof.
  unfold slot_index, CAPTURE_QUEUE_CAPACITY. f_equal.
  symmetry. apply Znumtheory.Zmod_div_mod; [lia|lia|]. by exists (2 ^ 55).
Qed.

Lemma wrapping_add_mod p k : wrapping_add_u64 (p mod 2 ^ 64) k = (p + k) mod 2 ^ 64.
Proof. unfold wrapping_add_u64. by rewrite Zplus_mod_idemp_l. Qed.

Lemma slot_index_inj h p q :
  h <= p < h + 512 -> h <= q < h + 512 -> slot_index p = slot_index q -> p = q.
Proof.
  unfold slot_index, CAPTURE_QUEUE_CAPACITY. intros Hp Hq He.
  pose proof (Z.mod_pos_bound p 512). pose proof (Z.mod_pos_bound q 512).
  assert (p mod 512 = q mod 512) by lia. Z.to_euclidean_division_equations. lia.
Qed.

Lemma slot_index_next h : slot_index (h + 512) = slot_index h.
Proof.
  unfold slot_index, CAPTURE_QUEUE_CAPACITY. f_equal.
  rewrite <- (Z.mul_1_l 512) at 1. apply Z.mod_add. lia.
Qed.

Lemma wrap_distinct p q : p < q < p + 2 ^ 64 -> p mod 2 ^ 64 <> q mod 2 ^ 64.
Proof. intros H. Z.to_euclidean_division_equations. lia. Qed.

Lemma words_set_word n v s : (n < 6)%nat -> words (set_word n v s) = <[n := v]> (words s).
Proof. destruct s. intros H. destruct n as [|[|[|[|[|[|n]]]]]]; cbn; done || lia. Qed.
Lemma publish_set_word n v s : slot_publish (set_word n v s) = slot_publish s.
Proof. destruct s. by destruct n as [|[|[|[|[|n]]]]]. Qed.
Lemma words_set_publish v s : words (set_publish v s) = words s.
Proof. by destruct s. Qed.
Lemma publish_set_publish v s : slot_publish (set_publish v s) = v.
Proof. by destruct s. Qed.
Lemma set_publish_fill v r s : words (set_publish v (fill r s)) = encoded_words r.
Proof. by destruct s. Qed.

(** Changing the slot of [q] leaves the other positions' slots alone. *)
Lemma alter_slot (f : Slot -> Slot) (sl : list Slot) h p q s :
  h <= p < h + 512 -> h <= q < h + 512 -> sl !! slot_index p = Some s ->
  alter f (slot_index q) sl !! slot_index p = Some (if decide (p = q) then f s else s).
Proof.
  intros Hp Hq Hs. case_decide as Hpq.
  - subst q. by rewrite list_lookup_alter_eq, Hs.
  - rewrite list_lookup_alter_ne; [done|]. intros He. apply Hpq. by eapply slot_index_inj.
Qed.

Lemma ring_free_slot sl l h :
  ring sl l h -> exists s, sl !! slot_index (count l) = Some s
    /\ (slot_publish s = count l mod 2 ^ 64 <-> count l < h + 512).
Proof.
  intros (Hh & Hl & Hr). destruct (Z.eq_dec (count l) (h + 512)) as [He|Hne].
  - rewrite He, slot_index_next. destruct (Hr h ltac:(lia)) as (s & Hs & Hc). exists s. split; [done|].
    unfold cell in Hc. rewrite (proj2 (Z.ltb_lt _ _)) in Hc by lia. destruct Hc as [-> _].
    split; [|lia]. intros E. exfalso. revert E. apply wrap_distinct. lia.
  - destruct (Hr (count l) ltac:(lia)) as (s & Hs & Hc). exists s. split; [done|].
    unfold cell in Hc. rewrite Z.ltb_irrefl in Hc. split; [lia|done].
Qed.

Lemma ring_head_slot sl l h :
  ring sl l h -> exists s, sl !! slot_index h = Some s
    /\ (slot_publish s = (h + 1) mod 2 ^ 64 <-> h < count l)
    /\ (h < count l -> exists r, l !! Z.to_nat h = Some r /\ words s = encoded_words r).
Proof.
  intros (Hh & Hl & Hr). destruct (Hr h ltac:(lia)) as (s & Hs & Hc). exists s. split; [done|].
  unfold cell in Hc. destruct (h <? count l) eqn:E; bool_inv.
  - destruct Hc as [? ?]. split; [done|]. by intros _.
  - split; [|lia]. split; [|lia]. rewrite Hc. intros Hx. exfalso. revert Hx. apply wrap_distinct. lia.
Qed.

Lemma ring_write sl l h n v :
  (n < 6)%nat -> ring sl l h -> count l < h + 512 ->
  ring (alter (set_word n v) (slot_index (count l)) sl) l h.
Proof.
  intros Hn (Hh & Hl & Hr) Hlt. split_and!; try lia. intros p Hp.
  destruct (Hr p Hp) as (s & Hs & Hc). eexists. split; [apply (alter_slot _ sl h); try done; lia|].
  case_decide as Hpq; [|done]. subst p. unfold cell in *. rewrite Z.ltb_irrefl in *.
  by rewrite publish_set_word.
Qed.

Lemma ring_publish sl l h r s :
  ring sl l h -> count l < h + 512 ->
  sl !! slot_index (count l) = Some s -> words s = encoded_words r ->
  ring (alter (set_publish ((count l + 1) mod 2 ^ 64)) (slot_index (count l)) sl) (l ++ [r]) h.
Proof.
  intros (Hh & Hl & Hr) Hlt Hs Hw. unfold ring. rewrite length_app. cbn [length].
  split_and!; try lia. intros p Hp. destruct (Hr p Hp) as (s' & Hs' & Hc).
  eexists. split; [apply (alter_slot _ sl h); try done; lia|].
  unfold cell in *. rewrite length_app. cbn [length]. case_decide as Hpq.
  - subst p. rewrite (proj2 (Z.ltb_lt _ _)) by lia. rewrite publish_set_publish, words_set_publish.
    split; [done|]. exists r. simplify_eq. split; [|done].
    rewrite lookup_app_r by lia. by rewrite Nat2Z.id, Nat.sub_diag.
  - destruct (p <? count l) eqn:E; bool_inv.
    + rewrite (proj2 (Z.ltb_lt _ _)) by lia. destruct Hc as (? & r' & Hr' & ?). split; [done|].
      exists r'. split; [|done]. by apply lookup_app_l_Some.
    + by rewrite (proj2 (Z.ltb_ge _ _)) by lia.
Qed.

Lemma list_alter_lookup_insert (f : Slot -> Slot) (sl : list Slot) i s :
  sl !! i = Some s -> alter f i sl = <[i := f s]> sl.
Proof.
  intros Hs. apply list_eq. intros j. destruct (decide (i = j)) as [<-|Hne].
  - rewrite list_lookup_alter_eq, Hs, list_lookup_insert_eq by (by eapply lookup_lt_Some). done.
  - by rewrite list_lookup_alter_ne, list_lookup_insert_ne.
Qed.

(** The same for a whole push at once. *)
Lemma ring_publish_call sl l h r s :
  ring sl l h -> count l < h + 512 -> sl !! slot_index (count l) = Some s ->
  ring (<[slot_index (count l) := set_publish ((count l + 1) mod 2 ^ 64) (fill r s)]> sl) (l ++ [r]) h.
Proof.
  intros Hring Hlt Hs.
  assert (Hfill : ring (<[slot_index (count l) := fill r s]> sl) l h).
  { pose proof Hring as (Hh & Hl & Hr). split_and!; try lia. intros p Hp.
    destruct (Hr p Hp) as (s' & Hs' & Hc).
    rewrite <- (list_alter_lookup_insert (fill r) sl _ s Hs).
    eexists. split; [apply (alter_slot _ sl h); try done; lia|].
    case_decide as Hpq; [|done]. subst p. unfold cell in *. rewrite Z.ltb_irrefl in *. by destruct s'. }
  assert (Hlook : <[slot_index (count l) := fill r s]> sl !! slot_index (count l) = Some (fill r s))
    by (apply list_lookup_insert_eq; by eapply lookup_lt_Some).
  pose proof (ring_publish _ l h r (fill r s) Hfill Hlt Hlook) as Hpub.
  rewrite (list_alter_lookup_insert _ _ _ _ Hlook), list_insert_insert_eq in Hpub.
  apply Hpub. by destruct s.
Qed.

Lemma ring_take sl l h :
  ring sl l h -> h < count l ->
  ring (alter (set_publish ((h + 512) mod 2 ^ 64)) (slot_index h) sl) l (h + 1).
Proof.
  intros (Hh & Hl & Hr) Hlt. split_and!; try lia. intros p Hp.
  destruct (Z.eq_dec p (h + 512)) as [->|Hne].
  - rewrite slot_index_next. destruct (Hr h ltac:(lia)) as (s & Hs & _).
    eexists. split; [by rewrite list_lookup_alter_eq, Hs|]. unfold cell.
    rewrite (proj2 (Z.ltb_ge _ _)) by lia. apply publish_set_publish.
  - destruct (Hr p ltac:(lia)) as (s & Hs & Hc). exists s. split; [|done].
    rewrite (alter_slot _ sl h p h s) by (done || lia). by rewrite decide_False by lia.
Qed.

Lemma ring_start s : ring (q_slots (capture_channel s).1.1) [] 0.
Proof.
  split_and!; cbn [length]; try lia. intros p Hp. cbn [capture_channel fst q_slots].
  assert (Hi : slot_index p = Z.to_nat p)
    by (unfold slot_index, CAPTURE_QUEUE_CAPACITY; f_equal; apply Z.mod_small; lia).
  exists (new_slot p). split.
  - rewrite Hi, list_lookup_fmap, lookup_seq_lt by (unfold CAPTURE_QUEUE_CAPACITY; lia).
    cbn. do 2 f_equal. lia.
  - unfold cell. cbn [length]. rewrite (proj2 (Z.ltb_ge _ _)) by lia. cbn. symmetry. apply Z.mod_small. lia.
Qed.
End Slots.

(** ** Routes

    A record is in order after route [(revision, remote)] when it is a barrier
    to a later revision, tagged with its own route, or an event tagged with the
    route in force. *)

Definition route_step (route : Z * bool) (r : CapturedEvent) : Z * bool :=
  match event r with EvRouteChanged rem revision => (revision, rem) | _ => route end.
Definition route_after (l : list CapturedEvent) : Z * bool := foldl route_step (0, false) l.
Definition in_order (route : Z * bool) (r : CapturedEvent) : Prop :=
  match event r with
  | EvRouteChanged rem revision =>
      fst route < revision /\ routing_revision r = revision /\ remote r = rem
  | _ => routing_revision r = fst route /\ remote r = snd route
  end.
Definition routes_ok (l : list CapturedEvent) : Prop :=
  forall i r, l !! i = Some r -> in_order (route_after (take i l)) r.

Section Routes.

Lemma accepts_in_order p r :
  accepts_route p r = true <-> in_order (p_routing_revision p, p_remote p) r.
Proof.
  unfold accepts_route, in_order. destruct (event r); cbn [fst snd];
    rewrite ?andb_true_iff, ?Z.eqb_eq, ?Z.ltb_lt, ?Bool.eqb_true_iff; tauto.
Qed.

Lemma in_order_match route r :
  in_order route r -> route_mismatch (event r) (remote r) (routing_revision r) = false.
Proof.
  unfold in_order, route_mismatch. destruct (event r); try done. intros (_ & -> & ->).
  by rewrite Z.eqb_refl, Bool.eqb_reflx.
Qed.

Lemma routes_ok_snoc l r : routes_ok l -> in_order (route_after l) r -> routes_ok (l ++ [r]).
Proof.
  intros Hl Hr i r' Hi. apply lookup_app_Some in Hi as [Hi|[Hge Hi]].
  - pose proof (lookup_lt_Some _ _ _ Hi). rewrite take_app_le by lia. by apply Hl.
  - apply list_lookup_singleton_Some in Hi as [Hz <-].
    replace i with (length l) by lia. by rewrite take_app_length.
Qed.

Lemma route_after_snoc l r : route_after (l ++ [r]) = route_step (route_after l) r.
Proof. unfold route_after. by rewrite foldl_app. Qed.

Lemma advance_route p l r :
  (p_routing_revision p, p_remote p) = route_after l ->
  (p_routing_revision (advance p r), p_remote (advance p r)) = route_after (l ++ [r])
  /\ tail (advance p r) = wrapping_add_u64 (tail p) 1.
Proof.
  intros Hp. rewrite route_after_snoc, <- Hp. unfold advance, route_step. by destruct (event r).
Qed.
End Routes.

(** What the ring keeps of a record. *)
Definition slot_record (r : CapturedEvent) : CapturedEvent :=
  mkCaptured (slot_event (event r)) (routing_revision r) (remote r) (floor_generation r).

(** A record that may be in the ring. *)
Definition fine (r : CapturedEvent) : Prop :=
  is_event (event r) /\ event_is_valid (event r) = true
  /\ route_mismatch (event r) (remote r) (routing_revision r) = false.

Lemma decode_fine r : fine r -> decode_words (encoded_words r) = Some (slot_record r).
Proof.
  intros (He & Hv & Hm). unfold encoded_words, decode_words, decode_captured.
  assert (Hb : match u64_of_bool (remote r) with 0 => Some false | 1 => Some true | _ => None end
               = Some (remote r)) by (by destruct (remote r)).
  rewrite Hb. cbn [mbind option_bind]. rewrite decode_encode_event by done. cbn [mbind option_bind].
  by rewrite route_mismatch_slot, Hm, slot_event_valid, Hv.
Qed.

(** ** The two threads, one atomic access at a time *)

Module Ring.

Inductive PushPc :=
| PIdle
| PInvalid                          (** about to record [InvalidInput] *)
| PChecked (r : CapturedEvent)      (** the event and its route were accepted *)
| PClear (r : CapturedEvent)        (** the second look found no stop *)
| PFull                             (** about to record [QueueFull] *)
| PWrite (n : nat) (r : CapturedEvent)
| PPublished.

Inductive PopPc :=
| CIdle
| CClear                            (** no stop was found *)
| CRead (ws : list Z)               (** the words loaded so far *)
| CTaken (r : option CapturedEvent). (** decoded, the slot handed back *)

(** [pushed] and [taken] list what was published and what was decoded,
    [returned] what [try_pop_tagged] returned. *)
Record Sys := mkSys {
  queue : Queue; prod : Producer; ppc : PushPc; cons_ : Consumer; cpc : PopPc;
  pushed : list CapturedEvent; taken : list (option CapturedEvent); returned : list CapturedEvent }.

Definition start : Sys :=
  let '(q, p, c) := capture_channel new_stop in mkSys q p PIdle c CIdle [] [] [].

Definition with_slots (f : Slot -> Slot) (position : Z) (q : Queue) : Queue :=
  mkQueue (q_stop q) (alter f (slot_index position) (q_slots q)).
Definition with_stop (r : StopReason) (q : Queue) : Queue := mkQueue (stop_with (q_stop q) r) (q_slots q).

(** One access of the producer; [call] is the record of a new call. *)
Definition push_step (call : CapturedEvent) (s : Sys) : Sys :=
  let q := queue s in
  let go q p pc l := mkSys q p pc (cons_ s) (cpc s) l (taken s) (returned s) in
  let stopped := bool_decide (is_Some (stop_reason (q_stop q))) in
  match ppc s with
  | PIdle =>
      go q (prod s)
        (if stopped then PIdle
         else if negb (event_is_valid (event call)) || negb (accepts_route (prod s) call) then PInvalid
         else PChecked call) (pushed s)
  | PInvalid => go (with_stop InvalidInput q) (prod s) PIdle (pushed s)
  | PChecked r => go q (prod s) (if stopped then PIdle else PClear r) (pushed s)
  | PClear r =>
      go q (prod s)
        (if bool_decide (slot_publish <$> (q_slots q !! slot_index (tail (prod s))) = Some (tail (prod s)))
         then PWrite 0 r else PFull) (pushed s)
  | PFull => go (with_stop QueueFull q) (prod s) PIdle (pushed s)
  | PWrite 6 r =>
      go (with_slots (set_publish (wrapping_add_u64 (tail (prod s)) 1)) (tail (prod s)) q)
        (advance (prod s) r) PPublished (pushed s ++ [r])
  | PWrite n r =>
      go (with_slots (set_word n (default 0 (encoded_words r !! n))) (tail (prod s)) q)
        (prod s) (PWrite (S n) r) (pushed s)
  | PPublished => go q (prod s) PIdle (pushed s)
  end.

(** One access of the consumer. *)
Definition pop_step (s : Sys) : Sys :=
  let q := queue s in
  let go q c pc t ret := mkSys q (prod s) (ppc s) c pc (pushed s) t ret in
  let stopped := bool_decide (is_Some (stop_reason (q_stop q))) in
  let position := head (cons_ s) in
  match cpc s with
  | CIdle => go q (cons_ s) (if stopped then CIdle else CClear) (taken s) (returned s)
  | CClear =>
      go q (cons_ s)
        (if bool_decide (slot_publish <$> (q_slots q !! slot_index position)
                         = Some (wrapping_add_u64 position 1))
         then CRead [] else CIdle) (taken s) (returned s)
  | CRead ws =>
      if (length ws =? 6)%nat then
        go (with_slots (set_publish (wrapping_add_u64 position CAPTURE_QUEUE_CAPACITY)) position q)
          (mkConsumer (wrapping_add_u64 position 1)) (CTaken (decode_words ws))
          (taken s ++ [decode_words ws]) (returned s)
      else
        go q (cons_ s)
          (CRead (ws ++ [default 0 (slot ← q_slots q !! slot_index position; words slot !! length ws)]))
          (taken s) (returned s)
  | CTaken None => go (with_stop NativeFailure q) (cons_ s) CIdle (taken s) (returned s)
  | CTaken (Some r) =>
      go q (cons_ s) CIdle (taken s) (if stopped then returned s else returned s ++ [r])
  end.

Definition record_ok (r : CapturedEvent) : Prop :=
  is_event (event r) /\ is_u64 (routing_revision r) /\ is_u64 (floor_generation r).

Inductive step : Sys -> Sys -> Prop :=
| step_push call s : record_ok call -> step s (push_step call s)
| step_pop s : step s (pop_step s)
| step_stop r s :
    step s (mkSys (with_stop r (queue s)) (prod s) (ppc s) (cons_ s) (cpc s)
              (pushed s) (taken s) (returned s)).

Inductive reach : Sys -> Prop :=
| reach_start : reach start
| reach_step s s' : reach s -> step s s' -> reach s'.

(** ** The invariant *)

Definition push_ok (s : Sys) : Prop :=
  match ppc s with
  | PChecked r | PClear r => fine r /\ in_order (route_after (pushed s)) r
  | PWrite n r =>
      fine r /\ in_order (route_after (pushed s)) r /\ (n <= 6)%nat
      /\ count (pushed s) < count (taken s) + 512
      /\ exists sl, q_slots (queue s) !! slot_index (count (pushed s)) = Some sl
         /\ take n (words sl) = take n (encoded_words r)
  | _ => True
  end.

Definition pop_ok (s : Sys) : Prop :=
  match cpc s with
  | CRead ws =>
      count (taken s) < count (pushed s) /\ (length ws <= 6)%nat
      /\ exists r, pushed s !! length (taken s) = Some r
         /\ ws = take (length ws) (encoded_words r)
  | CTaken r => is_Some r
  | _ => True
  end.

Definition inv (s : Sys) : Prop :=
  ring (q_slots (queue s)) (pushed s) (count (taken s))
  /\ tail (prod s) = count (pushed s) mod 2 ^ 64 /\ head (cons_ s) = count (taken s) mod 2 ^ 64
  /\ (p_routing_revision (prod s), p_remote (prod s)) = route_after (pushed s)
  /\ routes_ok (pushed s) /\ Forall fine (pushed s)
  /\ taken s = (fun r => Some (slot_record r)) <$> take (length (taken s)) (pushed s)
  /\ stop_ok (q_stop (queue s)) /\ push_ok s /\ pop_ok s.

Lemma inv_start : inv start.
Proof.
  unfold inv, start. split_and!; try done; [apply ring_start|by left].
Qed.

(** Appending a record keeps the prefix that was taken. *)
Lemma take_snoc_prefix (l : list CapturedEvent) (t : list (option CapturedEvent)) r :
  count t <= count l -> take (length t) (l ++ [r]) = take (length t) l.
Proof. intros H. apply take_app_le. lia. Qed.

Lemma inv_push call s : record_ok call -> inv s -> inv (push_step call s).
Proof.
  destruct s as [[stp sl] p pc c cp l t ret]. unfold inv, push_ok, pop_ok, push_step.
  cbn [queue prod ppc cons_ cpc pushed taken returned q_stop q_slots].
  intros Hcall (Hring & Htail & Hhead & Hroute & Hroutes & Hfine & Htaken & Hstop & Hpush & Hpop).
  destruct pc as [| |r|r| |n r|];
    cbn [queue prod ppc cons_ cpc pushed taken returned q_stop q_slots with_stop].
  - split_and!; try done. case_bool_decide; [done|].
    destruct (negb (event_is_valid (event call))) eqn:Ev; [done|].
    destruct (negb (accepts_route p call)) eqn:Ea; [done|]. cbn [orb]. bool_inv.
    apply accepts_in_order in Ea. rewrite Hroute in Ea. split; [|done].
    destruct Hcall as [He _]. split_and!; try done. by eapply in_order_match.
  - split_and!; try done. by apply stop_with_ok.
  - split_and!; try done. by case_bool_decide.
  - split_and!; try done. destruct (ring_free_slot _ _ _ Hring) as (s & Hs & Hiff).
    rewrite Htail, slot_index_wrap, Hs. cbn [fmap option_fmap option_map].
    case_bool_decide as E; [|done]. injection E as E.
    destruct Hpush as [? ?]. split_and!; try done; [lia|by apply Hiff|]. by exists s.
  - split_and!; try done. by apply stop_with_ok.
  - destruct Hpush as (Hf & Hin & Hn & Hlt & s & Hs & Hw).
    destruct n as [|[|[|[|[|[|[|n]]]]]]]; [..|lia];
      cbn [queue prod ppc cons_ cpc pushed taken returned q_stop q_slots with_slots];
      rewrite ?Htail, ?slot_index_wrap, ?wrapping_add_mod.
    7:{ destruct (advance_route p l r Hroute) as [Hr' Ht'].
        assert (Hws : words s = encoded_words r) by (revert Hw; by destruct s).
        destruct Hring as (Hh & Hl & Hr).
        split_and!; try done.
        - apply (ring_publish sl l (count t) r s); done.
        - rewrite Ht', Htail, wrapping_add_mod, length_app. do 2 f_equal. cbn. lia.
        - by apply routes_ok_snoc.
        - by apply Forall_app_2; [|constructor].
        - rewrite take_snoc_prefix by lia. done.
        - destruct cp; try done. destruct Hpop as (? & ? & r' & ? & ?). rewrite length_app. cbn [length].
          split_and!; try done; [lia|]. exists r'. split; [|done]. by apply lookup_app_l_Some. }
    all: split_and!; try done; try lia; [apply ring_write; done || lia|].
    all: eexists; (split; [by rewrite list_lookup_alter_eq, Hs|]);
      rewrite words_set_word by lia; clear - Hw; destruct s; cbn in *; simplify_eq; done.
  - split_and!; done.
Qed.

(** A producer's claim to a free slot survives the consumer's progress. *)
Lemma push_ok_take q q' p pc c c' cp cp' l t t' ret ret' :
  count t <= count t' -> count t < count l ->
  (forall s, q_slots q !! slot_index (count l) = Some s -> count l < count t + 512 ->
     q_slots q' !! slot_index (count l) = Some s) ->
  push_ok (mkSys q p pc c cp l t ret) -> push_ok (mkSys q' p pc c' cp' l t' ret').
Proof.
  unfold push_ok. cbn [ppc pushed taken queue]. intros Ht Hlt Hs. destruct pc; try done.
  intros (? & ? & ? & ? & s & Hl & Hw). split_and!; try done; [lia|]. exists s. split; [|done]. by apply Hs.
Qed.

Lemma inv_pop s : inv s -> inv (pop_step s).
Proof.
  destruct s as [[stp sl] p pc c cp l t ret]. unfold inv, pop_step.
  cbn [queue prod ppc cons_ cpc pushed taken returned q_stop q_slots].
  intros (Hring & Htail & Hhead & Hroute & Hroutes & Hfine & Htaken & Hstop & Hpush & Hpop).
  destruct cp as [| |ws|[r|]]; unfold pop_ok in *; cbn [cpc pushed taken queue] in *;
    cbn [queue prod ppc cons_ cpc pushed taken returned q_stop q_slots with_stop].
  - split_and!; try done. by case_bool_decide.
  - split_and!; try done. destruct (ring_head_slot _ _ _ Hring) as (s & Hs & Hiff & Hr).
    rewrite Hhead, slot_index_wrap, wrapping_add_mod, Hs. cbn [fmap option_fmap option_map].
    case_bool_decide as E; [|done]. injection E as E. apply Hiff in E.
    destruct (Hr E) as (r & Hl & _). split_and!; [done|cbn; lia|]. exists r.
    split; [by rewrite Nat2Z.id in Hl|done].
  - destruct Hpop as (Hlt & Hlen & r & Hr & Hws).
    destruct (length ws =? 6)%nat eqn:E6.
    + apply Nat.eqb_eq in E6. rewrite E6 in Hws. subst ws.
      change (take 6 (encoded_words r)) with (encoded_words r).
      rewrite list.Forall_forall in Hfine.
      rewrite (decode_fine r) by (apply Hfine; by eapply list_elem_of_lookup_2).
      rewrite <- list.Forall_forall in Hfine.
      cbn [queue prod ppc cons_ cpc pushed taken returned q_stop q_slots with_slots head].
      rewrite Hhead, slot_index_wrap, !wrapping_add_mod, length_app.
      replace (Z.of_nat (length t + length [Some (slot_record r)])) with (count t + 1) by (cbn; lia).
      split_and!; try done; [by apply ring_take| |].
      * cbn [length]. rewrite Nat.add_1_r, (take_S_r _ _ r) by done.
        rewrite fmap_app, <- Htaken. done.
      * revert Hpush. apply push_ok_take; [rewrite length_app; lia|done|].
        intros s Hs Hfree. cbn [q_slots with_slots] in *. rewrite slot_index_wrap.
        rewrite (alter_slot _ sl (count t) (count l) (count t) s); [|lia|lia|done].
        by rewrite decide_False by lia.
    + apply Nat.eqb_neq in E6.
      destruct (ring_head_slot _ _ _ Hring) as (s & Hs & _ & Hrd).
      destruct (Hrd Hlt) as (r' & Hr' & Hw). rewrite Nat2Z.id in Hr'.
      assert (r' = r) as -> by congruence. rewrite Hhead, slot_index_wrap, Hs. cbn [mbind option_bind].
      cbn [queue prod ppc cons_ cpc pushed taken returned q_stop q_slots].
      rewrite length_app. cbn [length]. split_and!; try done; [lia|]. exists r. split; [done|].
      rewrite Hw, Nat.add_1_r. destruct (encoded_words r !! length ws) as [w|] eqn:Ew.
      * rewrite (take_S_r _ _ w) by done. by rewrite <- Hws.
      * apply lookup_ge_None in Ew. cbn in Ew. lia.
  - split_and!; try done.
  - by destruct Hpop.
Qed.

Lemma inv_stop r s :
  inv s -> inv (mkSys (with_stop r (queue s)) (prod s) (ppc s) (cons_ s) (cpc s) (pushed s) (taken s) (returned s)).
Proof.
  destruct s as [[stp sl] p pc c cp l t ret]. intros (? & ? & ? & ? & ? & ? & ? & ? & ? & ?).
  unfold inv. split_and!; try done. by apply stop_with_ok.
Qed.

Lemma reach_inv s : reach s -> inv s.
Proof.
  induction 1 as [|s s' _ IH Hs]; [apply inv_start|].
  destruct Hs; [by apply inv_push|by apply inv_pop|by apply inv_stop].
Qed.

(** What was returned: everything taken, until a stop. *)
Definition returned_ok (s : Sys) : Prop :=
  returned s = slot_record <$> take (length (returned s)) (pushed s)
  /\ (length (returned s) <= length (taken s))%nat
  /\ (q_stop (queue s) = 0 ->
      match cpc s with
      | CTaken o => length (taken s) = S (length (returned s)) /\ list.last (taken s) = Some o
      | _ => length (taken s) = length (returned s)
      end).

Lemma stop_with_zero b r : stop_with b r <> 0.
Proof. unfold stop_with. destruct (b =? 0) eqn:E; bool_inv; [by destruct r|done]. Qed.

Lemma returned_push call s : inv s -> returned_ok s -> returned_ok (push_step call s).
Proof.
  destruct s as [[stp sl] p pc c cp l t ret]. unfold returned_ok, push_step.
  cbn [queue prod ppc cons_ cpc pushed taken returned q_stop q_slots].
  intros (Hring & _) (Hret & Hle & Hstop). cbn [pushed taken queue q_slots] in Hring.
  destruct Hring as (Hh & _).
  destruct pc as [| |r|r| |n r|]; try (destruct n as [|[|[|[|[|[|[|n]]]]]]]);
    cbn [queue prod ppc cons_ cpc pushed taken returned q_stop q_slots with_stop with_slots];
    split_and!; try done; try (by intros ?%stop_with_zero).
  rewrite take_app_le by lia. done.
Qed.

Lemma returned_pop s : inv s -> returned_ok s -> returned_ok (pop_step s).
Proof.
  destruct s as [[stp sl] p pc c cp l t ret]. unfold returned_ok, pop_step.
  cbn [queue prod ppc cons_ cpc pushed taken returned q_stop q_slots].
  intros (_ & _ & _ & _ & _ & _ & Htaken & Hstp & _ & Hpop) (Hret & Hle & Hstop).
  cbn [pushed taken queue q_stop] in Htaken, Hstp.
  destruct cp as [| |ws|[r|]];
    cbn [queue prod ppc cons_ cpc pushed taken returned q_stop q_slots with_stop with_slots] in *.
  - split_and!; try done. by case_bool_decide.
  - split_and!; try done. by case_bool_decide.
  - destruct (length ws =? 6)%nat;
      cbn [queue prod ppc cons_ cpc pushed taken returned q_stop q_slots with_stop with_slots];
      split_and!; try done.
    + rewrite length_app. cbn. lia.
    + intros Hz. rewrite length_app, list.last_snoc. specialize (Hstop Hz). cbn. split; [lia|done].
  - unfold stop_ok in Hstp. case_bool_decide as E; cbn [returned].
    { split_and!; try done. intros ->. by destruct E. }
    assert (Hz : stp = 0) by (destruct Hstp as [|?]; [done|by destruct E]).
    destruct (Hstop Hz) as [Hlen Hlast]. rewrite length_app. cbn [length]. split_and!; [|lia|lia].
    rewrite list.last_lookup, Hlen in Hlast. cbn [Nat.pred] in Hlast.
    rewrite Htaken, list_lookup_fmap, lookup_take_lt in Hlast by lia.
    destruct (l !! length ret) as [r0|] eqn:El; [|done]. cbn in Hlast. injection Hlast as <-.
    rewrite Nat.add_1_r, (take_S_r _ _ r0) by done. rewrite fmap_app, <- Hret. done.
  - by destruct Hpop.
Qed.

Lemma reach_returned s : reach s -> returned_ok s.
Proof.
  induction 1 as [|s s' Hr IH Hs]; [by unfold returned_ok|].
  destruct Hs as [call s Hc|s|r s]; [by apply returned_push; [apply reach_inv|]
    |by apply returned_pop; [apply reach_inv|]|].
  destruct IH as (? & ? & ?). split_and!; try done. intros Hz. by apply stop_with_zero in Hz.
Qed.

Lemma stopped_step s s' :
  inv s -> q_stop (queue s) <> 0 -> step s s' ->
  q_stop (queue s') = q_stop (queue s) /\ returned s' = returned s.
Proof.
  intros (_ & _ & _ & _ & _ & _ & _ & Hstp & _) Hz Hs.
  assert (Hkeep : forall r, stop_with (q_stop (queue s)) r = q_stop (queue s))
    by (intros r; unfold stop_with; by rewrite (proj2 (Z.eqb_neq _ _))).
  assert (Hst : is_Some (stop_reason (q_stop (queue s)))) by (destruct Hstp; done).
  destruct Hs as [call s _|s|r s].
  - unfold push_step. destruct (ppc s) as [| |?|?| |[|[|[|[|[|[|[|n]]]]]]] ?|]; cbn; auto.
  - unfold pop_step. rewrite bool_decide_eq_true_2 by done.
    destruct (cpc s) as [| |ws|[r|]]; cbn; auto. by destruct (length ws =? 6)%nat.
  - cbn. auto.
Qed.
End Ring.

(** ** Properties *)

(** C15. However the hook thread, the consumer and stops from other threads
    interleave, the ring is a bounded queue: what the consumer decodes is what
    was published, in order, none lost, repeated, torn or refused, with at most
    512 records between them; every record follows the barrier of its route
    (barriers have strictly increasing revisions and an event carries the route
    of the last barrier before it) and is valid; what [try_pop_tagged] returned
    is a prefix of it; and once stopped, the reason never changes and nothing
    more is returned. *)
Theorem capture_ring_fifo (s s' : Ring.Sys) :
  Ring.reach s -> Ring.step s s' ->
  Ring.taken s = (fun r => Some (slot_record r)) <$> take (length (Ring.taken s)) (Ring.pushed s)
  /\ count (Ring.taken s) <= count (Ring.pushed s) <= count (Ring.taken s) + 512
  /\ routes_ok (Ring.pushed s) /\ Forall fine (Ring.pushed s)
  /\ Ring.returned s = slot_record <$> take (length (Ring.returned s)) (Ring.pushed s)
  /\ (length (Ring.returned s) <= length (Ring.taken s))%nat
  /\ (q_stop (Ring.queue s) <> 0 ->
      q_stop (Ring.queue s') = q_stop (Ring.queue s) /\ Ring.returned s' = Ring.returned s).
Proof.
  intros Hr Hs. pose proof (Ring.reach_inv s Hr) as Hinv.
  pose proof Hinv as ((Hh & Hl & _) & _ & _ & _ & Hroutes & Hfine & Htaken & _).
  destruct (Ring.reach_returned s Hr) as (Hret & Hle & _).
  split_and!; try done; try lia. intros Hz. by apply Ring.stopped_step.
Qed.

(** A key pushed, then taken, returned and, after a stop, no more. *)
Fixpoint ring_pushes (n : nat) (r : CapturedEvent) (s : Ring.Sys) : Ring.Sys :=
  match n with O => s | S n => ring_pushes n r (Ring.push_step r s) end.
Fixpoint ring_pops (n : nat) (s : Ring.Sys) : Ring.Sys :=
  match n with O => s | S n => ring_pops n (Ring.pop_step s) end.
Definition ring_key : CapturedEvent := mkCaptured (EvKey 4 true false 2) 0 false 3.
Definition ring_sample : Ring.Sys := ring_pops 10 (ring_pushes 11 ring_key Ring.start).

Lemma ring_key_ok : Ring.record_ok ring_key.
Proof.
  unfold Ring.record_ok, is_event, is_u16, is_u8, is_u64, u16_max, u8_max, u64_max. cbn. lia.
Qed.

Lemma ring_runs_reach n m s :
  Ring.reach s -> Ring.reach (ring_pops n (ring_pushes m ring_key s)).
Proof.
  intros Hs. assert (Hm : Ring.reach (ring_pushes m ring_key s)).
  { revert s Hs. induction m as [|m IH]; intros s Hs; [exact Hs|]. apply IH.
    eapply Ring.reach_step; [exact Hs|]. apply Ring.step_push, ring_key_ok. }
  revert Hm. generalize (ring_pushes m ring_key s). clear s Hs.
  induction n as [|n IH]; intros s Hs; [exact Hs|]. apply IH.
  eapply Ring.reach_step; [exact Hs|apply Ring.step_pop].
Qed.

Lemma capture_ring_fifo_witness :
  Ring.returned ring_sample = [slot_record ring_key]
  /\ Ring.returned ring_sample
     = slot_record <$> take (length (Ring.returned ring_sample)) (Ring.pushed ring_sample).
Proof.
  split; [vm_compute; reflexivity|].
  destruct (capture_ring_fifo ring_sample (Ring.pop_step ring_sample)) as (_ & _ & _ & _ & Hret & _).
  - apply ring_runs_reach, Ring.reach_start.
  - apply Ring.step_pop.
  - exact Hret.
Defined.

(** The calls, run alone, are those of a queue of capacity 512: a push of
    a valid record whose route tag is accepted appends it while fewer than 512
    records wait and otherwise stops the capture with [QueueFull]; an invalid
    record or route stops it with [InvalidInput]; a pop returns the oldest
    waiting record, or nothing; and once stopped both calls return the first
    reason and change nothing. *)
Theorem capture_queue_calls (q : Queue) (p : Producer) (c : Consumer) (l : list CapturedEvent)
    (h : Z) (r : CapturedEvent) :
  ring (q_slots q) l h -> tail p = count l mod 2 ^ 64 -> head c = h mod 2 ^ 64 ->
  Forall fine l ->
  (q_stop q = 0 ->
   match try_push_tagged q p r with
   | Some (q', p', res) =>
       if event_is_valid (event r) && accepts_route p r then
         if count l <? h + 512
         then res = Ok () /\ p' = advance p r /\ q_stop q' = 0 /\ ring (q_slots q') (l ++ [r]) h
         else res = Err QueueFull /\ p' = p /\ stop_reason (q_stop q') = Some QueueFull
              /\ q_slots q' = q_slots q
       else res = Err InvalidInput /\ p' = p /\ stop_reason (q_stop q') = Some InvalidInput
            /\ q_slots q' = q_slots q
   | None => False
   end
   /\ match try_pop_tagged q c with
      | Some (q', c', res) =>
          if h <? count l
          then (exists r0, l !! Z.to_nat h = Some r0 /\ res = Ok (Some (slot_record r0)))
               /\ head c' = (h + 1) mod 2 ^ 64 /\ q_stop q' = 0 /\ ring (q_slots q') l (h + 1)
          else res = Ok None /\ q' = q /\ c' = c
      | None => False
      end)
  /\ (forall reason, stop_reason (q_stop q) = Some reason ->
      try_push_tagged q p r = Some (q, p, Err reason) /\ try_pop_tagged q c = Some (q, c, Err reason)).
Proof.
  intros Hring Htail Hhead Hfine. split.
  2:{ intros reason Hr. unfold try_push_tagged, try_pop_tagged. by rewrite Hr. }
  intros Hz. split.
  - unfold try_push_tagged. rewrite Hz. cbn [stop_reason stop_from_encoded].
    destruct (event_is_valid (event r)), (accepts_route p r); cbn [negb orb andb]; try done.
    destruct (ring_free_slot _ _ _ Hring) as (s & Hs & Hiff).
    rewrite Htail, slot_index_wrap, Hs. cbn [mbind option_bind].
    destruct (count l <? h + 512) eqn:E; bool_inv.
    + rewrite (proj2 Hiff E), Z.eqb_refl. cbn [negb]. split_and!; try done. cbn [q_slots].
      rewrite wrapping_add_mod. by apply ring_publish_call.
    + rewrite (proj2 (Z.eqb_neq _ _)) by (intros Hx; apply Hiff in Hx; lia). done.
  - unfold try_pop_tagged. rewrite Hz. cbn [stop_reason stop_from_encoded].
    destruct (ring_head_slot _ _ _ Hring) as (s & Hs & Hiff & Hrd).
    rewrite Hhead, slot_index_wrap, Hs, !wrapping_add_mod. cbn [mbind option_bind].
    destruct (h <? count l) eqn:E; bool_inv.
    + rewrite (proj2 Hiff E), Z.eqb_refl. cbn [negb]. destruct (Hrd E) as (r0 & Hl & Hw).
      rewrite list.Forall_forall in Hfine. rewrite Hw, decode_fine by (apply Hfine; by eapply list_elem_of_lookup_2).
      split_and!; try done; [by exists r0|]. cbn [q_slots].
      rewrite <- (list_alter_lookup_insert _ _ _ _ Hs). by apply ring_take.
    + rewrite (proj2 (Z.eqb_neq _ _)) by (intros Hx; apply Hiff in Hx; lia). by destruct c.
Qed.

Lemma capture_queue_calls_witness :
  let '(q, p, c) := capture_channel new_stop in
  try_pop_tagged q c = Some (q, c, Ok None)
  /\ match try_push_tagged q p ring_key with Some (_, _, res) => res = Ok () | None => False end.
Proof.
  destruct (capture_queue_calls (capture_channel new_stop).1.1 (capture_channel new_stop).1.2
    (capture_channel new_stop).2 [] 0 ring_key) as [H _].
  - apply ring_start.
  - reflexivity.
  - reflexivity.
  - constructor.
  - destruct (H eq_refl) as [H1 H2]. split.
    + revert H2. destruct (try_pop_tagged _ _) as [[[q' c'] res]|]; [|done]. cbn.
      intros (-> & -> & ->). reflexivity.
    + revert H1. destruct (try_push_tagged _ _ _) as [[[q' p'] res]|]; [|done]. by intros [-> _].
Defined.
