(* ===== verification/CaptureLease.v ===== *)
(** * The suppression lease (monhop-core/src/capture.rs)

    While input is routed to another computer the local one suppresses it under
    a lease of at most 120 ms that the controller keeps renewing.  The lease
    shares the capture's stop byte.  [Duration] is its nanoseconds; a [None]
    outcome is the [expect] of [stopped_or]. *)

From S2P Require Import Prelude CaptureEvent.

Definition MAX_SUPPRESSION_TTL : Z := ms 120.

Record SuppressionLease := mkLease {
  lease_generation : Z; lease_deadline : option Z; lease_last_now : Z; lease_stop : CaptureStop }.

Abbreviation Outcome := (option (result StopReason unit)) (only parsing).

Definition new_lease (generation now : Z) (s : CaptureStop) : SuppressionLease :=
  mkLease generation None now s.

(** [Err(self.stop.stopped_or(r))]. *)
Definition lease_fail (l : SuppressionLease) (r : StopReason) : SuppressionLease * Outcome :=
  let '(s, reason) := stopped_or (lease_stop l) r in
  (mkLease (lease_generation l) (lease_deadline l) (lease_last_now l) s, Err <$> reason).

(** [?] on an outcome. *)
Definition then_ (m : SuppressionLease * Outcome) (f : SuppressionLease -> SuppressionLease * Outcome)
  : SuppressionLease * Outcome :=
  match m with
  | (l, Some (Ok _)) => f l
  | m => m
  end.

Definition observe_time (l : SuppressionLease) (now : Z) : SuppressionLease * Outcome :=
  match stop_reason (lease_stop l) with
  | Some reason => (l, Some (Err reason))
  | None =>
      if now <? lease_last_now l then lease_fail l ClockRegression
      else (mkLease (lease_generation l) (lease_deadline l) now (lease_stop l), Some (Ok ()))
  end.

Definition validate_generation_and_time (l : SuppressionLease) (generation now : Z)
  : SuppressionLease * Outcome :=
  then_ (observe_time l now) (fun l =>
    match stop_reason (lease_stop l) with
    | Some reason => (l, Some (Err reason))
    | None =>
        if negb (generation =? lease_generation l) then lease_fail l InvalidInput
        else (l, Some (Ok ()))
    end).

Definition reject_expired (l : SuppressionLease) (now : Z) : SuppressionLease * Outcome :=
  match stop_reason (lease_stop l) with
  | Some reason => (l, Some (Err reason))
  | None =>
      if match lease_deadline l with Some d => d <=? now | None => false end
      then lease_fail l LeaseExpired
      else (l, Some (Ok ()))
  end.

Definition renew (l : SuppressionLease) (generation now ttl : Z) : SuppressionLease * Outcome :=
  then_ (validate_generation_and_time l generation now) (fun l =>
  then_ (reject_expired l now) (fun l =>
    if (ttl =? 0) || (MAX_SUPPRESSION_TTL <? ttl) then lease_fail l InvalidInput
    else match checked_add_duration now ttl with
    | None => lease_fail l InvalidInput
    | Some d => (mkLease (lease_generation l) (Some d) (lease_last_now l) (lease_stop l), Some (Ok ()))
    end)).

Definition release_lease (l : SuppressionLease) (generation now : Z) : SuppressionLease * Outcome :=
  then_ (validate_generation_and_time l generation now) (fun l =>
  then_ (reject_expired l now) (fun l =>
    (mkLease (lease_generation l) None (lease_last_now l) (lease_stop l), Some (Ok ())))).

Definition outcome_ok (o : Outcome) : bool := match o with Some (Ok _) => true | _ => false end.

Definition is_suppressing (l : SuppressionLease) (now : Z) : SuppressionLease * bool :=
  let '(l, o) := observe_time l now in
  if negb (outcome_ok o) || is_stopped (lease_stop l) then (l, false)
  else
    let '(l, o) := reject_expired l now in
    (l, outcome_ok o && bool_decide (is_Some (lease_deadline l))).

(** ** Leases that can occur

    [active] is the last renewal that succeeded, as its time and length, unless
    a release succeeded after it. *)

Inductive LeaseOp :=
| LRenew (generation now ttl : Z)
| LRelease (generation now : Z)
| LQuery (now : Z)
| LStop (r : StopReason).

Definition lease_step (st : SuppressionLease * option (Z * Z)) (op : LeaseOp)
  : SuppressionLease * option (Z * Z) :=
  let '(l, active) := st in
  match op with
  | LRenew g now ttl =>
      let '(l', o) := renew l g now ttl in
      (l', if outcome_ok o then Some (now, ttl) else active)
  | LRelease g now =>
      let '(l', o) := release_lease l g now in (l', if outcome_ok o then None else active)
  | LQuery now => (fst (is_suppressing l now), active)
  | LStop r =>
      (mkLease (lease_generation l) (lease_deadline l) (lease_last_now l) (stop_with (lease_stop l) r), active)
  end.

Inductive lease_reach (generation start : Z) : SuppressionLease * option (Z * Z) -> Prop :=
| lease_reach_new : lease_reach generation start (new_lease generation start new_stop, None)
| lease_reach_step st op :
    lease_reach generation start st ->
    match op with LRenew _ _ ttl => 0 <= ttl | _ => True end ->
    lease_reach generation start (lease_step st op).

Definition lease_ok (st : SuppressionLease * option (Z * Z)) : Prop :=
  let '(l, active) := st in
  stop_ok (lease_stop l)
  /\ lease_deadline l = (fun '(t, ttl) => t + ttl) <$> active
  /\ forall t ttl, active = Some (t, ttl) ->
     0 < ttl <= MAX_SUPPRESSION_TTL /\ t <= lease_last_now l.

Section Lease.

(** A failure stops the lease, reports a reason and changes nothing else. *)
Lemma lease_fail_spec l r :
  stop_ok (lease_stop l) ->
  exists s reason, lease_fail l r
    = (mkLease (lease_generation l) (lease_deadline l) (lease_last_now l) s, Some (Err reason))
    /\ stop_ok s /\ stop_reason s = Some reason.
Proof.
  intros Hs. destruct (stop_with_reason _ r Hs) as [reason Hr].
  unfold lease_fail, stopped_or. rewrite Hr. exists (stop_with (lease_stop l) r), reason.
  split_and!; try done. by apply stop_with_ok.
Qed.

(** The checks at the head of every call: they fail and stop the lease, or pass
    and move its clock. *)
Lemma checks_spec l generation now :
  stop_ok (lease_stop l) ->
  let m := then_ (validate_generation_and_time l generation now) (fun l => reject_expired l now) in
  (exists s t reason, m = (mkLease (lease_generation l) (lease_deadline l) t s, Some (Err reason))
     /\ stop_ok s /\ stop_reason s = Some reason /\ lease_last_now l <= t)
  \/ (m = (mkLease (lease_generation l) (lease_deadline l) now (lease_stop l), Some (Ok ()))
      /\ stop_reason (lease_stop l) = None /\ lease_last_now l <= now
      /\ generation = lease_generation l
      /\ forall d, lease_deadline l = Some d -> now < d).
Proof.
  intros Hs. unfold validate_generation_and_time, observe_time, reject_expired.
  destruct (stop_reason (lease_stop l)) as [reason|] eqn:Er.
  { left. exists (lease_stop l), (lease_last_now l), reason. destruct l. cbn. by split_and!. }
  destruct (now <? lease_last_now l) eqn:Et; bool_inv.
  { destruct (lease_fail_spec l ClockRegression Hs) as (s & reason & -> & ? & ?). left.
    exists s, (lease_last_now l), reason. by split_and!. }
  cbn [then_ lease_stop lease_generation lease_deadline]. rewrite Er.
  set (l' := mkLease _ _ now _).
  destruct (negb (generation =? lease_generation l)) eqn:Eg; bool_inv.
  { destruct (lease_fail_spec l' InvalidInput Hs) as (s & reason & -> & ? & ?). left.
    exists s, now, reason. by split_and!. }
  cbn [then_ lease_stop lease_deadline l']. rewrite Er.
  destruct (lease_deadline l) as [d|] eqn:Ed; [destruct (d <=? now) eqn:El; bool_inv|].
  - destruct (lease_fail_spec l' LeaseExpired Hs) as (s & reason & Hf & ? & ?).
    unfold l' in Hf. rewrite ?Ed in Hf. left. exists s, now, reason. by split_and!.
  - right. split_and!; try done. by intros ? [= <-].
  - right. by split_and!.
Qed.

Lemma is_suppressing_spec l now :
  stop_ok (lease_stop l) ->
  exists t s b, is_suppressing l now = (mkLease (lease_generation l) (lease_deadline l) t s, b)
    /\ stop_ok s /\ lease_last_now l <= t
    /\ (b = true <-> stop_reason (lease_stop l) = None /\ lease_last_now l <= now
        /\ exists d, lease_deadline l = Some d /\ now < d).
Proof.
  intros Hs. unfold is_suppressing, observe_time.
  destruct (stop_reason (lease_stop l)) as [reason|] eqn:Er.
  { exists (lease_last_now l), (lease_stop l), false. destruct l. cbn in *. split_and!; try done. naive_solver. }
  destruct (now <? lease_last_now l) eqn:Et; bool_inv.
  { destruct (lease_fail_spec l ClockRegression Hs) as (s & reason & -> & ? & ?).
    exists (lease_last_now l), s, false. cbn. split_and!; try done. split; [done|]. intros (_ & ? & _). lia. }
  cbn [outcome_ok negb orb lease_stop]. unfold is_stopped. rewrite Er, bool_decide_eq_false_2 by (by intros [??]).
  unfold reject_expired. cbn [lease_stop lease_deadline]. rewrite Er. set (l' := mkLease _ _ now _).
  destruct (lease_deadline l) as [d|] eqn:Ed; [destruct (d <=? now) eqn:El; bool_inv|].
  - destruct (lease_fail_spec l' LeaseExpired Hs) as (s & reason & -> & ? & ?).
    exists now, s, false. cbn. split_and!; try done. split; [done|].
    intros (_ & _ & d' & [= <-] & ?). lia.
  - exists now, (lease_stop l), true. cbn. split_and!; try done. split; [|done]. intros _. split_and!; try done.
    by exists d.
  - exists now, (lease_stop l), false. cbn. split_and!; try done. naive_solver.
Qed.

Lemma then_then_ m f g : then_ m (fun l => then_ (f l) g) = then_ (then_ m f) g.
Proof. by destruct m as [l [[[]|]|]]. Qed.

Lemma lease_step_ok st op :
  lease_ok st -> match op with LRenew _ _ ttl => 0 <= ttl | _ => True end -> lease_ok (lease_step st op).
Proof.
  destruct st as [l active]. intros (Hs & Hd & Ha) Hop. destruct op as [g now ttl|g now|now|r]; cbn [lease_step].
  - unfold renew. rewrite then_then_.
    destruct (checks_spec l g now Hs) as [(s & t & reason & -> & Hb & _ & Ht)|(-> & Hn & Ht & -> & _)];
      cbn [then_ outcome_ok lease_generation lease_deadline lease_last_now lease_stop].
    { split_and!; try done. cbn. intros t' ttl' E. destruct (Ha t' ttl' E). lia. }
    set (l' := mkLease _ _ now _).
    assert (Hfail : forall r, let '(l'', o) := lease_fail l' r in lease_ok (l'', if outcome_ok o then Some (now, ttl) else active)).
    { intros r. destruct (lease_fail_spec l' r Hs) as (s & reason & -> & ? & _). cbn.
      split_and!; try done. cbn. intros t' ttl' E. destruct (Ha t' ttl' E). lia. }
    destruct ((ttl =? 0) || (MAX_SUPPRESSION_TTL <? ttl)) eqn:E; [apply Hfail|]. bool_inv.
    unfold checked_add_duration. destruct (now + ttl <=? duration_max); [|apply Hfail].
    cbn. split_and!; try done. intros ? ? [= <- <-]. cbn. lia.
  - unfold release_lease. rewrite then_then_.
    destruct (checks_spec l g now Hs) as [(s & t & reason & -> & Hb & _ & Ht)|(-> & Hn & Ht & -> & _)]; cbn.
    + split_and!; try done. cbn. intros t' ttl' E. destruct (Ha t' ttl' E). lia.
    + split_and!; done.
  - destruct (is_suppressing_spec l now Hs) as (t & s & b & -> & Hb & Ht & _). cbn. split_and!; try done.
    cbn. intros t' ttl' E. destruct (Ha t' ttl' E). lia.
  - cbn. split_and!; try done. by apply stop_with_ok.
Qed.

Lemma lease_reach_ok g start st : lease_reach g start st -> lease_ok st.
Proof.
  induction 1 as [|st op _ IH Hop]; [|by apply lease_step_ok].
  cbn. split_and!; [by left|done|done].
Qed.
End Lease.

(** ** Properties *)

(** Suppression fails open: after any sequence of renewals, releases,
    queries and stops, input is suppressed at a moment exactly when the capture
    is not stopped, the clock has not gone back, and the last successful
    renewal, not released since, is recent enough; that renewal is at most
    120 ms old, so a controller that dies stops suppressing within 120 ms. No
    call panics, and once stopped no renewal succeeds. *)
Theorem suppression_is_bounded (generation start now ttl g : Z) (l : SuppressionLease)
    (active : option (Z * Z)) :
  lease_reach generation start (l, active) ->
  (snd (is_suppressing l now) = true <->
    stop_reason (lease_stop l) = None /\ lease_last_now l <= now
    /\ exists t len, active = Some (t, len) /\ now < t + len)
  /\ (snd (is_suppressing l now) = true ->
      exists t len, active = Some (t, len) /\ t <= now < t + len /\ 0 < len <= MAX_SUPPRESSION_TTL)
  /\ is_Some (snd (renew l g now ttl)) /\ is_Some (snd (release_lease l g now))
  /\ (forall reason, stop_reason (lease_stop l) = Some reason ->
      renew l g now ttl = (l, Some (Err reason)) /\ is_suppressing l now = (l, false)).
Proof.
  intros Hr. pose proof (lease_reach_ok _ _ _ Hr) as (Hs & Hd & Ha).
  destruct (is_suppressing_spec l now Hs) as (t & s & b & Hq & _ & _ & Hb).
  assert (Hiff : snd (is_suppressing l now) = true <->
    stop_reason (lease_stop l) = None /\ lease_last_now l <= now
    /\ exists t len, active = Some (t, len) /\ now < t + len).
  { rewrite Hq. cbn [snd]. rewrite Hb, Hd. destruct active as [[t' len]|]; cbn; naive_solver. }
  split_and!; [done| | | |].
  - intros (_ & Hl & t' & len & E & Hlt)%Hiff. destruct (Ha t' len E). exists t', len. split_and!; done || lia.
  - unfold renew. rewrite then_then_.
    destruct (checks_spec l g now Hs) as [(s' & t' & reason & -> & _)|(-> & _)]; cbn [then_]; [by eexists|].
    set (l' := mkLease _ _ now _).
    assert (Hf : forall r, is_Some (snd (lease_fail l' r)))
      by (intros r; destruct (lease_fail_spec l' r Hs) as (? & ? & -> & _); by eexists).
    case_match; [apply Hf|]. case_match; [by eexists|apply Hf].
  - unfold release_lease. rewrite then_then_.
    destruct (checks_spec l g now Hs) as [(s' & t' & reason & -> & _)|(-> & _)]; by eexists.
  - intros reason Hst. unfold renew, validate_generation_and_time, is_suppressing, observe_time.
    by rewrite Hst.
Qed.

Definition lease_sample : SuppressionLease * option (Z * Z) :=
  lease_step (new_lease 1 0 new_stop, None) (LRenew 1 (ms 10) (ms 100)).

Lemma suppression_is_bounded_witness :
  snd (is_suppressing (fst lease_sample) (ms 109)) = true
  /\ snd (is_suppressing (fst lease_sample) (ms 110)) = false
  /\ exists t len, snd lease_sample = Some (t, len) /\ t <= ms 109 < t + len /\ 0 < len <= MAX_SUPPRESSION_TTL.
Proof.
  split; [reflexivity|]. split; [reflexivity|].
  destruct (suppression_is_bounded 1 0 (ms 109) 0 0 (fst lease_sample) (snd lease_sample)) as (_ & H & _).
  - apply (lease_reach_step 1 0 (new_lease 1 0 new_stop, None) (LRenew 1 (ms 10) (ms 100))).
    + apply lease_reach_new.
    + vm_compute. discriminate.
  - apply H. reflexivity.
Defined.
