(* ===== verification/CapturePhysical.v ===== *)
(** * The physical input ledger (monhop-core/src/capture_physical.rs)

    [PhysicalCapture] is the state the native capture callback keeps of every key
    and button: what the hand holds, what the local applications were shown, what
    was queued for the session.  [process_with_travel] is one captured event.  The
    queue it pushes into is an interface, [CaptureSink], which the ring of
    CaptureQueue.v implements; the take-back gate is the one of TakeBack.v over any
    shared floor.  A duration is in nanoseconds. *)

From stdpp Require Import gmap.
From S2P Require Import Prelude F64 Types Floor TakeBack HeldInput CaptureEvent CaptureQueue CaptureLease.

(** ** What the ledger asks of the queue

    [sink_log] is every record accepted so far.  A queue that refuses a record is
    stopped, one that is stopped refuses, and no call panics. *)

Class CaptureSink (C : Type) := {
  sink_ok : C -> Prop;
  sink_stop : C -> CaptureStop;
  sink_log : C -> list CapturedEvent;
  sink_halt : C -> StopReason -> C;
  sink_push : C -> CapturedEvent -> option (C * bool);
  sink_halt_spec c r :
    sink_ok c -> sink_ok (sink_halt c r) /\ is_stopped (sink_stop (sink_halt c r)) = true
    /\ sink_log (sink_halt c r) = sink_log c;
  sink_push_spec c r :
    sink_ok c -> exists c' ok, sink_push c r = Some (c', ok) /\ sink_ok c'
    /\ (if ok then is_stopped (sink_stop c') = false /\ sink_log c' = sink_log c ++ [r]
        else is_stopped (sink_stop c') = true /\ sink_log c' = sink_log c);
  sink_push_stopped c r :
    is_stopped (sink_stop c) = true -> sink_push c r = Some (c, false) }.

(** The producer's end of the ring, with its history. *)
Record RingSink := mkRingSink { rs_queue : Queue; rs_producer : Producer; rs_log : list CapturedEvent }.
Definition ring_halt (c : RingSink) (r : StopReason) : RingSink :=
  mkRingSink (mkQueue (stop_with (q_stop (rs_queue c)) r) (q_slots (rs_queue c))) (rs_producer c) (rs_log c).
Definition ring_push (c : RingSink) (r : CapturedEvent) : option (RingSink * bool) :=
  '(q, p, res) ← try_push_tagged (rs_queue c) (rs_producer c) r;
  Some (match res with
        | Ok _ => (mkRingSink q p (rs_log c ++ [r]), true)
        | Err _ => (mkRingSink q p (rs_log c), false)
        end).

Lemma stop_with_stopped s r : is_stopped (stop_with s r) = true \/ s <> 0 /\ stop_with s r = s.
Proof. unfold stop_with. destruct (Z.eqb_spec s 0); [left; by destruct r|by right]. Qed.
Lemma stop_ok_with s r : stop_ok s -> stop_ok (stop_with s r) /\ is_stopped (stop_with s r) = true.
Proof.
  intros [->|Hs]; [split; [right|]; by destruct r|].
  unfold stop_with. destruct (Z.eqb_spec s 0) as [->|]; [by destruct Hs|]. split; [by right|].
  by apply bool_decide_eq_true_2.
Qed.
Lemma stop_ok_cases s : stop_ok s -> s = 0 /\ is_stopped s = false \/ is_Some (stop_reason s) /\ is_stopped s = true.
Proof. intros [->|Hs]; [by left|right; split; [done|by apply bool_decide_eq_true_2]]. Qed.

#[global, refine] Instance ring_sink : CaptureSink RingSink := {|
  sink_ok c := stop_ok (q_stop (rs_queue c)) /\ length (q_slots (rs_queue c)) = 512%nat;
  sink_stop c := q_stop (rs_queue c);
  sink_log := rs_log;
  sink_halt := ring_halt;
  sink_push := ring_push |}.
Proof.
  - intros c r [H1 H2]. cbn. destruct (stop_ok_with _ r H1). done.
  - intros c r [H1 H2]. unfold ring_push, try_push_tagged.
    destruct (stop_ok_cases _ H1) as [[Hz Hs]|[[reason Hr] Hs]].
    2:{ rewrite Hr. cbn. eexists _, false. split; [done|]. by split_and!. }
    rewrite Hz. cbn [stop_reason stop_from_encoded stopped_or].
    assert (forall r0, exists reason, stop_reason (stop_with 0 r0) = Some reason) as Hst by (intros []; by eexists).
    assert (forall r0, stop_ok (stop_with 0 r0) /\ is_stopped (stop_with 0 r0) = true) as Hok
      by (intros r0; apply stop_ok_with; by left).
    destruct (_ || _).
    { destruct (Hst InvalidInput) as [reason Hr]. unfold stopped_or. rewrite Hr. cbn [mbind option_bind].
      eexists _, false. split; [done|]. cbn. by destruct (Hok InvalidInput). }
    assert (slot_index (tail (rs_producer c)) < length (q_slots (rs_queue c)))%nat as Hlt.
    { rewrite H2. unfold slot_index, CAPTURE_QUEUE_CAPACITY. pose proof (Z.mod_pos_bound (tail (rs_producer c)) 512). lia. }
    destruct (lookup_lt_is_Some_2 _ _ Hlt) as [slot ->]. cbn [mbind option_bind].
    destruct (negb _).
    { destruct (Hst QueueFull) as [reason Hr]. unfold stopped_or. rewrite Hr. cbn [mbind option_bind].
      eexists _, false. split; [done|]. cbn. by destruct (Hok QueueFull). }
    eexists _, true. split; [done|]. cbn. rewrite length_insert. split_and!; try done. by left.
  - intros c r Hs. unfold ring_push, try_push_tagged. apply bool_decide_eq_true in Hs as [reason ->]. cbn.
    by destruct c.
Defined.

(** ** The state *)

Record Press := mkPress {
  physical : bool; local_down : bool; suppressed_down : bool; initially_held : bool;
  queued_down : bool; locally_injected : bool; withheld : bool }.
Definition no_press : Press := mkPress false false false false false false false.
Definition initial_press : Press := mkPress true true false true false false false.
Definition set_physical (p : Press) (b : bool) : Press :=
  mkPress b (local_down p) (suppressed_down p) (initially_held p) (queued_down p) (locally_injected p) (withheld p).
Definition set_local_down (p : Press) (b : bool) : Press :=
  mkPress (physical p) b (suppressed_down p) (initially_held p) (queued_down p) (locally_injected p) (withheld p).
Definition set_suppressed (p : Press) (b : bool) : Press :=
  mkPress (physical p) (local_down p) b (initially_held p) (queued_down p) (locally_injected p) (withheld p).
Definition set_queued (p : Press) (b : bool) : Press :=
  mkPress (physical p) (local_down p) (suppressed_down p) (initially_held p) b (locally_injected p) (withheld p).
Definition set_withheld (p : Press) (b : bool) : Press :=
  mkPress (physical p) (local_down p) (suppressed_down p) (initially_held p) (queued_down p) (locally_injected p) b.

Definition TAKE_BACK_WINDOW : Z := ms 100.
Definition TAKE_BACK_MOTION : f64 := 0x4018000000000000. (* 6.0 *)
Record MotionWindow := mkMotion { mw_generation : Z; mw_start : Z; mw_dx : f64; mw_dy : f64 }.
Definition no_motion : MotionWindow := mkMotion 0 0 f64_zero f64_zero.
Definition reaches_threshold (w : MotionWindow) (generation now : Z) (dx dy : f64) : MotionWindow * bool :=
  let w := if negb (mw_generation w =? generation) || (TAKE_BACK_WINDOW <=? Z.max 0 (now - mw_start w))
           then mkMotion generation now f64_zero f64_zero else w in
  let w := mkMotion (mw_generation w) (mw_start w) (f64_add (mw_dx w) dx) (f64_add (mw_dy w) dy) in
  (w, f64_leb (f64_mul TAKE_BACK_MOTION TAKE_BACK_MOTION)
        (f64_add (f64_mul (mw_dx w) (mw_dx w)) (f64_mul (mw_dy w) (mw_dy w)))).

Inductive LocalTransfer :=
| TransferKey (usage : HidUsage) (pressed : bool)
| TransferButton (button : MouseButton) (pressed : bool).

Definition ESCAPE : Z := 0x29.
Definition ESCAPE_CHORD : list Z := [0xe0; 0xe4; ESCAPE].

(** [HeldInput]: a key or a button. *)
Inductive HeldPress := HeldKey (usage : HidUsage) | HeldButton (button : MouseButton).
#[global] Instance HeldPress_eq_dec : EqDecision HeldPress.
Proof. solve_decision. Defined.

Section Ledger.
Context {F : Type} `{SharedFloorI F} {C : Type} `{CaptureSink C}.

Record PhysicalCapture := mkPhysical {
  pc_keys : list Press; pc_buttons : list Press; pc_last_time : Z; pc_chord_since : option Z;
  pc_reserved_escape : bool; pc_intercepts_escape : bool; pc_routing_revision : Z;
  pc_take_back : option (Gate F); pc_motion : MotionWindow; pc_travel : MotionWindow;
  pc_withholding_since : option Z }.

Definition set_key_press (c : PhysicalCapture) (u : HidUsage) (p : Press) : PhysicalCapture :=
  mkPhysical (<[Z.to_nat u := p]> (pc_keys c)) (pc_buttons c) (pc_last_time c) (pc_chord_since c)
    (pc_reserved_escape c) (pc_intercepts_escape c) (pc_routing_revision c) (pc_take_back c) (pc_motion c)
    (pc_travel c) (pc_withholding_since c).
Definition set_button_press (c : PhysicalCapture) (b : MouseButton) (p : Press) : PhysicalCapture :=
  mkPhysical (pc_keys c) (<[Z.to_nat (button_index b) := p]> (pc_buttons c)) (pc_last_time c) (pc_chord_since c)
    (pc_reserved_escape c) (pc_intercepts_escape c) (pc_routing_revision c) (pc_take_back c) (pc_motion c)
    (pc_travel c) (pc_withholding_since c).
Definition set_last_time (c : PhysicalCapture) (t : Z) : PhysicalCapture :=
  mkPhysical (pc_keys c) (pc_buttons c) t (pc_chord_since c) (pc_reserved_escape c) (pc_intercepts_escape c)
    (pc_routing_revision c) (pc_take_back c) (pc_motion c) (pc_travel c) (pc_withholding_since c).
Definition set_chord (c : PhysicalCapture) (since : option Z) (reserved : bool) : PhysicalCapture :=
  mkPhysical (pc_keys c) (pc_buttons c) (pc_last_time c) since reserved (pc_intercepts_escape c)
    (pc_routing_revision c) (pc_take_back c) (pc_motion c) (pc_travel c) (pc_withholding_since c).
Definition set_take_back (c : PhysicalCapture) (g : option (Gate F)) : PhysicalCapture :=
  mkPhysical (pc_keys c) (pc_buttons c) (pc_last_time c) (pc_chord_since c) (pc_reserved_escape c)
    (pc_intercepts_escape c) (pc_routing_revision c) g (pc_motion c) (pc_travel c) (pc_withholding_since c).
Definition set_windows (c : PhysicalCapture) (motion travel : MotionWindow) : PhysicalCapture :=
  mkPhysical (pc_keys c) (pc_buttons c) (pc_last_time c) (pc_chord_since c) (pc_reserved_escape c)
    (pc_intercepts_escape c) (pc_routing_revision c) (pc_take_back c) motion travel (pc_withholding_since c).
Definition set_withholding (c : PhysicalCapture) (since : option Z) : PhysicalCapture :=
  mkPhysical (pc_keys c) (pc_buttons c) (pc_last_time c) (pc_chord_since c) (pc_reserved_escape c)
    (pc_intercepts_escape c) (pc_routing_revision c) (pc_take_back c) (pc_motion c) (pc_travel c) since.
Definition set_routing_revision (c : PhysicalCapture) (revision : Z) : PhysicalCapture :=
  mkPhysical (pc_keys c) (pc_buttons c) (pc_last_time c) (pc_chord_since c) (pc_reserved_escape c)
    (pc_intercepts_escape c) revision (pc_take_back c) (pc_motion c) (pc_travel c) (pc_withholding_since c).

Definition key_press (c : PhysicalCapture) (u : HidUsage) : Press := default no_press (pc_keys c !! Z.to_nat u).
Definition button_press (c : PhysicalCapture) (b : MouseButton) : Press :=
  default no_press (pc_buttons c !! Z.to_nat (button_index b)).
Definition press_of (c : PhysicalCapture) (i : HeldPress) : Press :=
  match i with HeldKey u => key_press c u | HeldButton b => button_press c b end.

Definition new_capture (now : Z) : PhysicalCapture :=
  mkPhysical (replicate 256 no_press) (replicate 5 no_press) now None false true 0 None no_motion no_motion None.
Definition new_passive (now : Z) : PhysicalCapture :=
  mkPhysical (replicate 256 no_press) (replicate 5 no_press) now None false false 0 None no_motion no_motion None.
Definition with_take_back (c : PhysicalCapture) (g : Gate F) : PhysicalCapture := set_take_back c (Some g).
Definition seed_locally_held_key (c : PhysicalCapture) (u : HidUsage) : PhysicalCapture :=
  if usage_is_valid u then set_key_press c u initial_press else c.
Definition seed_locally_held_button (c : PhysicalCapture) (b : MouseButton) : PhysicalCapture :=
  set_button_press c b initial_press.

(** ** Handoffs *)

(** [TransferPlan::push] on its 261 entries: [None] is the index out of range. *)
Definition push_transfer (plan : list LocalTransfer) (t : LocalTransfer) : option (list LocalTransfer) :=
  if (length plan <? 261)%nat then Some (plan ++ [t]) else None.
Definition push_all (plan : list LocalTransfer) (l : list LocalTransfer) : option (list LocalTransfer) :=
  foldl (fun o t => plan ← o; push_transfer plan t) (Some plan) l.

Definition hands_off (remote : bool) (u : HidUsage) (p : Press) : bool :=
  physical p && negb (initially_held p) && negb (withheld p) && usage_is_valid u
  && ((remote && local_down p) || (negb remote && usage_is_modifier u && negb (local_down p))).
Definition button_hands_off (remote : bool) (p : Press) : bool :=
  physical p && negb (initially_held p) && negb (withheld p) && Bool.eqb (local_down p) remote.
Definition key_transfers (select : HidUsage -> Press -> bool) (pressed : bool) (c : PhysicalCapture)
  : list LocalTransfer :=
  omap (fun u => if select u (key_press c u) then Some (TransferKey u pressed) else None) (seqZ 0 256).
Definition button_transfers (select : Press -> bool) (pressed : bool) (c : PhysicalCapture)
  : list LocalTransfer :=
  omap (fun b => if select (button_press c b) then Some (TransferButton b pressed) else None) all_buttons.
Definition handoff_plan (c : PhysicalCapture) (remote : bool) : option (list LocalTransfer) :=
  plan ← push_all [] (key_transfers (hands_off remote) (negb remote) c);
  push_all plan (button_transfers (button_hands_off remote) (negb remote) c).
Definition is_injected (p : Press) : bool := locally_injected p && local_down p.
Definition release_injected_plan (c : PhysicalCapture) : option (list LocalTransfer) :=
  plan ← push_all [] (key_transfers (fun _ => is_injected) false c);
  push_all plan (button_transfers is_injected false c).

Definition transferred (p : Press) (pressed : bool) : Press :=
  mkPress (physical p) pressed (physical p && negb pressed) (initially_held p) (queued_down p) pressed (withheld p).
Definition apply_transfer_success (c : PhysicalCapture) (t : LocalTransfer) : PhysicalCapture :=
  match t with
  | TransferKey u pressed =>
      if usage_is_valid u then set_key_press c u (transferred (key_press c u) pressed) else c
  | TransferButton b pressed => set_button_press c b (transferred (button_press c b) pressed)
  end.

(** ** Startup *)

Definition any_press (c : PhysicalCapture) (test : Press -> bool) : bool :=
  existsb test (pc_keys c ++ pc_buttons c).
Definition is_ready_for_suppression (c : PhysicalCapture) : bool := negb (any_press c initially_held).
Definition has_suppressed_presses (c : PhysicalCapture) : bool :=
  any_press c (fun p => suppressed_down p || withheld p).
Definition initially_held_list (c : PhysicalCapture) : list HeldPress :=
  omap (fun u => if initially_held (key_press c u) then Some (HeldKey u) else None) (seqZ 0 256)
  ++ omap (fun b => if initially_held (button_press c b) then Some (HeldButton b) else None) all_buttons.
Definition chord_held (c : PhysicalCapture) : bool := forallb (fun u => physical (key_press c u)) ESCAPE_CHORD.
Definition forget_initially_held (c : PhysicalCapture) (i : HeldPress) : PhysicalCapture * bool :=
  match i with
  | HeldKey u =>
      if negb (usage_is_valid u) || negb (initially_held (key_press c u)) then (c, false)
      else
        let c := set_key_press c u no_press in
        (set_chord c (if negb (chord_held c) then None else pc_chord_since c)
           (if u =? ESCAPE then false else pc_reserved_escape c), true)
  | HeldButton b =>
      if negb (initially_held (button_press c b)) then (c, false)
      else
        let c := set_button_press c b no_press in
        (set_chord c (if negb (chord_held c) then None else pc_chord_since c) (pc_reserved_escape c), true)
  end.

(** ** One event *)

Definition tick (c : PhysicalCapture) (ch : C) (now : Z) : PhysicalCapture * C :=
  if now <? pc_last_time c then (c, sink_halt ch ClockRegression)
  else
    let c := set_last_time c now in
    (c, match pc_chord_since c with
        | Some start => if HOLD_DURATION <=? Z.max 0 (now - start) then sink_halt ch EmergencyEscapeStop else ch
        | None => ch
        end).

(** The window an event moves, if it is motion, and whether it is deliberate. *)
Definition deliberate (c : PhysicalCapture) (e : CaptureEvent) (travel : option (f64 * f64)) (generation now : Z)
  : PhysicalCapture * bool :=
  let motion dx dy :=
    let '(w, b) := reaches_threshold (pc_motion c) generation now dx dy in (set_windows c w (pc_travel c), b) in
  if negb (event_is_valid e) then (c, false)
  else match e with
  | EvKey _ _ _ _ | EvButton _ _ _ | EvScroll _ _ | EvLogicalScroll _ _ | EvSystemGesture _ => (c, true)
  | EvGesture kind _ value => (c, kind_is_discrete kind || negb (f64_eqb value f64_zero))
  | EvRelativeMotion dx dy _ => motion (f64_of_Z dx) (f64_of_Z dy)
  | EvLogicalRelativeMotion dx dy => motion dx dy
  | EvAbsoluteMotion _ _ | EvLogicalAbsoluteMotion _ _ =>
      match travel with
      | Some (dx, dy) =>
          if f64_is_finite dx && f64_is_finite dy then
            let '(w, b) := reaches_threshold (pc_travel c) generation now dx dy in
            (set_windows c (pc_motion c) w, b)
          else (c, false)
      | None => (c, false)
      end
  | EvRouteChanged _ _ => (c, false)
  end.

(** [observe_take_back]; [None] is a floor word that is no snapshot, or a
    compare-and-swap loop that ran out of [fuel]. *)
Definition observe_take_back (fuel : nat) (c : PhysicalCapture) (ch : C) (e : CaptureEvent)
    (travel : option (f64 * f64)) (now : Z) : option (PhysicalCapture * Z) :=
  match pc_take_back c with
  | None => Some (c, 0)
  | Some g =>
      floor ← fl_snapshot (gate_floor g);
      if negb (bool_decide (state floor = Receiving)) then
        Some (set_windows c no_motion no_motion, generation floor)
      else
        let '(c, fires) := deliberate c e travel (generation floor) now in
        if negb fires then Some (c, generation floor)
        else
          let c := set_windows c no_motion no_motion in
          '(g, out) ← trigger fuel g;
          let c := set_take_back c (Some g) in
          Some (match out with
                | Triggered true => if negb (is_stopped (sink_stop ch)) then set_withholding c (Some now) else c
                | _ => c
                end, generation floor)
  end.

Definition withholding (c : PhysicalCapture) (ch : C) (now : Z) : PhysicalCapture * bool :=
  match pc_withholding_since c with
  | None => (c, false)
  | Some since =>
      let held := match pc_take_back c with Some g => injected_held g | None => false end in
      if held && negb (is_stopped (sink_stop ch)) && (Z.max 0 (now - since) <? MAX_SUPPRESSION_TTL)
      then (c, true)
      else (set_withholding c None, false)
  end.

Definition modifiers (c : PhysicalCapture) : ModifierState :=
  foldl (fun value i =>
    let key := key_press c (0xe0 + i) in
    if physical key && negb (withheld key) && negb (initially_held key) then Z.lor value (1 ≪ i) else value)
    0 (seqZ 0 8).

Definition withhold_press (p previous : Press) (pressed withholding : bool) : Press * option bool :=
  if withheld previous then
    if negb pressed then (no_press, Some (negb (local_down previous))) else (p, Some true)
  else if withholding && pressed && negb (physical previous) then
    (set_withheld (set_physical p true) true, Some true)
  else (p, None).
Definition update_press (p previous : Press) (pressed suppress : bool) : Press * bool :=
  if negb pressed then (no_press, suppressed_down previous && negb (local_down previous))
  else
    let p := set_physical p true in
    if suppressed_down previous then (p, true)
    else if suppress && negb (initially_held previous) then
      (if negb (local_down previous) then set_suppressed p true else p, true)
    else (set_local_down p true, false).

(** A push, when the event is to be queued at all. *)
Definition push_if (queue : bool) (ch : C) (r : CapturedEvent) : option (C * bool) :=
  if queue && negb (is_stopped (sink_stop ch)) then sink_push ch r else Some (ch, false).

(** The chord after a key changed. *)
Definition note_chord (c : PhysicalCapture) (now : Z) : PhysicalCapture :=
  if chord_held c then
    set_chord c (match pc_chord_since c with None => Some now | since => since end) true
  else set_chord c None (pc_reserved_escape c).

Definition process_key (c : PhysicalCapture) (ch : C) (usage : HidUsage) (pressed remote : bool) (generation now : Z)
    (holding : bool) : option (PhysicalCapture * C * bool) :=
  if negb (usage_is_valid usage) then Some (c, sink_halt ch InvalidInput, false)
  else
    let previous := key_press c usage in
    let c := set_key_press c usage (set_physical previous pressed) in
    let complete_chord := chord_held c in
    let c := note_chord c now in
    let reserved := pc_intercepts_escape c && (usage =? ESCAPE) && pc_reserved_escape c in
    let chord_repeat := pc_intercepts_escape c && complete_chord && pressed in
    let c := if (usage =? ESCAPE) && negb pressed then set_chord c (pc_chord_since c) false else c in
    let '(p, early) := withhold_press (key_press c usage) previous pressed holding in
    let c := set_key_press c usage p in
    match early with
    | Some suppress => Some (c, ch, suppress)
    | None =>
        let should_queue := negb (initially_held previous)
          && (if pressed then negb reserved && negb chord_repeat else queued_down previous) in
        let canonical := EvKey usage pressed (pressed && physical previous) (modifiers c) in
        '(ch, queued) ← push_if should_queue ch (mkCaptured canonical (pc_routing_revision c) remote generation);
        let '(p, suppress) := update_press (key_press c usage) previous pressed
          ((remote && queued) || (reserved && negb (is_stopped (sink_stop ch)))) in
        let p := if pressed && queued then set_queued p true else p in
        Some (set_key_press c usage p, ch, suppress || (holding && pressed))
    end.

Definition process_button (c : PhysicalCapture) (ch : C) (e : CaptureEvent) (button : MouseButton)
    (pressed remote : bool) (generation : Z) (holding : bool) : option (PhysicalCapture * C * bool) :=
  let previous := button_press c button in
  let '(p, early) := withhold_press previous previous pressed holding in
  let c := set_button_press c button p in
  match early with
  | Some suppress => Some (c, ch, suppress)
  | None =>
      '(ch, queued) ← push_if (negb (initially_held previous) && (pressed || queued_down previous)) ch
        (mkCaptured e (pc_routing_revision c) remote generation);
      let '(p, suppress) := update_press (button_press c button) previous pressed (remote && queued) in
      let p := if pressed && queued then set_queued p true else p in
      Some (set_button_press c button p, ch, suppress || (holding && pressed))
  end.

Definition process_other (c : PhysicalCapture) (ch : C) (e : CaptureEvent) (remote : bool) (generation : Z)
    (holding : bool) : option (PhysicalCapture * C * bool) :=
  '(ch, queued) ← push_if true ch (mkCaptured e (pc_routing_revision c) remote generation);
  Some (c, ch, (remote && queued && negb (is_stopped (sink_stop ch))) || holding).

Definition process_with_travel (fuel : nat) (c : PhysicalCapture) (ch : C) (e : CaptureEvent)
    (travel : option (f64 * f64)) (remote : bool) (now : Z) : option (PhysicalCapture * C * bool) :=
  let '(c, ch) := tick c ch now in
  let remote := remote && is_ready_for_suppression c && negb (is_stopped (sink_stop ch)) in
  '(c, generation) ← observe_take_back fuel c ch e travel now;
  let '(c, holding) := withholding c ch now in
  match e with
  | EvKey usage pressed _ _ => process_key c ch usage pressed remote generation now holding
  | EvButton button pressed _ => process_button c ch e button pressed remote generation holding
  | _ => process_other c ch e remote generation holding
  end.
Definition process (fuel : nat) (c : PhysicalCapture) (ch : C) (e : CaptureEvent) (remote : bool) (now : Z)
  : option (PhysicalCapture * C * bool) :=
  process_with_travel fuel c ch e None remote now.
End Ledger.
Arguments PhysicalCapture : clear implicits.
