(* ===== verification/SessionPacer.v ===== *)
(** * Motion pacing (monhop-transport/src/session_pacer.rs)

    Absolute positions leave a source at most once per interval of the link's
    quality; a position that waits for its slot is replaced by the next.
    [Duration] is its nanoseconds. *)

From S2P Require Import Prelude Types.

Record MotionPacer := mkPacer { waiting : option Point; last_sent : option Z }.

(** [MotionPacer::default]. *)
Definition default_pacer : MotionPacer := mkPacer None None.

Definition has_waiting (p : MotionPacer) : bool := bool_decide (is_Some (waiting p)).

Definition flush (p : MotionPacer) (now : Z) : MotionPacer * option Point :=
  match waiting p with
  | None => (p, None)
  | Some position => (mkPacer None (Some now), Some position)
  end.

Definition slot_open (p : MotionPacer) (interval now : Z) : bool :=
  match last_sent p with None => true | Some last => interval <=? saturating_sub now last end.

Definition due (p : MotionPacer) (interval now : Z) : MotionPacer * option Point :=
  if slot_open p interval now then flush p now else (p, None).

Definition offer (p : MotionPacer) (position : Point) (interval now : Z)
  : MotionPacer * option Point :=
  due (mkPacer (Some position) (last_sent p)) interval now.

Definition discard (p : MotionPacer) : MotionPacer := mkPacer None (last_sent p).

(** ** Histories *)

Inductive PacerOp :=
| POffer (position : Point) (interval now : Z)
| PDue (interval now : Z)
| PFlush (now : Z)
| PDiscard.

Definition pacer_op (p : MotionPacer) (op : PacerOp) : MotionPacer * option Point :=
  match op with
  | POffer q interval now => offer p q interval now
  | PDue interval now => due p interval now
  | PFlush now => flush p now
  | PDiscard => (discard p, None)
  end.

(** The state after a history and what each call of it sent. *)
Fixpoint pacer_run (p : MotionPacer) (ops : list PacerOp) : MotionPacer * list (option Point) :=
  match ops with
  | [] => (p, [])
  | op :: ops =>
      let '(p, out) := pacer_op p op in
      let '(p, outs) := pacer_run p ops in (p, out :: outs)
  end.

Definition op_offers (op : PacerOp) : option Point :=
  match op with POffer q _ _ => Some q | _ => None end.
Definition op_now (op : PacerOp) : option Z :=
  match op with POffer _ _ now | PDue _ now | PFlush now => Some now | PDiscard => None end.
Definition op_interval (op : PacerOp) : option Z :=
  match op with POffer _ i _ | PDue i _ => Some i | _ => None end.

(** The positions a history offers and the positions its calls sent. *)
Definition offered (ops : list PacerOp) : list Point := omap op_offers ops.
Definition sent_positions (outs : list (option Point)) : list Point := omap id outs.
(** When the last send of a history happened. *)
Definition send_time (op : PacerOp) (out : option Point) : option Z :=
  match out with Some _ => op_now op | None => None end.
Definition send_times (ops : list PacerOp) (outs : list (option Point)) : list Z :=
  omap id (zip_with send_time ops outs).

(** ** Lemmas *)

Lemma pacer_run_app p ops1 ops2 :
  pacer_run p (ops1 ++ ops2) =
  let '(p1, outs1) := pacer_run p ops1 in
  let '(p2, outs2) := pacer_run p1 ops2 in (p2, outs1 ++ outs2).
Proof.
  revert p. induction ops1 as [|op ops IH]; intros p; cbn.
  { by destruct (pacer_run p ops2). }
  destruct (pacer_op p op) as [p' out]. rewrite IH.
  destruct (pacer_run p' ops) as [p1 outs1], (pacer_run p1 ops2); done.
Qed.

Lemma pacer_run_length p ops : length (snd (pacer_run p ops)) = length ops.
Proof.
  revert p. induction ops as [|op ops IH]; intros p; cbn; [done|].
  destruct (pacer_op p op) as [p' out]. specialize (IH p').
  destruct (pacer_run p' ops). cbn in *. congruence.
Qed.

(** One call: what it sends is the position that waits, a position offered by
    this very call included, and then nothing waits. *)
Definition pending (p : MotionPacer) (op : PacerOp) : option Point :=
  match op with POffer q _ _ => Some q | PDiscard => None | _ => waiting p end.

Lemma flush_spec p now p' out :
  flush p now = (p', out) ->
  (out = None /\ p' = p /\ waiting p = None)
  \/ (exists q, out = Some q /\ waiting p = Some q /\ p' = mkPacer None (Some now)).
Proof. unfold flush. destruct (waiting p) eqn:E; intros [= <- <-]; eauto. Qed.

Lemma due_spec p interval now p' out :
  due p interval now = (p', out) ->
  (out = None /\ p' = p)
  \/ (exists q, out = Some q /\ waiting p = Some q /\ p' = mkPacer None (Some now)
      /\ slot_open p interval now = true).
Proof.
  unfold due. destruct (slot_open p interval now) eqn:Es; [|intros [= <- <-]; auto].
  intros [(-> & -> & _)|(q & -> & Hw & ->)]%flush_spec; [auto|]. right. eauto.
Qed.

Lemma pacer_op_spec p op p' out :
  pacer_op p op = (p', out) ->
  (out = None /\ waiting p' = pending p op /\ last_sent p' = last_sent p)
  \/ exists q now, out = Some q /\ pending p op = Some q /\ waiting p' = None
     /\ op_now op = Some now /\ last_sent p' = Some now
     /\ forall interval, op_interval op = Some interval -> slot_open p interval now = true.
Proof.
  destruct op as [q i now|i now|now|]; cbn [pacer_op pending op_now op_interval].
  - intros [(-> & ->)|(q' & -> & Hw & -> & Hs)]%due_spec; [by left|].
    right. exists q', now. split_and!; try done. by intros ? [= <-].
  - intros [(-> & ->)|(q' & -> & Hw & -> & Hs)]%due_spec; [by left|].
    right. exists q', now. split_and!; try done. by intros ? [= <-].
  - intros [(-> & -> & Hw)|(q' & -> & Hw & ->)]%flush_spec; [by left|].
    right. exists q', now. by split_and!.
  - intros [= <- <-]. by left.
Qed.

(** Every history: the positions sent, and the one that waits, are offered ones,
    in order and each once, and the newest offered is among them unless it was
    discarded; [last_sent] is when the last one left. *)
Definition pacer_ok (ops : list PacerOp) (p : MotionPacer) (outs : list (option Point)) : Prop :=
  let out := sent_positions outs ++ option_list (waiting p) in
  sublist out (offered ops)
  /\ (PDiscard ∉ ops -> list.last out = list.last (offered ops))
  /\ last_sent p = list.last (send_times ops outs).

Lemma pacer_ok_snoc ops p outs op p' out :
  length outs = length ops -> pacer_ok ops p outs -> pacer_op p op = (p', out) ->
  pacer_ok (ops ++ [op]) p' (outs ++ [out]).
Proof.
  unfold pacer_ok, sent_positions, offered, send_times.
  intros Hlen (Hsub & Hlast & Ht) Hop.
  rewrite zip_with_app, !omap_app by done. cbn.
  assert (PDiscard ∉ ops ++ [op] -> PDiscard ∉ ops /\ op <> PDiscard) as Hd.
  { rewrite elem_of_app, list_elem_of_singleton. naive_solver. }
  assert (forall q, sublist (omap id outs ++ [q]) (omap op_offers ops ++ [q])) as Hnew.
  { intros q. apply sublist_app; [|done]. etransitivity; [|exact Hsub]. by apply sublist_inserts_r. }
  apply pacer_op_spec in Hop as [(-> & -> & ->)|(q & now & -> & Hp & -> & Hnow & -> & _)].
  - rewrite !app_nil_r. destruct op as [q i t|i t|t|]; cbn; rewrite ?app_nil_r; split_and!; auto.
    + intros _. by rewrite !last_snoc.
    + intros Hin%Hd. apply Hlast, Hin.
    + intros Hin%Hd. apply Hlast, Hin.
    + etransitivity; [|exact Hsub]. by apply sublist_inserts_r.
    + intros [_ Hin]%Hd. done.
  - unfold send_time. rewrite Hnow, !app_nil_r. cbn. rewrite !last_snoc.
    destruct op as [q' i t|i t|t|]; cbn in *; rewrite ?app_nil_r; simplify_eq; split_and!; auto.
    + intros _. by rewrite last_snoc.
    + by rewrite Hp in Hsub.
    + intros Hin%Hd. rewrite Hp in Hlast. cbn in Hlast. rewrite last_snoc in Hlast. apply Hlast, Hin.
    + by rewrite Hp in Hsub.
    + intros Hin%Hd. rewrite Hp in Hlast. cbn in Hlast. rewrite last_snoc in Hlast. apply Hlast, Hin.
Qed.

Lemma pacer_run_ok ops :
  pacer_ok ops (fst (pacer_run default_pacer ops)) (snd (pacer_run default_pacer ops)).
Proof.
  induction ops as [|op ops IH] using rev_ind.
  { split_and!; done. }
  rewrite pacer_run_app. pose proof (pacer_run_length default_pacer ops) as Hlen.
  destruct (pacer_run default_pacer ops) as [p outs]. cbn [fst snd] in *. cbn.
  destruct (pacer_op p op) as [p' out] eqn:E. cbn. by eapply pacer_ok_snoc.
Qed.

(** Pacing loses no motion and repeats none: in every history of calls the
    positions sent, followed by the one that waits if any, are positions offered,
    in the order they were offered and each at most once; unless the history
    discards, the newest position offered is the last of them; a call that waits
    for its slot sends only when the interval has passed since the last send; and
    after a flush without discards the last position sent is the newest
    offered. *)
Theorem pacer_keeps_newest ops op :
  let '(p, outs) := pacer_run default_pacer ops in
  let '(p', out) := pacer_op p op in
  sublist (sent_positions outs ++ option_list (waiting p)) (offered ops)
  /\ (PDiscard ∉ ops ->
      list.last (sent_positions outs ++ option_list (waiting p)) = list.last (offered ops))
  /\ (forall interval now last, op_interval op = Some interval -> op_now op = Some now ->
      is_Some out -> list.last (send_times ops outs) = Some last -> interval <= saturating_sub now last)
  /\ (forall now, op = PFlush now -> PDiscard ∉ ops ->
      waiting p' = None /\ list.last (sent_positions (outs ++ [out])) = list.last (offered ops)).
Proof.
  pose proof (pacer_run_ok ops) as (Hsub & Hlast & Ht).
  destruct (pacer_run default_pacer ops) as [p outs]. cbn [fst snd] in *.
  destruct (pacer_op p op) as [p' out] eqn:E. split_and!; try done.
  - intros interval now last Hi Hnow [q ->] Hs.
    apply pacer_op_spec in E as [(? & _)|(q' & now' & _ & _ & _ & Hn & _ & Hopen)]; [done|].
    specialize (Hopen _ Hi). unfold slot_open in Hopen. rewrite Ht, Hs in Hopen.
    simplify_eq. by apply Z.leb_le.
  - intros now -> Hd. specialize (Hlast Hd). cbn in E.
    unfold sent_positions in *. rewrite omap_app. rewrite <- Hlast.
    by apply flush_spec in E as [(-> & -> & Hw)|(q & -> & Hw & ->)]; rewrite Hw; cbn.
Qed.
