(* ===== verification/SessionOutbox.v ===== *)
(** * The ordered send queue (monhop-transport/src/session_outbox.rs)

    Frames wait here for the control stream.  An absolute position at the tail
    takes a newer one in place, a newer heartbeat replaces an older unsent one at
    the tail, and nothing overtakes.  [tokio::time::Instant] is a number; tokio's
    [Notify] is a parameter of [Module Wake]. *)

From stdpp Require Import relations.
From S2P Require Import Prelude Types Messages.

Inductive Refusal := RefusedFull | RefusedClosed.
#[global] Instance Refusal_eq_dec : EqDecision Refusal.
Proof. solve_decision. Defined.

Record Queue := mkQueue {
  frames : list (Frame * Z); capacity : nat; in_flight : option Z; refused : option Refusal }.

Definition new_queue (capacity : nat) : Queue := mkQueue [] capacity None None.

Definition same_lane (queued next : Frame) : bool :=
  (epoch queued =? epoch next) && bool_decide (scope queued = scope next)
  && (sequence queued <? sequence next).

Definition is_absolute (m : Message) : bool :=
  match m with MsgMotion (Absolute _) => true | _ => false end.

Definition newer_position (queued next : Frame) : bool :=
  same_lane queued next && is_absolute (message queued) && is_absolute (message next).

Definition superseded (queued next : Frame) : bool :=
  same_lane queued next &&
  match message queued, message next with
  | MsgPing _, MsgPing _ | MsgPong _, MsgPong _ => true
  | _, _ => false
  end.

(** The queue's tail and what is before it: [back_mut]. *)
Definition tail_newer (q : Queue) (f : Frame) : bool :=
  match list.last (frames q) with Some (tail, _) => newer_position tail f | None => false end.
Definition replace_tail (l : list (Frame * Z)) (f : Frame) : list (Frame * Z) :=
  match list.last l with
  | Some (_, since) => take (length l - 1) l ++ [(f, since)]
  | None => l
  end.

(** Removing the first superseded frame: the rest, and the wait it had run up. *)
Fixpoint remove_stale (l : list (Frame * Z)) (f : Frame) : option (list (Frame * Z) * Z) :=
  match l with
  | [] => None
  | (queued, since) :: l =>
      if superseded queued f then Some (l, since)
      else match remove_stale l f with
           | Some (l, w) => Some ((queued, since) :: l, w)
           | None => None
           end
  end.

Definition set_frames (q : Queue) (l : list (Frame * Z)) : Queue :=
  mkQueue l (capacity q) (in_flight q) (refused q).

Definition push (q : Queue) (f : Frame) (now : Z) : Queue * result Refusal () :=
  match refused q with
  | Some refusal => (q, Err refusal)
  | None =>
      if tail_newer q f then (set_frames q (replace_tail (frames q) f), Ok ())
      else
        let '(q, waiting) :=
          match remove_stale (frames q) f with
          | Some (l, since) => (set_frames q l, since)
          | None => (q, now)
          end in
        if (capacity q <=? length (frames q))%nat
        then (mkQueue (frames q) (capacity q) (in_flight q) (Some RefusedFull), Err RefusedFull)
        else (set_frames q (frames q ++ [(f, waiting)]), Ok ())
  end.

Definition pop (q : Queue) : Queue * option Frame :=
  match frames q with
  | [] => (q, None)
  | (f, waiting) :: l => (mkQueue l (capacity q) (Some waiting) (refused q), Some f)
  end.

Definition written (q : Queue) : Queue := mkQueue (frames q) (capacity q) None (refused q).

Definition close (q : Queue) : Queue :=
  mkQueue (frames q) (capacity q) (in_flight q)
    (Some (match refused q with Some r => r | None => RefusedClosed end)).

(** [Iterator::min] of instants. *)
Definition list_min (l : list Z) : option Z :=
  foldr (fun x m => Some (match m with Some y => Z.min x y | None => x end)) None l.

Definition waiting_since (q : Queue) : option Z :=
  list_min (option_list (in_flight q) ++ (snd <$> frames q)).

(** ** Histories

    The frames a queue accepted and the frames its writer took, oldest first. *)

Inductive OutboxOp := OPush (f : Frame) (now : Z) | OPop | OWritten | OClose.

Record History := mkHistory { h_queue : Queue; h_accepted : list Frame; h_sent : list Frame }.

Definition outbox_step (h : History) (op : OutboxOp) : History :=
  match op with
  | OPush f now =>
      let '(q, r) := push (h_queue h) f now in
      mkHistory q (if is_ok r then h_accepted h ++ [f] else h_accepted h) (h_sent h)
  | OPop =>
      let '(q, o) := pop (h_queue h) in mkHistory q (h_accepted h) (h_sent h ++ option_list o)
  | OWritten => mkHistory (written (h_queue h)) (h_accepted h) (h_sent h)
  | OClose => mkHistory (close (h_queue h)) (h_accepted h) (h_sent h)
  end.

Definition outbox_run (cap : nat) (ops : list OutboxOp) : History :=
  fold_left outbox_step ops (mkHistory (new_queue cap) [] []).

Definition op_pushes (op : OutboxOp) : option Frame :=
  match op with OPush f _ => Some f | _ => None end.
Definition pushed (ops : list OutboxOp) : list Frame := omap op_pushes ops.

(** Keys, buttons, scrolls, gestures, activations and relative motion: every
    frame but an absolute position and a heartbeat. *)
Definition is_input (f : Frame) : bool :=
  match message f with
  | MsgMotion (Absolute _) | MsgPing _ | MsgPong _ => false
  | _ => true
  end.

(** The elements of a list that a mask keeps. *)
Fixpoint select {A} (kept : list bool) (l : list A) : list A :=
  match kept, l with
  | b :: kept, x :: l => if b then x :: select kept l else select kept l
  | _, _ => []
  end.

(** A frame left out was replaced: a position by the very next frame accepted, a
    newer position of its lane; a heartbeat by a later one of its kind and lane. *)
Definition replaced_ok (kept : list bool) (accepted : list Frame) : Prop :=
  forall i, kept !! i = Some false -> exists q, accepted !! i = Some q /\
    ((exists f, accepted !! S i = Some f /\ newer_position q f = true)
     \/ (exists j f, (i < j)%nat /\ accepted !! j = Some f /\ superseded q f = true)).

(** The same, spelt out without the code's own tests. *)
Definition later_in_lane (q f : Frame) : Prop :=
  epoch q = epoch f /\ scope q = scope f /\ sequence q < sequence f.
Definition is_position (f : Frame) : Prop := exists p, message f = MsgMotion (Absolute p).
Definition same_heartbeat (q f : Frame) : Prop :=
  (exists a b, message q = MsgPing a /\ message f = MsgPing b)
  \/ (exists a b, message q = MsgPong a /\ message f = MsgPong b).
Definition only_replaced (kept : list bool) (accepted : list Frame) : Prop :=
  forall i, kept !! i = Some false -> exists q j f, accepted !! i = Some q
    /\ (i < j)%nat /\ accepted !! j = Some f /\ later_in_lane q f
    /\ ((j = S i /\ is_position q /\ is_position f) \/ same_heartbeat q f).

(** ** Lemmas *)

Section Select.
Context {A : Type}.

Lemma select_app (k1 k2 : list bool) (l1 l2 : list A) :
  length k1 = length l1 -> select (k1 ++ k2) (l1 ++ l2) = select k1 l1 ++ select k2 l2.
Proof.
  revert l1. induction k1 as [|b k IH]; intros [|x l] H; try done. cbn in *.
  injection H as H. rewrite (IH l H). by destruct b.
Qed.

Lemma select_split (k : list bool) (l : list A) x q y :
  length k = length l -> select k l = x ++ q :: y ->
  exists k1 k2 l1 l2, k = k1 ++ true :: k2 /\ l = l1 ++ q :: l2 /\ length k1 = length l1
    /\ select k1 l1 = x /\ select k2 l2 = y.
Proof.
  revert l x. induction k as [|b k IH]; intros [|z l] x H Hs; try done.
  { by destruct x. } cbn in *. injection H as H.
  destruct b.
  - destruct x as [|x0 x]; cbn in Hs; injection Hs as -> Hs.
    + exists [], k, [], l. done.
    + destruct (IH _ _ H Hs) as (k1 & k2 & l1 & l2 & -> & -> & Hl & Hx & Hy).
      exists (true :: k1), k2, (x0 :: l1), l2. cbn. rewrite Hl, Hx. done.
  - destruct (IH _ _ H Hs) as (k1 & k2 & l1 & l2 & -> & -> & Hl & Hx & Hy).
    exists (false :: k1), k2, (z :: l1), l2. cbn. rewrite Hl. done.
Qed.

Lemma select_filter (P : A -> bool) (k : list bool) (l : list A) :
  length k = length l ->
  (forall i x, k !! i = Some false -> l !! i = Some x -> P x = false) ->
  filter (fun x => P x = true) (select k l) = filter (fun x => P x = true) l.
Proof.
  revert l. induction k as [|b k IH]; intros [|x l] H Hk; try done. injection H as H. cbn [select].
  assert (filter (fun x => P x = true) (select k l) = filter (fun x => P x = true) l) as E.
  { apply IH; [done|]. intros i. apply (Hk (S i)). }
  destruct b; rewrite !filter_cons; [by rewrite E|].
  rewrite (decide_False (P := P x = true)); [done|]. by rewrite (Hk 0%nat x).
Qed.
End Select.

Lemma replace_tail_snoc l t s f : replace_tail (l ++ [(t, s)]) f = l ++ [(f, s)].
Proof.
  unfold replace_tail. rewrite last_snoc, length_app. cbn.
  replace (length l + 1 - 1)%nat with (length l) by lia. by rewrite take_app_length.
Qed.

Lemma remove_stale_Some l f l' w :
  remove_stale l f = Some (l', w) ->
  exists l1 q l2, l = l1 ++ (q, w) :: l2 /\ l' = l1 ++ l2 /\ superseded q f = true.
Proof.
  revert l'. induction l as [|[q s] l IH]; intros l'; cbn; [done|].
  destruct (superseded q f) eqn:E.
  { intros [= <- <-]. exists [], q, l. done. }
  destruct (remove_stale l f) as [[l0 w0]|]; [|done]. intros [= <- <-].
  destruct (IH l0 eq_refl) as (l1 & q' & l2 & -> & -> & H). exists ((q, s) :: l1), q', l2. done.
Qed.

(** The three ways a push is accepted, and the two ways it is refused. *)
Lemma push_cases q f now q' r :
  (length (frames q) <= capacity q)%nat -> push q f now = (q', r) ->
  (exists refusal, refused q = Some refusal /\ r = Err refusal /\ q' = q)
  \/ (refused q = None /\ r = Err RefusedFull /\ (length (frames q) = capacity q)%nat
      /\ q' = mkQueue (frames q) (capacity q) (in_flight q) (Some RefusedFull))
  \/ (refused q = None /\ r = Ok () /\ exists l,
      q' = set_frames q l /\ (length l <= capacity q)%nat /\
      ((exists l0 t s, frames q = l0 ++ [(t, s)] /\ newer_position t f = true /\ l = l0 ++ [(f, s)])
       \/ (exists l1 t s l2, frames q = l1 ++ (t, s) :: l2 /\ superseded t f = true
           /\ l = (l1 ++ l2) ++ [(f, s)])
       \/ l = frames q ++ [(f, now)])).
Proof.
  intros Hcap. unfold push. destruct (refused q) as [r0|] eqn:Hr.
  { intros [= <- <-]. left. eauto. }
  destruct (tail_newer q f) eqn:Ht.
  { intros [= <- <-]. right. right. split_and!; [done..|]. eexists; split; [done|].
    unfold tail_newer in Ht. destruct (list.last (frames q)) as [[t s]|] eqn:Hl; [|done].
    apply last_Some in Hl as [l0 Hl]. rewrite Hl, replace_tail_snoc in *.
    rewrite !length_app in *. cbn in *. split; [lia|]. left. eauto 10. }
  destruct (remove_stale (frames q) f) as [[l w]|] eqn:Hs; cbn.
  - apply remove_stale_Some in Hs as (l1 & t & l2 & Hf & -> & Hsup).
    rewrite Hf, !length_app in *. cbn [length] in *.
    rewrite (proj2 (Nat.leb_gt _ _)) by lia. intros [= <- <-].
    right. right. split_and!; [done..|]. eexists; split; [done|]. rewrite !length_app. cbn.
    split; [lia|]. right. left. eauto 10.
  - destruct (capacity q <=? length (frames q))%nat eqn:Hc.
    + apply Nat.leb_le in Hc. intros [= <- <-]. right. left. split_and!; try done. lia.
    + apply Nat.leb_gt in Hc. intros [= <- <-]. right. right. split_and!; [done..|].
      eexists; split; [done|]. rewrite length_app. cbn. split; [lia|]. auto.
Qed.

(** ** Order *)

Definition history_ok (ops : list OutboxOp) (h : History) : Prop :=
  (length (frames (h_queue h)) <= capacity (h_queue h))%nat
  /\ h_accepted h `prefix_of` pushed ops
  /\ (refused (h_queue h) = None -> h_accepted h = pushed ops)
  /\ exists kept, length kept = length (h_accepted h)
     /\ select kept (h_accepted h) = h_sent h ++ (fst <$> frames (h_queue h))
     /\ (frames (h_queue h) <> [] -> list.last kept = Some true)
     /\ replaced_ok kept (h_accepted h).

Lemma replaced_ok_snoc kept accepted f :
  replaced_ok kept accepted -> replaced_ok (kept ++ [true]) (accepted ++ [f]).
Proof.
  intros Hr i Hi. apply lookup_app_Some in Hi as [Hi|[_ Hi]].
  - destruct (Hr i Hi) as (q & Hq & Hrep). exists q. split; [by apply lookup_app_l_Some|].
    destruct Hrep as [(g & Hg & Hn)|(j & g & Hj & Hg & Hn)].
    + left. exists g. split; [by apply lookup_app_l_Some|done].
    + right. exists j, g. split_and!; try done. by apply lookup_app_l_Some.
  - apply list_lookup_singleton_Some in Hi as [_ ?]. done.
Qed.
#[local] Hint Resolve replaced_ok_snoc : core.

(** Dropping one kept frame for a good reason. *)
Lemma replaced_ok_drop k1 k2 a1 q a2 :
  length k1 = length a1 -> replaced_ok (k1 ++ true :: k2) (a1 ++ q :: a2) ->
  ((exists f, a2 !! 0%nat = Some f /\ newer_position q f = true)
   \/ (exists j f, a2 !! j = Some f /\ superseded q f = true)) ->
  replaced_ok (k1 ++ false :: k2) (a1 ++ q :: a2).
Proof.
  intros Hl Hr Hq i Hi. destruct (decide (i = length k1)) as [->|Hne].
  - exists q. rewrite Hl. split; [by apply list_lookup_middle|].
    destruct Hq as [(f & Hf & Hn)|(j & f & Hf & Hn)].
    + left. exists f. split; [|done]. rewrite lookup_app_r by lia.
      replace (S (length a1) - length a1)%nat with 1%nat by lia. done.
    + right. exists (S (length a1 + j)), f. split_and!; [lia| |done].
      rewrite lookup_app_r by lia.
      replace (S (length a1 + j) - length a1)%nat with (S j) by lia. done.
  - apply Hr. rewrite <- Hi. rewrite !lookup_app.
    destruct (k1 !! i) eqn:E; [done|]. apply lookup_ge_None in E.
    destruct (i - length k1)%nat as [|m] eqn:Em; [lia|]. done.
Qed.

(** The frame at the tail is the last one accepted. *)
Lemma select_tail (kept : list bool) (accepted x : list Frame) t :
  length kept = length accepted -> list.last kept = Some true ->
  select kept accepted = x ++ [t] ->
  exists k a, kept = k ++ [true] /\ accepted = a ++ [t] /\ length k = length a
    /\ select k a = x.
Proof.
  intros Hlen [k ->]%last_Some Hsel. rewrite length_app in Hlen. cbn in Hlen.
  destruct accepted as [|z a _] using rev_ind; [cbn in Hlen; lia|].
  rewrite length_app in Hlen. cbn in Hlen.
  assert (length k = length a) as Hl by lia.
  rewrite select_app in Hsel by done. cbn in Hsel. apply app_inj_tail in Hsel as [Hx ->].
  exists k, a. done.
Qed.

(** The mask after an accepted push. *)
Lemma push_mask (accepted sent : list Frame) (l l' : list (Frame * Z)) f now kept :
  length kept = length accepted -> select kept accepted = sent ++ (fst <$> l) ->
  (l <> [] -> list.last kept = Some true) -> replaced_ok kept accepted ->
  ((exists l0 t s, l = l0 ++ [(t, s)] /\ newer_position t f = true /\ l' = l0 ++ [(f, s)])
   \/ (exists l1 t s l2, l = l1 ++ (t, s) :: l2 /\ superseded t f = true
       /\ l' = (l1 ++ l2) ++ [(f, s)])
   \/ l' = l ++ [(f, now)]) ->
  exists kept', length kept' = length (accepted ++ [f])
    /\ select kept' (accepted ++ [f]) = sent ++ (fst <$> l')
    /\ list.last kept' = Some true /\ replaced_ok kept' (accepted ++ [f]).
Proof.
  intros Hlen Hsel Hlast Hrep
    [(l0 & t & s & -> & Hn & ->)|[(l1 & t & s & l2 & -> & Hs & ->)| ->]].
  - rewrite fmap_app, app_assoc in Hsel. cbn in Hsel.
    destruct (select_tail _ _ _ _ Hlen (Hlast ltac:(by destruct l0)) Hsel)
      as (k & a & -> & -> & Hl & Hx).
    exists (k ++ [false; true]). rewrite <- (app_assoc a). split_and!.
    + rewrite !length_app. cbn. lia.
    + rewrite select_app by done. cbn. by rewrite Hx, fmap_app, app_assoc.
    + by rewrite (last_app k).
    + apply replaced_ok_drop; [done| |left; eauto].
      change (replaced_ok (k ++ [true] ++ [true]) (a ++ [t] ++ [f])). rewrite !app_assoc. eauto.
  - rewrite fmap_app, app_assoc in Hsel. cbn in Hsel.
    destruct (select_split _ _ _ _ _ Hlen Hsel) as (k1 & k2 & a1 & a2 & -> & -> & Hl & Hx & Hy).
    exists (k1 ++ false :: (k2 ++ [true])). rewrite <- (app_assoc a1). cbn [app].
    rewrite !length_app in Hlen. cbn in Hlen.
    split_and!.
    + rewrite !length_app. cbn. rewrite !length_app. cbn. lia.
    + rewrite select_app by done. cbn. rewrite select_app by lia. cbn.
      rewrite Hx, Hy, !fmap_app. cbn. by rewrite !app_assoc.
    + by rewrite last_app, app_comm_cons, last_snoc.
    + apply replaced_ok_drop; [done| |].
      * change (replaced_ok (k1 ++ (true :: k2) ++ [true]) (a1 ++ (t :: a2) ++ [f])).
        rewrite !app_assoc. auto.
      * right. exists (length a2), f. split; [by apply list_lookup_middle|done].
  - exists (kept ++ [true]). split_and!.
    + rewrite !length_app. cbn. lia.
    + rewrite select_app by done. by rewrite Hsel, fmap_app, app_assoc.
    + by rewrite last_snoc.
    + eauto.
Qed.

Lemma history_step ops h op :
  history_ok ops h -> history_ok (ops ++ [op]) (outbox_step h op).
Proof.
  intros (Hcap & Hpre & Hall & kept & Hlen & Hsel & Hlast & Hrep).
  unfold history_ok, pushed in *. rewrite omap_app.
  destruct op as [f now| | |]; cbn [outbox_step omap list_omap op_pushes]; rewrite ?app_nil_r.
  - destruct (push (h_queue h) f now) as [q' r] eqn:Hp.
    apply push_cases in Hp; [|done].
    destruct Hp as [(e & He & -> & ->)|[(Hr & -> & Hfull & ->)|(Hr & -> & l & -> & Hl & Hcase)]];
      cbn [h_queue h_accepted h_sent frames capacity refused is_ok set_frames].
    + split_and!; try done.
      * etransitivity; [done|]. by apply prefix_app_r.
      * by rewrite He.
      * eauto 10.
    + split_and!; try done; [|eauto 10].
      etransitivity; [done|]. by apply prefix_app_r.
    + rewrite (Hall Hr) in *. split_and!; try done.
      destruct (push_mask _ _ _ _ _ _ _ Hlen Hsel Hlast Hrep Hcase) as (k' & ? & ? & ? & ?).
      exists k'. split_and!; done.
  - unfold pop. destruct (frames (h_queue h)) as [|[f w] l] eqn:Hf; cbn [h_queue h_accepted h_sent].
    + rewrite Hf, app_nil_r. split_and!; try done. exists kept. split_and!; done.
    + cbn [frames capacity refused option_list] in *. cbn in Hcap. split_and!; try done; try lia.
      exists kept. rewrite <- app_assoc. split_and!; try done. intros _. by apply Hlast.
  - split_and!; try done. exists kept. split_and!; done.
  - split_and!; try done. exists kept. split_and!; done.
Qed.

Lemma history_run cap ops : history_ok ops (outbox_run cap ops).
Proof.
  unfold outbox_run. induction ops as [|op ops IH] using rev_ind.
  { unfold history_ok. cbn. split_and!; try done; [lia|]. exists []. split_and!; try done. }
  rewrite fold_left_app. by apply history_step.
Qed.

Lemma push_capacity q f now : capacity (fst (push q f now)) = capacity q.
Proof.
  unfold push. destruct (refused q), (tail_newer q f); try done.
  destruct (remove_stale (frames q) f) as [[l w]|]; cbn; by case_match.
Qed.

Lemma history_capacity cap ops : capacity (h_queue (outbox_run cap ops)) = cap.
Proof.
  unfold outbox_run. induction ops as [|op ops IH] using rev_ind; [done|].
  rewrite fold_left_app. cbn [fold_left]. rewrite <- IH at 2. clear IH.
  generalize (fold_left outbox_step ops (mkHistory (new_queue cap) [] [])) as h. intros h.
  destruct op as [f now| | |]; cbn [outbox_step]; try done.
  - pose proof (push_capacity (h_queue h) f now). by destruct (push (h_queue h) f now).
  - unfold pop. by destruct (frames (h_queue h)) as [|[]].
Qed.

Lemma not_input_position q f : newer_position q f = true -> is_input q = false.
Proof.
  unfold newer_position, is_absolute, is_input. intros H. bool_inv.
  repeat case_match; done.
Qed.
Lemma not_input_heartbeat q f : superseded q f = true -> is_input q = false.
Proof.
  unfold superseded, is_input. intros H. bool_inv. repeat case_match; done.
Qed.

Lemma same_lane_spec q f : same_lane q f = true <-> later_in_lane q f.
Proof.
  unfold same_lane, later_in_lane.
  rewrite !andb_true_iff, bool_decide_eq_true, Z.eqb_eq, Z.ltb_lt. tauto.
Qed.
Lemma is_absolute_spec f : is_absolute (message f) = true -> is_position f.
Proof. unfold is_position, is_absolute. intros H. repeat case_match; simplify_eq; eauto. Qed.

Lemma replaced_ok_only kept accepted : replaced_ok kept accepted -> only_replaced kept accepted.
Proof.
  intros H i Hi. destruct (H i Hi) as (q & Hq & [(f & Hf & Hn)|(j & f & Hj & Hf & Hs)]).
  - unfold newer_position in Hn. rewrite !andb_true_iff, same_lane_spec in Hn.
    destruct Hn as ((Hl & Ha) & Hb). exists q, (S i), f.
    split_and!; [done|lia|done|done|left; auto using is_absolute_spec].
  - unfold superseded in Hs. rewrite andb_true_iff, same_lane_spec in Hs. destruct Hs as (Hl & Hs).
    exists q, j, f. split_and!; [done..|right]. unfold same_heartbeat.
    repeat case_match; eauto 10; done.
Qed.

(** The send queue never reorders and never loses input: in every history of
    pushes, pops, writes and a close, the frames accepted are a prefix of the
    frames pushed, so a refusal leaves no gap; the frames sent, followed by those
    still queued, are the accepted ones in order less those replaced, a position
    by the position accepted right after it and a heartbeat by a later one of its
    kind and lane; every other frame, input above all, is sent or queued in its
    place; and the queue never holds more than its capacity. *)
Theorem outbox_in_order cap ops :
  let h := outbox_run cap ops in
  let out := h_sent h ++ (fst <$> frames (h_queue h)) in
  h_accepted h `prefix_of` pushed ops
  /\ (refused (h_queue h) = None -> h_accepted h = pushed ops)
  /\ (exists kept, length kept = length (h_accepted h) /\ select kept (h_accepted h) = out
      /\ only_replaced kept (h_accepted h))
  /\ filter (fun f => is_input f = true) out = filter (fun f => is_input f = true) (h_accepted h)
  /\ (length (frames (h_queue h)) <= cap)%nat.
Proof.
  intros h out. rewrite <- (history_capacity cap ops).
  destruct (history_run cap ops) as (Hcap & Hpre & Hall & kept & Hlen & Hsel & _ & Hrep).
  fold h in Hcap, Hpre, Hall, Hlen, Hsel, Hrep. split_and!; eauto 10 using replaced_ok_only.
  unfold out. rewrite <- Hsel. apply select_filter; [done|].
  intros i x Hi Hx. destruct (Hrep i Hi) as (q & Hq & [(f & _ & Hn)|(j & f & _ & _ & Hs)]);
    simplify_eq; eauto using not_input_position, not_input_heartbeat.
Qed.

(** ** The stall measure *)

Lemma list_min_spec l m :
  list_min l = Some m <-> m ∈ l /\ forall x, x ∈ l -> m <= x.
Proof.
  revert m. induction l as [|x l IH]; intros m.
  { split; [done|]. intros [H _]. by apply not_elem_of_nil in H. }
  change (list_min (x :: l))
    with (Some (match list_min l with Some y => Z.min x y | None => x end)).
  destruct (list_min l) as [y|] eqn:E.
  - destruct (proj1 (IH y) eq_refl) as [Hy Hle]. split.
    + intros [= <-]. split.
      * destruct (Z.min_spec x y) as [[_ ->]|[_ ->]]; [by left|by right].
      * intros z [->|Hz]%elem_of_cons; [lia|]. specialize (Hle z Hz). lia.
    + intros [Hm Hall]. f_equal.
      pose proof (Hall x ltac:(by left)). pose proof (Hall y ltac:(by right)).
      apply elem_of_cons in Hm as [->|Hm]; [lia|]. specialize (Hle m Hm). lia.
  - assert (l = []) as -> by (destruct l; [done|cbn in E; done]). split.
    + intros [= <-]. split; [by left|]. intros z [->|[]%not_elem_of_nil]%elem_of_cons. lia.
    + intros [[->|[]%not_elem_of_nil]%elem_of_cons _]. done.
Qed.

Lemma list_min_None l : list_min l = None <-> l = [].
Proof. destruct l; done. Qed.

#[global] Instance list_min_perm : Proper ((≡ₚ) ==> eq) list_min.
Proof.
  intros l1 l2 Hp. destruct (list_min l2) as [m|] eqn:E.
  - apply list_min_spec. setoid_rewrite Hp. by apply list_min_spec.
  - apply list_min_None in E as ->. by apply Permutation_nil_r in Hp as ->.
Qed.

Lemma list_min_snoc l now w :
  list_min l = Some w -> w <= now -> list_min (l ++ [now]) = Some w.
Proof.
  intros [Hw Hle]%list_min_spec Hn. apply list_min_spec. split.
  - apply elem_of_app. by left.
  - intros x [Hx| ->%list_elem_of_singleton]%elem_of_app; auto.
Qed.

(** A push leaves the waits as they are, up to their order, or adds its own. *)
Lemma push_waits q f now q' r :
  (length (frames q) <= capacity q)%nat -> push q f now = (q', r) ->
  in_flight q' = in_flight q /\
  ((snd <$> frames q') ≡ₚ (snd <$> frames q)
   \/ (snd <$> frames q') = (snd <$> frames q) ++ [now] /\ r = Ok ()).
Proof.
  intros Hcap [(e & _ & -> & ->)|[(_ & -> & _ & ->)|(_ & -> & l & -> & _ & Hcase)]]%push_cases;
    [auto..| |done]. split; [done|]. cbn [set_frames frames].
  destruct Hcase as [(l0 & t & s & -> & _ & ->)|[(l1 & t & s & l2 & -> & _ & ->)| ->]];
    rewrite !fmap_app, ?fmap_cons, ?fmap_nil; cbn [snd]; auto.
  left. rewrite <- !app_assoc. apply Permutation_app_head.
  by rewrite Permutation_app_comm.
Qed.

(** The stall measure never restarts: pushing onto a queue that holds or
    writes a frame leaves the oldest wait as it was, a position or heartbeat it
    replaces included; on an idle queue the accepted frame starts its own wait;
    and only the frame popped and written ends its wait. *)
Theorem outbox_stall_measure cap ops f now :
  let q := h_queue (outbox_run cap ops) in
  let '(q', r) := push q f now in
  (forall w, waiting_since q = Some w -> w <= now -> waiting_since q' = Some w)
  /\ (waiting_since q = None -> r = Ok () -> waiting_since q' = Some now)
  /\ (in_flight q = None -> waiting_since (fst (pop q)) = waiting_since q).
Proof.
  intros q. destruct (history_run cap ops) as (Hcap & _). fold q in Hcap.
  destruct (push q f now) as [q' r] eqn:Hp. unfold waiting_since. split_and!.
  - intros w Hw Hle. destruct (push_waits _ _ _ _ _ Hcap Hp) as [-> [Hperm|[-> _]]].
    + by rewrite Hperm.
    + rewrite app_assoc. by apply list_min_snoc.
  - intros [Hi Hf]%list_min_None%app_nil Hr.
    apply push_cases in Hp; [|done].
    destruct Hp as [(e & _ & -> & _)|[(_ & -> & _)|(_ & _ & l & -> & _ & Hcase)]]; try done.
    apply fmap_nil_inv in Hf. cbn [set_frames in_flight frames]. rewrite Hi.
    destruct Hcase as [(l0 & t & s & H & _)|[(l1 & t & s & l2 & H & _)| ->]];
      rewrite Hf in *; [by destruct l0|by destruct l1|done].
  - intros Hi. unfold pop. destruct (frames q) as [|[g w] l] eqn:E; cbn; rewrite ?Hi, ?E; done.
Qed.

(** ** Waking the writer

    [Outbox::push] stores a frame under the lock and then calls [notify_one];
    [Outbox::next] pops under the lock and awaits [notified] when the queue is
    empty.  Tokio's [Notify] is a parameter: [notified] completes with a new
    state or not at all. *)
Module Wake.
Section Notify.
Context {N : Type} (notify_one : N -> N) (notified : N -> option N).

(** Tokio documents that [notify_one] without a waiter stores a permit, which
    the next [notified().await] consumes at once. *)
Hypothesis notify_one_permits : forall n, is_Some (notified (notify_one n)).

(** [Checking] is the top of [next]'s loop, [Awaiting] its [await], [Returned]
    the caller's write. *)
Inductive WriterPc := Checking | Awaiting | Returned.

(** [notifying] counts the pushes between their frame and their notification. *)
Record World := mkWorld { w_queue : Queue; w_notify : N; notifying : nat; writer : WriterPc }.

Inductive wake_step : World -> World -> Prop :=
| step_push w f now q r :
    push (w_queue w) f now = (q, r) ->
    wake_step w (mkWorld q (w_notify w) (if is_ok r then S (notifying w) else notifying w) (writer w))
| step_notify q n k pc :
    wake_step (mkWorld q n (S k) pc) (mkWorld q (notify_one n) k pc)
| step_check q n k q' o :
    pop q = (q', o) ->
    wake_step (mkWorld q n k Checking)
      (mkWorld q' n k (match o with Some _ => Returned | None => Awaiting end))
| step_awake q n k n' :
    notified n = Some n' -> wake_step (mkWorld q n k Awaiting) (mkWorld q n' k Checking)
| step_written q n k :
    wake_step (mkWorld q n k Returned) (mkWorld (written q) n k Checking)
| step_close w : wake_step w (mkWorld (close (w_queue w)) (w_notify w) (notifying w) (writer w)).

(** A writer that awaits will be woken whenever a frame waits. *)
Definition wake_ok (w : World) : Prop :=
  writer w = Awaiting -> frames (w_queue w) <> [] ->
  (0 < notifying w)%nat \/ is_Some (notified (w_notify w)).

Lemma wake_step_ok w w' : wake_ok w -> wake_step w w' -> wake_ok w'.
Proof.
  intros Hok Hs. destruct Hs as [w f now q r Hp|q n k pc|q n k q' o Hp|q n k n' Hn|q n k|w]; red; cbn.
  - intros Hpc Hf. destruct r as [[]|e]; cbn; [left; lia|]. apply Hok; [done|].
    unfold push in Hp. intros He. apply Hf. unfold tail_newer in Hp. rewrite He in Hp. cbn in Hp.
    repeat case_match; simplify_eq; done.
  - auto.
  - unfold pop in Hp. by destruct (frames q) as [|[f s] l] eqn:E; simplify_eq.
  - done.
  - done.
  - apply Hok.
Qed.

(** No wakeup is lost: in every interleaving of pushes from any number of
    senders with the writer's loop, a writer that awaits while a frame is queued
    either has a notification it can consume now, or a push that stored its frame
    is still to notify, after which it has one. *)
Theorem outbox_no_lost_wakeup w0 w :
  writer w0 = Checking -> rtc wake_step w0 w ->
  writer w = Awaiting -> frames (w_queue w) <> [] ->
  (exists w', wake_step w w' /\ writer w' = Checking)
  \/ (exists w1 w2, wake_step w w1 /\ wake_step w1 w2 /\ writer w2 = Checking).
Proof.
  intros H0 Hr Hpc Hf. assert (wake_ok w) as Hok.
  { assert (wake_ok w0) as Hok by (intros H; congruence). clear Hpc Hf H0.
    induction Hr; eauto using wake_step_ok. }
  destruct w as [q n k pc]. cbn in *. subst pc. destruct (Hok eq_refl Hf) as [Hk|[n' Hn]].
  - right. destruct k as [|k]; [cbn in Hk; lia|].
    destruct (notify_one_permits n) as [n' Hn].
    exists (mkWorld q (notify_one n) k Awaiting), (mkWorld q n' k Checking).
    split_and!; [constructor|by constructor|done].
  - left. exists (mkWorld q n' k Checking). split; [by constructor|done].
Qed.
End Notify.
End Wake.

(** A single permit is a [Notify] with the documented behaviour; a frame pushed
    after the writer found the queue empty and before it awaits. *)
Definition wake_frame : Frame := mkFrame 1 1 MsgReleaseAll Connection.
Definition wake_queue : Queue := fst (push (new_queue 4) wake_frame 0).
Definition wake_start : Wake.World (N := bool) := Wake.mkWorld (new_queue 4) false 0 Wake.Checking.
Definition wake_race : Wake.World (N := bool) := Wake.mkWorld wake_queue false 1 Wake.Awaiting.

Lemma outbox_no_lost_wakeup_witness :
  Wake.writer wake_start = Wake.Checking
  /\ frames (Wake.w_queue wake_race) <> []
  /\ ((exists w', Wake.wake_step (fun _ => true) (fun b : bool => if b then Some false else None)
           wake_race w' /\ Wake.writer w' = Wake.Checking)
      \/ (exists w1 w2,
           Wake.wake_step (fun _ => true) (fun b : bool => if b then Some false else None) wake_race w1
           /\ Wake.wake_step (fun _ => true) (fun b : bool => if b then Some false else None) w1 w2
           /\ Wake.writer w2 = Wake.Checking)).
Proof.
  split; [reflexivity|]. split; [discriminate|].
  apply (Wake.outbox_no_lost_wakeup (fun _ => true) (fun b : bool => if b then Some false else None)
    (fun _ => ex_intro _ false eq_refl) wake_start wake_race).
  - reflexivity.
  - eapply rtc_l; [exact (Wake.step_check _ _ (new_queue 4) false 0 (new_queue 4) None eq_refl)|].
    eapply rtc_l; [exact (Wake.step_push _ _ (Wake.mkWorld (new_queue 4) false 0 Wake.Awaiting)
      wake_frame 0 wake_queue (Ok ()) eq_refl)|].
    apply rtc_refl.
  - reflexivity.
  - discriminate.
Defined.
