(* ===== verification/SessionHealth.v ===== *)
(** * Peer health (monhop-transport/src/session_health.rs)

    Heartbeat challenges with growing tokens, the replies that prove the peer
    alive, the deadline after the last such reply and the hold that suspends it.
    [Duration] is its nanoseconds. *)

From S2P Require Import Prelude CaptureEvent CaptureLease.

Definition HEARTBEAT_INTERVAL : Z := ms 30.
Definition PEER_LIVENESS : Z := ms 500.
Definition SUPPRESSION_LEASE_CAP : Z := ms 120.
Definition RETREAT_AFTER : Z := saturating_sub PEER_LIVENESS SUPPRESSION_LEASE_CAP.
Definition HOLD_LIMIT : Z := secs 5.
Definition STREAM_STALL_LIMIT : Z := Z.min (PEER_LIVENESS + HOLD_LIMIT) duration_max.
Definition BARRIER_RESEND_AFTER : Z := PEER_LIVENESS.

Inductive HealthError := HClockRegression | DeadlineExpired | UnexpectedResponse | TokenExhausted.
#[global] Instance HealthError_eq_dec : EqDecision HealthError.
Proof. solve_decision. Defined.

(** [hold_stats]. *)
Definition hold_stats (holds held_max : Z) (held_since : option Z) (now : Z) : Z * Z :=
  let running := match held_since with Some since => saturating_sub now since | None => 0 end in
  (holds, Z.max held_max running).

Record PeerHealth := mkHealth {
  last_now : Z; last_response : Z; ping_sent : option Z; next_token : Z; last_acked : Z;
  confirmed : bool; failure : option HealthError }.

Definition new_health (now : Z) : PeerHealth := mkHealth now now None 1 0 false None.

Definition is_confirmed (h : PeerHealth) : bool :=
  confirmed h && bool_decide (failure h = None).

Definition pending_since (h : PeerHealth) : option Z :=
  if last_acked h + 1 <? next_token h then ping_sent h else None.

(** [fail]: the first failure is the one that is kept and returned. *)
Definition fail (h : PeerHealth) (e : HealthError) {A} : PeerHealth * result HealthError A :=
  match failure h with
  | Some e0 => (h, Err e0)
  | None =>
      (mkHealth (last_now h) (last_response h) (ping_sent h) (next_token h) (last_acked h)
         (confirmed h) (Some e), Err e)
  end.

Definition advance (h : PeerHealth) (now : Z) : PeerHealth * result HealthError () :=
  if now <? last_now h then fail h HClockRegression
  else (mkHealth now (last_response h) (ping_sent h) (next_token h) (last_acked h)
          (confirmed h) (failure h), Ok ()).

Definition latched (h : PeerHealth) : PeerHealth * result HealthError () :=
  match failure h with Some e => (h, Err e) | None => (h, Ok ()) end.

Definition check (h : PeerHealth) (now : Z) : PeerHealth * result HealthError () :=
  let? (h, _) := latched h in
  let? (h, _) := advance h now in
  if PEER_LIVENESS <=? now - last_response h then fail h DeadlineExpired else (h, Ok ()).

(** The part [poll] and [poll_while_held] share, once the time is accepted. *)
Definition challenge (h : PeerHealth) (now : Z) : PeerHealth * result HealthError (option Z) :=
  if match ping_sent h with Some last => now - last <? HEARTBEAT_INTERVAL | None => false end
  then (h, Ok None)
  else
    let token := next_token h in
    match checked_add_u64 token 1 with
    | None => fail h TokenExhausted
    | Some next =>
        (mkHealth (last_now h) (last_response h) (Some now) next (last_acked h)
           (confirmed h) (failure h), Ok (Some token))
    end.

Definition poll (h : PeerHealth) (now : Z) : PeerHealth * result HealthError (option Z) :=
  let? (h, _) := check h now in challenge h now.

(** The part [receive_pong] and [receive_pong_while_held] share: whether the
    reply is fresh. *)
Definition take_pong (h : PeerHealth) (token now : Z) : PeerHealth * result HealthError bool :=
  if next_token h <=? token then fail h UnexpectedResponse
  else if token <=? last_acked h then (h, Ok false)
  else (mkHealth (last_now h) now (ping_sent h) (next_token h) token true (failure h), Ok true).

Definition receive_pong (h : PeerHealth) (token now : Z) : PeerHealth * result HealthError () :=
  let? (h, _) := check h now in
  let? (h, _) := take_pong h token now in (h, Ok ()).

Definition remaining (h : PeerHealth) (now : Z) : PeerHealth * result HealthError Z :=
  let? (h, _) := check h now in
  (h, Ok (Z.min (PEER_LIVENESS - (now - last_response h)) SUPPRESSION_LEASE_CAP)).

Definition hold (h : PeerHealth) (now : Z) : PeerHealth * result HealthError () :=
  match failure h with
  | Some DeadlineExpired | None =>
      let? (h, _) := advance h now in
      (mkHealth (last_now h) (last_response h) (ping_sent h) (next_token h)
         (saturating_sub (next_token h) 1) false None, Ok ())
  | Some e => (h, Err e)
  end.

Definition poll_while_held (h : PeerHealth) (now : Z) : PeerHealth * result HealthError (option Z) :=
  let? (h, _) := latched h in
  let? (h, _) := advance h now in challenge h now.

Definition receive_pong_while_held (h : PeerHealth) (token now : Z)
  : PeerHealth * result HealthError bool :=
  let? (h, _) := latched h in
  let? (h, _) := advance h now in take_pong h token now.

Definition resume (h : PeerHealth) (now : Z) : PeerHealth * result HealthError () :=
  let? (h, _) := latched h in
  let? (h, _) := advance h now in
  (mkHealth (last_now h) now (ping_sent h) (next_token h) (last_acked h) true (failure h), Ok ()).

(** ** Histories *)

Inductive HealthOp :=
| HPoll (now : Z) | HPong (token now : Z) | HCheck (now : Z) | HRemaining (now : Z)
| HHold (now : Z) | HPollHeld (now : Z) | HPongHeld (token now : Z) | HResume (now : Z).

Definition op_time (op : HealthOp) : Z :=
  match op with
  | HPoll now | HPong _ now | HCheck now | HRemaining now | HHold now | HPollHeld now
  | HPongHeld _ now | HResume now => now
  end.

Definition health_op (h : PeerHealth) (op : HealthOp) : PeerHealth :=
  match op with
  | HPoll now => fst (poll h now)
  | HPong token now => fst (receive_pong h token now)
  | HCheck now => fst (check h now)
  | HRemaining now => fst (remaining h now)
  | HHold now => fst (hold h now)
  | HPollHeld now => fst (poll_while_held h now)
  | HPongHeld token now => fst (receive_pong_while_held h token now)
  | HResume now => fst (resume h now)
  end.

(** The challenge a call sends. *)
Definition sends (h : PeerHealth) (op : HealthOp) : option Z :=
  match op with
  | HPoll now => match snd (poll h now) with Ok o => o | Err _ => None end
  | HPollHeld now => match snd (poll_while_held h now) with Ok o => o | Err _ => None end
  | _ => None
  end.

Fixpoint health_run (h : PeerHealth) (ops : list HealthOp) : PeerHealth :=
  match ops with [] => h | op :: ops => health_run (health_op h op) ops end.
Fixpoint challenges (h : PeerHealth) (ops : list HealthOp) : list Z :=
  match ops with
  | [] => []
  | op :: ops => option_list (sends h op) ++ challenges (health_op h op) ops
  end.

(** Proof that the peer is alive: a reply to a challenge that was sent, is newer
    than every one answered before and, after a hold, was sent during the hold;
    or the reliable frame that ends a hold. *)
Definition proves_alive (h : PeerHealth) (op : HealthOp) : bool :=
  match op with
  | HPong token now =>
      is_ok (snd (check h now)) && (last_acked h <? token) && (token <? next_token h)
  | HPongHeld token now =>
      match snd (receive_pong_while_held h token now) with Ok b => b | Err _ => false end
  | HResume now => is_ok (snd (resume h now))
  | _ => false
  end.
(** When the peer last proved alive. *)
Fixpoint last_alive (h : PeerHealth) (start : Z) (ops : list HealthOp) : Z :=
  match ops with
  | [] => start
  | op :: ops =>
      last_alive (health_op h op) (if proves_alive h op then op_time op else start) ops
  end.

Definition health_ok (h : PeerHealth) : Prop :=
  0 <= last_acked h < next_token h /\ 1 <= next_token h <= u64_max
  /\ last_response h <= last_now h
  /\ (forall t, ping_sent h = Some t -> t <= last_now h).

(** ** Lemmas *)

Lemma health_run_app h ops1 ops2 :
  health_run h (ops1 ++ ops2) = health_run (health_run h ops1) ops2.
Proof. revert h. induction ops1 as [|op ops IH]; intros h; cbn; auto. Qed.

Lemma challenges_app h ops1 ops2 :
  challenges h (ops1 ++ ops2) = challenges h ops1 ++ challenges (health_run h ops1) ops2.
Proof.
  revert h. induction ops1 as [|op ops IH]; intros h; cbn; [done|]. by rewrite IH, app_assoc.
Qed.

(** A failed step changes nothing but the latch. *)
Definition same_but_failure (h h' : PeerHealth) : Prop :=
  last_response h' = last_response h /\ ping_sent h' = ping_sent h
  /\ next_token h' = next_token h /\ last_acked h' = last_acked h.

Lemma health_fail_spec {A} h e h' (r : result HealthError A) :
  fail h e = (h', r) ->
  same_but_failure h h' /\ last_now h' = last_now h /\ exists e', r = Err e' /\ failure h' = Some e'.
Proof. unfold fail. case_match; intros [= <- <-]; split_and!; try done; eauto. Qed.

Lemma advance_spec h now h' r :
  advance h now = (h', r) ->
  same_but_failure h h' /\
  ((r = Ok () /\ last_now h <= now /\ last_now h' = now /\ failure h' = failure h)
   \/ (now < last_now h /\ last_now h' = last_now h /\ exists e, r = Err e /\ failure h' = Some e)).
Proof.
  unfold advance. destruct (now <? last_now h) eqn:E; bool_inv.
  - intros (Hs & Hn & He)%health_fail_spec. eauto 10.
  - intros [= <- <-]. split; [done|]. left. done.
Qed.

Lemma latched_spec h h' r :
  latched h = (h', r) ->
  h' = h /\ ((r = Ok () /\ failure h = None) \/ exists e, r = Err e /\ failure h = Some e).
Proof. unfold latched. case_match; intros [= <- <-]; eauto 10. Qed.

(** A checked step: the time moves on, or a failure is latched. *)
Lemma st_guard_spec h now h' r :
  st_bind (latched h) (fun h _ => advance h now) = (h', r) ->
  same_but_failure h h' /\ last_now h <= last_now h'
  /\ ((r = Ok () /\ failure h = None /\ failure h' = None /\ last_now h' = now)
      \/ exists e, r = Err e /\ failure h' = Some e
         /\ (forall e0, failure h = Some e0 -> e = e0 /\ h' = h)).
Proof.
  destruct (latched h) as [h1 [[]|e1]] eqn:E1; apply latched_spec in E1 as [-> H1]; cbn.
  - destruct H1 as [[_ Hf]|(e & [=] & _)].
    intros [Hs [(-> & Hle & Hn & Hf')|(Hlt & Hn & e & -> & He)]]%advance_spec; split_and!;
      try done; try lia.
    + left. split_and!; try done. congruence.
    + right. exists e. split_and!; try done. congruence.
  - destruct H1 as [[[=] _]|(e & [= ->] & He)]. intros [= <- <-]. split_and!; try done.
    right. exists e. split_and!; try done. intros e0 He0. by simplify_eq.
Qed.

Lemma check_spec h now h' r :
  check h now = (h', r) ->
  same_but_failure h h' /\ last_now h <= last_now h'
  /\ ((r = Ok () /\ failure h = None /\ failure h' = None /\ last_now h' = now
       /\ now - last_response h < PEER_LIVENESS)
      \/ exists e, r = Err e /\ failure h' = Some e
         /\ (forall e0, failure h = Some e0 -> e = e0 /\ h' = h)).
Proof.
  assert (check h now = st_bind (st_bind (latched h) (fun h _ => advance h now))
    (fun h _ => if PEER_LIVENESS <=? now - last_response h then fail h DeadlineExpired else (h, Ok ())))
    as -> by (unfold check; by destruct (latched h) as [? [|]]).
  destruct (st_bind (latched h) _) as [h1 [[]|e1]] eqn:E1;
    apply st_guard_spec in E1 as (Hs & Hle & [(Hr & Hf & Hf' & Hn)|(e & Hr & He & Hlat)]);
    try discriminate Hr; cbn.
  - destruct (PEER_LIVENESS <=? now - last_response h1) eqn:Ed; bool_inv.
    + intros (Hs' & Hn' & e & -> & He)%health_fail_spec. destruct Hs as (?&?&?&?), Hs' as (?&?&?&?).
      split_and!; try congruence; try lia; [by split_and!; congruence|].
      right. exists e. split_and!; try done. congruence.
    + intros [= <- <-]. split_and!; try done. left. destruct Hs as (Hl & _).
      split_and!; try done. rewrite <- Hl. lia.
  - intros [= <- <-]. split_and!; try done. right. simplify_eq. eauto.
Qed.

(** A challenge is the next token. *)
Lemma challenge_spec h now h' r :
  challenge h now = (h', r) -> last_now h = now -> next_token h <= u64_max ->
  last_response h' = last_response h /\ last_acked h' = last_acked h /\ last_now h' = last_now h
  /\ ((next_token h' = next_token h /\ ping_sent h' = ping_sent h
       /\ forall t, r <> Ok (Some t))
      \/ (r = Ok (Some (next_token h)) /\ next_token h' = next_token h + 1
          /\ next_token h' <= u64_max /\ ping_sent h' = Some now)).
Proof.
  unfold challenge. intros H Hnow Hu. case_match.
  { simplify_eq. split_and!; try done. left. done. }
  destruct (checked_add_u64 (next_token h) 1) as [next|] eqn:En.
  - unfold checked_add_u64 in En. case_match; simplify_eq. bool_inv. cbn.
    split_and!; try done. right. split_and!; try done.
  - apply health_fail_spec in H as ((? & ? & ? & ?) & ? & e & -> & _). split_and!; try done.
    left. done.
Qed.

Lemma take_pong_spec h token now h' r :
  take_pong h token now = (h', r) ->
  ping_sent h' = ping_sent h /\ next_token h' = next_token h /\ last_now h' = last_now h
  /\ ((r <> Ok true /\ last_response h' = last_response h /\ last_acked h' = last_acked h
       /\ ~ last_acked h < token < next_token h)
      \/ (r = Ok true /\ last_acked h < token < next_token h
          /\ last_response h' = now /\ last_acked h' = token)).
Proof.
  unfold take_pong. destruct (next_token h <=? token) eqn:E1; bool_inv.
  { intros ((? & ? & ? & ?) & ? & e & -> & _)%health_fail_spec. split_and!; try done.
    left. split_and!; try done. lia. }
  destruct (token <=? last_acked h) eqn:E2; bool_inv; intros [= <- <-]; split_and!; try done.
  - left. split_and!; try done. lia.
  - right. split_and!; try done; lia.
Qed.

(** One call: tokens grow by one when a challenge is sent, the last response is
    the last proof of life, and an answered token stays answered. *)
Definition step_ok (h : PeerHealth) (op : HealthOp) (h' : PeerHealth) : Prop :=
  health_ok h'
  /\ ((sends h op = None /\ next_token h' = next_token h)
      \/ (sends h op = Some (next_token h) /\ next_token h' = next_token h + 1))
  /\ last_response h' = (if proves_alive h op then op_time op else last_response h)
  /\ last_acked h <= last_acked h'.

(** A step that keeps the tokens and the response, or only the clock moves. *)
Lemma step_ok_quiet h op h' :
  health_ok h -> sends h op = None -> proves_alive h op = false ->
  same_but_failure h h' -> last_now h <= last_now h' -> step_ok h op h'.
Proof.
  intros (Ha & Hu & Hr & Hp) Hs Hl (H1 & H2 & H3 & H4) Hn. unfold step_ok, health_ok.
  rewrite Hs, Hl, H1, H2, H3, H4. split_and!; try done; try lia; auto.
  intros t Ht. specialize (Hp t Ht). lia.
Qed.

Lemma step_ok_challenge h h1 op now h' r :
  health_ok h -> same_but_failure h h1 -> last_now h <= now -> last_now h1 = now ->
  challenge h1 now = (h', r) ->
  sends h op = match r with Ok o => o | Err _ => None end -> proves_alive h op = false ->
  step_ok h op h'.
Proof.
  intros (Ha & Hu & Hr & Hp) (H1 & H2 & H3 & H4) Hle Hn Hc Hs Hl.
  apply challenge_spec in Hc as (Hr' & Ha' & Hn' & Hc); [|done|lia].
  unfold step_ok, health_ok. rewrite Hs, Hl.
  destruct Hc as [(Ht & Hps & Hno)|(-> & Ht & Hu' & Hps)].
  - split_and!; try lia; try congruence.
    + rewrite Hps, H2, Hn', Hn. intros t Hpt. specialize (Hp t Hpt). lia.
    + left. destruct r as [[t|]|]; [by destruct (Hno t)|..]; split; congruence.
  - split_and!; try lia; try congruence.
    + rewrite Hps, Hn'. intros t [= <-]. lia.
    + right. split; congruence.
Qed.

Lemma step_ok_pong h h1 op token now h' r :
  health_ok h -> same_but_failure h h1 -> last_now h <= now -> last_now h1 = now ->
  take_pong h1 token now = (h', r) -> op_time op = now -> sends h op = None ->
  (proves_alive h op = true <-> last_acked h < token < next_token h) ->
  step_ok h op h'.
Proof.
  intros (Ha & Hu & Hr & Hp) (H1 & H2 & H3 & H4) Hle Hn Hc Ht Hs Hl.
  apply take_pong_spec in Hc as (Hps & Hnt & Hn' & Hc). unfold step_ok, health_ok. rewrite Hs.
  assert (forall t, ping_sent h' = Some t -> t <= last_now h') as Hping.
  { rewrite Hps, H2, Hn', Hn. intros t Hpt. specialize (Hp t Hpt). lia. }
  rewrite H3, H4 in *. destruct Hc as [(_ & Hr' & Ha' & Hno)|(_ & Hin & Hr' & Ha')].
  - assert (proves_alive h op = false) as ->.
    { destruct (proves_alive h op); [|done]. destruct Hno. by apply Hl. }
    split_and!; try lia; try congruence; auto; left; split; congruence.
  - rewrite (proj2 Hl Hin). split_and!; try lia; try congruence; auto; left; split; congruence.
Qed.

(** A call that judges the time first: [g] is the state after that judgement. *)
Definition gate_ok (h : PeerHealth) (now : Z) (g : PeerHealth * result HealthError ()) : Prop :=
  same_but_failure h (fst g) /\ last_now h <= last_now (fst g)
  /\ (snd g = Ok () -> last_now (fst g) = now).

Lemma guard_gate h now : gate_ok h now (st_bind (latched h) (fun h _ => advance h now)).
Proof.
  destruct (st_bind _ _) as [h1 r] eqn:E. apply st_guard_spec in E as (Hs & Hle & Hc).
  split_and!; try done. cbn. intros ->. by destruct Hc as [(_ & _ & _ & Hn)|(e & [=] & _)].
Qed.

Lemma check_gate h now : gate_ok h now (check h now).
Proof.
  destruct (check h now) as [h1 r] eqn:E. apply check_spec in E as (Hs & Hle & Hc).
  split_and!; try done. cbn. intros ->. by destruct Hc as [(_ & _ & _ & Hn & _)|(e & [=] & _)].
Qed.

Lemma gate_poll h op now g :
  health_ok h -> gate_ok h now g ->
  sends h op = match snd (st_bind g (fun h _ => challenge h now)) with Ok o => o | Err _ => None end ->
  proves_alive h op = false ->
  step_ok h op (fst (st_bind g (fun h _ => challenge h now))).
Proof.
  intros Hok (Hs & Hle & Hn) Hsend Hl. destruct g as [h1 [[]|e]]; cbn in *.
  - specialize (Hn eq_refl). destruct (challenge h1 now) as [h' r] eqn:E.
    apply (step_ok_challenge h h1 op now h' r); auto. lia.
  - by apply step_ok_quiet.
Qed.

Lemma gate_pong h op token now g :
  health_ok h -> gate_ok h now g -> op_time op = now -> sends h op = None ->
  (proves_alive h op = true <-> is_ok (snd g) = true /\ last_acked h < token < next_token h) ->
  step_ok h op (fst (st_bind g (fun h _ => take_pong h token now))).
Proof.
  intros Hok (Hs & Hle & Hn) Ht Hsend Hl. destruct g as [h1 [[]|e]]; cbn in *.
  - specialize (Hn eq_refl). destruct (take_pong h1 token now) as [h' r] eqn:E.
    apply (step_ok_pong h h1 op token now h' r); auto; [lia|]. rewrite Hl. naive_solver.
  - apply step_ok_quiet; auto. destruct (proves_alive h op); naive_solver.
Qed.

Lemma poll_while_held_guard h now :
  poll_while_held h now =
  st_bind (st_bind (latched h) (fun h _ => advance h now)) (fun h _ => challenge h now).
Proof. unfold poll_while_held. by rewrite st_bind_assoc. Qed.
Lemma receive_pong_while_held_guard h token now :
  receive_pong_while_held h token now =
  st_bind (st_bind (latched h) (fun h _ => advance h now)) (fun h _ => take_pong h token now).
Proof. unfold receive_pong_while_held. by rewrite st_bind_assoc. Qed.
Lemma receive_pong_fst h token now :
  fst (receive_pong h token now) = fst (st_bind (check h now) (fun h _ => take_pong h token now)).
Proof.
  unfold receive_pong. destruct (check h now) as [h1 [[]|]]; cbn; [|done].
  by destruct (take_pong h1 token now) as [? []].
Qed.

(** A reply during a hold is reported fresh exactly when it is. *)
Lemma pong_held_fresh h token now :
  let g := st_bind (latched h) (fun h _ => advance h now) in
  proves_alive h (HPongHeld token now) = true
  <-> is_ok (snd g) = true /\ last_acked h < token < next_token h.
Proof.
  cbn [proves_alive]. rewrite receive_pong_while_held_guard.
  destruct (guard_gate h now) as ((_ & _ & H3 & H4) & _).
  destruct (st_bind (latched h) _) as [h1 [[]|e]]; cbn in *; [|naive_solver].
  destruct (take_pong h1 token now) as [h' r] eqn:E. cbn.
  apply take_pong_spec in E as (_ & _ & _ & Hp). rewrite H3, H4 in Hp.
  destruct Hp as [(Hr & _ & _ & Hno)|(-> & Hin & _)]; [|naive_solver].
  destruct r as [[]|]; naive_solver.
Qed.

Lemma step_ok_resume h now : health_ok h -> step_ok h (HResume now) (fst (resume h now)).
Proof.
  intros Hok. pose proof Hok as (Ha & Hu & Hr & Hp).
  assert (resume h now = st_bind (st_bind (latched h) (fun h _ => advance h now)) (fun h _ =>
    (mkHealth (last_now h) now (ping_sent h) (next_token h) (last_acked h) true (failure h), Ok ())))
    as E by (unfold resume; by rewrite st_bind_assoc).
  destruct (guard_gate h now) as (Hs & Hle & Hn).
  destruct (st_bind (latched h) _) as [h1 [[]|e1]]; cbn in *; rewrite E; cbn [fst].
  - specialize (Hn eq_refl). destruct Hs as (H1 & H2 & H3 & H4).
    unfold step_ok, health_ok, proves_alive. rewrite E. cbn. split_and!; try lia; [|by left].
    rewrite H2. intros t Ht. specialize (Hp t Ht). lia.
  - apply step_ok_quiet; auto. cbn. by rewrite E.
Qed.

Lemma step_ok_hold h now : health_ok h -> step_ok h (HHold now) (fst (hold h now)).
Proof.
  intros Hok. pose proof Hok as (Ha & Hu & Hr & Hp).
  assert (step_ok h (HHold now) (fst (let? (h, _) := advance h now in
    (mkHealth (last_now h) (last_response h) (ping_sent h) (next_token h)
       (saturating_sub (next_token h) 1) false None, @Ok HealthError () ())))) as Hmain.
  { destruct (advance h now) as [h1 [[]|e]] eqn:E1; apply advance_spec in E1 as [Hs Hc]; cbn [st_bind fst].
    - destruct Hc as [(_ & Hle & Hn & _)|(_ & _ & e & [=] & _)]. destruct Hs as (H1 & H2 & H3 & H4).
      unfold step_ok, health_ok, saturating_sub. cbn. rewrite H1, H2, H3. split_and!; try lia; [|by left].
      intros t Ht. specialize (Hp t Ht). lia.
    - apply step_ok_quiet; auto.
      destruct Hc as [(_ & Hle & Hn & _)|(_ & -> & _)]; lia. }
  unfold hold. destruct (failure h) as [[]|]; try exact Hmain; by apply step_ok_quiet.
Qed.

Lemma health_op_ok h op : health_ok h -> step_ok h op (health_op h op).
Proof.
  intros Hok. destruct op as [now|token now|now|now|now|now|token now|now]; cbn [health_op].
  - by apply gate_poll; [|apply check_gate|..].
  - rewrite receive_pong_fst. apply gate_pong; auto using check_gate. cbn.
    rewrite !andb_true_iff, !Z.ltb_lt. tauto.
  - destruct (check_gate h now) as (Hs & Hle & _). by apply step_ok_quiet.
  - destruct (check_gate h now) as (Hs & Hle & _). unfold remaining.
    destruct (check h now) as [h1 []]; by apply step_ok_quiet.
  - by apply step_ok_hold.
  - rewrite poll_while_held_guard. apply gate_poll; auto using guard_gate.
    cbn [sends]. by rewrite poll_while_held_guard.
  - rewrite receive_pong_while_held_guard. apply gate_pong; auto using guard_gate.
    apply pong_held_fresh.
  - by apply step_ok_resume.
Qed.

Lemma health_run_ok h ops :
  health_ok h ->
  let h' := health_run h ops in
  health_ok h' /\ next_token h' = next_token h + Z.of_nat (length (challenges h ops))
  /\ challenges h ops = seqZ (next_token h) (Z.of_nat (length (challenges h ops)))
  /\ last_response h' = last_alive h (last_response h) ops
  /\ last_acked h <= last_acked h'.
Proof.
  revert h. induction ops as [|op ops IH]; intros h Hok; cbn.
  { split_and!; try done; lia. }
  destruct (health_op_ok h op Hok) as (Hok1 & Hs & Hr & Ha).
  destruct (IH _ Hok1) as (Hok' & Hn & Hc & Hr' & Ha').
  rewrite Hr', Hr. destruct Hs as [(-> & E)|(-> & E)]; rewrite E in *.
  - split_and!; try done; lia.
  - change (option_list (Some (next_token h)) ++ ?l) with (next_token h :: l).
    rewrite length_cons. split_and!; try done; try lia.
    rewrite Nat2Z.inj_succ. rewrite seqZ_cons by lia. rewrite Hc at 1. f_equal. f_equal; lia.
Qed.

Lemma new_health_ok now : health_ok (new_health now).
Proof. unfold health_ok, u64_max. cbn. split_and!; try lia. done. Qed.

(** A hold that succeeds makes every challenge sent so far moot. *)
Lemma hold_marks h now :
  health_ok h -> failure (fst (hold h now)) = None ->
  last_acked (fst (hold h now)) = next_token (fst (hold h now)) - 1.
Proof.
  intros (Ha & Hu & _). unfold hold.
  destruct (advance h now) as [h1 [[]|e]] eqn:E1; pose proof E1 as Hs;
    apply advance_spec in Hs as [(_ & _ & H3 & _) Hc].
  - destruct (failure h) as [[]|] eqn:Hf; cbn; try congruence; intros _; unfold saturating_sub; lia.
  - destruct Hc as [([=] & _)|(_ & _ & e' & [= ->] & He)].
    destruct (failure h) as [[]|] eqn:Hf; cbn; congruence.
Qed.

(** The heartbeat in every history of calls: the challenges sent are the
    tokens 1, 2, 3, ... in order, so none is sent twice; the last response is the
    last proof of life; and a reply counted while the session is held answers a
    challenge that was sent after that hold began. *)
Theorem heartbeat_tokens start ops ops' hold_at token now :
  let h := new_health start in
  let held := health_run h (ops ++ [HHold hold_at]) in
  challenges h ops = seqZ 1 (Z.of_nat (length (challenges h ops)))
  /\ last_response (health_run h ops) = last_alive h start ops
  /\ (failure held = None ->
      snd (receive_pong_while_held (health_run held ops') token now) = Ok true ->
      token ∈ challenges held ops').
Proof.
  intros h held. destruct (health_run_ok h ops (new_health_ok start)) as (Hok & _ & Hc & Hr & _).
  split_and!; [done..|]. intros Hf Hp.
  assert (held = health_op (health_run h ops) (HHold hold_at)) as Eh.
  { unfold held. by rewrite health_run_app. }
  assert (health_ok held) as Hokh by (rewrite Eh; apply health_op_ok, Hok).
  assert (last_acked held = next_token held - 1) as Ha.
  { rewrite Eh in Hf |- *. cbn [health_op] in *. by apply hold_marks. }
  destruct (health_run_ok held ops' Hokh) as (_ & Hn & Hc' & _ & Ha').
  assert (proves_alive (health_run held ops') (HPongHeld token now) = true) as Hf'
    by (cbn; by rewrite Hp).
  apply pong_held_fresh in Hf' as [_ Hin]. rewrite Hc'. apply elem_of_seqZ. lia.
Qed.

(** A peer is trusted only on recent proof: a call that judges the deadline
    accepts the time [now] only when the peer proved alive less than half a
    second before; a failure other than a missed deadline ends the session's
    health for good, every later call returning it and changing nothing; and only
    a hold clears a missed deadline. *)
Theorem heartbeat_deadline start ops now op e :
  let h := health_run (new_health start) ops in
  (is_ok (snd (check h now)) = true ->
   last_alive (new_health start) start ops <= now
     < last_alive (new_health start) start ops + PEER_LIVENESS)
  /\ (failure h = Some e -> e <> DeadlineExpired \/ (forall t, op <> HHold t) ->
      health_op h op = h /\ sends h op = None /\ proves_alive h op = false).
Proof.
  intros h. destruct (health_run_ok _ ops (new_health_ok start)) as ((_ & _ & Hrn & _) & _ & _ & Hr & _).
  fold h in Hrn, Hr. split.
  - intros Hc. destruct (check h now) as [h' [[]|e']] eqn:E; [|done].
    apply check_spec in E as (_ & Hle & [(_ & _ & _ & Hn & Hd)|(? & [=] & _)]).
    change (last_response (new_health start)) with start in Hr. rewrite <- Hr. lia.
  - intros Hf Hop. assert (latched h = (h, Err e)) as El by (unfold latched; by rewrite Hf).
    assert (check h = fun _ => (h, Err e)) as Ec by (unfold check; by rewrite El).
    destruct op; cbn; unfold poll, receive_pong, remaining, poll_while_held,
      receive_pong_while_held, resume; rewrite ?Ec, ?El; cbn; try done.
    split_and!; try done. unfold hold. rewrite Hf. destruct e; try done.
    destruct Hop as [|Hop]; [done|]. by destruct (Hop now0).
Qed.

(** The peer answered its first challenge after 20 ms. *)
Definition answered_ops : list HealthOp := [HPoll 0; HPong 1 (ms 20)].

(** ** Composition with the suppression lease *)

Lemma remaining_spec h now h' ttl :
  health_ok h -> remaining h now = (h', Ok ttl) ->
  0 < ttl <= SUPPRESSION_LEASE_CAP /\ now + ttl <= last_response h + PEER_LIVENESS
  /\ last_response h' = last_response h.
Proof.
  intros (_ & _ & Hrn & _). unfold remaining. intros (h1 & [] & Hc & [= <- <-])%st_bind_Ok.
  apply check_spec in Hc as ((Hr & _) & Hle & [(_ & _ & _ & Hn & Hd)|(? & [=] & _)]).
  rewrite Hr. unfold SUPPRESSION_LEASE_CAP, PEER_LIVENESS, ms in *. lia.
Qed.

(** A live lease accepts every positive ttl within its cap. *)
Lemma renew_live l g now ttl :
  stop_ok (lease_stop l) -> stop_reason (lease_stop l) = None -> lease_generation l = g ->
  lease_last_now l <= now -> (forall d, lease_deadline l = Some d -> now < d) ->
  0 < ttl <= MAX_SUPPRESSION_TTL -> now + ttl <= duration_max ->
  renew l g now ttl = (mkLease g (Some (now + ttl)) now (lease_stop l), Some (Ok ())).
Proof.
  intros Hs Hr <- Hn Hd Ht Hmax. unfold renew, validate_generation_and_time, observe_time.
  rewrite Hr, (proj2 (Z.ltb_ge _ _)) by lia. cbn [then_ lease_stop lease_generation].
  rewrite Hr, Z.eqb_refl. cbn [then_ negb]. unfold reject_expired. cbn [lease_stop lease_deadline].
  rewrite Hr.
  assert (match lease_deadline l with Some d => d <=? now | None => false end = false) as ->.
  { destruct (lease_deadline l) as [d|]; [|done]. apply Z.leb_gt. auto. }
  cbn [then_]. rewrite (proj2 (Z.eqb_neq _ _)), (proj2 (Z.ltb_ge _ _)) by lia. cbn [orb].
  unfold checked_add_duration. by rewrite (proj2 (Z.leb_le _ _)) by lia.
Qed.

(** Suppression cannot outlive the peer: the budget a source asks of its
    heartbeat is a length the native lease accepts, so a live lease is renewed,
    and under the renewed lease input is suppressed neither 120 ms after the
    renewal nor half a second after the peer last proved alive. *)
Theorem suppression_within_liveness start ops now h' ttl generation lease_start l active :
  let h := health_run (new_health start) ops in
  remaining h now = (h', Ok ttl) ->
  lease_reach generation lease_start (l, active) ->
  stop_reason (lease_stop l) = None -> lease_generation l = generation -> lease_last_now l <= now ->
  (forall d, lease_deadline l = Some d -> now < d) -> now + ttl <= duration_max ->
  exists l', renew l generation now ttl = (l', Some (Ok ()))
    /\ forall t, snd (is_suppressing l' t) = true ->
       now <= t < now + MAX_SUPPRESSION_TTL
       /\ t < last_alive (new_health start) start ops + PEER_LIVENESS.
Proof.
  intros h Hrem Hreach Hstop Hgen Hnow Hlive Hmax.
  destruct (health_run_ok _ ops (new_health_ok start)) as (Hok & _ & _ & Hr & _). fold h in Hok, Hr.
  destruct (remaining_spec _ _ _ _ Hok Hrem) as (Httl & Hend & _).
  pose proof (lease_reach_ok _ _ _ Hreach) as (Hs & _).
  eexists. split; [by apply renew_live|]. intros t Ht.
  match type of Ht with snd (is_suppressing ?l' t) = _ =>
    destruct (is_suppressing_spec l' t Hs) as (t' & s & b & Hq & _ & _ & Hb) end.
  rewrite Hq in Ht. cbn [snd] in Ht. apply Hb in Ht as (_ & Hle & d & Hd & Hlt). cbn in Hle, Hd.
  simplify_eq. change (last_response (new_health start)) with start in Hr. rewrite <- Hr.
  unfold SUPPRESSION_LEASE_CAP, MAX_SUPPRESSION_TTL in *. lia.
Qed.

Lemma suppression_within_liveness_witness :
  snd (remaining (health_run (new_health 0) answered_ops) (ms 30)) = Ok (ms 120)
  /\ exists l', renew (new_lease 1 0 new_stop) 1 (ms 30) (ms 120) = (l', Some (Ok ()))
    /\ forall t, snd (is_suppressing l' t) = true ->
       ms 30 <= t < ms 30 + MAX_SUPPRESSION_TTL
       /\ t < last_alive (new_health 0) 0 answered_ops + PEER_LIVENESS.
Proof.
  split; [reflexivity|].
  apply (suppression_within_liveness 0 answered_ops (ms 30)
    (fst (remaining (health_run (new_health 0) answered_ops) (ms 30))) (ms 120) 1 0 _ None).
  - reflexivity.
  - apply lease_reach_new.
  - reflexivity.
  - reflexivity.
  - vm_compute. discriminate.
  - discriminate.
  - vm_compute. discriminate.
Defined.
