(* ===== verification/SessionQuality.v ===== *)
(** * Link quality (monhop-transport/src/session_quality.rs)

    A link's tier from the evidence of the last three seconds: late or missing
    heartbeat replies, quinn's path counters and holds.  The tier falls at once
    and climbs one step after two clean seconds.  [Duration] is its nanoseconds,
    a loss is a binary64 pattern, counters are 64-bit. *)

From S2P Require Import Prelude F64.

Definition LATE_REPLY : Z := ms 30.
Definition STALLED_REPLY : Z := ms 60.
Definition QUALITY_WINDOW : Z := secs 3.
Definition DEGRADED_MARKS : nat := 10.
Definition BAD_MARKS : nat := 9.
Definition LATE_LOSS : Z := 0x3F847AE147AE147B. (* 0.01 *)
Definition STALLED_LOSS : Z := 0x3FA999999999999A. (* 0.05 *)
Definition LOSS_MIN_PACKETS : Z := 50.
Definition PATH_SAMPLE_INTERVAL : Z := ms 250.
Definition UPGRADE_AFTER : Z := secs 2.
Definition DEGRADED_MOTION_INTERVAL : Z := ms 4.
Definition BAD_MOTION_INTERVAL : Z := ms 8.
Definition MAX_MARKS : nat := 256.
Definition MAX_CHALLENGES : nat := 64.

Inductive LinkQuality := Healthy | Degraded | Bad.
#[global] Instance LinkQuality_eq_dec : EqDecision LinkQuality.
Proof. solve_decision. Defined.

Definition motion_interval (q : LinkQuality) : Z :=
  match q with Healthy => 0 | Degraded => DEGRADED_MOTION_INTERVAL | Bad => BAD_MOTION_INTERVAL end.
(** [code] is the discriminant; it is also the derived order. *)
Definition quality_code (q : LinkQuality) : Z :=
  match q with Healthy => 0 | Degraded => 1 | Bad => 2 end.
Definition quality_from_code (c : Z) : LinkQuality :=
  match c with 1 => Degraded | 2 => Bad | _ => Healthy end.
Definition better (q : LinkQuality) : LinkQuality :=
  match q with Bad => Degraded | Degraded | Healthy => Healthy end.

Record PathSample := mkPath { rtt : Z; lost_packets : Z; sent_packets : Z }.

Inductive Severity := Clean | Late | Stalled.
#[global] Instance Severity_eq_dec : EqDecision Severity.
Proof. solve_decision. Defined.
Definition severity_rank (s : Severity) : Z :=
  match s with Clean => 0 | Late => 1 | Stalled => 2 end.
Definition severity_max (a b : Severity) : Severity :=
  if severity_rank a <=? severity_rank b then b else a.

Definition lateness (delay : Z) : Severity :=
  if STALLED_REPLY <=? delay then Stalled else if LATE_REPLY <=? delay then Late else Clean.

Definition loss_severity (loss : option Z) : Severity :=
  match loss with
  | Some loss =>
      if f64_leb STALLED_LOSS loss then Stalled
      else if f64_leb LATE_LOSS loss then Late else Clean
  | None => Clean
  end.

Inductive Evidence :=
| Reply (delay : Z) | Unanswered | PathEvidence (rtt : Z) (loss : option Z) | HoldEvidence.

Definition severity (e : Evidence) : Severity :=
  match e with
  | Reply delay => lateness delay
  | Unanswered | HoldEvidence => Stalled
  | PathEvidence rtt loss => severity_max (lateness rtt) (loss_severity loss)
  end.

Record QualitySummary := mkSummary {
  replies : nat; unanswered : nat; late : nat; stalled : nat; slowest_reply : Z;
  held : bool; path_rtt : option Z; loss : option Z }.
Definition default_summary : QualitySummary := mkSummary 0 0 0 0 0 false None None.

Definition summary_tier (s : QualitySummary) : LinkQuality :=
  if held s || (BAD_MARKS <=? stalled s)%nat then Bad
  else if (DEGRADED_MARKS <=? late s)%nat then Degraded
  else Healthy.

Record TierChange := mkChange { from : LinkQuality; to : LinkQuality; change_summary : QualitySummary }.

Record LinkMonitor := mkMonitor {
  tier : LinkQuality; better_since : option Z; trouble : option (Z * Z);
  challenges : list (Z * Z); marks : list (Z * Evidence); path_base : option PathSample }.
Definition default_monitor : LinkMonitor := mkMonitor Healthy None None [] [] None.

Definition unsteady_for (m : LinkMonitor) : Z :=
  match trouble m with Some (first, last) => saturating_sub last first | None => 0 end.

Definition set_challenges (m : LinkMonitor) (l : list (Z * Z)) : LinkMonitor :=
  mkMonitor (tier m) (better_since m) (trouble m) l (marks m) (path_base m).

(** A bounded queue: a full one loses its oldest entry. *)
Definition push_bounded {A} (max : nat) (l : list A) (x : A) : list A :=
  (if (length l =? max)%nat then drop 1 l else l) ++ [x].

Definition challenge_sent (m : LinkMonitor) (token now : Z) : LinkMonitor :=
  set_challenges m (push_bounded MAX_CHALLENGES (challenges m) (token, now)).

Definition is_late (e : Evidence) : bool := severity_rank Late <=? severity_rank (severity e).
Definition is_stalled (e : Evidence) : bool := bool_decide (severity e = Stalled).

Definition mark (m : LinkMonitor) (now : Z) (e : Evidence) : LinkMonitor :=
  mkMonitor (tier m) (better_since m)
    (if is_late e
     then Some (match trouble m with Some (first, _) => first | None => now end, now)
     else trouble m)
    (challenges m) (push_bounded MAX_MARKS (marks m) (now, e)) (path_base m).

(** One turn of [summary]'s loop. *)
Definition summary_add (s : QualitySummary) (e : Evidence) : QualitySummary :=
  let late := (late s + (if is_late e then 1 else 0))%nat in
  let stalled := (stalled s + (if is_stalled e then 1 else 0))%nat in
  match e with
  | Reply delay =>
      mkSummary (replies s + 1) (unanswered s) late stalled (Z.max (slowest_reply s) delay)
        (held s) (path_rtt s) (loss s)
  | Unanswered =>
      mkSummary (replies s) (unanswered s + 1) late stalled (slowest_reply s)
        (held s) (path_rtt s) (loss s)
  | PathEvidence r l =>
      mkSummary (replies s) (unanswered s) late stalled (slowest_reply s)
        (held s) (Some r) (match l with Some l => Some l | None => loss s end)
  | HoldEvidence =>
      mkSummary (replies s) (unanswered s) late stalled (slowest_reply s)
        true (path_rtt s) (loss s)
  end.

Definition summary (m : LinkMonitor) : QualitySummary :=
  fold_left summary_add (snd <$> marks m) default_summary.

(** [settle]'s loop: the marks still inside the window. *)
Fixpoint drop_old (now : Z) (l : list (Z * Evidence)) : list (Z * Evidence) :=
  match l with
  | (t, e) :: l' => if QUALITY_WINDOW <=? saturating_sub now t then drop_old now l' else l
  | [] => []
  end.

Definition settle (m : LinkMonitor) (now : Z) : LinkMonitor * option TierChange :=
  let m := mkMonitor (tier m) (better_since m) (trouble m) (challenges m)
             (drop_old now (marks m)) (path_base m) in
  let summary := summary m in
  let evidence := summary_tier summary in
  let trouble := if bool_decide (evidence = Healthy) then None else trouble m in
  let finish t since change :=
    (mkMonitor t since trouble (challenges m) (marks m) (path_base m), change) in
  let from := tier m in
  if quality_code from <? quality_code evidence then
    finish evidence None (Some (mkChange from evidence summary))
  else if quality_code evidence <? quality_code from then
    let since := match better_since m with Some s => s | None => now end in
    if saturating_sub now since <? UPGRADE_AFTER then finish from (Some since) None
    else finish (better from) None (Some (mkChange from (better from) summary))
  else finish from None None.

(** Removing the first challenge with a token: when it was sent, and the rest. *)
Fixpoint take_challenge (token : Z) (l : list (Z * Z)) : option (Z * list (Z * Z)) :=
  match l with
  | [] => None
  | (t, sent) :: l =>
      if t =? token then Some (sent, l)
      else match take_challenge token l with
           | Some (s, l) => Some (s, (t, sent) :: l)
           | None => None
           end
  end.

Definition reply (m : LinkMonitor) (token now : Z) : LinkMonitor * option TierChange :=
  match take_challenge token (challenges m) with
  | None => (m, None)
  | Some (sent, l) =>
      settle (mark (set_challenges m l) now (Reply (saturating_sub now sent))) now
  end.

(** [lost as f64 / sent as f64] over at least [LOSS_MIN_PACKETS] packets. *)
Definition judged_loss (base : option PathSample) (sample : PathSample) : option Z :=
  match base with
  | Some base =>
      let sent := saturating_sub (sent_packets sample) (sent_packets base) in
      if LOSS_MIN_PACKETS <=? sent
      then Some (f64_div (f64_of_Z (saturating_sub (lost_packets sample) (lost_packets base)))
                         (f64_of_Z sent))
      else None
  | None => None
  end.

Definition path (m : LinkMonitor) (sample : PathSample) (now : Z) : LinkMonitor * option TierChange :=
  let loss := judged_loss (path_base m) sample in
  let base := match loss, path_base m with
              | None, Some base => Some base
              | _, _ => Some sample
              end in
  let m := mkMonitor (tier m) (better_since m) (trouble m) (challenges m) (marks m) base in
  settle (mark m now (PathEvidence (rtt sample) loss)) now.

Definition held_at (m : LinkMonitor) (now : Z) : LinkMonitor * option TierChange :=
  settle (mark m now HoldEvidence) now.

(** [tick]'s loop over the challenges, oldest first. *)
Fixpoint overdue (m : LinkMonitor) (now : Z) (l : list (Z * Z)) : LinkMonitor :=
  match l with
  | [] => set_challenges m []
  | (token, sent) :: l' =>
      if saturating_sub now sent <? STALLED_REPLY then set_challenges m l
      else overdue (mark m now Unanswered) now l'
  end.

Definition tick (m : LinkMonitor) (now : Z) : LinkMonitor * option TierChange :=
  settle (overdue m now (challenges m)) now.

(** ** Histories *)

Inductive QualityOp :=
| QSent (token now : Z) | QReply (token now : Z) | QPath (s : PathSample) (now : Z)
| QHeld (now : Z) | QTick (now : Z).

Definition quality_op (m : LinkMonitor) (op : QualityOp) : LinkMonitor * option TierChange :=
  match op with
  | QSent token now => (challenge_sent m token now, None)
  | QReply token now => reply m token now
  | QPath s now => path m s now
  | QHeld now => held_at m now
  | QTick now => tick m now
  end.
Definition op_time (op : QualityOp) : Z :=
  match op with
  | QSent _ now | QReply _ now | QPath _ now | QHeld now | QTick now => now
  end.
(** Whether the call judges the tier. *)
Definition judges (m : LinkMonitor) (op : QualityOp) : bool :=
  match op with
  | QSent _ _ => false
  | QReply token _ => bool_decide (is_Some (take_challenge token (challenges m)))
  | _ => true
  end.

Definition quality_run (m : LinkMonitor) (ops : list QualityOp) : LinkMonitor :=
  fold_left (fun m op => fst (quality_op m op)) ops m.
Definition ticks (m : LinkMonitor) (times : list Z) : LinkMonitor := quality_run m (QTick <$> times).

(** What the window's evidence reads. *)
Definition reading (m : LinkMonitor) : LinkQuality := summary_tier (summary m).

(** [times] go on from [t] in steps of at most [gap]. *)
Fixpoint paced (t gap : Z) (times : list Z) : Prop :=
  match times with
  | [] => True
  | t' :: times => t <= t' <= t + gap /\ paced t' gap times
  end.

(** The judgements of a history, newest first: when, the tier after, and what
    the evidence read. *)
Definition log_step (st : LinkMonitor * list (Z * LinkQuality * LinkQuality)) (op : QualityOp) :=
  let '(m, log) := st in
  let m' := fst (quality_op m op) in
  (m', if judges m op then (op_time op, tier m', reading m') :: log else log).
Definition quality_log (ops : list QualityOp) : LinkMonitor * list (Z * LinkQuality * LinkQuality) :=
  fold_left log_step ops (default_monitor, []).

(** ** Lemmas *)

Lemma better_code q : q <> Healthy -> quality_code (better q) = quality_code q - 1.
Proof. by destruct q. Qed.

(** A judgement: the old marks go, the tier falls to the evidence at once, and
    climbs one step when the evidence has read better for long enough. *)
Lemma settle_spec m now :
  let '(m', c) := settle m now in
  marks m' = drop_old now (marks m) /\ challenges m' = challenges m
  /\ (reading m' = Healthy -> trouble m' = None)
  /\ ((quality_code (tier m) < quality_code (reading m') /\ tier m' = reading m'
       /\ better_since m' = None)
      \/ (reading m' = tier m /\ tier m' = tier m /\ better_since m' = None)
      \/ (quality_code (reading m') < quality_code (tier m)
          /\ let s := match better_since m with Some s => s | None => now end in
             (saturating_sub now s < UPGRADE_AFTER /\ tier m' = tier m /\ better_since m' = Some s)
             \/ (UPGRADE_AFTER <= saturating_sub now s /\ tier m' = better (tier m)
                 /\ better_since m' = None))).
Proof.
  unfold settle. cbv zeta. cbn [tier better_since trouble challenges marks path_base].
  set (m1 := mkMonitor _ _ _ _ (drop_old now (marks m)) _).
  set (e := summary_tier (summary m1)).
  assert (forall t s tr, reading (mkMonitor t s tr (challenges m) (drop_old now (marks m)) (path_base m)) = e)
    as He by done.
  destruct (quality_code (tier m) <? quality_code e) eqn:E1; bool_inv.
  { cbn. rewrite He. split_and!; try done; [|left; done].
    intros ->. by rewrite bool_decide_eq_true_2. }
  destruct (quality_code e <? quality_code (tier m)) eqn:E2; bool_inv.
  - destruct (_ <? UPGRADE_AFTER) eqn:E3; bool_inv; cbn; rewrite He; split_and!; try done.
    1,3: intros ->; by rewrite bool_decide_eq_true_2.
    + right. right. split; [done|]. left. done.
    + right. right. split; [done|]. right. done.
  - cbn. rewrite He. split_and!; try done.
    + intros ->. by rewrite bool_decide_eq_true_2.
    + right. left. split_and!; try done. destruct e, (tier m); cbn in *; done || lia.
Qed.

(** Recording evidence leaves the tier and its clean stretch alone. *)
Lemma overdue_fields m now l :
  tier (overdue m now l) = tier m /\ better_since (overdue m now l) = better_since m.
Proof.
  revert m. induction l as [|[token sent] l IH]; intros m; cbn; [done|].
  case_match; [done|]. by destruct (IH (mark m now Unanswered)) as [-> ->].
Qed.

(** A call that judges is a judgement of a monitor with the same tier. *)
Lemma judges_settle m op :
  judges m op = true ->
  exists m1, quality_op m op = settle m1 (op_time op)
    /\ tier m1 = tier m /\ better_since m1 = better_since m.
Proof.
  destruct op as [token now|token now|s now|now|now]; cbn; intros Hj; try done.
  - unfold reply. destruct (take_challenge token (challenges m)) as [[sent l]|]; [|done].
    by eexists.
  - by eexists.
  - by eexists.
  - eexists. split; [done|]. apply overdue_fields.
Qed.

Lemma not_judges m op :
  judges m op = false ->
  tier (fst (quality_op m op)) = tier m /\ better_since (fst (quality_op m op)) = better_since m.
Proof.
  destruct op as [token now|token now|s now|now|now]; cbn; intros Hj; try done.
  unfold reply. by destruct (take_challenge token (challenges m)) as [[sent l]|].
Qed.

(** The clean stretch: since [better_since] every judgement read better than the
    tier. *)
Definition clean_since (log : list (Z * LinkQuality * LinkQuality)) (t : LinkQuality) (s : Z) : Prop :=
  exists l1 r l2, log = l1 ++ (s, t, r) :: l2
    /\ Forall (fun '(_, t', r') => t' = t /\ quality_code r' < quality_code t) (l1 ++ [(s, t, r)]).

Definition log_ok (st : LinkMonitor * list (Z * LinkQuality * LinkQuality)) : Prop :=
  forall s, better_since (fst st) = Some s -> clean_since (snd st) (tier (fst st)) s.

Lemma log_step_ok st op : log_ok st -> log_ok (log_step st op).
Proof.
  destruct st as [m log]. intros Hok s. cbn [log_step fst snd].
  destruct (judges m op) eqn:Ej.
  - destruct (judges_settle m op Ej) as (m1 & -> & Ht & Hb).
    pose proof (settle_spec m1 (op_time op)) as Hs.
    destruct (settle m1 (op_time op)) as [m' c]. destruct Hs as (_ & _ & _ & Hs).
    cbn [fst]. intros Hsome. rewrite Ht, Hb in Hs.
    destruct Hs as [(_ & _ & ?)|[(_ & _ & ?)|(Hlt & [(_ & Ht' & Hs')|(_ & _ & ?)])]]; try congruence.
    rewrite Hs' in Hsome. injection Hsome as Hsome. rewrite Ht'.
    destruct (better_since m) as [s0|] eqn:Eb.
    + subst s0. destruct (Hok s Eb) as (l1 & r & l2 & Hl & Hf). cbn in Hl, Hf. subst log.
      exists ((op_time op, tier m, reading m') :: l1), r, l2. split; [done|]. by constructor.
    + subst s. exists [], (reading m'), log. split; [done|]. by constructor.
  - destruct (not_judges m op Ej) as [-> ->]. apply Hok.
Qed.

Lemma quality_log_ok ops : log_ok (quality_log ops).
Proof.
  unfold quality_log. assert (log_ok (default_monitor, [])) as H by done. revert H.
  generalize (default_monitor, @nil (Z * LinkQuality * LinkQuality)) as st.
  induction ops as [|op ops IH]; intros st H; cbn; [done|]. apply IH. by apply log_step_ok.
Qed.

(** A tier falls at once and climbs slowly: after every judgement of every
    history the tier is no better than what the window's evidence reads; a tier
    that gets worse is exactly that reading; and a tier that improves does so by
    one step, at least two seconds after a judgement since which every judgement
    read better than the tier then held. *)
Theorem quality_tier_discipline ops op :
  let '(m, log) := quality_log ops in
  let '(m', change) := quality_op m op in
  if judges m op then
    quality_code (reading m') <= quality_code (tier m')
    /\ (quality_code (tier m) < quality_code (tier m') -> tier m' = reading m')
    /\ (quality_code (tier m') < quality_code (tier m) ->
        tier m' = better (tier m)
        /\ exists s, UPGRADE_AFTER <= saturating_sub (op_time op) s /\ clean_since log (tier m) s)
  else tier m' = tier m.
Proof.
  pose proof (quality_log_ok ops) as Hok. destruct (quality_log ops) as [m log]. unfold log_ok in Hok.
  cbn [fst snd] in Hok. destruct (judges m op) eqn:Ej.
  - destruct (judges_settle m op Ej) as (m1 & -> & Ht & Hb).
    pose proof (settle_spec m1 (op_time op)) as Hs.
    destruct (settle m1 (op_time op)) as [m' c]. destruct Hs as (_ & _ & _ & Hs).
    rewrite Ht, Hb in Hs.
    destruct Hs as [(Hlt & -> & _)|[(-> & -> & _)|(Hlt & [(_ & -> & _)|(Hup & -> & _)])]].
    + split_and!; try done; lia.
    + split_and!; try done; lia.
    + split_and!; try lia.
    + assert (tier m <> Healthy) as Hne by (intros E; rewrite E in Hlt; destruct (reading m'); done).
      rewrite (better_code _ Hne). split_and!; try lia. intros _. split; [done|].
      destruct (better_since m) as [s|]; [eauto|].
      unfold saturating_sub, UPGRADE_AFTER, secs in Hup. lia.
  - pose proof (not_judges m op Ej) as [Ht _]. by destruct (quality_op m op).
Qed.

Lemma last_cons_default {A} (t : A) l x : List.last l t = List.last (t :: l) x.
Proof. revert t x. induction l as [|y l IH]; intros t x; [done|]. cbn. destruct l; [done|]. apply IH. Qed.

(** ** Recovery *)

(** Without challenges a tick only judges. *)
Lemma tick_quiet m now : challenges m = [] -> fst (tick m now) = fst (settle m now).
Proof. intros H. unfold tick. rewrite H. cbn. destruct m; cbn in *; by subst. Qed.

Lemma drop_old_Forall (P : Z * Evidence -> Prop) now l : Forall P l -> Forall P (drop_old now l).
Proof.
  induction l as [|[t e] l IH]; cbn; [done|]. intros H. case_match; [|done].
  apply IH. by inversion H.
Qed.

Lemma drop_old_all now l :
  Forall (fun '(t, _) => t + QUALITY_WINDOW <= now) l -> drop_old now l = [].
Proof.
  induction 1 as [|[t e] l Ht _ IH]; cbn; [done|].
  rewrite (proj2 (Z.leb_le _ _)); [done|]. unfold saturating_sub. lia.
Qed.

Lemma push_bounded_Forall {A} (P : A -> Prop) max l x :
  Forall P l -> P x -> Forall P (push_bounded max l x).
Proof.
  intros Hl Hx. unfold push_bounded. apply Forall_app_2; [|by constructor].
  case_match; [by apply Forall_drop|done].
Qed.

Lemma overdue_marks m now l :
  Forall (fun '(t, _) => t <= now) (marks m) -> Forall (fun '(t, _) => t <= now) (marks (overdue m now l)).
Proof.
  revert m. induction l as [|[token sent] l IH]; intros m H; cbn; [done|].
  case_match; [done|]. apply IH. cbn. by apply push_bounded_Forall.
Qed.

Lemma overdue_challenges (P : Z * Z -> Prop) m now l :
  Forall P l -> Forall P (challenges (overdue m now l)).
Proof.
  revert m. induction l as [|[token sent] l IH]; intros m H; cbn; [done|].
  case_match; [done|]. apply IH. by inversion H.
Qed.

Lemma overdue_all T m now l :
  Forall (fun '(_, sent) => sent <= T) l -> T + STALLED_REPLY <= now ->
  challenges (overdue m now l) = [].
Proof.
  intros H Hn. revert m. induction H as [|[token sent] l Hs _ IH]; intros m; cbn; [done|].
  rewrite (proj2 (Z.ltb_ge _ _)); [done|]. unfold saturating_sub. lia.
Qed.

(** The clock of a clean stretch stays behind the session's, and a stretch that
    is long enough has been used. *)
Definition since_le (m : LinkMonitor) (x : Z) : Prop :=
  forall s, better_since m = Some s -> s <= x < s + UPGRADE_AFTER.

Lemma tick_spec m now :
  let m' := fst (tick m now) in
  marks m' = drop_old now (marks (overdue m now (challenges m)))
  /\ challenges m' = challenges (overdue m now (challenges m))
  /\ ((forall s, better_since m = Some s -> s <= now) -> since_le m' now).
Proof.
  unfold tick. cbv zeta. set (m1 := overdue m now (challenges m)).
  assert (tier m1 = tier m /\ better_since m1 = better_since m) as [Ht Hb] by apply overdue_fields.
  pose proof (settle_spec m1 now) as Hs. destruct (settle m1 now) as [m' c]. cbn [fst].
  destruct Hs as (Hm & Hc & _ & Hs). split_and!; try done. intros Hle s Hsome. rewrite Hb in Hs.
  destruct Hs as [(_ & _ & ?)|[(_ & _ & ?)|(_ & [(Hlt & _ & Hs')|(_ & _ & ?)])]]; try congruence.
  rewrite Hs' in Hsome. injection Hsome as Hsome. unfold saturating_sub in Hlt.
  destruct (better_since m) as [s0|]; subst; [specialize (Hle s eq_refl); lia|].
  unfold UPGRADE_AFTER, secs in *. lia.
Qed.

(** The time by which a monitor without evidence of trouble is healthy, when it
    is ticked at least every [gap]. *)
Definition healthy_by (m : LinkMonitor) (x gap : Z) : Z :=
  match tier m, better_since m with
  | Healthy, _ => x
  | Degraded, Some s => s + UPGRADE_AFTER
  | Degraded, None => x + gap + UPGRADE_AFTER
  | Bad, Some s => s + 2 * UPGRADE_AFTER + 2 * gap
  | Bad, None => x + 2 * UPGRADE_AFTER + 3 * gap
  end.

(** A tick of a monitor whose window is empty: the deadline holds. *)
Lemma clear_tick m x t gap :
  challenges m = [] -> marks m = [] -> since_le m x -> x <= t <= x + gap ->
  healthy_by (fst (tick m t)) t gap <= Z.max (healthy_by m x gap) t.
Proof.
  intros Hc Hm Hs Ht. rewrite (tick_quiet _ _ Hc).
  pose proof (settle_spec m t) as Hsp. destruct (settle m t) as [m' c]. cbn [fst].
  destruct Hsp as (Hm' & _ & _ & Hsp). rewrite Hm in Hm'. cbn in Hm'.
  assert (reading m' = Healthy) as Hr by (unfold reading, summary; by rewrite Hm').
  rewrite Hr in Hsp. unfold healthy_by. unfold since_le in Hs. unfold UPGRADE_AFTER, secs in *.
  destruct (tier m) eqn:Et; cbn in Hsp.
  - destruct Hsp as [(? & _)|[(_ & -> & _)|(? & _)]]; lia.
  - destruct Hsp as [(? & _)|[([=] & _)|(_ & [(Hlt & Et' & Es')|(Hup & Et' & Es')])]]; [lia|..];
      rewrite Et', ?Es'; [|lia].
    destruct (better_since m) as [s|]; lia.
  - destruct Hsp as [(? & _)|[([=] & _)|(_ & [(Hlt & Et' & Es')|(Hup & Et' & Es')])]]; [lia|..];
      rewrite Et', ?Es'.
    + destruct (better_since m) as [s|]; lia.
    + unfold saturating_sub in Hup. destruct (better_since m) as [s|]; [specialize (Hs s eq_refl)|]; lia.
Qed.

(** The phases of a recovery from evidence up to time [T]: challenges are still
    open; the marks they left age; the window is empty and the tier climbs. *)
Definition recovering (T gap : Z) (m : LinkMonitor) (x : Z) : Prop :=
  (x < T + STALLED_REPLY /\ Forall (fun '(_, sent) => sent <= T) (challenges m)
   /\ Forall (fun '(t, _) => t <= x) (marks m))
  \/ (exists y, y <= T + STALLED_REPLY + gap /\ x < y + QUALITY_WINDOW
      /\ challenges m = [] /\ Forall (fun '(t, _) => t <= y) (marks m))
  \/ (challenges m = [] /\ marks m = []
      /\ healthy_by m x gap
         <= Z.max x (T + STALLED_REPLY + QUALITY_WINDOW + 2 * UPGRADE_AFTER + 5 * gap)).

Lemma Forall_times_mono (l : list (Z * Evidence)) a b :
  a <= b -> Forall (fun '(t, _) => t <= a) l -> Forall (fun '(t, _) => t <= b) l.
Proof. intros Hab H. eapply list.Forall_impl; [exact H|]. intros [t e]. lia. Qed.

Lemma recovering_tick T gap m x t :
  x <= t <= x + gap -> since_le m x -> recovering T gap m x ->
  since_le (fst (tick m t)) t /\ recovering T gap (fst (tick m t)) t.
Proof.
  intros Ht Hs Hr. destruct (tick_spec m t) as (Hm' & Hc' & Hs').
  assert (since_le (fst (tick m t)) t) as Hs1.
  { refine (Hs' _). intros s E. destruct (Hs s E). lia. }
  split; [done|].
  destruct Hr as [(Hx & Hc & Hm)|[(y & Hy & Hx & Hc & Hm)|(Hc & Hm & Hby)]].
  - pose proof (Forall_times_mono _ x t ltac:(lia) Hm) as Hm1.
    destruct (Z_lt_le_dec t (T + STALLED_REPLY)) as [Hlt|Hge].
    + left. rewrite Hc', Hm'. split_and!; [done|by apply overdue_challenges|].
      by apply drop_old_Forall, overdue_marks.
    + right. left. exists t. rewrite Hc', Hm'. split_and!; [lia|unfold QUALITY_WINDOW, secs; lia| |].
      * by apply (overdue_all T).
      * by apply drop_old_Forall, overdue_marks.
  - assert (overdue m t (challenges m) = m) as Ho by (rewrite Hc; destruct m; cbn in *; by subst).
    rewrite Ho in Hm', Hc'. right.
    destruct (Z_lt_le_dec t (y + QUALITY_WINDOW)) as [Hlt|Hge].
    + left. exists y. rewrite Hc', Hm'. split_and!; try done. by apply drop_old_Forall.
    + right. rewrite Hc', Hm'. split_and!; [done| |].
      * apply drop_old_all. eapply list.Forall_impl; [exact Hm|]. intros [t' e]. lia.
      * unfold healthy_by. unfold since_le, UPGRADE_AFTER, secs in *.
        destruct (tier _); [lia|..]; destruct (better_since (fst (tick m t))) as [s|];
          try specialize (Hs1 s eq_refl); lia.
  - right. right. assert (overdue m t (challenges m) = m) as Ho by (rewrite Hc; destruct m; cbn in *; by subst).
    rewrite Hc', Hm', Ho, Hm. split_and!; try done.
    pose proof (clear_tick m x t gap Hc Hm Hs Ht). lia.
Qed.

Lemma recovering_ticks T gap times : forall m x,
  paced x gap times -> since_le m x -> recovering T gap m x ->
  since_le (ticks m times) (List.last times x) /\ recovering T gap (ticks m times) (List.last times x).
Proof.
  induction times as [|t times IH]; intros m x Hp Hs Hr; [done|].
  destruct Hp as [Ht Hp]. destruct (recovering_tick _ _ _ _ _ Ht Hs Hr) as [Hs' Hr'].
  destruct (IH _ _ Hp Hs' Hr') as [H1 H2]. rewrite <- (last_cons_default t times x). done.
Qed.

(** A link that stops showing trouble is healthy again: whatever evidence and
    open challenges a monitor holds up to time [T], ticking it at least every
    [gap] with nothing new leaves it healthy, its run of trouble ended, once
    7.06 seconds and five gaps have passed; it takes the overdue time of the open
    challenges, the window and two clean stretches. *)
Theorem quality_recovers (T gap : Z) (m : LinkMonitor) (times : list Z) :
  0 <= gap -> Forall (fun '(_, sent) => sent <= T) (challenges m) ->
  Forall (fun '(t, _) => t <= T) (marks m) -> since_le m T ->
  paced T gap times ->
  T + STALLED_REPLY + QUALITY_WINDOW + 2 * UPGRADE_AFTER + 5 * gap <= List.last times T ->
  tier (ticks m times) = Healthy /\ reading (ticks m times) = Healthy
  /\ challenges (ticks m times) = [].
Proof.
  intros Hgap Hc Hm Hs Hp Hlast.
  destruct (recovering_ticks T gap times m T Hp Hs) as [Hs' Hr].
  { left. split_and!; try done. unfold STALLED_REPLY, ms. lia. }
  destruct Hr as [(Hx & _)|[(y & Hy & Hx & _)|(Hc' & Hm' & Hby)]].
  - unfold STALLED_REPLY, QUALITY_WINDOW, UPGRADE_AFTER, ms, secs in *. lia.
  - unfold STALLED_REPLY, QUALITY_WINDOW, UPGRADE_AFTER, ms, secs in *. lia.
  - split_and!; [|unfold reading, summary; by rewrite Hm'|done].
    unfold healthy_by in Hby. unfold since_le in Hs'.
    destruct (tier (ticks m times)); [done|exfalso..];
      destruct (better_since (ticks m times)) as [s|]; try specialize (Hs' s eq_refl);
      unfold UPGRADE_AFTER, secs in *; lia.
Qed.

(** A monitor that just held and has an open challenge, ticked every second. *)
Definition troubled : LinkMonitor :=
  quality_run default_monitor [QSent 1 0; QHeld 0; QTick (ms 60); QSent 2 (ms 60)].
Definition second_ticks : list Z := (fun k => ms 60 + secs k) <$> seqZ 1 13.

Lemma quality_recovers_witness :
  tier troubled = Bad /\ tier (ticks troubled second_ticks) = Healthy.
Proof.
  split; [vm_compute; reflexivity|].
  destruct (quality_recovers (ms 60) (secs 1) troubled second_ticks) as (H & _).
  - vm_compute. discriminate.
  - replace (challenges troubled) with [(2, ms 60)] by (vm_compute; reflexivity).
    repeat constructor; vm_compute; discriminate.
  - replace (marks troubled) with [(0, HoldEvidence); (ms 60, Unanswered)] by (vm_compute; reflexivity).
    repeat constructor; vm_compute; discriminate.
  - intros s Hs. vm_compute in Hs. discriminate.
  - vm_compute. repeat split; discriminate.
  - vm_compute. discriminate.
  - exact H.
Defined.
