(* ===== verification/Receiver.v ===== *)
(** * The input receiver (monhop-transport/src/session_receiver.rs)

    The computer that is being controlled: it validates every frame of the
    source, claims the floor, injects through a native destination and releases
    everything it injected when the link stalls, the source stops or anything is
    wrong.  It composes the floor, the take-back gate, the sequence gates, the
    rate limiter, the peer's health and the keyboard translation.

    The destination is a trait: [outcome] is any implementation, the result of
    an action given all the calls before it, and [r_calls] records the calls with
    their results.  The floor is the abstract one, which the packed word
    implements ([Floor.floor_refines_spec]).  The arrays [keys] and [buttons] are
    the sets of their true indices; the fields only the constructors set are the
    record [ReceiverConfig].  A method runs without interference from the capture
    callback, which acts between calls. *)

From stdpp Require Import gmap.
From S2P Require Import Prelude F64 Types Geometry Floor TakeBack Injection Messages Sequence.
From S2P Require Import Chord Translator GestureLatch SessionHealth.

Inductive ReceiverFailure :=
| FHealth (e : HealthError) | FInvalidEpoch | FInvalidSequence | FRateLimited | FWrongDisplay
| FInvalidPoint | FNotActive | FInvalidPressedState | FUnexpectedMessage | FNativeDelivery
| FPeerStopped | FInvalidGesture.
#[global] Instance ReceiverFailure_eq_dec : EqDecision ReceiverFailure.
Proof. solve_decision. Defined.

(** The abstract floor as the floor a gate shares. *)
#[global, refine] Instance spec_floor : SharedFloorI FloorSnapshot := {|
  fl_snapshot f := Some f;
  fl_transition f from to := Some (floor_transition f from to);
  fl_holds f s := snapshot_ok s /\ f = s |}.
Proof.
  - by intros f s [].
  - by intros f s [_ ->].
  - intros f s from to [Hs ->] Hf. unfold floor_transition, floor_call.
    destruct (FloorSpec.edge s (OpTransition from to)) as [t|] eqn:E; [|done].
    exists t. split_and!; try done. eapply (edge_ok s); [done| |exact E].
    split; [exact I|]. apply snapshot_ok_spec in Hf. cbn. lia.
Defined.

Record ReceiverConfig := mkReceiverConfig {
  slot : Z; shared : bool; local_lower : bool; enabled : bool;
  displays : list DisplayDescription; control_epoch : Z;
  local_platform : option Platform; source_platform : option Platform }.

Record InputReceiver := mkReceiver {
  r_config : ReceiverConfig;
  r_gate : Gate FloorSnapshot;
  r_floor_generation : option Z;
  r_yielding : bool;
  r_epoch : Z;
  r_sequences : SequenceGate;
  r_control_sequences : SequenceGate;
  r_limiter : RateLimiter;
  r_health : PeerHealth;
  r_active : option (DisplayId * Point);
  r_pending_move : option Point;
  r_keys : gset Z;
  r_buttons : gset Z;
  r_failure : option ReceiverFailure;
  r_cleanup_pending : bool;
  r_held_since : option Z;
  r_holds : Z;
  r_held_max : Z;
  r_open_gestures : bool * bool;
  r_gesture_seen : Z;
  r_gesture_normalizations : Z;
  r_control_as_command : bool;
  r_keyboard : Translator;
  r_calls : list (DestinationAction * bool) }.

Definition with_gate (r : InputReceiver) (v : Gate FloorSnapshot) : InputReceiver :=
  mkReceiver (r_config r) v (r_floor_generation r) (r_yielding r) (r_epoch r) (r_sequences r)
    (r_control_sequences r) (r_limiter r) (r_health r) (r_active r) (r_pending_move r) (r_keys
    r) (r_buttons r) (r_failure r) (r_cleanup_pending r) (r_held_since r) (r_holds r)
    (r_held_max r) (r_open_gestures r) (r_gesture_seen r) (r_gesture_normalizations r)
    (r_control_as_command r) (r_keyboard r) (r_calls r).
Definition with_floor_generation (r : InputReceiver) (v : option Z) : InputReceiver :=
  mkReceiver (r_config r) (r_gate r) v (r_yielding r) (r_epoch r) (r_sequences r)
    (r_control_sequences r) (r_limiter r) (r_health r) (r_active r) (r_pending_move r) (r_keys
    r) (r_buttons r) (r_failure r) (r_cleanup_pending r) (r_held_since r) (r_holds r)
    (r_held_max r) (r_open_gestures r) (r_gesture_seen r) (r_gesture_normalizations r)
    (r_control_as_command r) (r_keyboard r) (r_calls r).
Definition with_yielding (r : InputReceiver) (v : bool) : InputReceiver :=
  mkReceiver (r_config r) (r_gate r) (r_floor_generation r) v (r_epoch r) (r_sequences r)
    (r_control_sequences r) (r_limiter r) (r_health r) (r_active r) (r_pending_move r) (r_keys
    r) (r_buttons r) (r_failure r) (r_cleanup_pending r) (r_held_since r) (r_holds r)
    (r_held_max r) (r_open_gestures r) (r_gesture_seen r) (r_gesture_normalizations r)
    (r_control_as_command r) (r_keyboard r) (r_calls r).
Definition with_epoch (r : InputReceiver) (v : Z) : InputReceiver :=
  mkReceiver (r_config r) (r_gate r) (r_floor_generation r) (r_yielding r) v (r_sequences r)
    (r_control_sequences r) (r_limiter r) (r_health r) (r_active r) (r_pending_move r) (r_keys
    r) (r_buttons r) (r_failure r) (r_cleanup_pending r) (r_held_since r) (r_holds r)
    (r_held_max r) (r_open_gestures r) (r_gesture_seen r) (r_gesture_normalizations r)
    (r_control_as_command r) (r_keyboard r) (r_calls r).
Definition with_sequences (r : InputReceiver) (v : SequenceGate) : InputReceiver :=
  mkReceiver (r_config r) (r_gate r) (r_floor_generation r) (r_yielding r) (r_epoch r) v
    (r_control_sequences r) (r_limiter r) (r_health r) (r_active r) (r_pending_move r) (r_keys
    r) (r_buttons r) (r_failure r) (r_cleanup_pending r) (r_held_since r) (r_holds r)
    (r_held_max r) (r_open_gestures r) (r_gesture_seen r) (r_gesture_normalizations r)
    (r_control_as_command r) (r_keyboard r) (r_calls r).
Definition with_control_sequences (r : InputReceiver) (v : SequenceGate) : InputReceiver :=
  mkReceiver (r_config r) (r_gate r) (r_floor_generation r) (r_yielding r) (r_epoch r)
    (r_sequences r) v (r_limiter r) (r_health r) (r_active r) (r_pending_move r) (r_keys r)
    (r_buttons r) (r_failure r) (r_cleanup_pending r) (r_held_since r) (r_holds r) (r_held_max
    r) (r_open_gestures r) (r_gesture_seen r) (r_gesture_normalizations r) (r_control_as_command
    r) (r_keyboard r) (r_calls r).
Definition with_limiter (r : InputReceiver) (v : RateLimiter) : InputReceiver :=
  mkReceiver (r_config r) (r_gate r) (r_floor_generation r) (r_yielding r) (r_epoch r)
    (r_sequences r) (r_control_sequences r) v (r_health r) (r_active r) (r_pending_move r)
    (r_keys r) (r_buttons r) (r_failure r) (r_cleanup_pending r) (r_held_since r) (r_holds r)
    (r_held_max r) (r_open_gestures r) (r_gesture_seen r) (r_gesture_normalizations r)
    (r_control_as_command r) (r_keyboard r) (r_calls r).
Definition with_health (r : InputReceiver) (v : PeerHealth) : InputReceiver :=
  mkReceiver (r_config r) (r_gate r) (r_floor_generation r) (r_yielding r) (r_epoch r)
    (r_sequences r) (r_control_sequences r) (r_limiter r) v (r_active r) (r_pending_move r)
    (r_keys r) (r_buttons r) (r_failure r) (r_cleanup_pending r) (r_held_since r) (r_holds r)
    (r_held_max r) (r_open_gestures r) (r_gesture_seen r) (r_gesture_normalizations r)
    (r_control_as_command r) (r_keyboard r) (r_calls r).
Definition with_active (r : InputReceiver) (v : option (DisplayId * Point)) : InputReceiver :=
  mkReceiver (r_config r) (r_gate r) (r_floor_generation r) (r_yielding r) (r_epoch r)
    (r_sequences r) (r_control_sequences r) (r_limiter r) (r_health r) v (r_pending_move r)
    (r_keys r) (r_buttons r) (r_failure r) (r_cleanup_pending r) (r_held_since r) (r_holds r)
    (r_held_max r) (r_open_gestures r) (r_gesture_seen r) (r_gesture_normalizations r)
    (r_control_as_command r) (r_keyboard r) (r_calls r).
Definition with_pending_move (r : InputReceiver) (v : option Point) : InputReceiver :=
  mkReceiver (r_config r) (r_gate r) (r_floor_generation r) (r_yielding r) (r_epoch r)
    (r_sequences r) (r_control_sequences r) (r_limiter r) (r_health r) (r_active r) v (r_keys r)
    (r_buttons r) (r_failure r) (r_cleanup_pending r) (r_held_since r) (r_holds r) (r_held_max
    r) (r_open_gestures r) (r_gesture_seen r) (r_gesture_normalizations r) (r_control_as_command
    r) (r_keyboard r) (r_calls r).
Definition with_keys (r : InputReceiver) (v : gset Z) : InputReceiver :=
  mkReceiver (r_config r) (r_gate r) (r_floor_generation r) (r_yielding r) (r_epoch r)
    (r_sequences r) (r_control_sequences r) (r_limiter r) (r_health r) (r_active r)
    (r_pending_move r) v (r_buttons r) (r_failure r) (r_cleanup_pending r) (r_held_since r)
    (r_holds r) (r_held_max r) (r_open_gestures r) (r_gesture_seen r) (r_gesture_normalizations
    r) (r_control_as_command r) (r_keyboard r) (r_calls r).
Definition with_buttons (r : InputReceiver) (v : gset Z) : InputReceiver :=
  mkReceiver (r_config r) (r_gate r) (r_floor_generation r) (r_yielding r) (r_epoch r)
    (r_sequences r) (r_control_sequences r) (r_limiter r) (r_health r) (r_active r)
    (r_pending_move r) (r_keys r) v (r_failure r) (r_cleanup_pending r) (r_held_since r)
    (r_holds r) (r_held_max r) (r_open_gestures r) (r_gesture_seen r) (r_gesture_normalizations
    r) (r_control_as_command r) (r_keyboard r) (r_calls r).
Definition with_failure (r : InputReceiver) (v : option ReceiverFailure) : InputReceiver :=
  mkReceiver (r_config r) (r_gate r) (r_floor_generation r) (r_yielding r) (r_epoch r)
    (r_sequences r) (r_control_sequences r) (r_limiter r) (r_health r) (r_active r)
    (r_pending_move r) (r_keys r) (r_buttons r) v (r_cleanup_pending r) (r_held_since r)
    (r_holds r) (r_held_max r) (r_open_gestures r) (r_gesture_seen r) (r_gesture_normalizations
    r) (r_control_as_command r) (r_keyboard r) (r_calls r).
Definition with_cleanup_pending (r : InputReceiver) (v : bool) : InputReceiver :=
  mkReceiver (r_config r) (r_gate r) (r_floor_generation r) (r_yielding r) (r_epoch r)
    (r_sequences r) (r_control_sequences r) (r_limiter r) (r_health r) (r_active r)
    (r_pending_move r) (r_keys r) (r_buttons r) (r_failure r) v (r_held_since r) (r_holds r)
    (r_held_max r) (r_open_gestures r) (r_gesture_seen r) (r_gesture_normalizations r)
    (r_control_as_command r) (r_keyboard r) (r_calls r).
Definition with_held_since (r : InputReceiver) (v : option Z) : InputReceiver :=
  mkReceiver (r_config r) (r_gate r) (r_floor_generation r) (r_yielding r) (r_epoch r)
    (r_sequences r) (r_control_sequences r) (r_limiter r) (r_health r) (r_active r)
    (r_pending_move r) (r_keys r) (r_buttons r) (r_failure r) (r_cleanup_pending r) v (r_holds
    r) (r_held_max r) (r_open_gestures r) (r_gesture_seen r) (r_gesture_normalizations r)
    (r_control_as_command r) (r_keyboard r) (r_calls r).
Definition with_holds (r : InputReceiver) (v : Z) : InputReceiver :=
  mkReceiver (r_config r) (r_gate r) (r_floor_generation r) (r_yielding r) (r_epoch r)
    (r_sequences r) (r_control_sequences r) (r_limiter r) (r_health r) (r_active r)
    (r_pending_move r) (r_keys r) (r_buttons r) (r_failure r) (r_cleanup_pending r)
    (r_held_since r) v (r_held_max r) (r_open_gestures r) (r_gesture_seen r)
    (r_gesture_normalizations r) (r_control_as_command r) (r_keyboard r) (r_calls r).
Definition with_held_max (r : InputReceiver) (v : Z) : InputReceiver :=
  mkReceiver (r_config r) (r_gate r) (r_floor_generation r) (r_yielding r) (r_epoch r)
    (r_sequences r) (r_control_sequences r) (r_limiter r) (r_health r) (r_active r)
    (r_pending_move r) (r_keys r) (r_buttons r) (r_failure r) (r_cleanup_pending r)
    (r_held_since r) (r_holds r) v (r_open_gestures r) (r_gesture_seen r)
    (r_gesture_normalizations r) (r_control_as_command r) (r_keyboard r) (r_calls r).
Definition with_open_gestures (r : InputReceiver) (v : bool * bool) : InputReceiver :=
  mkReceiver (r_config r) (r_gate r) (r_floor_generation r) (r_yielding r) (r_epoch r)
    (r_sequences r) (r_control_sequences r) (r_limiter r) (r_health r) (r_active r)
    (r_pending_move r) (r_keys r) (r_buttons r) (r_failure r) (r_cleanup_pending r)
    (r_held_since r) (r_holds r) (r_held_max r) v (r_gesture_seen r) (r_gesture_normalizations
    r) (r_control_as_command r) (r_keyboard r) (r_calls r).
Definition with_gesture_seen (r : InputReceiver) (v : Z) : InputReceiver :=
  mkReceiver (r_config r) (r_gate r) (r_floor_generation r) (r_yielding r) (r_epoch r)
    (r_sequences r) (r_control_sequences r) (r_limiter r) (r_health r) (r_active r)
    (r_pending_move r) (r_keys r) (r_buttons r) (r_failure r) (r_cleanup_pending r)
    (r_held_since r) (r_holds r) (r_held_max r) (r_open_gestures r) v (r_gesture_normalizations
    r) (r_control_as_command r) (r_keyboard r) (r_calls r).
Definition with_gesture_normalizations (r : InputReceiver) (v : Z) : InputReceiver :=
  mkReceiver (r_config r) (r_gate r) (r_floor_generation r) (r_yielding r) (r_epoch r)
    (r_sequences r) (r_control_sequences r) (r_limiter r) (r_health r) (r_active r)
    (r_pending_move r) (r_keys r) (r_buttons r) (r_failure r) (r_cleanup_pending r)
    (r_held_since r) (r_holds r) (r_held_max r) (r_open_gestures r) (r_gesture_seen r) v
    (r_control_as_command r) (r_keyboard r) (r_calls r).
Definition with_control_as_command (r : InputReceiver) (v : bool) : InputReceiver :=
  mkReceiver (r_config r) (r_gate r) (r_floor_generation r) (r_yielding r) (r_epoch r)
    (r_sequences r) (r_control_sequences r) (r_limiter r) (r_health r) (r_active r)
    (r_pending_move r) (r_keys r) (r_buttons r) (r_failure r) (r_cleanup_pending r)
    (r_held_since r) (r_holds r) (r_held_max r) (r_open_gestures r) (r_gesture_seen r)
    (r_gesture_normalizations r) v (r_keyboard r) (r_calls r).
Definition with_keyboard (r : InputReceiver) (v : Translator) : InputReceiver :=
  mkReceiver (r_config r) (r_gate r) (r_floor_generation r) (r_yielding r) (r_epoch r)
    (r_sequences r) (r_control_sequences r) (r_limiter r) (r_health r) (r_active r)
    (r_pending_move r) (r_keys r) (r_buttons r) (r_failure r) (r_cleanup_pending r)
    (r_held_since r) (r_holds r) (r_held_max r) (r_open_gestures r) (r_gesture_seen r)
    (r_gesture_normalizations r) (r_control_as_command r) v (r_calls r).
Definition with_calls (r : InputReceiver) (v : list (DestinationAction * bool)) : InputReceiver :=
  mkReceiver (r_config r) (r_gate r) (r_floor_generation r) (r_yielding r) (r_epoch r)
    (r_sequences r) (r_control_sequences r) (r_limiter r) (r_health r) (r_active r)
    (r_pending_move r) (r_keys r) (r_buttons r) (r_failure r) (r_cleanup_pending r)
    (r_held_since r) (r_holds r) (r_held_max r) (r_open_gestures r) (r_gesture_seen r)
    (r_gesture_normalizations r) (r_control_as_command r) (r_keyboard r) v.

(** Projections of updates. *)
Ltac rx :=
  cbn [r_config r_gate r_floor_generation r_yielding r_epoch r_sequences r_control_sequences
    r_limiter r_health r_active r_pending_move r_keys r_buttons r_failure r_cleanup_pending
    r_held_since r_holds r_held_max r_open_gestures r_gesture_seen r_gesture_normalizations
    r_control_as_command r_keyboard r_calls with_gate with_floor_generation with_yielding
    with_epoch with_sequences with_control_sequences with_limiter with_health with_active
    with_pending_move with_keys with_buttons with_failure with_cleanup_pending
    with_held_since with_holds with_held_max with_open_gestures with_gesture_seen
    with_gesture_normalizations with_control_as_command with_keyboard with_calls].

(** [InputReceiver::new] of a pairwise or shared receiver on a gate. *)
Definition activated (e : Z) : SequenceGate := fst (activate_epoch default_gate e).
Definition INPUT_RATE : Z := 20000.
Definition new_receiver (c : ReceiverConfig) (g : Gate FloorSnapshot) (now : Z) : InputReceiver :=
  mkReceiver c g None false (control_epoch c) (activated (control_epoch c))
    (activated (control_epoch c)) (mkLimiter INPUT_RATE (INPUT_RATE * 1000) None) (new_health now)
    None None ∅ ∅ None false None 0 0 (false, false) now 0 false default_translator [].

Definition is_inbound_claim (floor : FloorSnapshot) (gen : Z) : bool :=
  match state floor with
  | Receiving => generation floor =? gen
  | Yielding =>
      (generation floor =? gen)
      || match checked_add_u64 gen 1 with Some g => g =? generation floor | None => false end
  | _ => false
  end.

(** [release_inbound]; [fuel] bounds the turns of its loop. *)
Fixpoint release_inbound (fuel : nat) (f : FloorSnapshot) (gen : Z) (current : FloorSnapshot)
  : FloorSnapshot :=
  match fuel with
  | O => f
  | S fuel =>
      if negb (is_inbound_claim current gen) then f
      else match floor_transition f current Free with
           | (f, Ok _) => f
           | (f, Err changed) => release_inbound fuel f gen changed
           end
  end.
(** One turn is enough without interference. *)
Definition LOOP_FUEL : nat := 2.

Definition floor_of (r : InputReceiver) : FloorSnapshot := gate_floor (r_gate r).

Definition rx_holds (r : InputReceiver) (floor : FloorSnapshot) : bool :=
  match r_floor_generation r with
  | None => false
  | Some gen =>
      if negb (shared (r_config r)) then true
      else (peer floor =? slot (r_config r)) && is_inbound_claim floor gen
  end.

Definition suppress_injection (r : InputReceiver) : bool :=
  if r_yielding r then true
  else bool_decide (state (floor_of r) = Yielding)
       || (shared (r_config r) && negb (rx_holds r (floor_of r))).

Definition owns_native (r : InputReceiver) : bool :=
  negb (shared (r_config r)) || rx_holds r (floor_of r).

Definition may_release (r : InputReceiver) : bool :=
  negb (shared (r_config r)) || rx_holds r (floor_of r)
  || negb (bool_decide (floor_owner (state (floor_of r)) = Some Inbound)).

Definition release_floor (r : InputReceiver) : InputReceiver :=
  let r := match r_floor_generation r with
           | Some gen =>
               with_gate (with_floor_generation r None)
                 (with_floor (r_gate r) (release_inbound LOOP_FUEL (floor_of r) gen (floor_of r)))
           | None => r
           end in
  with_yielding r false.

(** One turn of [admit_activation]'s loop; [None] goes round again. *)
Definition admit_turn (r : InputReceiver) : InputReceiver * option (result DeclineReason ()) :=
  let floor := floor_of r in
  let c := r_config r in
  let take :=
    let '(f, claimed) :=
      if shared c then floor_claim floor floor Receiving (slot c)
      else floor_transition floor floor Receiving in
    let r := with_gate r (with_floor (r_gate r) f) in
    match claimed with
    | Ok receiving =>
        (with_gate (with_floor_generation r (Some (generation receiving)))
           (open_injection (r_gate r) (generation receiving)), Some (Ok ()))
    | Err current =>
        if shared c && bool_decide (current = floor) then (r, Some (Err Busy)) else (r, None)
    end in
  match state floor with
  | Free => take
  | Requesting =>
      if shared c && negb (peer floor =? slot c) then (r, Some (Err Busy))
      else if negb (local_lower c) then take
      else (r, Some (Err Contended))
  | Sending | Returning => (r, Some (Err Busy))
  | Receiving | Yielding =>
      if rx_holds r floor then (r, Some (Ok ())) else (r, Some (Err Busy))
  end.

(** [admit_activation]; out of fuel, which never happens, it declines. *)
Fixpoint admit_loop (fuel : nat) (r : InputReceiver) : InputReceiver * result DeclineReason () :=
  match fuel with
  | O => (r, Err Busy)
  | S fuel => match admit_turn r with
              | (r, Some o) => (r, o)
              | (r, None) => admit_loop fuel r
              end
  end.
Definition claim_floor (r : InputReceiver) : InputReceiver * result DeclineReason () :=
  if negb (enabled (r_config r)) then (r, Err Disabled) else admit_loop LOOP_FUEL r.

Definition translation (r : InputReceiver) : option Direction :=
  if negb (r_control_as_command r) then None
  else direction_between (source_platform (r_config r)) (local_platform (r_config r)).

Definition require_active (r : InputReceiver) : result ReceiverFailure (DisplayId * Point) :=
  ok_or FNotActive (r_active r).

(** [modifiers]: bit [i] is the key [0xE0 + i]. *)
Definition rx_modifiers (r : InputReceiver) : ModifierState :=
  foldl (fun mask i => if bool_decide (0xE0 + i ∈ r_keys r) then Z.lor mask (1 ≪ i) else mask)
    0 (seqZ 0 8).

(** [DisplayDescription::logical_bounds]. *)
Definition logical_bounds (d : DisplayDescription) : LogicalRect :=
  mkRect (logical_origin d) (mkSize (px (logical_size d)) (py (logical_size d))).

Definition check_point (c : ReceiverConfig) (id : DisplayId) (p : Point) : result ReceiverFailure () :=
  match list_find (fun d => display_id d = id) (displays c) with
  | None => Err FWrongDisplay
  | Some (_, d) => if negb (contains_half_open (logical_bounds d) p) then Err FInvalidPoint else Ok ()
  end.

(** [unchanged_at]: the gesture's kind at another phase, changing nothing. *)
Definition unchanged_at (g : PointerGesture) (phase : GesturePhase) : PointerGesture :=
  match g with
  | Magnify _ _ => Magnify phase f64_zero
  | Rotate _ _ => Rotate phase f64_zero
  | discrete => discrete
  end.

Definition MAX_SCROLL : f64 := 0x412E848000000000. (* 1_000_000.0 *)
Definition scroll_ok (h v : f64) : bool :=
  f64_is_finite h && f64_is_finite v
  && negb (f64_ltb MAX_SCROLL (f64_abs h)) && negb (f64_ltb MAX_SCROLL (f64_abs v)).

Section Destination.
Context (outcome : list (DestinationAction * bool) -> DestinationAction -> bool).

(** [InputDestination::apply], recorded. *)
Definition apply (r : InputReceiver) (a : DestinationAction) : InputReceiver * result () () :=
  let ok := outcome (r_calls r) a in
  (with_calls r (r_calls r ++ [(a, ok)]), if ok then Ok () else Err ()).

Definition deliver (r : InputReceiver) (a : DestinationAction)
  : InputReceiver * result ReceiverFailure () :=
  let '(r, o) := apply r a in (r, map_err (fun _ => FNativeDelivery) o).

Fixpoint deliver_keys (r : InputReceiver) (plan : list KeyStep)
  : InputReceiver * result ReceiverFailure () :=
  match plan with
  | [] => (r, Ok ())
  | s :: plan =>
      let? (r, _) := deliver r (ActKey (step_usage s) (step_pressed s)) in deliver_keys r plan
  end.

Definition release_injected (r : InputReceiver) : InputReceiver * result () () :=
  let r := with_keyboard (with_open_gestures r (false, false)) (t_clear (r_keyboard r)) in
  let '(r, ended) := apply r EndGestures in
  let '(r, released) := apply r ReleaseAll in
  (r, match released with Ok _ => ended | Err e => Err e end).

(** Every record of what the source holds, forgotten. *)
Definition forget_pressed (r : InputReceiver) : InputReceiver :=
  with_buttons (with_keyboard (with_keys r ∅) (t_clear (r_keyboard r))) ∅.

Definition retry_cleanup (r : InputReceiver) : InputReceiver :=
  if negb (r_cleanup_pending r) then r
  else
    let native := may_release r in
    let '(r, o) := if native then release_injected r else (r, Ok ()) in
    if native && negb (is_ok o) then r
    else
      let r := forget_pressed (with_open_gestures r (false, false)) in
      let r := with_cleanup_pending r false in
      let r := if native then with_gate r (note_injected_released (r_gate r)) else r in
      release_floor r.

(** [stop]; the failure it returns is the first one. *)
Definition stop (r : InputReceiver) (failure : ReceiverFailure) : InputReceiver * ReceiverFailure :=
  let failure := default failure (r_failure r) in
  let r := with_failure r (Some failure) in
  let r := if owns_native r then with_gate r (open_injection (r_gate r) 0) else r in
  let r := with_cleanup_pending (with_pending_move (with_active r None) None) true in
  (retry_cleanup r, failure).

Definition stop_err {A} (r : InputReceiver) (failure : ReceiverFailure)
  : InputReceiver * result ReceiverFailure A :=
  let '(r, e) := stop r failure in (r, Err e).

Definition yield_to_local (r : InputReceiver) (gen : Z)
  : InputReceiver * result ReceiverFailure (option Message) :=
  let floor := floor_of r in
  if negb (rx_holds r floor) || negb (bool_decide (state floor = Yielding))
     || negb (generation floor =? gen)
  then (r, Ok None)
  else
    let r := with_pending_move (with_yielding (with_floor_generation r (Some gen)) true) None in
    let '(r, o) := release_injected r in
    if negb (is_ok o) then stop_err r FNativeDelivery
    else (with_gate r (note_injected_released (r_gate r)), Ok (Some MsgTakeBack)).

Definition take_back (r : InputReceiver) : InputReceiver * result ReceiverFailure (option Message) :=
  if shared (r_config r) then (r, Ok None)
  else
    let '(g, t) := take_triggered (r_gate r) in
    let r := with_gate r g in
    match t with
    | None => (r, Ok None)
    | Some gen => yield_to_local r gen
    end.

Definition apply_pending_move (r : InputReceiver) : InputReceiver * result ReceiverFailure () :=
  let r := if suppress_injection r then with_pending_move r None else r in
  match r_pending_move r with
  | Some point =>
      let? (r, _) := deliver r (MoveTo point) in (with_pending_move r None, Ok ())
  | None => (r, Ok ())
  end.

Definition flush (r : InputReceiver) : InputReceiver * result ReceiverFailure () :=
  match r_failure r with
  | Some failure => (r, Err failure)
  | None => match apply_pending_move r with
            | (r, Ok _) => (r, Ok ())
            | (r, Err failure) => stop_err r failure
            end
  end.

(** [hold]. *)
Definition rx_hold (r : InputReceiver) (now : Z) : InputReceiver * result ReceiverFailure () :=
  let r := if owns_native r then with_gate r (open_injection (r_gate r) 0) else r in
  let r := with_cleanup_pending (with_pending_move (with_active r None) None) true in
  let r := retry_cleanup r in
  let '(h, o) := hold (r_health r) now in
  let r := with_health r h in
  match o with
  | Err e => stop_err r (FHealth e)
  | Ok _ =>
      (with_holds (with_held_since r (Some now)) (Z.min (r_holds r + 1) u32_max), Ok ())
  end.

Definition rx_resume (r : InputReceiver) (now : Z) : InputReceiver * result ReceiverFailure () :=
  let r := match r_held_since r with
           | Some since =>
               with_held_max (with_held_since r None) (Z.max (r_held_max r) (saturating_sub now since))
           | None => r
           end in
  let '(h, o) := resume (r_health r) now in (with_health r h, map_err FHealth o).

Definition tick (r : InputReceiver) (now : Z)
  : InputReceiver * result ReceiverFailure (option Message) :=
  match r_failure r, r_held_since r with
  | Some failure, _ => (retry_cleanup r, Err failure)
  | None, Some since =>
      if HOLD_LIMIT <=? saturating_sub now since then stop_err r (FHealth DeadlineExpired)
      else
        let r := retry_cleanup r in
        let '(h, o) := poll_while_held (r_health r) now in
        let r := with_health r h in
        match o with
        | Ok token => (r, Ok (MsgPing <$> token))
        | Err e => stop_err r (FHealth e)
        end
  | None, None =>
      let '(r, o) :=
        if (fst (r_open_gestures r) || snd (r_open_gestures r))
           && (TOUCH_STREAM_IDLE <=? saturating_sub now (r_gesture_seen r))
        then
          let r := with_open_gestures r (false, false) in
          if may_release r then deliver r EndGestures else (r, Ok ())
        else (r, Ok ()) in
      match o with
      | Err failure => stop_err r failure
      | Ok _ =>
          let '(h, o) := poll (r_health r) now in
          let r := with_health r h in
          match o with
          | Ok token => (r, Ok (MsgPing <$> token))
          | Err DeadlineExpired => let? (r, _) := rx_hold r now in (r, Ok None)
          | Err e => stop_err r (FHealth e)
          end
      end
  end.

(** [open_gestures[slot]]. *)
Definition gesture_open (r : InputReceiver) (rotate : bool) : bool :=
  if rotate then snd (r_open_gestures r) else fst (r_open_gestures r).
Definition set_gesture_open (r : InputReceiver) (rotate b : bool) : InputReceiver :=
  with_open_gestures r
    (if rotate then (fst (r_open_gestures r), b) else (b, snd (r_open_gestures r))).
Definition count_repair (r : InputReceiver) : InputReceiver :=
  with_gesture_normalizations r (Z.min (r_gesture_normalizations r + 1) u32_max).

(** The phase delivered before a gesture to keep its kind's phases in order. *)
Definition repair (open : bool) (phase : GesturePhase) : option GesturePhase :=
  match phase with
  | Began => if open then Some Ended else None
  | Changed => if open then None else Some Began
  | Ended | Cancelled => None
  end.

Definition apply_continuous (r : InputReceiver) (g : PointerGesture) (rotate : bool)
    (phase : GesturePhase) : InputReceiver * result ReceiverFailure () :=
  let open := gesture_open r rotate in
  if phase_is_terminal phase && negb open then (count_repair r, Ok ())
  else
    let? (r, _) := match repair open phase with
                   | Some boundary =>
                       deliver (count_repair r) (ActGesture (unchanged_at g boundary))
                   | None => (r, Ok ())
                   end in
    deliver (set_gesture_open r rotate (negb (phase_is_terminal phase))) (ActGesture g).

Definition apply_gesture (r : InputReceiver) (g : PointerGesture)
  : InputReceiver * result ReceiverFailure () :=
  match g with
  | Magnify phase _ => apply_continuous r g false phase
  | Rotate phase _ => apply_continuous r g true phase
  | SmartMagnify | ForceClick => deliver r (ActGesture g)
  end.

Definition quiet (m : InputReceiver * result ReceiverFailure ())
  : InputReceiver * result ReceiverFailure (option Message) :=
  let? (r, _) := m in (r, Ok None).

Definition lift_err {A B} (r : InputReceiver) (o : result ReceiverFailure A)
    (f : A -> InputReceiver * result ReceiverFailure B) : InputReceiver * result ReceiverFailure B :=
  match o with Ok a => f a | Err e => (r, Err e) end.

(** The arms of [receive_active]'s last [match]. *)

(** The end of a release that succeeded natively, or that is not this
    receiver's to make. *)
Definition finish_release (r : InputReceiver) (native held : bool) (now : Z)
  : InputReceiver * result ReceiverFailure (option Message) :=
  let r := if native then with_gate r (note_injected_released (r_gate r)) else r in
  let r := forget_pressed (release_floor r) in
  let r := with_pending_move (with_active r None) None in
  let? (r, _) := if held then rx_resume (with_cleanup_pending r false) now else (r, Ok ()) in
  (r, Ok (Some MsgReleaseAck)).

Definition on_release_all (r : InputReceiver) (held : bool) (now : Z)
  : InputReceiver * result ReceiverFailure (option Message) :=
  let r := if owns_native r && bool_decide (is_Some (r_floor_generation r))
           then with_gate r (open_injection (r_gate r) 0) else r in
  let native := may_release r in
  let '(r, o) := if native then release_injected r
                 else (with_open_gestures r (false, false), Ok ()) in
  if negb (is_ok o) then (r, Err FNativeDelivery) else finish_release r native held now.

Definition on_key (r : InputReceiver) (usage : HidUsage) (is_down repeat : bool) (mods : ModifierState)
  : InputReceiver * result ReceiverFailure (option Message) :=
  lift_err r (require_active r) (fun _ =>
    if negb (usage_is_valid usage) then (r, Err FInvalidPressedState)
    else
      let was := bool_decide (usage ∈ r_keys r) in
      if (is_down && negb (Bool.eqb repeat was)) || (negb is_down && (negb was || repeat))
      then (r, Err FInvalidPressedState)
      else
        let r := with_keys r (if is_down then {[usage]} ∪ r_keys r else r_keys r ∖ {[usage]}) in
        if negb (rx_modifiers r =? mods) then (r, Err FInvalidPressedState)
        else if suppress_injection r then (r, Ok None)
        else
          let '(k, plan) := t_key (r_keyboard r) usage is_down (translation r) in
          quiet (deliver_keys (with_keyboard r k) plan)).

Definition on_button (r : InputReceiver) (button : MouseButton) (is_down : bool) (click_count : Z)
  : InputReceiver * result ReceiverFailure (option Message) :=
  lift_err r (require_active r) (fun _ =>
    let index := button_index button in
    if Bool.eqb (bool_decide (index ∈ r_buttons r)) is_down then (r, Err FInvalidPressedState)
    else
      let? (r, _) :=
        if suppress_injection r then (r, Ok ())
        else
          let? (r, _) :=
            if is_down then
              let '(k, plan) := t_click (r_keyboard r) (translation r) in
              deliver_keys (with_keyboard r k) plan
            else (r, Ok ()) in
          deliver r (ActButton button is_down click_count) in
      (with_buttons r (if is_down then {[index]} ∪ r_buttons r else r_buttons r ∖ {[index]}),
       Ok None)).

Definition on_scroll (r : InputReceiver) (h v : f64)
  : InputReceiver * result ReceiverFailure (option Message) :=
  lift_err r (require_active r) (fun _ =>
    if negb (scroll_ok h v) then (r, Err FInvalidPoint)
    else if suppress_injection r then (r, Ok None)
    else quiet (deliver r (ActScroll h v))).

Definition on_gesture (r : InputReceiver) (g : PointerGesture) (now : Z)
  : InputReceiver * result ReceiverFailure (option Message) :=
  lift_err r (require_active r) (fun _ =>
    match validate_gesture g with
    | Err _ => (r, Err FInvalidGesture)
    | Ok _ =>
        let r := with_gesture_seen r now in
        if suppress_injection r then (r, Ok None) else quiet (apply_gesture r g)
    end).

Definition on_system_gesture (r : InputReceiver) (g : SystemGesture)
  : InputReceiver * result ReceiverFailure (option Message) :=
  lift_err r (require_active r) (fun _ =>
    if suppress_injection r then (r, Ok None) else quiet (deliver r (ActSystem g))).

Definition on_motion (r : InputReceiver) (m : Motion)
  : InputReceiver * result ReceiverFailure (option Message) :=
  lift_err r (require_active r) (fun '(id, previous) =>
    let next := match m with
                | Absolute p => p
                | Relative d => mkPoint (f64_add (px previous) (px d)) (f64_add (py previous) (py d))
                end in
    lift_err r (check_point (r_config r) id next) (fun _ =>
      (with_active (with_pending_move r (Some next)) (Some (id, next)), Ok None))).

Definition on_message (r : InputReceiver) (m : Message) (held : bool) (now : Z)
  : InputReceiver * result ReceiverFailure (option Message) :=
  match m with
  | MsgReleaseAll => on_release_all r held now
  | MsgDisconnect _ | MsgError _ => (r, Err FPeerStopped)
  | MsgKey usage is_down repeat mods =>
      if held then (r, Ok None) else on_key r usage is_down repeat mods
  | MsgButton button is_down click_count =>
      if held then (r, Ok None) else on_button r button is_down click_count
  | MsgScroll h v => if held then (r, Ok None) else on_scroll r h v
  | MsgMotion mo => if held then (r, Ok None) else on_motion r mo
  | MsgGesture g => if held then (r, Ok None) else on_gesture r g now
  | MsgSystemGesture g => if held then (r, Ok None) else on_system_gesture r g
  | _ => (r, Err FUnexpectedMessage)
  end.

(** A heartbeat: a stale one is dropped, a challenge is answered unless held. *)
Definition on_heartbeat (r : InputReceiver) (f : Frame) (held : bool) (now : Z)
  : InputReceiver * result ReceiverFailure (option Message) :=
  let '(g, o) := accept_heartbeat (r_control_sequences r) f in
  let r := with_control_sequences r g in
  if negb (is_ok o) then (r, Ok None)
  else match message f with
       | MsgPing token => (r, Ok (if held then None else Some (MsgPong token)))
       | MsgPong token =>
           if held then
             let '(h, o) := receive_pong_while_held (r_health r) token now in
             let? (r, _) := (with_health r h, map_err FHealth o) in (r, Ok None)
           else
             let '(h, o) := receive_pong (r_health r) token now in
             let? (r, _) := (with_health r h, map_err FHealth o) in (r, Ok None)
       | _ => (r, Ok None)
       end.

Definition on_activate (r : InputReceiver) (f : Frame) (id : DisplayId) (position : Point)
    (control_as_command held : bool) : InputReceiver * result ReceiverFailure (option Message) :=
  if negb (bool_decide (checked_add_u64 (r_epoch r) 1 = Some (epoch f))) then (r, Err FInvalidEpoch)
  else
    lift_err r (check_point (r_config r) id position) (fun _ =>
      let '(g, o) := activate_epoch (r_sequences r) (epoch f) in
      let? (r, _) := (with_sequences r g, map_err (fun _ => FInvalidEpoch) o) in
      let '(g, o) := accept (r_sequences r) f in
      let? (r, _) := (with_sequences r g, map_err (fun _ => FInvalidSequence) o) in
      let r := with_epoch (with_control_as_command r control_as_command) (epoch f) in
      if held then (r, Ok None)
      else
        let '(r, admitted) := claim_floor r in
        match admitted with
        | Err reason => (r, Ok (Some (MsgActivationDeclined id reason)))
        | Ok _ =>
            let r := with_pending_move r None in
            let? (r, _) := if suppress_injection r then (r, Ok ()) else deliver r (MoveTo position) in
            (with_active r (Some (id, position)), Ok (Some (MsgActivationAck id)))
        end).

(** Every other frame: its epoch and sequence, then its message. *)
Definition on_sequenced (r : InputReceiver) (f : Frame) (held : bool) (now : Z)
  : InputReceiver * result ReceiverFailure (option Message) :=
  let datagram := bool_decide (delivery (message f) = MotionDatagram) in
  if negb (epoch f =? r_epoch r) then
    if datagram && (epoch f <? r_epoch r) then (r, Ok None) else (r, Err FInvalidEpoch)
  else
    let '(g, o) := accept (r_sequences r) f in
    let r := with_sequences r g in
    match o with
    | Err StaleOrReplay => if datagram then (r, Ok None) else (r, Err FInvalidSequence)
    | Err _ => (r, Err FInvalidSequence)
    | Ok _ =>
        let is_motion := match message f with MsgMotion _ => true | _ => false end in
        let? (r, _) := if negb held && negb is_motion then apply_pending_move r else (r, Ok ()) in
        on_message r (message f) held now
    end.

Definition on_frame (r : InputReceiver) (f : Frame) (held : bool) (now : Z)
  : InputReceiver * result ReceiverFailure (option Message) :=
  let '(l, o) := allow_at (r_limiter r) (millis_u64 now) in
  let? (r, _) := (with_limiter r l, map_err (fun _ => FRateLimited) o) in
  if is_heartbeat (message f) then on_heartbeat r f held now
  else match message f with
       | MsgActivateDisplayAt id position cac => on_activate r f id position cac held
       | _ => on_sequenced r f held now
       end.

Definition receive_active (r : InputReceiver) (f : Frame) (now : Z)
  : InputReceiver * result ReceiverFailure (option Message) :=
  if bool_decide (is_Some (r_held_since r)) then on_frame r f true now
  else
    let '(h, o) := check (r_health r) now in
    let r := with_health r h in
    match o with
    | Ok _ => on_frame r f false now
    | Err DeadlineExpired => let? (r, _) := rx_hold r now in on_frame r f true now
    | Err e => (r, Err (FHealth e))
    end.

Definition receive (r : InputReceiver) (f : Frame) (now : Z)
  : InputReceiver * result ReceiverFailure (option Message) :=
  match r_failure r with
  | Some failure => (r, Err failure)
  | None => match receive_active r f now with
            | (r, Ok response) => (r, Ok response)
            | (r, Err failure) => stop_err r failure
            end
  end.
End Destination.
