(* ===== verification/ReceiverSafety.v ===== *)
(** * What a receiver leaves behind (monhop-transport/src/session_receiver.rs)

    Theorems about whole histories of a pairwise [Receiver]: what the
    destination was asked to hold is always accounted for, everything is
    released when the receiver stops, holds or acknowledges a release, nothing
    is injected without an activation, and gestures keep their phases in
    order. *)

From stdpp Require Import gmap.
From S2P Require Import Prelude F64 Types Geometry Floor TakeBack Injection Messages Sequence.
From S2P Require Import Chord Translator GestureLatch SessionHealth Receiver.

(** ** What the destination was asked to hold

    A failed press counts as made and a failed release as not made. *)

Definition phase_next (open : bool) (p : GesturePhase) : option bool :=
  match p with
  | Began => if open then None else Some true
  | Changed => if open then Some true else None
  | Ended | Cancelled => if open then Some false else None
  end.

(** Began, Changed..., one end, for magnify and for rotate. *)
Definition phase_step (a : DestinationAction) (st : bool * bool) : option (bool * bool) :=
  match a with
  | ActGesture (Magnify p _) => b ← phase_next (fst st) p; Some (b, snd st)
  | ActGesture (Rotate p _) => b ← phase_next (snd st) p; Some (fst st, b)
  | EndGestures | ReleaseAll => Some (false, false)
  | _ => Some st
  end.

Record View := mkView {
  v_settled : bool; v_phases : option (bool * bool); v_keys : gset Z; v_buttons : gset Z }.

Definition view_step (v : View) (call : DestinationAction * bool) : View :=
  let '(a, ok) := call in
  mkView
    (match a with ReleaseAll => ok || v_settled v | EndGestures => v_settled v | _ => false end)
    (v_phases v ≫= phase_step a)
    (match a with
     | ActKey u p => apply_key (v_keys v) (mkStep u p)
     | ReleaseAll => if ok then ∅ else v_keys v
     | _ => v_keys v
     end)
    (match a with
     | ActButton b true _ => {[button_index b]} ∪ v_buttons v
     | ActButton b false _ => v_buttons v ∖ {[button_index b]}
     | ReleaseAll => if ok then ∅ else v_buttons v
     | _ => v_buttons v
     end).
Definition view (calls : list (DestinationAction * bool)) : View :=
  foldl view_step (mkView true (Some (false, false)) ∅ ∅) calls.

(** ** Histories

    The calls of a session, and the gate changed by the other side of the
    computer between them. *)

Inductive ReceiverOp :=
| RReceive (f : Frame) (now : Z) | RTick (now : Z) | RFlush | RTakeBack | RGate (g : Gate FloorSnapshot).

Section Receiver.
Context (outcome : list (DestinationAction * bool) -> DestinationAction -> bool).

Definition receiver_op (r : InputReceiver) (op : ReceiverOp)
  : InputReceiver * result ReceiverFailure (option Message) :=
  match op with
  | RReceive f now => receive outcome r f now
  | RTick now => tick outcome r now
  | RFlush => let? (r, _) := flush outcome r in (r, Ok None)
  | RTakeBack => take_back outcome r
  | RGate g => (with_gate r g, Ok None)
  end.
Definition receiver_run (r : InputReceiver) (ops : list ReceiverOp) : InputReceiver :=
  foldl (fun r op => fst (receiver_op r op)) r ops.

Abbreviation vw r := (view (r_calls r)).

(** What holds on every path, errors included. *)
Definition sane (r : InputReceiver) : Prop :=
  shared (r_config r) = false /\ is_Some (v_phases (vw r)).

(** What the keyboard and the buttons record.  While injection is suppressed the
    source may release what the destination still holds: the release that ends the
    suppression lifts it. *)
Definition synced (r : InputReceiver) : Prop :=
  exists down, tracks (r_keyboard r) down /\ v_keys (vw r) = t_targets (r_keyboard r)
    /\ (suppress_injection r = false -> down ⊆ r_keys r /\ v_buttons (vw r) ⊆ r_buttons r).

Definition boundary (r : InputReceiver) : Prop :=
  shared (r_config r) = false
  /\ (r_active r = None -> r_pending_move r = None)
  /\ (r_active r = None -> r_cleanup_pending r = false -> v_settled (vw r) = true)
  /\ (r_failure r <> None \/ r_held_since r <> None \/ r_cleanup_pending r = true -> r_active r = None)
  /\ v_phases (vw r) = Some (r_open_gestures r)
  /\ (r_cleanup_pending r = false -> synced r)
  /\ (r_cleanup_pending r = true -> r_failure r <> None \/ r_held_since r <> None).

Definition keeps {A} (m : InputReceiver * result ReceiverFailure A) : Prop :=
  match m with (r, Ok _) => boundary r | (r, Err _) => sane r end.

Lemma boundary_sane r : boundary r -> sane r.
Proof. intros (H1 & _ & _ & _ & H5 & _). split; [done|]. rewrite H5. eauto. Qed.

Lemma keeps_bind {A B} (m : InputReceiver * result ReceiverFailure A)
    (f : InputReceiver -> A -> InputReceiver * result ReceiverFailure B) :
  keeps m -> (forall r a, m = (r, Ok a) -> boundary r -> keeps (f r a)) -> keeps (st_bind m f).
Proof. destruct m as [r [a|e]]; cbn; auto. Qed.

Lemma view_snoc calls c : view (calls ++ [c]) = view_step (view calls) c.
Proof. unfold view. by rewrite foldl_app. Qed.

Lemma apply_spec r a :
  apply outcome r a =
  (with_calls r (r_calls r ++ [(a, outcome (r_calls r) a)]),
   if outcome (r_calls r) a then Ok () else Err ()).
Proof. done. Qed.

Lemma phases_defined v a :
  is_Some (v_phases v) -> (forall g, a <> ActGesture g) -> is_Some (v_phases (view_step v (a, false)))
  /\ is_Some (v_phases (view_step v (a, true))).
Proof. intros [st Hs] Ha. cbn. rewrite Hs. destruct a; cbn; eauto. by destruct (Ha g). Qed.

(** A native release: the gestures are closed, and if it succeeded the
    destination holds nothing. *)
Lemma release_injected_spec r :
  is_Some (v_phases (vw r)) ->
  exists calls o, release_injected outcome r =
    (with_calls (with_keyboard (with_open_gestures r (false, false)) (t_clear (r_keyboard r))) calls, o)
    /\ v_phases (view calls) = Some (false, false)
    /\ (is_ok o = true -> v_settled (view calls) = true /\ v_keys (view calls) = ∅
                          /\ v_buttons (view calls) = ∅).
Proof.
  intros [st Hs]. unfold release_injected. rewrite !apply_spec. cbn [r_calls with_calls with_keyboard with_open_gestures].
  eexists _, _. split; [reflexivity|]. rewrite !view_snoc. set (v := view (r_calls r)) in *.
  cbn [view_step v_phases v_settled v_keys v_buttons]. rewrite Hs. cbn.
  split; [done|]. destruct (outcome _ ReleaseAll); cbn; [done|]. done.
Qed.

Lemma empty_synced r :
  r_keyboard r = default_translator -> v_keys (vw r) = ∅ -> v_buttons (vw r) = ∅ -> synced r.
Proof.
  intros Hk Hv Hb. exists ∅. rewrite Hk, Hv, Hb. destruct default_ok as [Ht He].
  split_and!; [exact Ht|exact He|]. set_solver.
Qed.

Lemma t_clear_default tr : t_clear tr = default_translator.
Proof. done. Qed.

Lemma rx_release_floor_fields r :
  exists g fg, release_floor r = with_yielding (with_gate (with_floor_generation r fg) g) false.
Proof.
  unfold release_floor. destruct (r_floor_generation r) as [gen|] eqn:E; [by eexists _, _|].
  exists (r_gate r), None. f_equal. destruct r; cbn in *; by subst.
Qed.

(** Everything released: the state after a native release that succeeded. *)
Definition all_released (r : InputReceiver) : Prop :=
  shared (r_config r) = false /\ r_active r = None /\ r_pending_move r = None
  /\ v_settled (vw r) = true /\ v_phases (vw r) = Some (r_open_gestures r)
  /\ r_keyboard r = default_translator /\ v_keys (vw r) = ∅ /\ v_buttons (vw r) = ∅
  /\ (r_cleanup_pending r = true -> r_failure r <> None \/ r_held_since r <> None).

Lemma all_released_boundary r : all_released r -> boundary r.
Proof.
  intros (H1 & H2 & H3 & H4 & H5 & H6 & H7 & H8 & H9). unfold boundary. split_and!; try done.
  intros _. by apply empty_synced.
Qed.

Lemma release_floor_released r : all_released r -> all_released (release_floor r).
Proof. intros H. destruct (rx_release_floor_fields r) as (g & fg & ->). exact H. Qed.

Lemma may_release_pairwise r : shared (r_config r) = false -> may_release r = true.
Proof. unfold may_release. by intros ->. Qed.

(** A cleanup leaves nothing but the reason it was asked for. *)
Lemma cleanup_held r v :
  sane r -> r_active r = None -> r_pending_move r = None -> r_cleanup_pending r = true ->
  r_failure r <> None \/ v <> None ->
  boundary (with_held_since (retry_cleanup outcome r) v).
Proof.
  intros [Hs Hp] Ha Hm Hc Hwhy. unfold retry_cleanup. rewrite Hc, (may_release_pairwise r Hs). cbn [negb].
  destruct (release_injected_spec r Hp) as (calls & o & -> & Hph & Hok).
  destruct (is_ok o) eqn:Eo; cbn [andb negb].
  - destruct (Hok eq_refl) as (Hset & Hk & Hb).
    match goal with |- context [release_floor ?x] => destruct (rx_release_floor_fields x) as (g & fg & ->) end.
    apply all_released_boundary. unfold forget_pressed, all_released. rx.
    rewrite !t_clear_default. by split_and!.
  - unfold boundary. rx. split_and!; try done; congruence.
Qed.

Lemma with_held_since_id r : with_held_since r (r_held_since r) = r.
Proof. by destruct r. Qed.

Lemma retry_cleanup_why r :
  r_held_since (retry_cleanup outcome r) = r_held_since r
  /\ r_failure (retry_cleanup outcome r) = r_failure r.
Proof.
  unfold retry_cleanup, release_injected. rewrite !apply_spec.
  destruct (negb (r_cleanup_pending r)); [done|].
  destruct (may_release r); cbn [andb negb is_ok].
  - case_match; [done|].
    match goal with |- context [release_floor ?x] => destruct (rx_release_floor_fields x) as (g & fg & ->) end.
    done.
  - match goal with |- context [release_floor ?x] => destruct (rx_release_floor_fields x) as (g & fg & ->) end.
    done.
Qed.

Lemma cleanup_boundary r :
  sane r -> r_active r = None -> r_pending_move r = None -> r_cleanup_pending r = true ->
  r_failure r <> None \/ r_held_since r <> None ->
  boundary (retry_cleanup outcome r).
Proof.
  intros Hs Ha Hm Hc Hw. rewrite <- (with_held_since_id (retry_cleanup outcome r)).
  destruct (retry_cleanup_why r) as [-> _].
  by apply cleanup_held.
Qed.

Lemma retry_cleanup_boundary r : boundary r -> boundary (retry_cleanup outcome r).
Proof.
  intros H. destruct (r_cleanup_pending r) eqn:Ec; [|unfold retry_cleanup; by rewrite Ec].
  pose proof H as (_ & Hm & _ & Ha & _ & _ & Hw). specialize (Ha ltac:(auto)).
  apply cleanup_boundary; auto using boundary_sane.
Qed.

Lemma stop_boundary r e : sane r -> boundary (fst (stop outcome r e)).
Proof.
  intros Hs. unfold stop. cbn [fst]. apply cleanup_boundary; try (by destruct (owns_native _)).
  left. by destruct (owns_native _).
Qed.

Lemma stop_err_boundary {A} r e :
  sane r -> boundary (fst (stop_err outcome r e : InputReceiver * result ReceiverFailure A)).
Proof.
  intros Hs. unfold stop_err. pose proof (stop_boundary r e Hs). by destruct (stop outcome r e).
Qed.

(** ** The operations *)

Lemma deliver_spec r a :
  deliver outcome r a =
  (with_calls r (r_calls r ++ [(a, outcome (r_calls r) a)]),
   if outcome (r_calls r) a then Ok () else Err FNativeDelivery).
Proof. unfold deliver. rewrite apply_spec. by destruct (outcome _ a). Qed.

(** An action that presses nothing, while the receiver is active. *)
Lemma deliver_plain r a :
  boundary r -> r_active r <> None ->
  match a with MoveTo _ | ActScroll _ _ | ActSystem _ | ActGesture (SmartMagnify | ForceClick) => True
             | _ => False end ->
  keeps (deliver outcome r a).
Proof.
  intros (H1 & H2 & H3 & H4 & H5 & H6 & H7) Hact Ha. rewrite deliver_spec.
  assert (forall ok, boundary (with_calls r (r_calls r ++ [(a, ok)]))) as Hb.
  { intros ok. unfold boundary, synced. rx. rewrite !view_snoc. cbn [view_step v_settled v_phases v_keys v_buttons]. rewrite H5.
    split_and!; try done.
    - destruct a as [| | | |[]| | |]; done.
    - intros Hc. destruct (H6 Hc) as (down & ? & ? & ?). exists down.
      destruct a as [| | | |[]| | |]; done. }
  destruct (outcome _ a); cbn; [done|]. apply boundary_sane, Hb.
Qed.

(** The key steps of a plan, delivered in order until one fails. *)
Definition key_calls (plan : list KeyStep) : list (DestinationAction * bool) :=
  (fun s => (ActKey (step_usage s) (step_pressed s), true)) <$> plan.

Lemma deliver_keys_spec r plan :
  exists calls o, deliver_keys outcome r plan = (with_calls r (r_calls r ++ calls), o)
    /\ (is_ok o = true -> calls = key_calls plan)
    /\ Forall (fun c => exists u p, fst c = ActKey u p) calls.
Proof.
  revert r. induction plan as [|s plan IH]; intros r; cbn [deliver_keys].
  { exists [], (Ok ()). rewrite app_nil_r. split_and!; [by destruct r|done|constructor]. }
  rewrite deliver_spec. destruct (outcome (r_calls r) _) eqn:Eo; cbn [st_bind].
  - destruct (IH (with_calls r (r_calls r ++ [(ActKey (step_usage s) (step_pressed s), true)])))
      as (calls & o & -> & Hok & Hf). eexists (_ :: calls), o. split_and!.
    + cbn. by rewrite <- app_assoc.
    + intros H. by rewrite (Hok H).
    + constructor; [by eexists _, _|done].
  - eexists [_], _. split_and!; [done|done|]. constructor; [by eexists _, _|constructor].
Qed.

Lemma view_keys v calls :
  Forall (fun c => exists u p, fst c = ActKey u p) calls ->
  let v' := foldl view_step v calls in
  v_phases v' = v_phases v /\ v_buttons v' = v_buttons v.
Proof.
  intros H. revert v. induction H as [|[a ok] calls (u & p & Ha) _ IH]; intros v; cbn [foldl]; [done|].
  cbn in Ha. subst a. destruct (IH (view_step v (ActKey u p, ok))) as [-> ->]. cbn.
  split; [|done]. by destruct (v_phases v).
Qed.

Lemma view_key_calls v plan : v_keys (foldl view_step v (key_calls plan)) = apply_keys (v_keys v) plan.
Proof.
  revert v. induction plan as [|[u p] plan IH]; intros v; [done|].
  unfold key_calls. rewrite fmap_cons. cbn [foldl]. unfold key_calls in IH. by rewrite IH.
Qed.

(** A plan that moves the keyboard from one state to the next. *)
Lemma plan_keeps r k plan keys down' :
  boundary r -> r_active r <> None -> r_cleanup_pending r = false -> suppress_injection r = false ->
  tracks k down' -> down' ⊆ keys ->
  apply_keys (t_targets (r_keyboard r)) plan = t_targets k ->
  keeps (deliver_keys outcome (with_keyboard (with_keys r keys) k) plan).
Proof.
  intros (H1 & H2 & H3 & H4 & H5 & H6 & H7) Hact Hc Hs Ht' Hd' Hplan.
  destruct (deliver_keys_spec (with_keyboard (with_keys r keys) k) plan) as (calls & o & -> & Hok & Hf).
  destruct (H6 Hc) as (down & Ht & Hk & Hb). destruct (Hb Hs) as [_ Hbb].
  assert (view (r_calls r ++ calls) = foldl view_step (vw r) calls) as Hv by (unfold view; by rewrite foldl_app).
  destruct (view_keys (vw r) calls Hf) as [Hp Hbt].
  destruct o as [[]|e].
  - unfold keeps, boundary, synced. rx. rewrite Hv, Hp, Hbt, (Hok eq_refl), view_key_calls.
    split_and!; try done. intros _. exists down'. split_and!; try done. by rewrite Hk, Hplan.
  - unfold keeps, sane. rx. rewrite Hv, Hp, H5. eauto.
Qed.

Lemma active_not_pending r : boundary r -> r_active r <> None -> r_cleanup_pending r = false.
Proof.
  intros (_ & _ & _ & H4 & _) Ha. destruct (r_cleanup_pending r); [|done].
  destruct Ha. apply H4. auto.
Qed.

Lemma keeps_quiet m : keeps m -> keeps (quiet m).
Proof. by destruct m as [r [[]|e]]. Qed.

Lemma keeps_lift {A B} r (o : result ReceiverFailure A)
    (f : A -> InputReceiver * result ReceiverFailure B) :
  boundary r -> (forall a, o = Ok a -> keeps (f a)) -> keeps (lift_err r o f).
Proof. destruct o; cbn; auto using boundary_sane. Qed.

Lemma require_active_Ok r a : require_active r = Ok a -> r_active r = Some a.
Proof. unfold require_active. by destruct (r_active r); intros [= ->]. Qed.

Lemma on_key_keeps r usage is_down repeat mods :
  boundary r -> keeps (on_key outcome r usage is_down repeat mods).
Proof.
  intros HB. unfold on_key. apply keeps_lift; [done|]. intros a Ha%require_active_Ok.
  assert (r_active r <> None) as Hact by congruence.
  pose proof (active_not_pending r HB Hact) as Hc.
  pose proof HB as (H1 & H2 & H3 & H4 & H5 & H6 & H7).
  destruct (usage_is_valid usage) eqn:Hv; cbn [negb]; [|by apply boundary_sane].
  case_match; [by apply boundary_sane|].
  set (keys := if is_down then _ else _).
  assert (boundary (with_keys r keys) \/ suppress_injection r = false) as Hcase.
  { destruct (suppress_injection r) eqn:Es; [left|by right].
    unfold boundary. rx. split_and!; try done. intros _. destruct (H6 Hc) as (down & ? & ? & _).
    exists down. split_and!; try done. intros E. change (suppress_injection r = false) in E. congruence. }
  change (suppress_injection (with_keys r keys)) with (suppress_injection r).
  destruct (negb (rx_modifiers (with_keys r keys) =? mods)).
  { split; [done|]. rx. rewrite H5. eauto. }
  destruct (suppress_injection r) eqn:Es.
  { destruct Hcase as [Hcase|?]; [exact Hcase|done]. }
  change (r_keyboard (with_keys r keys)) with (r_keyboard r).
  change (translation (with_keys r keys)) with (translation r).
  destruct (H6 Hc) as (down & Ht & Hk & Hb). destruct (Hb Es) as [Hd _].
  assert (0 <= usage < 256) as Hu by (unfold usage_is_valid in Hv; repeat (bool_inv; destruct_or?); lia).
  pose proof (t_key_sync (r_keyboard r) down usage is_down (translation r) Ht Hu) as Hsync.
  destruct (t_key (r_keyboard r) usage is_down (translation r)) as [k plan]. destruct Hsync as [Ht' Hp].
  apply keeps_quiet. eapply plan_keeps; try done.
  unfold down_after, keys. destruct is_down; set_solver.
Qed.

(** A record of a button or key changed while nothing is injected. *)
Lemma suppressed_buttons r buttons :
  boundary r -> suppress_injection r = true -> boundary (with_buttons r buttons).
Proof.
  intros (H1 & H2 & H3 & H4 & H5 & H6 & H7) Hs. unfold boundary. rx. split_and!; try done.
  intros Hc. destruct (H6 Hc) as (down & ? & ? & _). exists down. split_and!; try done.
  intros E. change (suppress_injection r = false) in E. congruence.
Qed.

Lemma button_keeps r b is_down count :
  boundary r -> r_active r <> None -> suppress_injection r = false ->
  keeps (st_bind (deliver outcome r (ActButton b is_down count)) (fun r _ =>
    (with_buttons r (if is_down then {[button_index b]} ∪ r_buttons r
                     else r_buttons r ∖ {[button_index b]}), @Ok ReceiverFailure (option Message) None))).
Proof.
  intros HB Hact Hs. pose proof (active_not_pending r HB Hact) as Hc.
  pose proof HB as (H1 & H2 & H3 & H4 & H5 & H6 & H7). rewrite deliver_spec.
  destruct (outcome _ _) eqn:Eo; cbn [st_bind].
  - unfold keeps, boundary, synced. rx. rewrite !view_snoc.
    cbn [view_step v_settled v_phases v_keys v_buttons]. rewrite H5.
    split_and!; try done. intros _. destruct (H6 Hc) as (down & Ht & Hk & Hb).
    exists down. split_and!; try done. intros _. destruct (Hb Hs). split; [done|].
    destruct is_down; set_solver.
  - split; [done|]. rx. rewrite view_snoc. cbn [view_step v_phases]. rewrite H5. cbn. eauto.
Qed.

Lemma on_button_keeps r b is_down count :
  boundary r -> keeps (on_button outcome r b is_down count).
Proof.
  intros HB. unfold on_button. apply keeps_lift; [done|]. intros a Ha%require_active_Ok.
  assert (r_active r <> None) as Hact by congruence.
  pose proof (active_not_pending r HB Hact) as Hc.
  case_match; [by apply boundary_sane|].
  destruct (suppress_injection r) eqn:Es; [by apply suppressed_buttons|].
  rewrite st_bind_assoc. destruct is_down; [|by apply button_keeps].
  pose proof HB as (_ & _ & _ & _ & _ & H6 & _). destruct (H6 Hc) as (down & Ht & Hk & Hb).
  destruct (Hb Es) as [Hd _].
  assert (exists k plan, t_click (r_keyboard r) (translation r) = (k, plan) /\ tracks k down
    /\ apply_keys (t_targets (r_keyboard r)) plan = t_targets k) as (k & plan & -> & Ht' & Hp).
  { unfold t_click. destruct (translation r) as [d|]; [|by eexists _, _].
    destruct Ht as [Hl Hd'].
    pose proof (follow_sync d None (r_keyboard r) [] _ Hl eq_refl) as Hf.
    destruct (follow d None (r_keyboard r, [])) as [tr1 plan1]. destruct Hf as (Hl1 & Hp1 & He).
    exists tr1, plan1. split; [done|]. split; [|exact Hp1]. split; [done|].
    intros u Hu. by rewrite <- Hd', He. }
  pose proof (plan_keeps r k plan (r_keys r) down HB Hact Hc Es Ht' Hd Hp) as Hkeep.
  change (with_keyboard (with_keys r (r_keys r)) k) with (with_keyboard r k) in Hkeep.
  apply keeps_bind; [done|]. intros r1 [] Hr1 HB1.
  destruct (deliver_keys_spec (with_keyboard r k) plan) as (calls & o & E & _).
  rewrite E in Hr1. injection Hr1 as <- _. apply button_keeps; done.
Qed.

Lemma on_scroll_keeps r h v : boundary r -> keeps (on_scroll outcome r h v).
Proof.
  intros HB. unfold on_scroll. apply keeps_lift; [done|]. intros a Ha%require_active_Ok.
  case_match; [by apply boundary_sane|]. case_match; [done|].
  apply keeps_quiet, deliver_plain; [done|congruence|done].
Qed.

Lemma on_system_keeps r g : boundary r -> keeps (on_system_gesture outcome r g).
Proof.
  intros HB. unfold on_system_gesture. apply keeps_lift; [done|]. intros a Ha%require_active_Ok.
  case_match; [done|]. apply keeps_quiet, deliver_plain; [done|congruence|done].
Qed.

(** A gesture action whose phase its kind allows. *)
Lemma deliver_gesture r g open' :
  boundary r -> r_active r <> None ->
  phase_step (ActGesture g) (r_open_gestures r) = Some open' ->
  forall ok, boundary (with_open_gestures (with_calls r (r_calls r ++ [(ActGesture g, ok)])) open').
Proof.
  intros (H1 & H2 & H3 & H4 & H5 & H6 & H7) Hact Hp ok. unfold boundary, synced. rx.
  rewrite !view_snoc. cbn [view_step v_settled v_phases v_keys v_buttons].
  rewrite H5. cbn [mbind option_bind]. rewrite Hp. split_and!; done.
Qed.

(** The phase a gesture needs before it, and its own, are both allowed. *)
Lemma phases_allowed (rotate : bool) (g : PointerGesture) (phase : GesturePhase) (st : bool * bool) :
  (gesture_phase g = Some phase /\ gesture_kind g = if rotate then KRotate else KMagnify) ->
  let open := if rotate then snd st else fst st in
  let set (b : bool) := if rotate then (fst st, b) else (b, snd st) in
  phase_is_terminal phase && negb open = false ->
  match repair open phase with
  | Some boundary_phase =>
      phase_step (ActGesture (unchanged_at g boundary_phase)) st = Some (set (negb open))
      /\ phase_step (ActGesture g) (set (negb open)) = Some (set (negb (phase_is_terminal phase)))
  | None => phase_step (ActGesture g) st = Some (set (negb (phase_is_terminal phase)))
  end.
Proof.
  intros [Hp Hk]. destruct st as [[] []], rotate, g as [p v|p v| |], phase; cbn in *; simplify_eq; done.
Qed.

Lemma apply_continuous_keeps r g (rotate : bool) phase :
  boundary r -> r_active r <> None ->
  gesture_phase g = Some phase /\ gesture_kind g = (if rotate then KRotate else KMagnify) ->
  keeps (apply_continuous outcome r g rotate phase).
Proof.
  intros HB Hact Hg. unfold apply_continuous. destruct (_ && _) eqn:Et; [exact HB|].
  pose proof (phases_allowed rotate g phase (r_open_gestures r) Hg Et) as Hph.
  unfold gesture_open. destruct (repair _ phase) as [bp|] eqn:Er.
  - destruct Hph as [Hp1 Hp2]. rewrite deliver_spec.
    assert (forall ok, boundary (with_open_gestures (with_calls (count_repair r)
      (r_calls r ++ [(ActGesture (unchanged_at g bp), ok)]))
      (if rotate then (fst (r_open_gestures r), negb (snd (r_open_gestures r)))
       else (negb (fst (r_open_gestures r)), snd (r_open_gestures r))))) as HB1.
    { intros ok. apply (deliver_gesture (count_repair r)); [exact HB|done|].
      destruct rotate; exact Hp1. }
    change (r_calls (count_repair r)) with (r_calls r).
    destruct (outcome (r_calls r) _) eqn:Eo; cbn [st_bind].
    + rewrite deliver_spec. set (r1 := with_calls (count_repair r) _).
      assert (HB2 := deliver_gesture _ g
        (if rotate then (fst (r_open_gestures r), negb (phase_is_terminal phase))
         else (negb (phase_is_terminal phase), snd (r_open_gestures r)))
        (HB1 true) Hact ltac:(destruct rotate; exact Hp2)).
      assert (forall ok, boundary (with_calls (set_gesture_open r1 rotate (negb (phase_is_terminal phase)))
        (r_calls r1 ++ [(ActGesture g, ok)]))) as HB3.
      { intros ok. specialize (HB2 ok). by destruct rotate. }
      change (r_calls (set_gesture_open _ _ _)) with (r_calls r1).
      destruct (outcome (r_calls r1) _); cbn; [apply HB3|apply boundary_sane, HB3].
    + apply (boundary_sane _ (HB1 false)).
  - cbn [st_bind]. rewrite deliver_spec.
    pose proof (deliver_gesture r g _ HB Hact Hph) as HB2.
    assert (forall ok, boundary (with_calls (set_gesture_open r rotate (negb (phase_is_terminal phase)))
      (r_calls r ++ [(ActGesture g, ok)]))) as HB3.
    { intros ok. specialize (HB2 ok). by destruct rotate. }
    change (r_calls (set_gesture_open _ _ _)) with (r_calls r).
    destruct (outcome (r_calls r) _); cbn; [apply HB3|apply boundary_sane, HB3].
Qed.

Lemma on_gesture_keeps r g now : boundary r -> keeps (on_gesture outcome r g now).
Proof.
  intros HB. unfold on_gesture. apply keeps_lift; [done|]. intros a Ha%require_active_Ok.
  destruct (validate_gesture g); [|by apply boundary_sane].
  change (suppress_injection (with_gesture_seen r now)) with (suppress_injection r).
  case_match; [exact HB|]. apply keeps_quiet. unfold apply_gesture.
  assert (r_active (with_gesture_seen r now) <> None) by (cbn; congruence).
  destruct g as [p v|p v| |].
  - by apply apply_continuous_keeps.
  - by apply apply_continuous_keeps.
  - by apply deliver_plain.
  - by apply deliver_plain.
Qed.

Lemma on_motion_keeps r m : boundary r -> keeps (on_motion r m).
Proof.
  intros HB. unfold on_motion. apply keeps_lift; [done|]. intros [id previous] Ha%require_active_Ok.
  apply keeps_lift; [done|]. intros [] _. pose proof HB as (H1 & H2 & H3 & H4 & H5 & H6 & H7).
  unfold keeps, boundary. rx. split_and!; try done. intros H. exfalso. specialize (H4 H). congruence.
Qed.

Lemma rx_resume_released r now :
  all_released r -> r_cleanup_pending r = false -> all_released (fst (rx_resume r now)).
Proof.
  intros (H1 & H2 & H3 & H4 & H5 & H6 & H7 & H8 & _) Hc. unfold rx_resume.
  set (r1 := match r_held_since r with Some _ => _ | None => _ end).
  destruct (resume (r_health r1) now) as [h o]. cbn [fst].
  unfold r1, all_released. destruct (r_held_since r); rx; split_and!; try done; congruence.
Qed.

(** A state whose native release succeeded, before the records follow. *)
Definition natively_released (r : InputReceiver) : Prop :=
  shared (r_config r) = false /\ r_open_gestures r = (false, false)
  /\ v_phases (vw r) = Some (false, false) /\ v_settled (vw r) = true
  /\ v_keys (vw r) = ∅ /\ v_buttons (vw r) = ∅
  /\ (r_cleanup_pending r = true -> r_failure r <> None \/ r_held_since r <> None).

Lemma natively_released_floor r : natively_released r -> natively_released (release_floor r).
Proof. intros H. destruct (rx_release_floor_fields r) as (g & fg & ->). exact H. Qed.

Lemma forget_released r :
  natively_released r ->
  all_released (with_pending_move (with_active (forget_pressed r) None) None).
Proof.
  intros (H1 & H2 & H3 & H4 & H5 & H6 & H7). unfold forget_pressed, all_released. rx.
  rewrite t_clear_default, H2. by split_and!.
Qed.

Lemma finish_release_spec r held now :
  natively_released r ->
  keeps (finish_release r true held now)
  /\ (forall r' reply, finish_release r true held now = (r', Ok reply) -> all_released r').
Proof.
  intros H. unfold finish_release.
  set (r1 := with_gate r _). assert (natively_released r1) as H1 by exact H. clearbody r1.
  pose proof (forget_released _ (natively_released_floor r1 H1)) as H3.
  set (r3 := with_pending_move _ None) in *. clearbody r3. destruct held; cbn [st_bind].
  - pose proof (rx_resume_released (with_cleanup_pending r3 false) now) as Hr.
    assert (all_released (with_cleanup_pending r3 false)) as H4
      by (destruct H3 as (? & ? & ? & ? & ? & ? & ? & ? & ?); by split_and!).
    specialize (Hr H4 eq_refl).
    destruct (rx_resume (with_cleanup_pending r3 false) now) as [r4 [[]|e]]; cbn [st_bind fst] in *.
    + split; [by apply all_released_boundary|]. intros r' reply [= <- _]. done.
    + split; [by apply boundary_sane, all_released_boundary|done].
  - split; [by apply all_released_boundary|]. intros r' reply [= <- _]. done.
Qed.

(** The barrier: on success everything is released. *)
Lemma on_release_all_spec r held now :
  boundary r ->
  keeps (on_release_all outcome r held now)
  /\ (forall r' reply, on_release_all outcome r held now = (r', Ok reply) -> all_released r').
Proof.
  intros HB. unfold on_release_all.
  set (r1 := if _ && _ then _ else r).
  assert (boundary r1) as HB1 by (unfold r1; by case_match).
  clearbody r1. pose proof HB1 as (H1 & _ & _ & _ & _ & _ & H7).
  pose proof (boundary_sane _ HB1) as [_ Hp]. rewrite (may_release_pairwise r1 H1).
  destruct (release_injected_spec r1 Hp) as (calls & o & -> & Hph & Hok).
  destruct (is_ok o) eqn:Eo; cbn [negb].
  - destruct (Hok eq_refl) as (Hset & Hk & Hb). apply finish_release_spec.
    unfold natively_released. rx. by split_and!.
  - split; [|done]. split; [done|]. rx. rewrite Hph. eauto.
Qed.

Lemma on_message_keeps r m held now : boundary r -> keeps (on_message outcome r m held now).
Proof.
  intros HB. pose proof (boundary_sane _ HB).
  destruct m; cbn [on_message]; try (by apply boundary_sane); try destruct held; try exact HB;
    eauto using on_key_keeps, on_button_keeps, on_scroll_keeps, on_gesture_keeps, on_system_keeps,
      on_motion_keeps; by apply on_release_all_spec.
Qed.

Lemma on_heartbeat_keeps r f held now : boundary r -> keeps (on_heartbeat r f held now).
Proof.
  intros HB. unfold on_heartbeat. destruct (accept_heartbeat _ f) as [g o].
  case_match; [exact HB|]. destruct (message f); try exact HB.
  destruct held; [destruct (receive_pong_while_held _ _ _) as [h [?|e]]
                 |destruct (receive_pong _ _ _) as [h [?|e]]]; cbn; try exact HB;
    exact (boundary_sane _ HB).
Qed.

(** Claiming the floor changes only the gate and the claim, and does not end a
    suppression. *)
Definition claims (r r' : InputReceiver) : Prop :=
  (exists g fg, r' = with_gate (with_floor_generation r fg) g)
  /\ (shared (r_config r) = false -> suppress_injection r' = false -> suppress_injection r = false).

Lemma claims_refl r : claims r r.
Proof.
  split; [|done]. exists (r_gate r), (r_floor_generation r). by destruct r.
Qed.
Lemma claims_trans r1 r2 r3 : claims r1 r2 -> claims r2 r3 -> claims r1 r3.
Proof.
  intros [(g & fg & ->) H1] [(g' & fg' & ->) H2]. split; [by exists g', fg'|]. auto.
Qed.

Lemma suppress_pairwise r :
  shared (r_config r) = false ->
  suppress_injection r = r_yielding r || bool_decide (state (floor_of r) = Yielding).
Proof. unfold suppress_injection. intros ->. destruct (r_yielding r); cbn; [done|]. by rewrite orb_false_r. Qed.

Lemma admit_turn_claims r : claims r (fst (admit_turn r)).
Proof.
  assert (state (floor_of r) <> Yielding -> forall g fg, claims r (with_gate (with_floor_generation r fg) g))
    as Hclaim.
  { intros Hn g fg. split; [by eexists _, _|]. intros Hs. rewrite !suppress_pairwise by done.
    rewrite (bool_decide_eq_false_2 (state (floor_of r) = Yielding)) by done.
    rewrite !orb_false_iff. by intros [? _]. }
  unfold admit_turn. destruct (if shared (r_config r) then _ else _) as [f claimed].
  assert (state (floor_of r) <> Yielding -> claims r (fst (
    match claimed with
    | Ok receiving =>
        (with_gate (with_floor_generation (with_gate r (with_floor (r_gate r) f)) (Some (generation receiving)))
           (open_injection (r_gate (with_gate r (with_floor (r_gate r) f))) (generation receiving)),
         Some (Ok ()))
    | Err current =>
        if shared (r_config r) && bool_decide (current = floor_of r)
        then (with_gate r (with_floor (r_gate r) f), Some (Err Busy))
        else (with_gate r (with_floor (r_gate r) f), @None (result DeclineReason ()))
    end))) as Htake.
  { intros Hn. destruct claimed; [by apply Hclaim|].
    case_match; apply (Hclaim Hn _ (r_floor_generation r)). }
  destruct (state (floor_of r)) eqn:Es; try (apply Htake; congruence); try apply claims_refl.
  - destruct (shared _ && _); [apply claims_refl|].
    destruct (negb _); [by apply Htake|apply claims_refl].
  - destruct (rx_holds r (floor_of r)); apply claims_refl.
  - destruct (rx_holds r (floor_of r)); apply claims_refl.
Qed.

Lemma claim_floor_claims r : claims r (fst (claim_floor r)).
Proof.
  unfold claim_floor. case_match; [apply claims_refl|]. generalize LOOP_FUEL. intros n.
  clear. revert r. induction n as [|n IH]; intros r; cbn; [apply claims_refl|].
  pose proof (admit_turn_claims r) as Ht. destruct (admit_turn r) as [r1 [o|]]; cbn in *; [done|].
  eapply claims_trans; [exact Ht|apply IH].
Qed.

Lemma claims_boundary r r' : claims r r' -> boundary r -> boundary r'.
Proof.
  intros [(g & fg & ->) Hs] (H1 & H2 & H3 & H4 & H5 & H6 & H7). unfold boundary. rx. split_and!; try done.
  intros Hc. destruct (H6 Hc) as (down & Ht & Hk & Hb). exists down. split_and!; try done. auto.
Qed.

Lemma apply_pending_keeps r : boundary r -> keeps (apply_pending_move outcome r).
Proof.
  intros HB. unfold apply_pending_move. set (r1 := if suppress_injection r then _ else r).
  assert (boundary r1) as HB1.
  { unfold r1. case_match; [|done]. pose proof HB as (H1 & H2 & H3 & H4 & H5 & H6 & H7).
    unfold boundary. rx. by split_and!. }
  clearbody r1. destruct (r_pending_move r1) as [p|] eqn:Ep; [|exact HB1].
  assert (r_active r1 <> None) as Hact.
  { intros Ha. destruct HB1 as (_ & H2 & _). specialize (H2 Ha). congruence. }
  apply keeps_bind; [by apply deliver_plain|]. intros r2 [] Hr2 HB2.
  pose proof HB2 as (H1 & H2 & H3 & H4 & H5 & H6 & H7). unfold keeps, boundary. rx. by split_and!.
Qed.

Lemma on_activate_keeps r f id p cac held :
  boundary r -> r_failure r = None -> (held = false -> r_held_since r = None) ->
  keeps (on_activate outcome r f id p cac held).
Proof.
  intros HB Hf Hheld. unfold on_activate. case_match; [by apply boundary_sane|].
  apply keeps_lift; [done|]. intros [] _.
  destruct (activate_epoch _ _) as [g [[]|e]]; cbn [map_err st_bind]; [|exact (boundary_sane _ HB)].
  destruct (accept _ f) as [g' [[]|e]]; cbn [map_err st_bind]; [|exact (boundary_sane _ HB)].
  destruct held; [exact HB|]. set (r1 := with_epoch _ _).
  pose proof (claim_floor_claims r1) as Hc.
  destruct (claim_floor r1) as [r2 [[]|reason]]; cbn [fst] in Hc;
    (assert (boundary r2) as HB2 by (eapply claims_boundary; [exact Hc|exact HB])); [|exact HB2].
  assert (r_failure r2 = None /\ r_held_since r2 = None) as [Hf2 Hh2].
  { destruct Hc as [(gt & fg & ->) _]. split; [exact Hf|exact (Hheld eq_refl)]. }
  clear Hc. pose proof HB2 as (H1 & H2 & H3 & H4 & H5 & H6 & H7).
  assert (r_cleanup_pending r2 = false) as Hc2.
  { destruct (r_cleanup_pending r2); [|done]. destruct (H7 eq_refl); congruence. }
  set (r3 := with_pending_move r2 None). change (suppress_injection r3) with (suppress_injection r2).
  destruct (suppress_injection r2) eqn:Es; cbn [st_bind].
  - unfold r3, keeps, boundary. rx. split_and!; try done. intros [?|[?|?]]; congruence.
  - rewrite deliver_spec. change (r_calls r3) with (r_calls r2). unfold r3.
    destruct (outcome (r_calls r2) (MoveTo p)); cbn [st_bind].
    + unfold keeps, boundary, synced. rx. rewrite !view_snoc.
      cbn [view_step v_settled v_phases v_keys v_buttons]. rewrite H5.
      split_and!; try done. intros [?|[?|?]]; congruence.
    + split; [done|]. rx. rewrite view_snoc. cbn [view_step v_phases]. rewrite H5. cbn. eauto.
Qed.

Lemma on_sequenced_keeps r f held now : boundary r -> keeps (on_sequenced outcome r f held now).
Proof.
  intros HB. unfold on_sequenced. case_match.
  { case_match; [exact HB|by apply boundary_sane]. }
  destruct (accept _ f) as [g o]. assert (boundary (with_sequences r g)) as HB1 by exact HB.
  pose proof (boundary_sane _ HB1). destruct o as [[]|[]]; try done; [|by case_match].
  apply keeps_bind.
  - case_match; [by apply apply_pending_keeps|done].
  - intros r1 [] _ HB2. by apply on_message_keeps.
Qed.

Lemma on_frame_keeps r f held now :
  boundary r -> r_failure r = None -> (held = false -> r_held_since r = None) ->
  keeps (on_frame outcome r f held now).
Proof.
  intros HB Hf Hh. unfold on_frame. destruct (allow_at _ _) as [l [[]|e]]; cbn [map_err st_bind];
    [|exact (boundary_sane _ HB)].
  assert (boundary (with_limiter r l)) as HB1 by exact HB.
  case_match; [by apply on_heartbeat_keeps|].
  destruct (message f); try (by apply on_sequenced_keeps). by apply on_activate_keeps.
Qed.

Lemma rx_hold_boundary r now : boundary r -> boundary (fst (rx_hold outcome r now)).
Proof.
  intros HB. unfold rx_hold. set (r1 := if owns_native r then _ else r).
  assert (sane r1) as Hs1 by (apply boundary_sane in HB; unfold r1; by case_match). clearbody r1.
  set (r2 := with_cleanup_pending _ true). assert (sane r2) as Hs2 by exact Hs1.
  pose proof (cleanup_held r2 (Some now) Hs2 eq_refl eq_refl eq_refl ltac:(by right)) as HB3.
  set (r3 := retry_cleanup outcome r2) in *. clearbody r3. clear r2 Hs2.
  destruct (hold (r_health r3) now) as [h [[]|e]].
  - exact HB3.
  - apply stop_err_boundary. destruct (boundary_sane _ HB3) as [Hs Hp]. by split.
Qed.

Lemma rx_hold_keeps r now : boundary r -> keeps (rx_hold outcome r now).
Proof.
  intros HB%(rx_hold_boundary _ now). destruct (rx_hold outcome r now) as [r1 [[]|e]]; [done|].
  by apply boundary_sane.
Qed.

(** A hold that succeeds is not a failure. *)
Lemma rx_hold_Ok r now r' :
  rx_hold outcome r now = (r', Ok ()) -> r_failure r' = r_failure r /\ is_Some (r_held_since r').
Proof.
  unfold rx_hold. set (r1 := if owns_native r then _ else r).
  assert (r_failure r1 = r_failure r) as <- by (unfold r1; by case_match). clearbody r1.
  set (r2 := with_cleanup_pending _ true).
  destruct (retry_cleanup_why r2) as [_ Hf]. change (r_failure r2) with (r_failure r1) in Hf.
  rewrite <- Hf. set (r3 := retry_cleanup outcome r2). clearbody r3.
  destruct (hold (r_health r3) now) as [h [[]|e]].
  - intros [= <-]. split; [done|]. rx. eauto.
  - unfold stop_err. destruct (stop _ _ _). done.
Qed.

Lemma receive_active_keeps r f now :
  boundary r -> r_failure r = None -> keeps (receive_active outcome r f now).
Proof.
  intros HB Hf. unfold receive_active. case_bool_decide as Hh; [by apply on_frame_keeps|].
  assert (r_held_since r = None) as Hn by (destruct (r_held_since r); [by destruct Hh|done]).
  destruct (check (r_health r) now) as [h o].
  assert (boundary (with_health r h)) as HB1 by exact HB. pose proof (boundary_sane _ HB1) as Hs1.
  destruct o as [[]|[]]; try done; [by apply on_frame_keeps|].
  pose proof (rx_hold_keeps _ now HB1) as Hk. apply keeps_bind; [done|]. intros r1 [] E HB2.
  apply on_frame_keeps; [done| |done]. destruct (rx_hold_Ok _ _ _ E) as [-> _]. done.
Qed.

(** Every public call ends at a boundary, whatever it returns. *)
Lemma receive_boundary r f now : boundary r -> boundary (fst (receive outcome r f now)).
Proof.
  intros HB. unfold receive. destruct (r_failure r) eqn:Hf; [done|].
  pose proof (receive_active_keeps r f now HB Hf) as Hk.
  destruct (receive_active outcome r f now) as [r1 [o|e]]; [done|]. by apply stop_err_boundary.
Qed.

Lemma flush_boundary r : boundary r -> boundary (fst (flush outcome r)).
Proof.
  intros HB. unfold flush. destruct (r_failure r); [done|].
  pose proof (apply_pending_keeps r HB) as Hk.
  destruct (apply_pending_move outcome r) as [r1 [[]|e]]; [done|]. by apply stop_err_boundary.
Qed.

Lemma end_gestures_keeps r :
  boundary r -> keeps (deliver outcome (with_open_gestures r (false, false)) EndGestures).
Proof.
  intros (H1 & H2 & H3 & H4 & H5 & H6 & H7). rewrite deliver_spec.
  assert (forall ok, boundary (with_calls (with_open_gestures r (false, false))
    (r_calls r ++ [(EndGestures, ok)]))) as Hb.
  { intros ok. unfold boundary, synced. rx. rewrite !view_snoc.
    cbn [view_step v_settled v_phases v_keys v_buttons]. rewrite H5. by split_and!. }
  change (r_calls (with_open_gestures r (false, false))) with (r_calls r).
  destruct (outcome _ _); [apply Hb|apply boundary_sane, Hb].
Qed.

(** [tick]'s own part, after the gestures. *)
Lemma tick_boundary r now : boundary r -> boundary (fst (tick outcome r now)).
Proof.
  intros HB. unfold tick. pose proof (retry_cleanup_boundary r HB) as HB1.
  destruct (r_failure r) eqn:Hf; [done|]. destruct (r_held_since r) as [since|] eqn:Hh.
  - case_match; [by apply stop_err_boundary, boundary_sane|].
    set (r1 := retry_cleanup outcome r) in *. clearbody r1.
    destruct (poll_while_held (r_health r1) now) as [h [o|e]]; [exact HB1|].
    apply stop_err_boundary. exact (boundary_sane _ HB1).
  - clear HB1.
    assert (keeps (if (fst (r_open_gestures r) || snd (r_open_gestures r))
           && (TOUCH_STREAM_IDLE <=? saturating_sub now (r_gesture_seen r))
        then if may_release (with_open_gestures r (false, false))
             then deliver outcome (with_open_gestures r (false, false)) EndGestures
             else (with_open_gestures r (false, false), Ok ())
        else (r, Ok ()))) as Hk.
    { case_match; [|exact HB]. rewrite may_release_pairwise by (by destruct HB).
      by apply end_gestures_keeps. }
    cbv zeta. destruct (if _ && _ then _ else (r, Ok ())) as [r1 [[]|e]]; [|by apply stop_err_boundary].
    destruct (poll (r_health r1) now) as [h o]. assert (boundary (with_health r1 h)) as HB2 by exact Hk.
    pose proof (boundary_sane _ HB2) as Hs2.
    destruct o as [o|[]]; [done|by apply stop_err_boundary| |by apply stop_err_boundary..].
    pose proof (rx_hold_boundary _ now HB2) as HB3.
    by destruct (rx_hold outcome (with_health r1 h) now) as [r2 [[]|e]].
Qed.

Lemma yield_to_local_spec r gen :
  boundary r ->
  boundary (fst (yield_to_local outcome r gen))
  /\ (snd (yield_to_local outcome r gen) = Ok (Some MsgTakeBack) ->
      v_settled (vw (fst (yield_to_local outcome r gen))) = true).
Proof.
  intros HB. unfold yield_to_local. case_match; [done|].
  set (r1 := with_pending_move _ None).
  pose proof HB as (H1 & H2 & H3 & H4 & H5 & H6 & H7).
  destruct (release_injected_spec r1) as (calls & o & -> & Hph & Hok).
  { change (vw r1) with (vw r). rewrite H5. eauto. }
  destruct (is_ok o) eqn:Eo; cbn [negb].
  - destruct (Hok eq_refl) as (Hset & Hk & Hb). cbn [fst snd]. split; [|done].
    unfold boundary. rx. split_and!; try done. intros _. by apply empty_synced.
  - split.
    + apply stop_err_boundary. split; [done|]. rx. rewrite Hph. eauto.
    + unfold stop_err. destruct (stop _ _ _). done.
Qed.

Lemma take_back_spec r :
  boundary r ->
  boundary (fst (take_back outcome r))
  /\ (snd (take_back outcome r) = Ok (Some MsgTakeBack) -> v_settled (vw (fst (take_back outcome r))) = true).
Proof.
  intros HB. unfold take_back. rewrite (proj1 HB). unfold take_triggered.
  assert (boundary (with_gate r (mkGate (gate_floor (r_gate r)) (admission (r_gate r)) (held (r_gate r))
    (note_changes (r_gate r)) 0 (waker (r_gate r)) (woken (r_gate r))))) as HB1 by exact HB.
  destruct (triggered (r_gate r) =? 0); [split; [exact HB1|discriminate]|].
  by apply yield_to_local_spec.
Qed.

(** ** Reachable receivers

    The other side of the computer may move the floor and the admission between
    calls; only this receiver leaves Yielding. *)

Definition env_ok (r : InputReceiver) (op : ReceiverOp) : Prop :=
  match op with
  | RGate g => state (floor_of r) = Yielding -> state (gate_floor g) = Yielding
  | _ => True
  end.

Inductive receiver_reach (c : ReceiverConfig) : InputReceiver -> Prop :=
| receiver_reach_new g now : receiver_reach c (new_receiver c g now)
| receiver_reach_step r op :
    receiver_reach c r -> env_ok r op -> receiver_reach c (fst (receiver_op r op)).

Lemma new_receiver_boundary c g now : shared c = false -> boundary (new_receiver c g now).
Proof.
  intros Hs. unfold boundary. cbn -[synced]. split_and!; try done. intros _. by apply empty_synced.
Qed.

Lemma receiver_op_boundary r op : boundary r -> env_ok r op -> boundary (fst (receiver_op r op)).
Proof.
  intros HB Hok. destruct op as [f now|now| | |g]; cbn [receiver_op].
  - by apply receive_boundary.
  - by apply tick_boundary.
  - pose proof (flush_boundary r HB). by destruct (flush outcome r) as [r1 []].
  - by apply take_back_spec.
  - cbn [fst]. pose proof HB as (H1 & H2 & H3 & H4 & H5 & H6 & H7). unfold boundary. rx.
    split_and!; try done. intros Hc. destruct (H6 Hc) as (down & Ht & Hk & Hb). exists down.
    split_and!; try done. intros Hs. apply Hb. cbn in Hok.
    rewrite suppress_pairwise in Hs |- * by done. apply orb_false_iff in Hs as [Hy Hf].
    change (r_yielding r = false) in Hy. rewrite Hy. cbn [orb]. rewrite bool_decide_eq_false in Hf |- *.
    auto.
Qed.

Lemma receiver_reach_boundary c r : shared c = false -> receiver_reach c r -> boundary r.
Proof.
  intros Hs. induction 1; [by apply new_receiver_boundary|by apply receiver_op_boundary].
Qed.

Lemma settled_empty calls :
  v_settled (view calls) = true -> v_keys (view calls) = ∅ /\ v_buttons (view calls) = ∅.
Proof.
  induction calls as [|[a ok] calls IH] using rev_ind; [done|].
  rewrite view_snoc. destruct a, ok; cbn; intros H; try done; auto.
Qed.

(** Only the barrier is answered with [ReleaseAck]. *)
Lemma on_message_ack r m held now r' :
  boundary r -> on_message outcome r m held now = (r', Ok (Some MsgReleaseAck)) -> all_released r'.
Proof.
  intros HB H. destruct m; cbn [on_message] in H; try done;
    try (destruct held; [done|]).
  all: try (unfold on_motion, on_key, on_button, on_scroll, on_gesture, on_system_gesture, quiet in H;
    destruct (require_active r) as [[]|]; cbn in H; [|done]; repeat case_match; try done;
    repeat match type of H with
    | st_bind ?m _ = _ => apply st_bind_Ok in H as (? & ? & _ & H)
    | lift_err _ ?o _ = _ => destruct o; cbn in H; [|done]
    end; done).
  by apply (on_release_all_spec r held now HB) in H.
Qed.

Lemma on_sequenced_ack r f held now r' :
  boundary r -> on_sequenced outcome r f held now = (r', Ok (Some MsgReleaseAck)) -> all_released r'.
Proof.
  intros HB. unfold on_sequenced. case_match; [by case_match|].
  destruct (accept _ f) as [g o]. assert (boundary (with_sequences r g)) as HB1 by exact HB.
  destruct o as [[]|[]]; try done; [|by case_match].
  intros (r1 & [] & E & Hm)%st_bind_Ok. eapply on_message_ack; [|exact Hm].
  assert (keeps (r1, @Ok ReceiverFailure () ())) as Hk; [rewrite <- E|exact Hk].
  case_match; [by apply apply_pending_keeps|done].
Qed.

Lemma on_activate_ack r f id p cac held r' :
  on_activate outcome r f id p cac held <> (r', Ok (Some MsgReleaseAck)).
Proof.
  unfold on_activate. case_match; [done|]. destruct (check_point _ _ _); cbn [lift_err]; [|done].
  destruct (activate_epoch _ _) as [g [[]|e]]; cbn [map_err st_bind]; [|done].
  destruct (accept _ f) as [g' [[]|e]]; cbn [map_err st_bind]; [|done].
  destruct held; [done|]. destruct (claim_floor _) as [r2 [[]|e]]; [|done].
  by intros (r3 & [] & _ & Hx)%st_bind_Ok.
Qed.

Lemma receive_ack r f now r' :
  boundary r -> receive outcome r f now = (r', Ok (Some MsgReleaseAck)) -> all_released r'.
Proof.
  intros HB. unfold receive. destruct (r_failure r) eqn:Hf; [done|].
  destruct (receive_active outcome r f now) as [r1 [o|e]] eqn:E;
    [|unfold stop_err; by destruct (stop _ _ _)].
  intros [= -> ->].
  assert (forall r held, boundary r -> on_frame outcome r f held now = (r', Ok (Some MsgReleaseAck)) ->
    all_released r') as Hframe.
  { intros r0 held HB0. unfold on_frame.
    destruct (allow_at _ _) as [l [[]|e]]; cbn [map_err st_bind]; [|done].
    assert (boundary (with_limiter r0 l)) as HB1 by exact HB0. case_match.
    - unfold on_heartbeat. destruct (accept_heartbeat _ f) as [g o]. case_match; [done|].
      destruct (message f); try done; [by destruct held|]. destruct held.
      + destruct (receive_pong_while_held _ _ _) as [? []]; done.
      + destruct (receive_pong _ _ _) as [? []]; done.
    - destruct (message f); try (by apply on_sequenced_ack). intros H0. by apply on_activate_ack in H0. }
  unfold receive_active in E. case_bool_decide; [by eapply Hframe|].
  destruct (check (r_health r) now) as [h o]. assert (boundary (with_health r h)) as HB1 by exact HB.
  destruct o as [[]|[]]; try done; [by eapply Hframe|].
  apply st_bind_Ok in E as (r2 & [] & E2 & E). eapply Hframe; [|exact E].
  pose proof (rx_hold_boundary _ now HB1) as HB2. by rewrite E2 in HB2.
Qed.

Lemma tick_reply r now r' : tick outcome r now <> (r', Ok (Some MsgReleaseAck)).
Proof.
  unfold tick, stop_err. intros H.
  repeat match type of H with
  | context [stop ?o ?a ?b] => destruct (stop o a b); try done
  | context [match ?x with _ => _ end] => destruct x eqn:?; try done
  end; simplify_eq; try done.
  all: first [match goal with H : _ <$> ?o = Some _ |- _ => by destruct o end
             |match goal with H : st_bind _ _ = _ |- _ => by apply st_bind_Ok in H as (? & ? & _ & ?) end].
Qed.

Lemma take_back_reply r r' : take_back outcome r <> (r', Ok (Some MsgReleaseAck)).
Proof.
  unfold take_back, yield_to_local, stop_err. intros H.
  repeat match type of H with
  | context [stop ?o ?a ?b] => destruct (stop o a b); try done
  | context [match ?x with _ => _ end] => destruct x eqn:?; try done
  end.
Qed.

(** A cleanup touches neither the configuration nor where the pointer is. *)
Lemma retry_cleanup_kept r :
  r_config (retry_cleanup outcome r) = r_config r /\ r_active (retry_cleanup outcome r) = r_active r
  /\ r_pending_move (retry_cleanup outcome r) = r_pending_move r.
Proof.
  unfold retry_cleanup, release_injected. rewrite !apply_spec.
  destruct (negb (r_cleanup_pending r)); [done|].
  destruct (may_release r); cbn [andb negb is_ok].
  - destruct (outcome _ ReleaseAll), (outcome _ EndGestures); cbn [is_ok negb]; try done.
    match goal with |- context [release_floor ?x] => destruct (rx_release_floor_fields x) as (g & fg & ->) end.
    done.
  - match goal with |- context [release_floor ?x] => destruct (rx_release_floor_fields x) as (g & fg & ->) end.
    done.
Qed.

(** A step that ends by asking the destination to release everything again, and
    leaves nothing to clean up when both requests are accepted. *)
Definition asks_again (r r' : InputReceiver) : Prop :=
  exists before ended released,
    r_calls r' = r_calls r ++ before ++ [(EndGestures, ended); (ReleaseAll, released)]
    /\ (ended && released = true -> r_cleanup_pending r' = false).

Lemma retry_asks_again r :
  shared (r_config r) = false -> r_cleanup_pending r = true -> asks_again r (retry_cleanup outcome r).
Proof.
  intros Hs Hc. unfold asks_again, retry_cleanup.
  rewrite Hc, may_release_pairwise by done. cbn [negb]. unfold release_injected. rewrite !apply_spec. rx.
  set (ended := outcome _ EndGestures). set (released := outcome _ ReleaseAll).
  exists [], ended, released. destruct released, ended; cbn [is_ok andb negb app].
  2-4: rx; split; [by rewrite <- app_assoc|done].
  match goal with |- context [release_floor ?x] => destruct (rx_release_floor_fields x) as (g & fg & ->) end.
  split; [|done]. unfold forget_pressed. rx. by rewrite <- app_assoc.
Qed.

Lemma stop_asks_again {A} r e :
  shared (r_config r) = false ->
  asks_again r (fst (stop_err outcome r e : InputReceiver * result ReceiverFailure A)).
Proof.
  intros Hs. unfold stop_err, stop. cbn [fst]. set (r0 := with_cleanup_pending _ true).
  assert (asks_again r0 (retry_cleanup outcome r0)) as H
    by (apply retry_asks_again; subst r0; by destruct (owns_native _)).
  assert (r_calls r0 = r_calls r) as E by (subst r0; by destruct (owns_native _)). clearbody r0.
  unfold asks_again in *. by rewrite E in H.
Qed.

(** A receiver with a cleanup left, failed or holding, asks again at every tick. *)
Lemma tick_asks_again r now :
  shared (r_config r) = false -> r_failure r <> None \/ r_held_since r <> None -> r_cleanup_pending r = true ->
  asks_again r (fst (tick outcome r now)).
Proof.
  intros Hs Hw Hc. pose proof (retry_asks_again r Hs Hc) as Hr. unfold tick.
  destruct (r_failure r); [exact Hr|]. destruct (r_held_since r) as [since|]; [|by destruct Hw].
  destruct (_ <=? _); [by apply stop_asks_again|].
  assert (shared (r_config (retry_cleanup outcome r)) = false) as Hs' by (by destruct (retry_cleanup_kept r) as (-> & _)).
  destruct (poll_while_held _ now) as [h [token|e]]; [exact Hr|].
  destruct (stop_asks_again (A := option Message) (with_health (retry_cleanup outcome r) h) (FHealth e) Hs') as (pre & ended & released & E & Hp).
  destruct Hr as (pre' & ended' & released' & E' & _).
  exists (pre' ++ [(EndGestures, ended'); (ReleaseAll, released')] ++ pre), ended, released. split; [|exact Hp].
  rewrite E. cbn [with_health r_calls]. rewrite E'. by rewrite <- !app_assoc.
Qed.

(** C10. A controlled computer is never left with a key or button held: in every
    history of a pairwise receiver, with any native destination and any
    interference on the gate, a receiver that is not active (stopped, holding or
    idle) and has no cleanup left has released everything since its last
    injection; so has one that acknowledges a release or a take-back; a receiver
    with a cleanup left, whether it failed or is holding, asks the destination
    again at every tick, and has none left once the destination accepts. *)
Theorem receiver_releases_everything c r op now :
  shared c = false -> receiver_reach c r -> env_ok r op ->
  let '(r', reply) := receiver_op r op in
  (r_active r' = None -> r_cleanup_pending r' = false ->
   v_settled (vw r') = true /\ v_keys (vw r') = ∅ /\ v_buttons (vw r') = ∅)
  /\ (r_failure r' <> None \/ r_held_since r' <> None -> r_active r' = None)
  /\ (reply = Ok (Some MsgReleaseAck) \/ op = RTakeBack /\ reply = Ok (Some MsgTakeBack) ->
      v_settled (vw r') = true /\ v_keys (vw r') = ∅ /\ v_buttons (vw r') = ∅)
  /\ (r_cleanup_pending r' = true -> asks_again r' (fst (tick outcome r' now))).
Proof.
  intros Hs Hreach Hok. pose proof (receiver_reach_boundary c r Hs Hreach) as HB.
  pose proof (receiver_op_boundary r op HB Hok) as HB'.
  destruct (receiver_op r op) as [r' reply] eqn:E. cbn [fst] in HB'.
  pose proof HB' as (H1 & H2 & H3 & H4 & H5 & H6 & H7).
  assert (v_settled (vw r') = true ->
    v_settled (vw r') = true /\ v_keys (vw r') = ∅ /\ v_buttons (vw r') = ∅) as Hsettled.
  { intros Hv. split; [done|]. by apply settled_empty. }
  split_and!.
  - intros Ha Hc. apply Hsettled. auto.
  - intros Hw. apply H4. tauto.
  - intros Hreply. apply Hsettled. destruct Hreply as [->|[-> ->]].
    + destruct op as [f t|t| | |g]; cbn [receiver_op] in E.
      * by apply receive_ack in E as (_ & _ & _ & ? & _).
      * exfalso. by apply tick_reply in E.
      * by apply st_bind_Ok in E as (? & ? & _ & ?).
      * exfalso. by apply take_back_reply in E.
      * done.
    + pose proof (take_back_spec r HB) as [_ Ht]. cbn [receiver_op] in E. rewrite E in Ht. by apply Ht.
  - intros Hc. apply tick_asks_again; auto.
Qed.

(** What the destination holds, by what the source holds. *)
Lemma boundary_keys r :
  boundary r -> r_cleanup_pending r = false -> suppress_injection r = false ->
  (forall t, t ∈ v_keys (vw r) ->
     exists u h, u ∈ r_keys r /\ entry (r_keyboard r) (Z.to_nat u) = Some h /\ target h = t)
  /\ v_buttons (vw r) ⊆ r_buttons r.
Proof.
  intros (_ & _ & _ & _ & _ & H6 & _) Hc Hsup.
  destruct (H6 Hc) as (down & [Hl Hd] & Hk & Hb). destruct (Hb Hsup) as [Hdown Hbut]. split; [|done].
  intros t Ht. rewrite Hk in Ht. apply elem_of_targets in Ht as (i & h & Hi & <-).
  pose proof (lookup_lt_Some _ _ _ Hi) as Hlt.
  assert (entry (r_keyboard r) (Z.to_nat (Z.of_nat i)) = Some h) as He
    by (unfold entry; by rewrite Nat2Z.id, Hi).
  exists (Z.of_nat i), h. split_and!; try done. apply Hdown, Hd; [lia|congruence].
Qed.

(** What the destination holds is what the source holds: in every history of
    a pairwise receiver without cleanup left and not suppressed by a take-back,
    the keys the destination was asked to hold are exactly the targets the
    keyboard translation records, each for a key the source is holding, and every
    button it was asked to hold is one the source is holding; a source that holds
    nothing leaves nothing held. *)
Theorem receiver_no_stuck_key c r :
  shared c = false -> receiver_reach c r ->
  r_cleanup_pending r = false -> suppress_injection r = false ->
  (forall t, t ∈ v_keys (vw r) ->
     exists u h, u ∈ r_keys r /\ entry (r_keyboard r) (Z.to_nat u) = Some h /\ target h = t)
  /\ v_buttons (vw r) ⊆ r_buttons r
  /\ (r_keys r = ∅ -> v_keys (vw r) = ∅).
Proof.
  intros Hs Hreach Hc Hsup.
  destruct (boundary_keys r (receiver_reach_boundary c r Hs Hreach) Hc Hsup) as [Hkeys Hbut].
  split_and!; try done. intros He. apply set_eq. intros t. split; [|set_solver].
  intros (u & h & Hu & _)%Hkeys. set_solver.
Qed.

(** Gestures reach the destination with their phases in order: whatever the
    source sends and whenever it is cut off, for each continuous kind the
    destination sees one Began, then changes, then one end, a release ending an
    open one; the receiver's record of what is open is what the destination has
    open. *)
Theorem receiver_gesture_phases c r :
  shared c = false -> receiver_reach c r -> v_phases (vw r) = Some (r_open_gestures r).
Proof. intros Hs Hr. by destruct (receiver_reach_boundary c r Hs Hr) as (_ & _ & _ & _ & ? & _). Qed.

(** ** Nothing is injected without an activation *)

(** The calls a step adds. *)
Definition adds (P : DestinationAction -> Prop) (r r' : InputReceiver) : Prop :=
  exists l, r_calls r' = r_calls r ++ l /\ Forall (fun call => P (fst call)) l.
Definition releases (a : DestinationAction) : Prop := is_release a = true.

Lemma adds_refl P r r' : r_calls r' = r_calls r -> adds P r r'.
Proof. intros H. exists []. by rewrite app_nil_r. Qed.
Lemma adds_trans P r1 r2 r3 : adds P r1 r2 -> adds P r2 r3 -> adds P r1 r3.
Proof.
  intros (l1 & E1 & H1) (l2 & E2 & H2). exists (l1 ++ l2). rewrite E2, E1, app_assoc.
  split; [done|]. by apply Forall_app_2.
Qed.
Lemma adds_weaken (P Q : DestinationAction -> Prop) r r' :
  (forall a, P a -> Q a) -> adds P r r' -> adds Q r r'.
Proof.
  intros H (l & E & Hl). exists l. split; [done|]. eapply list.Forall_impl; [exact Hl|]. cbn. auto.
Qed.
Lemma adds_one (P : DestinationAction -> Prop) r r' a ok :
  r_calls r' = r_calls r ++ [(a, ok)] -> P a -> adds P r r'.
Proof. intros H Ha. exists [(a, ok)]. split; [done|]. by repeat constructor. Qed.
Lemma adds_bind {A B} P r (m : InputReceiver * result ReceiverFailure A)
    (f : InputReceiver -> A -> InputReceiver * result ReceiverFailure B) :
  adds P r (fst m) -> (forall r1 a, m = (r1, Ok a) -> adds P r1 (fst (f r1 a))) ->
  adds P r (fst (st_bind m f)).
Proof.
  destruct m as [r1 [a|e]]; cbn; intros H1 H2; [|done]. eapply adds_trans; [exact H1|auto].
Qed.

Lemma release_floor_calls r : r_calls (release_floor r) = r_calls r.
Proof. by destruct (rx_release_floor_fields r) as (g & fg & ->). Qed.

Lemma release_injected_adds r : adds releases r (fst (release_injected outcome r)).
Proof.
  unfold release_injected. rewrite !apply_spec. rx. cbn [fst].
  eexists [_; _]. split; [rx; by rewrite <- app_assoc|]. by repeat constructor.
Qed.

Lemma retry_cleanup_adds r : adds releases r (retry_cleanup outcome r).
Proof.
  unfold retry_cleanup. case_match; [by apply adds_refl|].
  assert (adds releases r (fst (if may_release r then release_injected outcome r else (r, Ok ())))) as Hr
    by (case_match; [apply release_injected_adds|by apply adds_refl]).
  destruct (if may_release r then _ else _) as [r1 o]. cbn [fst] in Hr. case_match; [done|].
  eapply adds_trans; [exact Hr|]. apply adds_refl. rewrite release_floor_calls. by case_match.
Qed.

Lemma stop_adds {A} r e :
  adds releases r (fst (stop_err outcome r e : InputReceiver * result ReceiverFailure A)).
Proof.
  unfold stop_err, stop. cbn [fst]. set (r1 := if owns_native _ then _ else _).
  assert (r_calls r1 = r_calls r) as H1 by (unfold r1; by case_match). clearbody r1.
  eapply adds_trans; [apply adds_refl|apply retry_cleanup_adds]. exact H1.
Qed.

Lemma rx_hold_adds r now : adds releases r (fst (rx_hold outcome r now)).
Proof.
  unfold rx_hold. set (r1 := if owns_native r then _ else r).
  assert (r_calls r1 = r_calls r) as H1 by (unfold r1; by case_match). clearbody r1.
  set (r2 := with_cleanup_pending _ true).
  assert (adds releases r (retry_cleanup outcome r2)) as H3.
  { eapply adds_trans; [|apply retry_cleanup_adds]. by apply adds_refl. }
  set (r3 := retry_cleanup outcome r2) in *. clearbody r3. clear r2.
  destruct (hold (r_health r3) now) as [h [[]|e]]; [exact H3|].
  eapply adds_trans; [exact H3|]. eapply adds_trans; [|apply stop_adds]. by apply adds_refl.
Qed.

Lemma deliver_adds (P : DestinationAction -> Prop) r a : P a -> adds P r (fst (deliver outcome r a)).
Proof. intros Ha. rewrite deliver_spec. by eapply adds_one. Qed.

Lemma deliver_keys_adds r plan : adds (fun _ => True) r (fst (deliver_keys outcome r plan)).
Proof.
  destruct (deliver_keys_spec r plan) as (calls & o & -> & _). exists calls. split; [done|].
  by apply Forall_true.
Qed.

Lemma quiet_fst m : fst (quiet m) = fst m.
Proof. by destruct m as [r []]. Qed.

(** A call that starts by changing a record. *)
Lemma adds_from P r r1 r2 : r_calls r1 = r_calls r -> adds P r1 r2 -> adds P r r2.
Proof. intros E (l & H & Hl). exists l. by rewrite H, E. Qed.

Lemma apply_gesture_adds r g : adds (fun _ => True) r (fst (apply_gesture outcome r g)).
Proof.
  unfold apply_gesture, apply_continuous.
  destruct g; try (by apply deliver_adds).
  all: case_match; [by apply adds_refl|]; apply adds_bind;
    [case_match; [eapply adds_from, deliver_adds; done|by apply adds_refl]|].
  all: intros r1 [] _; eapply adds_from, deliver_adds; done.
Qed.

Lemma on_release_all_adds r held now : adds releases r (fst (on_release_all outcome r held now)).
Proof.
  unfold on_release_all. set (r1 := if _ && _ then _ else r).
  assert (r_calls r1 = r_calls r) as H1 by (unfold r1; by case_match). clearbody r1.
  apply (adds_from _ _ r1); [done|].
  assert (adds releases r1 (fst (if may_release r1 then release_injected outcome r1
    else (with_open_gestures r1 (false, false), Ok ())))) as H2
    by (case_match; [apply release_injected_adds|by apply adds_refl]).
  destruct (if may_release r1 then _ else _) as [r2 o]. cbn [fst] in H2.
  case_match; [done|]. eapply adds_trans; [exact H2|]. apply adds_refl. unfold finish_release.
  set (r3 := if may_release r1 then _ else r2).
  assert (r_calls r3 = r_calls r2) as H3 by (unfold r3; by case_match). clearbody r3.
  rewrite <- H3. transitivity (r_calls (release_floor r3)); [|apply release_floor_calls].
  set (r4 := release_floor r3). clearbody r4.
  destruct held; [|done]. unfold rx_resume. cbn [st_bind].
  set (r5 := match r_held_since _ with Some _ => _ | None => _ end).
  assert (r_calls r5 = r_calls r4) as <- by (unfold r5; by case_match). clearbody r5.
  by destruct (resume _ now) as [h []].
Qed.

(** What a message can add: only releases unless the receiver is live. *)
Lemma on_message_adds r m held now :
  adds (fun a => releases a \/ (held = false /\ r_active r <> None /\ suppress_injection r = false))
    r (fst (on_message outcome r m held now)).
Proof.
  set (P a := releases a \/ _).
  assert (held = false -> r_active r <> None -> suppress_injection r = false -> forall r',
    adds (fun _ => True) r r' -> adds P r r') as Hlive.
  { intros. eapply adds_weaken; [|done]. right. done. }
  assert (forall r', r_calls r' = r_calls r -> adds P r r') as Hnone by (intros; by apply adds_refl).
  destruct m; cbn [on_message]; try (by apply Hnone).
  all: try (destruct held; [by apply Hnone|]).
  all: try (unfold on_motion, on_key, on_button, on_scroll, on_gesture, on_system_gesture;
    destruct (require_active r) as [[]|] eqn:Ea; cbn [lift_err]; [|by apply Hnone];
    apply require_active_Ok in Ea; assert (r_active r <> None) as Hact by congruence).
  - destruct (check_point _ _ _); by apply Hnone.
  - case_match; [by apply Hnone|]. destruct (suppress_injection r) eqn:Es; [by apply Hnone|].
    apply (Hlive eq_refl Hact eq_refl). rewrite st_bind_assoc. apply adds_bind.
    + case_match; [|by apply adds_refl]. destruct (t_click _ _). eapply adds_from, deliver_keys_adds. done.
    + intros r1 [] _. apply adds_bind; [by apply deliver_adds|]. intros r2 [] _. by apply adds_refl.
  - case_match; [by apply Hnone|]. destruct (suppress_injection r) eqn:Es; [by apply Hnone|].
    rewrite quiet_fst. apply (Hlive eq_refl Hact eq_refl). by apply deliver_adds.
  - destruct (validate_gesture g); [|by apply Hnone].
    change (suppress_injection (with_gesture_seen r now)) with (suppress_injection r).
    destruct (suppress_injection r) eqn:Es; [by apply Hnone|].
    rewrite quiet_fst. apply (Hlive eq_refl Hact eq_refl). eapply adds_from, apply_gesture_adds. done.
  - destruct (suppress_injection r) eqn:Es; [by apply Hnone|].
    rewrite quiet_fst. apply (Hlive eq_refl Hact eq_refl). by apply deliver_adds.
  - case_match; [by apply Hnone|]. case_match; [by apply Hnone|].
    set (keys := if is_down then _ else _). case_match; [by apply Hnone|].
    change (suppress_injection (with_keys r keys)) with (suppress_injection r).
    destruct (suppress_injection r) eqn:Es; [by apply Hnone|]. destruct (t_key _ _ _ _) as [k plan].
    rewrite quiet_fst. apply (Hlive eq_refl Hact eq_refl). eapply adds_from, deliver_keys_adds. done.
  - eapply adds_weaken; [|apply on_release_all_adds]. by left.
Qed.

(** No move waits while no display is active, whoever else the computer listens
    to: this needs nothing of the other receivers of a group. *)
Definition no_stray_move (r : InputReceiver) : Prop := r_active r = None -> r_pending_move r = None.
Definition still (r r' : InputReceiver) : Prop := r_active r' = r_active r /\ r_pending_move r' = r_pending_move r.
Lemma receiver_still_refl r : still r r.
Proof. done. Qed.
Lemma receiver_still_trans r1 r2 r3 : still r1 r2 -> still r2 r3 -> still r1 r3.
Proof. unfold still. intros [-> ->]. done. Qed.
Lemma still_no_stray r r' : still r r' -> no_stray_move r -> no_stray_move r'.
Proof. unfold still, no_stray_move. by intros [-> ->]. Qed.
Lemma still_bind {A B} r (m : InputReceiver * result ReceiverFailure A)
    (k : InputReceiver -> A -> InputReceiver * result ReceiverFailure B) :
  still r (fst m) -> (forall r1 a, still r r1 -> still r (fst (k r1 a))) -> still r (fst (st_bind m k)).
Proof. destruct m as [r1 [a|e]]; cbn; auto. Qed.
Lemma deliver_still r r0 a : still r r0 -> still r (fst (deliver outcome r0 a)).
Proof. rewrite deliver_spec. by destruct (outcome _ _). Qed.
Lemma deliver_keys_still r r0 plan : still r r0 -> still r (fst (deliver_keys outcome r0 plan)).
Proof. by destruct (deliver_keys_spec r0 plan) as (calls & o & -> & _). Qed.
Lemma quiet_still r m : still r (fst m) -> still r (fst (quiet m)).
Proof. by rewrite quiet_fst. Qed.
#[local] Hint Resolve receiver_still_refl deliver_still deliver_keys_still quiet_still still_bind : core.

Lemma stop_no_stray {A} r e : no_stray_move (fst (stop_err outcome r e : InputReceiver * result ReceiverFailure A)).
Proof.
  unfold stop_err, stop. cbn [fst]. set (r0 := with_cleanup_pending _ true). intros _.
  by destruct (retry_cleanup_kept r0) as (_ & _ & ->).
Qed.
Lemma rx_hold_no_stray r now : no_stray_move (fst (rx_hold outcome r now)).
Proof.
  unfold rx_hold. set (r0 := with_cleanup_pending _ true). pose proof (retry_cleanup_kept r0) as (_ & _ & E).
  destruct (hold _ now) as [h [[]|e]]; [intros _; exact E|apply stop_no_stray].
Qed.
Lemma apply_gesture_still r g : still r (fst (apply_gesture outcome r g)).
Proof.
  destruct g; cbn [apply_gesture]; auto; unfold apply_continuous; (destruct (_ && _); [done|]);
    (apply still_bind; [case_match; [by apply deliver_still|done]|intros r1 _ H; apply deliver_still; by destruct H]).
Qed.
Lemma apply_pending_no_stray r : no_stray_move r -> no_stray_move (fst (apply_pending_move outcome r)).
Proof.
  intros H. unfold apply_pending_move.
  set (r0 := if suppress_injection r then _ else r). assert (no_stray_move r0) as H0 by (unfold r0; by case_match).
  destruct (r_pending_move r0); [|exact H0].
  rewrite deliver_spec. by destruct (outcome _ _).
Qed.
Lemma release_injected_still r : still r (fst (release_injected outcome r)).
Proof. done. Qed.
Lemma lift_no_stray {A B} r (o : result ReceiverFailure A) (k : A -> InputReceiver * result ReceiverFailure B) :
  no_stray_move r -> (forall a, o = Ok a -> no_stray_move (fst (k a))) -> no_stray_move (fst (lift_err r o k)).
Proof. destruct o; cbn [lift_err fst]; auto. Qed.

Lemma on_message_no_stray r m held now : no_stray_move r -> no_stray_move (fst (on_message outcome r m held now)).
Proof.
  intros H. assert (forall r' : InputReceiver, still r r' -> no_stray_move r') as Hs by eauto using still_no_stray.
  destruct m; try exact H; cbn [on_message]; try (destruct held; [exact H|]).
  - apply lift_no_stray; [done|]. intros [id p] _. apply lift_no_stray; [done|]. done.
  - apply lift_no_stray; [done|]. intros a _. cbn zeta. destruct (Bool.eqb _ _); [exact H|]. apply Hs.
    apply still_bind; [|intros r1 _ H1; by destruct H1]. destruct (suppress_injection r); [done|].
    apply still_bind; [|intros r1 _ H1; by apply deliver_still]. destruct is_down; [|done].
    destruct (t_click _ _) as [k plan]. by apply deliver_keys_still.
  - apply lift_no_stray; [done|]. intros a _. destruct (negb (scroll_ok _ _)); [exact H|].
    destruct (suppress_injection r); [exact H|]. by apply Hs, quiet_still, deliver_still.
  - apply lift_no_stray; [done|]. intros a _. destruct (validate_gesture g); [|exact H]. cbn zeta.
    destruct (suppress_injection _); [exact H|].
    apply Hs, quiet_still, (receiver_still_trans _ (with_gesture_seen r now)); [done|apply apply_gesture_still].
  - apply lift_no_stray; [done|]. intros a _. destruct (suppress_injection r); [exact H|].
    by apply Hs, quiet_still, deliver_still.
  - apply lift_no_stray; [done|]. intros a _. destruct (negb (usage_is_valid _)); [exact H|]. cbn zeta.
    destruct (_ || _); [exact H|]. destruct (negb (_ =? _)); [exact H|]. destruct (suppress_injection _); [exact H|].
    destruct (t_key _ _ _ _) as [k plan]. by apply Hs, quiet_still, deliver_keys_still.
  - unfold on_release_all. set (r0 := if _ && _ then _ else r). assert (no_stray_move r0) as H0 by (unfold r0; by case_match).
    clearbody r0. set (m := if may_release r0 then _ else _). assert (no_stray_move (fst m)) as Hm
      by (unfold m; destruct (may_release r0); exact H0).
    destruct m as [r1 o]. destruct (negb (is_ok o)); [exact Hm|]. unfold finish_release. destruct held.
    + unfold rx_resume. set (r2 := with_pending_move _ None).
      destruct (resume _ now) as [h [[]|e]]; cbn [map_err st_bind fst]; case_match; done.
    + done.
Qed.

Lemma on_frame_no_stray r f held now : no_stray_move r -> no_stray_move (fst (on_frame outcome r f held now)).
Proof.
  intros H. unfold on_frame.
  destruct (allow_at _ _) as [l [[]|e]]; cbn [map_err st_bind]; [|exact H].
  assert (no_stray_move (with_limiter r l)) as H1 by exact H. revert H1. generalize (with_limiter r l). clear r H l. intros r H.
  case_match.
  { unfold on_heartbeat. destruct (accept_heartbeat _ f) as [g o]. case_match; [done|].
    destruct (message f); try done. destruct held.
    - by destruct (receive_pong_while_held _ _ _) as [? []].
    - by destruct (receive_pong _ _ _) as [? []]. }
  assert (no_stray_move (fst (on_sequenced outcome r f held now))) as Hseq.
  { unfold on_sequenced. case_match; [case_match; done|]. destruct (accept _ f) as [g o].
    destruct o as [[]|[]]; try exact H; [|case_match; exact H].
    set (m := if negb held && _ then _ else _).
    assert (no_stray_move (fst m)) as Hm by (unfold m; case_match; [by apply apply_pending_no_stray|exact H]).
    destruct m as [r1 [[]|e]]; cbn [st_bind fst] in *; [by apply on_message_no_stray|done]. }
  destruct (message f); try exact Hseq. unfold on_activate. case_match; [done|].
  apply lift_no_stray; [done|]. intros _ _.
  destruct (activate_epoch _ _) as [g [[]|e]]; cbn [map_err st_bind]; [|exact H].
  destruct (accept _ f) as [g' [[]|e]]; cbn [map_err st_bind]; [|exact H].
  destruct held; [exact H|]. set (r1 := with_epoch _ _).
  pose proof (claim_floor_claims r1) as [(gt & fg & Hr2) _].
  destruct (claim_floor r1) as [r2 o]. cbn [fst] in Hr2. subst r2.
  destruct o as [[]|e]; [|exact H].
  case_match; [done|]. rewrite deliver_spec. by destruct (outcome _ _).
Qed.

Lemma receive_no_stray r f now : no_stray_move r -> no_stray_move (fst (receive outcome r f now)).
Proof.
  intros H. unfold receive. destruct (r_failure r); [done|].
  assert (no_stray_move (fst (receive_active outcome r f now))) as Ha.
  { unfold receive_active. case_match; [by apply on_frame_no_stray|].
    destruct (check _ now) as [h [[]|[]]]; try exact H; [by apply on_frame_no_stray|].
    pose proof (rx_hold_no_stray (with_health r h) now) as Hh.
    destruct (rx_hold _ _ now) as [r1 [[]|e]]; [by apply on_frame_no_stray|done]. }
  destruct (receive_active outcome r f now) as [r1 [o|e]]; [exact Ha|apply stop_no_stray].
Qed.

Lemma tick_no_stray r now : no_stray_move r -> no_stray_move (fst (tick outcome r now)).
Proof.
  intros H. unfold tick. pose proof (retry_cleanup_kept r) as (_ & E1 & E2).
  assert (no_stray_move (retry_cleanup outcome r)) as Hr by (unfold no_stray_move; by rewrite E1, E2).
  destruct (r_failure r); [exact Hr|]. destruct (r_held_since r).
  { case_match; [apply stop_no_stray|]. destruct (poll_while_held _ now) as [h [token|e]]; [exact Hr|apply stop_no_stray]. }
  set (m := if _ && _ then _ else _). assert (no_stray_move (fst m)) as Hm.
  { unfold m. case_match; [|done]. case_match; [|done]. rewrite deliver_spec. by destruct (outcome _ _). }
  destruct m as [r1 [[]|e]]; [|apply stop_no_stray]. cbn [fst] in Hm.
  destruct (poll _ now) as [h [token|[]]]; try apply stop_no_stray; [exact Hm|].
  pose proof (rx_hold_no_stray (with_health r1 h) now) as Hh.
  by destruct (rx_hold _ _ now) as [r2 [[]|e]].
Qed.

Lemma take_back_no_stray r : no_stray_move r -> no_stray_move (fst (take_back outcome r)).
Proof.
  intros H. unfold take_back. case_match; [done|]. destruct (take_triggered _) as [g [gen|]]; [|exact H].
  unfold yield_to_local. case_match; [exact H|]. unfold release_injected. rewrite !apply_spec.
  destruct (outcome _ ReleaseAll), (outcome _ EndGestures); cbn [is_ok negb]; try apply stop_no_stray. done.
Qed.

Lemma receiver_reach_no_stray c r : receiver_reach c r -> no_stray_move r.
Proof.
  induction 1 as [g now|r op Hr IH Hok]; [done|]. destruct op; cbn [receiver_op].
  - by apply receive_no_stray.
  - by apply tick_no_stray.
  - unfold flush. destruct (r_failure r); [exact IH|]. pose proof (apply_pending_no_stray r IH) as Hp.
    destruct (apply_pending_move outcome r) as [r1 [[]|e]]; [exact Hp|].
    pose proof (stop_no_stray (A := ()) r1 e) as Hs. by destruct (stop_err outcome r1 e) as [r2 []].
  - by apply take_back_no_stray.
  - exact IH.
Qed.

Lemma apply_pending_adds r :
  no_stray_move r ->
  adds (fun _ => r_active r <> None /\ suppress_injection r = false) r (fst (apply_pending_move outcome r))
  /\ r_active (fst (apply_pending_move outcome r)) = r_active r
  /\ suppress_injection (fst (apply_pending_move outcome r)) = suppress_injection r.
Proof.
  intros H2. unfold apply_pending_move.
  destruct (suppress_injection r) eqn:Es; [split_and!; [by apply adds_refl|done..]|].
  destruct (r_pending_move r) as [p|] eqn:Ep; [|split_and!; [by apply adds_refl|done..]].
  assert (r_active r <> None) as Hact by (intros Ha; specialize (H2 Ha); congruence).
  rewrite deliver_spec. destruct (outcome _ _); cbn [st_bind fst]; (split; [by eapply adds_one|]); done.
Qed.

(** The activation's claim of the floor. *)
Lemma claim_floor_Ok r :
  snd (claim_floor r) = Ok () ->
  enabled (r_config r) = true /\ state (floor_of r) <> Sending /\ state (floor_of r) <> Returning.
Proof.
  unfold claim_floor. destruct (enabled (r_config r)); cbn [negb]; [|done].
  unfold LOOP_FUEL. cbn [admit_loop]. unfold admit_turn. intros H.
  split; [done|]. destruct (state (floor_of r)) eqn:Es; done.
Qed.

(** When an action other than a release may be injected for a frame. *)
Definition live (r : InputReceiver) (f : Frame) (now : Z) (a : DestinationAction) : Prop :=
  r_failure r = None /\ r_held_since r = None /\ is_ok (snd (check (r_health r) now)) = true
  /\ match message f with
     | MsgActivateDisplayAt id position _ =>
         a = MoveTo position /\ epoch f = r_epoch r + 1 /\ check_point (r_config r) id position = Ok ()
         /\ enabled (r_config r) = true /\ state (floor_of r) <> Sending /\ state (floor_of r) <> Returning
     | _ => r_active r <> None /\ epoch f = r_epoch r /\ suppress_injection r = false
     end.

Lemma on_activate_adds r f id p cac held :
  adds (fun a => held = false /\ a = MoveTo p /\ epoch f = r_epoch r + 1
          /\ check_point (r_config r) id p = Ok () /\ enabled (r_config r) = true
          /\ state (floor_of r) <> Sending /\ state (floor_of r) <> Returning)
    r (fst (on_activate outcome r f id p cac held)).
Proof.
  set (P := fun _ => _ /\ _). unfold on_activate.
  case_bool_decide as He; cbn [negb]; [|by apply adds_refl].
  destruct (check_point (r_config r) id p) as [[]|e] eqn:Ec; cbn [lift_err]; [|by apply adds_refl].
  destruct (activate_epoch _ _) as [g [[]|e]]; cbn [map_err st_bind]; [|by apply adds_refl].
  destruct (accept _ f) as [g' [[]|e]]; cbn [map_err st_bind]; [|by apply adds_refl].
  destruct held; [by apply adds_refl|]. set (r1 := with_epoch _ _).
  pose proof (claim_floor_Ok r1) as Hc. pose proof (claim_floor_claims r1) as [(gt & fg & Hr2) _].
  destruct (claim_floor r1) as [r2 o]. cbn [fst snd] in *. subst r2.
  destruct o as [[]|reason]; [|by apply adds_refl]. specialize (Hc eq_refl).
  change (floor_of r1) with (floor_of r) in Hc. change (r_config r1) with (r_config r) in Hc.
  assert (epoch f = r_epoch r + 1) as He'.
  { unfold checked_add_u64 in He. case_match; by simplify_eq. }
  apply adds_bind.
  - case_match; [by apply adds_refl|].
    eapply adds_from; [|apply deliver_adds; unfold P; by split_and!; try apply Hc]. done.
  - intros r3 [] _. by apply adds_refl.
Qed.

Lemma on_sequenced_adds r f held now :
  no_stray_move r ->
  adds (fun a => releases a \/ (held = false /\ epoch f = r_epoch r
          /\ r_active r <> None /\ suppress_injection r = false))
    r (fst (on_sequenced outcome r f held now)).
Proof.
  intros HB. set (P := fun a => releases a \/ _). unfold on_sequenced.
  destruct (epoch f =? r_epoch r) eqn:Ee; cbn [negb]; bool_inv;
    [|case_match; by apply adds_refl].
  destruct (accept _ f) as [g o]. assert (no_stray_move (with_sequences r g)) as HB1 by exact HB.
  destruct o as [[]|[]]; try (by apply adds_refl); [|case_match; by apply adds_refl].
  apply (adds_from _ _ (with_sequences r g)); [done|].
  set (m := if negb held && _ then _ else _).
  assert (adds P (with_sequences r g) (fst m) /\ r_active (fst m) = r_active r
    /\ suppress_injection (fst m) = suppress_injection r) as (Hm1 & Hm2 & Hm3).
  { unfold m. destruct (negb held && _) eqn:Eh; [|split; [by apply adds_refl|done]].
    apply andb_true_iff in Eh as [Eh _]. apply negb_true_iff in Eh.
    destruct (apply_pending_adds _ HB1) as (Ha & Hb & Hc). split_and!; [|exact Hb|exact Hc].
    eapply adds_weaken; [|exact Ha]. intros a [? ?]. right. by split_and!. }
  apply adds_bind; [done|]. intros r1 [] E. rewrite E in Hm2, Hm3. cbn [fst] in Hm2, Hm3.
  eapply adds_weaken; [|apply on_message_adds]. intros a [Ha|(Hh & Ha & Hs)]; [by left|right].
  rewrite Hm2 in Ha. rewrite Hm3 in Hs. by split_and!.
Qed.

(** A frame on a receiver [r0] that differs from [r] only in its clocks. *)
Lemma on_frame_adds r r0 f (held : bool) now :
  no_stray_move r0 -> r_failure r = None ->
  (held = false ->
   r_held_since r = None /\ is_ok (snd (check (r_health r) now)) = true /\ r_active r0 = r_active r
   /\ r_epoch r0 = r_epoch r /\ r_config r0 = r_config r /\ floor_of r0 = floor_of r
   /\ suppress_injection r0 = suppress_injection r) ->
  adds (fun a => releases a \/ live r f now a) r0 (fst (on_frame outcome r0 f held now)).
Proof.
  intros HB0 Hf Hh. unfold on_frame.
  destruct (allow_at _ _) as [l [[]|e]]; cbn [map_err st_bind]; [|by apply adds_refl].
  apply (adds_from _ _ (with_limiter r0 l)); [done|]. case_match.
  { apply adds_refl. unfold on_heartbeat. destruct (accept_heartbeat _ f) as [g o]. case_match; [done|].
    destruct (message f); try done. destruct held.
    - by destruct (receive_pong_while_held _ _ _) as [? []].
    - by destruct (receive_pong _ _ _) as [? []]. }
  assert (no_stray_move (with_limiter r0 l)) as HB1 by exact HB0.
  assert ((forall id p b, message f <> MsgActivateDisplayAt id p b) ->
    adds (fun a => releases a \/ live r f now a) (with_limiter r0 l)
      (fst (on_sequenced outcome (with_limiter r0 l) f held now))) as Hseq.
  { intros Hm. eapply adds_weaken; [|by apply on_sequenced_adds].
    intros a [?|(-> & He & Ha & Hsup)]; [by left|right].
    destruct (Hh eq_refl) as (Hs & Hck & E1 & E2 & E3 & E4 & E5). unfold live.
    change (r_epoch (with_limiter r0 l)) with (r_epoch r0) in He.
    change (r_active (with_limiter r0 l)) with (r_active r0) in Ha.
    change (suppress_injection (with_limiter r0 l)) with (suppress_injection r0) in Hsup.
    rewrite E1 in Ha. rewrite E2 in He. rewrite E5 in Hsup.
    split_and!; try done. destruct (message f); try done. by destruct (Hm d position control_as_command). }
  destruct (message f) eqn:Em; try (by apply Hseq).
  eapply adds_weaken; [|apply on_activate_adds].
  intros a (-> & -> & He & Hp & Hen & Hs1 & Hs2). right.
  destruct (Hh eq_refl) as (Hs & Hck & E1 & E2 & E3 & E4 & E5). unfold live. rewrite Em.
  change (r_epoch (with_limiter r0 l)) with (r_epoch r0) in He.
  change (r_config (with_limiter r0 l)) with (r_config r0) in Hp, Hen.
  change (floor_of (with_limiter r0 l)) with (floor_of r0) in Hs1, Hs2.
  rewrite E2 in He. rewrite E3 in Hp, Hen. rewrite E4 in Hs1, Hs2. by split_and!.
Qed.

End Receiver.

(** ** The loops on the floor *)

Lemma floor_transition_Ok f to :
  floor_allows (state f) to = true -> exists t, floor_transition f f to = (t, Ok t) /\ state t = to.
Proof.
  intros Ha. unfold floor_transition, floor_call. cbn. rewrite bool_decide_eq_true_2 by done. rewrite Ha. cbn.
  eexists. split; [done|]. done.
Qed.

Lemma floor_claim_Ok f p :
  (state f = Free /\ p <> PEER_NONE) \/ (state f = Requesting /\ peer f = p) ->
  exists t, floor_claim f f Receiving p = (t, Ok t) /\ state t = Receiving.
Proof.
  intros Hf. unfold floor_claim, floor_call. cbn. rewrite !bool_decide_eq_true_2 by auto. cbn [andb].
  assert (bool_decide (state f = Free) && negb (p =? PEER_NONE)
    || bool_decide (state f = Requesting /\ Receiving = Receiving) && (peer f =? p) = true) as ->.
  { destruct Hf as [[Hs Hp]|[Hs Hp]]; rewrite Hs.
    - rewrite bool_decide_eq_true_2 by done. by rewrite (proj2 (Z.eqb_neq _ _)) by done.
    - rewrite (bool_decide_eq_true_2 (Requesting = Requesting /\ _)) by done.
      rewrite Hp, Z.eqb_refl. by rewrite orb_true_r. }
  eexists. split; [done|]. done.
Qed.

Lemma admit_turn_decides r : slot (r_config r) <> PEER_NONE -> is_Some (snd (admit_turn r)).
Proof.
  intros Hslot. unfold admit_turn.
  assert (state (floor_of r) = Free \/ (state (floor_of r) = Requesting
      /\ (shared (r_config r) = true -> peer (floor_of r) = slot (r_config r))) ->
    exists f t, (if shared (r_config r) then floor_claim (floor_of r) (floor_of r) Receiving (slot (r_config r))
      else floor_transition (floor_of r) (floor_of r) Receiving) = (f, Ok t)) as Htake.
  { intros Hs. destruct (shared (r_config r)).
    - destruct (floor_claim_Ok (floor_of r) (slot (r_config r))) as (t & -> & _); [naive_solver|eauto].
    - destruct (floor_transition_Ok (floor_of r) Receiving) as (t & -> & _); [|eauto].
      by destruct Hs as [->|[-> _]]. }
  destruct (state (floor_of r)) eqn:Es.
  - destruct Htake as (f & t & ->); [by left|]. done.
  - destruct (shared (r_config r) && negb (peer (floor_of r) =? slot (r_config r))) eqn:Eb; [done|].
    destruct (negb (local_lower (r_config r))); [|done].
    destruct Htake as (f & t & ->); [|done]. right. split; [done|]. intros Hsh.
    rewrite Hsh in Eb. cbn in Eb. bool_inv. done.
  - done.
  - done.
  - by destruct (rx_holds r (floor_of r)).
  - by destruct (rx_holds r (floor_of r)).
Qed.

(** The receiver's two loops on the floor end: without interference an
    activation's claim decides in its first turn for every floor and every
    receiver with a peer, whatever further turns it is given, and freeing an
    inbound claim lands at once, moving the floor to Free exactly when it is
    still this receiver's. *)
Theorem receiver_loops_terminate r fuel gen f :
  slot (r_config r) <> PEER_NONE ->
  is_Some (snd (admit_turn r))
  /\ admit_loop (S fuel) r = admit_loop LOOP_FUEL r
  /\ release_inbound (S fuel) f gen f = release_inbound LOOP_FUEL f gen f
  /\ state (release_inbound (S fuel) f gen f)
     = (if is_inbound_claim f gen then Free else state f).
Proof.
  intros Hslot. pose proof (admit_turn_decides r Hslot) as Hd. split; [done|].
  unfold LOOP_FUEL. cbn [admit_loop release_inbound].
  split. { destruct (admit_turn r) as [r1 [o|]]; [done|]. by destruct Hd. }
  destruct (is_inbound_claim f gen) eqn:Ec; cbn [negb]; [|done].
  destruct (floor_transition_Ok f Free) as (t & -> & Ht); [|done].
  unfold is_inbound_claim in Ec. by destruct (state f).
Qed.

(** ** A session: an activation, a key press and the barrier *)

Definition sample_display : DisplayDescription :=
  mkDisplay 1 [] 100 100 (mkPoint 0 0) (mkPoint 0x4059000000000000 0x4059000000000000)
    0x3F800000 true None.
Definition sample_config : ReceiverConfig :=
  mkReceiverConfig 1 false false true [sample_display] 1 (Some MacOs) (Some Windows).
Definition sample_point : Point := mkPoint 0x4024000000000000 0x4024000000000000. (* 10.0, 10.0 *)
Definition sample_start : InputReceiver :=
  new_receiver sample_config (new_gate (mkSnapshot Free 1 PEER_NONE)) 0.
Definition sample_activate : Frame :=
  mkFrame 2 0 (MsgActivateDisplayAt 1 sample_point true) Connection.
Definition sample_key : Frame := mkFrame 2 1 (MsgKey 0xE0 true false 1) Connection.
Definition sample_release : Frame := mkFrame 2 2 MsgReleaseAll Connection.

Definition all_accepted (_ : list (DestinationAction * bool)) (_ : DestinationAction) : bool := true.
Definition sample_active : InputReceiver :=
  fst (receiver_op all_accepted sample_start (RReceive sample_activate (ms 1))).
Definition sample_pressed : InputReceiver :=
  fst (receiver_op all_accepted sample_active (RReceive sample_key (ms 2))).

Lemma sample_pressed_reach : receiver_reach all_accepted sample_config sample_pressed.
Proof.
  apply receiver_reach_step; [|exact I]. apply receiver_reach_step; [|exact I].
  apply receiver_reach_new.
Qed.

Lemma receiver_releases_everything_witness :
  shared sample_config = false
  /\ v_keys (view (r_calls sample_pressed)) = {[0xE3]}
  /\ v_keys (view (r_calls (fst (receiver_op all_accepted sample_pressed
       (RReceive sample_release (ms 3)))))) = ∅.
Proof.
  split; [reflexivity|]. split; [vm_compute; reflexivity|].
  pose proof (receiver_releases_everything all_accepted sample_config sample_pressed
    (RReceive sample_release (ms 3)) (ms 4) eq_refl sample_pressed_reach I) as H.
  destruct (receiver_op all_accepted sample_pressed (RReceive sample_release (ms 3))) as [r' reply] eqn:E.
  destruct H as (_ & _ & Hack & _). cbn [fst].
  destruct Hack as (_ & Hk & _).
  - left. apply (f_equal snd) in E. cbn [snd] in E. rewrite <- E. vm_compute. reflexivity.
  - exact Hk.
Defined.

Lemma receiver_no_stuck_key_witness :
  shared sample_config = false /\ suppress_injection sample_pressed = false
  /\ exists u h, u ∈ r_keys sample_pressed
     /\ entry (r_keyboard sample_pressed) (Z.to_nat u) = Some h /\ target h = 0xE3.
Proof.
  split; [reflexivity|]. split; [vm_compute; reflexivity|].
  destruct (receiver_no_stuck_key all_accepted sample_config sample_pressed eq_refl sample_pressed_reach)
    as (H & _).
  - vm_compute. reflexivity.
  - vm_compute. reflexivity.
  - apply H. refine (bool_decide_unpack _ _). vm_compute. exact I.
Defined.

Lemma receiver_gesture_phases_witness :
  shared sample_config = false
  /\ v_phases (view (r_calls sample_pressed)) = Some (r_open_gestures sample_pressed).
Proof.
  split; [reflexivity|].
  exact (receiver_gesture_phases all_accepted sample_config sample_pressed eq_refl sample_pressed_reach).
Defined.

(** One of the receivers of a group: the key it injects is live. *)
Definition sample_member : ReceiverConfig :=
  mkReceiverConfig 1 true false true [sample_display] 1 (Some MacOs) (Some Windows).
Definition member_active : InputReceiver :=
  fst (receiver_op all_accepted (new_receiver sample_member (new_gate (mkSnapshot Free 1 PEER_NONE)) 0)
         (RReceive sample_activate (ms 1))).

Lemma receiver_loops_terminate_witness :
  slot (r_config sample_start) <> PEER_NONE
  /\ admit_loop 5 sample_start = admit_loop LOOP_FUEL sample_start.
Proof.
  split; [discriminate|].
  destruct (receiver_loops_terminate sample_start 4 1 (mkSnapshot Free 1 PEER_NONE)) as (_ & H & _).
  - discriminate.
  - exact H.
Defined.
