(* ===== verification/SourceEdges.v ===== *)
(** * Pushing through a seam (monhop-transport/src/session_source.rs)

    What the source controller measures about display edges before it lets the
    pointer cross one: the recent heading of the hand, the push held against an
    edge, and the geometry of edges, guards and entries.  Everything here is a
    function of a topology and points; the controller is Source.v.

    [f64::exp] and [f64::powf] are the platform's and are parameters, the class
    [Libm].  Summary log lines and what only they read ([off_axis], [reached],
    [PushEnd]) are left out. *)

From stdpp Require Import gmap.
From S2P Require Import Prelude F64 F64Arith Types Geometry Topology.

(** The functions of the platform's mathematical library. *)
Class Libm := mkLibm { f64_exp : f64 -> f64; f64_powf : f64 -> f64 -> f64 }.

Definition ENTRY_GUARD_DISTANCE : f64 := 0x4038000000000000. (* 24.0 *)
Definition PUSH_THROUGH_DISTANCE : f64 := 0x406F400000000000. (* 250.0 *)
Definition PUSH_THROUGH_RESET : Z := ms 100.
Definition PUSH_THROUGH_DIRECTNESS : f64 := 0x4000000000000000. (* 2.0 *)
Definition PUSH_THROUGH_RECENT : Z := ms 20.
Definition f64_two : f64 := 0x4000000000000000.
Definition f64_five : f64 := 0x4014000000000000.

(** [Point::default]. *)
Definition point_zero : Point := mkPoint f64_zero f64_zero.
Definition point_add (p q : Point) : Point := mkPoint (f64_add (px p) (px q)) (f64_add (py p) (py q)).
Definition point_sub (p q : Point) : Point := mkPoint (f64_sub (px p) (px q)) (f64_sub (py p) (py q)).
Definition scaled (p : Point) (by_ : f64) : Point := mkPoint (f64_mul (px p) by_) (f64_mul (py p) by_).

(** ** Pointer speed (monhop-core/src/pointer_speed.rs) *)

Definition MIN_STEP : Z := -5.
Definition MAX_STEP : Z := 5.
Definition clamp_step (step : Z) : Z := Z.max MIN_STEP (Z.min step MAX_STEP).
(** [factor]. *)
Definition speed_factor `{Libm} (step : Z) : f64 :=
  f64_powf f64_two (f64_div (f64_of_Z (clamp_step step)) f64_five).

(** ** Edges *)

Definition outward (e : Edge) (delta : Point) : f64 :=
  match e with
  | LeftEdge => f64_neg (px delta)
  | RightEdge => px delta
  | TopEdge => f64_neg (py delta)
  | BottomEdge => py delta
  end.

Definition pushes (e : Edge) (heading : Point) : bool :=
  let sideways := match e with LeftEdge | RightEdge => py heading | TopEdge | BottomEdge => px heading end in
  let out := outward e heading in
  f64_ltb f64_zero out && f64_leb (f64_mul PUSH_THROUGH_DIRECTNESS (f64_abs sideways)) out.

(** The size of one physical pixel in logical units. *)
Definition x_step (d : Display) : f64 := f64_div (width (d_logical d)) (f64_of_Z (n_width (d_native d))).
Definition y_step (d : Display) : f64 := f64_div (height (d_logical d)) (f64_of_Z (n_height (d_native d))).

Definition at_physical_edge (d : Display) (p : Point) (e : Edge) : bool :=
  let b := bounds d in
  match e with
  | LeftEdge => f64_leb (px p) (f64_add (px (rect_origin b)) (x_step d))
  | RightEdge => f64_leb (f64_sub (max_x b) (x_step d)) (px p)
  | TopEdge => f64_leb (py p) (f64_add (py (rect_origin b)) (y_step d))
  | BottomEdge => f64_leb (f64_sub (max_y b) (y_step d)) (py p)
  end.

Definition distance_inside (b : LogicalRect) (p : Point) (e : Edge) : f64 :=
  match e with
  | LeftEdge => f64_sub (px p) (px (rect_origin b))
  | RightEdge => f64_sub (max_x b) (px p)
  | TopEdge => f64_sub (py p) (py (rect_origin b))
  | BottomEdge => f64_sub (max_y b) (py p)
  end.

(** The depth of a point past an edge's line. *)
Definition depth (b : LogicalRect) (e : Edge) (p : Point) : f64 :=
  f64_max (f64_neg (distance_inside b p e)) f64_zero.

Definition past_edge (b : LogicalRect) (p : Point) (e : Edge) : Point :=
  let d := depth b e p in
  match e with
  | LeftEdge => mkPoint (f64_neg d) f64_zero
  | RightEdge => mkPoint d f64_zero
  | TopEdge => mkPoint f64_zero (f64_neg d)
  | BottomEdge => mkPoint f64_zero d
  end.

Definition release_distance (b : LogicalRect) (e : Edge) : f64 :=
  let depth := match e with
               | LeftEdge | RightEdge => width (rect_size b)
               | TopEdge | BottomEdge => height (rect_size b)
               end in
  f64_min ENTRY_GUARD_DISTANCE (f64_div depth f64_two).

Definition project_past_edge (b : LogicalRect) (anchor : Point) (e : Edge) (hyst : f64) : Point :=
  let beyond := f64_add hyst f64_one in
  match e with
  | LeftEdge => mkPoint (f64_sub (px (rect_origin b)) beyond) (py anchor)
  | RightEdge => mkPoint (f64_add (max_x b) beyond) (py anchor)
  | TopEdge => mkPoint (px anchor) (f64_sub (py (rect_origin b)) beyond)
  | BottomEdge => mkPoint (px anchor) (f64_add (max_y b) beyond)
  end.

(** The last two lines of [held_at_entry_edge]: [p] stopped on an edge's line. *)
Definition stop_at_edge (b : LogicalRect) (e : Edge) (p : Point) : Point :=
  match e with
  | LeftEdge => mkPoint (f64_max (px p) (px (rect_origin b))) (py p)
  | RightEdge => mkPoint (f64_min (px p) (max_x b)) (py p)
  | TopEdge => mkPoint (px p) (f64_max (py p) (py (rect_origin b)))
  | BottomEdge => mkPoint (px p) (f64_min (py p) (max_y b))
  end.

(** [inside_display] of a known display: the last physical pixel is the furthest
    an OS can place a cursor; [None] is the panic of [f64::clamp]. *)
Definition inside_of (d : Display) (p : Point) : option Point :=
  let b := bounds d in
  x ← f64_clamp (px p) (px (rect_origin b)) (f64_sub (max_x b) (x_step d));
  y ← f64_clamp (py p) (py (rect_origin b)) (f64_sub (max_y b) (y_step d));
  Some (mkPoint x y).

(** ** Recent motion *)

Record RecentMotion := mkRecent { recent_sum : Point; recent_at : Z }.
Definition default_recent : RecentMotion := mkRecent point_zero 0.

(** [RecentMotion::add]; the faded sum is the new [recent_sum]. *)
Definition recent_add `{Libm} (m : RecentMotion) (delta : Point) (now : Z) : RecentMotion :=
  let age := as_secs_f64 (saturating_sub now (recent_at m)) in
  let fade := f64_exp (f64_div (f64_neg age) (as_secs_f64 PUSH_THROUGH_RECENT)) in
  mkRecent
    (mkPoint (f64_add (f64_mul (px (recent_sum m)) fade) (px delta))
             (f64_add (f64_mul (py (recent_sum m)) fade) (py delta))) now.

(** ** The push against one edge *)

Record EdgePush := mkPush {
  push_display : DisplayId; push_edge : Edge; push_run : option (Z * Z);
  push_travel : f64; push_reach : f64; push_sample : option Point; push_heading : RecentMotion }.

(** [EdgePush::new], [rearm], [moved_out], [counted], [through] and [beyond]. *)
Definition new_push (id : DisplayId) (e : Edge) : EdgePush :=
  mkPush id e None f64_zero f64_zero None default_recent.
Definition rearm (p : EdgePush) : EdgePush :=
  mkPush (push_display p) (push_edge p) (push_run p) f64_zero f64_zero (push_sample p) (push_heading p).
Definition with_run (p : EdgePush) (run : option (Z * Z)) : EdgePush :=
  mkPush (push_display p) (push_edge p) run (push_travel p) (push_reach p) (push_sample p)
    (push_heading p).
Definition moved_out (p : EdgePush) (now : Z) : EdgePush :=
  match push_run p with
  | Some (started, last) =>
      if saturating_sub now last <? PUSH_THROUGH_RESET then with_run p (Some (started, now))
      else with_run (rearm p) (Some (now, now))
  | None => with_run (rearm p) (Some (now, now))
  end.
Definition counted (p : EdgePush) : f64 := f64_max (push_travel p) (push_reach p).
Definition through (p : EdgePush) : bool := f64_leb PUSH_THROUGH_DISTANCE (counted p).
Definition beyond (p : EdgePush) (step : f64) : f64 :=
  f64_min (f64_sub (counted p) PUSH_THROUGH_DISTANCE) step.

(** The two slots of [edge_pushes], by axis. *)
Record Pushes := mkPushes { push_x : option EdgePush; push_y : option EdgePush }.
Definition no_pushes : Pushes := mkPushes None None.
Definition on_axis_x (e : Edge) : bool :=
  match e with LeftEdge | RightEdge => true | TopEdge | BottomEdge => false end.
Definition pushes_at (ps : Pushes) (e : Edge) : option EdgePush :=
  if on_axis_x e then push_x ps else push_y ps.
Definition keep_push (ps : Pushes) (p : EdgePush) : Pushes :=
  if on_axis_x (push_edge p) then mkPushes (Some p) (push_y ps) else mkPushes (push_x ps) (Some p).
Definition push_list (ps : Pushes) : list EdgePush :=
  option_list (push_x ps) ++ option_list (push_y ps).
(** [end_pushes]: each push that [ends] picks is dropped. *)
Definition drop_if (ends : EdgePush -> bool) (o : option EdgePush) : option EdgePush :=
  match o with Some p => if ends p then None else Some p | None => None end.
Definition end_pushes (ends : EdgePush -> bool) (ps : Pushes) : Pushes :=
  mkPushes (drop_if ends (push_x ps)) (drop_if ends (push_y ps)).
Definition rearm_all (ps : Pushes) : Pushes := mkPushes (rearm <$> push_x ps) (rearm <$> push_y ps).

Definition current_push (ps : Pushes) (id : DisplayId) (e : Edge) : EdgePush :=
  match pushes_at ps e with
  | Some p => if (push_display p =? id) && bool_decide (push_edge p = e) then p else new_push id e
  | None => new_push id e
  end.

(** [push_by]: the pushes after the record, and how far past the full push it
    went if it is through. *)
Definition push_by (ps : Pushes) (recent : RecentMotion) (id : DisplayId) (e : Edge) (delta : Point)
    (now : Z) : Pushes * option f64 :=
  let push := current_push ps id e in
  let out := outward e delta in
  let pushing := f64_ltb f64_zero out && pushes e (recent_sum recent) in
  let push :=
    if pushing then
      let p := moved_out push now in
      mkPush (push_display p) (push_edge p) (push_run p) (f64_add (push_travel p) out)
        (push_reach p) (push_sample p) (push_heading p)
    else push in
  (keep_push ps push, if pushing && through push then Some (beyond push out) else None).

Definition push_to `{Libm} (ps : Pushes) (id : DisplayId) (e : Edge) (b : LogicalRect)
    (from : option Point) (to : Point) (now : Z) : Pushes * option f64 :=
  let push := current_push ps id e in
  let last := push_sample push in
  let '(pushing, heading) :=
    match (match last with Some l => Some l | None => from end) with
    | None => (true, push_heading push)
    | Some from =>
        let step := point_sub to from in
        let heading := recent_add (push_heading push) step now in
        (f64_ltb f64_zero (outward e step) && pushes e (recent_sum heading), heading)
    end in
  let push := mkPush (push_display push) (push_edge push) (push_run push) (push_travel push)
                (push_reach push) (Some to) heading in
  let gained := match last with Some l => f64_sub (depth b e to) (depth b e l) | None => f64_zero end in
  let push :=
    if pushing then
      let p := moved_out push now in
      mkPush (push_display p) (push_edge p) (push_run p) (push_travel p)
        (f64_add (push_reach p) gained) (push_sample p) (push_heading p)
    else
      mkPush (push_display push) (push_edge push) (push_run push) (push_travel push)
        (f64_max (f64_add (push_reach push) (f64_min gained f64_zero)) f64_zero)
        (push_sample push) (push_heading push) in
  (keep_push ps push, if pushing && through push then Some (beyond push gained) else None).
