(* ===== verification/SourceState.v ===== *)
(** * The state of the source controller (monhop-transport/src/session_source.rs)

    The computer whose keyboard and mouse are used: [SourceController] follows the
    pointer over the displays, claims the floor, activates a peer, forwards input
    and brings everything home.  This file has its data; Source.v its operations.

    The fields of the struct are grouped by what they belong to: the floor, the
    edges, the frames sent and received, the held keys and buttons, and the link's
    health.  The arrays [keys] and [buttons] are the sets of their true indices.
    [o_effects] is the [SourceEffects] buffer that every method of a call is given:
    a call starts with it empty.  What only the constructors and setters write is
    [SourceConfig]; its last three fields are the process-wide switches and the
    confinement probe, which others may change between calls.  Fields that only
    log lines read are left out. *)

From stdpp Require Import gmap.
From S2P Require Import Prelude F64 Types Geometry Topology Floor Messages Sequence Ownership Clicks.
From S2P Require Import SessionPacer SessionHealth SessionQuality SourceEdges.

Definition MAX_SOURCE_EFFECTS : nat := 16.

Inductive NormalizedInput :=
| InKeyEvent (usage : HidUsage) (pressed repeat : bool) (modifiers : ModifierState)
| InButtonEvent (button : MouseButton) (pressed : bool) (at_ : Z)
| AbsoluteMotion (p : Point)
| RelativeMotion (delta : Point) (gain : f64)
| InScroll (horizontal vertical : f64)
| InGesture (g : PointerGesture)
| InSystemGesture (g : SystemGesture)
| RouteChanged (remote : bool) (revision : Z).

Record TaggedInput := mkTagged {
  event : NormalizedInput; routing_revision : Z; tag_remote : bool; floor_generation : Z }.

Inductive SourceEffect :=
| RemoteFrame (f : Frame)
| ActivateRemote (request : Z)
| RestoreLocalAt (request : Z) (display : DisplayId) (position : Point).

Record Handover := mkHandover {
  ho_to : PointerTarget; ho_entry : Point; ho_to_edge : Edge; ho_carried : Point;
  ho_at_button : option Point; ho_return_target : PointerTarget; ho_return_position : Point;
  ho_claim : FloorSnapshot; ho_claimed_from : Z; ho_route_revision : Z }.

Inductive SourceConfigError :=
| UnknownLocalDisplay | LocalDisplayBelongsToAnotherMachine | ConfigOwnership | UnknownPeer.

Inductive SourceFailure :=
| SClockRegression | SPeerHealth (e : HealthError) | SInvalidCapturedInput | SInvalidKeyState
| SRouteMismatch | SUnexpectedRouteBarrier | SInvalidActivationAcknowledgement
| SInvalidReleaseAcknowledgement | SInvalidRemoteFrame | SRateLimited | SNativeControl | STopology
| SOwnership | SProtocolEpochExhausted | SSequenceExhausted | SRouteRequestExhausted
| SEffectCapacityExceeded | SLinkEnded.
#[global] Instance SourceFailure_eq_dec : EqDecision SourceFailure.
Proof. solve_decision. Defined.

Inductive SourceMode :=
| ModeLocal | ModeAwaitActivation | ModeAwaitRemoteBarrier | ModeRemote | ModeAwaitRelease
| ModeAwaitLocalBarrier | ModeFailed.

(** [MotionTarget] and [per_logical_unit]. *)
Record MotionTarget := mkMotionTarget {
  mt_target : PointerTarget; mt_platform : Platform; mt_scale : f64 }.
Definition per_logical_unit (m : MotionTarget) : f64 :=
  match mt_platform m with Windows => mt_scale m | MacOs => f64_one end.

Record SourceOutcome := mkOutcome {
  out_effects : list SourceEffect; out_failure : option SourceFailure;
  out_handover : option Handover }.

(** ** The route the pointer is on *)

Record HandoverTarget := mkHandoverTarget {
  ht_to : PointerTarget; ht_entry : Point; ht_to_edge : Edge; ht_at_button : option Point }.

(** The fields of [State::AwaitActivation], [State::AwaitRemoteBarrier] and
    [State::AwaitReleaseAcknowledgement]. *)
Record Activation := mkActivation {
  a_target : PointerTarget; a_entry : Point; a_return_target : PointerTarget;
  a_return_position : Point; a_ownership_epoch : Z; a_already_remote : bool; a_carried : Point;
  a_at_button : option Point; a_handover : bool }.
Record RemoteBarrier := mkRemoteBarrier {
  b_target : PointerTarget; b_position : Point; b_carried : Point; b_return_target : PointerTarget;
  b_return_position : Point; b_request : Z; b_ticket : option Z }.
Record Releasing := mkReleasing {
  rl_local : PointerTarget; rl_position : Point; rl_carried : option Point;
  rl_ownership_epoch : option Z; rl_handover : option HandoverTarget }.

Inductive State :=
| SLocal (target : PointerTarget) (cursor : option Point)
| SAwaitActivation (a : Activation)
| SAwaitRemoteBarrier (b : RemoteBarrier)
| SRemote (target : PointerTarget) (position : Point) (return_target : PointerTarget)
    (return_position : Point)
| SAwaitRelease (r : Releasing)
| SAwaitLocalBarrier (local : PointerTarget) (position : Point) (request : Z) (ticket : option Z)
| SFailed.

(** ** The groups of fields *)

#[projections(primitive)] Record SourceConfig := mkSourceConfig {
  c_topology : Topology;
  c_home : PointerTarget;
  c_peer : option DeviceId;
  c_slot : Z;
  c_enabled : bool;
  c_base_epoch : Z;
  c_peer_offset : Point;
  c_reachable : list DeviceId;
  c_control_as_command : bool;
  c_pointer_speed : Z;
  c_pointer_confined : bool }.

#[projections(primitive)] Record FloorSide := mkFloorSide {
  f_floor : FloorSnapshot;
  f_claim : option FloorSnapshot;
  f_free_generation : Z;
  f_rebase_pointer : bool;
  f_anchored_return : bool }.

#[projections(primitive)] Record Edges := mkEdges {
  e_guard : option (DisplayId * Edge);
  e_pushes : Pushes;
  e_recent : RecentMotion }.

#[projections(primitive)] Record Outbound := mkOutbound {
  o_epoch : Z;
  o_input_sequence : Z;
  o_control_sequence : Z;
  o_pacer : MotionPacer;
  o_effects : list SourceEffect }.

#[projections(primitive)] Record Inbound := mkInbound {
  i_epoch : option Z;
  i_sequence : option Z;
  i_heartbeats : SequenceGate;
  i_limiter : RateLimiter }.

#[projections(primitive)] Record CaptureRoute := mkRoute {
  cr_remote : bool;
  cr_revision : Z;
  cr_owned : bool }.

#[projections(primitive)] Record Ledger := mkLedger {
  k_keys : gset Z;
  k_remote_keys : gset Z;
  k_buttons : gset Z;
  k_remote_buttons : gset Z;
  k_remote_clicks : gmap Z Z;
  k_clicks : ClickCounter }.

#[projections(primitive)] Record Link := mkLink_ {
  l_health : PeerHealth;
  l_quality : LinkMonitor;
  l_held_since : option Z;
  l_acks_pending : Z;
  l_pong_seen : bool;
  l_barrier_sent_at : Z;
  l_holds : Z;
  l_held_max : Z }.

(** ** The controller *)

#[projections(primitive)] Record SourceController := mkSource {
  s_config : SourceConfig;
  s_floor : FloorSide;
  s_capture_ready : bool;
  s_take_back : bool;
  s_declined : option (DisplayId * DisplayId * option Z * Z);
  s_edges : Edges;
  s_handover : option Handover;
  s_ownership : PointerOwnership;
  s_state : State;
  s_out : Outbound;
  s_in : Inbound;
  s_route : CaptureRoute;
  s_next_request : Z;
  s_failed_request : option Z;
  s_ledger : Ledger;
  s_link : Link;
  s_last_now : Z;
  s_remote_target : option PointerTarget;
  s_failure : option SourceFailure }.
Definition set_config (s : SourceController) (v : SourceConfig) : SourceController :=
  mkSource v (s_floor s) (s_capture_ready s) (s_take_back s) (s_declined s) (s_edges s)
    (s_handover s) (s_ownership s) (s_state s) (s_out s) (s_in s) (s_route s)
    (s_next_request s) (s_failed_request s) (s_ledger s) (s_link s) (s_last_now s)
    (s_remote_target s) (s_failure s).
Definition set_floor (s : SourceController) (v : FloorSide) : SourceController :=
  mkSource (s_config s) v (s_capture_ready s) (s_take_back s) (s_declined s) (s_edges s)
    (s_handover s) (s_ownership s) (s_state s) (s_out s) (s_in s) (s_route s)
    (s_next_request s) (s_failed_request s) (s_ledger s) (s_link s) (s_last_now s)
    (s_remote_target s) (s_failure s).
Definition set_capture_ready (s : SourceController) (v : bool) : SourceController :=
  mkSource (s_config s) (s_floor s) v (s_take_back s) (s_declined s) (s_edges s) (s_handover s)
    (s_ownership s) (s_state s) (s_out s) (s_in s) (s_route s) (s_next_request s)
    (s_failed_request s) (s_ledger s) (s_link s) (s_last_now s) (s_remote_target s)
    (s_failure s).
Definition set_take_back (s : SourceController) (v : bool) : SourceController :=
  mkSource (s_config s) (s_floor s) (s_capture_ready s) v (s_declined s) (s_edges s)
    (s_handover s) (s_ownership s) (s_state s) (s_out s) (s_in s) (s_route s)
    (s_next_request s) (s_failed_request s) (s_ledger s) (s_link s) (s_last_now s)
    (s_remote_target s) (s_failure s).
Definition set_declined (s : SourceController) (v : option (DisplayId * DisplayId * option Z * Z)) : SourceController :=
  mkSource (s_config s) (s_floor s) (s_capture_ready s) (s_take_back s) v (s_edges s)
    (s_handover s) (s_ownership s) (s_state s) (s_out s) (s_in s) (s_route s)
    (s_next_request s) (s_failed_request s) (s_ledger s) (s_link s) (s_last_now s)
    (s_remote_target s) (s_failure s).
Definition set_edges (s : SourceController) (v : Edges) : SourceController :=
  mkSource (s_config s) (s_floor s) (s_capture_ready s) (s_take_back s) (s_declined s) v
    (s_handover s) (s_ownership s) (s_state s) (s_out s) (s_in s) (s_route s)
    (s_next_request s) (s_failed_request s) (s_ledger s) (s_link s) (s_last_now s)
    (s_remote_target s) (s_failure s).
Definition set_handover (s : SourceController) (v : option Handover) : SourceController :=
  mkSource (s_config s) (s_floor s) (s_capture_ready s) (s_take_back s) (s_declined s)
    (s_edges s) v (s_ownership s) (s_state s) (s_out s) (s_in s) (s_route s) (s_next_request s)
    (s_failed_request s) (s_ledger s) (s_link s) (s_last_now s) (s_remote_target s)
    (s_failure s).
Definition set_ownership (s : SourceController) (v : PointerOwnership) : SourceController :=
  mkSource (s_config s) (s_floor s) (s_capture_ready s) (s_take_back s) (s_declined s)
    (s_edges s) (s_handover s) v (s_state s) (s_out s) (s_in s) (s_route s) (s_next_request s)
    (s_failed_request s) (s_ledger s) (s_link s) (s_last_now s) (s_remote_target s)
    (s_failure s).
Definition set_state (s : SourceController) (v : State) : SourceController :=
  mkSource (s_config s) (s_floor s) (s_capture_ready s) (s_take_back s) (s_declined s)
    (s_edges s) (s_handover s) (s_ownership s) v (s_out s) (s_in s) (s_route s)
    (s_next_request s) (s_failed_request s) (s_ledger s) (s_link s) (s_last_now s)
    (s_remote_target s) (s_failure s).
Definition set_out (s : SourceController) (v : Outbound) : SourceController :=
  mkSource (s_config s) (s_floor s) (s_capture_ready s) (s_take_back s) (s_declined s)
    (s_edges s) (s_handover s) (s_ownership s) (s_state s) v (s_in s) (s_route s)
    (s_next_request s) (s_failed_request s) (s_ledger s) (s_link s) (s_last_now s)
    (s_remote_target s) (s_failure s).
Definition set_in (s : SourceController) (v : Inbound) : SourceController :=
  mkSource (s_config s) (s_floor s) (s_capture_ready s) (s_take_back s) (s_declined s)
    (s_edges s) (s_handover s) (s_ownership s) (s_state s) (s_out s) v (s_route s)
    (s_next_request s) (s_failed_request s) (s_ledger s) (s_link s) (s_last_now s)
    (s_remote_target s) (s_failure s).
Definition set_route (s : SourceController) (v : CaptureRoute) : SourceController :=
  mkSource (s_config s) (s_floor s) (s_capture_ready s) (s_take_back s) (s_declined s)
    (s_edges s) (s_handover s) (s_ownership s) (s_state s) (s_out s) (s_in s) v
    (s_next_request s) (s_failed_request s) (s_ledger s) (s_link s) (s_last_now s)
    (s_remote_target s) (s_failure s).
Definition set_next_request (s : SourceController) (v : Z) : SourceController :=
  mkSource (s_config s) (s_floor s) (s_capture_ready s) (s_take_back s) (s_declined s)
    (s_edges s) (s_handover s) (s_ownership s) (s_state s) (s_out s) (s_in s) (s_route s) v
    (s_failed_request s) (s_ledger s) (s_link s) (s_last_now s) (s_remote_target s)
    (s_failure s).
Definition set_failed_request (s : SourceController) (v : option Z) : SourceController :=
  mkSource (s_config s) (s_floor s) (s_capture_ready s) (s_take_back s) (s_declined s)
    (s_edges s) (s_handover s) (s_ownership s) (s_state s) (s_out s) (s_in s) (s_route s)
    (s_next_request s) v (s_ledger s) (s_link s) (s_last_now s) (s_remote_target s)
    (s_failure s).
Definition set_ledger (s : SourceController) (v : Ledger) : SourceController :=
  mkSource (s_config s) (s_floor s) (s_capture_ready s) (s_take_back s) (s_declined s)
    (s_edges s) (s_handover s) (s_ownership s) (s_state s) (s_out s) (s_in s) (s_route s)
    (s_next_request s) (s_failed_request s) v (s_link s) (s_last_now s) (s_remote_target s)
    (s_failure s).
Definition set_link (s : SourceController) (v : Link) : SourceController :=
  mkSource (s_config s) (s_floor s) (s_capture_ready s) (s_take_back s) (s_declined s)
    (s_edges s) (s_handover s) (s_ownership s) (s_state s) (s_out s) (s_in s) (s_route s)
    (s_next_request s) (s_failed_request s) (s_ledger s) v (s_last_now s) (s_remote_target s)
    (s_failure s).
Definition set_last_now (s : SourceController) (v : Z) : SourceController :=
  mkSource (s_config s) (s_floor s) (s_capture_ready s) (s_take_back s) (s_declined s)
    (s_edges s) (s_handover s) (s_ownership s) (s_state s) (s_out s) (s_in s) (s_route s)
    (s_next_request s) (s_failed_request s) (s_ledger s) (s_link s) v (s_remote_target s)
    (s_failure s).
Definition set_remote_target (s : SourceController) (v : option PointerTarget) : SourceController :=
  mkSource (s_config s) (s_floor s) (s_capture_ready s) (s_take_back s) (s_declined s)
    (s_edges s) (s_handover s) (s_ownership s) (s_state s) (s_out s) (s_in s) (s_route s)
    (s_next_request s) (s_failed_request s) (s_ledger s) (s_link s) (s_last_now s) v
    (s_failure s).
Definition set_failure (s : SourceController) (v : option SourceFailure) : SourceController :=
  mkSource (s_config s) (s_floor s) (s_capture_ready s) (s_take_back s) (s_declined s)
    (s_edges s) (s_handover s) (s_ownership s) (s_state s) (s_out s) (s_in s) (s_route s)
    (s_next_request s) (s_failed_request s) (s_ledger s) (s_link s) (s_last_now s)
    (s_remote_target s) v.

(** Single fields of a group. *)
Definition set_floor_word (s : SourceController) (v : FloorSnapshot) : SourceController :=
  set_floor s (mkFloorSide v (f_claim (s_floor s)) (f_free_generation (s_floor s))
    (f_rebase_pointer (s_floor s)) (f_anchored_return (s_floor s))).
Definition set_floor_claim (s : SourceController) (v : option FloorSnapshot) : SourceController :=
  set_floor s (mkFloorSide (f_floor (s_floor s)) v (f_free_generation (s_floor s))
    (f_rebase_pointer (s_floor s)) (f_anchored_return (s_floor s))).
Definition set_free_generation (s : SourceController) (v : Z) : SourceController :=
  set_floor s (mkFloorSide (f_floor (s_floor s)) (f_claim (s_floor s)) v
    (f_rebase_pointer (s_floor s)) (f_anchored_return (s_floor s))).
Definition set_rebase_pointer (s : SourceController) (v : bool) : SourceController :=
  set_floor s (mkFloorSide (f_floor (s_floor s)) (f_claim (s_floor s))
    (f_free_generation (s_floor s)) v (f_anchored_return (s_floor s))).
Definition set_anchored_return (s : SourceController) (v : bool) : SourceController :=
  set_floor s (mkFloorSide (f_floor (s_floor s)) (f_claim (s_floor s))
    (f_free_generation (s_floor s)) (f_rebase_pointer (s_floor s)) v).
Definition set_entry_guard (s : SourceController) (v : option (DisplayId * Edge)) : SourceController :=
  set_edges s (mkEdges v (e_pushes (s_edges s)) (e_recent (s_edges s))).
Definition set_edge_pushes (s : SourceController) (v : Pushes) : SourceController :=
  set_edges s (mkEdges (e_guard (s_edges s)) v (e_recent (s_edges s))).
Definition set_recent_motion (s : SourceController) (v : RecentMotion) : SourceController :=
  set_edges s (mkEdges (e_guard (s_edges s)) (e_pushes (s_edges s)) v).
Definition set_input_epoch (s : SourceController) (v : Z) : SourceController :=
  set_out s (mkOutbound v (o_input_sequence (s_out s)) (o_control_sequence (s_out s))
    (o_pacer (s_out s)) (o_effects (s_out s))).
Definition set_input_sequence (s : SourceController) (v : Z) : SourceController :=
  set_out s (mkOutbound (o_epoch (s_out s)) v (o_control_sequence (s_out s))
    (o_pacer (s_out s)) (o_effects (s_out s))).
Definition set_control_sequence (s : SourceController) (v : Z) : SourceController :=
  set_out s (mkOutbound (o_epoch (s_out s)) (o_input_sequence (s_out s)) v (o_pacer (s_out s))
    (o_effects (s_out s))).
Definition set_pacer (s : SourceController) (v : MotionPacer) : SourceController :=
  set_out s (mkOutbound (o_epoch (s_out s)) (o_input_sequence (s_out s))
    (o_control_sequence (s_out s)) v (o_effects (s_out s))).
Definition set_effects (s : SourceController) (v : list SourceEffect) : SourceController :=
  set_out s (mkOutbound (o_epoch (s_out s)) (o_input_sequence (s_out s))
    (o_control_sequence (s_out s)) (o_pacer (s_out s)) v).
Definition set_inbound_epoch (s : SourceController) (v : option Z) : SourceController :=
  set_in s (mkInbound v (i_sequence (s_in s)) (i_heartbeats (s_in s)) (i_limiter (s_in s))).
Definition set_inbound_sequence (s : SourceController) (v : option Z) : SourceController :=
  set_in s (mkInbound (i_epoch (s_in s)) v (i_heartbeats (s_in s)) (i_limiter (s_in s))).
Definition set_heartbeats (s : SourceController) (v : SequenceGate) : SourceController :=
  set_in s (mkInbound (i_epoch (s_in s)) (i_sequence (s_in s)) v (i_limiter (s_in s))).
Definition set_limiter (s : SourceController) (v : RateLimiter) : SourceController :=
  set_in s (mkInbound (i_epoch (s_in s)) (i_sequence (s_in s)) (i_heartbeats (s_in s)) v).
Definition set_keys (s : SourceController) (v : gset Z) : SourceController :=
  set_ledger s (mkLedger v (k_remote_keys (s_ledger s)) (k_buttons (s_ledger s))
    (k_remote_buttons (s_ledger s)) (k_remote_clicks (s_ledger s)) (k_clicks (s_ledger s))).
Definition set_remote_keys (s : SourceController) (v : gset Z) : SourceController :=
  set_ledger s (mkLedger (k_keys (s_ledger s)) v (k_buttons (s_ledger s))
    (k_remote_buttons (s_ledger s)) (k_remote_clicks (s_ledger s)) (k_clicks (s_ledger s))).
Definition set_buttons (s : SourceController) (v : gset Z) : SourceController :=
  set_ledger s (mkLedger (k_keys (s_ledger s)) (k_remote_keys (s_ledger s)) v
    (k_remote_buttons (s_ledger s)) (k_remote_clicks (s_ledger s)) (k_clicks (s_ledger s))).
Definition set_remote_buttons (s : SourceController) (v : gset Z) : SourceController :=
  set_ledger s (mkLedger (k_keys (s_ledger s)) (k_remote_keys (s_ledger s))
    (k_buttons (s_ledger s)) v (k_remote_clicks (s_ledger s)) (k_clicks (s_ledger s))).
Definition set_remote_clicks (s : SourceController) (v : gmap Z Z) : SourceController :=
  set_ledger s (mkLedger (k_keys (s_ledger s)) (k_remote_keys (s_ledger s))
    (k_buttons (s_ledger s)) (k_remote_buttons (s_ledger s)) v (k_clicks (s_ledger s))).
Definition set_clicks (s : SourceController) (v : ClickCounter) : SourceController :=
  set_ledger s (mkLedger (k_keys (s_ledger s)) (k_remote_keys (s_ledger s))
    (k_buttons (s_ledger s)) (k_remote_buttons (s_ledger s)) (k_remote_clicks (s_ledger s)) v).
Definition set_health (s : SourceController) (v : PeerHealth) : SourceController :=
  set_link s (mkLink_ v (l_quality (s_link s)) (l_held_since (s_link s))
    (l_acks_pending (s_link s)) (l_pong_seen (s_link s)) (l_barrier_sent_at (s_link s))
    (l_holds (s_link s)) (l_held_max (s_link s))).
Definition set_quality (s : SourceController) (v : LinkMonitor) : SourceController :=
  set_link s (mkLink_ (l_health (s_link s)) v (l_held_since (s_link s))
    (l_acks_pending (s_link s)) (l_pong_seen (s_link s)) (l_barrier_sent_at (s_link s))
    (l_holds (s_link s)) (l_held_max (s_link s))).
Definition set_held_since (s : SourceController) (v : option Z) : SourceController :=
  set_link s (mkLink_ (l_health (s_link s)) (l_quality (s_link s)) v
    (l_acks_pending (s_link s)) (l_pong_seen (s_link s)) (l_barrier_sent_at (s_link s))
    (l_holds (s_link s)) (l_held_max (s_link s))).
Definition set_acks_pending (s : SourceController) (v : Z) : SourceController :=
  set_link s (mkLink_ (l_health (s_link s)) (l_quality (s_link s)) (l_held_since (s_link s)) v
    (l_pong_seen (s_link s)) (l_barrier_sent_at (s_link s)) (l_holds (s_link s))
    (l_held_max (s_link s))).
Definition set_pong_seen (s : SourceController) (v : bool) : SourceController :=
  set_link s (mkLink_ (l_health (s_link s)) (l_quality (s_link s)) (l_held_since (s_link s))
    (l_acks_pending (s_link s)) v (l_barrier_sent_at (s_link s)) (l_holds (s_link s))
    (l_held_max (s_link s))).
Definition set_barrier_sent_at (s : SourceController) (v : Z) : SourceController :=
  set_link s (mkLink_ (l_health (s_link s)) (l_quality (s_link s)) (l_held_since (s_link s))
    (l_acks_pending (s_link s)) (l_pong_seen (s_link s)) v (l_holds (s_link s))
    (l_held_max (s_link s))).
Definition set_holds (s : SourceController) (v : Z) : SourceController :=
  set_link s (mkLink_ (l_health (s_link s)) (l_quality (s_link s)) (l_held_since (s_link s))
    (l_acks_pending (s_link s)) (l_pong_seen (s_link s)) (l_barrier_sent_at (s_link s)) v
    (l_held_max (s_link s))).
Definition set_held_max (s : SourceController) (v : Z) : SourceController :=
  set_link s (mkLink_ (l_health (s_link s)) (l_quality (s_link s)) (l_held_since (s_link s))
    (l_acks_pending (s_link s)) (l_pong_seen (s_link s)) (l_barrier_sent_at (s_link s))
    (l_holds (s_link s)) v).

(** Reads of a field after updates. *)
Ltac sx :=
  cbn [set_config set_floor set_capture_ready set_take_back set_declined set_edges set_handover
       set_ownership set_state set_out set_in set_route set_next_request set_failed_request
       set_ledger set_link set_last_now set_remote_target set_failure set_floor_word
       set_floor_claim set_free_generation set_rebase_pointer set_anchored_return set_entry_guard
       set_edge_pushes set_recent_motion set_input_epoch set_input_sequence set_control_sequence
       set_pacer set_effects set_inbound_epoch set_inbound_sequence set_heartbeats set_limiter
       set_keys set_remote_keys set_buttons set_remote_buttons set_remote_clicks set_clicks
       set_health set_quality set_held_since set_acks_pending set_pong_seen set_barrier_sent_at
       set_holds set_held_max
       s_config s_floor s_capture_ready s_take_back s_declined s_edges s_handover s_ownership
       s_state s_out s_in s_route s_next_request s_failed_request s_ledger s_link s_last_now
       s_remote_target s_failure f_floor f_claim f_free_generation f_rebase_pointer
       f_anchored_return e_guard e_pushes e_recent o_epoch o_input_sequence o_control_sequence
       o_pacer o_effects i_epoch i_sequence i_heartbeats i_limiter k_keys k_remote_keys k_buttons
       k_remote_buttons k_remote_clicks k_clicks l_health l_quality l_held_since l_acks_pending
       l_pong_seen l_barrier_sent_at l_holds l_held_max cr_remote cr_revision cr_owned] in *.
Ltac sg :=
  cbn [set_config set_floor set_capture_ready set_take_back set_declined set_edges set_handover
       set_ownership set_state set_out set_in set_route set_next_request set_failed_request
       set_ledger set_link set_last_now set_remote_target set_failure set_floor_word
       set_floor_claim set_free_generation set_rebase_pointer set_anchored_return set_entry_guard
       set_edge_pushes set_recent_motion set_input_epoch set_input_sequence set_control_sequence
       set_pacer set_effects set_inbound_epoch set_inbound_sequence set_heartbeats set_limiter
       set_keys set_remote_keys set_buttons set_remote_buttons set_remote_clicks set_clicks
       set_health set_quality set_held_since set_acks_pending set_pong_seen set_barrier_sent_at
       set_holds set_held_max
       s_config s_floor s_capture_ready s_take_back s_declined s_edges s_handover s_ownership
       s_state s_out s_in s_route s_next_request s_failed_request s_ledger s_link s_last_now
       s_remote_target s_failure f_floor f_claim f_free_generation f_rebase_pointer
       f_anchored_return e_guard e_pushes e_recent o_epoch o_input_sequence o_control_sequence
       o_pacer o_effects i_epoch i_sequence i_heartbeats i_limiter k_keys k_remote_keys k_buttons
       k_remote_buttons k_remote_clicks k_clicks l_health l_quality l_held_since l_acks_pending
       l_pong_seen l_barrier_sent_at l_holds l_held_max cr_remote cr_revision cr_owned].
