(* ===== verification/Source.v ===== *)
(** * The source controller (monhop-transport/src/session_source.rs)

    The operations of [SourceController] on the state of SourceState.v.  A method
    that may panic returns an [option] whose [None] is the panic of an
    [f64::clamp]; the others are total.  A method runs without interference: the
    other controllers, the receiving side and the process-wide switches act
    between calls.  Log lines are left out. *)

From stdpp Require Import gmap.
From S2P Require Import Prelude F64 Types Geometry Topology Floor Messages Sequence Ownership Clicks.
From S2P Require Import SessionPacer SessionHealth SessionQuality SourceEdges SourceState HeldInput.

Definition DECLINE_RETRY_AFTER : Z := ms 50.
Definition saturating_add_u32 (a b : Z) : Z := Z.min (a + b) u32_max.

(** ** Validation of captured input *)

Definition valid_point (p : Point) : bool :=
  point_is_finite p && f64_leb (f64_abs (px p)) MAX_LOGICAL_ORIGIN_ABS
  && f64_leb (f64_abs (py p)) MAX_LOGICAL_ORIGIN_ABS.
Definition f64_million : f64 := 0x412E848000000000. (* 1_000_000.0 *)

(** [NormalizedInput::is_valid]. *)
Definition input_is_valid (i : NormalizedInput) : bool :=
  match i with
  | InKeyEvent usage _ _ _ => usage_is_valid usage
  | InButtonEvent _ _ _ => true
  | AbsoluteMotion p => valid_point p
  | RelativeMotion delta gain => valid_point delta && f64_is_finite gain && f64_leb f64_zero gain
  | InScroll h v =>
      f64_is_finite h && f64_is_finite v && f64_leb (f64_abs h) f64_million
      && f64_leb (f64_abs v) f64_million
  | InGesture g => is_ok (validate_gesture g)
  | InSystemGesture _ => true
  | RouteChanged _ revision => negb (revision =? 0)
  end.

(** ** Reading the state *)

Definition mode (s : SourceController) : SourceMode :=
  match s_state s with
  | SLocal _ _ => ModeLocal
  | SAwaitActivation _ => ModeAwaitActivation
  | SAwaitRemoteBarrier _ => ModeAwaitRemoteBarrier
  | SRemote _ _ _ _ => ModeRemote
  | SAwaitRelease _ => ModeAwaitRelease
  | SAwaitLocalBarrier _ _ _ _ => ModeAwaitLocalBarrier
  | SFailed => ModeFailed
  end.

Definition is_local (s : SourceController) : bool :=
  match s_state s with SLocal _ _ => true | _ => false end.
Definition failed (s : SourceController) : bool := bool_decide (is_Some (s_failure s)).
Definition is_held (s : SourceController) : bool := bool_decide (is_Some (l_held_since (s_link s))).

Definition source_hold_stats (s : SourceController) (now : Z) : Z * Z :=
  hold_stats (l_holds (s_link s)) (l_held_max (s_link s)) (l_held_since (s_link s)) now.

Definition remote_may_hold (s : SourceController) : bool :=
  bool_decide (is_Some (s_remote_target s))
  || match s_state s with
     | SAwaitActivation _ | SAwaitRemoteBarrier _ | SRemote _ _ _ _ | SAwaitRelease _ => true
     | _ => false
     end.

Definition native_may_be_remote (s : SourceController) : bool :=
  (cr_remote (s_route s) && cr_owned (s_route s))
  || match s_state s with
     | SAwaitRemoteBarrier _ | SRemote _ _ _ _ | SAwaitRelease _ | SAwaitLocalBarrier _ _ _ _ => true
     | _ => false
     end.

Definition topology_of (s : SourceController) : Topology := c_topology (s_config s).
Definition home_of (s : SourceController) : PointerTarget := c_home (s_config s).
Definition display_at (s : SourceController) (id : DisplayId) : option Display :=
  displays (topology_of s) !! id.

Definition display_origin (s : SourceController) (t : PointerTarget) : Point :=
  match display_at s (Ownership.display t) with Some d => d_origin d | None => point_zero end.

Definition failure_restore_target (s : SourceController) : PointerTarget * Point :=
  match s_state s with
  | SLocal target cursor =>
      (target, match cursor with Some c => c | None => display_origin s target end)
  | SAwaitActivation a => (a_return_target a, a_return_position a)
  | SAwaitRemoteBarrier b => (b_return_target b, b_return_position b)
  | SRemote _ _ return_target return_position => (return_target, return_position)
  | SAwaitRelease r => (rl_local r, rl_position r)
  | SAwaitLocalBarrier local position _ _ => (local, position)
  | SFailed => (home_of s, display_origin s (home_of s))
  end.

Definition is_display_of (s : SourceController) (m : DeviceId) (id : DisplayId) : bool :=
  match display_at s id with Some d => bool_decide (d_machine d = m) | None => false end.
Definition is_home_display (s : SourceController) (id : DisplayId) : bool :=
  is_display_of s (machine (home_of s)) id.
Definition is_peer_display (s : SourceController) (id : DisplayId) : bool :=
  match c_peer (s_config s) with Some peer => is_display_of s peer id | None => false end.
Definition is_ours (s : SourceController) (id : DisplayId) : bool :=
  is_home_display s id || is_peer_display s id.
Definition may_hand_over_to (s : SourceController) (id : DisplayId) : bool :=
  match display_at s id with
  | Some d =>
      negb (bool_decide (d_machine d = machine (home_of s)))
      && negb (bool_decide (Some (d_machine d) = c_peer (s_config s)))
      && bool_decide (d_machine d ∈ c_reachable (s_config s))
  | None => false
  end.

Definition platform_of (s : SourceController) (id : DisplayId) : option Platform :=
  match machine_for_display (topology_of s) id with Ok m => Some (m_platform m) | Err _ => None end.
Definition asks_translation (s : SourceController) (id : DisplayId) : bool :=
  let target := platform_of s id in
  c_control_as_command (s_config s) && bool_decide (is_Some target)
  && negb (bool_decide (target = platform_of s (Ownership.display (home_of s)))).

Definition motion_target_for (s : SourceController) (target : PointerTarget) : option MotionTarget :=
  d ← display_at s (Ownership.display target);
  p ← platform_of s (Ownership.display target);
  Some (mkMotionTarget target p (d_scale d)).
Definition motion_target (s : SourceController) : option MotionTarget :=
  match s_state s with
  | SLocal target _ | SRemote target _ _ _ => motion_target_for s target
  | SAwaitActivation a => if a_already_remote a then motion_target_for s (a_target a) else None
  | _ => None
  end.
Definition logical_scale (s : SourceController) (id : DisplayId) : f64 :=
  match display_at s id with
  | Some d =>
      match motion_target_for s (mkTarget (d_machine d) id) with
      | Some m => per_logical_unit m
      | None => f64_one
      end
  | None => f64_one
  end.

(** [travel_on], [pointer_speed] and [relative]: one relative record with the
    speed it moves at. *)
Record Relative := mkRelative { rel_delta : Point; rel_gain : f64; rel_speed : f64 }.
Definition pointer_speed `{Libm} (s : SourceController) : f64 :=
  speed_factor (c_pointer_speed (s_config s)).
Definition relative `{Libm} (s : SourceController) (delta : Point) (gain : f64) : Relative :=
  mkRelative delta gain (pointer_speed s).
Definition travel_on (s : SourceController) (id : DisplayId) (gain speed : f64) : f64 :=
  if is_home_display s id then f64_one else f64_mul (f64_mul gain (logical_scale s id)) speed.

(** [inside_display]: the outer [option] is the panic. *)
Definition inside_display (s : SourceController) (id : DisplayId) (p : Point) : option (option Point) :=
  match display_at s id with
  | Some d => q ← inside_of d p; Some (Some q)
  | None => Some None
  end.

Definition peer_point (s : SourceController) (id : DisplayId) (p : Point) : option Point :=
  let offset := c_peer_offset (s_config s) in
  let translated := point_sub p offset in
  match display_at s id with
  | None => Some translated
  | Some d =>
      clamp_half_open (mkRect (point_sub (rect_origin (bounds d)) offset) (rect_size (bounds d))) translated
  end.

Definition carried_on (s : SourceController) (id : DisplayId) (position carried : Point) : option Point :=
  if point_eqb carried point_zero then Some position
  else
    q ← inside_display s id (point_add position carried);
    Some (match q with Some q => q | None => position end).

(** ** Failing closed *)

(** [effects.push] whose refusal is ignored. *)
Definition try_effect (s : SourceController) (e : SourceEffect) : SourceController :=
  if bool_decide (length (o_effects (s_out s)) = MAX_SOURCE_EFFECTS) then s
  else set_effects s (o_effects (s_out s) ++ [e]).

Definition clear_remote_delivery (s : SourceController) : SourceController :=
  set_remote_buttons (set_remote_keys s ∅) ∅.

(** [Frame::new]. *)
Definition new_frame (ep seq : Z) (m : Message) : Frame := mkFrame ep seq m Connection.

Definition release_on_failure (s : SourceController) : SourceController :=
  let seq := o_input_sequence (s_out s) in
  match checked_add_u64 seq 1 with
  | Some next =>
      try_effect (set_input_sequence s next) (RemoteFrame (new_frame (o_epoch (s_out s)) seq MsgReleaseAll))
  | None => s
  end.
Definition restore_on_failure (s : SourceController) (restore : PointerTarget * Point) : SourceController :=
  let request := s_next_request s in
  match checked_add_u64 request 1 with
  | Some next =>
      try_effect (set_failed_request (set_next_request s next) (Some request))
        (RestoreLocalAt request (Ownership.display (fst restore)) (snd restore))
  | None => s
  end.

(** What [fail] drops before it sends the cleanup. *)
Definition fail_state (s : SourceController) (f : SourceFailure) : SourceController :=
  let s := set_state (set_failure s (Some f)) SFailed in
  let s := set_pacer s (discard (o_pacer (s_out s))) in
  let s := set_edge_pushes (set_entry_guard s None) no_pushes in
  set_ownership s (fst (on_failure (s_ownership s) FTimeout)).

Definition fail (s : SourceController) (f : SourceFailure) : SourceController :=
  match s_failure s with
  | Some _ => s
  | None =>
      let remote := remote_may_hold s in
      let native := native_may_be_remote s in
      let restore := failure_restore_target s in
      let s := fail_state s f in
      let s := if remote then release_on_failure s else s in
      let s := clear_remote_delivery (set_remote_target s None) in
      if native then restore_on_failure s restore else s
  end.

(** ** Sending *)

Definition push_effect (s : SourceController) (e : SourceEffect) : SourceController * bool :=
  if bool_decide (length (o_effects (s_out s)) = MAX_SOURCE_EFFECTS)
  then (fail s SEffectCapacityExceeded, false)
  else (set_effects s (o_effects (s_out s) ++ [e]), true).

Definition send_input (s : SourceController) (m : Message) : SourceController :=
  let seq := o_input_sequence (s_out s) in
  match checked_add_u64 seq 1 with
  | None => fail s SSequenceExhausted
  | Some next =>
      fst (push_effect (set_input_sequence s next) (RemoteFrame (new_frame (o_epoch (s_out s)) seq m)))
  end.

Definition push_control (s : SourceController) (m : Message) : SourceController :=
  let seq := o_control_sequence (s_out s) in
  match checked_add_u64 seq 1 with
  | None => fail s SSequenceExhausted
  | Some next =>
      fst (push_effect (set_control_sequence s next)
             (RemoteFrame (new_frame (c_base_epoch (s_config s)) seq m)))
  end.

Definition send_position (s : SourceController) (p : Point) : SourceController :=
  send_input s (MsgMotion (Absolute p)).

Definition flush_motion (s : SourceController) : SourceController * bool :=
  let '(pacer, position) := SessionPacer.flush (o_pacer (s_out s)) (s_last_now s) in
  let s := set_pacer s pacer in
  match position with
  | None => (s, true)
  | Some position => let s := send_position s position in (s, negb (failed s))
  end.

(** [push_input] of an absolute motion, and of any other message. *)
Definition push_motion (s : SourceController) (p : Point) : SourceController :=
  let interval := motion_interval (tier (l_quality (s_link s))) in
  let '(pacer, position) := offer (o_pacer (s_out s)) p interval (s_last_now s) in
  let s := set_pacer s pacer in
  match position with None => s | Some position => send_position s position end.
Definition push_message (s : SourceController) (m : Message) : SourceController :=
  let '(s, ok) := flush_motion s in if ok then send_input s m else s.
Definition push_input (s : SourceController) (m : Message) : SourceController :=
  match m with
  | MsgMotion (Absolute p) => push_motion s p
  | m => push_message s m
  end.

(** [allocate_route_request] followed by [push_effect] of the effect it is for:
    the request, unless either failed. *)
Definition request_route (s : SourceController) (effect : Z -> SourceEffect)
  : SourceController * option Z :=
  let request := s_next_request s in
  match checked_add_u64 request 1 with
  | None => (fail s SRouteRequestExhausted, None)
  | Some next =>
      let '(s, ok) := push_effect (set_next_request s next) (effect request) in
      (s, if ok then Some request else None)
  end.

(** ** Ownership and the floor *)

Definition begin_ownership_transition (s : SourceController) (target : PointerTarget)
  : SourceController * option Z :=
  let '(o, r) := begin_transition (s_ownership s) target in
  let s := set_ownership s o in
  match r with
  | Ok (BeginTransition _ _ ep) => (s, Some ep)
  | _ => (fail s SOwnership, None)
  end.

(** [acknowledge_transition(..)], and whether it was accepted. *)
Definition acknowledge (s : SourceController) (target : PointerTarget) (ep : Z)
  : SourceController * bool :=
  let '(o, r) := acknowledge_transition (s_ownership s) (mkAck target ep) in
  (set_ownership s o, is_ok r).

Definition recover_ownership_at (s : SourceController) (target : PointerTarget)
  : SourceController * bool :=
  let '(o, r) := on_failure (s_ownership s) FTimeout in
  match r with
  | Err _ => (set_ownership s o, false)
  | Ok plan =>
      let '(o, r) := complete_recovery o (plan_epoch plan) in
      match r with
      | Err _ => (set_ownership s o, false)
      | Ok _ =>
          let '(o, r) := begin_transition o target in
          match r with
          | Ok (BeginTransition _ _ ep) =>
              let '(o, r) := acknowledge_transition o (mkAck target ep) in (set_ownership s o, is_ok r)
          | Err SameTarget => (set_ownership s o, true)
          | _ => (set_ownership s o, false)
          end
      end
  end.

(** [self.floor.transition(owned, to)] of a claim; a refusal is the caller's. *)
Definition move_claim (s : SourceController) (owned : FloorSnapshot) (to : FloorState)
  : SourceController * bool :=
  let '(f, r) := floor_transition (f_floor (s_floor s)) owned to in
  let s := set_floor_word s f in
  match r with Ok t => (set_floor_claim s (Some t), true) | Err _ => (s, false) end.

(** The claim, when there is one, moved to Returning. *)
Definition return_claim (s : SourceController) : SourceController * bool :=
  match f_claim (s_floor s) with Some owned => move_claim s owned Returning | None => (s, true) end.

Definition release_floor (s : SourceController) : SourceController :=
  let anchored := f_anchored_return (s_floor s) in
  let s := set_anchored_return s false in
  match f_claim (s_floor s) with
  | None => s
  | Some owned =>
      let s := set_floor_claim s None in
      let '(f, r) := floor_transition (f_floor (s_floor s)) owned Free in
      match r with
      | Ok free =>
          let s := set_floor_word s f in
          if anchored then set_free_generation s (generation free) else s
      | Err _ =>
          set_floor_word s (FloorSpec.step f (OpRelease Floor.Outbound (generation owned)))
      end
  end.

Definition local_crossing_allowed (s : SourceController) : SourceController * bool :=
  let floor := f_floor (s_floor s) in
  if negb (bool_decide (state floor = Free)) then (s, false)
  else
    let s := if generation floor =? f_free_generation (s_floor s) then s
             else set_rebase_pointer (set_free_generation s (generation floor)) true in
    (s, c_enabled (s_config s) && negb (f_rebase_pointer (s_floor s))).

Definition carries_pending_motion (s : SourceController) : bool :=
  match s_state s with
  | SAwaitActivation a => negb (a_already_remote a) || a_handover a
  | SAwaitRemoteBarrier _ => true
  | SAwaitRelease r => bool_decide (is_Some (rl_carried r))
  | _ => false
  end.

Definition claimed_generation (s : SourceController) (gen : Z) : bool :=
  match f_claim (s_floor s) with
  | Some claim => (f_free_generation (s_floor s) <=? gen) && (gen <=? generation claim)
  | None => false
  end.

(** [landed] and [end_pushes(Cleared, |_| true)]. *)
Definition clear_pushes (s : SourceController) : SourceController := set_edge_pushes s no_pushes.
Definition landed (s : SourceController) : SourceController :=
  set_recent_motion (clear_pushes s) default_recent.

Definition begin_return_to (s : SourceController) (local : PointerTarget) (position : Point)
    (guard : option (DisplayId * Edge)) (handover : option HandoverTarget) : SourceController :=
  let '(s, ok) := return_claim s in
  if negb ok then fail s SOwnership
  else
    let '(s, ep) := begin_ownership_transition s local in
    match ep with
    | None => s
    | Some ep =>
        let s := push_input s MsgReleaseAll in
        if failed s then s
        else
          let s := landed (set_entry_guard s guard) in
          set_state s (SAwaitRelease (mkReleasing local position
            (if bool_decide (is_Some guard) || bool_decide (is_Some handover)
             then Some point_zero else None) (Some ep) handover))
    end.

(** [outcome]: the take-back that waited for its route, the floor given back
    once home, and the handover taken out. *)
Definition settle_outcome (s : SourceController) : SourceController :=
  if failed s then s
  else
    let s :=
      if s_take_back s then
        match s_state s with
        | SRemote _ _ return_target return_position =>
            begin_return_to (set_take_back s false) return_target return_position None None
        | SLocal _ _ => set_take_back s false
        | _ => s
        end
      else s in
    if is_local s && (l_acks_pending (s_link s) =? 0) then release_floor s else s.
Definition outcome (s : SourceController) : SourceController * SourceOutcome :=
  let s := set_anchored_return (settle_outcome s) false in
  (set_handover s None, mkOutcome (o_effects (s_out s)) (s_failure s) (s_handover s)).
(** A call: the effects buffer is new, and [outcome] ends it. *)
Definition fresh (s : SourceController) : SourceController := set_effects s [].
Definition finish (s : option SourceController) : option (SourceController * SourceOutcome) :=
  s ← s; Some (outcome s).

(** ** Held keys and buttons *)

Record KeyChange := mkKeyChange { was_physical : bool; was_remote : bool }.

(** The mask of the modifier keys in a set. *)
Definition modifiers_of (keys : gset Z) : ModifierState :=
  foldl (fun mask u => if bool_decide (u ∈ keys) then Z.lor mask (modifier_mask u) else mask)
    0 (seqZ 0xE0 8).
Definition physical_modifiers (s : SourceController) : ModifierState := modifiers_of (k_keys (s_ledger s)).
Definition remote_modifiers (s : SourceController) : ModifierState :=
  modifiers_of (k_remote_keys (s_ledger s)).

Definition update_key (s : SourceController) (usage : HidUsage) (pressed repeat : bool)
    (modifiers : ModifierState) : SourceController * option KeyChange :=
  if negb (usage_is_valid usage) then (s, None)
  else
    let physical := bool_decide (usage ∈ k_keys (s_ledger s)) in
    let change := mkKeyChange physical (bool_decide (usage ∈ k_remote_keys (s_ledger s))) in
    let checked (s : SourceController) :=
      (s, if physical_modifiers s =? modifiers then Some change else None) in
    if pressed then
      if physical then (if negb repeat then (s, None) else checked s)
      else if repeat then (s, None) else checked (set_keys s ({[usage]} ∪ k_keys (s_ledger s)))
    else if repeat then (s, None)
    else if physical then checked (set_keys s (k_keys (s_ledger s) ∖ {[usage]}))
    else (s, Some (mkKeyChange false false)).

Definition update_button (s : SourceController) (button : MouseButton) (pressed : bool)
  : SourceController * KeyChange :=
  let i := button_index button in
  let k := s_ledger s in
  (set_buttons s (if pressed then {[i]} ∪ k_buttons k else k_buttons k ∖ {[i]}),
   mkKeyChange (bool_decide (i ∈ k_buttons k)) (bool_decide (i ∈ k_remote_buttons k))).

(** A key or button delivered or withdrawn, with its frame. *)
Definition key_down (s : SourceController) (usage : HidUsage) : SourceController :=
  let s := set_remote_keys s ({[usage]} ∪ k_remote_keys (s_ledger s)) in
  push_input s (MsgKey usage true false (remote_modifiers s)).
Definition key_repeat (s : SourceController) (usage : HidUsage) : SourceController :=
  push_input s (MsgKey usage true true (remote_modifiers s)).
Definition key_up (s : SourceController) (usage : HidUsage) : SourceController :=
  let s := set_remote_keys s (k_remote_keys (s_ledger s) ∖ {[usage]}) in
  push_input s (MsgKey usage false false (remote_modifiers s)).
Definition remote_clicks (s : SourceController) (i : Z) : Z :=
  default 0 (k_remote_clicks (s_ledger s) !! i).
(** [button_from_index], whose indices are below five. *)
Definition button_at (i : Z) : MouseButton := default LeftButton (button_from_index i).
Definition button_down (s : SourceController) (i clicks : Z) : SourceController :=
  let s := set_remote_buttons s ({[i]} ∪ k_remote_buttons (s_ledger s)) in
  let s := set_remote_clicks s (<[i := clicks]> (k_remote_clicks (s_ledger s))) in
  push_input s (MsgButton (button_at i) true clicks).
Definition button_up (s : SourceController) (i : Z) : SourceController :=
  let s := set_remote_buttons s (k_remote_buttons (s_ledger s) ∖ {[i]}) in
  push_input s (MsgButton (button_at i) false (remote_clicks s i)).

(** A loop over indices whose body runs where a test on the current state holds;
    with [stop] it returns early once its body failed, and says so. *)
Fixpoint each (test : SourceController -> Z -> bool) (body : SourceController -> Z -> SourceController)
    (stop : bool) (indices : list Z) (s : SourceController) : SourceController * bool :=
  match indices with
  | [] => (s, false)
  | i :: indices =>
      if test s i then
        let s := body s i in
        if stop && failed s then (s, true) else each test body stop indices s
      else each test body stop indices s
  end.

Definition modifier_indices : list Z := seqZ 0xE0 8.
Definition button_indices : list Z := seqZ 0 5.
Definition ordinary_indices : list Z := filter (fun i => usage_is_modifier i = false) (seqZ 0 256).

Definition key_to_press (s : SourceController) (u : Z) : bool :=
  bool_decide (u ∈ k_keys (s_ledger s)) && negb (bool_decide (u ∈ k_remote_keys (s_ledger s))).
Definition key_to_release (s : SourceController) (u : Z) : bool :=
  bool_decide (u ∈ k_remote_keys (s_ledger s)) && negb (bool_decide (u ∈ k_keys (s_ledger s))).
Definition button_to_press (s : SourceController) (i : Z) : bool :=
  bool_decide (i ∈ k_buttons (s_ledger s)) && negb (bool_decide (i ∈ k_remote_buttons (s_ledger s))).
Definition button_to_release (s : SourceController) (i : Z) : bool :=
  bool_decide (i ∈ k_remote_buttons (s_ledger s)) && negb (bool_decide (i ∈ k_buttons (s_ledger s))).
Definition single_down (s : SourceController) (i : Z) : SourceController := button_down s i SINGLE_CLICK.

Definition transfer_to_remote (s : SourceController) : SourceController :=
  let s := set_clicks s (reset_counter (k_clicks (s_ledger s))) in
  let '(s, stopped) := each key_to_press key_down true modifier_indices s in
  if stopped then s else fst (each button_to_press single_down true button_indices s).

(** The number of keys and buttons whose two flags differ. *)
Definition changes_pending (s : SourceController) : nat :=
  (length (filter (fun u => xorb (bool_decide (u ∈ k_keys (s_ledger s)))
                              (bool_decide (u ∈ k_remote_keys (s_ledger s))) = true) (seqZ 0 256))
   + length (filter (fun i => xorb (bool_decide (i ∈ k_buttons (s_ledger s)))
                              (bool_decide (i ∈ k_remote_buttons (s_ledger s))) = true)
       button_indices))%nat.

Definition synchronize_reanchored_remote_input (s : SourceController) : SourceController :=
  let s := set_clicks s (reset_counter (k_clicks (s_ledger s))) in
  let waiting := (if has_waiting (o_pacer (s_out s)) then 1 else 0)%nat in
  if (MAX_SOURCE_EFFECTS - length (o_effects (s_out s)) <? changes_pending s + waiting)%nat
  then fail s SEffectCapacityExceeded
  else
    let s := fst (each key_to_release key_up false ordinary_indices s) in
    let s := fst (each key_to_release key_up false modifier_indices s) in
    let s := fst (each button_to_release button_up false button_indices s) in
    let s := fst (each key_to_press key_down false modifier_indices s) in
    let s := fst (each key_to_press key_down false ordinary_indices s) in
    fst (each button_to_press single_down false button_indices s).

(** ** Time and health *)

Definition observe_time (s : SourceController) (now : Z) : SourceController * bool :=
  if now <? s_last_now s then (fail s SClockRegression, false) else (set_last_now s now, true).

Definition send_hold_barrier (s : SourceController) (now : Z) : SourceController :=
  let s := push_input s MsgReleaseAll in
  if failed s then s
  else
    let s := set_acks_pending s (saturating_add_u32 (l_acks_pending (s_link s)) 1) in
    set_barrier_sent_at s now.

(** [hold] after ownership is home and the barrier sent: the pointer comes home,
    and the controller waits for the link. *)
Definition hold_route (s : SourceController) (restore_pending native : bool)
    (restore : PointerTarget * Point) : SourceController * bool :=
  if restore_pending then (s, true)
  else if native then
    let '(s, request) :=
      request_route s (fun request =>
        RestoreLocalAt request (Ownership.display (fst restore)) (snd restore)) in
    match request with
    | None => (s, false)
    | Some request =>
        (set_state s (SAwaitLocalBarrier (fst restore) (snd restore) request None), true)
    end
  else (set_state s (SLocal (fst restore) (Some (snd restore))), true).

Definition begin_hold (s : SourceController) (now : Z) : SourceController :=
  let s := clear_pushes (set_held_since s (Some now)) in
  set_holds (set_pong_seen s false) (saturating_add_u32 (l_holds (s_link s)) 1).

Definition hold (s : SourceController) (now : Z) : SourceController :=
  let '(h, r) := SessionHealth.hold (l_health (s_link s)) now in
  let s := set_health s h in
  match r with
  | Err e => fail s (SPeerHealth e)
  | Ok _ =>
      let s := set_quality s (fst (held_at (l_quality (s_link s)) now)) in
      let restore_pending := match s_state s with SAwaitLocalBarrier _ _ _ _ => true | _ => false end in
      let native := native_may_be_remote s in
      let restore := failure_restore_target s in
      let owed := match s_state s with SAwaitRelease _ => 1 | _ => 0 end in
      let '(s, ok) := recover_ownership_at s (fst restore) in
      if negb ok then fail s SOwnership
      else
        let s := set_acks_pending s (saturating_add_u32 (l_acks_pending (s_link s)) owed) in
        let s := send_hold_barrier s now in
        if failed s then s
        else
          let s := clear_remote_delivery (set_remote_target s None) in
          let '(s, ok) := hold_route s restore_pending native restore in
          if ok then begin_hold s now else s
  end.

Definition check_health (s : SourceController) (now : Z) : SourceController * bool :=
  if is_held s then (s, true)
  else
    let '(h, r) := check (l_health (s_link s)) now in
    let s := set_health s h in
    match r with
    | Ok _ => (s, true)
    | Err DeadlineExpired => let s := hold s now in (s, negb (failed s))
    | Err e => (fail s (SPeerHealth e), false)
    end.

(** [observe_time(..) && check_health(..)]. *)
Definition observe (s : SourceController) (now : Z) : SourceController * bool :=
  let '(s, ok) := observe_time s now in
  if ok then check_health s now else (s, false).

Definition try_resume (s : SourceController) (now : Z) : SourceController :=
  match l_held_since (s_link s) with
  | None => s
  | Some since =>
      if (0 <? l_acks_pending (s_link s)) || negb (l_pong_seen (s_link s)) then s
      else
        let '(h, r) := resume (l_health (s_link s)) now in
        let s := set_health s h in
        match r with
        | Err e =>
            set_failure s (Some (match s_failure s with Some f => f | None => SPeerHealth e end))
        | Ok _ =>
            let s := set_held_max s (Z.max (l_held_max (s_link s)) (saturating_sub now since)) in
            set_pong_seen (set_held_since s None) false
        end
  end.

Definition should_retreat (s : SourceController) (now : Z) : bool :=
  (remote_may_hold s || native_may_be_remote s)
  && (RETREAT_AFTER <=? saturating_sub now (last_response (l_health (s_link s)))).

Definition challenge_peer (s : SourceController) (token now : Z) : SourceController :=
  push_control (set_quality s (challenge_sent (l_quality (s_link s)) token now)) (MsgPing token).

Definition on_pong (s : SourceController) (token now : Z) : SourceController :=
  let '(s, answered) :=
    if is_held s then
      let '(h, r) := receive_pong_while_held (l_health (s_link s)) token now in
      let s := set_health s h in
      match r with
      | Ok fresh => ((if fresh then try_resume (set_pong_seen s true) now else s), true)
      | Err e => (fail s (SPeerHealth e), false)
      end
    else
      let '(h, r) := receive_pong (l_health (s_link s)) token now in
      let s := set_health s h in
      match r with Ok _ => (s, true) | Err e => (fail s (SPeerHealth e), false) end in
  if answered then set_quality s (fst (reply (l_quality (s_link s)) token now)) else s.

(** [PeerHealth::poll] or its variant while held: a challenge, or an error. *)
Definition tick_held (s : SourceController) (since now : Z) : SourceController :=
  if HOLD_LIMIT <=? saturating_sub now since then fail s (SPeerHealth DeadlineExpired)
  else
    let s := if (l_acks_pending (s_link s) =? 0)
                && (BARRIER_RESEND_AFTER <=? saturating_sub now (l_barrier_sent_at (s_link s)))
             then send_hold_barrier s now else s in
    if failed s then s
    else
      let '(h, r) := poll_while_held (l_health (s_link s)) now in
      let s := set_health s h in
      match r with
      | Ok (Some token) => challenge_peer s token now
      | Ok None => s
      | Err e => fail s (SPeerHealth e)
      end.

Definition send_due (s : SourceController) (now : Z) : SourceController :=
  if failed s then s
  else
    let '(pacer, position) :=
      due (o_pacer (s_out s)) (motion_interval (tier (l_quality (s_link s)))) now in
    let s := set_pacer s pacer in
    match position with Some p => send_position s p | None => s end.

Definition tick_live (s : SourceController) (now : Z) : SourceController :=
  let '(h, r) := poll (l_health (s_link s)) now in
  let s := set_health s h in
  send_due
    (match r with
     | Ok (Some token) => challenge_peer s token now
     | Ok None => s
     | Err DeadlineExpired => hold s now
     | Err e => fail s (SPeerHealth e)
     end) now.

Definition tick (s : SourceController) (now : Z) : SourceController :=
  if failed s then s
  else
    let '(s, ok) := observe_time s now in
    if negb ok then s
    else
      let s := set_quality s (fst (SessionQuality.tick (l_quality (s_link s)) now)) in
      match l_held_since (s_link s) with
      | Some since => tick_held s since now
      | None => if should_retreat s now then hold s now else tick_live s now
      end.

Definition suppression_budget (s : SourceController) (now : Z)
  : SourceController * result SourceFailure Z :=
  match s_failure s with
  | Some f => (s, Err f)
  | None =>
      if now <? s_last_now s then (s, Err SClockRegression)
      else
        let s := set_last_now s now in
        if is_held s then (s, Err (SPeerHealth DeadlineExpired))
        else if cr_remote (s_route s) && negb (cr_owned (s_route s)) then (s, Err SOwnership)
        else
          let '(h, r) := remaining (l_health (s_link s)) now in
          (set_health s h, map_err SPeerHealth r)
  end.

Definition observe_path (s : SourceController) (sample : PathSample) (now : Z) : SourceController :=
  set_quality s (fst (path (l_quality (s_link s)) sample (Z.max now (s_last_now s)))).

(** ** Seams *)

Section Seams.
Context `{Libm}.

Definition set_local (s : SourceController) (target : PointerTarget) (cursor : option Point)
  : SourceController := set_state s (SLocal target cursor).

(** The largest hysteresis of the links that leave [id] through [e]. *)
Definition seam_hysteresis (s : SourceController) (id : DisplayId) (e : Edge) : option f64 :=
  foldl (fun largest l =>
    if (from_display l =? id) && bool_decide (from_edge l = e)
    then Some (match largest with None => hysteresis l | Some p => f64_max p (hysteresis l) end)
    else largest) None (links (topology_of s)).

(** The loop of [linked_edge] over its candidate edges. *)
Fixpoint try_edges (s : SourceController) (id : DisplayId) (d : Display) (anchor : Point)
    (toward : option Point) (guarded : option Edge) (onto : EdgeTransition -> bool)
    (edges : list Edge) : option (result () (option (Edge * EdgeTransition))) :=
  match edges with
  | [] => Some (Ok None)
  | e :: edges =>
      let next := try_edges s id d anchor toward guarded onto edges in
      if bool_decide (guarded = Some e)
         || match toward with Some delta => f64_leb (outward e delta) f64_zero | None => false end
         || negb (at_physical_edge d anchor e)
      then next
      else match seam_hysteresis s id e with
      | None => next
      | Some hyst =>
          r ← transition_for_motion (topology_of s) id anchor (project_past_edge (bounds d) anchor e hyst);
          match r with
          | Err _ => Some (Err ())
          | Ok (Some t) => if onto t then Some (Ok (Some (e, t))) else next
          | Ok None => next
          end
      end
  end.

Definition edge_order : list Edge := [RightEdge; LeftEdge; BottomEdge; TopEdge].

Definition linked_edge (s : SourceController) (id : DisplayId) (anchor : Point) (toward : option Point)
    (guarded : option Edge) (onto : EdgeTransition -> bool)
  : option (result () (option (Edge * EdgeTransition))) :=
  match display_at s id with
  | None => Some (Err ())
  | Some d =>
      let straight :=
        match toward with
        | Some _ => list_find (fun e => pushes e (recent_sum (e_recent (s_edges s))) = true) edge_order
        | None => None
        end in
      let pushed := push_edge <$> filter (fun p => push_display p = id) (push_list (e_pushes (s_edges s))) in
      try_edges s id d anchor toward guarded onto
        (option_list (snd <$> straight) ++ pushed ++ edge_order)
  end.

Definition guarded_entry_edge (s : SourceController) (id : DisplayId) (position : Point)
  : SourceController * option Edge :=
  match e_guard (s_edges s) with
  | None => (s, None)
  | Some (guarded, e) =>
      let holding :=
        (guarded =? id)
        && match display_at s id with
           | Some d =>
               f64_ltb (f64_abs (distance_inside (bounds d) position e)) (release_distance (bounds d) e)
           | None => false
           end in
      if holding then (s, Some e) else (set_entry_guard s None, None)
  end.

Definition held_at_entry_edge (s : SourceController) (id : DisplayId) (p : Point)
    (guarded : option Edge) : Point :=
  match guarded, display_at s id with
  | Some e, Some d => stop_at_edge (bounds d) e p
  | _, _ => p
  end.

Definition carried_into (s : SourceController) (t : EdgeTransition) (beyond gain speed : f64)
  : option EdgeTransition :=
  let by_ := f64_mul beyond (travel_on s (tr_to t) gain speed) in
  let entry := tr_entry t in
  let carried :=
    match tr_to_edge t with
    | LeftEdge => mkPoint (f64_add (px entry) by_) (py entry)
    | RightEdge => mkPoint (f64_sub (px entry) by_) (py entry)
    | TopEdge => mkPoint (px entry) (f64_add (py entry) by_)
    | BottomEdge => mkPoint (px entry) (f64_sub (py entry) by_)
    end in
  if f64_ltb f64_zero by_ then
    inside ← inside_display s (tr_to t) carried;
    Some (match inside with
          | None => t
          | Some inside =>
              mkTransition (tr_from t) (tr_to t) (tr_from_edge t) (tr_to_edge t) (tr_crossing t)
                (if on_axis_x (tr_to_edge t) then mkPoint (px inside) (py entry)
                 else mkPoint (px entry) (py inside))
          end)
  else Some t.

(** Each slot of [touching]: a push on [id] whose edge [p] still touches. *)
Definition touches (s : SourceController) (id : DisplayId) (p : Point) (push : EdgePush) : bool :=
  (push_display push =? id)
  && match display_at s id with Some d => at_physical_edge d p (push_edge push) | None => false end.

Definition add_recent (s : SourceController) (delta : Point) (now : Z) : SourceController :=
  set_recent_motion s (recent_add (e_recent (s_edges s)) delta now).

(** The displays of this computer in use that contain a point. *)
Definition local_target_at (s : SourceController) (p : Point) : result () (option PointerTarget) :=
  match filter (fun d => bool_decide (d_machine d = machine (home_of s)) && d_in_use d
                         && contains_half_open (bounds d) p = true)
          (snd <$> map_to_list (displays (topology_of s))) with
  | [] => Ok None
  | [d] => Ok (Some (mkTarget (machine (home_of s)) (d_id d)))
  | _ => Err ()
  end.

Definition adopt_local_target (s : SourceController) (target : PointerTarget) (cursor : Point)
  : SourceController :=
  let '(s, ep) := begin_ownership_transition s target in
  match ep with
  | None => s
  | Some ep =>
      let '(s, ok) := acknowledge s target ep in
      if negb ok then fail s SOwnership
      else set_local (clear_pushes s) target (Some cursor)
  end.

(** [begin_remote_activation] from the new epoch on. *)
Definition open_activation (s : SourceController) (a : Activation) (to_edge : Edge)
  : option SourceController :=
  let s := set_entry_guard s (Some (Ownership.display (a_target a), to_edge)) in
  let s := if a_already_remote a then clear_pushes s else s in
  let s := set_state s (SAwaitActivation a) in
  p ← peer_point s (Ownership.display (a_target a)) (a_entry a);
  Some (push_input s (MsgActivateDisplayAt (Ownership.display (a_target a)) p
          (asks_translation s (Ownership.display (a_target a))))).

Definition begin_remote_activation (s : SourceController) (target : PointerTarget) (entry : Point)
    (to_edge : Edge) (return_target : PointerTarget) (return_position : Point)
    (already_remote : bool) : option SourceController :=
  let '(s, ep) := begin_ownership_transition s target in
  match ep with
  | None => Some s
  | Some ep =>
      match checked_add_u64 (o_epoch (s_out s)) 1 with
      | None => Some (fail s SProtocolEpochExhausted)
      | Some next =>
          let '(s, ok) := flush_motion s in
          if negb ok then Some s
          else
            open_activation (set_input_sequence (set_input_epoch s next) 0)
              (mkActivation target entry return_target return_position ep already_remote point_zero
                 None false) to_edge
      end
  end.

(** The decline that holds a seam, and whether it may be tried again. *)
Definition declined_retry (s : SourceController) (from target : PointerTarget)
  : SourceController * bool :=
  match s_declined s with
  | Some (from_id, to_id, since, last) =>
      if (from_id =? Ownership.display from) && (to_id =? Ownership.display target) then
        let now := s_last_now s in
        let since := if DECLINE_RETRY_AFTER <? saturating_sub now last then now else default now since in
        (set_declined s (Some (from_id, to_id, Some since, now)),
         DECLINE_RETRY_AFTER <=? saturating_sub now since)
      else (s, true)
  | None => (s, true)
  end.

(** [begin_edge_transition] once the crossing is onto the peer and its return
    position is known. *)
Definition cross_to_peer (s : SourceController) (from target : PointerTarget) (t : EdgeTransition)
    (return_position : Point) : option SourceController :=
  if is_held s || negb (s_capture_ready s)
     || negb (bool_decide (c_peer (s_config s) = Some (machine target)))
  then Some (set_local s from (Some return_position))
  else
    let '(s, allowed) := local_crossing_allowed s in
    if negb allowed then Some s
    else if c_pointer_confined (s_config s)
    then Some (set_local (clear_pushes s) from (Some return_position))
    else
      let '(s, retry) := declined_retry s from target in
      if negb retry then Some s
      else
        let floor := f_floor (s_floor s) in
        let '(f, r) := floor_claim floor floor Requesting (c_slot (s_config s)) in
        let s := set_floor_word s f in
        match r with
        | Err _ => Some s
        | Ok requesting =>
            let s := set_declined (set_floor_claim s (Some requesting)) None in
            begin_remote_activation s target (tr_entry t) (tr_to_edge t) from return_position false
        end.

Definition begin_edge_transition (s : SourceController) (from : PointerTarget) (t : EdgeTransition)
  : option SourceController :=
  match machine_for_display (topology_of s) (tr_to t) with
  | Err _ => Some (fail s STopology)
  | Ok m =>
      let target := mkTarget (m_id m) (tr_to t) in
      if bool_decide (machine target = machine from)
      then Some (adopt_local_target s target (tr_entry t))
      else
        position ← inside_display s (Ownership.display from) (tr_crossing t);
        match position with
        | None => Some (fail s STopology)
        | Some position => cross_to_peer s from target t position
        end
  end.

(** ** Local motion *)

(** The decline forgotten once the pointer no longer presses its seam. *)
Definition note_pressing (s : SourceController) (current : Point) : SourceController :=
  match s_declined s with
  | Some (from, to, _, last) =>
      let pressing :=
        match display_at s from with
        | Some d =>
            existsb (fun l => (from_display l =? from) && (to_display l =? to)
                              && at_physical_edge d current (from_edge l)) (links (topology_of s))
        | None => false
        end in
      if pressing then s else set_declined s (Some (from, to, None, last))
  | None => s
  end.

(** The push of an absolute sample against the seam it found. *)
Definition push_absolute (s : SourceController) (target : PointerTarget) (cursor : option Point)
    (current : Point) (now : Z) (e : Edge) (t : EdgeTransition) : option SourceController :=
  match display_at s (Ownership.display target) with
  | None => Some (fail s STopology)
  | Some d =>
      let '(ps, through) :=
        push_to (e_pushes (s_edges s)) (Ownership.display target) e (bounds d) cursor current now in
      let s := set_edge_pushes s ps in
      match through with
      | None => Some s
      | Some beyond =>
          let gain := f64_div f64_one (logical_scale s (Ownership.display target)) in
          t ← carried_into s t beyond gain (pointer_speed s);
          begin_edge_transition s target t
      end
  end.

(** [apply_local_motion] once no crossing stays on this computer: the seam the
    anchor rests on is pushed. *)
Definition press_seam (s : SourceController) (target : PointerTarget) (cursor : option Point)
    (anchor current : Point) (now : Z) (guarded : option Edge) : option SourceController :=
  let s := set_local s target (Some anchor) in
  r ← linked_edge s (Ownership.display target) anchor None guarded (fun t => is_ours s (tr_to t));
  match r with
  | Err _ => Some (fail s STopology)
  | Ok (Some (e, t)) =>
      if is_home_display s (tr_to t) then Some (clear_pushes s)
      else push_absolute s target cursor current now e t
  | Ok None => Some (clear_pushes s)
  end.

(** [apply_local_motion] for a sample on the display the pointer is on, or past
    its edge. *)
Definition move_local (s : SourceController) (target : PointerTarget) (cursor previous : option Point)
    (anchor current : Point) (now : Z) (guarded : option Edge) : option SourceController :=
  transition ←
    match previous with
    | Some previous =>
        transition_for_motion (topology_of s) (Ownership.display target) previous
          (held_at_entry_edge s (Ownership.display target) current guarded)
    | None => Some (Ok None)
    end;
  match transition with
  | Err _ => Some (fail s STopology)
  | Ok (Some t) =>
      if is_home_display s (tr_to t) then begin_edge_transition s target t
      else press_seam s target cursor anchor current now guarded
  | Ok None => press_seam s target cursor anchor current now guarded
  end.

Definition apply_local_motion (s : SourceController) (current : Point) (now : Z)
  : option SourceController :=
  match s_state s with
  | SLocal target cursor =>
      let '(s, guarded) := guarded_entry_edge s (Ownership.display target) current in
      let s := note_pressing s current in
      match local_target_at s current with
      | Err _ => Some (fail s STopology)
      | Ok (Some found) =>
          if bool_decide (found = target)
          then move_local s target cursor cursor current current now guarded
          else Some (adopt_local_target s found current)
      | Ok None =>
          edge ← inside_display s (Ownership.display target) current;
          let edge := default current edge in
          move_local s target cursor (Some edge) edge current now guarded
      end
  | _ => Some s
  end.

Definition apply_local_relative (s : SourceController) (m : Relative) (now : Z)
  : option SourceController :=
  let delta := rel_delta m in
  let s := add_recent s delta now in
  match s_state s with
  | SLocal target (Some anchor) =>
      let s := set_edge_pushes s
        (end_pushes (fun p => (push_display p =? Ownership.display target)
                              && f64_ltb (outward (push_edge p) delta) f64_zero)
           (e_pushes (s_edges s))) in
      let '(s, guarded) := guarded_entry_edge s (Ownership.display target) anchor in
      r ← linked_edge s (Ownership.display target) anchor (Some delta) guarded
            (fun t => is_ours s (tr_to t));
      match r with
      | Err _ => Some (fail s STopology)
      | Ok None => Some s
      | Ok (Some (e, t)) =>
          if is_home_display s (tr_to t) then begin_edge_transition s target t
          else
            let '(ps, through) :=
              push_by (e_pushes (s_edges s)) (e_recent (s_edges s)) (Ownership.display target) e delta
                now in
            let s := set_edge_pushes s ps in
            match through with
            | None => Some s
            | Some beyond =>
                t ← carried_into s t beyond (rel_gain m) (rel_speed m);
                begin_edge_transition s target t
            end
      end
  | _ => Some s
  end.

(** [carry_pending]: the motion carried on, and whether a handover carries it. *)
Definition carry_pending (s : SourceController) (m : Relative) : SourceController * bool :=
  let moved (onto : DisplayId) := scaled (rel_delta m) (travel_on s onto (rel_gain m) (rel_speed m)) in
  match s_state s with
  | SAwaitActivation a =>
      (set_state s (SAwaitActivation (mkActivation (a_target a) (a_entry a) (a_return_target a)
         (a_return_position a) (a_ownership_epoch a) (a_already_remote a)
         (point_add (a_carried a) (moved (Ownership.display (a_target a)))) (a_at_button a)
         (a_handover a))), true)
  | SAwaitRemoteBarrier b =>
      (set_state s (SAwaitRemoteBarrier (mkRemoteBarrier (b_target b) (b_position b)
         (point_add (b_carried b) (moved (Ownership.display (b_target b)))) (b_return_target b)
         (b_return_position b) (b_request b) (b_ticket b))), true)
  | SAwaitRelease r =>
      match rl_carried r with
      | None => (s, false)
      | Some carried =>
          let onto := match rl_handover r with
                      | Some h => Ownership.display (ht_to h)
                      | None => Ownership.display (rl_local r)
                      end in
          (set_state s (SAwaitRelease (mkReleasing (rl_local r) (rl_position r)
             (Some (point_add carried (moved onto))) (rl_ownership_epoch r) (rl_handover r))), true)
      end
  | _ => (s, false)
  end.

Definition apply_local (s : SourceController) (i : NormalizedInput) (now : Z)
  : option SourceController :=
  match i with
  | InKeyEvent usage pressed repeat modifiers =>
      let '(s, change) := update_key s usage pressed repeat modifiers in
      Some (match change with Some _ => s | None => fail s SInvalidKeyState end)
  | InButtonEvent button pressed _ => Some (fst (update_button s button pressed))
  | AbsoluteMotion current => apply_local_motion s current now
  | RelativeMotion delta gain =>
      let m := relative s delta gain in
      let '(s, carried) := carry_pending s m in
      if carried then Some s else apply_local_relative s m now
  | _ => Some s
  end.

(** ** Remote motion *)

Definition apply_remote_edge (s : SourceController) (from return_target : PointerTarget)
    (return_position : Point) (t : EdgeTransition) : option SourceController :=
  match machine_for_display (topology_of s) (tr_to t) with
  | Err _ => Some (fail s STopology)
  | Ok m =>
      let target := mkTarget (m_id m) (tr_to t) in
      if bool_decide (machine target = machine (home_of s)) then
        Some (begin_return_to s target (tr_entry t)
                (Some (Ownership.display target, tr_to_edge t)) None)
      else if bool_decide (machine target = machine from) then
        begin_remote_activation s target (tr_entry t) (tr_to_edge t) return_target return_position true
      else if may_hand_over_to s (Ownership.display target)
              && bool_decide (is_Some (f_claim (s_floor s)))
              && cr_remote (s_route s) && cr_owned (s_route s) then
        Some (begin_return_to s return_target return_position None
                (Some (mkHandoverTarget target (tr_entry t) (tr_to_edge t) None)))
      else Some (fail s STopology)
  end.

Definition set_carried (s : SourceController) (carried : Point) : SourceController :=
  match s_state s with
  | SAwaitActivation a =>
      set_state s (SAwaitActivation (mkActivation (a_target a) (a_entry a) (a_return_target a)
        (a_return_position a) (a_ownership_epoch a) (a_already_remote a) carried (a_at_button a)
        (a_handover a)))
  | _ => s
  end.

(** [apply_remote_motion] that neither goes on nor crosses: the pointer moved. *)
Definition move_remote (s : SourceController) (target : PointerTarget) (position next : Point)
    (return_target : PointerTarget) (return_position : Point) : option SourceController :=
  let s := set_edge_pushes s
    (end_pushes (fun p => negb (touches s (Ownership.display target) next p)) (e_pushes (s_edges s))) in
  let s := set_state s (SRemote target next return_target return_position) in
  if point_eqb next position then Some s
  else
    sent ← peer_point s (Ownership.display target) next;
    Some (push_input s (MsgMotion (Absolute sent))).

(** The push towards home, or on to a third computer, against the seam found. *)
Definition push_remote (s : SourceController) (m : Relative) (now : Z)
    (seam : option (Edge * EdgeTransition)) (target : PointerTarget)
  : SourceController * option (EdgeTransition * f64) :=
  match seam with
  | None => (s, None)
  | Some (e, t) =>
      let '(ps, through) :=
        push_by (e_pushes (s_edges s)) (e_recent (s_edges s)) (Ownership.display target) e (rel_delta m)
          now in
      (set_edge_pushes s ps, (fun beyond => (t, beyond)) <$> through)
  end.

Definition route_remote (s : SourceController) (m : Relative) (now : Z) (target : PointerTarget)
    (position desired next : Point) (return_target : PointerTarget) (return_position : Point)
    (b : LogicalRect) (onward seam home : option (Edge * EdgeTransition)) : option SourceController :=
  let heading := recent_sum (e_recent (s_edges s)) in
  let homeward := match home with Some (e, _) => pushes e heading | None => false end in
  match (if homeward then None else onward) with
  | Some (e, t) =>
      s ← apply_remote_edge s target return_target return_position t;
      Some (set_carried s (past_edge b desired e))
  | None =>
      let '(s, crossing) := push_remote s m now seam target in
      match crossing with
      | Some (t, beyond) =>
          t ← carried_into s t beyond (rel_gain m) (rel_speed m);
          apply_remote_edge s target return_target return_position t
      | None => move_remote s target position next return_target return_position
      end
  end.

Definition apply_remote_motion (s : SourceController) (m : Relative) (now : Z)
  : option SourceController :=
  match s_state s with
  | SRemote target position return_target return_position =>
      let delta := rel_delta m in
      let s := add_recent s delta now in
      let id := Ownership.display target in
      match display_at s id with
      | None => Some (fail s STopology)
      | Some d =>
          let b := bounds d in
          let units := f64_mul (rel_gain m) (logical_scale s id) in
          let desired := point_add position (scaled delta (f64_mul units (rel_speed m))) in
          if negb (point_is_finite desired) then Some (fail s SInvalidCapturedInput)
          else
            let '(s, guarded) := guarded_entry_edge s id position in
            let desired := held_at_entry_edge s id desired guarded in
            next ← clamp_half_open b desired;
            let stopped := point_sub desired next in
            let heading := recent_sum (e_recent (s_edges s)) in
            let within t := is_display_of s (machine target) (tr_to t) in
            let away t := is_home_display s (tr_to t) || may_hand_over_to s (tr_to t) in
            onward ← linked_edge s id next (Some stopped) guarded within;
            seam ← linked_edge s id position (Some delta) guarded away;
            home ← linked_edge s id position (Some heading) guarded away;
            match onward, seam, home with
            | Ok onward, Ok seam, Ok home =>
                route_remote s m now target position desired next return_target return_position b
                  onward seam home
            | _, _, _ => Some (fail s STopology)
            end
      end
  | _ => Some s
  end.

(** ** Remote input *)

Definition forwarding (s : SourceController) : bool :=
  match s_state s with SRemote _ _ _ _ => true | _ => false end.

Definition remote_key (s : SourceController) (usage : HidUsage) (pressed repeat : bool)
    (modifiers : ModifierState) : SourceController :=
  let forward := forwarding s in
  let '(s, change) := update_key s usage pressed repeat modifiers in
  match change with
  | None => fail s SInvalidKeyState
  | Some change =>
      if negb forward then s
      else if pressed && negb (was_physical change) then key_down s usage
      else if pressed && bool_decide (usage ∈ k_remote_keys (s_ledger s)) && repeat
      then key_repeat s usage
      else if negb pressed && was_remote change then key_up s usage
      else s
  end.

(** A button changed in flight marks where the hand was. *)
Definition mark_button (s : SourceController) : SourceController :=
  match s_state s with
  | SAwaitActivation a =>
      if a_already_remote a then
        set_state s (SAwaitActivation (mkActivation (a_target a) (a_entry a) (a_return_target a)
          (a_return_position a) (a_ownership_epoch a) (a_already_remote a) (a_carried a)
          (Some (default (a_carried a) (a_at_button a))) (a_handover a)))
      else s
  | SAwaitRelease r =>
      match rl_carried r, rl_handover r with
      | Some carried, Some h =>
          set_state s (SAwaitRelease (mkReleasing (rl_local r) (rl_position r) (Some carried)
            (rl_ownership_epoch r)
            (Some (mkHandoverTarget (ht_to h) (ht_entry h) (ht_to_edge h)
               (Some (default carried (ht_at_button h)))))))
      | _, _ => s
      end
  | _ => s
  end.

Definition remote_button (s : SourceController) (button : MouseButton) (pressed : bool) (at_ : Z)
  : SourceController :=
  let '(s, change) := update_button s button pressed in
  let s := if Bool.eqb (was_physical change) pressed then s else mark_button s in
  match s_state s with
  | SRemote _ position _ _ =>
      let i := button_index button in
      if pressed && negb (was_physical change) then
        let '(counter, clicks) := press (k_clicks (s_ledger s)) button position at_ in
        button_down (set_clicks s counter) i clicks
      else if negb pressed && was_remote change then button_up s i
      else s
  | _ => s
  end.

Definition apply_remote (s : SourceController) (i : NormalizedInput) (now : Z)
  : option SourceController :=
  match i with
  | InKeyEvent usage pressed repeat modifiers => Some (remote_key s usage pressed repeat modifiers)
  | InButtonEvent button pressed at_ => Some (remote_button s button pressed at_)
  | RelativeMotion delta gain =>
      let m := relative s delta gain in
      if forwarding s then apply_remote_motion s m now else Some (fst (carry_pending s m))
  | InScroll h v =>
      Some (if forwarding s && (negb (f64_eqb h f64_zero) || negb (f64_eqb v f64_zero))
            then push_input s (MsgScroll h v) else s)
  | InGesture g => Some (if forwarding s then push_input s (MsgGesture g) else s)
  | InSystemGesture g => Some (if forwarding s then push_input s (MsgSystemGesture g) else s)
  | AbsoluteMotion _ | RouteChanged _ _ => Some s
  end.
End Seams.

(** ** Calls: captured input *)

Section Calls.
Context `{Libm}.

Definition on_route_changed (s : SourceController) (remote : bool) (revision : Z)
  : option SourceController :=
  match s_state s with
  | SAwaitRemoteBarrier b =>
      if remote && bool_decide (b_ticket b = Some revision) then
        let s := set_route s (mkRoute remote revision true) in
        let s := transfer_to_remote s in
        landed ← carried_on s (Ownership.display (b_target b)) (b_position b) (b_carried b);
        if failed s then Some s
        else
          let s := set_state s (SRemote (b_target b) landed (b_return_target b) (b_return_position b)) in
          if point_eqb landed (b_position b) then Some s
          else
            sent ← peer_point s (Ownership.display (b_target b)) landed;
            Some (push_input s (MsgMotion (Absolute sent)))
      else Some (fail s SUnexpectedRouteBarrier)
  | SAwaitLocalBarrier local position _ ticket =>
      if negb remote && bool_decide (ticket = Some revision) then
        let s := set_anchored_return (set_route s (mkRoute remote revision true)) true in
        Some (set_local s local (Some position))
      else Some (fail s SUnexpectedRouteBarrier)
  | _ => Some (fail s SUnexpectedRouteBarrier)
  end.

(** Whether a motion record belongs to the floor this computer holds. *)
Definition motion_permitted (s : SourceController) (r : TaggedInput) : SourceController * bool :=
  match event r with
  | AbsoluteMotion _ | RelativeMotion _ _ =>
      let floor := f_floor (s_floor s) in
      if carries_pending_motion s then
        (s, match event r with RelativeMotion _ _ => true | _ => false end
            && claimed_generation s (floor_generation r))
      else if cr_remote (s_route s) then
        (s, bool_decide (state floor = Sending) && (floor_generation r =? generation floor))
      else
        let '(s, allowed) := local_crossing_allowed s in
        (s, allowed && (floor_generation r =? f_free_generation (s_floor s)))
  | _ => (s, true)
  end.

Definition captured (s : SourceController) (r : TaggedInput) (now : Z) : option SourceController :=
  if failed s then Some s
  else
    let '(s, ok) := observe s now in
    if negb ok || negb (input_is_valid (event r))
    then Some (if failed s then s else fail s SInvalidCapturedInput)
    else match event r with
    | RouteChanged remote revision =>
        if negb (Bool.eqb (tag_remote r) remote) || negb (routing_revision r =? revision)
        then Some (fail s SRouteMismatch)
        else on_route_changed s remote revision
    | i =>
        if negb (Bool.eqb (tag_remote r) (cr_remote (s_route s)))
           || negb (routing_revision r =? cr_revision (s_route s))
        then Some (fail s SRouteMismatch)
        else
          let '(s, permitted) := motion_permitted s r in
          if negb permitted then Some s
          else if cr_remote (s_route s) then apply_remote s i now else apply_local s i now
    end.
Definition on_captured (s : SourceController) (r : TaggedInput) (now : Z) :=
  finish (captured (fresh s) r now).

(** [bookkeeping]. *)
Definition book (s : SourceController) (r : TaggedInput) : option SourceController :=
  match event r with
  | (InKeyEvent _ _ _ _ | InButtonEvent _ _ _) as i => apply_local s i (s_last_now s)
  | _ => Some s
  end.
Definition bookkeeping (s : SourceController) (r : TaggedInput) := finish (book (fresh s) r).

(** [observe_pointer] while input is routed locally on a settled display. *)
Definition poll_pointer (s : SourceController) (p : Point) (now : Z) : option SourceController :=
  let '(s, allowed) := local_crossing_allowed s in
  if bool_decide (state (f_floor (s_floor s)) = Free) && f_rebase_pointer (s_floor s) then
    s ← match local_target_at s p, s_state s with
        | Ok (Some target), SLocal old _ =>
            Some (if bool_decide (old = target) then set_local s target (Some p)
                  else adopt_local_target s target p)
        | _, SLocal target _ =>
            q ← inside_display s (Ownership.display target) p; Some (set_local s target q)
        | _, _ => Some s
        end;
    Some (clear_pushes (set_rebase_pointer s false))
  else if allowed then apply_local_motion s p now else Some s.
Definition pointer_polled (s : SourceController) (p : Point) (now : Z) : option SourceController :=
  if failed s || negb (point_is_finite p) then Some s
  else
    let '(s, ok) := observe s now in
    if negb ok then Some s
    else if negb (cr_remote (s_route s)) && is_local s then poll_pointer s p now else Some s.
Definition observe_pointer (s : SourceController) (p : Point) (now : Z) :=
  finish (pointer_polled (fresh s) p now).

(** ** Calls: native routes *)

Definition bind_ticket (s : SourceController) (request ticket : Z) : SourceController :=
  match s_state s with
  | SAwaitRemoteBarrier b =>
      if (b_request b =? request) && bool_decide (b_ticket b = None)
      then set_state s (SAwaitRemoteBarrier (mkRemoteBarrier (b_target b) (b_position b) (b_carried b)
             (b_return_target b) (b_return_position b) (b_request b) (Some ticket)))
      else fail s SRouteMismatch
  | SAwaitLocalBarrier local position expected bound =>
      if (expected =? request) && bool_decide (bound = None)
      then set_state s (SAwaitLocalBarrier local position expected (Some ticket))
      else fail s SRouteMismatch
  | SFailed =>
      if bool_decide (s_failed_request s = Some request) then set_failed_request s None
      else fail s SRouteMismatch
  | _ => fail s SRouteMismatch
  end.
(** A failed controller still hears of the restore its failure asked for. *)
Definition ignores (s : SourceController) (request : Z) : bool :=
  failed s && negb (bool_decide (s_failed_request s = Some request)).
Definition bind_capture_route (s : SourceController) (request ticket now : Z) :=
  let s := fresh s in
  outcome
    (if ignores s request then s
     else
       let '(s, ok) := observe_time s now in
       if negb ok then s
       else if (ticket =? 0) || (ticket <=? cr_revision (s_route s)) then fail s SRouteMismatch
       else bind_ticket s request ticket).

Definition fail_capture_route_submission (s : SourceController) (request now : Z) :=
  let s := fresh s in
  outcome
    (if ignores s request then s
     else let '(s, ok) := observe_time s now in if ok then fail s SNativeControl else s).

Definition refuse_capture_activation (s : SourceController) (request now : Z) :=
  let s := fresh s in
  outcome
    (if failed s then s
     else
       let '(s, ok) := observe_time s now in
       if negb ok then s
       else match s_state s with
       | SAwaitRemoteBarrier b =>
           if (b_request b =? request) && bool_decide (b_ticket b = None) then
             let s := set_take_back (set_capture_ready s false) false in
             let s := set_declined s (Some (Ownership.display (b_return_target b),
                        Ownership.display (b_target b), Some now, now)) in
             begin_return_to s (b_return_target b) (b_return_position b) None None
           else fail s SNativeControl
       | _ => fail s SNativeControl
       end).

Definition observe_foreign_route (s : SourceController) (remote : bool) (revision now : Z) :=
  let s := fresh s in
  outcome
    (if failed s then s
     else
       let '(s, ok) := observe_time s now in
       if negb ok then s
       else if negb (is_local s) || (revision <=? cr_revision (s_route s))
       then fail s SUnexpectedRouteBarrier
       else set_route s (mkRoute remote revision false)).

Definition abandon (s : SourceController) (now : Z) :=
  let s := fresh s in
  outcome (if failed s then s else fail (set_last_now s (Z.max (s_last_now s) now)) SLinkEnded).

Definition request_local (s : SourceController) (now : Z) :=
  let s := fresh s in
  outcome
    (if failed s then s
     else
       let '(s, ok) := observe s now in
       if negb ok then s
       else match s_state s with
       | SRemote _ _ return_target return_position =>
           begin_return_to s return_target return_position None None
       | _ => s
       end).

Definition source_tick (s : SourceController) (now : Z) := outcome (tick (fresh s) now).

(** ** Calls: frames of the peer *)

Definition activate_input_epoch (s : SourceController) (ep : Z) : SourceController * bool :=
  if match i_epoch (s_in s) with Some active => ep <=? active | None => false end then (s, false)
  else (set_inbound_sequence (set_inbound_epoch s (Some ep)) None, true).
Definition accept_input_sequence (s : SourceController) (seq : Z) : SourceController * bool :=
  if negb (bool_decide (i_epoch (s_in s) = Some (o_epoch (s_out s))))
     || match i_sequence (s_in s) with Some last => seq <=? last | None => false end
  then (s, false)
  else (set_inbound_sequence s (Some seq), true).
(** [inbound_input_epoch == Some(ep) || activate_input_epoch(ep)]. *)
Definition open_epoch (s : SourceController) (ep : Z) : SourceController * bool :=
  if bool_decide (i_epoch (s_in s) = Some ep) then (s, true) else activate_input_epoch s ep.

Definition on_ping (s : SourceController) (f : Frame) (token : Z) : SourceController :=
  let '(g, r) := accept_heartbeat (i_heartbeats (s_in s)) f in
  let s := set_heartbeats s g in
  if is_ok r then push_control s (MsgPong token) else s.
Definition on_pong_frame (s : SourceController) (f : Frame) (token now : Z) : SourceController :=
  let '(g, r) := accept_heartbeat (i_heartbeats (s_in s)) f in
  let s := set_heartbeats s g in
  if is_ok r then on_pong s token now else s.

Definition on_barrier_ack (s : SourceController) (f : Frame) (now : Z) : SourceController :=
  let '(s, opened) :=
    if bool_decide (i_epoch (s_in s) = Some (o_epoch (s_out s))) then (s, true)
    else activate_input_epoch s (epoch f) in
  if negb (epoch f =? o_epoch (s_out s)) || negb opened
  then fail s SInvalidReleaseAcknowledgement
  else
    let '(s, accepted) := accept_input_sequence s (sequence f) in
    if negb accepted then fail s SInvalidReleaseAcknowledgement
    else try_resume (set_acks_pending s (l_acks_pending (s_link s) - 1)) now.

Definition late_take_back (s : SourceController) (ep : Z) : bool :=
  (is_held s
   || match s_state s with SLocal _ _ | SAwaitLocalBarrier _ _ _ _ => true | _ => false end)
  && (ep <=? o_epoch (s_out s))
  && match i_epoch (s_in s) with Some opened => opened <=? ep | None => true end.

(** A take-back in the epoch before a reanchor's, and in the current one. *)
Definition take_back_before_reanchor (s : SourceController) (f : Frame) : bool :=
  match s_state s with SAwaitActivation a => a_already_remote a | _ => false end
  && bool_decide (i_epoch (s_in s) = Some (epoch f)) && (epoch f <? o_epoch (s_out s)).
Definition accept_take_back (s : SourceController) (f : Frame) : SourceController * bool :=
  if take_back_before_reanchor s f then
    if match i_sequence (s_in s) with Some last => last <? sequence f | None => true end
    then (set_inbound_sequence s (Some (sequence f)), true) else (s, false)
  else
    let '(s, opened) :=
      if bool_decide (i_epoch (s_in s) = Some (epoch f)) then (s, true)
      else if match s_state s with SAwaitActivation _ => true | _ => false end
              && (epoch f =? o_epoch (s_out s))
      then activate_input_epoch s (epoch f) else (s, false) in
    if (epoch f =? o_epoch (s_out s)) && opened then accept_input_sequence s (sequence f)
    else (s, false).
Definition on_take_back (s : SourceController) (f : Frame) : SourceController :=
  let '(s, accepted) := accept_take_back s f in
  if negb accepted && negb (late_take_back s (epoch f)) then fail s SInvalidRemoteFrame
  else if accepted
          && negb (match s_state s with
                   | SLocal _ _ | SAwaitLocalBarrier _ _ _ _ | SAwaitRelease _ => true
                   | _ => false
                   end)
  then set_take_back s true
  else s.

(** The activation was declined: the pointer stays home, or comes home when input
    was already remote. *)
Definition on_declined (s : SourceController) (a : Activation) (now : Z) : SourceController :=
  let '(s, ok) := recover_ownership_at s (a_return_target a) in
  if negb ok then fail s SOwnership
  else
    let s := set_take_back (clear_remote_delivery (set_remote_target s None)) false in
    let s := set_edge_pushes (set_entry_guard s None) (rearm_all (e_pushes (s_edges s))) in
    let s := set_declined s (Some (Ownership.display (a_return_target a),
               Ownership.display (a_target a), Some now, now)) in
    if a_already_remote a then
      let '(s, ok) := return_claim s in
      if negb ok then fail s SOwnership
      else
        set_state (push_input s MsgReleaseAll)
          (SAwaitRelease (mkReleasing (a_return_target a) (a_return_position a) None None None))
    else
      release_floor
        (set_anchored_return (set_local s (a_return_target a) (Some (a_return_position a))) true).

(** Buttons changed in flight land where the hand was then; it moves on after. *)
Definition land_reanchored (s : SourceController) (a : Activation) : option SourceController :=
  let id := Ownership.display (a_target a) in
  match display_at s id with
  | None => Some (fail s STopology)
  | Some d =>
      let landed (by_ : Point) := clamp_half_open (bounds d) (point_add (a_entry a) by_) in
      changed ← landed (default (a_carried a) (a_at_button a));
      position ← landed (a_carried a);
      s ← (if point_eqb changed (a_entry a) then Some s
           else sent ← peer_point s id changed; Some (push_input s (MsgMotion (Absolute sent))));
      let s := if a_handover a then transfer_to_remote s else synchronize_reanchored_remote_input s in
      s ← (if failed s || point_eqb position changed then Some s
           else sent ← peer_point s id position; Some (push_input s (MsgMotion (Absolute sent))));
      Some (if failed s then s
            else set_state s (SRemote (a_target a) position (a_return_target a) (a_return_position a)))
  end.

Definition request_native (s : SourceController) (a : Activation) : SourceController :=
  let '(s, request) := request_route s ActivateRemote in
  match request with
  | None => s
  | Some request =>
      set_state s (SAwaitRemoteBarrier (mkRemoteBarrier (a_target a) (a_entry a) (a_carried a)
        (a_return_target a) (a_return_position a) request None))
  end.

Definition on_activated (s : SourceController) (a : Activation) : option SourceController :=
  let s := landed s in
  let '(s, ok) :=
    if a_already_remote a then (s, true)
    else match f_claim (s_floor s) with Some owned => move_claim s owned Sending | None => (s, false) end in
  if negb ok then Some (fail s SOwnership)
  else
    let '(s, ok) := acknowledge s (a_target a) (a_ownership_epoch a) in
    if negb ok then Some (fail s SOwnership)
    else
      let s := set_remote_target s (Some (a_target a)) in
      if a_already_remote a then land_reanchored s a else Some (request_native s a).

Definition on_activation_reply (s : SourceController) (f : Frame) (a : Activation) (now : Z)
  : option SourceController :=
  let id := Ownership.display (a_target a) in
  let declined := match message f with MsgActivationDeclined d _ => d =? id | _ => false end in
  let acked := match message f with MsgActivationAck d => d =? id | _ => false end in
  if negb (epoch f =? o_epoch (s_out s)) || negb (declined || acked)
  then Some (fail s SInvalidActivationAcknowledgement)
  else
    let '(s, opened) := open_epoch s (epoch f) in
    if negb opened then Some (fail s SInvalidActivationAcknowledgement)
    else
      let '(s, accepted) := accept_input_sequence s (sequence f) in
      if negb accepted then Some (fail s SInvalidActivationAcknowledgement)
      else if declined then Some (on_declined s a now) else on_activated s a.

(** [complete_remote_release]: the pointer is handed on, or comes home. *)
Definition hand_on (s : SourceController) (r : Releasing) (h : HandoverTarget) : SourceController :=
  match f_claim (s_floor s) with
  | None => fail s SOwnership
  | Some claim =>
      let s := set_floor_claim s None in
      let s := set_handover s (Some (mkHandover (ht_to h) (ht_entry h) (ht_to_edge h)
                 (default point_zero (rl_carried r)) (ht_at_button h) (rl_local r) (rl_position r)
                 claim (f_free_generation (s_floor s)) (cr_revision (s_route s)))) in
      let s := set_route s (mkRoute (cr_remote (s_route s)) (cr_revision (s_route s)) false) in
      set_local (set_rebase_pointer s true) (rl_local r) None
  end.
Definition restore_local (s : SourceController) (r : Releasing) : option SourceController :=
  position ← carried_on s (Ownership.display (rl_local r)) (rl_position r)
               (default point_zero (rl_carried r));
  Some
    (if cr_remote (s_route s) then
       let '(s, request) :=
         request_route s (fun request => RestoreLocalAt request (Ownership.display (rl_local r)) position) in
       match request with
       | None => s
       | Some request => set_state s (SAwaitLocalBarrier (rl_local r) position request None)
       end
     else set_local s (rl_local r) (Some position)).
Definition complete_remote_release (s : SourceController) (r : Releasing) : option SourceController :=
  let '(s, ok) := match rl_ownership_epoch r with
                  | Some ep => acknowledge s (rl_local r) ep
                  | None => (s, true)
                  end in
  if negb ok then Some (fail s SOwnership)
  else
    let s := clear_remote_delivery (set_remote_target s None) in
    match rl_handover r with Some h => Some (hand_on s r h) | None => restore_local s r end.

Definition on_release_ack (s : SourceController) (f : Frame) (r : Releasing) : option SourceController :=
  if negb (epoch f =? o_epoch (s_out s))
     || negb (match message f with MsgReleaseAck => true | _ => false end)
  then Some (fail s SInvalidReleaseAcknowledgement)
  else
    let '(s, accepted) := accept_input_sequence s (sequence f) in
    if negb accepted then Some (fail s SInvalidReleaseAcknowledgement)
    else complete_remote_release s r.

Definition on_state_frame (s : SourceController) (f : Frame) (now : Z) : option SourceController :=
  if is_held s then Some s
  else match s_state s with
  | SAwaitActivation a => on_activation_reply s f a now
  | SAwaitRelease r => on_release_ack s f r
  | _ => Some (fail s SInvalidRemoteFrame)
  end.

(** Whether a frame is the acknowledgement of a hold's barrier. *)
Definition is_barrier_ack (s : SourceController) (m : Message) : bool :=
  match m with MsgReleaseAck => true | _ => false end
  && (0 <? l_acks_pending (s_link s))
  && negb (match s_state s with SAwaitRelease _ => true | _ => false end).

Definition dispatch_frame (s : SourceController) (f : Frame) (now : Z) : option SourceController :=
  match message f with
  | MsgPing token => Some (on_ping s f token)
  | MsgPong token => Some (on_pong_frame s f token now)
  | MsgTakeBack => Some (on_take_back s f)
  | m => if is_barrier_ack s m then Some (on_barrier_ack s f now) else on_state_frame s f now
  end.

Definition remote_frame (s : SourceController) (f : Frame) (now : Z) : option SourceController :=
  if failed s then Some s
  else
    let '(s, ok) := observe s now in
    if negb ok then Some s
    else
      let '(l, r) := allow_at (i_limiter (s_in s)) (millis_u64 now) in
      let s := set_limiter s l in
      if negb (is_ok r) then Some (fail s SRateLimited) else dispatch_frame s f now.
Definition on_remote_frame (s : SourceController) (f : Frame) (now : Z) :=
  finish (remote_frame (fresh s) f now).

(** ** Calls: handovers *)

(** The conditions under which a controller takes a handover. *)
Definition may_accept (s : SourceController) (h : Handover) (now : Z) : bool :=
  negb (failed s) && c_enabled (s_config s) && s_capture_ready s && negb (is_held s)
  && (saturating_sub now (last_response (l_health (s_link s))) <? RETREAT_AFTER)
  && is_local s && negb (bool_decide (is_Some (f_claim (s_floor s))))
  && bool_decide (c_peer (s_config s) = Some (machine (ho_to h)))
  && is_peer_display s (Ownership.display (ho_to h))
  && bool_decide (machine (ho_return_target h) = machine (home_of s))
  && is_home_display s (Ownership.display (ho_return_target h))
  && negb (ho_route_revision h =? 0)
  && (cr_revision (s_route s) <=? ho_route_revision h).

(** The activation a handover becomes. *)
Definition take_over (s : SourceController) (h : Handover) : SourceController :=
  match s_state s with
  | SAwaitActivation a =>
      set_state s (SAwaitActivation (mkActivation (a_target a) (a_entry a) (a_return_target a)
        (a_return_position a) (a_ownership_epoch a) (a_already_remote a) (ho_carried h)
        (ho_at_button h) true))
  | _ => s
  end.
Definition start_handover (s : SourceController) (h : Handover) (sending : FloorSnapshot)
  : option SourceController :=
  let s := set_floor_claim s (Some sending) in
  let s := set_rebase_pointer (set_free_generation s (ho_claimed_from h)) false in
  let s := set_route s (mkRoute true (ho_route_revision h) true) in
  let s := set_declined (set_take_back s false) None in
  let s := set_local s (ho_return_target h) (Some (ho_return_position h)) in
  s ← begin_remote_activation s (ho_to h) (ho_entry h) (ho_to_edge h) (ho_return_target h)
        (ho_return_position h) true;
  Some (take_over s h).
Definition handed_over (s : SourceController) (h : Handover) (now : Z) : option SourceController :=
  let '(s, checked) := if failed s then (s, false) else observe s now in
  if checked && may_accept s h now then
    let '(f, r) := floor_hand_over (f_floor (s_floor s)) (ho_claim h) (c_slot (s_config s)) in
    let s := set_floor_word s f in
    match r with
    | Ok sending => start_handover s h sending
    | Err _ => Some (set_handover s (Some h))
    end
  else Some (set_handover s (Some h)).
Definition accept_handover (s : SourceController) (h : Handover) (now : Z) :=
  finish (handed_over (fresh s) h now).
End Calls.

(** ** Construction and settings *)

(** [heartbeat_gate]. *)
Definition heartbeat_gate (ep : Z) (last : option Z) : SequenceGate :=
  seed_heartbeat (fst (activate_epoch default_gate ep)) last.

(** The one machine other than the local one that a topology has displays of. *)
Definition sole_peer (t : Topology) (local : DeviceId) : option DeviceId :=
  match filter (fun m => m <> local) (d_machine <$> (snd <$> map_to_list (displays t))) with
  | [] => None
  | first :: others => if forallb (fun m => bool_decide (m = first)) others then Some first else None
  end.

Definition default_ledger : Ledger := mkLedger ∅ ∅ ∅ ∅ ∅ default_counter.
Definition SOURCE_RATE : Z := 20000.

(** [SourceController::new]; the limiter's rate is one [RateLimiter::new] accepts. *)
Definition new_source (t : Topology) (local_machine : DeviceId) (local_display : DisplayId)
    (session_epoch next_control_sequence now : Z) (control_as_command : bool) (speed : Z)
  : result SourceConfigError SourceController :=
  match Topology.display t local_display with
  | Err _ => Err UnknownLocalDisplay
  | Ok d =>
      if negb (bool_decide (d_machine d = local_machine)) then Err LocalDisplayBelongsToAnotherMachine
      else
        let home := mkTarget local_machine local_display in
        match new_ownership local_machine home with
        | Err _ => Err ConfigOwnership
        | Ok own =>
            Ok (mkSource
              (mkSourceConfig t home (sole_peer t local_machine) PEER_SOLE true session_epoch point_zero
                 [] control_as_command speed false)
              (mkFloorSide (mkSnapshot Free 1 PEER_NONE) None 1 false false)
              true false None (mkEdges None no_pushes default_recent) None own (SLocal home None)
              (mkOutbound session_epoch 0 next_control_sequence default_pacer [])
              (mkInbound None None (heartbeat_gate session_epoch (checked_sub next_control_sequence 1))
                 (mkLimiter SOURCE_RATE (SOURCE_RATE * 1000) None))
              (mkRoute false 0 true) 1 None default_ledger
              (mkLink_ (new_health now) default_monitor None 0 false 0 0 0) now None None)
        end
  end.

Definition set_peer (c : SourceConfig) (peer : option DeviceId) (slot : Z) : SourceConfig :=
  mkSourceConfig (c_topology c) (c_home c) peer slot (c_enabled c) (c_base_epoch c) (c_peer_offset c)
    (c_reachable c) (c_control_as_command c) (c_pointer_speed c) (c_pointer_confined c).
Definition set_switches (c : SourceConfig) (control_as_command : bool) (speed : Z) (confined : bool)
  : SourceConfig :=
  mkSourceConfig (c_topology c) (c_home c) (c_peer c) (c_slot c) (c_enabled c) (c_base_epoch c)
    (c_peer_offset c) (c_reachable c) control_as_command speed confined.

Definition with_floor (s : SourceController) (floor : FloorSnapshot) (enabled : bool)
  : SourceController :=
  let c := s_config s in
  set_config (set_free_generation (set_floor_word s floor) (generation floor))
    (mkSourceConfig (c_topology c) (c_home c) (c_peer c) (c_slot c) enabled (c_base_epoch c)
       (c_peer_offset c) (c_reachable c) (c_control_as_command c) (c_pointer_speed c)
       (c_pointer_confined c)).

Definition with_peer (s : SourceController) (peer : DeviceId) (slot : Z)
  : result SourceConfigError SourceController :=
  let known := existsb (fun d => bool_decide (d_machine d = peer))
                 (snd <$> map_to_list (displays (topology_of s))) in
  if bool_decide (peer = machine (home_of s)) || negb known || (slot =? PEER_NONE)
  then Err UnknownPeer
  else Ok (set_config s (set_peer (s_config s) (Some peer) slot)).

Definition set_reachable (s : SourceController) (peers : list DeviceId) : SourceController :=
  let c := s_config s in
  set_config s (mkSourceConfig (c_topology c) (c_home c) (c_peer c) (c_slot c) (c_enabled c)
    (c_base_epoch c) (c_peer_offset c) (take (Z.to_nat MAX_GROUP_PEERS) peers)
    (c_control_as_command c) (c_pointer_speed c) (c_pointer_confined c)).
Definition set_peer_offset (s : SourceController) (offset : Point) : SourceController :=
  let c := s_config s in
  set_config s (mkSourceConfig (c_topology c) (c_home c) (c_peer c) (c_slot c) (c_enabled c)
    (c_base_epoch c) offset (c_reachable c) (c_control_as_command c) (c_pointer_speed c)
    (c_pointer_confined c)).
Definition set_double_click_interval (s : SourceController) (i : Z) : SourceController :=
  set_clicks s (new_counter i).

Definition seed_from_group (s : SourceController) (keys : list HidUsage) (buttons : list MouseButton)
    (route : bool * Z) (capture_ready : bool) : SourceController * result SourceFailure () :=
  match s_failure s with
  | Some f => (s, Err f)
  | None =>
      if negb (is_local s) || bool_decide (is_Some (f_claim (s_floor s))) then (s, Err SOwnership)
      else
        let '(remote, revision) := route in
        if (remote && (revision =? 0)) || (revision <? cr_revision (s_route s))
        then (s, Err SRouteMismatch)
        else if existsb (fun u => negb (usage_is_valid u)) keys then (s, Err SInvalidKeyState)
        else
          let s := set_keys s (list_to_set keys) in
          let s := set_buttons s (list_to_set (button_index <$> buttons)) in
          (set_capture_ready (set_route s (mkRoute remote revision false)) capture_ready, Ok ())
  end.

Definition inherit_bookkeeping (s earlier : SourceController) : SourceController :=
  let k := s_ledger s in
  let e := s_ledger earlier in
  set_capture_ready
    (set_ledger s (mkLedger (k_keys e) (k_remote_keys e) (k_buttons e) (k_remote_buttons e)
       (k_remote_clicks e) (k_clicks k)))
    (s_capture_ready earlier).

(** [session_startup::ReadyControl]. *)
Record ReadyControl := mkReadyControl {
  rc_epoch : Z; rc_next_incoming : Z; rc_next_outgoing : Z; rc_next_heartbeat_out : Z;
  rc_last_heartbeat_in : option Z; rc_health : PeerHealth; rc_limiter : RateLimiter; rc_now : Z }.

Definition finish_startup (s : SourceController) (c : ReadyControl) : SourceController :=
  let s := set_control_sequence s (rc_next_heartbeat_out c) in
  let s := set_heartbeats s (heartbeat_gate (rc_epoch c) (rc_last_heartbeat_in c)) in
  set_last_now (set_limiter (set_health s (rc_health c)) (rc_limiter c)) (rc_now c).

Definition after_startup (t : Topology) (source : DeviceId) (initial_display : DisplayId)
    (c : ReadyControl) (control_as_command : bool) (speed : Z) : result SourceFailure SourceController :=
  let '(h, r) := check (rc_health c) (rc_now c) in
  match r with
  | Err e => Err (SPeerHealth e)
  | Ok _ =>
      match new_source t source initial_display (rc_epoch c) (rc_next_outgoing c) (rc_now c)
              control_as_command speed with
      | Err _ => Err STopology
      | Ok s =>
          Ok (finish_startup s (mkReadyControl (rc_epoch c) (rc_next_incoming c) (rc_next_outgoing c)
                (rc_next_heartbeat_out c) (rc_last_heartbeat_in c) h (rc_limiter c) (rc_now c)))
      end
  end.
