(* ===== verification/SourceKept.v ===== *)
(** * What no method of the source controller writes (session_source.rs)

    [Kept] holds between the controller before and after a step that leaves its
    configuration, its clock, its outgoing handover and its epoch alone.  Sending, failing,
    holding and coming home are such steps, whatever state they start in. *)

From stdpp Require Import gmap.
From S2P Require Import Prelude F64 Types Geometry Topology Floor Messages Sequence Ownership Clicks.
From S2P Require Import SessionPacer SessionHealth SessionQuality SourceEdges SourceState HeldInput.
From S2P Require Import Source.

Definition Kept (s s' : SourceController) : Prop :=
  s_config s' = s_config s /\ s_last_now s' = s_last_now s /\ s_handover s' = s_handover s
  /\ o_epoch (s_out s') = o_epoch (s_out s).
#[global] Instance Kept_preorder : PreOrder Kept.
Proof.
  split; [done|]. intros a b c (H1 & H2 & H3 & H4) (H5 & H6 & H7 & H8). split_and!; congruence.
Qed.
#[local] Hint Extern 0 (Kept ?s ?s) => reflexivity : core.

(** A step kept if what it starts from differs only in other fields. *)
Lemma kept_from s s1 s' : Kept s1 s' -> Kept s s1 -> Kept s s'.
Proof. intros H1 H2. by transitivity s1. Qed.
Ltac kept_by L := refine (kept_from _ _ _ L _); try done.

Lemma kept_fail s f : Kept s (fail s f).
Proof.
  unfold fail. destruct (s_failure s); [done|].
  assert (forall s e, Kept s (try_effect s e)) as Ht by (intros; unfold try_effect; by case_match).
  assert (forall s, Kept s (release_on_failure s)) as Hr.
  { intros s1. unfold release_on_failure. case_match; [|done]. by kept_by (Ht (set_input_sequence s1 z)
      (RemoteFrame (new_frame (o_epoch (s_out s1)) (o_input_sequence (s_out s1)) MsgReleaseAll))). }
  assert (forall s r, Kept s (restore_on_failure s r)) as Hre.
  { intros s1 r. unfold restore_on_failure. case_match; [|done].
    exact (Ht (set_failed_request (set_next_request s1 z) (Some (s_next_request s1)))
      (RestoreLocalAt (s_next_request s1) (Ownership.display (fst r)) (snd r))). }
  set (s1 := fail_state s f). assert (Kept s s1) as H1 by done. clearbody s1.
  set (s2 := if remote_may_hold s then release_on_failure s1 else s1).
  assert (Kept s s2) as H2 by (subst s2; destruct (remote_may_hold s); [by transitivity s1|done]).
  clearbody s2. destruct (native_may_be_remote s); [|exact H2].
  exact (kept_from _ _ _ (Hre (clear_remote_delivery (set_remote_target s2 None)) (failure_restore_target s)) H2).
Qed.
Lemma kept_push_effect s e : Kept s (push_effect s e).1.
Proof. unfold push_effect. case_match; [apply kept_fail|done]. Qed.
Lemma kept_send_input s m : Kept s (send_input s m).
Proof.
  unfold send_input. case_match; [|apply kept_fail]. exact (kept_push_effect (set_input_sequence s _) _).
Qed.
Lemma kept_push_control s m : Kept s (push_control s m).
Proof.
  unfold push_control. case_match; [|apply kept_fail]. exact (kept_push_effect (set_control_sequence s _) _).
Qed.
Lemma kept_flush_motion s : Kept s (flush_motion s).1.
Proof.
  unfold flush_motion. destruct (SessionPacer.flush _ _) as [pc [p|]]; [|done].
  exact (kept_send_input (set_pacer s pc) _).
Qed.
Lemma kept_push_message s m : Kept s (push_message s m).
Proof.
  unfold push_message. pose proof (kept_flush_motion s) as Hf. destruct (flush_motion s) as [s1 []]; [|done].
  exact (kept_from _ _ _ (kept_send_input s1 m) Hf).
Qed.
Lemma kept_push_input s m : Kept s (push_input s m).
Proof.
  destruct m as [| | | |[p|p]| | | | | | | | | | | | | | | | |]; try apply kept_push_message.
  cbn [push_input]. unfold push_motion. destruct (offer _ _ _ _) as [pc [q|]]; [|done].
  exact (kept_send_input (set_pacer s pc) _).
Qed.
Lemma kept_request_route s e : Kept s (request_route s e).1.
Proof.
  unfold request_route. case_match; [|apply kept_fail].
  pose proof (kept_push_effect (set_next_request s z) (e (s_next_request s))) as Hp.
  destruct (push_effect _ _) as [s1 ok]. exact Hp.
Qed.
Lemma kept_begin_ownership s t : Kept s (begin_ownership_transition s t).1.
Proof.
  unfold begin_ownership_transition. destruct (begin_transition _ _) as [o [[]|]]; try done;
    exact (kept_fail (set_ownership s o) _).
Qed.
Lemma kept_recover s t : Kept s (recover_ownership_at s t).1.
Proof.
  unfold recover_ownership_at. destruct (on_failure _ _) as [o [plan|e]]; [|done].
  destruct (complete_recovery _ _) as [o1 [[]|e]]; [|done].
  destruct (begin_transition _ _) as [o2 [[]|[]]]; try done.
  destruct (acknowledge_transition _ _); done.
Qed.
Lemma kept_return_claim s : Kept s (return_claim s).1.
Proof.
  unfold return_claim, move_claim. destruct (f_claim (s_floor s)) as [c|]; [|done].
  destruct (floor_transition _ _ _) as [w []]; done.
Qed.
Lemma kept_begin_return s l p g h : Kept s (begin_return_to s l p g h).
Proof.
  unfold begin_return_to. pose proof (kept_return_claim s) as H1. destruct (return_claim s) as [s1 []]; cbn [negb fst] in *.
  2: exact (kept_from _ _ _ (kept_fail s1 _) H1).
  pose proof (kept_begin_ownership s1 l) as H2. destruct (begin_ownership_transition s1 l) as [s2 [ep|]]; cbn [fst] in *.
  2: by transitivity s1.
  assert (Kept s (push_input s2 MsgReleaseAll)) as H3.
  { transitivity s2; [by transitivity s1|apply kept_push_input]. }
  destruct (failed _); exact H3.
Qed.
Lemma kept_release_floor s : Kept s (release_floor s).
Proof. unfold release_floor. cbv zeta. sg. destruct (f_claim _) as [c|]; [|done].
  destruct (floor_transition _ _ _) as [w []]; [|done]. by case_match. Qed.
Lemma kept_settle s : Kept s (settle_outcome s).
Proof.
  unfold settle_outcome. destruct (failed s); [done|].
  set (s1 := if s_take_back s then _ else s).
  assert (Kept s s1) as H1.
  { subst s1. destruct (s_take_back s); [|done]. destruct (s_state s); try done.
    exact (kept_begin_return (set_take_back s false) _ _ _ _). }
  clearbody s1. destruct (_ && _); [|done]. exact (kept_from _ _ _ (kept_release_floor s1) H1).
Qed.

Lemma kept_hold_route s b n r : Kept s (hold_route s b n r).1.
Proof.
  unfold hold_route. destruct b; [done|]. destruct n; [|done].
  pose proof (kept_request_route s (fun request => RestoreLocalAt request (Ownership.display r.1) r.2)) as H1.
  destruct (request_route _ _) as [s1 []]; exact H1.
Qed.
Lemma kept_hold_barrier s now : Kept s (send_hold_barrier s now).
Proof. unfold send_hold_barrier. pose proof (kept_push_input s MsgReleaseAll). destruct (failed _); done. Qed.
Lemma kept_hold s now : Kept s (hold s now).
Proof.
  unfold hold. destruct (SessionHealth.hold _ _) as [h [[]|e]]; [|exact (kept_fail (set_health s h) _)].
  set (s1 := set_quality _ _). assert (Kept s s1) as H1 by done. clearbody s1.
  cbv zeta. pose proof (kept_recover s1 (failure_restore_target s1).1) as H2.
  destruct (recover_ownership_at s1 _) as [s2 []]; cbn [negb fst] in *.
  2:{ transitivity s2; [by transitivity s1|apply kept_fail]. }
  set (s3 := set_acks_pending s2 _). assert (Kept s s3) as H3 by (transitivity s1; done). clearbody s3.
  pose proof (kept_hold_barrier s3 now) as H4. destruct (failed _); [by transitivity s3|].
  set (s4 := clear_remote_delivery _). assert (Kept s s4) as H5 by (transitivity s3; done). clearbody s4.
  match goal with |- context [hold_route s4 ?b ?n ?r] => pose proof (kept_hold_route s4 b n r) as H6;
    destruct (hold_route s4 b n r) as [s5 []] end; cbn [fst] in *; transitivity s4; done.
Qed.
Lemma kept_check_health s now : Kept s (check_health s now).1.
Proof.
  unfold check_health. destruct (is_held s); [done|]. destruct (check _ _) as [h [[]|[]]]; try done;
    try exact (kept_fail (set_health s h) _). exact (kept_hold (set_health s h) now).
Qed.
Lemma observe_clock s now s1 : observe s now = (s1, true) -> s_last_now s1 = now.
Proof.
  unfold observe, observe_time. destruct (now <? s_last_now s); [done|]. intros E.
  pose proof (kept_check_health (set_last_now s now) now) as (_ & Hn & _). rewrite E in Hn. exact Hn.
Qed.
Lemma observe_fields s now :
  s_config (observe s now).1 = s_config s /\ s_handover (observe s now).1 = s_handover s
  /\ o_epoch (s_out (observe s now).1) = o_epoch (s_out s).
Proof.
  unfold observe, observe_time. destruct (now <? s_last_now s).
  - destruct (kept_fail s SClockRegression) as (? & _ & ?). done.
  - destruct (kept_check_health (set_last_now s now) now) as (? & _ & ?). done.
Qed.

(** The keys and buttons carried over with the pointer. *)
Lemma kept_each test body stop l s :
  (forall s i, Kept s (body s i)) -> Kept s (each test body stop l s).1.
Proof.
  intros Hb. revert s. induction l as [|i l IH]; intros s; cbn [each]; [done|].
  destruct (test s i); [|apply IH]. destruct (stop && _); [apply Hb|].
  transitivity (body s i); [apply Hb|apply IH].
Qed.
Lemma kept_key_down s u : Kept s (key_down s u).
Proof. exact (kept_push_input (set_remote_keys s _) _). Qed.
Lemma kept_key_up s u : Kept s (key_up s u).
Proof. exact (kept_push_input (set_remote_keys s _) _). Qed.
Lemma kept_single_down s i : Kept s (single_down s i).
Proof. exact (kept_push_input (set_remote_clicks (set_remote_buttons s _) _) _). Qed.
Lemma kept_button_up s i : Kept s (button_up s i).
Proof. exact (kept_push_input (set_remote_buttons s _) _). Qed.
Lemma kept_transfer s : Kept s (transfer_to_remote s).
Proof.
  unfold transfer_to_remote. set (s1 := set_clicks _ _). assert (Kept s s1) as H1 by done. clearbody s1.
  pose proof (kept_each key_to_press key_down true modifier_indices s1 kept_key_down) as H2.
  destruct (each _ _ _ _ s1) as [s2 []]; cbn [fst] in H2; [by transitivity s1|].
  transitivity s1; [done|]. transitivity s2; [done|]. apply kept_each, kept_single_down.
Qed.
Lemma kept_synchronize s : Kept s (synchronize_reanchored_remote_input s).
Proof.
  unfold synchronize_reanchored_remote_input. set (s1 := set_clicks _ _). assert (Kept s s1) as H1 by done. clearbody s1.
  destruct (_ <? _)%nat; [transitivity s1; [done|apply kept_fail]|]. cbv zeta.
  pose proof kept_key_up. pose proof kept_key_down. pose proof kept_button_up. pose proof kept_single_down.
  do 6 (etransitivity; [|by apply kept_each]). done.
Qed.
