(* ===== verification/SourceStream.v ===== *)
(** * What a source sends, and the invariant behind it (session_source.rs)

    [PeerView] is what a peer knows of its source: how its frames are numbered,
    which keys and buttons it has been told are down, whether it has accepted an
    activation, how many releases it still has to acknowledge, and whether native
    capture was last asked to go remote.  [effect_step] reads one effect and is
    [None] when the peer would have to refuse it.  [Match] relates a view to a
    controller that has not failed.  The receiver's own checks are related to the
    view in ReceiverFollow.v. *)

From stdpp Require Import gmap.
From S2P Require Import Prelude F64 Types Geometry Topology Floor Messages Sequence Ownership Clicks.
From S2P Require Import SessionPacer SessionHealth SessionQuality SourceEdges SourceState HeldInput.
From S2P Require Import Source.

(** ** The peer's view *)

Record PeerView := mkView {
  v_epoch : Z; v_seq : Z; v_control : Z; v_keys : gset Z; v_buttons : gset Z;
  v_active : bool; v_owed : Z; v_native : bool }.

Definition key_step (keys : gset Z) (u : HidUsage) (down repeat : bool) (mods : ModifierState)
  : option (gset Z) :=
  let was := bool_decide (u ∈ keys) in
  if negb (usage_is_valid u)
     || (down && negb (Bool.eqb repeat was)) || (negb down && (negb was || repeat))
  then None
  else
    let keys := if down then {[u]} ∪ keys else keys ∖ {[u]} in
    if modifiers_of keys =? mods then Some keys else None.
Definition button_step (buttons : gset Z) (i : Z) (down : bool) : option (gset Z) :=
  if Bool.eqb (bool_decide (i ∈ buttons)) down then None
  else Some (if down then {[i]} ∪ buttons else buttons ∖ {[i]}).

Definition set_view_keys (v : PeerView) (keys : gset Z) : PeerView :=
  mkView (v_epoch v) (v_seq v) (v_control v) keys (v_buttons v) (v_active v) (v_owed v) (v_native v).
Definition set_view_buttons (v : PeerView) (buttons : gset Z) : PeerView :=
  mkView (v_epoch v) (v_seq v) (v_control v) (v_keys v) buttons (v_active v) (v_owed v) (v_native v).
Definition set_view_native (v : PeerView) (b : bool) : PeerView :=
  mkView (v_epoch v) (v_seq v) (v_control v) (v_keys v) (v_buttons v) (v_active v) (v_owed v) b.
Definition next_number (v : PeerView) : PeerView :=
  mkView (v_epoch v) (v_seq v + 1) (v_control v) (v_keys v) (v_buttons v) (v_active v) (v_owed v)
    (v_native v).
Definition next_control (v : PeerView) : PeerView :=
  mkView (v_epoch v) (v_seq v) (v_control v + 1) (v_keys v) (v_buttons v) (v_active v) (v_owed v)
    (v_native v).
Definition view_released (v : PeerView) : PeerView :=
  mkView (v_epoch v) (v_seq v + 1) (v_control v) ∅ ∅ false (v_owed v + 1) (v_native v).
Definition view_opened (v : PeerView) : PeerView :=
  mkView (v_epoch v + 1) 1 (v_control v) (v_keys v) (v_buttons v) false (v_owed v) (v_native v).

Definition input_step (v : PeerView) (m : Message) : option PeerView :=
  match m with
  | MsgKey u down repeat mods => set_view_keys v <$> key_step (v_keys v) u down repeat mods
  | MsgButton b down _ => set_view_buttons v <$> button_step (v_buttons v) (button_index b) down
  | MsgMotion (Absolute _) | MsgScroll _ _ | MsgGesture _ | MsgSystemGesture _ => Some v
  | _ => None
  end.

(** A frame of a source whose heartbeats use the epoch [base]: heartbeats and
    input are numbered apart and without gaps, an activation opens the next epoch
    at zero once every release is acknowledged, and input comes only while the
    activation is accepted and nothing is being released. *)
Definition frame_step (base : Z) (v : PeerView) (f : Frame) : option PeerView :=
  match message f with
  | MsgPing _ | MsgPong _ =>
      if (epoch f =? base) && (sequence f =? v_control v) then Some (next_control v) else None
  | MsgActivateDisplayAt _ _ _ =>
      if (epoch f =? v_epoch v + 1) && (epoch f <=? u64_max) && (sequence f =? 0) && (v_owed v =? 0)
      then Some (view_opened v) else None
  | MsgReleaseAll =>
      if (epoch f =? v_epoch v) && (sequence f =? v_seq v) then Some (view_released v) else None
  | m =>
      if (epoch f =? v_epoch v) && (sequence f =? v_seq v) && v_active v && (v_owed v =? 0)
      then input_step (next_number v) m else None
  end.

Definition effect_step (base : Z) (v : PeerView) (e : SourceEffect) : option PeerView :=
  match e with
  | RemoteFrame f => frame_step base v f
  | ActivateRemote _ => Some (set_view_native v true)
  | RestoreLocalAt _ _ _ => Some (set_view_native v false)
  end.
Definition effects_run (base : Z) (v : PeerView) (l : list SourceEffect) : option PeerView :=
  foldl (fun o e => v ← o; effect_step base v e) (Some v) l.

Lemma effects_run_snoc base v l e :
  effects_run base v (l ++ [e]) = (w ← effects_run base v l; effect_step base w e).
Proof. unfold effects_run. by rewrite foldl_app. Qed.

Lemma frame_step_native base v f w : frame_step base v f = Some w -> v_native w = v_native v.
Proof.
  unfold frame_step, input_step. intros H.
  repeat (case_match; simplify_option_eq; try done); try by destruct v.
Qed.

(** ** The invariant *)

Definition releasing (s : SourceController) : Z :=
  match s_state s with SAwaitRelease _ => 1 | _ => 0 end.
Definition is_home_state (s : SourceController) : bool :=
  match s_state s with SLocal _ _ | SAwaitLocalBarrier _ _ _ _ => true | _ => false end.

(** The frames are numbered as the controller counts. *)
Definition numbered (base : Z) (v : PeerView) (s : SourceController) : Prop :=
  c_base_epoch (s_config s) = base /\ v_epoch v = o_epoch (s_out s)
  /\ v_seq v = o_input_sequence (s_out s) /\ v_control v = o_control_sequence (s_out s).

(** The peer was told what the ledger says is down there. *)
Definition told (v : PeerView) (s : SourceController) : Prop :=
  match s_state s with
  | SAwaitRelease _ => v_keys v = ∅ /\ v_buttons v = ∅
  | _ => v_keys v = k_remote_keys (s_ledger s) /\ v_buttons v = k_remote_buttons (s_ledger s)
  end.
Definition none_remote (s : SourceController) : Prop :=
  k_remote_keys (s_ledger s) = ∅ /\ k_remote_buttons (s_ledger s) = ∅.
Definition remote_held (s : SourceController) : Prop :=
  match s_state s with
  | SLocal _ _ | SAwaitRemoteBarrier _ | SAwaitLocalBarrier _ _ _ _ => none_remote s
  | SAwaitActivation a => a_already_remote a = false \/ a_handover a = true -> none_remote s
  | SRemote _ _ _ _ =>
      k_remote_keys (s_ledger s) ⊆ k_keys (s_ledger s)
      /\ k_remote_buttons (s_ledger s) ⊆ k_buttons (s_ledger s)
  | SAwaitRelease _ => True
  | SFailed => False
  end.
Definition accepted_activation (v : PeerView) (s : SourceController) : Prop :=
  match s_state s with
  | SAwaitRemoteBarrier _ | SRemote _ _ _ _ => v_active v = true
  | _ => True
  end.

(** [d] is the acknowledgement being processed. *)
Definition owes (d : Z) (v : PeerView) (s : SourceController) : Prop :=
  v_owed v + d = l_acks_pending (s_link s) + releasing s /\ 0 <= v_owed v /\ 0 <= d
  /\ 0 <= l_acks_pending (s_link s) <= 2
  /\ (0 < l_acks_pending (s_link s) -> is_Some (l_held_since (s_link s))).
Definition held_home (s : SourceController) : Prop :=
  last_now (l_health (s_link s)) <= s_last_now s
  /\ (is_Some (l_held_since (s_link s)) ->
      is_home_state s = true /\ SessionHealth.failure (l_health (s_link s)) = None).
Definition motion_waits (s : SourceController) : Prop :=
  is_Some (waiting (o_pacer (s_out s))) -> forwarding s = true.
Definition ledger_ok (s : SourceController) : Prop :=
  (forall u, u ∈ k_keys (s_ledger s) -> usage_is_valid u = true)
  /\ (forall u, u ∈ k_remote_keys (s_ledger s) -> usage_is_valid u = true)
  /\ (forall i, i ∈ k_remote_buttons (s_ledger s) -> 0 <= i < 5).
Definition native_known (v : PeerView) (s : SourceController) : Prop :=
  v_native v = true -> native_may_be_remote s = true \/ is_Some (s_handover s).
(** Where native capture may be remote, as a state shows it.  While input is
    remote, so is the route this controller was given. *)
Definition native_route (s : SourceController) : bool :=
  match s_state s with
  | SLocal _ _ | SAwaitLocalBarrier _ _ _ _ | SFailed => false
  | SAwaitActivation a => a_already_remote a
  | SAwaitRemoteBarrier _ | SRemote _ _ _ _ => true
  | SAwaitRelease _ => cr_remote (s_route s)
  end.
Definition route_held (s : SourceController) : Prop :=
  match s_state s with
  | SAwaitActivation a => if a_already_remote a then cr_remote (s_route s) && cr_owned (s_route s) = true else True
  | SRemote _ _ _ _ => cr_remote (s_route s) && cr_owned (s_route s) = true
  | _ => True
  end.
Definition native_routed (v : PeerView) (s : SourceController) : Prop :=
  (v_native v = true -> native_route s = true \/ is_Some (s_handover s)) /\ route_held s.

Lemma native_routed_known v s : native_routed v s -> native_known v s.
Proof.
  intros [H Hh] Hv. destruct (H Hv) as [Hr|Hr]; [left|by right].
  unfold native_route, route_held in *. unfold native_may_be_remote.
  destruct (s_state s) as [| a | | | | |]; rewrite ?orb_true_r; try done.
  rewrite Hr in Hh. by rewrite Hh.
Qed.

(** The floor this controller claimed, and what its state says of it.  Only a
    request can be overtaken, by the peer's own. *)
Definition claim_fits (s : SourceController) (c : FloorSnapshot) : Prop :=
  match s_state s with
  | SAwaitActivation a => state c = (if a_already_remote a then Sending else Requesting)
  | SAwaitRemoteBarrier _ | SRemote _ _ _ _ => state c = Sending
  | SAwaitRelease _ => state c = Returning
  | _ => floor_owner (state c) = Some Floor.Outbound
  end.
Definition floor_held (s : SourceController) : Prop :=
  match f_claim (s_floor s) with
  | Some c =>
      (f_floor (s_floor s) = c \/ state c = Requesting) /\ peer c = c_slot (s_config s)
      /\ claim_fits s c
  | None => is_home_state s = true
  end.

Definition Match (base d : Z) (v : PeerView) (s : SourceController) : Prop :=
  numbered base v s /\ told v s /\ remote_held s /\ accepted_activation v s /\ owes d v s
  /\ held_home s /\ motion_waits s /\ ledger_ok s /\ native_routed v s /\ floor_held s.

(** A controller within a call, relative to the view [v0] at its start: what a
    fresh failure needs, a running controller, and a failed one.  A failed one
    left native capture remote only if its cleanup found no room. *)
Definition Base (base : Z) (v0 v : PeerView) (s : SourceController) : Prop :=
  s_failure s = None /\ effects_run base v0 (o_effects (s_out s)) = Some v
  /\ (length (o_effects (s_out s)) <= MAX_SOURCE_EFFECTS)%nat
  /\ numbered base v s /\ native_known v s.
Definition Alive (base d : Z) (v0 : PeerView) (s : SourceController) : Prop :=
  s_failure s = None /\ (length (o_effects (s_out s)) <= MAX_SOURCE_EFFECTS)%nat
  /\ exists v, effects_run base v0 (o_effects (s_out s)) = Some v /\ Match base d v s.
Definition blocked (s : SourceController) : Prop :=
  length (o_effects (s_out s)) = MAX_SOURCE_EFFECTS \/ checked_add_u64 (s_next_request s) 1 = None.
Definition Dead (base : Z) (v0 : PeerView) (s : SourceController) : Prop :=
  is_Some (s_failure s) /\ (length (o_effects (s_out s)) <= MAX_SOURCE_EFFECTS)%nat
  /\ exists v, effects_run base v0 (o_effects (s_out s)) = Some v
    /\ (v_native v = true -> blocked s \/ is_Some (s_handover s)).
Definition Ok_ (base d : Z) (v0 : PeerView) (s : SourceController) : Prop :=
  Alive base d v0 s \/ Dead base v0 s.
(** A failed controller that cannot send: its buffer is full or its numbers are
    used up. *)
Definition Stuck (s : SourceController) : Prop :=
  length (o_effects (s_out s)) = MAX_SOURCE_EFFECTS
  \/ checked_add_u64 (o_input_sequence (s_out s)) 1 = None.

Lemma alive_base base d v0 s : Alive base d v0 s -> exists v, Base base v0 v s /\ Match base d v s.
Proof.
  intros (Hf & Hl & v & Hr & Hm). exists v. split; [|done].
  destruct Hm as (? & _ & _ & _ & _ & _ & _ & _ & Hk & _). apply native_routed_known in Hk.
  by split_and!.
Qed.
Lemma base_alive base d v0 v s : Base base v0 v s -> Match base d v s -> Alive base d v0 s.
Proof. intros (Hf & Hr & Hl & _) Hm. split; [done|]. split; [done|]. eauto. Qed.

(** ** Failing and sending *)

Section Sending.
Context (base : Z).


Lemma try_effect_cases s e :
  (length (o_effects (s_out s)) = MAX_SOURCE_EFFECTS /\ try_effect s e = s)
  \/ (length (o_effects (s_out s)) <> MAX_SOURCE_EFFECTS
      /\ try_effect s e = set_effects s (o_effects (s_out s) ++ [e])).
Proof. unfold try_effect. case_bool_decide; auto. Qed.

(** The effects a failure adds to those of [s]: at most a release and a restore,
    as far as there is room. *)
Lemma release_on_failure_run v0 v s :
  effects_run base v0 (o_effects (s_out s)) = Some v -> numbered base v s \/ Stuck s ->
  (length (o_effects (s_out s)) <= MAX_SOURCE_EFFECTS)%nat ->
  let s' := release_on_failure s in
  (length (o_effects (s_out s')) <= MAX_SOURCE_EFFECTS)%nat
  /\ (exists w, effects_run base v0 (o_effects (s_out s')) = Some w /\ v_native w = v_native v)
  /\ s_failure s' = s_failure s /\ s_next_request s' = s_next_request s
  /\ s_handover s' = s_handover s
  /\ (Stuck s -> Stuck s' /\ o_effects (s_out s') = o_effects (s_out s)).
Proof.
  intros Hr Hn Hl. cbv zeta. unfold release_on_failure.
  destruct (checked_add_u64 _ 1) as [n|] eqn:E; [|split_and!; eauto].
  destruct (try_effect_cases (set_input_sequence s n)
    (RemoteFrame (new_frame (o_epoch (s_out s)) (o_input_sequence (s_out s)) MsgReleaseAll)))
    as [(Hfull & ->)|(Hroom & ->)]; sx.
  - split_and!; eauto. intros _. split; [|done]. left. done.
  - destruct Hn as [(Hb & He & Hs & Hc)|[Hs|Hs]]; [|done|congruence].
    rewrite length_app, effects_run_snoc, Hr. cbn [mbind option_bind effect_step].
    unfold frame_step, new_frame. cbn. rewrite He, Hs, !Z.eqb_refl. cbn [andb].
    split_and!; try done; [unfold MAX_SOURCE_EFFECTS in *; lia|eauto|].
    intros [Hf|Hf]; [done|congruence].
Qed.

Lemma restore_on_failure_run v0 v s restore :
  effects_run base v0 (o_effects (s_out s)) = Some v ->
  (length (o_effects (s_out s)) <= MAX_SOURCE_EFFECTS)%nat ->
  let s' := restore_on_failure s restore in
  (length (o_effects (s_out s')) <= MAX_SOURCE_EFFECTS)%nat
  /\ (exists w, effects_run base v0 (o_effects (s_out s')) = Some w /\ (v_native w = true -> blocked s'))
  /\ s_failure s' = s_failure s /\ s_handover s' = s_handover s /\ (Stuck s -> Stuck s').
Proof.
  intros Hr Hl. cbv zeta. unfold restore_on_failure.
  destruct (checked_add_u64 _ 1) as [n|] eqn:E.
  2:{ split_and!; eauto. exists v. split; [done|]. intros _. by right. }
  destruct (try_effect_cases (set_failed_request (set_next_request s n) (Some (s_next_request s)))
    (RestoreLocalAt (s_next_request s) (Ownership.display (fst restore)) (snd restore)))
    as [(Hfull & ->)|(Hroom & ->)]; sx.
  - split_and!; eauto. exists v. split; [done|]. intros _. by left.
  - rewrite length_app, effects_run_snoc, Hr. cbn [mbind option_bind effect_step length].
    split_and!; try done; [unfold MAX_SOURCE_EFFECTS in *; lia|by eexists|].
    intros [Hf|Hf]; [done|by right].
Qed.

Lemma fail_dead_gen v0 v s f :
  s_failure s = None -> effects_run base v0 (o_effects (s_out s)) = Some v ->
  (length (o_effects (s_out s)) <= MAX_SOURCE_EFFECTS)%nat -> native_known v s ->
  numbered base v s \/ Stuck s ->
  Dead base v0 (fail s f) /\ (Stuck s -> Stuck (fail s f)).
Proof.
  intros Hf Hr Hl Hk Hn. unfold fail. rewrite Hf.
  set (s1 := fail_state s f).
  assert (effects_run base v0 (o_effects (s_out s1)) = Some v) as Hr1 by exact Hr.
  assert (numbered base v s1 \/ Stuck s1) as Hn1 by exact Hn.
  assert (length (o_effects (s_out s1)) <= MAX_SOURCE_EFFECTS)%nat as Hl1 by exact Hl.
  assert (s_failure s1 = Some f) as Hf1 by reflexivity.
  assert (s_handover s1 = s_handover s) as Hh1 by reflexivity.
  assert (Stuck s -> Stuck s1) as Hs1 by (intros H; exact H).
  clearbody s1.
  set (s2 := if remote_may_hold s then release_on_failure s1 else s1).
  assert (exists w, effects_run base v0 (o_effects (s_out s2)) = Some w /\ v_native w = v_native v)
    as (w & Hr2 & Hw).
  { subst s2. destruct (remote_may_hold s); [|eauto].
    by destruct (release_on_failure_run v0 v s1) as (_ & ? & _). }
  assert ((length (o_effects (s_out s2)) <= MAX_SOURCE_EFFECTS)%nat /\ s_failure s2 = Some f
    /\ s_handover s2 = s_handover s /\ (Stuck s -> Stuck s2)) as (Hl2 & Hf2 & Hh2 & Hs2).
  { subst s2. destruct (remote_may_hold s); [|auto].
    destruct (release_on_failure_run v0 v s1) as (? & _ & ? & _ & ? & Hst); [done..|].
    split_and!; [done|congruence..|]. intros Hx. by apply Hst, Hs1. }
  clearbody s2.
  set (s3 := clear_remote_delivery (set_remote_target s2 None)).
  assert (effects_run base v0 (o_effects (s_out s3)) = Some w) as Hr3 by exact Hr2.
  assert (length (o_effects (s_out s3)) <= MAX_SOURCE_EFFECTS)%nat as Hl3 by exact Hl2.
  assert (s_failure s3 = Some f) as Hf3 by exact Hf2.
  assert (s_handover s3 = s_handover s) as Hh3 by exact Hh2.
  assert (Stuck s -> Stuck s3) as Hs3 by exact Hs2.
  clearbody s3. destruct (native_may_be_remote s) eqn:En.
  - destruct (restore_on_failure_run v0 w s3 (failure_restore_target s)) as (? & (w' & Hw' & Hb) & Hf4 & Hh4 & Hs4);
      [done..|]. split; [|auto].
    split; [rewrite Hf4, Hf3; eauto|]. split; [done|]. exists w'. split; [done|]. auto.
  - split; [|auto]. split; [rewrite Hf3; eauto|]. split; [done|]. exists w. split; [done|].
    intros Hv. right. rewrite Hh3. rewrite Hw in Hv. destruct (Hk Hv); [congruence|done].
Qed.

Lemma fail_dead v0 v s f : Base base v0 v s -> Dead base v0 (fail s f).
Proof. intros (? & ? & ? & ? & ?). eapply fail_dead_gen; eauto. Qed.
Lemma fail_ok d v0 v s f : Base base v0 v s -> Ok_ base d v0 (fail s f).
Proof. intros H. right. by eapply fail_dead. Qed.

(** An input frame sent. *)
Definition sent (s : SourceController) (m : Message) : SourceController :=
  set_effects (set_input_sequence s (o_input_sequence (s_out s) + 1))
    (o_effects (s_out s) ++ [RemoteFrame (new_frame (o_epoch (s_out s)) (o_input_sequence (s_out s)) m)]).

Lemma send_input_gen v0 v v' s m :
  s_failure s = None -> effects_run base v0 (o_effects (s_out s)) = Some v ->
  (length (o_effects (s_out s)) <= MAX_SOURCE_EFFECTS)%nat -> native_known v s ->
  frame_step base v (new_frame (o_epoch (s_out s)) (o_input_sequence (s_out s)) m) = Some v' ->
  numbered base v' (sent s m) ->
  (send_input s m = sent s m /\ Base base v0 v' (sent s m))
  \/ (Dead base v0 (send_input s m) /\ Stuck (send_input s m)).
Proof.
  intros Hf Hr Hl Hk Hs Hn. unfold send_input, push_effect.
  destruct (checked_add_u64 _ 1) as [n|] eqn:E.
  2:{ right. destruct (fail_dead_gen v0 v s SSequenceExhausted) as [? Hst]; try done.
      { right. by right. } split; [done|]. apply Hst. by right. }
  apply checked_add_u64_Some in E as ->. sx. case_bool_decide as Hfull; cbn [fst].
  - right. set (s1 := set_input_sequence s _).
    assert (Stuck s1) as Hst1 by (left; exact Hfull).
    destruct (fail_dead_gen v0 v s1 SEffectCapacityExceeded) as [? Hst]; try done; [by right|]. auto.
  - left. split; [done|]. split_and!; [done| | |done|].
    + sg. unfold sent. sg. by rewrite effects_run_snoc, Hr.
    + unfold sent. sg. rewrite length_app. cbn [length]. unfold MAX_SOURCE_EFFECTS in *. lia.
    + intros Hv. rewrite (frame_step_native _ _ _ _ Hs) in Hv. exact (Hk Hv).
Qed.

Lemma send_input_ok v0 v v' s m :
  Base base v0 v s ->
  frame_step base v (new_frame (o_epoch (s_out s)) (o_input_sequence (s_out s)) m) = Some v' ->
  v_epoch v' = v_epoch v -> v_seq v' = v_seq v + 1 -> v_control v' = v_control v ->
  (send_input s m = sent s m /\ Base base v0 v' (sent s m))
  \/ (Dead base v0 (send_input s m) /\ Stuck (send_input s m)).
Proof.
  intros (Hf & Hr & Hl & (Hb & He & Hq & Hc) & Hk) Hs H1 H2 H3.
  eapply send_input_gen; eauto. unfold numbered, sent. sg. rewrite H1, H2, H3, Hq. done.
Qed.

(** A failed controller that is stuck stays so: nothing more is sent. *)
Definition Over (v0 : PeerView) (s : SourceController) : Prop := Dead base v0 s /\ Stuck s.

Lemma send_input_over v0 s m : Over v0 s -> Over v0 (send_input s m).
Proof.
  intros [HD HS]. pose proof HD as ((f & Hf) & Hl & v & Hr & Hk). unfold send_input, push_effect, fail.
  destruct (checked_add_u64 _ 1) as [n|] eqn:E; [|by rewrite Hf].
  sx. destruct HS as [HS|HS]; [|congruence]. rewrite bool_decide_eq_true_2 by done. cbn [fst].
  rewrite Hf. split; [|by left]. split; [sg; rewrite Hf; eauto|]. split; [done|]. exists v. split; [done|].
  intros Hv. destruct (Hk Hv); [left|by right]. by left.
Qed.
Lemma over_pacer v0 s p : Over v0 s -> Over v0 (set_pacer s p).
Proof. intros H. exact H. Qed.
Lemma push_input_over v0 s m : Over v0 s -> Over v0 (push_input s m).
Proof.
  intros H. unfold push_input, push_message, push_motion, flush_motion.
  assert (forall s, Over v0 s -> failed s = true) as Hfail.
  { intros s' [((f & Hf) & _) _]. unfold failed. rewrite Hf. by apply bool_decide_eq_true_2. }
  destruct m as [| | | |[p|p]| | | | | | | | | | | | | | | | |];
    try (destruct (SessionPacer.flush _ _) as [pc [q|]];
         [rewrite Hfail by (apply send_input_over, over_pacer, H); cbn [negb];
          apply send_input_over, over_pacer, H
         |apply send_input_over, over_pacer, H]).
  destruct (offer _ _ _ _) as [pc [q|]]; [apply send_input_over|]; apply over_pacer, H.
Qed.

(** ** Motion that waits, and the frames it goes before *)

(** A position was sent, or not. *)
Definition moved (v v' : PeerView) : Prop := v' = v \/ v' = next_number v.
(** Motion waits only for a peer that may be sent input. *)
Definition waits (v : PeerView) (s : SourceController) : Prop :=
  is_Some (waiting (o_pacer (s_out s))) -> v_active v = true /\ v_owed v = 0.

Lemma moved_fields v v' :
  moved v v' -> v_epoch v' = v_epoch v /\ v_control v' = v_control v /\ v_keys v' = v_keys v
  /\ v_buttons v' = v_buttons v /\ v_active v' = v_active v /\ v_owed v' = v_owed v
  /\ v_native v' = v_native v.
Proof. intros [->| ->]; done. Qed.

Lemma base_numbers v0 v s :
  Base base v0 v s -> o_epoch (s_out s) = v_epoch v /\ o_input_sequence (s_out s) = v_seq v
  /\ o_control_sequence (s_out s) = v_control v.
Proof. by intros (_ & _ & _ & (_ & -> & -> & ->) & _). Qed.

Lemma send_position_ok v0 v s p :
  Base base v0 v s -> v_active v = true -> v_owed v = 0 ->
  (send_position s p = sent s (MsgMotion (Absolute p))
   /\ Base base v0 (next_number v) (sent s (MsgMotion (Absolute p))))
  \/ Over v0 (send_position s p).
Proof.
  intros HB Ha Ho. destruct (base_numbers _ _ _ HB) as (He & Hq & _).
  eapply (send_input_ok v0 v (next_number v)); try done.
  unfold frame_step, new_frame. cbn. by rewrite He, Hq, Ha, Ho, !Z.eqb_refl.
Qed.

Lemma base_pacer v0 v s p : Base base v0 v s -> Base base v0 v (set_pacer s p).
Proof. intros H. exact H. Qed.
Lemma base_alive_failed v0 v s : Base base v0 v s -> failed s = false.
Proof. intros (H & _). unfold failed. rewrite H. done. Qed.

Lemma flush_motion_ok v0 v s :
  Base base v0 v s -> waits v s ->
  (exists o v', flush_motion s = (set_out s o, true) /\ Base base v0 v' (set_out s o) /\ moved v v'
    /\ waiting (o_pacer o) = None /\ o_epoch o = o_epoch (s_out s))
  \/ (exists s', flush_motion s = (s', false) /\ Over v0 s').
Proof.
  intros HB Hw. unfold flush_motion, SessionPacer.flush.
  destruct (waiting (o_pacer (s_out s))) as [p|] eqn:Ew.
  - destruct Hw as [Ha Ho]; [rewrite Ew; eauto|]. set (pc := mkPacer None _).
    destruct (send_position_ok v0 v (set_pacer s pc) p) as [[-> HB']|HO]; [by apply base_pacer|done..| |].
    + left. rewrite (base_alive_failed _ _ _ HB'). eexists _, _. split; [reflexivity|].
      split; [exact HB'|]. split; [by right|]. done.
    + right. eexists. split; [|exact HO].
      destruct HO as [((f & Hf) & _) _]. unfold failed. rewrite Hf, bool_decide_eq_true_2 by eauto. done.
  - left. eexists (s_out s), v. split_and!; try done. by left.
Qed.

Lemma push_motion_ok v0 v s p :
  Base base v0 v s -> v_active v = true -> v_owed v = 0 ->
  (exists o v', push_motion s p = set_out s o /\ Base base v0 v' (set_out s o) /\ moved v v'
    /\ o_epoch o = o_epoch (s_out s))
  \/ Over v0 (push_motion s p).
Proof.
  intros HB Ha Ho. unfold push_motion. destruct (offer _ _ _ _) as [pc [q|]].
  - destruct (send_position_ok v0 v (set_pacer s pc) q) as [[-> HB']|HO]; [by apply base_pacer|done..| |by right].
    left. eexists _, _. split; [reflexivity|]. split; [exact HB'|]. split; [by right|done].
  - left. eexists _, v. split; [reflexivity|]. split; [by apply base_pacer|]. split; [by left|done].
Qed.

(** The view after a message that is neither motion, heartbeat nor activation. *)
Definition plain (m : Message) : bool :=
  match m with
  | MsgMotion _ | MsgPing _ | MsgPong _ | MsgActivateDisplayAt _ _ _ => false
  | _ => true
  end.
Definition message_step (v : PeerView) (m : Message) : option PeerView :=
  frame_step base v (new_frame (v_epoch v) (v_seq v) m).

Lemma message_step_numbers v m w :
  plain m = true -> message_step v m = Some w ->
  v_epoch w = v_epoch v /\ v_seq w = v_seq v + 1 /\ v_control w = v_control v.
Proof.
  unfold message_step, frame_step, input_step. intros Hp H. cbn in H.
  rewrite !Z.eqb_refl in H. cbn [andb] in H.
  destruct m; simplify_eq; try done; repeat (case_match; simplify_option_eq; try done).
Qed.

Lemma push_message_ok v0 v s m :
  Base base v0 v s -> waits v s -> plain m = true ->
  (forall v1, moved v v1 -> is_Some (message_step v1 m)) ->
  (exists o v1 w, push_input s m = set_out s o /\ Base base v0 w (set_out s o) /\ moved v v1
    /\ message_step v1 m = Some w /\ waiting (o_pacer o) = None /\ o_epoch o = o_epoch (s_out s))
  \/ Over v0 (push_input s m).
Proof.
  intros HB Hw Hp Hm.
  assert (push_input s m = push_message s m) as -> by (by destruct m).
  unfold push_message.
  destruct (flush_motion_ok v0 v s HB Hw) as [(o & v1 & -> & HB1 & Hmv & Hn & He)|(s' & -> & HO)]; [|by right].
  destruct (Hm v1 Hmv) as [w Hstep].
  destruct (message_step_numbers _ _ _ Hp Hstep) as (H1 & H2 & H3).
  destruct (base_numbers _ _ _ HB1) as (E1 & E2 & _).
  destruct (send_input_ok v0 v1 w (set_out s o) m HB1) as [[-> HB2]|HO]; try done.
  { by rewrite E1, E2. }
  - left. eexists _, v1, w. split; [reflexivity|]. split_and!; try done.
  - by right.
Qed.

Lemma push_control_ok v0 v s m :
  Base base v0 v s -> is_heartbeat m = true ->
  (exists o, push_control s m = set_out s o /\ Base base v0 (next_control v) (set_out s o)
    /\ o_pacer o = o_pacer (s_out s) /\ o_epoch o = o_epoch (s_out s))
  \/ Dead base v0 (push_control s m).
Proof.
  intros HB Hm. pose proof HB as (Hf & Hr & Hl & (Hb & He & Hq & Hc) & Hk). unfold push_control, push_effect.
  destruct (checked_add_u64 _ 1) as [n|] eqn:E; [|right; by eapply fail_dead].
  apply checked_add_u64_Some in E as ->. sx. case_bool_decide as Hfull; cbn [fst].
  - right. set (s1 := set_control_sequence s _).
    destruct (fail_dead_gen v0 v s1 SEffectCapacityExceeded) as [? _]; try done. right. left. exact Hfull.
  - left. eexists. split; [reflexivity|]. split; [|done]. split_and!; [done| | | |exact Hk].
    + sg. rewrite effects_run_snoc, Hr. cbn [mbind option_bind effect_step].
      unfold frame_step, new_frame. cbn. rewrite Hc, Hb, !Z.eqb_refl. by destruct m.
    + sg. rewrite length_app. cbn [length]. unfold MAX_SOURCE_EFFECTS in *. lia.
    + unfold numbered. sg. cbn. rewrite Hc. done.
Qed.

(** A route request appended to the effects. *)
Definition requested (s : SourceController) (e : SourceEffect) : SourceController :=
  set_effects (set_next_request s (s_next_request s + 1)) (o_effects (s_out s) ++ [e]).

Lemma request_route_ok v0 v s effect b :
  Base base v0 v s ->
  (forall r, effect_step base v (effect r) = Some (set_view_native v b)) ->
  (request_route s effect = (requested s (effect (s_next_request s)), Some (s_next_request s))
   /\ effects_run base v0 (o_effects (s_out (requested s (effect (s_next_request s)))))
      = Some (set_view_native v b)
   /\ (length (o_effects (s_out (requested s (effect (s_next_request s))))) <= MAX_SOURCE_EFFECTS)%nat)
  \/ (exists s', request_route s effect = (s', None) /\ Dead base v0 s').
Proof.
  intros HB He. pose proof HB as (Hf & Hr & Hl & Hn & Hk). unfold request_route, push_effect.
  destruct (checked_add_u64 _ 1) as [n|] eqn:E.
  2:{ right. eexists. split; [reflexivity|]. by eapply fail_dead. }
  apply checked_add_u64_Some in E as ->. sx. case_bool_decide as Hfull.
  - right. eexists. split; [reflexivity|]. set (s1 := set_next_request s _).
    destruct (fail_dead_gen v0 v s1 SEffectCapacityExceeded) as [? _]; try done. right. left. exact Hfull.
  - left. split; [done|]. unfold requested. sg. split.
    + rewrite effects_run_snoc, Hr. apply He.
    + rewrite length_app. cbn [length]. unfold MAX_SOURCE_EFFECTS in *. lia.
Qed.
End Sending.
