(* ===== verification/SourceSafety.v ===== *)
(** * The source controller keeps its invariant (session_source.rs)

    Every operation of Source.v takes a controller that matches its peer's view
    (SourceStream.v) to one that does, or to one that failed and left nothing
    behind that its effects could still clean up. *)

From stdpp Require Import gmap.
From S2P Require Import Prelude F64 Types Geometry Topology Floor Messages Sequence Ownership Clicks.
From S2P Require Import SessionPacer SessionHealth SessionQuality SourceEdges SourceState HeldInput.
From S2P Require Import Source SourceStream.

(** The updates that have a name of their own, read like the others. *)
Ltac ux :=
  unfold landed, begin_hold, set_local, clear_remote_delivery, sent, requested, add_recent,
    set_carried in *;
  unfold clear_pushes in *; sx.

Section Core.
Context (base d : Z) (v0 : PeerView).
#[local] Notation Base := (Base base v0).
#[local] Notation Match := (Match base d).
#[local] Notation Alive := (Alive base d v0).
#[local] Notation Dead := (Dead base v0).
#[local] Notation OK := (Ok_ base d v0).
#[local] Notation Over := (Over base v0).

(** A fallible step: running if it says so, failed otherwise. *)
Definition good (m : SourceController * bool) : Prop :=
  if snd m then Alive (fst m) else Dead (fst m).

Lemma over_ok s : Over s -> OK s.
Proof. intros [H _]. by right. Qed.
Lemma alive_failed s : Alive s -> failed s = false.
Proof. intros (H & _). unfold failed. by rewrite H. Qed.
Lemma dead_failed s : Dead s -> failed s = true.
Proof. intros ((f & Hf) & _). unfold failed. rewrite Hf. by apply bool_decide_eq_true_2. Qed.
Lemma alive_fail s f : Alive s -> Dead (fail s f).
Proof. intros (v & HB & _)%alive_base. by eapply fail_dead. Qed.

(** Only what is sent changed. *)
Lemma match_out v v' s o :
  Match v s -> numbered base v' (set_out s o) -> v_keys v' = v_keys v -> v_buttons v' = v_buttons v ->
  v_active v' = v_active v -> v_owed v' = v_owed v -> v_native v' = v_native v ->
  (is_Some (waiting (o_pacer o)) -> forwarding s = true) -> Match v' (set_out s o).
Proof.
  intros (Hn & Ht & Hr & Ha & Ho & Hh & Hw & Hl & Hk & Hf) Hn' E1 E2 E3 E4 E5 Hw'.
  split_and!; try done.
  - unfold told in *. rewrite E1, E2. exact Ht.
  - unfold accepted_activation in *. rewrite E3. exact Ha.
  - unfold owes in *. rewrite E4. exact Ho.
  - unfold native_routed in *. rewrite E5. exact Hk.
Qed.

Lemma floor_call_cases f op :
  (exists t, floor_call f op = (t, Ok t) /\ FloorSpec.edge f op = Some t)
  \/ floor_call f op = (f, Err f).
Proof. unfold floor_call. destruct (FloorSpec.edge f op); eauto. Qed.

(** A claim moved within the outbound half, or refused. *)
Lemma move_claim_cases s c to :
  to <> Free -> state c <> Free ->
  (exists t, move_claim s c to = (set_floor_claim (set_floor_word s t) (Some t), true)
     /\ state t = to /\ peer t = peer c)
  \/ move_claim s c to = (s, false).
Proof.
  intros Hto Hfr. unfold move_claim, floor_transition.
  destruct (floor_call_cases (f_floor (s_floor s)) (OpTransition c to)) as [(t & Hcall & He)|Hcall];
    rewrite Hcall; [|by right].
  left. exists t. split; [done|]. cbn in He.
  repeat case_bool_decide; try done; case_match; simplify_eq; done.
Qed.

(** A controller that is neither releasing nor held owes nothing. *)
Lemma owes_nothing v s :
  owes d v s -> releasing s = 0 -> l_held_since (s_link s) = None ->
  v_owed v = 0 /\ d = 0 /\ l_acks_pending (s_link s) = 0.
Proof.
  intros (H1 & H2 & H3 & H4 & H5) Hr Hh. rewrite Hr in H1.
  assert (~ 0 < l_acks_pending (s_link s)); [|lia].
  intros Hp%H5. rewrite Hh in Hp. by destruct Hp.
Qed.
Lemma not_home_not_held s : held_home s -> is_home_state s = false -> l_held_since (s_link s) = None.
Proof.
  intros [_ H] Hs. destruct (l_held_since (s_link s)); [|done]. destruct H; [by eauto|congruence].
Qed.
Lemma match_waits v s : Match v s -> waits v s.
Proof.
  intros (Hn & Ht & Hr & Ha & Ho & Hh & Hw & _) H. specialize (Hw H).
  unfold accepted_activation, forwarding in *. destruct (s_state s) eqn:Es; try done. split; [done|].
  refine (proj1 (owes_nothing v s Ho _ _)); [unfold releasing; by rewrite Es|].
  apply not_home_not_held; [done|]. unfold is_home_state. by rewrite Es.
Qed.

Lemma begin_ownership_cases s target :
  (exists o ep, begin_ownership_transition s target = (set_ownership s o, Some ep))
  \/ (exists o, begin_ownership_transition s target = (fail (set_ownership s o) SOwnership, None)).
Proof.
  unfold begin_ownership_transition. destruct (begin_transition _ _) as [o [[?? ep|? ?]|e]]; eauto.
Qed.

Lemma base_ownership v s o : Base v s -> Base v (set_ownership s o).
Proof. intros H. exact H. Qed.

(** A release goes out, after the motion that waits. *)
Lemma push_release_ok v s :
  Base v s -> waits v s ->
  (exists o w, push_input s MsgReleaseAll = set_out s o /\ Base w (set_out s o)
    /\ waiting (o_pacer o) = None /\ v_keys w = ∅ /\ v_buttons w = ∅ /\ v_owed w = v_owed v + 1
    /\ v_native w = v_native v)
  \/ Over (push_input s MsgReleaseAll).
Proof.
  intros HB Hw.
  assert (forall v1, message_step base v1 MsgReleaseAll = Some (view_released v1)) as Hm.
  { intros v1. unfold message_step, frame_step. cbn. by rewrite !Z.eqb_refl. }
  destruct (push_message_ok base v0 v s MsgReleaseAll HB Hw) as [(o & v1 & w & Hp & HB' & Hmv & Hs & Hn & _)|HO];
    [done|intros v1 _; rewrite Hm; eauto| |by right].
  left. rewrite Hm in Hs. simplify_eq. destruct (moved_fields _ _ Hmv) as (_ & _ & _ & _ & _ & Ho & Hna).
  exists o, (view_released v1). split_and!; try done; cbn; by rewrite ?Ho.
Qed.

(** ** Coming home *)

Lemma begin_return_ok s local position guard handover :
  Alive s ->
  match s_state s with
  | SRemote _ _ _ _ => True
  | SAwaitRemoteBarrier _ =>
      forall v, effects_run base v0 (o_effects (s_out s)) = Some v -> v_native v = false
  | _ => False
  end ->
  OK (begin_return_to s local position guard handover).
Proof.
  intros (v & HB & HM)%alive_base Hst.
  pose proof (match_waits _ _ HM) as Hw.
  destruct HM as (Hn & Ht & Hr & Ha & Ho & Hh & Hmw & Hl & Hk & Hf).
  assert (is_home_state s = false) as Hhome by (unfold is_home_state; by destruct (s_state s)).
  assert (releasing s = 0) as Hrel by (unfold releasing; by destruct (s_state s)).
  assert (native_may_be_remote s = true) as Hnat.
  { unfold native_may_be_remote. rewrite orb_true_iff. right. by destruct (s_state s). }
  pose proof (not_home_not_held s Hh Hhome) as Hheld.
  destruct (owes_nothing v s Ho Hrel Hheld) as (Hv & Hd & Hp).
  unfold begin_return_to, return_claim.
  unfold floor_held in Hf. destruct (f_claim (s_floor s)) as [c|] eqn:Ec; [|congruence].
  destruct Hf as (Hfl & Hpe & Hfit).
  assert (state c = Sending) as Hsc by (unfold claim_fits in Hfit; by destruct (s_state s)).
  destruct (move_claim_cases s c Returning) as [(t & -> & Hst1 & Hpt)| ->]; [done|by rewrite Hsc| |];
    cbn [negb]; [|by eapply fail_ok].
  set (s1 := set_floor_claim _ _).
  assert (Base v s1) as HB1 by exact HB. assert (waits v s1) as Hw1 by exact Hw.
  destruct (begin_ownership_cases s1 local) as [(own & ep & ->)|(own & ->)]; cbn [fst snd];
    [|eapply fail_ok; by apply base_ownership].
  destruct (push_release_ok v (set_ownership s1 own)) as [(o & w & -> & HB2 & Hno & Hk1 & Hb1 & Ho1 & Hn1)|HO];
    [by apply base_ownership|exact Hw1| |].
  2:{ rewrite (dead_failed _ (proj1 HO)). by apply over_ok. }
  rewrite (base_alive_failed _ _ _ _ HB2). left. destruct HB2 as (F2 & R2 & L2 & Hn2 & _).
  split; [exact F2|]. split; [exact L2|]. exists w. split; [exact R2|].
  split; [exact Hn2|]. split; [done|]. split; [done|]. split; [done|].
  split.
  { unfold owes, releasing in *. subst s1. ux. rewrite Hv in Ho1. split_and!; lia. }
  split. { destruct Hh as [H1 H2]. split; [exact H1|]. intros Hx. subst s1. ux.
    rewrite Hheld in Hx. by destruct Hx. }
  split. { unfold motion_waits. ux. rewrite Hno. by intros []. }
  split; [exact Hl|].
  split. { destruct Hk as [Hk Hrt]. split; [|done]. intros Hv'. rewrite Hn1 in Hv'.
    unfold native_route, route_held in *. subst s1. ux. destruct (s_state s); try done.
    - destruct HB as (_ & HR & _). rewrite (Hst v HR) in Hv'. done.
    - left. by apply andb_true_iff in Hrt as [? _]. }
  unfold floor_held, claim_fits. subst s1. ux. rewrite Hpt, Hpe. auto.
Qed.
(** ** Holding *)

Lemma health_hold_cases h now :
  last_now h <= now ->
  (exists h', SessionHealth.hold h now = (h', Ok ()) /\ last_now h' = now /\ SessionHealth.failure h' = None)
  \/ (exists e, SessionHealth.hold h now = (h, Err e)).
Proof.
  intros Hle. unfold SessionHealth.hold, SessionHealth.advance, SessionHealth.fail.
  rewrite (proj2 (Z.ltb_ge _ _)) by done. cbn.
  destruct (SessionHealth.failure h) as [[]|]; eauto 10.
Qed.

Lemma claim_fits_outbound s c : claim_fits s c -> floor_owner (state c) = Some Floor.Outbound.
Proof. unfold claim_fits. intros H. repeat case_match; try done; by rewrite H. Qed.

(** What a hold comes to once its barrier is out: at home, and held. *)
Lemma held_match w s now :
  numbered base w s -> none_remote s -> v_keys w = ∅ -> v_buttons w = ∅ ->
  v_owed w + d = l_acks_pending (s_link s) -> 0 <= v_owed w -> 0 <= d ->
  0 <= l_acks_pending (s_link s) <= 2 -> last_now (l_health (s_link s)) <= s_last_now s ->
  SessionHealth.failure (l_health (s_link s)) = None -> waiting (o_pacer (s_out s)) = None ->
  ledger_ok s -> native_routed w s -> is_home_state s = true -> floor_held s ->
  Match w (begin_hold s now).
Proof.
  intros Hn [N1 N2] Hk Hb Ho Hw Hd Hp Hh Hf Hwt Hl Hna Hs Hfl. split; [exact Hn|].
  unfold is_home_state in Hs.
  split. { unfold told. ux. destruct (s_state s); try done; by rewrite Hk, Hb, N1, N2. }
  split. { unfold remote_held, none_remote. ux. destruct (s_state s); try done. }
  split. { unfold accepted_activation. ux. by destruct (s_state s). }
  split. { unfold owes, releasing. ux. destruct (s_state s); try done; split_and!; try lia; eauto. }
  split. { split; [exact Hh|]. intros _. split; [exact Hs|exact Hf]. }
  split. { unfold motion_waits. ux. rewrite Hwt. by intros []. }
  split; [exact Hl|]. split; [exact Hna|exact Hfl].
Qed.

Lemma recover_cases s target :
  exists o b, recover_ownership_at s target = (set_ownership s o, b).
Proof.
  unfold recover_ownership_at. destruct (on_failure _ _) as [o [plan|e]]; [|eauto].
  destruct (complete_recovery _ _) as [o1 [[]|e]]; [|eauto].
  destruct (begin_transition _ _) as [o2 [[]|[]]]; eauto.
  destruct (acknowledge_transition _ _); eauto.
Qed.

(** The pointer brought home by a hold. *)
Lemma hold_route_ok w s restore_pending native restore now :
  Base w s -> none_remote s -> v_keys w = ∅ -> v_buttons w = ∅ ->
  v_owed w + d = l_acks_pending (s_link s) -> 0 <= v_owed w -> 0 <= d ->
  0 <= l_acks_pending (s_link s) <= 2 -> last_now (l_health (s_link s)) <= s_last_now s ->
  SessionHealth.failure (l_health (s_link s)) = None -> waiting (o_pacer (s_out s)) = None ->
  ledger_ok s -> native_routed w s -> native = native_may_be_remote s ->
  (restore_pending = true -> is_home_state s = true) -> floor_held s ->
  let '(s', ok) := hold_route s restore_pending native restore in
  if ok then Alive (begin_hold s' now) else Dead s'.
Proof.
  intros HB N Hk Hb Ho Hw Hd Hp Hh Hf Hwt Hl Hrt Hnat Hrp Hfl. pose proof HB as (F & R & L & Hn & Hkn).
  assert (forall t c, floor_held (set_state s (SLocal t c))) as Hfl1.
  { intros t c. unfold floor_held in *. ux. destruct (f_claim (s_floor s)); [|done].
    destruct Hfl as (? & ? & Hc). split_and!; try done. by apply (claim_fits_outbound s). }
  unfold hold_route. destruct restore_pending.
  { split; [exact F|]. split; [exact L|]. exists w. split; [exact R|]. apply held_match; auto. }
  destruct native.
  - destruct (request_route_ok base v0 w s
      (fun request => RestoreLocalAt request (Ownership.display restore.1) restore.2) false HB)
      as [(-> & R' & L')|(s' & -> & HD)]; [done| |done].
    split; [exact F|]. split; [exact L'|]. eexists. split; [exact R'|].
    apply held_match; try done; exact (Hfl1 restore.1 None).
  - split; [exact F|]. split; [exact L|]. exists w. split; [exact R|].
    apply held_match; try done. split; [|done].
    intros Hv. destruct (Hkn Hv) as [Hx|Hx]; [congruence|by right].
Qed.

Lemma hold_ok s now :
  Alive s -> l_held_since (s_link s) = None -> s_last_now s = now ->
  (Alive (hold s now) /\ is_held (hold s now) = true) \/ Dead (hold s now).
Proof.
  intros (v & HB & HM)%alive_base Hheld Hnow. pose proof (match_waits _ _ HM) as Hw.
  destruct HM as (Hn & Ht & Hr & Ha & Ho & Hh & Hmw & Hl & Hk & Hf).
  unfold hold.
  destruct (health_hold_cases (l_health (s_link s)) now) as [(h & -> & Hh1 & Hh2)|(e & ->)];
    [destruct Hh; lia| |right; by eapply (fail_dead _ _ v)].
  set (s1 := set_quality _ _).
  assert (exists own ok, recover_ownership_at s1 (failure_restore_target s1).1 = (set_ownership s1 own, ok))
    as (own & ok & Hrec) by apply recover_cases.
  rewrite Hrec. destruct ok; cbn [negb]; [|right; by eapply (fail_dead _ _ v)].
  set (owed := match s_state s1 with SAwaitRelease _ => 1 | _ => 0 end).
  assert (owed = releasing s) as Howed by reflexivity. clearbody owed.
  set (s2 := set_acks_pending _ _).
  assert (l_acks_pending (s_link s) = 0) as Hp.
  { destruct Ho as (_ & _ & _ & Hp & Hq). destruct (decide (0 < l_acks_pending (s_link s))) as [Hx|]; [|lia].
    apply Hq in Hx. rewrite Hheld in Hx. by destruct Hx. }
  assert (0 <= releasing s <= 1) as Hrel by (unfold releasing; case_match; lia).
  assert (l_acks_pending (s_link s2) = releasing s) as Hp2.
  { subst s2. ux. rewrite Howed. unfold saturating_add_u32, u32_max. subst s1. ux. rewrite Hp. lia. }
  unfold send_hold_barrier.
  destruct (push_release_ok v s2) as [(o & w & Hpush & HB2 & Hno & Hk1 & Hb1 & Ho1 & Hn1)|HO];
    [exact HB|exact Hw| |].
  2:{ rewrite !(dead_failed _ (proj1 HO)). right. by destruct HO. }
  rewrite Hpush, (base_alive_failed _ _ _ _ HB2).
  set (s3 := set_barrier_sent_at _ _).
  assert (Base w s3) as HB3 by exact HB2. rewrite (base_alive_failed _ _ _ _ HB3).
  set (s4 := clear_remote_delivery _).
  match goal with |- context [hold_route s4 ?rp ?nat ?res] =>
    pose proof (hold_route_ok w s4 rp nat res now) as HR;
    destruct (hold_route s4 rp nat res) as [s5 ok] end.
  cut (if ok then Alive (begin_hold s5 now) else Dead s5); [destruct ok; [left; split; [done|reflexivity]|by right]|].
  assert (l_acks_pending (s_link s4) = releasing s + 1) as Hp4.
  { change (saturating_add_u32 (l_acks_pending (s_link (set_out s2 o))) 1 = releasing s + 1).
    change (l_acks_pending (s_link (set_out s2 o))) with (l_acks_pending (s_link s2)).
    rewrite Hp2. unfold saturating_add_u32, u32_max. lia. }
  destruct Ho as (Ho2 & Ho3 & Ho4 & _).
  apply HR; try done; try lia.
  - change (last_now h <= s_last_now s). lia.
  - split; [exact (proj1 Hl)|]. split; intros u Hu; by apply elem_of_empty in Hu.
  - unfold native_routed. rewrite Hn1. exact Hk.
  - intros Hx. change (is_home_state s = true). unfold is_home_state.
    change (s_state s1) with (s_state s) in Hx. by destruct (s_state s).
Qed.

(** ** Time and health *)

Lemma observe_time_good s now :
  Alive s -> good (observe_time s now).
Proof.
  intros HA. unfold observe_time, good. destruct (now <? s_last_now s) eqn:E; cbn [fst snd].
  - by apply alive_fail.
  - apply Z.ltb_ge in E. destruct HA as (F & L & v & R & Hn & Ht & Hr & Ha & Ho & Hh & Hmw & Hl & Hk & Hf).
    split; [exact F|]. split; [exact L|]. exists v. split; [exact R|].
    split_and!; try done. destruct Hh as [H1 H2]. split; [ux; lia|exact H2].
Qed.
Lemma health_check_cases h now :
  last_now h <= now ->
  (exists h' r, check h now = (h', r) /\ last_now h' <= now).
Proof.
  intros Hle. unfold check, latched. destruct (SessionHealth.failure h); cbn [st_bind]; [eauto|].
  unfold SessionHealth.advance. rewrite (proj2 (Z.ltb_ge _ _)) by done. cbn [st_bind].
  case_match; [|eexists _, _; split; [done|]; cbn; lia].
  unfold SessionHealth.fail. cbn. case_match; eexists _, _; (split; [done|]); cbn; lia.
Qed.

(** A health value with the same or an earlier clock does not matter while not
    held. *)
Lemma alive_health s h :
  Alive s -> l_held_since (s_link s) = None -> last_now h <= s_last_now s -> Alive (set_health s h).
Proof.
  intros (F & L & v & R & Hn & Ht & Hr & Ha & Ho & Hh & Hmw & Hl & Hk & Hf) Hheld Hle.
  split; [exact F|]. split; [exact L|]. exists v. split; [exact R|]. split_and!; try done.
  split; [exact Hle|]. ux. rewrite Hheld. by intros [].
Qed.

Lemma is_held_false s : is_held s = false -> l_held_since (s_link s) = None.
Proof. unfold is_held. case_bool_decide as H; [done|]. intros _. by apply eq_None_not_Some. Qed.
Lemma is_held_true s : is_held s = true -> is_Some (l_held_since (s_link s)).
Proof. unfold is_held. by case_bool_decide. Qed.

Lemma check_health_good s now :
  Alive s -> s_last_now s = now -> good (check_health s now).
Proof.
  intros HA Hnow. unfold check_health. destruct (is_held s) eqn:Eh; [done|].
  apply is_held_false in Eh.
  assert (last_now (l_health (s_link s)) <= now) as Hle.
  { destruct HA as (_ & _ & v & _ & _ & _ & _ & _ & _ & [Hh _] & _). lia. }
  destruct (health_check_cases _ _ Hle) as (h & r & -> & Hh).
  assert (Alive (set_health s h)) as HA1 by (apply alive_health; [done..|lia]).
  destruct r as [[]|e]; [exact HA1|].
  destruct e; try (by apply alive_fail).
  destruct (hold_ok (set_health s h) now) as [[HA2 _]|HD]; try done; unfold good; cbn [fst snd].
  - rewrite (alive_failed _ HA2). done.
  - rewrite (dead_failed _ HD). done.
Qed.

Lemma observe_good s now : Alive s -> good (observe s now).
Proof.
  intros HA. unfold observe. pose proof (observe_time_good s now HA) as HG.
  destruct (observe_time s now) as [s1 b] eqn:E. unfold good in HG. cbn [fst snd] in HG.
  destruct b; [|done].
  assert (s_last_now s1 = now) as Hnow.
  { unfold observe_time in E. case_match; simplify_eq. done. }
  by apply check_health_good.
Qed.

(** Observing the time either changes nothing that matters here, or holds. *)
Lemma observe_cases s now s1 :
  Alive s -> observe s now = (s1, true) ->
  (is_held s1 = true /\ is_home_state s1 = true)
  \/ (exists h, s1 = set_health (set_last_now s now) h).
Proof.
  intros HA HO. pose proof (observe_good s now HA) as HG. rewrite HO in HG. cbn in HG.
  destruct (is_held s1) eqn:Eh.
  - left. split; [done|].
    destruct HG as (_ & _ & v & _ & _ & _ & _ & _ & _ & [_ Hh] & _).
    by apply Hh, is_held_true.
  - right. revert HO. unfold observe, observe_time. destruct (now <? s_last_now s) eqn:En; [done|].
    set (s' := set_last_now s now). unfold check_health.
    destruct (is_held s') eqn:Eh'.
    { intros ?. simplify_eq. exists (l_health (s_link s)). reflexivity. }
    destruct (check _ now) as [h r] eqn:Ec. destruct r as [[]|e].
    { intros ?. simplify_eq. eauto. }
    destruct e; try done. intros [= <- Hf]. exfalso.
    apply Z.ltb_ge in En.
    assert (Alive s') as HA'.
    { pose proof (observe_time_good s now HA) as Hg. unfold observe_time in Hg.
      rewrite (proj2 (Z.ltb_ge _ _)) in Hg by done. exact Hg. }
    assert (last_now (l_health (s_link s')) <= now) as Hle.
    { destruct HA' as (_ & _ & v & _ & _ & _ & _ & _ & _ & [Hh _] & _). exact Hh. }
    destruct (health_check_cases _ _ Hle) as (h1 & r1 & Hc & Hh1). rewrite Hc in Ec. simplify_eq.
    apply is_held_false in Eh'.
    destruct (hold_ok (set_health s' h) now) as [[_ Hx]|HD]; try done.
    { by apply alive_health. } { congruence. }
    rewrite (dead_failed _ HD) in Hf. done.
Qed.

(** ** Heartbeats *)

(** The clock of a health value after a call at [now]. *)
Lemma health_fail_clock {A} h e : last_now (SessionHealth.fail h e (A:=A)).1 = last_now h.
Proof. unfold SessionHealth.fail. by case_match. Qed.
Lemma take_pong_clock h token now : last_now (take_pong h token now).1 = last_now h.
Proof. unfold take_pong. repeat case_match; try done. apply health_fail_clock. Qed.
Lemma challenge_clock h now : last_now (challenge h now).1 = last_now h.
Proof.
  unfold challenge. destruct (match ping_sent h with Some _ => _ | None => _ end); [done|].
  destruct (checked_add_u64 _ _); [done|apply health_fail_clock].
Qed.
Lemma receive_pong_clock h token now : last_now h <= now -> last_now (receive_pong h token now).1 <= now.
Proof.
  intros Hle. unfold receive_pong. destruct (health_check_cases _ _ Hle) as (h' & [[]|e] & -> & Hh); cbn; [|done].
  pose proof (take_pong_clock h' token now) as Ht. destruct (take_pong h' token now) as [h2 [?|?]]; cbn in *; lia.
Qed.
Lemma poll_clock h now : last_now h <= now -> last_now (poll h now).1 <= now.
Proof.
  intros Hle. unfold poll. destruct (health_check_cases _ _ Hle) as (h' & [[]|e] & -> & Hh); cbn; [|done].
  rewrite challenge_clock. done.
Qed.

(** While held the latch is clear and stays so when a call succeeds. *)
Lemma held_guard {A} h now (f : PeerHealth -> unit -> PeerHealth * result HealthError A) :
  SessionHealth.failure h = None -> last_now h <= now ->
  (let? (h, _) := latched h in let? (h, u) := SessionHealth.advance h now in f h u)
  = f (mkHealth now (last_response h) (ping_sent h) (next_token h) (last_acked h) (confirmed h) None) ().
Proof.
  intros Hf Hle. unfold latched. rewrite Hf. cbn [st_bind]. unfold SessionHealth.advance.
  rewrite (proj2 (Z.ltb_ge _ _)) by done. cbn [st_bind]. by rewrite Hf.
Qed.
Lemma pong_held h token now :
  SessionHealth.failure h = None -> last_now h <= now ->
  let '(h', r) := receive_pong_while_held h token now in
  last_now h' <= now /\ (is_ok r = true -> SessionHealth.failure h' = None).
Proof.
  intros Hf Hle. unfold receive_pong_while_held. rewrite held_guard by done.
  unfold take_pong, SessionHealth.fail. cbn. repeat case_match; simplify_eq; cbn; (split; [lia|done]).
Qed.
Lemma poll_held h now :
  SessionHealth.failure h = None -> last_now h <= now ->
  let '(h', r) := poll_while_held h now in
  last_now h' <= now /\ (is_ok r = true -> SessionHealth.failure h' = None).
Proof.
  intros Hf Hle. unfold poll_while_held. rewrite held_guard by done.
  unfold challenge, SessionHealth.fail. cbn. repeat case_match; simplify_eq; cbn; (split; [lia|done]).
Qed.

(** A health value that keeps what a hold needs. *)
Lemma alive_health_held s h :
  Alive s -> last_now h <= s_last_now s -> SessionHealth.failure h = None -> Alive (set_health s h).
Proof.
  intros (F & L & v & R & Hn & Ht & Hr & Ha & Ho & Hh & Hmw & Hl & Hk & Hf) Hle Hnf.
  split; [exact F|]. split; [exact L|]. exists v. split; [exact R|]. split_and!; try done.
  split; [exact Hle|]. intros Hx. split; [|exact Hnf]. by apply Hh.
Qed.
Lemma alive_held_health s :
  Alive s -> is_held s = true ->
  SessionHealth.failure (l_health (s_link s)) = None /\ last_now (l_health (s_link s)) <= s_last_now s.
Proof.
  intros (_ & _ & v & _ & _ & _ & _ & _ & _ & [H1 H2] & _) Hh%is_held_true. split; [by apply H2|done].
Qed.

Lemma try_resume_alive s now : Alive s -> s_last_now s = now -> Alive (try_resume s now).
Proof.
  intros HA Hnow. unfold try_resume. destruct (l_held_since (s_link s)) as [since|] eqn:Eh; [|done].
  destruct ((0 <? l_acks_pending (s_link s)) || negb (l_pong_seen (s_link s))) eqn:E; [done|].
  apply orb_false_elim in E as [E _]. apply Z.ltb_ge in E.
  destruct (alive_held_health s HA) as [Hf Hle]. { unfold is_held. by rewrite Eh. }
  unfold resume. rewrite held_guard by (done || lia).
  destruct HA as (F & L & v & R & Hn & Ht & Hr & Ha & Ho & Hh & Hmw & Hl & Hk & Hfl).
  split; [exact F|]. split; [exact L|]. exists v. split; [exact R|]. split_and!; try done.
  - destruct Ho as (O1 & O2 & O3 & O4 & O5). unfold owes in *. ux. split_and!; try done; lia.
  - split; [change (now <= s_last_now s); lia|]. ux. by intros [].
Qed.

Lemma on_pong_ok s token now : Alive s -> s_last_now s = now -> OK (on_pong s token now).
Proof.
  intros HA Hnow. pose proof HA as (v & HB & HM)%alive_base. unfold on_pong.
  destruct (is_held s) eqn:Eh.
  - destruct (alive_held_health s HA Eh) as [Hf Hle].
    pose proof (pong_held (l_health (s_link s)) token now Hf) as Hp.
    destruct (receive_pong_while_held _ token now) as [h [fresh|e]]; [|by eapply (fail_ok _ _ _ v)].
    destruct Hp as [H1 H2]; [lia|]. left.
    assert (Alive (set_health s h)) as HA1 by (apply alive_health_held; [done|lia|auto]).
    destruct fresh; [|exact HA1]. exact (try_resume_alive (set_pong_seen (set_health s h) true) now HA1 Hnow).
  - apply is_held_false in Eh.
    assert (last_now (l_health (s_link s)) <= now) as Hle by (destruct HM as (_ & _ & _ & _ & _ & [? _] & _); lia).
    pose proof (receive_pong_clock _ token now Hle) as Hp.
    destruct (receive_pong _ token now) as [h [[]|e]]; [|by eapply (fail_ok _ _ _ v)].
    left. cbn in Hp. exact (alive_health s h HA Eh ltac:(lia)).
Qed.

Lemma alive_out v v' s o :
  Match v s -> Base v' (set_out s o) -> v_keys v' = v_keys v -> v_buttons v' = v_buttons v ->
  v_active v' = v_active v -> v_owed v' = v_owed v -> v_native v' = v_native v ->
  (is_Some (waiting (o_pacer o)) -> forwarding s = true) -> Alive (set_out s o).
Proof.
  intros HM HB H1 H2 H3 H4 H5 H6. eapply base_alive; [exact HB|].
  destruct HB as (_ & _ & _ & Hn & _). by eapply match_out.
Qed.

Lemma push_control_alive s m : Alive s -> is_heartbeat m = true -> OK (push_control s m).
Proof.
  intros (v & HB & HM)%alive_base Hm.
  destruct (push_control_ok base v0 v s m HB Hm) as [(o & -> & HB' & Hp & _)|HD]; [|by right].
  left. eapply alive_out; try done. rewrite Hp. by destruct HM as (_ & _ & _ & _ & _ & _ & Hw & _).
Qed.

Lemma challenge_peer_ok s token now : Alive s -> OK (challenge_peer s token now).
Proof. intros HA. by apply (push_control_alive (set_quality s _)). Qed.

(** ** Ticks *)

Lemma barrier_resend_ok s now :
  Alive s -> is_held s = true -> l_acks_pending (s_link s) = 0 ->
  OK (send_hold_barrier s now) /\ s_last_now (send_hold_barrier s now) = s_last_now s
  /\ is_held (send_hold_barrier s now) = true
  \/ Dead (send_hold_barrier s now).
Proof.
  intros (v & HB & HM)%alive_base Hheld Hp. unfold send_hold_barrier.
  destruct (push_release_ok v s HB (match_waits _ _ HM)) as [(o & w & -> & HB2 & Hno & Hk1 & Hb1 & Ho1 & Hn1)|HO].
  2:{ right. rewrite (dead_failed _ (proj1 HO)). by destruct HO. }
  left. rewrite (base_alive_failed _ _ _ _ HB2). split; [|split; [reflexivity|exact Hheld]].
  destruct HM as (Hn & Ht & Hr & Ha & Ho & Hh & Hmw & Hl & Hk & Hf).
  destruct HB2 as (F2 & R2 & L2 & Hn2 & Hkn2).
  destruct (proj2 Hh (is_held_true _ Hheld)) as [Hhome _].
  assert (none_remote s) as [N1 N2].
  { unfold is_home_state in Hhome. unfold remote_held in Hr. by destruct (s_state s). }
  left. split; [exact F2|]. split; [exact L2|]. exists w. split; [exact R2|].
  split; [exact Hn2|].
  split. { unfold told. ux. unfold is_home_state in Hhome. rewrite Hk1, Hb1, N1, N2. by destruct (s_state s). }
  split; [exact Hr|].
  split. { unfold accepted_activation. ux. unfold is_home_state in Hhome. by destruct (s_state s). }
  split. { destruct Ho as (O1 & O2 & O3 & O4 & O5). unfold owes, releasing in *. ux. rewrite Hp in *.
    change (saturating_add_u32 0 1) with 1. unfold is_home_state in Hhome.
    destruct (s_state s); try done; split_and!; try lia; intros _; by apply is_held_true. }
  split; [exact Hh|]. split. { unfold motion_waits. ux. rewrite Hno. by intros []. }
  split; [exact Hl|]. split; [|exact Hf]. unfold native_routed. rewrite Hn1. exact Hk.
Qed.

Lemma poll_held_ok s now : Alive s -> is_held s = true -> s_last_now s = now ->
  OK (let '(h, r) := poll_while_held (l_health (s_link s)) now in
      let s := set_health s h in
      match r with
      | Ok (Some token) => challenge_peer s token now
      | Ok None => s
      | Err e => fail s (SPeerHealth e)
      end).
Proof.
  intros HA Hh Hnow. destruct (alive_held_health s HA Hh) as [Hf Hle].
  pose proof HA as (v & HB & _)%alive_base.
  pose proof (poll_held (l_health (s_link s)) now Hf) as Hp.
  destruct (poll_while_held _ now) as [h [token|e]]; [|by eapply (fail_ok _ _ _ v)].
  destruct Hp as [H1 H2]; [lia|].
  assert (Alive (set_health s h)) as HA1 by (apply alive_health_held; [done|lia|auto]).
  destruct token; [by apply challenge_peer_ok|by left].
Qed.

Lemma tick_held_ok s since now :
  Alive s -> is_held s = true -> s_last_now s = now -> OK (tick_held s since now).
Proof.
  intros HA Hh Hnow. unfold tick_held. case_match; [right; by apply alive_fail|].
  destruct ((l_acks_pending (s_link s) =? 0) && _) eqn:E.
  - apply andb_true_iff in E as [E%Z.eqb_eq _].
    destruct (barrier_resend_ok s now HA Hh E) as [([HA1|HD] & Hn1 & Hh1)|HD].
    + rewrite (alive_failed _ HA1). apply poll_held_ok; [done..|congruence].
    + rewrite (dead_failed _ HD). by right.
    + rewrite (dead_failed _ HD). by right.
  - rewrite (alive_failed _ HA). by apply poll_held_ok.
Qed.

Lemma send_due_ok s now : OK s -> OK (send_due s now).
Proof.
  unfold send_due. intros [HA|HD]; [|rewrite (dead_failed _ HD); by right].
  rewrite (alive_failed _ HA). apply alive_base in HA as (v & HB & HM).
  unfold due, SessionPacer.flush. destruct (slot_open _ _ _); [|left; by eapply base_alive].
  destruct (waiting (o_pacer (s_out s))) as [p|] eqn:Ew; [|left; by eapply base_alive].
  destruct (match_waits _ _ HM) as [Ha Ho]; [rewrite Ew; eauto|].
  set (pc := mkPacer None _).
  destruct (send_position_ok base v0 v (set_pacer s pc) p) as [[-> HB']|HO]; try done; [|by apply over_ok].
  left. eapply (alive_out v (next_number v) s); try done. by intros [].
Qed.

Lemma tick_ok s now : Alive s -> OK (tick s now).
Proof.
  intros HA. unfold tick. rewrite (alive_failed _ HA).
  pose proof (observe_time_good s now HA) as HG.
  destruct (observe_time s now) as [s1 ok] eqn:E. unfold good in HG. cbn [fst snd] in HG.
  destruct ok; cbn [negb]; [|by right].
  assert (s_last_now s1 = now) as Hnow by (unfold observe_time in E; case_match; simplify_eq; done).
  set (s2 := set_quality s1 _). assert (Alive s2) as HA2 by exact HG.
  assert (s_last_now s2 = now) as Hnow2 by exact Hnow. clearbody s2. clear HG Hnow E s1.
  destruct (l_held_since (s_link s2)) as [since|] eqn:Eh.
  - apply tick_held_ok; try done. unfold is_held. by rewrite Eh.
  - destruct (should_retreat s2 now).
    { destruct (hold_ok s2 now) as [[? _]|?]; [done..|by left|by right]. }
    unfold tick_live. pose proof HA2 as (v & HB & HM)%alive_base.
    assert (last_now (l_health (s_link s2)) <= now) as Hle by (destruct HM as (_ & _ & _ & _ & _ & [? _] & _); lia).
    pose proof (poll_clock _ now Hle) as Hp. destruct (poll _ now) as [h r]. cbn in Hp.
    assert (Alive (set_health s2 h)) as HA3 by (apply alive_health; [done..|lia]).
    apply send_due_ok. destruct r as [[token|]|e]; [by apply challenge_peer_ok|by left|].
    destruct e; try (right; by apply alive_fail).
    destruct (hold_ok (set_health s2 h) now) as [[? _]|?]; [done..|by left|by right].
Qed.

(** ** The end of a call *)

Lemma release_floor_fields s :
  exists fs, release_floor s = set_floor s fs /\ f_claim fs = None.
Proof.
  unfold release_floor. ux. destruct (f_claim (s_floor s)) as [c|] eqn:Ec; [|eexists; split; [reflexivity|done]].
  destruct (floor_transition _ _ _) as [f [t|e]]; [|eexists; split; [reflexivity|done]].
  case_match; eexists; (split; [reflexivity|done]).
Qed.

(** What holds between calls: no claim is kept at home once nothing is owed. *)
Definition at_rest (s : SourceController) : Prop :=
  is_local s = true -> l_acks_pending (s_link s) = 0 -> f_claim (s_floor s) = None.

Lemma alive_release s : Alive s -> is_home_state s = true -> Alive (release_floor s) /\ at_rest (release_floor s).
Proof.
  intros (F & L & v & R & Hn & Ht & Hr & Ha & Ho & Hh & Hmw & Hl & Hk & Hf) Hs.
  destruct (release_floor_fields s) as (fs & -> & Hc). split; [|by intros _ _].
  split; [exact F|]. split; [exact L|]. exists v. split; [exact R|]. split_and!; try done.
  unfold floor_held. ux. by rewrite Hc.
Qed.

Lemma settle_outcome_ok s :
  OK s -> (Alive (settle_outcome s) /\ at_rest (settle_outcome s)) \/ Dead (settle_outcome s).
Proof.
  unfold settle_outcome. intros [HA|HD]; [|rewrite (dead_failed _ HD); by right].
  rewrite (alive_failed _ HA).
  set (s1 := if s_take_back s then _ else s).
  assert (OK s1) as Hs1.
  { subst s1. destruct (s_take_back s); [|by left].
    destruct (s_state s) eqn:Es; try (by left). apply begin_return_ok; [exact HA|]. ux. by rewrite Es. }
  clearbody s1. destruct Hs1 as [HA1|HD1].
  - destruct (is_local s1 && (l_acks_pending (s_link s1) =? 0)) eqn:E.
    + left. apply alive_release; [done|]. apply andb_true_iff in E as [E _].
      unfold is_local, is_home_state in *. by destruct (s_state s1).
    + left. split; [done|]. intros Hl Hp. rewrite Hl, Hp in E. done.
  - right. destruct (is_local s1 && _); [|done].
    destruct (release_floor_fields s1) as (fs & -> & _). exact HD1.
Qed.

(** ** Forwarding input *)

(** A controller whose peer takes input and was told what the ledger says. *)
Definition Fwd (v : PeerView) (s : SourceController) : Prop :=
  Base v s /\ v_keys v = k_remote_keys (s_ledger s) /\ v_buttons v = k_remote_buttons (s_ledger s)
  /\ v_active v = true /\ v_owed v = 0 /\ ledger_ok s.
(** Only what was sent and what is down at the peer changed. *)
Definition same_io (s s' : SourceController) : Prop :=
  exists o k, s' = set_ledger (set_out s o) k /\ k_keys k = k_keys (s_ledger s)
    /\ k_buttons k = k_buttons (s_ledger s) /\ o_epoch o = o_epoch (s_out s).

Lemma same_io_refl s : same_io s s.
Proof. exists (s_out s), (s_ledger s). done. Qed.
Lemma same_io_trans s1 s2 s3 : same_io s1 s2 -> same_io s2 s3 -> same_io s1 s3.
Proof.
  intros (o & k & -> & H1 & H2 & H3) (o' & k' & -> & H1' & H2' & H3'). exists o', k'. ux.
  split; [reflexivity|]. split_and!; congruence.
Qed.

(** Input that is neither motion nor a release goes out in its place. *)
Lemma push_input_fwd v s m keys buttons :
  Base v s -> v_active v = true -> v_owed v = 0 -> plain m = true -> m <> MsgReleaseAll ->
  (forall v1, moved v v1 -> exists w, input_step (next_number v1) m = Some w
     /\ v_keys w = keys /\ v_buttons w = buttons /\ v_active w = true /\ v_owed w = 0) ->
  (exists o w, push_input s m = set_out s o /\ Base w (set_out s o) /\ v_keys w = keys
    /\ v_buttons w = buttons /\ v_active w = true /\ v_owed w = 0 /\ waiting (o_pacer o) = None
    /\ o_epoch o = o_epoch (s_out s) /\ v_native w = v_native v)
  \/ Over (push_input s m).
Proof.
  intros HB Ha Ho Hp Hnr Hstep.
  assert (forall v1, moved v v1 -> message_step base v1 m = input_step (next_number v1) m) as Hms.
  { intros v1 Hv1. destruct (moved_fields _ _ Hv1) as (_ & _ & _ & _ & Ha1 & Ho1 & _).
    unfold message_step, frame_step. destruct m; try done; cbn;
      by rewrite !Z.eqb_refl, Ha1, Ha, Ho1, Ho. }
  destruct (push_message_ok base v0 v s m) as [(o & v1 & w & -> & HB' & Hmv & Hs & Hn & He)|HO];
    [done|done|done| | |by right].
  { intros v1 Hv1. rewrite (Hms _ Hv1). destruct (Hstep _ Hv1) as (w & -> & _). eauto. }
  left. destruct (Hstep v1 Hmv) as (w' & Hw' & E1 & E2 & E3 & E4). rewrite (Hms _ Hmv), Hw' in Hs.
  injection Hs as <-. exists o, w'. split_and!; try done.
  rewrite <- (Hms _ Hmv) in Hw'. rewrite (frame_step_native _ _ _ _ Hw').
  by destruct (moved_fields _ _ Hmv) as (_ & _ & _ & _ & _ & _ & ?).
Qed.

Lemma key_down_step keys u :
  usage_is_valid u = true -> u ∉ keys ->
  key_step keys u true false (modifiers_of ({[u]} ∪ keys)) = Some ({[u]} ∪ keys).
Proof.
  intros Hv Hu. unfold key_step. rewrite Hv, (bool_decide_eq_false_2 (u ∈ keys)) by done. cbn.
  by rewrite Z.eqb_refl.
Qed.
Lemma key_repeat_step keys u :
  usage_is_valid u = true -> u ∈ keys ->
  key_step keys u true true (modifiers_of keys) = Some keys.
Proof.
  intros Hv Hu. unfold key_step. rewrite Hv, (bool_decide_eq_true_2 (u ∈ keys)) by done. cbn.
  assert ({[u]} ∪ keys = keys) as -> by set_solver. by rewrite Z.eqb_refl.
Qed.
Lemma key_up_step keys u :
  usage_is_valid u = true -> u ∈ keys ->
  key_step keys u false false (modifiers_of (keys ∖ {[u]})) = Some (keys ∖ {[u]}).
Proof.
  intros Hv Hu. unfold key_step. rewrite Hv, (bool_decide_eq_true_2 (u ∈ keys)) by done. cbn.
  by rewrite Z.eqb_refl.
Qed.

Lemma key_step_elem keys u down repeat mods keys' :
  key_step keys u down repeat mods = Some keys' -> forall x, x ∈ keys' -> x = u \/ x ∈ keys.
Proof.
  unfold key_step. intros H x Hx. destruct (_ || _); [done|]. destruct (_ =? _); [|done].
  injection H as <-. destruct down; set_solver.
Qed.

(** A press, a repeat or a release of a key the ledger agrees with. *)
Lemma fwd_key v s keys u down repeat :
  Fwd v s -> usage_is_valid u = true ->
  key_step (k_remote_keys (s_ledger s)) u down repeat (modifiers_of keys) = Some keys ->
  (exists w, Fwd w (push_input (set_remote_keys s keys) (MsgKey u down repeat (modifiers_of keys)))
    /\ same_io s (push_input (set_remote_keys s keys) (MsgKey u down repeat (modifiers_of keys)))
    /\ k_remote_keys (s_ledger (push_input (set_remote_keys s keys) (MsgKey u down repeat (modifiers_of keys)))) = keys
    /\ k_remote_buttons (s_ledger (push_input (set_remote_keys s keys) (MsgKey u down repeat (modifiers_of keys))))
       = k_remote_buttons (s_ledger s))
  \/ Over (push_input (set_remote_keys s keys) (MsgKey u down repeat (modifiers_of keys))).
Proof.
  intros (HB & Hk & Hb & Ha & Ho & Hl1 & Hl2 & Hl3) Hu Hs.
  destruct (push_input_fwd v (set_remote_keys s keys) (MsgKey u down repeat (modifiers_of keys)) keys
    (k_remote_buttons (s_ledger s))) as [(o & w & -> & HB' & E1 & E2 & E3 & E4 & E5 & E6 & E7)|HO]; try done; [|left|by right].
  - intros v1 Hv1. destruct (moved_fields _ _ Hv1) as (_ & _ & Hk1 & Hb1 & Ha1 & Ho1 & _).
    exists (set_view_keys (next_number v1) keys). cbn. rewrite Hk1, Hk, Hs. cbn.
    split_and!; congruence.
  - exists w. split; [|split_and!; try done].
    + split_and!; try done. split; [done|]. split; [|done]. intros u' Hu'.
      destruct (key_step_elem _ _ _ _ _ _ Hs u' Hu') as [->|?]; auto.
    + eexists o, _. split; [reflexivity|]. done.
Qed.

Lemma fwd_button v s i b down clicks k :
  Fwd v s -> button_index b = i ->
  k_keys k = k_keys (s_ledger s) -> k_buttons k = k_buttons (s_ledger s) ->
  k_remote_keys k = k_remote_keys (s_ledger s) ->
  button_step (k_remote_buttons (s_ledger s)) i down = Some (k_remote_buttons k) ->
  (exists w, Fwd w (push_input (set_ledger s k) (MsgButton b down clicks))
    /\ same_io s (push_input (set_ledger s k) (MsgButton b down clicks))
    /\ s_ledger (push_input (set_ledger s k) (MsgButton b down clicks)) = k)
  \/ Over (push_input (set_ledger s k) (MsgButton b down clicks)).
Proof.
  intros (HB & Hk & Hb & Ha & Ho & Hl1 & Hl2 & Hl3) Hi K1 K2 K3 Hs.
  destruct (push_input_fwd v (set_ledger s k) (MsgButton b down clicks) (k_remote_keys (s_ledger s))
    (k_remote_buttons k)) as [(o & w & -> & HB' & E1 & E2 & E3 & E4 & E5 & E6 & E7)|HO]; try done; [|left|by right].
  - intros v1 Hv1. destruct (moved_fields _ _ Hv1) as (_ & _ & Hk1 & Hb1 & Ha1 & Ho1 & _).
    exists (set_view_buttons (next_number v1) (k_remote_buttons k)). cbn. rewrite Hi, Hb1, Hb, Hs. cbn.
    split_and!; congruence.
  - exists w. split; [|split; [|reflexivity]].
    + split_and!; try done; [by rewrite E1, <- K3|]. unfold ledger_ok. ux. rewrite K1, K3.
      split; [done|]. split; [done|]. intros j Hj. unfold button_step in Hs. destruct (Bool.eqb _ _); [done|].
      injection Hs as Hs. rewrite <- Hs in Hj.
      assert (j = i \/ j ∈ k_remote_buttons (s_ledger s)) as [->|?] by (destruct down; set_solver); [|auto].
      rewrite <- Hi. by destruct b.
    + eexists o, k. split; [reflexivity|]. done.
Qed.

(** A loop whose body forwards input keeps forwarding, or is over. *)
Lemma each_fwd test body stop l (P : SourceController -> Prop) s :
  (forall s i, i ∈ l -> P s -> test s i = true -> P (body s i) \/ Over (body s i)) ->
  (forall s i, Over s -> Over (body s i)) -> (forall s, P s -> failed s = false) ->
  P s \/ Over s ->
  (P (each test body stop l s).1 /\ (each test body stop l s).2 = false) \/ Over (each test body stop l s).1.
Proof.
  intros Hb Ho Hf. revert s. induction l as [|i l IH]; intros s Hs; cbn [each].
  { destruct Hs; [left|right]; done. }
  assert (forall s, P s \/ Over s ->
    (P (each test body stop l s).1 /\ (each test body stop l s).2 = false) \/ Over (each test body stop l s).1)
    as IH' by (intros; apply IH; [intros; apply Hb; [by apply list_elem_of_further|done..]|done]).
  destruct (test s i) eqn:Et; [|by apply IH'].
  assert (P (body s i) \/ Over (body s i)) as Hs'.
  { destruct Hs as [Hp|HO]; [apply Hb; [apply list_elem_of_here|done..]|right; by apply Ho]. }
  destruct (stop && failed (body s i)) eqn:E; [|by apply IH'].
  apply andb_true_iff in E as [_ E]. destruct Hs' as [Hp|HO]; [|by right].
  rewrite (Hf _ Hp) in E. done.
Qed.

Lemma fwd_failed v s : Fwd v s -> failed s = false.
Proof. intros [HB _]. by eapply base_alive_failed. Qed.
Lemma key_down_over s u : Over s -> Over (key_down s u).
Proof. intros H. by apply (push_input_over base v0 (set_remote_keys s _)). Qed.
Lemma key_up_over s u : Over s -> Over (key_up s u).
Proof. intros H. by apply (push_input_over base v0 (set_remote_keys s _)). Qed.
Lemma button_down_over s i c : Over s -> Over (button_down s i c).
Proof.
  intros H. unfold button_down. apply push_input_over. exact H.
Qed.
Lemma button_up_over s i : Over s -> Over (button_up s i).
Proof. intros H. unfold button_up. apply push_input_over. exact H. Qed.

(** The exact effect of each forwarded change. *)
Definition fwd_to (s : SourceController) (keys buttons : gset Z) (s' : SourceController) : Prop :=
  (exists w, Fwd w s' /\ same_io s s' /\ k_remote_keys (s_ledger s') = keys
     /\ k_remote_buttons (s_ledger s') = buttons)
  \/ Over s'.

Lemma key_down_fwd v s u :
  Fwd v s -> usage_is_valid u = true -> u ∉ k_remote_keys (s_ledger s) ->
  fwd_to s ({[u]} ∪ k_remote_keys (s_ledger s)) (k_remote_buttons (s_ledger s)) (key_down s u).
Proof.
  intros HF Hu Hn.
  destruct (fwd_key v s ({[u]} ∪ k_remote_keys (s_ledger s)) u true false) as [(w & HF' & Hio & E2 & E3)|HO];
    [done|done|by apply key_down_step|left; by exists w|by right].
Qed.
Lemma key_repeat_fwd v s u :
  Fwd v s -> u ∈ k_remote_keys (s_ledger s) ->
  fwd_to s (k_remote_keys (s_ledger s)) (k_remote_buttons (s_ledger s)) (key_repeat s u).
Proof.
  intros HF Hn. pose proof HF as (_ & _ & _ & _ & _ & _ & Hl2 & _).
  destruct (fwd_key v s (k_remote_keys (s_ledger s)) u true true) as [(w & HF' & Hio & E2 & E3)|HO];
    [done|by apply Hl2|apply key_repeat_step; auto|left; by exists w|by right].
Qed.
Lemma key_up_fwd v s u :
  Fwd v s -> u ∈ k_remote_keys (s_ledger s) ->
  fwd_to s (k_remote_keys (s_ledger s) ∖ {[u]}) (k_remote_buttons (s_ledger s)) (key_up s u).
Proof.
  intros HF Hn. pose proof HF as (_ & _ & _ & _ & _ & _ & Hl2 & _).
  destruct (fwd_key v s (k_remote_keys (s_ledger s) ∖ {[u]}) u false false) as [(w & HF' & Hio & E2 & E3)|HO];
    [done|by apply Hl2|apply key_up_step; auto|left; by exists w|by right].
Qed.

Lemma button_at_index i : 0 <= i < 5 -> button_index (button_at i) = i.
Proof.
  intros Hi. assert (i = 0 \/ i = 1 \/ i = 2 \/ i = 3 \/ i = 4) as Hc by lia.
  by destruct_or! Hc; subst.
Qed.
Lemma button_down_fwd v s i clicks :
  Fwd v s -> 0 <= i < 5 -> i ∉ k_remote_buttons (s_ledger s) ->
  fwd_to s (k_remote_keys (s_ledger s)) ({[i]} ∪ k_remote_buttons (s_ledger s)) (button_down s i clicks).
Proof.
  intros HF Hi Hn.
  destruct (fwd_button v s i (button_at i) true clicks
    (mkLedger (k_keys (s_ledger s)) (k_remote_keys (s_ledger s)) (k_buttons (s_ledger s))
       ({[i]} ∪ k_remote_buttons (s_ledger s)) (<[i := clicks]> (k_remote_clicks (s_ledger s)))
       (k_clicks (s_ledger s)))) as [(w & HF' & Hio' & E2)|HO]; try done; [by apply button_at_index| |left|by right].
  { unfold button_step. by rewrite bool_decide_eq_false_2. }
  exists w. split; [exact HF'|]. split; [exact Hio'|].
  split; [exact (f_equal k_remote_keys E2)|exact (f_equal k_remote_buttons E2)].
Qed.
Lemma button_up_fwd v s i :
  Fwd v s -> i ∈ k_remote_buttons (s_ledger s) ->
  fwd_to s (k_remote_keys (s_ledger s)) (k_remote_buttons (s_ledger s) ∖ {[i]}) (button_up s i).
Proof.
  intros HF Hn. pose proof HF as (_ & _ & _ & _ & _ & _ & _ & Hl3).
  destruct (fwd_button v s i (button_at i) false (remote_clicks s i)
    (mkLedger (k_keys (s_ledger s)) (k_remote_keys (s_ledger s)) (k_buttons (s_ledger s))
       (k_remote_buttons (s_ledger s) ∖ {[i]}) (k_remote_clicks (s_ledger s))
       (k_clicks (s_ledger s)))) as [(w & HF' & Hio' & E2)|HO];
    try done; [by apply button_at_index, Hl3| |left|by right].
  { unfold button_step. by rewrite bool_decide_eq_true_2. }
  exists w. split; [exact HF'|]. split; [exact Hio'|].
  split; [exact (f_equal k_remote_keys E2)|exact (f_equal k_remote_buttons E2)].
Qed.

(** The loops: relative to the controller [s0] before them, the physical keys and
    buttons are unchanged and the remote ones satisfy [K] and [B]. *)
Section Loops.
Context (s0 : SourceController).
Definition fwd_from (K B : gset Z -> Prop) (s : SourceController) : Prop :=
  (exists v, Fwd v s /\ same_io s0 s /\ K (k_remote_keys (s_ledger s)) /\ B (k_remote_buttons (s_ledger s)))
  \/ Over s.

Lemma same_io_keys s : same_io s0 s ->
  k_keys (s_ledger s) = k_keys (s_ledger s0) /\ k_buttons (s_ledger s) = k_buttons (s_ledger s0).
Proof. intros (o & k & -> & H1 & H2 & _). done. Qed.

Lemma fwd_from_to (K' B' : gset Z -> Prop) s keys buttons s' :
  same_io s0 s -> fwd_to s keys buttons s' -> K' keys -> B' buttons -> fwd_from K' B' s'.
Proof.
  intros Hio [(w & HF & Hio' & <- & <-)|HO] HK HB; [left|by right]. exists w. split; [done|].
  split; [by eapply same_io_trans|done].
Qed.
Lemma fwd_from_over (K B : gset Z -> Prop) s : Over s -> fwd_from K B s.
Proof. by right. Qed.

(** One turn: a loop over [i :: l] is a turn and the loop over [l]. *)
Definition turn (test : SourceController -> Z -> bool) (body : SourceController -> Z -> SourceController)
    (s : SourceController) (i : Z) : SourceController := if test s i then body s i else s.
Lemma each_cons test body i l s :
  (each test body false (i :: l) s).1 = (each test body false l (turn test body s i)).1.
Proof. unfold turn. cbn [each andb]. by destruct (test s i). Qed.

Lemma release_key_turn (K B : gset Z -> Prop) s i :
  (forall X u, K X -> K (X ∖ {[u]})) -> fwd_from K B s ->
  fwd_from (fun X => K X /\ (i ∈ X -> i ∈ k_keys (s_ledger s0))) B (turn key_to_release key_up s i).
Proof.
  intros HK [(v & HF & Hio & H1 & H2)|HO]; unfold turn.
  2:{ apply fwd_from_over. case_match; [by apply key_up_over|done]. }
  destruct (key_to_release s i) eqn:Et; unfold key_to_release in Et.
  - apply andb_true_iff in Et as [Et%bool_decide_eq_true _].
    eapply fwd_from_to; [done|by eapply key_up_fwd| |done]. split; [auto|]. set_solver.
  - left. exists v. split_and!; try done. intros Hi. rewrite (bool_decide_eq_true_2 _ Hi) in Et.
    apply negb_false_iff, bool_decide_eq_true in Et. by destruct (same_io_keys _ Hio) as [<- _].
Qed.
Lemma release_keys_loop l : forall (K B : gset Z -> Prop) s,
  (forall X u, K X -> K (X ∖ {[u]})) -> fwd_from K B s ->
  fwd_from (fun X => K X /\ forall u, u ∈ l -> u ∈ X -> u ∈ k_keys (s_ledger s0)) B
    (each key_to_release key_up false l s).1.
Proof.
  induction l as [|i l IH]; intros K B s HK Hs.
  { destruct Hs as [(v & ? & ? & ? & ?)|]; [left|by right]. exists v. split_and!; try done.
    intros u Hu. by apply not_elem_of_nil in Hu. }
  rewrite each_cons.
  destruct (IH (fun X => K X /\ (i ∈ X -> i ∈ k_keys (s_ledger s0))) B (turn key_to_release key_up s i))
    as [(v & HF & Hio & [[Hx1 Hx2] Hx3] & H2)|]; [|by apply release_key_turn| |by right].
  { intros X u [? ?]. split; [auto|]. set_solver. }
  left. exists v. split_and!; try done. intros u [->|Hu]%elem_of_cons; auto.
Qed.

Lemma release_button_turn (K B : gset Z -> Prop) s i :
  (forall X u, B X -> B (X ∖ {[u]})) -> fwd_from K B s ->
  fwd_from K (fun X => B X /\ (i ∈ X -> i ∈ k_buttons (s_ledger s0))) (turn button_to_release button_up s i).
Proof.
  intros HK [(v & HF & Hio & H1 & H2)|HO]; unfold turn.
  2:{ apply fwd_from_over. case_match; [by apply button_up_over|done]. }
  destruct (button_to_release s i) eqn:Et; unfold button_to_release in Et.
  - apply andb_true_iff in Et as [Et%bool_decide_eq_true _].
    eapply fwd_from_to; [done|by eapply button_up_fwd|done|]. split; [auto|]. set_solver.
  - left. exists v. split_and!; try done. intros Hi. rewrite (bool_decide_eq_true_2 _ Hi) in Et.
    apply negb_false_iff, bool_decide_eq_true in Et. by destruct (same_io_keys _ Hio) as [_ <-].
Qed.
Lemma release_buttons_loop l : forall (K B : gset Z -> Prop) s,
  (forall X u, B X -> B (X ∖ {[u]})) -> fwd_from K B s ->
  fwd_from K (fun X => B X /\ forall u, u ∈ l -> u ∈ X -> u ∈ k_buttons (s_ledger s0))
    (each button_to_release button_up false l s).1.
Proof.
  induction l as [|i l IH]; intros K B s HK Hs.
  { destruct Hs as [(v & ? & ? & ? & ?)|]; [left|by right]. exists v. split_and!; try done.
    intros u Hu. by apply not_elem_of_nil in Hu. }
  rewrite each_cons.
  destruct (IH K (fun X => B X /\ (i ∈ X -> i ∈ k_buttons (s_ledger s0))) (turn button_to_release button_up s i))
    as [(v & HF & Hio & H2 & [[Hx1 Hx2] Hx3])|]; [|by apply release_button_turn| |by right].
  { intros X u [? ?]. split; [auto|]. set_solver. }
  left. exists v. split_and!; try done. intros u [->|Hu]%elem_of_cons; auto.
Qed.

(** A press adds a key that is physically down. *)
Lemma press_keys_loop (K B : gset Z -> Prop) stop l s :
  (forall X u, K X -> u ∈ k_keys (s_ledger s0) -> K ({[u]} ∪ X)) -> fwd_from K B s ->
  fwd_from K B (each key_to_press key_down stop l s).1
  /\ ((each key_to_press key_down stop l s).2 = true -> Over (each key_to_press key_down stop l s).1).
Proof.
  intros HK Hs.
  destruct (each_fwd key_to_press key_down stop l
    (fun s => exists v, Fwd v s /\ same_io s0 s /\ K (k_remote_keys (s_ledger s)) /\ B (k_remote_buttons (s_ledger s))) s)
    as [[Hx Hf]|HO].
  - clear s Hs. intros s i _ (v & HF & Hio & H1 & H2) Ht. unfold key_to_press in Ht.
    apply andb_true_iff in Ht as [Ht1%bool_decide_eq_true Ht2%negb_true_iff%bool_decide_eq_false].
    destruct (same_io_keys _ Hio) as [E1 _].
    pose proof HF as (_ & _ & _ & _ & _ & Hl1 & _).
    eapply fwd_from_to; [done|eapply key_down_fwd; eauto| |done]. apply HK; [done|]. by rewrite <- E1.
  - intros; by apply key_down_over.
  - clear. intros s (v & HF & _). by eapply fwd_failed.
  - done.
  - split; [by left|]. rewrite Hf. done.
  - split; [by right|done].
Qed.
Lemma press_buttons_loop (K B : gset Z -> Prop) stop l s :
  (forall i, i ∈ l -> 0 <= i < 5) ->
  (forall X u, B X -> u ∈ k_buttons (s_ledger s0) -> B ({[u]} ∪ X)) -> fwd_from K B s ->
  fwd_from K B (each button_to_press single_down stop l s).1.
Proof.
  intros Hl HB Hs.
  destruct (each_fwd button_to_press single_down stop l
    (fun s => exists v, Fwd v s /\ same_io s0 s /\ K (k_remote_keys (s_ledger s)) /\ B (k_remote_buttons (s_ledger s))) s)
    as [[Hx Hf]|HO].
  - clear s Hs. intros s i Hi (v & HF & Hio & H1 & H2) Ht. unfold button_to_press in Ht.
    apply andb_true_iff in Ht as [Ht1%bool_decide_eq_true Ht2%negb_true_iff%bool_decide_eq_false].
    destruct (same_io_keys _ Hio) as [_ E1].
    eapply fwd_from_to; [done|eapply button_down_fwd; eauto|done|]. apply HB; [done|]. by rewrite <- E1.
  - intros; by apply button_down_over.
  - clear. intros s (v & HF & _). by eapply fwd_failed.
  - done.
  - by left.
  - by right.
Qed.
End Loops.

Lemma button_indices_range i : i ∈ button_indices -> 0 <= i < 5.
Proof. unfold button_indices. rewrite elem_of_seqZ. lia. Qed.
Lemma usage_covered u :
  usage_is_valid u = true -> u ∈ ordinary_indices \/ u ∈ modifier_indices.
Proof.
  intros Hu. unfold ordinary_indices, modifier_indices. rewrite list_elem_of_filter, !elem_of_seqZ.
  unfold usage_is_valid in Hu. destruct (usage_is_modifier u) eqn:E; unfold usage_is_modifier in E; bool_inv; lia.
Qed.
Lemma fwd_from_start v s :
  Fwd v s -> fwd_from s (fun X => X = k_remote_keys (s_ledger s)) (fun X => X = k_remote_buttons (s_ledger s))
    (set_clicks s (reset_counter (k_clicks (s_ledger s)))).
Proof.
  intros HF. left. exists v. split; [exact HF|]. split; [|done].
  eexists (s_out s), _. split; [reflexivity|done].
Qed.
Lemma fwd_from_weaken s0 (K B K' B' : gset Z -> Prop) s :
  fwd_from s0 K B s ->
  (forall X, K X -> (forall u, u ∈ X -> usage_is_valid u = true) -> K' X) ->
  (forall X, B X -> (forall u, u ∈ X -> 0 <= u < 5) -> B' X) -> fwd_from s0 K' B' s.
Proof.
  intros [(v & HF & Hio & H1 & H2)|HO] HK HB; [left|by right]. exists v. split_and!; try done.
  - apply HK; [done|]. by destruct HF as (_ & _ & _ & _ & _ & _ & ? & _).
  - apply HB; [done|]. by destruct HF as (_ & _ & _ & _ & _ & _ & _ & ?).
Qed.

(** What the peer holds after a transfer or a synchronisation is physically held. *)
Definition held_subset (s : SourceController) : SourceController -> Prop :=
  fwd_from s (fun X => X ⊆ k_keys (s_ledger s)) (fun X => X ⊆ k_buttons (s_ledger s)).

Lemma transfer_ok v s :
  Fwd v s -> none_remote s -> held_subset s (transfer_to_remote s).
Proof.
  intros HF [N1 N2]. unfold transfer_to_remote.
  assert (held_subset s (set_clicks s (reset_counter (k_clicks (s_ledger s))))) as H0.
  { eapply fwd_from_weaken; [by eapply fwd_from_start|..]; intros X -> _; rewrite ?N1, ?N2; set_solver. }
  set (s1 := set_clicks _ _) in *. clearbody s1.
  destruct (press_keys_loop s (fun X => X ⊆ k_keys (s_ledger s)) (fun X => X ⊆ k_buttons (s_ledger s))
    true modifier_indices s1) as [H1 H2]; [set_solver|done|].
  destruct (each key_to_press key_down true modifier_indices s1) as [s2 stopped]. cbn [fst snd] in *.
  destruct stopped; [right; by apply H2|].
  apply press_buttons_loop; [apply button_indices_range|set_solver|done].
Qed.

Lemma synchronize_ok v s :
  Fwd v s ->
  held_subset s (synchronize_reanchored_remote_input s) \/ Dead (synchronize_reanchored_remote_input s).
Proof.
  intros HF. pose proof (fwd_from_start _ _ HF) as H0. pose proof HF as (HB & _).
  unfold synchronize_reanchored_remote_input. set (s1 := set_clicks _ _) in *.
  destruct (_ <? _)%nat. { right. eapply (fail_dead _ _ v). exact HB. }
  clearbody s1. left.
  set (phys := k_keys (s_ledger s)). set (pb := k_buttons (s_ledger s)).
  assert (fwd_from s (fun _ => True) (fun _ => True) s1) as H1.
  { eapply fwd_from_weaken; [exact H0|done..]. }
  clear H0.
  pose proof (release_keys_loop s ordinary_indices _ _ s1 (fun _ _ _ => I) H1) as H2. clear H1.
  set (s2 := (each key_to_release key_up false ordinary_indices s1).1) in *. clearbody s2.
  set (K1 := fun X : gset Z => True /\ _) in H2.
  assert (forall X u, K1 X -> K1 (X ∖ {[u]})) as HK1.
  { intros X u [_ Hx]. split; [done|]. intros w Hw Hw'. apply Hx; [done|].
    by apply elem_of_difference in Hw' as [? _]. }
  pose proof (release_keys_loop s modifier_indices _ _ s2 HK1 H2) as H3. clear H2.
  set (s3 := (each key_to_release key_up false modifier_indices s2).1) in *. clearbody s3.
  pose proof (release_buttons_loop s button_indices _ _ s3 (fun _ _ _ => I) H3) as H4. clear H3.
  set (s4 := (each button_to_release button_up false button_indices s3).1) in *. clearbody s4.
  assert (held_subset s s4) as H5.
  { eapply fwd_from_weaken; [exact H4| |].
    - intros X [[_ Hx1] Hx2] Hval u Hu. destruct (usage_covered u (Hval u Hu)); auto.
    - intros X [_ Hx1] Hr i Hi. apply Hx1; [|done].
      unfold button_indices. rewrite elem_of_seqZ. specialize (Hr i Hi). lia. }
  clear H4.
  assert (forall X u, X ⊆ phys -> u ∈ phys -> {[u]} ∪ X ⊆ phys) as HC1 by set_solver.
  assert (forall X u, X ⊆ pb -> u ∈ pb -> {[u]} ∪ X ⊆ pb) as HC2 by set_solver.
  destruct (press_keys_loop s _ _ false modifier_indices s4 HC1 H5) as [H6 _]. clear H5.
  set (s5 := (each key_to_press key_down false modifier_indices s4).1) in *. clearbody s5.
  destruct (press_keys_loop s _ _ false ordinary_indices s5 HC1 H6) as [H7 _]. clear H6.
  set (s6 := (each key_to_press key_down false ordinary_indices s5).1) in *. clearbody s6.
  apply press_buttons_loop; [apply button_indices_range|exact HC2|exact H7].
Qed.
End Core.
