(* ===== verification/SourceRemote.v ===== *)
(** * Captured input keeps the source's invariant (session_source.rs)

    The operations of Source.v that a captured record or the cursor's position
    starts: keys and buttons, motion at home and on a peer, the edges it crosses
    and the route changes native capture reports.  Each takes a running controller
    of SourceStream.v to a running one or to a failed one. *)

From stdpp Require Import gmap.
From S2P Require Import Prelude F64 Types Geometry Topology Floor Messages Sequence Ownership Clicks.
From S2P Require Import SessionPacer SessionHealth SessionQuality SourceEdges SourceState HeldInput.
From S2P Require Import Source SourceStream SourceSafety.

Section Remote.
Context (base d : Z) (v0 : PeerView).
#[local] Notation Base := (Base base v0).
#[local] Notation Match := (Match base d).
#[local] Notation Alive := (Alive base d v0).
#[local] Notation Dead := (Dead base v0).
#[local] Notation OK := (Ok_ base d v0).
#[local] Notation Over := (Over base v0).
#[local] Notation Fwd := (Fwd base v0).

(** ** Forwarding *)

Lemma forwarding_fits s : forwarding s = true ->
  is_home_state s = false /\ releasing s = 0 /\ exists t p rt rp, s_state s = SRemote t p rt rp.
Proof. unfold forwarding, is_home_state, releasing. destruct (s_state s); try done. eauto 10. Qed.

Lemma remote_fwd s : Alive s -> forwarding s = true -> exists v, Fwd v s /\ Match v s.
Proof.
  intros (v & HB & HM)%alive_base Hf. exists v. split; [|done].
  apply forwarding_fits in Hf as (Hh & Hr & t & p & rt & rp & Es).
  destruct HM as (_ & Ht & _ & Ha & Ho & Hhh & _ & Hl & _).
  unfold told, accepted_activation in *. rewrite Es in *.
  split; [done|]. split; [tauto|]. split; [tauto|]. split; [done|]. split; [|done].
  apply (owes_nothing d v s Ho Hr). by apply not_home_not_held.
Qed.

(** Input forwarded after a change of the ledger: what the peer holds is
    physically held again. *)
Lemma fwd_alive v w s k s' :
  Match v s -> forwarding s = true -> Fwd w s' -> same_io (set_ledger s k) s' ->
  k_remote_keys (s_ledger s') ⊆ k_keys (s_ledger s') ->
  k_remote_buttons (s_ledger s') ⊆ k_buttons (s_ledger s') -> Alive s'.
Proof.
  intros HM Hf (HB & Hk & Hb & Ha & Ho & Hl) (o & k' & -> & K1 & K2 & E) S1 S2.
  apply forwarding_fits in Hf as (Hh & Hr & t & p & rt & rp & Es).
  destruct HM as (_ & _ & _ & _ & Ho0 & Hhh & _ & _ & [Hn Hrt] & Hfl).
  eapply base_alive; [exact HB|]. destruct HB as (F & R & L & Hnum & Hkn).
  pose proof (not_home_not_held s Hhh Hh) as Hnh.
  destruct (owes_nothing d v s Ho0 Hr Hnh) as (_ & Hd & Hp).
  split; [exact Hnum|]. split. { unfold told. ux. by rewrite Es. }
  split. { unfold remote_held. ux. by rewrite Es. }
  split. { unfold accepted_activation. ux. by rewrite Es. }
  split. { unfold owes, releasing in *. ux. rewrite Es in *. rewrite Hp in *. lia. }
  split; [exact Hhh|]. split. { intros _. unfold forwarding. ux. by rewrite Es. }
  split; [exact Hl|]. split; [|exact Hfl].
  split; [|exact Hrt]. intros _. left. unfold native_route. ux. by rewrite Es.
Qed.

(** A motion, a scroll or a gesture. *)
Lemma push_position_ok s p :
  Alive s -> forwarding s = true -> OK (push_input s (MsgMotion (Absolute p))).
Proof.
  intros HA Hf. destruct (remote_fwd s HA Hf) as (v & (HB & _ & _ & Ha & Ho & _) & HM).
  destruct (push_motion_ok base v0 v s p HB Ha Ho) as [(o & v' & Hp & HB' & Hmv & _)|HO];
    [|by apply over_ok].
  left. cbn [push_input]. rewrite Hp. destruct (moved_fields _ _ Hmv) as (? & ? & ? & ? & ? & ? & ?).
  eapply alive_out; try done.
Qed.
Lemma push_stream_ok s m :
  Alive s -> forwarding s = true ->
  match m with MsgScroll _ _ | MsgGesture _ | MsgSystemGesture _ => True | _ => False end ->
  OK (push_input s m).
Proof.
  intros HA Hf Hm. destruct (remote_fwd s HA Hf) as (v & (HB & _ & _ & Ha & Ho & _) & HM).
  destruct (push_input_fwd base v0 v s m (v_keys v) (v_buttons v)) as
    [(o & w & -> & HB' & E1 & E2 & E3 & E4 & E5 & E6 & E7)|HO]; try done; [by destruct m|by destruct m| |left|by apply over_ok].
  - intros v1 Hv1. destruct (moved_fields _ _ Hv1) as (? & ? & ? & ? & ? & ? & ?).
    exists (next_number v1). split; [by destruct m|]. cbn. split_and!; congruence.
  - eapply alive_out; try done; congruence.
Qed.

(** ** Keys and buttons *)

Lemma subset_add (i : Z) (R X : gset Z) : R ⊆ X -> R ⊆ {[i]} ∪ X.
Proof. set_solver. Qed.
Lemma subset_drop (i : Z) (R X : gset Z) : R ⊆ X -> i ∉ R -> R ⊆ X ∖ {[i]}.
Proof. set_solver. Qed.
Lemma subset_not_elem (i : Z) (R X : gset Z) : R ⊆ X -> i ∉ X -> i ∉ R.
Proof. set_solver. Qed.

Lemma alive_keys s K :
  Alive s -> forwarding s = false -> (forall u, u ∈ K -> usage_is_valid u = true) -> Alive (set_keys s K).
Proof.
  intros (F & L & v & R & Hn & Ht & Hr & Ha & Ho & Hh & Hmw & Hl & Hk & Hf) Hfw Hv.
  split; [exact F|]. split; [exact L|]. exists v. split; [exact R|].
  split; [exact Hn|]. split; [exact Ht|]. split.
  { unfold remote_held, forwarding in *. ux. by destruct (s_state s). }
  split_and!; try done. split; [exact Hv|]. exact (proj2 Hl).
Qed.
Lemma alive_buttons s K :
  Alive s -> forwarding s = false -> Alive (set_buttons s K).
Proof.
  intros (F & L & v & R & Hn & Ht & Hr & Ha & Ho & Hh & Hmw & Hl & Hk & Hf) Hfw.
  split; [exact F|]. split; [exact L|]. exists v. split; [exact R|].
  split; [exact Hn|]. split; [exact Ht|]. split.
  { unfold remote_held, forwarding in *. ux. by destruct (s_state s). }
  split_and!; try done.
Qed.

(** What a key record does to the physical keys. *)
Lemma update_key_cases s u pressed repeat m :
  exists K r, update_key s u pressed repeat m = (set_keys s K, r)
    /\ (forall x, x ∈ K -> (x = u /\ usage_is_valid u = true) \/ x ∈ k_keys (s_ledger s))
    /\ (forall c, r = Some c ->
        match pressed, was_physical c with
        | true, false => K = {[u]} ∪ k_keys (s_ledger s) /\ u ∉ k_keys (s_ledger s) /\ usage_is_valid u = true
        | true, true => K = k_keys (s_ledger s)
        | false, true => K = k_keys (s_ledger s) ∖ {[u]}
                         /\ was_remote c = bool_decide (u ∈ k_remote_keys (s_ledger s))
        | false, false => K = k_keys (s_ledger s) /\ was_remote c = false
        end).
Proof.
  unfold update_key. destruct (usage_is_valid u) eqn:Ev; cbn [negb].
  2:{ exists (k_keys (s_ledger s)), None. split; [reflexivity|]. split; [auto|done]. }
  case_bool_decide as Hp; destruct pressed, repeat; cbn [negb];
    (eexists _, _; split; [reflexivity|]; split; [intros x Hx; ux; set_solver|]);
    intros c Hc; try (destruct (_ =? _)); simplify_eq; cbn; try done.
Qed.

Lemma remote_key_ok s u pressed repeat m : Alive s -> OK (remote_key s u pressed repeat m).
Proof.
  intros HA. unfold remote_key.
  destruct (update_key_cases s u pressed repeat m) as (K & r & -> & HK & Hc).
  destruct r as [c|]; [|by apply alive_base in HA as (v & HB & _); eapply (fail_ok _ _ _ v)].
  specialize (Hc c eq_refl). pose proof HA as (v1 & _ & (_ & _ & _ & _ & _ & _ & _ & [Hl1 _] & _))%alive_base.
  assert (forall x, x ∈ K -> usage_is_valid x = true) as HKv.
  { intros x Hx. destruct (HK x Hx) as [[-> ?]|?]; auto. }
  destruct (forwarding s) eqn:Ef; cbn [negb]; [|left; by apply alive_keys].
  destruct (remote_fwd s HA Ef) as (v & HF & HM).
  pose proof HM as (_ & _ & Hr & _). pose proof (forwarding_fits s Ef) as (_ & _ & ? & ? & ? & ? & Es).
  unfold remote_held in Hr. rewrite Es in Hr. destruct Hr as [S1 S2].
  set (s1 := set_keys s K).
  assert (Fwd v s1) as HF1.
  { destruct HF as (HB & Hk & Hb & Ha & Ho & Hl). split_and!; try done. split; [exact HKv|exact (proj2 Hl)]. }
  assert (k_keys (s_ledger s1) = K /\ k_remote_keys (s_ledger s1) = k_remote_keys (s_ledger s)
    /\ k_remote_buttons (s_ledger s1) = k_remote_buttons (s_ledger s)
    /\ k_buttons (s_ledger s1) = k_buttons (s_ledger s)) as (E1 & E2 & E3 & E4) by done.
  assert (forall keys s', fwd_to base v0 s1 keys (k_remote_buttons (s_ledger s)) s' -> keys ⊆ K -> OK s') as Hto.
  { intros keys s' [(w & HF' & Hio & K1 & K2)|HO] Hsub; [left|by apply over_ok].
    destruct (same_io_keys _ _ Hio) as [P1 P2].
    eapply (fwd_alive v w s (s_ledger s1)); try done; [by rewrite K1, P1|by rewrite K2, P2]. }
  assert (k_remote_keys (s_ledger s) ⊆ K -> OK s1) as Hsame.
  { intros Hsub. apply (Hto (k_remote_keys (s_ledger s))); [|done].
    left. exists v. split; [done|]. split; [apply same_io_refl|done]. }
  clearbody s1. destruct pressed, (was_physical c); cbn [negb andb]; rewrite ?E2.
  - subst K. case_bool_decide as Hu; cbn [andb]; [|auto]. destruct repeat; [|auto].
    rewrite <- E2 in Hu. pose proof (key_repeat_fwd base v0 v s1 u HF1 Hu) as Ht. rewrite E3 in Ht.
    apply (Hto _ _ Ht). by rewrite E2.
  - destruct Hc as (-> & Hu & Hv).
    assert (u ∉ k_remote_keys (s_ledger s1)) as Hu' by (rewrite E2; set_solver).
    pose proof (key_down_fwd base v0 v s1 u HF1 Hv Hu') as Ht. rewrite E3 in Ht.
    apply (Hto _ _ Ht). rewrite E2. set_solver.
  - destruct Hc as (-> & ->). case_bool_decide as Hu; [|apply Hsame; set_solver].
    rewrite <- E2 in Hu. pose proof (key_up_fwd base v0 v s1 u HF1 Hu) as Ht. rewrite E3 in Ht.
    apply (Hto _ _ Ht). rewrite E2. set_solver.
  - destruct Hc as (-> & ->). auto.
Qed.

(** What the invariant reads of a state. *)
Definition shape (st : State) : SourceMode * bool * bool :=
  match st with
  | SLocal _ _ => (ModeLocal, false, false)
  | SAwaitActivation a => (ModeAwaitActivation, a_already_remote a, a_handover a)
  | SAwaitRemoteBarrier _ => (ModeAwaitRemoteBarrier, false, false)
  | SRemote _ _ _ _ => (ModeRemote, false, false)
  | SAwaitRelease _ => (ModeAwaitRelease, false, false)
  | SAwaitLocalBarrier _ _ _ _ => (ModeAwaitLocalBarrier, false, false)
  | SFailed => (ModeFailed, false, false)
  end.
Lemma alive_shape s st : Alive s -> shape st = shape (s_state s) -> Alive (set_state s st).
Proof.
  intros (F & L & v & R & HM) E.
  split; [exact F|]. split; [exact L|]. exists v. split; [exact R|]. revert HM.
  unfold SourceStream.Match, told, remote_held, owes, releasing, held_home, is_home_state, motion_waits,
    forwarding, native_routed, native_route, route_held, floor_held, claim_fits, accepted_activation, is_home_state. ux.
  destruct st, (s_state s); try done; cbn in E; try (injection E as E1 E2; rewrite E1, E2); try done. all: intros HM; exact HM.
Qed.

Lemma mark_button_alive s : Alive s -> Alive (mark_button s).
Proof.
  intros HA. unfold mark_button. destruct (s_state s) as [| a | | | r | |] eqn:Es; try done.
  - destruct (a_already_remote a) eqn:Ea; [|done]. apply alive_shape; [done|]. rewrite Es. cbn. by rewrite Ea.
  - destruct (rl_carried r), (rl_handover r); try done. apply alive_shape; [done|]. by rewrite Es.
Qed.
Lemma mark_button_forwarding s : forwarding s = true -> mark_button s = s.
Proof. unfold forwarding, mark_button. by destruct (s_state s). Qed.
Lemma mark_button_not_forwarding s : forwarding s = false -> forwarding (mark_button s) = false.
Proof.
  unfold forwarding, mark_button. destruct (s_state s) as [| a | | | r | |] eqn:Es; rewrite ?Es; try done.
  - destruct (a_already_remote a); ux; [done|by rewrite Es].
  - destruct (rl_carried r), (rl_handover r); ux; rewrite ?Es; done.
Qed.

Lemma remote_button_ok s b pressed at_ : Alive s -> OK (remote_button s b pressed at_).
Proof.
  intros HA. unfold remote_button, update_button. cbn [was_physical was_remote].
  set (i := button_index b). set (B := if pressed then _ else _). set (s1 := set_buttons s B).
  set (s2 := if Bool.eqb _ _ then s1 else mark_button s1).
  destruct (forwarding s) eqn:Ef.
  2:{ assert (Alive s2 /\ forwarding s2 = false) as [HA2 Hf2].
      { assert (Alive s1) as HA1 by by apply alive_buttons. assert (forwarding s1 = false) as Hf1 by exact Ef.
        subst s2. destruct (Bool.eqb _ _); [done|]. split; [by apply mark_button_alive|by apply mark_button_not_forwarding]. }
      clearbody s2. left. unfold forwarding in Hf2. by destruct (s_state s2). }
  assert (s2 = s1) as -> by (subst s2; destruct (Bool.eqb _ _); [done|by apply mark_button_forwarding]).
  pose proof (forwarding_fits s Ef) as (_ & _ & t & p & rt & rp & Es).
  change (s_state s1) with (s_state s). rewrite Es.
  destruct (remote_fwd s HA Ef) as (v & HF & HM).
  pose proof HM as (_ & _ & Hr & _). unfold remote_held in Hr. rewrite Es in Hr. destruct Hr as [S1 S2].
  assert (forall k keys buttons s', k_keys k = k_keys (s_ledger s) -> k_buttons k = B ->
    fwd_to base v0 (set_ledger s k) keys buttons s' -> keys ⊆ k_keys (s_ledger s) -> buttons ⊆ B -> OK s') as Hto.
  { intros k keys buttons s' P1 P2 [(w & HF' & Hio & K1 & K2)|HO] Hs1 Hs2; [left|by apply over_ok].
    destruct (same_io_keys _ _ Hio) as [Q1 Q2]. ux.
    eapply (fwd_alive v w s k); try done; [by rewrite K1, Q1, P1|by rewrite K2, Q2, P2]. }
  assert (forall k, k_keys k = k_keys (s_ledger s) -> k_remote_keys k = k_remote_keys (s_ledger s) ->
    k_remote_buttons k = k_remote_buttons (s_ledger s) -> Fwd v (set_ledger s k)) as HFk.
  { intros k P1 P2 P3. destruct HF as (HB & Hk & Hb & Ha & Ho & Hl). split_and!; try done; ux; try congruence.
    unfold ledger_ok in *. ux. by rewrite P1, P2, P3. }
  assert (k_remote_buttons (s_ledger s) ⊆ B -> OK s1) as Hsame.
  { intros Hsub. apply (Hto (s_ledger s1) (k_remote_keys (s_ledger s)) (k_remote_buttons (s_ledger s))); try done.
    left. exists v. split; [by apply HFk|]. split; [apply same_io_refl|done]. }
  destruct pressed; cbn [negb andb].
  - case_bool_decide as Hp; cbn [negb]; [by apply Hsame, subset_add|].
    destruct (press _ _ _ _) as [counter clicks].
    set (s3 := set_clicks s1 counter).
    apply (Hto (s_ledger s3) (k_remote_keys (s_ledger s)) ({[i]} ∪ k_remote_buttons (s_ledger s))); try done;
      [|by apply union_mono_l].
    apply (button_down_fwd base v0 v s3); [by apply (HFk (s_ledger s3))| |by eapply subset_not_elem].
    subst i. by destruct b.
  - case_bool_decide as Hp; [|by apply Hsame, subset_drop].
    apply (Hto (s_ledger s1) (k_remote_keys (s_ledger s)) (k_remote_buttons (s_ledger s) ∖ {[i]})); try done;
      [|by apply difference_mono_r].
    apply (button_up_fwd base v0 v s1); [by apply (HFk (s_ledger s1))|done].
Qed.

(** ** Opening an activation *)

(** A step that may panic: what it returns is fine. *)
Definition okm (m : option SourceController) : Prop := forall s, m = Some s -> OK s.
Lemma okm_some s : OK s -> okm (Some s).
Proof. intros H s' [= <-]. done. Qed.
Lemma okm_bind {A} (m : option A) f : (forall x, m = Some x -> okm (f x)) -> okm (x ← m; f x).
Proof. intros H s Hs. destruct m as [x|]; [|done]. by apply (H x). Qed.
Lemma okm_fail s f : Alive s -> okm (Some (fail s f)).
Proof. intros H. apply okm_some. right. by apply alive_fail with (d := d). Qed.
Lemma okm_alive s : Alive s -> okm (Some s).
Proof. intros H. apply okm_some. by left. Qed.

Lemma flush_motion_idle s : waiting (o_pacer (s_out s)) = None -> flush_motion s = (s, true).
Proof. intros H. unfold flush_motion, SessionPacer.flush. by rewrite H. Qed.
Lemma push_message_idle s m :
  waiting (o_pacer (s_out s)) = None -> plain m = true -> push_input s m = send_input s m.
Proof.
  intros H Hm. assert (push_input s m = push_message s m) as -> by (by destruct m).
  unfold push_message. by rewrite flush_motion_idle.
Qed.

(** What an activation needs of the controller that opens it. *)
Definition may_open (v : PeerView) (s : SourceController) (already : bool) : Prop :=
  Base v s /\ waits v s /\ v_owed v = 0 /\ v_keys v = k_remote_keys (s_ledger s)
  /\ v_buttons v = k_remote_buttons (s_ledger s) /\ l_held_since (s_link s) = None
  /\ l_acks_pending (s_link s) = 0 /\ d = 0 /\ last_now (l_health (s_link s)) <= s_last_now s
  /\ ledger_ok s
  /\ (exists c, f_claim (s_floor s) = Some c /\ (f_floor (s_floor s) = c \/ state c = Requesting)
        /\ peer c = c_slot (s_config s) /\ state c = (if already then Sending else Requesting))
  /\ (already = false -> none_remote s)
  /\ (already = true -> cr_remote (s_route s) && cr_owned (s_route s) = true)
  /\ (v_native v = true -> already = true \/ is_Some (s_handover s)).

Lemma open_activation_ok v s a e s' :
  a_handover a = false -> may_open v s (a_already_remote a) -> waiting (o_pacer (s_out s)) = None ->
  o_epoch (s_out s) + 1 <= u64_max ->
  open_activation (set_input_sequence (set_input_epoch s (o_epoch (s_out s) + 1)) 0) a e = Some s' ->
  (Alive s' /\ s_ledger s' = s_ledger s /\ (exists a', s_state s' = SAwaitActivation a')) \/ Dead s'.
Proof.
  intros Eho (HB & Hw & Hv & Hk & Hb & Hh & Hp & Hd & Hn & Hl & (c & Hc & Hc1 & Hc2 & Hc3) & Hr & Hrt & Hna) Hwt Hmax H.
  unfold open_activation in H.
  set (s1 := set_state _ _) in H. destruct (peer_point s1 _ _) as [p|]; [|done]. cbn [mbind option_bind] in H. injection H as <-.
  set (m := MsgActivateDisplayAt _ _ _).
  assert (s_out s1 = mkOutbound (o_epoch (s_out s) + 1) 0 (o_control_sequence (s_out s)) (o_pacer (s_out s))
    (o_effects (s_out s)) /\ s_failure s1 = s_failure s /\ s_ledger s1 = s_ledger s /\ s_link s1 = s_link s
    /\ s_floor s1 = s_floor s /\ s_config s1 = s_config s /\ s_handover s1 = s_handover s
    /\ s_route s1 = s_route s /\ s_last_now s1 = s_last_now s
    /\ s_state s1 = SAwaitActivation a) as (E1 & E2 & E3 & E4 & E5 & E6 & E7 & E8 & E9 & E10)
    by (subst s1; destruct (a_already_remote a); done).
  clearbody s1. assert (push_message s1 m = send_input s1 m) as ->.
  { unfold push_message. rewrite flush_motion_idle; [done|]. by rewrite E1. }
  destruct HB as (F & R & L & (N1 & N2 & N3 & N4) & Hkn).
  assert (native_known v s1) as Hkn1.
  { intros Hv1. unfold native_may_be_remote. rewrite E7, E8, E10.
    destruct (Hna Hv1) as [Ha|Ha]; [left|by right]. by rewrite (Hrt Ha). }
  destruct (send_input_gen base v0 v (view_opened v) s1 m) as [[-> HB']|[HD _]]; try done; [congruence|by rewrite E1|by rewrite E1| | | |by right].
  { subst m. unfold frame_step, new_frame. cbn. rewrite E1. cbn [o_epoch o_input_sequence epoch sequence message]. rewrite N2, Hv, !Z.eqb_refl.
    by rewrite (proj2 (Z.leb_le _ _) Hmax). }
  { unfold numbered, sent. sg. rewrite E1, E6. cbn [o_epoch o_input_sequence o_control_sequence view_opened v_epoch v_seq v_control]. rewrite N2, N4. done. }
  left. split; [|split; [exact E3|by exists a]].
  eapply base_alive; [exact HB'|]. destruct HB' as (_ & _ & _ & Hnum & _).
  split; [exact Hnum|]. split. { unfold told, sent. sg. rewrite E10, E3. done. }
  split. { unfold remote_held, none_remote, sent. sg. rewrite E10, E3, Eho. intros [Ha|?]; [|done]. by apply Hr. }
  split. { unfold accepted_activation, sent. sg. by rewrite E10. }
  split. { unfold owes, releasing, sent. sg. rewrite E10, E4, Hp, Hh. cbn. lia. }
  split. { unfold held_home, sent. sg. rewrite E4, E9, Hh. split; [done|by intros []]. }
  split. { unfold motion_waits, sent. sg. rewrite E1. cbn. rewrite Hwt. by intros []. }
  split. { unfold ledger_ok, sent. sg. by rewrite E3. }
  split.
  { split. { intros Hv1. unfold native_route, sent. sg. rewrite E10, E7. by apply Hna. }
    unfold route_held, sent. sg. rewrite E10, E8. by destruct (a_already_remote a); auto. }
  unfold floor_held, claim_fits, sent. sg. rewrite E5, E6, E10, Hc. done.
Qed.

Lemma begin_activation_ok v s target entry e rt rp already s' :
  may_open v s already -> begin_remote_activation s target entry e rt rp already = Some s' ->
  (Alive s' /\ s_ledger s' = s_ledger s /\ (exists a', s_state s' = SAwaitActivation a')) \/ Dead s'.
Proof.
  intros HO. pose proof HO as (HB & Hw & Hv & Hrest).
  unfold begin_remote_activation.
  destruct (begin_ownership_cases s target) as [(own & ep & ->)|(own & ->)].
  2:{ intros [= <-]. right. apply (fail_dead _ _ v (set_ownership s own)), HB. }
  destruct (checked_add_u64 _ 1) as [next|] eqn:En.
  2:{ intros [= <-]. right. apply (fail_dead _ _ v (set_ownership s own)), HB. }
  pose proof (checked_add_u64_max _ _ En) as Hmax. apply checked_add_u64_Some in En as ->.
  destruct (flush_motion_ok base v0 v (set_ownership s own) HB Hw) as [(o & v1 & -> & HB1 & Hmv & Hn & He)|(s1 & -> & HD & _)];
    cbn [negb]; [|intros [= <-]; by right].
  change (o_epoch (s_out (set_ownership s own)) + 1 <= u64_max) in Hmax. rewrite <- He in Hmax |- *.
  apply (open_activation_ok v1 (set_out (set_ownership s own) o)); [done| |done|exact Hmax].
  destruct (moved_fields _ _ Hmv) as (M1 & M2 & M3 & M4 & M5 & M6 & M7).
  split; [exact HB1|]. split. { unfold waits. ux. rewrite Hn. by intros []. }
  cbn [a_already_remote]. rewrite M3, M4, M6, M7. split; [exact Hv|exact Hrest].
Qed.

(** ** At home *)

Lemma is_local_state s : is_local s = true -> exists t c, s_state s = SLocal t c.
Proof. unfold is_local. destruct (s_state s); try done. eauto. Qed.
Lemma alive_local s t c : Alive s -> is_local s = true -> Alive (set_local s t c).
Proof. intros HA (t' & c' & Es)%is_local_state. apply alive_shape; [done|]. by rewrite Es. Qed.

Lemma acknowledge_cases s target ep : exists o b, acknowledge s target ep = (set_ownership s o, b).
Proof. unfold acknowledge. destruct (acknowledge_transition _ _). eauto. Qed.

Lemma adopt_ok s target cursor : Alive s -> is_local s = true -> OK (adopt_local_target s target cursor).
Proof.
  intros HA Hl. unfold adopt_local_target.
  destruct (begin_ownership_cases s target) as [(own & ep & ->)|(own & ->)].
  2:{ right. apply (alive_fail _ d _ (set_ownership s own)), HA. }
  destruct (acknowledge_cases (set_ownership s own) target ep) as (own' & [] & ->); cbn [negb].
  - left. apply (alive_local (clear_pushes (set_ownership (set_ownership s own) own'))); [exact HA|exact Hl].
  - right. apply (alive_fail _ d _ (set_ownership (set_ownership s own) own')), HA.
Qed.

Lemma local_crossing_fields s :
  exists fs, (local_crossing_allowed s).1 = set_floor s fs /\ f_claim fs = f_claim (s_floor s)
    /\ f_floor fs = f_floor (s_floor s).
Proof. unfold local_crossing_allowed. repeat case_match; (eexists; split; [reflexivity|done]). Qed.
Lemma alive_floor s fs :
  Alive s -> f_claim fs = f_claim (s_floor s) -> f_floor fs = f_floor (s_floor s) -> Alive (set_floor s fs).
Proof.
  intros (F & L & v & R & Hn & Ht & Hr & Ha & Ho & Hh & Hmw & Hl & Hk & Hf) E1 E2.
  split; [exact F|]. split; [exact L|]. exists v. split; [exact R|]. split_and!; try done.
  unfold floor_held in *. ux. rewrite E1, E2. exact Hf.
Qed.

Lemma floor_claim_cases f peer :
  (exists t, floor_claim f f Requesting peer = (t, Ok t) /\ state t = Requesting /\ Floor.peer t = peer)
  \/ floor_claim f f Requesting peer = (f, Err f).
Proof.
  unfold floor_claim. destruct (floor_call_cases f (OpClaim f Requesting peer)) as [(t & -> & He)| ->]; [left|by right].
  exists t. split; [done|]. cbn in He. repeat case_match; simplify_eq; done.
Qed.

(** What a running controller at home, not held, may open. *)
Lemma local_may_open v s c :
  Base v s -> Match v s -> is_local s = true -> l_held_since (s_link s) = None -> f_claim (s_floor s) = Some c ->
  f_floor (s_floor s) = c -> peer c = c_slot (s_config s) -> state c = Requesting -> may_open v s false.
Proof.
  intros HB HM (t & cu & Es)%is_local_state Hh Hc Hf Hp Hs. pose proof (match_waits _ _ _ _ HM) as Hw.
  destruct HM as (_ & Ht & Hr & _ & Ho & [Hn _] & _ & Hl & [Hk _] & _).
  destruct (owes_nothing d v s Ho) as (O1 & O2 & O3); [unfold releasing; by rewrite Es|done|].
  unfold told, remote_held, native_route in *. rewrite Es in *.
  split; [done|]. split_and!; try done; try tauto. exists c; auto.
Qed.

Lemma may_claim v s f c :
  Base v s -> Match v s -> is_local s = true -> f_floor f = c -> f_claim f = Some c -> state c = Requesting ->
  peer c = c_slot (s_config s) -> Base v (set_floor s f) /\ Match v (set_floor s f).
Proof.
  intros HB (Hn & Ht & Hr & Ha & Ho & Hh & Hmw & Hl & Hk & Hf) (t & cu & Es)%is_local_state E1 E2 E3 E4.
  split; [exact HB|]. split_and!; try done.
  unfold floor_held, claim_fits. ux. rewrite E2, Es, E3, E4. auto.
Qed.

Lemma declined_retry_fields s from target :
  exists de, (declined_retry s from target).1 = set_declined s de.
Proof.
  unfold declined_retry. destruct (s_declined s) as [[[[??]?]?]|] eqn:E; [|by exists None; rewrite <- E].
  case_match; eexists; [reflexivity|]. by instantiate (1 := s_declined s).
Qed.

Lemma cross_to_peer_ok s from target t rp :
  Alive s -> is_local s = true -> okm (cross_to_peer s from target t rp).
Proof.
  intros HA Hl. unfold cross_to_peer.
  destruct (_ || _ || _) eqn:Eg; [by apply okm_alive, alive_local|].
  apply orb_false_elim in Eg as [Eg _]. apply orb_false_elim in Eg as [Eg _]. apply is_held_false in Eg.
  destruct (local_crossing_fields s) as (fs & Hfs & F1 & F2).
  destruct (local_crossing_allowed s) as [s1 allowed]. cbn [fst] in Hfs. subst s1.
  assert (Alive (set_floor s fs)) as HA1 by by apply alive_floor.
  set (s1 := set_floor s fs) in *. assert (is_local s1 = true) as Hl1 by exact Hl.
  assert (l_held_since (s_link s1) = None) as Eg1 by exact Eg. clearbody s1.
  destruct allowed; cbn [negb]; [|by apply okm_alive].
  destruct (c_pointer_confined _). { apply okm_alive. by apply (alive_local (clear_pushes s1)). }
  destruct (declined_retry_fields s1 from target) as (de & Hde).
  destruct (declined_retry s1 from target) as [s2 retry]. cbn [fst] in Hde. subst s2.
  destruct retry; cbn [negb]; [|apply okm_alive; exact HA1].
  destruct (floor_claim_cases (f_floor (s_floor s1)) (c_slot (s_config s1))) as [(c & Hc & C1 & C2)|Hc].
  - change (s_floor (set_declined s1 de)) with (s_floor s1).
    change (s_config (set_declined s1 de)) with (s_config s1). rewrite Hc.
    set (s2 := set_declined (set_floor_claim _ _) _).
    apply alive_base in HA1 as (v & HB & HM).
    destruct (may_claim v s1 (s_floor s2) c) as [HB2 HM2]; try done.
    intros s' Hs'. eapply (begin_activation_ok v) in Hs'.
    { destruct Hs' as [(? & _)|?]; [by left|by right]. }
    eapply (local_may_open v s2 c); done.
  - change (s_floor (set_declined s1 de)) with (s_floor s1).
    change (s_config (set_declined s1 de)) with (s_config s1). rewrite Hc. apply okm_alive. exact HA1.
Qed.

Lemma begin_edge_ok s from t :
  Alive s -> is_local s = true -> okm (begin_edge_transition s from t).
Proof.
  intros HA Hl. unfold begin_edge_transition. destruct (machine_for_display _ _) as [m|e]; [|by apply okm_fail].
  case_bool_decide; [apply okm_some; by apply adopt_ok|].
  apply okm_bind. intros [p|] _; [by apply cross_to_peer_ok|by apply okm_fail].
Qed.

(** What the motion handlers write besides the state: guards, pushes and
    declines, which the invariant does not read. *)
Lemma guarded_fields s id p : exists e, (guarded_entry_edge s id p).1 = set_edges s e.
Proof. unfold guarded_entry_edge. repeat case_match; eexists (mkEdges _ _ _); reflexivity. Qed.
Lemma note_pressing_fields s p : exists de, note_pressing s p = set_declined s de.
Proof.
  unfold note_pressing. repeat case_match; (eexists; (reflexivity || by instantiate (1 := s_declined s))).
Qed.
Lemma alive_edges s e de : Alive s -> Alive (set_declined (set_edges s e) de).
Proof. intros H. exact H. Qed.

Section Motion.
Context `{Libm}.

Lemma push_absolute_ok s target cursor current now e t :
  Alive s -> is_local s = true -> okm (push_absolute s target cursor current now e t).
Proof.
  intros HA Hl. unfold push_absolute. destruct (display_at s _); [|by apply okm_fail].
  destruct (push_to _ _ _ _ _ _ _) as [ps [beyond|]]; [|by apply okm_alive].
  apply okm_bind. intros t' _. by apply begin_edge_ok.
Qed.
Lemma press_seam_ok s target cursor anchor current now guarded :
  Alive s -> is_local s = true -> okm (press_seam s target cursor anchor current now guarded).
Proof.
  intros HA Hl. unfold press_seam. set (s1 := set_local s target (Some anchor)).
  assert (Alive s1) as HA1 by by apply alive_local. assert (is_local s1 = true) as Hl1 by done. clearbody s1.
  apply okm_bind. intros [[[e t]|]|] _; [|by apply okm_alive|by apply okm_fail].
  destruct (is_home_display _ _); [by apply okm_alive|]. by apply push_absolute_ok.
Qed.
Lemma move_local_ok s target cursor previous anchor current now guarded :
  Alive s -> is_local s = true -> okm (move_local s target cursor previous anchor current now guarded).
Proof.
  intros HA Hl. unfold move_local. apply okm_bind. intros [[t|]|] _.
  - destruct (is_home_display _ _); [by apply begin_edge_ok|by apply press_seam_ok].
  - by apply press_seam_ok.
  - by apply okm_fail.
Qed.
Lemma apply_local_motion_ok s p now : Alive s -> okm (apply_local_motion s p now).
Proof.
  intros HA. unfold apply_local_motion. destruct (s_state s) as [target cursor| | | | | |] eqn:Es; try by apply okm_alive.
  destruct (guarded_fields s (Ownership.display target) p) as (e & He).
  destruct (guarded_entry_edge s _ p) as [s1 guarded]. cbn [fst] in He. subst s1.
  destruct (note_pressing_fields (set_edges s e) p) as (de & ->).
  set (s1 := set_declined _ _). assert (Alive s1) as HA1 by exact HA.
  assert (is_local s1 = true) as Hl1 by (unfold is_local; subst s1; ux; by rewrite Es). clearbody s1.
  destruct (local_target_at s1 p) as [[found|]|]; [| |by apply okm_fail].
  - case_bool_decide; [by apply move_local_ok|]. apply okm_some. by apply adopt_ok.
  - apply okm_bind. intros q _. by apply move_local_ok.
Qed.

Lemma apply_local_relative_ok s m now : Alive s -> okm (apply_local_relative s m now).
Proof.
  intros HA. unfold apply_local_relative. set (s1 := add_recent s _ now).
  assert (Alive s1) as HA1 by exact HA. clearbody s1.
  destruct (s_state s1) as [target [anchor|]| | | | | |] eqn:Es; try by apply okm_alive.
  set (s2 := set_edge_pushes s1 _). assert (Alive s2) as HA2 by exact HA1.
  assert (is_local s2 = true) as Hl2 by (unfold is_local; subst s2; ux; by rewrite Es). clearbody s2.
  destruct (guarded_fields s2 (Ownership.display target) anchor) as (e & He).
  destruct (guarded_entry_edge s2 _ anchor) as [s3 guarded]. cbn [fst] in He. subst s3.
  set (s3 := set_edges s2 e). assert (Alive s3) as HA3 by exact HA2.
  assert (is_local s3 = true) as Hl3 by exact Hl2. clearbody s3.
  apply okm_bind. intros [[[e' t]|]|] _; [|by apply okm_alive|by apply okm_fail].
  destruct (is_home_display _ _); [by apply begin_edge_ok|].
  destruct (push_by _ _ _ _ _ _) as [ps [beyond|]]; [|by apply okm_alive].
  apply okm_bind. intros t' _. by apply begin_edge_ok.
Qed.

Lemma carry_pending_alive s m : Alive s -> Alive (carry_pending s m).1.
Proof.
  intros HA. unfold carry_pending. destruct (s_state s) as [| | | |r| |] eqn:Es; try exact HA.
  - apply alive_shape; [done|]. by rewrite Es.
  - apply alive_shape; [done|]. by rewrite Es.
  - destruct (rl_carried r); [|exact HA]. apply alive_shape; [done|]. by rewrite Es.
Qed.

(** Keys and buttons routed locally only move the ledger. *)
Lemma apply_local_ok s i now :
  Alive s -> forwarding s = false -> okm (apply_local s i now).
Proof.
  intros HA Hf. destruct i as [u pressed repeat m|b pressed at_|p|delta gain| | | |]; cbn [apply_local];
    try by apply okm_alive.
  - destruct (update_key_cases s u pressed repeat m) as (K & r & -> & HK & _).
    pose proof HA as (v & HB & (_ & _ & _ & _ & _ & _ & _ & [Hl1 _] & _))%alive_base.
    assert (Alive (set_keys s K)) as HA1.
    { apply alive_keys; [done..|]. intros x Hx. destruct (HK x Hx) as [[-> ?]|?]; auto. }
    destruct r; [by apply okm_alive|by apply okm_fail].
  - apply okm_alive. by apply alive_buttons.
  - by apply apply_local_motion_ok.
  - pose proof (carry_pending_alive s (relative s delta gain) HA) as HA1.
    destruct (carry_pending s _) as [s1 []]; [by apply okm_alive|by apply apply_local_relative_ok].
Qed.

(** ** On the peer *)

Lemma remote_may_open v s : Base v s -> Match v s -> forwarding s = true -> may_open v s true.
Proof.
  intros HB HM Hf. pose proof (match_waits _ _ _ _ HM) as Hw.
  apply forwarding_fits in Hf as (Hhome & Hrel & t & p & rt & rp & Es).
  destruct HM as (_ & Ht & Hr & _ & Ho & Hh & _ & Hl & [Hk Hrt] & Hf).
  pose proof (not_home_not_held s Hh Hhome) as Hnh.
  destruct (owes_nothing d v s Ho Hrel Hnh) as (O1 & O2 & O3). destruct Hh as [Hn _].
  unfold told, native_route, route_held, floor_held, claim_fits in *. rewrite Es in *.
  destruct (f_claim (s_floor s)) as [c|] eqn:Ec; [|congruence]. destruct Hf as (F1 & F2 & F3).
  split; [done|]. split_and!; try done; try tauto. by exists c.
Qed.

Lemma remote_edge_ok s from rt rp t :
  Alive s -> forwarding s = true -> okm (apply_remote_edge s from rt rp t).
Proof.
  intros HA Hf. pose proof (forwarding_fits s Hf) as (_ & _ & ? & ? & ? & ? & Es).
  assert (forall l p g h, OK (begin_return_to s l p g h)) as Hret
    by (intros; apply begin_return_ok; [done|by rewrite Es]).
  unfold apply_remote_edge. destruct (machine_for_display _ _) as [m|e]; [|by apply okm_fail].
  repeat case_bool_decide; cbn [andb]; try (by apply okm_some); rewrite ?andb_false_r; try by apply okm_fail.
  2:{ case_match; [by apply okm_some|by apply okm_fail]. }
  apply alive_base in HA as (v & HB & HM). intros s' Hs'.
  eapply (begin_activation_ok v) in Hs'; [|by apply remote_may_open].
  destruct Hs' as [(? & _)|?]; [by left|by right].
Qed.

Lemma set_carried_ok s p : OK s -> OK (set_carried s p).
Proof.
  intros [HA|HD]; unfold set_carried; destruct (s_state s) as [|a| | | | |] eqn:Es; try (by left); try (by right).
  left. apply alive_shape; [done|]. by rewrite Es.
Qed.

Lemma move_remote_ok s target position next rt rp :
  Alive s -> forwarding s = true -> okm (move_remote s target position next rt rp).
Proof.
  intros HA Hf. unfold move_remote. set (s1 := set_edge_pushes s _).
  set (s2 := set_state s1 _).
  assert (Alive s2) as HA2.
  { apply (alive_shape s1); [exact HA|]. pose proof (forwarding_fits s Hf) as (_ & _ & ? & ? & ? & ? & Es).
    change (s_state s1) with (s_state s). by rewrite Es. }
  assert (forwarding s2 = true) as Hf2 by done. clearbody s2.
  destruct (point_eqb next position); [by apply okm_alive|].
  apply okm_bind. intros q _. apply okm_some. by apply push_position_ok.
Qed.

Lemma route_remote_ok s m now target position desired next rt rp b onward seam home :
  Alive s -> forwarding s = true ->
  okm (route_remote s m now target position desired next rt rp b onward seam home).
Proof.
  intros HA Hf. unfold route_remote. cbv zeta.
  match goal with |- context [if ?b then None else onward] => destruct (if b then None else onward) as [[e t]|] end.
  - apply okm_bind. intros s1 Hs1. apply okm_some, set_carried_ok. by eapply remote_edge_ok.
  - assert (exists ps cr, push_remote s m now seam target = (set_edge_pushes s ps, cr)) as (ps & cr & ->).
    { unfold push_remote. destruct seam as [[e t]|]; [destruct (push_by _ _ _ _ _ _); eauto|].
      exists (e_pushes (s_edges s)), None. reflexivity. }
    destruct cr as [[t beyond]|]; [|by apply move_remote_ok].
    apply okm_bind. intros t' _. by apply remote_edge_ok.
Qed.

Lemma remote_motion_ok s m now : Alive s -> okm (apply_remote_motion s m now).
Proof.
  intros HA. unfold apply_remote_motion.
  destruct (s_state s) as [| | |target position rt rp| | |] eqn:Es; try by apply okm_alive.
  set (s1 := add_recent s _ now). assert (Alive s1) as HA1 by exact HA.
  assert (forwarding s1 = true) as Hf1 by (unfold forwarding; subst s1; ux; by rewrite Es). clearbody s1.
  destruct (display_at s1 _) as [disp|]; [|by apply okm_fail].
  destruct (negb _); [by apply okm_fail|].
  destruct (guarded_fields s1 (Ownership.display target) position) as (e & He).
  destruct (guarded_entry_edge s1 _ position) as [s2 guarded]. cbn [fst] in He. subst s2.
  apply okm_bind. intros next _. cbv zeta. apply okm_bind. intros onward _.
  apply okm_bind. intros seam _. apply okm_bind. intros home _.
  destruct onward; [|by apply okm_fail]. destruct seam; [|by apply okm_fail]. destruct home; [|by apply okm_fail].
  by apply route_remote_ok.
Qed.

Lemma apply_remote_ok s i now : Alive s -> okm (apply_remote s i now).
Proof.
  intros HA. destruct i as [u pressed repeat m|b pressed at_|p|delta gain|h w|g|g|]; cbn [apply_remote];
    try by apply okm_alive.
  - apply okm_some. by apply remote_key_ok.
  - apply okm_some. by apply remote_button_ok.
  - destruct (forwarding s); [by apply remote_motion_ok|]. apply okm_alive. by apply carry_pending_alive.
  - apply okm_some. destruct (forwarding s) eqn:Ef; cbn [andb]; [|by left].
    destruct (_ || _); [|by left]. by apply push_stream_ok.
  - apply okm_some. destruct (forwarding s) eqn:Ef; [by apply push_stream_ok|by left].
  - apply okm_some. destruct (forwarding s) eqn:Ef; [by apply push_stream_ok|by left].
Qed.

(** ** Landing on the peer *)

(** A controller whose peer holds the floor's other end and whose input is
    remote: it may be in [SRemote] once the peer holds nothing more than the hand. *)
Definition may_land (s : SourceController) : Prop :=
  l_held_since (s_link s) = None /\ l_acks_pending (s_link s) = 0 /\ d = 0
  /\ last_now (l_health (s_link s)) <= s_last_now s
  /\ (exists c, f_claim (s_floor s) = Some c /\ f_floor (s_floor s) = c /\ peer c = c_slot (s_config s)
        /\ state c = Sending)
  /\ cr_remote (s_route s) && cr_owned (s_route s) = true.

Lemma land_alive w s s' t p rt rp :
  may_land s -> Fwd w s' -> same_io s s' ->
  k_remote_keys (s_ledger s') ⊆ k_keys (s_ledger s') ->
  k_remote_buttons (s_ledger s') ⊆ k_buttons (s_ledger s') -> Alive (set_state s' (SRemote t p rt rp)).
Proof.
  intros (Hh & Hp & Hd & Hn & (c & Hc & Hf & Hpe & Hs) & Hr) (HB & Hk & Hb & Ha & Ho & Hl)
    (o & k' & -> & K1 & K2 & E) S1 S2.
  eapply base_alive; [split; [exact (proj1 HB)|]; destruct HB as (_ & R & L & Hnum & _);
    split; [exact R|]; split; [exact L|]; split; [exact Hnum|]|].
  { intros _. left. unfold native_may_be_remote. ux. apply orb_true_r. }
  destruct HB as (_ & R & L & Hnum & _).
  split; [exact Hnum|]. split; [done|]. split; [done|]. split; [exact Ha|].
  split. { unfold owes, releasing. ux. rewrite Hp, Hh, Ho, Hd. cbn. lia. }
  split. { unfold held_home. ux. rewrite Hh. split; [done|by intros []]. }
  split; [done|]. split; [exact Hl|]. split; [split; [by left|exact Hr]|].
  unfold floor_held, claim_fits. ux. rewrite Hc. auto.
Qed.

(** What a transfer or a synchronisation leaves lands. *)
Lemma held_land s s' t p rt rp :
  may_land s -> held_subset base v0 s s' ->
  (Alive (set_state s' (SRemote t p rt rp)) /\ s_failure s' = None) \/ Over s'.
Proof.
  intros Hm [(w & HF & Hio & S1 & S2)|HO]; [left|by right].
  destruct (same_io_keys _ _ Hio) as [<- <-] in S1, S2 |- *.
  split; [by eapply land_alive|]. by destruct HF as ((? & _) & _).
Qed.

Lemma route_changed_ok s remote revision : Alive s -> okm (on_route_changed s remote revision).
Proof.
  intros HA. unfold on_route_changed.
  destruct (s_state s) as [| |b| | |local position request ticket|] eqn:Es; try by apply okm_fail.
  - destruct (remote && _) eqn:Er; [|by apply okm_fail]. apply andb_true_iff in Er as [-> _].
    set (s1 := set_route s _).
    pose proof HA as (v & HB & HM)%alive_base.
    destruct HM as (Hn & Ht & Hr & Ha & Ho & Hh & _ & Hl & _ & Hf).
    assert (l_held_since (s_link s) = None) as Hnh.
    { apply not_home_not_held; [done|]. unfold is_home_state. by rewrite Es. }
    destruct (owes_nothing d v s Ho) as (O1 & O2 & O3); [unfold releasing; by rewrite Es|done|].
    unfold told, remote_held, accepted_activation, floor_held, claim_fits in *. rewrite Es in *.
    assert (Fwd v s1) as HF1.
    { split; [|tauto]. destruct HB as (F & R & L & Hnum & Hkn). split_and!; try done.
      intros _. left. unfold native_may_be_remote. subst s1. ux. by rewrite Es, orb_true_r. }
    assert (may_land s1) as Hm.
    { destruct (f_claim (s_floor s)) as [c|] eqn:Ec; [|unfold is_home_state in Hf; by rewrite Es in Hf].
      destruct Hf as (F1 & F2 & F3). destruct Hh as [Hlast _].
      split_and!; try done. exists c. split_and!; try done. destruct F1; [done|congruence]. }
    pose proof (transfer_ok base v0 v s1 HF1 Hr) as HT. clearbody s1.
    set (s2 := transfer_to_remote s1) in *. clearbody s2.
    apply okm_bind. intros landed _.
    destruct (held_land s1 s2 (b_target b) landed (b_return_target b) (b_return_position b) Hm HT) as [[HA2 Hf2]|HO].
    2:{ rewrite (dead_failed _ _ _ (proj1 HO)). apply okm_some. by apply over_ok. }
    assert (failed s2 = false) as -> by (unfold failed; by rewrite Hf2).
    destruct (point_eqb _ _); [by apply okm_alive|].
    apply okm_bind. intros q _. apply okm_some. by apply push_position_ok.
  - destruct (negb remote && _) eqn:Er; [|by apply okm_fail]. apply andb_true_iff in Er as [Er _].
    apply negb_true_iff in Er as ->. apply okm_alive.
    destruct HA as (F & L & v & R & Hn & Ht & Hr & Ha & Ho & Hh & Hmw & Hl & [Hk Hrt] & Hf).
    split; [exact F|]. split; [exact L|]. exists v. split; [exact R|].
    unfold told, remote_held, owes, releasing, held_home, is_home_state, motion_waits, forwarding,
      native_routed, native_route, route_held, floor_held, claim_fits, accepted_activation in *.
    unfold is_home_state in *. rewrite Es in *. ux. by split_and!.
Qed.
End Motion.
End Remote.
