(* ===== verification/SourceCalls.v ===== *)
(** * The calls of the source controller keep its invariant (session_source.rs)

    The bodies of the public methods: captured records, the cursor's position,
    native route replies, frames of the peer and handovers.  Frames that answer an
    activation or a release first change what the peer knows ([heard]). *)

From stdpp Require Import gmap.
From S2P Require Import Prelude F64 Types Geometry Topology Floor Messages Sequence Ownership Clicks.
From S2P Require Import SessionPacer SessionHealth SessionQuality SourceEdges SourceState HeldInput.
From S2P Require Import Source SourceKept SourceStream SourceSafety SourceRemote.

Section Calls.
Context `{Libm} (base d : Z) (v0 : PeerView).
#[local] Notation Base := (Base base v0).
#[local] Notation Match := (Match base d).
#[local] Notation Alive := (Alive base d v0).
#[local] Notation Dead := (Dead base v0).
#[local] Notation OK := (Ok_ base d v0).
#[local] Notation Over := (Over base v0).
#[local] Notation okm := (okm base d v0).

(** ** Captured records and the cursor *)

Lemma alive_route s :
  Alive s -> cr_remote (s_route s) = false -> forwarding s = false.
Proof.
  intros (_ & _ & v & _ & _ & _ & _ & _ & _ & _ & _ & _ & [_ Hrt] & _) Hc.
  unfold route_held, forwarding in *. destruct (s_state s); try done. by rewrite Hc in Hrt.
Qed.

Lemma motion_permitted_alive s r : Alive s -> Alive (motion_permitted s r).1.
Proof.
  intros HA. unfold motion_permitted.
  destruct (local_crossing_fields s) as (fs & Hfs & F1 & F2).
  assert (Alive (local_crossing_allowed s).1) as HA1 by (rewrite Hfs; by apply alive_floor).
  destruct (local_crossing_allowed s) as [s1 allowed].
  destruct (event r); try done; destruct (carries_pending_motion s); try done;
    destruct (cr_remote (s_route s)); done.
Qed.
Lemma motion_permitted_route s r : s_route (motion_permitted s r).1 = s_route s.
Proof.
  unfold motion_permitted. destruct (local_crossing_fields s) as (fs & Hfs & _).
  assert (s_route (local_crossing_allowed s).1 = s_route s) as E by (by rewrite Hfs).
  destruct (local_crossing_allowed s) as [s1 allowed].
  destruct (event r); try done; destruct (carries_pending_motion s); try done;
    destruct (cr_remote (s_route s)); done.
Qed.

Lemma captured_ok s r now : Alive s -> okm (captured s r now).
Proof.
  intros HA. unfold captured. rewrite (alive_failed _ _ _ _ HA).
  pose proof (observe_good base d v0 s now HA) as HG. destruct (observe s now) as [s1 ok]. unfold good in HG.
  cbn [fst snd] in HG. destruct ok; cbn [negb orb].
  2:{ rewrite (dead_failed _ _ _ HG). apply okm_some. by right. }
  rewrite (alive_failed _ _ _ _ HG).
  destruct (negb (input_is_valid _)); [by apply okm_fail|].
  assert (okm
    (if negb (Bool.eqb (tag_remote r) (cr_remote (s_route s1)))
        || negb (routing_revision r =? cr_revision (s_route s1))
     then Some (fail s1 SRouteMismatch)
     else
       let '(s, permitted) := motion_permitted s1 r in
       if negb permitted then Some s
       else if cr_remote (s_route s) then apply_remote s (event r) now else apply_local s (event r) now)) as Hin.
  { destruct (_ || _); [by apply okm_fail|].
    pose proof (motion_permitted_alive s1 r HG) as HA2. destruct (motion_permitted s1 r) as [s2 permitted].
    cbn [fst] in HA2. destruct permitted; cbn [negb]; [|by apply okm_alive].
    destruct (cr_remote (s_route s2)) eqn:Er; [by apply apply_remote_ok|].
    apply apply_local_ok; [done|]. by apply alive_route. }
  destruct (event r); try exact Hin. clear Hin.
  destruct (_ || _); [by apply okm_fail|]. by apply route_changed_ok.
Qed.

Lemma book_ok s r : Alive s -> is_local s = true -> okm (book s r).
Proof.
  intros HA Hl. unfold book. destruct (event r); try (by apply okm_alive);
    (apply apply_local_ok; [done|]); unfold is_local, forwarding in *; by destruct (s_state s).
Qed.

Lemma poll_pointer_ok s p now : Alive s -> okm (poll_pointer s p now).
Proof.
  intros HA. unfold poll_pointer. destruct (local_crossing_fields s) as (fs & Hfs & F1 & F2).
  destruct (local_crossing_allowed s) as [s1 allowed]. cbn [fst] in Hfs.
  assert (Alive s1) as HA1 by (subst; by apply alive_floor). clear Hfs HA.
  destruct (_ && _).
  - apply okm_bind. intros s2 Hs2. apply okm_some. cut (OK s2); [intros [HA2|HD]; [by left|by right]|].
    revert s2 Hs2. change (okm (match local_target_at s1 p, s_state s1 with
      | Ok (Some target), SLocal old _ =>
          Some (if bool_decide (old = target) then set_local s1 target (Some p) else adopt_local_target s1 target p)
      | _, SLocal target _ =>
          q ← inside_display s1 (Ownership.display target) p; Some (set_local s1 target q)
      | _, _ => Some s1
      end)).
    destruct (is_local s1) eqn:El.
    + pose proof El as (t & c & Es)%is_local_state. rewrite Es.
      assert (okm (q ← inside_display s1 (Ownership.display t) p; Some (set_local s1 t q))) as Hq.
      { apply okm_bind. intros q _. apply okm_alive. by apply alive_local. }
      destruct (local_target_at s1 p) as [[target|]|]; [|exact Hq|exact Hq].
      apply okm_some. case_bool_decide; [left; by apply alive_local|by apply adopt_ok].
    + unfold is_local in El. destruct (local_target_at s1 p) as [[target|]|]; destruct (s_state s1); try done; by apply okm_alive.
  - destruct allowed; [by apply apply_local_motion_ok|by apply okm_alive].
Qed.
Lemma pointer_polled_ok s p now : Alive s -> okm (pointer_polled s p now).
Proof.
  intros HA. unfold pointer_polled. rewrite (alive_failed _ _ _ _ HA). cbn [orb].
  destruct (negb (point_is_finite p)); [by apply okm_alive|].
  pose proof (observe_good base d v0 s now HA) as HG. destruct (observe s now) as [s1 ok]. unfold good in HG.
  cbn [fst snd] in HG. destruct ok; cbn [negb]; [|apply okm_some; by right].
  destruct (_ && _); [by apply poll_pointer_ok|by apply okm_alive].
Qed.

(** ** Native routes *)

Lemma bind_ticket_ok s request ticket : Alive s -> OK (bind_ticket s request ticket).
Proof.
  intros HA. assert (OK (fail s SRouteMismatch)) as Hf by (right; by eapply alive_fail).
  unfold bind_ticket. destruct (s_state s) eqn:Es; try done.
  - destruct (_ && _); [|done]. left. apply alive_shape; [done|]. by rewrite Es.
  - destruct (_ && _); [|done]. left. apply alive_shape; [done|]. by rewrite Es.
  - destruct HA as (_ & _ & v & _ & _ & _ & Hr & _). unfold remote_held in Hr. by rewrite Es in Hr.
Qed.
Lemma foreign_ok s remote revision : Alive s -> is_local s = true -> Alive (set_route s (mkRoute remote revision false)).
Proof.
  intros (F & L & v & R & Hn & Ht & Hr & Ha & Ho & Hh & Hmw & Hl & [Hk Hrt] & Hf) Hloc.
  pose proof Hloc as (t & c & Es)%is_local_state.
  split; [exact F|]. split; [exact L|]. exists v. split; [exact R|]. split_and!; try done.
  split; [|unfold route_held; ux; by rewrite Es]. intros Hv. destruct (Hk Hv) as [Hx|Hx]; [|by right].
  unfold native_route in Hx. by rewrite Es in Hx.
Qed.

(** ** Frames *)

#[local] Notation Fwd := (Fwd base v0).

Lemma on_ping_ok s f token : Alive s -> OK (on_ping s f token).
Proof.
  intros HA. unfold on_ping. destruct (accept_heartbeat _ _) as [g [?|?]]; cbn [is_ok]; [|by left].
  by apply (push_control_alive base d v0 (set_heartbeats s g)).
Qed.
Lemma on_pong_frame_ok s f token now : Alive s -> s_last_now s = now -> OK (on_pong_frame s f token now).
Proof.
  intros HA Hn. unfold on_pong_frame. destruct (accept_heartbeat _ _) as [g [?|?]]; cbn [is_ok]; [|by left].
  by apply (on_pong_ok base d v0 (set_heartbeats s g)).
Qed.

Lemma activate_epoch_in s ep : exists i b, activate_input_epoch s ep = (set_in s i, b).
Proof.
  unfold activate_input_epoch. destruct (match i_epoch (s_in s) with Some _ => _ | None => _ end);
    [exists (s_in s), false; reflexivity|eauto].
Qed.
Lemma accept_sequence_in s seq : exists i b, accept_input_sequence s seq = (set_in s i, b).
Proof.
  unfold accept_input_sequence. destruct (_ || _); [exists (s_in s), false; reflexivity|eauto].
Qed.
Lemma open_epoch_in s ep : exists i b, open_epoch s ep = (set_in s i, b).
Proof.
  unfold open_epoch. case_bool_decide; [exists (s_in s), true; reflexivity|apply activate_epoch_in].
Qed.
Lemma accept_take_back_in s f : exists i b, accept_take_back s f = (set_in s i, b).
Proof.
  unfold accept_take_back. destruct (take_back_before_reanchor s f).
  { destruct (match i_sequence (s_in s) with Some _ => _ | None => _ end); [eauto|].
    exists (s_in s), false. reflexivity. }
  assert (exists i b, (if bool_decide (i_epoch (s_in s) = Some (epoch f)) then (s, true)
    else if match s_state s with SAwaitActivation _ => true | _ => false end && (epoch f =? o_epoch (s_out s))
    then activate_input_epoch s (epoch f) else (s, false)) = (set_in s i, b)) as (i & b & ->).
  { case_bool_decide; [exists (s_in s), true; reflexivity|].
    destruct (_ && _); [apply activate_epoch_in|exists (s_in s), false; reflexivity]. }
  destruct (_ && _); [|eauto]. destruct (accept_sequence_in (set_in s i) (sequence f)) as (i' & b' & ->). eauto.
Qed.

Lemma on_take_back_ok s f : Alive s -> OK (on_take_back s f).
Proof.
  intros HA. unfold on_take_back. destruct (accept_take_back_in s f) as (i & b & ->).
  destruct (negb b && _). { right. apply (alive_fail _ d _ (set_in s i)), HA. }
  destruct (b && _); left; exact HA.
Qed.

(** *** An activation declined *)

Lemma not_held_activation v s a :
  Match v s -> s_state s = SAwaitActivation a ->
  l_held_since (s_link s) = None /\ v_owed v = 0 /\ d = 0 /\ l_acks_pending (s_link s) = 0.
Proof.
  intros (_ & _ & _ & _ & Ho & Hh & _) Es.
  assert (l_held_since (s_link s) = None) as Hnh.
  { apply not_home_not_held; [done|]. unfold is_home_state. by rewrite Es. }
  split; [done|]. apply (owes_nothing d v s Ho); [|done]. unfold releasing. by rewrite Es.
Qed.

Lemma on_declined_ok s a now : Alive s -> s_state s = SAwaitActivation a -> OK (on_declined s a now).
Proof.
  intros (v & HB & HM)%alive_base Es. unfold on_declined.
  destruct (recover_cases s (a_return_target a)) as (own & ok & ->).
  destruct ok; cbn [negb]. 2:{ right. apply (fail_dead _ _ v (set_ownership s own)), HB. }
  set (s1 := set_declined _ _).
  pose proof (match_waits _ _ _ _ HM) as Hw. destruct (not_held_activation v s a HM Es) as (Hnh & Hv & Hd & Hp).
  destruct HM as (Hn & Ht & Hr & _ & Ho & [Hlast _] & Hmw & Hl & [Hk Hrt] & Hf).
  unfold told, remote_held, native_route, route_held, floor_held, claim_fits in *. rewrite Es in *.
  destruct (f_claim (s_floor s)) as [c|] eqn:Ec; [|unfold is_home_state in Hf; by rewrite Es in Hf].
  destruct Hf as (F1 & F2 & F3). destruct (a_already_remote a) eqn:Ea.
  - assert (f_claim (s_floor s1) = Some c) as Ec1 by exact Ec. unfold return_claim. rewrite Ec1.
    destruct (move_claim_cases s1 c Returning) as [(t & -> & T1 & T2)| ->]; [done|by rewrite F3| |]; cbn [negb].
    2:{ right. apply (fail_dead _ _ v s1), HB. }
    set (s2 := set_floor_claim _ _).
    assert (Base v s2) as HB2 by exact HB.
    destruct (push_release_ok base v0 v s2 HB2 Hw) as [(o & w & -> & HB3 & Hno & Hk1 & Hb1 & Ho1 & Hn1)|HO];
      [|right; exact (proj1 HO)].
    left. destruct HB3 as (F3' & R3 & L3 & Hn3 & _).
    split; [exact F3'|]. split; [exact L3|]. exists w. split; [exact R3|].
    split; [exact Hn3|]. split; [done|]. split; [done|]. split; [done|].
    split. { unfold owes, releasing. subst s2 s1. ux. rewrite Hp, Ho1, Hv, Hd, Hnh. cbn. lia. }
    split. { split; [exact Hlast|]. subst s2 s1. ux. rewrite Hnh. by intros []. }
    split. { unfold motion_waits. ux. rewrite Hno. by intros []. }
    split. { split; [exact (proj1 Hl)|]. split; intros u Hu; by apply elem_of_empty in Hu. }
    split. { split; [|done]. intros _. left. unfold native_route. ux.
      by apply andb_true_iff in Hrt as [? _]. }
    unfold floor_held, claim_fits. subst s2 s1. ux. rewrite T2, F2. auto.
  - left. set (s2 := set_anchored_return _ _).
    destruct (release_floor_fields s2) as (fs & -> & Hc).
    destruct HB as (B1 & B2 & B3 & B4 & B5). destruct Hr as [N1 N2]; [by left|].
    split; [exact B1|]. split; [exact B3|]. exists v. split; [exact B2|].
    split; [exact B4|]. split. { unfold told. subst s2 s1. ux. destruct Ht as [-> ->]. by rewrite N1, N2. }
    split; [done|]. split; [done|].
    split. { unfold owes, releasing. subst s2 s1. ux. rewrite Hp, Hv, Hd, Hnh. cbn. lia. }
    split. { split; [exact Hlast|]. subst s2 s1. ux. rewrite Hnh. by intros []. }
    split. { intros Hx. specialize (Hmw Hx). unfold forwarding in Hmw. by rewrite Es in Hmw. }
    split. { split; [exact (proj1 Hl)|]. split; intros u Hu; by apply elem_of_empty in Hu. }
    split. { split; [|done]. intros Hvn. destruct (Hk Hvn); [done|by right]. }
    unfold floor_held. ux. by rewrite Hc.
Qed.

(** *** An activation accepted *)

Lemma position_fwd v s p :
  Fwd v s ->
  (exists w, Fwd w (push_input s (MsgMotion (Absolute p))) /\ same_io s (push_input s (MsgMotion (Absolute p)))
     /\ s_ledger (push_input s (MsgMotion (Absolute p))) = s_ledger s)
  \/ Over (push_input s (MsgMotion (Absolute p))).
Proof.
  intros (HB & Hk & Hb & Ha & Ho & Hl). cbn [push_input].
  destruct (push_motion_ok base v0 v s p HB Ha Ho) as [(o & v' & -> & HB' & Hmv & He)|HO]; [left|by right].
  destruct (moved_fields _ _ Hmv) as (M1 & M2 & M3 & M4 & M5 & M6 & M7).
  exists v'. split; [|split; [exists o, (s_ledger s); done|done]].
  split; [exact HB'|]. rewrite M3, M4, M5, M6. done.
Qed.

Lemma each_over test body stop l s :
  (forall s i, Over s -> Over (body s i)) -> Over s -> Over (each test body stop l s).1.
Proof.
  intros Hb. revert s. induction l as [|i l IH]; intros s HO; cbn [each]; [done|].
  destruct (test s i); [|by apply IH]. destruct (stop && _); [by apply Hb|by apply IH, Hb].
Qed.
Lemma transfer_over s : Over s -> Over (transfer_to_remote s).
Proof.
  intros HO. unfold transfer_to_remote. set (s1 := set_clicks _ _).
  assert (Over s1) as HO1 by exact HO. clearbody s1.
  pose proof (each_over key_to_press key_down true modifier_indices s1) as H2.
  destruct (each _ _ _ _ s1) as [s2 stopped]. specialize (H2 (key_down_over base v0) HO1). cbn [fst] in H2.
  destruct stopped; [done|]. apply each_over; [|done]. intros; by apply button_down_over.
Qed.
Lemma synchronize_over s : Over s -> Over (synchronize_reanchored_remote_input s).
Proof.
  intros HO. unfold synchronize_reanchored_remote_input. set (s1 := set_clicks _ _).
  assert (Over s1) as HO1 by exact HO. clearbody s1.
  destruct (_ <? _)%nat.
  { pose proof HO1 as (((f & Hf) & _) & _). unfold fail. by rewrite Hf. }
  pose proof (key_down_over base v0) as Hd. pose proof (key_up_over base v0) as Hu.
  assert (forall s i, Over s -> Over (single_down s i)) as Hbd by (intros; by apply button_down_over).
  pose proof (button_up_over base v0) as Hbu.
  repeat (apply each_over; [done|]). done.
Qed.

(** What lands with the floor's other end accepted. *)
Lemma synchronized v s a :
  Fwd v s -> (a_handover a = true -> none_remote s) ->
  let s' := if a_handover a then transfer_to_remote s else synchronize_reanchored_remote_input s in
  held_subset base v0 s s' \/ Dead s'.
Proof.
  intros HF Hn. destruct (a_handover a); [left; eapply transfer_ok; eauto|by eapply synchronize_ok].
Qed.

Lemma land_reanchored_ok v s a :
  Fwd v s -> may_land d s -> (a_handover a = true -> none_remote s) -> okm (land_reanchored s a).
Proof.
  intros HF Hm Hn. unfold land_reanchored.
  destruct (display_at s _) as [disp|].
  2:{ apply okm_some. right. apply (fail_dead _ _ v). by destruct HF. }
  apply okm_bind. intros changed _. apply okm_bind. intros position _.
  set (id := Ownership.display (a_target a)).
  assert (forall s1, (if point_eqb changed (a_entry a) then Some s
     else sent ← peer_point s id changed; Some (push_input s (MsgMotion (Absolute sent)))) = Some s1 ->
     (exists w, Fwd w s1 /\ same_io s s1 /\ s_ledger s1 = s_ledger s) \/ Over s1) as Hfirst.
  { intros s1. destruct (point_eqb _ _). { intros [= <-]. left. exists v. split; [done|]. split; [apply same_io_refl|done]. }
    destruct (peer_point _ _ _) as [q|]; [|done]. intros [= <-]. exact (position_fwd v s q HF). }
  apply okm_bind. intros s1 Hs1. specialize (Hfirst s1 Hs1). clear Hs1.
  set (s2 := if a_handover a then transfer_to_remote s1 else synchronize_reanchored_remote_input s1).
  assert (Dead s2 \/ exists w, Fwd w s2 /\ same_io s s2
    /\ k_remote_keys (s_ledger s2) ⊆ k_keys (s_ledger s2) /\ k_remote_buttons (s_ledger s2) ⊆ k_buttons (s_ledger s2)) as H2.
  { destruct Hfirst as [(w & HF1 & Hio & Hled)|HO].
    - destruct (synchronized w s1 a HF1) as [[(w' & HF2 & Hio2 & S1 & S2)|HO]|HD]; [|right|left; by destruct HO|by left].
      { unfold none_remote in *. by rewrite Hled. }
      fold s2 in HF2, Hio2, S1, S2. destruct (same_io_keys _ _ Hio2) as [E1 E2]. exists w'. split_and!; try done; [by eapply same_io_trans|by rewrite E1|by rewrite E2].
    - left. subst s2. destruct (a_handover a); [by apply transfer_over in HO as [? _]|by apply synchronize_over in HO as [? _]]. }
  clearbody s2. clear Hfirst.
  apply okm_bind. intros s3 Hs3. apply okm_some.
  destruct H2 as [HD|(w & HF2 & Hio & S1 & S2)].
  { rewrite (dead_failed _ _ _ HD) in Hs3. cbn [orb] in Hs3. injection Hs3 as <-.
    rewrite (dead_failed _ _ _ HD). by right. }
  rewrite (fwd_failed _ _ _ _ HF2) in Hs3. cbn [orb] in Hs3.
  destruct (point_eqb position changed).
  - injection Hs3 as <-. rewrite (fwd_failed _ _ _ _ HF2). left. by eapply land_alive.
  - destruct (peer_point _ _ _) as [q|]; [|done]. injection Hs3 as <-.
    destruct (position_fwd w s2 q HF2) as [(w' & HF3 & Hio3 & Hled)|HO].
    + cbn [push_input] in *. rewrite (fwd_failed _ _ _ _ HF3). left.
      eapply land_alive; [done|exact HF3|by eapply same_io_trans|by rewrite Hled|by rewrite Hled].
    + cbn [push_input] in *. rewrite (dead_failed _ _ _ (proj1 HO)). by apply over_ok.
Qed.

(** Native capture is asked to go remote once the peer accepted. *)
Lemma request_native_ok v s a :
  Base v s -> numbered base v s -> v_keys v = k_remote_keys (s_ledger s) ->
  v_buttons v = k_remote_buttons (s_ledger s) -> none_remote s -> v_active v = true -> v_owed v = 0 ->
  may_land d (set_route s (mkRoute true 0 true)) -> ledger_ok s -> waiting (o_pacer (s_out s)) = None ->
  OK (request_native s a).
Proof.
  intros HB Hn Hk Hb Hr Ha Ho (Hh & Hp & Hd & Hl & (c & C1 & C2 & C3 & C4) & _) Hled Hw. unfold request_native.
  destruct (request_route_ok base v0 v s ActivateRemote true HB) as [(-> & R & L)|(s' & -> & HD)]; [done| |by right].
  left. destruct HB as (F & _ & _ & _ & _).
  split; [exact F|]. split; [exact L|]. eexists. split; [exact R|]. split; [exact Hn|].
  split; [done|]. split; [exact Hr|]. split; [exact Ha|].
  split. { unfold owes, releasing. ux. cbn [v_owed set_view_native]. rewrite Hp, Hh, Ho, Hd. split_and!; lia. }
  split. { split; [exact Hl|]. ux. rewrite Hh. by intros []. }
  split. { unfold motion_waits. ux. rewrite Hw. by intros []. }
  split; [exact Hled|]. split; [split; [by left|done]|].
  unfold floor_held, claim_fits. ux. rewrite C1. auto.
Qed.

Lemma on_activated_ok s a :
  Alive s -> s_state s = SAwaitActivation a ->
  (forall v, effects_run base v0 (o_effects (s_out s)) = Some v -> v_active v = true) ->
  okm (on_activated s a).
Proof.
  intros (v & HB & HM)%alive_base Es Hact. assert (v_active v = true) as Ha by (apply Hact; by destruct HB as (_ & ? & _)).
  destruct (not_held_activation v s a HM Es) as (Hnh & Hv & Hd & Hp).
  destruct HM as (Hn & Ht & Hr & _ & Ho & [Hlast _] & Hmw & Hl & [Hk Hrt] & Hf).
  unfold told, remote_held, native_route, route_held, floor_held, claim_fits in *. rewrite Es in *.
  destruct (f_claim (s_floor s)) as [c|] eqn:Ec; [|unfold is_home_state in Hf; by rewrite Es in Hf].
  destruct Hf as (F1 & F2 & F3). unfold on_activated.
  set (s1 := landed s). assert (Base v s1) as HB1 by exact HB.
  destruct (a_already_remote a) eqn:Ea.
  - cbn [negb]. destruct (acknowledge_cases s1 (a_target a) (a_ownership_epoch a)) as (own & ok & ->).
    destruct ok; cbn [negb]. 2:{ apply okm_some. right. apply (fail_dead _ _ v (set_ownership s1 own)), HB. }
    apply (land_reanchored_ok v).
    + split; [exact HB|]. tauto.
    + split_and!; try done. exists c. split_and!; try done. destruct F1; [done|congruence].
    + intros Hho. apply Hr. by right.
  - assert (f_claim (s_floor s1) = Some c) as Ec1 by exact Ec. rewrite Ec1.
    destruct (move_claim_cases s1 c Sending) as [(t & -> & T1 & T2)| ->]; [done|by rewrite F3| |]; cbn [negb].
    2:{ apply okm_some. right. apply (fail_dead _ _ v s1), HB. }
    set (s2 := set_floor_claim _ _).
    destruct (acknowledge_cases s2 (a_target a) (a_ownership_epoch a)) as (own & ok & ->).
    destruct ok; cbn [negb]. 2:{ apply okm_some. right. apply (fail_dead _ _ v (set_ownership s2 own)), HB. }
    apply okm_some. apply (request_native_ok v); try done; try tauto.
    + split_and!; try done. exists t. subst s2. ux. split_and!; try done. by rewrite T2.
    + unfold motion_waits, forwarding in Hmw. rewrite Es in Hmw. subst s2 s1. ux.
      destruct (waiting (o_pacer (s_out s))); [|done]. by specialize (Hmw ltac:(eauto)).
Qed.

Lemma on_activation_reply_ok s f a now :
  Alive s -> s_state s = SAwaitActivation a ->
  (forall v id, effects_run base v0 (o_effects (s_out s)) = Some v -> message f = MsgActivationAck id ->
     epoch f = v_epoch v -> v_active v = true) ->
  okm (on_activation_reply s f a now).
Proof.
  intros HA Es Hact. unfold on_activation_reply. cbv zeta.
  set (declined := match message f with MsgActivationDeclined _ _ => _ | _ => false end).
  set (acked := match message f with MsgActivationAck _ => _ | _ => false end).
  destruct (negb (epoch f =? o_epoch (s_out s)) || negb (declined || acked)) eqn:E; [by apply okm_fail|].
  apply orb_false_elim in E as [E1 E2]. apply negb_false_iff in E1, E2. apply Z.eqb_eq in E1.
  destruct (open_epoch_in s (epoch f)) as (i & [] & ->); cbn [negb]; [|by apply okm_fail].
  destruct (accept_sequence_in (set_in s i) (sequence f)) as (i' & [] & ->); cbn [negb]; [|by apply okm_fail].
  destruct declined eqn:Ed; [apply okm_some; by apply on_declined_ok|]. cbn [orb] in E2.
  apply on_activated_ok; [exact HA|exact Es|]. intros v Hv.
  assert (v_epoch v = o_epoch (s_out s)) as Hep.
  { destruct HA as (_ & _ & v' & R & (_ & ? & _) & _). change (effects_run base v0 (o_effects (s_out s)) = Some v) in Hv.
    rewrite R in Hv. by simplify_eq. }
  subst acked. destruct (message f) as [| | | | | | | | | | | | | | | | | | | | |] eqn:Em; try done.
  eapply Hact; [exact Hv|done|congruence].
Qed.
End Calls.

(** ** Acknowledgements of a release *)

Section Acks.
Context (base : Z) (v0 : PeerView).

Lemma barrier_ack_ok s f now :
  Alive base 1 v0 s -> 0 < l_acks_pending (s_link s) -> is_home_state s = true -> s_last_now s = now ->
  Ok_ base 0 v0 (on_barrier_ack s f now).
Proof.
  intros HA Hp Hhome Hnow. unfold on_barrier_ack.
  assert (exists i b, (if bool_decide (i_epoch (s_in s) = Some (o_epoch (s_out s))) then (s, true)
    else activate_input_epoch s (epoch f)) = (set_in s i, b)) as (i & b & ->).
  { case_bool_decide; [exists (s_in s), true; reflexivity|apply activate_epoch_in]. }
  assert (forall i e, Dead base v0 (fail (set_in s i) e)) as Hfail.
  { intros. by apply (alive_fail base 1 v0 (set_in s _)). }
  destruct (_ || _); [right; apply Hfail|].
  destruct (accept_sequence_in (set_in s i) (sequence f)) as (i' & [] & ->); cbn [negb]; [|right; apply Hfail].
  left. apply try_resume_alive; [|exact Hnow].
  destruct HA as (F & L & v & R & Hn & Ht & Hr & Ha & Ho & Hh & Hmw & Hl & Hk & Hf).
  split; [exact F|]. split; [exact L|]. exists v. split; [exact R|]. split_and!; try done.
  destruct Ho as (O1 & O2 & O3 & O4 & O5). unfold owes, releasing in *. ux.
  unfold is_home_state in Hhome. destruct (s_state s); try done; split_and!; try lia; intros; apply O5; lia.
Qed.

Lemma wrong_barrier_ack s f now :
  Alive base 0 v0 s -> epoch f <> o_epoch (s_out s) -> Dead base v0 (on_barrier_ack s f now).
Proof.
  intros HA He. unfold on_barrier_ack.
  assert (exists i b, (if bool_decide (i_epoch (s_in s) = Some (o_epoch (s_out s))) then (s, true)
    else activate_input_epoch s (epoch f)) = (set_in s i, b)) as (i & b & ->).
  { case_bool_decide; [exists (s_in s), true; reflexivity|apply activate_epoch_in]. }
  rewrite (proj2 (Z.eqb_neq _ _)) by exact He. cbn [negb orb].
  by apply (alive_fail base 0 v0 (set_in s _)).
Qed.

(** The pointer is home: nothing is owed and nothing is down at the peer. *)
Lemma home_alive v s st :
  match st with SLocal _ _ | SAwaitLocalBarrier _ _ _ _ => True | _ => False end ->
  Base base v0 v s -> v_keys v = ∅ -> v_buttons v = ∅ -> v_owed v = 0 ->
  l_acks_pending (s_link s) = 0 -> l_held_since (s_link s) = None ->
  last_now (l_health (s_link s)) <= s_last_now s -> waiting (o_pacer (s_out s)) = None ->
  none_remote s -> ledger_ok s -> (v_native v = true -> is_Some (s_handover s)) ->
  match f_claim (s_floor s) with
  | Some c => (f_floor (s_floor s) = c \/ state c = Requesting) /\ peer c = c_slot (s_config s)
              /\ floor_owner (state c) = Some Floor.Outbound
  | None => True
  end -> Alive base 0 v0 (set_state s st).
Proof.
  intros Hst (F & R & L & Hnum & _) Hk Hb Ho Hp Hh Hl Hw [N1 N2] Hled Hna Hf.
  split; [exact F|]. split; [exact L|]. exists v. split; [exact R|]. split; [exact Hnum|].
  split. { unfold told. ux. rewrite Hk, Hb, N1, N2. by destruct st. }
  split. { unfold remote_held. ux. by destruct st. }
  split. { unfold accepted_activation. ux. by destruct st. }
  split. { unfold owes, releasing. ux. rewrite Hp, Hh, Ho. destruct st; try done; lia. }
  split. { split; [exact Hl|]. ux. rewrite Hh. by intros []. }
  split. { unfold motion_waits. ux. rewrite Hw. by intros []. }
  split; [exact Hled|].
  split. { split; [intros Hv; right; by apply Hna|]. unfold route_held. ux. by destruct st. }
  unfold floor_held, claim_fits, is_home_state. ux. by destruct (f_claim (s_floor s)), st.
Qed.

Lemma complete_release_ok s r :
  Alive base 1 v0 s -> s_state s = SAwaitRelease r -> okm base 0 v0 (complete_remote_release s r).
Proof.
  intros (v & HB & HM)%alive_base Es. unfold complete_remote_release.
  assert (exists own ok, (match rl_ownership_epoch r with Some ep => acknowledge s (rl_local r) ep | None => (s, true) end)
    = (set_ownership s own, ok)) as (own & ok & ->).
  { destruct (rl_ownership_epoch r); [apply acknowledge_cases|]. exists (s_ownership s), true. reflexivity. }
  destruct ok; cbn [negb]. 2:{ apply okm_some. right. apply (fail_dead _ _ v (set_ownership s own)), HB. }
  destruct HM as (Hn & Ht & _ & _ & Ho & Hh & Hmw & Hl & [Hk _] & Hf).
  assert (l_held_since (s_link s) = None) as Hnh.
  { apply not_home_not_held; [done|]. unfold is_home_state. by rewrite Es. }
  unfold told, owes, releasing, native_route, floor_held, claim_fits, motion_waits, forwarding in *. rewrite Es in *.
  destruct (f_claim (s_floor s)) as [c|] eqn:Ec; [|unfold is_home_state in Hf; by rewrite Es in Hf].
  destruct Hf as (F1 & F2 & F3). destruct Ht as [Hk1 Hb1]. destruct Hh as [Hlast _].
  destruct Ho as (O1 & O2 & _ & O4 & O5).
  assert (l_acks_pending (s_link s) = 0) as Hp.
  { destruct (decide (0 < l_acks_pending (s_link s))) as [Hx|]; [|lia]. apply O5 in Hx. rewrite Hnh in Hx. by destruct Hx. }
  assert (waiting (o_pacer (s_out s)) = None) as Hw.
  { destruct (waiting (o_pacer (s_out s))); [|done]. by specialize (Hmw ltac:(eauto)). }
  set (s1 := clear_remote_delivery _).
  assert (Base base v0 v s1) as HB1 by exact HB.
  assert (ledger_ok s1) as Hl1.
  { split; [exact (proj1 Hl)|]. split; intros u Hu; by apply elem_of_empty in Hu. }
  destruct (rl_handover r) as [h|].
  - apply okm_alive. unfold hand_on. assert (f_claim (s_floor s1) = Some c) as -> by exact Ec.
    apply (home_alive v); try done; [|ux; lia].
    destruct HB as (B1 & B2 & B3 & B4 & _). split_and!; try done. intros _. right. done.
  - unfold restore_local. apply okm_bind. intros position _. apply okm_some.
    destruct (cr_remote (s_route s1)) eqn:Er.
    + destruct (request_route_ok base v0 v s1 (fun request => RestoreLocalAt request (Ownership.display (rl_local r)) position)
        false HB1) as [(-> & R & L)|(s' & -> & HD)]; [done| |by right].
      left. eapply (home_alive (set_view_native v false)); try done.
      { destruct HB1 as (B1 & _ & _ & B4 & _). split_and!; try done. }
      { cbn. lia. }
      change (f_claim (s_floor (requested s1 _))) with (f_claim (s_floor s)). rewrite Ec.
      split_and!; try done. by rewrite F3.
    + left. eapply (home_alive v); try done; [lia| |].
      { intros Hv. destruct (Hk Hv) as [Hx|Hx]; [|done]. change (cr_remote (s_route s) = false) in Er. congruence. }
      change (f_claim (s_floor s1)) with (f_claim (s_floor s)). rewrite Ec. split_and!; try done. by rewrite F3.
Qed.
End Acks.

(** ** What the peer's frames tell of it *)

(** An accepted activation that was not released meanwhile, and a release
    acknowledged, in the current epoch. *)
Definition heard (v : PeerView) (f : Frame) : PeerView :=
  if negb (epoch f =? v_epoch v) then v
  else match message f with
  | MsgActivationAck _ =>
      mkView (v_epoch v) (v_seq v) (v_control v) (v_keys v) (v_buttons v) (v_active v || (v_owed v =? 0))
        (v_owed v) (v_native v)
  | MsgReleaseAck =>
      mkView (v_epoch v) (v_seq v) (v_control v) (v_keys v) (v_buttons v) (v_active v) (v_owed v - 1) (v_native v)
  | _ => v
  end.
(** A peer acknowledges only releases it was sent. *)
Definition honest (v : PeerView) (f : Frame) : bool :=
  match message f with
  | MsgReleaseAck => negb (epoch f =? v_epoch v) || (0 <? v_owed v)
  | _ => true
  end.
(** The acknowledgements a frame carries. *)
Definition acks (v : PeerView) (f : Frame) : Z :=
  match message f with MsgReleaseAck => if epoch f =? v_epoch v then 1 else 0 | _ => 0 end.

Lemma match_heard base v f s :
  Match base 0 v s -> honest v f = true -> Match base (acks v f) (heard v f) s.
Proof.
  intros HM Hh. unfold heard, acks, honest in *.
  destruct (epoch f =? v_epoch v); cbn [negb orb] in *; [|by destruct (message f)].
  destruct (message f) eqn:Em; try done.
  - destruct HM as (Hn & Ht & Hr & Ha & Ho & Hrest). split; [exact Hn|]. split; [exact Ht|]. split; [exact Hr|].
    split; [|split; [exact Ho|exact Hrest]]. unfold accepted_activation in *. cbn [v_active]. destruct (s_state s); try done; by rewrite Ha.
  - apply Z.ltb_lt in Hh. destruct HM as (Hn & Ht & Hr & Ha & Ho & Hrest). split; [exact Hn|].
    split; [exact Ht|]. split; [exact Hr|]. split; [exact Ha|]. split; [|exact Hrest].
    destruct Ho as (O1 & O2 & O3 & O4 & O5). unfold owes. cbn. split_and!; try done; lia.
Qed.
Lemma heard_epoch v f : v_epoch (heard v f) = v_epoch v.
Proof. unfold heard. destruct (negb _); [done|]. by destruct (message f). Qed.

Section Frames.
Context `{Libm} (base : Z) (v0 : PeerView).

Lemma state_frame_ok s f now :
  Alive base 0 v0 s ->
  (forall v id, effects_run base v0 (o_effects (s_out s)) = Some v -> message f = MsgActivationAck id ->
     epoch f = v_epoch v -> (exists a, s_state s = SAwaitActivation a) -> v_active v = true) ->
  (message f = MsgReleaseAck -> epoch f <> o_epoch (s_out s)) ->
  okm base 0 v0 (on_state_frame s f now).
Proof.
  intros HA Hact Hrel. unfold on_state_frame. destruct (is_held s); [by apply okm_alive|].
  destruct (s_state s) as [|a| | |r| |] eqn:Es; try by apply okm_fail.
  - apply on_activation_reply_ok; [done..|]. intros v id Hv Hm He. eapply Hact; eauto.
  - unfold on_release_ack. destruct (message f) eqn:Em; cbn [negb]; rewrite ?orb_true_r; try by apply okm_fail.
    rewrite (proj2 (Z.eqb_neq _ _)) by auto. by apply okm_fail.
Qed.

Lemma release_ack_ok s f now :
  Alive base 1 v0 s -> message f = MsgReleaseAck -> s_last_now s = now ->
  okm base 0 v0 (dispatch_frame s f now).
Proof.
  intros HA Hm Hnow. unfold dispatch_frame. rewrite Hm.
  pose proof HA as (v & _ & (_ & _ & _ & _ & (O1 & O2 & _ & O4 & O5) & [_ Hh] & _))%alive_base.
  destruct (is_barrier_ack s MsgReleaseAck) eqn:Eb.
  - apply andb_true_iff in Eb as [Eb _]. apply Z.ltb_lt in Eb.
    apply okm_some, barrier_ack_ok; try done. by apply Hh, O5.
  - unfold is_barrier_ack in Eb. cbn [andb] in Eb. unfold on_state_frame, releasing in *.
    destruct (s_state s) as [| | | |r| |] eqn:Es;
      try (rewrite andb_true_r in Eb; apply Z.ltb_ge in Eb; lia).
    destruct (is_held s) eqn:Ehd.
    { apply is_held_true in Ehd. destruct (Hh Ehd) as [Hx _]. unfold is_home_state in Hx. by rewrite Es in Hx. }
    unfold on_release_ack. rewrite Hm. cbn [negb]. rewrite orb_false_r.
    assert (forall i e, okm base 0 v0 (Some (fail (set_in s i) e))) as Hfail.
    { intros. apply okm_some. right. by apply (alive_fail base 1 v0 (set_in s _)). }
    destruct (negb (epoch f =? _)); [exact (Hfail (s_in s) _)|].
    destruct (accept_sequence_in s (sequence f)) as (i & [] & ->); cbn [negb]; [|apply Hfail].
    by apply (complete_release_ok base v0 (set_in s i)).
Qed.

Lemma dispatch_ok s f now :
  Alive base 0 v0 s -> s_last_now s = now ->
  (forall v id, effects_run base v0 (o_effects (s_out s)) = Some v -> message f = MsgActivationAck id ->
     epoch f = v_epoch v -> (exists a, s_state s = SAwaitActivation a) -> v_active v = true) ->
  (message f = MsgReleaseAck -> epoch f <> o_epoch (s_out s)) ->
  okm base 0 v0 (dispatch_frame s f now).
Proof.
  intros HA Hnow Hact Hrel. unfold dispatch_frame.
  assert (okm base 0 v0 (if is_barrier_ack s (message f) then Some (on_barrier_ack s f now) else on_state_frame s f now)) as Hs.
  { destruct (is_barrier_ack s (message f)) eqn:Eb; [|by apply state_frame_ok].
    apply okm_some. right. apply wrong_barrier_ack; [done|]. apply Hrel. by destruct (message f). }
  destruct (message f) eqn:Em; try exact Hs; apply okm_some.
  - by apply on_take_back_ok.
  - by apply on_ping_ok.
  - by apply on_pong_frame_ok.
Qed.
End Frames.

Lemma remote_frame_ok `{Libm} base v s f now :
  Match base 0 v s -> s_failure s = None -> o_effects (s_out s) = [] -> honest v f = true ->
  okm base 0 (heard v f) (remote_frame s f now).
Proof.
  intros HM Hf He Hh. set (v0 := heard v f).
  assert (Alive base (acks v f) v0 s) as HA.
  { split; [done|]. rewrite He. split; [cbn; lia|]. exists v0. split; [done|]. by apply match_heard. }
  unfold remote_frame. rewrite (alive_failed _ _ _ _ HA).
  pose proof (observe_good base _ v0 s now HA) as HG.
  destruct (observe_fields s now) as (_ & _ & Hep).
  destruct (observe s now) as [s1 ok] eqn:Eo. unfold good in HG. cbn [fst snd] in *.
  destruct ok; cbn [negb]; [|apply okm_some; by right].
  pose proof (observe_clock s now s1 Eo) as Hnow.
  destruct (allow_at _ _) as [l r]. set (s2 := set_limiter s1 l).
  assert (Alive base (acks v f) v0 s2) as HA2 by exact HG.
  destruct (negb (is_ok r)). { apply okm_some. right. by apply alive_fail with (d := acks v f). }
  assert (o_epoch (s_out s2) = v_epoch v) as Hv.
  { change (o_epoch (s_out s1) = v_epoch v). rewrite Hep. by destruct HM as ((_ & ? & _) & _). }
  unfold acks in HA2. destruct (message f) eqn:Em;
    try (apply dispatch_ok; [exact HA2|exact Hnow| |intros ?; congruence]; try (intros ??? Hx; congruence)).
  - intros v1 id Hr _ Hep1 [a Hst]. rewrite ?Em in *. change (s_state s1 = SAwaitActivation a) in Hst.
    destruct (observe_cases _ _ _ s now s1 HA Eo) as [[_ Hx]|(h & ->)].
    { unfold is_home_state in Hx. by rewrite Hst in Hx. }
    change (s_state s = SAwaitActivation a) in Hst. assert (v_owed v = 0) as Ho.
    { destruct HM as (_ & _ & _ & _ & (O1 & _ & _ & O4 & O5) & [_ Hh'] & _). unfold releasing in O1. rewrite Hst in O1.
      destruct (decide (0 < l_acks_pending (s_link s))) as [Hp|]; [|lia]. destruct (Hh' (O5 Hp)) as [Hx _].
      unfold is_home_state in Hx. by rewrite Hst in Hx. }
    change (effects_run base v0 (o_effects (s_out s)) = Some v1) in Hr. rewrite He in Hr. injection Hr as <-. unfold v0 in *.
    rewrite heard_epoch in Hep1. unfold heard. rewrite Hep1, Z.eqb_refl, Em. cbn. by rewrite Ho, orb_true_r.
  - destruct (epoch f =? v_epoch v) eqn:Ee; [by apply release_ack_ok|]. apply Z.eqb_neq in Ee.
    apply dispatch_ok; [exact HA2|exact Hnow| |intros _; congruence]. intros ??? Hx; congruence.
Qed.

(** ** Handovers *)

Lemma kept_begin_activation s target entry e rt rp already s' :
  begin_remote_activation s target entry e rt rp already = Some s' ->
  s_config s' = s_config s /\ s_handover s' = s_handover s.
Proof.
  unfold begin_remote_activation. pose proof (kept_begin_ownership s target) as (H1 & _ & H2 & _).
  destruct (begin_ownership_transition s target) as [s1 [ep|]]; cbn [fst] in *; [|by intros [= <-]].
  destruct (checked_add_u64 _ 1) as [next|].
  2:{ intros [= <-]. destruct (kept_fail s1 SProtocolEpochExhausted) as (? & _ & ? & _). split; congruence. }
  pose proof (kept_flush_motion s1) as (H3 & _ & H4 & _).
  destruct (flush_motion s1) as [s2 []]; cbn [negb fst] in *; [|intros [= <-]; split; congruence].
  unfold open_activation. cbv zeta. destruct (peer_point _ _ _) as [p|]; [|done].
  cbn [mbind option_bind]. intros Hs'. set (s3 := set_state _ _) in Hs'.
  assert (s_config s3 = s_config s /\ s_handover s3 = s_handover s) as [E1 E2]
    by (subst s3; destruct already; cbn [a_already_remote]; split; etransitivity; eauto).
  clearbody s3. injection Hs' as <-.
  match goal with |- s_config (push_message _ ?m) = _ /\ _ => destruct (kept_push_message s3 m) as (? & _ & ? & _) end.
  split; congruence.
Qed.

Lemma floor_hand_over_cases f from p :
  (exists t, floor_hand_over f from p = (t, Ok t) /\ state t = Sending /\ peer t = p)
  \/ floor_hand_over f from p = (f, Err f).
Proof.
  unfold floor_hand_over. destruct (floor_call_cases f (OpHandOver from p)) as [(t & -> & He)| ->]; [left|by right].
  exists t. split; [done|]. cbn in He. repeat case_match; simplify_eq; done.
Qed.

Lemma may_accept_facts s h now :
  may_accept s h now = true ->
  is_held s = false /\ is_local s = true /\ f_claim (s_floor s) = None.
Proof.
  unfold may_accept. rewrite !andb_true_iff. intros Hm. destruct_and! Hm.
  split_and!; [by apply negb_true_iff|done|].
  match goal with H : negb (bool_decide (is_Some (f_claim _))) = true |- _ =>
    apply negb_true_iff, bool_decide_eq_false, eq_None_not_Some in H; done end.
Qed.

Section Handovers.
Context `{Libm} (base : Z).

Lemma alive_handover v0 s h : Alive base 0 v0 s -> Alive base 0 v0 (set_handover s (Some h)).
Proof.
  intros (F & L & v & R & Hn & Ht & Hr & Ha & Ho & Hh & Hmw & Hl & [Hk Hrt] & Hf).
  split; [exact F|]. split; [exact L|]. exists v. split; [exact R|]. split_and!; try done.
  split; [|exact Hrt]. intros _. by right.
Qed.
Lemma dead_handover v0 s h : Dead base v0 s -> Dead base v0 (set_handover s (Some h)).
Proof.
  intros (F & L & v & R & _). split; [exact F|]. split; [exact L|]. exists v. split; [exact R|].
  intros _. right. done.
Qed.

(** A handover started: the peer is activated while native capture is remote. *)
Lemma start_handover_ok v s h sending s' :
  Match base 0 v s -> s_failure s = None -> o_effects (s_out s) = [] -> s_handover s = None ->
  is_local s = true -> is_held s = false ->
  f_floor (s_floor s) = sending -> state sending = Sending -> peer sending = c_slot (s_config s) ->
  start_handover s h sending = Some s' ->
  Ok_ base 0 (set_view_native v true) s' /\ s_handover s' = None.
Proof.
  intros HM Hf He Hho Hl Hh F1 F2 F3. unfold start_handover. set (s1 := set_local _ _ _).
  destruct (begin_remote_activation s1 _ _ _ _ _ true) as [s2|] eqn:Eb; [|done].
  cbn [mbind option_bind]. intros [= <-].
  pose proof (kept_begin_activation _ _ _ _ _ _ _ _ Eb) as [_ Hho2].
  split. 2:{ unfold take_over. transitivity (s_handover s2); [by destruct (s_state s2)|]. by etransitivity. }
  pose proof Hl as (t & cu & Es)%is_local_state. apply is_held_false in Hh.
  destruct HM as (Hn & Ht & Hr & _ & Ho & [Hlast _] & Hmw & Hled & _ & _).
  destruct (owes_nothing 0 v s Ho) as (O1 & O2 & O3); [unfold releasing; by rewrite Es|done|].
  unfold told, remote_held, motion_waits, forwarding in *. rewrite Es in *.
  apply (begin_activation_ok base 0 (set_view_native v true) (set_view_native v true)) in Eb.
  - destruct Eb as [(HA & Hled2 & a & Ea)|HD].
    + left. unfold take_over. rewrite Ea.
      destruct HA as (F & L & v' & R & Hn' & Ht' & Hr' & Ha' & Ho' & Hh' & Hmw' & Hl' & [Hk' Hrt'] & Hf').
      split; [exact F|]. split; [exact L|]. exists v'. split; [exact R|].
      unfold SourceStream.Match, told, remote_held, owes, releasing, held_home, motion_waits, forwarding,
        native_routed, native_route, route_held, floor_held, claim_fits, accepted_activation, is_home_state in *.
      rewrite Ea in *. ux. split; [exact Hn'|]. split; [exact Ht'|].
      split. { intros _. unfold none_remote in *. ux. rewrite Hled2. exact Hr. }
      split; [done|]. split; [exact Ho'|]. split; [exact Hh'|]. split; [exact Hmw'|]. split; [exact Hl'|].
      split; [split; [exact Hk'|exact Hrt']|exact Hf'].
    + right. unfold take_over. destruct (s_state s2); try done.
  - assert (effects_run base (set_view_native v true) (o_effects (s_out s)) = Some (set_view_native v true)) as HR by (by rewrite He).
    split. { split; [exact Hf|]. split; [exact HR|]. split; [|split; [exact Hn|]].
      { change (length (o_effects (s_out s)) <= MAX_SOURCE_EFFECTS)%nat. rewrite He. cbn; lia. }
      intros _. left. reflexivity. }
    split. { intros Hx. by specialize (Hmw Hx). }
    split; [exact O1|]. split; [tauto|]. split; [tauto|]. split; [exact Hh|]. split; [exact O3|]. split; [done|].
    split; [exact Hlast|]. split; [exact Hled|]. split. { exists sending. split_and!; try done. by left. }
    split; [done|]. split; [done|]. intros _. by left.
Qed.

Lemma handed_over_ok v s h now s' :
  Match base 0 v s -> s_failure s = None -> o_effects (s_out s) = [] -> s_handover s = None ->
  handed_over s h now = Some s' ->
  (s_handover s' = Some h /\ Ok_ base 0 v s') \/ (s_handover s' = None /\ Ok_ base 0 (set_view_native v true) s').
Proof.
  intros HM Hf He Hho. assert (Alive base 0 v s) as HA.
  { split; [done|]. rewrite He. split; [cbn; lia|]. by exists v. }
  unfold handed_over. rewrite (alive_failed _ _ _ _ HA).
  pose proof (observe_good base 0 v s now HA) as HG.
  destruct (observe_fields s now) as (_ & Hho1 & _).
  destruct (observe s now) as [s1 ok] eqn:Eo. unfold good in HG. cbn [fst snd] in *.
  assert (Ok_ base 0 v (set_handover s1 (Some h))) as Hback.
  { destruct ok; [left; by apply alive_handover|right; by apply dead_handover]. }
  destruct (ok && may_accept s1 h now) eqn:Ea; [|intros [= <-]; by left].
  apply andb_true_iff in Ea as [-> Ea]. apply may_accept_facts in Ea as (Hh & Hl & Hc).
  destruct (observe_cases base 0 v s now s1 HA Eo) as [[Hx _]|(hh & ->)]; [congruence|].
  set (s1 := set_health _ _) in *.
  destruct (floor_hand_over_cases (f_floor (s_floor s1)) (ho_claim h) (c_slot (s_config s1))) as [(t & -> & T1 & T2)| ->];
    [|intros [= <-]; by left].
  intros Hs. right. destruct HG as (_ & _ & v1 & R1 & HM1).
  change (effects_run base v (o_effects (s_out s)) = Some v1) in R1. rewrite He in R1. injection R1 as <-.
  apply (start_handover_ok v) in Hs; try done; [by destruct Hs|].
  destruct HM1 as (Hn & Ht & Hr & Ha & Ho & Hhh & Hmw & Hled & Hk & Hfl).
  split_and!; try done. unfold floor_held. ux. rewrite Hc. unfold is_home_state. subst s1. ux.
  pose proof Hl as (tt & cu & Es)%is_local_state. ux. by rewrite Es.
Qed.
End Handovers.
