(* ===== verification/SourceSystem.v ===== *)
(** * A source controller over its whole life (session_source.rs)

    [Started] is what construction and setup give, [source_step] one call or one
    step of the controller's surroundings, and [Run] a controller with its peer's
    view after any number of them.  The surroundings may move the floor word
    unless this side holds it, and may set the process-wide switches; the peer may
    send anything, but acknowledges only releases it was sent. *)

From stdpp Require Import gmap.
From S2P Require Import Prelude F64 Types Geometry Topology Floor Messages Sequence Ownership Clicks.
From S2P Require Import SessionPacer SessionHealth SessionQuality SourceEdges SourceState HeldInput.
From S2P Require Import Source SourceKept SourceStream SourceSafety SourceRemote SourceCalls.

Inductive SourceOp :=
| CallCaptured (r : TaggedInput) (now : Z)
| CallPointer (p : Point) (now : Z)
| CallBind (request ticket now : Z)
| CallRouteFailed (request now : Z)
| CallRefuse (request now : Z)
| CallForeign (remote : bool) (revision now : Z)
| CallAbandon (now : Z)
| CallRequestLocal (now : Z)
| CallTick (now : Z)
| CallFrame (f : Frame) (now : Z)
| CallHandover (h : Handover) (now : Z)
| CallCaptureReady (ready : bool)
| CallReachable (peers : list DeviceId)
| CallBudget (now : Z)
| CallPath (sample : PathSample) (now : Z)
| EnvFloor (word : FloorSnapshot)
| EnvSwitches (control_as_command : bool) (speed : Z) (confined : bool).

(** A call without an outcome. *)
Definition silent (s : SourceController) : option (SourceController * SourceOutcome) :=
  Some (s, mkOutcome [] (s_failure s) None).

Definition source_step `{Libm} (s : SourceController) (op : SourceOp)
  : option (SourceController * SourceOutcome) :=
  match op with
  | CallCaptured r now => on_captured s r now
  | CallPointer p now => observe_pointer s p now
  | CallBind request ticket now => Some (bind_capture_route s request ticket now)
  | CallRouteFailed request now => Some (fail_capture_route_submission s request now)
  | CallRefuse request now => Some (refuse_capture_activation s request now)
  | CallForeign remote revision now => Some (observe_foreign_route s remote revision now)
  | CallAbandon now => Some (abandon s now)
  | CallRequestLocal now => Some (request_local s now)
  | CallTick now => Some (source_tick s now)
  | CallFrame f now => on_remote_frame s f now
  | CallHandover h now => accept_handover s h now
  | CallCaptureReady ready => silent (set_capture_ready s ready)
  | CallReachable peers => silent (set_reachable s peers)
  | CallBudget now => silent (fst (suppression_budget s now))
  | CallPath sample now => silent (observe_path s sample now)
  | EnvFloor word => silent (set_floor_word s word)
  | EnvSwitches c speed confined => silent (set_config s (set_switches (s_config s) c speed confined))
  end.

(** What may happen next: the floor is this side's while a claim past its request
    is on it, and the peer is honest about releases. *)
Definition may_happen (v : PeerView) (s : SourceController) (op : SourceOp) : bool :=
  match op with
  | CallFrame f _ => honest v f
  | EnvFloor _ =>
      match f_claim (s_floor s) with
      | Some c => bool_decide (state c = Requesting)
      | None => true
      end
  | _ => true
  end.

(** The view after a step: what the peer or native capture said with the call,
    the effects of the call, and native capture that left with a handover. *)
Definition refused (s : SourceController) (request : Z) : bool :=
  match s_state s with
  | SAwaitRemoteBarrier b => (b_request b =? request) && bool_decide (b_ticket b = None)
  | _ => false
  end.
Definition view_in (v : PeerView) (s : SourceController) (op : SourceOp) (out : SourceOutcome) : PeerView :=
  match op with
  | CallFrame f _ => heard v f
  | CallRefuse request _ => if refused s request then set_view_native v false else v
  | CallHandover _ _ => match out_handover out with None => set_view_native v true | Some _ => v end
  | _ => v
  end.
Definition view_out (out : SourceOutcome) (v : PeerView) : PeerView :=
  match out_handover out with Some _ => set_view_native v false | None => v end.
Definition view_step (v : PeerView) (s : SourceController) (op : SourceOp) (out : SourceOutcome)
  : option PeerView :=
  view_out out <$> effects_run (c_base_epoch (s_config s)) (view_in v s op out) (out_effects out).

(** ** Starting *)

(** Construction and setup before the link carries input. *)
Inductive Started `{Libm} : SourceController -> Prop :=
| started_new t local_machine local_display ep next_control now c speed s :
    new_source t local_machine local_display ep next_control now c speed = Ok s -> Started s
| started_ready t source initial_display control c speed s :
    after_startup t source initial_display control c speed = Ok s -> Started s
| started_floor s floor enabled : Started s -> Started (with_floor s floor enabled)
| started_peer s peer slot s' : Started s -> with_peer s peer slot = Ok s' -> Started s'
| started_reachable s peers : Started s -> Started (set_reachable s peers)
| started_offset s offset : Started s -> Started (set_peer_offset s offset)
| started_clicks s i : Started s -> Started (set_double_click_interval s i)
| started_capture s ready : Started s -> Started (set_capture_ready s ready)
| started_seed s keys buttons route ready s' :
    Started s -> seed_from_group s keys buttons route ready = (s', Ok ()) -> Started s'
| started_book s r s' out :
    Started s -> bookkeeping s r = Some (s', out) -> out_failure out = None -> Started s'
| started_inherit s earlier : Started s -> Started earlier -> Started (inherit_bookkeeping s earlier).

Definition start_view (s : SourceController) : PeerView :=
  mkView (o_epoch (s_out s)) 0 (o_control_sequence (s_out s)) ∅ ∅ false 0 false.

Inductive Run `{Libm} : PeerView -> SourceController -> Prop :=
| run_start s : Started s -> Run (start_view s) s
| run_step v s op s' out v' :
    Run v s -> may_happen v s op = true -> source_step s op = Some (s', out) ->
    view_step v s op out = Some v' -> Run v' s'.

(** ** The invariant between calls *)

Definition base_of (s : SourceController) : Z := c_base_epoch (s_config s).
Definition Inv (v : PeerView) (s : SourceController) : Prop :=
  s_handover s = None
  /\ (s_failure s = None -> Match (base_of s) 0 v s /\ at_rest s).

Lemma fresh_alive v s : Inv v s -> s_failure s = None -> Alive (base_of s) 0 v (fresh s).
Proof.
  intros [_ HI] Hf. destruct (HI Hf) as [HM _]. split; [exact Hf|]. split; [cbn; lia|]. by exists v.
Qed.
Lemma alive_match base v0 s : Alive base 0 v0 s ->
  s_failure s = None /\ exists v, effects_run base v0 (o_effects (s_out s)) = Some v /\ Match base 0 v s.
Proof. intros (? & _ & v & ? & ?). eauto. Qed.

(** The end of a call. *)
Definition Settled (base : Z) (v0 : PeerView) (r : SourceController * SourceOutcome) : Prop :=
  exists w, effects_run base v0 (out_effects (snd r)) = Some w /\ Inv (view_out (snd r) w) (fst r)
    /\ (is_Some (out_failure (snd r)) -> v_native (view_out (snd r) w) = true ->
        length (out_effects (snd r)) = MAX_SOURCE_EFFECTS \/ checked_add_u64 (s_next_request (fst r)) 1 = None).

Lemma outcome_inv base v0 s : Ok_ base 0 v0 s -> Settled base v0 (outcome s).
Proof.
  intros HO. unfold outcome, Settled. cbv zeta. cbn [fst snd out_effects out_failure out_handover].
  apply settle_outcome_ok in HO. set (s1 := settle_outcome s) in *. clearbody s1. sx.
  destruct HO as [[HA HR]|HD].
  - destruct HA as (F & L & v & R & HM). exists v. split; [exact R|]. split; [|rewrite F; by intros []].
    split; [done|]. intros _. split; [|exact HR].
    destruct HM as (Hn & Ht & Hr & Ha & Ho & Hh & Hmw & Hl & [Hk Hrt] & Hf).
    change (base_of (set_handover (set_anchored_return s1 false) None)) with (base_of s1).
    assert (base_of s1 = base) as -> by exact (proj1 Hn).
    unfold view_out. cbn [out_handover]. destruct (s_handover s1).
    + split; [exact Hn|]. split; [exact Ht|]. split; [exact Hr|]. split; [exact Ha|]. split; [exact Ho|]. by split_and!.
    + by split_and!.
  - destruct HD as ((f & F) & L & v & R & Hv). exists v. split; [exact R|].
    split; [split; [done|]; intros Hx; change (s_failure s1 = None) in Hx; congruence|].
    intros _. unfold view_out. cbn [out_handover].
    destruct (s_handover s1) eqn:Eh; [done|]. intros Hn. destruct (Hv Hn) as [?|[]]; done.
Qed.

Lemma outcome_handover s : out_handover (outcome s).2 = s_handover s.
Proof. unfold outcome. cbn. destruct (kept_settle s) as (_ & _ & K & _). exact K. Qed.

(** A failed controller sends nothing more, and stays failed. *)
Definition Inert (r : SourceController * SourceOutcome) : Prop :=
  out_effects (snd r) = [] /\ is_Some (s_failure (fst r)) /\ s_handover (fst r) = None.
Lemma outcome_inert s r :
  Some (outcome s) = Some r -> is_Some (s_failure s) -> o_effects (s_out s) = [] -> Inert r.
Proof.
  intros E [f Hf] He. apply (inj Some) in E as <-. unfold outcome, settle_outcome.
  assert (failed s = true) as -> by (unfold failed; rewrite Hf; by apply bool_decide_eq_true_2).
  split_and!; [exact He|cbn; rewrite Hf; eauto|done].
Qed.
Lemma fail_again s f : is_Some (s_failure s) -> fail s f = s.
Proof. intros [g Hg]. unfold fail. by rewrite Hg. Qed.

Lemma failed_inert `{Libm} s op r :
  is_Some (s_failure s) -> s_handover s = None -> source_step s op = Some r -> Inert r.
Proof.
  intros Hf Hh. assert (failed (fresh s) = true) as Hfail by (by apply bool_decide_eq_true_2).
  assert (forall s1, is_Some (s_failure s1) -> s_handover s1 = None -> silent s1 = Some r -> Inert r) as Hs.
  { intros s1 H1 H2 E. apply (inj Some) in E as <-. by split_and!. }
  destruct op; cbn [source_step]; intros E; try (eapply Hs; [..|exact E]; done).
  - unfold on_captured, captured in E. rewrite Hfail in E. eapply outcome_inert; [exact E|done..].
  - unfold observe_pointer, pointer_polled in E. rewrite Hfail in E. eapply outcome_inert; [exact E|done..].
  - eapply outcome_inert; [exact E|..];
      (destruct (ignores _ _); [done|]; unfold observe_time; destruct (_ <? _); cbn [negb];
       [rewrite fail_again by done; done|]; destruct (_ || _); [rewrite fail_again by done; done|];
       unfold bind_ticket; destruct (s_state _); try (rewrite fail_again by done; done);
       repeat case_match; try done; rewrite fail_again by done; done).
  - eapply outcome_inert; [exact E|..];
      (destruct (ignores _ _); [done|]; unfold observe_time; destruct (_ <? _);
       rewrite fail_again by done; done).
  - unfold refuse_capture_activation in E. rewrite Hfail in E. eapply outcome_inert; [exact E|done..].
  - unfold observe_foreign_route in E. rewrite Hfail in E. eapply outcome_inert; [exact E|done..].
  - unfold abandon in E. rewrite Hfail in E. eapply outcome_inert; [exact E|done..].
  - unfold request_local in E. rewrite Hfail in E. eapply outcome_inert; [exact E|done..].
  - unfold source_tick, tick in E. rewrite Hfail in E. eapply outcome_inert; [exact E|done..].
  - unfold on_remote_frame, remote_frame in E. rewrite Hfail in E. eapply outcome_inert; [exact E|done..].
  - unfold accept_handover, handed_over in E. rewrite Hfail in E. eapply outcome_inert; [exact E|done..].
  - unfold suppression_budget in E. pose proof Hf as [g Hg]. rewrite Hg in E. eapply Hs; [..|exact E]; done.
Qed.

(** ** Every step keeps the invariant *)

Section Steps.
Context `{Libm} (v : PeerView) (s : SourceController).
Hypothesis HI : Inv v s.
Hypothesis Hlive : s_failure s = None.
#[local] Notation base := (base_of s).

Lemma live_alive : Alive base 0 v (fresh s).
Proof. by apply fresh_alive. Qed.
Lemma live_match : Match base 0 v s /\ at_rest s.
Proof. by apply HI. Qed.
Lemma live_failed : failed (fresh s) = false.
Proof. exact (alive_failed _ _ _ _ live_alive). Qed.

Lemma finish_settled m r :
  okm base 0 v m -> finish m = Some r -> Settled base v r.
Proof.
  intros Hm E. destruct m as [s1|]; [|done]. apply (inj Some) in E as <-. by apply outcome_inv, Hm.
Qed.

(** A step without effects. *)
Lemma silent_settled s1 r :
  silent s1 = Some r -> s_failure s1 = None -> s_handover s1 = None -> Match (base_of s1) 0 v s1 -> at_rest s1 ->
  Settled base v r.
Proof.
  intros E Hf Hh HM Hr. apply (inj Some) in E as <-. exists v. cbn. split; [done|]. split; [done|].
  rewrite Hf. by intros [].
Qed.

Lemma timed_settled now (body : SourceController -> SourceController) :
  (forall s1, Alive base 0 v s1 -> s1 = set_last_now (fresh s) now -> Ok_ base 0 v (body s1)) ->
  Settled base v
    (outcome (let '(s, ok) := observe_time (fresh s) now in if negb ok then s else body s)).
Proof.
  intros Hb. apply outcome_inv. pose proof (observe_time_good base 0 v (fresh s) now live_alive) as HG.
  unfold observe_time in *. destruct (now <? _); [by right|]. by apply Hb.
Qed.

Lemma bind_settled request ticket now : Settled base v (bind_capture_route s request ticket now).
Proof.
  unfold bind_capture_route, ignores. rewrite live_failed. cbn [andb].
  apply timed_settled. intros s1 HA _. destruct (_ || _); [right; by eapply alive_fail|by apply bind_ticket_ok].
Qed.
Lemma route_failed_settled request now : Settled base v (fail_capture_route_submission s request now).
Proof.
  unfold fail_capture_route_submission, ignores. rewrite live_failed. cbn [andb]. apply outcome_inv.
  pose proof (observe_time_good base 0 v (fresh s) now live_alive) as HG.
  unfold observe_time in *. destruct (now <? _); right; [exact HG|eapply alive_fail; exact HG].
Qed.
Lemma foreign_settled remote revision now : Settled base v (observe_foreign_route s remote revision now).
Proof.
  unfold observe_foreign_route. rewrite live_failed. apply timed_settled. intros s1 HA _.
  destruct (negb (is_local s1) || _) eqn:E; [right; by eapply alive_fail|].
  apply orb_false_elim in E as [E _]. apply negb_false_iff in E. left. by apply foreign_ok.
Qed.
Lemma abandon_settled now : Settled base v (abandon s now).
Proof.
  unfold abandon. rewrite live_failed. apply outcome_inv. right.
  pose proof live_alive as (w & HB & _)%alive_base. eapply (fail_dead _ _ w). exact HB.
Qed.
Lemma request_local_settled now : Settled base v (request_local s now).
Proof.
  unfold request_local. rewrite live_failed. apply outcome_inv.
  pose proof (observe_good base 0 v (fresh s) now live_alive) as HG.
  destruct (observe (fresh s) now) as [s1 []]; unfold good in HG; cbn [fst snd negb] in *; [|by right].
  destruct (s_state s1) eqn:Es; try by left. apply begin_return_ok; [done|]. by rewrite Es.
Qed.

Lemma match_not_native w s1 : Match base 0 w s1 -> Match base 0 (set_view_native w false) s1.
Proof.
  intros (Hn & Ht & Hr & Ha & Ho & Hh & Hmw & Hl & [Hk Hrt] & Hf).
  split; [exact Hn|]. split; [exact Ht|]. split; [exact Hr|]. split; [exact Ha|]. split; [exact Ho|]. by split_and!.
Qed.
Lemma refuse_settled request now :
  Settled base (if refused s request then set_view_native v false else v) (refuse_capture_activation s request now).
Proof.
  unfold refuse_capture_activation. rewrite live_failed. apply outcome_inv.
  set (v0 := if refused s request then _ else v).
  assert (Alive base 0 v0 (fresh s)) as HA.
  { destruct live_match as [HM _]. split; [exact Hlive|]. split; [cbn; lia|]. exists v0. split; [done|].
    subst v0. destruct (refused s request); [exact (match_not_native v s HM)|exact HM]. }
  pose proof (observe_time_good base 0 v0 (fresh s) now HA) as HG.
  unfold observe_time in *. destruct (now <? _); cbn [negb]; [by right|].
  assert (Ok_ base 0 v0 (fail (set_last_now (fresh s) now) SNativeControl)) as Hfail by (right; eapply alive_fail; exact HG).
  change (s_state (set_last_now (fresh s) now)) with (s_state s).
  unfold refused in v0. destruct (s_state s) as [| |b| | | |] eqn:Es; try done.
  destruct ((b_request b =? request) && _); [|done].
  apply begin_return_ok; [exact HG|]. unfold fresh. sx. rewrite Es. intros w [= <-]. done.
Qed.

Lemma handover_settled h now r :
  accept_handover s h now = Some r ->
  Settled base (match out_handover (snd r) with None => set_view_native v true | Some _ => v end) r.
Proof.
  unfold accept_handover. destruct (handed_over (fresh s) h now) as [s1|] eqn:E; [|done].
  intros E'. apply (inj Some) in E' as <-. destruct live_match as [HM _].
  rewrite outcome_handover. apply (handed_over_ok base v) in E; [|done..|exact (proj1 HI)].
  destruct E as [[-> HO]|[-> HO]]; by apply outcome_inv.
Qed.

Lemma budget_settled now r : silent (suppression_budget s now).1 = Some r -> Settled base v r.
Proof.
  destruct live_match as [HM HR]. pose proof (proj1 HI) as Hho. unfold suppression_budget. rewrite Hlive.
  intros E. destruct (now <? s_last_now s) eqn:En; [by eapply silent_settled; [exact E|..]|].
  apply Z.ltb_ge in En.
  assert (Match base 0 v (set_last_now s now)) as HM1.
  { destruct HM as (Hn & Ht & Hr & Ha & Ho & [H1 H2] & Hmw & Hl & Hk & Hf). split_and!; try done.
    split; [ux; lia|exact H2]. }
  destruct (is_held _) eqn:Eh; [by eapply silent_settled; [exact E|..]|].
  destruct (_ && _); [by eapply silent_settled; [exact E|..]|].
  apply is_held_false in Eh.
  assert (last_now (remaining (l_health (s_link (set_last_now s now))) now).1 <= now) as Hle.
  { destruct HM1 as (_ & _ & _ & _ & _ & [H1 _] & _). unfold remaining.
    destruct (health_check_cases _ now H1) as (h' & [[]|e] & -> & Hh); done. }
  destruct (remaining _ now) as [h res]. cbn [fst] in *.
  eapply silent_settled; [exact E|done..| |exact HR].
  destruct HM1 as (Hn & Ht & Hr & Ha & Ho & [H1 H2] & Hmw & Hl & Hk & Hf). split_and!; try done.
  split; [exact Hle|]. ux. rewrite Eh. by intros [].
Qed.

Lemma floor_settled word r :
  match f_claim (s_floor s) with Some c => bool_decide (state c = Requesting) | None => true end = true ->
  silent (set_floor_word s word) = Some r -> Settled base v r.
Proof.
  intros Hc E. destruct live_match as [(Hn & Ht & Hr & Ha & Ho & Hh & Hmw & Hl & Hk & Hf) HR].
  eapply silent_settled; [exact E|done|exact (proj1 HI)| |exact HR]. split_and!; try done.
  unfold floor_held in *. ux. destruct (f_claim (s_floor s)) as [c|]; [|done].
  destruct Hf as (_ & F2 & F3). apply bool_decide_eq_true in Hc. split_and!; try done. by right.
Qed.

Lemma live_step op r :
  may_happen v s op = true -> source_step s op = Some r -> Settled base (view_in v s op (snd r)) r.
Proof.
  intros Hm E. pose proof live_match as [HM HR]. pose proof (proj1 HI) as Hho.
  assert (forall s1, silent s1 = Some r -> s_failure s1 = None -> s_handover s1 = None ->
    Match (base_of s1) 0 v s1 -> at_rest s1 -> Settled base v r) as Hsil by (intros; by eapply silent_settled).
  destruct op; cbn [source_step view_in may_happen] in *.
  - eapply finish_settled; [|exact E]. apply captured_ok, live_alive.
  - eapply finish_settled; [|exact E]. apply pointer_polled_ok, live_alive.
  - apply (inj Some) in E as <-. apply bind_settled.
  - apply (inj Some) in E as <-. apply route_failed_settled.
  - apply (inj Some) in E as <-. apply refuse_settled.
  - apply (inj Some) in E as <-. apply foreign_settled.
  - apply (inj Some) in E as <-. apply abandon_settled.
  - apply (inj Some) in E as <-. apply request_local_settled.
  - apply (inj Some) in E as <-. apply outcome_inv, tick_ok, live_alive.
  - unfold on_remote_frame in E. destruct (remote_frame (fresh s) f now) as [s1|] eqn:Er; [|done].
    apply (inj Some) in E as <-. apply outcome_inv.
    by eapply (remote_frame_ok base v (fresh s) f now).
  - by eapply handover_settled.
  - by eapply Hsil; [exact E|..].
  - by eapply Hsil; [exact E|..].
  - by eapply budget_settled.
  - by eapply Hsil; [exact E|..].
  - by eapply floor_settled.
  - by eapply Hsil; [exact E|..].
Qed.
End Steps.

(** ** Starting *)

(** What setup leaves: at home, nothing claimed, nothing sent and nothing owed. *)
Definition Quiet (s : SourceController) : Prop :=
  s_failure s = None /\ s_handover s = None /\ is_local s = true /\ f_claim (s_floor s) = None
  /\ s_take_back s = false /\ o_epoch (s_out s) = base_of s /\ o_input_sequence (s_out s) = 0
  /\ waiting (o_pacer (s_out s)) = None /\ none_remote s /\ ledger_ok s
  /\ l_acks_pending (s_link s) = 0 /\ l_held_since (s_link s) = None
  /\ last_now (l_health (s_link s)) <= s_last_now s.

Lemma quiet_inv s : Quiet s -> Inv (start_view s) s.
Proof.
  intros (F & Hh & (t & c & Es)%is_local_state & Hc & _ & E1 & E2 & Hw & [N1 N2] & Hl & Hp & Hhe & Hn).
  split; [done|]. intros _. split; [|by intros _ _].
  split; [done|]. split. { unfold told. rewrite Es. done. }
  split. { unfold remote_held. by rewrite Es. }
  split. { unfold accepted_activation. by rewrite Es. }
  split. { unfold owes, releasing. rewrite Es, Hp, Hhe. cbn. lia. }
  split. { split; [done|]. rewrite Hhe. by intros []. }
  split. { unfold motion_waits. rewrite Hw. by intros []. }
  split; [done|]. split. { split; [done|]. unfold route_held. by rewrite Es. }
  unfold floor_held, is_home_state. by rewrite Hc, Es.
Qed.

Lemma new_source_quiet t m id ep next now c speed s :
  new_source t m id ep next now c speed = Ok s -> Quiet s.
Proof.
  unfold new_source. destruct (Topology.display t id); [|done]. destruct (negb _); [done|].
  destruct (new_ownership _ _); [|done]. intros [= <-]. unfold Quiet, ledger_ok. cbn.
  split_and!; try done; try lia; intros ? []%elem_of_empty.
Qed.

(** The ledger written while nothing is sent. *)
Lemma quiet_ledger s k :
  Quiet s -> k_remote_keys k = ∅ -> k_remote_buttons k = ∅ ->
  (forall u, u ∈ k_keys k -> usage_is_valid u = true) -> Quiet (set_ledger s k).
Proof.
  intros (F & Hh & Hloc & Hc & Htb & E1 & E2 & Hw & _ & _ & Hp & Hhe & Hn) K1 K2 K3.
  unfold Quiet, none_remote, ledger_ok. ux. rewrite K1, K2.
  split_and!; try done; intros ? []%elem_of_empty.
Qed.
Lemma quiet_parts s : Quiet s ->
  k_remote_keys (s_ledger s) = ∅ /\ k_remote_buttons (s_ledger s) = ∅
  /\ (forall u, u ∈ k_keys (s_ledger s) -> usage_is_valid u = true).
Proof. intros (_ & _ & _ & _ & _ & _ & _ & _ & [? ?] & [? _] & _). done. Qed.

Lemma quiet_outcome s s' out :
  Quiet s -> outcome s = (s', out) -> Quiet s'.
Proof.
  intros HQ. pose proof HQ as (F & Hh & Hloc & Hc & Htb & _ & _ & _ & _ & _ & Hp & _).
  unfold outcome, settle_outcome. assert (failed s = false) as -> by (unfold failed; by rewrite F).
  rewrite Htb, Hloc, Hp. cbn [andb Z.eqb]. unfold release_floor. cbv zeta. sg. rewrite Hc.
  intros [= <- _]. destruct HQ as (? & ? & ? & ? & ? & ? & ? & ? & ? & ? & ? & ? & ?). by split_and!.
Qed.

Lemma fail_failed s f : is_Some (s_failure (fail s f)).
Proof.
  unfold fail. destruct (s_failure s) eqn:Ef; [rewrite Ef; eauto|].
  unfold restore_on_failure, release_on_failure, try_effect. repeat case_match; eauto.
Qed.
Lemma check_ok_clock h now h' : check h now = (h', Ok ()) -> last_now h' = now.
Proof.
  unfold check, latched, SessionHealth.advance, SessionHealth.fail. intros E.
  destruct (failure h) eqn:Ef; [done|]. cbn in E.
  destruct (now <? last_now h); [by rewrite Ef in E|]. cbn in E. rewrite ?Ef in E.
  repeat case_match; simplify_eq; done.
Qed.

Lemma started_quiet `{Libm} s : Started s -> Quiet s.
Proof.
  induction 1 as [t m id ep next now c speed s Hn|t m id rc c speed s Hn|s w en _ IH|s p sl s' _ IH Hp|s p _ IH|s o _ IH
    |s i _ IH|s r _ IH|s keys buttons route ready s' _ IH Hs|s r s' out _ IH Hb Hf|s earlier _ IH _ IHe].
  - by eapply new_source_quiet.
  - unfold after_startup in Hn. destruct (check (rc_health rc) (rc_now rc)) as [h [[]|e]] eqn:Ec; [|done].
    destruct (new_source _ _ _ _ _ _ _ _) as [s0|] eqn:En; [|done]. injection Hn as <-.
    apply new_source_quiet in En as (F & Hh & Hloc & Hc & Htb & E1 & E2 & Hw & N & Hl & Hp & Hhe & _).
    apply check_ok_clock in Ec.
    split; [exact F|]. split; [exact Hh|]. split; [exact Hloc|]. split; [exact Hc|]. split; [exact Htb|].
    split; [exact E1|]. split; [exact E2|]. split; [exact Hw|]. split; [exact N|]. split; [exact Hl|].
    split; [exact Hp|]. split; [exact Hhe|]. change (last_now h <= rc_now rc). lia.
  - exact IH.
  - unfold with_peer in Hp. destruct (_ || _); [done|]. injection Hp as <-. exact IH.
  - exact IH.
  - exact IH.
  - exact IH.
  - exact IH.
  - unfold seed_from_group in Hs. pose proof IH as (F & _). rewrite F in Hs.
    destruct (_ || _); [done|]. destruct route as [remote revision]. destruct (_ || _); [done|].
    destruct (existsb _ _) eqn:Ee; [done|]. injection Hs as <-.
    destruct (quiet_parts s IH) as (K1 & K2 & K3).
    assert (forall u, u ∈ (list_to_set keys : gset Z) -> usage_is_valid u = true) as Hk.
    { intros u Hu%elem_of_list_to_set. destruct (usage_is_valid u) eqn:Eu; [done|].
      rewrite <- not_true_iff_false in Ee. exfalso. apply Ee, existsb_exists. exists u.
      split; [by apply list_elem_of_In|by rewrite Eu]. }
    exact (quiet_ledger s (mkLedger (list_to_set keys) (k_remote_keys (s_ledger s))
      (list_to_set (button_index <$> buttons)) (k_remote_buttons (s_ledger s)) (k_remote_clicks (s_ledger s))
      (k_clicks (s_ledger s))) IH K1 K2 Hk).
  - destruct (quiet_parts s IH) as (K1 & K2 & K3). unfold bookkeeping in Hb.
    destruct (book (fresh s) r) as [s1|] eqn:Eb; [|done].
    assert (Quiet (fresh s)) as HQ by exact IH.
    assert (failed s1 = false -> Quiet s1) as HQ1.
    { unfold book in Eb. destruct (event r); cbn [apply_local] in Eb; try (injection Eb as <-; done).
      destruct (update_key_cases (fresh s) usage pressed repeat modifiers) as (K & [c|] & Hu & HK & _);
          rewrite Hu in Eb; apply (inj Some) in Eb as <-.
        + intros _. eapply (quiet_ledger (fresh s)); [done..|]. intros u Hu'.
          destruct (HK u Hu') as [[-> ?]|?]; auto.
        + intros Hx. exfalso. unfold failed in Hx. apply bool_decide_eq_false in Hx. apply Hx, fail_failed. }
    apply (inj Some) in Hb.
    assert (failed s1 = false) as Hf1.
    { destruct (failed s1) eqn:Ef; [|done]. unfold outcome, settle_outcome in Hb. rewrite Ef in Hb.
      apply (f_equal (fun x => out_failure (snd x))) in Hb. cbn in Hb. rewrite Hf in Hb.
      unfold failed in Ef. rewrite Hb in Ef. done. }
    eapply quiet_outcome; [by apply HQ1|done].
  - destruct (quiet_parts earlier IHe) as (K1 & K2 & K3).
    by apply (quiet_ledger s (mkLedger (k_keys (s_ledger earlier)) (k_remote_keys (s_ledger earlier))
      (k_buttons (s_ledger earlier)) (k_remote_buttons (s_ledger earlier)) (k_remote_clicks (s_ledger earlier))
      (k_clicks (s_ledger s)))).
Qed.

(** ** Runs *)

Lemma run_inv `{Libm} v s : Run v s -> Inv v s.
Proof.
  induction 1 as [s Hs|v s op s' out v' _ IH Hm Hst Hv]; [by apply quiet_inv, started_quiet|].
  destruct (s_failure s) as [f|] eqn:Ef.
  - destruct (failed_inert s op (s', out)) as (_ & [g Hg] & Hh); [rewrite Ef; eauto|exact (proj1 IH)|done|].
    split; [exact Hh|]. cbn [fst] in Hg. congruence.
  - destruct (live_step v s IH Ef op (s', out) Hm Hst) as (w & Hr & HI & _). cbn [fst snd] in *.
    unfold view_step in Hv. unfold base_of in Hr. rewrite Hr in Hv. cbn in Hv. by simplify_eq.
Qed.

(** Every step of a run has its view. *)
Lemma run_next `{Libm} v s op s' out :
  Run v s -> may_happen v s op = true -> source_step s op = Some (s', out) ->
  exists v', view_step v s op out = Some v' /\ Run v' s'.
Proof.
  intros HR Hm Hst. pose proof (run_inv v s HR) as HI. cut (exists v', view_step v s op out = Some v').
  { intros [v' Hv]. exists v'. split; [done|]. by eapply run_step. }
  unfold view_step. destruct (s_failure s) as [f|] eqn:Ef.
  - destruct (failed_inert s op (s', out)) as (He & _); [rewrite Ef; eauto|exact (proj1 HI)|done|].
    cbn [snd] in He. rewrite He. cbn. eauto.
  - destruct (live_step v s HI Ef op (s', out) Hm Hst) as (w & Hr & _). cbn [snd] in Hr.
    unfold base_of in Hr. rewrite Hr. cbn. eauto.
Qed.

(** A list of steps run one after another. *)
Fixpoint run_ops `{Libm} (ops : list SourceOp) (v : PeerView) (s : SourceController)
  : option (PeerView * SourceController) :=
  match ops with
  | [] => Some (v, s)
  | op :: ops =>
      if may_happen v s op then
        '(s', out) ← source_step s op;
        v' ← view_step v s op out;
        run_ops ops v' s'
      else None
  end.
Lemma run_ops_sound `{Libm} ops : forall v s v' s',
  Run v s -> run_ops ops v s = Some (v', s') -> Run v' s'.
Proof.
  induction ops as [|op ops IH]; intros v s v' s' HR; cbn [run_ops]; [by intros [= <- <-]|].
  destruct (may_happen v s op) eqn:Em; [|done].
  destruct (source_step s op) as [[s1 out]|] eqn:Es; [|done]. cbn [mbind option_bind].
  destruct (view_step v s op out) as [v1|] eqn:Ev; [|done]. cbn [mbind option_bind].
  apply IH. by eapply run_step.
Qed.
