(* ===== verification/SourceTotal.v ===== *)
(** * The source controller does not panic (session_source.rs)

    The only panics of the controller are those of [f64::clamp], on the bounds of
    a display.  On a topology that [Topology::new] accepted and whose displays
    have room for what is clamped to them ([Roomy]), every call returns, in every
    state. *)

From stdpp Require Import gmap.
From S2P Require Import Prelude F64 Types Geometry Topology Floor Messages Sequence Ownership Clicks.
From S2P Require Import SessionPacer SessionHealth SessionQuality SourceEdges SourceState HeldInput.
From S2P Require Import Source SourceKept SourceSafety SourceRemote SourceCalls.

(** The bounds that [clamp_half_open] and [inside_of] pass to [f64::clamp] are in
    order. *)
Definition clamps (r : LogicalRect) : bool :=
  f64_leb (px (rect_origin r)) (f64_next_down (max_x r))
  && f64_leb (py (rect_origin r)) (f64_next_down (max_y r)).
Definition display_clamps (offset : Point) (d : Display) : bool :=
  clamps (bounds d) && clamps (mkRect (point_sub (rect_origin (bounds d)) offset) (rect_size (bounds d)))
  && f64_leb (px (rect_origin (bounds d))) (f64_sub (max_x (bounds d)) (x_step d))
  && f64_leb (py (rect_origin (bounds d))) (f64_sub (max_y (bounds d)) (y_step d)).
Definition displays_clamp (c : SourceConfig) : bool :=
  forallb (display_clamps (c_peer_offset c)) (snd <$> map_to_list (displays (c_topology c))).

(** Motion is resolved on the topology, and its displays have room. *)
Definition Roomy (c : SourceConfig) : Prop :=
  (forall source p q, is_Some (transition_for_motion (c_topology c) source p q))
  /\ (forall id d, displays (c_topology c) !! id = Some d -> display_clamps (c_peer_offset c) d = true).

Lemma roomy_intro ms ds ls (c : SourceConfig) :
  Topology.new_topology ms ds ls = Ok (c_topology c) -> Forall is_display ds -> Forall is_link ls ->
  displays_clamp c = true -> Roomy c.
Proof.
  intros Ht Hd Hl Hc. split; [intros; by eapply transition_for_motion_total|].
  intros id d Hd'. unfold displays_clamp in Hc. rewrite forallb_forall in Hc. apply Hc.
  apply list_elem_of_In, list_elem_of_fmap. exists (id, d). split; [done|]. by apply elem_of_map_to_list.
Qed.

(** ** Totality *)

Lemma bind_total {A B} (m : option A) (f : A -> option B) :
  is_Some m -> (forall x, m = Some x -> is_Some (f x)) -> is_Some (x ← m; f x).
Proof. intros [x ->] H. by apply H. Qed.

Lemma clamp_total x lo hi : f64_leb lo hi = true -> is_Some (f64_clamp x lo hi).
Proof. intros H. unfold f64_clamp. rewrite H. eauto. Qed.
Lemma clamp_rect_total r p : clamps r = true -> is_Some (clamp_half_open r p).
Proof.
  intros [H1 H2]%andb_true_iff. unfold clamp_half_open.
  apply bind_total; [by apply clamp_total|]. intros x _.
  apply bind_total; [by apply clamp_total|]. eauto.
Qed.

Create HintDb total.
Section Total.
Context `{Libm}.

(** The goal [is_Some (...)] by cases on what the code tests, and on the calls
    that are known to return. *)
Ltac total :=
  repeat first
    [ done
    | match goal with
      | |- is_Some (Some _) => by eexists
      | |- is_Some (mbind _ _) => apply bind_total; [|intros ? ?]
      | |- is_Some (if ?b then _ else _) => destruct b
      | |- is_Some (match ?x with _ => _ end) => destruct x
      end
    | eauto with total ].

Lemma display_room s id d :
  Roomy (s_config s) -> display_at s id = Some d ->
  clamps (bounds d) = true
  /\ clamps (mkRect (point_sub (rect_origin (bounds d)) (c_peer_offset (s_config s))) (rect_size (bounds d))) = true
  /\ f64_leb (px (rect_origin (bounds d))) (f64_sub (max_x (bounds d)) (x_step d)) = true
  /\ f64_leb (py (rect_origin (bounds d))) (f64_sub (max_y (bounds d)) (y_step d)) = true.
Proof.
  intros [_ Hr] Hd. specialize (Hr id d Hd). unfold display_clamps in Hr. rewrite !andb_true_iff in Hr. tauto.
Qed.
Lemma inside_display_total s id p : Roomy (s_config s) -> is_Some (inside_display s id p).
Proof.
  intros Hr. unfold inside_display. destruct (display_at s id) as [d|] eqn:Ed; [|eauto].
  destruct (display_room s id d Hr Ed) as (_ & _ & H1 & H2). unfold inside_of.
  apply bind_total; [|eauto]. apply bind_total; [by apply clamp_total|]. intros x _.
  apply bind_total; [by apply clamp_total|]. eauto.
Qed.
Lemma peer_point_total s id p : Roomy (s_config s) -> is_Some (peer_point s id p).
Proof.
  intros Hr. unfold peer_point. cbv zeta. destruct (display_at s id) as [d|] eqn:Ed; [|eauto].
  apply clamp_rect_total. by destruct (display_room s id d Hr Ed) as (_ & ? & _).
Qed.
Lemma clamp_display_total s id d p :
  Roomy (s_config s) -> display_at s id = Some d -> is_Some (clamp_half_open (bounds d) p).
Proof. intros Hr Hd. apply clamp_rect_total. by destruct (display_room s id d Hr Hd) as (? & _). Qed.
Lemma motion_total s id p q :
  Roomy (s_config s) -> is_Some (transition_for_motion (topology_of s) id p q).
Proof. intros [Hr _]. apply Hr. Qed.
#[local] Hint Resolve inside_display_total peer_point_total motion_total : total.

Lemma carried_on_total s id p c : Roomy (s_config s) -> is_Some (carried_on s id p c).
Proof. intros Hr. unfold carried_on. total. Qed.
Lemma try_edges_total s id d a tw g onto es :
  Roomy (s_config s) -> is_Some (try_edges s id d a tw g onto es).
Proof.
  intros Hr. induction es as [|e es IH]; cbn [try_edges]; [eauto|]. destruct (_ || _ || _); [done|].
  destruct (seam_hysteresis s id e); [|done]. apply bind_total; [by apply motion_total|].
  intros [[t|]|] _; [destruct (onto t); eauto|done|eauto].
Qed.
#[local] Hint Resolve carried_on_total try_edges_total : total.
Lemma linked_edge_total s id a tw g onto : Roomy (s_config s) -> is_Some (linked_edge s id a tw g onto).
Proof. intros Hr. unfold linked_edge. cbv zeta. total. Qed.
Lemma carried_into_total s t b g sp : Roomy (s_config s) -> is_Some (carried_into s t b g sp).
Proof. intros Hr. unfold carried_into. cbv zeta. destruct (f64_ltb _ _); [|eauto]. total. Qed.
#[local] Hint Resolve linked_edge_total carried_into_total : total.

Lemma open_activation_total s a e : Roomy (s_config s) -> is_Some (open_activation s a e).
Proof. intros Hr. unfold open_activation. cbv zeta. apply bind_total; [|eauto]. apply peer_point_total. by destruct (a_already_remote a). Qed.
Lemma begin_activation_total s t p e rt rp al :
  Roomy (s_config s) -> is_Some (begin_remote_activation s t p e rt rp al).
Proof.
  intros Hr. unfold begin_remote_activation. destruct (kept_begin_ownership s t) as (K1 & _).
  destruct (begin_ownership_transition s t) as [s1 [ep|]]; [|eauto]. cbn [fst] in K1.
  destruct (checked_add_u64 _ 1); [|eauto]. destruct (kept_flush_motion s1) as (K2 & _).
  destruct (flush_motion s1) as [s2 []]; cbn [negb fst] in *; [|eauto].
  apply open_activation_total. change (Roomy (s_config s2)). by rewrite K2, K1.
Qed.
Lemma cross_to_peer_total s from t tr rp : Roomy (s_config s) -> is_Some (cross_to_peer s from t tr rp).
Proof.
  intros Hr. unfold cross_to_peer. destruct (_ || _ || _); [eauto|].
  destruct (local_crossing_fields s) as (fs & Hfs & _). destruct (local_crossing_allowed s) as [s1 b].
  cbn [fst] in Hfs. subst s1. destruct (negb b); [eauto|]. destruct (c_pointer_confined _); [eauto|].
  destruct (declined_retry_fields (set_floor s fs) from t) as (de & Hde).
  destruct (declined_retry _ from t) as [s2 r]. cbn [fst] in Hde. subst s2. destruct (negb r); [eauto|].
  destruct (floor_claim _ _ _ _) as [f []]; [|eauto]. by apply begin_activation_total.
Qed.
Lemma begin_edge_total s from t : Roomy (s_config s) -> is_Some (begin_edge_transition s from t).
Proof.
  intros Hr. unfold begin_edge_transition. destruct (machine_for_display _ _); [|eauto].
  case_bool_decide; [eauto|]. apply bind_total; [by apply inside_display_total|].
  intros [q|] _; [by apply cross_to_peer_total|eauto].
Qed.
#[local] Hint Resolve begin_activation_total begin_edge_total : total.

(** *** Motion *)

Lemma push_absolute_total s t c p now e tr : Roomy (s_config s) -> is_Some (push_absolute s t c p now e tr).
Proof.
  intros Hr. unfold push_absolute. destruct (display_at s _); [|eauto]. destruct (push_to _ _ _ _ _ _ _) as [ps [b|]]; [|eauto].
  apply bind_total; [by apply carried_into_total|]. intros. by apply begin_edge_total.
Qed.
Lemma press_seam_total s t c a p now g : Roomy (s_config s) -> is_Some (press_seam s t c a p now g).
Proof.
  intros Hr. unfold press_seam. cbv zeta. apply bind_total; [by apply linked_edge_total|].
  intros [[[e tr]|]|] _; eauto. destruct (is_home_display _ _); [eauto|]. by apply push_absolute_total.
Qed.
Lemma move_local_total s t c pr a p now g : Roomy (s_config s) -> is_Some (move_local s t c pr a p now g).
Proof.
  intros Hr. unfold move_local. apply bind_total; [destruct pr; eauto with total|].
  intros [[tr|]|] _; [|by apply press_seam_total|eauto].
  destruct (is_home_display _ _); [by apply begin_edge_total|by apply press_seam_total].
Qed.
Lemma local_motion_total s p now : Roomy (s_config s) -> is_Some (apply_local_motion s p now).
Proof.
  intros Hr. unfold apply_local_motion. destruct (s_state s); eauto.
  destruct (guarded_fields s (Ownership.display target) p) as (e & He).
  destruct (guarded_entry_edge s _ p) as [s1 g]. cbn [fst] in He. subst s1.
  destruct (note_pressing_fields (set_edges s e) p) as (de & ->).
  destruct (local_target_at _ p) as [[found|]|]; [| |eauto].
  - case_bool_decide; [by apply move_local_total|eauto].
  - apply bind_total; [by apply inside_display_total|]. intros. by apply move_local_total.
Qed.
Lemma local_relative_total s m now : Roomy (s_config s) -> is_Some (apply_local_relative s m now).
Proof.
  intros Hr. unfold apply_local_relative. cbv zeta. destruct (s_state _) as [t [a|]| | | | | |]; eauto.
  set (s1 := set_edge_pushes _ _). destruct (guarded_fields s1 (Ownership.display t) a) as (e & He).
  destruct (guarded_entry_edge s1 _ a) as [s2 g]. cbn [fst] in He. subst s2.
  apply bind_total; [by apply linked_edge_total|]. intros [[[e' tr]|]|] _; eauto.
  destruct (is_home_display _ _); [by apply begin_edge_total|].
  destruct (push_by _ _ _ _ _ _) as [ps [b|]]; [|eauto].
  apply bind_total; [by apply carried_into_total|]. intros. by apply begin_edge_total.
Qed.
Lemma carry_pending_config s m : s_config (carry_pending s m).1 = s_config s.
Proof. unfold carry_pending. destruct (s_state s) as [| | | |r| |]; try done. by destruct (rl_carried r). Qed.
Lemma apply_local_total s i now : Roomy (s_config s) -> is_Some (apply_local s i now).
Proof.
  intros Hr. destruct i; cbn [apply_local]; eauto.
  - destruct (update_key _ _ _ _ _); eauto.
  - by apply local_motion_total.
  - pose proof (carry_pending_config s (relative s delta gain)) as Hc.
    destruct (carry_pending s _) as [s1 []]; [eauto|]. apply local_relative_total. cbn [fst] in Hc. by rewrite Hc.
Qed.

Lemma remote_edge_total s from rt rp t : Roomy (s_config s) -> is_Some (apply_remote_edge s from rt rp t).
Proof.
  intros Hr. unfold apply_remote_edge. destruct (machine_for_display _ _); [|eauto].
  case_bool_decide; [eauto|]. case_bool_decide; [by apply begin_activation_total|]. destruct (_ && _); eauto.
Qed.
Lemma move_remote_total s t p q rt rp : Roomy (s_config s) -> is_Some (move_remote s t p q rt rp).
Proof.
  intros Hr. unfold move_remote. cbv zeta. destruct (point_eqb q p); [eauto|].
  apply bind_total; [by apply peer_point_total|eauto].
Qed.
Lemma route_remote_total s m now t p ds nx rt rp b onward seam home :
  Roomy (s_config s) -> is_Some (route_remote s m now t p ds nx rt rp b onward seam home).
Proof.
  intros Hr. unfold route_remote. cbv zeta.
  match goal with |- context [if ?b then None else onward] => destruct (if b then None else onward) as [[e tr]|] end.
  { apply bind_total; [by apply remote_edge_total|eauto]. }
  assert (exists ps cr, push_remote s m now seam t = (set_edge_pushes s ps, cr)) as (ps & cr & ->).
  { unfold push_remote. destruct seam as [[e tr]|]; [destruct (push_by _ _ _ _ _ _); eauto|].
    exists (e_pushes (s_edges s)), None. reflexivity. }
  destruct cr as [[tr beyond]|]; [|by apply move_remote_total].
  apply bind_total; [by apply carried_into_total|]. intros. by apply remote_edge_total.
Qed.
Lemma remote_motion_total s m now : Roomy (s_config s) -> is_Some (apply_remote_motion s m now).
Proof.
  intros Hr. unfold apply_remote_motion. destruct (s_state s) as [| | |t p rt rp| | |]; eauto. cbv zeta.
  set (s1 := add_recent s _ now). assert (Roomy (s_config s1)) as Hr1 by exact Hr. clearbody s1.
  destruct (display_at s1 _) as [d|] eqn:Ed; [|eauto]. destruct (negb _); [eauto|].
  destruct (guarded_fields s1 (Ownership.display t) p) as (e & He).
  destruct (guarded_entry_edge s1 _ p) as [s2 g]. cbn [fst] in He. subst s2.
  apply bind_total; [by eapply clamp_display_total|]. intros nx _.
  apply bind_total; [by apply linked_edge_total|]. intros onward _.
  apply bind_total; [by apply linked_edge_total|]. intros seam _.
  apply bind_total; [by apply linked_edge_total|]. intros home _.
  destruct onward; [|eauto]. destruct seam; [|eauto]. destruct home; [|eauto]. by apply route_remote_total.
Qed.
Lemma apply_remote_total s i now : Roomy (s_config s) -> is_Some (apply_remote s i now).
Proof.
  intros Hr. destruct i; cbn [apply_remote]; eauto. cbv zeta.
  destruct (forwarding s); [by apply remote_motion_total|eauto].
Qed.

(** *** Calls *)

Lemma route_changed_total s remote revision : Roomy (s_config s) -> is_Some (on_route_changed s remote revision).
Proof.
  intros Hr. unfold on_route_changed. destruct (s_state s) as [| |b| | | |]; eauto; [|destruct (_ && _); eauto].
  destruct (remote && _); [|eauto]. set (s1 := set_route s _). destruct (kept_transfer s1) as (K & _).
  assert (Roomy (s_config (transfer_to_remote s1))) as Hr1 by (by rewrite K).
  set (s2 := transfer_to_remote s1) in *. clearbody s2.
  apply bind_total; [by apply carried_on_total|]. intros q _. destruct (failed s2); [eauto|].
  destruct (point_eqb _ _); [eauto|]. apply bind_total; [by apply peer_point_total|eauto].
Qed.
Lemma observed_roomy s now : Roomy (s_config s) -> Roomy (s_config (observe s now).1).
Proof. intros Hr. by destruct (observe_fields s now) as (-> & _). Qed.
Lemma permitted_config s r : s_config (motion_permitted s r).1 = s_config s.
Proof.
  unfold motion_permitted. destruct (local_crossing_fields s) as (fs & Hfs & _).
  assert (s_config (local_crossing_allowed s).1 = s_config s) as E by (by rewrite Hfs).
  destruct (local_crossing_allowed s) as [s1 allowed].
  destruct (event r); try done; destruct (carries_pending_motion s); try done;
    destruct (cr_remote (s_route s)); done.
Qed.
Lemma captured_total s r now : Roomy (s_config s) -> is_Some (captured s r now).
Proof.
  intros Hr. unfold captured. destruct (failed s); [eauto|]. pose proof (observed_roomy s now Hr) as H1.
  destruct (observe s now) as [s1 ok]. cbn [fst] in H1. destruct (_ || _); [eauto|].
  assert (is_Some
    (if negb (Bool.eqb (tag_remote r) (cr_remote (s_route s1)))
        || negb (routing_revision r =? cr_revision (s_route s1))
     then Some (fail s1 SRouteMismatch)
     else
       let '(s, permitted) := motion_permitted s1 r in
       if negb permitted then Some s
       else if cr_remote (s_route s) then apply_remote s (event r) now else apply_local s (event r) now)) as Hin.
  { destruct (_ || _); [eauto|]. pose proof (permitted_config s1 r) as Hc.
    destruct (motion_permitted s1 r) as [s2 []]; cbn [negb fst] in *; [|eauto]. rewrite <- Hc in H1.
    destruct (cr_remote (s_route s2)); [by apply apply_remote_total|by apply apply_local_total]. }
  destruct (event r); try exact Hin. clear Hin. destruct (_ || _); [eauto|]. by apply route_changed_total.
Qed.
Lemma poll_pointer_total s p now : Roomy (s_config s) -> is_Some (poll_pointer s p now).
Proof.
  intros Hr. unfold poll_pointer. destruct (local_crossing_fields s) as (fs & Hfs & _).
  destruct (local_crossing_allowed s) as [s1 b]. cbn [fst] in Hfs.
  assert (Roomy (s_config s1)) as Hr1 by (by subst). clear Hfs. destruct (_ && _).
  - apply bind_total; [|eauto]. destruct (local_target_at s1 p) as [[t|]|]; destruct (s_state s1) as [o c| | | | | |]; eauto;
      (apply bind_total; [by apply inside_display_total|eauto]).
  - destruct b; [by apply local_motion_total|eauto].
Qed.
Lemma pointer_polled_total s p now : Roomy (s_config s) -> is_Some (pointer_polled s p now).
Proof.
  intros Hr. unfold pointer_polled. destruct (_ || _); [eauto|]. pose proof (observed_roomy s now Hr) as H1.
  destruct (observe s now) as [s1 ok]. cbn [fst] in H1. destruct (negb ok); [eauto|].
  destruct (_ && _); [by apply poll_pointer_total|eauto].
Qed.

Lemma land_reanchored_total s a : Roomy (s_config s) -> is_Some (land_reanchored s a).
Proof.
  intros Hr. unfold land_reanchored. cbv zeta. destruct (display_at s _) as [d|] eqn:Ed; [|eauto].
  apply bind_total; [by eapply clamp_display_total|]. intros q _.
  apply bind_total; [by eapply clamp_display_total|]. intros r _.
  apply bind_total. { destruct (point_eqb _ _); [eauto|]. apply bind_total; [by apply peer_point_total|eauto]. }
  intros s1 Hs1. assert (Roomy (s_config s1)) as Hr1.
  { destruct (point_eqb _ _); [by injection Hs1 as <-|]. destruct (peer_point _ _ _) as [z|]; [|done].
    apply (inj Some) in Hs1 as <-. by destruct (kept_push_input s (MsgMotion (Absolute z))) as (-> & _). }
  set (s2 := if a_handover a then transfer_to_remote s1 else synchronize_reanchored_remote_input s1).
  assert (Roomy (s_config s2)) as Hr2.
  { subst s2. destruct (a_handover a); [by destruct (kept_transfer s1) as (-> & _)|by destruct (kept_synchronize s1) as (-> & _)]. }
  clearbody s2. apply bind_total; [|eauto]. destruct (_ || _); [eauto|].
  apply bind_total; [by apply peer_point_total|eauto].
Qed.
Lemma on_activated_total s a : Roomy (s_config s) -> is_Some (on_activated s a).
Proof.
  intros Hr. unfold on_activated. set (s1 := landed s).
  match goal with |- is_Some (let '(s, ok) := ?x in _) => assert (s_config x.1 = s_config s) as Hc end.
  { destruct (a_already_remote a); [done|]. destruct (f_claim (s_floor s1)) as [c|]; [|done].
    unfold move_claim. destruct (floor_transition _ _ _) as [w []]; done. }
  match goal with |- is_Some (let '(s, ok) := ?x in _) => destruct x as [s2 ok] end. cbn [fst] in Hc.
  destruct (negb ok); [eauto|].
  destruct (acknowledge_cases s2 (a_target a) (a_ownership_epoch a)) as (own & ok' & ->).
  destruct (negb ok'); [eauto|]. destruct (a_already_remote a); [|eauto].
  apply land_reanchored_total. change (Roomy (s_config s2)). by rewrite Hc.
Qed.
Lemma restore_local_total s r : Roomy (s_config s) -> is_Some (restore_local s r).
Proof. intros Hr. unfold restore_local. apply bind_total; [by apply carried_on_total|eauto]. Qed.
Lemma state_frame_total s f now : Roomy (s_config s) -> is_Some (on_state_frame s f now).
Proof.
  intros Hr. unfold on_state_frame. destruct (is_held s); [eauto|]. destruct (s_state s) as [|a| | |r| |]; eauto.
  - unfold on_activation_reply. cbv zeta. destruct (_ || _); [eauto|].
    destruct (open_epoch_in s (epoch f)) as (i & b & ->). destruct (negb b); [eauto|].
    destruct (accept_sequence_in (set_in s i) (sequence f)) as (i' & b' & ->). destruct (negb b'); [eauto|].
    match goal with |- is_Some (if ?x then _ else _) => destruct x end; [eauto|]. by apply on_activated_total.
  - unfold on_release_ack. destruct (_ || _); [eauto|].
    destruct (accept_sequence_in s (sequence f)) as (i & b & ->). destruct (negb b); [eauto|].
    unfold complete_remote_release.
    assert (exists own ok, (match rl_ownership_epoch r with Some ep => acknowledge (set_in s i) (rl_local r) ep
      | None => (set_in s i, true) end) = (set_ownership (set_in s i) own, ok)) as (own & ok & ->).
    { destruct (rl_ownership_epoch r); [apply acknowledge_cases|]. exists (s_ownership s), true. reflexivity. }
    destruct (negb ok); [eauto|]. destruct (rl_handover r); [eauto|]. by apply restore_local_total.
Qed.
Lemma remote_frame_total s f now : Roomy (s_config s) -> is_Some (remote_frame s f now).
Proof.
  intros Hr. unfold remote_frame. destruct (failed s); [eauto|]. pose proof (observed_roomy s now Hr) as H1.
  destruct (observe s now) as [s1 ok]. cbn [fst] in H1. destruct (negb ok); [eauto|].
  destruct (allow_at _ _) as [l r]. destruct (negb _); [eauto|]. unfold dispatch_frame.
  assert (is_Some (if is_barrier_ack (set_limiter s1 l) (message f)
    then Some (on_barrier_ack (set_limiter s1 l) f now) else on_state_frame (set_limiter s1 l) f now)) as Hx.
  { destruct (is_barrier_ack _ _); [eauto|]. by apply state_frame_total. }
  destruct (message f); try exact Hx; eauto.
Qed.
Lemma handed_over_total s h now : Roomy (s_config s) -> is_Some (handed_over s h now).
Proof.
  intros Hr. unfold handed_over.
  match goal with |- is_Some (let '(s, ok) := ?x in _) => assert (Roomy (s_config x.1)) as Hc end.
  { destruct (failed s); [done|]. by apply observed_roomy. }
  match goal with |- is_Some (let '(s, ok) := ?x in _) => destruct x as [s1 ok] end. cbn [fst] in Hc.
  destruct (_ && _); [|eauto]. destruct (floor_hand_over _ _ _) as [w [t|]]; [|eauto].
  unfold start_handover. cbv zeta. apply bind_total; [by apply begin_activation_total|eauto].
Qed.
End Total.
