(* ===== verification/SourceTheorems.v ===== *)
(** * Theorems of the source controller (session_source.rs)

    What a source sends over its life is what its peer has to accept; nothing is
    left down at the peer; the floor is claimed as the state says; a failure asks
    native capture home; no call panics.  The witnesses are runs of the left one of
    two computers side by side: out through the right edge, a key there, and home. *)

From stdpp Require Import gmap.
From S2P Require Import Prelude F64 Types Geometry Topology Floor Messages Sequence Ownership Clicks.
From S2P Require Import SessionPacer SessionHealth SessionQuality SourceEdges SourceState HeldInput.
From S2P Require Import Source SourceKept SourceStream SourceSafety SourceRemote SourceCalls SourceSystem.
From S2P Require Import SourceTotal.

(** ** A trip to the peer *)

#[local] Instance sample_libm : Libm :=
  mkLibm (fun x => if f64_eqb x f64_zero then f64_one else f64_zero) (fun _ _ => f64_one).

(** Runs of the computer on the left of the two of [sample_topology]. *)
Definition sample_run (ops : list SourceOp) : option (PeerView * SourceController) :=
  match new_source sample_topology (replicate 16 1) 1 5 0 0 false 0 with
  | Ok s => run_ops ops (start_view s) s
  | Err _ => None
  end.
Lemma sample_run_sound ops v s : sample_run ops = Some (v, s) -> Run v s.
Proof.
  unfold sample_run. destruct (new_source _ _ _ _ _ _ _ _) as [s0|] eqn:E; [|done].
  apply run_ops_sound. by eapply run_start, started_new.
Qed.

Definition at_home (i : NormalizedInput) : TaggedInput := mkTagged i 0 false 1.
(** The pointer is pushed through the right edge, the peer accepts, and native
    capture goes remote. *)
Definition trip_out : list SourceOp :=
  [CallCaptured (at_home (AbsoluteMotion (mkPoint (f64_of_Z 1919) (f64_of_Z 500)))) (ms 1);
   CallCaptured (at_home (RelativeMotion (mkPoint (f64_of_Z 300) f64_zero) f64_one)) (ms 2);
   CallFrame (mkFrame 6 0 (MsgActivationAck 2) Connection) (ms 3);
   CallBind 1 1 (ms 4);
   CallCaptured (mkTagged (RouteChanged true 1) 1 true 1) (ms 5)].
(** The A key is pressed there. *)
Definition press_a : SourceOp := CallCaptured (mkTagged (InKeyEvent 4 true false 0) 1 true 1) (ms 6).
Definition trip_home : list SourceOp :=
  [CallRequestLocal (ms 8); CallFrame (mkFrame 6 1 MsgReleaseAck Connection) (ms 9);
   CallBind 2 2 (ms 10); CallCaptured (mkTagged (RouteChanged false 2) 2 false 1) (ms 11)].

(** The peer's second display, to the right of the first. *)
Definition wide_displays : list Display := sample_displays ++ [sample_display 3 (replicate 16 2)].
Definition wide_links : list EdgeLink :=
  sample_links ++
  [mkLink 2 RightEdge whole_edge 3 LeftEdge whole_edge (f64_of_Z 2);
   mkLink 3 LeftEdge whole_edge 2 RightEdge whole_edge (f64_of_Z 2)].
Definition wide_run (ops : list SourceOp) : option (PeerView * SourceController) :=
  match Topology.new_topology sample_machines wide_displays wide_links with
  | Ok t =>
      match new_source t (replicate 16 1) 1 5 0 0 false 0 with
      | Ok s => run_ops ops (start_view s) s
      | Err _ => None
      end
  | Err _ => None
  end.
Lemma wide_run_sound ops v s : wide_run ops = Some (v, s) -> Run v s.
Proof.
  unfold wide_run. destruct (Topology.new_topology _ _ _) as [t|]; [|done].
  destruct (new_source _ _ _ _ _ _ _ _) as [s0|] eqn:E; [|done].
  apply run_ops_sound. by eapply run_start, started_new.
Qed.
(** The pointer goes on to the second display; fourteen keys and a button go down
    while its activation is in flight, and the pointer moves on after the button. *)
Definition remote_in (i : NormalizedInput) (now : Z) : SourceOp := CallCaptured (mkTagged i 1 true 3) now.
Definition crowded_flight : list SourceOp :=
  trip_out
  ++ [remote_in (RelativeMotion (mkPoint (f64_of_Z 2000) f64_zero) f64_one) (ms 7)]
  ++ ((fun u => remote_in (InKeyEvent u true false 0) (ms 8)) <$> seqZ 4 14)
  ++ [remote_in (InButtonEvent LeftButton true (ms 8)) (ms 8);
      remote_in (RelativeMotion (mkPoint (f64_of_Z 10) f64_zero) f64_one) (ms 8)].
Definition second_ack : SourceOp := CallFrame (mkFrame 7 0 (MsgActivationAck 3) Connection) (ms 9).

(** ** Properties *)

(** C4. Whatever is captured, polled, received, refused or handed over, in any
    order and at any times, every effect a source controller hands out is one its
    peer has to accept: heartbeats and input are numbered apart and without gaps,
    an activation opens the next epoch and only after every release was
    acknowledged, input comes only while the activation is accepted and nothing is
    being released, and a key or button changes only from what the peer was told,
    with the modifier mask of what it then holds. *)
Theorem source_stream_accepted `{Libm} (v : PeerView) (s s' : SourceController) (op : SourceOp)
    (out : SourceOutcome) :
  Run v s -> may_happen v s op = true -> source_step s op = Some (s', out) ->
  exists v', view_step v s op out = Some v'.
Proof.
  intros HR Hm Hst. destruct (run_next v s op s' out HR Hm Hst) as (v' & Hv & _). by exists v'.
Qed.

(** A run evaluated, and what its last state shows. *)
Lemma sample_ran ops {A} (f : PeerView * SourceController -> A) a :
  f <$> sample_run ops = Some a -> exists v s, Run v s /\ f (v, s) = a.
Proof.
  destruct (sample_run ops) as [[v s]|] eqn:E; [|done]. intros E'. exists v, s.
  split; [by eapply sample_run_sound|exact (inj Some _ _ E')].
Qed.

Lemma pair_eq {A B} (a a' : A) (b b' : B) : (a, b) = (a', b') -> a = a' /\ b = b'.
Proof. intros E. split; [exact (f_equal fst E)|exact (f_equal snd E)]. Qed.
Definition press_out (vs : PeerView * SourceController) : option (list SourceEffect) :=
  out_effects ∘ snd <$> source_step (snd vs) press_a.
Lemma source_stream_accepted_witness :
  exists v s s' out v', Run v s /\ mode s = ModeRemote /\ source_step s press_a = Some (s', out)
    /\ out_effects out = [RemoteFrame (mkFrame 6 1 (MsgKey 4 true false 0) Connection)]
    /\ view_step v s press_a out = Some v'.
Proof.
  destruct (sample_ran trip_out (fun vs => (mode (snd vs), press_out vs))
    (ModeRemote, Some [RemoteFrame (mkFrame 6 1 (MsgKey 4 true false 0) Connection)])) as (v & s & HR & E);
    [vm_compute; reflexivity|].
  injection E as Em Ep. unfold press_out in Ep. cbn [snd] in Ep.
  destruct (source_step s press_a) as [[s' out]|] eqn:Es; [|discriminate]. injection Ep as Ep.
  destruct (source_stream_accepted v s s' press_a out HR eq_refl Es) as [v' Hv].
  exists v, s, s', out, v'. auto.
Defined.

(** What the hand holds and what the peer was told, by the state. *)
Lemma source_held `{Libm} (v : PeerView) (s : SourceController) :
  Run v s -> s_failure s = None ->
  match s_state s with
  | SRemote _ _ _ _ => v_keys v ⊆ k_keys (s_ledger s) /\ v_buttons v ⊆ k_buttons (s_ledger s)
  | SAwaitActivation a => (a_already_remote a = true /\ a_handover a = false) \/ (v_keys v = ∅ /\ v_buttons v = ∅)
  | _ => v_keys v = ∅ /\ v_buttons v = ∅
  end.
Proof.
  intros HR Hf. destruct (run_inv v s HR) as [_ HI]. destruct (HI Hf) as [(_ & Ht & Hr & _) _].
  unfold told, remote_held, none_remote in *.
  destruct (s_state s) as [|a| | | | |]; try (destruct Ht as [-> ->]; done).
  destruct Ht as [-> ->]. destruct (a_already_remote a), (a_handover a); auto.
Qed.

(** While a source controller runs, what its peer was told is down is held by
    the hand when input goes there, and nothing is down there when the pointer is
    home, coming home or not yet there; only while a display of the peer is
    exchanged for another may a key the hand let go be down, until it lands. *)
Theorem source_no_stuck_input `{Libm} (v : PeerView) (s : SourceController) :
  Run v s -> s_failure s = None ->
  match s_state s with
  | SRemote _ _ _ _ => v_keys v ⊆ k_keys (s_ledger s) /\ v_buttons v ⊆ k_buttons (s_ledger s)
  | SAwaitActivation a => (a_already_remote a = true /\ a_handover a = false) \/ (v_keys v = ∅ /\ v_buttons v = ∅)
  | _ => v_keys v = ∅ /\ v_buttons v = ∅
  end.
Proof. apply source_held. Qed.
Lemma source_no_stuck_input_witness :
  exists v s, Run v s /\ mode s = ModeRemote /\ elements (v_keys v) = [4] /\ v_keys v ⊆ k_keys (s_ledger s).
Proof.
  destruct (sample_ran (trip_out ++ [press_a])
    (fun vs => (mode (snd vs), bool_decide (s_failure (snd vs) = None), elements (v_keys (fst vs))))
    (ModeRemote, true, [4])) as (v & s & HR & E); [vm_compute; reflexivity|].
  injection E as Em Ef Ek. apply bool_decide_eq_true in Ef. cbn [fst snd] in *.
  pose proof (source_no_stuck_input v s HR Ef) as Hk. exists v, s.
  split; [exact HR|]. split; [exact Em|]. split; [exact Ek|].
  unfold mode in Em. destruct (s_state s); try discriminate. exact (proj1 Hk).
Defined.

(** While a source controller runs, its claim on the floor is what its state
    says: requested while the peer has not answered, sending while input goes or
    is about to go there, returning while the release is not acknowledged, and
    only at home is there none.  Except for a request, which the peer's own may
    overtake, the claim is the floor word, so nobody else has it.  At home with
    every release acknowledged nothing is claimed. *)
Theorem source_floor_discipline `{Libm} (v : PeerView) (s : SourceController) :
  Run v s -> s_failure s = None ->
  match f_claim (s_floor s) with
  | Some c =>
      (f_floor (s_floor s) = c \/ state c = Requesting) /\ peer c = c_slot (s_config s)
      /\ match s_state s with
         | SAwaitActivation a => state c = (if a_already_remote a then Sending else Requesting)
         | SAwaitRemoteBarrier _ | SRemote _ _ _ _ => state c = Sending
         | SAwaitRelease _ => state c = Returning
         | SLocal _ _ => floor_owner (state c) = Some Floor.Outbound /\ 0 < l_acks_pending (s_link s)
         | SAwaitLocalBarrier _ _ _ _ => floor_owner (state c) = Some Floor.Outbound
         | SFailed => False
         end
  | None => is_home_state s = true
  end.
Proof.
  intros HR Hf. destruct (run_inv v s HR) as [_ HI].
  destruct (HI Hf) as [(_ & _ & Hr & _ & (_ & _ & _ & Ho & _) & _ & _ & _ & _ & Hfl) Hrest].
  unfold floor_held, claim_fits, at_rest, is_local, remote_held in *. destruct (f_claim (s_floor s)) as [c|]; [|done].
  destruct Hfl as (F1 & F2 & F3). split; [done|]. split; [done|].
  destruct (s_state s); try done. split; [done|].
  destruct (decide (l_acks_pending (s_link s) = 0)) as [E|]; [by specialize (Hrest eq_refl E)|lia].
Qed.
Lemma source_floor_discipline_witness :
  exists v s c, Run v s /\ mode s = ModeRemote /\ f_claim (s_floor s) = Some c
    /\ (f_floor (s_floor s) = c \/ state c = Requesting) /\ state c = Sending.
Proof.
  destruct (sample_ran trip_out (fun vs => (mode (snd vs), bool_decide (s_failure (snd vs) = None),
    f_claim (s_floor (snd vs)))) (ModeRemote, true, Some (mkSnapshot Sending 3 1))) as (v & s & HR & E);
    [vm_compute; reflexivity|].
  injection E as Em Ef Ec. apply bool_decide_eq_true in Ef. cbn [fst snd] in *.
  pose proof (source_floor_discipline v s HR Ef) as Hd. rewrite Ec in Hd. destruct Hd as (H1 & _).
  exists v, s, (mkSnapshot Sending 3 1). auto.
Defined.

(** C33. A controller that fails with native capture remote asks for it to be
    restored in the same call, whatever it was doing: afterwards native capture is
    not left remote unless the call had no room for another effect, or the request
    numbers were used up. *)
Theorem source_failure_restores `{Libm} (v v' : PeerView) (s s' : SourceController) (op : SourceOp)
    (out : SourceOutcome) :
  Run v s -> may_happen v s op = true -> source_step s op = Some (s', out) ->
  view_step v s op out = Some v' -> s_failure s = None -> is_Some (out_failure out) ->
  v_native v' = true ->
  length (out_effects out) = MAX_SOURCE_EFFECTS \/ checked_add_u64 (s_next_request s') 1 = None.
Proof.
  intros HR Hm Hst Hv Hf Hfail Hnat. pose proof (run_inv v s HR) as HI.
  destruct (live_step v s HI Hf op (s', out) Hm Hst) as (w & Hr & _ & Hb). cbn [fst snd] in *.
  unfold view_step in Hv. unfold base_of in Hr. rewrite Hr in Hv. injection Hv as <-. by apply Hb.
Qed.
Lemma source_failure_restores_witness :
  exists v s s' out v', Run v s /\ source_step s (CallAbandon (ms 6)) = Some (s', out)
    /\ out_failure out = Some SLinkEnded /\ length (out_effects out) = 2%nat
    /\ view_step v s (CallAbandon (ms 6)) out = Some v' /\ v_native v = true /\ v_native v' = false.
Proof.
  destruct (sample_ran trip_out (fun vs =>
    (bool_decide (s_failure (snd vs) = None), v_native (fst vs),
     (fun r => (out_failure (snd r), length (out_effects (snd r)), s_next_request (fst r)))
       <$> source_step (snd vs) (CallAbandon (ms 6)),
     r ← source_step (snd vs) (CallAbandon (ms 6));
     (fun _ => ()) <$> view_step (fst vs) (snd vs) (CallAbandon (ms 6)) (snd r)))
    (true, true, Some (Some SLinkEnded, 2%nat, 3), Some ())) as (v & s & HR & E); [vm_compute; reflexivity|].
  apply pair_eq in E as [E Ev]. apply pair_eq in E as [E Eo]. apply pair_eq in E as [Ef En].
  apply bool_decide_eq_true in Ef. cbn [fst snd] in *.
  destruct (source_step s (CallAbandon (ms 6))) as [[s' out]|] eqn:Es; [|discriminate].
  change (Some (out_failure out, length (out_effects out), s_next_request s')
    = Some (Some SLinkEnded, 2%nat, 3)) in Eo.
  apply (inj Some), pair_eq in Eo as [Eo E3]. apply pair_eq in Eo as [E1 E2].
  change ((fun _ => ()) <$> view_step v s (CallAbandon (ms 6)) out = Some ()) in Ev.
  destruct (view_step v s (CallAbandon (ms 6)) out) as [v'|] eqn:Evs; [|discriminate].
  exists v, s, s', out, v'. split; [exact HR|]. split; [exact Es|]. split; [exact E1|]. split; [exact E2|].
  split; [exact Evs|]. split; [exact En|]. destruct (v_native v') eqn:Env; [|reflexivity]. exfalso.
  destruct (source_failure_restores v v' s s' (CallAbandon (ms 6)) out HR eq_refl Es Evs Ef) as [Hx|Hx].
  - rewrite E1. eauto.
  - exact Env.
  - rewrite E2 in Hx. discriminate.
  - rewrite E3 in Hx. discriminate.
Defined.

Lemma wide_ran ops {A} (f : PeerView * SourceController -> A) a :
  f <$> wide_run ops = Some a -> exists v s, Run v s /\ f (v, s) = a.
Proof.
  destruct (wide_run ops) as [[v s]|] eqn:E; [|done]. intros E'. exists v, s.
  split; [by eapply wide_run_sound|exact (inj Some _ _ E')].
Qed.
(** What the end of the crowded flight shows. *)
Definition input_only (e : SourceEffect) : bool :=
  match e with
  | RemoteFrame f => match message f with MsgReleaseAll => false | _ => true end
  | _ => false
  end.
Definition crowded_end (vs : PeerView * SourceController) :=
  (s_failure (snd vs), v_native (fst vs), size (v_keys (fst vs)), bool_decide (v_buttons (fst vs) = {[0]}),
   length (o_effects (s_out (snd vs))), forallb input_only (o_effects (s_out (snd vs)))).

(** C40. A failing controller can find no room for its cleanup: when the batch of
    changes made while a display is exchanged fits the effects exactly, the motion
    that follows a button does not, and the failure then finds no room.  A source ends
    failed with every changed key down at the peer, no release and no restore
    sent. *)
Theorem source_cleanup_dropped :
  exists (v : PeerView) (s : SourceController),
    Run v s /\ s_failure s = Some SEffectCapacityExceeded /\ v_native v = true
    /\ size (v_keys v) = 14%nat /\ v_buttons v = {[0]}
    /\ length (o_effects (s_out s)) = MAX_SOURCE_EFFECTS
    /\ forall e, e ∈ o_effects (s_out s) -> exists f, e = RemoteFrame f /\ message f <> MsgReleaseAll.
Proof.
  destruct (wide_ran (crowded_flight ++ [second_ack]) crowded_end
    (Some SEffectCapacityExceeded, true, 14%nat, true, 16%nat, true)) as (v & s & HR & E);
    [vm_compute; reflexivity|]. unfold crowded_end in E. cbn [fst snd] in E.
  apply pair_eq in E as [E E6]. apply pair_eq in E as [E E5]. apply pair_eq in E as [E E4].
  apply pair_eq in E as [E E3]. apply pair_eq in E as [E1 E2].
  exists v, s. apply bool_decide_eq_true in E4. split_and!; try done.
  intros e He. rewrite forallb_forall in E6. specialize (E6 e (proj1 (list_elem_of_In _ _) He)).
  destruct e as [f| |]; try discriminate. exists f. split; [done|]. intros Hm. cbn in E6. by rewrite Hm in E6.
Qed.

(** A failed source controller sends nothing more, whatever is called, and
    stays failed. *)
Theorem source_failed_is_silent `{Libm} (v : PeerView) (s s' : SourceController) (op : SourceOp)
    (out : SourceOutcome) :
  Run v s -> is_Some (s_failure s) -> source_step s op = Some (s', out) ->
  out_effects out = [] /\ is_Some (s_failure s').
Proof.
  intros HR Hf Hst. destruct (failed_inert s op (s', out) Hf (proj1 (run_inv v s HR)) Hst) as (H1 & H2 & _). done.
Qed.
Lemma source_failed_is_silent_witness :
  exists v s s' out, Run v s /\ s_failure s = Some SLinkEnded
    /\ source_step s (CallTick (ms 9)) = Some (s', out) /\ out_effects out = [].
Proof.
  destruct (sample_ran (trip_out ++ [CallAbandon (ms 6)]) (fun vs => s_failure (snd vs)) (Some SLinkEnded))
    as (v & s & HR & E); [vm_compute; reflexivity|]. cbn [snd] in E.
  destruct (source_step s (CallTick (ms 9))) as [[s' out]|] eqn:Es; [|discriminate].
  exists v, s, s', out. split; [exact HR|]. split; [exact E|]. split; [exact Es|].
  apply (source_failed_is_silent v s s' (CallTick (ms 9)) out HR); [rewrite E; eauto|exact Es].
Defined.

(** C34. On a topology [Topology::new] accepted, whose displays leave room between
    the bounds their points are clamped to, every call of a source controller
    returns, in every state and on every input. *)
Theorem source_never_panics `{Libm} (ms : list Machine) (ds : list Display) (ls : list EdgeLink)
    (s : SourceController) (op : SourceOp) :
  Topology.new_topology ms ds ls = Ok (topology_of s) -> Forall is_display ds -> Forall is_link ls ->
  displays_clamp (s_config s) = true -> is_Some (source_step s op).
Proof.
  intros Ht Hd Hl Hc. assert (Roomy (s_config (fresh s))) as Hr by (by eapply roomy_intro).
  assert (forall m, is_Some m -> is_Some (finish m)) as Hfin by (intros m [x ->]; by eexists).
  destruct op; cbn [source_step]; try (by eexists); apply Hfin.
  - by apply captured_total.
  - by apply pointer_polled_total.
  - by apply remote_frame_total.
  - by apply handed_over_total.
Qed.
Lemma source_never_panics_witness :
  exists v s, Run v s /\ mode s = ModeRemote
    /\ is_Some (source_step s (CallCaptured (mkTagged (RelativeMotion (mkPoint f64_nan_bits f64_zero) f64_one) 1 true 3) 9)).
Proof.
  destruct (sample_ran trip_out (fun vs => (mode (snd vs), displays_clamp (s_config (snd vs)),
    c_topology (s_config (snd vs)))) (ModeRemote, true, sample_topology)) as (v & s & HR & E); [vm_compute; reflexivity|].
  apply pair_eq in E as [E E3]. apply pair_eq in E as [E1 E2]. cbn [snd] in *.
  exists v, s. split; [exact HR|]. split; [exact E1|].
  apply (source_never_panics sample_machines sample_displays sample_links).
  - unfold topology_of. rewrite E3. exact sample_topology_built.
  - exact sample_displays_typed.
  - exact sample_links_typed.
  - exact E2.
Defined.
