(* ===== verification/SessionStartup.v ===== *)
(** * The startup of a link (monhop-transport/src/session_startup.rs)

    [StartupControl] is one direction of a link before it carries input: heartbeats
    on their own counter, and one [SessionReady] each way, the receiver's first.
    [startup_pair] runs both ends of a direction over queues that keep their order
    and may lose heartbeats; neither end ever blames the other. *)

From stdpp Require Import gmap.
From S2P Require Import Prelude F64 Types Messages Sequence SessionHealth SourceState Source.

Definition STARTUP_DEADLINE : Z := secs 3.

Inductive StartupError :=
| StHealth (e : HealthError) | StDeadline | StSequence | StUnexpectedMessage | StRateLimited | StNotReady.
#[global] Instance StartupError_eq_dec : EqDecision StartupError.
Proof. solve_decision. Defined.

Record StartupControl := mkStartup {
  su_control : ReadyControl; su_heartbeats : SequenceGate; su_started_at : Z; su_local_is_source : bool;
  su_local_ready : bool; su_peer_ready : bool; su_failure : option StartupError }.

Definition set_control (c : StartupControl) (k : ReadyControl) : StartupControl :=
  mkStartup k (su_heartbeats c) (su_started_at c) (su_local_is_source c) (su_local_ready c) (su_peer_ready c) (su_failure c).
Definition set_ready (c : StartupControl) (local_ready peer_ready : bool) : StartupControl :=
  mkStartup (su_control c) (su_heartbeats c) (su_started_at c) (su_local_is_source c) local_ready peer_ready (su_failure c).
Definition with_health (k : ReadyControl) (h : PeerHealth) : ReadyControl :=
  mkReadyControl (rc_epoch k) (rc_next_incoming k) (rc_next_outgoing k) (rc_next_heartbeat_out k)
    (rc_last_heartbeat_in k) h (rc_limiter k) (rc_now k).
Definition with_now (k : ReadyControl) (now : Z) : ReadyControl :=
  mkReadyControl (rc_epoch k) (rc_next_incoming k) (rc_next_outgoing k) (rc_next_heartbeat_out k)
    (rc_last_heartbeat_in k) (rc_health k) (rc_limiter k) now.
Definition with_counters (k : ReadyControl) (incoming outgoing heartbeat : Z) : ReadyControl :=
  mkReadyControl (rc_epoch k) incoming outgoing heartbeat (rc_last_heartbeat_in k) (rc_health k) (rc_limiter k) (rc_now k).
Definition with_limiter (k : ReadyControl) (l : RateLimiter) : ReadyControl :=
  mkReadyControl (rc_epoch k) (rc_next_incoming k) (rc_next_outgoing k) (rc_next_heartbeat_out k)
    (rc_last_heartbeat_in k) (rc_health k) l (rc_now k).
Definition with_last_heartbeat (k : ReadyControl) (last : option Z) : ReadyControl :=
  mkReadyControl (rc_epoch k) (rc_next_incoming k) (rc_next_outgoing k) (rc_next_heartbeat_out k)
    last (rc_health k) (rc_limiter k) (rc_now k).

Definition new_startup (ep next_sequence : Z) (local_is_source : bool) (now : Z) : StartupControl :=
  mkStartup (mkReadyControl ep next_sequence next_sequence 0 None (new_health now) (mkLimiter 20000 (20000 * 1000) None) now)
    (mkSeqGate (Some ep) None None None) now local_is_source false false None.

Definition fail_startup {A} (c : StartupControl) (e : StartupError) : StartupControl * result StartupError A :=
  match su_failure c with
  | Some first => (c, Err first)
  | None =>
      (mkStartup (su_control c) (su_heartbeats c) (su_started_at c) (su_local_is_source c) (su_local_ready c)
         (su_peer_ready c) (Some e), Err e)
  end.

(** A call of the health, its error latched. *)
Definition of_health {A} (c : StartupControl) (m : PeerHealth * result HealthError A)
  : StartupControl * result StartupError A :=
  let '(h, r) := m in
  let c := set_control c (with_health (su_control c) h) in
  match r with Ok a => (c, Ok a) | Err e => fail_startup c (StHealth e) end.

Definition check_startup (c : StartupControl) (now : Z) : StartupControl * result StartupError () :=
  match su_failure c with
  | Some e => (c, Err e)
  | None =>
      let? (c, _) := of_health c (check (rc_health (su_control c)) now) in
      if STARTUP_DEADLINE <=? Z.max 0 (now - su_started_at c) then fail_startup c StDeadline
      else (set_control c (with_now (su_control c) now), Ok ())
  end.

Definition outgoing (c : StartupControl) (m : Message) : StartupControl * result StartupError Frame :=
  let k := su_control c in
  let seq := if is_heartbeat m then rc_next_heartbeat_out k else rc_next_outgoing k in
  match checked_add_u64 seq 1 with
  | None => fail_startup c StSequence
  | Some next =>
      (set_control c (if is_heartbeat m then with_counters k (rc_next_incoming k) (rc_next_outgoing k) next
                      else with_counters k (rc_next_incoming k) next (rc_next_heartbeat_out k)),
       Ok (mkFrame (rc_epoch k) seq m Connection))
  end.

Definition poll_startup (c : StartupControl) (now : Z) : StartupControl * result StartupError (option Frame) :=
  let? (c, _) := check_startup c now in
  let? (c, token) := of_health c (poll (rc_health (su_control c)) now) in
  match token with
  | None => (c, Ok None)
  | Some token => let? (c, f) := outgoing c (MsgPing token) in (c, Ok (Some f))
  end.

(** The frame's number, in its space; [false] drops a stale heartbeat. *)
Definition take_number (c : StartupControl) (f : Frame) : StartupControl * result StartupError bool :=
  if is_heartbeat (message f) then
    let '(g, r) := accept_heartbeat (su_heartbeats c) f in
    (mkStartup (su_control c) g (su_started_at c) (su_local_is_source c) (su_local_ready c) (su_peer_ready c) (su_failure c),
     Ok (is_ok r))
  else
    let k := su_control c in
    if negb (epoch f =? rc_epoch k) || negb (sequence f =? rc_next_incoming k)
       || negb (bool_decide (delivery (message f) = Reliable)) then fail_startup c StSequence
    else match checked_add_u64 (rc_next_incoming k) 1 with
         | None => fail_startup c StSequence
         | Some next => (set_control c (with_counters k next (rc_next_outgoing k) (rc_next_heartbeat_out k)), Ok true)
         end.

Definition receive_startup (c : StartupControl) (f : Frame) (now : Z) : StartupControl * result StartupError (option Frame) :=
  let? (c, _) := check_startup c now in
  let '(l, allowed) := allow_at (rc_limiter (su_control c)) (millis_u64 now) in
  let c := set_control c (with_limiter (su_control c) l) in
  if negb (is_ok allowed) then fail_startup c StRateLimited
  else
    let? (c, fresh) := take_number c f in
    if negb fresh then (c, Ok None)
    else match message f with
    | MsgPing token => let? (c, r) := outgoing c (MsgPong token) in (c, Ok (Some r))
    | MsgPong token => let? (c, _) := of_health c (receive_pong (rc_health (su_control c)) token now) in (c, Ok None)
    | MsgSessionReady =>
        if su_peer_ready c then fail_startup c StUnexpectedMessage
        else if negb (su_local_is_source c) && negb (su_local_ready c) then fail_startup c StNotReady
        else (set_ready c (su_local_ready c) true, Ok None)
    | _ => fail_startup c StUnexpectedMessage
    end.

Definition health_confirmed (c : StartupControl) (now : Z) : StartupControl * result StartupError bool :=
  let? (c, _) := check_startup c now in (c, Ok (is_confirmed (rc_health (su_control c)))).
Definition can_announce_ready (c : StartupControl) (now : Z) : StartupControl * result StartupError bool :=
  let? (c, _) := check_startup c now in
  (c, Ok (negb (su_local_ready c) && is_confirmed (rc_health (su_control c))
          && (negb (su_local_is_source c) || su_peer_ready c))).
Definition announce_ready (c : StartupControl) (now : Z) : StartupControl * result StartupError Frame :=
  let? (c, can) := can_announce_ready c now in
  if negb can then fail_startup c StNotReady
  else outgoing (set_ready c true (su_peer_ready c)) MsgSessionReady.
Definition startup_is_ready (c : StartupControl) (now : Z) : StartupControl * result StartupError bool :=
  let? (c, _) := check_startup c now in
  (c, Ok (su_local_ready c && su_peer_ready c && is_confirmed (rc_health (su_control c)))).
Definition into_ready (c : StartupControl) (now : Z) : result StartupError ReadyControl :=
  match startup_is_ready c now with
  | (c, Ok true) => Ok (with_last_heartbeat (su_control c) (heartbeat_sequence (su_heartbeats c)))
  | (c, Ok false) => snd (@fail_startup ReadyControl c StNotReady)
  | (_, Err e) => Err e
  end.

(** ** The two ends of a direction *)

(** Failures that do not say the peer broke the protocol. *)
Definition exhausted (c : StartupControl) : Prop :=
  let k := su_control c in
  u64_max <= rc_next_incoming k \/ u64_max <= rc_next_outgoing k \/ u64_max <= rc_next_heartbeat_out k.
Definition fine (c : StartupControl) (e : StartupError) : Prop :=
  match e with
  | StUnexpectedMessage | StNotReady | StHealth UnexpectedResponse => False
  | StSequence => exhausted c
  | _ => True
  end.
Definition token_of (c : StartupControl) : Z := next_token (rc_health (su_control c)).
Definition clean (c : StartupControl) : Prop :=
  (forall e, su_failure c = Some e -> fine c e) /\ SessionHealth.failure (rc_health (su_control c)) <> Some UnexpectedResponse.

(** The counters in use, the roles and the announcements stay, and a failed end does not move. *)
Definition still (c c' : StartupControl) : Prop :=
  rc_epoch (su_control c') = rc_epoch (su_control c)
  /\ rc_next_incoming (su_control c') = rc_next_incoming (su_control c)
  /\ rc_next_outgoing (su_control c') = rc_next_outgoing (su_control c)
  /\ token_of c <= token_of c' /\ su_local_is_source c' = su_local_is_source c
  /\ su_local_ready c' = su_local_ready c /\ su_peer_ready c' = su_peer_ready c
  /\ (su_failure c <> None -> c' = c).
#[global] Instance still_refl : Reflexive still.
Proof. intros c. by split_and!. Qed.
Lemma still_trans c1 c2 c3 : still c1 c2 -> still c2 c3 -> still c1 c3.
Proof.
  intros (A1 & A2 & A3 & A4 & A5 & A6 & A7 & A8) (B1 & B2 & B3 & B4 & B5 & B6 & B7 & B8).
  split_and!; try congruence; [lia|]. intros Hf. rewrite (A8 Hf) in *. by apply B8.
Qed.
Lemma still_live c c' : su_failure c = None -> su_control c' = su_control c -> su_local_is_source c' = su_local_is_source c ->
  su_local_ready c' = su_local_ready c -> su_peer_ready c' = su_peer_ready c -> still c c'.
Proof. intros Hf Hk Hr Hl Hp. unfold still, token_of. rewrite Hk, Hf. split_and!; done || lia. Qed.

Lemma fail_startup_spec {A} c e : su_failure c = None -> fine c e -> clean c ->
  let '(c', r) := @fail_startup A c e in still c c' /\ clean c' /\ r = Err e /\ su_failure c' = Some e.
Proof.
  intros Hf He [_ Hh]. unfold fail_startup. rewrite Hf. split; [split_and!; try done; by rewrite Hf|].
  split; [|done]. split; [|exact Hh]. by intros e' [= <-].
Qed.

(** The health never blames the peer for a reply it was owed. *)
Definition health_fine {A} (h : PeerHealth) (m : PeerHealth * result HealthError A) : Prop :=
  SessionHealth.failure (fst m) <> Some UnexpectedResponse
  /\ (forall e, snd m = Err e -> e <> UnexpectedResponse).
Lemma check_health_fine h now :
  SessionHealth.failure h <> Some UnexpectedResponse ->
  health_fine h (check h now) /\ next_token (fst (check h now)) = next_token h.
Proof.
  intros Hf. unfold check, latched, SessionHealth.advance, SessionHealth.fail, health_fine.
  destruct (SessionHealth.failure h) as [e|] eqn:Ef; cbn.
  { rewrite Ef. split_and!; try done. intros e' [= <-]. congruence. }
  destruct (now <? last_now h); cbn; rewrite ?Ef; cbn; [split_and!; try done; intros; by simplify_eq|].
  destruct (PEER_LIVENESS <=? _); cbn; rewrite ?Ef; cbn; split_and!; try done; intros; by simplify_eq.
Qed.
Lemma poll_health_fine h now :
  SessionHealth.failure h <> Some UnexpectedResponse ->
  health_fine h (poll h now) /\ next_token h <= next_token (fst (poll h now))
  /\ (forall t, snd (poll h now) = Ok (Some t) -> t < next_token (fst (poll h now)))
  /\ (forall e, snd (poll h now) = Err e -> next_token (fst (poll h now)) = next_token h).
Proof.
  intros Hf. destruct (check_health_fine h now Hf) as [[H1 H2] H3]. unfold poll, health_fine.
  destruct (check h now) as [h1 [[]|e]]; cbn in *; [|split_and!; try done; try lia; intros e' [= <-]; by apply H2].
  unfold challenge, SessionHealth.fail.
  match goal with |- context [if ?b then (h1, Ok None) else _] => destruct b end; cbn; [split_and!; try done; lia|].
  destruct (checked_add_u64 (next_token h1) 1) as [n|] eqn:E.
  - assert (n = next_token h1 + 1) as -> by (unfold checked_add_u64 in E; case_match; by simplify_eq).
    cbn. split_and!; try done; try lia. intros t [= <-]. lia.
  - destruct (SessionHealth.failure h1) as [e|] eqn:Ef; cbn; rewrite ?Ef; split_and!; try done; try lia;
      intros ? [= <-]; congruence.
Qed.
Lemma pong_health_fine h token now :
  SessionHealth.failure h <> Some UnexpectedResponse -> token < next_token h ->
  health_fine h (receive_pong h token now) /\ next_token (fst (receive_pong h token now)) = next_token h.
Proof.
  intros Hf Ht. destruct (check_health_fine h now Hf) as [[H1 H2] H3]. unfold receive_pong, health_fine.
  destruct (check h now) as [h1 [[]|e]]; cbn in *; [|split_and!; try done; intros e' [= <-]; by apply H2].
  unfold take_pong. rewrite (proj2 (Z.leb_gt _ _)) by lia. destruct (token <=? last_acked h1); cbn; split_and!; done.
Qed.

Lemma of_health_spec {A} c (m : PeerHealth * result HealthError A) :
  su_failure c = None -> clean c -> health_fine (rc_health (su_control c)) m ->
  token_of c <= next_token (fst m) ->
  let '(c', r) := of_health c m in
  still c c' /\ clean c' /\ match r with Ok a => snd m = Ok a /\ su_failure c' = None | Err e => su_failure c' = Some e end.
Proof.
  intros Hf Hc [Hh He] Ht. unfold of_health. destruct m as [h [a|e]]; cbn in *.
  - split; [split_and!; try done; by rewrite Hf|]. split; [|done]. split; [|exact Hh]. intros e' Hx. cbn in Hx. congruence.
  - set (c1 := set_control c (with_health (su_control c) h)).
    assert (clean c1) as Hc1. { split; [|exact Hh]. intros e' Hx. cbn in Hx. congruence. }
    assert (still c c1) as Hs1 by (split_and!; try done; by rewrite Hf).
    assert (fine c1 (StHealth e)) as Hfe by (cbn; specialize (He e eq_refl); by destruct e).
    pose proof (@fail_startup_spec A c1 (StHealth e) Hf Hfe Hc1) as H'.
    destruct (fail_startup c1 (StHealth e)) as [c2 r2]. destruct H' as (S2 & C2 & -> & F2).
    split; [by eapply still_trans|]. by split.
Qed.

(** What a call that may fail leaves. *)
Definition called {A} (c : StartupControl) (m : StartupControl * result StartupError A) : Prop :=
  still c (fst m) /\ clean (fst m)
  /\ match snd m with Ok _ => su_failure (fst m) = None | Err e => su_failure (fst m) = Some e end.

Lemma check_startup_spec c now : clean c -> called c (check_startup c now).
Proof.
  intros Hc. unfold check_startup, called. destruct (su_failure c) as [e|] eqn:Hf; [by split_and!|].
  destruct (check_health_fine (rc_health (su_control c)) now (proj2 Hc)) as [Hh Ht].
  pose proof (of_health_spec c (check (rc_health (su_control c)) now) Hf Hc Hh ltac:(unfold token_of; lia)) as H1.
  destruct (of_health c _) as [c1 [[]|e]]; cbn; destruct H1 as (S1 & C1 & F1); [|done].
  destruct F1 as [_ F1]. destruct (STARTUP_DEADLINE <=? _).
  - pose proof (@fail_startup_spec () c1 StDeadline F1 I C1) as H2. destruct (fail_startup c1 StDeadline) as [c2 r2].
    destruct H2 as (S2 & C2 & -> & F2). cbn. split; [by eapply still_trans|done].
  - cbn. split; [|done]. eapply still_trans; [exact S1|]. by split_and!.
Qed.

(** ** Both ends *)

Record StartupPair := mkStartupPair {
  sp_source : StartupControl; sp_receiver : StartupControl; sp_out : list Frame; sp_back : list Frame }.

Definition sent {A} (q : list Frame) (r : result A (option Frame)) : list Frame :=
  match r with Ok (Some f) => q ++ [f] | _ => q end.
(** A call at one end, with the queue it sends into. *)
Inductive StartupCall := CallPoll (now : Z) | CallAnnounce (now : Z) | CallCheck (now : Z).
Definition startup_call (c : StartupControl) (q : list Frame) (call : StartupCall) : StartupControl * list Frame :=
  match call with
  | CallPoll now => let '(c, r) := poll_startup c now in (c, sent q r)
  | CallAnnounce now =>
      match can_announce_ready c now with
      | (c, Ok true) =>
          let '(c, r) := announce_ready c now in (c, match r with Ok f => q ++ [f] | Err _ => q end)
      | (c, _) => (c, q)
      end
  | CallCheck now => (fst (check_startup c now), q)
  end.

Inductive startup_step : StartupPair -> StartupPair -> Prop :=
| step_source_call a b ab ba call a' ab' :
    startup_call a ab call = (a', ab') -> startup_step (mkStartupPair a b ab ba) (mkStartupPair a' b ab' ba)
| step_receiver_call a b ab ba call b' ba' :
    startup_call b ba call = (b', ba') -> startup_step (mkStartupPair a b ab ba) (mkStartupPair a b' ab ba')
| step_to_receiver a b f ab ba now b' r :
    receive_startup b f now = (b', r) -> startup_step (mkStartupPair a b (f :: ab) ba) (mkStartupPair a b' ab (sent ba r))
| step_to_source a b ab f ba now a' r :
    receive_startup a f now = (a', r) -> startup_step (mkStartupPair a b ab (f :: ba)) (mkStartupPair a' b (sent ab r) ba)
| step_lose_out a b ab1 f ab2 ba :
    is_heartbeat (message f) = true -> startup_step (mkStartupPair a b (ab1 ++ f :: ab2) ba) (mkStartupPair a b (ab1 ++ ab2) ba)
| step_lose_back a b ab ba1 f ba2 :
    is_heartbeat (message f) = true -> startup_step (mkStartupPair a b ab (ba1 ++ f :: ba2)) (mkStartupPair a b ab (ba1 ++ ba2)).
Inductive startup_reach : StartupPair -> Prop :=
| startup_new ep n now_a now_b :
    startup_reach (mkStartupPair (new_startup ep n true now_a) (new_startup ep n false now_b) [] [])
| startup_next p p' : startup_reach p -> startup_step p p' -> startup_reach p'.

(** ** What a call leaves *)

Lemma clean_live c : su_failure c = None -> SessionHealth.failure (rc_health (su_control c)) <> Some UnexpectedResponse -> clean c.
Proof. intros Hf Hh. split; [|done]. intros e He. congruence. Qed.

Definition plain (c : StartupControl) (f : Frame) : Prop :=
  match message f with MsgPing t => t < token_of c | _ => False end.

Lemma outgoing_heartbeat c m : is_heartbeat m = true -> su_failure c = None -> clean c ->
  called c (outgoing c m) /\ (forall f, snd (outgoing c m) = Ok f -> message f = m /\ token_of (fst (outgoing c m)) = token_of c).
Proof.
  intros Hm Hf Hc. unfold outgoing. rewrite Hm. destruct (checked_add_u64 _ 1) as [n|] eqn:E.
  - split; [|by intros f [= <-]]. unfold called. cbn. split; [split_and!; try done; by rewrite Hf|]. split; [|done].
    split; [|apply Hc]. intros e He. cbn in He. congruence.
  - pose proof (@fail_startup_spec Frame c StSequence Hf) as H. unfold checked_add_u64 in E. destruct (_ <=? u64_max) eqn:Hb; [done|]. bool_inv.
    destruct (fail_startup c StSequence) as [c2 r2]. destruct H as (S2 & C2 & -> & F2); [|done|by split].
    cbn. unfold exhausted. lia.
Qed.

Lemma poll_startup_spec c now c' r : clean c -> poll_startup c now = (c', r) ->
  called c (c', r) /\ (forall f, r = Ok (Some f) -> plain c' f).
Proof.
  intros Hc. unfold poll_startup. pose proof (check_startup_spec c now Hc) as H1.
  destruct (check_startup c now) as [c1 [[]|e]]; destruct H1 as (S1 & C1 & F1); cbn in *; [|by intros [= <- <-]].
  destruct (poll_health_fine (rc_health (su_control c1)) now (proj2 C1)) as (Hh & Ht & Htok & _).
  pose proof (of_health_spec c1 (poll (rc_health (su_control c1)) now) F1 C1 Hh Ht) as H2.
  unfold of_health in *. destruct (poll _ now) as [h [o|e]]; cbn in *.
  - destruct H2 as (S2 & C2 & _). set (c2 := set_control c1 _) in *. destruct o as [t|]; cbn.
    + destruct (outgoing_heartbeat c2 (MsgPing t) eq_refl F1 C2) as [H3 H4].
      destruct (outgoing c2 (MsgPing t)) as [c3 [f|e]]; intros [= <- <-]; destruct H3 as (S3 & C3 & F3); cbn in *.
      * split; [split_and!; try done; by do 2 (eapply still_trans; [eassumption|])|]. intros f' [= <-].
        destruct (H4 f eq_refl) as [Hm Hk]. unfold plain. rewrite Hm, Hk. by apply Htok.
      * split; [|done]. split_and!; try done; by do 2 (eapply still_trans; [eassumption|]).
    + intros [= <- <-]. split; [|done]. split_and!; try done; by eapply still_trans.
  - destruct (fail_startup _ _) as [c3 r3] eqn:E. destruct H2 as (S2 & C2 & F2).
    assert (exists e', r3 = Err e') as [e' ->] by (unfold fail_startup in E; destruct (su_failure _); inversion E; eauto).
    intros [= <- <-]. split; [|done]. split_and!; try done; by eapply still_trans.
Qed.

Definition ready_frame (c : StartupControl) : Frame :=
  mkFrame (rc_epoch (su_control c)) (rc_next_outgoing (su_control c)) MsgSessionReady Connection.
(** An announcement: the frame leaves, or the counter was used up. *)
Definition announced (c c' : StartupControl) (out : option Frame) : Prop :=
  rc_epoch (su_control c') = rc_epoch (su_control c)
  /\ rc_next_incoming (su_control c') = rc_next_incoming (su_control c)
  /\ token_of c <= token_of c' /\ su_local_is_source c' = su_local_is_source c /\ su_peer_ready c' = su_peer_ready c
  /\ su_failure c = None /\ su_local_ready c = false /\ su_local_ready c' = true /\ clean c'
  /\ (su_local_is_source c = true -> su_peer_ready c = true)
  /\ ((out = Some (ready_frame c) /\ rc_next_outgoing (su_control c') = rc_next_outgoing (su_control c) + 1)
      \/ (out = None /\ rc_next_outgoing (su_control c') = rc_next_outgoing (su_control c))).

Lemma check_twice h now h1 : check h now = (h1, Ok ()) -> check h1 now = (h1, Ok ()).
Proof.
  unfold check, latched, SessionHealth.advance, SessionHealth.fail.
  destruct (SessionHealth.failure h) eqn:Ef; cbn; [done|].
  destruct (now <? last_now h) eqn:E1; cbn; rewrite ?Ef; cbn; [done|].
  destruct (PEER_LIVENESS <=? now - last_response h) eqn:E2; cbn; [done|].
  intros [= <-]. cbn. rewrite ?Ef. cbn. rewrite (Z.ltb_irrefl now). cbn. by rewrite E2.
Qed.
Lemma check_startup_twice c now c1 : check_startup c now = (c1, Ok ()) -> check_startup c1 now = (c1, Ok ()).
Proof.
  unfold check_startup, of_health, fail_startup. destruct (su_failure c) eqn:Hf; [done|].
  destruct (check _ now) as [h [[]|e]] eqn:E; cbn; rewrite ?Hf; cbn; [|done].
  destruct (STARTUP_DEADLINE <=? _) eqn:Ed; [done|]. intros [= <-]. cbn. rewrite (check_twice _ _ _ E), ?Hf. cbn. by rewrite Ed.
Qed.
Lemma can_announce_ready_spec c now : clean c ->
  called c (can_announce_ready c now)
  /\ (snd (can_announce_ready c now) = Ok true ->
      su_local_ready c = false /\ (su_local_is_source c = true -> su_peer_ready c = true)
      /\ can_announce_ready (fst (can_announce_ready c now)) now = can_announce_ready c now).
Proof.
  intros Hc. unfold can_announce_ready. pose proof (check_startup_spec c now Hc) as H1.
  destruct (check_startup c now) as [c1 [[]|e]] eqn:E; destruct H1 as (S1 & C1 & F1); cbn in *; [|done].
  split; [done|]. rewrite (check_startup_twice _ _ _ E). destruct S1 as (_ & _ & _ & _ & <- & <- & <- & _).
  intros [= H]. split_and!; [..|done]; repeat (apply andb_prop in H as [H ?]);
    by destruct (su_local_ready c1), (su_local_is_source c1), (su_peer_ready c1).
Qed.

Lemma outgoing_ready c : su_failure c = None -> clean c -> su_local_ready c = false ->
  (su_local_is_source c = true -> su_peer_ready c = true) ->
  announced c (fst (outgoing (set_ready c true (su_peer_ready c)) MsgSessionReady))
    (match snd (outgoing (set_ready c true (su_peer_ready c)) MsgSessionReady) with Ok f => Some f | Err _ => None end).
Proof.
  intros Hf Hc Hl Hp. unfold outgoing. cbn [is_heartbeat]. set (c1 := set_ready c true _).
  assert (clean c1) as Hc1 by exact Hc.
  destruct (checked_add_u64 _ 1) as [n|] eqn:E.
  - apply checked_add_u64_Some in E as ->. cbn. split_and!; try done; [|by left]. apply clean_live; [done|apply Hc].
  - pose proof (@fail_startup_spec Frame c1 StSequence Hf) as H. unfold checked_add_u64 in E.
    destruct (_ <=? u64_max) eqn:Hb; [done|]. bool_inv.
    destruct (fail_startup c1 StSequence) as [c2 r2]. destruct H as (S2 & C2 & -> & F2); [|done|].
    { cbn in *. unfold exhausted. cbn. lia. }
    destruct S2 as (E1 & E2 & E3 & E4 & E5 & E6 & E7 & _). split_and!; try done. by right.
Qed.

Lemma announced_after c c1 c' out : still c c1 -> su_failure c = None -> announced c1 c' out -> announced c c' out.
Proof.
  intros (E1 & E2 & E3 & E4 & E5 & E6 & E7 & _) Hf. unfold announced, ready_frame.
  rewrite E1, E2, E3, E5, E6, E7. naive_solver lia.
Qed.

Lemma called_was_live {A} c c' (r : result StartupError A) : called c (c', r) -> su_failure c' = None -> su_failure c = None.
Proof. intros ((_ & _ & _ & _ & _ & _ & _ & H) & _ & _) Hn. cbn in *. destruct (su_failure c) eqn:E; [|done]. rewrite H in Hn; congruence. Qed.

(** A call moves its end alone: it sends a heartbeat or nothing, or announces. *)
Lemma startup_call_spec c q call c' q' : clean c -> startup_call c q call = (c', q') ->
  (still c c' /\ clean c' /\ (q' = q \/ exists f, q' = q ++ [f] /\ plain c' f))
  \/ exists out, announced c c' out /\ q' = q ++ option_list out.
Proof.
  intros Hc. destruct call as [now|now|now]; cbn [startup_call].
  - destruct (poll_startup c now) as [c1 r] eqn:E. intros [= <- <-]. left.
    destruct (poll_startup_spec c now c1 r Hc E) as [(S1 & C1 & _) Hf]. split_and!; try done.
    destruct r as [[f|]|]; cbn; eauto.
  - destruct (can_announce_ready_spec c now Hc) as [H1 Hl].
    destruct (can_announce_ready c now) as [c1 [[]|e]]; destruct (H1) as (S1 & C1 & F1);
      [|intros [= <- <-]; left; by eauto|intros [= <- <-]; left; by eauto].
    cbn [fst snd] in *. specialize (Hl eq_refl) as (Hr & Hs & Ht). intros H. right. revert H. unfold announce_ready. rewrite Ht. cbn [st_bind negb].
    pose proof (called_was_live _ _ _ H1 F1) as Hf. destruct (S1) as (E1 & E2 & E3 & E4 & E5 & E6 & E7 & _).
    pose proof (outgoing_ready c1 F1 C1 ltac:(congruence) ltac:(rewrite E5, E7; exact Hs)) as Ho.
    destruct (outgoing _ _) as [c3 [f|e]]; intros [= <- <-]; eexists;
      (split; [exact (announced_after _ _ _ _ S1 Hf Ho)|]); cbn; by rewrite ?app_nil_r.
  - intros [= <- <-]. left. destruct (check_startup_spec c now Hc) as (S1 & C1 & _). by eauto.
Qed.

(** A frame the peer may send now. *)
Definition owed (c : StartupControl) (f : Frame) : Prop :=
  match message f with
  | MsgPing _ => True
  | MsgPong t => t < token_of c
  | MsgSessionReady =>
      epoch f = rc_epoch (su_control c) /\ sequence f = rc_next_incoming (su_control c)
      /\ su_peer_ready c = false /\ (su_local_is_source c = false -> su_local_ready c = true)
  | _ => False
  end.
Definition got_ready (c c' : StartupControl) : Prop :=
  rc_epoch (su_control c') = rc_epoch (su_control c)
  /\ rc_next_outgoing (su_control c') = rc_next_outgoing (su_control c)
  /\ token_of c <= token_of c' /\ su_local_is_source c' = su_local_is_source c
  /\ su_local_ready c' = su_local_ready c /\ su_peer_ready c' = true /\ clean c'
  /\ rc_next_incoming (su_control c') = rc_next_incoming (su_control c) + 1.

Lemma owed_still c c' f : still c c' -> owed c f -> owed c' f.
Proof.
  intros (E1 & E2 & _ & E4 & E5 & E6 & E7 & _). unfold owed. rewrite E1, E2, E5, E6, E7. destruct (message f); try done. lia.
Qed.
Lemma owed_cases c f : owed c f ->
  (exists t, message f = MsgPing t) \/ (exists t, message f = MsgPong t /\ t < token_of c) \/ message f = MsgSessionReady.
Proof. unfold owed. destruct (message f); try done; eauto. Qed.

(** Past the clock and the limiter. *)
Definition receive_body (c : StartupControl) (f : Frame) (now : Z) : StartupControl * result StartupError (option Frame) :=
  let? (c, fresh) := take_number c f in
  if negb fresh then (c, Ok None)
  else match message f with
  | MsgPing token => let? (c, r) := outgoing c (MsgPong token) in (c, Ok (Some r))
  | MsgPong token => let? (c, _) := of_health c (receive_pong (rc_health (su_control c)) token now) in (c, Ok None)
  | MsgSessionReady =>
      if su_peer_ready c then fail_startup c StUnexpectedMessage
      else if negb (su_local_is_source c) && negb (su_local_ready c) then fail_startup c StNotReady
      else (set_ready c (su_local_ready c) true, Ok None)
  | _ => fail_startup c StUnexpectedMessage
  end.
Definition received (c c' : StartupControl) (f : Frame) (r : result StartupError (option Frame)) : Prop :=
  (still c c' /\ clean c' /\ (forall g, r = Ok (Some g) -> exists t, message g = MsgPong t /\ message f = MsgPing t)
   /\ (message f = MsgSessionReady -> su_failure c' <> None))
  \/ (got_ready c c' /\ message f = MsgSessionReady /\ r = Ok None).

Lemma receive_ping c f now c' r t : su_failure c = None -> clean c -> message f = MsgPing t ->
  receive_body c f now = (c', r) -> received c c' f r.
Proof.
  intros Hf Hc Em. unfold receive_body, take_number. rewrite Em. cbn [is_heartbeat].
  destruct (accept_heartbeat _ f) as [g o]. cbn [st_bind]. set (c1 := mkStartup _ _ _ _ _ _ _).
  assert (still c c1) as S1 by (by apply still_live).
  assert (clean c1) as C1 by exact Hc. intros H. left. revert H.
  destruct (is_ok o); cbn [negb]; [|intros [= <- <-]; split_and!; try done; by rewrite Em].
  destruct (outgoing_heartbeat c1 (MsgPong t) eq_refl Hf C1) as [(S2 & C2 & _) Ho].
  destruct (outgoing c1 (MsgPong t)) as [c2 [h|e]]; cbn [st_bind fst snd] in *; intros [= <- <-];
    (split_and!; [by eapply still_trans|done| |by rewrite Em]); [|done].
  intros g' [= <-]. destruct (Ho h eq_refl) as [Hm _]. eauto.
Qed.
Lemma receive_pong_spec c f now c' r t : su_failure c = None -> clean c -> message f = MsgPong t -> t < token_of c ->
  receive_body c f now = (c', r) -> received c c' f r.
Proof.
  intros Hf Hc Em Ht. unfold receive_body, take_number. rewrite Em. cbn [is_heartbeat].
  destruct (accept_heartbeat _ f) as [g o]. cbn [st_bind]. set (c1 := mkStartup _ _ _ _ _ _ _).
  assert (still c c1) as S1 by (by apply still_live).
  assert (clean c1) as C1 by exact Hc. intros H. left. revert H.
  destruct (is_ok o); cbn [negb]; [|intros [= <- <-]; split_and!; try done; by rewrite Em].
  destruct (pong_health_fine (rc_health (su_control c1)) t now (proj2 C1) Ht) as [Hh Hk].
  pose proof (of_health_spec c1 _ Hf C1 Hh ltac:(rewrite Hk; done)) as H2.
  destruct (of_health c1 _) as [c2 [[]|e]]; cbn [st_bind]; destruct H2 as (S2 & C2 & _); intros [= <- <-];
    (split_and!; [by eapply still_trans|done|done|by rewrite Em]).
Qed.
Lemma receive_ready c f now c' r : su_failure c = None -> clean c -> owed c f -> message f = MsgSessionReady ->
  receive_body c f now = (c', r) -> received c c' f r.
Proof.
  intros Hf Hc Ho Em. unfold owed in Ho. rewrite Em in Ho. destruct Ho as (He & Hs & Hp & Hl).
  unfold receive_body, take_number. rewrite Em, He, Hs, !Z.eqb_refl. cbn [is_heartbeat negb orb].
  rewrite bool_decide_eq_true_2 by done. cbn [negb]. destruct (checked_add_u64 _ 1) as [n|] eqn:E.
  - cbn [st_bind negb set_control su_peer_ready su_local_is_source su_local_ready]. rewrite Hp.
    assert (negb (su_local_is_source c) && negb (su_local_ready c) = false) as ->
      by (destruct (su_local_is_source c); [done|]; by rewrite Hl).
    apply checked_add_u64_Some in E as ->.
    intros [= <- <-]. right. split; [|done]. split_and!; try done. by apply clean_live; [|apply Hc].
  - pose proof (@fail_startup_spec bool c StSequence Hf) as H. unfold checked_add_u64 in E.
    destruct (_ <=? u64_max) eqn:Hb; [done|]. bool_inv.
    destruct (fail_startup c StSequence) as [c2 r2]. destruct H as (S2 & C2 & -> & F2); [|done|].
    { cbn. unfold exhausted. lia. }
    cbn [st_bind]. intros [= <- <-]. left. split_and!; try done. intros _. by rewrite F2.
Qed.

Lemma receive_startup_spec c f now c' r : clean c -> (su_failure c = None -> owed c f) ->
  receive_startup c f now = (c', r) -> received c c' f r.
Proof.
  intros Hc Ho H. assert (receive_startup c f now =
    let? (c, _) := check_startup c now in
    let '(l, allowed) := allow_at (rc_limiter (su_control c)) (millis_u64 now) in
    let c := set_control c (with_limiter (su_control c) l) in
    if negb (is_ok allowed) then fail_startup c StRateLimited else receive_body c f now) as E by done.
  rewrite E in H. revert H. clear E. pose proof (check_startup_spec c now Hc) as H1.
  destruct (check_startup c now) as [c1 [[]|e]]; cbn [st_bind].
  2:{ destruct H1 as (S1 & C1 & F1). intros [= <- <-]. left. cbn in *. split_and!; try done. by rewrite F1. }
  pose proof (called_was_live _ _ _ H1 (proj2 (proj2 H1))) as Hf. destruct H1 as (S1 & C1 & F1). cbn [fst snd] in *.
  destruct (allow_at _ _) as [l allowed]. cbn zeta. set (c2 := set_control c1 _).
  assert (still c1 c2) as S2 by (split_and!; try done; by rewrite F1).
  assert (clean c2) as C2 by exact C1. assert (still c c2) as S by (by eapply still_trans).
  intros H. assert (received c2 c' f r) as Hr.
  { destruct (is_ok allowed); cbn [negb] in H.
    - pose proof (owed_still _ _ _ S (Ho Hf)) as Ho2. destruct (owed_cases _ _ Ho2) as [[t Ht]|[(t & Ht & Hk)|Hr]].
      + by eapply receive_ping. + by eapply receive_pong_spec. + by eapply receive_ready.
    - pose proof (@fail_startup_spec (option Frame) c2 StRateLimited F1 I C2) as H3.
      destruct (fail_startup c2 StRateLimited) as [c3 r3]. destruct H3 as (S3 & C3 & -> & F3). injection H as <- <-.
      left. split_and!; try done. by rewrite F3. }
  destruct Hr as [(S3 & C3 & Hg & Hm)|[(E1 & E2 & E3 & E4 & E5 & E6 & E7 & E8) Hm]]; [left|right].
  - split_and!; try done. by eapply still_trans.
  - split; [|done]. destruct S as (A1 & A2 & A3 & A4 & A5 & A6 & A7 & _).
    split_and!; try congruence; try done. lia.
Qed.

(** ** The invariant of a pair *)

(** What is under way from [c] to [d]: heartbeats, replies to challenges of [d],
    and at most one announcement, with the number [d] waits for. *)
Definition controls (q : list Frame) : list Frame := filter (fun f => is_heartbeat (message f) = false) q.
Definition may_send (c d : StartupControl) (f : Frame) : Prop :=
  match message f with MsgPing t => t < token_of c | MsgPong t => t < token_of d | MsgSessionReady => True | _ => False end.
Definition numbered (c d : StartupControl) (cd : list Frame) : Prop :=
  (controls cd = [] /\ rc_next_outgoing (su_control c) = rc_next_incoming (su_control d)
   /\ (su_local_ready c = false -> su_peer_ready d = false))
  \/ (su_local_ready c = true /\ su_peer_ready d = false
      /\ rc_next_outgoing (su_control c) = rc_next_incoming (su_control d) + 1
      /\ controls cd = [mkFrame (rc_epoch (su_control d)) (rc_next_incoming (su_control d)) MsgSessionReady Connection]).
Definition under_way (c d : StartupControl) (cd : list Frame) : Prop :=
  rc_epoch (su_control d) = rc_epoch (su_control c) /\ Forall (may_send c d) cd /\ (su_failure d = None -> numbered c d cd).
Definition StartupInv (p : StartupPair) : Prop :=
  let '(mkStartupPair a b ab ba) := p in
  clean a /\ clean b /\ su_local_is_source a = true /\ su_local_is_source b = false
  /\ under_way a b ab /\ under_way b a ba /\ (su_local_ready a = true -> su_local_ready b = true).

(** What the invariant reads of a sender and of a receiver. *)
Definition sends_on (c c' : StartupControl) : Prop :=
  rc_epoch (su_control c') = rc_epoch (su_control c) /\ rc_next_outgoing (su_control c') = rc_next_outgoing (su_control c)
  /\ token_of c <= token_of c' /\ su_local_ready c' = su_local_ready c.
Definition takes_on (d d' : StartupControl) : Prop :=
  rc_epoch (su_control d') = rc_epoch (su_control d) /\ token_of d <= token_of d'
  /\ (su_failure d' = None ->
      su_failure d = None /\ rc_next_incoming (su_control d') = rc_next_incoming (su_control d) /\ su_peer_ready d' = su_peer_ready d).
#[global] Instance sends_on_refl : Reflexive sends_on.
Proof. by intros c. Qed.
#[global] Instance takes_on_refl : Reflexive takes_on.
Proof. by intros c. Qed.
Lemma still_sends c c' : still c c' -> sends_on c c'.
Proof. intros (E1 & E2 & E3 & E4 & E5 & E6 & E7 & E8). by split_and!. Qed.
Lemma still_takes c c' : still c c' -> takes_on c c'.
Proof.
  intros (E1 & E2 & E3 & E4 & E5 & E6 & E7 & E8). split_and!; try done. intros Hn.
  destruct (su_failure c) eqn:E; [|done]. rewrite E8 in Hn; congruence.
Qed.
Lemma announced_takes c c' out : announced c c' out -> takes_on c c'.
Proof. intros (E1 & E2 & E3 & E4 & E5 & E6 & E7 & _). by split_and!. Qed.
Lemma ready_sends c c' : got_ready c c' -> sends_on c c'.
Proof. intros (E1 & E2 & E3 & E4 & E5 & E6 & E7 & E8). by split_and!. Qed.

Lemma under_way_mono c c' d d' cd : sends_on c c' -> takes_on d d' -> under_way c d cd -> under_way c' d' cd.
Proof.
  intros (A1 & A2 & A3 & A4) (B1 & B2 & B3) (H1 & H2 & H3). split_and!; [congruence| |].
  - eapply Forall_impl; [|exact H2]. intros f. unfold may_send. destruct (message f); try done; lia.
  - intros Hn. destruct (B3 Hn) as (Hf & B4 & B5). specialize (H3 Hf). unfold numbered. by rewrite A2, A4, B1, B4, B5.
Qed.
Lemma controls_app q1 q2 : controls (q1 ++ q2) = controls q1 ++ controls q2.
Proof. apply list.filter_app. Qed.
Lemma controls_heartbeat f q : is_heartbeat (message f) = true -> controls (f :: q) = controls q.
Proof. intros H. apply list.filter_cons_False. by rewrite H. Qed.
Lemma under_way_push c d cd f : is_heartbeat (message f) = true -> may_send c d f -> under_way c d cd -> under_way c d (cd ++ [f]).
Proof.
  intros Hh Hm (H1 & H2 & H3). split_and!; [done| |].
  - apply Forall_app. split; [done|]. by apply list.Forall_cons.
  - unfold numbered. by rewrite controls_app, controls_heartbeat, app_nil_r.
Qed.
Lemma under_way_drop c d q1 f q2 : is_heartbeat (message f) = true -> under_way c d (q1 ++ f :: q2) -> under_way c d (q1 ++ q2).
Proof.
  intros Hh (H1 & H2 & H3). unfold under_way, numbered in *. rewrite controls_app, controls_heartbeat, <-controls_app in H3 by done.
  split_and!; [done| |done]. apply Forall_app in H2 as [? H2]. apply list.Forall_cons in H2 as [_ H2]. by apply Forall_app.
Qed.
Lemma under_way_announce c c' d cd out : announced c c' out -> under_way c d cd -> under_way c' d (cd ++ option_list out).
Proof.
  intros (E1 & E2 & E3 & E4 & E5 & E6 & E7 & E8 & _ & _ & Hout) (H1 & H2 & H3). split_and!; [congruence| |].
  - apply Forall_app. split; [|destruct Hout as [[-> _]|[-> _]]; cbn; repeat constructor].
    eapply Forall_impl; [|exact H2]. intros f. unfold may_send. destruct (message f); try done; lia.
  - intros Hn. specialize (H3 Hn) as [(Hc & Hseq & Hp)|[Hl _]]; [|congruence]. specialize (Hp E7).
    unfold numbered. rewrite controls_app, Hc, E8. destruct Hout as [[-> Ho]|[-> Ho]]; [right|left; by rewrite Ho].
    rewrite Ho, Hseq. split_and!; try done. unfold controls, ready_frame. cbn. by rewrite Hseq, H1.
Qed.
Lemma under_way_owed c d f cd : under_way c d (f :: cd) -> (su_local_is_source d = false -> su_local_ready c = true -> su_local_ready d = true) ->
  su_failure d = None -> owed d f.
Proof.
  intros (H1 & H2 & H3) Hr Hf. specialize (H3 Hf). apply list.Forall_cons in H2 as [H2 _].
  unfold may_send, owed in *. destruct (message f) eqn:Em; try done.
  assert (controls (f :: cd) = f :: controls cd) as Ec by (apply list.filter_cons_True; by rewrite Em).
  destruct H3 as [[Hc _]|(Hl & Hp & _ & Hc)]; rewrite Ec in Hc; [done|]. injection Hc as -> _. cbn. eauto.
Qed.
Lemma under_way_ready c d d' f cd : under_way c d (f :: cd) -> su_failure d = None -> message f = MsgSessionReady ->
  got_ready d d' -> under_way c d' cd.
Proof.
  intros (H1 & H2 & H3) Hf Em (A1 & A2 & A3 & A4 & A5 & A6 & A7 & A8). specialize (H3 Hf).
  assert (controls (f :: cd) = f :: controls cd) as Ec by (apply list.filter_cons_True; by rewrite Em).
  apply list.Forall_cons in H2 as [_ H2]. split_and!; [congruence| |].
  - eapply Forall_impl; [|exact H2]. intros g. unfold may_send. destruct (message g); try done; lia.
  - intros _. left. destruct H3 as [[Hc _]|(Hl & Hp & Hn & Hc)]; rewrite Ec in Hc; [done|]. injection Hc as _ ->.
    split_and!; [done|lia|congruence].
Qed.
Lemma under_way_failed c d f cd : under_way c d (f :: cd) -> su_failure d <> None -> under_way c d cd.
Proof. intros (H1 & H2 & _) Hf. apply list.Forall_cons in H2 as [_ H2]. by split_and!. Qed.
Lemma peer_ready_said c d cd : under_way c d cd -> su_failure d = None -> su_peer_ready d = true -> su_local_ready c = true.
Proof. intros (_ & _ & H) Hf Hp. specialize (H Hf) as [(_ & _ & H)|(H & _)]; [|done]. destruct (su_local_ready c); [done|]. by rewrite H in Hp. Qed.

(** ** Both ends keep it *)

Lemma heartbeat_or_ready c d f : may_send c d f -> is_heartbeat (message f) = true \/ message f = MsgSessionReady.
Proof. unfold may_send. destruct (message f); naive_solver. Qed.

Lemma end_calls c d cd dc call c' cd' : clean c -> under_way c d cd -> under_way d c dc -> startup_call c cd call = (c', cd') ->
  clean c' /\ under_way c' d cd' /\ under_way d c' dc /\ su_local_is_source c' = su_local_is_source c
  /\ (su_local_ready c' = su_local_ready c
      \/ su_local_ready c' = true /\ (su_local_is_source c = true -> su_local_ready d = true)).
Proof.
  intros Hc Hcd Hdc E. destruct (startup_call_spec _ _ _ _ _ Hc E) as [(S & C & Hq)|(out & Ha & ->)].
  - destruct (S) as (_ & _ & _ & _ & Hr & Hl & _). split_and!; auto.
    + destruct Hq as [->|(f & -> & Hf)]; [by eapply under_way_mono; [apply still_sends| |]|].
      apply under_way_push; [| |by eapply under_way_mono; [apply still_sends| |]]; unfold plain, may_send in *; destruct (message f); done.
    + by eapply under_way_mono; [|apply still_takes|].
  - destruct (Ha) as (_ & _ & _ & Hr & _ & Hf & _ & Hl & C & Hp & _). split_and!; auto.
    + by eapply under_way_announce.
    + by eapply under_way_mono; [|eapply announced_takes|].
    + right. split; [done|]. intros Hs. by eapply peer_ready_said; [..|apply Hp].
Qed.

Lemma end_receives c d f cd dc now d' r : clean d -> under_way c d (f :: cd) -> under_way d c dc ->
  (su_local_is_source d = false -> su_local_ready c = true -> su_local_ready d = true) ->
  receive_startup d f now = (d', r) ->
  clean d' /\ under_way c d' cd /\ under_way d' c (sent dc r) /\ su_local_is_source d' = su_local_is_source d
  /\ su_local_ready d' = su_local_ready d.
Proof.
  intros Hd Hcd Hdc Hr E. pose proof (under_way_owed _ _ _ _ Hcd Hr) as Ho.
  assert (may_send c d f) as Hm by (destruct Hcd as (_ & H & _); by apply list.Forall_cons in H as [H _]).
  destruct (receive_startup_spec _ _ _ _ _ Hd Ho E) as [(S & C & Hg & Hrd)|(G & Em & ->)].
  - destruct (S) as (_ & _ & _ & _ & Es & El & _).
    assert (under_way c d' (f :: cd)) as Hcd' by (by eapply under_way_mono; [|apply still_takes|]).
    assert (under_way d' c dc) as Hdc' by (by eapply under_way_mono; [apply still_sends| |]). split_and!; auto.
    + destruct (heartbeat_or_ready _ _ _ Hm) as [Hh|Hh]; [by apply (under_way_drop c d' [] f)|by eapply under_way_failed; [|apply Hrd]].
    + destruct r as [[g|]|]; cbn; try done. destruct (Hg g eq_refl) as (t & Eg & Ef).
      apply under_way_push; [by rewrite Eg| |done]. unfold may_send in *. by rewrite Eg; rewrite Ef in Hm.
  - destruct (G) as (_ & _ & _ & Es & El & _ & C & _). split_and!; auto.
    + destruct (su_failure d) eqn:Ef; [|by eapply under_way_ready].
      exfalso. revert E. unfold receive_startup, check_startup. rewrite Ef. cbn. congruence.
    + cbn. by eapply under_way_mono; [apply ready_sends| |].
Qed.

Lemma startup_step_inv p p' : StartupInv p -> startup_step p p' -> StartupInv p'.
Proof.
  intros H Hs. destruct Hs; destruct H as (Ca & Cb & Ra & Rb & Hab & Hba & Hl).
  - destruct (end_calls _ _ _ _ _ _ _ Ca Hab Hba H0) as (? & ? & ? & Es & El). split_and!; try done; [congruence|].
    destruct El as [-> | [-> El]]; auto.
  - destruct (end_calls _ _ _ _ _ _ _ Cb Hba Hab H0) as (? & ? & ? & Es & El). split_and!; try done; [congruence|].
    intros Hx. destruct El as [-> | [-> El]]; auto.
  - destruct (end_receives _ _ _ _ _ _ _ _ Cb Hab Hba (fun _ => Hl) H0) as (? & ? & ? & Es & El).
    split_and!; try done; [congruence|by rewrite El].
  - destruct (end_receives _ _ _ _ _ _ _ _ Ca Hba Hab ltac:(congruence) H0) as (? & ? & ? & Es & El).
    split_and!; try done; [congruence|by rewrite El].
  - split_and!; try done. by eapply under_way_drop.
  - split_and!; try done. by eapply under_way_drop.
Qed.
Lemma startup_reach_inv p : startup_reach p -> StartupInv p.
Proof.
  induction 1 as [ep n now_a now_b|p p' _ IH Hs]; [|by eapply startup_step_inv].
  cbn. split_and!; try done; try (by apply clean_live); split_and!; try done; intros _; left; done.
Qed.

(** ** Claims *)

(** C36. Two ends of a direction that only announce when they may never blame one
    another, whatever heartbeats are lost and however their clocks run: a
    failure is a clock, a deadline, the frame rate or a counter at its last
    value, never a message out of place; and the source announces after the
    receiver has. *)
Theorem startup_never_blames p : startup_reach p ->
  (forall c e, c = sp_source p \/ c = sp_receiver p -> su_failure c = Some e ->
     e = StDeadline \/ e = StRateLimited
     \/ (exists h, e = StHealth h /\ h <> UnexpectedResponse)
     \/ (e = StSequence /\ exhausted c))
  /\ (su_local_ready (sp_source p) = true -> su_local_ready (sp_receiver p) = true).
Proof.
  intros H%startup_reach_inv. destruct p as [a b ab ba]. destruct H as (Ca & Cb & _ & _ & _ & _ & Hl). split; [|done].
  intros c e Hc He. assert (fine c e) as Hf by (destruct Hc as [-> | ->]; [by apply Ca|by apply Cb]).
  destruct e as [[]| | | | |]; cbn in Hf; try done; eauto 10.
Qed.

(** Runs, for evaluation. *)
Inductive StartupMove := SourceCalls (call : StartupCall) | ReceiverCalls (call : StartupCall) | ToReceiver (now : Z) | ToSource (now : Z).
Definition startup_move (p : StartupPair) (m : StartupMove) : StartupPair :=
  let '(mkStartupPair a b ab ba) := p in
  match m, ab, ba with
  | SourceCalls call, _, _ => let '(a, ab) := startup_call a ab call in mkStartupPair a b ab ba
  | ReceiverCalls call, _, _ => let '(b, ba) := startup_call b ba call in mkStartupPair a b ab ba
  | ToReceiver now, f :: ab, _ => let '(b, r) := receive_startup b f now in mkStartupPair a b ab (sent ba r)
  | ToSource now, _, f :: ba => let '(a, r) := receive_startup a f now in mkStartupPair a b (sent ab r) ba
  | _, _, _ => p
  end.
Lemma startup_move_reach p m : startup_reach p -> startup_reach (startup_move p m).
Proof.
  intros H. destruct p as [a b ab ba], m as [call|call|now|now]; cbn.
  - destruct (startup_call a ab call) eqn:E. eapply startup_next; [done|]. by eapply step_source_call.
  - destruct (startup_call b ba call) eqn:E. eapply startup_next; [done|]. by eapply step_receiver_call.
  - destruct ab as [|f ab]; [done|]. destruct (receive_startup b f now) eqn:E. eapply startup_next; [done|]. by eapply step_to_receiver.
  - destruct ba as [|f ba]; [done|]. destruct (receive_startup a f now) eqn:E. eapply startup_next; [done|]. by eapply step_to_source.
Qed.
Lemma startup_moves_reach ms p : startup_reach p -> startup_reach (foldl startup_move p ms).
Proof. revert p. induction ms as [|m ms IH]; intros p H; [done|]. apply IH. by apply startup_move_reach. Qed.

(** Both ends challenge and answer, then the receiver announces and the source. *)
Definition settled_pair : StartupPair :=
  foldl startup_move (mkStartupPair (new_startup 10 3 true 0) (new_startup 10 3 false 0) [] [])
    [SourceCalls (CallPoll 0); ReceiverCalls (CallPoll 0); ToReceiver 1; ToSource 1; ToSource 2; ToReceiver 2;
     ReceiverCalls (CallAnnounce 3); ToSource 4; SourceCalls (CallAnnounce 5); ToReceiver 6].

Lemma startup_never_blames_witness :
  startup_reach settled_pair /\ su_local_ready (sp_source settled_pair) = true
  /\ su_local_ready (sp_receiver settled_pair) = true.
Proof.
  assert (startup_reach settled_pair) as H by apply startup_moves_reach, startup_new.
  split_and!; [exact H|by vm_compute|]. apply (startup_never_blames settled_pair H). by vm_compute.
Defined.

Lemma into_ready_spec c now k : clean c -> into_ready c now = Ok k ->
  su_failure c = None /\ su_peer_ready c = true /\ rc_epoch k = rc_epoch (su_control c)
  /\ rc_next_incoming k = rc_next_incoming (su_control c) /\ rc_next_outgoing k = rc_next_outgoing (su_control c).
Proof.
  intros Hc. unfold into_ready, startup_is_ready. pose proof (check_startup_spec c now Hc) as H1.
  destruct (check_startup c now) as [c1 [[]|e]]; cbn [st_bind]; [|done].
  pose proof (called_was_live _ _ _ H1 (proj2 (proj2 H1))) as Hf. destruct H1 as ((E1 & E2 & E3 & _ & _ & _ & E7 & _) & _).
  cbn [fst] in *. destruct (_ && _) eqn:Eb; intros H.
  - apply andb_prop in Eb as [[_ Hp]%andb_prop _]. injection H as <-. cbn. by rewrite E1, E2, E3, <-E7.
  - unfold fail_startup in H. by destruct (su_failure c1).
Qed.

(** Ends that both go on from startup agree: on the epoch, and on the number
    of the next reliable frame each way. *)
Theorem startup_hands_over p now_a now_b ka kb : startup_reach p ->
  into_ready (sp_source p) now_a = Ok ka -> into_ready (sp_receiver p) now_b = Ok kb ->
  rc_epoch ka = rc_epoch kb /\ rc_next_outgoing ka = rc_next_incoming kb /\ rc_next_outgoing kb = rc_next_incoming ka.
Proof.
  intros H%startup_reach_inv Ha Hb. destruct p as [a b ab ba]. destruct H as (Ca & Cb & _ & _ & (Ee & _ & Nab) & (_ & _ & Nba) & _).
  destruct (into_ready_spec _ _ _ Ca Ha) as (Fa & Pa & Ea & Ia & Oa), (into_ready_spec _ _ _ Cb Hb) as (Fb & Pb & Eb & Ib & Ob).
  cbn in *. specialize (Nab Fb) as [(_ & Nab & _)|(_ & ? & _)]; [|congruence].
  specialize (Nba Fa) as [(_ & Nba & _)|(_ & ? & _)]; [|congruence]. split_and!; congruence.
Qed.
Lemma startup_hands_over_witness : exists ka kb, into_ready (sp_source settled_pair) 7 = Ok ka
  /\ into_ready (sp_receiver settled_pair) 7 = Ok kb /\ rc_next_outgoing ka = 4 /\ rc_next_incoming kb = rc_next_outgoing ka.
Proof.
  destruct (into_ready (sp_source settled_pair) 7) as [ka|] eqn:Ea; [|by vm_compute in Ea].
  destruct (into_ready (sp_receiver settled_pair) 7) as [kb|] eqn:Eb; [|by vm_compute in Eb].
  assert (startup_reach settled_pair) as H by apply startup_moves_reach, startup_new.
  exists ka, kb. split_and!; [done|done|by vm_compute in Ea; injection Ea as <-|].
  destruct (startup_hands_over settled_pair 7 7 ka kb H Ea Eb) as (_ & Hn & _). by rewrite Hn.
Defined.
