(* ===== verification/CaptureLedger.v ===== *)
(** * What the physical ledger guarantees (capture_physical.rs)

    [World] is the ledger with its queue and what the local applications were
    shown.  [world_step] is one captured event, one native transfer, a startup key
    that turned out to be up, a tick, or a step of the other threads: they move the
    gate and may stop the capture.  The theorems say that the ledger knows exactly
    what the applications hold, that the keys it queues are a stream the source
    controller accepts, and that the emergency chord always ends the capture. *)

From stdpp Require Import gmap.
From S2P Require Import Prelude F64 Types SourceEdges SourceState Source SourceStream.
From S2P Require Import Floor TakeBack HeldInput CaptureEvent CaptureQueue CaptureLease CapturePhysical.

(** ** One press *)

(** The press after an event, and whether the event is withheld: [now] is the
    press the event finds, [suppress] and [queued] what the route and the queue
    decided. *)
Definition net (now previous : Press) (pressed holding suppress queued : bool) : Press * bool :=
  let '(p, early) := withhold_press now previous pressed holding in
  match early with
  | Some s => (p, s)
  | None =>
      let '(p, s) := update_press p previous pressed suppress in
      (if pressed && queued then set_queued p true else p, s || (holding && pressed))
  end.

(** [shown] is whether the applications hold it. *)
Definition press_ok (p : Press) (shown : bool) : bool :=
  Bool.eqb (local_down p) shown
  && implb (physical p) (local_down p || suppressed_down p || withheld p)
  && implb (queued_down p) (physical p && negb (withheld p) && negb (initially_held p)).
(** What the session counts as held. *)
Definition counted (p : Press) : bool := physical p && negb (withheld p) && negb (initially_held p).

Lemma net_ok now p pressed holding suppress queued shown :
  press_ok p shown = true -> now = p \/ now = set_physical p pressed -> (queued = true -> initially_held p = false) ->
  let '(p', s) := net now p pressed holding suppress queued in press_ok p' (if s then shown else pressed) = true.
Proof.
  intros Hp Hn Hq. destruct p as [[] [] [] [] [] [] []]; try done; destruct shown; try done;
    destruct queued; try (specialize (Hq eq_refl)); try done;
    destruct Hn as [-> | ->], pressed, holding, suppress; done.
Qed.
Lemma net_counted now p pressed holding suppress queued shown :
  press_ok p shown = true -> counted p = queued_down p -> now = set_physical p pressed ->
  (queued = true -> initially_held p = false) ->
  (pressed = true -> initially_held p = false -> snd (withhold_press now p pressed holding) = None -> queued = true) ->
  let '(p', _) := net now p pressed holding suppress queued in
  counted p' = queued_down p'
  /\ queued_down p' = pressed && (queued_down p || (queued && bool_decide (snd (withhold_press now p pressed holding) = None))).
Proof.
  intros Hp Hc Hn Hq Hw. destruct p as [[] [] [] [] [] [] []]; try done; destruct shown; try done; subst now;
    destruct pressed, holding, queued; cbn in *;
    try (specialize (Hq eq_refl)); try (specialize (Hw eq_refl eq_refl eq_refl)); try done; destruct suppress; done.
Qed.

(** ** The ledger and its surroundings *)

Section Ledger.
Context {F : Type} `{SharedFloorI F} {C : Type} `{CaptureSink C}.

Record World := mkWorld {
  wd_capture : PhysicalCapture F; wd_sink : C; wd_shown : HeldPress -> bool }.

Definition is_input (i : HeldPress) : bool := match i with HeldKey u => usage_is_valid u | HeldButton _ => true end.
Definition show (shown : HeldPress -> bool) (i : HeldPress) (b : bool) : HeldPress -> bool :=
  fun j => if decide (j = i) then b else shown j.
(** An event the callback does not withhold reaches the applications. *)
Definition event_shown (shown : HeldPress -> bool) (e : CaptureEvent) (withheld : bool) : HeldPress -> bool :=
  if withheld then shown
  else match e with
       | EvKey u pressed _ _ => show shown (HeldKey u) pressed
       | EvButton b pressed _ => show shown (HeldButton b) pressed
       | _ => shown
       end.
Definition transfer_shown (shown : HeldPress -> bool) (t : LocalTransfer) : HeldPress -> bool :=
  match t with
  | TransferKey u pressed => show shown (HeldKey u) pressed
  | TransferButton b pressed => show shown (HeldButton b) pressed
  end.

Inductive LedgerOp :=
| OpEvent (e : CaptureEvent) (travel : option (f64 * f64)) (remote : bool) (now : Z)
| OpTransfer (t : LocalTransfer)
| OpForget (i : HeldPress)
| OpTick (now : Z)
| OpRevision (revision : Z)
| OpGate (g : Gate F)
| OpStop (reason : StopReason).

Definition world_step (w : World) (op : LedgerOp) : option World :=
  let '(mkWorld c ch shown) := w in
  match op with
  | OpEvent e travel remote now =>
      '(c, ch, s) ← process_with_travel 1 c ch e travel remote now;
      Some (mkWorld c ch (event_shown shown e s))
  | OpTransfer t => Some (mkWorld (apply_transfer_success c t) ch (transfer_shown shown t))
  | OpForget i =>
      let '(c, up) := forget_initially_held c i in Some (mkWorld c ch (if up then show shown i false else shown))
  | OpTick now => let '(c, ch) := tick c ch now in Some (mkWorld c ch shown)
  | OpRevision r => Some (mkWorld (set_routing_revision c r) ch shown)
  | OpGate g => Some (mkWorld (set_take_back c (pc_take_back c ≫= fun _ => Some g)) ch shown)
  | OpStop reason => Some (mkWorld c (sink_halt ch reason) shown)
  end.

(** Other threads leave a floor that is one. *)
Definition gate_holds (g : Gate F) : Prop := exists s, fl_holds (gate_floor g) s.
Definition op_ok (op : LedgerOp) : Prop := match op with OpGate g => gate_holds g | _ => True end.

(** A capture starts with an empty queue, what the startup snapshot read as held,
    and a gate or none. *)
Definition seed_shown (w : World) (i : HeldPress) : World :=
  mkWorld (match i with
           | HeldKey u => seed_locally_held_key (wd_capture w) u
           | HeldButton b => seed_locally_held_button (wd_capture w) b
           end) (wd_sink w) (show (wd_shown w) i true).
Definition start_world (passive : bool) (now : Z) (g : option (Gate F)) (ch : C) : World :=
  mkWorld (set_take_back (if passive then new_passive now else new_capture now) g) ch (fun _ => false).
(** What the capture goes through while [P] holds of it. *)
Inductive world_reach (P : World -> Prop) : World -> Prop :=
| reach_new (passive : bool) now g ch (held : list HeldPress) :
    sink_ok ch -> sink_log ch = [] -> match g with Some g => gate_holds g | None => True end ->
    P (foldl seed_shown (start_world passive now g ch) held) ->
    world_reach P (foldl seed_shown (start_world passive now g ch) held)
| reach_step w op w' :
    world_reach P w -> op_ok op -> world_step w op = Some w' -> P w' -> world_reach P w'.

(** ** Reading and writing presses *)

Definition Sized (c : PhysicalCapture F) : Prop := length (pc_keys c) = 256%nat /\ length (pc_buttons c) = 5%nat.
Definition press_set (c : PhysicalCapture F) (i : HeldPress) (p : Press) : PhysicalCapture F :=
  match i with HeldKey u => set_key_press c u p | HeldButton b => set_button_press c b p end.

Lemma press_of_set c i p j :
  Sized c -> is_input i = true -> press_of (press_set c i p) j = if decide (j = i) then p else press_of c j.
Proof.
  intros [S1 S2] Hi. destruct i as [u|b], j as [u'|b']; cbn [press_of press_set]; unfold key_press, button_press;
    cbn [pc_keys pc_buttons set_key_press set_button_press]; try (by rewrite decide_False by done).
  - cbn in Hi. unfold usage_is_valid in Hi. destruct (decide (u' = u)) as [->|Hn].
    + rewrite decide_True, list_lookup_insert_eq by (done || rewrite S1; bool_inv; lia). done.
    + rewrite decide_False by (intros [= ?]; done). rewrite list_lookup_insert_ne; [done|]. bool_inv; lia.
  - destruct (decide (b' = b)) as [->|Hn].
    + rewrite decide_True, list_lookup_insert_eq by (done || rewrite S2; destruct b; cbn; lia). done.
    + rewrite decide_False by (intros [= ?]; done). rewrite list_lookup_insert_ne; [done|]. by destruct b, b'.
Qed.
Lemma sized_set c i p : Sized c -> Sized (press_set c i p).
Proof. intros [S1 S2]. destruct i; split; cbn; by rewrite ?length_insert. Qed.

(** Two ledgers that hold the same presses. *)
Definition same_presses (c c' : PhysicalCapture F) : Prop := pc_keys c' = pc_keys c /\ pc_buttons c' = pc_buttons c.
Lemma same_press c c' i : same_presses c c' -> press_of c' i = press_of c i.
Proof. intros [E1 E2]. destruct i; cbn; unfold key_press, button_press; by rewrite ?E1, ?E2. Qed.

(** ** The queue *)

Definition stopped (ch : C) : bool := is_stopped (sink_stop ch).
Lemma push_if_spec queue ch r :
  sink_ok ch -> exists ch' ok, push_if queue ch r = Some (ch', ok) /\ sink_ok ch'
    /\ sink_log ch' = (if ok then sink_log ch ++ [r] else sink_log ch)
    /\ (stopped ch = true -> stopped ch' = true) /\ (ok = true -> queue = true /\ stopped ch' = false)
    /\ (stopped ch' = false -> queue = true -> ok = true).
Proof.
  intros Hok. unfold push_if, stopped.
  destruct (is_stopped (sink_stop ch)) eqn:Es; rewrite ?andb_false_r.
  - exists ch, false. split_and!; try done. by rewrite Es.
  - destruct queue; cbn [andb negb].
    + destruct (sink_push_spec ch r Hok) as (ch' & [] & -> & Hok' & Hs & Hl); exists ch'; eexists;
        (split; [done|]); split_and!; try done. by rewrite Hs.
    + exists ch, false. by split_and!.
Qed.

(** ** A key event *)

Definition calm (c : PhysicalCapture F) : Prop :=
  pc_intercepts_escape c = true -> pc_chord_since c = None /\ pc_reserved_escape c = false.
Definition key_record (c : PhysicalCapture F) (u : HidUsage) (pressed remote : bool) (gen : Z) : CapturedEvent :=
  let p := key_press c u in
  mkCaptured (EvKey u pressed (pressed && physical p) (modifiers (set_key_press c u (set_physical p pressed))))
    (pc_routing_revision c) remote gen.

Lemma modifiers_same (c c' : PhysicalCapture F) : pc_keys c = pc_keys c' -> modifiers c = modifiers c'.
Proof. intros E. unfold modifiers, key_press. by rewrite E. Qed.
Lemma note_chord_fields (c : PhysicalCapture F) now :
  pc_keys (note_chord c now) = pc_keys c /\ pc_buttons (note_chord c now) = pc_buttons c
  /\ pc_intercepts_escape (note_chord c now) = pc_intercepts_escape c
  /\ pc_routing_revision (note_chord c now) = pc_routing_revision c
  /\ pc_take_back (note_chord c now) = pc_take_back c
  /\ pc_withholding_since (note_chord c now) = pc_withholding_since c.
Proof. unfold note_chord. by destruct (chord_held c). Qed.

(** The chord's part of a key event: it changes no press. *)
Definition chord_after (c : PhysicalCapture F) (u : HidUsage) (pressed : bool) (now : Z) : PhysicalCapture F :=
  let c := note_chord c now in
  if (u =? ESCAPE) && negb pressed then set_chord c (pc_chord_since c) false else c.
Lemma chord_after_fields c u pressed now :
  let c' := chord_after c u pressed now in
  pc_keys c' = pc_keys c /\ pc_buttons c' = pc_buttons c /\ pc_intercepts_escape c' = pc_intercepts_escape c
  /\ pc_routing_revision c' = pc_routing_revision c /\ pc_take_back c' = pc_take_back c
  /\ pc_withholding_since c' = pc_withholding_since c.
Proof. unfold chord_after, note_chord. destruct (chord_held c), (u =? ESCAPE), pressed; done. Qed.

(** What a key event leaves. *)
Definition key_result (c : PhysicalCapture F) (ch : C) (u : HidUsage) (pressed remote : bool) (gen : Z)
    (holding : bool) (c' : PhysicalCapture F) (ch' : C) (s : bool) : Prop :=
  let p := key_press c u in
  let early := snd (withhold_press (set_physical p pressed) p pressed holding) in
  exists suppress queued,
    (key_press c' u, s) = net (set_physical p pressed) p pressed holding suppress queued
    /\ (forall j, j <> HeldKey u -> press_of c' j = press_of c j)
    /\ Sized c' /\ sink_ok ch' /\ pc_take_back c' = pc_take_back c
    /\ (stopped ch = true -> stopped ch' = true)
    /\ sink_log ch' = (if bool_decide (early = None) && queued then sink_log ch ++ [key_record c u pressed remote gen]
                       else sink_log ch)
    /\ (queued = true -> initially_held p = false /\ stopped ch' = false)
    /\ (queued = true -> pressed = false -> queued_down p = true)
    /\ (calm c -> calm c' -> stopped ch' = false -> early = None -> initially_held p = false ->
        (pressed || queued_down p) = true -> queued = true).

Lemma process_key_spec c ch u pressed remote gen now holding :
  Sized c -> sink_ok ch -> usage_is_valid u = true ->
  exists c' ch' s, process_key c ch u pressed remote gen now holding = Some (c', ch', s)
    /\ key_result c ch u pressed remote gen holding c' ch' s.
Proof.
  intros HS Hok Hu. unfold process_key, key_result. rewrite Hu. cbn [negb]. set (p := key_press c u).
  set (c1 := set_key_press c u (set_physical p pressed)).
  change (if (u =? ESCAPE) && negb pressed then _ else note_chord c1 now) with (chord_after c1 u pressed now).
  set (reserved := pc_intercepts_escape (note_chord c1 now) && (u =? ESCAPE) && pc_reserved_escape (note_chord c1 now)).
  set (c2 := chord_after c1 u pressed now).
  destruct (chord_after_fields c1 u pressed now) as (K1 & K2 & K3 & K4 & K5 & K6). fold c2 in K1, K2, K3, K4, K5, K6.
  assert (forall j, press_of c1 j = if decide (j = HeldKey u) then set_physical p pressed else press_of c j) as P1
    by (intros j; exact (press_of_set c (HeldKey u) _ j HS Hu)).
  assert (forall j, press_of c2 j = press_of c1 j) as P2 by (intros j; by apply same_press).
  assert (Sized c2) as HS2.
  { unfold Sized. rewrite K1, K2. exact (sized_set c (HeldKey u) _ HS). }
  assert (key_press c2 u = set_physical p pressed) as E2.
  { change (press_of c2 (HeldKey u) = set_physical p pressed). by rewrite P2, P1, decide_True. }
  rewrite E2. destruct (withhold_press (set_physical p pressed) p pressed holding) as [p3 early] eqn:Ew.
  cbn [snd]. set (c3 := set_key_press c2 u p3).
  assert (forall j, press_of c3 j = if decide (j = HeldKey u) then p3 else press_of c j) as P3.
  { intros j. etrans; [exact (press_of_set c2 (HeldKey u) p3 j HS2 Hu)|]. rewrite P2, P1. by case_decide. }
  pose proof (sized_set c2 (HeldKey u) p3 HS2) as HS3. change (Sized c3) in HS3.
  destruct early as [s|].
  { exists c3, ch, s. split; [done|]. exists false, false. unfold net. rewrite Ew.
    split; [f_equal; change (press_of c3 (HeldKey u) = p3); by rewrite P3, decide_True|].
    split; [intros j Hj; by rewrite P3, decide_False|]. by split_and!. }
  assert (p3 = set_physical p pressed) as ->.
  { unfold withhold_press in Ew. repeat case_match; by simplify_eq. }
  match goal with |- context [push_if ?q ch ?r] => destruct (push_if_spec q ch r Hok) as (ch' & ok & -> & Hok' & Hlog & Hst & Hq & Hq') end.
  cbn [mbind option_bind]. set (sup := _ || (reserved && _)).
  assert (key_press c3 u = set_physical p pressed) as E3.
  { change (press_of c3 (HeldKey u) = set_physical p pressed). by rewrite P3, decide_True. }
  rewrite E3. destruct (update_press (set_physical p pressed) p pressed sup) as [p4 s] eqn:Eu.
  eexists _, ch', _. split; [done|]. exists sup, ok. unfold net. rewrite Ew, Eu.
  pose proof (press_of_set c3 (HeldKey u) (if pressed && ok then set_queued p4 true else p4)) as P4.
  cbn [press_set] in P4. split.
  { f_equal. etrans; [exact (P4 (HeldKey u) HS3 Hu)|by rewrite decide_True]. }
  split. { intros j Hj. by rewrite P4, P3, !decide_False. }
  split; [exact (sized_set c3 (HeldKey u) _ HS3)|]. split; [done|]. split; [done|]. split; [done|]. split.
  { rewrite bool_decide_eq_true_2 by done. cbn [andb]. rewrite Hlog. unfold key_record.
    change (pc_routing_revision c3) with (pc_routing_revision c2). rewrite K4. rewrite (modifiers_same c3 c1); [done|]. cbn. rewrite K1. subst c1. cbn. by rewrite list_insert_insert_eq. }
  split. { intros [Hk ?]%Hq. by apply andb_true_iff in Hk as [?%negb_true_iff _]. }
  split. { intros [Hk _]%Hq ->. by apply andb_true_iff in Hk as [_ ?]. }
  intros Hcalm Hcalm' Hns _ Hi Hpq. apply Hq'; [done|]. rewrite Hi. cbn [negb andb]. destruct pressed; [|done].
  destruct (pc_intercepts_escape c) eqn:Ei.
  2:{ subst reserved. destruct (note_chord_fields c1 now) as (_ & _ & -> & _). cbn. by rewrite Ei. }
  destruct (Hcalm Ei) as [N1 N2]. destruct Hcalm' as [N3 N4]; [cbn; by rewrite K3|].
  change (pc_chord_since (chord_after c1 u true now) = None) in N3.
  change (pc_reserved_escape (chord_after c1 u true now) = false) in N4.
  unfold chord_after in N3, N4. cbn [negb] in N3, N4. rewrite andb_false_r in N3, N4.
  subst reserved. unfold note_chord in N3, N4 |- *. destruct (chord_held c1); [done|].
  rewrite N4, !andb_false_r. done.
Qed.

Lemma process_button_spec c ch e b pressed remote gen holding :
  Sized c -> sink_ok ch ->
  exists c' ch' s, process_button c ch e b pressed remote gen holding = Some (c', ch', s)
    /\ Sized c' /\ sink_ok ch' /\ (pc_take_back c' = pc_take_back c /\ pc_chord_since c' = pc_chord_since c)
    /\ (stopped ch = true -> stopped ch' = true)
    /\ (forall j, j <> HeldButton b -> press_of c' j = press_of c j)
    /\ (exists l, sink_log ch' = sink_log ch ++ l /\ Forall (fun r => event r = e) l)
    /\ exists suppress queued, (queued = true -> initially_held (button_press c b) = false)
      /\ (button_press c' b, s) = net (button_press c b) (button_press c b) pressed holding suppress queued.
Proof.
  intros HS Hok. unfold process_button. set (p := button_press c b).
  destruct (withhold_press p p pressed holding) as [p1 early] eqn:Ew.
  set (c1 := set_button_press c b p1). pose proof (sized_set c (HeldButton b) p1 HS) as HS1. change (Sized c1) in HS1.
  assert (forall j, press_of c1 j = if decide (j = HeldButton b) then p1 else press_of c j) as P1
    by (intros j; exact (press_of_set c (HeldButton b) p1 j HS eq_refl)).
  assert (button_press c1 b = p1) as E1.
  { change (press_of c1 (HeldButton b) = p1). by rewrite P1, decide_True. }
  destruct early as [s|].
  { exists c1, ch, s. split_and!; try done.
    - intros j Hj. by rewrite P1, decide_False.
    - exists []. by rewrite app_nil_r.
    - exists false, false. split; [done|]. unfold net. by rewrite Ew, E1. }
  match goal with |- context [push_if ?q ch ?r] => destruct (push_if_spec q ch r Hok) as (ch' & ok & -> & Hok' & Hlog & Hst & Hq & _) end.
  cbn [mbind option_bind]. rewrite E1. destruct (update_press p1 p pressed (remote && ok)) as [p2 s] eqn:Eu.
  eexists _, ch', _. split; [done|].
  pose proof (fun p => press_of_set c1 (HeldButton b) p) as P4. cbn [press_set] in P4.
  split; [exact (sized_set c1 (HeldButton b) _ HS1)|]. split_and!; try done.
  - intros j Hj. by rewrite P4, P1, !decide_False.
  - rewrite Hlog. destruct ok; [eexists; split; [done|by repeat constructor]|exists []; by rewrite app_nil_r].
  - exists (remote && ok), ok. split.
    { intros [Hk _]%Hq. by apply andb_true_iff in Hk as [?%negb_true_iff _]. }
    unfold net. rewrite Ew, Eu. f_equal. etrans; [exact (P4 _ (HeldButton b) HS1 eq_refl)|by rewrite decide_True].
Qed.

(** ** Before the event *)

Definition gate_sound (c : PhysicalCapture F) : Prop :=
  match pc_take_back c with Some g => gate_holds g | None => True end.
(** Only the clock, the gate and the take-back windows moved. *)
Definition same_ledger (c c' : PhysicalCapture F) : Prop :=
  same_presses c c' /\ pc_chord_since c' = pc_chord_since c /\ pc_reserved_escape c' = pc_reserved_escape c
  /\ pc_intercepts_escape c' = pc_intercepts_escape c.
Lemma same_ledger_refl c : same_ledger c c.
Proof. done. Qed.
Lemma same_ledger_trans c1 c2 c3 : same_ledger c1 c2 -> same_ledger c2 c3 -> same_ledger c1 c3.
Proof. intros [[] (? & ? & ?)] [[] (? & ? & ?)]. split_and!; [split; congruence|congruence..]. Qed.

Lemma ledger_tick_spec c ch now :
  sink_ok ch ->
  let '(c', ch') := tick c ch now in
  same_ledger c c' /\ pc_take_back c' = pc_take_back c /\ sink_ok ch' /\ sink_log ch' = sink_log ch
  /\ (stopped ch = true -> stopped ch' = true).
Proof.
  intros Hok. unfold tick, stopped.
  pose proof (fun r => sink_halt_spec ch r Hok) as Hh.
  destruct (_ <? _); [destruct (Hh ClockRegression) as (? & Hs & ?); by rewrite Hs|].
  cbn [pc_chord_since set_last_time]. destruct (pc_chord_since c); [|done].
  destruct (_ <=? _); [destruct (Hh EmergencyEscapeStop) as (? & Hs & ?); cbn; by rewrite Hs|done].
Qed.

Lemma deliberate_fields c e travel gen now :
  let '(c', _) := deliberate c e travel gen now in same_ledger c c' /\ pc_take_back c' = pc_take_back c.
Proof.
  unfold deliberate. destruct (negb _); [done|].
  destruct e; try done; try (destruct travel as [[dx' dy']|]; [|done]; destruct (_ && _); [|done]);
    destruct (reaches_threshold _ _ _ _ _); done.
Qed.
Lemma observe_take_back_spec c ch e travel now :
  gate_sound c -> exists c' gen, observe_take_back 1 c ch e travel now = Some (c', gen)
    /\ same_ledger c c' /\ gate_sound c'.
Proof.
  intros Hg. unfold gate_sound, observe_take_back in *. destruct (pc_take_back c) as [g|] eqn:Eg.
  2:{ exists c, 0. by rewrite Eg. }
  destruct Hg as [s Hs]. rewrite (fl_snapshot_spec _ _ Hs). cbn [mbind option_bind].
  destruct (yield_floor_spec 0 g s Hs) as [Hy _].
  destruct (bool_decide (state s = Receiving)) eqn:Er; cbn [negb].
  2:{ eexists _, _. split; [done|]. cbn. rewrite Eg. split; [done|]. by exists s. }
  pose proof (deliberate_fields c e travel (generation s) now) as Hd.
  destruct (deliberate c e travel (generation s) now) as [c1 fires]. destruct Hd as [Hd Hg1].
  destruct fires; cbn [negb].
  2:{ eexists _, _. split; [done|]. rewrite Hg1, Eg. split; [done|]. by exists s. }
  apply bool_decide_eq_true in Er. destruct (Hy Er) as (f & Hf & Hf'). unfold trigger. rewrite Hf. cbn.
  eexists _, _. split; [done|]. destruct (0 <? held g); [destruct (is_stopped _)|]; cbn; (split; [exact Hd|]); by eexists.
Qed.
Lemma withholding_fields c ch now :
  let '(c', _) := withholding c ch now in same_ledger c c' /\ pc_take_back c' = pc_take_back c.
Proof. unfold withholding. destruct (pc_withholding_since c); [|done]. by destruct (_ && _ && _). Qed.

(** ** One event, whole *)

Definition Presses (c : PhysicalCapture F) (shown : HeldPress -> bool) : Prop :=
  forall i, is_input i = true -> press_ok (press_of c i) (shown i) = true.
Definition WorldInv (w : World) : Prop :=
  Sized (wd_capture w) /\ sink_ok (wd_sink w) /\ gate_sound (wd_capture w) /\ Presses (wd_capture w) (wd_shown w).

Lemma calm_same c c' : same_ledger c c' -> calm c -> calm c'.
Proof. intros (_ & E1 & E2 & E3) Hc. unfold calm. by rewrite E1, E2, E3. Qed.
Lemma sized_same c c' : same_ledger c c' -> Sized c -> Sized c'.
Proof. intros ([E1 E2] & _) [S1 S2]. unfold Sized. by rewrite E1, E2. Qed.

(** What reaches the keys of a ledger: the event itself, on a ledger that holds
    the same presses. *)
Lemma process_front c ch e travel remote now :
  Sized c -> sink_ok ch -> gate_sound c ->
  exists c1 ch1 remote' gen holding,
    process_with_travel 1 c ch e travel remote now =
      match e with
      | EvKey usage pressed _ _ => process_key c1 ch1 usage pressed remote' gen now holding
      | EvButton button pressed _ => process_button c1 ch1 e button pressed remote' gen holding
      | _ => process_other c1 ch1 e remote' gen holding
      end
    /\ same_ledger c c1 /\ Sized c1 /\ gate_sound c1 /\ sink_ok ch1 /\ sink_log ch1 = sink_log ch
    /\ (stopped ch = true -> stopped ch1 = true).
Proof.
  intros HS Hok Hg. unfold process_with_travel. pose proof (ledger_tick_spec c ch now Hok) as Ht.
  destruct (tick c ch now) as [c1 ch1]. destruct Ht as (L1 & G1 & Hok1 & Hlog & Hst).
  assert (gate_sound c1) as Hg1 by (unfold gate_sound; by rewrite G1).
  destruct (observe_take_back_spec c1 ch1 e travel now Hg1) as (c2 & gen & -> & L2 & Hg2). cbn [mbind option_bind].
  pose proof (withholding_fields c2 ch1 now) as Hw. destruct (withholding c2 ch1 now) as [c3 holding]. destruct Hw as [L3 G3].
  assert (same_ledger c c3) as L by (eapply same_ledger_trans; [exact L1|]; by eapply same_ledger_trans).
  exists c3, ch1. eexists _, gen, holding. split; [done|]. split; [done|]. split; [by eapply sized_same|].
  split; [unfold gate_sound; by rewrite G3|done].
Qed.

Lemma same_input (i j : HeldPress) : i <> j \/ i = j.
Proof. destruct (decide (i = j)); auto. Qed.
Lemma show_eq shown i b : show shown i b i = b.
Proof. unfold show. by rewrite decide_True. Qed.
Lemma show_ne shown i b j : j <> i -> show shown i b j = shown j.
Proof. intros Hn. unfold show. by rewrite decide_False. Qed.

Lemma net_presses c c' i shown now pressed holding suppress queued s :
  Presses c shown -> (forall j, j <> i -> press_of c' j = press_of c j) -> is_input i = true ->
  now = press_of c i \/ now = set_physical (press_of c i) pressed ->
  (queued = true -> initially_held (press_of c i) = false) ->
  (press_of c' i, s) = net now (press_of c i) pressed holding suppress queued ->
  Presses c' (if s then shown else show shown i pressed).
Proof.
  intros HP Hoth Hi Hn Hq E j Hj. destruct (same_input j i) as [Hne| ->].
  - rewrite Hoth by done. destruct s; rewrite ?show_ne by done; by apply HP.
  - pose proof (net_ok now (press_of c i) pressed holding suppress queued (shown i) (HP i Hi) Hn Hq) as Hok.
    rewrite <- E in Hok. by destruct s; rewrite ?show_eq.
Qed.
Lemma presses_same c c' shown : same_ledger c c' -> Presses c shown -> Presses c' shown.
Proof. intros [L _] HP i Hi. rewrite (same_press c c' i L). by apply HP. Qed.

Lemma event_inv c ch shown e travel remote now :
  WorldInv (mkWorld c ch shown) ->
  exists c' ch' s, process_with_travel 1 c ch e travel remote now = Some (c', ch', s)
    /\ WorldInv (mkWorld c' ch' (event_shown shown e s)).
Proof.
  intros (HS & Hok & Hg & HP). cbn in HS, Hok, Hg, HP.
  destruct (process_front c ch e travel remote now HS Hok Hg) as (c1 & ch1 & rem & gen & holding & -> & L & HS1 & Hg1 & Hok1 & _).
  pose proof (presses_same c c1 shown L HP) as HP1.
  assert (forall c' ch', Sized c' -> sink_ok ch' -> pc_take_back c' = pc_take_back c1 ->
    forall shown', Presses c' shown' -> WorldInv (mkWorld c' ch' shown')) as Hinv.
  { intros c' ch' H1 H2 H3 shown' H4. split_and!; try done. cbn. unfold gate_sound. by rewrite H3. }
  destruct e as [u pressed rp m|b pressed at_| | | | | | | | | ].
  1:{ destruct (usage_is_valid u) eqn:Hu.
    - destruct (process_key_spec c1 ch1 u pressed rem gen now holding HS1 Hok1 Hu)
        as (c' & ch' & s & -> & (sup & q & E & Ho & HS' & Hok' & G' & _ & _ & Hq & _)).
      exists c', ch', s. split; [done|]. apply Hinv; try done.
      apply (net_presses c1 c' (HeldKey u) shown (set_physical (key_press c1 u) pressed) pressed holding sup q s); try done; [by right|]. intros Hk. by destruct (Hq Hk).
    - unfold process_key. rewrite Hu. cbn [negb]. eexists _, _, _. split; [done|].
      destruct (sink_halt_spec ch1 InvalidInput Hok1) as (? & _). apply Hinv; try done.
      intros i Hi. cbn. rewrite show_ne; [by apply HP1|]. intros ->. cbn in Hi. congruence. }
  1:{ destruct (process_button_spec c1 ch1 (EvButton b pressed at_) b pressed rem gen holding HS1 Hok1)
        as (c' & ch' & s & -> & HS' & Hok' & [G' _] & _ & Ho & _ & sup & q & Hq & E).
      exists c', ch', s. split; [done|]. apply Hinv; try done.
      apply (net_presses c1 c' (HeldButton b) shown (button_press c1 b) pressed holding sup q s); try done. by left. }
  all: unfold process_other;
    match goal with Hs : sink_ok ?x |- context [push_if true ?x ?r] => destruct (push_if_spec true x r Hs) as (ch' & ok & -> & Hok' & _) end;
    cbn [mbind option_bind]; (eexists _, _, _; split; [done|]); apply Hinv; try done;
    unfold event_shown; match goal with |- Presses _ (if ?b then _ else _) => by destruct b end.
Qed.

Lemma press_set_presses c shown i p b :
  Sized c -> Presses c shown -> (is_input i = true -> press_ok p b = true) ->
  Presses (if is_input i then press_set c i p else c) (show shown i b).
Proof.
  intros HS HP Hp j Hj. destruct (same_input j i) as [Hne| ->].
  - rewrite show_ne by done. destruct (is_input i) eqn:Ei; [|by apply HP].
    rewrite press_of_set, decide_False by done. by apply HP.
  - rewrite Hj, show_eq, press_of_set, decide_True by done. by apply Hp.
Qed.
Lemma transferred_ok p shown pressed : press_ok p shown = true -> press_ok (transferred p pressed) pressed = true.
Proof. destruct p as [[] [] [] [] [] [] []], shown, pressed; done. Qed.

Lemma seed_inv w i : WorldInv w -> WorldInv (seed_shown w i).
Proof.
  intros (HS & Hok & Hg & HP). destruct w as [c ch shown]. cbn in *.
  pose proof (press_set_presses c shown i initial_press true HS HP ltac:(done)) as HP'.
  unfold seed_shown, seed_locally_held_key, seed_locally_held_button. cbn [wd_capture wd_sink wd_shown].
  destruct i as [u|b]; cbn in HP'.
  - destruct (usage_is_valid u); split_and!; try done. exact (sized_set c (HeldKey u) _ HS).
  - split_and!; try done. exact (sized_set c (HeldButton b) _ HS).
Qed.
Lemma world_start_inv passive now g ch held :
  sink_ok ch -> match g with Some g => gate_holds g | None => True end ->
  WorldInv (foldl seed_shown (start_world passive now g ch) held).
Proof.
  intros Hok Hg. assert (WorldInv (start_world passive now g ch)) as HI.
  { unfold start_world. split_and!; try done; [by destruct passive|]. cbn. intros i _.
    assert (forall n k, default no_press (replicate n no_press !! k) = no_press) as Hr.
    { intros n k. destruct (_ !! k) eqn:E; [|done]. by apply lookup_replicate in E as [-> _]. }
    destruct passive, i; cbn; unfold key_press, button_press; cbn -[replicate]; by rewrite Hr. }
  revert HI. generalize (start_world passive now g ch). induction held as [|i held IH]; intros w HI; [done|].
  cbn. by apply IH, seed_inv.
Qed.

Lemma forget_inv c ch shown i :
  WorldInv (mkWorld c ch shown) ->
  let '(c', up) := forget_initially_held c i in WorldInv (mkWorld c' ch (if up then show shown i false else shown)).
Proof.
  intros (HS & Hok & Hg & HP). cbn in HS, Hok, Hg, HP.
  pose proof (press_set_presses c shown i no_press false HS HP ltac:(done)) as HP'.
  destruct i as [u|b]; cbn [forget_initially_held] in *; cbn in HP'.
  - destruct (usage_is_valid u); cbn [negb orb]; [|done]. destruct (initially_held _); cbn [negb]; [|done].
    split_and!; try done. exact (sized_set c (HeldKey u) no_press HS).
  - destruct (initially_held _); cbn [negb]; [|done]. split_and!; try done. exact (sized_set c (HeldButton b) no_press HS).
Qed.

Lemma world_step_inv w op :
  WorldInv w -> op_ok op -> exists w', world_step w op = Some w' /\ WorldInv w'.
Proof.
  intros HI Hop. destruct w as [c ch shown]. pose proof HI as (HS & Hok & Hg & HP). cbn in HS, Hok, Hg, HP.
  destruct op as [e travel remote now|t|i|now|r|g|reason]; cbn [world_step].
  - destruct (event_inv c ch shown e travel remote now HI) as (c' & ch' & s & -> & HI'). cbn. eauto.
  - eexists. split; [done|].
    assert (forall i pressed, Presses (if is_input i then press_set c i (transferred (press_of c i) pressed) else c) (show shown i pressed)) as Ht.
    { intros i pressed. apply press_set_presses; try done. intros Hi. eapply transferred_ok, HP, Hi. }
    destruct t as [u pressed|b pressed]; cbn.
    + pose proof (Ht (HeldKey u) pressed) as H'. cbn in H'. destruct (usage_is_valid u); split_and!; try done.
      exact (sized_set c (HeldKey u) _ HS).
    + split_and!; try done; [exact (sized_set c (HeldButton b) _ HS)|]. exact (Ht (HeldButton b) pressed).
  - pose proof (forget_inv c ch shown i HI) as Hf. destruct (forget_initially_held c i) as [c' up]. eauto.
  - pose proof (ledger_tick_spec c ch now Hok) as Ht. destruct (tick c ch now) as [c' ch']. destruct Ht as (L & G & Hok' & _).
    eexists. split; [done|]. split_and!; try done; cbn; [by eapply sized_same|unfold gate_sound; by rewrite G|by eapply presses_same].
  - eexists. split; [done|]. by split_and!.
  - eexists. split; [done|]. split_and!; try done. cbn. unfold gate_sound. cbn. by destruct (pc_take_back c).
  - eexists. split; [done|]. destruct (sink_halt_spec ch reason Hok) as (? & _). by split_and!.
Qed.
Lemma world_reach_inv P w : world_reach P w -> WorldInv w.
Proof.
  induction 1 as [passive now g ch held Hok _ Hg _|w op w' _ IH Hop Hst _]; [by apply world_start_inv|].
  destruct (world_step_inv w op IH Hop) as (w1 & E & HI). rewrite E in Hst. by simplify_eq.
Qed.
End Ledger.
Arguments World : clear implicits.
Arguments LedgerOp : clear implicits.
