(* ===== verification/CaptureStream.v ===== *)
(** * The keys a capture queues, and its emergency chord (capture_physical.rs, session_source_runtime.rs)

    The source controller keeps its own record of the keys held, from the records
    it pops, and fails when one does not fit ([Source.update_key]).  While the
    emergency chord is not down the ledger queues only records that fit; while it
    is, or after it was, it can queue one that does not. *)

From stdpp Require Import gmap.
From S2P Require Import Prelude F64 Types SourceEdges SourceState Source SourceStream SourceSystem SourceTheorems.
From S2P Require Import Floor TakeBack HeldInput CaptureEvent CaptureQueue CaptureLease CapturePhysical CaptureLedger.

(** The keys a controller holds after it read a list of records. *)
Definition key_read (keys : option (gset Z)) (r : CapturedEvent) : option (gset Z) :=
  match event r with
  | EvKey u pressed repeat mods => held ← keys; key_step held u pressed repeat mods
  | _ => keys
  end.
Definition keys_run (l : list CapturedEvent) : option (gset Z) := foldl key_read (Some ∅) l.

Section Stream.
Context {F : Type} `{SharedFloorI F} {C : Type} `{CaptureSink C}.

Definition Keys (c : PhysicalCapture F) (keys : gset Z) : Prop :=
  forall u, usage_is_valid u = true ->
    counted (key_press c u) = queued_down (key_press c u) /\ (u ∈ keys <-> queued_down (key_press c u) = true).
Definition Stream (c : PhysicalCapture F) (ch : C) : Prop :=
  exists keys, keys_run (sink_log ch) = Some keys /\ (stopped ch = false -> Keys c keys).

Lemma keys_run_snoc l r : keys_run (l ++ [r]) = key_read (keys_run l) r.
Proof. unfold keys_run. by rewrite foldl_app. Qed.
Lemma keys_run_other l l' : Forall (fun r => match event r with EvKey _ _ _ _ => False | _ => True end) l' ->
  keys_run (l ++ l') = keys_run l.
Proof.
  unfold keys_run. rewrite foldl_app. generalize (foldl key_read (Some ∅) l). intros o Hl.
  induction Hl as [|r l' Hr _ IH]; [done|]. cbn. unfold key_read at 2. by destruct (event r).
Qed.

Lemma modifiers_counted (c : PhysicalCapture F) keys :
  (forall u, usage_is_modifier u = true -> (u ∈ keys <-> counted (key_press c u) = true)) ->
  modifiers c = modifiers_of keys.
Proof.
  intros Hk. unfold modifiers, modifiers_of. replace (seqZ 0xE0 8) with (Z.add 0xE0 <$> seqZ 0 8) by reflexivity.
  assert (Forall (fun i => modifier_mask (0xE0 + i) = 1 ≪ i /\ usage_is_modifier (0xE0 + i) = true) (seqZ 0 8)) as Hm
    by (repeat constructor).
  generalize 0 at 1 3. induction Hm as [|i l [Hi Hu] _ IH]; intros mask; [done|]. rewrite fmap_cons. cbn [foldl].
  rewrite Hi. specialize (Hk _ Hu). unfold counted in Hk.
  destruct (physical _ && _ && _) eqn:E; [rewrite bool_decide_eq_true_2 by tauto|rewrite bool_decide_eq_false_2 by naive_solver]; apply IH.
Qed.
Lemma modifier_valid u : usage_is_modifier u = true -> usage_is_valid u = true.
Proof. unfold usage_is_modifier, usage_is_valid. intros ->. by rewrite orb_true_r. Qed.

(** The record of a key event, read by a controller that holds what was queued. *)
Lemma record_read (c : PhysicalCapture F) keys u pressed remote gen holding :
  let p := key_press c u in
  Sized c -> Keys c keys -> usage_is_valid u = true -> press_ok p (local_down p) = true ->
  snd (withhold_press (set_physical p pressed) p pressed holding) = None -> initially_held p = false ->
  (pressed = false -> queued_down p = true) ->
  key_read (Some keys) (key_record c u pressed remote gen)
  = Some (if pressed then {[u]} ∪ keys else keys ∖ {[u]}).
Proof.
  intros p HS HK Hu Hp Hw Hi Hq. unfold key_read, key_record. cbn [event]. fold p.
  destruct (HK u Hu) as [K1 K2]. fold p in K1, K2.
  assert (withheld p = false) as Hnw.
  { unfold withhold_press in Hw. destruct (withheld p); [|done]. by destruct pressed. }
  assert (counted p = physical p) as Hc by (unfold counted; rewrite Hnw, Hi; by rewrite !andb_true_r).
  assert (bool_decide (u ∈ keys) = physical p) as Hb.
  { rewrite <- Hc, K1. destruct (queued_down p); [by apply bool_decide_eq_true_2, K2|].
    apply bool_decide_eq_false_2. by intros ?%K2. }
  cbn [mbind option_bind]. unfold key_step. rewrite Hu, Hb. cbn [negb orb].
  replace (_ || _) with false.
  2:{ destruct pressed; cbn; [by destruct (physical p)|]. rewrite <- Hc, K1, Hq by done. done. }
  rewrite (modifiers_counted _ (if pressed then {[u]} ∪ keys else keys ∖ {[u]})); [by rewrite Z.eqb_refl|].
  intros v Hv%modifier_valid. pose proof (press_of_set c (HeldKey u) (set_physical p pressed) (HeldKey v) HS Hu) as Hs.
  cbn [press_of press_set] in Hs. rewrite Hs. destruct (HK v Hv) as [V1 V2].
  destruct (decide (v = u)) as [->|Hn].
  - rewrite decide_True by done. unfold counted. cbn. rewrite Hnw, Hi. destruct pressed; set_solver.
  - rewrite decide_False by (intros [= ?]; done). rewrite V1. destruct pressed; set_solver.
Qed.

Lemma press_ok_local p shown : press_ok p shown = true -> press_ok p (local_down p) = true.
Proof. destruct p as [[] [] [] [] [] [] []], shown; done. Qed.
(** A queued key that comes up is not withheld. *)
Lemma release_passes p shown holding :
  press_ok p shown = true -> queued_down p = true ->
  snd (withhold_press (set_physical p false) p false holding) = None /\ initially_held p = false.
Proof. destruct p as [[] [] [] [] [] [] []], shown, holding; done. Qed.

Lemma key_stream c ch c' ch' shown u pressed remote gen holding s :
  Sized c -> Presses c shown -> usage_is_valid u = true -> calm c -> calm c' -> Stream c ch ->
  key_result c ch u pressed remote gen holding c' ch' s -> Stream c' ch'.
Proof.
  intros HS HP Hu Hc Hc' (keys & Hr & HK) (sup & q & E & Ho & _ & _ & _ & Hst & Hlog & Hqi & Hqd & Hq).
  set (p := key_press c u) in *. set (early := snd (withhold_press (set_physical p pressed) p pressed holding)) in *.
  pose proof (HP (HeldKey u) Hu) as Hp. cbn [press_of] in Hp. fold p in Hp.
  assert (stopped ch' = false -> Keys c keys) as HK1.
  { intros Hs. apply HK. destruct (stopped ch); [by rewrite Hst in Hs|done]. }
  assert (stopped ch' = false ->
    counted (key_press c' u) = queued_down (key_press c' u)
    /\ queued_down (key_press c' u) = pressed && (queued_down p || (q && bool_decide (early = None)))) as Hu'.
  { intros Hs. pose proof (net_counted (set_physical p pressed) p pressed holding sup q (shown (HeldKey u)) Hp) as Hn.
    rewrite <- E in Hn. apply Hn; try done.
    - by destruct (HK1 Hs u Hu).
    - intros Hx. by destruct (Hqi Hx).
    - intros Hpr Hi Hea. apply Hq; try done. by rewrite Hpr. }
  assert (forall keys', (forall v, v <> u -> v ∈ keys' <-> v ∈ keys) ->
    (stopped ch' = false -> u ∈ keys' <-> pressed && (queued_down p || (q && bool_decide (early = None))) = true) ->
    stopped ch' = false -> Keys c' keys') as Hkeys.
  { intros keys' Hv Huk Hs v Hvv. destruct (decide (v = u)) as [->|Hn].
    - destruct (Hu' Hs) as [-> ->]. split; [done|]. by apply Huk.
    - assert (key_press c' v = key_press c v) as -> by (apply (Ho (HeldKey v)); intros [= ?]; done).
      rewrite Hv by done. by apply HK1. }
  destruct (bool_decide (early = None) && q) eqn:Eq.
  - apply andb_true_iff in Eq as [Hea%bool_decide_eq_true ->]. destruct (Hqi eq_refl) as [Hi Hs].
    exists (if pressed then {[u]} ∪ keys else keys ∖ {[u]}). rewrite Hlog, keys_run_snoc, Hr. split.
    + apply (record_read c keys u pressed remote gen holding); try done; [by apply HK1|by eapply press_ok_local|auto].
    + apply Hkeys.
      * intros v Hn. destruct pressed; set_solver.
      * intros _. rewrite bool_decide_eq_true_2, orb_true_r, andb_true_r by done. destruct pressed; set_solver.
  - exists keys. rewrite Hlog. split; [done|]. apply Hkeys; [done|]. intros Hs.
    replace (q && bool_decide (early = None)) with false by (by rewrite andb_comm). rewrite orb_false_r.
    destruct (HK1 Hs u Hu) as [_ Hk]. fold p in Hk. rewrite Hk. destruct pressed; [done|]. cbn.
    split; [|done]. intros Hd. exfalso. subst early. destruct (release_passes p _ holding Hp Hd) as [He Hi].
    rewrite He in Eq, Hq. rewrite (Hq Hc Hc' Hs eq_refl Hi Hd) in Eq. done.
Qed.

Lemma stream_same c c' ch ch' :
  (forall u, usage_is_valid u = true -> counted (key_press c' u) = counted (key_press c u)
     /\ queued_down (key_press c' u) = queued_down (key_press c u)) ->
  keys_run (sink_log ch') = keys_run (sink_log ch) -> (stopped ch = true -> stopped ch' = true) ->
  Stream c ch -> Stream c' ch'.
Proof.
  intros Hp Hl Hs (keys & Hr & HK). exists keys. rewrite Hl. split; [done|]. intros Hn u Hu.
  destruct (Hp u Hu) as [-> ->]. apply HK; [|done]. destruct (stopped ch); [by rewrite Hs in Hn|done].
Qed.
Lemma stream_ledger c c' ch ch' :
  same_ledger c c' -> sink_log ch' = sink_log ch -> (stopped ch = true -> stopped ch' = true) ->
  Stream c ch -> Stream c' ch'.
Proof.
  intros [L _] El Hs. apply stream_same; [|by rewrite El|done]. intros u _.
  pose proof (same_press c c' (HeldKey u) L) as E. cbn in E. by rewrite E.
Qed.

Lemma event_stream c ch shown e travel remote now c' ch' s :
  WorldInv (mkWorld c ch shown) -> calm c -> calm c' -> Stream c ch ->
  process_with_travel 1 c ch e travel remote now = Some (c', ch', s) -> Stream c' ch'.
Proof.
  intros (HS & Hok & Hg & HP) Hc Hc' HSt. cbn in HS, Hok, Hg, HP.
  destruct (process_front c ch e travel remote now HS Hok Hg)
    as (c1 & ch1 & rem & gen & holding & -> & L & HS1 & Hg1 & Hok1 & El & Hst1).
  pose proof (stream_ledger c c1 ch ch1 L El Hst1 HSt) as HSt1. pose proof (calm_same c c1 L Hc) as Hc1.
  pose proof (presses_same c c1 shown L HP) as HP1. clear HSt HP Hc L.
  assert (forall ch2 l ee, (match ee with EvKey _ _ _ _ => False | _ => True end) ->
    sink_log ch2 = sink_log ch1 ++ l -> Forall (fun r => event r = ee) l -> keys_run (sink_log ch2) = keys_run (sink_log ch1)) as Hl.
  { intros ch2 l ee He -> Hl. apply keys_run_other. eapply Forall_impl; [|exact Hl]. cbn. by intros r ->. }
  destruct e as [u pressed rp m|b pressed at_| | | | | | | | | ].
  1:{ destruct (usage_is_valid u) eqn:Hu.
    - destruct (process_key_spec c1 ch1 u pressed rem gen now holding HS1 Hok1 Hu) as (c2 & ch2 & s2 & -> & HR).
      intros [= <- <- <-]. by eapply (key_stream c1 ch1 c2 ch2 shown).
    - unfold process_key. rewrite Hu. cbn [negb]. intros [= <- <- <-].
      destruct (sink_halt_spec ch1 InvalidInput Hok1) as (_ & Hs & E).
      eapply (stream_ledger c1 c1 ch1); [done|exact E|intros _; exact Hs|exact HSt1]. }
  1:{ destruct (process_button_spec c1 ch1 (EvButton b pressed at_) b pressed rem gen holding HS1 Hok1)
        as (c2 & ch2 & s2 & -> & _ & _ & _ & Hst & Ho & (l & El2 & Hl2) & _).
      intros [= <- <- <-]. eapply (stream_same c1 c2 ch1); try done;
        [|exact (Hl _ l (EvButton b pressed at_) I El2 Hl2)].
      intros u _. pose proof (Ho (HeldKey u) ltac:(done)) as E. cbn in E. by rewrite E. }
  all: unfold process_other;
    match goal with Hs : sink_ok ?x |- context [push_if true ?x ?r] => destruct (push_if_spec true x r Hs) as (ch2 & ok & -> & _ & El2 & Hst & _) end;
    cbn [mbind option_bind]; intros [= <- <- <-]; (eapply (stream_same c1 c1 ch1); [done| |done|done]);
    (destruct ok; [|by rewrite El2]); (eapply Hl; [|exact El2|by repeat constructor]); done.
Qed.

Lemma forget_keys (c : PhysicalCapture F) i c' up u :
  Sized c -> (forall u, usage_is_valid u = true -> queued_down (key_press c u) = true -> initially_held (key_press c u) = false) ->
  forget_initially_held c i = (c', up) -> usage_is_valid u = true ->
  counted (key_press c' u) = counted (key_press c u) /\ queued_down (key_press c' u) = queued_down (key_press c u).
Proof.
  intros HS Hq. destruct i as [k|b]; cbn [forget_initially_held].
  - destruct (usage_is_valid k) eqn:Hk; cbn [negb orb]; [|by intros [= <- <-]].
    destruct (initially_held (key_press c k)) eqn:Hi; cbn [negb]; [|by intros [= <- <-]]. intros [= <- <-] Hu.
    pose proof (press_of_set c (HeldKey k) no_press (HeldKey u) HS Hk) as E.
    change (key_press (set_chord _ _ _) u) with (press_of (press_set c (HeldKey k) no_press) (HeldKey u)). rewrite E.
    destruct (decide (u = k)) as [->|Hn]; [|by rewrite decide_False by (intros [= ?]; done)].
    rewrite decide_True by done. unfold counted. rewrite Hi, andb_false_r. split; [done|].
    destruct (queued_down (key_press c k)) eqn:Ed; [|done]. rewrite (Hq k Hk Ed) in Hi. done.
  - destruct (negb _); [by intros [= <- <-]|]. by intros [= <- <-].
Qed.

Lemma world_stream w op w' :
  WorldInv w -> Stream (wd_capture w) (wd_sink w) -> calm (wd_capture w) -> calm (wd_capture w') ->
  world_step w op = Some w' -> Stream (wd_capture w') (wd_sink w').
Proof.
  destruct w as [c ch shown]. intros HI HSt Hc Hc'. pose proof HI as (HS & Hok & Hg & HP). cbn in HS, Hok, Hg, HP, HSt, Hc.
  destruct op as [e travel remote now|t|i|now|r|g|reason]; cbn [world_step].
  - destruct (process_with_travel 1 c ch e travel remote now) as [[[c1 ch1] s]|] eqn:E; [|done].
    intros [= <-]. cbn in *. by eapply event_stream.
  - intros [= <-]. cbn. eapply stream_same; [|done|done|exact HSt]. intros u Hu.
    destruct t as [k pressed|b pressed]; cbn; [|done]. destruct (usage_is_valid k) eqn:Hk; [|done].
    pose proof (press_of_set c (HeldKey k) (transferred (key_press c k) pressed) (HeldKey u) HS Hk) as E.
    cbn [press_of press_set] in E. rewrite E. destruct (decide (u = k)) as [->|Hn]; [by rewrite decide_True by done|].
    by rewrite decide_False by (intros [= ?]; done).
  - destruct (forget_initially_held c i) as [c1 up] eqn:E. intros [= <-]. cbn.
    eapply stream_same; [|done|done|exact HSt]. intros u Hu. eapply forget_keys; [done| |done|done].
    intros v Hv Hd. pose proof (HP (HeldKey v) Hv) as Hp. cbn in Hp. by eapply (release_passes _ _ false).
  - pose proof (ledger_tick_spec c ch now Hok) as Ht. destruct (tick c ch now) as [c1 ch1].
    destruct Ht as (L & _ & _ & El & Hs). intros [= <-]. by eapply stream_ledger.
  - intros [= <-]. by eapply (stream_ledger c).
  - intros [= <-]. by eapply (stream_ledger c).
  - intros [= <-]. destruct (sink_halt_spec ch reason Hok) as (_ & Hs & E).
    eapply (stream_ledger c c ch); [done|exact E|intros _; exact Hs|exact HSt].
Qed.

Lemma seeded_keys passive now (g : option (Gate F)) (ch : C) held u :
  usage_is_valid u = true -> let p := key_press (wd_capture (foldl seed_shown (start_world passive now g ch) held)) u in
  counted p = false /\ queued_down p = false.
Proof.
  intros Hu. cbv zeta.
  assert (forall w : World F C, Sized (wd_capture w) ->
    counted (key_press (wd_capture w) u) = false /\ queued_down (key_press (wd_capture w) u) = false ->
    counted (key_press (wd_capture (foldl seed_shown w held)) u) = false
    /\ queued_down (key_press (wd_capture (foldl seed_shown w held)) u) = false) as Hw.
  { induction held as [|i held IH]; intros w HS Hp; [done|]. cbn [foldl]. apply IH.
    - destruct i as [k|b]; cbn; unfold seed_locally_held_key; [destruct (usage_is_valid k); [|done]; exact (sized_set _ (HeldKey k) _ HS)|exact (sized_set _ (HeldButton b) _ HS)].
    - destruct i as [k|b]; cbn; [|exact Hp]. unfold seed_locally_held_key. destruct (usage_is_valid k) eqn:Hk; [|done].
      pose proof (press_of_set (wd_capture w) (HeldKey k) initial_press (HeldKey u) HS Hk) as E.
      cbn [press_of press_set] in E. rewrite E. by case_decide. }
  apply Hw; [by destruct passive|]. destruct passive; cbn; unfold key_press; cbn -[replicate];
    (destruct (replicate 256 no_press !! Z.to_nat u) eqn:E; [|done]); by apply lookup_replicate in E as [-> _].
Qed.
Lemma calm_stream (w : World F C) :
  world_reach (fun w => calm (wd_capture w)) w -> Stream (wd_capture w) (wd_sink w).
Proof.
  induction 1 as [passive now g ch held Hok Hlog Hg Hc|w op w' HR IH Hop Hst Hc].
  - exists ∅. assert (wd_sink (foldl seed_shown (start_world passive now g ch) held) = ch) as ->.
    { clear Hc. unfold start_world. generalize (fun _ : HeldPress => false).
      generalize (set_take_back (if passive then new_passive now else new_capture now) g).
      induction held as [|i held IH]; intros c shown; [done|]. cbn. apply IH. }
    rewrite Hlog. split; [done|]. intros _ u Hu. destruct (seeded_keys passive now g ch held u Hu) as [-> ->].
    split; [done|]. set_solver.
  - eapply world_stream; [by eapply world_reach_inv|exact IH| |exact Hc|exact Hst]. by destruct HR.
Qed.

(** ** The chord *)

Definition ChordInv (c : PhysicalCapture F) : Prop := pc_chord_since c <> None -> chord_held c = true.
Lemma chord_held_same (c c' : PhysicalCapture F) :
  (forall u, u ∈ ESCAPE_CHORD -> physical (key_press c' u) = physical (key_press c u)) -> chord_held c' = chord_held c.
Proof. intros Hp. unfold chord_held, ESCAPE_CHORD. cbn. rewrite !Hp by set_solver. done. Qed.
Lemma chord_valid u : u ∈ ESCAPE_CHORD -> usage_is_valid u = true.
Proof. unfold ESCAPE_CHORD. rewrite !elem_of_cons, elem_of_nil. by intros [->|[->|[->|[]]]]. Qed.

Lemma net_physical p pressed holding suppress queued shown :
  press_ok p shown = true ->
  physical (fst (net (set_physical p pressed) p pressed holding suppress queued)) = pressed.
Proof. destruct p as [[] [] [] [] [] [] []], shown, pressed, holding, suppress, queued; done. Qed.

(** A key event arms the chord exactly when its keys are down. *)
Lemma process_key_chord (c : PhysicalCapture F) (ch : C) u pressed remote gen now holding c' ch' s :
  Sized c -> sink_ok ch -> Presses c (fun i => local_down (press_of c i)) -> usage_is_valid u = true ->
  process_key c ch u pressed remote gen now holding = Some (c', ch', s) ->
  pc_chord_since c' = (if chord_held c' then match pc_chord_since c with None => Some now | since => since end else None).
Proof.
  intros HS Hok HP Hu E. destruct (process_key_spec c ch u pressed remote gen now holding HS Hok Hu)
    as (c2 & ch2 & s2 & E2 & (sup & q & En & Ho & _)). rewrite E in E2. injection E2 as <- <- <-.
  set (c1 := set_key_press c u (set_physical (key_press c u) pressed)).
  assert (chord_held c' = chord_held c1) as Hc.
  { apply chord_held_same. intros v Hv%chord_valid. pose proof (press_of_set c (HeldKey u) (set_physical (key_press c u) pressed) (HeldKey v) HS Hu) as E1.
    change (press_of c1 (HeldKey v) = if decide (HeldKey v = HeldKey u) then set_physical (key_press c u) pressed else key_press c v) in E1.
    cbn [press_of] in E1. rewrite E1. destruct (decide (v = u)) as [->|Hn].
    - rewrite decide_True by done. pose proof (net_physical (key_press c u) pressed holding sup q _ (HP (HeldKey u) Hu)) as Hp.
      rewrite <- En in Hp. done.
    - rewrite decide_False by (intros [= ?]; done). f_equal. apply (Ho (HeldKey v)). intros [= ?]; done. }
  rewrite Hc. unfold process_key in E. rewrite Hu in E. cbn [negb] in E. fold c1 in E. unfold note_chord in E.
  assert (forall cc : PhysicalCapture F, pc_chord_since (if (u =? ESCAPE) && negb pressed then set_chord cc (pc_chord_since cc) false else cc) = pc_chord_since cc) as Hr
    by (intros cc; by destruct (_ && _)).
  match type of E with context [if _ && negb pressed then set_chord ?cc _ _ else _] => specialize (Hr cc);
    set (c3 := if (u =? ESCAPE) && negb pressed then set_chord cc (pc_chord_since cc) false else cc) in * end.
  destruct (withhold_press _ _ _ _) as [p3 [early|]]; [injection E as <- _ _; cbn [pc_chord_since set_key_press]; rewrite Hr; by destruct (chord_held c1)|].
  match type of E with context [push_if ?a ?b ?d] => destruct (push_if a b d) as [[ch3 ok]|]; [|done] end.
  cbn [mbind option_bind] in E. destruct (update_press _ _ _ _) as [p4 s4]. injection E as <- _ _.
  cbn [pc_chord_since set_key_press]. rewrite Hr. by destruct (chord_held c1).
Qed.

(** What an operation may start the chord's timer at. *)
Definition arms (op : LedgerOp F) : option Z :=
  match op with
  | OpEvent (EvKey u _ _ _) _ _ now => if usage_is_valid u then Some now else None
  | _ => None
  end.
(** The timer after an operation: it runs on while the chord's keys are down. *)
Definition chord_clock (start : option Z) (c c' : PhysicalCapture F) : Prop :=
  pc_chord_since c'
  = if chord_held c' then match pc_chord_since c with None => start | since => since end else None.

Lemma chord_clock_inv start c c' : chord_clock start c c' -> ChordInv c'.
Proof. unfold chord_clock, ChordInv. intros ->. by destruct (chord_held c'). Qed.
Lemma chord_clock_same (c c' : PhysicalCapture F) :
  pc_chord_since c' = pc_chord_since c ->
  (forall u, u ∈ ESCAPE_CHORD -> physical (key_press c' u) = physical (key_press c u)) -> ChordInv c -> chord_clock None c c'.
Proof.
  intros E Hp HI. unfold chord_clock. rewrite E, (chord_held_same c c' Hp). unfold ChordInv in HI.
  destruct (pc_chord_since c); [|by destruct (chord_held c)]. by rewrite HI.
Qed.
Lemma chord_ledger (c c' : PhysicalCapture F) : same_ledger c c' -> ChordInv c -> ChordInv c'.
Proof.
  intros (L & E & _) HI. apply (chord_clock_inv None c), chord_clock_same; [done| |done].
  intros u _. f_equal. exact (same_press c c' (HeldKey u) L).
Qed.
Lemma event_chord c ch shown e travel remote now c' ch' s :
  WorldInv (mkWorld c ch shown) -> ChordInv c ->
  process_with_travel 1 c ch e travel remote now = Some (c', ch', s) ->
  chord_clock (arms (OpEvent e travel remote now)) c c'.
Proof.
  intros (HS & Hok & Hg & HP) HI. cbn in HS, Hok, Hg, HP.
  destruct (process_front c ch e travel remote now HS Hok Hg)
    as (c1 & ch1 & rem & gen & holding & -> & L & HS1 & Hg1 & Hok1 & _).
  apply (chord_ledger c c1 L) in HI. pose proof (presses_same c c1 shown L HP) as HP1.
  assert (Presses c1 (fun i => local_down (press_of c1 i))) as HP2.
  { intros i Hi. eapply press_ok_local, HP1, Hi. }
  assert (chord_clock (arms (OpEvent e travel remote now)) c1 c' -> chord_clock (arms (OpEvent e travel remote now)) c c') as Hback
    by (unfold chord_clock; by rewrite (proj1 (proj2 L))).
  intros E. apply Hback. clear Hback. revert E.
  destruct e as [u pressed rp m|b pressed at_| | | | | | | | | ]; cbn [arms].
  1:{ destruct (usage_is_valid u) eqn:Hu.
    - intros E%process_key_chord; try done.
    - unfold process_key. rewrite Hu. intros [= <- <- <-]. by apply chord_clock_same. }
  1:{ destruct (process_button_spec c1 ch1 (EvButton b pressed at_) b pressed rem gen holding HS1 Hok1)
        as (c2 & ch2 & s2 & -> & _ & _ & [_ E] & _ & Ho & _).
      intros [= <- <- <-]. apply chord_clock_same; [exact E| |exact HI]. intros u _. f_equal. by apply (Ho (HeldKey u)). }
  all: unfold process_other;
    match goal with |- context [push_if ?a ?b ?d] => destruct (push_if a b d) as [[ch3 ok]|]; [|done] end;
    intros [= <- <- <-]; by apply chord_clock_same.
Qed.
Lemma chord_step (w : World F C) op w' :
  WorldInv w -> ChordInv (wd_capture w) -> world_step w op = Some w' ->
  chord_clock (arms op) (wd_capture w) (wd_capture w').
Proof.
  intros HI IH Hst. destruct w as [c ch shown]. cbn [wd_capture] in *.
  destruct op as [e travel remote now|t|i|now|r|g|reason]; cbn [world_step] in Hst.
  - destruct (process_with_travel 1 c ch e travel remote now) as [[[c1 ch1] s]|] eqn:E; [|done].
    injection Hst as <-. by eapply event_chord.
  - injection Hst as <-. cbn [wd_capture arms]. destruct HI as (HS & _). cbn in HS.
    destruct t as [k pressed|b pressed]; cbn [apply_transfer_success]; [|by apply chord_clock_same].
    destruct (usage_is_valid k) eqn:Hk; [|by apply chord_clock_same]. apply chord_clock_same; [done| |done]. intros u _.
    pose proof (press_of_set c (HeldKey k) (transferred (key_press c k) pressed) (HeldKey u) HS Hk) as E.
    cbn [press_of press_set] in E. rewrite E. destruct (decide (u = k)) as [->|Hn]; [by rewrite decide_True by done|].
    by rewrite decide_False by (intros [= ?]; done).
  - destruct (forget_initially_held c i) as [c1 up] eqn:E. injection Hst as <-. cbn [wd_capture arms].
    assert (forall (c2 : PhysicalCapture F) b, pc_chord_since c2 = pc_chord_since c ->
      chord_clock None c (set_chord c2 (if negb (chord_held c2) then None else pc_chord_since c2) b)) as Hf.
    { intros c2 b E2. unfold chord_clock. change (chord_held (set_chord c2 _ b)) with (chord_held c2). cbn [pc_chord_since set_chord].
      rewrite E2. destruct (chord_held c2); [by destruct (pc_chord_since c)|done]. }
    destruct i as [k|b]; cbn [forget_initially_held] in E; destruct (_ : bool) in E; injection E as <- <-;
      [by apply chord_clock_same|exact (Hf (set_key_press c k no_press) _ eq_refl)
      |by apply chord_clock_same|exact (Hf (set_button_press c b no_press) _ eq_refl)].
  - unfold tick in Hst. destruct (now <? pc_last_time c); injection Hst as <-; by apply chord_clock_same.
  - injection Hst as <-. by apply chord_clock_same.
  - injection Hst as <-. by apply chord_clock_same.
  - injection Hst as <-. by apply chord_clock_same.
Qed.
Lemma chord_reach P (w : World F C) : world_reach P w -> ChordInv (wd_capture w).
Proof.
  induction 1 as [passive now g ch held Hok Hlog Hg Hc|w op w' HR IH Hop Hst Hc].
  { assert (forall w : World F C, pc_chord_since (wd_capture w) = None -> pc_chord_since (wd_capture (foldl seed_shown w held)) = None) as Hs.
    { clear Hc. induction held as [|i held IH]; intros w Hw; [done|]. cbn. apply IH.
      destruct i as [k|b]; cbn; unfold seed_locally_held_key; [by destruct (usage_is_valid k)|done]. }
    intros Hx. destruct Hx. apply Hs. by destruct passive. }
  eapply chord_clock_inv, (chord_step w op w'); [by eapply world_reach_inv|done|done].
Qed.
End Stream.

(** ** Reading the queue *)

Definition WINDOWS_UNITS_PER_DETENT : f64 := 0x405E000000000000. (* 120.0 *)
Definition MAC_POINTS_PER_DETENT : f64 := 0x4044000000000000. (* 40.0 *)
(** [normalize]; its one error is [SessionFailure::Source]. *)
Definition normalize (r : CapturedEvent) : result () (option TaggedInput) :=
  let tagged i := Ok (Some (mkTagged i (routing_revision r) (remote r) (floor_generation r))) in
  match event r with
  | EvKey usage pressed repeat mods => tagged (InKeyEvent usage pressed repeat mods)
  | EvButton button pressed at_ => tagged (InButtonEvent button pressed at_)
  | EvRouteChanged to_remote revision => tagged (RouteChanged to_remote revision)
  | EvAbsoluteMotion x y =>
      if remote r then Ok None else tagged (AbsoluteMotion (mkPoint (f64_of_Z x) (f64_of_Z y)))
  | EvLogicalAbsoluteMotion x y => if remote r then Ok None else tagged (AbsoluteMotion (mkPoint x y))
  | EvRelativeMotion dx dy gain => tagged (RelativeMotion (mkPoint (f64_of_Z dx) (f64_of_Z dy)) gain)
  | EvLogicalRelativeMotion dx dy => tagged (RelativeMotion (mkPoint dx dy) f64_one)
  | EvScroll h v =>
      tagged (InScroll (f64_div (f64_of_Z h) WINDOWS_UNITS_PER_DETENT) (f64_div (f64_of_Z v) WINDOWS_UNITS_PER_DETENT))
  | EvLogicalScroll h v =>
      tagged (InScroll (f64_div (f64_neg h) MAC_POINTS_PER_DETENT) (f64_div v MAC_POINTS_PER_DETENT))
  | EvGesture kind phase value =>
      match from_parts kind phase value with Ok g => tagged (InGesture g) | Err _ => Err () end
  | EvSystemGesture g => tagged (InSystemGesture g)
  end.

(** A controller that reads the keys of a queue, or fails. *)
Definition read_key (s : option SourceController) (r : CapturedEvent) : option SourceController :=
  s ← s;
  match normalize r with
  | Ok (Some t) =>
      match SourceState.event t with
      | InKeyEvent u pressed repeat mods =>
          let '(s, change) := update_key s u pressed repeat mods in _ ← change; Some s
      | _ => Some s
      end
  | _ => Some s
  end.
Definition read_keys (s : SourceController) (l : list CapturedEvent) : option SourceController :=
  foldl read_key (Some s) l.

Lemma key_step_update s keys u pressed repeat mods keys' :
  k_keys (s_ledger s) = keys -> key_step keys u pressed repeat mods = Some keys' ->
  exists s' change, update_key s u pressed repeat mods = (s', Some change) /\ k_keys (s_ledger s') = keys'.
Proof.
  intros <- Hk. unfold key_step in Hk. unfold update_key. set (keys := k_keys (s_ledger s)) in *.
  destruct (usage_is_valid u); cbn [negb orb] in *; [|done].
  destruct (bool_decide (u ∈ keys)) eqn:Eb; destruct pressed, repeat; cbn [negb orb andb Bool.eqb] in *; try done;
    unfold physical_modifiers; cbn [s_ledger set_keys set_ledger k_keys];
    match type of Hk with (if modifiers_of ?k =? mods then _ else _) = _ =>
      destruct (modifiers_of k =? mods) eqn:Em; [|done] end; apply (inj Some) in Hk as <-; try (by eexists _, _).
  assert ({[u]} ∪ keys = keys) as Ek.
  { apply bool_decide_eq_true in Eb. set_solver. }
  rewrite Ek in Em |- *. fold keys. rewrite Em. eauto.
Qed.
Lemma read_keys_run l : forall s keys,
  k_keys (s_ledger s) = ∅ -> keys_run l = Some keys ->
  exists s', read_keys s l = Some s' /\ k_keys (s_ledger s') = keys.
Proof.
  induction l as [|r l IH] using rev_ind; intros s keys Hs Hk; [by apply (inj Some) in Hk as <-; exists s|].
  rewrite keys_run_snoc in Hk. unfold read_keys. rewrite foldl_app. cbn [foldl]. fold (read_keys s l).
  destruct (keys_run l) as [k0|] eqn:E0; [|by unfold key_read in Hk; destruct (event r)].
  destruct (IH s k0 Hs eq_refl) as (s0 & -> & K0). unfold read_key, key_read, normalize in *. cbn [mbind option_bind].
  destruct (event r) as [u pressed rp m| | | | | | | | | | ]; cbn [mbind option_bind SourceState.event] in *.
  1:{ destruct (key_step_update s0 k0 u pressed rp m keys K0 Hk) as (s1 & chg & -> & K1). by exists s1. }
  all: apply (inj Some) in Hk as <-; exists s0; split; [|done]; by repeat case_match; simplify_eq.
Qed.
