(* ===== verification/CaptureTheorems.v ===== *)
(** * Theorems of the physical ledger (capture_physical.rs)

    What the local applications see, what the source controller reads, the
    emergency chord, and the handoffs.  The witnesses run the ledger on the ring of
    CaptureQueue.v and the packed floor word. *)

From stdpp Require Import gmap.
From S2P Require Import Prelude F64 Types SourceEdges SourceState Source SourceStream SourceSystem SourceTheorems.
From S2P Require Import Floor TakeBack HeldInput CaptureEvent CaptureQueue CaptureLease CapturePhysical CaptureLedger CaptureStream.

Section Theorems.
Context {F : Type} `{SharedFloorI F} {C : Type} `{CaptureSink C}.

(** A key or button that comes up. *)
Definition release_of (e : CaptureEvent) : option HeldPress :=
  match e with
  | EvKey u false _ _ => if usage_is_valid u then Some (HeldKey u) else None
  | EvButton b false _ => Some (HeldButton b)
  | _ => None
  end.
Lemma release_input e i : release_of e = Some i -> is_input i = true.
Proof. destruct e as [u [] ? ?|? [] ?| | | | | | | | | ]; cbn; try done; repeat case_match; by intros [= <-]. Qed.
Lemma net_release now p holding suppress queued : fst (net now p false holding suppress queued) = no_press.
Proof. unfold net, withhold_press. destruct (withheld p), holding; done. Qed.
Lemma released_shown c ch shown e travel remote now i c' ch' s :
  WorldInv (mkWorld c ch shown) -> release_of e = Some i ->
  process_with_travel 1 c ch e travel remote now = Some (c', ch', s) -> press_of c' i = no_press.
Proof.
  intros (HS & Hok & Hg & HP) He. cbn in HS, Hok, Hg, HP.
  destruct (process_front c ch e travel remote now HS Hok Hg)
    as (c1 & ch1 & rem & gen & holding & -> & L & HS1 & Hg1 & Hok1 & _).
  destruct e as [u [] rp m|b [] at_| | | | | | | | | ]; try done; cbn in He.
  - destruct (usage_is_valid u) eqn:Hu; [|done]. injection He as <-.
    destruct (process_key_spec c1 ch1 u false rem gen now holding HS1 Hok1 Hu) as (c2 & ch2 & s2 & -> & (sup & q & E & _)).
    intros [= <- <- <-]. apply (f_equal fst) in E. rewrite net_release in E. exact E.
  - injection He as <-.
    destruct (process_button_spec c1 ch1 (EvButton b false at_) b false rem gen holding HS1 Hok1)
      as (c2 & ch2 & s2 & -> & _ & _ & _ & _ & _ & _ & sup & q & _ & E).
    intros [= <- <- <-]. apply (f_equal fst) in E. rewrite net_release in E. exact E.
Qed.

(** C7. The capture callback knows exactly what the local applications hold,
    whatever is captured, suppressed, withheld for a take-back, injected or handed
    off, whenever the capture stops, and never panics: for every key and button its
    ledger says it is down locally exactly when the last thing the applications saw
    of it was a press.  So a key whose press they saw is never left stuck: once it
    comes up physically they hold it no longer. *)
Theorem capture_apps_exact (w : World F C) (op : LedgerOp F) :
  world_reach (fun _ => True) w -> op_ok op ->
  exists w', world_step w op = Some w'
    /\ (forall i, is_input i = true ->
          wd_shown w i = local_down (press_of (wd_capture w) i)
          /\ wd_shown w' i = local_down (press_of (wd_capture w') i))
    /\ (forall e travel remote now i, op = OpEvent e travel remote now -> release_of e = Some i -> wd_shown w' i = false).
Proof.
  intros HR Hop. pose proof (world_reach_inv _ w HR) as HI.
  destruct (world_step_inv w op HI Hop) as (w' & E & HI').
  assert (forall (v : World F C) i, WorldInv v -> is_input i = true -> wd_shown v i = local_down (press_of (wd_capture v) i)) as Hs.
  { intros v i (_ & _ & _ & HP) Hi. specialize (HP i Hi). unfold press_ok in HP. bool_inv. symmetry. by apply Bool.eqb_prop. }
  exists w'. split; [done|]. split; [auto|]. intros e travel remote now i -> He.
  rewrite Hs by (done || by eapply release_input).
  destruct w as [c ch shown]. cbn [world_step] in E.
  destruct (process_with_travel 1 c ch e travel remote now) as [[[c1 ch1] s]|] eqn:Ep; [|done].
  injection E as <-. cbn. by rewrite (released_shown _ _ _ _ _ _ _ _ _ _ _ HI He Ep).
Qed.

(** C8. While the emergency chord is not down, the keys a capture queues are a
    stream the source controller accepts: a controller that starts with nothing
    held reads them all, and then holds exactly the keys the hand holds, except
    those withheld for a take-back or down since before the capture started. *)
Theorem capture_keys_accepted (w : World F C) (s : SourceController) :
  world_reach (fun w => calm (wd_capture w)) w -> k_keys (s_ledger s) = ∅ ->
  exists s', read_keys s (sink_log (wd_sink w)) = Some s'
    /\ (stopped (wd_sink w) = false -> forall u, usage_is_valid u = true ->
          u ∈ k_keys (s_ledger s') <-> counted (key_press (wd_capture w) u) = true).
Proof.
  intros (keys & Hk & HK)%calm_stream Hs. destruct (read_keys_run _ s keys Hs Hk) as (s' & E & Hk').
  exists s'. split; [done|]. intros Hn u Hu. destruct (HK Hn u Hu) as [-> Hu']. by rewrite Hk'.
Qed.

(** ** Handoffs *)

Lemma push_all_app l : forall plan, (length plan + length l <= 261)%nat -> push_all plan l = Some (plan ++ l).
Proof.
  induction l as [|t l IH]; intros plan Hl; [by rewrite app_nil_r|]. cbn in Hl. unfold push_all. cbn [foldl mbind option_bind].
  unfold push_transfer at 2. rewrite (proj2 (Nat.ltb_lt _ _)) by lia. fold (push_all (plan ++ [t]) l).
  rewrite IH by (rewrite length_app; cbn; lia). by rewrite <- app_assoc.
Qed.
Lemma omap_length {A B} (f : A -> option B) l : (length (omap f l) <= length l)%nat.
Proof. induction l as [|x l IH]; cbn; [lia|]. destruct (f x); cbn; lia. Qed.
Definition plan_of (select : HidUsage -> Press -> bool) (select_button : Press -> bool) (pressed : bool)
    (c : PhysicalCapture F) : list LocalTransfer :=
  key_transfers select pressed c ++ button_transfers select_button pressed c.
Lemma plan_fits select select_button pressed c :
  (plan ← push_all [] (key_transfers select pressed c); push_all plan (button_transfers select_button pressed c))
  = Some (plan_of select select_button pressed c).
Proof.
  assert (length (key_transfers select pressed c) <= 256)%nat as H1
    by (unfold key_transfers; etrans; [apply omap_length|]; by rewrite length_seqZ).
  assert (length (button_transfers select_button pressed c) <= 5)%nat as H2 by (unfold button_transfers; apply omap_length).
  rewrite push_all_app by (cbn [length]; lia). cbn [mbind option_bind app].
  rewrite push_all_app; [unfold plan_of; reflexivity|lia].
Qed.

Definition transfer_of (t : LocalTransfer) : HeldPress :=
  match t with TransferKey u _ => HeldKey u | TransferButton b _ => HeldButton b end.
Definition transfer_down (t : LocalTransfer) : bool :=
  match t with TransferKey _ b | TransferButton _ b => b end.
Lemma transfer_set (c : PhysicalCapture F) t :
  apply_transfer_success c t
  = if is_input (transfer_of t) then press_set c (transfer_of t) (transferred (press_of c (transfer_of t)) (transfer_down t)) else c.
Proof. destruct t; done. Qed.
(** The transfers of a plan, each on a press of its own. *)
Lemma transfers_presses pressed l : forall (c : PhysicalCapture F) i,
  Sized c -> is_input i = true -> NoDup (transfer_of <$> l) -> Forall (fun t => transfer_down t = pressed) l ->
  press_of (foldl apply_transfer_success c l) i
  = if decide (i ∈ transfer_of <$> l) then transferred (press_of c i) pressed else press_of c i.
Proof.
  induction l as [|t l IH]; intros c i HS Hi Hd Hp; [by rewrite decide_False by set_solver|].
  cbn in Hd. apply list.NoDup_cons in Hd as [Hn Hd]. apply list.Forall_cons in Hp as [Hp Hl]. cbn [foldl].
  assert (Sized (apply_transfer_success c t)) as HS' by (rewrite transfer_set; destruct (is_input (transfer_of t)); [by apply sized_set|done]).
  rewrite IH by done. rewrite transfer_set, fmap_cons. destruct (decide (i = transfer_of t)) as [->|Hne].
  - rewrite (decide_False (P := transfer_of t ∈ transfer_of <$> l)) by done. rewrite Hi, press_of_set by done.
    rewrite decide_True by done. rewrite decide_True by constructor. by rewrite Hp.
  - assert (press_of (if is_input (transfer_of t) then press_set c (transfer_of t) (transferred (press_of c (transfer_of t)) (transfer_down t)) else c) i = press_of c i) as ->.
    { destruct (is_input (transfer_of t)) eqn:Ei; [|done]. by rewrite press_of_set, decide_False by done. }
    destruct (decide (i ∈ transfer_of <$> l)); [by rewrite decide_True by (by right)|].
    rewrite decide_False; [done|]. by intros [->|?]%elem_of_cons.
Qed.

Lemma elem_key_transfers select pressed (c : PhysicalCapture F) t :
  t ∈ key_transfers select pressed c <->
  exists u, u ∈ seqZ 0 256 /\ select u (key_press c u) = true /\ t = TransferKey u pressed.
Proof.
  unfold key_transfers. rewrite list_elem_of_omap. split; intros (u & Hu & Hx); exists u; (split; [exact Hu|]).
  - destruct (select u (key_press c u)); by simplify_eq.
  - destruct Hx as [-> ->]. done.
Qed.
Lemma elem_button_transfers select pressed (c : PhysicalCapture F) t :
  t ∈ button_transfers select pressed c <->
  exists b, select (button_press c b) = true /\ t = TransferButton b pressed.
Proof.
  unfold button_transfers. rewrite list_elem_of_omap. split.
  - intros (b & _ & Hx). exists b. destruct (select (button_press c b)); by simplify_eq.
  - intros (b & Hs & ->). exists b. rewrite Hs. split; [|done]. unfold all_buttons. destruct b; set_solver.
Qed.
Lemma elem_plan select select_button pressed (c : PhysicalCapture F) t :
  t ∈ plan_of select select_button pressed c <->
  (exists u, u ∈ seqZ 0 256 /\ select u (key_press c u) = true /\ t = TransferKey u pressed)
  \/ (exists b, select_button (button_press c b) = true /\ t = TransferButton b pressed).
Proof. unfold plan_of. by rewrite elem_of_app, elem_key_transfers, elem_button_transfers. Qed.

Lemma omap_nodup {A} (f : A -> option LocalTransfer) l :
  (forall x y t t', f x = Some t -> f y = Some t' -> transfer_of t = transfer_of t' -> x = y) -> NoDup l ->
  NoDup (transfer_of <$> omap f l).
Proof.
  intros Hf. induction 1 as [|x l Hx _ IH]; [constructor|]. cbn. destruct (f x) as [t|] eqn:E; [|done].
  cbn. constructor; [|done]. intros (t' & Ht & (y & Hy & E')%list_elem_of_omap)%list_elem_of_fmap.
  by rewrite (Hf x y t t' E E' Ht) in Hx.
Qed.
Lemma plan_nodup select select_button pressed (c : PhysicalCapture F) :
  NoDup (transfer_of <$> plan_of select select_button pressed c).
Proof.
  unfold plan_of. rewrite fmap_app. apply list.NoDup_app. split_and!.
  - apply omap_nodup; [|apply NoDup_seqZ]. intros x y t t' H1 H2 H3. repeat case_match; by simplify_eq.
  - intros i (t & -> & (u & _ & _ & ->)%elem_key_transfers)%list_elem_of_fmap
      (t' & Ht & (b & _ & ->)%elem_button_transfers)%list_elem_of_fmap. done.
  - apply omap_nodup; [intros x y t t' H1 H2 H3; repeat case_match; by simplify_eq|].
    apply (bool_decide_eq_true_1 _). reflexivity.
Qed.
Lemma plan_down select select_button pressed (c : PhysicalCapture F) :
  Forall (fun t => transfer_down t = pressed) (plan_of select select_button pressed c).
Proof. apply list.Forall_forall. by intros t [(u & _ & _ & ->)|(b & _ & ->)]%elem_plan. Qed.
Lemma plan_in select select_button pressed (c : PhysicalCapture F) i :
  is_input i = true -> i ∈ transfer_of <$> plan_of select select_button pressed c <->
  match i with HeldKey u => select u (key_press c u) | HeldButton b => select_button (button_press c b) end = true.
Proof.
  intros Hi. rewrite list_elem_of_fmap. split.
  - by intros (t & -> & [(u & _ & ? & ->)|(b & ? & ->)]%elem_plan).
  - destruct i as [u|b]; intros Hs.
    + exists (TransferKey u pressed). split; [done|]. apply elem_plan. left. exists u. split; [|done].
      apply elem_of_seqZ. cbn in Hi. unfold usage_is_valid in Hi. bool_inv; lia.
    + exists (TransferButton b pressed). split; [done|]. apply elem_plan. right. by exists b.
Qed.

(** A handoff moves every held key and button, in a plan that always fits its
    261 entries: when each of its operations succeeds, going remote leaves no key
    or button the hand holds down for the local applications, and coming home every
    held button and modifier is down for them again; nothing else changes.  The
    plan that ends a capture leaves nothing it injected down. *)
Theorem handoff_moves_all (c : PhysicalCapture F) (remote : bool) :
  Sized c ->
  exists plan, handoff_plan c remote = Some plan /\ (length plan <= 261)%nat
    /\ (forall i, is_input i = true -> counted (press_of c i) = true ->
          let p := press_of (foldl apply_transfer_success c plan) i in
          (remote = true -> local_down p = false)
          /\ (remote = false -> match i with HeldKey u => usage_is_modifier u = true | HeldButton _ => True end -> local_down p = true)
          /\ (remote = false -> match i with HeldKey u => usage_is_modifier u = false | HeldButton _ => False end -> p = press_of c i))
    /\ (forall i, is_input i = true -> counted (press_of c i) = false ->
          press_of (foldl apply_transfer_success c plan) i = press_of c i)
    /\ exists clean, release_injected_plan c = Some clean /\ (length clean <= 261)%nat
       /\ forall i, is_input i = true -> is_injected (press_of (foldl apply_transfer_success c clean) i) = false.
Proof.
  intros HS. unfold handoff_plan, release_injected_plan. rewrite !plan_fits.
  assert (forall sel selb pr, length (plan_of sel selb pr c) <= 261)%nat as Hlen.
  { intros sel selb pr. unfold plan_of, key_transfers, button_transfers. rewrite length_app.
    pose proof (omap_length (fun u => if sel u (key_press c u) then Some (TransferKey u pr) else None) (seqZ 0 256)) as H1.
    pose proof (omap_length (fun b => if selb (button_press c b) then Some (TransferButton b pr) else None) all_buttons) as H2.
    rewrite length_seqZ in H1. change (length all_buttons) with 5%nat in H2. lia. }
  assert (forall sel selb pr i, is_input i = true ->
    press_of (foldl apply_transfer_success c (plan_of sel selb pr c)) i
    = if (match i with HeldKey u => sel u (key_press c u) | HeldButton b => selb (button_press c b) end)
      then transferred (press_of c i) pr else press_of c i) as Hpl.
  { intros sel selb pr i Hi. rewrite (transfers_presses pr) by (done || apply plan_nodup || apply plan_down).
    destruct (decide _) as [Hd|Hd]; rewrite plan_in in Hd by done; [by rewrite Hd|].
    apply not_true_is_false in Hd. by rewrite Hd. }
  eexists. split; [done|]. split; [apply Hlen|]. split; [|split].
  - intros i Hi Hr. cbv zeta. rewrite Hpl by done. unfold counted in Hr. apply andb_true_iff in Hr as [Hr H3]. apply andb_true_iff in Hr as [H1 H2].
    unfold hands_off, button_hands_off. destruct i as [u|b]; cbn [press_of is_input] in *; rewrite ?Hi, H1, H2, H3; cbn [andb].
    + destruct remote, (usage_is_modifier u), (local_down (key_press c u)) eqn:El; cbn; split_and!; try done; by rewrite El.
    + destruct remote, (local_down (button_press c b)) eqn:El; cbn; split_and!; try done; by rewrite El.
  - intros i Hi Hr. rewrite Hpl by done. unfold counted in Hr. unfold hands_off, button_hands_off.
    destruct i as [u|b]; cbn [press_of] in *.
    + destruct (physical _), (withheld _), (initially_held _); cbn in *; done.
    + destruct (physical _), (withheld _), (initially_held _); cbn in *; done.
  - eexists. split; [done|]. split; [apply Hlen|]. intros i Hi. rewrite Hpl by done.
    assert (forall p, is_injected (if is_injected p then transferred p false else p) = false) as Hin
      by (intros p; destruct (is_injected p) eqn:Ei; [unfold is_injected; cbn; by rewrite ?andb_false_r|done]).
    destruct i as [u|b]; apply Hin.
Qed.

(** C38. The emergency chord always ends the capture: its timer starts at the key
    event after which both Ctrl keys and Escape are down, and from then on no
    operation stops, restarts or moves it while they stay down: no other key,
    button, motion, scroll or gesture, no tick, handoff, seed forgotten or change
    of the gate; it ends when one of the three comes up.  Every tick two seconds
    in or later stops the capture, while one before does nothing. *)
Theorem emergency_chord_stops (w : World F C) (op : LedgerOp F) now :
  world_reach (fun _ => True) w ->
  (forall t, pc_chord_since (wd_capture w) = Some t ->
     chord_held (wd_capture w) = true
     /\ (pc_last_time (wd_capture w) <= now -> t + HOLD_DURATION <= now ->
         stopped (snd (tick (wd_capture w) (wd_sink w) now)) = true)
     /\ (pc_last_time (wd_capture w) <= now < t + HOLD_DURATION ->
         snd (tick (wd_capture w) (wd_sink w) now) = wd_sink w))
  /\ (forall w', world_step w op = Some w' ->
      pc_chord_since (wd_capture w') =
        if chord_held (wd_capture w')
        then match pc_chord_since (wd_capture w) with
             | Some t => Some t
             | None => match op with
                       | OpEvent (EvKey u _ _ _) _ _ at_ => if usage_is_valid u then Some at_ else None
                       | _ => None
                       end
             end
        else None).
Proof.
  intros HR. pose proof (world_reach_inv _ w HR) as HI. pose proof (chord_reach _ w HR) as HC. split.
  - destruct w as [c ch shown]. pose proof HI as (HS & Hok & Hg & HP). cbn [wd_capture wd_sink wd_shown] in *.
    intros t Ht. split; [apply HC; by rewrite Ht|]. unfold tick. split.
    + intros H1 H2. rewrite (proj2 (Z.ltb_ge _ _)) by lia. cbn [pc_chord_since set_last_time snd]. rewrite Ht.
      rewrite (proj2 (Z.leb_le _ _)) by lia. by destruct (sink_halt_spec ch EmergencyEscapeStop Hok) as (_ & ? & _).
    + intros H1. rewrite (proj2 (Z.ltb_ge _ _)) by lia. cbn [pc_chord_since set_last_time snd]. rewrite Ht.
      rewrite (proj2 (Z.leb_gt _ _)) by (unfold HOLD_DURATION, secs in *; lia). done.
  - intros w' Hst. exact (chord_step w op w' HI HC Hst).
Qed.
End Theorems.

(** ** Runs *)

Section Runs.
Context {F : Type} `{SharedFloorI F} {C : Type} `{CaptureSink C}.
(** [good] is tested after every step. *)
Fixpoint world_ops (good : World F C -> bool) (ops : list (LedgerOp F)) (w : World F C) : option (World F C) :=
  match ops with
  | [] => Some w
  | op :: ops => w' ← world_step w op; if good w' then world_ops good ops w' else None
  end.
Lemma world_ops_reach P good ops : forall w w',
  (forall x, good x = true -> P x) -> world_reach P w -> Forall op_ok ops -> world_ops good ops w = Some w' ->
  world_reach P w'.
Proof.
  intros w w' HP. revert w. induction ops as [|op ops IH]; intros w HR Hok; cbn [world_ops]; [by intros [= <-]|].
  apply list.Forall_cons in Hok as [Ho Hok]. destruct (world_step w op) as [w1|] eqn:E; [|done]. cbn [mbind option_bind].
  destruct (good w1) eqn:Eg; [|done]. apply IH; [|done]. eapply reach_step; eauto.
Qed.
End Runs.

Definition empty_ring : RingSink := let '(q, p, _) := capture_channel new_stop in mkRingSink q p [].
Definition idle_capture : World Z RingSink := start_world false 0 None empty_ring.
Definition key_at (usage : HidUsage) (pressed : bool) (n : Z) : LedgerOp Z :=
  OpEvent (EvKey usage pressed false 0) None false (ms n).
Definition no_chord (w : World Z RingSink) : bool :=
  bool_decide (pc_chord_since (wd_capture w) = None) && negb (pc_reserved_escape (wd_capture w)).
Lemma no_chord_calm w : no_chord w = true -> calm (wd_capture w).
Proof. unfold no_chord. intros Hw _. by bool_inv. Qed.
Lemma capture_ran P good ops {A} (f : World Z RingSink -> A) a :
  P idle_capture -> (forall x, good x = true -> P x) -> Forall op_ok ops -> f <$> world_ops good ops idle_capture = Some a ->
  exists w, world_reach P w /\ f w = a.
Proof.
  intros H0 HP Hok. destruct (world_ops good ops idle_capture) as [w|] eqn:E; [|done]. intros E'. exists w.
  split; [|exact (inj Some _ _ E')]. eapply (world_ops_reach P good ops idle_capture); [exact HP| |exact Hok|exact E].
  apply (reach_new _ false 0 None empty_ring []); try done. split; [by left|vm_compute; reflexivity].
Qed.

(** Escape, both Ctrl keys, and Escape up again. *)
Definition broken_chord : list (LedgerOp Z) :=
  [key_at 0x29 true 1; key_at 0xE0 true 2; key_at 0xE4 true 3; key_at 0x29 false 4].
#[local] Existing Instance sample_libm.
(** The records of a run, as calls of the controller. *)
Definition captured_call (r : CapturedEvent) : option SourceOp :=
  match normalize r with Ok (Some t) => Some (CallCaptured t (ms 5)) | _ => None end.
Definition chord_end (vs : PeerView * SourceController) :=
  (s_failure (snd vs),
   (fun r => out_failure (snd r)) <$> on_captured (snd vs) (mkTagged (InKeyEvent 0x29 false false 0x11) 0 false 0) (ms 5)).

(** C13. The chord's keys can end a session without being held: Escape, then both
    Ctrl keys, then Escape up.  The second Ctrl completes the chord and is not
    queued, but the record of Escape coming up counts it among the modifiers, so a
    controller that read the records before it refuses that one as an impossible
    key state and fails. *)
Theorem broken_chord_ends_session :
  exists (w : World Z RingSink) (v : PeerView) (s s' : SourceController) (out : SourceOutcome) calls t,
    world_reach (fun _ => True) w /\ stopped (wd_sink w) = false
    /\ omap captured_call (sink_log (wd_sink w)) = calls ++ [CallCaptured t (ms 5)]
    /\ sample_run calls = Some (v, s) /\ s_failure s = None
    /\ on_captured s t (ms 5) = Some (s', out) /\ out_failure out = Some SInvalidKeyState.
Proof.
  set (calls := [CallCaptured (mkTagged (InKeyEvent 0x29 true false 0) 0 false 0) (ms 5);
                 CallCaptured (mkTagged (InKeyEvent 0xE0 true false 1) 0 false 0) (ms 5)]).
  set (t := mkTagged (InKeyEvent 0x29 false false 0x11) 0 false 0).
  destruct (capture_ran (fun _ => True) (fun _ => true) broken_chord
    (fun w => (is_stopped (sink_stop (wd_sink w)), omap captured_call (sink_log (wd_sink w))))
    (false, calls ++ [CallCaptured t (ms 5)])) as (w & HR & E); [done|done|by repeat constructor|vm_compute; reflexivity|].
  apply pair_eq in E as [E1 E2].
  assert (chord_end <$> sample_run calls = Some (None, Some (Some SInvalidKeyState))) as Hs by (vm_compute; reflexivity).
  destruct (sample_run calls) as [[v s]|] eqn:Er; [|done]. apply (inj Some) in Hs. unfold chord_end in Hs. cbn [snd] in Hs.
  apply pair_eq in Hs as [S1 S2]. fold t in S2.
  destruct (on_captured s t (ms 5)) as [[s' out]|] eqn:Eo; [|done]. cbn [fmap option_fmap option_map snd] in S2.
  exists w, v, s, s', out, calls, t. apply (inj Some) in S2. by split_and!.
Qed.

Lemma capture_apps_exact_witness :
  exists w w' : World Z RingSink, world_reach (fun _ => True) w /\ wd_shown w (HeldKey 4) = true
    /\ world_step w (key_at 4 false 3) = Some w' /\ wd_shown w' (HeldKey 4) = false.
Proof.
  destruct (capture_ran (fun _ => True) (fun _ => true) [key_at 4 true 1]
    (fun w => wd_shown w (HeldKey 4)) true) as (w & HR & E); [done|done|by repeat constructor|vm_compute; reflexivity|].
  destruct (capture_apps_exact w (key_at 4 false 3) HR I) as (w' & Hst & _ & Hrel).
  exists w, w'. split; [exact HR|]. split; [exact E|]. split; [exact Hst|].
  exact (Hrel (EvKey 4 false false 0) None false (ms 3) (HeldKey 4) eq_refl eq_refl).
Defined.
(** Shift and A go down; a controller reads them. *)
Lemma capture_keys_accepted_witness :
  exists (w : World Z RingSink) s s', world_reach (fun w => calm (wd_capture w)) w
    /\ read_keys s (sink_log (wd_sink w)) = Some s' /\ 4 ∈ k_keys (s_ledger s').
Proof.
  destruct (capture_ran (fun w => calm (wd_capture w)) no_chord [key_at 0xE1 true 1; key_at 4 true 2]
    (fun w => (stopped (wd_sink w), counted (key_press (wd_capture w) 4))) (false, true)) as (w & HR & E);
    [by intros _|apply no_chord_calm|by repeat constructor|vm_compute; reflexivity|].
  apply pair_eq in E as [E1 E2].
  destruct (sample_ran [] (fun vs => bool_decide (k_keys (s_ledger (snd vs)) = ∅)) true) as (v & s & _ & Es);
    [vm_compute; reflexivity|]. apply bool_decide_eq_true in Es. cbn [snd] in Es.
  destruct (capture_keys_accepted w s HR Es) as (s' & Hr & Hk).
  exists w, s, s'. split; [exact HR|]. split; [exact Hr|]. apply (proj2 (Hk E1 4 eq_refl)). exact E2.
Defined.
(** A held and left Ctrl, handed off. *)
Lemma handoff_moves_all_witness :
  exists (w : World Z RingSink) plan, world_reach (fun _ => True) w
    /\ local_down (press_of (wd_capture w) (HeldKey 4)) = true
    /\ handoff_plan (wd_capture w) true = Some plan
    /\ local_down (press_of (foldl apply_transfer_success (wd_capture w) plan) (HeldKey 4)) = false.
Proof.
  destruct (capture_ran (fun _ => True) (fun _ => true) [key_at 0xE0 true 1; key_at 4 true 2]
    (fun w => (counted (press_of (wd_capture w) (HeldKey 4)), local_down (press_of (wd_capture w) (HeldKey 4)))) (true, true))
    as (w & HR & E); [done|done|by repeat constructor|vm_compute; reflexivity|]. apply pair_eq in E as [E1 E2].
  destruct (handoff_moves_all (wd_capture w) true (proj1 (world_reach_inv _ w HR))) as (plan & Hp & _ & Hk & _).
  exists w, plan. split; [exact HR|]. split; [exact E2|]. split; [exact Hp|].
  exact (proj1 (Hk (HeldKey 4) eq_refl E1) eq_refl).
Defined.
Lemma emergency_chord_stops_witness :
  exists w w' : World Z RingSink, world_reach (fun _ => True) w
    /\ world_step w (OpEvent (EvScroll 0 120) None false (ms 1000)) = Some w'
    /\ pc_chord_since (wd_capture w') = Some (ms 3)
    /\ stopped (snd (tick (wd_capture w) (wd_sink w) (ms 2003))) = true.
Proof.
  destruct (capture_ran (fun _ => True) (fun _ => true) [key_at 0xE0 true 1; key_at 0xE4 true 2; key_at 0x29 true 3]
    (fun w => (pc_chord_since (wd_capture w), pc_last_time (wd_capture w),
               chord_held ∘ wd_capture <$> world_step w (OpEvent (EvScroll 0 120) None false (ms 1000))))
    (Some (ms 3), ms 3, Some true))
    as (w & HR & E); [done|done|by repeat constructor|vm_compute; reflexivity|]. apply pair_eq in E as [E E3].
  apply pair_eq in E as [E1 E2].
  destruct (emergency_chord_stops w (OpEvent (EvScroll 0 120) None false (ms 1000)) (ms 2003) HR) as [H1 H2].
  destruct (world_step w (OpEvent (EvScroll 0 120) None false (ms 1000))) as [w'|] eqn:Es; [|discriminate E3].
  injection E3 as E3. exists w, w'. split; [exact HR|]. split; [exact Es|]. split.
  - rewrite (H2 w' eq_refl), E3, E1. reflexivity.
  - apply (H1 (ms 3) E1); rewrite ?E2; vm_compute; discriminate.
Defined.
