(* ===== verification/SourceFloor.v ===== *)
(** * What a call of the source controller does to the floor (session_source.rs)

    Several controllers share one floor.  [moves] is what one of them may do to
    the word, its claim and the handover it holds: claim a free floor for its own
    slot, move its own claim on, give it back, or put it into a handover.  Every
    call is at most three such moves ([step_moves]), and from moves follow what a
    group relies on: a controller leaves the word of another alone
    ([moves_foreign]) and never loses track of its own ([moves_owned]). *)

From stdpp Require Import gmap.
From S2P Require Import Prelude F64 Types Geometry Topology Floor Messages Sequence Ownership Clicks.
From S2P Require Import SessionPacer SessionHealth SessionQuality SourceEdges SourceState HeldInput.
From S2P Require Import Source SourceKept SourceStream SourceSafety SourceRemote SourceCalls SourceSystem.

(** The word, the claim on it and the handover in hand. *)
Definition Held : Type := FloorSnapshot * option FloorSnapshot * option Handover.
Definition held_of (s : SourceController) : Held := (f_floor (s_floor s), f_claim (s_floor s), s_handover s).

Definition outbound (w : FloorSnapshot) : bool := bool_decide (floor_owner (state w) = Some Floor.Outbound).

Inductive floor_prim (slot : Z) : Held -> Held -> Prop :=
| prim_claim w c h : state w = Free ->
    floor_prim slot (w, c, h) (next w Requesting slot, Some (next w Requesting slot), h)
| prim_move w to h : outbound w = true -> (to = Sending \/ to = Returning) ->
    floor_prim slot (w, Some w, h) (next w to (peer w), Some (next w to (peer w)), h)
| prim_free w c h : c = w \/ (outbound w = true /\ generation c = generation w) ->
    floor_prim slot (w, Some c, h) (freed w, None, h)
| prim_forget w c h : c <> w \/ outbound w = false -> floor_prim slot (w, Some c, h) (w, None, h)
| prim_drop w c h ho : ho_claim ho = c -> floor_prim slot (w, Some c, h) (w, None, Some ho).

Inductive moves (slot : Z) : nat -> Held -> Held -> Prop :=
| moves_nil x : moves slot 0 x x
| moves_snoc n x y z : moves slot n x y -> floor_prim slot y z -> moves slot (S n) x z.

Lemma moves_zero slot x y : moves slot 0 x y -> y = x.
Proof. intros H. by inversion H. Qed.
Lemma moves_app slot n m x y z : moves slot n x y -> moves slot m y z -> moves slot (n + m) x z.
Proof.
  intros H1 H2. revert n H1. induction H2 as [y|m y z u _ IH Hp]; intros n H1; [by rewrite Nat.add_0_r|].
  rewrite Nat.add_succ_r. by eapply moves_snoc; [apply IH|].
Qed.

(** ** Every function makes such moves *)

Section Moves.
Context `{Libm} (slot : Z) (x : Held).

Definition At (n : nat) (s : SourceController) : Prop :=
  c_slot (s_config s) = slot /\ exists m, (m <= n)%nat /\ moves slot m x (held_of s).

Lemma at_more n m s : At n s -> (n <= m)%nat -> At m s.
Proof. intros (Hs & k & Hk & Hm) Hle. split; [done|]. exists k. split; [lia|done]. Qed.
(** Steps that touch other fields only. *)
Lemma at_same n s s' : At n s -> c_slot (s_config s') = c_slot (s_config s) -> held_of s' = held_of s -> At n s'.
Proof. intros [Hs Hm] Hc Hh. unfold At. by rewrite Hc, Hh. Qed.
Lemma at_prim n s s' : At n s -> c_slot (s_config s') = c_slot (s_config s) ->
  floor_prim slot (held_of s) (held_of s') -> At (S n) s'.
Proof.
  intros (Hs & k & Hk & Hm) Hc Hp. split; [by rewrite Hc|]. exists (S k). split; [lia|]. by eapply moves_snoc.
Qed.
Lemma at_kept n s s' : At n s -> Kept s s' -> f_floor (s_floor s') = f_floor (s_floor s) ->
  f_claim (s_floor s') = f_claim (s_floor s) -> At n s'.
Proof.
  intros HA (K1 & _ & K3 & _) Hf Hc. apply (at_same n s s' HA); [by rewrite K1|].
  unfold held_of. by rewrite Hf, Hc, K3.
Qed.

(** A read of [At] through updates of other fields. *)
Ltac at_set := match goal with HA : At ?n ?s |- At ?n _ => exact HA end.

(** Whole results. *)
Definition At1 {A} (n : nat) (r : SourceController * A) : Prop := At n (fst r).
Definition AtO (n : nat) (r : option SourceController) : Prop := forall s, r = Some s -> At n s.
Lemma at_o n s : At n s -> AtO n (Some s).
Proof. intros HA s' E. by apply (inj Some) in E as <-. Qed.
Lemma at_o_bind {A} n (m : option A) (f : A -> option SourceController) :
  (forall a, m = Some a -> AtO n (f a)) -> AtO n (m ≫= f).
Proof. intros Hf s E. destruct m as [a|]; [|done]. by apply (Hf a eq_refl). Qed.
Lemma at_o_then n k (m : option SourceController) (f : SourceController -> option SourceController) :
  AtO n m -> (forall a, At n a -> AtO k (f a)) -> AtO k (m ≫= f).
Proof. intros Hm Hf. apply at_o_bind. intros a E. apply Hf. by apply Hm. Qed.
Lemma at_o_more n m r : AtO n r -> (n <= m)%nat -> AtO m r.
Proof. intros Hr Hle s E. by eapply at_more; [apply Hr|]. Qed.

Lemma at_fail n s f : At n s -> At n (fail s f).
Proof.
  intros HA. apply (at_kept n s _ HA (kept_fail s f)).
  all: unfold fail; destruct (s_failure s); [done|];
    unfold restore_on_failure, release_on_failure, try_effect; repeat case_match; done.
Qed.
Lemma at_push_effect n s e : At n s -> At1 n (push_effect s e).
Proof. intros HA. unfold At1, push_effect. case_match; [by apply at_fail|at_set]. Qed.
Lemma at_send_input n s m : At n s -> At n (send_input s m).
Proof. intros HA. unfold send_input. case_match; [|by apply at_fail]. by apply (at_push_effect n (set_input_sequence s _)). Qed.
Lemma at_push_control n s m : At n s -> At n (push_control s m).
Proof. intros HA. unfold push_control. case_match; [|by apply at_fail]. by apply (at_push_effect n (set_control_sequence s _)). Qed.
Lemma at_flush_motion n s : At n s -> At1 n (flush_motion s).
Proof.
  intros HA. unfold At1, flush_motion. destruct (SessionPacer.flush _ _) as [pc [p|]]; [|at_set].
  by apply (at_send_input n (set_pacer s pc)).
Qed.
Lemma at_push_message n s m : At n s -> At n (push_message s m).
Proof.
  intros HA. unfold push_message. pose proof (at_flush_motion n s HA) as Hf. unfold At1 in Hf.
  destruct (flush_motion s) as [s1 []]; [by apply at_send_input|done].
Qed.
Lemma at_push_input n s m : At n s -> At n (push_input s m).
Proof.
  intros HA. destruct m as [| | | |[p|p]| | | | | | | | | | | | | | | | |]; try by apply at_push_message.
  cbn [push_input]. unfold push_motion. destruct (offer _ _ _ _) as [pc [q|]]; [|at_set].
  by apply (at_send_input n (set_pacer s pc)).
Qed.
Lemma at_request_route n s e : At n s -> At1 n (request_route s e).
Proof.
  intros HA. unfold At1, request_route. case_match; [|by apply at_fail].
  pose proof (at_push_effect n (set_next_request s z) (e (s_next_request s)) HA) as Hp.
  destruct (push_effect _ _) as [s1 ok]. exact Hp.
Qed.
Lemma at_begin_ownership n s t : At n s -> At1 n (begin_ownership_transition s t).
Proof.
  intros HA. unfold At1, begin_ownership_transition. destruct (begin_transition _ _) as [o [[]|]]; try at_set;
    by apply (at_fail n (set_ownership s o)).
Qed.
Lemma at_acknowledge n s t e : At n s -> At1 n (acknowledge s t e).
Proof. intros HA. unfold At1, acknowledge. destruct (acknowledge_transition _ _) as [o r]. at_set. Qed.
Lemma at_recover n s t : At n s -> At1 n (recover_ownership_at s t).
Proof.
  intros HA. unfold At1, recover_ownership_at. destruct (on_failure _ _) as [o [plan|e]]; [|at_set].
  destruct (complete_recovery _ _) as [o1 [[]|e]]; [|at_set].
  destruct (begin_transition _ _) as [o2 [[]|[]]]; try at_set. destruct (acknowledge_transition _ _); at_set.
Qed.

(** *** The moves themselves *)

Lemma at_move_claim n s owned to : At n s -> f_claim (s_floor s) = Some owned -> to = Sending \/ to = Returning ->
  At1 (S n) (move_claim s owned to).
Proof.
  intros HA Hc Hto. unfold At1, move_claim, floor_transition, floor_call, FloorSpec.edge.
  destruct (bool_decide (owned = f_floor (s_floor s))) eqn:E1; cbn [andb].
  2: eapply at_more; [exact HA|lia].
  apply bool_decide_eq_true in E1 as ->. destruct (floor_allows _ _) eqn:E2; [|eapply at_more; [exact HA|lia]].
  cbn [fst]. eapply at_prim; [exact HA|done|]. unfold held_of. sg. rewrite Hc.
  assert (bool_decide (to = Free) = false) as -> by (by destruct Hto as [-> | ->]).
  assert (outbound (f_floor (s_floor s)) = true /\ bool_decide (state (f_floor (s_floor s)) = Free) = false) as [Ho ->].
  { unfold outbound. destruct (state (f_floor (s_floor s))), Hto as [-> | ->]; try done; by split; try apply bool_decide_eq_true_2. }
  by apply prim_move.
Qed.
Lemma at_return_claim n s : At n s -> At1 (S n) (return_claim s).
Proof.
  intros HA. unfold return_claim. destruct (f_claim (s_floor s)) as [c|] eqn:Ec; [|eapply at_more; [exact HA|lia]].
  apply at_move_claim; auto.
Qed.
Lemma at_release_floor n s : At n s -> At (S n) (release_floor s).
Proof.
  intros HA. unfold release_floor. cbv zeta. sg. destruct (f_claim (s_floor s)) as [c|] eqn:Ec; [|eapply at_more; [exact HA|lia]].
  set (w := f_floor (s_floor s)).
  assert (forall s', c_slot (s_config s') = c_slot (s_config s) -> floor_prim slot (w, Some c, s_handover s) (held_of s') ->
    At (S n) s') as Hp.
  { intros s' Hc Hp. eapply at_prim; [exact HA|done|]. unfold held_of at 1. by rewrite Ec. }
  unfold floor_transition, floor_call, FloorSpec.edge. destruct (bool_decide (c = w)) eqn:E1; cbn [andb].
  - apply bool_decide_eq_true in E1 as ->. destruct (floor_allows (state w) Free) eqn:E2.
    + rewrite bool_decide_eq_true_2 by done. case_match; (apply Hp; [done|apply prim_free; by left]).
    + unfold FloorSpec.step, FloorSpec.edge. rewrite Z.eqb_refl. cbn [andb].
      destruct (bool_decide (floor_owner (state w) = Some Floor.Outbound)) eqn:E3; cbn [default from_option];
        (apply Hp; [done|]); [apply prim_free; by left|apply prim_forget; by right].
  - apply bool_decide_eq_false in E1. unfold FloorSpec.step, FloorSpec.edge.
    destruct (generation w =? generation c) eqn:Eg; cbn [andb].
    + destruct (bool_decide (floor_owner (state w) = Some Floor.Outbound)) eqn:E3; cbn [default from_option];
        (apply Hp; [done|]); [|apply prim_forget; by left]. apply Z.eqb_eq in Eg. apply prim_free. by right.
    + apply Hp; [done|apply prim_forget; by left].
Qed.
Lemma at_begin_return n s l p g h : At n s -> At (S n) (begin_return_to s l p g h).
Proof.
  intros HA. unfold begin_return_to. pose proof (at_return_claim n s HA) as H1. unfold At1 in H1.
  destruct (return_claim s) as [s1 []]; cbn [negb fst] in *; [|by apply at_fail].
  pose proof (at_begin_ownership _ s1 l H1) as H2. unfold At1 in H2. destruct (begin_ownership_transition s1 l) as [s2 [ep|]]; cbn [fst] in *; [|done].
  pose proof (at_push_input _ s2 MsgReleaseAll H2) as H3. destruct (failed _); exact H3.
Qed.
Lemma at_settle n s : At n s -> At (2 + n) (settle_outcome s).
Proof.
  intros HA. unfold settle_outcome. destruct (failed s); [eapply at_more; [exact HA|lia]|]. cbv zeta.
  set (s1 := if s_take_back s then _ else s).
  assert (At (S n) s1) as H1.
  { subst s1. destruct (s_take_back s); [|eapply at_more; [exact HA|lia]].
    destruct (s_state s); try (eapply at_more; [exact HA|lia]).
    exact (at_begin_return n (set_take_back s false) _ _ _ _ HA). }
  clearbody s1. destruct (_ && _); [by apply at_release_floor|eapply at_more; [exact H1|lia]].
Qed.

(** *** Time, health and what is sent *)

Lemma at_observe_time n s now : At n s -> At1 n (observe_time s now).
Proof. intros HA. unfold At1, observe_time. destruct (_ <? _); [by apply at_fail|at_set]. Qed.
Lemma at_hold_barrier n s now : At n s -> At n (send_hold_barrier s now).
Proof. intros HA. unfold send_hold_barrier. pose proof (at_push_input n s MsgReleaseAll HA). destruct (failed _); at_set. Qed.
Lemma at_hold_route n s b nt r : At n s -> At1 n (hold_route s b nt r).
Proof.
  intros HA. unfold At1, hold_route. destruct b; [at_set|]. destruct nt; [|at_set].
  pose proof (at_request_route n s (fun request => RestoreLocalAt request (Ownership.display r.1) r.2) HA) as H1. unfold At1 in H1.
  destruct (request_route _ _) as [s1 []]; exact H1.
Qed.
Lemma at_hold n s now : At n s -> At n (hold s now).
Proof.
  intros HA. unfold hold. destruct (SessionHealth.hold _ _) as [h [[]|e]]; [|exact (at_fail n (set_health s h) _ HA)].
  cbv zeta. set (s1 := set_quality _ _). assert (At n s1) as H1 by exact HA. clearbody s1.
  pose proof (at_recover n s1 (failure_restore_target s1).1 H1) as H2. unfold At1 in H2.
  destruct (recover_ownership_at s1 _) as [s2 []]; cbn [negb fst] in *; [|by apply at_fail].
  set (s3 := set_acks_pending s2 _). assert (At n s3) as H3 by exact H2. clearbody s3.
  pose proof (at_hold_barrier n s3 now H3) as H4. destruct (failed _); [done|].
  set (s4 := clear_remote_delivery _). assert (At n s4) as H5 by exact H4. clearbody s4.
  match goal with |- context [hold_route s4 ?b ?nt ?r] => pose proof (at_hold_route n s4 b nt r H5) as H6;
    destruct (hold_route s4 b nt r) as [s5 []] end; exact H6.
Qed.
Lemma at_check_health n s now : At n s -> At1 n (check_health s now).
Proof.
  intros HA. unfold At1, check_health. destruct (is_held s); [done|]. destruct (check _ _) as [h [[]|[]]]; try at_set;
    try exact (at_fail n (set_health s h) _ HA). exact (at_hold n (set_health s h) now HA).
Qed.
Lemma at_observe n s now : At n s -> At1 n (observe s now).
Proof.
  intros HA. unfold observe. pose proof (at_observe_time n s now HA) as H1. destruct (observe_time s now) as [s1 []]; [|exact H1].
  by apply at_check_health.
Qed.
Lemma at_try_resume n s now : At n s -> At n (try_resume s now).
Proof.
  intros HA. unfold try_resume. destruct (l_held_since _); [|done]. destruct (_ || _); [done|].
  destruct (resume _ _) as [h [[]|e]]; at_set.
Qed.
Lemma at_on_pong n s t now : At n s -> At n (on_pong s t now).
Proof.
  intros HA. unfold on_pong. destruct (is_held s).
  - destruct (receive_pong_while_held _ _ _) as [h [[]|e]]; [| |exact (at_fail n (set_health s h) _ HA)].
    + exact (at_try_resume n (set_pong_seen (set_health s h) true) now HA).
    + at_set.
  - destruct (receive_pong _ _ _) as [h [[]|e]]; [at_set|exact (at_fail n (set_health s h) _ HA)].
Qed.
Lemma at_challenge n s t now : At n s -> At n (challenge_peer s t now).
Proof. intros HA. by apply (at_push_control n (set_quality s _)). Qed.
Lemma at_send_due n s now : At n s -> At n (send_due s now).
Proof.
  intros HA. unfold send_due. destruct (failed s); [done|]. destruct (due _ _ _) as [pc [p|]]; [|at_set].
  exact (at_send_input n (set_pacer s pc) _ HA).
Qed.
Lemma at_tick n s now : At n s -> At n (tick s now).
Proof.
  intros HA. unfold tick. destruct (failed s); [done|]. pose proof (at_observe_time n s now HA) as H1. unfold At1 in H1.
  destruct (observe_time s now) as [s1 []]; cbn [negb fst] in *; [|done].
  cbv zeta. set (s2 := set_quality s1 _). assert (At n s2) as H2 by exact H1. clearbody s2. clear H1 s1.
  destruct (l_held_since _) as [since|].
  - unfold tick_held. destruct (_ <=? _); [by apply at_fail|]. cbv zeta. set (s3 := if _ && _ then _ else s2).
    assert (At n s3) as H3 by (subst s3; destruct (_ && _); [by apply at_hold_barrier|done]). clearbody s3.
    destruct (failed s3); [done|]. destruct (poll_while_held _ _) as [h [[t|]|e]]; [| |exact (at_fail n (set_health s3 h) _ H3)].
    + exact (at_challenge n (set_health s3 h) t now H3).
    + exact H3.
  - destruct (should_retreat s2 now); [by apply at_hold|]. unfold tick_live.
    destruct (poll _ _) as [h [[t|]|[]]]; apply at_send_due; try exact (at_fail n (set_health s2 h) _ H2).
    + exact (at_challenge n (set_health s2 h) t now H2).
    + exact H2.
    + exact (at_hold n (set_health s2 h) now H2).
Qed.
Lemma at_budget n s now : At n s -> At1 n (suppression_budget s now).
Proof.
  intros HA. unfold At1, suppression_budget. destruct (s_failure s); [done|]. destruct (_ <? _); [done|]. cbv zeta.
  destruct (is_held _); [at_set|]. destruct (_ && _); [at_set|]. destruct (remaining _ _) as [h r]. at_set.
Qed.

(** *** Keys and buttons *)

Lemma at_each n test body stop l : (forall s i, At n s -> At n (body s i)) ->
  forall s, At n s -> At1 n (each test body stop l s).
Proof.
  intros Hb. induction l as [|i l IH]; intros s HA; [done|]. cbn [each]. destruct (test s i); [|by apply IH].
  destruct (stop && _); [by apply Hb|by apply IH, Hb].
Qed.
Lemma at_key_down n s u : At n s -> At n (key_down s u).
Proof. intros HA. by apply (at_push_input n (set_remote_keys s _)). Qed.
Lemma at_key_up n s u : At n s -> At n (key_up s u).
Proof. intros HA. by apply (at_push_input n (set_remote_keys s _)). Qed.
Lemma at_button_down n s i c : At n s -> At n (button_down s i c).
Proof. intros HA. by apply (at_push_input n (set_remote_clicks (set_remote_buttons s _) _)). Qed.
Lemma at_button_up n s i : At n s -> At n (button_up s i).
Proof. intros HA. by apply (at_push_input n (set_remote_buttons s _)). Qed.
Lemma at_transfer n s : At n s -> At n (transfer_to_remote s).
Proof.
  intros HA. unfold transfer_to_remote. cbv zeta. set (s1 := set_clicks s _). assert (At n s1) as H1 by exact HA. clearbody s1.
  pose proof (at_each n key_to_press key_down true modifier_indices (fun s i => at_key_down n s i) s1 H1) as H2. unfold At1 in H2.
  destruct (each _ _ _ _ s1) as [s2 []]; cbn [fst] in *; [done|]. apply at_each; [|done]. intros. by apply at_button_down.
Qed.
Lemma at_synchronize n s : At n s -> At n (synchronize_reanchored_remote_input s).
Proof.
  intros HA. unfold synchronize_reanchored_remote_input. cbv zeta. set (s1 := set_clicks s _).
  assert (At n s1) as H1 by exact HA. clearbody s1. destruct (_ <? _)%nat; [by apply at_fail|].
  apply at_each; [intros ? ?; apply at_button_down|]. do 2 (apply at_each; [intros ? ?; apply at_key_down|]).
  apply at_each; [intros ? ?; apply at_button_up|]. do 2 (apply at_each; [intros ? ?; apply at_key_up|]). exact H1.
Qed.
Lemma at_update_key n s u p r m : At n s -> At1 n (update_key s u p r m).
Proof. intros HA. unfold At1, update_key. repeat case_match; at_set. Qed.
Lemma at_update_button n s b p : At n s -> At1 n (update_button s b p).
Proof. intros HA. unfold At1, update_button. repeat case_match; at_set. Qed.

(** *** Activations and crossings *)

Lemma at_activation n s t e g rt rp a : At n s -> AtO n (begin_remote_activation s t e g rt rp a).
Proof.
  intros HA. unfold begin_remote_activation. pose proof (at_begin_ownership n s t HA) as H1. unfold At1 in H1.
  destruct (begin_ownership_transition s t) as [s1 [ep|]]; cbn [fst] in *; [|by apply at_o].
  destruct (checked_add_u64 _ 1) as [nx|]; [|by apply at_o, at_fail].
  pose proof (at_flush_motion n s1 H1) as H2. unfold At1 in H2. destruct (flush_motion s1) as [s2 []]; cbn [negb fst] in *; [|by apply at_o].
  unfold open_activation. cbv zeta. apply at_o_bind. intros p _. apply at_o, at_push_input. destruct (a_already_remote _); exact H2.
Qed.
Lemma at_adopt n s t c : At n s -> At n (adopt_local_target s t c).
Proof.
  intros HA. unfold adopt_local_target. pose proof (at_begin_ownership n s t HA) as H1. unfold At1 in H1.
  destruct (begin_ownership_transition s t) as [s1 [ep|]]; cbn [fst] in *; [|done].
  pose proof (at_acknowledge n s1 t ep H1) as H2. unfold At1 in H2. destruct (acknowledge s1 t ep) as [s2 []]; cbn [negb fst] in *; [exact H2|by apply at_fail].
Qed.
Lemma at_crossing_allowed n s : At n s -> At1 n (local_crossing_allowed s).
Proof. intros HA. unfold At1, local_crossing_allowed. repeat case_match; at_set. Qed.
Lemma at_declined_retry n s f t : At n s -> At1 n (declined_retry s f t).
Proof. intros HA. unfold At1, declined_retry. repeat case_match; at_set. Qed.
Lemma at_cross n s f t e rp : At n s -> AtO (S n) (cross_to_peer s f t e rp).
Proof.
  intros HA. assert (forall s', At n s' -> At (S n) s') as Hm by (intros s' H'; eapply at_more; [exact H'|lia]).
  unfold cross_to_peer. destruct (_ || _); [by apply at_o, Hm|].
  pose proof (at_crossing_allowed n s HA) as H1. unfold At1 in H1. destruct (local_crossing_allowed s) as [s1 []]; cbn [negb fst] in *; [|by apply at_o, Hm].
  destruct (c_pointer_confined _); [by apply at_o, Hm|].
  pose proof (at_declined_retry n s1 f t H1) as H2. unfold At1 in H2. destruct (declined_retry s1 f t) as [s2 []]; cbn [negb fst] in *; [|by apply at_o, Hm].
  cbv zeta. unfold floor_claim, floor_call, FloorSpec.edge. rewrite bool_decide_eq_true_2 by done. cbn [andb].
  rewrite bool_decide_eq_true_2 by auto. cbn [andb].
  assert (bool_decide (state (f_floor (s_floor s2)) = Requesting /\ Requesting = Receiving) = false) as ->
    by (apply bool_decide_eq_false_2; by intros []).
  cbn [andb]. rewrite orb_false_r. destruct (_ && _) eqn:E; [|by apply at_o, Hm]. apply andb_prop in E as [E _].
  apply bool_decide_eq_true in E. apply at_activation. eapply at_prim; [exact H2|done|].
  unfold held_of. sg. rewrite (proj1 H2). by apply prim_claim.
Qed.
Lemma at_begin_edge n s f t : At n s -> AtO (S n) (begin_edge_transition s f t).
Proof.
  intros HA. assert (forall s', At n s' -> At (S n) s') as Hm by (intros s' H'; eapply at_more; [exact H'|lia]).
  unfold begin_edge_transition. destruct (machine_for_display _ _); [|by apply at_o, Hm, at_fail]. cbv zeta.
  destruct (bool_decide _); [by apply at_o, Hm, at_adopt|]. apply at_o_bind. intros [p|] _; [by apply at_cross|by apply at_o, Hm, at_fail].
Qed.
Lemma at_guarded n s i p : At n s -> At1 n (guarded_entry_edge s i p).
Proof. intros HA. unfold At1, guarded_entry_edge. repeat case_match; at_set. Qed.
Lemma at_note_pressing n s p : At n s -> At n (note_pressing s p).
Proof. intros HA. unfold note_pressing. destruct (s_declined s) as [[[[a b] c] d]|]; [|done]. case_match; at_set. Qed.
Ltac at_weak := first [apply at_o; eapply at_more; [|apply Nat.le_succ_diag_r]].

Lemma at_press_seam n s t c a p now g : At n s -> AtO (S n) (press_seam s t c a p now g).
Proof.
  intros HA. unfold press_seam. cbv zeta. set (s1 := set_local s t _). assert (At n s1) as H1 by exact HA. clearbody s1.
  apply at_o_bind. intros [[[e tr]|]|] _; [| |at_weak; by apply at_fail].
  - destruct (is_home_display _ _); [by at_weak|]. unfold push_absolute. destruct (display_at _ _); [|at_weak; by apply at_fail].
    destruct (push_to _ _ _ _ _ _ _) as [ps [b|]]; [|by at_weak]. cbv zeta. apply at_o_bind. intros tr' _. by apply at_begin_edge.
  - by at_weak.
Qed.
Lemma at_move_local n s t c pr a p now g : At n s -> AtO (S n) (move_local s t c pr a p now g).
Proof.
  intros HA. unfold move_local. apply at_o_bind. intros [[tr|]|] _; [| |at_weak; by apply at_fail].
  - destruct (is_home_display _ _); [by apply at_begin_edge|by apply at_press_seam].
  - by apply at_press_seam.
Qed.
Lemma at_local_motion n s p now : At n s -> AtO (S n) (apply_local_motion s p now).
Proof.
  intros HA. unfold apply_local_motion. destruct (s_state s); try (by at_weak).
  pose proof (at_guarded n s (Ownership.display target) p HA) as H1. unfold At1 in H1. destruct (guarded_entry_edge s _ p) as [s1 g]; cbn [fst] in *.
  cbv zeta. pose proof (at_note_pressing n s1 p H1) as H2. set (s2 := note_pressing s1 p) in *. clearbody s2.
  destruct (local_target_at s2 p) as [[f|]|]; [| |at_weak; by apply at_fail].
  - destruct (bool_decide _); [by apply at_move_local|at_weak; by apply at_adopt].
  - apply at_o_bind. intros e _. by apply at_move_local.
Qed.
Lemma at_local_relative n s m now : At n s -> AtO (S n) (apply_local_relative s m now).
Proof.
  intros HA. unfold apply_local_relative. cbv zeta. set (s1 := add_recent s _ now). assert (At n s1) as H1 by exact HA. clearbody s1.
  destruct (s_state s1) as [t [a|]| | | | | |]; try (by at_weak). set (s2 := set_edge_pushes s1 _). assert (At n s2) as H2 by exact H1. clearbody s2.
  pose proof (at_guarded n s2 (Ownership.display t) a H2) as H3. unfold At1 in H3. destruct (guarded_entry_edge s2 _ a) as [s3 g]; cbn [fst] in *.
  apply at_o_bind. intros [[[e tr]|]|] _; [|by at_weak|at_weak; by apply at_fail].
  destruct (is_home_display _ _); [by apply at_begin_edge|]. destruct (push_by _ _ _ _ _ _) as [ps [b|]]; [|by at_weak].
  apply at_o_bind. intros tr' _. by apply at_begin_edge.
Qed.
Lemma at_carry n s m : At n s -> At1 n (carry_pending s m).
Proof. intros HA. unfold At1, carry_pending. repeat case_match; at_set. Qed.
Lemma at_apply_local n s i now : At n s -> AtO (S n) (apply_local s i now).
Proof.
  intros HA. destruct i as [u pr r m|b pr a|p|dl gain|h v|g|g|r v]; cbn [apply_local]; try (by at_weak).
  - pose proof (at_update_key n s u pr r m HA) as H1. unfold At1 in H1. destruct (update_key _ _ _ _ _) as [s1 [c|]]; at_weak; [done|by apply at_fail].
  - by apply at_local_motion.
  - pose proof (at_carry n s (relative s dl gain) HA) as H1. unfold At1 in H1. cbv zeta. destruct (carry_pending _ _) as [s1 []]; [by at_weak|by apply at_local_relative].
Qed.

Lemma at_remote_edge n s f rt rp t : At n s -> AtO (S n) (apply_remote_edge s f rt rp t).
Proof.
  intros HA. unfold apply_remote_edge. destruct (machine_for_display _ _); [|at_weak; by apply at_fail]. cbv zeta.
  destruct (bool_decide _); [by apply at_o, at_begin_return|].
  destruct (bool_decide _); [eapply at_o_more; [by apply at_activation|lia]|].
  destruct (_ && _); [by apply at_o, at_begin_return|at_weak; by apply at_fail].
Qed.
Lemma at_set_carried n s c : At n s -> At n (set_carried s c).
Proof. intros HA. unfold set_carried. case_match; at_set. Qed.
Lemma at_route_remote n s m now t p d nx rt rp b on seam home : At n s ->
  AtO (S n) (route_remote s m now t p d nx rt rp b on seam home).
Proof.
  intros HA. unfold route_remote. cbv zeta.
  match goal with |- AtO _ (match ?g with Some _ => _ | None => _ end) => generalize g end. intros [[e tr]|].
  - eapply at_o_then; [by apply at_remote_edge|]. intros s1 H1. by apply at_o, at_set_carried.
  - assert (At1 n (push_remote s m now seam t)) as H1.
    { unfold At1, push_remote. destruct seam as [[e tr]|]; [|done]. destruct (push_by _ _ _ _ _ _) as [ps th]. at_set. }
    unfold At1 in H1. destruct (push_remote s m now seam t) as [s1 [[tr b']|]]; cbn [fst] in *.
    + apply at_o_bind. intros tr' _. by apply at_remote_edge.
    + unfold move_remote. cbv zeta. destruct (point_eqb _ _); [by at_weak|]. apply at_o_bind. intros q _. at_weak. by apply at_push_input.
Qed.
Lemma at_remote_motion n s m now : At n s -> AtO (S n) (apply_remote_motion s m now).
Proof.
  intros HA. unfold apply_remote_motion. destruct (s_state s); try (by at_weak). cbv zeta.
  set (s1 := add_recent s _ now). assert (At n s1) as H1 by exact HA. clearbody s1.
  destruct (display_at _ _); [|at_weak; by apply at_fail]. destruct (negb _); [at_weak; by apply at_fail|].
  pose proof (at_guarded n s1 (Ownership.display target) position H1) as H2. unfold At1 in H2. destruct (guarded_entry_edge s1 _ _) as [s2 g]; cbn [fst] in *.
  do 4 (apply at_o_bind; intros ? _). repeat case_match; try (at_weak; by apply at_fail). by apply at_route_remote.
Qed.
Lemma at_remote_key n s u p r m : At n s -> At n (remote_key s u p r m).
Proof.
  intros HA. unfold remote_key. cbv zeta. pose proof (at_update_key n s u p r m HA) as H1. unfold At1 in H1.
  destruct (update_key _ _ _ _ _) as [s1 [c|]]; cbn [fst] in *; [|by apply at_fail].
  destruct (negb _); [done|]. destruct (_ && _); [by apply at_key_down|]. destruct (_ && _); [by apply at_push_input|].
  destruct (_ && _); [by apply at_key_up|done].
Qed.
Lemma at_remote_button n s b p a : At n s -> At n (remote_button s b p a).
Proof.
  intros HA. unfold remote_button. pose proof (at_update_button n s b p HA) as H1. unfold At1 in H1.
  destruct (update_button s b p) as [s1 c]; cbn [fst] in *. cbv zeta. set (s2 := if Bool.eqb _ _ then s1 else _).
  assert (At n s2) as H2 by (subst s2; destruct (Bool.eqb _ _); [done|]; unfold mark_button; repeat case_match; at_set).
  clearbody s2. destruct (s_state s2); try done. destruct (_ && _).
  - destruct (press _ _ _ _) as [k cl]. exact (at_button_down n (set_clicks s2 k) _ _ H2).
  - destruct (_ && _); [by apply at_button_up|done].
Qed.
Lemma at_apply_remote n s i now : At n s -> AtO (S n) (apply_remote s i now).
Proof.
  intros HA. destruct i as [u pr r m|b pr a|p|dl gain|h v|g|g|r v]; cbn [apply_remote]; try (by at_weak).
  - at_weak. by apply at_remote_key.
  - at_weak. by apply at_remote_button.
  - cbv zeta. destruct (forwarding s); [by apply at_remote_motion|]. at_weak. by apply at_carry.
  - at_weak. destruct (_ && _); [by apply at_push_input|done].
  - at_weak. destruct (forwarding s); [by apply at_push_input|done].
  - at_weak. destruct (forwarding s); [by apply at_push_input|done].
Qed.
Lemma at_route_changed n s r v : At n s -> AtO (S n) (on_route_changed s r v).
Proof.
  intros HA. unfold on_route_changed. destruct (s_state s); try (at_weak; by apply at_fail).
  - destruct (_ && _); [|at_weak; by apply at_fail]. cbv zeta.
    pose proof (at_transfer n (set_route s (mkRoute r v true)) HA) as H1. set (s1 := transfer_to_remote _) in *. clearbody s1.
    apply at_o_bind. intros p _. destruct (failed s1); [by at_weak|]. destruct (point_eqb _ _); [by at_weak|].
    apply at_o_bind. intros q _. at_weak. by apply at_push_input.
  - destruct (_ && _); [by at_weak|at_weak; by apply at_fail].
Qed.
Lemma at_motion_permitted n s r : At n s -> At1 n (motion_permitted s r).
Proof.
  intros HA. unfold motion_permitted. pose proof (at_crossing_allowed n s HA) as H1. unfold At1 in *.
  destruct (local_crossing_allowed s) as [s1 al]. repeat case_match; done.
Qed.
Lemma at_captured n s r now : At n s -> AtO (S n) (captured s r now).
Proof.
  intros HA. unfold captured. destruct (failed s); [by at_weak|].
  pose proof (at_observe n s now HA) as H1. unfold At1 in H1. destruct (observe s now) as [s1 ok]; cbn [fst] in *.
  destruct (negb ok || _); [at_weak; destruct (failed s1); [done|by apply at_fail]|].
  assert (forall i, AtO (S n) (if negb (Bool.eqb (tag_remote r) (cr_remote (s_route s1))) || negb (routing_revision r =? cr_revision (s_route s1))
      then Some (fail s1 SRouteMismatch)
      else let '(s, permitted) := motion_permitted s1 r in
           if negb permitted then Some s else if cr_remote (s_route s) then apply_remote s i now else apply_local s i now)) as Hi.
  { intros i. destruct (_ || _); [at_weak; by apply at_fail|]. pose proof (at_motion_permitted n s1 r H1) as H2. unfold At1 in H2.
    destruct (motion_permitted s1 r) as [s2 []]; cbn [negb fst] in *; [|by at_weak].
    destruct (cr_remote _); [by apply at_apply_remote|by apply at_apply_local]. }
  destruct (event r); try exact (Hi _). clear Hi. destruct (_ || _); [at_weak; by apply at_fail|by apply at_route_changed].
Qed.

(** *** Pointer polls, routes and frames *)

Lemma at_poll_pointer n s p now : At n s -> AtO (S n) (poll_pointer s p now).
Proof.
  intros HA. unfold poll_pointer. pose proof (at_crossing_allowed n s HA) as H1. unfold At1 in H1.
  destruct (local_crossing_allowed s) as [s1 al]; cbn [fst] in *. destruct (_ && _).
  - eapply (at_o_then n).
    + destruct (local_target_at s1 p) as [[t|]|], (s_state s1); try (by apply at_o);
        try (apply at_o_bind; intros q _; by apply at_o). apply at_o. destruct (bool_decide _); [at_set|by apply at_adopt].
    + intros s2 H2. by at_weak.
  - destruct al; [by apply at_local_motion|by at_weak].
Qed.
Lemma at_pointer_polled n s p now : At n s -> AtO (S n) (pointer_polled s p now).
Proof.
  intros HA. unfold pointer_polled. destruct (_ || _); [by at_weak|]. pose proof (at_observe n s now HA) as H1. unfold At1 in H1.
  destruct (observe s now) as [s1 []]; cbn [negb fst] in *; [|by at_weak]. destruct (_ && _); [by apply at_poll_pointer|by at_weak].
Qed.
Lemma at_bind_ticket n s r t : At n s -> At n (bind_ticket s r t).
Proof. intros HA. unfold bind_ticket. destruct (s_state s); try by apply at_fail. all: case_match; [at_set|by apply at_fail]. Qed.
Lemma at_open_epoch n s e : At n s -> At1 n (open_epoch s e).
Proof. intros HA. unfold At1, open_epoch, activate_input_epoch. repeat case_match; at_set. Qed.
Lemma at_accept_sequence n s q : At n s -> At1 n (accept_input_sequence s q).
Proof. intros HA. unfold At1, accept_input_sequence. repeat case_match; at_set. Qed.
Lemma at_on_barrier_ack n s f now : At n s -> At n (on_barrier_ack s f now).
Proof.
  intros HA. unfold on_barrier_ack. assert (At1 n (if bool_decide (i_epoch (s_in s) = Some (o_epoch (s_out s))) then (s, true)
    else activate_input_epoch s (epoch f))) as H1 by (unfold At1, activate_input_epoch; repeat case_match; at_set).
  unfold At1 in H1. destruct (if bool_decide _ then _ else _) as [s1 ok]; cbn [fst] in *. destruct (_ || _); [by apply at_fail|].
  pose proof (at_accept_sequence n s1 (sequence f) H1) as H2. unfold At1 in H2. destruct (accept_input_sequence _ _) as [s2 []]; cbn [negb fst] in *; [|by apply at_fail].
  apply at_try_resume. exact H2.
Qed.
Lemma at_on_take_back n s f : At n s -> At n (on_take_back s f).
Proof.
  intros HA. unfold on_take_back. assert (At1 n (accept_take_back s f)) as H1.
  { unfold At1, accept_take_back, activate_input_epoch, accept_input_sequence. repeat case_match; simplify_eq; at_set. }
  unfold At1 in H1. destruct (accept_take_back s f) as [s1 ok]; cbn [fst] in *. destruct (_ && _); [by apply at_fail|]. destruct (_ && _); at_set.
Qed.
Lemma at_on_declined n s a now : At n s -> At (S n) (on_declined s a now).
Proof.
  intros HA. assert (forall s', At n s' -> At (S n) s') as Hm by (intros s' H'; eapply at_more; [exact H'|lia]).
  unfold on_declined. pose proof (at_recover n s (a_return_target a) HA) as H1. unfold At1 in H1.
  destruct (recover_ownership_at _ _) as [s1 []]; cbn [negb fst] in *; [|by apply Hm, at_fail]. cbv zeta.
  set (s2 := set_declined _ _). assert (At n s2) as H2 by exact H1. clearbody s2. destruct (a_already_remote a).
  - pose proof (at_return_claim n s2 H2) as H3. unfold At1 in H3. destruct (return_claim s2) as [s3 []]; cbn [negb fst] in *; [|by apply at_fail].
    exact (at_push_input _ s3 MsgReleaseAll H3).
  - exact (at_release_floor n (set_anchored_return (set_local s2 (a_return_target a) (Some (a_return_position a))) true) H2).
Qed.
Lemma at_land n s a : At n s -> AtO n (land_reanchored s a).
Proof.
  intros HA. unfold land_reanchored. cbv zeta. destruct (display_at _ _); [|by apply at_o, at_fail]. do 2 (apply at_o_bind; intros ? _).
  apply (at_o_then n).
  { destruct (point_eqb _ _); [by apply at_o|]. apply at_o_bind. intros q _. by apply at_o, at_push_input. }
  intros s1 H1. set (s2 := if a_handover a then _ else _).
  assert (At n s2) as H2 by (subst s2; destruct (a_handover a); [by apply at_transfer|by apply at_synchronize]). clearbody s2.
  apply (at_o_then n).
  { destruct (_ || _); [by apply at_o|]. apply at_o_bind. intros q _. by apply at_o, at_push_input. }
  intros s3 H3. apply at_o. destruct (failed s3); at_set.
Qed.
Lemma at_on_activated n s a : At n s -> AtO (S n) (on_activated s a).
Proof.
  intros HA. unfold on_activated. cbv zeta. set (s1 := landed s). assert (At n s1) as H1 by exact HA. clearbody s1.
  assert (At1 (S n) (if a_already_remote a then (s1, true)
    else match f_claim (s_floor s1) with Some owned => move_claim s1 owned Sending | None => (s1, false) end)) as H2.
  { destruct (a_already_remote a); [eapply at_more; [exact H1|lia]|]. destruct (f_claim _) as [c|] eqn:Ec; [|eapply at_more; [exact H1|lia]].
    apply at_move_claim; auto. }
  unfold At1 in H2. destruct (if a_already_remote a then _ else _) as [s2 []]; cbn [negb fst] in *; [|by apply at_o, at_fail].
  pose proof (at_acknowledge _ s2 (a_target a) (a_ownership_epoch a) H2) as H3. unfold At1 in H3.
  destruct (acknowledge _ _ _) as [s3 []]; cbn [negb fst] in *; [|by apply at_o, at_fail].
  destruct (a_already_remote a); [apply at_land; exact H3|]. apply at_o. unfold request_native.
  pose proof (at_request_route _ (set_remote_target s3 (Some (a_target a))) ActivateRemote H3) as H4. unfold At1 in H4.
  destruct (request_route _ _) as [s4 [q|]]; exact H4.
Qed.
Lemma at_on_release_ack n s f r : At n s -> AtO (S n) (on_release_ack s f r).
Proof.
  intros HA. unfold on_release_ack. destruct (_ || _); [at_weak; by apply at_fail|].
  pose proof (at_accept_sequence n s (sequence f) HA) as H1. unfold At1 in H1. destruct (accept_input_sequence _ _) as [s1 []]; cbn [negb fst] in *; [|at_weak; by apply at_fail].
  unfold complete_remote_release. assert (At1 n (match rl_ownership_epoch r with Some ep => acknowledge s1 (rl_local r) ep | None => (s1, true) end)) as H2
    by (destruct (rl_ownership_epoch r); [by apply at_acknowledge|done]).
  unfold At1 in H2. destruct (match rl_ownership_epoch r with Some _ => _ | None => _ end) as [s2 []]; cbn [negb fst] in *; [|at_weak; by apply at_fail].
  cbv zeta. set (s3 := clear_remote_delivery _). assert (At n s3) as H3 by exact H2. clearbody s3. destruct (rl_handover r) as [h|].
  - apply at_o. unfold hand_on. destruct (f_claim (s_floor s3)) as [c|] eqn:Ec; [|eapply at_more; [by apply at_fail|lia]].
    eapply at_prim; [exact H3|done|]. unfold held_of. sg. rewrite Ec. by apply prim_drop.
  - unfold restore_local. apply at_o_bind. intros p _. at_weak. destruct (cr_remote _); [|at_set].
    pose proof (at_request_route n s3 (fun request => RestoreLocalAt request (Ownership.display (rl_local r)) p) H3) as H4. unfold At1 in H4.
    destruct (request_route _ _) as [s4 [q|]]; exact H4.
Qed.
Lemma at_remote_frame n s f now : At n s -> AtO (S n) (remote_frame s f now).
Proof.
  intros HA. unfold remote_frame. destruct (failed s); [by at_weak|]. pose proof (at_observe n s now HA) as H1. unfold At1 in H1.
  destruct (observe s now) as [s1 []]; cbn [negb fst] in *; [|by at_weak]. destruct (allow_at _ _) as [l q].
  set (s2 := set_limiter s1 l). assert (At n s2) as H2 by exact H1. clearbody s2. destruct (negb _); [at_weak; by apply at_fail|].
  assert (AtO (S n) (on_state_frame s2 f now)) as Hst.
  { unfold on_state_frame. destruct (is_held s2); [by at_weak|]. destruct (s_state s2); try (at_weak; by apply at_fail).
    - unfold on_activation_reply. cbv zeta. destruct (_ || _); [at_weak; by apply at_fail|].
      pose proof (at_open_epoch n s2 (epoch f) H2) as H3. unfold At1 in H3. destruct (open_epoch _ _) as [s3 []]; cbn [negb fst] in *; [|at_weak; by apply at_fail].
      pose proof (at_accept_sequence n s3 (sequence f) H3) as H4. unfold At1 in H4. destruct (accept_input_sequence _ _) as [s4 []]; cbn [negb fst] in *; [|at_weak; by apply at_fail].
      match goal with |- AtO _ (if ?b then _ else _) => destruct b end; [by apply at_o, at_on_declined|by apply at_on_activated].
    - by apply at_on_release_ack. }
  assert (At n (on_barrier_ack s2 f now)) as Hb by (by apply at_on_barrier_ack).
  unfold dispatch_frame. destruct (message f); try (match goal with |- AtO _ (if ?b then _ else _) => destruct b end; [by at_weak|exact Hst]).
  - at_weak. by apply at_on_take_back.
  - at_weak. unfold on_ping. destruct (accept_heartbeat _ _) as [g o]. destruct (is_ok o); [exact (at_push_control n (set_heartbeats s2 g) _ H2)|exact H2].
  - at_weak. unfold on_pong_frame. destruct (accept_heartbeat _ _) as [g o]. destruct (is_ok o); [exact (at_on_pong n (set_heartbeats s2 g) _ _ H2)|exact H2].
Qed.
End Moves.

(** ** Calls *)

(** Calls other than a handover, and steps of the surroundings but the floor's. *)
Definition plain_op (op : SourceOp) : bool :=
  match op with CallHandover _ _ | EnvFloor _ => false | _ => true end.

Definition CallMoves `{Libm} (s s' : SourceController) (out : SourceOutcome) : Prop :=
  c_slot (s_config s') = c_slot (s_config s) /\ s_handover s' = None
  /\ exists n, (n <= 3)%nat /\ moves (c_slot (s_config s)) n (held_of s) (f_floor (s_floor s'), f_claim (s_floor s'), out_handover out).

Lemma outcome_moves `{Libm} s0 s : At (c_slot (s_config s0)) (held_of s0) 1 s -> CallMoves s0 (outcome s).1 (outcome s).2.
Proof. intros HA. apply at_settle in HA as (Hs & n & Hn & Hm). split; [exact Hs|]. split; [done|]. exists n. split; [lia|exact Hm]. Qed.
Lemma finish_moves `{Libm} s0 m s' out : AtO (c_slot (s_config s0)) (held_of s0) 1 m -> finish m = Some (s', out) -> CallMoves s0 s' out.
Proof.
  intros HA E. destruct m as [s|]; [|done]. unfold finish in E. cbn [mbind option_bind] in E. apply (inj Some) in E.
  pose proof (outcome_moves s0 s (HA s eq_refl)) as H1. by rewrite E in H1.
Qed.

Lemma step_moves `{Libm} s op s' out :
  plain_op op = true -> s_handover s = None -> source_step s op = Some (s', out) -> CallMoves s s' out.
Proof.
  intros Hp Hh. assert (At (c_slot (s_config s)) (held_of s) 0 s) as H0.
  { split; [done|]. exists 0%nat. split; [lia|constructor]. }
  assert (forall s1, At (c_slot (s_config s)) (held_of s) 0 s1 -> At (c_slot (s_config s)) (held_of s) 1 s1) as Hm
    by (intros s1 H1; eapply at_more; [exact H1|lia]).
  assert (forall s1, At (c_slot (s_config s)) (held_of s) 0 s1 -> s_handover s1 = None -> silent s1 = Some (s', out) -> CallMoves s s' out) as Hs.
  { intros s1 (H1 & n & Hn & Hv) Hh1 E. injection E as <- <-. split; [exact H1|]. split; [done|]. exists n. split; [lia|].
    cbn [out_handover]. unfold held_of in Hv at 2. by rewrite Hh1 in Hv. }
  assert (forall s1, At (c_slot (s_config s)) (held_of s) 1 s1 -> Some (outcome s1) = Some (s', out) -> CallMoves s s' out) as Ho.
  { intros s1 H1 E. apply (inj Some) in E. pose proof (outcome_moves s s1 H1) as H2. by rewrite E in H2. }
  assert (At (c_slot (s_config s)) (held_of s) 0 (fresh s)) as Hf by exact H0.
  destruct op; try discriminate Hp; cbn [source_step]; intros E.
  - eapply finish_moves; [|exact E]. by apply at_captured.
  - eapply finish_moves; [|exact E]. by apply at_pointer_polled.
  - eapply Ho; [|exact E]. apply Hm. destruct (ignores _ _); [exact Hf|].
    pose proof (at_observe_time _ _ _ _ now Hf) as H1. unfold At1 in H1. destruct (observe_time _ _) as [s1 []]; cbn [negb fst] in *; [|exact H1].
    destruct (_ || _); [by apply at_fail|by apply at_bind_ticket].
  - eapply Ho; [|exact E]. apply Hm. destruct (ignores _ _); [exact Hf|].
    pose proof (at_observe_time _ _ _ _ now Hf) as H1. unfold At1 in H1. destruct (observe_time _ _) as [s1 []]; cbn [negb fst] in *; [by apply at_fail|exact H1].
  - eapply Ho; [|exact E]. destruct (failed _); [by apply Hm|].
    pose proof (at_observe_time _ _ _ _ now Hf) as H1. unfold At1 in H1. destruct (observe_time _ _) as [s1 []]; cbn [negb fst] in *; [|by apply Hm].
    destruct (s_state s1); try (by apply Hm, at_fail). destruct (_ && _); [|by apply Hm, at_fail]. apply at_begin_return. exact H1.
  - eapply Ho; [|exact E]. apply Hm. destruct (failed _); [exact Hf|].
    pose proof (at_observe_time _ _ _ _ now Hf) as H1. unfold At1 in H1. destruct (observe_time _ _) as [s1 []]; cbn [negb fst] in *; [|exact H1].
    destruct (_ || _); [by apply at_fail|exact H1].
  - eapply Ho; [|exact E]. apply Hm. destruct (failed _); [exact Hf|]. apply at_fail. exact Hf.
  - eapply Ho; [|exact E]. destruct (failed _); [by apply Hm|].
    pose proof (at_observe _ _ _ _ now Hf) as H1. unfold At1 in H1. destruct (observe _ _) as [s1 []]; cbn [negb fst] in *; [|by apply Hm].
    destruct (s_state s1); try (by apply Hm). by apply at_begin_return.
  - eapply Ho; [|exact E]. apply Hm. by apply at_tick.
  - eapply finish_moves; [|exact E]. by apply at_remote_frame.
  - by eapply Hs; [..|exact E].
  - by eapply Hs; [..|exact E].
  - pose proof (at_budget _ _ 0 s now H0) as H1. eapply Hs; [exact H1| |exact E].
    unfold suppression_budget. repeat case_match; done.
  - by eapply Hs; [..|exact E].
  - by eapply Hs; [..|exact E].
Qed.

(** A handover is taken with the floor, which goes on to this side, or given back. *)
Lemma handover_moves `{Libm} s h now s' out :
  s_handover s = None -> source_step s (CallHandover h now) = Some (s', out) ->
  c_slot (s_config s') = c_slot (s_config s) /\ s_handover s' = None
  /\ exists n w c o, (n <= 2)%nat
     /\ moves (c_slot (s_config s)) n (w, c, o) (f_floor (s_floor s'), f_claim (s_floor s'), out_handover out)
     /\ ((w = f_floor (s_floor s) /\ c = f_claim (s_floor s) /\ o = Some h)
         \/ (ho_claim h = f_floor (s_floor s) /\ state (ho_claim h) = Returning /\ o = None
             /\ w = next (ho_claim h) Sending (c_slot (s_config s)) /\ c = Some w))
     /\ (o = Some h -> out_handover out = Some h).
Proof.
  intros Hh. cbn [source_step]. unfold accept_handover, handed_over. set (s0 := fresh s).
  set (slot := c_slot (s_config s)).
  assert (At slot (f_floor (s_floor s), f_claim (s_floor s), None) 0 s0) as H0.
  { split; [done|]. exists 0%nat. split; [lia|]. change (held_of s0) with (f_floor (s_floor s), f_claim (s_floor s), s_handover s). rewrite Hh. constructor. }
  assert (At1 slot (f_floor (s_floor s), f_claim (s_floor s), None) 0 (if failed s0 then (s0, false) else observe s0 now)) as H1
    by (destruct (failed s0); [exact H0|by apply at_observe]).
  unfold At1 in H1. destruct (if failed s0 then _ else _) as [s1 checked]; cbn [fst] in *.
  destruct H1 as (Hc1 & n & Hn & Hm). assert (n = 0%nat) as -> by lia. assert (held_of s1 = (f_floor (s_floor s), f_claim (s_floor s), None)) as E1 by (exact (moves_zero _ _ _ Hm)).
  unfold held_of in E1. injection E1 as Ew Ec Eh.
  assert (forall s2, c_slot (s_config s2) = slot -> f_floor (s_floor s2) = f_floor (s_floor s) -> f_claim (s_floor s2) = f_claim (s_floor s) ->
    s_handover s2 = Some h -> finish (Some s2) = Some (s', out) ->
    c_slot (s_config s') = slot /\ s_handover s' = None
    /\ exists n w c o, (n <= 2)%nat
     /\ moves slot n (w, c, o) (f_floor (s_floor s'), f_claim (s_floor s'), out_handover out)
     /\ ((w = f_floor (s_floor s) /\ c = f_claim (s_floor s) /\ o = Some h)
         \/ (ho_claim h = f_floor (s_floor s) /\ state (ho_claim h) = Returning /\ o = None
             /\ w = next (ho_claim h) Sending slot /\ c = Some w))
     /\ (o = Some h -> out_handover out = Some h)) as Hback.
  { intros s2 E1 E2 E3 E4 E. cbn in E. injection E as E' <-. assert (At slot (held_of s2) 0 s2) as HA.
    { split; [done|]. exists 0%nat. split; [lia|constructor]. }
    apply at_settle in HA as (Hs & k & Hk & Hv). subst s'. split; [exact Hs|]. split; [done|].
    exists k, (f_floor (s_floor s)), (f_claim (s_floor s)), (Some h). split; [lia|].
    split; [unfold held_of in Hv at 1; rewrite E2, E3, E4 in Hv; exact Hv|]. split; [by left|]. intros _.
    exact (eq_trans (outcome_handover s2) E4). }
  destruct (checked && _); [|by apply Hback].
  unfold floor_hand_over, floor_call, FloorSpec.edge. destruct (_ && _) eqn:Eb; [|by apply Hback].
  apply andb_prop in Eb as [[[Eb%bool_decide_eq_true Er%bool_decide_eq_true]%andb_prop _]%andb_prop _].
  rewrite Ew in Eb, Er. cbv zeta. cbn [fst snd]. unfold start_handover. cbv zeta.
  match goal with |- context [begin_remote_activation ?a _ _ _ _ _ _] => set (s2 := a) end.
  assert (At slot (held_of s2) 0 s2) as HA by (split; [exact Hc1|]; exists 0%nat; split; [lia|constructor]).
  intros E. assert (AtO slot (held_of s2) 0 (begin_remote_activation s2 (ho_to h) (ho_entry h) (ho_to_edge h) (ho_return_target h)
    (ho_return_position h) true)) as H3 by (by apply at_activation).
  destruct (begin_remote_activation s2 _ _ _ _ _ _) as [s3|]; [|done]. cbn [mbind option_bind] in E.
  assert (At slot (held_of s2) 0 (take_over s3 h)) as H4.
  { pose proof (H3 s3 eq_refl) as H3'. unfold take_over. destruct (s_state s3); exact H3'. }
  cbn in E. injection E as E' <-. apply at_settle in H4 as (Hs & k & Hk & Hv). subst s'. split; [exact Hs|]. split; [done|].
  eexists k, _, _, _. split; [lia|]. split; [exact Hv|]. split; [right|].
  - split; [exact Eb|]. split; [by rewrite Eb|]. split; [exact Eh|]. unfold s2. sg. rewrite Ew, Hc1, <-Eb. done.
  - intros Hx. exfalso. change (s_handover s1 = Some h) in Hx. congruence.
Qed.

(** ** What moves keep *)

Definition word (x : Held) : FloorSnapshot := fst (fst x).
Definition claimed (x : Held) : option FloorSnapshot := snd (fst x).
Definition handing (x : Held) : option FloorSnapshot := ho_claim <$> snd x.

(** A floor that goes out under this slot is this side's claim, or in its handover. *)
Definition Owned (slot : Z) (x : Held) : Prop :=
  outbound (word x) = true -> peer (word x) = slot
  /\ (claimed x = Some (word x) \/ (claimed x = None /\ handing x = Some (word x))).
(** A claim is for this slot, and is the word or older. *)
Definition Claims (slot : Z) (x : Held) : Prop :=
  forall c, claimed x = Some c -> peer c = slot /\ (c = word x \/ generation c < generation (word x)).

Lemma outbound_next w st p : outbound (next w st p) = bool_decide (floor_owner st = Some Floor.Outbound).
Proof. done. Qed.
Lemma moves_owned slot n x y : moves slot n x y -> Owned slot x -> Owned slot y.
Proof.
  induction 1 as [x|n x y z _ IH Hp]; [done|]. intros Hx. specialize (IH Hx). unfold Owned, word, claimed, handing in *.
  destruct Hp as [w c h Hw|w to h Hw Hto|w c h Hc|w c h Hc|w c h ho Hc]; cbn in *; intros Ho; auto.
  - destruct (IH Hw) as [Hpe _]. auto.
  - exfalso. unfold freed in Ho. by rewrite outbound_next in Ho.
  - destruct (IH Ho) as [Hpe [H|[]]]; [|done]. destruct Hc as [Hc|Hc]; [congruence|]. rewrite Hc in Ho. done.
  - destruct (IH Ho) as [Hpe [H|[]]]; [|done]. split; [done|]. right. split; [done|]. rewrite Hc. congruence.
Qed.
Lemma moves_claims slot n x y : moves slot n x y -> Claims slot x -> Claims slot y.
Proof.
  induction 1 as [x|n x y z _ IH Hp]; [done|]. intros Hx. specialize (IH Hx). unfold Claims, word, claimed in *.
  destruct Hp as [w c h Hw|w to h Hw Hto|w c h Hc|w c h Hc|w c h ho Hc]; cbn in *; intros c0 E; simplify_eq; auto.
  split; [|by left]. by destruct (IH w eq_refl) as [? _].
Qed.
(** A word that is not free and not this side's claim stays. *)
Lemma moves_foreign slot n x y : moves slot n x y -> Claims slot x ->
  state (word x) <> Free -> claimed x <> Some (word x) ->
  word y = word x /\ claimed y <> Some (word y).
Proof.
  intros Hm HC Hw Hc. assert (word y = word x /\ (claimed y = claimed x \/ claimed y = None)) as [-> [->| ->]]; [|done..].
  induction Hm as [x|n x y z _ IH Hp]; [auto|]. destruct (IH HC Hw Hc) as [Ew Ec]. clear IH.
  unfold Claims, word, claimed in *.
  destruct Hp as [w c h Hfree|w to h Ho Hto|w c h Hr|w c h Hr|w c h ho Hr]; cbn in *; subst; try done; auto.
  - destruct Ec as [Ec|Ec]; [|done]. congruence.
  - destruct Ec as [Ec|Ec]; [|done]. symmetry in Ec. destruct (HC c Ec) as [_ [->|?]]; [congruence|].
    destruct Hr as [->|[_ Hr]]; [congruence|lia].
Qed.

(** A generation goes up by one at every change, until it starts again. *)
Definition is_generation (w : FloorSnapshot) : Prop := 1 <= generation w <= MAX_GENERATION.
Lemma max_generation_big : 1000 <= MAX_GENERATION.
Proof. by vm_compute. Qed.
Lemma next_generation w st p : is_generation w ->
  is_generation (next w st p) /\ generation (next w st p) = 1 + (generation w) mod MAX_GENERATION.
Proof.
  pose proof max_generation_big. unfold is_generation, next. cbn [generation]. intros Hw. destruct (MAX_GENERATION <=? generation w) eqn:E; bool_inv.
  - assert (generation w = MAX_GENERATION) as -> by lia. rewrite Z.mod_same by lia. lia.
  - rewrite Z.mod_small by lia. lia.
Qed.
Definition ages (n : nat) (w w' : FloorSnapshot) : Prop :=
  is_generation w' /\ exists j, (j <= n)%nat /\ (j = 0%nat -> w' = w) /\ generation w' = 1 + (generation w - 1 + Z.of_nat j) mod MAX_GENERATION.
Lemma ages_refl w : is_generation w -> ages 0 w w.
Proof.
  intros Hw. split; [done|]. exists 0%nat. split_and!; [lia|done|]. unfold is_generation in Hw. rewrite Z.mod_small; lia.
Qed.
Lemma ages_next n w w' st p : ages n w w' -> ages (S n) w (next w' st p).
Proof.
  intros (Hg & j & Hj & _ & E). destruct (next_generation w' st p Hg) as [Hg' E']. split; [done|]. exists (S j).
  split_and!; [lia|done|]. rewrite E', E. pose proof max_generation_big. rewrite Nat2Z.inj_succ.
  replace (1 + (generation w - 1 + Z.of_nat j) mod MAX_GENERATION) with ((generation w - 1 + Z.of_nat j) mod MAX_GENERATION + 1) by lia.
  rewrite Z.add_mod_idemp_l by lia. f_equal. f_equal. lia.
Qed.
Lemma ages_more n m w w' : ages n w w' -> (n <= m)%nat -> ages m w w'.
Proof. intros (Hg & j & Hj & E) Hm. split; [done|]. exists j. split; [lia|done]. Qed.
Lemma moves_ages_from slot n k w0 x y : moves slot n x y -> ages k w0 (word x) -> ages (k + n) w0 (word y).
Proof.
  intros Hm Hg. induction Hm as [x|n x y z _ IH Hp]; [by rewrite Nat.add_0_r|]. specialize (IH Hg). rewrite Nat.add_succ_r.
  destruct Hp as [w c h Hfree|w to h Ho Hto|w c h Hr|w c h Hr|w c h ho Hr]; cbn [word fst snd] in *;
    try (by apply ages_next); (eapply ages_more; [exact IH|lia]).
Qed.
Lemma moves_ages slot n x y : moves slot n x y -> is_generation (word x) -> ages n (word x) (word y).
Proof. intros Hm Hg. exact (moves_ages_from slot n 0 (word x) x y Hm (ages_refl _ Hg)). Qed.
(** Within fewer changes than there are generations, the number tells whether it
    started again, and else it is newer than before. *)
Lemma ages_young n w w' : is_generation w -> ages n w w' -> (n < 1000)%nat -> generation w <= generation w' ->
  w' = w \/ generation w < generation w'.
Proof.
  intros Hw (Hw' & j & Hj & H0 & E) Hn Hle. destruct j as [|j]; [auto|]. right. unfold is_generation in *.
  pose proof max_generation_big. destruct (decide (generation w - 1 + Z.of_nat (S j) < MAX_GENERATION)).
  - rewrite Z.mod_small in E by lia. lia.
  - rewrite <-(Z.mod_unique_pos _ _ 1 (generation w - 1 + Z.of_nat (S j) - MAX_GENERATION)) in E by lia. lia.
Qed.

(** ** Controllers without a claim, and those that are given up *)

Section Unclaimed.
Context `{Libm} (slot : Z).

Lemma at_book x n s r : At slot x n s -> AtO slot x n (book s r).
Proof.
  intros HA. unfold book. destruct (event r) as [u pr rp m|b pr a|p|dl gain|h v|g|g|rm v]; cbn [apply_local]; try by apply at_o.
  pose proof (at_update_key slot x n s u pr rp m HA) as H1. unfold At1 in H1.
  destruct (update_key _ _ _ _ _) as [s1 [c|]]; apply at_o; [exact H1|by apply at_fail].
Qed.
Lemma at_zero x s : At slot x 0 s -> held_of s = x.
Proof. intros (_ & m & Hm & H1). assert (m = 0%nat) as -> by lia. by apply moves_zero in H1. Qed.
(** [settle_outcome] moves only a floor it claims. *)
Lemma settle_unclaimed x s : At slot x 0 s -> claimed x = None -> At slot x 0 (settle_outcome s).
Proof.
  intros HA Hx. unfold settle_outcome. destruct (failed s); [done|]. cbv zeta.
  set (s1 := if s_take_back s then _ else s).
  assert (At slot x 0 s1) as H1.
  { subst s1. destruct (s_take_back s); [|done]. destruct (s_state s); try done.
    all: unfold begin_return_to, return_claim; change (f_claim (s_floor (set_take_back s false))) with (claimed (held_of s)).
    all: rewrite (at_zero x s HA), Hx; cbn [negb].
    all: match goal with |- context [begin_ownership_transition ?a ?b] =>
           assert (At slot x 0 a) as HA' by exact HA;
           pose proof (at_begin_ownership slot x 0 a b HA') as H2; unfold At1 in H2; destruct (begin_ownership_transition a b) as [s2 [ep|]] end.
    all: cbn [fst] in H2. 2: exact H2. all: pose proof (at_push_input slot x 0 s2 MsgReleaseAll H2) as H3; destruct (failed _); exact H3. }
  clearbody s1. destruct (_ && _); [|done]. unfold release_floor.
  change (f_claim (s_floor (set_anchored_return s1 false))) with (claimed (held_of s1)). rewrite (at_zero x s1 H1), Hx. exact H1.
Qed.
Lemma bookkeeping_unclaimed s r s' out : c_slot (s_config s) = slot -> s_handover s = None -> f_claim (s_floor s) = None ->
  bookkeeping s r = Some (s', out) ->
  c_slot (s_config s') = slot /\ s_handover s' = None /\ f_claim (s_floor s') = None.
Proof.
  intros Hs Hh Hc E. unfold bookkeeping, finish in E. destruct (book (fresh s) r) as [s1|] eqn:Eb; [|done].
  cbn [mbind option_bind] in E. apply (inj Some) in E.
  assert (At slot (held_of s) 0 (fresh s)) as H0 by (split; [exact Hs|]; exists 0%nat; split; [lia|constructor]).
  pose proof (settle_unclaimed _ s1 (at_book _ 0 _ r H0 s1 Eb) Hc) as H1. pose proof (at_zero _ _ H1) as H2.
  unfold outcome in E. injection E as <- <-. split; [exact (proj1 H1)|]. split; [done|].
  change (claimed (held_of (settle_outcome s1)) = None). by rewrite H2.
Qed.
(** A failed controller leaves the floor where it is. *)
Lemma abandon_floor s now : f_floor (s_floor (abandon s now).1) = f_floor (s_floor s).
Proof.
  unfold abandon. set (s1 := if failed _ then _ else _).
  assert (failed s1 = true /\ f_floor (s_floor s1) = f_floor (s_floor s)) as [Hf E].
  { subst s1. destruct (failed (fresh s)) eqn:Ef; [done|].
    set (s2 := set_last_now _ _).
    assert (At (c_slot (s_config s2)) (held_of s2) 0 s2) as H0 by (split; [done|]; exists 0%nat; split; [lia|constructor]).
    pose proof (at_fail _ _ 0 s2 SLinkEnded H0) as (_ & m & Hm & H1). assert (m = 0%nat) as -> by lia. apply moves_zero in H1.
    split; [apply bool_decide_eq_true_2, fail_failed|]. exact (f_equal word H1). }
  unfold outcome, settle_outcome. rewrite Hf. exact E.
Qed.
End Unclaimed.
