(* ===== verification/CaptureRoute.v ===== *)
(** * Route commands of native capture (monhop-transport/src/session_source_runtime.rs)

    How the effects of a source controller are carried out: frames go to its peer
    and route changes to the one native capture, an implementation of the class
    [CaptureControlI] that may be busy, not ready or failed.  A route change that
    finds it busy waits in [rt_pending].  [elapsed] gives the clock reading by
    reading: [origin.elapsed()] is read several times within one call. *)

From stdpp Require Import gmap.
From S2P Require Import CaptureEvent CaptureQueue CapturePhysical.
From S2P Require Import Prelude F64 Types Geometry Topology Floor Messages Sequence Ownership Clicks.
From S2P Require Import SessionPacer SessionHealth SessionQuality SourceEdges SourceState HeldInput.
From S2P Require Import Source SourceKept SourceStream SourceSafety SourceRemote SourceCalls SourceSystem.
From S2P Require Import SessionStartup CaptureLease.

(** The variants of [SessionFailure] that the modelled code makes. *)
Inductive SessionFailure :=
| FailWire | FailQueueFull | FailUnexpectedStream | FailDestination | FailSource
| FailSourceController (f : SourceFailure) | FailNative | FailStartup (e : StartupError) | FailInvalidLayout.

(** ** Fallible programs over a state; [None] is a panic *)

Definition Prog (S A : Type) : Type := S -> option (S * result SessionFailure A).
Definition p_ret {S A} (a : A) : Prog S A := fun s => Some (s, Ok a).
Definition p_err {S A} (e : SessionFailure) : Prog S A := fun s => Some (s, Err e).
Definition p_bind {S A B} (m : Prog S A) (f : A -> Prog S B) : Prog S B :=
  fun s => '(s, r) ← m s; match r with Ok a => f a s | Err e => Some (s, Err e) end.
Definition p_get {S} : Prog S S := fun s => Some (s, Ok s).
Definition p_mod {S} (f : S -> S) : Prog S () := fun s => Some (f s, Ok ()).
Definition p_lift {S A} (r : result SessionFailure A) : Prog S A := fun s => Some (s, r).
Definition p_when {S} (b : bool) (m : Prog S ()) : Prog S () := if b then m else p_ret ().
Fixpoint p_each {S A} (f : A -> Prog S ()) (l : list A) : Prog S () :=
  match l with [] => p_ret () | a :: l => p_bind (f a) (fun _ => p_each f l) end.

Declare Scope prog_scope.
Delimit Scope prog_scope with prog.
Notation "'let!' x := m 'in' f" := (p_bind m (fun x => f))
  (at level 200, x pattern, f at level 200, format "'let!'  x  :=  m  'in' '//' f") : prog_scope.
Notation "m ;! f" := (p_bind m (fun _ => f)) (at level 200, f at level 200, format "m  ;! '//' f") : prog_scope.
Open Scope prog_scope.

(** ** Native capture *)

Inductive CaptureRefusal := Busy | NotReady | CaptureFailed.
Class CaptureControlI (C : Type) := {
  activate_remote : C -> Z -> Z -> C * result CaptureRefusal Z;
  restore_local_at : C -> Z -> Point -> C * result CaptureRefusal Z;
  renew_suppression : C -> Z -> Z -> C * result CaptureRefusal Z;
  completed_control_revision : C -> option Z;
  is_ready_for_suppression : C -> bool;
  capture_blocking : C -> list HeldPress;
  request_stop : C -> C }.

Definition blocking_presses `{CaptureControlI C} (c : C) : list HeldPress :=
  if is_ready_for_suppression c then [] else capture_blocking c.

(** [Issuing]: the capture as the effects of one controller reach it, with the
    ticket they were given and whether it restores. *)
Record Issuing (C : Type) := mkIssuing { is_capture : C; is_issued : option (Z * bool) }.
Arguments mkIssuing {C}. Arguments is_capture {C}. Arguments is_issued {C}.
Definition note_issued {C} (issued : option (Z * bool)) (local : bool) (r : C * result CaptureRefusal Z)
  : Issuing C * result CaptureRefusal Z :=
  (mkIssuing (fst r) (match snd r with Ok ticket => Some (ticket, local) | Err _ => issued end), snd r).
#[global] Instance Issuing_control `{CaptureControlI C} : CaptureControlI (Issuing C) := {
  activate_remote i g ttl := note_issued (is_issued i) false (activate_remote (is_capture i) g ttl);
  restore_local_at i g p := note_issued (is_issued i) true (restore_local_at (is_capture i) g p);
  renew_suppression i g ttl :=
    let '(c, r) := renew_suppression (is_capture i) g ttl in (mkIssuing c (is_issued i), r);
  completed_control_revision i := completed_control_revision (is_capture i);
  is_ready_for_suppression i := is_ready_for_suppression (is_capture i);
  capture_blocking i := capture_blocking (is_capture i);
  request_stop i := mkIssuing (request_stop (is_capture i)) (is_issued i) }.

(** ** What the functions of this file share *)

(** The controller, its capture, the frames sent, the waiting and the submitted
    route command, the readings of the clock so far.  [rt_view] is what the peer
    knows of the controller, and [rt_wrapped] whether the generation of its floor
    started again. *)
Record Route (C : Type) := mkRt {
  rt_source : SourceController; rt_view : PeerView; rt_capture : C; rt_sent : list Frame;
  rt_pending : option (SourceEffect * Z); rt_submitted : option (Z * Z); rt_reads : nat; rt_wrapped : bool }.
Arguments mkRt {C}. Arguments rt_source {C}. Arguments rt_view {C}. Arguments rt_capture {C}. Arguments rt_sent {C}.
Arguments rt_pending {C}. Arguments rt_submitted {C}. Arguments rt_reads {C}. Arguments rt_wrapped {C}.

Section Route.
Context `{Libm} `{CaptureControlI C} (elapsed : nat -> Z) (generation : Z).

Definition with_source (r : Route C) (s : SourceController) (v : PeerView) (before : SourceController) : Route C :=
  mkRt s v (rt_capture r) (rt_sent r) (rt_pending r) (rt_submitted r) (rt_reads r)
    (rt_wrapped r || (Floor.generation (f_floor (s_floor s)) <? Floor.generation (f_floor (s_floor before)))).
Definition with_capture (r : Route C) (c : C) : Route C :=
  mkRt (rt_source r) (rt_view r) c (rt_sent r) (rt_pending r) (rt_submitted r) (rt_reads r) (rt_wrapped r).
Definition with_sent (r : Route C) (f : Frame) : Route C :=
  mkRt (rt_source r) (rt_view r) (rt_capture r) (rt_sent r ++ [f]) (rt_pending r) (rt_submitted r) (rt_reads r) (rt_wrapped r).
Definition with_pending (r : Route C) (p : option (SourceEffect * Z)) : Route C :=
  mkRt (rt_source r) (rt_view r) (rt_capture r) (rt_sent r) p (rt_submitted r) (rt_reads r) (rt_wrapped r).
Definition with_submitted (r : Route C) (p : option (Z * Z)) : Route C :=
  mkRt (rt_source r) (rt_view r) (rt_capture r) (rt_sent r) (rt_pending r) p (rt_reads r) (rt_wrapped r).

Definition clock : Prog (Route C) Z := fun r =>
  Some (mkRt (rt_source r) (rt_view r) (rt_capture r) (rt_sent r) (rt_pending r) (rt_submitted r) (S (rt_reads r)) (rt_wrapped r),
        Ok (elapsed (rt_reads r))).
Definition send_outbound (f : Frame) : Prog (Route C) () := p_mod (fun r => with_sent r f).
(** A call of the controller. *)
Definition call (op : SourceOp) : Prog (Route C) SourceOutcome := fun r =>
  '(s, out) ← source_step (rt_source r) op;
  let r := with_source r s (default (rt_view r) (view_step (rt_view r) (rt_source r) op out)) (rt_source r) in
  Some (r, Ok out).
Definition ask (f : C -> C * result CaptureRefusal Z) : Prog (Route C) (result CaptureRefusal Z) := fun r =>
  let '(c, a) := f (rt_capture r) in Some (with_capture r c, Ok a).

Definition SESSION_POLL_INTERVAL : Z := ms 1.
Definition lease_budget (now : Z) : Prog (Route C) Z := fun r =>
  let '(s, ttl) := suppression_budget (rt_source r) now in
  Some (with_source r s (rt_view r) (rt_source r),
        match ttl with
        | Err f => Err (FailSourceController f)
        | Ok ttl =>
            match checked_sub ttl SESSION_POLL_INTERVAL with
            | Some rest => if rest =? 0 then Err FailSource else Ok rest
            | None => Err FailSource
            end
        end).

(** The frames of an unwound activation; anything else is a broken controller. *)
Definition send_frame (e : SourceEffect) : Prog (Route C) () :=
  match e with RemoteFrame f => send_outbound f | _ => p_err FailSource end.

Definition bind_route (request ticket : Z) : Prog (Route C) bool :=
  let! now := clock in
  p_mod (fun r => with_submitted r (Some (ticket, now)));!
  let! now := clock in
  let! bound := call (CallBind request ticket now) in
  match out_failure bound with
  | Some f => p_err (FailSourceController f)
  | None =>
      if negb (bool_decide (out_effects bound = [])) || bool_decide (is_Some (out_handover bound))
      then p_err FailSource else p_ret true
  end.
Definition unwind_route (request : Z) : Prog (Route C) bool :=
  let! now := clock in
  let! unwound := call (CallRefuse request now) in
  match out_failure unwound with
  | Some f => p_err (FailSourceController f)
  | None =>
      if bool_decide (is_Some (out_handover unwound)) then p_err FailSource
      else p_each send_frame (out_effects unwound);! p_ret true
  end.
Definition settle_route (activates : bool) (request : Z) (answer : result CaptureRefusal Z) : Prog (Route C) bool :=
  match answer with
  | Ok ticket => bind_route request ticket
  | Err Busy => p_ret false
  | Err e =>
      if activates && match e with NotReady => true | _ => false end then unwind_route request
      else let! now := clock in call (CallRouteFailed request now);! p_err FailNative
  end.
Definition apply_route (e : SourceEffect) : Prog (Route C) bool :=
  match e with
  | ActivateRemote request =>
      let! now := clock in
      let! ttl := lease_budget now in
      let! answer := ask (fun c => activate_remote c generation ttl) in
      settle_route true request answer
  | RestoreLocalAt request _ position =>
      let! answer := ask (fun c => restore_local_at c generation position) in
      settle_route false request answer
  | RemoteFrame _ => p_err FailSource
  end.

Definition apply_effect (e : SourceEffect) : Prog (Route C) () :=
  match e with
  | RemoteFrame f => send_outbound f
  | _ =>
      let! r := p_get in
      if bool_decide (is_Some (rt_pending r)) then p_err FailSource
      else
        let! settled := apply_route e in
        if settled then p_ret ()
        else let! now := clock in p_mod (fun r => with_pending r (Some (e, now)))
  end.
Definition apply_effects (l : list SourceEffect) : Prog (Route C) () := p_each apply_effect l.

(** [apply_outcome]: the pairwise runtime. *)
Definition apply_outcome (o : SourceOutcome) : Prog (Route C) () :=
  match out_failure o with
  | Some f => p_mod (fun r => with_capture r (request_stop (rt_capture r)));! p_err (FailSourceController f)
  | None => if bool_decide (is_Some (out_handover o)) then p_err FailSource else apply_effects (out_effects o)
  end.

Definition retry_pending : Prog (Route C) () :=
  let! r := p_get in
  match rt_pending r with
  | None => p_ret ()
  | Some (e, since) =>
      p_mod (fun r => with_pending r None);!
      let! now := clock in
      if MAX_SUPPRESSION_TTL <=? saturating_sub now since then p_err FailNative
      else
        let! settled := apply_route e in
        if settled then p_ret () else p_mod (fun r => with_pending r (Some (e, since)))
  end.

Definition settle_submitted (c : C) (submitted : option (Z * Z)) (now : Z) : result SessionFailure (option (Z * Z)) :=
  match submitted with
  | None => Ok None
  | Some (ticket, issued) =>
      match completed_control_revision c with
      | Some completed =>
          if ticket <=? completed then Ok None
          else if saturating_sub now issued <? MAX_SUPPRESSION_TTL then Ok submitted
          else Err FailNative
      | None => Err FailNative
      end
  end.

Definition renew_lease : Prog (Route C) bool :=
  let! now := clock in
  let! ttl := lease_budget now in
  let! answer := ask (fun c => renew_suppression c generation ttl) in
  match answer with
  | Ok ticket => let! now := clock in p_mod (fun r => with_submitted r (Some (ticket, now)));! p_ret true
  | Err Busy => p_ret false
  | Err _ => p_err FailNative
  end.
End Route.
