(* ===== verification/Hub.v ===== *)
(** * Several peers at once (monhop-transport/src/session_group.rs)

    [HubCore] routes every link of one computer through one floor, one native
    capture and one destination actor.  The model is the whole core: links that
    start, become ready and end, captured records, frames and events of the
    destination actor, handovers from controller to controller, and the restore
    the hub itself completes for a floor whose controller is gone.  Programs run
    over [World], which adds to the core the capture it is passed, the readings of
    the clock, the process-wide switches, and whether the generation of the floor
    has started again.

    The floor is one word.  Each call of a controller meets the word as it is
    ([synced]) and leaves the word it made. *)

From stdpp Require Import gmap sorting.
From S2P Require Import CaptureEvent CaptureQueue CapturePhysical.
From S2P Require Import Prelude F64 Types Geometry Topology Floor Messages Sequence Ownership Clicks.
From S2P Require Import SessionPacer SessionHealth SessionQuality SourceEdges SourceState HeldInput.
From S2P Require Import Source SourceKept SourceStream SourceSafety SourceRemote SourceCalls SourceSystem.
From S2P Require Import SessionStartup CaptureLease CaptureStream CaptureRoute.

#[global] Instance SourceMode_eq_dec : EqDecision SourceMode.
Proof. solve_decision. Defined.

Definition POINTER_POLL_INTERVAL : Z := ms 16.
Definition DISPLAY_CHECK_INTERVAL : Z := ms 30.
Definition SESSION_QUEUE_CAPACITY : nat := 512.
Definition GROUP : nat := Z.to_nat MAX_GROUP_PEERS.

(** [SessionScopes]. *)
Record SessionScopes := mkScopes { sc_outbound : FrameScope; sc_inbound : FrameScope }.
Definition new_scopes (local peer : DeviceId) : result SessionFailure SessionScopes :=
  if bool_decide (local = peer) then Err FailDestination
  else if device_ltb local peer then Ok (mkScopes LowerControlsHigher HigherControlsLower)
  else Ok (mkScopes HigherControlsLower LowerControlsHigher).

Record HubConfig := mkHubConfig {
  hc_local : DeviceId; hc_group : Topology; hc_members : list DeviceId; hc_generation : Z; hc_double_click : Z }.
Record LinkSetup := mkLinkSetup {
  ls_peer : DeviceId; ls_outbound_enabled : bool; ls_inbound_enabled : bool; ls_epoch : Z; ls_next_sequence : Z;
  ls_local_displays : list DisplayDescription; ls_peer_displays : list DisplayDescription }.
Inductive LinkRefusal := NotMember | Occupied | Stopping_ | Layout.
Record LinkEnd := mkLinkEnd {
  le_peer : DeviceId; le_result : result SessionFailure (); le_started_at : option Z; le_holds : Z * Z }.
Record DestinationJoin := mkJoin { dj_slot : Z; dj_control : ReadyControl; dj_local_lower : bool; dj_enabled : bool }.

Inductive HubAction :=
| SendOutbound (slot : Z) (f : Frame)
| SendInbound (slot : Z) (f : Frame)
| StartNative
| StopNative
| JoinDestination (j : DestinationJoin)
| Submit (slot : Z) (f : Frame)
| LeaveDestination (slot : Z)
| CloseLink (slot : Z) (e : LinkEnd)
| LinkEnded (slot : Z)
| LinkStarted (slot : Z) (peer : DeviceId).

Inductive Native := NativeIdle | NativeStarting | NativeReady | NativeStopping.
#[global] Instance Native_eq_dec : EqDecision Native.
Proof. solve_decision. Defined.

Inductive Phase := Starting (outbound inbound : StartupControl) | Ready.
(** [pl_confines] says that the controller was given [pointer_confined] to ask before
    a crossing; [pl_view] is what the peer knows of the controller. *)
Record PeerLink := mkPeerLink {
  pl_peer : DeviceId; pl_scopes : SessionScopes; pl_outbound_enabled : bool; pl_inbound_enabled : bool;
  pl_local_lower : bool; pl_peer_offset : Point; pl_phase : Phase; pl_source : SourceController; pl_confines : bool; pl_view : PeerView;
  pl_early_input : list Frame; pl_started_at : option Z; pl_joined : bool }.
Definition link_source (l : PeerLink) (s : SourceController) (v : PeerView) : PeerLink :=
  mkPeerLink (pl_peer l) (pl_scopes l) (pl_outbound_enabled l) (pl_inbound_enabled l) (pl_local_lower l)
    (pl_peer_offset l) (pl_phase l) s (pl_confines l) v (pl_early_input l) (pl_started_at l) (pl_joined l).
Definition link_phase (l : PeerLink) (p : Phase) : PeerLink :=
  mkPeerLink (pl_peer l) (pl_scopes l) (pl_outbound_enabled l) (pl_inbound_enabled l) (pl_local_lower l)
    (pl_peer_offset l) p (pl_source l) (pl_confines l) (pl_view l) (pl_early_input l) (pl_started_at l) (pl_joined l).
Definition link_early (l : PeerLink) (q : list Frame) : PeerLink :=
  mkPeerLink (pl_peer l) (pl_scopes l) (pl_outbound_enabled l) (pl_inbound_enabled l) (pl_local_lower l)
    (pl_peer_offset l) (pl_phase l) (pl_source l) (pl_confines l) (pl_view l) q (pl_started_at l) (pl_joined l).
Definition link_promoted (l : PeerLink) (s : SourceController) (now : Z) : PeerLink :=
  mkPeerLink (pl_peer l) (pl_scopes l) (pl_outbound_enabled l) (pl_inbound_enabled l) (pl_local_lower l)
    (pl_peer_offset l) (pl_phase l) s false (start_view s) [] (Some now) true.
Definition link_is_ready (l : PeerLink) : bool := match pl_phase l with Ready => true | Starting _ _ => false end.

Inductive Slot := Empty | Linked (l : PeerLink) | Leaving.

Record Orphan := mkOrphan { or_claim : FloorSnapshot; or_position : Point; or_ticket : option Z; or_since : Z }.
Record Issued := mkIssued { iss_slot : Z; iss_ticket : Z; iss_local : bool }.

#[projections(primitive)] Record HubCore := mkHub {
  h_local : DeviceId;
  h_group : Topology;
  h_initial_display : DisplayId;
  h_members : list (option DeviceId);
  h_generation : Z;
  h_double_click : Z;
  h_floor : FloorSnapshot;
  h_native : Native;
  h_capture_ready : bool;
  h_blocking : list HeldPress;
  h_slots : list Slot;
  h_route : bool * Z;
  h_issuer : option Issued;
  h_pending : option (SourceEffect * Z);
  h_pending_slot : option Z;
  h_submitted : option (Z * Z);
  h_orphan : option Orphan;
  h_local_requested : bool;
  h_keys : gset Z;
  h_buttons : gset Z;
  h_last_renewed : Z;
  h_last_pointer_poll : Z;
  h_actions : list HubAction }.
Definition put_floor (h : HubCore) (v : FloorSnapshot) : HubCore :=
  mkHub (h_local h) (h_group h) (h_initial_display h) (h_members h) (h_generation h) (h_double_click h)
    v (h_native h) (h_capture_ready h) (h_blocking h) (h_slots h) (h_route h) (h_issuer h)
    (h_pending h) (h_pending_slot h) (h_submitted h) (h_orphan h) (h_local_requested h) (h_keys h)
    (h_buttons h) (h_last_renewed h) (h_last_pointer_poll h) (h_actions h).
Definition put_native (h : HubCore) (v : Native) : HubCore :=
  mkHub (h_local h) (h_group h) (h_initial_display h) (h_members h) (h_generation h) (h_double_click h)
    (h_floor h) v (h_capture_ready h) (h_blocking h) (h_slots h) (h_route h) (h_issuer h)
    (h_pending h) (h_pending_slot h) (h_submitted h) (h_orphan h) (h_local_requested h) (h_keys h)
    (h_buttons h) (h_last_renewed h) (h_last_pointer_poll h) (h_actions h).
Definition put_capture_ready (h : HubCore) (v : bool) : HubCore :=
  mkHub (h_local h) (h_group h) (h_initial_display h) (h_members h) (h_generation h) (h_double_click h)
    (h_floor h) (h_native h) v (h_blocking h) (h_slots h) (h_route h) (h_issuer h) (h_pending h)
    (h_pending_slot h) (h_submitted h) (h_orphan h) (h_local_requested h) (h_keys h) (h_buttons h)
    (h_last_renewed h) (h_last_pointer_poll h) (h_actions h).
Definition put_blocking (h : HubCore) (v : list HeldPress) : HubCore :=
  mkHub (h_local h) (h_group h) (h_initial_display h) (h_members h) (h_generation h) (h_double_click h)
    (h_floor h) (h_native h) (h_capture_ready h) v (h_slots h) (h_route h) (h_issuer h)
    (h_pending h) (h_pending_slot h) (h_submitted h) (h_orphan h) (h_local_requested h) (h_keys h)
    (h_buttons h) (h_last_renewed h) (h_last_pointer_poll h) (h_actions h).
Definition put_slots (h : HubCore) (v : list Slot) : HubCore :=
  mkHub (h_local h) (h_group h) (h_initial_display h) (h_members h) (h_generation h) (h_double_click h)
    (h_floor h) (h_native h) (h_capture_ready h) (h_blocking h) v (h_route h) (h_issuer h)
    (h_pending h) (h_pending_slot h) (h_submitted h) (h_orphan h) (h_local_requested h) (h_keys h)
    (h_buttons h) (h_last_renewed h) (h_last_pointer_poll h) (h_actions h).
Definition put_route (h : HubCore) (v : bool * Z) : HubCore :=
  mkHub (h_local h) (h_group h) (h_initial_display h) (h_members h) (h_generation h) (h_double_click h)
    (h_floor h) (h_native h) (h_capture_ready h) (h_blocking h) (h_slots h) v (h_issuer h)
    (h_pending h) (h_pending_slot h) (h_submitted h) (h_orphan h) (h_local_requested h) (h_keys h)
    (h_buttons h) (h_last_renewed h) (h_last_pointer_poll h) (h_actions h).
Definition put_issuer (h : HubCore) (v : option Issued) : HubCore :=
  mkHub (h_local h) (h_group h) (h_initial_display h) (h_members h) (h_generation h) (h_double_click h)
    (h_floor h) (h_native h) (h_capture_ready h) (h_blocking h) (h_slots h) (h_route h) v
    (h_pending h) (h_pending_slot h) (h_submitted h) (h_orphan h) (h_local_requested h) (h_keys h)
    (h_buttons h) (h_last_renewed h) (h_last_pointer_poll h) (h_actions h).
Definition put_pending (h : HubCore) (v : option (SourceEffect * Z)) : HubCore :=
  mkHub (h_local h) (h_group h) (h_initial_display h) (h_members h) (h_generation h) (h_double_click h)
    (h_floor h) (h_native h) (h_capture_ready h) (h_blocking h) (h_slots h) (h_route h) (h_issuer h)
    v (h_pending_slot h) (h_submitted h) (h_orphan h) (h_local_requested h) (h_keys h) (h_buttons h)
    (h_last_renewed h) (h_last_pointer_poll h) (h_actions h).
Definition put_pending_slot (h : HubCore) (v : option Z) : HubCore :=
  mkHub (h_local h) (h_group h) (h_initial_display h) (h_members h) (h_generation h) (h_double_click h)
    (h_floor h) (h_native h) (h_capture_ready h) (h_blocking h) (h_slots h) (h_route h) (h_issuer h)
    (h_pending h) v (h_submitted h) (h_orphan h) (h_local_requested h) (h_keys h) (h_buttons h)
    (h_last_renewed h) (h_last_pointer_poll h) (h_actions h).
Definition put_submitted (h : HubCore) (v : option (Z * Z)) : HubCore :=
  mkHub (h_local h) (h_group h) (h_initial_display h) (h_members h) (h_generation h) (h_double_click h)
    (h_floor h) (h_native h) (h_capture_ready h) (h_blocking h) (h_slots h) (h_route h) (h_issuer h)
    (h_pending h) (h_pending_slot h) v (h_orphan h) (h_local_requested h) (h_keys h) (h_buttons h)
    (h_last_renewed h) (h_last_pointer_poll h) (h_actions h).
Definition put_orphan (h : HubCore) (v : option Orphan) : HubCore :=
  mkHub (h_local h) (h_group h) (h_initial_display h) (h_members h) (h_generation h) (h_double_click h)
    (h_floor h) (h_native h) (h_capture_ready h) (h_blocking h) (h_slots h) (h_route h) (h_issuer h)
    (h_pending h) (h_pending_slot h) (h_submitted h) v (h_local_requested h) (h_keys h)
    (h_buttons h) (h_last_renewed h) (h_last_pointer_poll h) (h_actions h).
Definition put_local_requested (h : HubCore) (v : bool) : HubCore :=
  mkHub (h_local h) (h_group h) (h_initial_display h) (h_members h) (h_generation h) (h_double_click h)
    (h_floor h) (h_native h) (h_capture_ready h) (h_blocking h) (h_slots h) (h_route h) (h_issuer h)
    (h_pending h) (h_pending_slot h) (h_submitted h) (h_orphan h) v (h_keys h) (h_buttons h)
    (h_last_renewed h) (h_last_pointer_poll h) (h_actions h).
Definition put_keys (h : HubCore) (v : gset Z) : HubCore :=
  mkHub (h_local h) (h_group h) (h_initial_display h) (h_members h) (h_generation h) (h_double_click h)
    (h_floor h) (h_native h) (h_capture_ready h) (h_blocking h) (h_slots h) (h_route h) (h_issuer h)
    (h_pending h) (h_pending_slot h) (h_submitted h) (h_orphan h) (h_local_requested h) v
    (h_buttons h) (h_last_renewed h) (h_last_pointer_poll h) (h_actions h).
Definition put_buttons (h : HubCore) (v : gset Z) : HubCore :=
  mkHub (h_local h) (h_group h) (h_initial_display h) (h_members h) (h_generation h) (h_double_click h)
    (h_floor h) (h_native h) (h_capture_ready h) (h_blocking h) (h_slots h) (h_route h) (h_issuer h)
    (h_pending h) (h_pending_slot h) (h_submitted h) (h_orphan h) (h_local_requested h) (h_keys h) v
    (h_last_renewed h) (h_last_pointer_poll h) (h_actions h).
Definition put_last_renewed (h : HubCore) (v : Z) : HubCore :=
  mkHub (h_local h) (h_group h) (h_initial_display h) (h_members h) (h_generation h) (h_double_click h)
    (h_floor h) (h_native h) (h_capture_ready h) (h_blocking h) (h_slots h) (h_route h) (h_issuer h)
    (h_pending h) (h_pending_slot h) (h_submitted h) (h_orphan h) (h_local_requested h) (h_keys h)
    (h_buttons h) v (h_last_pointer_poll h) (h_actions h).
Definition put_last_pointer_poll (h : HubCore) (v : Z) : HubCore :=
  mkHub (h_local h) (h_group h) (h_initial_display h) (h_members h) (h_generation h) (h_double_click h)
    (h_floor h) (h_native h) (h_capture_ready h) (h_blocking h) (h_slots h) (h_route h) (h_issuer h)
    (h_pending h) (h_pending_slot h) (h_submitted h) (h_orphan h) (h_local_requested h) (h_keys h)
    (h_buttons h) (h_last_renewed h) v (h_actions h).
Definition put_actions (h : HubCore) (v : list HubAction) : HubCore :=
  mkHub (h_local h) (h_group h) (h_initial_display h) (h_members h) (h_generation h) (h_double_click h)
    (h_floor h) (h_native h) (h_capture_ready h) (h_blocking h) (h_slots h) (h_route h) (h_issuer h)
    (h_pending h) (h_pending_slot h) (h_submitted h) (h_orphan h) (h_local_requested h) (h_keys h)
    (h_buttons h) (h_last_renewed h) (h_last_pointer_poll h) v.


(** Slot 1 is index 0. *)
Definition index_of (slot : Z) : option nat :=
  match checked_sub slot 1 with
  | Some i => if (Z.to_nat i <? GROUP)%nat then Some (Z.to_nat i) else None
  | None => None
  end.
Definition slot_at (i : nat) : Z := Z.of_nat i + 1.

(** [Topology::displays]: by ascending identifier. *)
Definition by_id (a b : Z * Display) : Prop := fst a <= fst b.
#[global] Instance by_id_dec a b : Decision (by_id a b).
Proof. unfold by_id. apply _. Defined.
Definition group_displays (t : Topology) : list Display :=
  snd <$> merge_sort by_id (map_to_list (displays t)).

Definition restore_point (l : list SourceEffect) : option Point :=
  match filter (fun e => match e with RestoreLocalAt _ _ _ => true | _ => false end = true) l with
  | RestoreLocalAt _ _ p :: _ => Some p
  | _ => None
  end.

(** [validate_link]: one side's displays against the group. *)
Definition display_matches (g : Topology) (device : DeviceId) (d : DisplayDescription) : result SessionFailure Point :=
  match Topology.display g (display_id d) with
  | Err _ => Err FailInvalidLayout
  | Ok actual =>
      if negb (bool_decide (d_machine actual = device))
         || negb (f64_eqb (width (d_logical actual)) (px (logical_size d)))
         || negb (f64_eqb (height (d_logical actual)) (py (logical_size d)))
         || negb (n_width (d_native actual) =? native_width d) || negb (n_height (d_native actual) =? native_height d)
         || negb (f64_eqb (d_scale actual) (f64_of_f32 (scale_factor d)))
      then Err FailInvalidLayout
      else Ok (mkPoint (f64_sub (px (d_origin actual)) (px (logical_origin d)))
                 (f64_sub (py (d_origin actual)) (py (logical_origin d))))
  end.
Fixpoint match_displays (g : Topology) (device : DeviceId) (is_local : bool) (l : list DisplayDescription)
    (offset : option Point) : result SessionFailure (option Point) :=
  match l with
  | [] => Ok offset
  | d :: l =>
      match display_matches g device d with
      | Err e => Err e
      | Ok delta =>
          if is_local then
            if negb (point_eqb delta point_zero) then Err FailInvalidLayout
            else match_displays g device is_local l offset
          else if match offset with Some previous => negb (point_eqb previous delta) | None => false end
          then Err FailInvalidLayout
          else match_displays g device is_local l (Some delta)
      end
  end.
Definition match_side (g : Topology) (device : DeviceId) (is_local : bool) (l : list DisplayDescription)
    (offset : option Point) : result SessionFailure (option Point) :=
  match match_displays g device is_local l offset with
  | Err e => Err e
  | Ok offset =>
      if (length (filter (fun d => bool_decide (d_machine d = device) = true) (group_displays g)) =? length l)%nat
      then Ok offset else Err FailInvalidLayout
  end.
Definition validate_link (g : Topology) (local : DeviceId) (local_displays : list DisplayDescription)
    (peer : DeviceId) (peer_displays : list DisplayDescription) : result SessionFailure Point :=
  match match_side g local true local_displays None with
  | Err e => Err e
  | Ok offset =>
      match match_side g peer false peer_displays offset with
      | Err e => Err e
      | Ok (Some offset) => Ok offset
      | Ok None => Err FailInvalidLayout
      end
  end.

(** [HubCore::new]. *)
Definition home_display (c : HubConfig) : option DisplayId :=
  let local (primary : bool) :=
    d_id <$> head (filter (fun d => bool_decide (d_machine d = hc_local c) && d_in_use d && (d_primary d || negb primary) = true)
                     (group_displays (hc_group c))) in
  match local true with Some id => Some id | None => local false end.
Fixpoint members_ok (local : DeviceId) (g : Topology) (before l : list DeviceId) : bool :=
  match l with
  | [] => true
  | m :: l =>
      negb (bool_decide (m = local)) && existsb (fun d => bool_decide (d_machine d = m)) (group_displays g)
      && negb (bool_decide (m ∈ before)) && members_ok local g (before ++ [m]) l
  end.
Definition new_hub (c : HubConfig) (now : Z) : result SessionFailure HubCore :=
  match home_display c with
  | None => Err FailInvalidLayout
  | Some id =>
      if bool_decide (hc_members c = []) || (GROUP <? length (hc_members c))%nat
         || negb (members_ok (hc_local c) (hc_group c) [] (hc_members c))
      then Err FailInvalidLayout
      else Ok (mkHub (hc_local c) (hc_group c) id
                 ((Some <$> hc_members c) ++ replicate (GROUP - length (hc_members c)) None)
                 (hc_generation c) (hc_double_click c) (mkSnapshot Free 1 PEER_NONE) NativeIdle false []
                 (replicate GROUP Empty) (false, 0) None None None None None false ∅ ∅ now now [])
  end.

(** ** The world *)

(** [w_confined], [w_speed] and [w_command] are the process-wide switches the
    controllers read; [w_wrapped] says that the floor's generation started again. *)
Record World (C : Type) := mkWorld {
  w_hub : HubCore; w_capture : option C; w_reads : nat; w_command : bool; w_speed : Z; w_confined : bool; w_wrapped : bool }.
Arguments mkWorld {C}. Arguments w_hub {C}. Arguments w_capture {C}. Arguments w_reads {C}. Arguments w_command {C}.
Arguments w_speed {C}. Arguments w_confined {C}. Arguments w_wrapped {C}.

Section Hub.
Context `{Libm} `{CaptureControlI C} (elapsed : nat -> Z).

Definition with_hub (w : World C) (h : HubCore) : World C :=
  mkWorld h (w_capture w) (w_reads w) (w_command w) (w_speed w) (w_confined w) (w_wrapped w).
Definition upd (f : HubCore -> HubCore) : Prog (World C) () := p_mod (fun w => with_hub w (f (w_hub w))).
Definition hub : Prog (World C) HubCore := fun w => Some (w, Ok (w_hub w)).
Definition now : Prog (World C) Z := fun w =>
  Some (mkWorld (w_hub w) (w_capture w) (S (w_reads w)) (w_command w) (w_speed w) (w_confined w) (w_wrapped w),
        Ok (elapsed (w_reads w))).
(** The capture, when it is passed. *)
Definition capture : Prog (World C) (option C) := fun w => Some (w, Ok (w_capture w)).
Definition put_capture (c : C) : Prog (World C) () := p_mod (fun w =>
  mkWorld (w_hub w) (Some c) (w_reads w) (w_command w) (w_speed w) (w_confined w) (w_wrapped w)).
Definition push_action (a : HubAction) : Prog (World C) () := upd (fun h => put_actions h (h_actions h ++ [a])).
Definition put_slot (i : nat) (s : Slot) : Prog (World C) () := upd (fun h => put_slots h (<[i := s]> (h_slots h))).
(** The link of a slot. *)
Definition link_of (h : HubCore) (i : nat) : option PeerLink :=
  match h_slots h !! i with Some (Linked l) => Some l | _ => None end.
Definition link_in (i : nat) : Prog (World C) (option PeerLink) := let! h := hub in p_ret (link_of h i).

(** The controller of a link as it meets the floor and the switches. *)
Definition synced (w : World C) (l : PeerLink) : SourceController :=
  let s := pl_source l in
  set_floor_word (set_config s (set_switches (s_config s) (w_command w) (w_speed w) (pl_confines l && w_confined w)))
    (h_floor (w_hub w)).
(** The floor a controller leaves. *)
Definition floor_left (w : World C) (f : FloorSnapshot) : World C :=
  mkWorld (put_floor (w_hub w) f) (w_capture w) (w_reads w) (w_command w) (w_speed w) (w_confined w)
    (w_wrapped w || (Floor.generation f <? Floor.generation (h_floor (w_hub w)))).
Definition leave_floor (f : FloorSnapshot) : Prog (World C) () := p_mod (fun w => floor_left w f).
Definition call_source (i : nat) (l : PeerLink) (op : SourceOp) : Prog (World C) SourceOutcome := fun w =>
  let s := synced w l in
  '(s', out) ← source_step s op;
  let l := link_source l s' (default (pl_view l) (view_step (pl_view l) s op out)) in
  let w := floor_left w (f_floor (s_floor s')) in
  Some (with_hub w (put_slots (w_hub w) (<[i := Linked l]> (h_slots (w_hub w)))), Ok out).

Definition outbound_owner (h : HubCore) : option nat :=
  i ← index_of (Floor.peer (h_floor h));
  if bool_decide (floor_owner (Floor.state (h_floor h)) = Some Floor.Outbound)
     && match link_of h i with Some l => link_is_ready l | None => false end
  then Some i else None.
Definition home_origin (h : HubCore) : Point :=
  match Topology.display (h_group h) (h_initial_display h) with Ok d => d_origin d | Err _ => point_zero end.
Definition held (h : HubCore) : list HidUsage * list MouseButton :=
  (filter (fun u => u ∈ h_keys h) (seqZ 0 256), filter (fun b => button_index b ∈ h_buttons h) all_buttons).

Definition note_physical (h : HubCore) (i : NormalizedInput) : HubCore :=
  match i with
  | InKeyEvent usage pressed _ _ =>
      if usage_is_valid usage then put_keys h (if pressed then {[usage]} ∪ h_keys h else h_keys h ∖ {[usage]}) else h
  | InButtonEvent button pressed _ =>
      put_buttons h (if pressed then {[button_index button]} ∪ h_buttons h else h_buttons h ∖ {[button_index button]})
  | _ => h
  end.

(** ** The hub's own restore *)

Definition hold_orphan (claim : FloorSnapshot) (position : Point) (ticket : option Z) : Prog (World C) () :=
  let! h := hub in
  if bool_decide (is_Some (h_orphan h)) then p_err FailSource
  else
    let! t := now in
    upd (fun h => put_local_requested (put_orphan h (Some (mkOrphan claim position ticket t))) false).
Definition submit_orphan : Prog (World C) () :=
  let! t := now in
  let! h := hub in
  match h_orphan h with
  | Some o =>
      if bool_decide (is_Some (or_ticket o)) then p_ret ()
      else
        let! c := capture in
        match c with
        | None => p_err FailNative
        | Some c =>
            let '(c, r) := restore_local_at c (h_generation h) (or_position o) in
            put_capture c;!
            match r with
            | Ok ticket =>
                upd (fun h => put_submitted (put_orphan h (Some (mkOrphan (or_claim o) (or_position o) (Some ticket) (or_since o))))
                                (Some (ticket, t)))
            | Err Busy => p_ret ()
            | Err _ => p_err FailNative
            end
        end
  | None => p_ret ()
  end.
Definition orphan_restore (claim : FloorSnapshot) (position : Point) : Prog (World C) () :=
  hold_orphan claim position None;! submit_orphan.

(** Each ready controller may hand over to every other ready peer this computer may control. *)
Definition ready_peers (h : HubCore) : list DeviceId :=
  omap (fun s => match s with
                 | Linked l => if link_is_ready l && pl_outbound_enabled l then Some (pl_peer l) else None
                 | _ => None
                 end) (h_slots h).
Definition reached (peers : list DeviceId) (s : Slot) : Slot :=
  match s with
  | Linked l =>
      if link_is_ready l
      then Linked (link_source l (Source.set_reachable (pl_source l) (filter (fun p => p <> pl_peer l) peers)) (pl_view l))
      else s
  | _ => s
  end.
Definition refresh_reachable (h : HubCore) : HubCore := put_slots h (reached (ready_peers h) <$> h_slots h).

(** ** Ending a link *)

Definition set_link_end (l : PeerLink) (r : result SessionFailure ()) (s : SourceController) (t : Z) : LinkEnd :=
  mkLinkEnd (pl_peer l) r (pl_started_at l) (source_hold_stats s t).
(** The floor of the link that ends comes home: by the restore it queued, by the
    hub's own, or by giving it back. *)
Definition floor_home (i : nat) (restore : option Point) (issued : option Issued) : Prog (World C) () :=
  let! h := hub in
  let floor := h_floor h in
  let orphaned := match h_orphan h with Some o => bool_decide (or_claim o = floor) | None => false end in
  if negb orphaned && (Floor.peer floor =? slot_at i)
     && bool_decide (floor_owner (Floor.state floor) = Some Floor.Outbound)
  then
    match issued with
    | Some (mkIssued _ ticket true) => hold_orphan floor (default (home_origin h) restore) (Some ticket)
    | _ =>
        let remote := fst (h_route h) || bool_decide (is_Some issued) in
        match (match restore with Some p => Some p | None => if remote then Some (home_origin h) else None end) with
        | Some position => orphan_restore floor position
        | None =>
            upd (fun h => put_local_requested h false);!
            leave_floor (FloorSpec.step floor (OpReleasePeer (slot_at i) (Floor.generation floor)))
        end
    end
  else p_ret ().
(** Native input stops with the last link. *)
Definition stop_with_last : Prog (World C) () :=
  let! h := hub in
  p_when (negb (bool_decide (h_native h = NativeIdle)) && negb (bool_decide (h_native h = NativeStopping))
          && negb (existsb (fun s => match s with Linked _ => true | _ => false end) (h_slots h)))
    (upd (fun h => put_local_requested (put_submitted (put_pending_slot (put_pending (put_orphan
             (put_native h NativeStopping) None) None) None) None) false);!
     push_action StopNative).
Definition end_link (i : nat) (result : result SessionFailure ()) (restore : option Point) : Prog (World C) () :=
  let! l := link_in i in
  match l with
  | None => p_ret ()
  | Some l =>
      put_slot i Empty;!
      let! t := now in
      let! w := p_get in
      let '(s, abandoned) := abandon (synced w l) t in
      leave_floor (f_floor (s_floor s));!
      let restore :=
        match restore with
        | Some p => Some p
        | None =>
            match restore_point (out_effects abandoned) with
            | Some p => Some p
            | None => ho_return_position <$> out_handover abandoned
            end
        end in
      let! h := hub in
      p_when (bool_decide (h_pending_slot h = Some (slot_at i)))
        (upd (fun h => put_pending_slot (put_pending h None) None));!
      let issued := match h_issuer h with Some o => if iss_slot o =? slot_at i then Some o else None | None => None end in
      p_when (bool_decide (is_Some issued)) (upd (fun h => put_issuer h None));!
      floor_home i restore issued;!
      push_action (CloseLink (slot_at i) (set_link_end l result s t));!
      (if pl_joined l then put_slot i Leaving;! push_action (LeaveDestination (slot_at i))
       else push_action (LinkEnded (slot_at i)));!
      upd refresh_reachable;!
      stop_with_last
  end.

(** ** Outcomes of controllers *)

(** A program of session_source_runtime.rs on the link of a slot, its result as a value. *)
Definition on_route {A} (i : nat) (l : PeerLink) (c : C) (m : Prog (Route (Issuing C)) A)
  : Prog (World C) (result SessionFailure A * option (Z * bool)) := fun w =>
  let h := w_hub w in
  '(r, a) ← m (mkRt (synced w l) (pl_view l) (mkIssuing c None) [] (h_pending h) (h_submitted h) (w_reads w)
             (w_wrapped w));
  let h := put_floor h (f_floor (s_floor (rt_source r))) in
  let h := put_slots h (<[i := Linked (link_source l (rt_source r) (rt_view r))]> (h_slots h)) in
  let h := put_actions h (h_actions h ++ (SendOutbound (slot_at i) <$> rt_sent r)) in
  let h := put_submitted (put_pending h (rt_pending r)) (rt_submitted r) in
  Some (mkWorld h (Some (is_capture (rt_capture r))) (rt_reads r) (w_command w) (w_speed w) (w_confined w) (rt_wrapped r),
        Ok (a, is_issued (rt_capture r))).
Definition note_route (i : nat) (issued : option (Z * bool)) : Prog (World C) () :=
  match issued with
  | Some (ticket, local) => upd (fun h => put_issuer h (Some (mkIssued (slot_at i) ticket local)))
  | None => p_ret ()
  end.

(** Without capture only frames can be carried out. *)
Definition send_only (i : nat) (e : SourceEffect) : Prog (World C) () :=
  match e with RemoteFrame f => push_action (SendOutbound (slot_at i) f) | _ => p_err FailNative end.
Definition settle_effects (i : nat) (effects : list SourceEffect) (failure : option SourceFailure) : Prog (World C) () :=
  match failure with
  | Some f => end_link i (Err (FailSourceController f)) (restore_point effects)
  | None =>
      if bool_decide (effects = []) then p_ret ()
      else
        let! l := link_in i in
        match l with
        | None => p_ret ()
        | Some l =>
            let! c := capture in
            match c with
            | None => p_each (send_only i) effects
            | Some c =>
                let! h := hub in
                let! (r, issued) := on_route i l c (apply_effects elapsed (h_generation h) effects) in
                p_lift r;!
                note_route i issued;!
                let! h := hub in
                p_when (bool_decide (is_Some (h_pending h)) && negb (bool_decide (is_Some (h_pending_slot h))))
                  (upd (fun h => put_pending_slot h (Some (slot_at i))))
            end
        end
  end.

(** The first other slot whose ready link is to the machine. *)
Definition handover_target (h : HubCore) (from : nat) (to : DeviceId) : option (nat * PeerLink) :=
  head (omap (fun i => match link_of h i with
                       | Some l => if negb (i =? from)%nat && bool_decide (pl_peer l = to) && link_is_ready l
                                   then Some (i, l) else None
                       | None => None
                       end) (seq 0 GROUP)).
Definition deliver_handover (from : nat) (ho : Handover) : Prog (World C) () :=
  let! t := now in
  let! h := hub in
  match handover_target h from (machine (ho_to ho)) with
  | None => orphan_restore (ho_claim ho) (ho_return_position ho)
  | Some (i, l) =>
      let! out := call_source i l (CallHandover ho t) in
      match out_handover out with
      | Some refused => orphan_restore (ho_claim refused) (ho_return_position refused)
      | None => p_ret ()
      end;!
      settle_effects i (out_effects out) (out_failure out)
  end.
Definition settle_outcome (i : nat) (out : SourceOutcome) : Prog (World C) () :=
  match out_handover out with
  | None => settle_effects i (out_effects out) (out_failure out)
  | Some ho =>
      match out_failure out with
      | Some f =>
          orphan_restore (ho_claim ho) (ho_return_position ho);!
          settle_effects i (out_effects out) (Some f)
      | None =>
          settle_effects i (out_effects out) None;!
          deliver_handover i ho
      end
  end.
Definition follow_local_request : Prog (World C) () :=
  let! h := hub in
  if negb (h_local_requested h) then p_ret ()
  else match outbound_owner h with
  | None => upd (fun h => put_local_requested h false)
  | Some i =>
      let! t := now in
      match link_of h i with
      | None => p_ret ()
      | Some l =>
          if bool_decide (mode (pl_source l) = ModeRemote) then
            upd (fun h => put_local_requested h false);!
            let! out := call_source i l (CallRequestLocal t) in
            settle_outcome i out
          else p_ret ()
      end
  end.
Definition settle (i : nat) (out : SourceOutcome) : Prog (World C) () :=
  settle_outcome i out;! follow_local_request.

(** ** Startup of a link *)

Definition startup {A} (r : result StartupError A) : result SessionFailure A := map_err FailStartup r.
(** [PeerLink::startup_frame], on the control of the frame's direction. *)
Definition startup_frame (i : nat) (l : PeerLink) (outbound : bool) (f : Frame) (t : Z)
  : Prog (World C) (result SessionFailure ()) :=
  match pl_phase l with
  | Ready => p_ret (Ok ())
  | Starting out inb =>
      let control := if outbound then out else inb in
      let put c := put_slot i (Linked (link_phase l (if outbound then Starting c inb else Starting out c))) in
      let waits := negb outbound && negb (is_heartbeat (message f))
                   && negb (match message f with MsgSessionReady => true | _ => false end) in
      let '(control, ready) := if waits then startup_is_ready control t else (control, Ok false) in
      put control;!
      match ready with
      | Err e => p_ret (Err (FailStartup e))
      | Ok true =>
          if (length (pl_early_input l) =? SESSION_QUEUE_CAPACITY)%nat then p_ret (Err FailQueueFull)
          else
            put_slot i (Linked (link_early (link_phase l (if outbound then Starting control inb else Starting out control))
                                  (pl_early_input l ++ [f])));!
            p_ret (Ok ())
      | Ok false =>
          let '(control, r) := receive_startup control f t in
          put control;!
          match r with
          | Err e => p_ret (Err (FailStartup e))
          | Ok None => p_ret (Ok ())
          | Ok (Some g) =>
              push_action (if outbound then SendOutbound (slot_at i) g else SendInbound (slot_at i) g);!
              p_ret (Ok ())
          end
      end
  end.

Inductive StartupStage := Waiting | NeedsNative | StartupReady.
(** The two controls, the frames to send out and in, and how far startup is. *)
Definition both (out inb : StartupControl) (t : Z) (f : StartupControl -> Z -> StartupControl * result StartupError bool)
  : StartupControl * StartupControl * result StartupError bool :=
  let '(out, r) := f out t in
  match r with
  | Ok true => let '(inb, r) := f inb t in (out, inb, r)
  | _ => (out, inb, r)
  end.
Definition announce (c : StartupControl) (t : Z) : StartupControl * result StartupError (option Frame) :=
  match can_announce_ready c t with
  | (c, Ok true) => let '(c, r) := announce_ready c t in (c, match r with Ok f => Ok (Some f) | Err e => Err e end)
  | (c, Ok false) => (c, Ok None)
  | (c, Err e) => (c, Err e)
  end.
Definition push_startup (i : nat) (outbound : bool) (f : option Frame) : Prog (World C) () :=
  match f with
  | Some f => push_action (if outbound then SendOutbound (slot_at i) f else SendInbound (slot_at i) f)
  | None => p_ret ()
  end.
(** A call of one control: its frame goes out, and an error ends the tick. *)
Definition startup_call_ (i : nat) (outbound : bool) (f : StartupControl -> StartupControl * result StartupError (option Frame))
    (k : Prog (World C) (result StartupError StartupStage)) : Prog (World C) (result StartupError StartupStage) :=
  let! l := link_in i in
  match l with
  | Some l =>
      match pl_phase l with
      | Starting out inb =>
          let '(c, r) := f (if outbound then out else inb) in
          put_slot i (Linked (link_phase l (if outbound then Starting c inb else Starting out c)));!
          match r with
          | Err e => p_ret (Err e)
          | Ok g => push_startup i outbound g;! k
          end
      | Ready => p_ret (Ok Waiting)
      end
  | None => p_ret (Ok Waiting)
  end.
Definition startup_both (i : nat) (f : StartupControl -> Z -> StartupControl * result StartupError bool) (t : Z)
    (yes : StartupStage) : Prog (World C) (result StartupError StartupStage) :=
  let! l := link_in i in
  match l with
  | Some l =>
      match pl_phase l with
      | Starting out inb =>
          let '(out, inb, r) := both out inb t f in
          put_slot i (Linked (link_phase l (Starting out inb)));!
          p_ret (match r with Ok true => Ok yes | Ok false => Ok Waiting | Err e => Err e end)
      | Ready => p_ret (Ok Waiting)
      end
  | None => p_ret (Ok Waiting)
  end.
Definition startup_tick (i : nat) (native : Native) (t : Z) : Prog (World C) (result StartupError StartupStage) :=
  startup_call_ i true (fun c => poll_startup c t)
  (startup_call_ i false (fun c => poll_startup c t)
  (if negb (bool_decide (native = NativeReady)) then startup_both i health_confirmed t NeedsNative
   else
     startup_call_ i false (fun c => announce c t)
     (startup_call_ i true (fun c => announce c t)
     (startup_both i startup_is_ready t StartupReady)))).

(** [promote]. *)
Definition ready_source (w : World C) (l : PeerLink) (i : nat) (out inb : StartupControl) (t : Z)
  : result SessionFailure (SourceController * ReadyControl) :=
  let h := w_hub w in
  let '(keys, buttons) := held h in
  control ← startup (into_ready out t);
  s ← map_err FailSourceController (after_startup (h_group h) (h_local h) (h_initial_display h) control (w_command w) (w_speed w));
  s ← map_err (fun _ => FailInvalidLayout) (with_peer (with_floor s (h_floor h) (pl_outbound_enabled l)) (pl_peer l) (slot_at i));
  let s := set_double_click_interval (set_peer_offset s (pl_peer_offset l)) (h_double_click h) in
  let '(s, r) := seed_from_group s keys buttons (h_route h) (h_capture_ready h) in
  _ ← map_err FailSourceController r;
  inbound ← startup (into_ready inb t);
  mret (s, inbound).
Definition promote (i : nat) : Prog (World C) () :=
  let! t := now in
  let! w := p_get in
  match link_of (w_hub w) i with
  | None => p_ret ()
  | Some l =>
      match pl_phase l with
      | Ready => p_ret ()
      | Starting out inb =>
          let l := link_phase l Ready in
          put_slot i (Linked l);!
          match ready_source w l i out inb t with
          | Err e => end_link i (Err e) None
          | Ok (s, control) =>
              put_slot i (Linked (link_promoted l s t));!
              push_action (JoinDestination (mkJoin (slot_at i) control (pl_local_lower l) (pl_inbound_enabled l)));!
              p_each (fun f => push_action (Submit (slot_at i) f)) (pl_early_input l);!
              push_action (LinkStarted (slot_at i) (pl_peer l));!
              upd refresh_reachable
          end
      end
  end.

(** ** Entry points *)

(** A pure call: the refusal or the slot. *)
Definition add_link (setup : LinkSetup) (t : Z) (command : bool) (speed : Z) (h : HubCore) : HubCore * result LinkRefusal Z :=
  if bool_decide (h_native h = NativeStopping) then (h, Err Stopping_)
  else match list_find (fun m => m = Some (ls_peer setup)) (h_members h) with
  | None => (h, Err NotMember)
  | Some (i, _) =>
      match h_slots h !! i with
      | Some Empty =>
          match new_scopes (h_local h) (ls_peer setup) with
          | Err _ => (h, Err NotMember)
          | Ok scopes =>
              let '(keys, buttons) := held h in
              match
                offset ← map_err (fun _ => Layout) (validate_link (h_group h) (h_local h) (ls_local_displays setup)
                                                     (ls_peer setup) (ls_peer_displays setup));
                s ← map_err (fun _ => Layout) (new_source (h_group h) (h_local h) (h_initial_display h) (ls_epoch setup)
                                                 (ls_next_sequence setup) t command speed);
                s ← map_err (fun _ => Layout) (with_peer (with_floor s (h_floor h) (ls_outbound_enabled setup)) (ls_peer setup) (slot_at i));
                let '(s, r) := seed_from_group s keys buttons (h_route h) (h_capture_ready h) in
                _ ← map_err (fun _ => Layout) r;
                mret (offset, s)
              with
              | Err e => (h, Err e)
              | Ok (offset, s) =>
                  (put_slots h (<[i := Linked (mkPeerLink (ls_peer setup) scopes (ls_outbound_enabled setup)
                     (ls_inbound_enabled setup) (device_ltb (h_local h) (ls_peer setup)) offset
                     (Starting (new_startup (ls_epoch setup) (ls_next_sequence setup) true t)
                        (new_startup (ls_epoch setup) (ls_next_sequence setup) false t))
                     s true (start_view s) [] None false)]> (h_slots h)), Ok (slot_at i))
              end
          end
      | _ => (h, Err Occupied)
      end
  end.

Definition remove_link (slot : Z) (result : result SessionFailure ()) : Prog (World C) () :=
  match index_of slot with Some i => end_link i result None | None => p_ret () end.

Definition on_frame (slot : Z) (f : Frame) : Prog (World C) () :=
  let! t := now in
  match index_of slot with
  | None => p_ret ()
  | Some i =>
      let! l := link_in i in
      match l with
      | None => p_ret ()
      | Some l =>
          if bool_decide (scope f = Connection) then
            end_link i (match message f with MsgDisconnect _ => Ok () | _ => Err FailWire end) None
          else
            let outbound := bool_decide (scope f = sc_outbound (pl_scopes l)) in
            if negb outbound && negb (bool_decide (scope f = sc_inbound (pl_scopes l)))
            then end_link i (Err FailUnexpectedStream) None
            else if negb (link_is_ready l) then
              let! r := startup_frame i l outbound f t in
              match r with Ok _ => p_ret () | Err e => end_link i (Err e) None end
            else if negb outbound then push_action (Submit slot f)
            else
              let! out := call_source i l (CallFrame f t) in
              settle i out
      end
  end.

Definition dispatch_barrier (r : TaggedInput) (to_remote : bool) (revision : Z) : Prog (World C) () :=
  upd (fun h => put_route h (to_remote, revision));!
  let! h := hub in
  let issuer := match h_issuer h with Some o => if iss_ticket o =? revision then Some (iss_slot o) else None | None => None end in
  p_when (bool_decide (is_Some issuer)) (upd (fun h => put_issuer h None));!
  p_each (fun i =>
    let! t := now in
    let! l := link_in i in
    match l with
    | Some l =>
        if negb (link_is_ready l) then p_ret ()
        else
          let! out := call_source i l (if bool_decide (issuer = Some (slot_at i)) then CallCaptured r t
                                       else CallForeign to_remote revision t) in
          settle i out
    | None => p_ret ()
    end) (seq 0 GROUP);!
  let! h := hub in
  match h_orphan h with
  | Some o =>
      if bool_decide (or_ticket o = Some revision) then
        upd (fun h => put_orphan h None);!
        match FloorSpec.edge (h_floor h) (OpReleasePeer (Floor.peer (or_claim o)) (Floor.generation (or_claim o))) with
        | Some f => leave_floor f
        | None => p_err FailSource
        end
      else p_ret ()
  | None => p_ret ()
  end.

(** [on_captured], which is always passed the capture. *)
Definition on_captured (record : CapturedEvent) : Prog (World C) () :=
  match normalize record with
  | Err _ => p_err FailSource
  | Ok None => p_ret ()
  | Ok (Some r) =>
      let! c := capture in
      upd (fun h => note_physical (put_capture_ready h (match c with Some c => is_ready_for_suppression c | None => h_capture_ready h end))
                      (SourceState.event r));!
      match SourceState.event r with
      | RouteChanged to_remote revision => dispatch_barrier r to_remote revision
      | _ =>
          p_each (fun i =>
            let! t := now in
            let! h := hub in
            match link_of h i with
            | Some l =>
                if link_is_ready l then
                  let l := link_source l (set_capture_ready (pl_source l) (h_capture_ready h)) (pl_view l) in
                  let! out := call_source i l (CallCaptured r t) in
                  settle i out
                else fun w =>
                  '(s, out) ← bookkeeping (pl_source l) r;
                  (put_slot i (Linked (link_source l s (pl_view l)));!
                   match out_failure out with
                   | Some f => end_link i (Err (FailSourceController f)) None
                   | None => p_ret ()
                   end) w
            | None => p_ret ()
            end) (seq 0 GROUP)
      end
  end.

Inductive SlotEvent := Response (f : Frame) | SlotFailed | Left_.
Definition on_destination (slot : Z) (e : SlotEvent) : Prog (World C) () :=
  match index_of slot with
  | None => p_ret ()
  | Some i =>
      let! h := hub in
      let joined := match h_slots h !! i with Some (Linked l) => pl_joined l | Some Leaving => true | _ => false end in
      if negb joined then p_ret ()
      else match e with
      | Response f => p_when (bool_decide (is_Some (link_of h i))) (push_action (SendInbound slot f))
      | SlotFailed => end_link i (Err FailDestination) None
      | Left_ =>
          end_link i (Err FailDestination) None;!
          let! h := hub in
          match h_slots h !! i with
          | Some Leaving => put_slot i Empty;! push_action (LinkEnded slot)
          | _ => p_ret ()
          end
      end
  end.

Definition poll_pointer (pointer : option Point) : Prog (World C) () :=
  let! t := now in
  let! h := hub in
  let settled := bool_decide (Floor.state (h_floor h) = Free) && negb (fst (h_route h))
                 && bool_decide (h_pending h = None) && bool_decide (h_orphan h = None) in
  let local (h : HubCore) (i : nat) :=
    match link_of h i with
    | Some l => if link_is_ready l && bool_decide (mode (pl_source l) = ModeLocal) then Some l else None
    | None => None
    end in
  if negb settled || negb (existsb (fun i => bool_decide (is_Some (local h i))) (seq 0 GROUP))
     || (saturating_sub t (h_last_pointer_poll h) <? POINTER_POLL_INTERVAL)
  then p_ret ()
  else
    upd (fun h => put_last_pointer_poll h t);!
    match pointer with
    | None => p_ret ()
    | Some p =>
        p_each (fun i =>
          let! t := now in
          let! h := hub in
          match local h i with
          | Some l =>
              let! out := call_source i l (CallPointer p t) in
              settle i out
          | None => p_ret ()
          end) (seq 0 GROUP)
    end.

Definition retry_pending_route : Prog (World C) () :=
  let! h := hub in
  let! c := capture in
  match h_pending_slot h with
  | None => p_ret ()
  | Some slot =>
      match (i ← index_of slot; l ← link_of h i; Some (i, l)), c with
      | None, _ => upd (fun h => put_pending_slot (put_pending h None) None)
      | Some _, None => p_ret ()
      | Some (i, l), Some c =>
          let! (r, issued) := on_route i l c (retry_pending elapsed (h_generation h)) in
          p_lift r;!
          note_route i issued;!
          let! h := hub in
          p_when (bool_decide (h_pending h = None)) (upd (fun h => put_pending_slot h None))
      end
  end.

Definition renew_owner_lease : Prog (World C) () :=
  let! t := now in
  let! h := hub in
  let! c := capture in
  if bool_decide (is_Some (h_pending h)) || bool_decide (is_Some (h_submitted h)) || bool_decide (is_Some (h_orphan h))
     || (saturating_sub t (h_last_renewed h) <? DISPLAY_CHECK_INTERVAL)
  then p_ret ()
  else match (i ← outbound_owner h; l ← link_of h i; Some (i, l)), c with
  | None, _ | _, None => p_ret ()
  | Some (i, l), Some c =>
      let s := pl_source l in
      if bool_decide (is_Some (l_held_since (s_link s))) || negb (cr_owned (s_route s)) || negb (cr_remote (s_route s))
      then p_ret ()
      else
        let! (r, _) := on_route i l c (renew_lease elapsed (h_generation h)) in
        match r with
        | Ok true => let! t := now in upd (fun h => put_last_renewed h t)
        | Ok false => p_ret ()
        | Err FailNative => p_err FailNative
        | Err e => end_link i (Err e) None
        end
  end.

Definition tick_link (i : nat) : Prog (World C) () :=
  let! t := now in
  let! h := hub in
  match link_of h i with
  | None => p_ret ()
  | Some l =>
      if link_is_ready l then
        let l := link_source l (set_capture_ready (pl_source l) (h_capture_ready h)) (pl_view l) in
        let! out := call_source i l (CallTick t) in
        settle i out
      else
        let! r := startup_tick i (h_native h) t in
        match r with
        | Ok Waiting => p_ret ()
        | Ok NeedsNative =>
            let! h := hub in
            p_when (bool_decide (h_native h = NativeIdle))
              (upd (fun h => put_native h NativeStarting);! push_action StartNative)
        | Ok StartupReady => promote i
        | Err e => end_link i (Err (FailStartup e)) None
        end
  end.
(** [on_tick]; [pointer] is what the OS pointer would read. *)
Definition on_tick (pointer : option Point) : Prog (World C) () :=
  let! c := capture in
  match c with
  | Some c => upd (fun h => put_blocking (put_capture_ready h (is_ready_for_suppression c)) (blocking_presses c))
  | None => p_ret ()
  end;!
  p_each tick_link (seq 0 GROUP);!
  let! c := capture in
  let! h := hub in
  match c with
  | Some c =>
      if bool_decide (h_native h = NativeStopping) then p_ret ()
      else
        let! t := now in
        let! submitted := p_lift (settle_submitted c (h_submitted h) t) in
        upd (fun h => put_submitted h submitted);!
        retry_pending_route;!
        submit_orphan;!
        let! h := hub in
        let! stale :=
          match h_orphan h with
          | Some o => let! t := now in p_ret (MAX_SUPPRESSION_TTL <=? saturating_sub t (or_since o))
          | None => p_ret false
          end in
        if stale then p_err FailNative
        else poll_pointer pointer;! renew_owner_lease
  | None => p_ret ()
  end.

Definition hub_observe_path (slot : Z) (sample : PathSample) : Prog (World C) () :=
  let! t := now in
  let! h := hub in
  match (i ← index_of slot; l ← link_of h i; Some (i, l)) with
  | Some (i, l) => if link_is_ready l then call_source i l (CallPath sample t);! p_ret () else p_ret ()
  | None => p_ret ()
  end.
Definition request_local : Prog (World C) () :=
  let! h := hub in
  if bool_decide (is_Some (outbound_owner h)) then
    upd (fun h => put_local_requested h true);! follow_local_request
  else p_ret ().
Definition native_ready : Prog (World C) () :=
  upd (fun h => if bool_decide (h_native h = NativeStarting) then put_native h NativeReady else h).
Definition emptied (s : Slot) : Slot := match s with Leaving => Empty | _ => s end.
Definition ended_slots (l : list Slot) : list HubAction :=
  omap (fun '(i, s) => match s with Leaving => Some (LinkEnded (slot_at i)) | _ => None end) (imap pair l).
Definition native_stopped : Prog (World C) () :=
  let! h := hub in
  if negb (bool_decide (h_native h = NativeStopping)) then p_ret ()
  else
    leave_floor (FloorSpec.step (h_floor h) OpReset);!
    upd (fun h =>
      let h := put_blocking (put_capture_ready (put_native h NativeIdle) false) [] in
      let h := put_pending_slot (put_pending (put_issuer (put_route h (false, 0)) None) None) None in
      let h := put_local_requested (put_orphan (put_submitted h None) None) false in
      let h := put_buttons (put_keys h ∅) ∅ in
      put_actions (put_slots h (emptied <$> h_slots h)) (h_actions h ++ ended_slots (h_slots h))).
End Hub.
