(* ===== verification/HubSafety.v ===== *)
(** * The floor of a group (monhop-transport/src/session_group.rs)

    [HubOk] is the invariant between the steps of a hub call: a floor that goes
    out is claimed by the controller of a link, or held by the hub's own restore.
    Programs keep it step by step ([hoare]); [X] names floors in hand: the claim
    inside a handover, or of a link that is being ended. *)

From stdpp Require Import gmap sorting.
From S2P Require Import CaptureEvent CaptureQueue CapturePhysical.
From S2P Require Import Prelude F64 Types Geometry Topology Floor Messages Sequence Ownership Clicks.
From S2P Require Import SessionPacer SessionHealth SessionQuality SourceEdges SourceState HeldInput.
From S2P Require Import Source SourceKept SourceStream SourceSafety SourceRemote SourceCalls SourceSystem SourceFloor.
From S2P Require Import SessionStartup CaptureLease CaptureStream CaptureRoute Hub.

(** ** One controller among others *)

Definition Old (w f : FloorSnapshot) : Prop := f = w \/ Floor.generation f < Floor.generation w.

(** [Out] says who else may hold the word; [olds] are the claims of the others. *)
Definition Fine (slot : Z) (Out : FloorSnapshot -> Prop) (olds : list FloorSnapshot) (s : SourceController) : Prop :=
  let w := f_floor (s_floor s) in
  c_slot (s_config s) = slot /\ s_handover s = None /\ is_generation w /\ Claims slot (held_of s)
  /\ (outbound w = true -> f_claim (s_floor s) = Some w \/ Out w) /\ Forall (Old w) olds.

Lemma outbound_not_free w : outbound w = true -> state w <> Free.
Proof. unfold outbound. intros H%bool_decide_eq_true E. by rewrite E in H. Qed.
Lemma old_young n w w' f : is_generation w -> ages n w w' -> (n < 1000)%nat -> generation w <= generation w' ->
  Old w f -> Old w' f.
Proof. intros Hw Ha Hn Hg [->|Hf]; destruct (ages_young n w w' Hw Ha Hn Hg) as [->|?]; [by left|right; lia|by right|right; lia]. Qed.

Lemma fine_moves slot Out olds s s' n o y : Fine slot Out olds s ->
  moves slot n (f_floor (s_floor s), f_claim (s_floor s), o) y ->
  word y = f_floor (s_floor s') -> claimed y = f_claim (s_floor s') -> (n < 1000)%nat ->
  c_slot (s_config s') = slot -> s_handover s' = None ->
  generation (f_floor (s_floor s)) <= generation (f_floor (s_floor s')) ->
  Fine slot (fun f => Out f \/ handing y = Some f) olds s'.
Proof.
  intros (Hs & Hh & Hg & HC & HO & Hold) Hm Ew Ec Hn Hs' Hh' Hle. rewrite <-Ew in Hle.
  assert (Claims slot (f_floor (s_floor s), f_claim (s_floor s), o)) as HC' by exact HC.
  pose proof (moves_ages _ _ _ _ Hm Hg) as Ha. unfold Fine. rewrite <-Ew, <-Ec.
  split; [done|]. split; [done|]. split; [exact (proj1 Ha)|].
  split. { intros c Hc. pose proof (moves_claims _ _ _ _ Hm HC' c) as H. unfold word, claimed in *. cbn in *.
    rewrite <-Ew. apply H. by rewrite Ec. }
  split.
  - intros Ho. destruct (decide (f_claim (s_floor s) = Some (f_floor (s_floor s)))) as [Eq|Ne].
    + pose proof (moves_owned _ _ _ _ Hm) as H1. unfold Owned in H1. cbn in H1. rewrite Eq in H1.
      destruct H1 as [_ [?|[_ ?]]]; auto. intros Hw. split; [|auto]. by destruct (HC (f_floor (s_floor s)) Eq) as [? _].
    + destruct (outbound (f_floor (s_floor s))) eqn:Eo.
      * destruct (moves_foreign _ _ _ _ Hm HC' (outbound_not_free _ Eo) Ne) as [E1 _]. cbn in E1.
        rewrite E1. right. left. destruct (HO eq_refl) as [?|?]; [congruence|done].
      * pose proof (moves_owned _ _ _ _ Hm) as H1. unfold Owned in H1. cbn in H1. rewrite Eo in H1.
        destruct H1 as [_ [?|[_ ?]]]; auto. done.
  - eapply Forall_impl; [|exact Hold]. intros f. by eapply old_young.
Qed.

Lemma fine_step `{Libm} slot Out olds s op s' out : Fine slot Out olds s -> plain_op op = true ->
  source_step s op = Some (s', out) -> generation (f_floor (s_floor s)) <= generation (f_floor (s_floor s')) ->
  Fine slot (fun f => Out f \/ ho_claim <$> out_handover out = Some f) olds s'.
Proof.
  intros HF Hp E Hle. pose proof HF as (Hs & Hh & _). destruct (step_moves s op s' out Hp Hh E) as (Hs' & Hh' & n & Hn & Hm).
  rewrite Hs in Hs', Hm. exact (fine_moves slot Out olds s s' n (s_handover s) _ HF Hm eq_refl eq_refl ltac:(lia) Hs' Hh' Hle).
Qed.
Lemma fine_handover `{Libm} slot Out olds s ho now s' out :
  Fine slot (fun f => Out f \/ f = ho_claim ho) olds s -> source_step s (CallHandover ho now) = Some (s', out) ->
  generation (f_floor (s_floor s)) <= generation (f_floor (s_floor s')) ->
  Fine slot (fun f => Out f \/ ho_claim <$> out_handover out = Some f) olds s'.
Proof.
  intros HF E Hle. pose proof HF as (Hs & Hh & Hg & HC & HO & Hold).
  destruct (handover_moves s ho now s' out Hh E) as (Hs' & Hh' & n & w & c & o & Hn & Hm & Hw & Hr). rewrite Hs in *.
  destruct Hw as [(-> & -> & Ho)|(Ec & Est & -> & -> & ->)].
  - specialize (Hr Ho). pose proof (fine_moves _ _ _ _ s' n o _ HF Hm eq_refl eq_refl ltac:(lia) Hs' Hh' Hle) as (F1 & F2 & F3 & F4 & F5 & F6).
    split_and!; try done. intros Hb. destruct (F5 Hb) as [?|[[?|?]|?]]; auto. right. right. rewrite Hr. cbn. by f_equal.
  - (* the floor goes on to this side *)
    set (w := next (ho_claim ho) Sending slot) in *.
    assert (ages 1 (f_floor (s_floor s)) w) as Hage by (unfold w; rewrite Ec; by apply ages_next, ages_refl).
    pose proof (moves_ages_from _ _ _ _ _ _ Hm Hage) as Ha. cbn [word fst] in Ha.
    assert (Claims slot (w, Some w, None)) as HCw by (intros c [= <-]; split; [done|by left]).
    split_and!; try done.
    + exact (proj1 Ha).
    + intros c Hc. exact (moves_claims _ _ _ _ Hm HCw c Hc).
    + intros Hb. pose proof (moves_owned _ _ _ _ Hm) as H1. unfold Owned in H1. cbn in H1.
      destruct H1 as [_ [?|[_ ?]]]; auto.
    + eapply Forall_impl; [|exact Hold]. intros f. eapply old_young; [exact Hg|exact Ha|lia|done].
Qed.

(** ** Route programs *)

Section RouteSafety.
Context `{Libm} `{CaptureControlI C} (elapsed : nat -> Z) (gen : Z).
Context (slot : Z) (Out : FloorSnapshot -> Prop) (olds : list FloorSnapshot).

(** [strong]: also when the program fails. *)
Definition keepR (strong : bool) {A} (m : Prog (Route C) A) : Prop :=
  forall r r' a, m r = Some (r', a) -> rt_wrapped r' = false ->
  rt_wrapped r = false
  /\ (Fine slot Out olds (rt_source r) -> strong = true \/ is_ok a = true -> Fine slot Out olds (rt_source r')).

Lemma keepR_same b {A} (m : Prog (Route C) A) :
  (forall r r' a, m r = Some (r', a) -> rt_wrapped r' = rt_wrapped r /\ rt_source r' = rt_source r) -> keepR b m.
Proof. intros Hm r r' a E Hw. destruct (Hm r r' a E) as [<- ->]. auto. Qed.
Lemma keepR_ret b {A} (a : A) : keepR b (p_ret a).
Proof. apply keepR_same. by intros r r' x [= <- <-]. Qed.
Lemma keepR_err b {A} e : keepR b (p_err e : Prog (Route C) A).
Proof. apply keepR_same. by intros r r' x [= <- <-]. Qed.
Lemma keepR_mod b f : (forall r : Route C, rt_wrapped (f r) = rt_wrapped r /\ rt_source (f r) = rt_source r) -> keepR b (p_mod f).
Proof. intros Hf. apply keepR_same. intros r r' x [= <- <-]. apply Hf. Qed.
Lemma keepR_bind b {A B} (m : Prog (Route C) A) (f : A -> Prog (Route C) B) :
  keepR b m -> (forall a, keepR b (f a)) -> keepR b (p_bind m f).
Proof.
  intros Hm Hf r r' a E Hw. unfold p_bind in E. destruct (m r) as [[r1 [x|e]]|] eqn:Em; [| |done]; cbn [mbind option_bind] in E.
  - destruct (Hf x r1 r' a E Hw) as [Hw1 H2]. destruct (Hm r r1 _ Em Hw1) as [Hw0 H1]. split; [done|]. auto.
  - injection E as <- <-. destruct (Hm r r1 _ Em Hw) as [Hw0 H1]. split; [done|]. intros HF Ho. auto.
Qed.
Lemma keepR_get b {B} (f : Route C -> Prog (Route C) B) : (forall a, keepR b (f a)) -> keepR b (p_bind p_get f).
Proof. intros Hf. apply keepR_bind; [|done]. apply keepR_same. by intros r r' x [= <- <-]. Qed.
Lemma keepR_clock b : keepR b (clock elapsed).
Proof. apply keepR_same. by intros r r' x [= <- <-]. Qed.
Lemma keepR_send b f : keepR b (send_outbound f).
Proof. by apply keepR_mod. Qed.
Lemma keepR_ask b f : keepR b (ask f).
Proof. apply keepR_same. intros r r' a. unfold ask. destruct (f (rt_capture r)) as [c x]. by intros [= <- <-]. Qed.
Lemma keepR_each b {A} (f : A -> Prog (Route C) ()) l : (forall a, keepR b (f a)) -> keepR b (p_each f l).
Proof. intros Hf. induction l as [|a l IH]; [apply keepR_ret|]. by apply keepR_bind. Qed.

Lemma keepR_budget b now : keepR b (lease_budget now).
Proof.
  intros r r' a E Hw. unfold lease_budget in E. destruct (suppression_budget (rt_source r) now) as [s ttl] eqn:Es.
  injection E as <- <-. cbn in Hw. apply orb_false_elim in Hw as [Hw E%Z.ltb_ge]. split; [done|]. intros HF _. cbn.
  pose proof (fine_step slot Out olds (rt_source r) (CallBudget now) s (mkOutcome [] (s_failure s) None) HF eq_refl) as H1.
  cbn [source_step] in H1. rewrite Es in H1. cbn [fst] in H1. specialize (H1 eq_refl E).
  destruct H1 as (F1 & F2 & F3 & F4 & F5 & F6). split_and!; try done. intros Hb. destruct (F5 Hb) as [?|[?|?]]; auto. done.
Qed.
(** A call whose handover is refused by what follows. *)
Lemma keepR_call {B} op (f : SourceOutcome -> Prog (Route C) B) :
  plain_op op = true -> (forall out, keepR false (f out)) ->
  (forall out r r' a, is_Some (out_handover out) -> f out r = Some (r', a) -> is_ok a = false) ->
  keepR false (p_bind (call op) f).
Proof.
  intros Hp Hf Hh r r' a E Hw. unfold p_bind, call in E.
  destruct (source_step (rt_source r) op) as [[s out]|] eqn:Es; [|done]. cbn [mbind option_bind] in E.
  match type of E with f out ?x = _ => set (r1 := x) in E end.
  destruct (Hf out r1 r' a E Hw) as [Hw1 H2]. cbn in Hw1. apply orb_false_elim in Hw1 as [Hw1 Hg%Z.ltb_ge]. split; [done|].
  intros HF Ho. destruct Ho as [?|Ho]; [done|]. apply H2; [|auto].
  pose proof (fine_step slot Out olds (rt_source r) op s out HF Hp Es Hg) as (F1 & F2 & F3 & F4 & F5 & F6).
  split_and!; try done. intros Hb. destruct (F5 Hb) as [?|[?|E1]]; auto.
  destruct (out_handover out) as [ho|] eqn:Eh; [|done]. rewrite (Hh out r1 r' a ltac:(rewrite Eh; eauto) E) in Ho. done.
Qed.

Lemma keepR_bind_route request ticket : keepR false (bind_route elapsed request ticket).
Proof.
  unfold bind_route. apply keepR_bind; [apply keepR_clock|]. intros t. apply keepR_bind; [by apply keepR_mod|]. intros _.
  apply keepR_bind; [apply keepR_clock|]. intros t'. apply keepR_call; [done| |].
  - intros out. destruct (out_failure out); [apply keepR_err|]. destruct (_ || _); [apply keepR_err|apply keepR_ret].
  - intros out r r' a Hh. destruct (out_failure out); [by intros [= <- <-]|].
    rewrite (bool_decide_eq_true_2 _ Hh), orb_true_r. by intros [= <- <-].
Qed.
Lemma keepR_unwind request : keepR false (unwind_route elapsed request).
Proof.
  unfold unwind_route. apply keepR_bind; [apply keepR_clock|]. intros t. apply keepR_call; [done| |].
  - intros out. destruct (out_failure out); [apply keepR_err|]. destruct (bool_decide _); [apply keepR_err|].
    apply keepR_bind; [|intros; apply keepR_ret]. apply keepR_each. intros []; [apply keepR_send|apply keepR_err..].
  - intros out r r' a Hh. destruct (out_failure out); [by intros [= <- <-]|].
    rewrite (bool_decide_eq_true_2 _ Hh). by intros [= <- <-].
Qed.
Lemma keepR_apply_route e : keepR false (apply_route elapsed gen e).
Proof.
  assert (forall b request answer, keepR false (settle_route elapsed b request answer)) as Hs.
  { intros b request [t|[]]; cbn; [apply keepR_bind_route|apply keepR_ret|..].
    - destruct b; [apply keepR_unwind|]. apply keepR_bind; [apply keepR_clock|]. intros t.
      apply keepR_call; [done|intros; apply keepR_err|by intros out r r' a _ [= <- <-]].
    - rewrite andb_false_r. apply keepR_bind; [apply keepR_clock|]. intros t.
      apply keepR_call; [done|intros; apply keepR_err|by intros out r r' a _ [= <- <-]]. }
  destruct e; cbn; [apply keepR_err|..].
  - apply keepR_bind; [apply keepR_clock|]. intros t. apply keepR_bind; [apply keepR_budget|]. intros ttl.
    apply keepR_bind; [apply keepR_ask|]. intros a. apply Hs.
  - apply keepR_bind; [apply keepR_ask|]. intros a. apply Hs.
Qed.
Lemma keepR_apply_effects l : keepR false (apply_effects elapsed gen l).
Proof.
  apply keepR_each. intros e. assert (keepR false (let! r := p_get in
      if bool_decide (is_Some (rt_pending r)) then p_err FailSource
      else let! settled := apply_route elapsed gen e in
           if settled then p_ret () else let! now := clock elapsed in p_mod (fun r => with_pending r (Some (e, now))))) as Hr.
  { apply keepR_get. intros r. destruct (bool_decide _); [apply keepR_err|]. apply keepR_bind; [apply keepR_apply_route|].
    intros []; [apply keepR_ret|]. apply keepR_bind; [apply keepR_clock|]. intros t. by apply keepR_mod. }
  destruct e; [apply keepR_send|exact Hr..].
Qed.
Lemma keepR_retry : keepR false (retry_pending elapsed gen).
Proof.
  apply keepR_get. intros r. destruct (rt_pending r) as [[e since]|]; [|apply keepR_ret].
  apply keepR_bind; [by apply keepR_mod|]. intros _. apply keepR_bind; [apply keepR_clock|]. intros t.
  destruct (_ <=? _); [apply keepR_err|]. apply keepR_bind; [apply keepR_apply_route|].
  intros []; [apply keepR_ret|by apply keepR_mod].
Qed.
Lemma keepR_renew : keepR true (renew_lease elapsed gen).
Proof.
  apply keepR_bind; [apply keepR_clock|]. intros t. apply keepR_bind; [apply keepR_budget|]. intros ttl.
  apply keepR_bind; [apply keepR_ask|]. intros [tk|[]]; [|apply keepR_ret|apply keepR_err..].
  apply keepR_bind; [apply keepR_clock|]. intros t'. apply keepR_bind; [by apply keepR_mod|intros; apply keepR_ret].
Qed.
End RouteSafety.

(** ** The invariant *)

Definition claim_of (l : PeerLink) : option FloorSnapshot := f_claim (s_floor (pl_source l)).
Definition LinkOk (i : nat) (floor : FloorSnapshot) (l : PeerLink) : Prop :=
  c_slot (s_config (pl_source l)) = slot_at i /\ s_handover (pl_source l) = None
  /\ (forall c, claim_of l = Some c -> Floor.peer c = slot_at i /\ Old floor c)
  /\ (link_is_ready l = false -> claim_of l = None)
  /\ (pl_joined l = true -> pl_confines l = false).
Definition Known (X : FloorSnapshot -> Prop) (h : HubCore) (f : FloorSnapshot) : Prop :=
  (exists i l, link_of h i = Some l /\ claim_of l = Some f)
  \/ (exists o, h_orphan h = Some o /\ or_claim o = f) \/ h_native h = NativeStopping \/ X f.
Definition HubOk (X : FloorSnapshot -> Prop) (h : HubCore) : Prop :=
  is_generation (h_floor h)
  /\ (forall i l, link_of h i = Some l -> LinkOk i (h_floor h) l)
  /\ (forall s, h_pending_slot h = Some s -> exists i l, s = slot_at i /\ link_of h i = Some l /\ link_is_ready l = true)
  /\ (outbound (h_floor h) = true -> Known X h (h_floor h)).
Definition ReadyAt (i : nat) (slots : list Slot) : Prop :=
  exists l, slots !! i = Some (Linked l) /\ link_is_ready l = true.

Lemma link_of_slot h i l : link_of h i = Some l <-> h_slots h !! i = Some (Linked l).
Proof. unfold link_of. destruct (h_slots h !! i) as [[]|]; naive_solver. Qed.
Lemma slot_at_inj i j : slot_at i = slot_at j -> i = j.
Proof. unfold slot_at. lia. Qed.

(** Fields the invariant does not read. *)
Lemma hub_ok_same X h h' : HubOk X h -> h_floor h' = h_floor h -> h_slots h' = h_slots h -> h_orphan h' = h_orphan h ->
  h_native h' = h_native h -> h_pending_slot h' = h_pending_slot h \/ h_pending_slot h' = None -> HubOk X h'.
Proof.
  intros (H1 & H2 & H3 & H4) Ef Es Eo En Ep. unfold HubOk, Known, link_of in *. rewrite Ef, Es, Eo, En.
  split_and!; try done. intros s Hs. destruct Ep as [Ep|Ep]; [|congruence]. apply H3. congruence.
Qed.
Lemma hub_ok_weaken (X Y : FloorSnapshot -> Prop) h : HubOk X h -> (forall f, X f -> Known Y h f) -> HubOk Y h.
Proof.
  intros (H1 & H2 & H3 & H4) HXY. split_and!; try done. intros Ho. destruct (H4 Ho) as [?|[?|[?|?]]]; [by left|by right; left|by right; right; left|auto].
Qed.

(** ** Programs of the hub *)

Section HubSafety.
Context `{Libm} `{CaptureControlI C} (elapsed : nat -> Z).

Definition hoare {A} (P : HubCore -> Prop) (m : Prog (World C) A) (Q : A -> HubCore -> Prop) : Prop :=
  forall w w' r, m w = Some (w', r) -> w_wrapped w' = false ->
  w_wrapped w = false /\ (P (w_hub w) -> match r with Ok a => Q a (w_hub w') | Err _ => True end).

Lemma h_ret {A} (P : HubCore -> Prop) (a : A) (Q : A -> HubCore -> Prop) : (forall h, P h -> Q a h) -> hoare P (p_ret a) Q.
Proof. intros Hq w w' r [= <- <-] Hw. auto. Qed.
Lemma h_err {A} P e (Q : A -> HubCore -> Prop) : hoare P (p_err e) Q.
Proof. intros w w' r [= <- <-] Hw. auto. Qed.
Lemma h_bind {A B} P (m : Prog (World C) A) (f : A -> Prog (World C) B) Q R :
  hoare P m Q -> (forall a, hoare (Q a) (f a) R) -> hoare P (p_bind m f) R.
Proof.
  intros Hm Hf w w' r E Hw. unfold p_bind in E. destruct (m w) as [[w1 [x|e]]|] eqn:Em; [| |done]; cbn [mbind option_bind] in E.
  - destruct (Hf x w1 w' r E Hw) as [Hw1 H2]. destruct (Hm w w1 _ Em Hw1) as [Hw0 H1]. split; [done|]. intros HP. exact (H2 (H1 HP)).
  - injection E as <- <-. destruct (Hm w w1 _ Em Hw) as [Hw0 H1]. auto.
Qed.
Lemma h_pre {A} (P P' : HubCore -> Prop) (m : Prog (World C) A) Q : (forall h, P h -> P' h) -> hoare P' m Q -> hoare P m Q.
Proof. intros Hp Hm w w' r E Hw. destruct (Hm w w' r E Hw) as [? H1]. split; [done|]. intros HP. exact (H1 (Hp _ HP)). Qed.
Lemma h_post {A} P (m : Prog (World C) A) (Q Q' : A -> HubCore -> Prop) : hoare P m Q -> (forall a h, Q a h -> Q' a h) -> hoare P m Q'.
Proof. intros Hm Hq w w' r E Hw. destruct (Hm w w' r E Hw) as [? H2]. split; [done|]. intros HP. specialize (H2 HP). destruct r; auto. Qed.
Lemma h_upd (P : HubCore -> Prop) f (Q : () -> HubCore -> Prop) : (forall h, P h -> Q () (f h)) -> hoare P (upd f) Q.
Proof. intros Hq w w' r [= <- <-] Hw. cbn in *. auto. Qed.
Lemma h_hub {B} (P : HubCore -> Prop) (f : HubCore -> Prog (World C) B) Q :
  (forall h, hoare (fun h' => h' = h /\ P h) (f h) Q) -> hoare P (p_bind hub f) Q.
Proof.
  intros Hf w w' r E Hw. unfold p_bind, hub in E. cbn [mbind option_bind] in E.
  destruct (Hf (w_hub w) w w' r E Hw) as [Hw0 H1]. split; [done|]. intros HP. apply H1. by split.
Qed.
Lemma h_now (P : HubCore -> Prop) : hoare P (now elapsed) (fun _ => P).
Proof. intros w w' r [= <- <-] Hw. auto. Qed.
Lemma h_capture (P : HubCore -> Prop) : hoare P capture (fun _ => P).
Proof. intros w w' r [= <- <-] Hw. auto. Qed.
Lemma h_put_capture (P : HubCore -> Prop) c : hoare P (put_capture c) (fun _ => P).
Proof. intros w w' r [= <- <-] Hw. auto. Qed.
Lemma h_lift {A} (P : HubCore -> Prop) (r : result SessionFailure A) : hoare P (p_lift r) (fun a h => P h /\ r = Ok a).
Proof. intros w w' x [= <- <-] Hw. split; [done|]. intros HP. by destruct r. Qed.
Lemma h_when (P : HubCore -> Prop) b m : (b = true -> hoare P m (fun _ => P)) -> hoare P (p_when b m) (fun _ => P).
Proof. intros Hm. destruct b; [by apply Hm|by apply h_ret]. Qed.
Lemma h_each {A} (P : HubCore -> Prop) (f : A -> Prog (World C) ()) l : (forall a, hoare P (f a) (fun _ => P)) -> hoare P (p_each f l) (fun _ => P).
Proof. intros Hf. induction l as [|a l IH]; [by apply h_ret|]. eapply h_bind; [apply Hf|intros; exact IH]. Qed.

(** *** Calls of a controller *)

(** The others, as the controller in slot [i] sees them. *)
Definition outside (X : FloorSnapshot -> Prop) (h : HubCore) (i : nat) (f : FloorSnapshot) : Prop :=
  (exists j l, j <> i /\ link_of h j = Some l /\ claim_of l = Some f)
  \/ (exists o, h_orphan h = Some o /\ or_claim o = f) \/ h_native h = NativeStopping \/ X f.
Definition all_claims (h : HubCore) : list FloorSnapshot :=
  omap (fun s => match s with Linked l => claim_of l | _ => None end) (h_slots h).
(** A link as it is handed to a call: its floor side is the one stored. *)
Definition stored (h : HubCore) (i : nat) (l : PeerLink) : Prop :=
  exists l0, link_of h i = Some l0 /\ c_slot (s_config (pl_source l)) = c_slot (s_config (pl_source l0))
    /\ s_handover (pl_source l) = s_handover (pl_source l0) /\ claim_of l = claim_of l0
    /\ link_is_ready l = link_is_ready l0 /\ pl_joined l = pl_joined l0 /\ pl_confines l = pl_confines l0.

Lemma stored_fine X (w : World C) i l : HubOk X (w_hub w) -> stored (w_hub w) i l ->
  Fine (slot_at i) (outside X (w_hub w) i) (all_claims (w_hub w)) (synced w l).
Proof.
  intros (H1 & H2 & H3 & H4) (l0 & El & E1 & E2 & E3 & E4 & _). destruct (H2 i l0 El) as (L1 & L2 & L3 & L4 & _).
  unfold Fine. change (f_floor (s_floor (synced w l))) with (h_floor (w_hub w)).
  change (f_claim (s_floor (synced w l))) with (claim_of l).
  split; [exact (eq_trans E1 L1)|]. split; [exact (eq_trans E2 L2)|]. split; [exact H1|].
  split. { intros c Hc. change (claim_of l = Some c) in Hc. rewrite E3 in Hc. destruct (L3 c Hc) as [? [->|?]]; auto. }
  split.
  - intros Ho. destruct (H4 Ho) as [(j & l' & Ej & Ec)|[?|[?|?]]]; [|right; right; auto..].
    destruct (decide (j = i)) as [->|Hne]; [|right; left; eauto]. left. rewrite E3. congruence.
  - apply list.Forall_forall. intros f Hf%list_elem_of_omap. destruct Hf as (sl & Hin%list_elem_of_lookup & Hs).
    destruct Hin as [j Ej]. destruct sl as [|l'|]; try done. apply link_of_slot in Ej. by destruct (H2 j l' Ej) as (_ & _ & L3' & _); apply L3'.
Qed.
Lemma fine_stored X h i l s v f : HubOk X h -> stored h i l ->
  (link_is_ready l = false -> f_claim (s_floor s) = None) ->
  Fine (slot_at i) (outside f h i) (all_claims h) s ->
  HubOk f (put_slots (put_floor h (f_floor (s_floor s))) (<[i := Linked (link_source l s v)]> (h_slots h))).
Proof.
  intros (H1 & H2 & H3 & H4) (l0 & El & _ & _ & _ & Er & Ej' & Ec') Hr (F1 & F2 & F3 & F4 & F5 & F6).
  set (h' := put_slots _ _). pose proof (proj1 (link_of_slot h i l0) El) as Es.
  assert (i < length (h_slots h))%nat as Hi by (by eapply lookup_lt_Some).
  assert (forall j, j <> i -> link_of h' j = link_of h j) as Hj by (intros j Hne; unfold link_of; cbn; by rewrite list_lookup_insert_ne).
  assert (link_of h' i = Some (link_source l s v)) as Hii by (unfold link_of; cbn; by rewrite list_lookup_insert_eq).
  split; [exact F3|]. split; [|split].
  - intros j l' E'. destruct (decide (j = i)) as [->|Hne].
    + rewrite Hii in E'. injection E' as <-. split; [exact F1|]. split; [exact F2|]. split; [|split; [exact Hr|]].
      2: { destruct (H2 i l0 El) as (_ & _ & _ & _ & L5). unfold link_source. cbn [pl_joined pl_confines]. by rewrite Ej', Ec'. }
      intros c Hc. destruct (F4 c Hc) as [? [->|?]]; [|by split; [|right]]. split; [done|by left].
    + rewrite (Hj j Hne) in E'. destruct (H2 j l' E') as (L1 & L2 & L3 & L4 & L5). split_and!; try done.
      intros c Hc. split; [by apply L3|]. assert (c ∈ all_claims h) as Hin; [|by apply (proj1 (list.Forall_forall _ _) F6)].
      apply list_elem_of_omap. exists (Linked l'). split; [|done]. apply list_elem_of_lookup. exists j. by apply link_of_slot.
  - intros sl Hs. destruct (H3 sl Hs) as (j & l' & -> & Ej & Hrd). destruct (decide (j = i)) as [->|Hne].
    + exists i, (link_source l s v). split_and!; try done. assert (l' = l0) as -> by congruence. change (link_is_ready l = true). by rewrite Er.
    + exists j, l'. by rewrite Hj.
  - intros Ho. destruct (F5 Ho) as [Hc|[(j & l' & Hne & Ej & Ec)|?]]; [left; eauto| |by right].
    left. exists j, l'. by rewrite Hj.
Qed.

Lemma ready_put h i l l' : stored h i l -> link_is_ready l' = true -> ReadyAt i (<[i := Linked l']> (h_slots h)).
Proof.
  intros (l0 & El & _) Hr. apply link_of_slot in El. exists l'. by rewrite list_lookup_insert_eq by (by eapply lookup_lt_Some).
Qed.
Definition after_call (X : FloorSnapshot -> Prop) (out : SourceOutcome) (f : FloorSnapshot) : Prop :=
  X f \/ ho_claim <$> out_handover out = Some f.
Lemma outside_or X h i (Y : FloorSnapshot -> Prop) f : outside X h i f \/ Y f -> outside (fun f => X f \/ Y f) h i f.
Proof. intros [[?|[?|[?|?]]]|?]; [by left|by right; left|by right; right; left|by do 3 right; left|by do 3 right; right]. Qed.
Lemma fine_out slot (O1 O2 : FloorSnapshot -> Prop) olds s : (forall f, O1 f -> O2 f) -> Fine slot O1 olds s -> Fine slot O2 olds s.
Proof. intros H12 (F1 & F2 & F3 & F4 & F5 & F6). split_and!; try done. intros Ho. destruct (F5 Ho); auto. Qed.

Lemma h_call X i l op : plain_op op = true ->
  hoare (fun h => HubOk X h /\ stored h i l /\ link_is_ready l = true) (call_source i l op)
    (fun out h => HubOk (after_call X out) h /\ ReadyAt i (h_slots h)).
Proof.
  intros Hp w w' r E Hw. unfold call_source in E. destruct (source_step _ op) as [[s' out]|] eqn:Es; [|done].
  cbn [mbind option_bind] in E. injection E as <- <-. cbn in Hw. apply orb_false_elim in Hw as [Hw Hg%Z.ltb_ge]. split; [done|].
  intros (HO & Hst & Hrd). pose proof (stored_fine X w i l HO Hst) as HF.
  pose proof (fine_step _ _ _ _ op s' out HF Hp Es Hg) as HF'. split.
  - eapply (fine_stored X _ i l s' _ _ HO Hst); [by rewrite Hrd|]. eapply fine_out; [|exact HF']. intros f Hf. exact (outside_or X _ i (fun f => ho_claim <$> out_handover out = Some f) f Hf).
  - by eapply ready_put.
Qed.
Lemma h_call_handover X i l ho t :
  hoare (fun h => HubOk (fun f => X f \/ f = ho_claim ho) h /\ stored h i l /\ link_is_ready l = true) (call_source i l (CallHandover ho t))
    (fun out h => HubOk (after_call X out) h /\ ReadyAt i (h_slots h)).
Proof.
  intros w w' r E Hw. unfold call_source in E. destruct (source_step _ _) as [[s' out]|] eqn:Es; [|done].
  cbn [mbind option_bind] in E. injection E as <- <-. cbn in Hw. apply orb_false_elim in Hw as [Hw Hg%Z.ltb_ge]. split; [done|].
  intros (HO & Hst & Hrd). pose proof (stored_fine _ w i l HO Hst) as HF.
  assert (Fine (slot_at i) (fun f => outside X (w_hub w) i f \/ f = ho_claim ho) (all_claims (w_hub w)) (synced w l)) as HF1.
  { eapply fine_out; [|exact HF]. intros f [?|[?|[?|[?|?]]]]; [left; by left|left; by right; left|left; by right; right; left|left; by do 3 right|by right]. }
  pose proof (fine_handover _ _ _ _ ho t s' out HF1 Es Hg) as HF'. split.
  - eapply (fine_stored _ _ i l s' _ _ HO Hst); [by rewrite Hrd|]. eapply fine_out; [|exact HF']. intros f Hf. exact (outside_or X _ i (fun f => ho_claim <$> out_handover out = Some f) f Hf).
  - by eapply ready_put.
Qed.
Lemma h_on_route X i l c strong {A} (m : Prog (Route (Issuing C)) A) :
  (forall Out olds, keepR (slot_at i) Out olds strong m) ->
  hoare (fun h => HubOk X h /\ stored h i l /\ link_is_ready l = true) (on_route i l c m)
    (fun '(r, _) h => (strong = true \/ is_ok r = true -> HubOk X h) /\ ReadyAt i (h_slots h)).
Proof.
  intros Hm w w' r E Hw. unfold on_route in E. destruct (m _) as [[rt a]|] eqn:Em; [|done].
  cbn [mbind option_bind] in E. injection E as <- <-. cbn in Hw.
  destruct (Hm (outside X (w_hub w) i) (all_claims (w_hub w)) _ _ _ Em Hw) as [Hw0 HF']. split; [exact Hw0|].
  intros (HO & Hst & Hrd). cbn [rt_source] in HF'. specialize (HF' (stored_fine X w i l HO Hst)). split.
  - intros Ho. specialize (HF' Ho). eapply hub_ok_same; [by eapply (fine_stored X _ i l (rt_source rt) (rt_view rt) _ HO Hst); [rewrite Hrd|]|..]; auto.
  - by eapply ready_put.
Qed.
End HubSafety.
