(* ===== verification/HubFloor.v ===== *)
(** * The hub keeps its floor (monhop-transport/src/session_group.rs)

    [HubOk] across every entry point of the hub: restores, links that end, outcomes
    of controllers, links that start, and the events of capture and destination. *)

From stdpp Require Import gmap sorting.
From S2P Require Import CaptureEvent CaptureQueue CapturePhysical.
From S2P Require Import Prelude F64 Types Geometry Topology Floor Messages Sequence Ownership Clicks.
From S2P Require Import SessionPacer SessionHealth SessionQuality SourceEdges SourceState HeldInput.
From S2P Require Import Source SourceKept SourceStream SourceSafety SourceRemote SourceCalls SourceSystem SourceFloor.
From S2P Require Import SessionStartup CaptureLease CaptureStream CaptureRoute Hub HubSafety.

(** ** Changes of the core *)

Lemma hub_ok_links (X Y : FloorSnapshot -> Prop) h h' : HubOk X h -> h_floor h' = h_floor h ->
  (forall i, link_of h' i = link_of h i) -> h_pending_slot h' = h_pending_slot h \/ h_pending_slot h' = None ->
  (outbound (h_floor h) = true -> Known X h (h_floor h) -> Known Y h' (h_floor h)) -> HubOk Y h'.
Proof.
  intros (H1 & H2 & H3 & H4) Ef Hl Ep HK. unfold HubOk. rewrite Ef. split; [done|].
  split; [intros i l; rewrite Hl; apply H2|]. split; [|auto].
  intros s Hs. destruct Ep as [Ep|Ep]; [|congruence]. rewrite Ep in Hs. destruct (H3 s Hs) as (i & l & ? & ? & ?).
  exists i, l. by rewrite Hl.
Qed.
Lemma hub_ok_known (X Y : FloorSnapshot -> Prop) h h' : HubOk X h -> h_floor h' = h_floor h -> h_slots h' = h_slots h ->
  h_pending_slot h' = h_pending_slot h \/ h_pending_slot h' = None ->
  (outbound (h_floor h) = true -> Known X h (h_floor h) -> Known Y h' (h_floor h)) -> HubOk Y h'.
Proof. intros HO Ef Es. apply (hub_ok_links X Y h h' HO Ef). intros i. unfold link_of. by rewrite Es. Qed.
Lemma known_more (X Y : FloorSnapshot -> Prop) h f : Known X h f -> (X f -> Known Y h f) -> Known Y h f.
Proof. intros [?|[?|[?|?]]] HX; [by left|by right; left|by right; right; left|auto]. Qed.
Lemma hub_ok_more (X Y : FloorSnapshot -> Prop) h : HubOk X h -> (forall f, X f -> Y f) -> HubOk Y h.
Proof. intros HO HXY. eapply hub_ok_weaken; [exact HO|]. intros f Hf. right. right. right. auto. Qed.
Lemma hub_ok_with (X Y : FloorSnapshot -> Prop) h : HubOk X h -> Y (h_floor h) -> HubOk Y h.
Proof.
  intros HO HY. eapply (hub_ok_known X); [exact HO|done|done|by left|]. intros _ _. by right; right; right.
Qed.

Lemma hub_ok_native X h n : HubOk X h -> h_native h <> NativeStopping -> HubOk X (put_native h n).
Proof.
  intros HO Hn. eapply (hub_ok_known X); [exact HO|done|done|by left|]. intros _ [?|[?|[?|?]]]; [by left|by right; left|done|by right; right; right].
Qed.
Lemma index_of_slot s i : index_of s = Some i -> s = slot_at i.
Proof.
  unfold index_of, checked_sub. case_match eqn:E; [|done]. destruct (_ <? _)%nat; [|done]. intros [= <-]. unfold slot_at.
  repeat case_match; simplify_eq; bool_inv. lia.
Qed.

(** A floor that nobody is sending on needs no owner. *)
Lemma hub_ok_floor (X Y : FloorSnapshot -> Prop) h f : HubOk X h -> ages 1 (h_floor h) f ->
  generation (h_floor h) <= generation f -> outbound f = false -> HubOk Y (put_floor h f).
Proof.
  intros (H1 & H2 & H3 & H4) Ha Hg Ho. split; [exact (proj1 Ha)|]. split; [|split; [exact H3|]].
  - intros i l E. destruct (H2 i l E) as (L1 & L2 & L3 & L4 & L5). split_and!; try done. intros c Hc. destruct (L3 c Hc) as [? HOld].
    split; [done|]. by eapply old_young; [exact H1|exact Ha|lia|exact Hg|].
  - change (outbound f = true -> Known Y (put_floor h f) f). by rewrite Ho.
Qed.
Lemma freed_ages w : is_generation w -> ages 1 w (freed w).
Proof. intros Hw. exact (ages_next 0 w w Free PEER_NONE (ages_refl w Hw)). Qed.

(** Slots: a link with the same floor side, and slots without a link. *)
Lemma link_put h i s j : (i < length (h_slots h))%nat ->
  link_of (put_slots h (<[i := s]> (h_slots h))) j
  = if decide (j = i) then match s with Linked l => Some l | _ => None end else link_of h j.
Proof.
  intros Hi. unfold link_of. cbn [h_slots put_slots]. destruct (decide (j = i)) as [->|Hne].
  - by rewrite list_lookup_insert_eq.
  - by rewrite list_lookup_insert_ne.
Qed.
Lemma hub_ok_link X h i l l0 : HubOk X h -> link_of h i = Some l0 -> LinkOk i (h_floor h) l -> claim_of l = claim_of l0 ->
  (link_is_ready l0 = true -> link_is_ready l = true) ->
  HubOk X (put_slots h (<[i := Linked l]> (h_slots h))).
Proof.
  intros (H1 & H2 & H3 & H4) El HL Ec Hr.
  assert (i < length (h_slots h))%nat as Hi by (apply link_of_slot in El; by eapply lookup_lt_Some).
  split; [done|]. split; [|split].
  - intros j l'. rewrite (link_put h i _ j Hi). destruct (decide (j = i)) as [->|]; [|apply H2]. by intros [= <-].
  - intros s Hs. destruct (H3 s Hs) as (j & l' & -> & Ej & Hrd). destruct (decide (j = i)) as [->|Hne].
    + exists i, l. rewrite (link_put h i _ i Hi), decide_True by done. split_and!; try done. apply Hr. congruence.
    + exists j, l'. by rewrite (link_put h i _ j Hi), decide_False.
  - intros Ho. destruct (H4 Ho) as [(j & l' & Ej & Ecj)|?]; [|by right]. left. destruct (decide (j = i)) as [->|Hne].
    + exists i, l. rewrite (link_put h i _ i Hi), decide_True by done. split; [done|]. assert (l' = l0) as -> by congruence. rewrite Ec. exact Ecj.
    + exists j, l'. by rewrite (link_put h i _ j Hi), decide_False.
Qed.
Definition not_linked (s : Slot) : Prop := match s with Linked _ => False | _ => True end.
(** A slot is given up: its claim is in hand, and no route waits for it. *)
Lemma hub_ok_unlink (X : FloorSnapshot -> Prop) h i s : HubOk X h -> not_linked s -> h_pending_slot h = None ->
  HubOk (fun f => X f \/ Floor.peer f = slot_at i) (put_slots h (<[i := s]> (h_slots h))).
Proof.
  intros (H1 & H2 & H3 & H4) Hs Hp. destruct (decide (i < length (h_slots h))%nat) as [Hi|Hi].
  2: { rewrite list_insert_ge by lia. change (put_slots h (h_slots h)) with h. eapply hub_ok_more; [by split_and!|]. auto. }
  assert (forall j, link_of (put_slots h (<[i := s]> (h_slots h))) j = if decide (j = i) then None else link_of h j) as Hl.
  { intros j. rewrite (link_put h i s j Hi). by destruct s. }
  split; [done|]. split; [|split].
  - intros j l'. rewrite Hl. destruct (decide (j = i)); [done|]. apply H2.
  - cbn. congruence.
  - intros Ho. destruct (H4 Ho) as [(j & l' & Ej & Ecj)|[?|[?|?]]].
    + destruct (decide (j = i)) as [->|Hne].
      * do 4 right. by destruct (H2 i l' Ej) as (_ & _ & L3 & _); apply L3.
      * left. exists j, l'. by rewrite Hl, decide_False.
    + by right; left.
    + by right; right; left.
    + by do 3 right; left.
Qed.
Lemma hub_ok_vacant X h i s : HubOk X h -> link_of h i = None -> not_linked s ->
  HubOk X (put_slots h (<[i := s]> (h_slots h))).
Proof.
  intros (H1 & H2 & H3 & H4) El Hs. destruct (decide (i < length (h_slots h))%nat) as [Hi|Hi].
  2: { rewrite list_insert_ge by lia. by split_and!. }
  assert (forall j, link_of (put_slots h (<[i := s]> (h_slots h))) j = link_of h j) as Hl.
  { intros j. rewrite (link_put h i s j Hi). destruct (decide (j = i)) as [->|]; [|done]. rewrite El. by destruct s. }
  split; [done|]. split; [intros j l'; rewrite Hl; apply H2|]. split.
  - intros sl Hsl. destruct (H3 sl Hsl) as (j & l' & -> & Ej & Hrd). exists j, l'. by rewrite Hl.
  - intros Ho. destruct (H4 Ho) as [(j & l' & Ej & Ecj)|?]; [|by right]. left. exists j, l'. by rewrite Hl.
Qed.
Lemma hub_ok_reachable X h : HubOk X h -> HubOk X (refresh_reachable h).
Proof.
  intros (H1 & H2 & H3 & H4). set (ps := ready_peers h).
  assert (forall j, link_of (refresh_reachable h) j = (fun l =>
    if link_is_ready l then link_source l (Source.set_reachable (pl_source l) (filter (fun p => p <> pl_peer l) ps)) (pl_view l) else l) <$> link_of h j) as Hl.
  { intros j. unfold link_of, refresh_reachable. cbn [h_slots put_slots]. rewrite list_lookup_fmap.
    destruct (h_slots h !! j) as [[|l|]|]; try done. cbn. fold ps. by destruct (link_is_ready l) eqn:E; rewrite ?E. }
  assert (forall j l, link_of h j = Some l -> exists l', link_of (refresh_reachable h) j = Some l' /\ claim_of l' = claim_of l
    /\ link_is_ready l' = link_is_ready l) as Hk.
  { intros j l E. eexists. split; [rewrite Hl, E; reflexivity|]. cbn beta. by destruct (link_is_ready l) eqn:Er. }
  split; [done|]. split; [|split].
  - intros j l'. rewrite Hl. destruct (link_of h j) as [l|] eqn:E; [|done]. intros [= <-]. specialize (H2 j l E). by destruct (link_is_ready l) eqn:Er.
  - intros s Hs. destruct (H3 s Hs) as (j & l & -> & Ej & Hrd). destruct (Hk j l Ej) as (l' & ? & _ & Hr). exists j, l'. by rewrite Hr.
  - intros Ho. destruct (H4 Ho) as [(j & l & Ej & Ecj)|?]; [|by right]. left. destruct (Hk j l Ej) as (l' & ? & Hc & _). exists j, l'. by rewrite Hc.
Qed.

(** ** Controllers as they are made *)

Definition unowned (s : SourceController) : Prop := f_claim (s_floor s) = None /\ s_handover s = None.
Lemma new_source_unowned t m d e q now b sp s : new_source t m d e q now b sp = Ok s -> unowned s.
Proof.
  unfold new_source. destruct (Topology.display t d); [|done]. destruct (negb _); [done|]. destruct (new_ownership _ _); [|done].
  by intros [= <-].
Qed.
Lemma after_startup_unowned t m d c b sp s : after_startup t m d c b sp = Ok s -> unowned s.
Proof.
  unfold after_startup. destruct (check _ _) as [hl []]; [|done]. destruct (new_source _ _ _ _ _ _ _ _) as [s'|] eqn:E; [|done].
  intros [= <-]. exact (new_source_unowned _ _ _ _ _ _ _ _ s' E).
Qed.
(** The controller of a slot, on the hub's floor and with what the hub holds. *)
Definition Seated (slot : Z) (s : SourceController) : Prop := c_slot (s_config s) = slot /\ unowned s.
Lemma with_peer_seated s f b p slot s' : unowned s -> with_peer (with_floor s f b) p slot = Ok s' -> Seated slot s'.
Proof. intros Hu. unfold with_peer. destruct (_ || _); [done|]. intros [= <-]. by split. Qed.
Lemma seed_seated slot s keys buttons route cr s' r :
  Seated slot s -> seed_from_group s keys buttons route cr = (s', r) -> Seated slot s'.
Proof. intros Hs. unfold seed_from_group. repeat case_match; intros [= <- <-]; exact Hs. Qed.
Lemma seated_ok i floor l : Seated (slot_at i) (pl_source l) -> (pl_joined l = true -> pl_confines l = false) -> LinkOk i floor l.
Proof. intros (Hs & Hc & Hh) Hj. unfold LinkOk, claim_of. rewrite Hc. by split_and!. Qed.

(** ** Programs *)

Section HubFloor.
Context `{Libm} `{CaptureControlI C} (elapsed : nat -> Z).

Lemma h_leave (P : HubCore -> Prop) f (Q : () -> HubCore -> Prop) :
  (forall h, P h -> generation (h_floor h) <= generation f -> Q () (put_floor h f)) -> hoare (C:=C) P (leave_floor f) Q.
Proof.
  intros Hq w w' r [= <- <-] Hw. cbn in Hw. apply orb_false_elim in Hw as [Hw Hg%Z.ltb_ge]. split; [done|]. intros HP. by apply Hq.
Qed.
Lemma h_world {B} (P : HubCore -> Prop) (f : World C -> Prog (World C) B) Q :
  (forall w, hoare (fun h' => h' = w_hub w /\ P h') (f w) Q) -> hoare P (p_bind p_get f) Q.
Proof.
  intros Hf w w' r E Hw. unfold p_bind, p_get in E. cbn [mbind option_bind] in E.
  destruct (Hf w w w' r E Hw) as [Hw0 H1]. split; [done|]. intros HP. apply H1. by split.
Qed.
Lemma h_seq {A B} (P : HubCore -> Prop) Q (m : Prog (World C) A) (k : Prog (World C) B) R :
  hoare P m (fun _ => Q) -> hoare Q k R -> hoare P (p_bind m (fun _ => k)) R.
Proof. intros Hm Hk. eapply h_bind; [exact Hm|intros; exact Hk]. Qed.
Lemma h_same (P : HubCore -> Prop) f : (forall h, P h -> P (f h)) -> hoare (C:=C) P (upd f) (fun _ => P).
Proof. intros Hf. by apply h_upd. Qed.

(** A step that may panic. *)
Lemma h_option {A B} (P : HubCore -> Prop) (m : option A) (f : A -> Prog (World C) B) Q :
  (forall a, m = Some a -> hoare P (f a) Q) -> hoare P (fun w => m ≫= fun a => f a w) Q.
Proof. intros Hf w w' r E Hw. destruct m as [a|]; [|done]. exact (Hf a eq_refl w w' r E Hw). Qed.

(** The invariant, with a fact of the slots that stays. *)
Definition keeps (S : list Slot -> Prop) (X : FloorSnapshot -> Prop) (h : HubCore) : Prop := HubOk X h /\ S (h_slots h).
Lemma h_quiet S X f : (forall h, h_floor (f h) = h_floor h /\ h_slots (f h) = h_slots h /\ h_orphan (f h) = h_orphan h
    /\ h_native (f h) = h_native h /\ (h_pending_slot (f h) = h_pending_slot h \/ h_pending_slot (f h) = None)) ->
  hoare (C:=C) (keeps S X) (upd f) (fun _ => keeps S X).
Proof.
  intros Hf. apply h_same. intros h [HO HS]. destruct (Hf h) as (E1 & E2 & E3 & E4 & E5). split; [|by rewrite E2].
  by eapply hub_ok_same.
Qed.
Lemma h_action S X a : hoare (C:=C) (keeps S X) (push_action a) (fun _ => keeps S X).
Proof. apply h_quiet. intros h. split_and!; auto. Qed.

Lemma h_hold S X claim p t :
  hoare (keeps S (fun f => X f \/ f = claim)) (hold_orphan (C:=C) elapsed claim p t) (fun _ => keeps S X).
Proof.
  apply h_hub. intros h. destruct (bool_decide _) eqn:E; [apply h_err|]. apply bool_decide_eq_false in E.
  eapply h_bind; [apply h_now|]. intros t0. apply h_upd. intros h' [-> [HO HS]]. split; [|done].
  eapply hub_ok_known; [exact HO|done|done|by left|]. intros _ [?|[(o & Eo & _)|[?|[?| ->]]]].
  - by left.
  - destruct E. rewrite Eo. eauto.
  - by right; right; left.
  - by right; right; right.
  - right; left. eauto.
Qed.
Lemma h_submit S X : hoare (keeps S X) (submit_orphan (C:=C) elapsed) (fun _ => keeps S X).
Proof.
  eapply h_bind; [apply h_now|]. intros t. apply h_hub. intros h. destruct (h_orphan h) as [o|] eqn:Eo; [|apply h_ret; by intros ? [-> ?]].
  destruct (bool_decide _); [apply h_ret; by intros ? [-> ?]|]. eapply h_bind; [apply h_capture|]. intros [c|]; [|apply h_err].
  destruct (restore_local_at c (h_generation h) (or_position o)) as [c' r]. eapply h_seq; [apply h_put_capture|].
  destruct r as [ticket|[]]; [|apply h_ret; by intros ? [-> ?]|apply h_err..].
  apply h_upd. intros h' [-> [HO HS]]. split; [|done]. eapply hub_ok_known; [exact HO|done|done|by left|].
  intros _ [?|[(o' & Eo' & Ec)|?]]; [by left| |by right; right]. right. left. rewrite Eo in Eo'. injection Eo' as <-. by eexists.
Qed.
Lemma h_restore S X claim p :
  hoare (keeps S (fun f => X f \/ f = claim)) (orphan_restore (C:=C) elapsed claim p) (fun _ => keeps S X).
Proof. eapply h_seq; [apply h_hold|apply h_submit]. Qed.

Lemma h_floor_home S X i restore issued :
  hoare (keeps S (fun f => X f \/ Floor.peer f = slot_at i)) (floor_home (C:=C) elapsed i restore issued) (fun _ => keeps S X).
Proof.
  apply h_hub. intros h. cbv zeta. set (orphaned := match h_orphan h with Some _ => _ | None => _ end).
  destruct (negb orphaned && (Floor.peer (h_floor h) =? slot_at i) && _) eqn:Ec.
  - apply andb_prop in Ec as [[Hno Hp%Z.eqb_eq]%andb_prop Hout].
    assert (forall h', h' = h /\ keeps S (fun f => X f \/ Floor.peer f = slot_at i) h -> keeps S (fun f => X f \/ f = h_floor h) h') as Hpre.
    { intros h' [-> [HO HS]]. split; [|done]. eapply hub_ok_with; [exact HO|]. auto. }
    assert (hoare (fun h' => h' = h /\ keeps S (fun f => X f \/ Floor.peer f = slot_at i) h)
      (let remote := fst (h_route h) || bool_decide (is_Some issued) in
       match (match restore with Some p => Some p | None => if remote then Some (home_origin h) else None end) with
        | Some position => orphan_restore elapsed (h_floor h) position
        | None =>
            upd (fun h => put_local_requested h false);!
            leave_floor (FloorSpec.step (h_floor h) (OpReleasePeer (slot_at i) (Floor.generation (h_floor h))))
        end) (fun _ => keeps S X)) as Hrest; [|destruct issued as [[sl ticket []]|]; [|exact Hrest..]; eapply h_pre; [exact Hpre|apply h_hold]].
    cbv zeta. destruct (match restore with Some p => Some p | None => _ end) as [p|]; [eapply h_pre; [exact Hpre|apply h_restore]|].
    eapply (h_seq _ (fun h' => h' = put_local_requested h false /\ keeps S (fun f => X f \/ Floor.peer f = slot_at i) h)).
    { apply h_upd. by intros h' [-> ?]. }
    apply h_leave. intros h' [-> [HO HS]] Hg.
    unfold FloorSpec.step, FloorSpec.edge in *. rewrite Hp, !Z.eqb_refl in *.
    assert (negb (slot_at i =? PEER_NONE) = true) as E1 by (unfold slot_at, PEER_NONE; apply negb_true_iff, Z.eqb_neq; lia).
    rewrite E1 in *. cbn [andb default from_option] in *.
    change (keeps S X (put_local_requested (put_floor h (freed (h_floor h))) false)).
    eapply hub_ok_floor in HO as HF; [|by apply freed_ages, HO|exact Hg|done].
    split; [|done]. eapply hub_ok_same; [exact HF|done..|by left].
  - apply h_ret. intros h' [-> [HO HS]]. split; [|done]. eapply hub_ok_known; [exact HO|done|done|by left|].
    intros Hout HK. eapply known_more; [exact HK|]. intros [?|Hp]; [by right; right; right|].
    rewrite Hp, Z.eqb_refl, andb_true_r in Ec. apply andb_false_iff in Ec as [Ho|Hn].
    + apply negb_false_iff in Ho. subst orphaned. destruct (h_orphan h) as [o|] eqn:Eo; [|done]. right. left. exists o. split; [done|].
      by apply bool_decide_eq_true in Ho.
    + unfold outbound in Hout. congruence.
Qed.

(** *** A link that ends *)

Lemma h_stop S X : hoare (keeps S X) (stop_with_last (C:=C)) (fun _ => keeps S X).
Proof.
  apply h_hub. intros h. destruct (_ && _); [|apply h_ret; by intros ? [-> ?]].
  eapply h_seq; [|apply h_action]. apply h_upd. intros h' [-> [HO HS]]. split; [|done].
  eapply hub_ok_known; [exact HO|done|done|by right|]. intros _ _. by right; right; left.
Qed.
(** The core while a route may still wait for the slot [i]. *)
Definition ending (i : nat) (X : FloorSnapshot -> Prop) (h : HubCore) : Prop :=
  HubOk X (put_pending_slot h None) /\ link_of h i = None
  /\ (forall s, h_pending_slot h = Some s -> s = slot_at i
       \/ exists j l, s = slot_at j /\ link_of h j = Some l /\ link_is_ready l = true).
Definition vacant (i : nat) (slots : list Slot) : Prop := forall l, slots !! i <> Some (Linked l).
Lemma vacant_link h i : vacant i (h_slots h) <-> link_of h i = None.
Proof. unfold vacant, link_of. destruct (h_slots h !! i) as [[]|]; naive_solver. Qed.

Lemma h_end_link X i r restore : hoare (HubOk X) (end_link (C:=C) elapsed i r restore) (fun _ => HubOk X).
Proof.
  eapply (h_bind _ _ _ (fun l h => HubOk X h /\ link_of h i = l)).
  { apply h_hub. intros h. apply h_ret. by intros ? [-> ?]. }
  intros [l|]; [|apply h_ret; by intros ? []].
  set (X' := fun f => X f \/ Floor.peer f = slot_at i).
  eapply (h_seq _ (ending i X')).
  { apply h_upd. intros h [HO El]. pose proof HO as (_ & _ & H3 & _). split_and!.
    - change (HubOk X' (put_slots (put_pending_slot h None) (<[i:=Empty]> (h_slots (put_pending_slot h None))))).
      apply hub_ok_unlink; [|done|done]. eapply hub_ok_same; [exact HO|done..|by right].
    - rewrite link_put by (apply link_of_slot in El; by eapply lookup_lt_Some). by rewrite decide_True.
    - intros s Hs. destruct (H3 s Hs) as (j & l' & -> & Ej & Hr). destruct (decide (j = i)) as [->|Hne]; [by left|].
      right. exists j, l'. rewrite link_put by (apply link_of_slot in El; by eapply lookup_lt_Some). by rewrite decide_False. }
  eapply h_bind; [apply h_now|]. intros t. apply h_world. intros w.
  pose proof (abandon_floor (synced w l) t) as Ea. destruct (abandon (synced w l) t) as [s ab]. cbn [fst] in Ea.
  change (f_floor (s_floor (synced w l))) with (h_floor (w_hub w)) in Ea. rewrite Ea.
  eapply (h_seq _ (ending i X')). { apply h_leave. by intros h [-> ?] _. }
  cbv zeta. set (home := match restore with Some p => Some p | None => _ end). apply h_hub. intros h.
  eapply (h_seq _ (keeps (vacant i) X')).
  { destruct (bool_decide (h_pending_slot h = Some (slot_at i))) eqn:Ep; cbn [p_when].
    - apply h_upd. intros h' [-> (HO & El & Hp)]. split; [|by apply vacant_link]. eapply hub_ok_same; [exact HO|done..|by left].
    - apply h_ret. intros h' [-> (HO & El & Hp)]. split; [|by apply vacant_link]. apply bool_decide_eq_false in Ep.
      destruct HO as (H1 & H2 & H3 & H4). split_and!; try done. intros s' Hs. destruct (Hp s' Hs) as [->|?]; [congruence|done]. }
  set (issued := match h_issuer h with Some _ => _ | None => _ end).
  eapply (h_seq _ (keeps (vacant i) X')). { apply h_when. intros _. apply h_quiet. intros h'. split_and!; auto. }
  eapply (h_seq _ (keeps (vacant i) X)); [apply h_floor_home|].
  eapply h_seq; [apply h_action|].
  eapply (h_seq _ (keeps (fun _ => True) X)).
  { destruct (pl_joined l).
    - eapply h_seq; [|apply h_action]. apply h_upd. intros h' [HO HS%vacant_link]. split; [|done]. by apply hub_ok_vacant.
    - eapply h_post; [apply h_action|]. by intros _ h' [HO _]. }
  eapply (h_seq _ (keeps (fun _ => True) X)). { apply h_upd. intros h' [HO _]. split; [|done]. by apply hub_ok_reachable. }
  eapply h_post; [apply h_stop|]. by intros _ h' [HO _].
Qed.

(** *** Outcomes of controllers *)

Definition any (slots : list Slot) : Prop := True.
Lemma h_any {A} X (m : Prog (World C) A) : hoare (keeps any X) m (fun _ => keeps any X) -> hoare (HubOk X) m (fun _ => HubOk X).
Proof. intros Hm. eapply h_pre; [|eapply h_post; [exact Hm|]]; [by split|by intros a h []]. Qed.
Lemma h_quiet_ X f : (forall h, h_floor (f h) = h_floor h /\ h_slots (f h) = h_slots h /\ h_orphan (f h) = h_orphan h
    /\ h_native (f h) = h_native h /\ (h_pending_slot (f h) = h_pending_slot h \/ h_pending_slot (f h) = None)) ->
  hoare (C:=C) (HubOk X) (upd f) (fun _ => HubOk X).
Proof. intros Hf. by apply h_any, h_quiet. Qed.
Lemma h_action_ X a : hoare (C:=C) (HubOk X) (push_action a) (fun _ => HubOk X).
Proof. apply h_any, h_action. Qed.
Lemma stored_refl h i l : link_of h i = Some l -> stored h i l.
Proof. intros El. by exists l. Qed.

Lemma h_settle_effects X i effects failure :
  hoare (keeps (ReadyAt i) X) (settle_effects (C:=C) elapsed i effects failure) (fun _ => HubOk X).
Proof.
  destruct failure as [f|]; cbn [settle_effects]; [eapply h_pre; [|apply h_end_link]; by intros h []|].
  destruct (bool_decide _); [apply h_ret; by intros h []|].
  eapply (h_bind _ _ _ (fun l h => keeps (ReadyAt i) X h /\ link_of h i = l)).
  { apply h_hub. intros h. apply h_ret. by intros ? [-> ?]. }
  intros [l|]; [|apply h_ret; by intros h [[] _]]. eapply h_bind; [apply h_capture|]. intros [c|].
  2: { eapply h_pre; [|apply (h_each (HubOk X)); intros []; [apply h_action_|apply h_err..]]. by intros h [[] _]. }
  apply h_hub. intros h. eapply (h_bind _ _ _ (fun '(r, _) h' => is_ok r = true -> keeps (ReadyAt i) X h')).
  { eapply h_pre; [|eapply h_post; [apply (h_on_route X i l c false); intros; apply keepR_apply_effects|]].
    - intros h' [-> [[HO HR] El]]. split; [done|]. split; [by apply stored_refl|]. destruct HR as (l' & E' & Hr).
      apply link_of_slot in E'. congruence.
    - intros [r issued] h' [Hr HR] Ho. split; auto. }
  intros [r issued]. eapply (h_seq _ (keeps (ReadyAt i) X)).
  { eapply h_post; [apply h_lift|]. intros a h' [Hh ->]. by apply Hh. }
  eapply (h_seq _ (keeps (ReadyAt i) X)).
  { destruct issued as [[ticket local]|]; [|by apply h_ret]. apply h_quiet. intros h'. split_and!; auto. }
  apply h_hub. intros h2. destruct (_ && _); [|apply h_ret; by intros ? [-> []]].
  apply h_upd. intros h' [-> [HO (l' & El & Hr)]]. destruct HO as (H1 & H2 & H3 & H4). split_and!; try done.
  intros s [= <-]. exists i, l'. split_and!; try done. by apply link_of_slot.
Qed.

Lemma after_none X out f : out_handover out = None -> after_call X out f -> X f.
Proof. intros E [?|Hf]; [done|]. by rewrite E in Hf. Qed.
Lemma after_some X out ho f : out_handover out = Some ho -> after_call X out f -> X f \/ f = ho_claim ho.
Proof. intros E [?|Hf]; [by left|]. rewrite E in Hf. injection Hf as <-. by right. Qed.
Lemma keeps_more S (X Y : FloorSnapshot -> Prop) h : (forall f, X f -> Y f) -> keeps S X h -> keeps S Y h.
Proof. intros HXY [HO HS]. split; [by eapply hub_ok_more|done]. Qed.

Lemma h_deliver X from ho :
  hoare (HubOk (fun f => X f \/ f = ho_claim ho)) (deliver_handover (C:=C) elapsed from ho) (fun _ => HubOk X).
Proof.
  eapply h_bind; [apply h_now|]. intros t. apply h_hub. intros h.
  destruct (handover_target h from (machine (ho_to ho))) as [[i l]|] eqn:Et.
  2: { eapply h_pre; [|eapply h_post; [apply (h_restore any X)|]]; [by intros h' [-> ?]|by intros ? h' []]. }
  assert (link_of h i = Some l /\ link_is_ready l = true) as [El Hr].
  { unfold handover_target in Et. apply head_Some_elem_of, list_elem_of_omap in Et as (j & _ & Ej).
    destruct (link_of h j) as [l'|] eqn:Elj; [|done]. destruct (_ && _) eqn:Eb; [|done]. injection Ej as <- <-.
    by apply andb_prop in Eb as [_ ?]. }
  eapply (h_bind _ _ _ (fun out => keeps (ReadyAt i) (after_call X out))).
  { eapply h_pre; [|apply h_call_handover]. intros h' [-> HO]. split_and!; try done. by apply stored_refl. }
  intros out. eapply (h_seq _ (keeps (ReadyAt i) X)); [|apply h_settle_effects].
  destruct (out_handover out) as [refused|] eqn:Eh.
  - eapply h_pre; [|apply h_restore]. intros h'. apply keeps_more. intros f. by apply after_some.
  - apply h_ret. intros h'. apply keeps_more. intros f. by apply after_none.
Qed.
Lemma h_settle_outcome X i out :
  hoare (keeps (ReadyAt i) (after_call X out)) (Hub.settle_outcome (C:=C) elapsed i out) (fun _ => HubOk X).
Proof.
  unfold Hub.settle_outcome. destruct (out_handover out) as [ho|] eqn:Eh.
  - assert (forall h, keeps (ReadyAt i) (after_call X out) h -> keeps (ReadyAt i) (fun f => X f \/ f = ho_claim ho) h) as Hm.
    { intros h. apply keeps_more. intros f. by apply after_some. }
    eapply h_pre; [exact Hm|]. destruct (out_failure out) as [f|].
    + eapply h_seq; [apply h_restore|apply h_settle_effects].
    + eapply h_seq; [apply h_settle_effects|apply h_deliver].
  - eapply h_pre; [|apply h_settle_effects]. intros h. apply keeps_more. intros f. by apply after_none.
Qed.
Lemma owner_ready h i : outbound_owner h = Some i -> exists l, link_of h i = Some l /\ link_is_ready l = true.
Proof.
  unfold outbound_owner. destruct (index_of _) as [j|]; [|done]. cbn [mbind option_bind]. destruct (_ && _) eqn:E; [|done].
  intros [= <-]. apply andb_prop in E as [_ E]. destruct (link_of h j) as [l|]; [eauto|done].
Qed.
Lemma h_follow X : hoare (HubOk X) (follow_local_request (C:=C) elapsed) (fun _ => HubOk X).
Proof.
  apply h_hub. intros h. destruct (negb _); [apply h_ret; by intros ? [-> ?]|].
  destruct (outbound_owner h) as [i|] eqn:Eo.
  2: { eapply h_pre; [|apply h_quiet_; intros h'; split_and!; auto]. by intros ? [-> ?]. }
  destruct (owner_ready h i Eo) as (l & El & Hr). eapply h_bind; [apply h_now|]. intros t. rewrite El.
  destruct (bool_decide _); [|apply h_ret; by intros ? [-> ?]].
  eapply (h_seq _ (fun h' => HubOk X h' /\ stored h' i l /\ link_is_ready l = true)).
  { apply h_upd. intros h' [-> HO]. split; [eapply hub_ok_same; [exact HO|done..|by left]|]. split; [by apply stored_refl|done]. }
  eapply h_bind; [by apply h_call|]. intros out. apply h_settle_outcome.
Qed.
Lemma h_settle X i out : hoare (keeps (ReadyAt i) (after_call X out)) (settle (C:=C) elapsed i out) (fun _ => HubOk X).
Proof. eapply h_seq; [apply h_settle_outcome|apply h_follow]. Qed.
(** A call of a ready link and what comes of it. *)
Lemma h_called X i l op : plain_op op = true ->
  hoare (fun h => HubOk X h /\ stored h i l /\ link_is_ready l = true)
    (p_bind (call_source i l op) (fun out => settle (C:=C) elapsed i out)) (fun _ => HubOk X).
Proof. intros Hp. eapply h_bind; [by apply h_call|]. intros out. apply h_settle. Qed.

(** *** Links that start *)

(** The link of a slot that starts, up to its phase and its queue. *)
Definition starts (X : FloorSnapshot -> Prop) (i : nat) (l : PeerLink) (h : HubCore) : Prop := HubOk X h /\ stored h i l.
Lemma h_put_link X i l l' : pl_source l' = pl_source l -> pl_joined l' = pl_joined l -> pl_confines l' = pl_confines l ->
  link_is_ready l' = link_is_ready l ->
  hoare (C:=C) (starts X i l) (put_slot i (Linked l')) (fun _ => starts X i l).
Proof.
  intros Es Ejn Ecf Er. apply h_upd. intros h [HO (l0 & El & E1 & E2 & E3 & E4 & E5 & E6)]. split.
  - pose proof HO as (_ & H2 & _). destruct (H2 i l0 El) as (L1 & L2 & L3 & L4 & L5).
    assert (claim_of l' = claim_of l0) as Ec by (unfold claim_of in *; by rewrite Es).
    eapply hub_ok_link; [exact HO|exact El| |exact Ec|by rewrite Er, E4].
    unfold LinkOk. rewrite Es, E1, E2, Ec, Er, E4, Ejn, Ecf, E5, E6. done.
  - exists l'. rewrite link_put by (apply link_of_slot in El; by eapply lookup_lt_Some). rewrite decide_True by done.
    split; [done|]. unfold claim_of. by rewrite Es, Er, Ejn, Ecf.
Qed.
Lemma h_push_startup X i l b f : hoare (C:=C) (starts X i l) (push_startup i b f) (fun _ => starts X i l).
Proof.
  destruct f as [f|]; [|by apply h_ret]. apply h_upd. intros h [HO HS]. split; [|done]. eapply hub_ok_same; [exact HO|done..|by left].
Qed.
Lemma h_link_in {B} X i (k : option PeerLink -> Prog (World C) B) Q :
  (forall l, hoare (starts X i l) (k (Some l)) Q) -> hoare (HubOk X) (k None) Q -> hoare (HubOk X) (p_bind (link_in i) k) Q.
Proof.
  intros Hs Hn. eapply (h_bind _ _ _ (fun l h => HubOk X h /\ link_of h i = l)).
  { apply h_hub. intros h. apply h_ret. by intros ? [-> ?]. }
  intros [l|]; (eapply h_pre; [|by first [apply Hs|apply Hn]]); [|by intros h []].
  intros h [HO El]. split; [done|by apply stored_refl].
Qed.
Lemma phase_ready l p out inb : pl_phase l = Starting out inb -> p <> Ready -> link_is_ready (link_phase l p) = link_is_ready l.
Proof. unfold link_is_ready. intros -> Hp. cbn. by destruct p. Qed.

Lemma h_startup_frame X i l b f t : hoare (C:=C) (starts X i l) (startup_frame i l b f t) (fun _ => HubOk X).
Proof.
  eapply (h_post _ _ (fun _ => starts X i l)); [|by intros a h []].
  unfold startup_frame. destruct (pl_phase l) as [out inb|] eqn:Ep; [|by apply h_ret]. cbv zeta.
  match goal with |- context [if ?b then startup_is_ready ?a ?t else ?c] => destruct (if b then startup_is_ready a t else c) as [c1 ready] end.
  assert (forall c, link_is_ready (link_phase l (if b then Starting c inb else Starting out c)) = link_is_ready l) as Hr
    by (intros c'; eapply phase_ready; [exact Ep|by destruct b]).
  eapply h_seq; [apply h_put_link; [done..|apply Hr]|]. destruct ready as [[]|e].
  - destruct (_ =? _)%nat; [by apply h_ret|]. eapply h_seq; [apply h_put_link; [done..|apply Hr]|by apply h_ret].
  - destruct (receive_startup c1 f t) as [c' r]. eapply h_seq; [apply h_put_link; [done..|apply Hr]|].
    destruct r as [[g|]|e]; [|by apply h_ret..]. eapply h_seq; [apply (h_push_startup X i l b (Some g))|by apply h_ret].
  - by apply h_ret.
Qed.
Lemma h_startup_call X i b f k : hoare (HubOk X) k (fun _ => HubOk X) ->
  hoare (C:=C) (HubOk X) (startup_call_ i b f k) (fun _ => HubOk X).
Proof.
  intros Hk. apply h_link_in; [|by apply h_ret]. intros l. destruct (pl_phase l) as [out inb|] eqn:Ep; [|apply h_ret; by intros h []].
  destruct (f (if b then out else inb)) as [c r]. eapply h_seq.
  { apply h_put_link; [done..|]. eapply phase_ready; [exact Ep|by destruct b]. }
  destruct r as [g|e]; [|apply h_ret; by intros h []]. eapply h_seq; [apply h_push_startup|]. eapply h_pre; [|exact Hk]. by intros h [].
Qed.
Lemma h_startup_both X i f t yes : hoare (C:=C) (HubOk X) (startup_both i f t yes) (fun _ => HubOk X).
Proof.
  apply h_link_in; [|by apply h_ret]. intros l. destruct (pl_phase l) as [out inb|] eqn:Ep; [|apply h_ret; by intros h []].
  destruct (both out inb t f) as [[out' inb'] r]. eapply h_seq; [apply h_put_link; [done..|by eapply phase_ready]|].
  apply h_ret. by intros h [].
Qed.
Lemma h_startup_tick X i native t : hoare (C:=C) (HubOk X) (startup_tick i native t) (fun _ => HubOk X).
Proof. do 2 apply h_startup_call. destruct (negb _); [|do 2 apply h_startup_call]; apply h_startup_both. Qed.

Lemma ready_source_seated (w : World C) l i out inb t s c : ready_source w l i out inb t = Ok (s, c) -> Seated (slot_at i) s.
Proof.
  unfold ready_source. destruct (held (w_hub w)) as [keys buttons]. destruct (startup (into_ready out t)) as [control|]; [|done].
  cbn [mbind result_bind]. destruct (after_startup _ _ _ _ _ _) as [s1|] eqn:E1; [|done]. cbn [map_err mbind result_bind].
  destruct (with_peer _ _ _) as [s2|] eqn:E2; [|done]. cbn [map_err mbind result_bind].
  set (s3 := set_double_click_interval _ _).
  destruct (seed_from_group s3 keys buttons _ _) as [s4 r] eqn:E4. destruct r as [|]; [|done]. cbn [map_err mbind result_bind].
  destruct (startup (into_ready inb t)); [|done]. cbn [mbind result_bind]. intros [= <- _].
  apply after_startup_unowned in E1. eapply with_peer_seated in E2; [|exact E1]. eapply seed_seated; [|exact E4]. exact E2.
Qed.
Lemma h_promote X i : hoare (HubOk X) (promote (C:=C) elapsed i) (fun _ => HubOk X).
Proof.
  eapply h_bind; [apply h_now|]. intros t. apply h_world. intros w. destruct (link_of (w_hub w) i) as [l|] eqn:El.
  2: { apply h_ret. by intros h []. }
  destruct (pl_phase l) as [out inb|] eqn:Ep; [|apply h_ret; by intros h []]. cbv zeta.
  assert (link_is_ready l = false) as Hnr by (unfold link_is_ready; by rewrite Ep).
  set (l1 := link_phase l Ready).
  eapply (h_seq _ (fun h => HubOk X h /\ link_of h i = Some l1 /\ claim_of l1 = None)).
  { apply h_upd. intros h [-> HO]. pose proof HO as (_ & H2 & _). destruct (H2 i l El) as (L1 & L2 & L3 & L4 & L5). split_and!.
    - eapply hub_ok_link; [exact HO|exact El| |done|done]. by split_and!.
    - rewrite link_put by (apply link_of_slot in El; by eapply lookup_lt_Some). by rewrite decide_True.
    - by apply L4. }
  destruct (ready_source w l1 i out inb t) as [[s control]|e] eqn:Er; [|eapply h_pre; [|apply h_end_link]; by intros h (? & _)].
  eapply (h_seq _ (HubOk X)).
  { apply h_upd. intros h (HO & El1 & Ec). apply ready_source_seated in Er as Hs. eapply hub_ok_link; [exact HO|exact El1| | |done].
    - by apply seated_ok.
    - rewrite Ec. by destruct Hs as (_ & ? & _). }
  eapply h_seq; [apply h_action_|]. eapply h_seq; [apply h_each; intros f; apply h_action_|]. eapply h_seq; [apply h_action_|].
  apply h_same. intros h. apply hub_ok_reachable.
Qed.

(** *** Entry points *)

Lemma h_remove X slot r : hoare (HubOk X) (remove_link (C:=C) elapsed slot r) (fun _ => HubOk X).
Proof. unfold remove_link. destruct (index_of slot); [apply h_end_link|by apply h_ret]. Qed.
Lemma h_frame X slot f : hoare (HubOk X) (Hub.on_frame (C:=C) elapsed slot f) (fun _ => HubOk X).
Proof.
  eapply h_bind; [apply h_now|]. intros t. destruct (index_of slot) as [i|]; [|by apply h_ret].
  apply h_link_in; [|by apply h_ret]. intros l.
  assert (forall m : Prog (World C) (), hoare (HubOk X) m (fun _ => HubOk X) -> hoare (starts X i l) m (fun _ => HubOk X)) as Hw.
  { intros m Hm. eapply h_pre; [|exact Hm]. by intros h []. }
  destruct (bool_decide (scope f = Connection)); [apply Hw, h_end_link|]. cbv zeta.
  destruct (negb _ && negb _); [apply Hw, h_end_link|]. destruct (link_is_ready l) eqn:Er; cbn [negb].
  - destruct (negb _); [apply Hw, h_action_|]. eapply h_pre; [|by apply h_called]. by intros h [].
  - eapply h_bind; [apply h_startup_frame|]. intros [|e]; [by apply h_ret|apply h_end_link].
Qed.
Lemma h_stored_call X i l h op : plain_op op = true -> link_of h i = Some l -> link_is_ready l = true ->
  hoare (fun h' => h' = h /\ HubOk X h) (p_bind (call_source i l op) (fun out => settle (C:=C) elapsed i out)) (fun _ => HubOk X).
Proof.
  intros Hp El Hr. eapply h_pre; [|by apply h_called]. intros h' [-> HO]. split; [done|]. split; [by apply stored_refl|done].
Qed.

Lemma released_free w p g f : is_generation w -> FloorSpec.edge w (OpReleasePeer p g) = Some f -> ages 1 w f /\ outbound f = false.
Proof.
  intros Hw. unfold FloorSpec.edge. destruct (_ && _); [|done]. intros [= <-]. split; [by apply freed_ages|done].
Qed.
Lemma h_barrier X r b v : hoare (HubOk X) (dispatch_barrier (C:=C) elapsed r b v) (fun _ => HubOk X).
Proof.
  eapply h_seq; [apply (h_quiet_ X); intros h; split_and!; auto|]. apply h_hub. intros h0. cbv zeta.
  set (issuer := match h_issuer h0 with Some _ => _ | None => _ end).
  eapply (h_seq _ (HubOk X)).
  { eapply h_pre; [|apply h_when; intros _; apply (h_quiet_ X); intros h; split_and!; auto]. by intros h [-> ?]. }
  eapply (h_seq _ (HubOk X)).
  { apply h_each. intros i. eapply h_bind; [apply h_now|]. intros t. apply h_link_in; [|by apply h_ret]. intros l.
    destruct (link_is_ready l) eqn:Er; cbn [negb]; [|apply h_ret; by intros h []].
    eapply h_pre; [|apply h_called; by destruct (bool_decide _)]. by intros h []. }
  apply h_hub. intros h. destruct (h_orphan h) as [o|] eqn:Eo; [|apply h_ret; by intros ? [-> ?]].
  destruct (bool_decide _); [|apply h_ret; by intros ? [-> ?]].
  eapply (h_seq _ (fun h' => h' = put_orphan h None /\ HubOk X h)); [apply h_upd; by intros h' [-> ?]|].
  destruct (FloorSpec.edge _ _) as [f|] eqn:Ef; [|apply h_err]. apply h_leave. intros h' [-> HO] Hg.
  destruct (released_free _ _ _ _ (proj1 HO) Ef) as [Ha Ho].
  eapply (hub_ok_known X); [exact (hub_ok_floor X X h f HO Ha Hg Ho)|done|done|by left|].
  change (outbound f = true -> Known X (put_floor h f) f -> Known X (put_floor (put_orphan h None) f) f). by rewrite Ho.
Qed.
Lemma h_captured X r : hoare (HubOk X) (Hub.on_captured (C:=C) elapsed r) (fun _ => HubOk X).
Proof.
  unfold Hub.on_captured. destruct (normalize r) as [[ti|]|]; [|by apply h_ret|apply h_err].
  eapply h_bind; [apply h_capture|]. intros c. eapply (h_seq _ (HubOk X)).
  { apply h_quiet_. intros h. unfold note_physical. destruct (SourceState.event ti); try destruct (usage_is_valid _); split_and!; auto. }
  assert (hoare (HubOk X) (p_each (fun i =>
            let! t := now elapsed in
            let! h := hub in
            match link_of h i with
            | Some l =>
                if link_is_ready l then
                  let l := link_source l (set_capture_ready (pl_source l) (h_capture_ready h)) (pl_view l) in
                  let! out := call_source i l (CallCaptured ti t) in
                  settle (C:=C) elapsed i out
                else fun w =>
                  '(s, out) ← bookkeeping (pl_source l) ti;
                  (put_slot i (Linked (link_source l s (pl_view l)));!
                   match out_failure out with
                   | Some f => end_link elapsed i (Err (FailSourceController f)) None
                   | None => p_ret ()
                   end) w
            | None => p_ret ()
            end) (seq 0 GROUP)) (fun _ => HubOk X)) as Hall; [|destruct (SourceState.event ti); first [exact Hall|apply h_barrier]].
  apply h_each. intros i. eapply h_bind; [apply h_now|]. intros t. apply h_hub. intros h.
  destruct (link_of h i) as [l|] eqn:El; [|apply h_ret; by intros ? [-> ?]]. destruct (link_is_ready l) eqn:Er.
  - cbv zeta. eapply h_pre; [|by apply h_called]. intros h' [-> HO]. split; [done|]. split; [|done]. by exists l.
  - apply h_option. intros [s out] Eb. eapply (h_seq _ (HubOk X)); [|destruct (out_failure out); [apply h_end_link|by apply h_ret]].
    apply h_upd. intros h' [-> HO]. pose proof HO as (_ & H2 & _). destruct (H2 i l El) as (L1 & L2 & L3 & L4 & L5).
    destruct (bookkeeping_unclaimed (slot_at i) (pl_source l) ti s out L1 L2 (L4 Er) Eb) as (B1 & B2 & B3).
    eapply hub_ok_link; [exact HO|exact El|by apply seated_ok| |done]. unfold claim_of in *. cbn [pl_source link_source]. by rewrite B3, L4.
Qed.
Lemma h_destination X slot e : hoare (HubOk X) (Hub.on_destination (C:=C) elapsed slot e) (fun _ => HubOk X).
Proof.
  unfold Hub.on_destination. destruct (index_of slot) as [i|]; [|by apply h_ret]. apply h_hub. intros h. cbv zeta.
  assert (forall m : Prog (World C) (), hoare (HubOk X) m (fun _ => HubOk X) -> hoare (fun h' => h' = h /\ HubOk X h) m (fun _ => HubOk X)) as Hw.
  { intros m Hm. eapply h_pre; [|exact Hm]. by intros h' [-> ?]. }
  apply Hw. destruct (negb _); [by apply h_ret|]. destruct e; [apply h_when; intros _; apply h_action_|apply h_end_link|].
  eapply h_seq; [apply h_end_link|]. apply h_hub. intros h2. destruct (h_slots h2 !! i) as [[]|] eqn:Es; try (apply h_ret; by intros ? [-> ?]).
  eapply h_seq; [|apply h_action_]. apply h_upd. intros h' [-> HO]. apply hub_ok_vacant; [done| |done]. unfold link_of. by rewrite Es.
Qed.
Lemma h_at X h {A} (m : Prog (World C) A) : hoare (HubOk X) m (fun _ => HubOk X) ->
  hoare (fun h' => h' = h /\ HubOk X h) m (fun _ => HubOk X).
Proof. intros Hm. eapply h_pre; [|exact Hm]. by intros h' [-> ?]. Qed.
Lemma h_idle {A} X h (a : A) : hoare (C:=C) (fun h' => h' = h /\ HubOk X h) (p_ret a) (fun _ => HubOk X).
Proof. apply h_ret. by intros h' [-> ?]. Qed.

Lemma h_poll X p : hoare (HubOk X) (Hub.poll_pointer (C:=C) elapsed p) (fun _ => HubOk X).
Proof.
  eapply h_bind; [apply h_now|]. intros t. apply h_hub. intros h. cbv zeta. apply h_at. destruct (_ || _); [by apply h_ret|].
  eapply h_seq; [apply (h_quiet_ X); intros h'; split_and!; auto|]. destruct p as [p|]; [|by apply h_ret].
  apply h_each. intros i. eapply h_bind; [apply h_now|]. intros t'. apply h_hub. intros h'.
  destruct (link_of h' i) as [l|] eqn:El; [|apply h_idle]. destruct (link_is_ready l) eqn:Er; cbn [andb]; [|apply h_idle].
  destruct (bool_decide _); [|apply h_idle]. by apply h_stored_call.
Qed.
Lemma h_retry X : hoare (HubOk X) (retry_pending_route (C:=C) elapsed) (fun _ => HubOk X).
Proof.
  apply h_hub. intros h. eapply h_bind; [apply h_capture|]. intros c. destruct (h_pending_slot h) as [slot|] eqn:Ep; [|apply h_idle].
  destruct (i ← index_of slot; l ← link_of h i; Some (i, l)) as [[i l]|] eqn:Ei.
  2: { apply h_at, h_quiet_. intros h'. split_and!; auto. }
  destruct c as [c|]; [|apply h_idle].
  eapply (h_bind _ _ _ (fun '(r, _) h' => is_ok r = true -> HubOk X h')).
  { eapply h_pre; [|eapply h_post; [apply (h_on_route X i l c false); intros; apply keepR_retry|]].
    - intros h' [-> HO]. destruct (index_of slot) as [k|] eqn:Ek; [|done]. cbn [mbind option_bind] in Ei.
      destruct (link_of h k) as [l'|] eqn:Ekl; [|done]. injection Ei as -> ->. split; [done|]. split; [by apply stored_refl|].
      pose proof HO as (_ & _ & H3 & _). destruct (H3 slot Ep) as (j & l' & -> & Ej & Hr).
      apply index_of_slot, slot_at_inj in Ek as ->. congruence.
    - intros [r issued] h' [Hr _] Ho. auto. }
  intros [r issued]. eapply (h_seq _ (HubOk X)). { eapply h_post; [apply h_lift|]. intros a h' [Hh ->]. by apply Hh. }
  eapply (h_seq _ (HubOk X)). { destruct issued as [[ticket local]|]; [|by apply h_ret]. apply h_quiet_. intros h'. split_and!; auto. }
  apply h_hub. intros h'. apply h_at, h_when. intros _. apply h_quiet_. intros h2. split_and!; auto.
Qed.
Lemma h_renew X : hoare (HubOk X) (renew_owner_lease (C:=C) elapsed) (fun _ => HubOk X).
Proof.
  eapply h_bind; [apply h_now|]. intros t. apply h_hub. intros h. eapply h_bind; [apply h_capture|]. intros c.
  destruct (_ || _); [apply h_idle|]. destruct (i ← outbound_owner h; l ← link_of h i; Some (i, l)) as [[i l]|] eqn:Ei; [|apply h_idle].
  destruct c as [c|]; [|apply h_idle]. cbv zeta. destruct (_ || _); [apply h_idle|].
  eapply (h_bind _ _ _ (fun _ => HubOk X)).
  { eapply h_pre; [|eapply h_post; [apply (h_on_route X i l c true); intros; apply keepR_renew|]].
    - intros h' [-> HO]. destruct (outbound_owner h) as [k|] eqn:Ek; [|done]. cbn [mbind option_bind] in Ei.
      destruct (owner_ready h k Ek) as (l' & El & Hr). rewrite El in Ei. injection Ei as -> ->. split; [done|]. split; [by apply stored_refl|done].
    - intros [r issued] h' [Hr _]. auto. }
  intros [r issued]. destruct r as [[]|e]; [|by apply h_ret|].
  - eapply h_bind; [apply h_now|]. intros t'. apply h_quiet_. intros h'. split_and!; auto.
  - destruct e; first [apply h_err|apply h_end_link].
Qed.
Lemma h_tick_link X i : hoare (HubOk X) (tick_link (C:=C) elapsed i) (fun _ => HubOk X).
Proof.
  eapply h_bind; [apply h_now|]. intros t. apply h_hub. intros h. destruct (link_of h i) as [l|] eqn:El; [|apply h_idle].
  destruct (link_is_ready l) eqn:Er.
  - cbv zeta. eapply h_pre; [|by apply h_called]. intros h' [-> HO]. split; [done|]. split; [by exists l|done].
  - eapply h_bind; [apply h_at, h_startup_tick|]. intros [[]|e]; [by apply h_ret| |apply h_promote|apply h_end_link].
    apply h_hub. intros h1. destruct (bool_decide (h_native h1 = NativeIdle)) eqn:Eb; cbn [p_when]; [|apply h_idle].
    apply bool_decide_eq_true in Eb. eapply h_seq; [|apply h_action_]. apply h_upd. intros h' [-> HO]. by eapply hub_ok_native; [|rewrite Eb].
Qed.
Lemma h_on_tick X p : hoare (HubOk X) (Hub.on_tick (C:=C) elapsed p) (fun _ => HubOk X).
Proof.
  eapply h_bind; [apply h_capture|]. intros c. eapply (h_seq _ (HubOk X)).
  { destruct c as [c|]; [|by apply h_ret]. apply h_quiet_. intros h. split_and!; auto. }
  eapply h_seq; [apply h_each; intros i; apply h_tick_link|]. eapply h_bind; [apply h_capture|]. intros c'. apply h_hub. intros h.
  destruct c' as [c'|]; [|apply h_idle]. destruct (bool_decide _); [apply h_idle|]. apply h_at.
  eapply h_bind; [apply h_now|]. intros t. eapply (h_bind _ _ _ (fun _ => HubOk X)). { eapply h_post; [apply h_lift|]. by intros a h' []. }
  intros sub. eapply h_seq; [apply (h_quiet_ X); intros h'; split_and!; auto|]. eapply h_seq; [apply h_retry|].
  eapply h_seq; [apply h_any, h_submit|]. apply h_hub. intros h2. apply h_at. eapply (h_bind _ _ _ (fun _ => HubOk X)).
  { destruct (h_orphan h2); [|by apply h_ret]. eapply h_bind; [apply h_now|]. intros t'. by apply h_ret. }
  intros []; [apply h_err|]. eapply h_seq; [apply h_poll|apply h_renew].
Qed.
Lemma h_path X slot sample : hoare (HubOk X) (hub_observe_path (C:=C) elapsed slot sample) (fun _ => HubOk X).
Proof.
  eapply h_bind; [apply h_now|]. intros t. apply h_hub. intros h.
  destruct (i ← index_of slot; l ← link_of h i; Some (i, l)) as [[i l]|] eqn:Ei; [|apply h_idle].
  destruct (link_is_ready l) eqn:Er; [|apply h_idle]. eapply (h_bind _ _ _ (fun _ => HubOk X)); [|intros; by apply h_ret].
  intros w w' r E Hw. pose proof (h_call X i l (CallPath sample t) eq_refl w w' r E Hw) as [Hw0 Hc]. split; [done|]. intros [Eh HO].
  unfold call_source in E. cbn [source_step mbind option_bind] in E. injection E as <- <-. destruct Hc as [Hc _].
  - subst h. split; [done|]. split; [|done]. apply stored_refl. destruct (index_of slot) as [k|]; [|done]. cbn [mbind option_bind] in Ei.
    by destruct (link_of (w_hub w) k) eqn:Ek; [|done]; injection Ei as -> ->.
  - eapply hub_ok_more; [exact Hc|]. intros f. by apply after_none.
Qed.
Lemma h_request X : hoare (HubOk X) (Hub.request_local (C:=C) elapsed) (fun _ => HubOk X).
Proof.
  apply h_hub. intros h. apply h_at. destruct (bool_decide _); [|by apply h_ret].
  eapply h_seq; [apply (h_quiet_ X); intros h'; split_and!; auto|apply h_follow].
Qed.
Lemma h_native_ready X : hoare (HubOk X) (native_ready (C:=C)) (fun _ => HubOk X).
Proof.
  apply h_upd. intros h HO. destruct (bool_decide _) eqn:Eb; [|done]. apply bool_decide_eq_true in Eb. by eapply hub_ok_native; [|rewrite Eb].
Qed.
Lemma h_native_stopped X : hoare (HubOk X) (native_stopped (C:=C)) (fun _ => HubOk X).
Proof.
  apply h_hub. intros h. destruct (negb _); [apply h_idle|].
  eapply (h_seq _ (fun h' => HubOk X h' /\ outbound (h_floor h') = false)).
  { apply h_leave. intros h' [-> HO] Hg. split; [|done]. apply (hub_ok_floor X); [done|by apply freed_ages, HO|done|done]. }
  apply h_upd. intros h' [HO Ho]. cbv zeta. eapply (hub_ok_links X); [exact HO|done| |by right|by rewrite Ho].
  intros i. unfold link_of. cbn [h_slots put_actions put_slots put_buttons put_keys put_local_requested put_orphan put_submitted put_pending_slot
    put_pending put_issuer put_route put_blocking put_capture_ready put_native].
  rewrite list_lookup_fmap. by destruct (h_slots h' !! i) as [[]|].
Qed.
End HubFloor.
