(* ===== verification/HubTheorems.v ===== *)
(** * The floor of a group is never stranded (monhop-transport/src/session_group.rs)

    Runs of a hub among peers that send what they like: every entry point, with the
    capture, the switches and the receivers' side of the floor changing in between.
    A hub whose call fails is torn down, so a run goes on from calls that succeed. *)

From stdpp Require Import gmap sorting.
From S2P Require Import CaptureEvent CaptureQueue CapturePhysical.
From S2P Require Import Prelude F64 Types Geometry Topology Floor Messages Sequence Ownership Clicks.
From S2P Require Import SessionPacer SessionHealth SessionQuality SourceEdges SourceState HeldInput.
From S2P Require Import Source SourceKept SourceStream SourceSafety SourceRemote SourceCalls SourceSystem SourceFloor SourceTheorems.
From S2P Require Import SessionStartup CaptureLease CaptureStream CaptureRoute Hub HubSafety HubFloor.

(** ** Runs *)

Definition nobody (f : FloorSnapshot) : Prop := False.

Inductive HubOp (C : Type) :=
| HubAdd (setup : LinkSetup) (t : Z)
| HubRemove (slot : Z) (r : result SessionFailure ())
| HubFrame (slot : Z) (f : Frame)
| HubCaptured (e : CapturedEvent)
| HubDestination (slot : Z) (e : SlotEvent)
| HubTick (pointer : option Point)
| HubPath (slot : Z) (sample : PathSample)
| HubRequestLocal
| HubNativeReady
| HubNativeStopped
| HubEnvCapture (c : option C)
| HubEnvSwitches (command : bool) (speed : Z) (confined : bool)
| HubEnvReceiver (op : FloorOp)
| HubEnvDrain.
Arguments HubAdd {C}. Arguments HubRemove {C}. Arguments HubFrame {C}. Arguments HubCaptured {C}. Arguments HubDestination {C}.
Arguments HubTick {C}. Arguments HubPath {C}. Arguments HubRequestLocal {C}. Arguments HubNativeReady {C}.
Arguments HubNativeStopped {C}. Arguments HubEnvCapture {C}. Arguments HubEnvSwitches {C}. Arguments HubEnvReceiver {C}.
Arguments HubEnvDrain {C}.

(** What the receivers of a destination do to the floor: claim it, move the floor
    they have, and give it up. *)
Definition receiver_op (w : FloorSnapshot) (op : FloorOp) : bool :=
  match op with
  | OpClaim _ to _ => bool_decide (to = Receiving)
  | OpTransition _ to => bool_decide (to = Receiving) || bool_decide (floor_owner (state w) = Some Floor.Inbound)
  | OpRelease owner _ => bool_decide (owner = Floor.Inbound)
  | _ => false
  end.

Section HubRuns.
Context `{Libm} `{CaptureControlI C} (elapsed : nat -> Z).

Definition hub_op (op : HubOp C) : Prog (World C) () :=
  match op with
  | HubAdd setup t => let! w := p_get in upd (fun h => fst (add_link setup t (w_command w) (w_speed w) h))
  | HubRemove slot r => remove_link elapsed slot r
  | HubFrame slot f => Hub.on_frame elapsed slot f
  | HubCaptured e => Hub.on_captured elapsed e
  | HubDestination slot e => Hub.on_destination elapsed slot e
  | HubTick p => Hub.on_tick elapsed p
  | HubPath slot sample => hub_observe_path elapsed slot sample
  | HubRequestLocal => Hub.request_local elapsed
  | HubNativeReady => native_ready
  | HubNativeStopped => native_stopped
  | HubEnvCapture c => p_mod (fun w => mkWorld (w_hub w) c (w_reads w) (w_command w) (w_speed w) (w_confined w) (w_wrapped w))
  | HubEnvSwitches a b c => p_mod (fun w => mkWorld (w_hub w) (w_capture w) (w_reads w) a b c (w_wrapped w))
  | HubEnvReceiver op =>
      let! h := hub in
      if receiver_op (h_floor h) op then leave_floor (FloorSpec.step (h_floor h) op) else p_ret ()
  | HubEnvDrain => upd (fun h => put_actions h [])
  end.

Inductive hub_reach : World C -> Prop :=
| hub_new config t h a b c : new_hub config t = Ok h -> hub_reach (mkWorld h None 0 a b c false)
| hub_next w w' op : hub_reach w -> hub_op op w = Some (w', Ok ()) -> hub_reach w'.

(** ** The invariant of runs *)

Lemma hub_ok_seat X h i l : HubOk X h -> h_slots h !! i = Some Empty -> Seated (slot_at i) (pl_source l) -> pl_joined l = false ->
  HubOk X (put_slots h (<[i := Linked l]> (h_slots h))).
Proof.
  intros (H1 & H2 & H3 & H4) Es Hs Hjn. assert (i < length (h_slots h))%nat as Hi by (by eapply lookup_lt_Some).
  assert (link_of h i = None) as El by (unfold link_of; by rewrite Es).
  assert (forall j l', link_of h j = Some l' -> link_of (put_slots h (<[i := Linked l]> (h_slots h))) j = Some l') as Hj.
  { intros j l' E. rewrite (link_put h i _ j Hi), decide_False; [done|]. intros ->. congruence. }
  split; [done|]. split; [|split].
  - intros j l'. rewrite (link_put h i _ j Hi). destruct (decide (j = i)) as [->|]; [|apply H2]. intros [= <-]. apply seated_ok; [done|]. by rewrite Hjn.
  - intros s Hp. destruct (H3 s Hp) as (j & l' & ? & E & ?). exists j, l'. auto.
  - intros Ho. destruct (H4 Ho) as [(j & l' & E & ?)|?]; [|by right]. left. exists j, l'. auto.
Qed.
Lemma add_link_ok X h setup t a b : HubOk X h -> HubOk X (fst (add_link setup t a b h)).
Proof.
  intros HO. unfold add_link. destruct (bool_decide _); [done|]. destruct (list_find _ _) as [[i m]|]; [|done].
  destruct (h_slots h !! i) as [[]|] eqn:Es; try done. destruct (new_scopes _ _) as [scopes|]; [|done].
  destruct (held h) as [keys buttons]. destruct (validate_link _ _ _ _ _) as [offset|]; [|done]. cbn [map_err mbind result_bind].
  destruct (new_source _ _ _ _ _ _ _ _) as [s|] eqn:E1; [|done]. cbn [map_err mbind result_bind].
  destruct (with_peer _ _ _) as [s1|] eqn:E2; [|done]. cbn [map_err mbind result_bind].
  destruct (seed_from_group _ _ _ _ _) as [s2 r] eqn:E3. destruct r as [|]; [|done]. cbn [map_err mbind result_bind mret result_ret fst].
  apply hub_ok_seat; [done|done| |done]. eapply seed_seated; [|exact E3]. eapply with_peer_seated; [|exact E2]. by eapply new_source_unowned.
Qed.
Lemma receiver_floor w op : is_generation w -> receiver_op w op = true -> let f := FloorSpec.step w op in
  f = w \/ (ages 1 w f /\ outbound f = false).
Proof.
  intros Hw Hr. cbv zeta. unfold FloorSpec.step. destruct (FloorSpec.edge w op) as [f|] eqn:E; [|by left]. right. cbn.
  destruct op as [s to|s to p|s p|owner g|p g|]; cbn in Hr; try done; cbn in E.
  - destruct (bool_decide (s = w) && floor_allows (state w) to) eqn:Eb; [|done]. injection E as <-. split; [by apply (ages_next 0), ages_refl|].
    apply andb_prop in Eb as [_ Ea]. rewrite outbound_next. destruct (state w), to; done.
  - apply bool_decide_eq_true in Hr as ->. destruct (_ && _); [|done]. injection E as <-. split; [by apply (ages_next 0), ages_refl|done].
  - destruct (_ && _); [|done]. injection E as <-. split; [by apply freed_ages|done].
Qed.
Lemma h_op op : hoare (HubOk nobody) (hub_op op) (fun _ => HubOk nobody).
Proof.
  destruct op; cbn [hub_op].
  - apply h_world. intros w. apply h_upd. intros h [-> HO]. by apply add_link_ok.
  - apply h_remove.
  - apply h_frame.
  - apply h_captured.
  - apply h_destination.
  - apply h_on_tick.
  - apply h_path.
  - apply h_request.
  - apply h_native_ready.
  - apply h_native_stopped.
  - intros w w' r [= <- <-] Hw. auto.
  - intros w w' r [= <- <-] Hw. auto.
  - apply h_hub. intros h. destruct (receiver_op (h_floor h) op) eqn:Er; [|apply h_idle]. apply h_leave. intros h' [-> HO] Hg.
    destruct (receiver_floor _ op (proj1 HO) Er) as [->|[Ha Ho]]; [exact HO|by apply (hub_ok_floor nobody)].
  - apply h_quiet_. intros h. split_and!; auto.
Qed.
Lemma hub_reach_ok w : hub_reach w -> w_wrapped w = false -> HubOk nobody (w_hub w).
Proof.
  induction 1 as [config t h a b c E|w w' op Hr IH E]; intros Hw.
  - cbn [w_hub]. unfold new_hub in E. destruct (home_display config) as [d|]; [|done]. destruct (_ || _); [done|]. injection E as <-.
    assert (forall i, link_of (mkHub (hc_local config) (hc_group config) d ((Some <$> hc_members config) ++ replicate (GROUP - length (hc_members config)) None)
                 (hc_generation config) (hc_double_click config) (mkSnapshot Free 1 PEER_NONE) NativeIdle false []
                 (replicate GROUP Empty) (false, 0) None None None None None false ∅ ∅ t t []) i = None) as Hl.
    { intros i. unfold link_of. cbn [h_slots]. destruct (replicate GROUP Empty !! i) as [x|] eqn:Ei; [|done].
      apply lookup_replicate in Ei as [-> _]. done. }
    split; [by split|]. split; [|split]; [intros i l; by rewrite Hl|done|done].
  - destruct (h_op op w w' _ E Hw) as [Hw0 H1]. by apply H1, IH.
Qed.

(** C5. However peers, capture and receivers behave, a floor that goes out is never
    stranded: the ready link of the slot the floor names claims exactly it, and no
    other does, or the hub's own restore holds it, until native input stops.  The bound: the floor has
    changed hands fewer than 2^57 times. *)
Theorem hub_floor_never_stranded w : hub_reach w -> w_wrapped w = false ->
  h_native (w_hub w) <> NativeStopping -> outbound (h_floor (w_hub w)) = true ->
  (exists i l, link_of (w_hub w) i = Some l /\ link_is_ready l = true /\ Floor.peer (h_floor (w_hub w)) = slot_at i
     /\ f_claim (s_floor (pl_source l)) = Some (h_floor (w_hub w))
     /\ forall j l', link_of (w_hub w) j = Some l' -> f_claim (s_floor (pl_source l')) = Some (h_floor (w_hub w)) -> j = i)
  \/ (exists o, h_orphan (w_hub w) = Some o /\ or_claim o = h_floor (w_hub w)).
Proof.
  intros Hr Hw Hn Ho. destruct (hub_reach_ok w Hr Hw) as (_ & H2 & _ & H4).
  destruct (H4 Ho) as [(i & l & El & Ec)|[?|[?|[]]]]; [|by right|done]. left. exists i, l.
  destruct (H2 i l El) as (_ & _ & L3 & L4 & _). destruct (L3 _ Ec) as [Hp _]. split; [done|]. split; [|split; [done|split; [done|]]].
  - destruct (link_is_ready l); [done|]. by rewrite L4 in Ec.
  - intros j l' Ej Ecj. destruct (H2 j l' Ej) as (_ & _ & L3' & _). destruct (L3' _ Ecj) as [Hp' _]. apply slot_at_inj. congruence.
Qed.
End HubRuns.

(** ** A session, for evaluation *)

#[local] Existing Instance sample_libm.
(** A capture that numbers its commands and completes each at once. *)
#[local] Instance ticket_capture : CaptureControlI Z := {
  activate_remote c _ _ := (c + 1, Ok (c + 1));
  restore_local_at c _ _ := (c + 1, Ok (c + 1));
  renew_suppression c _ _ := (c + 1, Ok (c + 1));
  completed_control_revision c := Some c;
  is_ready_for_suppression _ := true;
  capture_blocking _ := [];
  request_stop c := c }.

Fixpoint hub_ops (ops : list (HubOp Z)) (w : World Z) : option (World Z) :=
  match ops with
  | [] => Some w
  | op :: ops => match hub_op Z.of_nat op w with Some (w, Ok ()) => hub_ops ops w | _ => None end
  end.
Lemma hub_ops_reach ops w w' : hub_reach Z.of_nat w -> hub_ops ops w = Some w' -> hub_reach Z.of_nat w'.
Proof.
  revert w. induction ops as [|op ops IH]; cbn [hub_ops]; intros w Hr E; [by injection E as <-|].
  destruct (hub_op Z.of_nat op w) as [[w1 [[]|]]|] eqn:Eo; [|done..]. eapply IH; [|exact E]. by eapply hub_next.
Qed.

Definition here : DeviceId := replicate 16 1.
Definition there : DeviceId := replicate 16 2.
Definition seen (id : DisplayId) : DisplayDescription :=
  Messages.mkDisplay id [68] 1920 1080 (mkPoint f64_zero f64_zero) (mkPoint (f64_of_Z 1920) (f64_of_Z 1080)) 0x3F800000 true None.
Definition group (ops : list (HubOp Z)) : option (World Z) :=
  match new_hub (mkHubConfig here sample_topology [there] 1 (ms 500)) 0 with
  | Ok h => hub_ops ops (mkWorld h None 0 false 0 false false)
  | Err _ => None
  end.
Lemma group_ran ops {A} (f : World Z -> A) a : f <$> group ops = Some a -> exists w, hub_reach Z.of_nat w /\ f w = a.
Proof.
  unfold group. destruct (new_hub _ 0) as [h|] eqn:E; [|done]. destruct (hub_ops ops _) as [w|] eqn:Ew; [|done].
  intros Ef. exists w. split; [|exact (inj Some _ _ Ef)]. eapply hub_ops_reach; [|exact Ew]. by eapply hub_new.
Qed.

(** The link starts: each way challenges, answers and announces. *)
Definition from (sc : FrameScope) (q : Z) (m : Message) : HubOp Z := HubFrame 1 (mkFrame 5 q m sc).
Definition link_starts : list (HubOp Z) :=
  [HubAdd (mkLinkSetup there true true 5 3 [seen 1] [seen 2]) 0; HubTick None;
   from LowerControlsHigher 0 (MsgPing 1); from HigherControlsLower 0 (MsgPing 1);
   from LowerControlsHigher 1 (MsgPong 1); from HigherControlsLower 1 (MsgPong 1);
   HubTick None; HubNativeReady; HubEnvCapture (Some 0); HubTick None;
   from LowerControlsHigher 3 MsgSessionReady; HubTick None; from HigherControlsLower 3 MsgSessionReady; HubTick None].
(** The pointer crosses, the peer accepts, and capture routes to it. *)
Definition pointer_leaves : list (HubOp Z) :=
  [HubCaptured (mkCaptured (EvAbsoluteMotion 1919 500) 0 false 1);
   HubCaptured (mkCaptured (EvRelativeMotion 300 0 f64_one) 0 false 1);
   HubFrame 1 (mkFrame 6 0 (MsgActivationAck 2) LowerControlsHigher);
   HubCaptured (mkCaptured (EvRouteChanged true 1) 1 true 1)].

Lemma hub_floor_never_stranded_witness :
  exists w, hub_reach Z.of_nat w /\ h_floor (w_hub w) = mkSnapshot Sending 3 1
    /\ exists i l, link_of (w_hub w) i = Some l /\ mode (pl_source l) = ModeRemote
       /\ f_claim (s_floor (pl_source l)) = Some (mkSnapshot Sending 3 1).
Proof.
  destruct (group_ran (link_starts ++ pointer_leaves)
    (fun w => (h_floor (w_hub w), w_wrapped w, h_native (w_hub w), h_orphan (w_hub w), (mode ∘ pl_source) <$> link_of (w_hub w) 0))
    (mkSnapshot Sending 3 1, false, NativeReady, None, Some ModeRemote)) as (w & Hr & E); [vm_compute; reflexivity|].
  injection E as Ef Ew En Eo Em. exists w. split; [exact Hr|]. split; [exact Ef|].
  destruct (hub_floor_never_stranded Z.of_nat w Hr Ew) as [(i & l & El & _ & Hp & Hc & _)|(o & Ho & _)].
  - by rewrite En.
  - by rewrite Ef.
  - rewrite Ef in Hp, Hc. exists i, l. split; [exact El|]. split; [|exact Hc].
    change 1 with (slot_at 0) in Hp. cbn in Hp. apply slot_at_inj in Hp as <-. rewrite El in Em. by injection Em.
  - by rewrite Eo in Ho.
Defined.

(** C14. Controllers that route input never ask whether a program confines the cursor:
    the controller [promote] makes is not given the query that [add_link] gave to the
    one it replaces.  So the pointer leaves while a program confines it. *)
Theorem hub_crosses_while_confined :
  (forall w : World Z, hub_reach Z.of_nat w -> w_wrapped w = false -> forall i l, link_of (w_hub w) i = Some l ->
     pl_joined l = true -> c_pointer_confined (s_config (synced w l)) = false)
  /\ exists w, hub_reach Z.of_nat w /\ w_confined w = true /\ h_floor (w_hub w) = mkSnapshot Sending 3 1
     /\ (mode ∘ pl_source) <$> link_of (w_hub w) 0 = Some ModeRemote.
Proof.
  split.
  - intros w Hr Hw i l El Hj. destruct (hub_reach_ok Z.of_nat w Hr Hw) as (_ & H2 & _). destruct (H2 i l El) as (_ & _ & _ & _ & L5).
    cbn. by rewrite (L5 Hj).
  - destruct (group_ran (link_starts ++ HubEnvSwitches false 0 true :: pointer_leaves)
      (fun w => (w_confined w, h_floor (w_hub w), (mode ∘ pl_source) <$> link_of (w_hub w) 0))
      (true, mkSnapshot Sending 3 1, Some ModeRemote)) as (w & Hr & E); [vm_compute; reflexivity|].
    injection E as E1 E2 E3. by exists w.
Qed.
