(* ===== verification/ReceiverActor.v ===== *)
(** * The thread that runs a receiver (monhop-transport/src/session_actor.rs)

    [Actor] is the state of the injection thread: its receiver, the counters of
    the frames it answers with, the stop reason shared with the other threads and
    the two bounded channels.  [actor_turn] is one turn of [run_receiver]; the
    clock, the revocation signal and what arrives are arguments.  Frames that
    arrive while a turn runs are taken by the next one. *)

From stdpp Require Import gmap relations.
From S2P Require Import Prelude F64 Types Geometry Floor TakeBack Injection Messages Sequence.
From S2P Require Import Chord Translator SessionHealth Receiver ReceiverSafety DisplaySettle.

(** ** Stop reasons *)

Definition receiver_failure_code (f : ReceiverFailure) : Z :=
  match f with
  | FHealth HClockRegression => 20
  | FHealth DeadlineExpired => 21
  | FHealth UnexpectedResponse => 22
  | FHealth TokenExhausted => 23
  | FInvalidEpoch => 24
  | FInvalidSequence => 25
  | FRateLimited => 26
  | FWrongDisplay => 27
  | FInvalidPoint => 28
  | FNotActive => 29
  | FInvalidPressedState => 30
  | FUnexpectedMessage => 31
  | FNativeDelivery => 32
  | FPeerStopped => 33
  | FInvalidGesture => 34
  end.

Inductive ActorFailure :=
| ARequested | ARevoked | AQueueFull | APeerGone | AReceiver | ANative | ASequenceExhausted
| APanicked | AStartup | ALocalDisplaysChanged.
#[global] Instance ActorFailure_eq_dec : EqDecision ActorFailure.
Proof. solve_decision. Defined.

(** The discriminants, [reason as u8]. *)
Definition actor_failure_code (f : ActorFailure) : Z :=
  match f with
  | ARequested => 1 | ARevoked => 2 | AQueueFull => 3 | APeerGone => 4 | AReceiver => 5
  | ANative => 6 | ASequenceExhausted => 7 | APanicked => 8 | AStartup => 9
  | ALocalDisplaysChanged => 10
  end.

(** [Status::stop] and [Status::failure] on the shared [stopped] byte. *)
Definition status_stop (stopped : Z) (reason : ActorFailure) : Z :=
  if stopped =? 0 then actor_failure_code reason else stopped.
Definition status_failure (stopped : Z) : option ActorFailure :=
  match stopped with
  | 0 => None
  | 1 => Some ARequested
  | 2 => Some ARevoked
  | 3 => Some AQueueFull
  | 4 => Some APeerGone
  | 5 => Some AReceiver
  | 6 => Some ANative
  | 7 => Some ASequenceExhausted
  | 8 => Some APanicked
  | 10 => Some ALocalDisplaysChanged
  | _ => Some AStartup
  end.

(** ** Numbering the answers *)

Record OutputSequences := mkOutput { out_control : Z; out_input : Z; out_epoch : Z }.

(** [OutputSequences::frame]; a counter that would wrap leaves the reset of the
    input counter in place. *)
Definition out_frame (q : OutputSequences) (m : Message) (r : InputReceiver)
  : OutputSequences * option Frame :=
  let control := is_heartbeat m in
  let ep := if control then control_epoch (r_config r) else r_epoch r in
  let q := if negb control && negb (ep =? out_epoch q) then mkOutput (out_control q) 0 ep else q in
  let seq := if control then out_control q else out_input q in
  match checked_add_u64 seq 1 with
  | None => (q, None)
  | Some next =>
      (if control then mkOutput next (out_input q) (out_epoch q)
       else mkOutput (out_control q) next (out_epoch q),
       Some (mkFrame ep seq m Connection))
  end.

(** ** The thread *)

Definition CAPACITY : nat := 512.

Record Actor := mkActor {
  a_receiver : InputReceiver; a_sequences : OutputSequences; a_stopped : Z;
  a_incoming : list Frame; a_outgoing : list Frame }.

Definition set_receiver (a : Actor) (r : InputReceiver) : Actor :=
  mkActor r (a_sequences a) (a_stopped a) (a_incoming a) (a_outgoing a).
Definition set_sequences (a : Actor) (q : OutputSequences) : Actor :=
  mkActor (a_receiver a) q (a_stopped a) (a_incoming a) (a_outgoing a).
Definition set_incoming (a : Actor) (l : list Frame) : Actor :=
  mkActor (a_receiver a) (a_sequences a) (a_stopped a) l (a_outgoing a).
Definition set_outgoing (a : Actor) (l : list Frame) : Actor :=
  mkActor (a_receiver a) (a_sequences a) (a_stopped a) (a_incoming a) l.
Definition actor_stop (a : Actor) (reason : ActorFailure) : Actor :=
  mkActor (a_receiver a) (a_sequences a) (status_stop (a_stopped a) reason) (a_incoming a)
    (a_outgoing a).
Definition running (a : Actor) : bool := bool_decide (status_failure (a_stopped a) = None).

Definition emit (a : Actor) (m : Message) : Actor :=
  let '(q, frame) := out_frame (a_sequences a) m (a_receiver a) in
  let a := set_sequences a q in
  match frame with
  | None => actor_stop a ASequenceExhausted
  | Some f =>
      if (length (a_outgoing a) <? CAPACITY)%nat then set_outgoing a (a_outgoing a ++ [f])
      else actor_stop a AQueueFull
  end.

(** [DestinationActor::try_submit] once the handoff was sent. *)
Definition try_submit (a : Actor) (f : Frame) : Actor * result ActorFailure () :=
  match status_failure (a_stopped a) with
  | Some reason => (a, Err reason)
  | None =>
      if (length (a_incoming a) <? CAPACITY)%nat then (set_incoming a (a_incoming a ++ [f]), Ok ())
      else (actor_stop a AQueueFull, Err AQueueFull)
  end.

(** [DestinationActor::try_response], whose worker is alive. *)
Definition try_response (a : Actor) : Actor * result ActorFailure (option Frame) :=
  match status_failure (a_stopped a) with
  | Some reason => (a, Err reason)
  | None => match a_outgoing a with
            | f :: l => (set_outgoing a l, Ok (Some f))
            | [] => (a, Ok None)
            end
  end.

Section Destination.
Context (outcome : list (DestinationAction * bool) -> DestinationAction -> bool).

(** A call of the receiver: its reply is emitted, its failure stops the session;
    the second component says whether the loop goes on. *)
Definition answer (a : Actor) (m : InputReceiver * result ReceiverFailure (option Message))
  : Actor * bool :=
  let '(r, o) := m in
  let a := set_receiver a r in
  match o with
  | Ok (Some m) => (emit a m, true)
  | Ok None => (a, true)
  | Err _ => (actor_stop a AReceiver, false)
  end.
Definition actor_take_back (a : Actor) : Actor * bool := answer a (take_back outcome (a_receiver a)).
Definition actor_tick (a : Actor) (now : Z) : Actor * bool :=
  answer a (tick outcome (a_receiver a) now).
Definition actor_receive (a : Actor) (f : Frame) (now : Z) : Actor * bool :=
  answer a (receive outcome (a_receiver a) f now).
Definition actor_flush (a : Actor) : Actor :=
  let '(r, o) := flush outcome (a_receiver a) in
  let a := set_receiver a r in
  if is_ok o then a else actor_stop a AReceiver.

(** One frame of a burst, after what the local user took back. *)
Definition receive_next (a : Actor) (f : Frame) (now : Z) : Actor * bool :=
  let '(a, go) := actor_take_back a in if negb go then (a, false) else actor_receive a f now.
(** The frames of one burst, at most [more] after the first. *)
Fixpoint burst (more : nat) (a : Actor) (f : Frame) (now : Z) : Actor :=
  let '(a, go) := receive_next a f now in
  if negb go then a
  else match more, a_incoming a with
       | S more, f :: l => burst more (set_incoming a l) f now
       | _, _ => a
       end.

(** A turn of the loop of [run_receiver], its second component whether it goes
    round again; [stopping] and [revoked] are the two reads of the revocation, the
    second after a frame was taken, which is then dropped. *)
Definition actor_turn (a : Actor) (now later : Z) (stopping revoked : bool) : Actor * bool :=
  if stopping then (actor_stop a ARevoked, false)
  else
    let '(a, go) := actor_take_back a in
    if negb go then (a, false)
    else
      let '(a, go) := actor_tick a now in
      if negb go || negb (running a) then (a, false)
      else match a_incoming a with
           | [] => (a, true)
           | f :: l =>
               if revoked then (set_incoming a l, true) else
               let a := burst (CAPACITY - 1) (set_incoming a l) f later in
               let a := if running a then actor_flush a else a in
               (a, running a)
           end.

(** [cleanup_receiver]: the release is tried until the destination takes it;
    [tries] bounds the attempts. *)
Fixpoint cleanup_loop (tries : nat) (r : InputReceiver) : InputReceiver * bool :=
  if negb (r_cleanup_pending r) then (r, true)
  else match tries with
       | O => (r, false)
       | S tries => cleanup_loop tries (retry_cleanup outcome r)
       end.
Definition cleanup_receiver (tries : nat) (a : Actor) : Actor * bool :=
  let '(r, _) := stop outcome (a_receiver a) FPeerStopped in
  let '(r, done) := cleanup_loop tries r in (set_receiver a r, done).
End Destination.

(** ** The environment watch *)

Inductive EnvironmentFailure := EnvNative | EnvDisplaysChanged.
Definition environment_failure (e : EnvironmentFailure) : ActorFailure :=
  match e with EnvNative => ANative | EnvDisplaysChanged => ALocalDisplaysChanged end.

(** [DisplayWatch::recheck]: a failed check ends the session at once, a display
    read only once it settled. *)
Definition watch_observe (w : DisplaySettle) (read : DisplayRead) (now : Z)
  : DisplaySettle * result EnvironmentFailure () :=
  let '(w, verdict) := observe w read now in
  (w, match verdict with
      | Steady | Unsettled | Recovered _ => Ok ()
      | DChanged => Err EnvDisplaysChanged
      end).
Definition watch_recheck (w : DisplaySettle) (check : result EnvironmentFailure DisplayRead) (now : Z)
  : DisplaySettle * result ActorFailure () :=
  match check with
  | Err e => (w, Err (environment_failure e))
  | Ok read => let '(w, o) := watch_observe w read now in (w, map_err environment_failure o)
  end.

(** ** What a turn is made of

    Every access of a turn to the receiver is one of these, in some order. *)

Inductive ActorOp :=
| AReceive (now : Z) | ATick (now : Z) | ATakeBack | AFlush | AGate (g : Gate FloorSnapshot)
| ACleanup | AStop (reason : ActorFailure) | AArrive (f : Frame).

Section Ops.
Context (outcome : list (DestinationAction * bool) -> DestinationAction -> bool).

Definition actor_op (a : Actor) (op : ActorOp) : Actor :=
  match op with
  | AReceive now =>
      match a_incoming a with
      | [] => a
      | f :: l => fst (actor_receive outcome (set_incoming a l) f now)
      end
  | ATick now => fst (actor_tick outcome a now)
  | ATakeBack => fst (actor_take_back outcome a)
  | AFlush => actor_flush outcome a
  | AGate g => set_receiver a (with_gate (a_receiver a) g)
  | ACleanup => set_receiver a (fst (stop outcome (a_receiver a) FPeerStopped))
  | AStop reason => actor_stop a reason
  | AArrive f => fst (try_submit a f)
  end.
(** The accesses of the thread itself. *)
Definition own (op : ActorOp) : bool := match op with AGate _ | AArrive _ => false | _ => true end.
Definition actor_micro (a a' : Actor) : Prop := exists op, own op = true /\ a' = actor_op a op.

Lemma answer_at l a m :
  answer (set_incoming a l) m = (set_incoming (fst (answer a m)) l, snd (answer a m)).
Proof.
  destruct m as [r [[m|]|e]]; cbn; try done. unfold emit. cbn.
  destruct (out_frame _ _ _) as [q [f|]]; [|done]. cbn. by case_match.
Qed.
Lemma answer_incoming a m : a_incoming (fst (answer a m)) = a_incoming a.
Proof.
  destruct m as [r [[m|]|e]]; cbn; try done. unfold emit.
  destruct (out_frame _ _ _) as [q [f|]]; [|done]. by case_match.
Qed.
Lemma set_incoming_id a l : a_incoming a = l -> set_incoming a l = a.
Proof. intros <-. by destruct a. Qed.

Lemma micro_op a op : own op = true -> rtc actor_micro a (actor_op a op).
Proof. intros Ho. apply rtc_once. by exists op. Qed.

(** A call that fails leaves a failed receiver, which takes no more frames. *)
Lemma stop_failed {A} r e r' (o : result ReceiverFailure A) :
  stop_err outcome r e = (r', o) -> exists e', r_failure r' = Some e' /\ o = Err e'.
Proof.
  unfold stop_err, stop. intros [= <- <-]. eexists. split; [|done].
  match goal with |- context [retry_cleanup _ ?x] => rewrite (proj2 (retry_cleanup_why outcome x)) end.
  by case_match.
Qed.
Lemma take_back_failed r r' e : take_back outcome r = (r', Err e) -> is_Some (r_failure r').
Proof.
  unfold take_back. case_match; [done|]. destruct (take_triggered _) as [g [gen|]]; [|done].
  unfold yield_to_local. case_match; [done|]. destruct (release_injected _ _) as [r1 o1].
  case_match; [|done]. intros (e' & He & _)%stop_failed. eauto.
Qed.
Lemma receive_failed r f now : is_Some (r_failure r) -> exists e, receive outcome r f now = (r, Err e).
Proof. intros [e He]. exists e. unfold receive. by rewrite He. Qed.

Lemma answer_stopped a r e : snd (answer a (r, Err e)) = false /\ a_stopped (fst (answer a (r, Err e))) <> 0.
Proof. split; [done|]. cbn. unfold status_stop. destruct (Z.eqb_spec (a_stopped a) 0); done. Qed.
Lemma answer_go a m : snd (answer a m) = false -> exists r e, m = (r, Err e).
Proof. destruct m as [r [[?|]|e]]; cbn; try done. eauto. Qed.
Lemma answer_failed_again a e : a_stopped a <> 0 -> fst (answer a (a_receiver a, Err e : result _ (option Message))) = a.
Proof.
  intros Ha. cbn. unfold actor_stop, set_receiver. cbn. unfold status_stop.
  destruct (Z.eqb_spec (a_stopped a) 0); [done|]. by destruct a.
Qed.

(** A frame is taken from the front of the queue. *)
Lemma receive_next_micro a f now :
  rtc actor_micro (set_incoming a (f :: a_incoming a)) (fst (receive_next outcome a f now))
  /\ a_incoming (fst (receive_next outcome a f now)) = a_incoming a.
Proof.
  unfold receive_next. destruct (actor_take_back outcome a) as [a1 go1] eqn:E1. unfold actor_take_back in E1.
  pose proof (answer_at (f :: a_incoming a) a (take_back outcome (a_receiver a))) as H1.
  pose proof (answer_incoming a (take_back outcome (a_receiver a))) as I1.
  rewrite E1 in H1, I1. cbn [fst snd] in H1, I1. split.
  - etrans; [apply (micro_op _ ATakeBack eq_refl)|]. cbn [actor_op]. unfold actor_take_back.
    change (a_receiver (set_incoming a (f :: a_incoming a))) with (a_receiver a). rewrite H1. cbn [fst].
    etrans; [apply (micro_op _ (AReceive now) eq_refl)|]. cbn [actor_op a_incoming set_incoming].
    change (set_incoming (set_incoming a1 (f :: a_incoming a)) (a_incoming a)) with (set_incoming a1 (a_incoming a)).
    rewrite (set_incoming_id a1) by done. destruct go1; cbn [negb fst]; [done|].
    destruct (answer_go a (take_back outcome (a_receiver a))) as (r & e & Et); [by rewrite E1|].
    rewrite Et in E1. pose proof (take_back_failed _ _ _ Et) as Hf.
    assert (a_receiver a1 = r) as Hr by (apply (f_equal fst) in E1; cbn in E1; by rewrite <- E1).
    unfold actor_receive. rewrite Hr. destruct (receive_failed r f now Hf) as [e' ->].
    rewrite <- Hr, answer_failed_again; [done|].
    pose proof (proj2 (answer_stopped a r e)) as Hs. by rewrite E1 in Hs.
  - destruct go1; cbn [negb fst]; [|done]. unfold actor_receive. rewrite answer_incoming. done.
Qed.
Lemma burst_micro more a f now :
  rtc actor_micro (set_incoming a (f :: a_incoming a)) (burst outcome more a f now).
Proof.
  revert a f. induction more as [|more IH]; intros a f; cbn [burst].
  all: destruct (receive_next_micro a f now) as [Hn Hi].
  all: destruct (receive_next outcome a f now) as [a1 []]; cbn [fst negb] in *; try done.
  destruct (a_incoming a1) as [|f' l] eqn:El; [done|]. etrans; [exact Hn|].
  replace a1 with (set_incoming (set_incoming a1 l) (f' :: a_incoming (set_incoming a1 l))) at 1; [apply IH|].
  cbn. rewrite <- El. by destruct a1.
Qed.

(** A turn is a sequence of accesses, unless it drops a frame; the next one then
    stops the session. *)
Lemma turn_micro a now later stopping :
  rtc actor_micro a (fst (actor_turn outcome a now later stopping false)).
Proof.
  unfold actor_turn. destruct stopping; [apply (micro_op _ (AStop ARevoked) eq_refl)|].
  pose proof (micro_op a ATakeBack eq_refl) as H1. cbn [actor_op] in H1.
  destruct (actor_take_back outcome a) as [a1 []]; cbn [fst negb] in *; [|done].
  etrans; [exact H1|]. clear H1. pose proof (micro_op a1 (ATick now) eq_refl) as H1. cbn [actor_op] in H1.
  destruct (actor_tick outcome a1 now) as [a2 []]; cbn [fst negb orb] in *; [|done].
  etrans; [exact H1|]. clear H1. destruct (running a2); cbn [negb fst]; [|done].
  destruct (a_incoming a2) as [|f l] eqn:El; [done|]. cbn [fst].
  etrans; [|case_match; [apply (micro_op _ AFlush eq_refl)|done]].
  replace a2 with (set_incoming (set_incoming a2 l) (f :: a_incoming (set_incoming a2 l))) at 1;
    [apply burst_micro|].
  cbn. rewrite <- El. by destruct a2.
Qed.
End Ops.
