(* ===== verification/ReceiverFollow.v ===== *)
(** * A receiver follows what its source sends (session_receiver.rs)

    [Wire] is what the frames of one direction say, read at one end of the link:
    the epoch, the next number, what the source told is down and whether it may
    send input.  [wire_step] reads a frame and is [None] when a receiver has to
    refuse it.  [Follows] relates a wire to a receiver that has read its frames;
    a receiver that follows a wire never blames its source for the next frame of
    it ([receive_follows]). *)

From stdpp Require Import gmap.
From S2P Require Import Prelude F64 Types Geometry HeldInput Source SourceStream Floor TakeBack.
From S2P Require Import Injection Messages Sequence Chord Translator SessionHealth Receiver ReceiverSafety ReceiverActor.

Record Wire := mkWire { w_epoch : Z; w_seq : Z; w_keys : gset Z; w_buttons : gset Z; w_active : bool }.

Definition wire_engaged (w : Wire) (b : bool) : Wire :=
  mkWire (w_epoch w) (w_seq w) (w_keys w) (w_buttons w) b.
Definition wire_input (w : Wire) (n : Z) (m : Message) : option Wire :=
  match m with
  | MsgKey u down repeat mods =>
      (fun keys => mkWire (w_epoch w) n keys (w_buttons w) (w_active w))
        <$> key_step (w_keys w) u down repeat mods
  | MsgButton b down _ =>
      (fun buttons => mkWire (w_epoch w) n (w_keys w) buttons (w_active w))
        <$> button_step (w_buttons w) (button_index b) down
  | MsgMotion (Absolute _) | MsgScroll _ _ | MsgGesture _ | MsgSystemGesture _ =>
      Some (mkWire (w_epoch w) n (w_keys w) (w_buttons w) (w_active w))
  | _ => None
  end.

(** Numbers may be left out: the queue before the link replaces positions and
    heartbeats that nobody read. *)
Definition wire_step (w : Wire) (f : Frame) : option Wire :=
  match message f with
  | MsgPing _ | MsgPong _ => Some w
  | MsgActivateDisplayAt _ _ _ =>
      if (epoch f =? w_epoch w + 1) && (epoch f <=? u64_max) && (sequence f =? 0)
      then Some (mkWire (epoch f) 1 (w_keys w) (w_buttons w) false) else None
  | MsgReleaseAll =>
      if (epoch f =? w_epoch w) && (w_seq w <=? sequence f)
      then Some (mkWire (w_epoch w) (sequence f + 1) ∅ ∅ false) else None
  | m =>
      if (epoch f =? w_epoch w) && (w_seq w <=? sequence f) && w_active w
      then wire_input w (sequence f + 1) m else None
  end.
Definition wire_run (w : Wire) (l : list Frame) : option Wire :=
  foldl (fun o f => w ← o; wire_step w f) (Some w) l.

(** The failures that say the source broke the protocol's order. *)
Definition blames (e : ReceiverFailure) : bool :=
  match e with
  | FInvalidEpoch | FInvalidSequence | FNotActive | FInvalidPressedState | FUnexpectedMessage => true
  | _ => false
  end.

Definition below (last : option Z) (n : Z) : Prop :=
  match last with Some l => l < n | None => True end.

Definition Follows (w : Wire) (r : InputReceiver) : Prop :=
  r_failure r = None /\ r_epoch r = w_epoch w /\ active_epoch (r_sequences r) = Some (w_epoch w)
  /\ below (reliable_sequence (r_sequences r)) (w_seq w)
  /\ below (motion_sequence (r_sequences r)) (w_seq w)
  /\ (r_held_since r = None ->
      r_keys r = w_keys w /\ r_buttons r = w_buttons w /\ (w_active w = true -> is_Some (r_active r))).

(** What a reply says of the frame it answers, and of the wire: an accepted
    activation lets input follow. *)
Definition replies (f : Frame) (reply : option Message) : Prop :=
  match reply with
  | Some MsgReleaseAck => message f = MsgReleaseAll
  | Some (MsgActivationAck _) => exists id p c, message f = MsgActivateDisplayAt id p c
  | _ => True
  end.
Definition answered (w : Wire) (reply : option Message) : Wire :=
  match reply with Some (MsgActivationAck _) => wire_engaged w true | _ => w end.
Definition keeps_up (w : Wire) (f : Frame)
    (m : InputReceiver * result ReceiverFailure (option Message)) : Prop :=
  match m with
  | (r, Ok reply) => Follows (answered w reply) r /\ replies f reply
  | (_, Err e) => blames e = false
  end.

Lemma modifiers_agree r : rx_modifiers r = modifiers_of (r_keys r).
Proof.
  unfold rx_modifiers, modifiers_of. replace (seqZ 0xE0 8) with (Z.add 0xE0 <$> seqZ 0 8) by reflexivity.
  generalize 0 at 1 3. assert (Forall (fun i => modifier_mask (0xE0 + i) = 1 ≪ i) (seqZ 0 8)) as Hm
    by (repeat constructor).
  induction Hm as [|i l Hi _ IH]; intros mask; [done|]. rewrite fmap_cons. cbn [foldl]. rewrite Hi. apply IH.
Qed.

Section Receiver.
Context (outcome : list (DestinationAction * bool) -> DestinationAction -> bool).

(** ** The operations *)

Lemma keeps_up_bind {A} w f (m : InputReceiver * result ReceiverFailure A) k :
  (forall r a, m = (r, Ok a) -> keeps_up w f (k r a)) -> (forall r e, m = (r, Err e) -> blames e = false) ->
  keeps_up w f (st_bind m k).
Proof. destruct m as [r [a|e]]; intros H1 H2; cbn; [by apply H1|by eapply H2]. Qed.

Lemma keeps_up_quiet w f m :
  (forall r, m = (r, Ok ()) -> Follows w r) -> (forall r e, m = (r, Err e) -> blames e = false) ->
  keeps_up w f (quiet m).
Proof. intros H1 H2. apply keeps_up_bind; [|done]. intros r [] E. split; [by apply H1|done]. Qed.

Lemma native_err (b : bool) e :
  (if b then Ok () else Err FNativeDelivery : result ReceiverFailure ()) = Err e -> blames e = false.
Proof. destruct b; by intros [= <-]. Qed.
Lemma deliver_err r a r' e : deliver outcome r a = (r', Err e) -> blames e = false.
Proof. rewrite deliver_spec. case_match; by intros [= <- <-]. Qed.
Lemma deliver_calls r a r' o : deliver outcome r a = (r', o) -> exists calls, r' = with_calls r calls.
Proof. rewrite deliver_spec. intros [= <- <-]. eauto. Qed.
Lemma deliver_keys_calls r plan r' o :
  deliver_keys outcome r plan = (r', o) ->
  (exists calls, r' = with_calls r calls) /\ (forall e, o = Err e -> blames e = false).
Proof.
  revert r. induction plan as [|s plan IH]; intros r; cbn [deliver_keys].
  { intros [= <- <-]. split; [|done]. exists (r_calls r). by destruct r. }
  rewrite deliver_spec. case_match; cbn [st_bind].
  - intros [[calls ->] He]%IH. split; [by eexists|done].
  - intros [= <- <-]. split; [by eexists|]. by intros e [= <-].
Qed.

(** A frame with a number not read yet. *)
Definition wire_at (w : Wire) (n : Z) : Wire :=
  mkWire (w_epoch w) n (w_keys w) (w_buttons w) (w_active w).
Lemma below_mono last n m : below last n -> n <= m -> below last m.
Proof. destruct last; cbn; lia. Qed.
Lemma accept_follows w r f :
  Follows w r -> epoch f = w_epoch w -> w_seq w <= sequence f ->
  exists g, accept (r_sequences r) f = (g, Ok ()) /\ Follows (wire_at w (sequence f + 1)) (with_sequences r g).
Proof.
  intros (H0 & H1 & H2 & H3 & H4 & H5) He Hs. unfold accept, admit_frame, check_epoch.
  rewrite H2, He, Z.eqb_refl. cbn [negb].
  assert (below (last_of (r_sequences r) (space_of (message f))) (w_seq w)) as Hl.
  { unfold space_of. by destruct (delivery (message f)). }
  assert (Sequence.advance (last_of (r_sequences r) (space_of (message f))) (sequence f) = Ok (Some (sequence f))) as ->.
  { unfold Sequence.advance. destruct (last_of _ _) as [l|]; [|done]. cbn in Hl.
    rewrite (proj2 (Z.leb_gt _ _)) by lia. done. }
  eexists. split; [done|]. unfold Follows. rx. cbn [w_epoch w_seq w_keys w_buttons w_active wire_at].
  unfold space_of. destruct (delivery (message f)); cbn; split_and!; try done; try lia; eapply below_mono; eauto; lia.
Qed.

Lemma apply_pending_follows w r r' o :
  Follows w r -> apply_pending_move outcome r = (r', o) ->
  Follows w r' /\ r_held_since r' = r_held_since r /\ (forall e, o = Err e -> blames e = false).
Proof.
  intros HF. unfold apply_pending_move. set (r1 := if suppress_injection r then _ else r).
  assert (Follows w r1 /\ r_held_since r1 = r_held_since r) as [HF1 Hh1] by (subst r1; by destruct (suppress_injection r)).
  clearbody r1. destruct (r_pending_move r1) as [p|]; [|by intros [= <- <-]].
  rewrite deliver_spec. destruct (outcome _ _); cbn [st_bind]; intros [= <- <-]; split_and!; try done.
  by intros e [= <-].
Qed.

Lemma active_of w r : Follows w r -> r_held_since r = None -> w_active w = true ->
  exists a, require_active r = Ok a.
Proof.
  intros (_ & _ & _ & _ & _ & H5) Hh Ha. destruct (H5 Hh) as (_ & _ & Hact). destruct (Hact Ha) as [a E].
  exists a. unfold require_active. by rewrite E.
Qed.

Lemma key_follows w w' r f u down repeat mods n :
  Follows (wire_at w n) r -> r_held_since r = None -> w_active w = true ->
  wire_input w n (MsgKey u down repeat mods) = Some w' ->
  keeps_up w' f (on_key outcome r u down repeat mods).
Proof.
  intros HF Hh Ha Hw. destruct (active_of _ r HF Hh Ha) as [a Eact]. unfold on_key. rewrite Eact. cbn [lift_err].
  cbn in Hw. destruct (key_step (w_keys w) u down repeat mods) as [keys|] eqn:Ek; [|done].
  apply (inj Some) in Hw as <-. pose proof HF as (H0 & H1 & H2 & H3 & H4 & H5).
  destruct (H5 Hh) as (Hk & Hb & Hact). cbn [wire_at w_keys w_buttons w_active] in *.
  unfold key_step in Ek. rewrite <- Hk in Ek.
  destruct (usage_is_valid u); cbn [negb orb] in Ek |- *; [|done].
  destruct ((down && _) || (negb down && _)); [done|].
  destruct (modifiers_of _ =? mods) eqn:Em; [|done]. apply (inj Some) in Ek as <-.
  set (r1 := with_keys r _). rewrite (modifiers_agree r1). change (r_keys r1) with (if down then {[u]} ∪ r_keys r else r_keys r ∖ {[u]}).
  rewrite Em. cbn [negb].
  assert (Follows (mkWire (w_epoch w) n (if down then {[u]} ∪ r_keys r else r_keys r ∖ {[u]}) (w_buttons w) (w_active w)) r1) as HF1.
  { split_and!; try done. }
  destruct (suppress_injection r1); [by split|].
  destruct (t_key _ _ _ _) as [k plan]. apply keeps_up_quiet.
  - intros r' E. apply deliver_keys_calls in E as [[calls ->] _]. exact HF1.
  - intros r' e E. by apply deliver_keys_calls in E as [_ He]; apply He.
Qed.

Lemma button_follows w w' r f b down count n :
  Follows (wire_at w n) r -> r_held_since r = None -> w_active w = true ->
  wire_input w n (MsgButton b down count) = Some w' ->
  keeps_up w' f (on_button outcome r b down count).
Proof.
  intros HF Hh Ha Hw. destruct (active_of _ r HF Hh Ha) as [a Eact]. unfold on_button. rewrite Eact. cbn [lift_err].
  cbn in Hw. destruct (button_step (w_buttons w) (button_index b) down) as [buttons|] eqn:Ek; [|done].
  apply (inj Some) in Hw as <-. pose proof HF as (H0 & H1 & H2 & H3 & H4 & H5).
  destruct (H5 Hh) as (Hk & Hb & Hact). cbn [wire_at w_keys w_buttons w_active] in *.
  unfold button_step in Ek. rewrite <- Hb in Ek.
  destruct (Bool.eqb _ down); [done|]. apply (inj Some) in Ek as <-.
  assert (forall calls k, Follows (mkWire (w_epoch w) n (w_keys w)
    (if down then {[button_index b]} ∪ r_buttons r else r_buttons r ∖ {[button_index b]}) (w_active w))
    (with_buttons (with_calls (with_keyboard r k) calls)
      (if down then {[button_index b]} ∪ r_buttons r else r_buttons r ∖ {[button_index b]}))) as HF1
    by (intros; by split_and!).
  apply keeps_up_bind.
  - intros r' [] E. cut (exists calls k, r' = with_calls (with_keyboard r k) calls);
      [intros (calls & k & ->); split; [apply HF1|done]|].
    destruct (suppress_injection r). { injection E as <-. exists (r_calls r), (r_keyboard r). by destruct r. }
    apply st_bind_Ok in E as (r1 & [] & E1 & E2). apply deliver_calls in E2 as [calls ->].
    destruct down.
    + destruct (t_click _ _) as [k plan]. apply deliver_keys_calls in E1 as [[c1 ->] _]. by exists calls, k.
    + injection E1 as <-. exists calls, (r_keyboard r). by destruct r.
  - intros r' e E. destruct (suppress_injection r); [done|].
    apply st_bind_Err in E as [E|(r1 & [] & _ & E)]; [|by eapply deliver_err].
    destruct down; [|done]. destruct (t_click _ _) as [k plan]. by apply deliver_keys_calls in E as [_ He]; apply He.
Qed.

Lemma plain_follows w r f a :
  Follows w r -> keeps_up w f (quiet (deliver outcome r a)).
Proof.
  intros HF. apply keeps_up_quiet.
  - intros r' E. apply deliver_calls in E as [calls ->]. exact HF.
  - intros r' e E. by eapply deliver_err.
Qed.
Lemma scroll_follows w r f h v :
  Follows w r -> r_held_since r = None -> w_active w = true -> keeps_up w f (on_scroll outcome r h v).
Proof.
  intros HF Hh Ha. destruct (active_of _ r HF Hh Ha) as [a Eact]. unfold on_scroll. rewrite Eact. cbn [lift_err].
  case_match; [done|]. case_match; [by split|]. by apply plain_follows.
Qed.
Lemma system_follows w r f g :
  Follows w r -> r_held_since r = None -> w_active w = true -> keeps_up w f (on_system_gesture outcome r g).
Proof.
  intros HF Hh Ha. destruct (active_of _ r HF Hh Ha) as [a Eact]. unfold on_system_gesture. rewrite Eact. cbn [lift_err].
  case_match; [by split|]. by apply plain_follows.
Qed.
Lemma apply_gesture_calls r g r' o :
  apply_gesture outcome r g = (r', o) ->
  (exists n gs calls, r' = with_calls (with_open_gestures (with_gesture_normalizations r n) gs) calls)
  /\ (forall e, o = Err e -> blames e = false).
Proof.
  assert (forall rotate phase r' o, apply_continuous outcome r g rotate phase = (r', o) ->
    (exists n gs calls, r' = with_calls (with_open_gestures (with_gesture_normalizations r n) gs) calls)
    /\ (forall e, o = Err e -> blames e = false)) as Hc.
  { intros rotate phase r1 o1. unfold apply_continuous.
    destruct (phase_is_terminal phase && _).
    { intros [= <- <-]. split; [|done]. exists (r_gesture_normalizations (count_repair r)), (r_open_gestures r), (r_calls r). by destruct r. }
    destruct (repair _ phase) as [b|].
    - rewrite !deliver_spec. destruct (outcome (r_calls (count_repair r)) _) eqn:E1; cbn [st_bind].
      + rewrite deliver_spec. intros [= <- <-]. split; [by eexists _, _, _|]. intros e. apply native_err.
      + intros [= <- <-]. split; [by eexists _, (r_open_gestures r), _|]. by intros e [= <-].
    - cbn [st_bind]. rewrite deliver_spec. intros [= <- <-].
      split; [by eexists (r_gesture_normalizations r), _, _|]. intros e. apply native_err. }
  unfold apply_gesture. destruct g; try apply Hc; rewrite deliver_spec; intros [= <- <-];
    (split; [by eexists (r_gesture_normalizations r), (r_open_gestures r), _|intros e; apply native_err]).
Qed.
Lemma gesture_follows w r f g now :
  Follows w r -> r_held_since r = None -> w_active w = true -> keeps_up w f (on_gesture outcome r g now).
Proof.
  intros HF Hh Ha. destruct (active_of _ r HF Hh Ha) as [a Eact]. unfold on_gesture. rewrite Eact. cbn [lift_err].
  case_match; [|done]. case_match; [by split|]. apply keeps_up_quiet.
  - intros r' E. apply apply_gesture_calls in E as [(n & gs & calls & ->) _]. exact HF.
  - intros r' e E. by apply apply_gesture_calls in E as [_ He]; apply He.
Qed.
Lemma motion_follows w r f m :
  Follows w r -> r_held_since r = None -> w_active w = true -> keeps_up w f (on_motion r m).
Proof.
  intros HF Hh Ha. destruct (active_of _ r HF Hh Ha) as [[id p] Eact]. unfold on_motion. rewrite Eact. cbn [lift_err].
  set (next := match m with Absolute _ => _ | Relative _ => _ end).
  unfold check_point. destruct (list_find _ _) as [[k d]|]; [|done]. destruct (negb _); [done|]. cbn [lift_err].
  destruct HF as (H0 & H1 & H2 & H3 & H4 & H5). split; [|done]. cbn [answered].
  split_and!; try done.
  intros Hh'. destruct (H5 Hh) as (? & ? & ?). by split_and!.
Qed.

(** ** Holding, releasing, cleaning up *)

Lemma retry_cleanup_wire r :
  r_epoch (retry_cleanup outcome r) = r_epoch r /\ r_sequences (retry_cleanup outcome r) = r_sequences r
  /\ r_control_sequences (retry_cleanup outcome r) = r_control_sequences r.
Proof.
  unfold retry_cleanup, release_injected. rewrite !apply_spec. cbv zeta.
  destruct (negb (r_cleanup_pending r)); [done|].
  destruct (may_release r); cbn [andb].
  all: try match goal with |- context [negb (is_ok ?o)] => destruct (negb (is_ok o)) end; try done.
  all: match goal with |- context [release_floor ?x] => destruct (rx_release_floor_fields x) as (g & fg & ->) end; done.
Qed.
(** A held receiver has only its numbers to follow. *)
Lemma held_follows w r r' :
  Follows w r -> r_epoch r' = r_epoch r -> r_sequences r' = r_sequences r ->
  r_failure r' = r_failure r -> r_held_since r' <> None -> Follows w r'.
Proof. intros (H0 & H1 & H2 & H3 & H4 & H5) E1 E2 E3 Hh. unfold Follows. rewrite E1, E2, E3. by split_and!. Qed.
Lemma retry_follows w r : Follows w r -> r_held_since r <> None -> Follows w (retry_cleanup outcome r).
Proof.
  intros HF Hh. destruct (retry_cleanup_wire r) as (E1 & E2 & _). destruct (retry_cleanup_why outcome r) as [E3 E4].
  apply (held_follows w r); congruence.
Qed.

Lemma stop_err_default {A} r e r' (o : result ReceiverFailure A) :
  stop_err outcome r e = (r', o) ->
  o = Err (default e (r_failure r)) /\ r_failure r' = Some (default e (r_failure r)).
Proof.
  unfold stop_err, stop. intros [= <- <-]. split; [done|].
  match goal with |- context [retry_cleanup _ ?x] => rewrite (proj2 (retry_cleanup_why outcome x)) end.
  by case_match.
Qed.
Lemma stop_err_reason {A} r e r' (o : result ReceiverFailure A) :
  r_failure r = None -> stop_err outcome r e = (r', o) -> o = Err e /\ r_failure r' = Some e.
Proof. intros Hr Hs. apply stop_err_default in Hs. by rewrite Hr in Hs. Qed.

Lemma release_injected_calls r r' o :
  release_injected outcome r = (r', o) ->
  exists calls, r' = with_calls (with_keyboard (with_open_gestures r (false, false)) (t_clear (r_keyboard r))) calls.
Proof. unfold release_injected. rewrite !apply_spec. intros [= <- _]. by eexists. Qed.

(** A release changes nothing but the gate, the keyboard, the gestures and the
    calls before it forgets what was pressed. *)
Definition release_start (r : InputReceiver) : InputReceiver * result () () :=
  let r := if owns_native r && bool_decide (is_Some (r_floor_generation r))
           then with_gate r (open_injection (r_gate r) 0) else r in
  if may_release r then release_injected outcome r else (with_open_gestures r (false, false), Ok ()).
Lemma release_start_fields r :
  exists g k gs calls,
    fst (release_start r) = with_calls (with_keyboard (with_open_gestures (with_gate r g) gs) k) calls.
Proof.
  unfold release_start. set (r0 := if owns_native r && _ then _ else r).
  assert (exists g, r0 = with_gate r g) as [g ->].
  { subst r0. case_match; [by eexists|]. exists (r_gate r). by destruct r. }
  destruct (may_release _).
  - destruct (release_injected outcome (with_gate r g)) as [r1 o] eqn:E.
    apply release_injected_calls in E as [calls ->]. by eexists _, _, _, _.
  - exists g, (r_keyboard r), (false, false), (r_calls r). by destruct r.
Qed.
Lemma finish_release_fields r native held now :
  exists g fg, finish_release r native held now =
    let r := with_pending_move (with_active (forget_pressed
               (with_yielding (with_gate (with_floor_generation r fg) g) false)) None) None in
    let? (r, _) := if held then rx_resume (with_cleanup_pending r false) now else (r, Ok ()) in
    (r, Ok (Some MsgReleaseAck)).
Proof.
  unfold finish_release. set (r2 := if native then _ else r).
  assert (exists g, r2 = with_gate r g) as [g ->].
  { subst r2. case_match; [by eexists|]. exists (r_gate r). by destruct r. }
  destruct (rx_release_floor_fields (with_gate r g)) as (g2 & fg & ->). by exists g2, fg.
Qed.
Lemma on_release_all_start r held now :
  exists native, on_release_all outcome r held now =
    let '(r, o) := release_start r in
    if negb (is_ok o) then (r, Err FNativeDelivery) else finish_release r native held now.
Proof. eexists. unfold on_release_all, release_start. cbv zeta. case_match; reflexivity. Qed.

Lemma rx_hold_follows w r now r' o :
  Follows w r -> rx_hold outcome r now = (r', o) ->
  match o with
  | Ok _ => Follows w r' /\ r_held_since r' <> None
  | Err e => blames e = false /\ r_failure r' = Some e
  end.
Proof.
  intros HF. pose proof HF as (H0 & _). unfold rx_hold. set (r0 := with_cleanup_pending _ true).
  assert (r_epoch r0 = r_epoch r /\ r_sequences r0 = r_sequences r /\ r_failure r0 = r_failure r) as (E1 & E2 & E3)
    by (subst r0; by destruct (owns_native r)).
  clearbody r0. destruct (retry_cleanup_wire r0) as (E4 & E5 & _). destruct (retry_cleanup_why outcome r0) as [_ E6].
  destruct (hold (r_health (retry_cleanup outcome r0)) now) as [h [[]|e]].
  - intros [= <- <-]. split; [|done]. apply (held_follows w r); rx; congruence.
  - intros [-> ?]%stop_err_reason; [done|]. rx. congruence.
Qed.

Lemma rx_resume_follows w r now r' o :
  Follows w r -> r_keys r = w_keys w -> r_buttons r = w_buttons w -> w_active w = false ->
  rx_resume r now = (r', o) ->
  match o with Ok _ => Follows w r' | Err e => blames e = false end.
Proof.
  intros (H0 & H1 & H2 & H3 & H4 & H5) Hk Hb Ha. unfold rx_resume.
  set (r0 := match r_held_since r with Some _ => _ | None => r end).
  assert (Follows w r0) as HF.
  { subst r0. destruct (r_held_since r) eqn:Eh; [|split_and!; try done; by rewrite Eh]. unfold Follows. rx.
    split_and!; try done. intros _. split_and!; try done. congruence. }
  clearbody r0. destruct (resume _ now) as [h [[]|e]]; cbn; intros [= <- <-]; done.
Qed.

(** ** Whole frames *)

Lemma release_follows w r f held now :
  Follows w r -> (held = false -> r_held_since r = None) -> message f = MsgReleaseAll ->
  keeps_up (mkWire (w_epoch w) (w_seq w) ∅ ∅ false) f (on_release_all outcome r held now).
Proof.
  intros (H0 & H1 & H2 & H3 & H4 & H5) Hh Hm. destruct (on_release_all_start r held now) as [native ->].
  destruct (release_start_fields r) as (g & k & gs & calls & E). destruct (release_start r) as [r1 o]. cbn [fst] in E. subst r1.
  destruct (negb (is_ok o)); [done|].
  destruct (finish_release_fields (with_calls (with_keyboard (with_open_gestures (with_gate r g) gs) k) calls) native held now)
    as (g2 & fg & ->). unfold forget_pressed. cbv zeta. apply keeps_up_bind.
  - intros r3 [] E. split; [|exact Hm]. destruct held.
    + apply (rx_resume_follows (mkWire (w_epoch w) (w_seq w) ∅ ∅ false)) in E; try done; by split_and!.
    + injection E as <-. by split_and!.
  - intros r3 e E. destruct held; [|done].
    apply (rx_resume_follows (mkWire (w_epoch w) (w_seq w) ∅ ∅ false)) in E; try done; by split_and!.
Qed.

Lemma held_ignored w w' r f n m :
  Follows (wire_at w n) r -> r_held_since r <> None -> wire_input w n m = Some w' ->
  keeps_up w' f (r, Ok None).
Proof.
  intros HF Hh Hw. split; [|done]. cbn [answered].
  assert (w_epoch w' = w_epoch w /\ w_seq w' = n) as [E1 E2].
  { unfold wire_input in Hw. destruct m; try done; try (by apply (inj Some) in Hw as <-).
    - destruct m; [|done]. by apply (inj Some) in Hw as <-.
    - destruct (button_step _ _ _); [|done]. by apply (inj Some) in Hw as <-.
    - destruct (key_step _ _ _ _ _); [|done]. by apply (inj Some) in Hw as <-. }
  destruct HF as (H0 & H1 & H2 & H3 & H4 & H5). unfold Follows. rewrite E1, E2. by split_and!.
Qed.

Lemma message_follows w w' r f held now :
  Follows (wire_at w (sequence f + 1)) r -> (held = true <-> r_held_since r <> None) -> w_active w = true ->
  wire_input w (sequence f + 1) (message f) = Some w' ->
  keeps_up w' f (on_message outcome r (message f) held now).
Proof.
  intros HF Hh Ha Hw.
  destruct held.
  { pose proof (held_ignored w w' r f _ _ HF (proj1 Hh eq_refl) Hw) as HK. by destruct (message f). }
  assert (r_held_since r = None) as Hn by (destruct (r_held_since r); [|done]; destruct Hh as [_ Hh]; by discriminate Hh).
  destruct (message f) as [| | | |[p|]| | | | | | | | | | | | | | | | | ] eqn:Em; try done; cbn [on_message];
    try (apply (inj Some) in Hw as <-).
  - by apply motion_follows.
  - by eapply button_follows.
  - by apply scroll_follows.
  - by apply gesture_follows.
  - by apply system_follows.
  - by eapply key_follows.
Qed.

Lemma sequenced_follows w w' r f held now :
  Follows w r -> (held = true <-> r_held_since r <> None) -> is_heartbeat (message f) = false ->
  (forall id p c, message f <> MsgActivateDisplayAt id p c) -> wire_step w f = Some w' ->
  keeps_up w' f (on_sequenced outcome r f held now).
Proof.
  intros HF Hh Hb Hna Hw. unfold wire_step in Hw.
  assert (epoch f = w_epoch w /\ w_seq w <= sequence f /\
    ((message f = MsgReleaseAll /\ w' = mkWire (w_epoch w) (sequence f + 1) ∅ ∅ false)
     \/ (w_active w = true /\ wire_input w (sequence f + 1) (message f) = Some w'))) as (E1 & E2 & Hm).
  { destruct (message f) eqn:Em; try done; try (by destruct (Hna _ _ _ eq_refl));
      repeat match type of Hw with (if ?b then _ else _) = _ => destruct b eqn:?; [|done] end; bool_inv;
      (split_and!; [done|lia|]); try (by right). left. by apply (inj Some) in Hw as <-. }
  unfold on_sequenced. rewrite E1. destruct HF as (H0 & H1 & Hrest). rewrite H1, Z.eqb_refl. cbn [negb].
  destruct (accept_follows w r f (conj H0 (conj H1 Hrest)) E1 E2) as (g & -> & HF1).
  set (r1 := with_sequences r g) in *.
  assert (forall r2, Follows (wire_at w (sequence f + 1)) r2 -> r_held_since r2 = r_held_since r ->
    keeps_up w' f (on_message outcome r2 (message f) held now)) as Hmsg.
  { intros r2 HF2 Hh2. rewrite <- Hh2 in Hh. destruct Hm as [[Er ->]|[Ha Hwi]].
    - rewrite Er. apply (release_follows (wire_at w (sequence f + 1))); try done.
      intros ->. destruct (r_held_since r2); [|done]. destruct Hh as [_ Hh]. by discriminate Hh.
    - by eapply message_follows. }
  apply keeps_up_bind.
  - intros r2 [] E. apply Hmsg; destruct (negb held && _); try (by injection E as <-);
      apply (apply_pending_follows _ r1 _ _ HF1) in E as (? & ? & _); done.
  - intros r2 e E. destruct (negb held && _); [|done]. apply (apply_pending_follows _ r1 _ _ HF1) in E as (_ & _ & He).
    by apply He.
Qed.

Lemma heartbeat_follows w r f held now :
  Follows w r -> is_heartbeat (message f) = true -> keeps_up w f (on_heartbeat r f held now).
Proof.
  intros HF Hb. unfold on_heartbeat. destruct (accept_heartbeat _ f) as [g o].
  destruct (negb (is_ok o)); [by split|].
  destruct (message f); try done.
  - split; [by destruct held|]. by destruct held.
  - destruct held.
    + destruct (receive_pong_while_held _ _ _) as [h o']. apply keeps_up_bind; cbn.
      * intros r' a [= <- _]. by split.
      * intros r' e E. destruct o'; cbn in E; by simplify_eq.
    + destruct (receive_pong _ _ _) as [h o']. apply keeps_up_bind; cbn.
      * intros r' a [= <- _]. by split.
      * intros r' e E. destruct o'; cbn in E; by simplify_eq.
Qed.

Lemma activate_follows w w' r f id p cac held :
  Follows w r -> (held = true <-> r_held_since r <> None) -> message f = MsgActivateDisplayAt id p cac ->
  wire_step w f = Some w' -> keeps_up w' f (on_activate outcome r f id p cac held).
Proof.
  intros (H0 & H1 & H2 & H3 & H4 & H5) Hh Hm Hw. unfold wire_step in Hw. rewrite Hm in Hw.
  destruct (_ && _ && _) eqn:Ec in Hw; [|done]. bool_inv. apply (inj Some) in Hw as <-.
  unfold on_activate. rewrite bool_decide_eq_true_2; cbn [negb].
  2:{ unfold checked_add_u64. rewrite H1, (proj2 (Z.leb_le _ _)) by lia. f_equal. lia. }
  unfold check_point. destruct (list_find _ _) as [[k d]|]; [|done]. destruct (negb _); [done|]. cbn [lift_err].
  unfold activate_epoch. rewrite H2, (proj2 (Z.leb_gt _ _)) by lia. cbn [st_bind map_err]. rx.
  unfold accept, admit_frame, check_epoch. cbn [active_epoch]. rewrite Z.eqb_refl. cbn [negb].
  assert (space_of (message f) = SpReliable) as -> by (by rewrite Hm).
  cbn [last_of reliable_sequence Sequence.advance with_last st_bind map_err active_epoch motion_sequence heartbeat_sequence].
  set (g := mkSeqGate (Some (epoch f)) (Some (sequence f)) None None).
  assert (forall r', r_failure r' = r_failure r -> r_epoch r' = epoch f -> r_sequences r' = g ->
    r_held_since r' = r_held_since r -> r_keys r' = r_keys r -> r_buttons r' = r_buttons r ->
    Follows (mkWire (epoch f) 1 (w_keys w) (w_buttons w) false) r') as HF.
  { intros r' E1 E2 E3 E4 E5 E6. unfold Follows. rewrite E1, E2, E3, E4, E5, E6. cbn. split_and!; try done; try lia.
    intros Hn. destruct (H5 Hn) as (? & ? & _). done. }
  destruct held; [split; [by apply HF|done]|].
  match goal with |- context [claim_floor ?x] => pose proof (claim_floor_claims x) as [(g' & fg & Ecl) _];
    destruct (claim_floor x) as [r1 [[]|reason]] end; cbn [fst] in Ecl; subst r1; [|split; [by apply HF|done]].
  apply keeps_up_bind.
  - intros r2 [] E. split; [|by eexists _, _, _]. cbn [answered].
    match type of E with (if suppress_injection ?x then _ else _) = _ => set (r3 := x) in E end.
    assert (exists calls, r2 = with_calls r3 calls) as [calls ->].
    { destruct (suppress_injection r3); [injection E as <-; exists (r_calls r3); by destruct r3|]. by eapply deliver_calls. }
    assert (Follows (mkWire (epoch f) 1 (w_keys w) (w_buttons w) false) r3) as HF3 by (by apply HF).
    destruct HF3 as (K0 & K1 & K2 & K3 & K4 & K5). split_and!; try done.
    intros Hn. destruct (K5 Hn) as (? & ? & _). by split_and!.
  - intros r2 e E. destruct (suppress_injection _); [done|]. by eapply deliver_err.
Qed.

Lemma frame_follows w w' r f held now :
  Follows w r -> (held = true <-> r_held_since r <> None) -> wire_step w f = Some w' ->
  keeps_up w' f (on_frame outcome r f held now).
Proof.
  intros HF Hh Hw. unfold on_frame. destruct (allow_at _ _) as [l o]. apply keeps_up_bind.
  2:{ intros r' e E. destruct o; cbn in E; by simplify_eq. }
  intros r' a [= <- _]. destruct (is_heartbeat (message f)) eqn:Eb.
  { unfold wire_step in Hw. assert (w' = w) as -> by (destruct (message f); try done; congruence). by apply heartbeat_follows. }
  destruct (message f) eqn:Em; try (apply (sequenced_follows w); try done; congruence).
  by eapply activate_follows.
Qed.


(** ** Failing is left to [stop] *)

Definition same_failure {A} (r : InputReceiver) (m : InputReceiver * result ReceiverFailure A) : Prop :=
  r_failure (fst m) = r_failure r.
Lemma same_bind {A B} r (m : InputReceiver * result ReceiverFailure A)
    (k : InputReceiver -> A -> InputReceiver * result ReceiverFailure B) :
  same_failure r m -> (forall r' a, r_failure r' = r_failure r -> same_failure r (k r' a)) ->
  same_failure r (st_bind m k).
Proof. destruct m as [r' [a|e]]; unfold same_failure; cbn; auto. Qed.
Lemma same_lift {A B} r r' (o : result ReceiverFailure A) (k : A -> InputReceiver * result ReceiverFailure B) :
  r_failure r' = r_failure r -> (forall a, same_failure r (k a)) -> same_failure r (lift_err r' o k).
Proof. destruct o; cbn; auto. Qed.
Lemma same_deliver r r' a : r_failure r' = r_failure r -> same_failure r (deliver outcome r' a).
Proof. unfold same_failure. by rewrite deliver_spec. Qed.
Lemma same_keys r r' plan : r_failure r' = r_failure r -> same_failure r (deliver_keys outcome r' plan).
Proof.
  intros E. unfold same_failure. destruct (deliver_keys outcome r' plan) as [r1 o] eqn:Ed.
  by apply deliver_keys_calls in Ed as [[calls ->] _].
Qed.
Lemma same_quiet r m : same_failure r m -> same_failure r (quiet m).
Proof. intros H. by apply same_bind. Qed.
Lemma same_gesture r r' g : r_failure r' = r_failure r -> same_failure r (apply_gesture outcome r' g).
Proof.
  intros E. unfold same_failure. destruct (apply_gesture outcome r' g) as [r1 o] eqn:Ed.
  by apply apply_gesture_calls in Ed as [(n & gs & calls & ->) _].
Qed.
Lemma same_pending r r' : r_failure r' = r_failure r -> same_failure r (apply_pending_move outcome r').
Proof.
  intros E. unfold apply_pending_move. set (r1 := if suppress_injection r' then _ else r').
  assert (r_failure r1 = r_failure r) by (subst r1; by case_match). clearbody r1.
  case_match; [|done]. apply same_bind; [by apply same_deliver|]. done.
Qed.
Create HintDb same.
Hint Resolve same_deliver same_keys same_quiet same_gesture same_pending : same.
Ltac same :=
  repeat first [done | progress auto with same | apply same_bind; [|intros ?? ?] | apply same_lift; [done|intros ?]
               | case_match].

Lemma rx_resume_failure r now : r_failure (fst (rx_resume r now)) = r_failure r.
Proof. unfold rx_resume. destruct (r_held_since r), (resume _ now); done. Qed.
Lemma same_release r r' held now : r_failure r' = r_failure r -> same_failure r (on_release_all outcome r' held now).
Proof.
  intros E. destruct (on_release_all_start r' held now) as [native ->].
  destruct (release_start_fields r') as (g & k & gs & calls & E1). destruct (release_start r') as [r1 o]. cbn [fst] in E1. subst r1.
  destruct (negb (is_ok o)); [exact E|].
  destruct (finish_release_fields (with_calls (with_keyboard (with_open_gestures (with_gate r' g) gs) k) calls) native held now)
    as (g2 & fg & ->). apply same_bind; [|intros r1 _ E1; exact E1]. destruct held; [|exact E].
  unfold same_failure. rewrite rx_resume_failure. exact E.
Qed.
Lemma same_message r r' m held now :
  r_failure r' = r_failure r -> same_failure r (on_message outcome r' m held now).
Proof.
  intros E. unfold on_message. destruct m; try done; try (by apply same_release); destruct held; try done.
  - unfold on_motion. apply same_lift; [done|]. intros [id p]. by apply same_lift.
  - unfold on_button. same.
  - unfold on_scroll. same.
  - unfold on_gesture. same.
  - unfold on_system_gesture. same.
  - unfold on_key. same.
Qed.
Lemma same_frame r r' f held now : r_failure r' = r_failure r -> same_failure r (on_frame outcome r' f held now).
Proof.
  intros E. unfold on_frame. destruct (allow_at _ _) as [l o]. apply same_bind; [done|]. intros r1 _ E1.
  case_match. { unfold on_heartbeat. destruct (accept_heartbeat _ f) as [g o1]. case_match; [done|]. case_match; try done.
    case_match; [destruct (receive_pong_while_held _ _ _)|destruct (receive_pong _ _ _)]; by apply same_bind. }
  assert (same_failure r (on_sequenced outcome r1 f held now)) as Hs.
  { unfold on_sequenced. case_match; [by case_match|]. destruct (accept _ f) as [g o1]. case_match.
    - apply same_bind; [case_match; [by apply same_pending|done]|]. intros. by apply same_message.
    - repeat case_match; done. }
  destruct (message f); try exact Hs.
  unfold on_activate. case_match; [done|]. apply same_lift; [done|]. intros [].
  destruct (activate_epoch _ _) as [g o1]. apply same_bind; [done|]. intros r2 _ E2.
  destruct (accept _ f) as [g2 o2]. apply same_bind; [done|]. intros r3 _ E3. case_match; [done|].
  match goal with |- context [claim_floor ?x] => pose proof (claim_floor_claims x) as [(g' & fg & Ecl) _];
    destruct (claim_floor x) as [r4 [[]|reason]] end; cbn [fst] in Ecl; subst r4; [|done].
  apply same_bind; [|done]. case_match; [done|]. by apply same_deliver.
Qed.

Lemma frame_default r f held now r1 e :
  r_failure r = None -> on_frame outcome r f held now = (r1, Err e) -> default e (r_failure r1) = e.
Proof.
  intros H0 E. pose proof (same_frame r r f held now eq_refl) as Hs. rewrite E in Hs. unfold same_failure in Hs.
  cbn [fst] in Hs. by rewrite Hs, H0.
Qed.
Lemma active_follows w w' r f now :
  Follows w r -> wire_step w f = Some w' ->
  keeps_up w' f (receive_active outcome r f now)
  /\ forall r1 e, receive_active outcome r f now = (r1, Err e) -> default e (r_failure r1) = e.
Proof.
  intros HF Hw. pose proof HF as (H0 & _). unfold receive_active.
  destruct (bool_decide (is_Some (r_held_since r))) eqn:Eh.
  { apply bool_decide_eq_true in Eh. split; [|intros r1 e; by apply frame_default].
    apply (frame_follows w); try done. split; [|done]. intros _ Hx. rewrite Hx in Eh. by destruct Eh. }
  apply bool_decide_eq_false in Eh. assert (r_held_since r = None) as Hn by (by apply eq_None_not_Some).
  destruct (check (r_health r) now) as [h o]. set (r0 := with_health r h).
  assert (Follows w r0 /\ r_failure r0 = None /\ r_held_since r0 = None) as (HF0 & H00 & Hn0) by done. clearbody r0. clear HF.
  destruct o as [[]|[]].
  - split; [|intros r1 e; by apply frame_default]. apply (frame_follows w); [done| |done]. by rewrite Hn0.
  - split; [done|]. intros r1 e [= <- <-]. by rewrite H00.
  - destruct (rx_hold outcome r0 now) as [r2 o2] eqn:Er. apply (rx_hold_follows w) in Er; [|done].
    destruct o2 as [[]|e2]; cbn [st_bind].
    + destruct Er as [HF2 Hh2]. split; [by apply (frame_follows w)|]. intros r1 e. apply frame_default. by destruct HF2.
    + destruct Er as [Hb Hf]. split; [done|]. intros r1 e [= <- <-]. by rewrite Hf.
  - split; [done|]. intros r1 e [= <- <-]. by rewrite H00.
  - split; [done|]. intros r1 e [= <- <-]. by rewrite H00.
Qed.

Lemma receive_follows w w' r f now r' o :
  Follows w r -> wire_step w f = Some w' -> receive outcome r f now = (r', o) ->
  match o with
  | Ok reply => Follows (answered w' reply) r' /\ replies f reply
  | Err e => blames e = false /\ r_failure r' = Some e
  end.
Proof.
  intros HF Hw. pose proof HF as (H0 & _). unfold receive. rewrite H0.
  destruct (active_follows w w' r f now HF Hw) as [HK Hfail].
  destruct (receive_active outcome r f now) as [r1 [reply|e]]; [by intros [= <- <-]|].
  specialize (Hfail r1 e eq_refl). intros [-> Hst]%stop_err_default. rewrite Hfail in Hst |- *. by split.
Qed.

(** ** Between frames *)

Definition no_ack (reply : option Message) : Prop :=
  match reply with Some MsgReleaseAck | Some (MsgActivationAck _) => False | _ => True end.
Definition goes_on {A} (P : A -> Prop) (w : Wire) (m : InputReceiver * result ReceiverFailure A) : Prop :=
  match m with
  | (r, Ok a) => Follows w r /\ P a
  | (r, Err e) => blames e = false /\ r_failure r = Some e
  end.
Lemma goes_on_stop {A} (P : A -> Prop) w r e :
  r_failure r = None -> blames e = false -> goes_on P w (stop_err outcome r e).
Proof. intros Hr He. destruct (stop_err outcome r e) as [r' o] eqn:E. apply stop_err_reason in E as [-> ?]; done. Qed.

Lemma flush_follows w r : Follows w r -> goes_on (fun _ => True) w (flush outcome r).
Proof.
  intros HF. pose proof HF as (H0 & _). unfold flush. rewrite H0.
  pose proof (same_pending r r eq_refl) as Hs. unfold same_failure in Hs.
  destruct (apply_pending_move outcome r) as [r' o] eqn:E. cbn [fst] in Hs.
  apply (apply_pending_follows w) in E as (HF' & _ & He); [|done].
  destruct o as [|e]; [done|]. apply goes_on_stop; [congruence|by apply He].
Qed.

Lemma take_back_follows w r : Follows w r -> goes_on no_ack w (take_back outcome r).
Proof.
  intros HF. unfold take_back. destruct (shared _); [done|]. destruct (take_triggered _) as [g [gen|]]; [|done].
  unfold yield_to_local. destruct (_ || _ || _); [done|]. set (r1 := with_pending_move _ None).
  assert (Follows w r1) as HF1 by done. clearbody r1. pose proof HF1 as (H1 & _).
  destruct (release_injected outcome r1) as [r2 o] eqn:E. apply release_injected_calls in E as [calls ->].
  destruct (negb (is_ok o)); [by apply goes_on_stop|done].
Qed.

Lemma poll_follows {A} (P : A -> Prop) w r h :
  Follows w r -> forall e, goes_on P w (stop_err outcome (with_health r h) (FHealth e)).
Proof. intros (H0 & _) e. by apply goes_on_stop. Qed.

Lemma tick_follows w r now : Follows w r -> goes_on no_ack w (tick outcome r now).
Proof.
  intros HF. pose proof HF as (H0 & _). unfold tick. rewrite H0. destruct (r_held_since r) as [since|] eqn:Eh.
  - destruct (_ <=? _); [by apply goes_on_stop|].
    assert (Follows w (retry_cleanup outcome r)) as HF1 by (apply retry_follows; [done|congruence]).
    destruct (poll_while_held _ now) as [h [token|e]]; [|by apply poll_follows].
    split; [exact HF1|]. by destruct token.
  - match goal with |- context [let '(_, _) := ?m in _] =>
      assert (match m with
              | (r1, Ok _) => Follows w r1
              | (r1, Err e) => blames e = false /\ r_failure r1 = None
              end) as Hm; [|destruct m as [r1 [[]|e]]] end.
    { destruct (_ && _); [|done]. destruct (may_release _); [|done].
      destruct (deliver outcome _ EndGestures) as [r1 o] eqn:E. pose proof E as E'. apply deliver_calls in E as [calls ->].
      destruct o as [|e]; [done|]. by apply deliver_err in E'. }
    + pose proof Hm as (H1 & _).
      destruct (poll (r_health r1) now) as [h [token|[]]]; try (by apply poll_follows).
      { split; [exact Hm|]. by destruct token. }
      assert (Follows w (with_health r1 h)) as HF2 by exact Hm.
      destruct (rx_hold outcome (with_health r1 h) now) as [r2 o2] eqn:Er. apply (rx_hold_follows w) in Er; [|done].
      destruct o2 as [[]|e2]; cbn [st_bind]; [|exact Er]. by destruct Er.
    + destruct Hm. by apply goes_on_stop.
Qed.
End Receiver.

(** ** Running over the frames in flight *)

(** A frame that may be left out of a stream: a position or a heartbeat. *)
Definition droppable (f : Frame) : bool :=
  match message f with MsgPing _ | MsgPong _ | MsgMotion (Absolute _) => true | _ => false end.

(** [wle w w']: [w'] accepts whatever [w] accepts. *)
Definition wle (w w' : Wire) : Prop :=
  w_epoch w' = w_epoch w /\ w_seq w' <= w_seq w /\ w_keys w' = w_keys w /\ w_buttons w' = w_buttons w
  /\ (w_active w = true -> w_active w' = true).

Lemma wle_refl w : wle w w.
Proof. by split_and!. Qed.
Lemma wle_trans w1 w2 w3 : wle w1 w2 -> wle w2 w3 -> wle w1 w3.
Proof. intros (? & ? & ? & ? & ?) (? & ? & ? & ? & ?). unfold wle. split_and!; try congruence; auto. lia. Qed.
Lemma wle_engaged w b : wle w (wire_engaged w (w_active w || b)).
Proof. split_and!; try done. cbn. by intros ->. Qed.

Lemma wire_input_mono w w' n m w1 :
  wle w w' -> wire_input w n m = Some w1 -> exists w1', wire_input w' n m = Some w1' /\ wle w1 w1'.
Proof.
  intros (E1 & E2 & E3 & E4 & E5) H. unfold wire_input in *. rewrite E1, E3, E4.
  destruct m as [| | | |[]| | | | | | | | | | | | | | | | | ]; try done;
    try (apply (inj Some) in H as <-; eexists; split; [done|]; by split_and!).
  - destruct (button_step _ _ _); [|done]. apply (inj Some) in H as <-. eexists; split; [done|]; by split_and!.
  - destruct (key_step _ _ _ _ _); [|done]. apply (inj Some) in H as <-. eexists; split; [done|]; by split_and!.
Qed.
Lemma wire_step_mono w w' f w1 :
  wle w w' -> wire_step w f = Some w1 -> exists w1', wire_step w' f = Some w1' /\ wle w1 w1'.
Proof.
  intros Hle H. pose proof Hle as (E1 & E2 & E3 & E4 & E5). unfold wire_step in *. rewrite E1.
  assert (forall n, (w_seq w <=? n) = true -> (w_seq w' <=? n) = true) as Hseq by (intros n; rewrite !Z.leb_le; lia).
  destruct (message f) eqn:Em;
    try (by apply (inj Some) in H as <-; eexists; split);
    repeat match type of H with (if ?b then _ else _) = _ => destruct b eqn:Eb; [|done] end;
    try (apply andb_true_iff in Eb as [Eb Ea]; apply andb_true_iff in Eb as [Eb Es]; rewrite Eb, (Hseq _ Es), (E5 Ea);
         cbn [andb]; by apply (wire_input_mono w)).
  - rewrite E3, E4. apply (inj Some) in H as <-. eexists. split; [done|]. by split_and!.
  - apply andb_true_iff in Eb as [Eb Es]. rewrite Eb, (Hseq _ Es). cbn [andb].
    apply (inj Some) in H as <-. eexists. split; [done|]. by split_and!.
Qed.
Lemma wire_run_cons w f l : wire_run w (f :: l) = (w1 ← wire_step w f; wire_run w1 l).
Proof.
  unfold wire_run. cbn. destruct (wire_step w f) as [w1|]; [done|]. cbn.
  by induction l.
Qed.
Lemma wire_run_snoc w l f : wire_run w (l ++ [f]) = (w1 ← wire_run w l; wire_step w1 f).
Proof. unfold wire_run. by rewrite foldl_app. Qed.
Lemma wire_run_mono w w' l w1 :
  wle w w' -> wire_run w l = Some w1 -> exists w1', wire_run w' l = Some w1' /\ wle w1 w1'.
Proof.
  revert w w'. induction l as [|f l IH]; intros w w' Hle H.
  { apply (inj Some) in H as <-. by exists w'. }
  rewrite wire_run_cons in *. destruct (wire_step w f) as [w2|] eqn:E; [|done].
  destruct (wire_step_mono w w' f w2 Hle E) as (w2' & -> & Hle2). by apply (IH w2).
Qed.
Lemma wire_step_drop w f w1 : droppable f = true -> wire_step w f = Some w1 -> wle w1 w.
Proof.
  unfold droppable, wire_step. destruct (message f) as [| | | |[]| | | | | | | | | | | | | | | | | ]; try done; intros _.
  - destruct (_ && _ && _) eqn:E; [|done]. intros [= <-]. bool_inv. split_and!; try done. cbn. lia.
  - intros [= <-]. apply wle_refl.
  - intros [= <-]. apply wle_refl.
Qed.
Lemma wire_run_drop w l1 f l2 w1 :
  droppable f = true -> wire_run w (l1 ++ f :: l2) = Some w1 ->
  exists w1', wire_run w (l1 ++ l2) = Some w1' /\ wle w1 w1'.
Proof.
  intros Hd. revert w. induction l1 as [|f1 l1 IH]; intros w H; cbn [app] in *.
  - rewrite wire_run_cons in H. destruct (wire_step w f) as [w2|] eqn:E; [|done]. cbn in H.
    apply (wire_run_mono w2); [|done]. by eapply wire_step_drop.
  - rewrite wire_run_cons in *. destruct (wire_step w f1) as [w2|]; [|done]. by apply IH.
Qed.
