(* ===== verification/LinkedPair.v ===== *)
(** * A source and a receiver, linked

    The source controller (session_source.rs), the queue its frames wait in
    (session_outbox.rs), the stream to the other computer, the thread that runs
    its receiver (session_actor.rs, session_receiver.rs) and the stream back.
    [pair_step] is one step of any of them; nothing is assumed of the order in
    which they run or of the time between them.  Frames keep their order; the
    link may end at any point, by a queue that refuses or a thread that stops.

    [pair_inv] says that what is in flight, read by a receiver that follows what
    it has read, ends at the view the source has of its peer.  With it the source
    needs no assumption on its peer, and the receiver none on its source. *)

From stdpp Require Import gmap relations.
From S2P Require Import Prelude F64 Types HeldInput SourceEdges SourceState Source SourceStream SourceCalls SourceSystem.
From S2P Require Import Floor TakeBack Injection Messages Sequence SessionOutbox Translator.
From S2P Require Import Receiver ReceiverSafety ReceiverActor ReceiverFollow.

Record Pair := mkPair {
  p_source : SourceController; p_queue : Queue; p_net : list Frame; p_actor : Actor;
  p_back : list Frame }.

Definition frame_of (e : SourceEffect) : option Frame :=
  match e with RemoteFrame f => Some f | _ => None end.
Definition frames_of (out : SourceOutcome) : list Frame := omap frame_of (out_effects out).
(** The frames of a call, queued one by one; once the queue refused, it refuses
    all. *)
Definition send_all (q : Queue) (l : list Frame) (now : Z) : Queue :=
  foldl (fun q f => fst (push q f now)) q l.
Definition waiting_frames (q : Queue) : list Frame := fst <$> frames q.

(** What the surroundings of the source may do next, whoever its peer is. *)
Definition is_frame (op : SourceOp) : bool := match op with CallFrame _ _ => true | _ => false end.
Definition arrives (op : ActorOp) : bool := match op with AArrive _ => true | _ => false end.
Definition gate_ok (a : Actor) (op : ActorOp) : Prop :=
  match op with AGate g => env_ok (a_receiver a) (RGate g) | _ => True end.

Section Pair.
Context `{Libm} (outcome : list (DestinationAction * bool) -> DestinationAction -> bool).

Inductive pair_step : Pair -> Pair -> Prop :=
| step_source s q net a back op s' out now :
    is_frame op = false -> (forall v, may_happen v s op = true) -> source_step s op = Some (s', out) ->
    pair_step (mkPair s q net a back) (mkPair s' (send_all q (frames_of out) now) net a back)
| step_hear s q net a f back s' out now :
    source_step s (CallFrame f now) = Some (s', out) ->
    pair_step (mkPair s q net a (f :: back)) (mkPair s' (send_all q (frames_of out) now) net a back)
| step_write s q net a back f q' :
    pop q = (q', Some f) -> pair_step (mkPair s q net a back) (mkPair s q' (net ++ [f]) a back)
| step_arrive s q f net a back :
    pair_step (mkPair s q (f :: net) a back) (mkPair s q net (fst (try_submit a f)) back)
| step_actor s q net a back op :
    arrives op = false -> gate_ok a op ->
    pair_step (mkPair s q net a back) (mkPair s q net (actor_op outcome a op) back)
| step_answer s q net a back f a' :
    try_response a = (a', Ok (Some f)) -> pair_step (mkPair s q net a back) (mkPair s q net a' (back ++ [f]))
| step_lose s q net a back1 f back2 :
    is_heartbeat (message f) = true ->
    pair_step (mkPair s q net a (back1 ++ f :: back2)) (mkPair s q net a (back1 ++ back2))
| step_close s q net a back :
    pair_step (mkPair s q net a back) (mkPair s (close q) net a back).

(** A session starts with both ends in the same epoch, nothing in flight. *)
Inductive linked : Pair -> Prop :=
| linked_start s c g now out cap :
    Started s -> shared c = false -> o_epoch (s_out s) = control_epoch c ->
    linked (mkPair s (new_queue cap) [] (mkActor (new_receiver c g now) out 0 [] []) [])
| linked_step p p' : linked p -> pair_step p p' -> linked p'.

(** ** What is in flight *)

Definition is_rel (f : Frame) : bool := match message f with MsgReleaseAll => true | _ => false end.
Definition is_ack (f : Frame) : bool := match message f with MsgReleaseAck => true | _ => false end.
Definition count (test : Frame -> bool) (l : list Frame) : Z :=
  foldr (fun f n => (if test f then 1 else 0) + n) 0 l.

(** Every accepted activation on its way back will be heard while input may
    follow it, or after a release was sent: [owed] releases are not acknowledged
    when the first frame is heard. *)
Fixpoint heard_ok (ep owed : Z) (act : bool) (l : list Frame) : Prop :=
  match l with
  | [] => True
  | f :: l =>
      match message f with
      | MsgActivationAck _ => (epoch f = ep -> owed = 0 -> act = true) /\ heard_ok ep owed act l
      | MsgReleaseAck => heard_ok ep (if epoch f =? ep then owed - 1 else owed) act l
      | _ => heard_ok ep owed act l
      end
  end.
Definition acks_until (ep : Z) (l : list Frame) : Prop :=
  Forall (fun f => match message f with MsgActivationAck _ => epoch f <= ep | _ => True end) l.

(** The wire at the source's end, and what the source knows of its peer. *)
Definition Tail (v : PeerView) (w : Wire) (answers : list Frame) : Prop :=
  w_epoch w = v_epoch v /\ w_seq w <= v_seq v /\ w_keys w = SourceStream.v_keys v
  /\ w_buttons w = SourceStream.v_buttons v
  /\ (v_active v = true -> v_owed v = 0 /\ w_active w = true)
  /\ heard_ok (v_epoch v) (v_owed v) (w_active w) answers /\ acks_until (v_epoch v) answers.

Lemma count_app test l1 l2 : count test (l1 ++ l2) = count test l1 + count test l2.
Proof. unfold count. induction l1 as [|f l1 IH]; cbn [foldr app]; lia. Qed.
Lemma count_cons test f l : count test (f :: l) = (if test f then 1 else 0) + count test l.
Proof. done. Qed.
Lemma count_nonneg test l : 0 <= count test l.
Proof. unfold count. induction l as [|f l IH]; cbn [foldr]; [lia|]. destruct (test f); lia. Qed.

Lemma heard_ok_mono ep owed (act act' : bool) l :
  (act = true -> act' = true) -> heard_ok ep owed act l -> heard_ok ep owed act' l.
Proof.
  intros Ha. revert owed. induction l as [|f l IH]; intros owed; cbn; [done|].
  destruct (message f); try (apply IH). intros [H1 H2]. split; [auto|by apply IH].
Qed.
Lemma heard_ok_many ep owed act l : count is_ack l < owed -> heard_ok ep owed act l.
Proof.
  revert owed. induction l as [|f l IH]; intros owed Hc; cbn; [done|]. rewrite count_cons in Hc.
  pose proof (count_nonneg is_ack l). unfold is_ack in Hc at 1.
  destruct (message f); try (apply IH; lia).
  - split; [lia|]. apply IH. lia.
  - apply IH. case_match; lia.
Qed.
Lemma heard_ok_new ep owed act l : acks_until ep l -> heard_ok (ep + 1) owed act l.
Proof.
  intros Hl. revert owed. induction Hl as [|f l Hf _ IH]; intros owed; cbn; [done|].
  destruct (message f); try apply IH. split; [lia|apply IH].
Qed.
Lemma heard_ok_snoc ep owed act l f :
  heard_ok ep owed act l ->
  (forall id, message f = MsgActivationAck id -> epoch f = ep -> owed <= count is_ack l -> act = true) ->
  heard_ok ep owed act (l ++ [f]).
Proof.
  revert owed. induction l as [|f' l IH]; intros owed; cbn [heard_ok app].
  - intros _ Hf. destruct (message f) eqn:Em; try done. split; [|done]. intros He Ho. eapply Hf; try done. by rewrite Ho.
  - rewrite count_cons. unfold is_ack at 1. intros Hh Hf.
    destruct (message f'); try (apply IH; [exact Hh|]; intros id Hm He Ho; eapply Hf; eauto; lia).
    + destruct Hh as [H1 H2]. split; [done|]. apply IH; [done|]. intros id Hm He Ho. eapply Hf; eauto.
    + apply IH; [exact Hh|]. intros id Hm He Ho. eapply Hf; eauto. case_match; lia.
Qed.

Lemma Tail_wle v w w' ans : wle w w' -> Tail v w ans -> Tail v w' ans.
Proof.
  intros (E1 & E2 & E3 & E4 & E5) (H1 & H2 & H3 & H4 & H5 & H6 & H7). unfold Tail.
  split_and!; try congruence; [lia| |by eapply heard_ok_mono]. intros Ha. destruct (H5 Ha). auto.
Qed.

Lemma frame_step_owed base v f v' :
  frame_step base v f = Some v' -> v_owed v' = v_owed v + (if is_rel f then 1 else 0).
Proof.
  unfold frame_step, is_rel. intros Hf.
  assert (forall m, input_step (next_number v) m = Some v' -> v_owed v' = v_owed v + 0) as Hin.
  { intros m Hm. unfold input_step in Hm. destruct m as [| | | |[]| | | | | | | | | | | | | | | | | ]; try done;
      try (apply (inj Some) in Hm as <-; cbn; lia); cbn in Hm;
      [destruct (button_step _ _ _)|destruct (key_step _ _ _ _ _)]; try done; apply (inj Some) in Hm as <-; cbn; lia. }
  destruct (message f) eqn:Em;
    match type of Hf with (if ?b then _ else _) = _ => destruct b; [|done] end; try exact (Hin _ Hf);
    injection Hf as <-; cbn; lia.
Qed.

(** The source sends a frame its peer has to accept. *)
Lemma tail_send base v v' w f ans :
  Tail v w ans -> count is_ack ans <= v_owed v -> frame_step base v f = Some v' ->
  exists w', wire_step w f = Some w' /\ Tail v' w' ans
    /\ v_owed v' = v_owed v + (if is_rel f then 1 else 0).
Proof.
  intros (H1 & H2 & H3 & H4 & H5 & H6 & H7) Hc. unfold frame_step, wire_step, is_rel.
  assert (forall m,
    (if (epoch f =? v_epoch v) && (sequence f =? v_seq v) && v_active v && (v_owed v =? 0)
     then input_step (next_number v) m else None) = Some v' ->
    exists w', (if (epoch f =? w_epoch w) && (w_seq w <=? sequence f) && w_active w
                then wire_input w (sequence f + 1) m else None) = Some w' /\ Tail v' w' ans
      /\ v_owed v' = v_owed v + 0) as Hinput.
  { intros m Hv. destruct (_ && _ && _ && _) eqn:Eb in Hv; [|done]. bool_inv.
    destruct H5 as [_ Ha]; [done|]. rewrite H1, Ha. rewrite (proj2 (Z.eqb_eq _ _)), (proj2 (Z.leb_le _ _)) by lia. cbn [andb].
    assert (forall keys buttons v1, v1 = SourceStream.mkView (v_epoch v) (v_seq v + 1) (v_control v) keys buttons (v_active v) (v_owed v) (v_native v) ->
      Tail v1 (mkWire (w_epoch w) (sequence f + 1) keys buttons (w_active w)) ans) as HT.
    { intros keys buttons v1 ->. unfold Tail. cbn. split_and!; try done; lia. }
    unfold input_step, wire_input in *. rewrite H3, H4.
    destruct m as [| | | |[]| | | | | | | | | | | | | | | | | ]; try done;
      try (apply (inj Some) in Hv as <-; eexists; split; [done|]; split; [by apply HT|cbn; lia]).
    - cbn in Hv. destruct (button_step _ _ _); [|done]. apply (inj Some) in Hv as <-.
      eexists; split; [done|]; split; [by apply HT|cbn; lia].
    - cbn in Hv. destruct (key_step _ _ _ _ _); [|done]. apply (inj Some) in Hv as <-.
      eexists; split; [done|]; split; [by apply HT|cbn; lia]. }
  destruct (message f) eqn:Em; try exact (Hinput _); clear Hinput.
  - destruct (_ && _ && _ && _) eqn:Eb; [|done]. intros [= <-]. bool_inv. rewrite H1.
    rewrite (proj2 (Z.eqb_eq _ _)), (proj2 (Z.leb_le _ _)), (proj2 (Z.eqb_eq _ 0)) by lia. cbn [andb].
    eexists. split; [done|]. split; [|cbn; lia]. unfold Tail, view_opened. cbn.
    split_and!; try done; try lia; [by apply heard_ok_new|].
    eapply Forall_impl; [|exact H7]. intros x. cbn. destruct (message x); lia.
  - destruct (_ && _) eqn:Eb; [|done]. intros [= <-]. bool_inv. rewrite H1.
    rewrite (proj2 (Z.eqb_eq _ _)), (proj2 (Z.leb_le _ _)) by lia. cbn [andb].
    eexists. split; [done|]. split; [|cbn; lia]. unfold Tail, view_released. cbn.
    split_and!; try done; try lia. apply heard_ok_many. lia.
  - destruct (_ && _); [|done]. intros [= <-]. eexists. split; [done|]. split; [by split_and!|cbn; lia].
  - destruct (_ && _); [|done]. intros [= <-]. eexists. split; [done|]. split; [by split_and!|cbn; lia].
Qed.

(** The source hears an answer. *)
Lemma tail_hear v w f ans :
  Tail v w (f :: ans) -> honest v f = true -> Tail (heard v f) w ans.
Proof.
  intros (H1 & H2 & H3 & H4 & H5 & H6 & H7) Hh. unfold heard, honest, Tail in *. cbn [heard_ok] in H6.
  inversion H7 as [|? ? H8 H9]; subst.
  destruct (epoch f =? v_epoch v) eqn:Ee; cbn [negb orb] in *.
  - apply Z.eqb_eq in Ee. destruct (message f) eqn:Em; try (by split_and!).
    + destruct H6 as [Hf H6]. cbn. split_and!; try done. intros [Ha|Ho%Z.eqb_eq]%orb_prop; [by apply H5|auto].
    + cbn. apply Z.ltb_lt in Hh. split_and!; try done. intros Ha. destruct (H5 Ha). lia.
  - destruct (message f) eqn:Em; try (by split_and!). destruct H6. by split_and!.
Qed.

(** ** The queue *)

Lemma push_thins q f now :
  (length (frames q) <= capacity q)%nat ->
  let q' := fst (push q f now) in
  (length (frames q') <= capacity q')%nat /\
  ((refused q' <> None /\ waiting_frames q' = waiting_frames q)
   \/ (refused q' = refused q /\ refused q = None /\ waiting_frames q' = waiting_frames q ++ [f])
   \/ (refused q' = refused q /\ refused q = None /\ exists l1 x l2, waiting_frames q = l1 ++ x :: l2
       /\ droppable x = true /\ is_rel x = false /\ waiting_frames q' = l1 ++ l2 ++ [f])).
Proof.
  intros Hcap. destruct (push q f now) as [q' r] eqn:E. cbn [fst].
  destruct (push_cases q f now q' r Hcap E) as [(rf & Hr & _ & ->)|[(Hr & _ & Hl & ->)|(Hr & _ & l & -> & Hl & Hc)]].
  - split; [done|]. left. by rewrite Hr.
  - split; [cbn; lia|]. by left.
  - split; [done|]. right. unfold waiting_frames. cbn [set_frames frames refused].
    destruct Hc as [(l0 & t & s & -> & Hn & ->)|[(l1 & t & s & l2 & -> & Hs & ->)| ->]].
    + right. split; [done|]. split; [done|]. exists (fst <$> l0), t, []. rewrite !fmap_app. cbn. split_and!; try done.
      * unfold newer_position, is_absolute in Hn. unfold droppable. destruct (message t) as [| | | |[]| | | | | | | | | | | | | | | | | ]; bool_inv; done.
      * unfold newer_position, is_absolute in Hn. unfold is_rel. destruct (message t) as [| | | |[]| | | | | | | | | | | | | | | | | ]; bool_inv; done.
    + right. split; [done|]. split; [done|]. exists (fst <$> l1), t, (fst <$> l2). rewrite !fmap_app. cbn.
      unfold superseded in Hs. apply andb_true_iff in Hs as [_ Hs].
      split_and!; [done| | |by rewrite <- app_assoc]; [unfold droppable|unfold is_rel]; by destruct (message t).
    + left. rewrite fmap_app. done.
Qed.

(** What the queue and the stream hold, continued by the source's view. *)
Definition Outgoing (v : PeerView) (w : Wire) (net : list Frame) (q : Queue) (ans : list Frame) : Prop :=
  exists w', wire_run w (net ++ waiting_frames q) = Some w' /\ (refused q = None -> Tail v w' ans).

Lemma push_outgoing base v v' w net q f now ans :
  (length (frames q) <= capacity q)%nat -> frame_step base v f = Some v' -> count is_ack ans <= v_owed v ->
  let q' := fst (push q f now) in
  (length (frames q') <= capacity q')%nat
  /\ v_owed v <= v_owed v'
  /\ count is_rel (waiting_frames q') + v_owed v <= count is_rel (waiting_frames q) + v_owed v'
  /\ (Outgoing v w net q ans -> Outgoing v' w net q' ans).
Proof.
  intros Hcap Hf Hack q'. destruct (push_thins q f now Hcap) as [Hcap' Hc]. fold q' in Hcap', Hc.
  clearbody q'. pose proof (frame_step_owed base v f v' Hf) as Ho.
  split; [done|]. split; [case_match; lia|]. split.
  { destruct Hc as [[_ ->]|[(_ & _ & ->)|(_ & _ & l1 & x & l2 & -> & _ & Hx & ->)]].
    - case_match; lia.
    - rewrite count_app, count_cons. cbn. lia.
    - rewrite !count_app, !count_cons, Hx. cbn. lia. }
  unfold Outgoing. intros (w1 & Hw & HT). destruct Hc as [[Hr ->]|[(Hr & Hr0 & ->)|(Hr & Hr0 & l1 & x & l2 & E & Hd & _ & ->)]].
  - exists w1. split; [done|]. intros Hx. by destruct Hr.
  - destruct (tail_send base v v' w1 f ans (HT Hr0) Hack Hf) as (w2 & Hs & HT2 & _). exists w2.
    rewrite app_assoc, wire_run_snoc, Hw. done.
  - destruct (tail_send base v v' w1 f ans (HT Hr0) Hack Hf) as (w2 & Hs & HT2 & _).
    rewrite E, app_assoc in Hw.
    destruct (wire_run_drop w (net ++ l1) x (l2 ++ [f]) w2 Hd) as (w3 & Hw3 & Hle).
    { replace ((net ++ l1) ++ x :: l2 ++ [f]) with (((net ++ l1) ++ x :: l2) ++ [f]) by (by rewrite <- !app_assoc).
      by rewrite wire_run_snoc, Hw. }
    exists w3. split; [by rewrite app_assoc|]. intros _. by eapply Tail_wle.
Qed.

Lemma effects_outgoing base l : forall v v' w net q now ans,
  (length (frames q) <= capacity q)%nat -> effects_run base v l = Some v' -> count is_ack ans <= v_owed v ->
  let q' := send_all q (omap frame_of l) now in
  (length (frames q') <= capacity q')%nat
  /\ v_owed v <= v_owed v'
  /\ count is_rel (waiting_frames q') + v_owed v <= count is_rel (waiting_frames q) + v_owed v'
  /\ (Outgoing v w net q ans -> Outgoing v' w net q' ans).
Proof.
  induction l as [|e l IH]; intros v v' w net q now ans Hcap Hr Hack.
  { apply (inj Some) in Hr as <-. cbn. split_and!; try done; lia. }
  unfold effects_run in Hr. cbn [foldl mbind option_bind] in Hr.
  destruct (effect_step base v e) as [v1|] eqn:Ee.
  2:{ exfalso. clear -Hr. induction l; [done|]. by apply IHl. }
  destruct e as [f| |]; cbn [effect_step] in Ee.
  - destruct (push_outgoing base v v1 w net q f now ans Hcap Ee Hack) as (H1 & H2 & H3 & H4).
    destruct (IH v1 v' w net (fst (push q f now)) now ans H1 Hr ltac:(lia)) as (K1 & K2 & K3 & K4).
    change (omap frame_of (RemoteFrame f :: l)) with (f :: omap frame_of l).
    change (send_all q (f :: omap frame_of l) now) with (send_all (fst (push q f now)) (omap frame_of l) now).
    split_and!; try done; try lia. auto.
  - injection Ee as <-. apply (IH _ v' w net q now ans Hcap Hr Hack).
  - injection Ee as <-. apply (IH _ v' w net q now ans Hcap Hr Hack).
Qed.

(** ** The wire between the ends *)

Lemma wire_run_app w l1 l2 : wire_run w (l1 ++ l2) = (w1 ← wire_run w l1; wire_run w1 l2).
Proof.
  revert w. induction l1 as [|f l1 IH]; intros w; [done|]. cbn [app]. rewrite !wire_run_cons.
  destruct (wire_step w f) as [w1|]; [|done]. cbn. apply IH.
Qed.
Lemma wire_step_keeps w f w1 :
  wire_step w f = Some w1 -> w_epoch w <= w_epoch w1
  /\ (w_active w = true -> is_rel f = false -> w_epoch w1 = w_epoch w -> w_active w1 = true).
Proof.
  unfold wire_step, is_rel. intros Hs.
  assert (forall m n, wire_input w n m = Some w1 -> w_epoch w1 = w_epoch w /\ w_active w1 = w_active w) as Hin.
  { intros m n Hm. unfold wire_input in Hm. destruct m as [| | | |[]| | | | | | | | | | | | | | | | | ]; try done;
      try (by apply (inj Some) in Hm as <-); cbn in Hm;
      [destruct (button_step _ _ _)|destruct (key_step _ _ _ _ _)]; try done; by apply (inj Some) in Hm as <-. }
  destruct (message f) eqn:Em;
    try (match type of Hs with (if ?b then _ else _) = _ => destruct b eqn:Eb; [|done] end);
    try (apply Hin in Hs as [-> ->]; split; [lia|done]);
    apply (inj Some) in Hs as <-; cbn; bool_inv; try (split; [lia|done]); split; lia.
Qed.
Lemma wire_run_keeps w l w1 :
  wire_run w l = Some w1 -> w_epoch w <= w_epoch w1
  /\ (w_active w = true -> count is_rel l = 0 -> w_epoch w1 = w_epoch w -> w_active w1 = true).
Proof.
  revert w. induction l as [|f l IH]; intros w Hr; [apply (inj Some) in Hr as <-; split; [lia|done]|].
  rewrite wire_run_cons in Hr. destruct (wire_step w f) as [w2|] eqn:E; [|done].
  apply wire_step_keeps in E as [E1 E2]. apply IH in Hr as [R1 R2]. split; [lia|]. intros Ha Hc He.
  rewrite count_cons in Hc. pose proof (count_nonneg is_rel l). destruct (is_rel f); [lia|].
  apply R2; [|lia|lia]. apply E2; [done|done|lia].
Qed.

(** ** The invariant *)

Definition answers (p : Pair) : list Frame := p_back p ++ a_outgoing (p_actor p).
Definition in_flight_all (p : Pair) : list Frame :=
  a_incoming (p_actor p) ++ p_net p ++ waiting_frames (p_queue p).

(** The receiver follows what it has read, what it has not read continues it, and
    the source's view continues that, as long as the link is whole. *)
Definition Linked (v : PeerView) (p : Pair) : Prop :=
  let r := a_receiver (p_actor p) in
  match r_failure r with
  | Some e => blames e = false
  | None =>
      exists w w1, Follows w r /\ wire_run w (a_incoming (p_actor p)) = Some w1
        /\ (running (p_actor p) = true -> Outgoing v w1 (p_net p) (p_queue p) (answers p))
  end.
Definition pair_inv (p : Pair) : Prop :=
  exists v, Run v (p_source p) /\ boundary (a_receiver (p_actor p))
    /\ (length (frames (p_queue p)) <= capacity (p_queue p))%nat
    /\ count is_rel (in_flight_all p) + count is_ack (answers p) <= v_owed v
    /\ Linked v p.

Lemma emit_cases a m :
  (exists f q, message f = m /\ (is_heartbeat m = false -> epoch f = r_epoch (a_receiver a))
     /\ emit a m = set_outgoing (set_sequences a q) (a_outgoing a ++ [f]))
  \/ (exists q stopped, stopped <> 0 /\ emit a m = mkActor (a_receiver a) q stopped (a_incoming a) (a_outgoing a)).
Proof.
  unfold emit. destruct (out_frame (a_sequences a) m (a_receiver a)) as [q [f|]] eqn:E.
  - assert (message f = m /\ (is_heartbeat m = false -> epoch f = r_epoch (a_receiver a))) as [E1 E2].
    { unfold out_frame in E. destruct (checked_add_u64 _ 1); [|done]. injection E as _ <-. split; [done|]. by intros ->. }
    case_match; [left; by exists f, q|]. right. unfold actor_stop. eexists q, _. split; [|done].
    cbn. unfold status_stop. destruct (Z.eqb_spec (a_stopped a) 0); done.
  - right. eexists q, _. split; [|done]. cbn. unfold status_stop. destruct (Z.eqb_spec (a_stopped a) 0); done.
Qed.
Lemma stopped_running r q st i o : st <> 0 -> running (mkActor r q st i o) = false.
Proof.
  intros Hs. unfold running. apply bool_decide_eq_false_2. cbn. unfold status_failure.
  destruct st as [|p|p]; [done| |done]. repeat (destruct p as [p|p|]; try done).
Qed.

Definition is_release_ack (o : result ReceiverFailure (option Message)) : bool :=
  match o with Ok (Some MsgReleaseAck) => true | _ => false end.
(** What a call of the receiver leaves: its failure, or a receiver that follows
    the frames left to read. *)
Definition left_with (v : PeerView) (net : list Frame) (q : Queue) (a : Actor) (l back : list Frame)
    (m : InputReceiver * result ReceiverFailure (option Message)) : Prop :=
  match r_failure (fst m) with
  | Some e => blames e = false
  | None =>
      exists reply w w1, snd m = Ok reply /\ Follows w (fst m) /\ wire_run w l = Some w1
        /\ (running a = true -> Outgoing v w1 net q (back ++ a_outgoing a))
        /\ (forall id, reply = Some (MsgActivationAck id) -> w_active w = true)
  end.

Lemma Outgoing_snoc v w w1 l net q ans f :
  Outgoing v w1 net q ans -> wire_run w l = Some w1 ->
  count is_rel (l ++ net ++ waiting_frames q) + count is_ack ans <= v_owed v ->
  (forall id, message f = MsgActivationAck id -> epoch f = w_epoch w /\ w_active w = true) ->
  Outgoing v w1 net q (ans ++ [f]).
Proof.
  intros (w2 & Hw2 & HT) Hw1 Hc Hf. exists w2. split; [done|]. intros Hr. specialize (HT Hr).
  destruct HT as (H1 & H2 & H3 & H4 & H5 & H6 & H7).
  assert (wire_run w (l ++ net ++ waiting_frames q) = Some w2) as Hall by (by rewrite wire_run_app, Hw1).
  apply wire_run_keeps in Hall as [Ke Ka]. unfold Tail. split_and!; try done.
  - apply heard_ok_snoc; [done|]. intros id Hm He Ho. destruct (Hf id Hm) as [Hfe Hfa].
    pose proof (count_nonneg is_rel (l ++ net ++ waiting_frames q)). apply Ka; [done|lia|congruence].
  - apply Forall_app. split; [done|]. constructor; [|done]. destruct (message f) eqn:Em; try done.
    destruct (Hf _ eq_refl) as [-> _]. lia.
Qed.

Ltac px :=
  cbn [p_source p_queue p_net p_actor p_back a_receiver a_sequences a_stopped a_incoming a_outgoing
    set_outgoing set_sequences set_receiver set_incoming actor_stop].
Tactic Notation "px" "in" hyp(Hyp) :=
  cbn [p_source p_queue p_net p_actor p_back a_receiver a_sequences a_stopped a_incoming a_outgoing
    set_outgoing set_sequences set_receiver set_incoming actor_stop] in Hyp.
Lemma answer_frames a m :
  exists sq st l, fst (answer a m) = mkActor (fst m) sq st (a_incoming a) (a_outgoing a ++ l)
    /\ count is_ack l <= (if is_release_ack (snd m) then 1 else 0)
    /\ (forall f id, f ∈ l -> message f = MsgActivationAck id -> snd m = Ok (Some (MsgActivationAck id)) /\ epoch f = r_epoch (fst m))
    /\ (l = [] \/ exists f, l = [f])
    /\ (running (fst (answer a m)) = true -> running a = true).
Proof.
  destruct m as [r o]. cbn [fst snd].
  assert (forall st, st = a_stopped a \/ st <> 0 -> running (mkActor r (a_sequences a) st (a_incoming a) (a_outgoing a)) = true -> running a = true) as Hrun0.
  { intros st [->|Hst] Hr; [exact Hr|]. by rewrite stopped_running in Hr. }
  destruct o as [[m|]|e]; cbn [answer fst].
  - set (a1 := set_receiver a r).
    destruct (emit_cases a1 m) as [(f & sq & Hm & He & ->)|(sq & st & Hst & ->)]; subst a1; px.
    + exists sq, (a_stopped a), [f]. split_and!; try done; [| |by right; exists f].
      * unfold count, is_ack, is_release_ack. cbn [foldr]. rewrite Hm. destruct m; lia.
      * intros f' id ->%list_elem_of_singleton Hid. rewrite Hid in Hm. subst m. split; [done|]. by apply He.
    + exists sq, st, []. rewrite app_nil_r. split_and!; try done; [|by intros ?? ?%not_elem_of_nil|by left|].
      * change (count is_ack []) with 0. case_match; lia.
      * by rewrite stopped_running.
  - exists (a_sequences a), (a_stopped a), []. rewrite app_nil_r.
    split_and!; try done; [by intros ?? ?%not_elem_of_nil|by left].
  - unfold actor_stop. px. eexists _, _, []. rewrite app_nil_r.
    split_and!; try done; [by intros ?? ?%not_elem_of_nil|by left|].
    apply (Hrun0 (status_stop (a_stopped a) AReceiver)). unfold status_stop. destruct (Z.eqb_spec (a_stopped a) 0); [by right|by left].
Qed.

Lemma answered_inv s q net a back l v m :
  Run v s -> boundary (fst m) -> (length (frames q) <= capacity q)%nat ->
  count is_rel (l ++ net ++ waiting_frames q) + (if is_release_ack (snd m) then 1 else 0)
    + count is_ack (back ++ a_outgoing a) <= v_owed v ->
  left_with v net q a l back m ->
  pair_inv (mkPair s q net (fst (answer (set_incoming a l) m)) back).
Proof.
  intros HR HB Hcap Hc HL. exists v.
  destruct (answer_frames (set_incoming a l) m) as (sq & st & new & E & Hn & Hact & Hone & Hrun).
  rewrite E in Hrun |- *. unfold Linked, in_flight_all, answers. px. rewrite (app_assoc back). cbn [a_outgoing set_incoming] in *.
  split_and!; try done; [rewrite (count_app is_ack (back ++ _)); lia|].
  unfold left_with in HL. destruct (r_failure (fst m)) as [e|]; [done|].
  destruct HL as (reply & w & w1 & Eo & HF & Hw1 & HO & Ha). exists w, w1. split_and!; try done.
  intros Hr. specialize (HO (Hrun Hr)). destruct Hone as [->|[f ->]]; [by rewrite app_nil_r|].
  apply (Outgoing_snoc v w w1 l); [done|done| |].
  - case_match; lia.
  - intros id Hid. destruct (Hact f id ltac:(set_solver) Hid) as [Ho He]. rewrite He, (proj1 (proj2 HF)). split; [done|].
    apply (Ha id). congruence.
Qed.

(** ** Every step keeps it *)

Lemma Outgoing_wle v w w' net q ans : wle w w' -> Outgoing v w net q ans -> Outgoing v w' net q ans.
Proof.
  intros Hle (w2 & Hw & HT). destruct (wire_run_mono w w' _ w2 Hle Hw) as (w2' & Hw' & Hle2).
  exists w2'. split; [done|]. intros Hr. eapply Tail_wle; eauto.
Qed.

Lemma receive_inv s q net a back f l now :
  pair_inv (mkPair s q net (set_incoming a (f :: l)) back) ->
  pair_inv (mkPair s q net (fst (actor_receive outcome (set_incoming a l) f now)) back).
Proof.
  intros (v & HR & HB & Hcap & Hc & HL). unfold Linked, in_flight_all, answers in *.
  cbn [p_source p_queue p_net p_actor p_back a_receiver a_incoming a_outgoing set_incoming] in *.
  cbn [app] in Hc. rewrite count_cons in Hc.
  unfold actor_receive. cbn [a_receiver set_incoming].
  pose proof (receiver_op_boundary outcome (a_receiver a) (RReceive f now) HB I) as HB'. cbn [receiver_op] in HB'.
  destruct (receive outcome (a_receiver a) f now) as [r' o] eqn:Er.
  destruct (r_failure (a_receiver a)) as [e|] eqn:Ef.
  { unfold receive in Er. rewrite Ef in Er. injection Er as <- <-.
    apply answered_inv with (v := v); cbn [fst snd is_release_ack]; try done; [case_match; lia|].
    unfold left_with. cbn [fst]. by rewrite Ef. }
  destruct HL as (w & w1 & HF & Hw & HO). rewrite wire_run_cons in Hw.
  destruct (wire_step w f) as [w'|] eqn:Es; [|done]. cbn [mbind option_bind] in Hw.
  pose proof (receive_follows outcome w w' (a_receiver a) f now r' o HF Es Er) as Hk.
  apply answered_inv with (v := v); try done.
  - cbn [snd]. destruct o as [[[]|]|]; cbn [is_release_ack]; try (case_match; lia).
    destruct Hk as [_ Hm]. cbn in Hm. unfold is_rel in Hc at 1. rewrite Hm in Hc. lia.
  - unfold left_with. cbn [fst snd]. destruct o as [reply|e].
    2:{ destruct Hk as [Hb ->]. done. }
    destruct Hk as [HF' Hm]. rewrite (proj1 HF').
    assert (wle w' (answered w' reply)) as Hle.
    { destruct reply as [[]|]; cbn [answered]; try apply wle_refl. split_and!; done. }
    destruct (wire_run_mono w' (answered w' reply) l w1 Hle Hw) as (w1' & Hw1' & Hle1).
    exists reply, (answered w' reply), w1'. split_and!; try done.
    + intros Hrun. eapply Outgoing_wle; [exact Hle1|]. by apply HO.
    + by intros id ->.
Qed.

(** A call without a frame. *)
Lemma call_inv s q net a back m :
  pair_inv (mkPair s q net a back) -> boundary (fst m) ->
  (forall w, Follows w (a_receiver a) -> goes_on no_ack w m) ->
  (forall e, r_failure (a_receiver a) = Some e -> r_failure (fst m) = Some e /\ is_release_ack (snd m) = false) ->
  pair_inv (mkPair s q net (fst (answer a m)) back).
Proof.
  intros (v & HR & HB & Hcap & Hc & HL) HB' Hgo Hfail. unfold Linked, in_flight_all, answers in *.
  cbn [p_source p_queue p_net p_actor p_back] in *. rewrite <- (set_incoming_id a (a_incoming a)) by done.
  apply answered_inv with (v := v); try done.
  - destruct (r_failure (a_receiver a)) as [e|] eqn:Ef.
    + destruct (Hfail e eq_refl) as [_ ->]. lia.
    + destruct HL as (w & w1 & HF & _). specialize (Hgo w HF). destruct m as [r [[[]|]|]]; cbn [snd is_release_ack]; try lia.
      by destruct Hgo.
  - unfold left_with. destruct (r_failure (a_receiver a)) as [e|] eqn:Ef.
    + destruct (Hfail e eq_refl) as [-> _]. done.
    + destruct HL as (w & w1 & HF & Hw & HO). specialize (Hgo w HF). destruct m as [r [reply|e]]; cbn in Hgo |- *.
      * destruct Hgo as [HF' Hno]. rewrite (proj1 HF'). exists reply, w, w1. split_and!; try done. by intros id ->.
      * destruct Hgo as [Hb ->]. done.
Qed.

Lemma failed_take_back r e :
  r_failure r = Some e ->
  r_failure (fst (take_back outcome r)) = Some e /\ is_release_ack (snd (take_back outcome r)) = false.
Proof.
  intros Hf. unfold take_back. destruct (shared _); [done|]. destruct (take_triggered _) as [g [gen|]]; [|done].
  unfold yield_to_local. destruct (_ || _ || _); [done|]. set (r1 := with_pending_move _ None).
  assert (r_failure r1 = Some e) as H1 by exact Hf. clearbody r1.
  destruct (release_injected outcome r1) as [r2 o] eqn:E. apply release_injected_calls in E as [calls ->].
  destruct (negb (is_ok o)); [|done].
  destruct (stop_err outcome _ FNativeDelivery) as [r3 o3] eqn:E3. apply stop_err_default in E3 as [-> E3].
  cbn [fst snd]. rewrite E3. rx. by rewrite H1.
Qed.

(** The receiver changed, and nothing else. *)
Lemma receiver_inv s q net a back r sq st :
  pair_inv (mkPair s q net a back) -> boundary r -> (st = a_stopped a \/ st <> 0) ->
  (forall w, Follows w (a_receiver a) -> match r_failure r with Some e => blames e = false | None => Follows w r end) ->
  (forall e, r_failure (a_receiver a) = Some e -> r_failure r = Some e) ->
  pair_inv (mkPair s q net (mkActor r sq st (a_incoming a) (a_outgoing a)) back).
Proof.
  intros (v & HR & HB & Hcap & Hc & HL) HB' Hst Hgo Hfail. exists v. unfold Linked, in_flight_all, answers in *.
  cbn [p_source p_queue p_net p_actor p_back] in *. px. split_and!; try done.
  destruct (r_failure (a_receiver a)) as [e|] eqn:Ef; [by rewrite (Hfail e eq_refl)|].
  destruct HL as (w & w1 & HF & Hw & HO). specialize (Hgo w HF). destruct (r_failure r); [done|].
  exists w, w1. split_and!; try done. intros Hr. apply HO. destruct Hst as [->|Hst]; [exact Hr|]. by rewrite stopped_running in Hr.
Qed.
Lemma stop_status a reason : status_stop (a_stopped a) reason = a_stopped a \/ status_stop (a_stopped a) reason <> 0.
Proof. unfold status_stop. destruct (Z.eqb_spec (a_stopped a) 0); [right; by destruct reason|by left]. Qed.

Lemma actor_inv s q net a back op :
  pair_inv (mkPair s q net a back) -> arrives op = false -> gate_ok a op ->
  pair_inv (mkPair s q net (actor_op outcome a op) back).
Proof.
  intros HI Ha Hg. pose proof HI as (v & HR & HB & Hcap & Hc & HL). cbn [p_actor p_source p_queue] in *.
  destruct op as [now|now| | |g| |reason|f]; cbn [actor_op]; try done.
  - destruct (a_incoming a) as [|f l] eqn:El; [done|]. apply receive_inv. by rewrite set_incoming_id.
  - apply call_inv; [done|apply (receiver_op_boundary outcome _ (RTick now) HB I)| |].
    + intros w HF. by apply tick_follows.
    + intros e He. unfold tick. rewrite He. split; [|done]. cbn. by rewrite (proj2 (retry_cleanup_why outcome _)).
  - apply call_inv; [done|apply (receiver_op_boundary outcome _ RTakeBack HB I)| |].
    + intros w HF. by apply take_back_follows.
    + intros e. apply failed_take_back.
  - pose proof (flush_boundary outcome _ HB) as HB'. unfold actor_flush.
    pose proof (fun w => flush_follows outcome w (a_receiver a)) as Hfl.
    assert (forall e, r_failure (a_receiver a) = Some e -> r_failure (fst (flush outcome (a_receiver a))) = Some e) as Hf
      by (intros e He; unfold flush; by rewrite He).
    destruct (flush outcome (a_receiver a)) as [r o]. cbn [fst] in *.
    assert (forall w, Follows w (a_receiver a) -> match r_failure r with Some e => blames e = false | None => Follows w r end) as Hgo.
    { intros w HF. specialize (Hfl w HF). destruct o; cbn in Hfl; [destruct Hfl as [HF' _]; by rewrite (proj1 HF')|].
      destruct Hfl as [Hb ->]. done. }
    destruct (is_ok o).
    + apply (receiver_inv s q net a back r (a_sequences a) (a_stopped a)); [exact HI|exact HB'|by left|exact Hgo|exact Hf].
    + apply (receiver_inv s q net a back r (a_sequences a) (status_stop (a_stopped a) AReceiver));
        [exact HI|exact HB'|apply stop_status|exact Hgo|exact Hf].
  - apply receiver_inv; try done; [apply (receiver_op_boundary outcome _ (RGate g) HB Hg)|by left|].
    intros w HF. cbn. by rewrite (proj1 HF).
  - pose proof (stop_boundary outcome (a_receiver a) FPeerStopped (boundary_sane _ HB)) as HB'.
    destruct (stop_err outcome (a_receiver a) FPeerStopped : InputReceiver * result ReceiverFailure ()) as [r o] eqn:E.
    pose proof (stop_err_default outcome _ _ _ _ E) as [_ Hf]. unfold stop_err in E.
    destruct (stop outcome (a_receiver a) FPeerStopped) as [r' e']. injection E as -> _. cbn [fst] in *.
    apply receiver_inv; try done; [by left| |].
    + intros w HF. rewrite Hf, (proj1 HF). done.
    + intros e He. rewrite Hf, He. done.
  - unfold actor_stop. apply receiver_inv; try done; [apply stop_status|]. intros w HF. by rewrite (proj1 HF).
Qed.

(** The source's turn: [v] is what it heard, and its effects are queued. *)
Lemma Tail_native v b w ans : Tail (set_view_native v b) w ans <-> Tail v w ans.
Proof. done. Qed.
Lemma Outgoing_native v b w net q ans : Outgoing (set_view_native v b) w net q ans <-> Outgoing v w net q ans.
Proof. done. Qed.
Lemma Outgoing_out out v w net q ans : Outgoing v w net q ans -> Outgoing (view_out out v) w net q ans.
Proof. unfold view_out. by destruct (out_handover out). Qed.
Lemma view_out_owed out v : v_owed (view_out out v) = v_owed v.
Proof. unfold view_out. by destruct (out_handover out). Qed.

Lemma effects_inv s q net a back base v v' s' out now :
  (length (frames q) <= capacity q)%nat -> boundary (a_receiver a) ->
  count is_rel (in_flight_all (mkPair s q net a back)) + count is_ack (answers (mkPair s q net a back)) <= v_owed v ->
  Linked v (mkPair s q net a back) ->
  view_out out <$> effects_run base v (out_effects out) = Some v' -> Run v' s' ->
  pair_inv (mkPair s' (send_all q (frames_of out) now) net a back).
Proof.
  intros Hcap HB Hc HL Hv HR. destruct (effects_run base v (out_effects out)) as [v1|] eqn:Er; [|done].
  apply (inj Some) in Hv as <-. unfold Linked, in_flight_all, answers in *. px. px in Hc. px in HL.
  rewrite !count_app in Hc.
  pose proof (count_nonneg is_rel (a_incoming a)). pose proof (count_nonneg is_rel net).
  pose proof (count_nonneg is_rel (waiting_frames q)).
  destruct (effects_outgoing base (out_effects out) v v1 (mkWire 0 0 ∅ ∅ false) net q now (back ++ a_outgoing a) Hcap Er)
    as (E1 & E2 & E3 & _); [rewrite count_app; lia|].
  exists (view_out out v1). unfold Linked, in_flight_all, answers. px.
  split; [done|]. split; [done|]. split; [exact E1|]. split.
  { rewrite view_out_owed, !count_app. unfold frames_of. lia. }
  destruct (r_failure (a_receiver a)); [done|]. destruct HL as (w & w1 & HF & Hw & HO). exists w, w1.
  split; [done|]. split; [done|]. intros Hrun. apply Outgoing_out.
  destruct (effects_outgoing base (out_effects out) v v1 w1 net q now (back ++ a_outgoing a) Hcap Er)
    as (_ & _ & _ & E4); [rewrite count_app; lia|]. by apply E4, HO.
Qed.

Lemma source_inv s q net a back op s' out now :
  is_frame op = false -> (forall v, may_happen v s op = true) -> source_step s op = Some (s', out) ->
  pair_inv (mkPair s q net a back) -> pair_inv (mkPair s' (send_all q (frames_of out) now) net a back).
Proof.
  intros Hop Hm Hst (v & HR & HB & Hcap & Hc & HL).
  destruct (run_next v s op s' out HR (Hm v) Hst) as (v' & Hv & HR').
  eapply (effects_inv s q net a back _ (view_in v s op out)); try exact Hv; try done.
  - by destruct op; try done; cbn [view_in]; case_match.
  - by destruct op; try done; cbn [view_in]; case_match.
Qed.

Lemma heard_owed v f : honest v f = true -> v_owed (heard v f) + (if is_ack f then 1 else 0) >= v_owed v.
Proof.
  unfold heard, is_ack. intros _. destruct (negb _); [case_match; lia|]. destruct (message f); cbn; lia.
Qed.
Lemma hear_inv s q net a f back s' out now :
  source_step s (CallFrame f now) = Some (s', out) -> pair_inv (mkPair s q net a (f :: back)) ->
  pair_inv (mkPair s' (send_all q (frames_of out) now) net a back).
Proof.
  intros Hst (v & HR & HB & Hcap & Hc & HL). unfold in_flight_all, answers, Linked in Hc, HL. px in Hc. px in HL.
  cbn [app] in Hc. rewrite count_cons in Hc. px in Hcap. px in HB. px in HR.
  pose proof (count_nonneg is_rel (a_incoming a ++ net ++ waiting_frames q)).
  pose proof (count_nonneg is_ack (back ++ a_outgoing a)).
  assert (honest v f = true) as Hh.
  { unfold honest. unfold is_ack in Hc at 1. destruct (message f); try done.
    apply orb_true_iff. right. apply Z.ltb_lt. lia. }
  destruct (run_next v s (CallFrame f now) s' out HR Hh Hst) as (v' & Hv & HR').
  pose proof (heard_owed v f Hh).
  eapply (effects_inv s q net a back _ (heard v f)); try exact Hv; try done.
  - unfold in_flight_all, answers. px. unfold heard in *. lia.
  - unfold Linked, answers. px. destruct (r_failure (a_receiver a)); [done|].
    destruct HL as (w & w1 & HF & Hw & HO). exists w, w1. split; [done|]. split; [done|].
    intros Hrun. destruct (HO Hrun) as (w2 & Hw2 & HT). exists w2. split; [done|].
    intros Hr. by apply tail_hear, Hh; apply HT.
Qed.

(** ** The streams *)

(** What is in flight moves along, or the link is no longer whole. *)
Lemma moved_inv s q net a back q' net' a' back' :
  pair_inv (mkPair s q net a back) ->
  a_receiver a' = a_receiver a -> (length (frames q') <= capacity q')%nat ->
  (running a' = true -> running a = true) -> (refused q' = None -> refused q = None) ->
  count is_rel (in_flight_all (mkPair s q' net' a' back')) <= count is_rel (in_flight_all (mkPair s q net a back)) ->
  count is_ack (answers (mkPair s q' net' a' back')) <= count is_ack (answers (mkPair s q net a back)) ->
  (forall v w ans, Tail v w (answers (mkPair s q net a back)) -> ans = answers (mkPair s q' net' a' back') -> Tail v w ans) ->
  (running a' = true ->
   in_flight_all (mkPair s q' net' a' back') = in_flight_all (mkPair s q net a back)) ->
  (running a' = false -> a_incoming a' = a_incoming a) ->
  pair_inv (mkPair s q' net' a' back').
Proof.
  intros (v & HR & HB & Hcap & Hc & HL) Er Hcap' Hrun Href Hc1 Hc2 HT Hin Hin'. exists v. px in HB. px in HR.
  unfold Linked in *. px. px in HL. rewrite Er. split_and!; try done; [lia|].
  destruct (r_failure (a_receiver a)); [done|]. destruct HL as (w & w1 & HF & Hw & HO).
  destruct (running a') eqn:Ea.
  - specialize (Hin eq_refl). specialize (HO (Hrun eq_refl)). destruct HO as (w2 & Hw2 & HT2).
    assert (wire_run w (in_flight_all (mkPair s q net a back)) = Some w2) as Hall.
    { unfold in_flight_all. px. by rewrite wire_run_app, Hw. }
    rewrite <- Hin in Hall. unfold in_flight_all in Hall. px in Hall. rewrite wire_run_app in Hall.
    destruct (wire_run w (a_incoming a')) as [w1'|] eqn:Ew; [|done]. exists w, w1'. split; [done|]. split; [done|].
    intros _. exists w2. split; [done|]. intros Hq. eapply HT; [|done]. by apply HT2, Href.
  - rewrite Hin' by done. by exists w, w1.
Qed.

Lemma stopped_not a reason : running (actor_stop a reason) = false.
Proof.
  unfold actor_stop, status_stop. destruct (Z.eqb_spec (a_stopped a) 0) as [_|Hs].
  - apply stopped_running. by destruct reason.
  - by apply stopped_running.
Qed.
Lemma arrive_inv s q f net a back :
  pair_inv (mkPair s q (f :: net) a back) -> pair_inv (mkPair s q net (fst (try_submit a f)) back).
Proof.
  intros HI. pose proof HI as (v & _ & _ & Hcap & _). unfold try_submit.
  assert (forall a', a_receiver a' = a_receiver a -> running a' = false -> a_incoming a' = a_incoming a ->
    a_outgoing a' = a_outgoing a -> pair_inv (mkPair s q net a' back)) as Hstop.
  { intros a' H1 H2 H3 H4. eapply moved_inv; [exact HI|done|done|by rewrite H2|done| | | |by rewrite H2|done].
    - unfold in_flight_all. px. rewrite H3, !count_app. cbn [app]. rewrite count_cons. case_match; lia.
    - unfold answers. px. by rewrite H4.
    - intros ? ? ? HT ->. unfold answers in *. px in HT. px. by rewrite H4. }
  destruct (status_failure (a_stopped a)) as [reason|] eqn:Es.
  { cbn [fst]. apply Hstop; try done. unfold running. by rewrite Es. }
  destruct (_ <? _)%nat; cbn [fst].
  - eapply moved_inv; [exact HI|done|done|done|done| | |by intros ? ? ? ? ->| |].
    + unfold in_flight_all. px. by rewrite <- app_assoc.
    + done.
    + intros _. unfold in_flight_all. px. by rewrite <- app_assoc.
    + unfold running. px. by rewrite Es.
  - apply Hstop; try done. apply stopped_not.
Qed.

Lemma write_inv s q net a back f q' :
  pop q = (q', Some f) -> pair_inv (mkPair s q net a back) -> pair_inv (mkPair s q' (net ++ [f]) a back).
Proof.
  intros Hp HI. pose proof HI as (v & _ & _ & Hcap & _). px in Hcap. unfold pop in Hp.
  destruct (frames q) as [|[f0 t] l] eqn:El; [done|]. injection Hp as <- ->.
  assert (in_flight_all (mkPair s (mkQueue l (capacity q) (Some t) (refused q)) (net ++ [f]) a back)
    = in_flight_all (mkPair s q net a back)) as E.
  { unfold in_flight_all, waiting_frames. px. rewrite El. cbn. by rewrite <- app_assoc. }
  eapply moved_inv; [exact HI|done| |done|done|by rewrite E|done|by intros ? ? ? ? ->|done|done].
  cbn in *. lia.
Qed.

Lemma answer_inv s q net a back f a' :
  try_response a = (a', Ok (Some f)) -> pair_inv (mkPair s q net a back) ->
  pair_inv (mkPair s q net a' (back ++ [f])).
Proof.
  intros Ht HI. pose proof HI as (v & _ & _ & Hcap & _). unfold try_response in Ht.
  destruct (status_failure _); [done|]. destruct (a_outgoing a) as [|f0 l] eqn:El; [done|]. injection Ht as <- ->.
  assert (answers (mkPair s q net (set_outgoing a l) (back ++ [f])) = answers (mkPair s q net a back)) as E.
  { unfold answers. px. by rewrite El, <- app_assoc. }
  eapply moved_inv; [exact HI|done|done|done|done|done|by rewrite E| |done|done].
  intros ? ? ? HT ->. by rewrite E.
Qed.

Lemma heard_ok_drop ep owed act l1 f l2 :
  is_heartbeat (message f) = true -> heard_ok ep owed act (l1 ++ f :: l2) -> heard_ok ep owed act (l1 ++ l2).
Proof.
  intros Hf. revert owed. induction l1 as [|f' l1 IH]; intros owed; cbn.
  - by destruct (message f).
  - destruct (message f'); try apply IH. intros [H1 H2]. auto.
Qed.
Lemma lose_inv s q net a back1 f back2 :
  is_heartbeat (message f) = true -> pair_inv (mkPair s q net a (back1 ++ f :: back2)) ->
  pair_inv (mkPair s q net a (back1 ++ back2)).
Proof.
  intros Hf HI. pose proof HI as (v & _ & _ & Hcap & _).
  eapply moved_inv; [exact HI|done|done|done|done|done| | |done|done].
  - unfold answers. px. rewrite !count_app, count_cons. case_match; lia.
  - intros ? ? ? (H1 & H2 & H3 & H4 & H5 & H6 & H7) ->. unfold answers in *. px. px in H6. px in H7.
    rewrite <- app_assoc in H6, H7 |- *. cbn [app] in H6, H7. split_and!; try done.
    + by eapply heard_ok_drop.
    + apply Forall_app in H7 as [H8 H9]. inversion H9; subst. by apply Forall_app.
Qed.

Lemma close_inv s q net a back :
  pair_inv (mkPair s q net a back) -> pair_inv (mkPair s (close q) net a back).
Proof.
  intros HI. pose proof HI as (v & _ & _ & Hcap & _).
  eapply moved_inv; [exact HI|done|done|done|done|done|done|by intros ? ? ? ? ->|done|done].
Qed.

(** ** Over a session *)

Lemma start_inv s c g now out cap :
  Started s -> shared c = false -> o_epoch (s_out s) = control_epoch c ->
  pair_inv (mkPair s (new_queue cap) [] (mkActor (new_receiver c g now) out 0 [] []) []).
Proof.
  intros Hs Hsh He. exists (start_view s). unfold Linked, in_flight_all, answers. px.
  split; [by apply run_start|]. split; [by apply new_receiver_boundary|]. split; [cbn; lia|]. split; [done|].
  cbn [r_failure new_receiver]. exists (mkWire (control_epoch c) 0 ∅ ∅ false), (mkWire (control_epoch c) 0 ∅ ∅ false).
  split; [|split; [done|]].
  - unfold Follows, new_receiver. cbn. split_and!; done.
  - intros _. eexists. split; [done|]. intros _. unfold Tail. cbn. rewrite He. split_and!; try done. constructor.
Qed.

Lemma linked_inv p : linked p -> pair_inv p.
Proof.
  induction 1 as [s c g now out cap Hs Hsh He|p p' _ IH Hst]; [by apply start_inv|].
  destruct Hst.
  - by eapply source_inv.
  - by eapply hear_inv.
  - by eapply write_inv.
  - by apply arrive_inv.
  - by apply actor_inv.
  - by eapply answer_inv.
  - by eapply lose_inv.
  - by apply close_inv.
Qed.
(** A whole turn of the receiver's thread. *)
Lemma linked_turn s q net a back now later stopping :
  linked (mkPair s q net a back) ->
  linked (mkPair s q net (fst (actor_turn outcome a now later stopping false)) back).
Proof.
  intros HL. pose proof (turn_micro outcome a now later stopping) as Hm. revert HL.
  induction Hm as [a|a a1 a2 (op & Ho & ->) _ IH]; intros HL; [done|]. apply IH.
  eapply linked_step; [exact HL|]. apply step_actor; by destruct op.
Qed.
End Pair.
