(* ===== verification/LinkedTheorems.v ===== *)
(** * A source and its peer together: theorems (session_source.rs, session_outbox.rs, session_actor.rs, session_receiver.rs)

    What one computer's source and the other's receiver guarantee each other over
    a whole session, whatever is captured and however the threads and the link
    interleave.  The witnesses are a session of two computers side by side, run
    through both ends: out through the right edge, a key there, and home. *)

From stdpp Require Import gmap relations.
From S2P Require Import Prelude F64 Types Topology HeldInput SourceEdges SourceState Source SourceStream SourceCalls SourceSystem SourceTheorems.
From S2P Require Import Floor TakeBack Injection Messages Sequence SessionOutbox Translator.
From S2P Require Import Receiver ReceiverSafety ReceiverActor ReceiverFollow LinkedPair.

(** ** A session, run *)

Inductive PairOp :=
| PSource (op : SourceOp) (now : Z) | PHear (now : Z) | PWrite | PArrive | PActor (op : ActorOp)
| PAnswer | PClose.

Definition plain_op (op : SourceOp) : bool :=
  match op with CallFrame _ _ | EnvFloor _ => false | _ => true end.

Section Run.
Context `{Libm} (outcome : list (DestinationAction * bool) -> DestinationAction -> bool).

Definition pair_op (p : Pair) (op : PairOp) : option Pair :=
  let '(mkPair s q net a back) := p in
  match op with
  | PSource op now =>
      if plain_op op then
        '(s', out) ← source_step s op; Some (mkPair s' (send_all q (frames_of out) now) net a back)
      else None
  | PHear now =>
      match back with
      | f :: back =>
          '(s', out) ← source_step s (CallFrame f now);
          Some (mkPair s' (send_all q (frames_of out) now) net a back)
      | [] => None
      end
  | PWrite => let '(q', f) := pop q in f ← f; Some (mkPair s q' (net ++ [f]) a back)
  | PArrive =>
      match net with f :: net => Some (mkPair s q net (fst (try_submit a f)) back) | [] => None end
  | PActor op => if own op then Some (mkPair s q net (actor_op outcome a op) back) else None
  | PAnswer =>
      match try_response a with
      | (a', Ok (Some f)) => Some (mkPair s q net a' (back ++ [f]))
      | _ => None
      end
  | PClose => Some (mkPair s (close q) net a back)
  end.
Fixpoint pair_ops (ops : list PairOp) (p : Pair) : option Pair :=
  match ops with [] => Some p | op :: ops => p' ← pair_op p op; pair_ops ops p' end.

Lemma pair_op_step p op p' : pair_op p op = Some p' -> pair_step outcome p p'.
Proof.
  destruct p as [s q net a back], op as [op now|now| | |op| |]; cbn [pair_op].
  - destruct (plain_op op) eqn:Ep; [|done]. destruct (source_step s op) as [[s' out]|] eqn:Es; [|done].
    intros E. apply (inj Some) in E as <-. eapply step_source; [| |exact Es]; by destruct op.
  - destruct back as [|f back]; [done|].
    destruct (source_step s (CallFrame f now)) as [[s' out]|] eqn:Es; [|done].
    intros E. apply (inj Some) in E as <-. by eapply step_hear.
  - destruct (pop q) as [q' [f|]] eqn:E; [|done]. intros E'. apply (inj Some) in E' as <-. by apply step_write.
  - destruct net as [|f net]; [done|]. intros E'. apply (inj Some) in E' as <-. apply step_arrive.
  - destruct (own op) eqn:Ep; [|done]. intros E'. apply (inj Some) in E' as <-.
    apply step_actor; by destruct op.
  - destruct (try_response a) as [a' [[f|]|]] eqn:E; try done. intros E'. apply (inj Some) in E' as <-.
    by apply step_answer.
  - intros E'. apply (inj Some) in E' as <-. apply step_close.
Qed.
Lemma pair_ops_linked ops : forall p p', linked outcome p -> pair_ops ops p = Some p' -> linked outcome p'.
Proof.
  induction ops as [|op ops IH]; intros p p' HL; cbn [pair_ops]; [by intros [= <-]|].
  destruct (pair_op p op) as [p1|] eqn:E; [|done]. cbn [mbind option_bind]. apply IH.
  eapply linked_step; [exact HL|]. by eapply pair_op_step.
Qed.
End Run.

#[local] Existing Instance sample_libm.

Definition peer_display : DisplayDescription :=
  Messages.mkDisplay 2 [68] 1920 1080 (mkPoint f64_zero f64_zero) (mkPoint (f64_of_Z 1920) (f64_of_Z 1080))
    0x3F800000 true None.
Definition peer_config : ReceiverConfig :=
  mkReceiverConfig 1 false false true [peer_display] 5 (Some MacOs) (Some Windows).
Definition pair_on (t : Topology) (c : ReceiverConfig) : option Pair :=
  match new_source t (replicate 16 1) 1 5 0 0 false 0 with
  | Ok s => Some (mkPair s (new_queue 64) []
      (mkActor (new_receiver c (new_gate (mkSnapshot Free 1 PEER_NONE)) 0) (mkOutput 0 0 5) 0 [] []) [])
  | Err _ => None
  end.
Definition sample_pair : option Pair := pair_on sample_topology peer_config.
(** The peer has a second display to the right of its first. *)
Definition second_display : DisplayDescription :=
  Messages.mkDisplay 3 [68] 1920 1080 (mkPoint f64_zero f64_zero) (mkPoint (f64_of_Z 1920) (f64_of_Z 1080))
    0x3F800000 true None.
Definition wide_config : ReceiverConfig :=
  mkReceiverConfig 1 false false true [peer_display; second_display] 5 (Some MacOs) (Some Windows).
Definition wide_pair : option Pair :=
  match Topology.new_topology sample_machines wide_displays wide_links with
  | Ok t => pair_on t wide_config
  | Err _ => None
  end.
(** A frame of the source goes through, and its answer comes back. *)
Definition delivered (now : Z) : list PairOp := [PWrite; PArrive; PActor (AReceive now)].
Definition returned (now : Z) : list PairOp := [PAnswer; PHear now].
Definition ours (op : SourceOp) : PairOp := PSource op (ms 1).
Definition session_out : list PairOp :=
  [ours (CallCaptured (at_home (AbsoluteMotion (mkPoint (f64_of_Z 1919) (f64_of_Z 500)))) (ms 1));
   ours (CallCaptured (at_home (RelativeMotion (mkPoint (f64_of_Z 300) f64_zero) f64_one)) (ms 2))]
  ++ delivered (ms 3) ++ returned (ms 3)
  ++ [ours (CallBind 1 1 (ms 4)); ours (CallCaptured (mkTagged (RouteChanged true 1) 1 true 1) (ms 5))].
Definition session_press : list PairOp := session_out ++ [ours press_a] ++ delivered (ms 7).
Definition session_home : list PairOp :=
  session_press ++ [ours (CallRequestLocal (ms 8))] ++ delivered (ms 9) ++ returned (ms 9).
(** A held key goes along to the second display, and is let go before it is reached. *)
Definition session_exchange : list PairOp :=
  session_press ++ [ours (remote_in (RelativeMotion (mkPoint (f64_of_Z 2000) f64_zero) f64_one) (ms 8))] ++ delivered (ms 9)
  ++ [ours (remote_in (InKeyEvent 4 false false 0) (ms 10))].
Section Session.
Context (outcome : list (DestinationAction * bool) -> DestinationAction -> bool).
Definition session_of (start : option Pair) (ops : list PairOp) : option Pair := p ← start; pair_ops outcome ops p.
Definition session : list PairOp -> option Pair := session_of sample_pair.
Lemma session_linked t c ops p : shared c = false -> control_epoch c = 5 -> session_of (pair_on t c) ops = Some p -> linked outcome p.
Proof.
  intros Hc He. unfold session_of, pair_on. destruct (new_source _ _ _ _ _ _ _ _) as [s|] eqn:E; [|done].
  cbn [mbind option_bind]. apply pair_ops_linked. apply linked_start; [by eapply started_new|done|].
  unfold new_source in E. rewrite He. repeat (case_match; try done). by injection E as <-.
Qed.
Lemma wide_linked ops p : session_of wide_pair ops = Some p -> linked outcome p.
Proof. unfold wide_pair. destruct (Topology.new_topology _ _ _) as [t|]; [by apply session_linked|discriminate]. Qed.
(** A session evaluated, and what its last state shows. *)
Lemma session_ran ops {A} (f : Pair -> A) a :
  f <$> session ops = Some a -> exists p, linked outcome p /\ f p = a.
Proof.
  destruct (session ops) as [p|] eqn:E; [|done]. intros E'. exists p.
  split; [by eapply (session_linked sample_topology peer_config)|exact (inj Some _ _ E')].
Qed.
End Session.

(** ** Shared facts *)

Definition receiver_of (p : Pair) : InputReceiver := a_receiver (p_actor p).
(** The link is whole and nothing the source sent is still on its way. *)
Definition at_rest_link (p : Pair) : bool :=
  bool_decide (in_flight_all p = []) && running (p_actor p) && bool_decide (SessionOutbox.refused (p_queue p) = None).

Section Facts.
Context `{Libm} (outcome : list (DestinationAction * bool) -> DestinationAction -> bool).

(** The receiver's record, when everything sent was read. *)
Lemma rest_follows p :
  linked outcome p -> at_rest_link p = true -> r_failure (receiver_of p) = None ->
  exists v w, Run v (p_source p) /\ Follows w (receiver_of p) /\ w_epoch w = v_epoch v
    /\ w_keys w = SourceStream.v_keys v /\ w_buttons w = SourceStream.v_buttons v.
Proof.
  intros (v & HR & _ & _ & _ & HL)%linked_inv Hrest Hf. unfold at_rest_link in Hrest. bool_inv.
  unfold Linked in HL. unfold receiver_of in *. rewrite Hf in HL. destruct HL as (w & w1 & HF & Hw & HO).
  unfold in_flight_all in *.
  destruct (app_eq_nil _ _ ltac:(eassumption)) as [E1 E2]. rewrite E1 in Hw. apply (inj Some) in Hw as <-.
  destruct (HO ltac:(assumption)) as (w2 & Hw2 & HT). rewrite E2 in Hw2. apply (inj Some) in Hw2 as <-.
  destruct (HT ltac:(assumption)) as (T1 & _ & T3 & T4 & _). by exists v, w.
Qed.

(** A receiver that is not active and owes no cleanup holds nothing. *)
Lemma idle_empty r :
  boundary r -> r_active r = None -> r_cleanup_pending r = false ->
  v_keys (view (r_calls r)) = ∅ /\ v_buttons (view (r_calls r)) = ∅.
Proof. intros (_ & _ & H3 & _) Ha Hc. apply settled_empty. auto. Qed.
End Facts.

(** The destination was asked to hold translations of [keys] at most, and no button
    beyond [buttons]. *)
Definition holds_only (p : Pair) (keys buttons : gset Z) : Prop :=
  (forall t, t ∈ v_keys (view (r_calls (receiver_of p))) -> exists u h,
     u ∈ keys /\ entry (r_keyboard (receiver_of p)) (Z.to_nat u) = Some h /\ target h = t)
  /\ v_buttons (view (r_calls (receiver_of p))) ⊆ buttons.
(** What the source's ledger records as sent down is held by a hand. *)
Definition sent_by_hand (s : SourceController) : Prop :=
  k_remote_keys (s_ledger s) ⊆ k_keys (s_ledger s) /\ k_remote_buttons (s_ledger s) ⊆ k_buttons (s_ledger s).

Lemma holds_only_mono p keys buttons keys' buttons' :
  holds_only p keys buttons -> keys ⊆ keys' -> buttons ⊆ buttons' -> holds_only p keys' buttons'.
Proof.
  intros [Hk Hb] ??. split; [|set_solver]. intros t (u & h & Hu & Hrec)%Hk. exists u, h. split; [set_solver|done].
Qed.
Lemma holds_only_empty p :
  holds_only p ∅ ∅ -> v_keys (view (r_calls (receiver_of p))) = ∅ /\ v_buttons (view (r_calls (receiver_of p))) = ∅.
Proof.
  intros [Hk Hb]. split; [|set_solver]. apply set_eq. intros t. split; [|set_solver]. intros (u & h & Hu & _)%Hk. set_solver.
Qed.

Section Held.
Context `{Libm} (outcome : list (DestinationAction * bool) -> DestinationAction -> bool).
(** At rest the destination holds nothing, or what the source's stream put down. *)
Lemma rest_holds_only p :
  linked outcome p -> at_rest_link p = true -> r_cleanup_pending (receiver_of p) = false ->
  suppress_injection (receiver_of p) = false ->
  holds_only p ∅ ∅ \/ exists v, Run v (p_source p) /\ holds_only p (SourceStream.v_keys v) (SourceStream.v_buttons v).
Proof.
  intros HL Hrest Hc Hsup. pose proof (linked_inv outcome p HL) as (_ & _ & HB & _ & _ & _).
  change (a_receiver (p_actor p)) with (receiver_of p) in HB. pose proof (boundary_keys _ HB Hc Hsup) as Hkeys.
  destruct (r_active (receiver_of p)) eqn:Ea; [right|left].
  - pose proof HB as (_ & _ & _ & H4 & _).
    destruct (r_failure (receiver_of p)) eqn:Ef; [exfalso; by rewrite H4 in Ea by auto|].
    destruct (r_held_since (receiver_of p)) eqn:Eh; [exfalso; by rewrite H4 in Ea by auto|].
    destruct (rest_follows outcome p HL Hrest Ef) as (v & w & HR & (_ & _ & _ & _ & _ & Kh) & _ & E2 & E3).
    destruct (Kh Eh) as (Kk & Kb & _). exists v. split; [exact HR|]. rewrite <-E2, <-E3, <-Kk, <-Kb. exact Hkeys.
  - destruct (idle_empty _ HB Ea Hc) as [E1 E2]. split; [|by rewrite E2]. intros t Ht. rewrite E1 in Ht. set_solver.
Qed.
Lemma remote_sent_by_hand p :
  linked outcome p -> s_failure (p_source p) = None -> mode (p_source p) = ModeRemote -> sent_by_hand (p_source p).
Proof.
  intros (v & HR & _)%linked_inv Hs Hm. destruct (run_inv v _ HR) as [_ HI]. destruct (HI Hs) as [(_ & _ & Hr & _) _].
  unfold remote_held, mode in *. by destruct (s_state (p_source p)).
Qed.
End Held.

Section Theorems.
Context `{Libm} (outcome : list (DestinationAction * bool) -> DestinationAction -> bool).

(** C2. Two computers that run this code never break off their link over each
    other's order.  Whatever is captured at one, in whatever order its calls, its
    queue, the streams, the other's threads and its local user run, the receiver
    fails with none of the failures that blame the source for its epochs, its
    numbers, input before an accepted activation, a key that was already down or
    up, or a message out of place.  The source in turn is answered as it assumes:
    its peer acknowledges only releases it was sent. *)
Theorem pair_never_blames (p : Pair) :
  linked outcome p ->
  (forall e, r_failure (receiver_of p) = Some e -> blames e = false)
  /\ exists v, Run v (p_source p) /\ count is_ack (answers p) <= v_owed v.
Proof.
  intros (v & HR & _ & _ & Hc & HL)%linked_inv. split.
  - intros e He. unfold Linked, receiver_of in *. by rewrite He in HL.
  - exists v. split; [done|]. pose proof (count_nonneg is_rel (in_flight_all p)). lia.
Qed.

(** C6. When everything the source sent was read and the receiver has neither
    failed nor paused, both ends agree: the receiver is in the source's epoch, and
    records as held the very keys and buttons the source's ledger says it sent
    down; none once the source sent its release. *)
Theorem pair_agrees_at_rest (p : Pair) :
  linked outcome p -> at_rest_link p = true -> s_failure (p_source p) = None ->
  r_failure (receiver_of p) = None -> r_held_since (receiver_of p) = None ->
  r_epoch (receiver_of p) = o_epoch (s_out (p_source p))
  /\ match s_state (p_source p) with
     | SAwaitRelease _ => r_keys (receiver_of p) = ∅ /\ r_buttons (receiver_of p) = ∅
     | _ => r_keys (receiver_of p) = k_remote_keys (s_ledger (p_source p))
            /\ r_buttons (receiver_of p) = k_remote_buttons (s_ledger (p_source p))
     end.
Proof.
  intros HL Hrest Hs Hf Hh. destruct (rest_follows outcome p HL Hrest Hf) as (v & w & HR & HF & E1 & E2 & E3).
  destruct (run_inv v _ HR) as [_ HI]. destruct (HI Hs) as [((_ & Hn & _) & Ht & _) _].
  destruct HF as (_ & Ke & _ & _ & _ & Kh). destruct (Kh Hh) as (Kk & Kb & _).
  split; [congruence|]. unfold told in Ht. rewrite Kk, Kb, E2, E3. by destruct (s_state (p_source p)).
Qed.

(** C1. No key sticks across the link while its source runs.  Take a moment at
    which the source has not failed, everything it sent was read, no cleanup is left
    at the destination and no take-back is being carried out there.  While input goes
    to the destination, every key it was asked to hold is the translation of one a
    hand still holds at the source, and every button too.  While the pointer is home,
    on its way home or not yet there, the destination holds nothing.  While one
    display of the peer is exchanged for another, it holds only what the source's
    ledger records as sent down; and a step that lands the pointer there lets go at
    once of whatever no hand holds any more. *)
Theorem pair_no_stuck_key (p : Pair) :
  linked outcome p -> at_rest_link p = true -> s_failure (p_source p) = None ->
  r_cleanup_pending (receiver_of p) = false -> suppress_injection (receiver_of p) = false ->
  match s_state (p_source p) with
  | SRemote _ _ _ _ => holds_only p (k_keys (s_ledger (p_source p))) (k_buttons (s_ledger (p_source p)))
  | SAwaitActivation a =>
      if a_already_remote a && negb (a_handover a)
      then holds_only p (k_remote_keys (s_ledger (p_source p))) (k_remote_buttons (s_ledger (p_source p)))
           /\ forall p', pair_step outcome p p' -> s_failure (p_source p') = None ->
                mode (p_source p') = ModeRemote -> sent_by_hand (p_source p')
      else holds_only p ∅ ∅
  | _ => holds_only p ∅ ∅
  end.
Proof.
  intros HL Hrest Hs Hc Hsup. destruct (rest_holds_only outcome p HL Hrest Hc Hsup) as [Hnone|(v & HR & Hv)].
  { pose proof (remote_sent_by_hand outcome) as Hland. destruct (s_state (p_source p)) as [|a| | | | |]; try by eapply holds_only_mono.
    destruct (_ && _); [|done]. split; [by eapply holds_only_mono|].
    intros p' Hst. apply Hland. by eapply linked_step. }
  pose proof (source_held v _ HR Hs) as Hheld. destruct (run_inv v _ HR) as [_ HI]. destruct (HI Hs) as [(_ & Ht & _) _].
  unfold told in Ht. destruct (s_state (p_source p)) as [|a| | | | |];
    try (destruct Hheld as [E1 E2]; eapply holds_only_mono; [exact Hv|by rewrite ?E1|by rewrite ?E2]).
  destruct (a_already_remote a && negb (a_handover a)) eqn:Ea.
  - destruct Ht as [E1 E2]. rewrite E1, E2 in Hv. split; [exact Hv|].
    intros p' Hst. apply (remote_sent_by_hand outcome). by eapply linked_step.
  - destruct Hheld as [[E1 E2]|[E1 E2]]; [by rewrite E1, E2 in Ea|]. by rewrite E1, E2 in Hv.
Qed.
End Theorems.

(** What the end of a session shows. *)
Definition shows (p : Pair) :=
  (mode (p_source p), at_rest_link p, s_failure (p_source p), r_failure (receiver_of p),
   r_held_since (receiver_of p), r_cleanup_pending (receiver_of p), suppress_injection (receiver_of p),
   elements (v_keys (view (r_calls (receiver_of p))))).
Lemma session_shows ops m keys :
  shows <$> session all_accepted ops = Some (m, true, None, None, None, false, false, keys) ->
  exists p, linked all_accepted p /\ mode (p_source p) = m /\ at_rest_link p = true
    /\ s_failure (p_source p) = None /\ r_failure (receiver_of p) = None
    /\ r_held_since (receiver_of p) = None /\ r_cleanup_pending (receiver_of p) = false
    /\ suppress_injection (receiver_of p) = false
    /\ elements (v_keys (view (r_calls (receiver_of p)))) = keys.
Proof.
  intros (p & HL & E)%session_ran. exists p. unfold shows in E.
  repeat (apply pair_eq in E as [E ?]). by split_and!.
Qed.

(** The peer's receiver fails at last when its own destination refuses the key. *)
Definition refuses_keys (_ : list (DestinationAction * bool)) (a : DestinationAction) : bool :=
  match a with ActKey _ _ => false | _ => true end.
Lemma pair_never_blames_witness :
  exists p, linked refuses_keys p /\ r_failure (receiver_of p) = Some FNativeDelivery
    /\ blames FNativeDelivery = false.
Proof.
  destruct (session_ran refuses_keys session_press (fun p => r_failure (receiver_of p)) (Some FNativeDelivery))
    as (p & HL & E); [vm_compute; reflexivity|].
  exists p. split; [exact HL|]. split; [exact E|]. exact (proj1 (pair_never_blames refuses_keys p HL) _ E).
Defined.
Lemma pair_agrees_at_rest_witness :
  exists p, linked all_accepted p /\ mode (p_source p) = ModeRemote
    /\ r_keys (receiver_of p) = k_remote_keys (s_ledger (p_source p)).
Proof.
  destruct (session_shows session_press ModeRemote [4]) as (p & HL & Hm & H1 & H2 & H3 & H4 & _);
    [vm_compute; reflexivity|].
  pose proof (proj2 (pair_agrees_at_rest all_accepted p HL H1 H2 H3 H4)) as Hk.
  exists p. split; [exact HL|]. split; [exact Hm|]. unfold mode in Hm.
  destruct (s_state (p_source p)); try discriminate. exact (proj1 Hk).
Defined.
(** The state of a display exchange, as the witness looks at it. *)
Definition exchanging (p : Pair) : bool :=
  match s_state (p_source p) with SAwaitActivation a => a_already_remote a && negb (a_handover a) | _ => false end.
Definition exchange_shows (p : Pair) :=
  (shows p, exchanging p, elements (k_keys (s_ledger (p_source p))),
   (fun p' => (mode (p_source p'), s_failure (p_source p'))) <$> pair_op all_accepted p (PHear (ms 11))).
(** The key pressed at the source is held at the destination, by a hand, and let
    go on the way home; let go while displays are exchanged, it is in the ledger as
    sent, and no longer once the pointer lands. *)
Lemma pair_no_stuck_key_witness :
  (exists p u, linked all_accepted p /\ 4 ∈ v_keys (view (r_calls (receiver_of p)))
     /\ u ∈ k_keys (s_ledger (p_source p)))
  /\ (exists p, linked all_accepted p /\ mode (p_source p) = ModeAwaitLocalBarrier
     /\ v_keys (view (r_calls (receiver_of p))) = ∅)
  /\ exists p p' u, linked all_accepted p /\ 4 ∈ v_keys (view (r_calls (receiver_of p))) /\ k_keys (s_ledger (p_source p)) = ∅
     /\ u ∈ k_remote_keys (s_ledger (p_source p)) /\ pair_step all_accepted p p' /\ sent_by_hand (p_source p').
Proof.
  split_and!.
  - destruct (session_shows session_press ModeRemote [4]) as (p & HL & Hm & H1 & H2 & H3 & H4 & H5 & H6 & Hk);
      [vm_compute; reflexivity|].
    pose proof (pair_no_stuck_key all_accepted p HL H1 H2 H5 H6) as Hs. unfold mode in Hm.
    assert (4 ∈ v_keys (view (r_calls (receiver_of p)))) as H7.
    { apply elem_of_elements. rewrite Hk. set_solver. }
    destruct (s_state (p_source p)); try discriminate. destruct (proj1 Hs 4 H7) as (u & h & Hu & _).
    exists p, u. split; [exact HL|]. split; [exact H7|exact Hu].
  - destruct (session_shows session_home ModeAwaitLocalBarrier []) as (p & HL & Hm & H1 & H2 & H3 & H4 & H5 & H6 & Hk);
      [vm_compute; reflexivity|].
    pose proof (pair_no_stuck_key all_accepted p HL H1 H2 H5 H6) as Hs. unfold mode in Hm.
    exists p. split; [exact HL|]. split; [exact Hm|].
    destruct (s_state (p_source p)); try discriminate. exact (proj1 (holds_only_empty p Hs)).
  - destruct (session_of all_accepted wide_pair (session_exchange ++ [PAnswer])) as [p|] eqn:E; [|vm_compute in E; discriminate].
    pose proof (wide_linked _ _ _ E) as HL.
    assert (exchange_shows p = ((ModeAwaitActivation, true, None, None, None, false, false, [4]), true, [], Some (ModeRemote, None))) as Ep.
    { apply (inj Some). change (exchange_shows <$> Some p = Some ((ModeAwaitActivation, true, @None SourceFailure, @None ReceiverFailure, @None Z, false, false, [4]), true, [], Some (ModeRemote, @None SourceFailure))).
      rewrite <-E. vm_compute. reflexivity. }
    clear E. unfold exchange_shows, shows in Ep.
    apply pair_eq in Ep as [Ep Hop]. apply pair_eq in Ep as [Ep Hheld]. apply pair_eq in Ep as [Ep Hx].
    apply pair_eq in Ep as [Ep Hk]. apply pair_eq in Ep as [Ep H6]. apply pair_eq in Ep as [Ep H5].
    apply pair_eq in Ep as [Ep _]. apply pair_eq in Ep as [Ep _]. apply pair_eq in Ep as [Ep H2]. apply pair_eq in Ep as [_ H1].
    destruct (pair_op all_accepted p (PHear (ms 11))) as [p'|] eqn:Eop; [|discriminate].
    apply pair_op_step in Eop.
    assert (4 ∈ v_keys (view (r_calls (receiver_of p)))) as Hin.
    { apply elem_of_elements. rewrite Hk. by left. }
    pose proof (pair_no_stuck_key all_accepted p HL H1 H2 H5 H6) as Hs.
    unfold exchanging in Hx.
    destruct (s_state (p_source p)) as [|a| | | | |]; try discriminate. rewrite Hx in Hs. destruct Hs as [[Hin' _] Hland].
    destruct (Hin' 4 Hin) as (u & h & Hu & _). exists p, p', u.
    injection Hop as Hm' Hf'.
    split_and!; [exact HL|exact Hin|apply leibniz_equiv, elements_empty_iff; exact Hheld|exact Hu|exact Eop|exact (Hland p' Eop Hf' Hm')].
Defined.
