(* ===== verification/Policy.v ===== *)
(** * Which packets a link admits (monhop-transport/src/policy.rs)

    One selected interface and the peers pinned to it.  An [Ipv4Addr] is its 32-bit
    number; strings and signatures are bytes. *)

From stdpp Require Import gmap list.
From S2P Require Import Prelude.

Definition MAX_PINNED_PEERS : nat := 7.

Inductive InterfaceKind := Ethernet | WiFi | Other.
#[global] Instance InterfaceKind_eq_dec : EqDecision InterfaceKind.
Proof. solve_decision. Defined.
Record InterfaceSnapshot := mkInterface {
  stable_id : list Z; if_name : list Z; if_index : Z; if_address : Z; if_prefix : Z; if_kind : InterfaceKind;
  is_hardware : bool; is_up : bool; network_signature : list Z }.
#[global] Instance InterfaceSnapshot_eq_dec : EqDecision InterfaceSnapshot.
Proof. solve_decision. Defined.
Record RouteSnapshot := mkRoute { interface_index : Z; route_source : Z; next_hop : Z }.
Inductive PeerRoute := Found (r : RouteSnapshot) | Unreachable.
Inductive PolicyError := InvalidInterface | UnknownAttachment | InterfaceDown | NonPhysicalInterface | InvalidSubnet
| NonPrivateAddress | PeerIsLocal | NetworkOrBroadcastAddress | OffLinkPeer | RoutedPeer | WrongInterface | InterfaceChanged
| SessionClosed | DiscoveryDisabled | InvalidPeerSet | PeerUnreachable.
Record NetworkLock := mkLock { selected : InterfaceSnapshot; peers : list Z; reachable : list bool; revoked : bool }.

(** ** Addresses *)

Definition ipv4 (a b c d : Z) : Z := a * 2 ^ 24 + b * 2 ^ 16 + c * 2 ^ 8 + d.
(** [Ipv4Addr::is_private] and [is_link_local]. *)
Definition is_private (a : Z) : bool := (a ≫ 24 =? 10) || (a ≫ 20 =? 172 * 16 + 1) || (a ≫ 16 =? 192 * 256 + 168).
Definition is_link_local (a : Z) : bool := a ≫ 16 =? 169 * 256 + 254.
Definition is_private_or_link_local (a : Z) : bool := is_private a || is_link_local a.
Definition is_unspecified (a : Z) : bool := a =? 0.

(** [u32::MAX << (32 - prefix)] and [u32::MAX >> prefix]. *)
Definition subnet_mask (prefix : Z) : Z := Z.land (u32_max ≪ (32 - prefix)) u32_max.
Definition host_mask (prefix : Z) : Z := u32_max ≫ prefix.

Definition validate_host (address prefix : Z) : result PolicyError () :=
  if prefix =? 31 then Ok ()
  else
    let host := Z.land address (host_mask prefix) in
    if (host =? 0) || (host =? host_mask prefix) then Err NetworkOrBroadcastAddress else Ok ().
Definition validate_interface (i : InterfaceSnapshot) : result PolicyError () :=
  if (if_index i =? 0) || bool_decide (stable_id i = []) || (256 <? length (stable_id i))%nat then Err InvalidInterface
  else if bool_decide (network_signature i = []) || (128 <? length (network_signature i))%nat
          || forallb (fun b => b =? 0) (network_signature i) then Err UnknownAttachment
  else if negb (is_up i) then Err InterfaceDown
  else if negb (is_hardware i) || bool_decide (if_kind i = Other) then Err NonPhysicalInterface
  else if negb ((8 <=? if_prefix i) && (if_prefix i <=? 31)) then Err InvalidSubnet
  else if negb (is_private_or_link_local (if_address i)) then Err NonPrivateAddress
  else validate_host (if_address i) (if_prefix i).
Definition validate_subnet_peer (local prefix peer : Z) : result PolicyError () :=
  if negb ((8 <=? prefix) && (prefix <=? 31)) then Err InvalidSubnet
  else if negb (is_private_or_link_local local) || negb (is_private_or_link_local peer) then Err NonPrivateAddress
  else if local =? peer then Err PeerIsLocal
  else if negb (Z.land local (subnet_mask prefix) =? Z.land peer (subnet_mask prefix)) then Err OffLinkPeer
  else validate_host peer prefix.
Definition validate_peer (i : InterfaceSnapshot) (peer : Z) : result PolicyError () :=
  _ ← validate_interface i; validate_subnet_peer (if_address i) (if_prefix i) peer.
Definition validate_route (i : InterfaceSnapshot) (r : RouteSnapshot) : result PolicyError () :=
  if negb (interface_index r =? if_index i) || negb (route_source r =? if_address i) then Err WrongInterface
  else if negb (is_unspecified (next_hop r)) then Err RoutedPeer
  else Ok ().
(** [checked_sub] and [checked_shl] refuse a prefix above 32, and 0. *)
Definition other_subnet_host (local prefix : Z) : option Z :=
  if (prefix <? 1) || (32 <? prefix) then None
  else
    let network := Z.land local (subnet_mask prefix) in
    head (filter (fun h => is_ok (validate_subnet_peer local prefix h) = true) [Z.lor network 1; Z.lor network 2; network]).

(** ** The lock *)

(** The first error among the found routes, else which peers had one. *)
Fixpoint check_routes (i : InterfaceSnapshot) (routes : list (Z * PeerRoute)) : result PolicyError (list bool) :=
  match routes with
  | [] => Ok []
  | (_, r) :: routes =>
      b ← match r with Found r => _ ← validate_route i r; mret true | Unreachable => Ok false end;
      l ← check_routes i routes;
      mret (b :: l)
  end.
Definition validate_routes (i : InterfaceSnapshot) (routes : list (Z * PeerRoute)) : result PolicyError (list bool) :=
  l ← check_routes i routes;
  if bool_decide (l = [false]) then Err PeerUnreachable else Ok l.
Fixpoint validate_peers (i : InterfaceSnapshot) (earlier : list Z) (l : list Z) : result PolicyError () :=
  match l with
  | [] => Ok ()
  | p :: l =>
      if bool_decide (p ∈ earlier) then Err InvalidPeerSet
      else _ ← validate_peer i p; validate_peers i (earlier ++ [p]) l
  end.
Definition new_group (i : InterfaceSnapshot) (routes : list (Z * PeerRoute)) (allow_discovery : bool) : result PolicyError NetworkLock :=
  if allow_discovery then Err DiscoveryDisabled
  else
    _ ← validate_interface i;
    if bool_decide (routes = []) || (MAX_PINNED_PEERS <? length routes)%nat then Err InvalidPeerSet
    else
      _ ← validate_peers i [] (fst <$> routes);
      l ← validate_routes i routes;
      mret (mkLock i (fst <$> routes) l false).
Definition new_lock (i : InterfaceSnapshot) (peer : Z) (r : RouteSnapshot) (allow_discovery : bool) : result PolicyError NetworkLock :=
  new_group i [(peer, Found r)] allow_discovery.

Definition revalidate_routes (k : NetworkLock) (current : InterfaceSnapshot) (routes : list (Z * PeerRoute)) : result PolicyError (list bool) :=
  if bool_decide (fst <$> routes = peers k) then validate_routes current routes else Err InvalidPeerSet.
Definition revalidate (k : NetworkLock) (current : option InterfaceSnapshot) (routes : list (Z * PeerRoute))
  : NetworkLock * result PolicyError () :=
  if revoked k then (k, Err SessionClosed)
  else
    match match current with
          | Some c => if bool_decide (c = selected k) then revalidate_routes k c routes else Err InterfaceChanged
          | None => Err InterfaceChanged
          end with
    | Ok l => (mkLock (selected k) (peers k) l (revoked k), Ok ())
    | Err e => (mkLock (selected k) (peers k) (reachable k) true, Err e)
    end.
Definition held_elsewhere (k : NetworkLock) (index : nat) (peer : Z) : bool :=
  existsb (fun '(j, held) => negb (j =? index)%nat && (held =? peer)) (imap pair (peers k)).
Definition move_peer (k : NetworkLock) (index : nat) (peer : Z) (r : RouteSnapshot) : NetworkLock * result PolicyError () :=
  if revoked k then (k, Err SessionClosed)
  else if (length (peers k) <=? index)%nat || held_elsewhere k index peer then (k, Err InvalidPeerSet)
  else match (_ ← validate_peer (selected k) peer; validate_route (selected k) r) with
       | Err e => (k, Err e)
       | Ok _ => (mkLock (selected k) (<[index := peer]> (peers k)) (<[index := true]> (reachable k)) (revoked k), Ok ())
       end.
Definition authorize_packet (k : NetworkLock) (local source arrival : Z) : result PolicyError () :=
  if revoked k then Err SessionClosed
  else if negb (local =? if_address (selected k)) || negb (arrival =? if_index (selected k)) then Err WrongInterface
  else match list_find (fun p => p = source) (peers k) with
       | None => Err OffLinkPeer
       | Some (i, _) => if default false (reachable k !! i) then Ok () else Err PeerUnreachable
       end.

(** ** The lock's invariant *)

Inductive lock_step : NetworkLock -> NetworkLock -> Prop :=
| step_revalidate k current routes : lock_step k (fst (revalidate k current routes))
| step_move k index peer r : lock_step k (fst (move_peer k index peer r)).
Inductive lock_reach : NetworkLock -> Prop :=
| lock_new i routes d k : new_group i routes d = Ok k -> lock_reach k
| lock_next k k' : lock_reach k -> lock_step k k' -> lock_reach k'.

Definition on_link (i : InterfaceSnapshot) (p : Z) : Prop := validate_subnet_peer (if_address i) (if_prefix i) p = Ok ().
Definition LockOk (k : NetworkLock) : Prop :=
  (1 <= length (peers k) <= MAX_PINNED_PEERS)%nat /\ NoDup (peers k) /\ Forall (on_link (selected k)) (peers k)
  /\ length (reachable k) = length (peers k).

Lemma check_routes_length i routes l : check_routes i routes = Ok l -> length l = length routes.
Proof.
  revert l. induction routes as [|[p r] routes IH]; cbn [check_routes]; intros l E; [by injection E as <-|].
  apply result_bind_Ok in E as (b & _ & E). apply result_bind_Ok in E as (l' & E1 & [= <-]). cbn. by rewrite (IH l' E1).
Qed.
Lemma validate_routes_length i routes l : validate_routes i routes = Ok l -> length l = length routes.
Proof.
  intros E. apply result_bind_Ok in E as (l' & E1 & E2). destruct (bool_decide _); [done|]. injection E2 as <-. by eapply check_routes_length.
Qed.
Lemma validate_peer_on_link i p : validate_peer i p = Ok () -> on_link i p.
Proof. intros E. by apply result_bind_Ok in E as ([] & _ & E). Qed.
Lemma validate_peers_ok i earlier l : validate_peers i earlier l = Ok () -> NoDup earlier ->
  NoDup (earlier ++ l) /\ Forall (on_link i) l.
Proof.
  revert earlier. induction l as [|p l IH]; intros earlier E Hn; cbn [validate_peers] in E; [by rewrite app_nil_r|].
  destruct (bool_decide (p ∈ earlier)) eqn:Ep; [done|]. apply bool_decide_eq_false in Ep. apply result_bind_Ok in E as ([] & Ev & E).
  destruct (IH (earlier ++ [p]) E) as [H1 H2].
  { apply list.NoDup_app. split_and!; [done| |apply list.NoDup_singleton]. intros x Hx ->%list_elem_of_singleton. done. }
  rewrite <-app_assoc in H1. split; [exact H1|]. constructor; [by apply validate_peer_on_link|done].
Qed.
Lemma new_group_ok i routes d k : new_group i routes d = Ok k -> LockOk k.
Proof.
  unfold new_group. destruct d; [done|]. intros E. apply result_bind_Ok in E as ([] & _ & E).
  destruct (_ || _) eqn:Eb; [done|]. apply orb_false_elim in Eb as [E1%bool_decide_eq_false E2%Nat.ltb_ge].
  apply result_bind_Ok in E as ([] & Ep & E). apply result_bind_Ok in E as (l & El & [= <-]).
  apply validate_peers_ok in Ep as [H1 H2]; [|constructor]. unfold LockOk. cbn [peers reachable selected].
  rewrite length_fmap. split_and!; try done; [destruct routes; [done|cbn; lia]|by eapply validate_routes_length].
Qed.
Lemma held_elsewhere_false k index peer j : held_elsewhere k index peer = false -> peers k !! j = Some peer -> j = index.
Proof.
  intros E Ej. destruct (decide (j = index)) as [|Hne]; [done|]. exfalso. apply not_true_iff_false in E. apply E.
  apply existsb_exists. exists (j, peer). split.
  - apply list_elem_of_In, list_elem_of_lookup. exists j. by rewrite list_lookup_imap, Ej.
  - rewrite Z.eqb_refl, andb_true_r. by apply negb_true_iff, Nat.eqb_neq.
Qed.
Lemma lock_step_ok k k' : LockOk k -> lock_step k k' -> LockOk k'.
Proof.
  intros HL Hs. pose proof HL as (Hl & Hn & HF & Hr). destruct Hs as [k current routes|k index peer r].
  - unfold revalidate. destruct (revoked k); [done|]. case_match eqn:E; [|exact HL]. cbn [fst]. refine (conj Hl (conj Hn (conj HF _))). cbn [reachable peers].
    destruct current as [c|]; [|done]. destruct (bool_decide (c = selected k)); [|done]. unfold revalidate_routes in E.
    destruct (bool_decide (routes.*1 = peers k)) eqn:Ep; [|done]. apply bool_decide_eq_true in Ep. rewrite <-Ep, length_fmap.
    by eapply validate_routes_length.
  - unfold move_peer. destruct (revoked k); [done|]. destruct (_ || _) eqn:Eb; [done|]. apply orb_false_elim in Eb as [E1%Nat.leb_gt E2].
    destruct (validate_peer (selected k) peer) as [[]|] eqn:Ev; [|done]. cbn [mbind result_bind].
    destruct (validate_route (selected k) r); [|done]. cbn [fst]. unfold LockOk. cbn [peers reachable selected]. rewrite !length_insert.
    refine (conj Hl (conj _ (conj _ Hr))).
    + apply NoDup_alt. intros n m x. rewrite !list_lookup_insert_Some.
      intros [(? & ? & _)|(Hn1 & En)] [(? & ? & _)|(Hm1 & Em)]; subst; try done.
      * symmetry. by apply (held_elsewhere_false k _ _ m E2).
      * by apply (held_elsewhere_false k _ _ n E2).
      * by eapply NoDup_lookup.
    + apply Forall_insert; [done|by apply validate_peer_on_link].
Qed.
Lemma lock_reach_ok k : lock_reach k -> LockOk k.
Proof. induction 1; [by eapply new_group_ok|by eapply lock_step_ok]. Qed.

Lemma revoked_stays k k' : rtc lock_step k k' -> revoked k = true -> revoked k' = true.
Proof.
  induction 1 as [|k k1 k2 Hs _ IH]; [done|]. intros Hr. apply IH. destruct Hs; unfold revalidate, move_peer; by rewrite Hr.
Qed.

(** C25. A packet is admitted only from a pinned peer that is another private or
    link-local host of the selected interface's own subnet, arriving on that
    interface; and once a check fails no packet is admitted again, whatever later
    checks find. *)
Theorem policy_admits_only_pinned k : lock_reach k ->
  (forall local source arrival, authorize_packet k local source arrival = Ok () ->
     let i := selected k in
     local = if_address i /\ arrival = if_index i /\ source ∈ peers k /\ source <> local
     /\ is_private_or_link_local source = true
     /\ Z.land source (subnet_mask (if_prefix i)) = Z.land local (subnet_mask (if_prefix i))
     /\ (if_prefix i <> 31 -> Z.land source (host_mask (if_prefix i)) <> 0
         /\ Z.land source (host_mask (if_prefix i)) <> host_mask (if_prefix i)))
  /\ (forall current routes e k', snd (revalidate k current routes) = Err e -> rtc lock_step (fst (revalidate k current routes)) k' ->
     forall local source arrival, authorize_packet k' local source arrival = Err SessionClosed).
Proof.
  intros HR. split.
  - intros local source arrival. unfold authorize_packet. destruct (revoked k); [done|]. destruct (_ || _) eqn:E1; [done|].
    apply orb_false_elim in E1 as [E1%negb_false_iff%Z.eqb_eq E2%negb_false_iff%Z.eqb_eq].
    destruct (list_find _ _) as [[j p]|] eqn:Ef; [|done]. apply list_find_Some in Ef as (Ej & -> & _). intros _. cbv zeta.
    assert (source ∈ peers k) as Hin by (apply list_elem_of_lookup; eauto).
    destruct (lock_reach_ok k HR) as (_ & _ & HF & _). pose proof (proj1 (list.Forall_forall _ _) HF _ Hin) as Ho.
    unfold on_link, validate_subnet_peer in Ho. rewrite <-E1 in Ho. destruct (negb _); [done|]. destruct (_ || _) eqn:E3; [done|].
    apply orb_false_elim in E3 as [_ E3%negb_false_iff]. destruct (local =? source) eqn:E4; [done|]. apply Z.eqb_neq in E4.
    destruct (negb _) eqn:E5 in Ho; [done|]. apply negb_false_iff, Z.eqb_eq in E5. rewrite <-E1. split_and!; try done.
    intros Hp. unfold validate_host in Ho. rewrite (proj2 (Z.eqb_neq _ 31)) in Ho by done. destruct (_ || _) eqn:E6; [done|].
    apply orb_false_elim in E6 as [E6%Z.eqb_neq E7%Z.eqb_neq]. done.
  - intros current routes e k' He Hs local source arrival. assert (revoked k' = true) as Hr.
    { eapply revoked_stays; [exact Hs|]. unfold revalidate in *. destruct (revoked k) eqn:Er; [done|]. by case_match. }
    unfold authorize_packet. by rewrite Hr.
Qed.

Definition home_interface : InterfaceSnapshot := mkInterface [105] [101] 4 (ipv4 192 168 1 20) 24 WiFi true true [7].
Definition home_route : RouteSnapshot := mkRoute 4 (ipv4 192 168 1 20) 0.
Lemma policy_admits_only_pinned_witness : exists k, new_lock home_interface (ipv4 192 168 1 30) home_route false = Ok k
  /\ authorize_packet k (ipv4 192 168 1 20) (ipv4 192 168 1 30) 4 = Ok ()
  /\ is_private_or_link_local (ipv4 192 168 1 30) = true.
Proof.
  eexists. split; [vm_compute; reflexivity|]. split; [vm_compute; reflexivity|].
  edestruct (policy_admits_only_pinned (mkLock home_interface [ipv4 192 168 1 30] [true] false)) as [H _].
  - apply (lock_new home_interface [(ipv4 192 168 1 30, Found home_route)] false). vm_compute. reflexivity.
  - apply (H (ipv4 192 168 1 20) (ipv4 192 168 1 30) 4). vm_compute. reflexivity.
Defined.
