(* ===== verification/PairingCode.v ===== *)
(** * The short pairing code (monhop-transport/src/pairing_code.rs)

    Twelve Crockford symbols that carry 55 data bits and a CRC-5.  Text is the list of
    its bytes, a code is its [data : u64]; the operating system's random bytes are a
    parameter of [generate]. *)

From Stdlib Require Import Ascii String.
From stdpp Require Import list.
From S2P Require Import Prelude Policy.
Open Scope Z_scope.

Definition PAIRING_CODE_SYMBOLS : nat := 12.
Definition MAX_PAIRING_CODE_INPUT_BYTES : nat := 64.
Definition GROUP_SYMBOLS : nat := 4.
Definition SYMBOL_BITS : Z := 5.
Definition ADDRESS_BITS : Z := 16.
Definition SECRET_BITS : Z := 39.
Definition DATA_BITS : Z := ADDRESS_BITS + SECRET_BITS.
Definition CHECK_BITS : Z := 5.
Definition CHECK_GENERATOR : Z := 37.
Definition DATA_BYTES : nat := 7.

(** The bytes of a byte-string literal. *)
Definition text (s : string) : list Z := (fun c => Z.of_N (N_of_ascii c)) <$> list_ascii_of_string s.
Definition ALPHABET : list Z := Eval vm_compute in text "0123456789ABCDEFGHJKMNPQRSTVWXYZ".
Definition PASSWORD_PREFIX : list Z := Eval vm_compute in text "monhop-pair-v1".
Definition dash : Z := 45.

Inductive PairingCodeError := Incomplete | Mistyped | OffNetwork | Unavailable.

(** [u64] shifts drop what leaves the 64 bits. *)
Definition as_u64 (z : Z) : Z := Z.land z u64_max.
Definition shl (z bits : Z) : Z := as_u64 (z ≪ bits).
Definition as_u32 (z : Z) : Z := Z.land z u32_max.

Definition mask (bits : Z) : Z := shl 1 bits - 1.

(** [u8::is_ascii_whitespace]. *)
Definition is_ascii_whitespace (b : Z) : bool := existsb (Z.eqb b) [32; 9; 10; 12; 13].

Definition symbol_value (b : Z) : option Z :=
  if b =? 79 then Some 0
  else if (b =? 73) || (b =? 76) then Some 1
  else (fun p => Z.of_nat (fst p)) <$> list_find (fun symbol => symbol = b) ALPHABET.

(** One turn of the division, at [bit]. *)
Definition check_step (remainder bit : Z) : Z :=
  if Z.land (remainder ≫ bit) 1 =? 1 then Z.lxor remainder (shl CHECK_GENERATOR (bit - CHECK_BITS)) else remainder.
(** The turns at [CHECK_BITS + n - 1] down to [CHECK_BITS]. *)
Fixpoint check_loop (n : nat) (remainder : Z) : Z :=
  match n with O => remainder | S n => check_loop n (check_step remainder (CHECK_BITS + Z.of_nat n)) end.
Definition check (data : Z) : Z := check_loop (Z.to_nat DATA_BITS) (shl data CHECK_BITS).

Definition generate (showing : Z) (random : option (list Z)) : result PairingCodeError Z :=
  match random with
  | None => Err Unavailable
  | Some random =>
      let secret := Z.land (be_value random) (mask SECRET_BITS) in
      Ok (Z.lor (shl (Z.land showing (mask ADDRESS_BITS)) SECRET_BITS) secret)
  end.

(** The loop of [parse]: the value and the count of symbols. *)
Fixpoint read_symbols (input : list Z) (value : Z) (symbols : nat) : result PairingCodeError (Z * nat) :=
  match input with
  | [] => Ok (value, symbols)
  | b :: input =>
      if (b =? dash) || is_ascii_whitespace b then read_symbols input value symbols
      else
        symbol ← ok_or Incomplete (symbol_value (to_ascii_uppercase b));
        if (PAIRING_CODE_SYMBOLS <? S symbols)%nat then Err Incomplete
        else read_symbols input (Z.lor (shl value SYMBOL_BITS) symbol) (S symbols)
  end.
Definition parse (input : list Z) : result PairingCodeError Z :=
  if (MAX_PAIRING_CODE_INPUT_BYTES <? length input)%nat then Err Incomplete
  else
    '(value, symbols) ← read_symbols input 0 0;
    if negb (symbols =? PAIRING_CODE_SYMBOLS)%nat then Err Incomplete
    else
      let data := value ≫ CHECK_BITS in
      if negb (check data =? Z.land value (mask CHECK_BITS)) then Err Mistyped else Ok data.

Definition shown_symbol (value : Z) (index : nat) : list Z :=
  let shift := SYMBOL_BITS * Z.of_nat (PAIRING_CODE_SYMBOLS - 1 - index) in
  (if (0 <? index)%nat && (index mod GROUP_SYMBOLS =? 0)%nat then [dash] else [])
  ++ [nth (Z.to_nat (Z.land (value ≫ shift) (mask SYMBOL_BITS))) ALPHABET 0].
Definition display (data : Z) : list Z :=
  let value := Z.lor (shl data CHECK_BITS) (check data) in
  concat (shown_symbol value <$> seq 0 PAIRING_CODE_SYMBOLS).

Definition showing_address (data local prefix_len : Z) : result PairingCodeError Z :=
  if prefix_len <? 32 - ADDRESS_BITS then Err OffNetwork
  else
    let low := as_u32 (data ≫ SECRET_BITS) in
    let showing := Z.lor (Z.land local (Z.lxor (as_u32 (mask ADDRESS_BITS)) u32_max)) low in
    _ ← map_err (fun _ => OffNetwork) (validate_subnet_peer local prefix_len showing);
    mret showing.

Definition password (data : Z) : list Z := PASSWORD_PREFIX ++ drop (8 - DATA_BYTES) (be_bytes 8 data).

(** ** The text as symbols *)

Definition put_symbol (value symbol : Z) : Z := Z.lor (shl value SYMBOL_BITS) symbol.
(** What a text spells, dashes and blanks left out. *)
Definition read_byte (b : Z) : option (list Z) :=
  if (b =? dash) || is_ascii_whitespace b then Some [] else (fun s => [s]) <$> symbol_value (to_ascii_uppercase b).
Fixpoint symbols_of (input : list Z) : option (list Z) :=
  match input with [] => Some [] | b :: input => l ← read_byte b; r ← symbols_of input; Some (l ++ r) end.

Lemma symbols_of_app a b : symbols_of (a ++ b) = (l ← symbols_of a; r ← symbols_of b; Some (l ++ r)).
Proof.
  induction a as [|x a IH]; cbn [app symbols_of]; [cbn; by destruct (symbols_of b)|]. rewrite IH.
  destruct (read_byte x) as [l|]; [|done]. cbn. destruct (symbols_of a) as [r|]; [|done]. cbn. destruct (symbols_of b); [|done]. cbn.
  by rewrite app_assoc.
Qed.

(** What is skipped is no symbol. *)
Lemma skipped_is_no_symbol b : ((b =? dash) || is_ascii_whitespace b) = true -> symbol_value (to_ascii_uppercase b) = None.
Proof.
  intros [->%Z.eqb_eq|H]%orb_true_elim; [reflexivity|]. cbn [is_ascii_whitespace existsb] in H.
  repeat (apply orb_prop in H as [->%Z.eqb_eq|H]; [reflexivity|]). done.
Qed.
Lemma symbol_value_bound b s : symbol_value b = Some s -> 0 <= s < 32.
Proof.
  unfold symbol_value. destruct (b =? 79); [intros [= <-]; lia|]. destruct (_ || _); [intros [= <-]; lia|].
  intros ([j x] & Hj & ->)%fmap_Some. apply list_find_Some in Hj as (Hj & _). apply lookup_lt_Some in Hj. cbn in *. lia.
Qed.

Lemma read_symbols_spec input v n l : symbols_of input = Some l -> (n + length l <= 12)%nat ->
  read_symbols input v n = Ok (foldl put_symbol v l, (n + length l)%nat).
Proof.
  revert v n l. induction input as [|b input IH]; cbn [symbols_of read_symbols]; intros v n l E Hn.
  { injection E as <-. cbn. by rewrite Nat.add_0_r. }
  unfold read_byte in E. destruct (_ || _); cbn in E.
  - destruct (symbols_of input) as [r|]; [|done]. injection E as <-. by apply IH.
  - destruct (symbol_value _) as [s|]; [|done]. cbn in E. destruct (symbols_of input) as [r|]; [|done]. injection E as <-. cbn in Hn. cbn [ok_or]. rewrite result_bind_ret. cbn [app foldl length].
    rewrite (proj2 (Nat.ltb_ge _ _)) by (unfold PAIRING_CODE_SYMBOLS; lia). rewrite (IH _ _ r) by (done || lia). do 2 f_equal. lia.
Qed.

(** ** Shifts and exclusive or *)

Lemma shl_lxor a b k : 0 <= k -> shl (Z.lxor a b) k = Z.lxor (shl a k) (shl b k).
Proof. intros. unfold shl, as_u64. rewrite Z.shiftl_lxor. apply Z.bits_inj'. intros. rewrite !Z.land_spec, !Z.lxor_spec, !Z.land_spec.
  by repeat destruct (Z.testbit _ _). Qed.
Lemma shl_small v k n : 0 <= k -> 0 <= v < 2 ^ n -> 0 <= n -> n + k <= 64 -> shl v k = v ≪ k.
Proof.
  intros Hk Hv Hn Hs. unfold shl, as_u64. change u64_max with (2 ^ 64 - 1). rewrite land_mask by lia. rewrite Z.shiftl_mul_pow2 by done.
  apply Z.mod_small. assert (2 ^ n * 2 ^ k <= 2 ^ 64) by (rewrite <-Z.pow_add_r by lia; apply Z.pow_le_mono_r; lia).
  pose proof (Z.pow_pos_nonneg 2 k). nia.
Qed.
Lemma put_symbol_lxor v s : 0 <= s < 32 -> put_symbol v s = Z.lxor (shl v 5) s.
Proof.
  intros Hs. unfold put_symbol, SYMBOL_BITS. rewrite <-Z.lxor_lor; [done|]. unfold shl, as_u64. rewrite <-Z.land_assoc, (Z.land_comm u64_max), Z.land_assoc.
  by rewrite land_shiftl_low by lia.
Qed.
Definition shift_symbols (n : nat) (e : Z) : Z := Nat.iter n (fun e => shl e 5) e.
Lemma fold_lxor l : Forall (fun s => 0 <= s < 32) l -> forall v w,
  foldl put_symbol (Z.lxor v w) l = Z.lxor (foldl put_symbol v l) (shift_symbols (length l) w).
Proof.
  induction 1 as [|s l Hs _ IH]; intros v w; cbn [foldl length]; [done|].
  rewrite !put_symbol_lxor by done. rewrite shl_lxor by lia. rewrite Z.lxor_assoc, (Z.lxor_comm (shl w 5)), <-Z.lxor_assoc, IH.
  f_equal. unfold shift_symbols. by rewrite Nat.iter_succ_r.
Qed.

(** ** The check *)

Lemma check_step_testbit r bit : 0 <= bit -> check_step r bit = if Z.testbit r bit then Z.lxor r (shl 37 (bit - 5)) else r.
Proof.
  intros Hb. unfold check_step, CHECK_GENERATOR, CHECK_BITS. change 1 with (Z.ones 1) at 1. rewrite Z.land_ones by lia. change (2 ^ 1) with 2.
  rewrite <-Z.bit0_mod, Z.shiftr_spec, Z.add_0_l by lia. by destruct (Z.testbit r bit).
Qed.
Lemma check_loop_lxor n a b : check_loop n (Z.lxor a b) = Z.lxor (check_loop n a) (check_loop n b).
Proof.
  revert a b. induction n as [|n IH]; intros a b; cbn [check_loop]; [done|]. rewrite <-IH. f_equal. unfold CHECK_BITS.
  rewrite !check_step_testbit by lia. rewrite Z.lxor_spec. set (g := shl _ _). destruct (Z.testbit a _), (Z.testbit b _); cbn [xorb];
    apply Z.bits_inj'; intros i _; rewrite !Z.lxor_spec; by repeat destruct (Z.testbit _ i).
Qed.
Lemma check_lxor a b : check (Z.lxor a b) = Z.lxor (check a) (check b).
Proof. unfold check. rewrite shl_lxor by (unfold CHECK_BITS; lia). apply check_loop_lxor. Qed.

Lemma below_pow2 r n : 0 <= n -> 0 <= r < 2 ^ (n + 1) -> Z.testbit r n = false -> 0 <= r < 2 ^ n.
Proof.
  intros Hn Hr Ht. split; [lia|]. rewrite Z.testbit_false in Ht by done. rewrite Z.pow_add_r in Hr by lia.
  assert (0 <= r / 2 ^ n < 2) by (split; [apply Z.div_pos|apply Z.div_lt_upper_bound]; lia).
  rewrite Z.mod_small in Ht by done. assert (r < 2 ^ n \/ 2 ^ n <= r) as [|Hl] by lia; [done|].
  apply (Z.div_le_mono _ _ (2 ^ n)) in Hl; [|lia]. rewrite Z.div_same in Hl by lia. lia.
Qed.
Lemma lxor_bound a b n : 0 <= n -> 0 <= a < 2 ^ n -> 0 <= b < 2 ^ n -> 0 <= Z.lxor a b < 2 ^ n.
Proof.
  intros Hn Ha Hb. assert (0 <= Z.lxor a b) by (apply Z.lxor_nonneg; lia). split; [done|].
  rewrite <-(Z.mod_small a (2 ^ n)), <-(Z.mod_small b (2 ^ n)) by done. rewrite <-!Z.land_ones by done.
  replace (Z.lxor _ _) with (Z.land (Z.lxor a b) (Z.ones n)).
  - rewrite Z.land_ones by done. apply Z.mod_pos_bound. lia.
  - apply Z.bits_inj'. intros. rewrite Z.lxor_spec, !Z.land_spec, Z.lxor_spec. by repeat destruct (Z.testbit _ _).
Qed.
Lemma check_loop_bound n r : (n <= 55)%nat -> 0 <= r < 2 ^ (5 + Z.of_nat n) -> 0 <= check_loop n r < 32.
Proof.
  revert r. induction n as [|n IH]; intros r Hn Hr; [done|]. cbn [check_loop]. apply IH; [lia|]. unfold CHECK_BITS. rewrite check_step_testbit by lia.
  replace (5 + Z.of_nat (S n)) with (5 + Z.of_nat n + 1) in Hr by lia. set (k := 5 + Z.of_nat n) in *.
  assert (0 <= 37 ≪ (k - 5) < 2 ^ (k + 1)) as Hg.
  { rewrite Z.shiftl_mul_pow2 by lia. replace (k + 1) with (6 + (k - 5)) by lia. rewrite Z.pow_add_r by lia.
    pose proof (Z.pow_pos_nonneg 2 (k - 5)). lia. }
  destruct (Z.testbit r k) eqn:Et; apply below_pow2; try done; try lia.
  - rewrite (shl_small 37 _ 6) by lia. apply lxor_bound; lia.
  - rewrite (shl_small 37 _ 6) by lia. rewrite Z.lxor_spec, Et, Z.shiftl_spec by lia. by replace (k - (k - 5)) with 5 by lia.
Qed.
Lemma check_bound d : 0 <= d < 2 ^ 55 -> 0 <= check d < 32.
Proof.
  intros Hd. unfold check, CHECK_BITS, DATA_BITS, ADDRESS_BITS, SECRET_BITS. apply check_loop_bound; [lia|].
  rewrite (shl_small d 5 55) by lia. rewrite Z.shiftl_mul_pow2 by lia. change (5 + _) with 60. change (2 ^ 60) with (2 ^ 55 * 2 ^ 5). lia.
Qed.

(** The remainder a received value leaves; [0] is accepted. *)
Definition syndrome (value : Z) : Z := Z.lxor (check (value ≫ 5)) (Z.land value 31).
Lemma syndrome_lxor a b : syndrome (Z.lxor a b) = Z.lxor (syndrome a) (syndrome b).
Proof.
  unfold syndrome. rewrite Z.shiftr_lxor, check_lxor. apply Z.bits_inj'. intros. rewrite !Z.lxor_spec, !Z.land_spec, Z.lxor_spec.
  by repeat destruct (Z.testbit _ _).
Qed.
(** The remainders of all the one-symbol differences. *)
Lemma syndrome_burst n e : (n < 12)%nat -> 0 < e < 32 -> syndrome (shift_symbols n e) <> 0.
Proof.
  intros Hn He. assert (forallb (fun n => forallb (fun e => negb (syndrome (shift_symbols n e) =? 0)) (seqZ 1 31)) (seq 0 12) = true) as HT
    by (vm_compute; reflexivity).
  rewrite forallb_forall in HT. specialize (HT n). rewrite forallb_forall in HT.
  apply Z.eqb_neq, negb_true_iff, HT; [apply in_seq; lia|]. apply list_elem_of_In, elem_of_seqZ. lia.
Qed.

(** ** What a code shows *)

Definition shown_value (d : Z) : Z := Z.lor (shl d CHECK_BITS) (check d).
Definition digit (v : Z) (index : nat) : Z := Z.land (v ≫ (5 * Z.of_nat (11 - index))) 31.
Lemma digit_bound v i : 0 <= digit v i < 32.
Proof. unfold digit. change 31 with (2 ^ 5 - 1). rewrite land_mask by lia. apply Z.mod_pos_bound. lia. Qed.

Lemma shown_value_spec d : 0 <= d < 2 ^ 55 ->
  0 <= shown_value d < 2 ^ 60 /\ shown_value d ≫ 5 = d /\ Z.land (shown_value d) 31 = check d.
Proof.
  intros Hd. pose proof (check_bound d Hd) as Hc. unfold shown_value, CHECK_BITS. rewrite (shl_small d 5 55) by lia.
  rewrite lor_shiftl by lia. split; [change (2 ^ 60) with (2 ^ 55 * 2 ^ 5); lia|]. split.
  - rewrite Z.shiftr_div_pow2 by lia. by apply div_field.
  - change 31 with (2 ^ 5 - 1). rewrite land_mask by lia. by apply mod_field.
Qed.

Lemma alphabet_read s : 0 <= s < 32 -> read_byte (nth (Z.to_nat s) ALPHABET 0) = Some [s].
Proof.
  intros Hs. assert (forallb (fun s => bool_decide (read_byte (nth (Z.to_nat s) ALPHABET 0) = Some [s])) (seqZ 0 32) = true) as HT
    by (vm_compute; reflexivity).
  rewrite forallb_forall in HT. eapply bool_decide_eq_true_1, HT, list_elem_of_In, elem_of_seqZ. lia.
Qed.
Lemma shown_symbol_read v i : symbols_of (shown_symbol v i) = Some [digit v i].
Proof.
  unfold shown_symbol. fold (digit v i). set (b := (0 <? i)%nat && _). change (symbols_of ((if b then [dash] else []) ++
    [nth (Z.to_nat (digit v i)) ALPHABET 0]) = Some [digit v i]).
  rewrite symbols_of_app. destruct b; cbn [symbols_of]; rewrite alphabet_read by apply digit_bound; reflexivity.
Qed.
Lemma concat_read v l : symbols_of (concat (shown_symbol v <$> l)) = Some (digit v <$> l).
Proof. induction l as [|i l IH]; [done|]. rewrite !fmap_cons. cbn [concat]. by rewrite symbols_of_app, shown_symbol_read, IH. Qed.
Lemma display_read d : symbols_of (display d) = Some (digit (shown_value d) <$> seq 0 12).
Proof. apply concat_read. Qed.

Lemma fold_digits v n : 0 <= v < 2 ^ 60 -> (n <= 12)%nat ->
  foldl put_symbol 0 (digit v <$> seq 0 n) = v ≫ (5 * Z.of_nat (12 - n)).
Proof.
  intros Hv. induction n as [|n IH]; intros Hn.
  { cbn. rewrite Z.shiftr_div_pow2 by lia. symmetry. by apply Z.div_small. }
  rewrite seq_S, fmap_app, foldl_app, IH by lia. cbn [fmap list_fmap foldl Nat.add]. unfold put_symbol, digit, SYMBOL_BITS.
  replace (Z.of_nat (12 - n)) with (Z.of_nat (11 - n) + 1) by lia. replace (12 - S n)%nat with (11 - n)%nat by lia.
  set (k := Z.of_nat (11 - n)). assert (0 <= k) by lia. rewrite Z.mul_add_distr_l, <-Z.shiftr_shiftr by lia. set (w := v ≫ (5 * k)).
  assert (0 <= w < 2 ^ 60) as Hw.
  { unfold w. rewrite Z.shiftr_div_pow2 by lia. pose proof (Z.pow_pos_nonneg 2 (5 * k)). split; [apply Z.div_pos; lia|].
    apply Z.div_lt_upper_bound; nia. }
  change (5 * 1) with 5. change 31 with (2 ^ 5 - 1). rewrite land_mask by lia. rewrite Z.shiftr_div_pow2 by lia.
  pose proof (Z.div_lt_upper_bound w (2 ^ 5) (2 ^ 55)). pose proof (Z.div_pos w (2 ^ 5)). pose proof (Z.mod_pos_bound w (2 ^ 5)).
  rewrite (shl_small _ 5 55) by lia. rewrite lor_shiftl by lia. rewrite (Z.div_mod w (2 ^ 5)) at 3 by lia. lia.
Qed.

(** A text that spells twelve symbols is judged by the remainder it leaves. *)
Lemma parse_value input l : (length input <= 64)%nat -> symbols_of input = Some l -> length l = 12%nat ->
  parse input = if syndrome (foldl put_symbol 0 l) =? 0 then Ok (foldl put_symbol 0 l ≫ 5) else Err Mistyped.
Proof.
  intros Hi El Hl. unfold parse. rewrite (proj2 (Nat.ltb_ge _ _)) by done. rewrite (read_symbols_spec input 0 0 l El) by lia.
  rewrite result_bind_ret, Hl. cbn [Nat.add Nat.eqb negb PAIRING_CODE_SYMBOLS]. cbv zeta. unfold CHECK_BITS. change (mask 5) with 31.
  set (v := foldl _ _ _). unfold syndrome. destruct (Z.eqb_spec (check (v ≫ 5)) (Z.land v 31)) as [->|Hne]; cbn [negb].
  - by rewrite Z.lxor_nilpotent.
  - rewrite (proj2 (Z.eqb_neq _ _)); [done|]. by intros E%Z.lxor_eq.
Qed.
Lemma fold_shown d : 0 <= d < 2 ^ 55 -> foldl put_symbol 0 (digit (shown_value d) <$> seq 0 12) = shown_value d.
Proof. intros Hd. rewrite fold_digits by (lia || by apply shown_value_spec). by rewrite Z.shiftr_0_r. Qed.
Lemma shown_syndrome d : 0 <= d < 2 ^ 55 -> syndrome (shown_value d) = 0.
Proof. intros (_ & E1 & E2)%shown_value_spec. unfold syndrome. rewrite E1, E2. apply Z.lxor_nilpotent. Qed.
Lemma display_length d : length (display d) = 14%nat.
Proof. reflexivity. Qed.
Lemma display_parse d : 0 <= d < 2 ^ 55 -> parse (display d) = Ok d.
Proof.
  intros Hd. rewrite (parse_value _ _ ltac:(rewrite display_length; lia) (display_read d)) by done. rewrite fold_shown, shown_syndrome by done.
  cbn. f_equal. by apply shown_value_spec.
Qed.

(** ** The address a code carries *)

Lemma mask_address : mask ADDRESS_BITS = 2 ^ 16 - 1. Proof. reflexivity. Qed.
Lemma generate_spec showing random d : is_u32 showing -> generate showing (Some random) = Ok d ->
  d = (showing mod 2 ^ 16) * 2 ^ 39 + be_value random mod 2 ^ 39 /\ 0 <= d < 2 ^ 55.
Proof.
  unfold generate. intros Hs [= <-]. rewrite mask_address. change (mask SECRET_BITS) with (2 ^ 39 - 1). rewrite !land_mask by lia.
  pose proof (Z.mod_pos_bound showing (2 ^ 16)). pose proof (Z.mod_pos_bound (be_value random) (2 ^ 39)). unfold SECRET_BITS.
  rewrite (shl_small _ 39 16) by lia. rewrite lor_shiftl by lia. split; [done|]. change (2 ^ 55) with (2 ^ 16 * 2 ^ 39). nia.
Qed.
Lemma high_bits_of_mask x y prefix : is_u32 x -> is_u32 y -> 16 <= prefix <= 31 ->
  Z.land x (subnet_mask prefix) = Z.land y (subnet_mask prefix) -> x ≫ 16 = y ≫ 16.
Proof.
  intros Hx Hy Hp E. apply Z.bits_inj'. intros n Hn. rewrite !Z.shiftr_spec by done.
  destruct (Z.le_gt_cases 16 n) as [Hl|Hl].
  - assert (forall z, is_u32 z -> Z.testbit z (n + 16) = false) as Hz; [|by rewrite !Hz].
    intros z Hz. rewrite <-(Z.mod_small z (2 ^ 32)) by (unfold is_u32, u32_max in Hz; lia). apply Z.mod_pow2_bits_high. lia.
  - apply (f_equal (fun z => Z.testbit z (n + 16))) in E. rewrite !Z.land_spec in E.
    assert (Z.testbit (subnet_mask prefix) (n + 16) = true) as Hm; [|by rewrite Hm, !andb_true_r in E].
    unfold subnet_mask. rewrite Z.land_spec, Z.shiftl_spec by lia. change u32_max with (Z.ones 32).
    rewrite !Z.ones_spec_low by lia. done.
Qed.
Lemma address_rebuilt x y : is_u32 x -> is_u32 y -> x ≫ 16 = y ≫ 16 ->
  Z.lor (Z.land x (Z.lxor (as_u32 (mask ADDRESS_BITS)) u32_max)) (as_u32 (y mod 2 ^ 16)) = y.
Proof.
  intros Hx Hy E. rewrite mask_address. unfold as_u32. change (Z.lxor _ u32_max) with (Z.land u32_max (Z.ones 16 ≪ 16)).
  change u32_max with (2 ^ 32 - 1). rewrite (Z.land_assoc x), !land_mask by lia.
  unfold is_u32, u32_max in *. pose proof (Z.mod_pos_bound y (2 ^ 16)). rewrite (Z.mod_small x), (Z.mod_small (y mod _)) by lia.
  replace (Z.land x (Z.ones 16 ≪ 16)) with ((y ≫ 16) ≪ 16).
  - rewrite lor_shiftl by lia. rewrite Z.shiftr_div_pow2 by lia. rewrite (Z.div_mod y (2 ^ 16)) at 3 by lia. lia.
  - rewrite <-E. apply Z.bits_inj'. intros n Hn. rewrite Z.land_spec. destruct (Z.le_gt_cases 16 n).
    + rewrite !Z.shiftl_spec, Z.shiftr_spec by lia. replace (n - 16 + 16) with n by lia. destruct (Z.le_gt_cases 32 n).
      * rewrite (Z.ones_spec_high 16) by lia. rewrite andb_false_r. rewrite <-(Z.mod_small x (2 ^ 32)) by lia. apply Z.mod_pow2_bits_high. lia.
      * rewrite Z.ones_spec_low by lia. by rewrite andb_true_r.
    + rewrite !Z.shiftl_spec_low by lia. by rewrite andb_false_r.
Qed.

Lemma validate_subnet_peer_prefix local prefix peer : validate_subnet_peer local prefix peer = Ok () ->
  prefix <= 31 /\ Z.land local (subnet_mask prefix) = Z.land peer (subnet_mask prefix).
Proof.
  unfold validate_subnet_peer. destruct (negb _) eqn:E1; [done|]. destruct (_ || _); [done|]. destruct (local =? peer); [done|].
  destruct (negb (Z.land _ _ =? _)) eqn:E2; [done|]. intros _.
  apply negb_false_iff, andb_true_iff in E1 as [_ E1%Z.leb_le]. by apply negb_false_iff, Z.eqb_eq in E2.
Qed.
Lemma password_injective d d' : 0 <= d < 2 ^ 55 -> 0 <= d' < 2 ^ 55 -> password d = password d' -> d = d'.
Proof.
  intros Hd Hd' E. apply app_inv_head in E. change (be_bytes 7 d = be_bytes 7 d') in E. apply (f_equal be_value) in E. rewrite !be_value_be_bytes in E. change (256 ^ Z.of_nat 7) with (2 ^ 56) in E.
  by rewrite !Z.mod_small in E by lia.
Qed.

(** A fresh code, shown and typed back, is read as the same code: the computer
    that enters it, on a subnet of at most 16 host bits in which the showing computer
    is a valid peer, gets exactly the showing computer's address, and two computers
    derive the same password only from the same code. *)
Theorem pairing_code_finds_shower showing random d local prefix :
  is_u32 showing -> is_u32 local -> generate showing (Some random) = Ok d ->
  parse (display d) = Ok d
  /\ (16 <= prefix -> validate_subnet_peer local prefix showing = Ok () -> showing_address d local prefix = Ok showing)
  /\ (forall address, showing_address d local prefix = Ok address ->
        16 <= prefix /\ validate_subnet_peer local prefix address = Ok ())
  /\ (forall d', 0 <= d' < 2 ^ 55 -> password d' = password d -> d' = d).
Proof.
  intros Hs Hl Hg. destruct (generate_spec _ _ _ Hs Hg) as [Ed Hd]. split; [by apply display_parse|]. split_and!.
  - intros Hp Hv. destruct (validate_subnet_peer_prefix _ _ _ Hv) as [Hp' Em]. unfold showing_address. change (32 - ADDRESS_BITS) with 16.
    rewrite (proj2 (Z.ltb_ge _ _)) by lia.
    replace (d ≫ SECRET_BITS) with (showing mod 2 ^ 16).
    + rewrite address_rebuilt by (done || by eapply high_bits_of_mask). by rewrite Hv.
    + rewrite Z.shiftr_div_pow2 by (unfold SECRET_BITS; lia). rewrite Ed. symmetry. by apply div_field, Z.mod_pos_bound.
  - intros address E. unfold showing_address in E. change (32 - ADDRESS_BITS) with 16 in E. destruct (Z.ltb_spec prefix 16); [done|].
    apply result_bind_Ok in E as ([] & E%map_err_Ok & [= <-]). done.
  - intros d' Hd' E. by apply password_injective.
Qed.
Lemma pairing_code_finds_shower_witness : exists d,
  generate (ipv4 192 168 1 30) (Some [1; 2; 3; 4; 5; 6; 7; 8]) = Ok d /\ parse (display d) = Ok d
  /\ showing_address d (ipv4 192 168 1 20) 24 = Ok (ipv4 192 168 1 30).
Proof.
  exists 157247426922248. split; [vm_compute; reflexivity|].
  destruct (pairing_code_finds_shower (ipv4 192 168 1 30) [1; 2; 3; 4; 5; 6; 7; 8] 157247426922248 (ipv4 192 168 1 20) 24) as (H1 & H2 & _);
    [vm_compute; split; discriminate|vm_compute; split; discriminate|vm_compute; reflexivity|].
  split; [exact H1|]. apply H2; [lia|vm_compute; reflexivity].
Defined.

Lemma symbols_of_bounds input l : symbols_of input = Some l -> Forall (fun s => 0 <= s < 32) l.
Proof.
  revert l. induction input as [|b input IH]; cbn [symbols_of]; intros l; [by intros [= <-]|]. unfold read_byte.
  destruct (_ || _); cbn; [destruct (symbols_of input); [|done]; intros [= <-]; by apply IH|].
  destruct (symbol_value _) as [s|] eqn:Es; [|done]. cbn. destruct (symbols_of input) as [r|]; [|done]. intros [= <-].
  constructor; [by eapply symbol_value_bound|by apply IH].
Qed.
Lemma read_byte_symbol b s : symbol_value (to_ascii_uppercase b) = Some s -> read_byte b = Some [s].
Proof.
  intros E. unfold read_byte. destruct (_ || _) eqn:Eb; [|by rewrite E]. apply skipped_is_no_symbol in Eb. congruence.
Qed.

(** C27. No single wrong symbol goes unnoticed: replace any one letter or digit of a
    shown code with a character that reads as another symbol, and the typed text is
    refused as mistyped, never taken for another code. *)
Theorem pairing_code_catches_typo d pre shown post typed s s' : 0 <= d < 2 ^ 55 ->
  display d = pre ++ shown :: post -> symbol_value shown = Some s ->
  symbol_value (to_ascii_uppercase typed) = Some s' -> s' <> s ->
  parse (pre ++ typed :: post) = Err Mistyped.
Proof.
  intros Hd E Es Es' Hne. pose proof (display_read d) as Hr. rewrite E, symbols_of_app in Hr. cbn [symbols_of] in Hr.
  destruct (symbols_of pre) as [p|] eqn:Ep; [|done]. destruct (read_byte shown) as [c|] eqn:Ec; [|done].
  destruct (symbols_of post) as [q|] eqn:Eq; [|done]. cbn [mbind option_bind] in Hr. apply (inj Some) in Hr.
  assert (c = [s]) as ->.
  { assert (to_ascii_uppercase shown = shown) as Hu.
    { unfold to_ascii_uppercase. destruct (_ && _) eqn:Eb; [|done]. exfalso. bool_inv. unfold symbol_value in Es.
      rewrite (proj2 (Z.eqb_neq shown 79)), (proj2 (Z.eqb_neq shown 73)), (proj2 (Z.eqb_neq shown 76)) in Es by lia. cbn [orb] in Es.
      apply fmap_Some in Es as ([j x] & Hj%list_find_Some & _). destruct Hj as (Hj & -> & _). apply list_elem_of_lookup_2 in Hj.
      assert (Forall (fun b => b <= 90) ALPHABET) as HF by (apply (bool_decide_unpack _); vm_compute; done).
      apply (proj1 (list.Forall_forall _ _) HF) in Hj. lia. }
    rewrite (read_byte_symbol shown s) in Ec by (by rewrite Hu). by injection Ec. }
  pose proof (symbols_of_bounds _ _ Eq) as Hq. pose proof (symbol_value_bound _ _ Es) as Hs. pose proof (symbol_value_bound _ _ Es') as Hs'.
  assert (length (p ++ s :: q) = 12%nat) as Hl by (change (s :: q) with ([s] ++ q); by rewrite Hr).
  assert (symbols_of (pre ++ typed :: post) = Some (p ++ s' :: q)) as Hr'.
  { rewrite symbols_of_app, Ep. cbn [symbols_of]. rewrite (read_byte_symbol _ _ Es'), Eq. done. }
  pose proof (display_length d) as Hx. rewrite E, length_app, length_cons in Hx. rewrite length_app, length_cons in Hl.
  rewrite (parse_value (pre ++ typed :: post) (p ++ s' :: q)) by (done || (rewrite length_app, length_cons; lia)).
  replace (foldl put_symbol 0 (p ++ s' :: q)) with (Z.lxor (shown_value d) (shift_symbols (length q) (Z.lxor s s'))).
  - rewrite syndrome_lxor, shown_syndrome, Z.lxor_0_l by done. rewrite (proj2 (Z.eqb_neq _ _)); [done|]. apply syndrome_burst.
    + lia.
    + pose proof (lxor_bound s s' 5). assert (Z.lxor s s' <> 0) by (intros ?%Z.lxor_eq; congruence). change (2 ^ 5) with 32 in *. lia.
  - rewrite <-(fold_shown d Hd), <-Hr. rewrite !foldl_app. cbn [foldl app]. rewrite <-fold_lxor by done. f_equal.
    rewrite !put_symbol_lxor by done. by rewrite Z.lxor_assoc, <-(Z.lxor_assoc s), Z.lxor_nilpotent, Z.lxor_0_l.
Qed.
Lemma pairing_code_catches_typo_witness : parse (text "0002-08IO-4OG5") = Ok 68988964880 /\ parse (text "0002-0810-40G6") = Err Mistyped.
Proof.
  split; [vm_compute; reflexivity|].
  apply (pairing_code_catches_typo 68988964880 (text "0002-0810-40G") 53 [] 54 5 6); done.
Defined.
