(* ===== verification/Autoscroll.v ===== *)
(** * Middle-button autoscroll of a Mac (monhop-transport/src/session_autoscroll.rs,
      and [MacAutoscroll] of session_native.rs)

    The destination routes every action through [apply] and asks [tick] for the scroll it
    owes.  [post] stands for what reaches the application: it threads the caller's
    state and may fail.  The logged durations are left out.  [hypot] is the platform's. *)

From stdpp Require Import list.
From S2P Require Import Prelude F64 Types Injection.

Definition DRAG_THRESHOLD : f64 := 0x4014000000000000. (* 5.0 *)
Definition DEAD_ZONE : f64 := 0x4028000000000000. (* 12.0 *)
Definition GAIN : f64 := 0x4016CCCCCCCCCCCD. (* 5.7 *)
Definition MAX_SPEED : f64 := 0x40AF400000000000. (* 4000.0 *)
Definition EMIT_INTERVAL : Z := ms 8.
Definition MAX_STEP : Z := ms 50.
Definition MAC_POINTS_PER_DETENT : f64 := 0x4044000000000000. (* 40.0 *)

Inductive Phase :=
| Idle
| Pressed (origin : Point) (controller : Z)
| Scrolling (origin : Point) (controller started emitted : Z).
Record Step := mkStep { step_scroll : DestinationAction; step_at : Point }.
Record Autoscroll := mkAutoscroll { phase : Phase; pointer : option Point; withheld_middle : bool }.

Definition new_autoscroll : Autoscroll := mkAutoscroll Idle None false.
Definition marker (s : Autoscroll) : option Point := match phase s with Scrolling origin _ _ _ => Some origin | _ => None end.
Definition owner (s : Autoscroll) : option Z :=
  match phase s with Idle => None | Pressed _ controller | Scrolling _ controller _ _ => Some controller end.
Definition finish (s : Autoscroll) : Autoscroll := mkAutoscroll Idle (pointer s) (withheld_middle s).
Definition stop (s : Autoscroll) : Autoscroll :=
  finish (if bool_decide (is_Some (owner s)) then mkAutoscroll (phase s) (pointer s) true else s).

(** The switch or the controller may have changed since the last call. *)
Definition settle (s : Autoscroll) (starts : option Z) : Autoscroll :=
  match owner s with Some o => if bool_decide (starts = Some o) then s else stop s | None => s end.

Definition f64_copysign (a sign : f64) : f64 := if f64_sign sign then f64_abs a + 2 ^ 63 else f64_abs a.
Definition speed (offset : f64) : f64 :=
  let beyond := f64_sub (f64_abs offset) DEAD_ZONE in
  if f64_leb beyond f64_zero then f64_zero else f64_copysign (f64_min (f64_mul beyond GAIN) MAX_SPEED) offset.

Section Machine.
Context (hypot : f64 -> f64 -> f64) {W E : Type} (post : W -> DestinationAction -> W * result E ()).

Definition route (s : Autoscroll) (w : W) (a : DestinationAction) : Autoscroll * W * result E () := let '(w, r) := post w a in (s, w, r).
(** The click of a press that did not scroll: the first failure ends it. *)
Definition post_click (w : W) : W * result E () :=
  let '(w, r) := post w (ActButton MiddleButton true 1) in
  match r with Err e => (w, Err e) | Ok _ => post w (ActButton MiddleButton false 1) end.

Definition apply (s : Autoscroll) (action : DestinationAction) (starts : option Z) (now : Z) (w : W) : Autoscroll * W * result E () :=
  let s := settle s starts in
  match action with
  | MoveTo point =>
      let phase' :=
        match phase s with
        | Pressed origin controller =>
            if f64_ltb DRAG_THRESHOLD (hypot (f64_sub (px point) (px origin)) (f64_sub (py point) (py origin)))
            then Scrolling origin controller now now else phase s
        | p => p
        end in
      route (mkAutoscroll phase' (Some point) (withheld_middle s)) w action
  | EndGestures => route (stop s) w action
  | ReleaseAll => let s := stop s in route (mkAutoscroll (phase s) (pointer s) false) w action
  | ActButton MiddleButton true _ =>
      let s := mkAutoscroll (phase s) (pointer s) false in
      match phase s, starts, pointer s with
      | Idle, Some controller, Some origin => (mkAutoscroll (Pressed origin controller) (pointer s) false, w, Ok ())
      | _, _, _ => route s w action
      end
  | ActButton MiddleButton false _ =>
      let withheld := withheld_middle s in
      let s := mkAutoscroll (phase s) (pointer s) false in
      if withheld then (s, w, Ok ())
      else match phase s with
           | Pressed _ _ => let '(w, r) := post_click w in (mkAutoscroll Idle (pointer s) false, w, r)
           | Scrolling _ _ _ _ => (finish s, w, Ok ())
           | Idle => route s w action
           end
  | _ => route s w action
  end.
End Machine.

Definition tick (s : Autoscroll) (now : Z) (controller : option Z) (enabled : bool) : Autoscroll * option Step :=
  match owner s with
  | None => (s, None)
  | Some o =>
      if negb enabled || negb (bool_decide (controller = Some o)) then (stop s, None)
      else
        match phase s with
        | Scrolling origin c started emitted =>
            let elapsed := saturating_sub now emitted in
            if elapsed <? EMIT_INTERVAL then (s, None)
            else
              let s := mkAutoscroll (Scrolling origin c started now) (pointer s) (withheld_middle s) in
              let seconds := as_secs_f64 (Z.min elapsed MAX_STEP) in
              let pointer := default origin (pointer s) in
              let right := f64_mul (speed (f64_sub (px pointer) (px origin))) seconds in
              let down := f64_mul (speed (f64_sub (py pointer) (py origin))) seconds in
              if f64_eqb right f64_zero && f64_eqb down f64_zero then (s, None)
              else (s, Some (mkStep (ActScroll (f64_div right MAC_POINTS_PER_DETENT) (f64_div (f64_neg down) MAC_POINTS_PER_DETENT)) origin))
        | _ => (s, None)
        end
  end.

(** [MacAutoscroll]: the marker the application was last told about. *)
Inductive AutoscrollMarker := Show (p : Point) | Hide.
Record MacAutoscroll := mkMac { machine : Autoscroll; shown : option Point }.
Definition marker_eqb (a b : option Point) : bool :=
  match a, b with Some a, Some b => point_eqb a b | None, None => true | _, _ => false end.
Definition signal_marker (m : MacAutoscroll) : MacAutoscroll * list AutoscrollMarker :=
  let wanted := marker (machine m) in
  if marker_eqb wanted (shown m) then (m, [])
  else (mkMac (machine m) wanted, [match wanted with Some p => Show p | None => Hide end]).

(** One change, one signal: told of a marker, the application is not told of it again. *)
Lemma signal_settles m : marker (machine m) = marker (machine (fst (signal_marker m)))
  /\ (match marker (machine m) with Some p => f64_is_finite (px p) = true /\ f64_is_finite (py p) = true | None => True end ->
      snd (signal_marker (fst (signal_marker m))) = []).
Proof.
  unfold signal_marker. destruct (marker_eqb _ _) eqn:E; cbn [fst snd machine shown]; [by rewrite E|]. split; [done|].
  destruct (marker (machine m)) as [p|]; [|done]. intros [Hx%f64_finite_not_nan Hy%f64_finite_not_nan]. cbn [marker_eqb]. unfold point_eqb.
  assert (forall b, f64_is_nan b = false -> f64_eqb b b = true) as Hr by (intros b Hb; unfold f64_eqb; rewrite Hb; by rewrite Z.eqb_refl).
  by rewrite !Hr.
Qed.

(** ** What the application sees of the middle button *)

Inductive call :=
| Apply (action : DestinationAction) (starts : option Z) (now : Z)
| Tick (now : Z) (controller : option Z) (enabled : bool)
| Stop.
Definition record (w : list DestinationAction) (a : DestinationAction) : list DestinationAction * result () () := (w ++ [a], Ok ()).
Section Run.
Context (hypot : f64 -> f64 -> f64).
Definition call_step (x : Autoscroll * list DestinationAction) (c : call) : Autoscroll * list DestinationAction :=
  match c with
  | Apply a starts now => fst (apply hypot record (fst x) a starts now (snd x))
  | Tick now controller enabled => (fst (tick (fst x) now controller enabled), snd x)
  | Stop => (stop (fst x), snd x)
  end.
Definition run : list call -> Autoscroll * list DestinationAction := foldl call_step (new_autoscroll, []).
End Run.
Definition call_input (c : call) : list DestinationAction := match c with Apply a _ _ => [a] | _ => [] end.

(** The middle button's state along a stream in which a press finds it up and a
    release finds it down; [ReleaseAll] lets it up. *)
Definition middle_step (down : bool) (a : DestinationAction) : option bool :=
  match a with
  | ActButton MiddleButton true _ => if down then None else Some true
  | ActButton MiddleButton false _ => if down then Some false else None
  | ReleaseAll => Some false
  | _ => Some down
  end.
Definition middle (l : list DestinationAction) : option bool := foldl (fun d a => d ← d; middle_step d a) (Some false) l.
Lemma middle_snoc l a : middle (l ++ [a]) = (d ← middle l; middle_step d a).
Proof. unfold middle. by rewrite foldl_app. Qed.

(** The held button is either the application's or the machine's, never both. *)
Definition Split (s : Autoscroll) (held app : bool) : Prop :=
  match phase s with
  | Idle => if withheld_middle s then held = true /\ app = false else app = held
  | _ => held = true /\ app = false /\ withheld_middle s = false
  end.
Lemma stop_split s held app : Split s held app -> Split (stop s) held app /\ phase (stop s) = Idle.
Proof. unfold Split, stop, owner. destruct s as [[|? ?|? ? ? ?] ? []]; cbn; naive_solver. Qed.
Lemma settle_split s starts held app : Split s held app -> Split (settle s starts) held app.
Proof. intros H. unfold settle. destruct (owner s); [|done]. case_bool_decide; [done|]. by apply stop_split. Qed.


Section Split.
Context (hypot : f64 -> f64 -> f64).
Lemma apply_split s a starts now log held app held' :
  Split s held app -> middle log = Some app -> middle_step held a = Some held' ->
  exists app', middle (snd (fst (apply hypot record s a starts now log))) = Some app'
    /\ Split (fst (fst (apply hypot record s a starts now log))) held' app'.
Proof.
  intros HS Hl Ha. apply (settle_split _ starts) in HS. unfold apply. generalize dependent (settle s starts). clear s. intros s HS.
  pose proof (stop_split _ _ _ HS) as [Ht Hi]. destruct a as [p| |b down n| | | | |]; cbv zeta; unfold route, record, post_click; cbn [fst snd].
  3: destruct b, down; cbn [fst snd].
  all: try (rewrite middle_snoc, Hl; cbn [mbind option_bind middle_step]; cbn in Ha; injection Ha as <-; eexists; split; [reflexivity|]).
  all: try assumption.
  - unfold Split in *. cbn. destruct (phase s); try done. by destruct (f64_ltb _ _).
  - cbn in Ha. destruct held; [done|]. injection Ha as <-. unfold Split in HS. destruct (phase s) eqn:Ep; cbn [phase pointer].
    + assert (app = false) as -> by (by destruct (withheld_middle s); [destruct HS|]). destruct starts, (pointer s); cbn [fst snd];
        (exists false; split; [exact Hl|]) || (rewrite middle_snoc, Hl; exists true; split; [reflexivity|]); unfold Split; cbn; by rewrite ?Ep.
    + by destruct HS.
    + by destruct HS.
  - cbn in Ha. destruct held; [|done]. injection Ha as <-. unfold Split in HS. destruct (withheld_middle s) eqn:Ew; cbn [fst snd phase].
    + assert (phase s = Idle /\ app = false) as [Ep ->] by (destruct (phase s); naive_solver).
      exists false. split; [exact Hl|]. unfold Split. cbn. by rewrite Ep.
    + destruct (phase s) eqn:Ep; cbn [fst snd]; rewrite ?middle_snoc, Hl; cbn [mbind option_bind].
      * subst app. exists false. split; [reflexivity|]. unfold Split. cbn. by rewrite ?Ep.
      * destruct HS as (_ & -> & _). exists false. by split.
      * destruct HS as (_ & -> & _). exists false. by split.
  - unfold Split in *. cbn. rewrite Hi in *. done.
Qed.
Lemma tick_split s now controller enabled held app : Split s held app -> Split (fst (tick s now controller enabled)) held app.
Proof.
  intros HS. unfold tick. destruct (owner s); [|done]. destruct (_ || _); [by apply stop_split|]. destruct (phase s) eqn:Ep; try done.
  cbv zeta. destruct (_ <? _); [done|]. unfold Split in HS. rewrite Ep in HS. by destruct (_ && _).
Qed.
Lemma call_split x c held app held' : Split (fst x) held app -> middle (snd x) = Some app ->
  foldl (fun d a => d ← d; middle_step d a) (Some held) (call_input c) = Some held' ->
  exists app', middle (snd (call_step hypot x c)) = Some app' /\ Split (fst (call_step hypot x c)) held' app'.
Proof.
  intros HS Hl Hc. destruct c as [a starts now|now controller enabled|]; cbn [call_input foldl] in Hc; cbn [call_step].
  - by apply apply_split with held app.
  - injection Hc as <-. exists app. split; [exact Hl|]. by apply tick_split.
  - injection Hc as <-. exists app. split; [exact Hl|]. by apply stop_split.
Qed.
Lemma fold_none l : foldl (fun d a => d ← d; middle_step d a) None l = None.
Proof. by induction l. Qed.
Lemma run_split calls held : middle (concat (call_input <$> calls)) = Some held ->
  exists app, middle (snd (run hypot calls)) = Some app /\ Split (fst (run hypot calls)) held app.
Proof.
  revert held. induction calls as [|c calls IH] using rev_ind; intros held Hm; [injection Hm as <-; by exists false|].
  unfold run. rewrite foldl_app. cbn [foldl]. fold (run hypot calls). rewrite fmap_app, concat_app in Hm. cbn [fmap list_fmap concat] in Hm.
  rewrite app_nil_r in Hm. unfold middle in Hm. rewrite foldl_app in Hm. fold (middle (concat (call_input <$> calls))) in Hm.
  destruct (middle _) as [d|] eqn:Ed; [|by rewrite fold_none in Hm]. destruct (IH d eq_refl) as (app & Hl & HS).
  by apply (call_split _ c d app).
Qed.

(** C28. Whatever the controller and the switch do in between, a middle button that is
    pressed and released in turn reaches the application as presses and releases in
    turn: never a second press, never a stray release, and never a button left down
    once it is up.  A scroll is owed only while the button is held, hidden from the
    application, and under the controller the press started with. *)
Theorem autoscroll_never_strands_middle calls held : middle (concat (call_input <$> calls)) = Some held ->
  exists app, middle (snd (run hypot calls)) = Some app /\ (held = false -> app = false)
    /\ forall now controller enabled step, snd (tick (fst (run hypot calls)) now controller enabled) = Some step ->
         held = true /\ app = false /\ enabled = true /\ owner (fst (run hypot calls)) = controller
         /\ marker (fst (run hypot calls)) = Some (step_at step).
Proof.
  intros Hm. destruct (run_split calls held Hm) as (app & Hl & HS). exists app. split; [exact Hl|]. generalize dependent (fst (run hypot calls)).
  intros s HS. split; [intros ->; unfold Split in HS; destruct (phase s), (withheld_middle s); naive_solver|].
  intros now controller enabled step. unfold tick. destruct (owner s) as [o|] eqn:Eo; [|done]. destruct (_ || _) eqn:Eb; [done|].
  apply orb_false_elim in Eb as [Eb%negb_false_iff Ec%negb_false_iff%bool_decide_eq_true].
  destruct (phase s) eqn:Ep; [done|done|]. unfold Split in HS. rewrite Ep in HS. cbv zeta. destruct (_ <? _); [done|].
  destruct (_ && _); [done|]. cbn [snd]. intros [= <-]. unfold marker. rewrite Ep. naive_solver.
Qed.
End Split.

(** The distance the witness needs. *)
Definition along_x (dx dy : f64) : f64 := f64_abs dx.
Definition drag : list call :=
  [Apply (MoveTo (mkPoint f64_zero f64_zero)) (Some 7) 0; Apply (ActButton MiddleButton true 1) (Some 7) 0;
   Apply (MoveTo (mkPoint MAX_SPEED f64_zero)) (Some 7) 0].
Lemma autoscroll_never_strands_middle_witness :
  is_Some (snd (tick (fst (run along_x drag)) (ms 9) (Some 7) true)) /\ owner (fst (run along_x drag)) = Some 7.
Proof.
  split; [vm_compute; eauto|].
  destruct (autoscroll_never_strands_middle along_x drag true) as (app & _ & _ & H); [reflexivity|].
  destruct (snd (tick (fst (run along_x drag)) (ms 9) (Some 7) true)) as [step|] eqn:E.
  - apply (H (ms 9) (Some 7) true step E).
  - vm_compute in E. discriminate E.
Defined.
