(* ===== verification/Revocation.v ===== *)
(** * Session revocation (monhop-core/src/revocation.rs)

    The signal's cells and every call as the atomic accesses it makes, in order; threads
    interleave between them.  The task waker's cell belongs to another crate: it is the
    interface [AtomicWakerI], whose laws say what that crate documents, that [wake]
    takes and wakes the waker last registered. *)

From stdpp Require Import list relations.
From S2P Require Import Prelude.

(** The cell of one waker; a waker is named by a number. *)
Class AtomicWakerI (W : Type) := {
  waker_new : W;
  register : W -> nat -> W;
  wake : W -> W * option nat;
  armed : W -> option nat }.
Class AtomicWakerLaws (W : Type) `{AtomicWakerI W} := {
  armed_new : armed waker_new = None;
  armed_register s w : armed (register s w) = Some w;
  wake_takes s : snd (wake s) = armed s /\ armed (fst (wake s)) = None }.

Section Signal.
Context {W : Type} `{AtomicWakerI W}.

Record RevocationState := mkRevocation {
  revoked : bool; stopping : bool; control_change : bool; observer : W; origin_cell : option nat }.
Definition new_signal : RevocationState := mkRevocation false false false waker_new None.

(** One access.  A call site is a number; [OnceLock::set] keeps the first. *)
Inductive access := SetOrigin (site : nat) | StoreRevoked | StoreStopping | StoreControlChange | WakeObserver.
#[global] Instance access_eq_dec : EqDecision access.
Proof. solve_decision. Defined.
Definition access_step (a : access) (s : RevocationState) : RevocationState * option nat :=
  match a with
  | SetOrigin site => (mkRevocation (revoked s) (stopping s) (control_change s) (observer s) (Some (default site (origin_cell s))), None)
  | StoreRevoked => (mkRevocation true (stopping s) (control_change s) (observer s) (origin_cell s), None)
  | StoreStopping => (mkRevocation (revoked s) true (control_change s) (observer s) (origin_cell s), None)
  | StoreControlChange => (mkRevocation (revoked s) (stopping s) true (observer s) (origin_cell s), None)
  | WakeObserver => let '(o, woken) := wake (observer s) in (mkRevocation (revoked s) (stopping s) (control_change s) o (origin_cell s), woken)
  end.

Definition mark_revoked_without_wake (site : nat) : list access := [SetOrigin site; StoreRevoked].
(** A panic of the woken task's waker is caught; nothing follows it. *)
Definition revoke (site : nat) : list access := mark_revoked_without_wake site ++ [WakeObserver].
Definition request_stop (site : nat) : list access := [SetOrigin site; StoreStopping].
Definition request_stop_for_control_change (site : nat) : list access := [SetOrigin site; StoreControlChange; StoreStopping].

Definition origin (s : RevocationState) : option nat := origin_cell s.
Definition is_revoked (s : RevocationState) : bool := revoked s.
Definition is_stopping (s : RevocationState) : bool := stopping s || is_revoked s.
Definition is_stopping_for_control_change (s : RevocationState) : bool := control_change s.

(** [poll_revoked] of the one observing task, between its accesses. *)
Inductive poller := PollNone | PollEntered (w : nat) | PollRegistering (w : nat) | PollChecking (w : nat) | PollReady | PollPending (w : nat).
Definition poll_step (p : poller) (s : RevocationState) : poller * RevocationState :=
  match p with
  | PollEntered w => (if is_revoked s then PollReady else PollRegistering w, s)
  | PollRegistering w =>
      (PollChecking w, mkRevocation (revoked s) (stopping s) (control_change s) (register (observer s) w) (origin_cell s))
  | PollChecking w => (if is_revoked s then PollReady else PollPending w, s)
  | p => (p, s)
  end.

(** ** Interleavings *)

Inductive request := Revoke (site : nat) | Mark (site : nat) | RequestStop (site : nat) | RequestControlChange (site : nat).
Definition accesses (r : request) : list access :=
  match r with
  | Revoke n => revoke n | Mark n => mark_revoked_without_wake n | RequestStop n => request_stop n
  | RequestControlChange n => request_stop_for_control_change n
  end.
(** The threads, each with its call and what is left of it; [woken] records that the
    pending poll's waker was woken. *)
Record world := mkWorld { signal : RevocationState; threads : list (request * list access); task : poller; woken : bool }.
Definition wakes (p : poller) (w' : option nat) : bool :=
  match p with PollChecking w | PollPending w => bool_decide (w' = Some w) | _ => false end.
Definition new_world : world := mkWorld new_signal [] PollNone false.
Inductive world_step : world -> world -> Prop :=
| step_call x r : world_step x (mkWorld (signal x) (threads x ++ [(r, accesses r)]) (task x) (woken x))
| step_access x i r a rest : threads x !! i = Some (r, a :: rest) ->
    world_step x (mkWorld (fst (access_step a (signal x))) (<[i := (r, rest)]> (threads x)) (task x)
      (woken x || wakes (task x) (snd (access_step a (signal x)))))
| step_enter x w : match task x with PollNone | PollReady | PollPending _ => True | _ => False end ->
    world_step x (mkWorld (signal x) (threads x) (PollEntered w) false)
| step_poll x : world_step x (mkWorld (snd (poll_step (task x) (signal x))) (threads x) (fst (poll_step (task x) (signal x))) (woken x)).

(** What a thread has done shows in the cells. *)
Definition shows (s : RevocationState) (a : access) : Prop :=
  match a with
  | SetOrigin _ => is_Some (origin_cell s) | StoreRevoked | WakeObserver => revoked s = true
  | StoreStopping => stopping s = true | StoreControlChange => control_change s = true
  end.
Definition ThreadOk (s : RevocationState) (t : request * list access) : Prop :=
  exists past, accesses (fst t) = past ++ snd t /\ Forall (shows s) past.
Definition unfinished (t : request * list access) : Prop := match fst t with Revoke _ => snd t <> [] | _ => True end.
Definition WorldOk (x : world) : Prop :=
  Forall (ThreadOk (signal x)) (threads x)
  /\ match task x with
     | PollChecking w => revoked (signal x) = false -> armed (observer (signal x)) = Some w
     | PollPending w => woken x = false -> armed (observer (signal x)) = Some w /\ Forall unfinished (threads x)
     | _ => True
     end.
Definition world_reach : world -> Prop := rtc world_step new_world.

Lemma access_shows a b s : shows s b -> shows (fst (access_step a s)) b.
Proof. destruct a, b; cbn; try (destruct (wake _)); cbn; eauto. Qed.
Lemma wake_is_last s r rest : ThreadOk s (r, WakeObserver :: rest) -> revoked s = true.
Proof.
  intros (past & E & HP). cbn [fst snd] in E. destruct r; destruct past as [|? [|? [|? [|]]]]; cbn in E; simplify_eq.
  by inversion_clear HP as [|? ? _ HP']; inversion_clear HP'.
Qed.
Lemma thread_access s r a rest : ThreadOk s (r, a :: rest) -> ThreadOk (fst (access_step a s)) (r, rest).
Proof.
  intros HT. pose proof HT as (past & E & HP). cbn [fst snd] in E. exists (past ++ [a]). split; [by rewrite <-app_assoc|]. apply Forall_app. split.
  - eapply list.Forall_impl; [exact HP|]. intros b. apply access_shows.
  - constructor; [|constructor]. destruct a; cbn; eauto. destruct (wake _). by eapply wake_is_last.
Qed.
Lemma revoke_unfinished s t : ThreadOk s t -> revoked s = false -> unfinished t.
Proof.
  intros (past & E & HP) Hr. unfold unfinished. destruct t as [[] rest]; cbn [fst snd] in *; try done. intros ->. rewrite app_nil_r in E.
  subst past. inversion_clear HP as [|? ? _ HP']. inversion_clear HP'. cbn in *. congruence.
Qed.
Lemma not_last_unfinished s r a rest : ThreadOk s (r, a :: rest) -> a <> WakeObserver -> unfinished (r, rest).
Proof.
  intros (past & E & _) Ha. cbn [fst snd] in E. destruct r; cbn; try done. intros ->.
  destruct past as [|? [|? [|? [|]]]]; cbn in E; simplify_eq.
Qed.
Lemma access_observer a s : a <> WakeObserver -> observer (fst (access_step a s)) = observer s /\ snd (access_step a s) = None.
Proof. by destruct a. Qed.

Context `{!AtomicWakerLaws W}.
Lemma step_access_ok x i r a rest : WorldOk x -> threads x !! i = Some (r, a :: rest) ->
  WorldOk (mkWorld (fst (access_step a (signal x))) (<[i := (r, rest)]> (threads x)) (task x)
      (woken x || wakes (task x) (snd (access_step a (signal x))))).
Proof.
  intros [HT HP] Hi. pose proof (proj1 (Forall_lookup _ _) HT _ _ Hi) as Ht. split; cbn [signal threads task woken].
  - apply Forall_insert; [|by apply thread_access]. eapply list.Forall_impl; [exact HT|]. intros t (past & E & HF). exists past. split; [done|].
    eapply list.Forall_impl; [exact HF|]. intros b. apply access_shows.
  - destruct (decide (a = WakeObserver)) as [->|Ha].
    + pose proof (wake_is_last _ _ _ Ht) as Hr. destruct (wake_takes (observer (signal x))) as [Hw _]. cbn [access_step].
      destruct (wake (observer (signal x))) as [o v] eqn:Ew. cbn in Hw |- *. subst v. destruct (task x) as [|? | |w| |w]; try done; cbn [revoked].
      * intros ?. congruence.
      * intros [H1 H2]%orb_false_elim. destruct (HP H1) as [HA _]. cbn in H2. rewrite HA in H2. by apply bool_decide_eq_false in H2.
    + destruct (access_observer a (signal x) Ha) as [Eo ->]. rewrite Eo. destruct (task x) as [|? | |w| |w] eqn:Ep; try done.
      * intros Hf. apply HP. destruct (revoked (signal x)) eqn:Er; [|done]. pose proof (access_shows a StoreRevoked (signal x) Er). cbn in *. congruence.
      * intros [H1 _]%orb_false_elim. destruct (HP H1) as [HA HU]. split; [done|]. apply Forall_insert; [done|]. by eapply not_last_unfinished.
Qed.
Lemma world_step_ok x y : WorldOk x -> world_step x y -> WorldOk y.
Proof.
  intros HW Hs. pose proof HW as [HT HP]. destruct Hs as [x r|x i r a rest Hi|x w Hw|x].
  - split; cbn [signal threads task woken].
    + apply Forall_app. split; [done|]. constructor; [|constructor]. exists []. by split; [|constructor].
    + destruct (task x); try done. intros E. destruct (HP E) as [HA HU]. split; [done|]. apply Forall_app. split; [done|].
      constructor; [|constructor]. by destruct r.
  - by apply step_access_ok.
  - by split.
  - destruct (task x) as [|w|w|w| |w] eqn:Ep; cbn [poll_step fst snd]; unfold WorldOk; cbn [signal threads task woken]; try done.
    + split; [done|]. by destruct (is_revoked _).
    + split; [|intros _; apply armed_register]. eapply list.Forall_impl; [exact HT|]. intros t (past & E & HF). exists past. split; [done|].
      eapply list.Forall_impl; [exact HF|]. by intros [].
    + split; [done|]. unfold is_revoked. destruct (revoked (signal x)) eqn:Er; [done|]. intros _. split; [by apply HP|].
      eapply list.Forall_impl; [exact HT|]. intros t Ht. by eapply revoke_unfinished.
Qed.
Lemma world_reach_ok x : world_reach x -> WorldOk x.
Proof. unfold world_reach. apply rtc_ind_r; [by split; [constructor|]|]. intros y z _ Hs HW. by eapply world_step_ok. Qed.

Lemma world_step_keeps x y : world_step x y -> (is_revoked (signal x) = true -> is_revoked (signal y) = true)
  /\ (forall n, origin (signal x) = Some n -> origin (signal y) = Some n).
Proof.
  intros [? r|? i r a rest _|? w _|?]; cbn [signal]; try done.
  - split; [apply (access_shows a StoreRevoked)|]. intros n Ho. unfold origin in *. destruct a; cbn; try (destruct (wake _)); cbn; try done. by rewrite Ho.
  - unfold is_revoked, origin. destruct (task _); cbn; try done.
Qed.

Lemma revocation_stays x y : rtc world_step x y -> is_revoked (signal x) = true -> is_revoked (signal y) = true.
Proof. induction 1 as [|a b c Hs _ IH]; [done|]. intros Hr. by apply IH, (world_step_keeps _ _ Hs). Qed.
Lemma origin_stays x y n : rtc world_step x y -> origin (signal x) = Some n -> origin (signal y) = Some n.
Proof. induction 1 as [|a b c Hs _ IH]; [done|]. intros Hr. by apply IH, (world_step_keeps _ _ Hs). Qed.

(** C16. Revocation is permanent and is never slept through.  However the calls and the
    one observing task interleave, once some [revoke] has returned a task whose poll
    answered "pending" has been woken and its next poll answers "ready"; and the call
    site recorded first is the one reported. *)
Theorem revocation_never_lost x : world_reach x ->
  (forall site w, (Revoke site, []) ∈ threads x -> task x = PollPending w -> woken x = true)
  /\ (forall r, (r, []) ∈ threads x -> is_stopping (signal x) = true
        /\ match r with Revoke _ | Mark _ => is_revoked (signal x) = true | RequestControlChange _ => is_stopping_for_control_change (signal x) = true | _ => True end)
  /\ (forall y, rtc world_step x y -> is_revoked (signal x) = true ->
        is_revoked (signal y) = true /\ forall w, fst (poll_step (PollEntered w) (signal y)) = PollReady)
  /\ (forall y n, rtc world_step x y -> origin (signal x) = Some n -> origin (signal y) = Some n).
Proof.
  intros [HT HP]%world_reach_ok. split_and!.
  - intros site w Hin Ep. rewrite Ep in HP. destruct (woken x); [done|]. destruct (HP eq_refl) as [_ HU].
    by apply (proj1 (list.Forall_forall _ _) HU) in Hin.
  - intros r Hin. apply (proj1 (list.Forall_forall _ _) HT) in Hin as (past & E & HF). cbn [fst snd] in E. rewrite app_nil_r in E. subst past.
    unfold is_stopping, is_revoked, is_stopping_for_control_change. unfold accesses, revoke, mark_revoked_without_wake, request_stop, request_stop_for_control_change in HF.
    destruct r; cbn [app] in HF; rewrite !list.Forall_cons in HF; cbn in HF.
    all: destruct_and? HF; split; [apply orb_true_iff; tauto|done].
  - intros y Hs Hr. pose proof (revocation_stays x y Hs Hr) as Hy. split; [done|]. intros w. cbn. by rewrite Hy.
  - intros y n Hs. by apply origin_stays.
Qed.
End Signal.

(** A cell of one waker. *)
#[local] Instance slot_waker : AtomicWakerI (option nat) :=
  {| waker_new := None; register _ w := Some w; wake s := (None, s); armed s := s |}.
#[local] Instance slot_waker_laws : AtomicWakerLaws (option nat).
Proof. by constructor. Qed.
(** A poll that goes to sleep, and a [revoke] after it. *)
Definition slept (n : nat) : world :=
  mkWorld (mkRevocation (bool_decide (2 <= n)%nat) false false (if bool_decide (3 <= n)%nat then None else Some 1%nat) (if bool_decide (1 <= n)%nat then Some 5%nat else None))
    [(Revoke 5, drop n (revoke 5))] (PollPending 1) (bool_decide (3 <= n)%nat).
Lemma slept_next n : (n < 3)%nat -> world_step (slept n) (slept (S n)).
Proof.
  intros Hn. destruct n as [|[|[|]]]; [| | |lia].
  - exact (step_access (slept 0) 0 (Revoke 5) _ _ eq_refl).
  - exact (step_access (slept 1) 0 (Revoke 5) _ _ eq_refl).
  - exact (step_access (slept 2) 0 (Revoke 5) _ _ eq_refl).
Qed.
Lemma slept_reach : world_reach (slept 3).
Proof.
  assert (world_reach (slept 0)) as H0.
  { eapply rtc_l; [exact (step_enter new_world 1 I)|]. eapply rtc_l; [apply step_poll|]. eapply rtc_l; [apply step_poll|].
    eapply rtc_l; [apply step_poll|]. eapply rtc_l; [apply (step_call _ (Revoke 5))|]. apply rtc_refl. }
  do 3 (eapply rtc_r; [|apply slept_next; lia]). exact H0.
Qed.
Lemma revocation_never_lost_witness : task (slept 3) = PollPending 1 /\ woken (slept 3) = true.
Proof.
  split; [reflexivity|]. destruct (revocation_never_lost (slept 3) slept_reach) as [H _].
  apply (H 5%nat 1%nat); [apply list_elem_of_here|reflexivity].
Defined.
