(* ===== verification/Keymaps.v ===== *)
(** * The keyboards of the two platforms, and what a Windows hook reports
      (monhop-platform-windows/src/keymap.rs and capture/decode.rs,
       monhop-platform-macos/src/keymap.rs)

    Keys travel as USB HID usages; each platform has a table of its own codes.  The arms
    of a [match] on codes are a table of which the first row that fits is taken. *)

From stdpp Require Import list.
From S2P Require Import Prelude Types CaptureEvent.

(** The first row of a table for [x]. *)
Definition find_row {A B} `{EqDecision A} (x : A) (rows : list (A * B)) : option B :=
  snd ∘ snd <$> list_find (fun row => fst row = x) rows.

(** ** Windows: set-1 scan codes *)

Inductive Set1Prefix := NoPrefix | E0 | E1.
#[global] Instance Set1Prefix_eq_dec : EqDecision Set1Prefix.
Proof. solve_decision. Defined.
Record Set1ScanCode := mkScan { make_code : Z; prefix : Set1Prefix }.
#[global] Instance Set1ScanCode_eq_dec : EqDecision Set1ScanCode.
Proof. solve_decision. Defined.
Inductive WinKeyMapError :=
| UnsupportedE1Sequence (make_code : Z) | UnsupportedSet1ScanCode (make_code : Z) (prefix : Set1Prefix) | UnsupportedHidUsage.
Definition base (code usage : Z) : Set1ScanCode * HidUsage := (mkScan code NoPrefix, usage).
Definition e0 (code usage : Z) : Set1ScanCode * HidUsage := (mkScan code E0, usage).
Definition BASE_MAPPINGS : list (Set1ScanCode * HidUsage) :=
  [base 0x01 0x29; base 0x02 0x1e; base 0x03 0x1f; base 0x04 0x20; base 0x05 0x21; base 0x06 0x22;
   base 0x07 0x23; base 0x08 0x24; base 0x09 0x25; base 0x0a 0x26; base 0x0b 0x27; base 0x0c 0x2d;
   base 0x0d 0x2e; base 0x0e 0x2a; base 0x0f 0x2b; base 0x10 0x14; base 0x11 0x1a; base 0x12 0x08;
   base 0x13 0x15; base 0x14 0x17; base 0x15 0x1c; base 0x16 0x18; base 0x17 0x0c; base 0x18 0x12;
   base 0x19 0x13; base 0x1a 0x2f; base 0x1b 0x30; base 0x1c 0x28; base 0x1d 0xe0; base 0x1e 0x04;
   base 0x1f 0x16; base 0x20 0x07; base 0x21 0x09; base 0x22 0x0a; base 0x23 0x0b; base 0x24 0x0d;
   base 0x25 0x0e; base 0x26 0x0f; base 0x27 0x33; base 0x28 0x34; base 0x29 0x35; base 0x2a 0xe1;
   base 0x2b 0x31; base 0x2c 0x1d; base 0x2d 0x1b; base 0x2e 0x06; base 0x2f 0x19; base 0x30 0x05;
   base 0x31 0x11; base 0x32 0x10; base 0x33 0x36; base 0x34 0x37; base 0x35 0x38; base 0x36 0xe5;
   base 0x37 0x55; base 0x38 0xe2; base 0x39 0x2c; base 0x3a 0x39; base 0x3b 0x3a; base 0x3c 0x3b;
   base 0x3d 0x3c; base 0x3e 0x3d; base 0x3f 0x3e; base 0x40 0x3f; base 0x41 0x40; base 0x42 0x41;
   base 0x43 0x42; base 0x44 0x43; base 0x45 0x53; base 0x46 0x47; base 0x47 0x5f; base 0x48 0x60;
   base 0x49 0x61; base 0x4a 0x56; base 0x4b 0x5c; base 0x4c 0x5d; base 0x4d 0x5e; base 0x4e 0x57;
   base 0x4f 0x59; base 0x50 0x5a; base 0x51 0x5b; base 0x52 0x62; base 0x53 0x63; base 0x56 0x64;
   base 0x57 0x44; base 0x58 0x45; base 0x64 0x68; base 0x65 0x69; base 0x66 0x6a; base 0x67 0x6b;
   base 0x68 0x6c; base 0x69 0x6d; base 0x6a 0x6e; base 0x6b 0x6f; base 0x6c 0x70; base 0x6d 0x71;
   base 0x6e 0x72; base 0x76 0x73].
Definition E0_MAPPINGS : list (Set1ScanCode * HidUsage) :=
  [e0 0x1c 0x58; e0 0x1d 0xe4; e0 0x35 0x54; e0 0x37 0x46; e0 0x38 0xe6; e0 0x47 0x4a;
   e0 0x48 0x52; e0 0x49 0x4b; e0 0x4b 0x50; e0 0x4d 0x4f; e0 0x4f 0x4d; e0 0x50 0x51;
   e0 0x51 0x4e; e0 0x52 0x49; e0 0x53 0x4c; e0 0x5b 0xe3; e0 0x5c 0xe7; e0 0x5d 0x65;
   e0 0x5e 0x66].

Definition lookup_set1 (s : Set1ScanCode) (rows : list (Set1ScanCode * HidUsage)) : option HidUsage := find_row s rows.
Definition hid_usage_from_set1 (s : Set1ScanCode) : result WinKeyMapError HidUsage :=
  if bool_decide (prefix s = E1) then Err (UnsupportedE1Sequence (make_code s))
  else
    ok_or (UnsupportedSet1ScanCode (make_code s) (prefix s))
      match lookup_set1 s BASE_MAPPINGS with Some u => Some u | None => lookup_set1 s E0_MAPPINGS end.
Definition set1_from_hid_usage (usage : HidUsage) : result WinKeyMapError Set1ScanCode :=
  ok_or UnsupportedHidUsage (find_row usage (prod_swap <$> BASE_MAPPINGS ++ E0_MAPPINGS)).

(** ** macOS: virtual key codes *)

Inductive MacKeyMapError := UnsupportedMacHidUsage | UnsupportedMacVirtualKey.
Definition HID_TO_MAC : list (Z * Z) :=
  [(0x04, 0x00); (0x05, 0x0B); (0x06, 0x08); (0x07, 0x02); (0x08, 0x0E); (0x09, 0x03); (0x0A, 0x05); (0x0B, 0x04);
   (0x0C, 0x22); (0x0D, 0x26); (0x0E, 0x28); (0x0F, 0x25); (0x10, 0x2E); (0x11, 0x2D); (0x12, 0x1F); (0x13, 0x23);
   (0x14, 0x0C); (0x15, 0x0F); (0x16, 0x01); (0x17, 0x11); (0x18, 0x20); (0x19, 0x09); (0x1A, 0x0D); (0x1B, 0x07);
   (0x1C, 0x10); (0x1D, 0x06); (0x1E, 0x12); (0x1F, 0x13); (0x20, 0x14); (0x21, 0x15); (0x22, 0x17); (0x23, 0x16);
   (0x24, 0x1A); (0x25, 0x1C); (0x26, 0x19); (0x27, 0x1D); (0x28, 0x24); (0x29, 0x35); (0x2A, 0x33); (0x2B, 0x30);
   (0x2C, 0x31); (0x2D, 0x1B); (0x2E, 0x18); (0x2F, 0x21); (0x30, 0x1E); (0x31, 0x2A); (0x33, 0x29); (0x34, 0x27);
   (0x35, 0x32); (0x36, 0x2B); (0x37, 0x2F); (0x38, 0x2C); (0x39, 0x39); (0x3A, 0x7A); (0x3B, 0x78); (0x3C, 0x63);
   (0x3D, 0x76); (0x3E, 0x60); (0x3F, 0x61); (0x40, 0x62); (0x41, 0x64); (0x42, 0x65); (0x43, 0x6D); (0x44, 0x67);
   (0x45, 0x6F); (0x46, 0x69); (0x47, 0x6B); (0x48, 0x71); (0x49, 0x72); (0x4A, 0x73); (0x4B, 0x74); (0x4C, 0x75);
   (0x4D, 0x77); (0x4E, 0x79); (0x4F, 0x7C); (0x50, 0x7B); (0x51, 0x7D); (0x52, 0x7E); (0x53, 0x47); (0x54, 0x4B);
   (0x55, 0x43); (0x56, 0x4E); (0x57, 0x45); (0x58, 0x4C); (0x59, 0x53); (0x5A, 0x54); (0x5B, 0x55); (0x5C, 0x56);
   (0x5D, 0x57); (0x5E, 0x58); (0x5F, 0x59); (0x60, 0x5B); (0x61, 0x5C); (0x62, 0x52); (0x63, 0x41); (0x64, 0x0A);
   (0x67, 0x51); (0x68, 0x69); (0x69, 0x6B); (0x6A, 0x71); (0x6B, 0x6A); (0x6C, 0x40); (0x6D, 0x4F); (0x6E, 0x50);
   (0x6F, 0x5A); (0xE0, 0x3B); (0xE1, 0x38); (0xE2, 0x3A); (0xE3, 0x37); (0xE4, 0x3E); (0xE5, 0x3C); (0xE6, 0x3D);
   (0xE7, 0x36)].
Definition MAC_TO_HID : list (Z * Z) :=
  [(0x00, 0x04); (0x0B, 0x05); (0x08, 0x06); (0x02, 0x07); (0x0E, 0x08); (0x03, 0x09); (0x05, 0x0A); (0x04, 0x0B);
   (0x22, 0x0C); (0x26, 0x0D); (0x28, 0x0E); (0x25, 0x0F); (0x2E, 0x10); (0x2D, 0x11); (0x1F, 0x12); (0x23, 0x13);
   (0x0C, 0x14); (0x0F, 0x15); (0x01, 0x16); (0x11, 0x17); (0x20, 0x18); (0x09, 0x19); (0x0D, 0x1A); (0x07, 0x1B);
   (0x10, 0x1C); (0x06, 0x1D); (0x12, 0x1E); (0x13, 0x1F); (0x14, 0x20); (0x15, 0x21); (0x17, 0x22); (0x16, 0x23);
   (0x1A, 0x24); (0x1C, 0x25); (0x19, 0x26); (0x1D, 0x27); (0x24, 0x28); (0x35, 0x29); (0x33, 0x2A); (0x30, 0x2B);
   (0x31, 0x2C); (0x1B, 0x2D); (0x18, 0x2E); (0x21, 0x2F); (0x1E, 0x30); (0x2A, 0x31); (0x29, 0x33); (0x27, 0x34);
   (0x32, 0x35); (0x2B, 0x36); (0x2F, 0x37); (0x2C, 0x38); (0x39, 0x39); (0x7A, 0x3A); (0x78, 0x3B); (0x63, 0x3C);
   (0x76, 0x3D); (0x60, 0x3E); (0x61, 0x3F); (0x62, 0x40); (0x64, 0x41); (0x65, 0x42); (0x6D, 0x43); (0x67, 0x44);
   (0x6F, 0x45); (0x72, 0x49); (0x73, 0x4A); (0x74, 0x4B); (0x75, 0x4C); (0x77, 0x4D); (0x79, 0x4E); (0x7C, 0x4F);
   (0x7B, 0x50); (0x7D, 0x51); (0x7E, 0x52); (0x47, 0x53); (0x4B, 0x54); (0x43, 0x55); (0x4E, 0x56); (0x45, 0x57);
   (0x4C, 0x58); (0x53, 0x59); (0x54, 0x5A); (0x55, 0x5B); (0x56, 0x5C); (0x57, 0x5D); (0x58, 0x5E); (0x59, 0x5F);
   (0x5B, 0x60); (0x5C, 0x61); (0x52, 0x62); (0x41, 0x63); (0x0A, 0x64); (0x51, 0x67); (0x69, 0x68); (0x6B, 0x69);
   (0x71, 0x6A); (0x6A, 0x6B); (0x40, 0x6C); (0x4F, 0x6D); (0x50, 0x6E); (0x5A, 0x6F); (0x3B, 0xE0); (0x38, 0xE1);
   (0x3A, 0xE2); (0x37, 0xE3); (0x3E, 0xE4); (0x3C, 0xE5); (0x3D, 0xE6); (0x36, 0xE7)].

Definition hid_to_mac_virtual_key (usage : HidUsage) : result MacKeyMapError Z := ok_or UnsupportedMacHidUsage (find_row usage HID_TO_MAC).
Definition mac_virtual_key_to_hid (key : Z) : result MacKeyMapError HidUsage := ok_or UnsupportedMacVirtualKey (find_row key MAC_TO_HID).

(** ** Windows: low-level hook records *)

Inductive DecodedInput := Ignored | Unsupported | Malformed | Event (e : CaptureEvent).

Definition WM_KEYDOWN : Z := 0x0100.
Definition WM_KEYUP : Z := 0x0101.
Definition WM_SYSKEYDOWN : Z := 0x0104.
Definition WM_SYSKEYUP : Z := 0x0105.
Definition WM_MOUSEMOVE : Z := 0x0200.
Definition WM_LBUTTONDOWN : Z := 0x0201.
Definition WM_LBUTTONUP : Z := 0x0202.
Definition WM_RBUTTONDOWN : Z := 0x0204.
Definition WM_RBUTTONUP : Z := 0x0205.
Definition WM_MBUTTONDOWN : Z := 0x0207.
Definition WM_MBUTTONUP : Z := 0x0208.
Definition WM_MOUSEWHEEL : Z := 0x020A.
Definition WM_XBUTTONDOWN : Z := 0x020B.
Definition WM_XBUTTONUP : Z := 0x020C.
Definition WM_MOUSEHWHEEL : Z := 0x020E.
Definition VK_PAUSE : Z := 0x13.
Definition LLKHF_EXTENDED : Z := 0x01.
Definition LLKHF_LOWER_IL_INJECTED : Z := 0x02.
Definition LLKHF_INJECTED : Z := 0x10.
Definition LLKHF_UP : Z := 0x80.
Definition RIGHT_SHIFT_MAKE_CODE : Z := 0x36.
Definition LLMHF_INJECTED : Z := 0x01.
Definition LLMHF_LOWER_IL_INJECTED : Z := 0x02.
Definition XBUTTON1 : Z := 0x0001.
Definition XBUTTON2 : Z := 0x0002.
Definition PEN_OR_TOUCH_SIGNATURE : Z := 0xFF515700.
Definition SIGNATURE_MASK : Z := 0xFFFFFF00.
Definition MONHOP_INJECTED_MARKER : Z := 0x4c4b4d31.

Definition keyboard_pressed (message : Z) : option bool :=
  if (message =? WM_KEYDOWN) || (message =? WM_SYSKEYDOWN) then Some true
  else if (message =? WM_KEYUP) || (message =? WM_SYSKEYUP) then Some false
  else None.
Definition decode_keyboard (message virtual_key scan_code flags extra_info : Z) : DecodedInput :=
  if negb (Z.land flags (Z.lor LLKHF_INJECTED LLKHF_LOWER_IL_INJECTED) =? 0) || (extra_info =? MONHOP_INJECTED_MARKER) then Ignored
  else
    match keyboard_pressed message with
    | None => Ignored
    | Some pressed =>
        if eqb (negb (Z.land flags LLKHF_UP =? 0)) pressed then Malformed
        else if (virtual_key =? VK_PAUSE) || (scan_code =? 0) || (255 <? scan_code) then Unsupported
        else
          let prefix := if negb (Z.land flags LLKHF_EXTENDED =? 0) && negb (scan_code =? RIGHT_SHIFT_MAKE_CODE) then E0 else NoPrefix in
          match hid_usage_from_set1 (mkScan (scan_code mod 2 ^ 8) prefix) with
          | Err _ => Unsupported
          | Ok usage => Event (EvKey usage pressed false 0)
          end
    end.

(** [i16] of the high word. *)
Definition high_word (value : Z) : Z := (value ≫ 16) mod 2 ^ 16.
Definition signed_high_word (value : Z) : Z := let w := high_word value in if w <? 2 ^ 15 then w else w - 2 ^ 16.
Definition scroll (horizontal vertical : Z) : DecodedInput :=
  if (horizontal =? 0) && (vertical =? 0) then Ignored else Event (EvScroll horizontal vertical).
Definition is_pen_or_touch (extra_info : Z) : bool := Z.land extra_info SIGNATURE_MASK =? PEN_OR_TOUCH_SIGNATURE.

Section Mouse.
(** [capture_clock]'s reading. *)
Context (clock : Z).
Definition button (b : MouseButton) (pressed : bool) : DecodedInput := Event (EvButton b pressed clock).
Definition xbutton (mouse_data : Z) (pressed : bool) : DecodedInput :=
  if high_word mouse_data =? XBUTTON1 then button BackButton pressed
  else if high_word mouse_data =? XBUTTON2 then button ForwardButton pressed
  else Unsupported.
Definition decode_mouse (message flags extra_info mouse_data x y : Z) : DecodedInput :=
  if negb (Z.land flags (Z.lor LLMHF_INJECTED LLMHF_LOWER_IL_INJECTED) =? 0) || (extra_info =? MONHOP_INJECTED_MARKER) then Ignored
  else if message =? WM_MOUSEMOVE then Event (EvAbsoluteMotion x y)
  else if message =? WM_LBUTTONDOWN then button LeftButton true
  else if message =? WM_LBUTTONUP then button LeftButton false
  else if message =? WM_RBUTTONDOWN then button RightButton true
  else if message =? WM_RBUTTONUP then button RightButton false
  else if message =? WM_MBUTTONDOWN then button MiddleButton true
  else if message =? WM_MBUTTONUP then button MiddleButton false
  else if message =? WM_XBUTTONDOWN then xbutton mouse_data true
  else if message =? WM_XBUTTONUP then xbutton mouse_data false
  else if message =? WM_MOUSEWHEEL then scroll 0 (signed_high_word mouse_data)
  else if message =? WM_MOUSEHWHEEL then scroll (signed_high_word mouse_data) 0
  else Unsupported.
End Mouse.

(** ** The tables *)

Section Rows.
Context {A B : Type} `{EqDecision A, EqDecision B}.
Lemma find_row_in x y (rows : list (A * B)) : find_row x rows = Some y -> (x, y) ∈ rows.
Proof. intros ([i [a b]] & (Hi & Ha & _)%list_find_Some & Hy)%fmap_Some. cbn in *. subst. by apply list_elem_of_lookup_2 in Hi. Qed.
Lemma find_row_none x (rows : list (A * B)) : find_row x rows = None -> forall y, (x, y) ∉ rows.
Proof.
  intros E y Hin. unfold find_row in E. apply fmap_None in E. rewrite list_find_None, list.Forall_forall in E. by apply (E _ Hin).
Qed.
(** A decided fact about every row. *)
Lemma rows_decide (P : A * B -> Prop) `{forall r, Decision (P r)} (rows : list (A * B)) :
  forallb (fun r => bool_decide (P r)) rows = true -> forall r, r ∈ rows -> P r.
Proof. rewrite forallb_forall. intros HF r Hr. specialize (HF r). rewrite bool_decide_eq_true in HF. by apply HF, list_elem_of_In. Qed.
End Rows.
#[global] Instance result_eq_dec {E A} `{EqDecision E, EqDecision A} : EqDecision (result E A).
Proof. solve_decision. Defined.
#[global] Instance WinKeyMapError_eq_dec : EqDecision WinKeyMapError.
Proof. solve_decision. Defined.
#[global] Instance MacKeyMapError_eq_dec : EqDecision MacKeyMapError.
Proof. solve_decision. Defined.
Ltac by_rows H := match type of H with ?r ∈ ?rows => pattern r; refine (rows_decide _ rows _ r H); vm_compute; reflexivity end.

Lemma set1_rows s u : hid_usage_from_set1 s = Ok u -> (s, u) ∈ BASE_MAPPINGS ++ E0_MAPPINGS.
Proof.
  unfold hid_usage_from_set1, lookup_set1. case_bool_decide; [done|]. intros E%ok_or_Ok. apply elem_of_app.
  destruct (find_row s BASE_MAPPINGS) eqn:Eb; [injection E as ->; left|right]; by apply find_row_in.
Qed.
Lemma usage_rows u s : set1_from_hid_usage u = Ok s -> (s, u) ∈ BASE_MAPPINGS ++ E0_MAPPINGS.
Proof. intros E%ok_or_Ok%find_row_in. apply list_elem_of_fmap in E as ([s' u'] & [= -> ->] & Hin). done. Qed.
Lemma set1_unique r : r ∈ BASE_MAPPINGS ++ E0_MAPPINGS -> hid_usage_from_set1 (fst r) = Ok (snd r) /\ set1_from_hid_usage (snd r) = Ok (fst r).
Proof. intros H. by_rows H. Qed.
Lemma set1_round_trip s u : hid_usage_from_set1 s = Ok u <-> set1_from_hid_usage u = Ok s.
Proof. split; [intros H%set1_rows|intros H%usage_rows]; by apply set1_unique in H as [??]. Qed.

Lemma mac_rows k u : mac_virtual_key_to_hid k = Ok u -> (k, u) ∈ MAC_TO_HID.
Proof. intros E%ok_or_Ok. by apply find_row_in. Qed.
Lemma hid_rows u k : hid_to_mac_virtual_key u = Ok k -> (u, k) ∈ HID_TO_MAC.
Proof. intros E%ok_or_Ok. by apply find_row_in. Qed.
Lemma mac_back r : r ∈ MAC_TO_HID -> hid_to_mac_virtual_key (snd r) = Ok (fst r).
Proof. intros H. by_rows H. Qed.
(** Print Screen, Scroll Lock and Pause. *)
Definition borrowed : list HidUsage := [0x46; 0x47; 0x48].
Lemma hid_back r : r ∈ HID_TO_MAC -> fst r ∉ borrowed -> mac_virtual_key_to_hid (snd r) = Ok (fst r).
Proof. intros H. by_rows H. Qed.

Lemma mac_not_borrowed r : r ∈ MAC_TO_HID -> snd r ∉ borrowed.
Proof. intros H. by_rows H. Qed.

(** Menu, Power and F21 to F24, which no Mac key code stands for; the keypad's equals. *)
Definition windows_only : list HidUsage := [0x65; 0x66; 0x70; 0x71; 0x72; 0x73].
Definition mac_only : list HidUsage := [0x67].
Lemma windows_to_mac r : r ∈ BASE_MAPPINGS ++ E0_MAPPINGS ->
  usage_is_valid (snd r) = true /\ (is_ok (hid_to_mac_virtual_key (snd r)) = true <-> snd r ∉ windows_only).
Proof. intros H. by_rows H. Qed.
Lemma mac_to_windows r : r ∈ MAC_TO_HID ->
  usage_is_valid (snd r) = true /\ (is_ok (set1_from_hid_usage (snd r)) = true <-> snd r ∉ mac_only).
Proof. intros H. by_rows H. Qed.

(** A flag of a hook record. *)
Lemma land_flag x n : 0 <= n -> (Z.land x (2 ^ n) =? 0) = negb (Z.testbit x n).
Proof.
  intros Hn. apply eq_true_iff_eq. rewrite Z.eqb_eq, negb_true_iff. split; intros H.
  - apply (f_equal (fun y => Z.testbit y n)) in H. by rewrite Z.land_spec, Z.pow2_bits_true, andb_true_r, Z.bits_0 in H.
  - apply Z.bits_inj. intros k. rewrite Z.land_spec, Z.bits_0. destruct (decide (n = k)) as [<-|Hk]; [by rewrite H|].
    by rewrite Z.pow2_bits_false, andb_false_r.
Qed.
Lemma land_injected x : (Z.land x (Z.lor LLKHF_INJECTED LLKHF_LOWER_IL_INJECTED) =? 0) = negb (Z.testbit x 4) && negb (Z.testbit x 1).
Proof.
  rewrite <- !land_flag by done. rewrite Z.land_lor_distr_r. change (2 ^ 4) with LLKHF_INJECTED. change (2 ^ 1) with LLKHF_LOWER_IL_INJECTED.
  apply eq_true_iff_eq. by rewrite andb_true_iff, !Z.eqb_eq, Z.lor_eq_0_iff.
Qed.
(** The prefix a hook record's key was sent with: its flag of an extended key stands for
    the byte E0, but the right Shift has the flag without it. *)
Definition sent_prefix (scan flags : Z) : Set1Prefix :=
  if Z.testbit flags 0 && negb (scan =? 0x36) then E0 else NoPrefix.
Lemma scan_code_range r : r ∈ BASE_MAPPINGS ++ E0_MAPPINGS -> (1 <=? make_code (fst r)) && (make_code (fst r) <=? 255) = true.
Proof. intros H. by_rows H. Qed.
Lemma keyboard_message message pressed :
  keyboard_pressed message = Some pressed <-> message ∈ (if pressed then [WM_KEYDOWN; WM_SYSKEYDOWN] else [WM_KEYUP; WM_SYSKEYUP]).
Proof.
  unfold keyboard_pressed. destruct (message =? WM_KEYDOWN) eqn:E1, (message =? WM_SYSKEYDOWN) eqn:E2, (message =? WM_KEYUP) eqn:E3,
    (message =? WM_SYSKEYUP) eqn:E4, pressed; cbn [orb]; bool_inv; rewrite !elem_of_cons, elem_of_nil; subst; split; intros H; try done;
    try (by auto); naive_solver.
Qed.

