(* ===== verification/MacDecode.v ===== *)
(** * Decoding Quartz records (monhop-platform-macos/src/capture_decode.rs)

    The capture thread copies the fields of each record; everything here is a function of
    those and of the decoder's state.  [i64] fields are numbers, times are nanoseconds.
    The finished-gesture summaries are kept; how they are printed is not modelled. *)

From stdpp Require Import list.
From S2P Require Import Prelude F64 Types Geometry CaptureEvent GestureLatch CapturePhysical Keymaps.

Definition CG_EVENT_KEY_DOWN : Z := 10.
Definition CG_EVENT_KEY_UP : Z := 11.
Definition CG_EVENT_FLAGS_CHANGED : Z := 12.
Definition CG_EVENT_MOUSE_MOVED : Z := 5.
Definition CG_EVENT_LEFT_MOUSE_DOWN : Z := 1.
Definition CG_EVENT_LEFT_MOUSE_UP : Z := 2.
Definition CG_EVENT_RIGHT_MOUSE_DOWN : Z := 3.
Definition CG_EVENT_RIGHT_MOUSE_UP : Z := 4.
Definition CG_EVENT_LEFT_MOUSE_DRAGGED : Z := 6.
Definition CG_EVENT_RIGHT_MOUSE_DRAGGED : Z := 7.
Definition CG_EVENT_OTHER_MOUSE_DOWN : Z := 25.
Definition CG_EVENT_OTHER_MOUSE_UP : Z := 26.
Definition CG_EVENT_OTHER_MOUSE_DRAGGED : Z := 27.
Definition CG_EVENT_GESTURE : Z := 29.
Definition CG_EVENT_DOCK_CONTROL : Z := 30.
Definition DOCK_SWIPE_COMMIT_PROGRESS : f64 := 0x3FC3333333333333. (* 0.15 *)
Definition DOCK_SWIPE_COMMIT_VELOCITY : f64 := 0x3FE0000000000000. (* 0.5 *)
Definition f64_minus_one : f64 := 0xBFF0000000000000.
Definition DOCK_SWIPE_HORIZONTAL_NEXT_SIGN : f64 := f64_minus_one.
Definition DOCK_SWIPE_VERTICAL_UP_SIGN : f64 := f64_minus_one.
Definition DOCK_SWIPE_SCALE_SPREAD_SIGN : f64 := f64_one.
Definition PAGE_SWIPE_MIN_TRAVEL : f64 := 0x404E000000000000. (* 60.0 *)
Definition PAGE_SWIPE_MIN_DOMINANCE : f64 := 0x4004000000000000. (* 2.5 *)
Definition PAGE_SWIPE_SPEED_WINDOW : Z := ms 60.
Definition PAGE_SWIPE_MIN_SPEED : f64 := 0x4082C00000000000. (* 600.0 *)
Definition PAGE_SWIPE_FINGERS_RIGHT_SIGN : f64 := f64_minus_one.
Definition PAGE_SWIPE_SAMPLES : nat := 32.
Definition HID_ROTATION : Z := 5.
Definition HID_SCROLL : Z := 6.
Definition HID_ZOOM : Z := 8.
Definition HID_ZOOM_TOGGLE : Z := 22.
Definition HID_DOCK_SWIPE : Z := 23.
Definition HID_FORCE : Z := 32.
Definition HID_TOUCH_STARTED : Z := 61.
Definition HID_TOUCH_ENDED : Z := 62.
Definition NATIVE_PHASE_BEGAN : Z := 1.
Definition NATIVE_PHASE_CHANGED : Z := 2.
Definition NATIVE_PHASE_ENDED : Z := 4.
Definition NATIVE_PHASE_CANCELLED : Z := 8.
Definition NATIVE_PHASE_MAY_BEGIN : Z := 128.
Definition MOTION_HORIZONTAL : Z := 1.
Definition MOTION_VERTICAL : Z := 2.
Definition MOTION_SCALE : Z := 3.
Definition FORCE_CLICK_STAGE : Z := 2.
Definition CG_EVENT_SOURCE_STATE_HID_SYSTEM : Z := 1.
Definition HID_CAPS_LOCK : HidUsage := 0x39.
Definition QUARTZ_POINTS_PER_DISCRETE_SCROLL_LINE : f64 := 0x4044000000000000. (* 40.0 *)

Record EventSourceMetadata := mkMeta { user_data : Z; state_id : Z }.
Inductive MacInput := MacIgnored | MacEmpty | MacUnsupported | MacMalformed | MacEvent (e : CaptureEvent).
Record DecodedPointer := mkPointer { local_absolute : option CaptureEvent; dp_input : MacInput; dp_position : option Point }.
Record PointerFields := mkFields { location : Point; delta_x : f64; delta_y : f64; button_number : Z }.

(** ** Display bounds *)

Definition valid_rectangle (r : LogicalRect) : bool :=
  point_is_finite (rect_origin r) && f64_is_finite (width (rect_size r)) && f64_is_finite (height (rect_size r))
  && f64_ltb f64_zero (width (rect_size r)) && f64_ltb f64_zero (height (rect_size r))
  && f64_is_finite (f64_add (px (rect_origin r)) (width (rect_size r)))
  && f64_is_finite (f64_add (py (rect_origin r)) (height (rect_size r))).
Definition from_rectangles (l : list LogicalRect) : option (list LogicalRect) :=
  if bool_decide (l = []) || existsb (fun r => negb (valid_rectangle r)) l then None else Some l.
Definition bounds_contain (l : list LogicalRect) (p : Point) : bool := existsb (fun r => contains_half_open r p) l.

(** ** Modifiers: one bit for each side-specific key *)

Definition modifier_bit (usage : HidUsage) : option Z :=
  if usage <? 0xe0 then None else if usage - 0xe0 <? 8 then Some (1 ≪ (usage - 0xe0)) else None.
Definition set_modifier (held : Z) (usage : HidUsage) (down : bool) : Z :=
  match modifier_bit usage with
  | None => held
  | Some bit => if down then Z.lor held bit else Z.land held (Z.lxor bit 255)
  end.

Definition MAC_EVENT_FLAG_SHIFT : Z := 0x20000.
Definition MAC_EVENT_FLAG_CONTROL : Z := 0x40000.
Definition MAC_EVENT_FLAG_OPTION : Z := 0x80000.
Definition MAC_EVENT_FLAG_COMMAND : Z := 0x100000.
Definition usage_flag (usage : HidUsage) : Z :=
  if (usage =? 0xe0) || (usage =? 0xe4) then MAC_EVENT_FLAG_CONTROL
  else if (usage =? 0xe1) || (usage =? 0xe5) then MAC_EVENT_FLAG_SHIFT
  else if (usage =? 0xe2) || (usage =? 0xe6) then MAC_EVENT_FLAG_OPTION
  else if (usage =? 0xe3) || (usage =? 0xe7) then MAC_EVENT_FLAG_COMMAND
  else 0.
Definition mac_modifier_flags_from_held_keys (l : list HidUsage) : Z := foldl (fun flags u => Z.lor flags (usage_flag u)) 0 l.

(** [LocalModifierState], its bits. *)
Definition record_local_key (held : Z) (usage : HidUsage) (pressed : bool) : Z := set_modifier held usage pressed.
Definition local_transfer_success (held : Z) (t : LocalTransfer) : Z :=
  match t with TransferKey usage pressed => record_local_key held usage pressed | _ => held end.
Definition local_flags (held : Z) : Z :=
  mac_modifier_flags_from_held_keys (filter (fun u => negb (Z.land held (1 ≪ (u - 0xe0)) =? 0) = true) (seqZ 0xe0 8)).
Definition flags_after_transfer (held : Z) (t : LocalTransfer) : Z := local_flags (local_transfer_success held t).

Record HidKeyState := mkHid { hid_down : bool; injection_held : bool }.
(** [HidKeyState::sample]: the gate's changes and held flag before the read, the changes
    after it. *)
Definition sample (gate : option (Z * bool * Z)) (down : bool) : HidKeyState :=
  match gate with
  | None => mkHid down false
  | Some (changes, held, after) => mkHid down (held || negb (after =? changes))
  end.
Record PhysicalModifierLedger := mkLedger { l_held : Z; l_posted : Z }.
Definition default_ledger : PhysicalModifierLedger := mkLedger 0 0.
Definition seed_held (l : PhysicalModifierLedger) (usage : HidUsage) : PhysicalModifierLedger := mkLedger (set_modifier (l_held l) usage true) (l_posted l).
Definition forget_seeded (l : PhysicalModifierLedger) (usage : HidUsage) : PhysicalModifierLedger := mkLedger (set_modifier (l_held l) usage false) (l_posted l).
Definition record_posted (l : PhysicalModifierLedger) (t : LocalTransfer) : PhysicalModifierLedger :=
  match t with TransferKey usage pressed => mkLedger (l_held l) (set_modifier (l_posted l) usage pressed) | _ => l end.
Definition flags_changed (l : PhysicalModifierLedger) (usage : HidUsage) (hid : HidKeyState) : PhysicalModifierLedger * option bool :=
  match modifier_bit usage with
  | None => (l, None)
  | Some bit =>
      let down := if injection_held hid || negb (Z.land (l_posted l) bit =? 0) then Z.land (l_held l) bit =? 0 else hid_down hid in
      (mkLedger (set_modifier (l_held l) usage down) (l_posted l), Some down)
  end.

(** ** Keys, pointer and wheel *)

Definition should_ignore_source (s : EventSourceMetadata) (synthetic_marker : Z) : bool :=
  (user_data s =? synthetic_marker) || negb (state_id s =? CG_EVENT_SOURCE_STATE_HID_SYSTEM).
Definition should_keep_quarantine_tap (has_suppressed_presses interception_failed : bool) : bool :=
  has_suppressed_presses && negb interception_failed.

Definition key_event (usage : HidUsage) (pressed : bool) : MacInput := MacEvent (EvKey usage pressed false 0).
Definition mac_decode_keyboard (event_type virtual_key : Z) (l : PhysicalModifierLedger) (hid : HidKeyState)
    (source : EventSourceMetadata) (marker : Z) : PhysicalModifierLedger * MacInput :=
  if should_ignore_source source marker then (l, MacIgnored)
  else
    match (if event_type =? CG_EVENT_KEY_DOWN then Some (Some true) else if event_type =? CG_EVENT_KEY_UP then Some (Some false)
           else if event_type =? CG_EVENT_FLAGS_CHANGED then Some None else None) with
    | None => (l, MacIgnored)
    | Some key_pressed =>
        match mac_virtual_key_to_hid virtual_key with
        | Err _ => (l, match key_pressed with Some _ => MacUnsupported | None => MacIgnored end)
        | Ok usage =>
            match key_pressed with
            | Some pressed => (mkLedger (set_modifier (l_held l) usage pressed) (l_posted l), key_event usage pressed)
            | None =>
                match flags_changed l usage hid with
                | (l, Some down) => (l, key_event usage down)
                | (l, None) => (l, if usage =? HID_CAPS_LOCK then key_event usage (hid_down hid) else MacIgnored)
                end
            end
        end
    end.

Definition is_pointer_motion (event_type : Z) : bool :=
  (event_type =? CG_EVENT_MOUSE_MOVED) || (event_type =? CG_EVENT_LEFT_MOUSE_DRAGGED) || (event_type =? CG_EVENT_RIGHT_MOUSE_DRAGGED)
  || (event_type =? CG_EVENT_OTHER_MOUSE_DRAGGED).

Section Clock.
(** [capture_clock]'s reading. *)
Context (clock : Z).
Definition mac_button (b : MouseButton) (pressed : bool) : MacInput := MacEvent (EvButton b pressed clock).
Definition mouse_button (number : Z) (pressed : bool) : MacInput :=
  if number =? 0 then mac_button LeftButton pressed
  else if number =? 1 then mac_button RightButton pressed
  else if number =? 2 then mac_button MiddleButton pressed
  else if number =? 3 then mac_button BackButton pressed
  else if number =? 4 then mac_button ForwardButton pressed
  else MacUnsupported.
Definition decode_pointer (event_type : Z) (f : PointerFields) (previous : option Point) (source : EventSourceMetadata) (marker : Z) : DecodedPointer :=
  let at_ := Some (location f) in
  if should_ignore_source source marker then mkPointer None MacIgnored previous
  else if negb (point_is_finite (location f)) then mkPointer None MacMalformed previous
  else if is_pointer_motion event_type then
    if negb (f64_is_finite (delta_x f)) || negb (f64_is_finite (delta_y f)) then mkPointer None MacMalformed previous
    else mkPointer (Some (EvLogicalAbsoluteMotion (px (location f)) (py (location f))))
           (if f64_eqb (delta_x f) f64_zero && f64_eqb (delta_y f) f64_zero then MacEmpty
            else MacEvent (EvLogicalRelativeMotion (delta_x f) (delta_y f))) at_
  else if event_type =? CG_EVENT_LEFT_MOUSE_DOWN then mkPointer None (mac_button LeftButton true) at_
  else if event_type =? CG_EVENT_LEFT_MOUSE_UP then mkPointer None (mac_button LeftButton false) at_
  else if event_type =? CG_EVENT_RIGHT_MOUSE_DOWN then mkPointer None (mac_button RightButton true) at_
  else if event_type =? CG_EVENT_RIGHT_MOUSE_UP then mkPointer None (mac_button RightButton false) at_
  else if event_type =? CG_EVENT_OTHER_MOUSE_DOWN then mkPointer None (mouse_button (button_number f) true) at_
  else if event_type =? CG_EVENT_OTHER_MOUSE_UP then mkPointer None (mouse_button (button_number f) false) at_
  else mkPointer None MacIgnored previous.
End Clock.

Definition decode_scroll (horizontal vertical : f64) (continuous : bool) (source : EventSourceMetadata) (marker : Z) : MacInput :=
  if should_ignore_source source marker then MacIgnored
  else if negb (f64_is_finite horizontal) || negb (f64_is_finite vertical) then MacMalformed
  else
    let '(h, v) := if continuous then (horizontal, vertical)
                   else (f64_mul horizontal QUARTZ_POINTS_PER_DISCRETE_SCROLL_LINE, f64_mul vertical QUARTZ_POINTS_PER_DISCRETE_SCROLL_LINE) in
    if negb (f64_is_finite h) || negb (f64_is_finite v) then MacMalformed
    else if f64_eqb h f64_zero && f64_eqb v f64_zero then MacEmpty
    else MacEvent (EvLogicalScroll h v).

(** ** Gesture records *)

Record GestureFields := mkGestureFields {
  event_type : Z; hid_type : Z; phase : Z; zoom : f64; rotation : f64; motion : Z; progress : f64; velocity_x : f64; velocity_y : f64; stage : Z }.
Inductive GestureOutput := Quiet | OutEvent (e : CaptureEvent) | Unmapped.
Record DecodedGesture := mkDecoded { dg_record : TouchRecord; dg_output : GestureOutput }.
Inductive GestureEnd := Lifted | EndCancelled | Lost.
Inductive GestureSummary :=
| SumDockSwipe (motion : Z) (progress peak_velocity_x peak_velocity_y : f64) (fired : option SystemGesture) (end_ : GestureEnd)
| SumPinch (records : Z) (scale : f64) (end_ : GestureEnd).
Record DockSwipe := mkSwipe {
  sw_motion : Z; sw_progress : f64; sw_velocity : f64; sw_peak_x : f64; sw_peak_y : f64; sw_fired : option SystemGesture }.
Definition new_swipe (m : Z) : DockSwipe := mkSwipe m f64_zero f64_zero f64_zero f64_zero None.

Definition kept (terminal : bool) (value : f64) : bool := f64_is_finite value && negb (terminal && f64_eqb value f64_zero).
Definition observe_swipe (s : DockSwipe) (f : GestureFields) (terminal : bool) : DockSwipe :=
  let velocity := if sw_motion s =? MOTION_HORIZONTAL then velocity_x f else if sw_motion s =? MOTION_VERTICAL then velocity_y f else f64_zero in
  mkSwipe (sw_motion s) (if kept terminal (progress f) then progress f else sw_progress s)
    (if kept terminal velocity then velocity else sw_velocity s)
    (if f64_is_finite (velocity_x f) then f64_max (sw_peak_x s) (f64_abs (velocity_x f)) else sw_peak_x s)
    (if f64_is_finite (velocity_y f) then f64_max (sw_peak_y s) (f64_abs (velocity_y f)) else sw_peak_y s) (sw_fired s).
(** [f64::signum]. *)
Definition f64_signum (b : f64) : f64 := if f64_is_nan b then b else if f64_sign b then f64_minus_one else f64_one.
Definition commits (s : DockSwipe) (p : GesturePhase) : bool :=
  let short := f64_ltb (f64_abs (sw_progress s)) DOCK_SWIPE_COMMIT_PROGRESS in
  let far := f64_leb DOCK_SWIPE_COMMIT_PROGRESS (f64_abs (sw_progress s)) in
  match p with
  | Cancelled => false
  | Ended =>
      if short
      then negb (f64_eqb (sw_progress s) f64_zero)
           && f64_leb DOCK_SWIPE_COMMIT_VELOCITY (f64_mul (sw_velocity s) (f64_signum (sw_progress s)))
      else far
  | _ => far
  end.
Definition swipe_gesture (s : DockSwipe) : SystemGesture :=
  let '(sign, first, second) :=
    if sw_motion s =? MOTION_HORIZONTAL then (DOCK_SWIPE_HORIZONTAL_NEXT_SIGN, DesktopNext, DesktopPrevious)
    else if sw_motion s =? MOTION_VERTICAL then (DOCK_SWIPE_VERTICAL_UP_SIGN, Overview, AppWindows)
    else (DOCK_SWIPE_SCALE_SPREAD_SIGN, ShowDesktop, Launcher) in
  if f64_ltb f64_zero (f64_mul (sw_progress s) sign) then first else second.
Definition swipe_summary (s : DockSwipe) (e : GestureEnd) : GestureSummary :=
  SumDockSwipe (sw_motion s) (sw_progress s) (sw_peak_x s) (sw_peak_y s) (sw_fired s) e.
Record Pinch := mkPinch { p_records : Z; p_scale : f64 }.
Definition pinch_summary (p : Pinch) (e : GestureEnd) : GestureSummary := SumPinch (p_records p) (p_scale p) e.
Record GestureDecoder := mkDecoder {
  d_swipe : option DockSwipe; d_pinch : option Pinch; force_clicked : bool;
  finished_swipe : option GestureSummary; finished_pinch : option GestureSummary }.
Definition default_decoder : GestureDecoder := mkDecoder None None false None None.
Definition take_finished (d : GestureDecoder) : GestureDecoder * list GestureSummary :=
  (mkDecoder (d_swipe d) (d_pinch d) (force_clicked d) None None, option_list (finished_swipe d) ++ option_list (finished_pinch d)).

Inductive NativePhase := MayBegin | GestureIn (p : GesturePhase).
Definition native_phase (value : Z) : option NativePhase :=
  if value =? NATIVE_PHASE_BEGAN then Some (GestureIn Began)
  else if value =? NATIVE_PHASE_CHANGED then Some (GestureIn Changed)
  else if value =? NATIVE_PHASE_ENDED then Some (GestureIn Ended)
  else if value =? NATIVE_PHASE_CANCELLED then Some (GestureIn Cancelled)
  else if value =? NATIVE_PHASE_MAY_BEGIN then Some MayBegin
  else None.
Definition terminal_end (p : GesturePhase) : option GestureEnd :=
  match p with Ended => Some Lifted | Cancelled => Some EndCancelled | _ => None end.

Definition set_swipe (d : GestureDecoder) (s : option DockSwipe) (done_ : option GestureSummary) : GestureDecoder :=
  mkDecoder s (d_pinch d) (force_clicked d) done_ (finished_pinch d).
(** A swipe starts: the one still open is lost. *)
Definition open_swipe (d : GestureDecoder) (m : Z) : GestureDecoder :=
  set_swipe d (Some (new_swipe m)) match d_swipe d with Some lost => Some (swipe_summary lost Lost) | None => finished_swipe d end.
Definition starts_swipe (d : GestureDecoder) (p : GesturePhase) : bool :=
  bool_decide (p = Began) || (bool_decide (d_swipe d = None) && negb (phase_is_terminal p)).
Definition known_motion (m : Z) : bool := (m =? MOTION_HORIZONTAL) || (m =? MOTION_VERTICAL) || (m =? MOTION_SCALE).
(** The rest of [dock_swipe], once a swipe may be open. *)
Definition advance_swipe (d : GestureDecoder) (f : GestureFields) (p : GesturePhase) : GestureDecoder * GestureOutput :=
  match d_swipe d with
  | None => (d, Quiet)
  | Some s =>
      let s := observe_swipe s f (phase_is_terminal p) in
      let fired := if bool_decide (sw_fired s = None) && commits s p then Some (swipe_gesture s) else None in
      let s := match fired with
               | Some _ => mkSwipe (sw_motion s) (sw_progress s) (sw_velocity s) (sw_peak_x s) (sw_peak_y s) fired
               | None => s
               end in
      (match terminal_end p with Some e => set_swipe d None (Some (swipe_summary s e)) | None => set_swipe d (Some s) (finished_swipe d) end,
       match fired with Some g => OutEvent (EvSystemGesture g) | None => Quiet end)
  end.
Definition dock_swipe (d : GestureDecoder) (f : GestureFields) : GestureDecoder * GestureOutput :=
  match native_phase (phase f) with
  | Some (GestureIn p) =>
      if starts_swipe d p then
        if negb (known_motion (motion f)) then (d, Unmapped) else advance_swipe (open_swipe d (motion f)) f p
      else advance_swipe d f p
  | Some MayBegin => (d, Quiet)
  | None => (d, Unmapped)
  end.

Definition set_pinch (d : GestureDecoder) (p : option Pinch) (done_ : option GestureSummary) : GestureDecoder :=
  mkDecoder (d_swipe d) p (force_clicked d) (finished_swipe d) done_.
Definition magnify (d : GestureDecoder) (f : GestureFields) : GestureDecoder * GestureOutput :=
  match native_phase (phase f) with
  | Some (GestureIn p) =>
      match from_parts KMagnify (Some p) (zoom f) with
      | Err _ => (d, Unmapped)
      | Ok g =>
          let d := match d_pinch d with
                   | Some lost => if bool_decide (p = Began) then set_pinch d None (Some (pinch_summary lost Lost)) else d
                   | None => d
                   end in
          let pinch := default (mkPinch 0 f64_one) (d_pinch d) in
          let pinch := mkPinch (Z.min (p_records pinch + 1) u32_max) (f64_mul (p_scale pinch) (f64_add f64_one (zoom f))) in
          (match terminal_end p with
           | Some e => set_pinch d None (Some (pinch_summary pinch e))
           | None => set_pinch d (Some pinch) (finished_pinch d)
           end, OutEvent (gesture_event g))
      end
  | Some MayBegin => (d, Quiet)
  | None => (d, Unmapped)
  end.
Definition set_force (d : GestureDecoder) (b : bool) : GestureDecoder := mkDecoder (d_swipe d) (d_pinch d) b (finished_swipe d) (finished_pinch d).
Definition force (d : GestureDecoder) (f : GestureFields) : GestureDecoder * DecodedGesture :=
  if (FORCE_CLICK_STAGE <=? stage f) && negb (force_clicked d) then
    (set_force d true, mkDecoded Standalone (OutEvent (gesture_event ForceClick)))
  else
    let ended := match native_phase (phase f) with Some (GestureIn p) => phase_is_terminal p | _ => false end in
    (if (stage f <=? 0) || ended then set_force d false else d, mkDecoded Continues Quiet).
Definition rotate (f : GestureFields) : GestureOutput :=
  match native_phase (phase f) with
  | Some (GestureIn p) => match from_parts KRotate (Some p) (rotation f) with Ok g => OutEvent (gesture_event g) | Err _ => Unmapped end
  | Some MayBegin => Quiet
  | None => Unmapped
  end.
Definition decode_gesture (f : GestureFields) (d : GestureDecoder) : GestureDecoder * DecodedGesture :=
  let continues '(d, o) := (d, mkDecoded Continues o) in
  if event_type f =? CG_EVENT_GESTURE then
    if hid_type f =? HID_TOUCH_STARTED then (d, mkDecoded Opens Quiet)
    else if hid_type f =? HID_TOUCH_ENDED then (d, mkDecoded Closes Quiet)
    else if hid_type f =? HID_SCROLL then (d, mkDecoded Continues Quiet)
    else if hid_type f =? HID_ZOOM then continues (magnify d f)
    else if hid_type f =? HID_ROTATION then (d, mkDecoded Continues (rotate f))
    else if hid_type f =? HID_ZOOM_TOGGLE then (d, mkDecoded Standalone (OutEvent (gesture_event SmartMagnify)))
    else if hid_type f =? HID_FORCE then force d f
    else (d, mkDecoded Continues Unmapped)
  else if (event_type f =? CG_EVENT_DOCK_CONTROL) && (hid_type f =? HID_DOCK_SWIPE) then continues (dock_swipe d f)
  else (d, mkDecoded Continues Unmapped).

(** ** Page swipes *)

Record ScrollRecord := mkScroll { s_horizontal : f64; s_vertical : f64; s_continuous : bool; s_phase : Z; s_momentum : Z; s_inverted : bool }.
Definition fingers_right (r : ScrollRecord) : f64 :=
  f64_mul (if s_inverted r then f64_neg (s_horizontal r) else s_horizontal r) PAGE_SWIPE_FINGERS_RIGHT_SIGN.
Record PageSwipe := mkPage { travel_x : f64; travel_y : f64; recent : list (Z * f64); next : nat }.
Definition default_page : PageSwipe := mkPage f64_zero f64_zero (replicate PAGE_SWIPE_SAMPLES (0, f64_zero)) 0.
Definition page_add (s : PageSwipe) (at_ : Z) (right vertical : f64) : PageSwipe :=
  mkPage (f64_add (travel_x s) right) (f64_add (travel_y s) vertical) (<[next s := (at_, right)]> (recent s)) ((next s + 1) mod PAGE_SWIPE_SAMPLES).
(** The sum of an iterator of floats starts at [-0.0]. *)
Definition late_travel (s : PageSwipe) (end_ : Z) : f64 :=
  foldl f64_add (f64_neg f64_zero) (snd <$> filter (fun p => saturating_sub end_ (fst p) <= PAGE_SWIPE_SPEED_WINDOW) (recent s)).
Definition page_gesture (s : PageSwipe) (end_ : Z) : option SystemGesture :=
  let sideways := f64_abs (travel_x s) in
  if negb (f64_is_finite sideways) || f64_ltb sideways PAGE_SWIPE_MIN_TRAVEL
     || f64_ltb sideways (f64_mul PAGE_SWIPE_MIN_DOMINANCE (f64_abs (travel_y s))) then None
  else
    let speed := f64_div (f64_mul (late_travel s end_) (f64_signum (travel_x s))) (as_secs_f64 PAGE_SWIPE_SPEED_WINDOW) in
    if f64_ltb speed PAGE_SWIPE_MIN_SPEED then None
    else Some (if f64_ltb f64_zero (travel_x s) then NavigateBack else NavigateForward).
Record PageSwipes := mkSwipes { ps_open : option PageSwipe; ps_fired : Z; ps_declined : Z }.
Definition default_swipes : PageSwipes := mkSwipes None 0 0.
Definition saturating_inc (n : Z) : Z := saturating_add_u64 n 1.
Definition observe (s : PageSwipes) (r : ScrollRecord) (now : Z) (remote enabled : bool) : PageSwipes * option SystemGesture :=
  if negb remote || negb enabled || negb (f64_is_finite (s_horizontal r)) || negb (f64_is_finite (s_vertical r))
  then (mkSwipes None (ps_fired s) (ps_declined s), None)
  else if negb (s_momentum r =? 0) || negb (s_continuous r) then (s, None)
  else
    match native_phase (s_phase r) with
    | Some (GestureIn p) =>
        match (if bool_decide (p = Began) then Some default_page else ps_open s) with
        | None => (mkSwipes None (ps_fired s) (ps_declined s), None)
        | Some swipe =>
            let swipe := page_add swipe now (fingers_right r) (s_vertical r) in
            match p with
            | Began | Changed => (mkSwipes (Some swipe) (ps_fired s) (ps_declined s), None)
            | Ended =>
                match page_gesture swipe now with
                | Some g => (mkSwipes None (saturating_inc (ps_fired s)) (ps_declined s), Some g)
                | None => (mkSwipes None (ps_fired s) (saturating_inc (ps_declined s)), None)
                end
            | Cancelled => (mkSwipes None (ps_fired s) (saturating_inc (ps_declined s)), None)
            end
        end
    | _ => (s, None)
    end.
Definition interrupt (s : PageSwipes) : PageSwipes := mkSwipes None (ps_fired s) (ps_declined s).
Definition counts (s : PageSwipes) : Z * Z := (ps_fired s, ps_declined s).

(** ** Modifiers follow the hand *)

Lemma modifier_bit_spec u bit : modifier_bit u = Some bit -> exists k, 0 <= k < 8 /\ u = 0xe0 + k /\ bit = 2 ^ k.
Proof.
  unfold modifier_bit. destruct (Z.ltb_spec u 0xe0); [done|]. destruct (Z.ltb_spec (u - 0xe0) 8); [|done]. intros [= <-].
  exists (u - 0xe0). rewrite Z.shiftl_mul_pow2 by lia. split; [lia|]. split; lia.
Qed.
Lemma land_pow2 a k : 0 <= k -> (Z.land a (2 ^ k) =? 0) = negb (Z.testbit a k).
Proof.
  intros Hk. destruct (Z.testbit a k) eqn:E; cbn.
  - apply Z.eqb_neq. intros H. apply (f_equal (fun z => Z.testbit z k)) in H. rewrite Z.land_spec, E, Z.pow2_bits_true, Z.bits_0 in H by done. done.
  - apply Z.eqb_eq. apply Z.bits_inj'. intros n Hn. rewrite Z.land_spec, Z.bits_0, Z.pow2_bits_eqb by done.
    destruct (Z.eqb_spec k n) as [->|]; [by rewrite E|by rewrite andb_false_r].
Qed.
Lemma set_modifier_bits held u k down n : 0 <= held < 256 -> 0 <= k < 8 -> u = 0xe0 + k -> 0 <= n ->
  Z.testbit (set_modifier held u down) n = if n =? k then down else Z.testbit held n.
Proof.
  intros Hh Hk -> Hn. assert (modifier_bit (0xe0 + k) = Some (2 ^ k)) as E.
  { unfold modifier_bit. rewrite (proj2 (Z.ltb_ge _ _)), (proj2 (Z.ltb_lt _ _)) by lia. replace (0xe0 + k - 0xe0) with k by lia. f_equal. rewrite Z.shiftl_mul_pow2 by lia. lia. }
  unfold set_modifier. rewrite E. destruct down.
  - rewrite Z.lor_spec, Z.pow2_bits_eqb by lia. rewrite (Z.eqb_sym k n). destruct (n =? k); [apply orb_true_r|apply orb_false_r].
  - rewrite Z.land_spec, Z.lxor_spec, Z.pow2_bits_eqb by lia. rewrite (Z.eqb_sym k n). change 255 with (Z.ones 8). rewrite Z.testbit_ones_nonneg by lia.
    destruct (Z.eqb_spec n k) as [->|]; [rewrite (proj2 (Z.ltb_lt _ _)) by lia; apply andb_false_r|]. destruct (Z.ltb_spec n 8); [apply andb_true_r|].
    cbn. rewrite andb_false_r. symmetry. rewrite <-(Z.mod_small held (2 ^ 8)) by done. apply Z.mod_pow2_bits_high. lia.
Qed.
(** The modifier keys a hand has down, as bits; [toggle] presses or lets go of one. *)
Definition is_down (hand : Z) (u : HidUsage) : bool := Z.testbit hand (u - 0xe0).
Definition toggle (hand : Z) (u : HidUsage) : Z := set_modifier hand u (negb (is_down hand u)).
Lemma set_modifier_range held u down : 0 <= held < 256 -> 0 <= set_modifier held u down < 256.
Proof.
  intros Hh. unfold set_modifier. destruct (modifier_bit u) as [bit|] eqn:E; [|done]. apply modifier_bit_spec in E as (k & Hk & _ & ->).
  assert (0 <= 2 ^ k < 256) as Hb. { split; [apply Z.pow_nonneg; lia|]. apply (Z.pow_lt_mono_r 2 k 8); lia. }
  destruct down.
  - split; [apply Z.lor_nonneg; lia|]. apply Z.log2_lt_cancel. change (Z.log2 256) with 8.
    rewrite Z.log2_lor by lia. apply Z.max_lub_lt; [|rewrite Z.log2_pow2 by lia; lia].
    destruct (Z.eq_dec held 0) as [->|]; [cbn; lia|]. apply Z.log2_lt_pow2; lia.
  - assert (0 <= Z.land held (Z.lxor (2 ^ k) 255)) by (apply Z.land_nonneg; lia). split; [done|].
    destruct (Z.eq_dec (Z.land held (Z.lxor (2 ^ k) 255)) 0) as [->|]; [lia|]. destruct (Z.eq_dec held 0) as [->|]; [by rewrite Z.land_0_l|].
    apply Z.log2_lt_cancel. change (Z.log2 256) with 8. eapply Z.le_lt_trans; [apply Z.log2_land; try lia; apply Z.lxor_nonneg; lia|].
    apply Z.min_lt_iff. left. apply Z.log2_lt_pow2; lia.
Qed.
Lemma flags_changed_follows l u bit hid : 0 <= l_held l < 256 -> modifier_bit u = Some bit ->
  (injection_held hid = false -> Z.land (l_posted l) bit = 0 -> hid_down hid = negb (is_down (l_held l) u)) ->
  flags_changed l u hid = (mkLedger (toggle (l_held l) u) (l_posted l), Some (negb (is_down (l_held l) u))).
Proof.
  intros Hh Eb Ht. unfold flags_changed. rewrite Eb. destruct (modifier_bit_spec _ _ Eb) as (k & Hk & -> & ->).
  assert ((if injection_held hid || negb (Z.land (l_posted l) (2 ^ k) =? 0) then Z.land (l_held l) (2 ^ k) =? 0 else hid_down hid)
          = negb (is_down (l_held l) (0xe0 + k))) as ->.
  { unfold is_down in *. replace (0xe0 + k - 0xe0) with k in * by lia. destruct (_ || _) eqn:E; [by apply land_pow2; lia|].
    apply orb_false_elim in E as [E1 E2%negb_false_iff%Z.eqb_eq]. by apply Ht. }
  done.
Qed.

(** What happens to the ledger: the hand moves a modifier and Quartz reports it, with
    what the HID state read; or the capture posts a key of its own. *)
Inductive hand_call := HandMoves (key : Z) (usage : HidUsage) (hid : HidKeyState) | Posts (t : LocalTransfer).
(** The HID state tells the truth when nothing injected and nothing posted overlaps it. *)
Definition honest (l : PhysicalModifierLedger) (c : hand_call) (hand : Z) : Prop :=
  match c with
  | HandMoves key usage hid =>
      mac_virtual_key_to_hid key = Ok usage /\ exists bit, modifier_bit usage = Some bit
      /\ (injection_held hid = false -> Z.land (l_posted l) bit = 0 -> hid_down hid = negb (is_down hand usage))
  | Posts _ => True
  end.
Definition physical_source : EventSourceMetadata := mkMeta 0 CG_EVENT_SOURCE_STATE_HID_SYSTEM.
Definition ledger_step (marker : Z) (l : PhysicalModifierLedger) (c : hand_call) : PhysicalModifierLedger * list MacInput :=
  match c with
  | HandMoves key _ hid => let '(l, i) := mac_decode_keyboard CG_EVENT_FLAGS_CHANGED key l hid physical_source marker in (l, [i])
  | Posts t => (record_posted l t, [])
  end.
Definition hand_step (hand : Z) (c : hand_call) : Z * list MacInput :=
  match c with HandMoves _ usage _ => (toggle hand usage, [key_event usage (negb (is_down hand usage))]) | Posts _ => (hand, []) end.
Fixpoint ledger_run (marker : Z) (l : PhysicalModifierLedger) (cs : list hand_call) : list MacInput :=
  match cs with [] => [] | c :: cs => let '(l, o) := ledger_step marker l c in o ++ ledger_run marker l cs end.
Fixpoint hand_run (hand : Z) (cs : list hand_call) : list MacInput :=
  match cs with [] => [] | c :: cs => let '(h, o) := hand_step hand c in o ++ hand_run h cs end.
Fixpoint all_honest (marker : Z) (l : PhysicalModifierLedger) (hand : Z) (cs : list hand_call) : Prop :=
  match cs with [] => True | c :: cs => honest l c hand /\ all_honest marker (fst (ledger_step marker l c)) (fst (hand_step hand c)) cs end.

Lemma ledger_step_follows marker l c hand : marker <> 0 -> 0 <= hand < 256 -> l_held l = hand -> honest l c hand ->
  l_held (fst (ledger_step marker l c)) = fst (hand_step hand c) /\ snd (ledger_step marker l c) = snd (hand_step hand c)
  /\ 0 <= fst (hand_step hand c) < 256.
Proof.
  intros Hm Hh <- Hc. destruct c as [key usage hid|t]; cbn [ledger_step hand_step honest] in *.
  - destruct Hc as (Ek & bit & Eb & Ht). unfold mac_decode_keyboard, should_ignore_source. cbn [user_data state_id physical_source].
    rewrite (proj2 (Z.eqb_neq 0 marker)) by done. cbn [orb negb Z.eqb CG_EVENT_SOURCE_STATE_HID_SYSTEM CG_EVENT_FLAGS_CHANGED CG_EVENT_KEY_DOWN CG_EVENT_KEY_UP].
    rewrite Ek. rewrite (flags_changed_follows _ _ _ _ Hh Eb Ht). cbn [fst snd l_held]. split_and!; try done; by apply set_modifier_range.
  - destruct t; cbn; split_and!; done || lia.
Qed.
Lemma ledger_run_follows marker cs l hand : marker <> 0 -> 0 <= hand < 256 -> l_held l = hand -> all_honest marker l hand cs ->
  ledger_run marker l cs = hand_run hand cs.
Proof.
  intros Hm. revert l hand. induction cs as [|c cs IH]; intros l hand Hh Hl Hc; [done|]. destruct Hc as [Hc Hcs]. cbn [ledger_run hand_run].
  destruct (ledger_step_follows marker l c hand Hm Hh Hl Hc) as (E1 & E2 & E3). destruct (ledger_step marker l c), (hand_step hand c); cbn in *. subst.
  f_equal. by apply IH.
Qed.

(** ** Every event is valid, and physical *)

Lemma mac_keyboard_event et vk l hid source marker l' e : mac_decode_keyboard et vk l hid source marker = (l', MacEvent e) ->
  should_ignore_source source marker = false /\ exists usage pressed, e = EvKey usage pressed false 0 /\ mac_virtual_key_to_hid vk = Ok usage.
Proof.
  unfold mac_decode_keyboard. destruct (should_ignore_source _ _); [done|]. destruct (if et =? _ then _ else _) as [kp|]; [|done].
  destruct (mac_virtual_key_to_hid vk) as [u|]; [|by destruct kp]. destruct kp as [p|].
  - intros [= _ <-]. eauto.
  - destruct (flags_changed l u hid) as [l1 [down|]]; [intros [= _ <-]; eauto|]. destruct (u =? _); [|done]. intros [= _ <-]. eauto.
Qed.
Lemma decode_scroll_event h v c source marker e : decode_scroll h v c source marker = MacEvent e ->
  should_ignore_source source marker = false /\ event_is_valid e = true.
Proof.
  unfold decode_scroll. destruct (should_ignore_source _ _); [done|]. destruct (_ || _); [done|]. destruct (if c then _ else _) as [h' v'].
  destruct (_ || _) eqn:E; [done|]. apply orb_false_elim in E as [E1%negb_false_iff E2%negb_false_iff]. destruct (_ && _) eqn:Ez; [done|]. intros [= <-].
  cbn. rewrite E1, E2. split; [done|]. cbn. rewrite <-negb_andb, Ez. done.
Qed.
Lemma mouse_button_valid clock n p e : mouse_button clock n p = MacEvent e -> event_is_valid e = true.
Proof. unfold mouse_button, mac_button. repeat (case_match; [by intros [= <-]|]). done. Qed.
Lemma decode_pointer_event clock et f previous source marker :
  (forall e, local_absolute (decode_pointer clock et f previous source marker) = Some e \/ dp_input (decode_pointer clock et f previous source marker) = MacEvent e ->
     should_ignore_source source marker = false /\ event_is_valid e = true)
  /\ (dp_position (decode_pointer clock et f previous source marker) = previous
      \/ exists p, dp_position (decode_pointer clock et f previous source marker) = Some p /\ point_is_finite p = true).
Proof.
  unfold decode_pointer. destruct (should_ignore_source _ _); [split; [by intros e [?|?]|by left]|].
  destruct (point_is_finite (location f)) eqn:Ef; cbn [negb]; [|split; [by intros e [?|?]|by left]].
  destruct (is_pointer_motion et).
  - destruct (negb _ || negb _) eqn:E; [split; [by intros e [?|?]|by left]|]. apply orb_false_elim in E as [E1%negb_false_iff E2%negb_false_iff].
    split; [|right; eauto]. cbn [local_absolute dp_input]. intros e [[= <-]|He]; (split; [done|]).
    + unfold point_is_finite in Ef. by apply Ef.
    + destruct (_ && _) eqn:Ez; [done|]. injection He as <-. cbn. by rewrite E1, E2, <-negb_andb, Ez.
  - repeat (case_match; [split; [intros e [?|He]; [done|]; (split; [done|]); by (injection He as <- || by eapply mouse_button_valid)|right; eauto]|]).
    split; [by intros e [?|?]|by left].
Qed.
Lemma from_parts_event kind phase value g : from_parts kind phase value = Ok g -> event_is_valid (gesture_event g) = true.
Proof. intros E%from_parts_valid. unfold validate_gesture in E. cbn. by destruct (from_parts _ _ _). Qed.
Lemma decode_gesture_event f d e : dg_output (snd (decode_gesture f d)) = OutEvent e -> event_is_valid e = true.
Proof.
  unfold decode_gesture. cbv zeta. repeat case_match; cbn [snd dg_output]; try done.
  - unfold magnify in *. repeat (case_match; simplify_eq); try done; intros [= <-]; by eapply from_parts_event.
  - unfold rotate. repeat (case_match; simplify_eq); try done. intros [= <-]. by eapply from_parts_event.
  - by intros [= <-].
  - unfold force. case_match; cbn; [by intros [= <-]|done].
  - unfold dock_swipe, advance_swipe in *. repeat (case_match; simplify_eq/=); try done; by intros [= <-].
Qed.

(** C29. What a Mac captures is what the hand did.  Records that are marked or do not come
    from the HID system yield nothing; every event is valid, and a key is one that the
    Mac can inject as the same key.  And the modifiers follow the hand exactly: whatever
    the HID state reads while injected or posted copies overlap it, each report of a
    modifier is decoded as the press or the release that the hand made. *)
Theorem mac_captures_the_hand marker :
  (forall et vk l hid source l' e, mac_decode_keyboard et vk l hid source marker = (l', MacEvent e) ->
     should_ignore_source source marker = false /\ event_is_valid e = true
     /\ exists usage pressed, e = EvKey usage pressed false 0 /\ hid_to_mac_virtual_key usage = Ok vk)
  /\ (forall clock et f previous source e,
        local_absolute (decode_pointer clock et f previous source marker) = Some e
        \/ dp_input (decode_pointer clock et f previous source marker) = MacEvent e ->
        should_ignore_source source marker = false /\ event_is_valid e = true)
  /\ (forall h v c source e, decode_scroll h v c source marker = MacEvent e -> should_ignore_source source marker = false /\ event_is_valid e = true)
  /\ (forall f d e, dg_output (snd (decode_gesture f d)) = OutEvent e -> event_is_valid e = true)
  /\ (forall hand l cs, marker <> 0 -> 0 <= hand < 256 -> l_held l = hand -> all_honest marker l hand cs ->
        ledger_run marker l cs = hand_run hand cs).
Proof.
  split_and!.
  - intros et vk l hid source l' e (Hs & u & p & -> & Hu)%mac_keyboard_event. pose proof (mac_rows _ _ Hu) as Hr. split; [done|]. split.
    + by apply mac_to_windows in Hr as [? _].
    + exists u, p. split; [done|]. by apply mac_back in Hr.
  - intros clock et f previous source e. apply decode_pointer_event.
  - intros h v c source e. apply decode_scroll_event.
  - intros f d e. apply decode_gesture_event.
  - intros hand l cs. apply ledger_run_follows.
Qed.

(** ** Gestures that fire *)

Definition is_dock (f : GestureFields) : bool := negb (event_type f =? CG_EVENT_GESTURE) && (event_type f =? CG_EVENT_DOCK_CONTROL) && (hid_type f =? HID_DOCK_SWIPE).
(** The record begins a swipe. *)
Definition begins_swipe (d : GestureDecoder) (f : GestureFields) : bool :=
  is_dock f && match native_phase (phase f) with Some (GestureIn p) => starts_swipe d p && known_motion (motion f) | _ => false end.
Definition fires_system (o : GestureOutput) : bool := match o with OutEvent (EvSystemGesture _) => true | _ => false end.
(** How many swipes began and how many system gestures fired. *)
Fixpoint swipe_counts (d : GestureDecoder) (fs : list GestureFields) : nat * nat :=
  match fs with
  | [] => (0, 0)%nat
  | f :: fs =>
      let '(d', o) := decode_gesture f d in
      let '(began, fired) := swipe_counts d' fs in
      ((Nat.b2n (begins_swipe d f) + began)%nat, (Nat.b2n (fires_system (dg_output o)) + fired)%nat)
  end.
(** A swipe that may still fire. *)
Definition armed_swipe (d : GestureDecoder) : nat := match d_swipe d with Some s => if bool_decide (sw_fired s = None) then 1 else 0 | None => 0 end.

Lemma advance_swipe_armed d f p :
  (Nat.b2n (fires_system (snd (advance_swipe d f p))) + armed_swipe (fst (advance_swipe d f p)) <= armed_swipe d)%nat.
Proof.
  unfold advance_swipe, armed_swipe. destruct (d_swipe d) as [s|] eqn:Es; [|cbn; rewrite Es; lia].
  change (sw_fired (observe_swipe s f (phase_is_terminal p))) with (sw_fired s). destruct (bool_decide (sw_fired s = None)) eqn:Eb; cbn [andb].
  - apply bool_decide_eq_true in Eb. destruct (commits _ _); destruct (terminal_end p); cbn; rewrite ?Eb; cbn; lia.
  - apply bool_decide_eq_false in Eb. destruct (terminal_end p); cbn; [lia|]. rewrite (bool_decide_eq_false_2 _ Eb). lia.
Qed.
Lemma magnify_quiet d f : fires_system (snd (magnify d f)) = false /\ d_swipe (fst (magnify d f)) = d_swipe d.
Proof. unfold magnify. repeat case_match; done. Qed.
Lemma force_quiet d f : fires_system (dg_output (snd (force d f))) = false /\ armed_swipe (fst (force d f)) = armed_swipe d.
Proof. unfold force, armed_swipe. destruct (_ && _); [done|]. cbv zeta. by destruct (_ || _). Qed.
Lemma decode_gesture_armed f d :
  (Nat.b2n (fires_system (dg_output (snd (decode_gesture f d)))) + armed_swipe (fst (decode_gesture f d))
   <= Nat.b2n (begins_swipe d f) + armed_swipe d)%nat.
Proof.
  unfold decode_gesture, begins_swipe, is_dock. cbv zeta. destruct (event_type f =? CG_EVENT_GESTURE); cbn [negb andb].
  - destruct (hid_type f =? HID_TOUCH_STARTED); [cbn; lia|]. destruct (hid_type f =? HID_TOUCH_ENDED); [cbn; lia|].
    destruct (hid_type f =? HID_SCROLL); [cbn; lia|]. destruct (hid_type f =? HID_ZOOM).
    { destruct (magnify_quiet d f) as [E1 E2]. destruct (magnify d f) as [d' o]. cbn in *. unfold armed_swipe. rewrite E1, E2. cbn. lia. }
    destruct (hid_type f =? HID_ROTATION); [unfold rotate; repeat case_match; cbn; lia|]. destruct (hid_type f =? HID_ZOOM_TOGGLE); [cbn; lia|].
    destruct (hid_type f =? HID_FORCE); [|cbn; lia]. by destruct (force_quiet d f) as [-> ->].
  - destruct (_ && _); [|cbn; lia]. unfold dock_swipe. destruct (native_phase (phase f)) as [[|p]|]; try (cbn; lia).
    destruct (starts_swipe d p); cbn [andb].
    + destruct (known_motion (motion f)); cbn [negb]; [|cbn; lia]. pose proof (advance_swipe_armed (open_swipe d (motion f)) f p) as H.
      destruct (advance_swipe _ _ _). cbn in *. lia.
    + pose proof (advance_swipe_armed d f p) as H. destruct (advance_swipe _ _ _). cbn in *. lia.
Qed.
Lemma swipe_counts_bound fs d : (snd (swipe_counts d fs) <= fst (swipe_counts d fs) + armed_swipe d)%nat.
Proof.
  revert d. induction fs as [|f fs IH]; intros d; [cbn; lia|]. cbn [swipe_counts]. pose proof (decode_gesture_armed f d) as H.
  destruct (decode_gesture f d) as [d' o]. specialize (IH d'). destruct (swipe_counts d' fs). cbn in *. lia.
Qed.

(** Page swipes: what a call means for the gesture under way. *)
Inductive page_call := Scrolled (r : ScrollRecord) (now : Z) (remote enabled : bool) | RouteChanged.
Inductive page_meaning := Starts | Breaks | Keeps.
Definition meaning (c : page_call) : page_meaning :=
  match c with
  | RouteChanged => Breaks
  | Scrolled r _ remote enabled =>
      if negb remote || negb enabled || negb (f64_is_finite (s_horizontal r)) || negb (f64_is_finite (s_vertical r)) then Breaks
      else if negb (s_momentum r =? 0) || negb (s_continuous r) then Keeps
      else match native_phase (s_phase r) with
           | Some (GestureIn Began) => Starts
           | Some (GestureIn Changed) | Some MayBegin | None => Keeps
           | Some (GestureIn _) => Breaks
           end
  end.
(** The calls, the latest first, have a start with nothing broken since. *)
Fixpoint under_way (past : list page_call) : bool :=
  match past with
  | [] => false
  | c :: past => match meaning c with Starts => true | Breaks => false | Keeps => under_way past end
  end.
Definition page_step (s : PageSwipes) (c : page_call) : PageSwipes * option SystemGesture :=
  match c with Scrolled r now remote enabled => observe s r now remote enabled | RouteChanged => (interrupt s, None) end.
Fixpoint page_run (past : list page_call) : PageSwipes :=
  match past with [] => default_swipes | c :: past => fst (page_step (page_run past) c) end.
Lemma page_step_open s c : bool_decide (is_Some (ps_open (fst (page_step s c)))) =
  match meaning c with Starts => true | Breaks => false | Keeps => bool_decide (is_Some (ps_open s)) end.
Proof.
  destruct c as [r now remote enabled|]; [|done]. cbn [page_step meaning]. unfold observe. destruct (_ || _ || _ || _); [done|]. destruct (_ || _); [done|].
  destruct (native_phase (s_phase r)) as [[|p]|]; [done| |done]. destruct (if bool_decide (p = Began) then _ else _) as [w|] eqn:Ew.
  - destruct p; cbn [fst ps_open]; try done; [|by destruct (page_gesture _ _)]. rewrite (bool_decide_eq_false_2 (Changed = Began)) in Ew by done. by rewrite Ew.
  - destruct p; try done. rewrite (bool_decide_eq_false_2 (Changed = Began)) in Ew by done. by rewrite Ew.
Qed.
Lemma page_run_open past : bool_decide (is_Some (ps_open (page_run past))) = under_way past.
Proof. induction past as [|c past IH]; [done|]. cbn [page_run under_way]. rewrite page_step_open. by destruct (meaning c). Qed.
Lemma page_fires s c g : snd (page_step s c) = Some g ->
  is_Some (ps_open s) /\ exists r now, c = Scrolled r now true true /\ native_phase (s_phase r) = Some (GestureIn Ended) /\ meaning c = Breaks.
Proof.
  destruct c as [r now remote enabled|]; [|done]. cbn [page_step meaning]. unfold observe. destruct remote, enabled; cbn [negb orb]; try done.
  destruct (_ || _); [done|]. destruct (_ || _); [done|]. destruct (native_phase (s_phase r)) as [[|p]|] eqn:Ep; [done| |done].
  destruct (if bool_decide (p = Began) then _ else _) as [w|] eqn:Ew; [|done]. destruct p; try done. rewrite (bool_decide_eq_false_2 (Ended = Began)) in Ew by done.
  destruct (page_gesture _ _); [|done]. intros _. split; [by rewrite Ew|]. by exists r, now.
Qed.

(** One gesture of the fingers fires at most once.  In any sequence of gesture records
    no more system gestures fire than Dock swipes begin, and none on a cancelled one; and a
    page swipe fires only at the lift of a scroll gesture of which every record since its
    beginning went to the other computer with the switch on and the route unchanged. *)
Theorem mac_gestures_fire_once :
  (forall fs, (snd (swipe_counts default_decoder fs) <= fst (swipe_counts default_decoder fs))%nat)
  /\ (forall d f, native_phase (phase f) = Some (GestureIn Cancelled) -> fires_system (snd (dock_swipe d f)) = false)
  /\ (forall past c g, snd (page_step (page_run past) c) = Some g ->
        under_way past = true /\ under_way (c :: past) = false
        /\ exists r now, c = Scrolled r now true true /\ native_phase (s_phase r) = Some (GestureIn Ended)).
Proof.
  split_and!.
  - intros fs. pose proof (swipe_counts_bound fs default_decoder) as H. cbn in H. lia.
  - intros d f E. unfold dock_swipe. rewrite E. unfold starts_swipe, advance_swipe. cbn [phase_is_terminal negb]. rewrite andb_false_r. cbn [bool_decide orb].
    destruct (d_swipe d) as [s|]; [|done]. cbn. by rewrite andb_false_r.
  - intros past c g (Ho & r & now & -> & Ep & Em)%page_fires. split_and!; [by rewrite <-page_run_open, bool_decide_eq_true| |eauto].
    cbn [under_way]. by rewrite Em.
Qed.

(** A shift that goes down while an injected copy is held, and comes up after it. *)
Definition shift_presses : list hand_call := [HandMoves 0x38 0xe1 (mkHid true true); HandMoves 0x38 0xe1 (mkHid false false)].
Lemma mac_captures_the_hand_witness :
  ledger_run 7 default_ledger shift_presses = [key_event 0xe1 true; key_event 0xe1 false].
Proof.
  destruct (mac_captures_the_hand 7) as (_ & _ & _ & _ & H). rewrite (H 0 default_ledger shift_presses); [vm_compute; reflexivity|lia|lia|reflexivity|].
  split; [|split; [|exact I]].
  - split; [vm_compute; reflexivity|]. exists 2. split; [reflexivity|]. discriminate.
  - split; [vm_compute; reflexivity|]. exists 2. split; [reflexivity|]. intros _ _. vm_compute. reflexivity.
Defined.
(** A Dock swipe that reaches its commit. *)
Definition dock_record (p : Z) (progress : f64) : GestureFields :=
  mkGestureFields CG_EVENT_DOCK_CONTROL HID_DOCK_SWIPE p f64_zero f64_zero MOTION_HORIZONTAL progress f64_zero f64_zero 0.
Lemma mac_gestures_fire_once_witness :
  swipe_counts default_decoder [dock_record 1 f64_zero; dock_record 2 f64_one; dock_record 2 f64_one; dock_record 4 f64_zero] = (1, 1)%nat
  /\ forall fs, (snd (swipe_counts default_decoder fs) <= fst (swipe_counts default_decoder fs))%nat.
Proof. split; [vm_compute; reflexivity|]. destruct mac_gestures_fire_once as [H _]. exact H. Defined.
