(* ===== verification/DisplayArrangement.v ===== *)
(** * One topology for a group of computers (monhop-transport/src/display_arrangement.rs)

    The displays of every member, moved to its place, with the seams the members'
    own systems report and the links the caller gives between members. *)

From stdpp Require Import gmap list.
From S2P Require Import Prelude F64 F64Arith Types Geometry Messages Topology.

Record Placed := mkPlaced { p_id : DisplayId; p_origin : Point; p_size : LogicalSize }.
Definition placed_at (d : Display) : Placed := mkPlaced (d_id d) (d_origin d) (d_logical d).

Definition edge_span (from_edge : Edge) (overlap : f64 * f64) (d : Placed) : result () NormalizedSpan :=
  let '(origin, size) := match from_edge with
                         | LeftEdge | RightEdge => (py (p_origin d), height (p_size d))
                         | TopEdge | BottomEdge => (px (p_origin d), width (p_size d))
                         end in
  map_err (fun _ => ()) (new_span (f64_div (f64_sub (fst overlap) origin) size) (f64_div (f64_sub (snd overlap) origin) size)).
Definition add_pair (links : list EdgeLink) (a b : Placed) (from_edge to_edge : Edge) (overlap : f64 * f64) : result () (list EdgeLink) :=
  from_span ← edge_span from_edge overlap a;
  to_span ← edge_span from_edge overlap b;
  l ← map_err (fun _ => ()) (new_link (p_id a) from_edge from_span (p_id b) to_edge to_span f64_one);
  l' ← map_err (fun _ => ()) (new_link (p_id b) to_edge to_span (p_id a) from_edge from_span f64_one);
  mret (links ++ [l; l']).

(** What [a] and [b] share along each axis. *)
Definition horizontal (a b : Placed) : f64 * f64 :=
  (f64_max (px (p_origin a)) (px (p_origin b)),
   f64_min (f64_add (px (p_origin a)) (width (p_size a))) (f64_add (px (p_origin b)) (width (p_size b)))).
Definition vertical (a b : Placed) : f64 * f64 :=
  (f64_max (py (p_origin a)) (py (p_origin b)),
   f64_min (f64_add (py (p_origin a)) (height (p_size a))) (f64_add (py (p_origin b)) (height (p_size b)))).
Definition proper (s : f64 * f64) : bool := f64_ltb (fst s) (snd s).

(** The body of the two loops. *)
Definition inherit_pair (hidden : list DisplayId) (seams : list EdgeLink) (da db : Display) : result () (list EdgeLink) :=
  if negb (bool_decide (d_machine da = d_machine db)) || bool_decide (d_id da ∈ hidden) || bool_decide (d_id db ∈ hidden) then Ok seams
  else
    let a := placed_at da in
    let b := placed_at db in
    let ax := f64_add (px (p_origin a)) (width (p_size a)) in
    let ay := f64_add (py (p_origin a)) (height (p_size a)) in
    let bx := f64_add (px (p_origin b)) (width (p_size b)) in
    let by_ := f64_add (py (p_origin b)) (height (p_size b)) in
    if proper (horizontal a b) && proper (vertical a b) then Err ()
    else
      seams ← (if proper (vertical a b) then
                 if f64_eqb ax (px (p_origin b)) then add_pair seams a b RightEdge LeftEdge (vertical a b)
                 else if f64_eqb bx (px (p_origin a)) then add_pair seams a b LeftEdge RightEdge (vertical a b)
                 else Ok seams
               else Ok seams);
      if proper (horizontal a b) then
        if f64_eqb ay (py (p_origin b)) then add_pair seams a b BottomEdge TopEdge (horizontal a b)
        else if f64_eqb by_ (py (p_origin a)) then add_pair seams a b TopEdge BottomEdge (horizontal a b)
        else Ok seams
      else Ok seams.
Fixpoint inherit_from (hidden : list DisplayId) (seams : list EdgeLink) (a : Display) (rest : list Display) : result () (list EdgeLink) :=
  match rest with [] => Ok seams | b :: rest => seams ← inherit_pair hidden seams a b; inherit_from hidden seams a rest end.
Fixpoint inherit_all (hidden : list DisplayId) (seams : list EdgeLink) (displays : list Display) : result () (list EdgeLink) :=
  match displays with [] => Ok seams | a :: rest => seams ← inherit_from hidden seams a rest; inherit_all hidden seams rest end.

Definition find_display (displays : list Display) (id : DisplayId) : option Display := snd <$> list_find (fun d => d_id d = id) displays.
(** The first loop: every seam given joins two computers. *)
Fixpoint check_seams (displays : list Display) (seams : list EdgeLink) : result () () :=
  match seams with
  | [] => Ok ()
  | s :: seams =>
      from ← ok_or () (find_display displays (from_display s));
      to ← ok_or () (find_display displays (to_display s));
      if bool_decide (d_machine from = d_machine to) then Err () else check_seams displays seams
  end.
Definition inherit_display_edges (displays : list Display) (seams : list EdgeLink) (hidden : list DisplayId) : result () (list EdgeLink) :=
  _ ← check_seams displays seams; inherit_all hidden seams displays.

(** ** The group *)

Record MemberBlock := mkBlock { b_device : DeviceId; b_platform : Platform; b_displays : list DisplayDescription; b_offset : Point }.
Inductive GroupTopologyError := TooManyLinks | NonFiniteOffset | UnknownHiddenDisplay | Layout.
Definition MAX_GROUP_LINKS : nat := 64.

Definition block_display (hidden : list DisplayId) (b : MemberBlock) (d : DisplayDescription) : Display :=
  Topology.mkDisplay (display_id d) (b_device b) (display_name d) (mkNative (native_width d) (native_height d))
    (mkSize (px (logical_size d)) (py (logical_size d)))
    (mkPoint (f64_add (px (logical_origin d)) (px (b_offset b))) (f64_add (py (logical_origin d)) (py (b_offset b))))
    (f64_of_f32 (scale_factor d)) None (is_primary d) None (negb (bool_decide (display_id d ∈ hidden))).
Definition group_displays (hidden : list DisplayId) (blocks : list MemberBlock) : list Display :=
  concat ((fun b => block_display hidden b <$> b_displays b) <$> blocks).
Definition group_topology (blocks : list MemberBlock) (links : list EdgeLink) (hidden : list DisplayId) : result GroupTopologyError Topology :=
  if (MAX_GROUP_LINKS <? length links)%nat then Err TooManyLinks
  else if existsb (fun b => negb (point_is_finite (b_offset b))) blocks then Err NonFiniteOffset
  else
    let displays := group_displays hidden blocks in
    if existsb (fun id => negb (existsb (fun d => d_id d =? id) displays)) hidden then Err UnknownHiddenDisplay
    else
      links ← map_err (fun _ => Layout) (inherit_display_edges displays links hidden);
      if (MAX_GROUP_LINKS <? length links)%nat then Err TooManyLinks
      else map_err (fun _ => Layout) (new_topology ((fun b => mkMachine (b_device b) (b_platform b)) <$> blocks) displays links).

(** ** What is inherited *)

Definition flip (l : EdgeLink) : EdgeLink :=
  mkLink (to_display l) (to_edge l) (to_span l) (from_display l) (from_edge l) (from_span l) (hysteresis l).
(** Edge [e] of display [a] lies on edge [e'] of [b], over a proper stretch. *)
Definition touches (a b : Display) (e e' : Edge) : Prop :=
  match e, e' with
  | RightEdge, LeftEdge => f64_eqb (max_x (bounds a)) (px (d_origin b)) = true /\ proper (vertical (placed_at a) (placed_at b)) = true
  | LeftEdge, RightEdge => f64_eqb (max_x (bounds b)) (px (d_origin a)) = true /\ proper (vertical (placed_at a) (placed_at b)) = true
  | BottomEdge, TopEdge => f64_eqb (max_y (bounds a)) (py (d_origin b)) = true /\ proper (horizontal (placed_at a) (placed_at b)) = true
  | TopEdge, BottomEdge => f64_eqb (max_y (bounds b)) (py (d_origin a)) = true /\ proper (horizontal (placed_at a) (placed_at b)) = true
  | _, _ => False
  end.
(** The stretch two displays share along the axis of edge [e], and the part of an edge of
    display [d] it is: its ends as fractions of the edge's length. *)
Definition stretch (e : Edge) (a b : Display) : f64 * f64 :=
  match e with
  | LeftEdge | RightEdge => (f64_max (py (d_origin a)) (py (d_origin b)), f64_min (max_y (bounds a)) (max_y (bounds b)))
  | TopEdge | BottomEdge => (f64_max (px (d_origin a)) (px (d_origin b)), f64_min (max_x (bounds a)) (max_x (bounds b)))
  end.
Definition fraction (e : Edge) (d : Display) (x : f64) : f64 :=
  match e with
  | LeftEdge | RightEdge => f64_div (f64_sub x (py (d_origin d))) (height (d_logical d))
  | TopEdge | BottomEdge => f64_div (f64_sub x (px (d_origin d))) (width (d_logical d))
  end.
Definition covers (e : Edge) (a b d : Display) (s : NormalizedSpan) : Prop :=
  span_start s = fraction e d (fst (stretch e a b)) /\ span_end s = fraction e d (snd (stretch e a b)).
(** Two displays of one computer, both in use. *)
Definition together (hidden : list DisplayId) (a b : Display) : Prop := d_machine a = d_machine b /\ d_id a ∉ hidden /\ d_id b ∉ hidden.
(** One of the two links of a seam of [a] and [b]: the edges touch, and the link joins
    exactly the stretch they share, at the least push. *)
Definition seam_link (a b : Display) (l : EdgeLink) : Prop :=
  from_display l = d_id a /\ to_display l = d_id b /\ touches a b (from_edge l) (to_edge l)
  /\ covers (from_edge l) a b a (from_span l) /\ covers (from_edge l) a b b (to_span l) /\ hysteresis l = f64_one.
Definition own_seam (hidden : list DisplayId) (a b : Display) (l : EdgeLink) : Prop :=
  together hidden a b /\ (seam_link a b l \/ seam_link a b (flip l)).
(** Area a display has, so that no two displays lie on both sides of each other. *)
Definition has_area (d : Display) : Prop :=
  f64_ltb (px (d_origin d)) (max_x (bounds d)) = true /\ f64_ltb (py (d_origin d)) (max_y (bounds d)) = true.
(** What the pair [a], [b] adds. *)
Record PairLinks (hidden : list DisplayId) (a b : Display) (l : list EdgeLink) : Prop := {
  pair_own : forall x, x ∈ l -> own_seam hidden a b x /\ flip x ∈ l;
  pair_disjoint : together hidden a b ->
    (proper (horizontal (placed_at a) (placed_at b)) && proper (vertical (placed_at a) (placed_at b))) = false;
  pair_owed : together hidden a b -> has_area a -> has_area b -> forall e e', touches a b e e' ->
    exists x, x ∈ l /\ seam_link a b x /\ from_edge x = e /\ to_edge x = e' }.

(** The two links of one edge. *)
Definition edge_links (a b : Display) (e e' : Edge) (l : list EdgeLink) : Prop :=
  exists s s', l = [mkLink (d_id a) e s (d_id b) e' s' f64_one; mkLink (d_id b) e' s' (d_id a) e s f64_one]
    /\ covers e a b a s /\ covers e a b b s'.
Lemma edge_span_covers e a b d s : edge_span e (stretch e a b) (placed_at d) = Ok s -> covers e a b d s.
Proof.
  assert (forall x y, map_err (fun _ => ()) (new_span x y) = Ok s -> span_start s = x /\ span_end s = y) as Hs.
  { intros x y H%map_err_Ok. unfold new_span in H. destruct (_ || _) in H; [discriminate H|]. by injection H as <-. }
  unfold covers, fraction, edge_span. destruct e; cbn beta iota zeta; intros H; apply Hs in H; exact H.
Qed.
Lemma add_pair_spec links a b e e' o links' : add_pair links (placed_at a) (placed_at b) e e' o = Ok links' ->
  o = stretch e a b -> exists new, links' = links ++ new /\ edge_links a b e e' new.
Proof.
  intros E ->. unfold add_pair in E. apply result_bind_Ok in E as (s & Hs & E). apply result_bind_Ok in E as (s' & Hs' & E).
  apply result_bind_Ok in E as (l & El & E). apply result_bind_Ok in E as (l' & El' & [= <-]).
  apply map_err_Ok, result_bind_Ok in El as (? & _ & [= <-]). apply map_err_Ok, result_bind_Ok in El' as (? & _ & [= <-]).
  eexists. split; [done|]. exists s, s'. by split_and!; [|apply edge_span_covers..].
Qed.
Lemma edge_links_own hidden a b e e' l : edge_links a b e e' l -> together hidden a b -> touches a b e e' ->
  forall x, x ∈ l -> own_seam hidden a b x /\ flip x ∈ l.
Proof.
  intros (s & s' & -> & C1 & C2) Hg Ht x [->|[->|[]%elem_of_nil]%elem_of_cons]%elem_of_cons; (split; [split; [done|]|unfold flip; cbn; set_solver]).
  - left. by split_and!.
  - right. by split_and!.
Qed.
Lemma edge_links_owed a b e e' l : edge_links a b e e' l -> touches a b e e' -> exists x, x ∈ l /\ seam_link a b x /\ from_edge x = e /\ to_edge x = e'.
Proof. intros (s & s' & -> & C1 & C2) Ht. eexists. split; [apply list_elem_of_here|]. by split_and!. Qed.

Lemma not_both_sides p q m n : f64_ltb p m = true -> f64_ltb q n = true -> f64_eqb m q = true -> f64_eqb n p = true -> False.
Proof. intros [??]%f64_ltb_inv [??]%f64_ltb_inv. unfold f64_eqb. intros. bool_inv. lia. Qed.
Lemma axis_spec seams a b (c c' : bool) e e' o seams' :
  (if c then add_pair seams (placed_at a) (placed_at b) e e' o
   else if c' then add_pair seams (placed_at a) (placed_at b) e' e o else Ok seams) = Ok seams' ->
  o = stretch e a b -> o = stretch e' a b ->
  exists new, seams' = seams ++ new
    /\ ((c = true /\ edge_links a b e e' new) \/ (c = false /\ c' = true /\ edge_links a b e' e new) \/ (c = false /\ c' = false /\ new = [])).
Proof.
  destruct c; [|destruct c'].
  - intros E Ho _. destruct (add_pair_spec _ _ _ _ _ _ _ E Ho) as (new & -> & Hn). exists new. split; [done|]. by left.
  - intros E _ Ho. destruct (add_pair_spec _ _ _ _ _ _ _ E Ho) as (new & -> & Hn). exists new. split; [done|]. right; left. by split_and!.
  - intros [= <-] _ _. exists []. rewrite app_nil_r. tauto.
Qed.
(** The links of one axis are all the pair adds. *)
Lemma axis_pair hidden a b (c c' v : bool) e e' new :
  together hidden a b ->
  (proper (horizontal (placed_at a) (placed_at b)) && proper (vertical (placed_at a) (placed_at b))) = false ->
  (c = true -> touches a b e e') -> (c' = true -> touches a b e' e) ->
  (has_area a -> has_area b -> c = true -> c' = true -> False) ->
  (forall f f', touches a b f f' -> (f = e /\ f' = e' /\ c = true) \/ (f = e' /\ f' = e /\ c' = true)) ->
  ((c = true /\ edge_links a b e e' new) \/ (c = false /\ c' = true /\ edge_links a b e' e new) \/ (c = false /\ c' = false /\ new = [])) ->
  PairLinks hidden a b new.
Proof.
  intros Hg Hp Hc Hc' Hx Hall Hn. split; [|done|].
  - destruct Hn as [[Ec Hl]|[(_ & Ec & Hl)|(_ & _ & ->)]]; [by eapply edge_links_own; eauto|by eapply edge_links_own; eauto|by intros x []%elem_of_nil].
  - intros _ Ha Hb f f' Ht. destruct (Hall f f' Ht) as [(-> & -> & Ec)|(-> & -> & Ec)].
    + destruct Hn as [[_ Hl]|[(? & _)|(? & _)]]; [|congruence|congruence]. by apply edge_links_owed.
    + destruct Hn as [[Ec2 _]|[(_ & _ & Hl)|(_ & ? & _)]]; [exfalso; eauto|by apply edge_links_owed|congruence].
Qed.
Lemma inherit_pair_spec hidden seams a b seams' : inherit_pair hidden seams a b = Ok seams' ->
  exists new, seams' = seams ++ new /\ PairLinks hidden a b new.
Proof.
  unfold inherit_pair. destruct (negb _ || _ || _) eqn:Eg.
  { intros [= <-]. exists []. rewrite app_nil_r. split; [done|]. assert (together hidden a b -> False) as Hf.
    { intros (E1 & E2 & E3). apply not_false_iff_true in Eg. apply Eg. by rewrite (bool_decide_eq_true_2 _ E1), (bool_decide_eq_false_2 _ E2), (bool_decide_eq_false_2 _ E3). }
    split; [by intros x []%elem_of_nil| |]; intros Hg; by destruct (Hf Hg). }
  apply orb_false_elim in Eg as [[E1%negb_false_iff%bool_decide_eq_true E2%bool_decide_eq_false]%orb_false_elim E3%bool_decide_eq_false].
  assert (together hidden a b) as Hg by done. cbv zeta. destruct (_ && _) eqn:Ep; [done|]. intros E.
  apply result_bind_Ok in E as (mid & Em & E). destruct (proper (vertical _ _)) eqn:Ev.
  - rewrite andb_true_r in Ep. rewrite Ep in E. injection E as <-. apply axis_spec in Em as (new & -> & Hn); [|done..]. exists new. split; [done|].
    eapply (axis_pair hidden a b _ _ true RightEdge LeftEdge); try exact Hn; try done.
    + by rewrite Ep.
    + intros [Ha _] [Hb _] H1 H2. by eapply not_both_sides; [exact Ha|exact Hb| |].
    + intros [] []; cbn; try done; rewrite ?Ep; tauto || (intros [_ ?]; done).
  - injection Em as <-. destruct (proper (horizontal _ _)) eqn:Eh.
    + apply axis_spec in E as (new & -> & Hn); [|done..]. exists new. split; [done|].
      eapply (axis_pair hidden a b _ _ true BottomEdge TopEdge); try exact Hn; try done.
      * by rewrite Eh, Ev.
      * intros [_ Ha] [_ Hb] H1 H2. by eapply not_both_sides; [exact Ha|exact Hb| |].
      * intros [] []; cbn; try done; rewrite ?Ev; tauto || (intros [_ ?]; done).
    + injection E as <-. exists []. rewrite app_nil_r. split; [done|]. split; [by intros x []%elem_of_nil|by rewrite Eh|].
      intros _ _ _ e e' Ht. exfalso. destruct e, e'; cbn in Ht; rewrite ?Ev, ?Eh in Ht; naive_solver.
Qed.

(** ** All pairs *)

Definition ordered (ds : list Display) (a b : Display) : Prop := exists pre rest, ds = pre ++ a :: rest /\ b ∈ rest.
Lemma inherit_from_spec hidden a rest seams seams' : inherit_from hidden seams a rest = Ok seams' ->
  exists new, seams' = seams ++ new
    /\ (forall x, x ∈ new -> flip x ∈ new /\ exists b, b ∈ rest /\ own_seam hidden a b x)
    /\ (forall b, b ∈ rest -> exists part, part ⊆ new /\ PairLinks hidden a b part).
Proof.
  revert seams. induction rest as [|b rest IH]; intros seams E; cbn [inherit_from] in E.
  { injection E as <-. exists []. rewrite app_nil_r. split_and!; [done|by intros x []%elem_of_nil|by intros b []%elem_of_nil]. }
  apply result_bind_Ok in E as (mid & (part & -> & HP)%inherit_pair_spec & E). destruct (IH _ E) as (new & -> & H1 & H2).
  exists (part ++ new). split; [by rewrite app_assoc|]. split.
  - intros x [Hx|Hx]%elem_of_app.
    + destruct (pair_own _ _ _ _ HP x Hx) as [Ho Hf]. split; [apply elem_of_app; by left|]. exists b. split; [apply list_elem_of_here|done].
    + destruct (H1 x Hx) as (Hf & b' & Hb' & Ho). split; [apply elem_of_app; by right|]. exists b'. split; [by apply list_elem_of_further|done].
  - intros b' [->|Hb']%elem_of_cons; [exists part; split; [set_solver|done]|]. destruct (H2 b' Hb') as (p & Hp & HL). exists p. split; [set_solver|done].
Qed.
Lemma inherit_all_spec hidden ds seams seams' : inherit_all hidden seams ds = Ok seams' ->
  exists new, seams' = seams ++ new
    /\ (forall x, x ∈ new -> flip x ∈ new /\ exists a b, ordered ds a b /\ own_seam hidden a b x)
    /\ (forall a b, ordered ds a b -> exists part, part ⊆ new /\ PairLinks hidden a b part).
Proof.
  revert seams. induction ds as [|d ds IH]; intros seams E; cbn [inherit_all] in E.
  { injection E as <-. exists []. rewrite app_nil_r. split_and!; [done|by intros x []%elem_of_nil|]. by intros a b ([] & rest & [=] & _). }
  apply result_bind_Ok in E as (mid & (part & -> & P1 & P2)%inherit_from_spec & E). destruct (IH _ E) as (new & -> & H1 & H2).
  exists (part ++ new). split; [by rewrite app_assoc|]. split.
  - intros x [Hx|Hx]%elem_of_app.
    + destruct (P1 x Hx) as (Hf & b & Hb & Ho). split; [apply elem_of_app; by left|]. exists d, b. split; [by exists [], ds|done].
    + destruct (H1 x Hx) as (Hf & a & b & (pre & rest & -> & Hb) & Ho). split; [apply elem_of_app; by right|]. exists a, b.
      split; [by exists (d :: pre), rest|done].
  - intros a b ([|d' pre] & rest & Hd & Hb); injection Hd as -> ->.
    + destruct (P2 b Hb) as (p & Hp & HL). exists p. split; [set_solver|done].
    + destruct (H2 a b) as (p & Hp & HL); [by exists pre, rest|]. exists p. split; [set_solver|done].
Qed.
Lemma check_seams_spec ds seams : check_seams ds seams = Ok () -> forall l, l ∈ seams ->
  exists a b, a ∈ ds /\ b ∈ ds /\ d_id a = from_display l /\ d_id b = to_display l /\ d_machine a <> d_machine b.
Proof.
  induction seams as [|s seams IH]; cbn [check_seams]; intros E l; [by intros []%elem_of_nil|].
  apply result_bind_Ok in E as (a & Ha%ok_or_Ok & E). apply result_bind_Ok in E as (b & Hb%ok_or_Ok & E). case_bool_decide as Hm; [done|].
  intros [->|Hl]%elem_of_cons; [|by apply IH]. apply fmap_Some in Ha as ([i a'] & (Hi & Ei & _)%list_find_Some & ->).
  apply fmap_Some in Hb as ([j b'] & (Hj & Ej & _)%list_find_Some & ->). apply list_elem_of_lookup_2 in Hi, Hj. exists a', b'. by split_and!.
Qed.
Lemma ordered_elem ds a b : ordered ds a b -> a ∈ ds /\ b ∈ ds.
Proof. intros (pre & rest & -> & Hb). split; apply elem_of_app; right; [apply list_elem_of_here|by apply list_elem_of_further]. Qed.
Lemma valid_has_area d : validate_display d = Ok () -> has_area d.
Proof.
  unfold validate_display, point_is_finite, has_area. intros Hv. result_inv. bool_inv.
  rewrite !f64_ltb_spec by (by apply f64_finite_not_nan).
  rewrite (f64_leb_spec (max_x (bounds d)) (px (d_origin d))) in * by (by apply f64_finite_not_nan).
  rewrite (f64_leb_spec (max_y (bounds d)) (py (d_origin d))) in * by (by apply f64_finite_not_nan).
  split; apply Z.ltb_lt; bool_inv; lia.
Qed.

(** C31. A group's topology is the links given between its computers and, besides them,
    exactly the seams of each computer's own displays in use: two of them that touch along
    an edge are joined there, both ways and over exactly the stretch their edges share,
    as a fraction of each edge; nothing else is joined; and no two displays of one
    computer overlap.  Without that no topology is built. *)
Theorem group_inherits_its_seams blocks given hidden t : group_topology blocks given hidden = Ok t ->
  let ds := group_displays hidden blocks in
  exists inherited, links t = given ++ inherited /\ (length (links t) <= 64)%nat
  /\ (forall l, l ∈ given -> exists a b, a ∈ ds /\ b ∈ ds /\ d_id a = from_display l /\ d_id b = to_display l /\ d_machine a <> d_machine b)
  /\ (forall l, l ∈ inherited -> flip l ∈ inherited /\ exists a b, ordered ds a b /\ own_seam hidden a b l)
  /\ (forall a b, ordered ds a b -> together hidden a b ->
       (proper (horizontal (placed_at a) (placed_at b)) && proper (vertical (placed_at a) (placed_at b))) = false
       /\ forall e e', touches a b e e' -> exists l, l ∈ inherited /\ seam_link a b l /\ from_edge l = e /\ to_edge l = e').
Proof.
  unfold group_topology. destruct (_ <? _)%nat; [done|]. destruct (existsb _ blocks); [done|]. cbv zeta. set (ds := group_displays hidden blocks).
  destruct (existsb _ hidden); [done|]. intros E. apply result_bind_Ok in E as (ls & El%map_err_Ok & E). destruct (_ <? _)%nat eqn:Eb; [done|].
  apply Nat.ltb_ge in Eb. apply map_err_Ok, new_topology_iff in E as [(_ & _ & _ & HV & _) ->]. cbn [links].
  apply result_bind_Ok in El as ([] & Hs & (inherited & -> & H1 & H2)%inherit_all_spec). exists inherited. split_and!; try done.
  - by apply check_seams_spec.
  - intros a b Ho Hg. destruct (H2 a b Ho) as (part & Hp & HL). split; [by apply (pair_disjoint _ _ _ _ HL)|]. intros e e' Ht.
    destruct (ordered_elem _ _ _ Ho) as [Ha Hb]. destruct (pair_owed _ _ _ _ HL Hg (valid_has_area _ (proj1 (HV _ Ha))) (valid_has_area _ (proj1 (HV _ Hb))) _ _ Ht)
      as (x & Hx & Hl). exists x. split; [by apply Hp|done].
Qed.

(** A computer with a tall display beside a small one, and a computer with one display. *)
Definition f64_half : f64 := 0x3FE0000000000000.
Definition f64_100 : f64 := 0x4059000000000000.
Definition f64_200 : f64 := 0x4069000000000000.
Definition plain_display (id x h : Z) (primary : bool) : DisplayDescription :=
  Messages.mkDisplay id [65] 100 100 (mkPoint x f64_zero) (mkPoint f64_100 h) 0x3F800000 primary None.
Definition tall_display : DisplayDescription := plain_display 1 f64_zero f64_200 true.
Definition small_display : DisplayDescription := plain_display 2 f64_100 f64_100 false.
Definition sample_blocks : list MemberBlock :=
  [mkBlock (replicate 16 1) Windows [tall_display; small_display] (mkPoint f64_zero f64_zero);
   mkBlock (replicate 16 2) MacOs [plain_display 3 f64_zero f64_100 true] (mkPoint f64_zero f64_zero)].
Lemma group_inherits_its_seams_witness : exists t, group_topology sample_blocks [] [] = Ok t
  /\ exists l, l ∈ links t /\ from_display l = 1 /\ from_edge l = RightEdge /\ to_display l = 2
    /\ from_span l = mkSpan f64_zero f64_half /\ to_span l = mkSpan f64_zero f64_one.
Proof.
  destruct (group_topology sample_blocks [] []) as [t|e] eqn:E; [|vm_compute in E; discriminate E].
  exists t. split; [reflexivity|]. destruct (group_inherits_its_seams sample_blocks [] [] t E) as (inherited & El & _ & _ & _ & H).
  destruct (H (block_display [] (mkBlock (replicate 16 1) Windows [] (mkPoint f64_zero f64_zero)) tall_display)
              (block_display [] (mkBlock (replicate 16 1) Windows [] (mkPoint f64_zero f64_zero)) small_display)) as [_ Ht].
  - exists [], [block_display [] (mkBlock (replicate 16 1) Windows [] (mkPoint f64_zero f64_zero)) small_display;
      block_display [] (mkBlock (replicate 16 2) MacOs [] (mkPoint f64_zero f64_zero)) (plain_display 3 f64_zero f64_100 true)].
    split; [vm_compute; reflexivity|apply list_elem_of_here].
  - split; [reflexivity|]. split; intros []%elem_of_nil.
  - destruct (Ht RightEdge LeftEdge) as (l & Hl & (H1 & H2 & _ & H4 & H5 & _) & H3 & _); [vm_compute; split; reflexivity|].
    exists l. rewrite El, H3 in *. split; [exact Hl|]. split; [exact H1|]. split; [reflexivity|]. split; [exact H2|].
    destruct (from_span l) as [s1 e1]. destruct (to_span l) as [s2 e2]. destruct H4 as [E1 E2]. destruct H5 as [E3 E4].
    cbn [span_start span_end] in *. rewrite E1, E2, E3, E4. split; vm_compute; reflexivity.
Defined.
