(* ===== verification/Handshake.v ===== *)
(** * The session handshake (monhop-transport/src/session_handshake.rs)

    Each end of an authenticated connection writes three frames and judges the
    other's three.  The SHA-256 of a certificate is a parameter; of the connection
    the model takes what the handshake asks it for: the certificates the peer
    presented, the exported keying material, and its two streams. *)

From stdpp Require Import gmap list.
From S2P Require Import Prelude F64 Types Geometry Wire Messages Codec SessionWire.

Definition HANDSHAKE_FRAME_COUNT : nat := 3.

Inductive HandshakeError :=
| InvalidConfiguration | HsTimedOut | HsStream | PeerIdentityUnavailable | PeerCertificateMismatch | EpochDerivation
| HsInvalidFrame | HsUnexpectedFrame | PeerHelloMismatch | ControlMismatch | PurposeMismatch | AgreementMismatch.
#[global] Instance HandshakeError_eq_dec : EqDecision HandshakeError.
Proof. solve_decision. Defined.

(** The 32 bytes of a fingerprint, and [device_id_from_fingerprint]. *)
Notation Fingerprint := (list Z) (only parsing).
Definition is_fingerprint (f : Fingerprint) : Prop := length f = 32%nat /\ bytes f.
Definition device_id_from_fingerprint (f : Fingerprint) : DeviceId := take 16 f.

(** ** Configuration *)

(** The identity and the pin are used for their fingerprints alone. *)
Record HandshakeConfig := mkHandshakeConfig {
  hs_local_identity : Fingerprint; hs_expected_peer : Fingerprint;
  hs_local_platform : Platform; hs_expected_peer_platform : Platform;
  hs_local_capabilities : Z; hs_expected_peer_capabilities : Z;
  hs_local_topology : list DisplayDescription; hs_control : ControlPermissions; hs_purpose : SessionPurpose;
  hs_agreement : list Z }.
Definition hs_local_device_id (c : HandshakeConfig) : DeviceId := device_id_from_fingerprint (hs_local_identity c).
Definition expected_peer_device_id (c : HandshakeConfig) : DeviceId := device_id_from_fingerprint (hs_expected_peer c).
Definition validate_config (c : HandshakeConfig) : result HandshakeError () :=
  _ ← ok_or InvalidConfiguration (capabilities (hs_local_capabilities c));
  _ ← ok_or InvalidConfiguration (capabilities (hs_expected_peer_capabilities c));
  _ ← map_err (fun _ => InvalidConfiguration) (new_topology (hs_local_topology c));
  if bool_decide (hs_local_device_id c = expected_peer_device_id c)
     || negb (is_ok (control_from_wire (control_to_wire (hs_control c))))
     || (bool_decide (hs_purpose c = Setup) && negb (bool_decide (hs_control c = control_both)))
  then Err InvalidConfiguration else Ok ().
Definition new_handshake_config (local peer : Fingerprint) (local_platform peer_platform : Platform) (local_caps peer_caps : Z)
    (topology : list DisplayDescription) (control : ControlPermissions) (purpose : SessionPurpose) : result HandshakeError HandshakeConfig :=
  let config := mkHandshakeConfig local peer local_platform peer_platform local_caps peer_caps topology control purpose (replicate 32 0) in
  _ ← validate_config config; Ok config.
Definition with_agreement (c : HandshakeConfig) (agreement : list Z) : HandshakeConfig :=
  mkHandshakeConfig (hs_local_identity c) (hs_expected_peer c) (hs_local_platform c) (hs_expected_peer_platform c)
    (hs_local_capabilities c) (hs_expected_peer_capabilities c) (hs_local_topology c) (hs_control c) (hs_purpose c) agreement.

(** ** The peer's proposal *)

Record NegotiatedPeer := mkNegotiatedPeer {
  np_device_id : DeviceId; np_platform : Platform; np_capabilities : Z; np_topology : list DisplayDescription }.

(** The loop over the three frames, from the sequence [k]. *)
Fixpoint check_handshake_frames (epoch_ : Z) (k : Z) (frames : list Frame) : result HandshakeError () :=
  match frames with
  | [] => Ok ()
  | f :: frames =>
      if negb (bool_decide (scope f = Connection)) || negb (epoch f =? epoch_) || negb (sequence f =? k) then Err HsInvalidFrame
      else if negb (bool_decide (delivery (message f) = Reliable)) then Err HsUnexpectedFrame
      else check_handshake_frames epoch_ (k + 1) frames
  end.
Definition validate_peer_handshake (c : HandshakeConfig) (observed_peer : Fingerprint) (epoch_ : Z) (f0 f1 f2 : Frame)
  : result HandshakeError NegotiatedPeer :=
  if negb (bool_decide (observed_peer = hs_expected_peer c)) then Err PeerCertificateMismatch
  else
    _ ← check_handshake_frames epoch_ 0 [f0; f1; f2];
    match message f0 with
    | MsgHello hello =>
        if negb (protocol_version hello =? PROTOCOL_VERSION) || negb (bool_decide (device_id hello = expected_peer_device_id c))
           || negb (bool_decide (platform hello = hs_expected_peer_platform c))
           || negb (hello_capabilities hello =? hs_expected_peer_capabilities c)
        then Err PeerHelloMismatch
        else match message f1 with
             | MsgDisplayTopology ds =>
                 topology ← map_err (fun _ => HsInvalidFrame) (new_topology ds);
                 match message f2 with
                 | MsgSessionSetup purpose control =>
                     if negb (bool_decide (purpose = hs_purpose c)) then Err PurposeMismatch
                     else if bool_decide (hs_purpose c = Share) && negb (bool_decide (agreement hello = hs_agreement c))
                     then Err AgreementMismatch
                     else if negb (bool_decide (control = hs_control c)) then Err ControlMismatch
                     else Ok (mkNegotiatedPeer (device_id hello) (platform hello) (hello_capabilities hello) topology)
                 | _ => Err HsUnexpectedFrame
                 end
             | _ => Err HsUnexpectedFrame
             end
    | _ => Err HsUnexpectedFrame
    end.
Definition map_wire_error (e : SessionWireError) : HandshakeError :=
  match e with
  | WireUnsupportedVersion => PeerHelloMismatch
  | WireInvalidFrame | WireTooLarge | WireTruncated => HsInvalidFrame
  | WireClosed | WireIo | WireTimedOut | WireTerminal => HsStream
  end.

(** ** Negotiation *)

(** The frames this end writes. *)
Definition proposal (c : HandshakeConfig) (epoch_ : Z) : list Frame :=
  [mkFrame epoch_ 0 (MsgHello (mkHello (hs_local_device_id c) (hs_local_platform c) PROTOCOL_VERSION (hs_local_capabilities c)
                                       (hs_agreement c))) Connection;
   mkFrame epoch_ 1 (MsgDisplayTopology (hs_local_topology c)) Connection;
   mkFrame epoch_ 2 (MsgSessionSetup (hs_purpose c) (hs_control c)) Connection].

(** What the handshake asks of an authenticated connection.  [None]: the peer's
    identity is missing or not a list of certificates; the export failed. *)
Record Conn := mkConn { cn_identity : option (list (list Z)); cn_export : option (list Z) }.
(** What becomes of its stream operations: whether its own stream opens and the
    peer's is accepted, the error of each write, and the reads that return. *)
Record StreamIo := mkStreamIo {
  io_opens : bool; io_writes : list (option SessionWireError); io_accepts : bool; io_reads : list (option nat) }.

Section Negotiate.
Context (sha256 : list Z -> Fingerprint).

Definition observed_peer_fingerprint (conn : Conn) : result HandshakeError Fingerprint :=
  certificates ← ok_or PeerIdentityUnavailable (cn_identity conn);
  match certificates with [certificate] => Ok (sha256 certificate) | _ => Err PeerIdentityUnavailable end.
(** [u64::from_be_bytes] of the eight exported bytes. *)
Definition derive_epoch (conn : Conn) : result HandshakeError Z :=
  bs ← ok_or EpochDerivation (cn_export conn);
  epoch_ ← ok_or EpochDerivation (session_epoch (be_value bs));
  if negb (epoch_ =? u64_max) then Ok epoch_ else Err EpochDerivation.

(** The writes in turn: the bytes that went out, up to the first error. *)
Fixpoint write_proposal (fs : list Frame) (errors : list (option SessionWireError)) : list Z * result HandshakeError () :=
  match fs with
  | [] => ([], Ok ())
  | f :: fs =>
      match snd (write_frame [] f) with
      | Err e => ([], Err (map_wire_error e))
      | Ok bs =>
          match errors with
          | Some e :: _ => ([], Err (map_wire_error e))
          | _ => let '(out, r) := write_proposal fs (tail errors) in (bs ++ out, r)
          end
      end
  end.
(** [read_handshake_frames], of [n] frames; [None]: a read has not returned. *)
Fixpoint read_handshake_frames (n : nat) (r : FrameReader) (s : list Z) (reads : list (option nat))
  : FrameReader * list Z * option (result HandshakeError (list Frame)) :=
  match n with
  | O => (r, s, Some (Ok []))
  | S n =>
      match read_frame r s reads with
      | (r, s, _, None) => (r, s, None)
      | (r, s, _, Some (Err e)) => (r, s, Some (Err (map_wire_error e)))
      | (r, s, reads, Some (Ok f)) =>
          let '(r, s, fs) := read_handshake_frames n r s reads in
          (r, s, match fs with Some (Ok fs) => Some (Ok (f :: fs)) | other => other end)
      end
  end.

Record HandshakeParts := mkParts { pt_epoch : Z; pt_peer : NegotiatedPeer; pt_reader : FrameReader }.
(** What an exchange comes to: the bytes written, whether it lets the peer
    acknowledge them before it fails, and its result ([None]: it still waits). *)
Record Exchange := mkExchange { ex_sent : list Z; ex_acknowledges : bool; ex_result : option (result HandshakeError HandshakeParts) }.
Definition waits_for_ack (e : HandshakeError) : bool :=
  match e with PurposeMismatch | ControlMismatch | PeerHelloMismatch | AgreementMismatch => true | _ => false end.
(** [negotiate_inner], on the bytes [inbound] of the peer's stream. *)
Definition negotiate_inner (c : HandshakeConfig) (conn : Conn) (io : StreamIo) (inbound : list Z) : Exchange :=
  let stop e := mkExchange [] false (Some (Err e)) in
  match validate_config c with
  | Err e => stop e
  | Ok _ =>
  match observed_peer_fingerprint conn with
  | Err e => stop e
  | Ok observed_peer =>
  match derive_epoch conn with
  | Err e => stop e
  | Ok epoch_ =>
  if negb (io_opens io) then stop HsStream
  else let '(sent, w) := write_proposal (proposal c epoch_) (io_writes io) in
  match w with
  | Err e => mkExchange sent false (Some (Err e))
  | Ok () =>
  if negb (io_accepts io) then mkExchange sent false (Some (Err HsStream))
  else let '(reader, _, frames) := read_handshake_frames HANDSHAKE_FRAME_COUNT new_reader inbound (io_reads io) in
  match frames with
  | None => mkExchange sent false None
  | Some frames =>
      match (fs ← frames; match fs with [f0; f1; f2] => validate_peer_handshake c observed_peer epoch_ f0 f1 f2
                                      | _ => Err HsUnexpectedFrame end) with
      | Err e => mkExchange sent (waits_for_ack e) (Some (Err e))
      | Ok peer => mkExchange sent false (Some (Ok (mkParts epoch_ peer reader)))
      end
  end end end end end.

(** ** The session *)

Record ControlContinuation := mkControlContinuation { cc_epoch : Z; cc_next_sequence : Z }.
Inductive ContinuationError := NotHeartbeat | SequenceExhausted | EpochExhausted.
Definition next_heartbeat (c : ControlContinuation) (m : Message) : ControlContinuation * result ContinuationError Frame :=
  if negb (is_heartbeat_message m) then (c, Err NotHeartbeat)
  else if cc_next_sequence c =? u64_max then (c, Err SequenceExhausted)
  else (mkControlContinuation (cc_epoch c) (cc_next_sequence c + 1), Ok (mkFrame (cc_epoch c) (cc_next_sequence c) m Connection)).
(** [InputEpochContinuation] is its active epoch. *)
Definition begin_activation (active_epoch : Z) : Z * result ContinuationError Z :=
  if active_epoch =? u64_max then (active_epoch, Err EpochExhausted)
  else match session_epoch (active_epoch + 1) with
       | None => (active_epoch, Err EpochExhausted)
       | Some e => (e, Ok e)
       end.

Record NegotiatedSession := mkNegotiatedSession {
  ns_permissions : ControlPermissions; ns_peer : NegotiatedPeer; ns_local : NegotiatedPeer; ns_purpose : SessionPurpose;
  ns_initial_epoch : Z; ns_control : ControlContinuation; ns_input_epochs : Z; ns_reader : FrameReader }.
Definition outbound_scope (s : NegotiatedSession) : FrameScope :=
  if device_ltb (np_device_id (ns_local s)) (np_device_id (ns_peer s)) then LowerControlsHigher else HigherControlsLower.
Definition inbound_scope (s : NegotiatedSession) : FrameScope :=
  match outbound_scope s with LowerControlsHigher => HigherControlsLower | _ => LowerControlsHigher end.

(** [negotiate]: its result, and whether the guard closed the connection.  An
    exchange that still waits meets the deadline. *)
Definition negotiate (c : HandshakeConfig) (conn : Conn) (io : StreamIo) (inbound : list Z)
  : bool * result HandshakeError NegotiatedSession :=
  match default (Err HsTimedOut) (ex_result (negotiate_inner c conn io inbound)) with
  | Err e => (true, Err e)
  | Ok parts =>
      (false, Ok (mkNegotiatedSession (hs_control c) (pt_peer parts)
        (mkNegotiatedPeer (hs_local_device_id c) (hs_local_platform c) (hs_local_capabilities c) (hs_local_topology c))
        (hs_purpose c) (pt_epoch parts) (mkControlContinuation (pt_epoch parts) (Z.of_nat HANDSHAKE_FRAME_COUNT))
        (pt_epoch parts) (pt_reader parts)))
  end.
End Negotiate.

(** ** A proposal on the wire *)

(** What Rust's types guarantee of a configuration. *)
Definition config_typed (c : HandshakeConfig) : Prop :=
  is_fingerprint (hs_local_identity c) /\ is_fingerprint (hs_expected_peer c) /\ is_u32 (hs_local_capabilities c)
  /\ Forall display_typed (hs_local_topology c) /\ length (hs_agreement c) = 32%nat /\ bytes (hs_agreement c).

Lemma device_id_typed f : is_fingerprint f -> is_device_id (device_id_from_fingerprint f).
Proof.
  intros [Hl Hb]. unfold is_device_id, device_id_from_fingerprint. rewrite length_take, Hl. split; [done|].
  by apply Forall_take.
Qed.

Lemma validate_config_Ok c : validate_config c = Ok () ->
  capabilities (hs_local_capabilities c) = Some (hs_local_capabilities c) /\ validate_topology (hs_local_topology c) = Ok ()
  /\ hs_local_device_id c <> expected_peer_device_id c /\ setup_ok (MsgSessionSetup (hs_purpose c) (hs_control c)) = true.
Proof.
  unfold validate_config. destruct (capabilities (hs_local_capabilities c)) as [x|] eqn:E1; [|done]. cbn [ok_or mbind result_bind].
  destruct (capabilities (hs_expected_peer_capabilities c)); [|done]. cbn [ok_or mbind result_bind]. unfold new_topology.
  destruct (validate_topology (hs_local_topology c)) as [[]|]; [|done]. cbn [map_err mbind result_bind].
  rewrite (capabilities_same _ _ E1). case_bool_decide as Hid; [done|]. cbn [orb]. intros H. split_and!; try done.
  destruct (hs_control c) as [[] []], (hs_purpose c); done.
Qed.

Lemma wire_frame_encodes f n : frame_typed f -> setup_ok (message f) = true -> body_len (message f) = Ok n ->
  exists bs, wire_frame f bs.
Proof. intros Ht Hs Hn. eexists. split_and!; [done..|]. apply encode_into_Ok. by exists n. Qed.

Lemma proposal_encodes c e : config_typed c -> validate_config c = Ok () -> is_u64 e -> e <> 0 ->
  exists encs, Forall2 wire_frame (proposal c e) encs.
Proof.
  intros (Hl & _ & Hc & Hd & Hal & Hab) (Ecap & Etop & _ & Hset)%validate_config_Ok He He0.
  assert (forall k m n, is_u64 k -> message_typed m -> setup_ok m = true -> body_len m = Ok n ->
    exists bs, wire_frame (mkFrame e k m Connection) bs) as H.
  { intros k m n Hk Hm Hs Hn. by apply (wire_frame_encodes _ n). }
  destruct (H 0 (MsgHello (mkHello (hs_local_device_id c) (hs_local_platform c) PROTOCOL_VERSION (hs_local_capabilities c) (hs_agreement c))) 56%nat)
    as [b0 H0]; try done.
  { cbn [message_typed device_id protocol_version hello_capabilities agreement].
    split_and!; try done; by apply device_id_typed. }
  { cbn [body_len protocol_version hello_capabilities]. rewrite Ecap, bool_decide_eq_false_2 by done. done. }
  destruct (H 1 (MsgDisplayTopology (hs_local_topology c))
    (foldl (fun total d => total + DISPLAY_FIXED_LEN + length (display_name d))%nat TOPOLOGY_PREFIX_LEN (hs_local_topology c)))
    as [b1 H1]; try done.
  { cbn [body_len]. by rewrite Etop. }
  destruct (H 2 (MsgSessionSetup (hs_purpose c) (hs_control c)) 8%nat) as [b2 H2]; try done.
  exists [b0; b1; b2]. constructor; [exact H0|]. constructor; [exact H1|]. constructor; [exact H2|constructor].
Qed.

Lemma write_proposal_sends fs encs errors : Forall2 wire_frame fs encs -> Forall (eq None) errors ->
  write_proposal fs errors = (concat encs, Ok ()).
Proof.
  intros HF. revert errors. induction HF as [|f bs fs encs (_ & _ & Ee) HF IH]; intros errors He; [done|].
  cbn [write_proposal concat]. unfold write_frame. rewrite Ee. cbn [snd].
  assert (Forall (eq None) (tail errors)) as Ht by (destruct He; [constructor|done]).
  destruct He as [|? ? <- _]; rewrite IH; done.
Qed.
Lemma proposal_length fs encs : Forall2 wire_frame fs encs -> (length (concat encs) <= MAX_FRAME_LEN * length fs)%nat.
Proof.
  induction 1 as [|f bs fs encs Hw HF IH]; [cbn; lia|]. cbn [concat length]. rewrite length_app, Nat.mul_succ_r.
  destruct (wire_frame_spec f bs Hw) as (_ & [_ ?] & _). lia.
Qed.

(** With a read for every byte, the frames that were written are read. *)
Lemma read_handshake_frames_reads fs : forall r s ks, Holds r [] -> Coming [] s fs -> (length s <= length ks)%nat ->
  exists r' s', read_handshake_frames (length fs) r s (Some <$> ks) = (r', s', Some (Ok (arrives <$> fs))) /\ Holds r' [].
Proof.
  induction fs as [|f fs IH]; intros r s ks Hr HC Hk; [by exists r, s|]. cbn [length read_handshake_frames]. unfold read_frame.
  pose proof Hr as (-> & _). pose proof (read_turns_coming ks r [] s (f :: fs) Hr HC) as Ht.
  destruct (read_turns r s (Some <$> ks)) as [[[r2 s2] reads] [[f'|e]|]].
  - destruct Ht as (f0 & fs' & ks' & [= <- <-] & -> & Hr2 & HC2 & -> & _ & Hl).
    destruct (IH r2 s2 ks' Hr2 HC2 ltac:(lia)) as (r' & s' & -> & Hr'). by exists r', s'.
  - by destruct Ht as [_ ?].
  - destruct Ht as [Hl [p' HC']]. assert (s2 = []) as -> by (apply nil_length_inv; lia). by apply coming_end in HC' as [_ ?].
Qed.

(** ** Two ends of one connection *)

(** Two computers that pinned each other, know each other's platform, and each
    demand the features they announce. *)
Definition Meet (a b : HandshakeConfig) : Prop :=
  hs_expected_peer a = hs_local_identity b /\ hs_expected_peer_platform a = hs_local_platform b
  /\ hs_expected_peer_capabilities a = hs_local_capabilities a.
(** The connection shows [a] the certificate of the identity [peer]. *)
Definition Shows (sha256 : list Z -> Fingerprint) (conn : Conn) (peer : Fingerprint) : Prop :=
  exists certificate, cn_identity conn = Some [certificate] /\ sha256 certificate = peer.
(** Every stream operation succeeds, and reads return until the frames are there. *)
Definition Healthy (io : StreamIo) : Prop :=
  io_opens io = true /\ io_accepts io = true /\ Forall (eq None) (io_writes io)
  /\ exists ks, io_reads io = Some <$> ks /\ (MAX_FRAME_LEN * HANDSHAKE_FRAME_COUNT <= length ks)%nat.

(** What two such computers disagree on, in the order it is weighed. *)
Definition disagreement (a b : HandshakeConfig) : option HandshakeError :=
  if negb (hs_local_capabilities a =? hs_local_capabilities b) then Some PeerHelloMismatch
  else if negb (bool_decide (hs_purpose a = hs_purpose b)) then Some PurposeMismatch
  else if bool_decide (hs_purpose a = Share) && negb (bool_decide (hs_agreement a = hs_agreement b)) then Some AgreementMismatch
  else if negb (bool_decide (hs_control a = hs_control b)) then Some ControlMismatch
  else None.
Lemma disagreement_sym a b : disagreement a b = disagreement b a.
Proof.
  unfold disagreement. rewrite (Z.eqb_sym (hs_local_capabilities a)), (bool_decide_ext (hs_purpose a = _) (hs_purpose b = hs_purpose a)),
    (bool_decide_ext (hs_agreement a = _) (hs_agreement b = hs_agreement a)), (bool_decide_ext (hs_control a = _) (hs_control b = hs_control a)) by done.
  destruct (_ =? _); [|done]. cbn [negb]. destruct (decide (hs_purpose b = hs_purpose a)) as [->|]; [done|]. by rewrite bool_decide_eq_false_2.
Qed.

(** Each end's judgement of the other's frames is that disagreement. *)
Lemma judge_proposal a b e : Meet a b -> validate_config b = Ok () ->
  match proposal b e with
  | [f0; f1; f2] => validate_peer_handshake a (hs_local_identity b) e (arrives f0) (arrives f1) (arrives f2)
      = match disagreement a b with
        | Some d => Err d
        | None => Ok (mkNegotiatedPeer (hs_local_device_id b) (hs_local_platform b) (hs_local_capabilities b)
                        (normalise_display <$> hs_local_topology b))
        end
  | _ => False
  end.
Proof.
  intros (Ep & Epl & Ec) (_ & Etop & _ & _)%validate_config_Ok. unfold proposal, validate_peer_handshake, disagreement, expected_peer_device_id.
  rewrite Ep, Epl, Ec, bool_decide_eq_true_2 by done. cbn [negb arrives epoch sequence message scope normalise check_handshake_frames delivery].
  rewrite !Z.eqb_refl, !(bool_decide_eq_true_2 (Connection = _)), !(bool_decide_eq_true_2 (Reliable = _)) by done.
  change (0 =? 0) with true. change (1 =? 0 + 1) with true. change (2 =? 0 + 1 + 1) with true.
  cbn [negb orb mbind result_bind protocol_version device_id platform hello_capabilities agreement].
  rewrite (bool_decide_eq_true_2 (hs_local_device_id b = _)), (bool_decide_eq_true_2 (hs_local_platform b = _)) by done.
  rewrite (Z.eqb_sym (hs_local_capabilities b)). cbn [negb orb].
  destruct (hs_local_capabilities a =? hs_local_capabilities b); [|done]. cbn [negb]. unfold new_topology. rewrite normalise_validate, Etop.
  cbn [mbind result_bind map_err]. rewrite (bool_decide_ext (hs_purpose b = _) (hs_purpose a = hs_purpose b)),
    (bool_decide_ext (hs_agreement b = _) (hs_agreement a = hs_agreement b)), (bool_decide_ext (hs_control b = _) (hs_control a = hs_control b)) by done.
  destruct (bool_decide (hs_purpose a = hs_purpose b)); [|done]. cbn [negb]. destruct (_ && _); [done|]. by destruct (bool_decide _).
Qed.

Lemma derive_epoch_Ok conn e : derive_epoch conn = Ok e -> e <> 0 /\ e <> u64_max.
Proof.
  unfold derive_epoch. destruct (cn_export conn) as [bs|]; [|done]. cbn [ok_or mbind result_bind]. unfold session_epoch.
  destruct (be_value bs =? 0) eqn:E0; [done|]. cbn [ok_or mbind result_bind]. destruct (be_value bs =? u64_max) eqn:Em; [done|]. intros [= <-].
  split; by apply Z.eqb_neq.
Qed.
(** An exchange of healthy streams: what is sent, and what is made of the peer's
    proposal once it is there. *)
Lemma exchange_sends sha256 c conn io inbound e peer : config_typed c -> validate_config c = Ok () -> Shows sha256 conn peer ->
  derive_epoch conn = Ok e -> is_u64 e -> Healthy io ->
  exists encs, Forall2 wire_frame (proposal c e) encs /\ ex_sent (negotiate_inner sha256 c conn io inbound) = concat encs.
Proof.
  intros Ht Hv (cert & Ei & Es) Ee He (Ho & Ha & Hw & _).
  destruct (derive_epoch_Ok _ _ Ee) as [He0 _].
  destruct (proposal_encodes c e Ht Hv He He0) as [encs HF]. exists encs. split; [done|].
  unfold negotiate_inner, observed_peer_fingerprint. rewrite Hv, Ei. cbn [ok_or mbind result_bind]. rewrite Ee, Ho, Ha. cbn [negb].
  rewrite (write_proposal_sends _ _ _ HF Hw). destruct (read_handshake_frames _ _ _ _) as [[r s] [fs|]]; [|done].
  by destruct (fs ≫= _).
Qed.
Lemma exchange_judges sha256 a b conn io e encs : validate_config a = Ok () -> Shows sha256 conn (hs_local_identity b) ->
  derive_epoch conn = Ok e -> config_typed a -> is_u64 e -> Healthy io -> Meet a b -> validate_config b = Ok () ->
  Forall2 wire_frame (proposal b e) encs ->
  exists sent reader, negotiate_inner sha256 a conn io (concat encs)
    = match disagreement a b with
      | Some d => mkExchange sent (waits_for_ack d) (Some (Err d))
      | None => mkExchange sent false (Some (Ok (mkParts e (mkNegotiatedPeer (hs_local_device_id b) (hs_local_platform b)
                  (hs_local_capabilities b) (normalise_display <$> hs_local_topology b)) reader)))
      end /\ Holds reader [].
Proof.
  intros Hv Hs Ee Ht He Hh Hm Hvb HF. destruct (exchange_sends sha256 a conn io (concat encs) e _ Ht Hv Hs Ee He Hh) as (mine & HF' & _).
  destruct Hs as (cert & Ei & Es), Hh as (Ho & Ha & Hw & ks & Er & Hk). pose proof (judge_proposal a b e Hm Hvb) as Hj.
  destruct (read_handshake_frames_reads (proposal b e) new_reader (concat encs) ks new_reader_holds (coming_fresh _ _ _ HF eq_refl))
    as (r' & s' & Erd & Hr').
  { etransitivity; [exact (proposal_length _ _ HF)|]. exact Hk. }
  exists (concat mine), r'. split; [|done].
  unfold negotiate_inner, observed_peer_fingerprint. rewrite Hv, Ei. cbn [ok_or mbind result_bind]. rewrite Ee, Ho, Ha. cbn [negb].
  rewrite (write_proposal_sends _ _ _ HF' Hw), Er. change (length (proposal b e)) with HANDSHAKE_FRAME_COUNT in Erd. rewrite Erd.
  unfold proposal in *. cbn [fmap list_fmap mbind result_bind]. rewrite Es, Hj. by destruct (disagreement a b).
Qed.

(** [na]'s account of its peer is [nb]'s account of itself. *)
Definition Mirrors (na nb : NegotiatedSession) : Prop :=
  np_device_id (ns_peer na) = np_device_id (ns_local nb) /\ np_platform (ns_peer na) = np_platform (ns_local nb)
  /\ np_capabilities (ns_peer na) = np_capabilities (ns_local nb)
  /\ np_topology (ns_peer na) = normalise_display <$> np_topology (ns_local nb)
  /\ outbound_scope na = inbound_scope nb /\ outbound_scope na <> outbound_scope nb.
Lemma mirrors_intro na nb : is_device_id (np_device_id (ns_local na)) -> is_device_id (np_device_id (ns_local nb)) ->
  np_device_id (ns_local na) <> np_device_id (ns_local nb) ->
  np_device_id (ns_peer nb) = np_device_id (ns_local na) ->
  ns_peer na = mkNegotiatedPeer (np_device_id (ns_local nb)) (np_platform (ns_local nb)) (np_capabilities (ns_local nb))
    (normalise_display <$> np_topology (ns_local nb)) -> Mirrors na nb.
Proof.
  intros [La _] [Lb _] Hne Eb Ea. unfold Mirrors, inbound_scope, outbound_scope. rewrite Ea, Eb. cbn [np_device_id np_platform np_capabilities np_topology].
  rewrite (device_ltb_flip (np_device_id (ns_local na))) by (done || congruence). by destruct (device_ltb _ _).
Qed.

(** C17. Two computers that pinned each other and negotiate on one connection, each
    reading what the other wrote however the streams cut it, reach the same
    verdict: the same named disagreement, which each lets the other acknowledge
    before it closes the connection, or a session on both ends with the same
    purpose, permissions, epoch and control continuation, each end holding the
    other's identity, platform, features and displays, sending in the scope the
    other receives in, and positioned after the three frames. *)
Theorem handshake_ends_agree sha256 a b ca cb ioa iob e in_a in_b :
  config_typed a -> config_typed b -> validate_config a = Ok () -> validate_config b = Ok () -> Meet a b -> Meet b a ->
  Shows sha256 ca (hs_local_identity b) -> Shows sha256 cb (hs_local_identity a) ->
  derive_epoch ca = Ok e -> derive_epoch cb = Ok e -> is_u64 e -> Healthy ioa -> Healthy iob ->
  in_a = ex_sent (negotiate_inner sha256 b cb iob in_b) -> in_b = ex_sent (negotiate_inner sha256 a ca ioa in_a) ->
  match disagreement a b with
  | Some d =>
      negotiate sha256 a ca ioa in_a = (true, Err d) /\ negotiate sha256 b cb iob in_b = (true, Err d)
      /\ ex_acknowledges (negotiate_inner sha256 a ca ioa in_a) = true /\ ex_acknowledges (negotiate_inner sha256 b cb iob in_b) = true
  | None => exists na nb,
      negotiate sha256 a ca ioa in_a = (false, Ok na) /\ negotiate sha256 b cb iob in_b = (false, Ok nb)
      /\ ns_purpose na = ns_purpose nb /\ ns_permissions na = ns_permissions nb /\ ns_initial_epoch na = e /\ ns_initial_epoch nb = e
      /\ ns_control na = ns_control nb /\ ns_input_epochs na = ns_input_epochs nb /\ Mirrors na nb /\ Mirrors nb na
      /\ Holds (ns_reader na) [] /\ Holds (ns_reader nb) []
  end.
Proof.
  intros Ta Tb Va Vb Mab Mba Sa Sb Ea Eb He Ha Hb Ia Ib.
  destruct (exchange_sends sha256 b cb iob in_b e _ Tb Vb Sb Eb He Hb) as (encb & Fb & Xb). rewrite Xb in Ia. subst in_a.
  destruct (exchange_sends sha256 a ca ioa (concat encb) e _ Ta Va Sa Ea He Ha) as (enca & Fa & Xa). rewrite Xa in Ib. subst in_b.
  destruct (exchange_judges sha256 a b ca ioa e encb Va Sa Ea Ta He Ha Mab Vb Fb) as (sa & ra & Na & Hra).
  destruct (exchange_judges sha256 b a cb iob e enca Vb Sb Eb Tb He Hb Mba Va Fa) as (sb & rb & Nb & Hrb).
  unfold negotiate. rewrite Na, Nb, (disagreement_sym b a). destruct (disagreement a b) as [d|] eqn:D; cbn [ex_result ex_acknowledges default].
  - split_and!; try done; revert D; unfold disagreement; repeat (match goal with |- context [if ?c then _ else _] => destruct c end); by intros [= <-].
  - assert (hs_purpose a = hs_purpose b /\ hs_control a = hs_control b) as [Ep Ec].
    { revert D. unfold disagreement. destruct (negb (_ =? _)); [done|]. repeat case_bool_decide; done. }
    eexists _, _. split; [reflexivity|]. split; [reflexivity|].
    cbn [ns_purpose ns_permissions ns_initial_epoch ns_control ns_input_epochs ns_reader pt_epoch pt_peer pt_reader].
    destruct Ta as (Tfa & _), Tb as (Tfb & _). apply device_id_typed in Tfa, Tfb.
    apply validate_config_Ok in Va as (_ & _ & Hne & _). unfold expected_peer_device_id in Hne. destruct Mab as (Epa & _). rewrite Epa in Hne.
    split_and!; try done; apply mirrors_intro; try done; by apply not_eq_sym.
Qed.

(** ** Two computers *)

Definition sample_config (me peer : Z) (mine theirs : Platform) (displays : list DisplayDescription) (agreed : Z) : HandshakeConfig :=
  mkHandshakeConfig (replicate 32 me) (replicate 32 peer) mine theirs 3 3 displays (mkControl true false) Share (replicate 32 agreed).
Definition sample_mac : HandshakeConfig := sample_config 7 9 MacOs Windows [sample_display 1 true None] 5.
Definition sample_windows (agreed : Z) : HandshakeConfig := sample_config 9 7 Windows MacOs [sample_display 4 true None; sample_display 6 false None] agreed.
Definition sample_conn (peer : Z) : Conn := mkConn (Some [replicate 32 peer]) (Some [0; 0; 0; 0; 0; 0; 1; 2]).
Definition sample_io : StreamIo := mkStreamIo true [] true (Some <$> replicate (MAX_FRAME_LEN * HANDSHAKE_FRAME_COUNT) 4%nat).
Definition sample_sent (c : HandshakeConfig) (peer : Z) : list Z := ex_sent (negotiate_inner id c (sample_conn peer) (mkStreamIo true [] false []) []).

Lemma sample_config_typed me peer mine theirs displays agreed : is_u8 me -> is_u8 peer -> is_u8 agreed -> Forall display_typed displays ->
  config_typed (sample_config me peer mine theirs displays agreed).
Proof.
  intros Hm Hp Ha Hd. unfold config_typed, is_fingerprint, sample_config.
  cbn [hs_local_identity hs_expected_peer hs_local_capabilities hs_local_topology hs_agreement].
  split_and!; try done; try (by rewrite length_replicate); try (by apply Forall_replicate); unfold_int; lia.
Qed.
Lemma sample_display_typed i primary : is_u64 i -> display_typed (sample_display i primary None).
Proof.
  intros Hi. unfold display_typed, is_point, bytes.
  cbn [sample_display display_id display_name native_width native_height logical_origin logical_size scale_factor monitor px py].
  split_and!; try done; repeat constructor; unfold_int; lia.
Qed.
Lemma sample_io_healthy : Healthy sample_io.
Proof. unfold Healthy, sample_io. cbn [io_opens io_accepts io_writes io_reads]. split_and!; try done. eexists. split; [done|]. by rewrite length_replicate. Qed.
(** What a healthy end sends does not depend on what it reads. *)
Lemma sample_sends c peer inbound : ex_sent (negotiate_inner id c (sample_conn peer) sample_io inbound) = sample_sent c peer.
Proof.
  unfold sample_sent, negotiate_inner, sample_io. cbn [io_opens io_accepts io_writes io_reads negb].
  destruct (validate_config c); [|done]. destruct (observed_peer_fingerprint _ _); [|done]. destruct (derive_epoch _); [|done].
  destruct (write_proposal _ _) as [sent [[]|]]; [|done]. destruct (read_handshake_frames _ _ _ _) as [[? ?] [fs|]]; [|done]. by destruct (fs ≫= _).
Qed.

Lemma handshake_ends_agree_witness :
  (exists na nb, negotiate id sample_mac (sample_conn 9) sample_io (sample_sent (sample_windows 5) 7) = (false, Ok na)
     /\ negotiate id (sample_windows 5) (sample_conn 7) sample_io (sample_sent sample_mac 9) = (false, Ok nb) /\ Mirrors na nb)
  /\ negotiate id sample_mac (sample_conn 9) sample_io (sample_sent (sample_windows 6) 7) = (true, Err AgreementMismatch)
  /\ negotiate id (sample_windows 6) (sample_conn 7) sample_io (sample_sent sample_mac 9) = (true, Err AgreementMismatch).
Proof.
  assert (config_typed sample_mac) as Ta.
  { apply sample_config_typed; try (unfold_int; lia). constructor; [apply sample_display_typed; unfold_int; lia|constructor]. }
  assert (forall k, is_u8 k -> config_typed (sample_windows k)) as Tb.
  { intros k Hk. apply sample_config_typed; try done; try (unfold_int; lia).
    constructor; [apply sample_display_typed; unfold_int; lia|constructor; [apply sample_display_typed; unfold_int; lia|constructor]]. }
  assert (forall k, is_u8 k -> validate_config (sample_windows k) = Ok ()) as Vb by (intros; vm_compute; reflexivity).
  assert (forall p, Shows id (sample_conn p) (replicate 32 p)) as Sh by (intros p; by exists (replicate 32 p)).
  pose proof (fun k (Hk : is_u8 k) => handshake_ends_agree id sample_mac (sample_windows k) (sample_conn 9) (sample_conn 7) sample_io sample_io 258
    (sample_sent (sample_windows k) 7) (sample_sent sample_mac 9) Ta (Tb k Hk) ltac:(vm_compute; reflexivity) (Vb k Hk)
    ltac:(done) ltac:(done) (Sh 9) (Sh 7) ltac:(vm_compute; reflexivity) ltac:(vm_compute; reflexivity) ltac:(unfold_int; lia)
    sample_io_healthy sample_io_healthy (eq_sym (sample_sends _ _ _)) (eq_sym (sample_sends _ _ _))) as H.
  split.
  - assert (is_u8 5) as H5 by (unfold_int; lia). specialize (H 5 H5). assert (disagreement sample_mac (sample_windows 5) = None) as D by (vm_compute; reflexivity).
    rewrite D in H. destruct H as (na & nb & E1 & E2 & _ & _ & _ & _ & _ & _ & M & _). exact (ex_intro _ na (ex_intro _ nb (conj E1 (conj E2 M)))).
  - assert (is_u8 6) as H6 by (unfold_int; lia). specialize (H 6 H6).
    assert (disagreement sample_mac (sample_windows 6) = Some AgreementMismatch) as D by (vm_compute; reflexivity).
    rewrite D in H. destruct H as (E1 & E2 & _). exact (conj E1 E2).
Defined.

(** ** Any peer at all *)

Lemma validate_peer_handshake_Ok c observed e f0 f1 f2 p : validate_peer_handshake c observed e f0 f1 f2 = Ok p ->
  observed = hs_expected_peer c /\ np_device_id p = expected_peer_device_id c /\ np_platform p = hs_expected_peer_platform c
  /\ np_capabilities p = hs_expected_peer_capabilities c /\ validate_topology (np_topology p) = Ok ()
  /\ message f1 = MsgDisplayTopology (np_topology p) /\ message f2 = MsgSessionSetup (hs_purpose c) (hs_control c)
  /\ exists h, message f0 = MsgHello h /\ (hs_purpose c = Share -> agreement h = hs_agreement c).
Proof.
  unfold validate_peer_handshake. case_bool_decide as Ho; [|done]. cbn [negb]. destruct (check_handshake_frames _ _ _); [|done].
  cbn [mbind result_bind]. destruct (message f0) as [h| | | | | | | | | | | | | | | | | | | | |]; try done.
  destruct (negb (protocol_version h =? _)); [done|]. destruct (bool_decide (device_id h = _)) eqn:Ed; [|done]. destruct (bool_decide (platform h = _)) eqn:Ep; [|done].
  destruct (hello_capabilities h =? _) eqn:Ec; [|done]. apply bool_decide_eq_true in Ed, Ep. apply Z.eqb_eq in Ec.
  cbn [negb orb]. destruct (message f1) as [| | |ds| | | | | | | | | | | | | | | | | |]; try done. unfold new_topology.
  destruct (validate_topology ds) as [[]|] eqn:Et; [|done]. cbn [mbind result_bind map_err].
  destruct (message f2) as [|pu co| | | | | | | | | | | | | | | | | | | |]; try done. case_bool_decide as Hp; [|done]. cbn [negb].
  destruct (bool_decide (hs_purpose c = Share) && _) eqn:Ea; [done|].
  destruct (bool_decide (co = hs_control c)) eqn:Hc; [|done]. apply bool_decide_eq_true in Hc. intros [= <-].
  cbn [np_device_id np_platform np_capabilities np_topology]. split_and!; try congruence. exists h. split; [done|]. intros Hs.
  rewrite bool_decide_eq_true_2 in Ea by done. by repeat case_bool_decide.
Qed.
Lemma negotiate_inner_Ok sha256 c conn io inbound parts : ex_result (negotiate_inner sha256 c conn io inbound) = Some (Ok parts) ->
  exists observed reader rest f0 f1 f2, observed_peer_fingerprint sha256 conn = Ok observed /\ derive_epoch conn = Ok (pt_epoch parts)
    /\ read_handshake_frames HANDSHAKE_FRAME_COUNT new_reader inbound (io_reads io) = (reader, rest, Some (Ok [f0; f1; f2]))
    /\ validate_peer_handshake c observed (pt_epoch parts) f0 f1 f2 = Ok (pt_peer parts).
Proof.
  unfold negotiate_inner. destruct (validate_config c); [|done]. destruct (observed_peer_fingerprint sha256 conn) as [observed|]; [|done].
  destruct (derive_epoch conn) as [e|] eqn:Ee; [|done]. destruct (negb (io_opens io)); [done|].
  destruct (write_proposal _ _) as [sent [[]|]]; [|done]. destruct (negb (io_accepts io)); [done|].
  destruct (read_handshake_frames _ _ _ _) as [[reader rest] [[fs|]|]] eqn:Er; [|done|done].
  cbn [mbind result_bind]. destruct fs as [|f0 [|f1 [|f2 [|]]]]; try done. destruct (validate_peer_handshake _ _ _ _ _ _) as [p|] eqn:Ev; [|done].
  intros [= <-]. cbn [pt_epoch pt_peer]. by exists observed, reader, rest, f0, f1, f2.
Qed.

