(* ===== verification/Ordering.v ===== *)
(** * Rust's [Ord]: comparison, stable sorting, least and greatest by a key

    The standard library's ordering as the saved groups use it: [Ord::cmp] as a
    class with its laws, the lexicographic order of sequences, [sort_by_key],
    [windows(2)] checks, [min_by_key] and [max_by_key]. *)

From stdpp Require Import list sorting.
From S2P Require Import Prelude Types.

Class Cmp (A : Type) := cmp : A -> A -> comparison.
Class CmpLaws (A : Type) `{Cmp A} : Prop := {
  cmp_eq : forall a b : A, cmp a b = Eq <-> a = b;
  cmp_flip : forall a b : A, cmp b a = CompOpp (cmp a b);
  cmp_trans : forall a b c : A, cmp a b = Lt -> cmp b c = Lt -> cmp a c = Lt }.

(** [Ordering::then_with]. *)
Definition then_with (a b : comparison) : comparison := match a with Eq => b | _ => a end.
Definition lt_b {A} `{Cmp A} (a b : A) : bool := match cmp a b with Lt => true | _ => false end.
Definition ge_b {A} `{Cmp A} (a b : A) : bool := negb (lt_b a b).

#[global] Instance Z_cmp : Cmp Z := Z.compare.
Fixpoint list_compare {A} `{Cmp A} (a b : list A) : comparison :=
  match a, b with
  | [], [] => Eq
  | [], _ => Lt
  | _, [] => Gt
  | x :: a, y :: b => then_with (cmp x y) (list_compare a b)
  end.
#[global] Instance list_cmp {A} `{Cmp A} : Cmp (list A) := list_compare.

#[global] Instance Z_cmp_laws : CmpLaws Z.
Proof.
  split; unfold cmp, Z_cmp.
  - apply Z.compare_eq_iff.
  - intros. by rewrite Z.compare_antisym.
  - intros a b c. rewrite !Z.compare_lt_iff. lia.
Qed.

Section Laws.
Context {A : Type} `{CmpLaws A}.
Implicit Types a b c : A.

Lemma cmp_refl a : cmp a a = Eq.
Proof. by apply cmp_eq. Qed.
Lemma then_with_flip a b (x y : comparison) : y = CompOpp x -> then_with (cmp b a) y = CompOpp (then_with (cmp a b) x).
Proof. intros ->. rewrite (cmp_flip a b). by destruct (cmp a b). Qed.
Lemma then_with_trans a b c x y z : then_with (cmp a b) x = Lt -> then_with (cmp b c) y = Lt -> (x = Lt -> y = Lt -> z = Lt) ->
  then_with (cmp a c) z = Lt.
Proof.
  intros H1 H2 Hz. destruct (cmp a b) eqn:E1, (cmp b c) eqn:E2; try discriminate; cbn [then_with] in *.
  - apply cmp_eq in E1 as ->. rewrite E2. auto.
  - apply cmp_eq in E1 as ->. by rewrite E2.
  - apply cmp_eq in E2 as <-. by rewrite E1.
  - by rewrite (cmp_trans _ _ _ E1 E2).
Qed.
#[global] Instance list_cmp_laws : CmpLaws (list A).
Proof.
  split; unfold cmp, list_cmp.
  - induction a as [|x a IH]; intros [|y b]; cbn [list_compare]; try done. destruct (cmp x y) eqn:E; cbn [then_with].
    + apply cmp_eq in E as ->. rewrite IH. naive_solver.
    + split; [done|]. intros [= -> ->]. by rewrite cmp_refl in E.
    + split; [done|]. intros [= -> ->]. by rewrite cmp_refl in E.
  - induction a as [|x a IH]; intros [|y b]; cbn [list_compare]; try done. apply then_with_flip, IH.
  - induction a as [|x a IH]; intros [|y b] [|z c]; cbn [list_compare]; try done. intros H1 H2. by apply (then_with_trans x y z _ _ _ H1 H2), IH.
Qed.

Lemma lt_b_spec a b : lt_b a b = true <-> cmp a b = Lt.
Proof. unfold lt_b. by destruct (cmp a b). Qed.
Lemma ge_b_spec a b : ge_b a b = true <-> cmp a b <> Lt.
Proof. unfold ge_b, lt_b. by destruct (cmp a b). Qed.
Lemma cmp_irrefl a : cmp a a <> Lt.
Proof. by rewrite cmp_refl. Qed.
Lemma cmp_gt a b : cmp a b = Gt <-> cmp b a = Lt.
Proof. rewrite (cmp_flip a b). by destruct (cmp a b). Qed.
Lemma cmp_ge_trans a b c : cmp a b <> Lt -> cmp b c <> Lt -> cmp a c <> Lt.
Proof.
  intros H1 H2 H3. destruct (cmp a b) eqn:E1; [|done|].
  - apply cmp_eq in E1 as ->. done.
  - apply cmp_gt in E1. by apply H2, (cmp_trans b a c).
Qed.
Lemma cmp_total a b : cmp a b <> Lt -> cmp b a <> Lt -> a = b.
Proof. intros H1 H2. apply cmp_eq. destruct (cmp a b) eqn:E; try done. by apply cmp_gt in E. Qed.

(** [DeviceId]'s derived order is that of its bytes. *)
Lemma device_ltb_lt_b (a b : DeviceId) : device_ltb a b = lt_b a b.
Proof.
  unfold lt_b, cmp, list_cmp. revert b. induction a as [|x a IH]; intros [|y b]; try done. cbn [device_ltb list_compare]. unfold cmp at 1, Z_cmp.
  destruct (Z.compare_spec x y) as [->|Hlt|Hlt]; cbn [then_with].
  - by rewrite Z.ltb_irrefl, Z.eqb_refl, IH.
  - by rewrite (proj2 (Z.ltb_lt x y) Hlt).
  - rewrite (proj2 (Z.ltb_ge x y)), (proj2 (Z.eqb_neq x y)) by lia. done.
Qed.
End Laws.

(** [Option]'s order, nothing first, and a pair's. *)
#[global] Instance option_cmp {A} `{Cmp A} : Cmp (option A) := fun a b =>
  match a, b with None, None => Eq | None, Some _ => Lt | Some _, None => Gt | Some a, Some b => cmp a b end.
#[global] Instance pair_cmp {A B} `{Cmp A, Cmp B} : Cmp (A * B) := fun a b => then_with (cmp (fst a) (fst b)) (cmp (snd a) (snd b)).
#[global] Instance option_cmp_laws {A} `{CmpLaws A} : CmpLaws (option A).
Proof.
  split; unfold cmp, option_cmp.
  - intros [a|] [b|]; try done. rewrite cmp_eq. naive_solver.
  - intros [a|] [b|]; try done. apply cmp_flip.
  - intros [a|] [b|] [c|]; try done. apply cmp_trans.
Qed.
#[global] Instance pair_cmp_laws {A B} `{CmpLaws A, CmpLaws B} : CmpLaws (A * B).
Proof.
  split; unfold cmp, pair_cmp.
  - intros [a b] [c d]. cbn [fst snd]. destruct (cmp a c) eqn:E; cbn [then_with].
    + apply cmp_eq in E as ->. rewrite cmp_eq. naive_solver.
    + split; [done|]. intros [= -> _]. by rewrite cmp_refl in E.
    + split; [done|]. intros [= -> _]. by rewrite cmp_refl in E.
  - intros [a b] [c d]. apply then_with_flip, cmp_flip.
  - intros [a b] [c d] [e f] E1 E2. eapply then_with_trans; [exact E1|exact E2|]. apply cmp_trans.
Qed.

(** ** Sorting *)

Section Sort.
Context {B K : Type} `{CmpLaws K} (key : B -> K).

Fixpoint insert_by_key (x : B) (l : list B) : list B :=
  match l with
  | [] => [x]
  | y :: l => match cmp (key x) (key y) with Gt => y :: insert_by_key x l | _ => x :: y :: l end
  end.
(** [sort_by_key] is stable: an element goes before those after it with its key. *)
Definition sort_by_key (l : list B) : list B := foldr insert_by_key [] l.
(** [windows(2)]: no element's key is at or past the next's. *)
Fixpoint strictly_sorted (l : list B) : bool :=
  match l with
  | x :: (y :: _) as l => lt_b (key x) (key y) && strictly_sorted l
  | _ => true
  end.
Definition Ascending (l : list B) : Prop := StronglySorted (fun x y => cmp (key x) (key y) = Lt) l.
Definition Sorted_by (l : list B) : Prop := StronglySorted (fun x y => cmp (key y) (key x) <> Lt) l.

Lemma insert_by_key_perm x l : insert_by_key x l ≡ₚ x :: l.
Proof. induction l as [|y l IH]; cbn; [done|]. destruct (cmp _ _); [done..|]. rewrite IH. constructor. Qed.
Lemma sort_by_key_perm l : sort_by_key l ≡ₚ l.
Proof. induction l as [|x l IH]; cbn; [done|]. by rewrite insert_by_key_perm, IH. Qed.
Lemma insert_by_key_sorted x l : Sorted_by l -> Sorted_by (insert_by_key x l).
Proof.
  induction 1 as [|y l Hs IH Hf]; cbn; [by repeat constructor|]. destruct (cmp (key x) (key y)) eqn:E.
  3: { constructor; [done|]. rewrite insert_by_key_perm. constructor; [by rewrite E|done]. }
  all: constructor; [by constructor|]; constructor; [rewrite cmp_flip, E; done|].
  all: eapply list.Forall_impl; [exact Hf|]; intros z Hz; apply (cmp_ge_trans _ (key y)); [done|]; rewrite cmp_flip, E; done.
Qed.
Lemma sort_by_key_sorted l : Sorted_by (sort_by_key l).
Proof. induction l as [|x l IH]; cbn; [constructor|]. by apply insert_by_key_sorted. Qed.

Lemma ascending_sorted l : Ascending l -> Sorted_by l.
Proof.
  induction 1 as [|x l Hs IH Hf]; constructor; [done|]. eapply list.Forall_impl; [exact Hf|]. intros y E. rewrite cmp_flip, E. done.
Qed.
Lemma strictly_sorted_ascending l : strictly_sorted l = true <-> Ascending l.
Proof.
  induction l as [|x l IH]; [by split; [constructor|]|]. destruct l as [|y l].
  { split; [|done]. intros _. by repeat constructor. }
  change (strictly_sorted (x :: y :: l)) with (lt_b (key x) (key y) && strictly_sorted (y :: l)). rewrite andb_true_iff, lt_b_spec, IH. split.
  - intros [E Hs]. constructor; [done|]. constructor; [done|]. inversion Hs as [|? ? _ Hf]; subst.
    eapply list.Forall_impl; [exact Hf|]. intros z. by apply cmp_trans.
  - inversion 1 as [|? ? Hs Hf]; subst. by inversion Hf.
Qed.
(** Distinct keys have one order. *)
Lemma sorted_by_unique l1 l2 : Sorted_by l1 -> Sorted_by l2 -> l1 ≡ₚ l2 ->
  (forall x y, x ∈ l1 -> y ∈ l1 -> key x = key y -> x = y) -> l1 = l2.
Proof.
  intros H1. revert l2. induction H1 as [|x l1 Hs IH Hf]; intros l2 H2 Hp Hinj; [by apply Permutation_nil_l in Hp as ->|].
  destruct H2 as [|y l2 Hs2 Hf2]; [by apply Permutation_nil_r in Hp|]. rewrite list.Forall_forall in Hf, Hf2.
  assert (x = y) as ->.
  { assert (y ∈ x :: l1) as Hy by (rewrite Hp; by left). assert (x ∈ y :: l2) as Hx by (rewrite <-Hp; by left).
    apply Hinj; [by left|done|]. apply elem_of_cons in Hy as [->|Hy]; [done|]. apply elem_of_cons in Hx as [->|Hx]; [done|].
    apply cmp_total; [by apply Hf2|by apply Hf]. }
  f_equal. apply IH; [done|by apply (Permutation_cons_inv (a := y))|]. intros a b Ha Hb. apply Hinj; by right.
Qed.
Lemma sort_by_key_unique l1 l2 : l1 ≡ₚ l2 -> (forall x y, x ∈ l1 -> y ∈ l1 -> key x = key y -> x = y) -> sort_by_key l1 = sort_by_key l2.
Proof.
  intros Hp Hinj. apply sorted_by_unique; [apply sort_by_key_sorted..| |].
  - by rewrite !sort_by_key_perm.
  - intros x y. rewrite !sort_by_key_perm. apply Hinj.
Qed.
Lemma ascending_inj l x y : Ascending l -> x ∈ l -> y ∈ l -> key x = key y -> x = y.
Proof.
  induction 1 as [|z l Hs IH Hf]; intros Hx Hy E; [by apply not_elem_of_nil in Hx|]. rewrite list.Forall_forall in Hf.
  apply elem_of_cons in Hx as [->|Hx], Hy as [->|Hy]; [done|..|by apply IH].
  - specialize (Hf _ Hy). rewrite E in Hf. by apply cmp_irrefl in Hf.
  - specialize (Hf _ Hx). rewrite E in Hf. by apply cmp_irrefl in Hf.
Qed.
Lemma sort_by_key_fix l : Ascending l -> sort_by_key l = l.
Proof.
  intros Hl. apply sorted_by_unique; [apply sort_by_key_sorted|by apply ascending_sorted|apply sort_by_key_perm|].
  intros x y. rewrite !sort_by_key_perm. by apply ascending_inj.
Qed.
Lemma sort_by_key_ascending l : NoDup (key <$> l) -> Ascending (sort_by_key l).
Proof.
  intros Hn. rewrite <-(sort_by_key_perm l) in Hn. pose proof (sort_by_key_sorted l) as Hs. induction Hs as [|x m Hs IH Hf]; [constructor|].
  rewrite fmap_cons in Hn. apply list.NoDup_cons in Hn as [Hni Hn]. constructor; [by apply IH|]. rewrite list.Forall_forall in Hf |- *. intros y Hy.
  specialize (Hf y Hy). rewrite (cmp_flip (key x) (key y)) in Hf. destruct (cmp (key x) (key y)) eqn:E; [|done|done].
  apply cmp_eq in E. destruct Hni. rewrite E. by apply list_elem_of_fmap_2.
Qed.
Lemma ascending_keys_NoDup l : Ascending l -> NoDup (key <$> l).
Proof.
  induction 1 as [|x l Hs IH Hf]; [constructor|]. rewrite fmap_cons. apply list.NoDup_cons. split; [|done].
  intros (y & E & Hy)%list_elem_of_fmap. rewrite list.Forall_forall in Hf. specialize (Hf y Hy). rewrite E in Hf. by apply cmp_irrefl in Hf.
Qed.
Lemma ascending_filter_by (P : B -> Prop) `{forall x, Decision (P x)} l : Ascending l -> Ascending (filter P l).
Proof.
  induction 1 as [|x l Hs IH Hf]; [constructor|]. rewrite filter_cons. destruct (decide (P x)); [|done]. constructor; [done|].
  rewrite list.Forall_forall in Hf |- *. intros y [_ Hy]%list_elem_of_filter. auto.
Qed.

(** [min_by_key] gives the first of the least, [max_by_key] the last of the greatest. *)
Fixpoint min_by_key (l : list B) : option B :=
  match l with
  | [] => None
  | x :: l => Some (match min_by_key l with
                    | Some y => match cmp (key x) (key y) with Gt => y | _ => x end
                    | None => x
                    end)
  end.
Fixpoint max_by_key (l : list B) : option B :=
  match l with
  | [] => None
  | x :: l => Some (match max_by_key l with
                    | Some y => match cmp (key x) (key y) with Gt => x | _ => y end
                    | None => x
                    end)
  end.
Lemma min_by_key_elem l x : min_by_key l = Some x -> x ∈ l.
Proof.
  revert x. induction l as [|y l IH]; intros x; [done|]. cbn. destruct (min_by_key l) as [z|]; intros [= <-]; [|by left].
  destruct (cmp _ _); [by left|by left|right; by apply IH].
Qed.
Lemma min_by_key_None l : min_by_key l = None -> l = [].
Proof. by destruct l. Qed.
End Sort.
