(* ===== verification/Fingerprint.v ===== *)
(** * Certificate fingerprints as text (monhop-transport/src/crypto.rs,
    apps/monhop-desktop/src/sharing_preferences.rs, group_record.rs)

    A fingerprint is 32 bytes; records name it as 64 hexadecimal digits, upper case
    in a record and lower case where it is a key.  Text is its bytes. *)

From stdpp Require Import list.
From S2P Require Import Prelude Types Messages Codec SessionWire Handshake.

Abbreviation Text := (list Z) (only parsing).

Inductive CryptoError := InvalidFingerprint.

(** [hex_nibble]. *)
Definition hex_nibble (v : Z) : option Z :=
  if (48 <=? v) && (v <=? 57) then Some (v - 48)
  else if (97 <=? v) && (v <=? 102) then Some (v - 97 + 10)
  else if (65 <=? v) && (v <=? 70) then Some (v - 65 + 10)
  else None.
(** The loop of [parse_full]: two digits a byte. *)
Fixpoint hex_bytes (digits : Text) : option (list Z) :=
  match digits with
  | [] => Some []
  | h :: l :: digits =>
      high ← hex_nibble h;
      low ← hex_nibble l;
      rest ← hex_bytes digits;
      Some (Z.lor (high ≪ 4) low :: rest)
  | _ => None
  end.
Definition parse_full (value : Text) : result CryptoError Fingerprint :=
  if negb (length value =? 64)%nat then Err InvalidFingerprint else ok_or InvalidFingerprint (hex_bytes value).

(** The digits of [{:02X}] and [{:02x}]. *)
Definition upper_digit (n : Z) : Z := if n <? 10 then 48 + n else 55 + n.
Definition lower_digit (n : Z) : Z := if n <? 10 then 48 + n else 87 + n.
Definition hex_of (digit : Z -> Z) (bs : list Z) : Text := concat ((fun b => [digit (b ≫ 4); digit (Z.land b 15)]) <$> bs).
Definition full_hex (f : Fingerprint) : Text := hex_of upper_digit f.

(** [fingerprint_key], [validate_fingerprint], [canonical_fingerprint], [device_of]. *)
Definition fingerprint_key (value : Text) : Text := to_ascii_lowercase <$> value.
Definition validate_fingerprint (value : Text) : bool :=
  match parse_full value with Ok f => bool_decide (full_hex f = value) | Err _ => false end.
Definition canonical_fingerprint (value : Text) : option Text :=
  match parse_full value with Ok f => Some (full_hex f) | Err _ => None end.
Definition device_of (value : Text) : option DeviceId :=
  match parse_full value with Ok f => Some (device_id_from_fingerprint f) | Err _ => None end.

(** [hex] and [unhex] of a digest: lower case both ways. *)
Definition hex (digest : list Z) : Text := hex_of lower_digit digest.
Definition is_lower_hex (b : Z) : bool := ((48 <=? b) && (b <=? 57)) || ((97 <=? b) && (b <=? 102)).
Definition unhex (text : Text) : option (list Z) :=
  if negb (length text =? 64)%nat || negb (forallb is_lower_hex text) then None else hex_bytes text.

(** ** One byte *)

Lemma hex_nibble_range v n : hex_nibble v = Some n -> 0 <= n < 16.
Proof. unfold hex_nibble. repeat (destruct (_ && _) eqn:?; bool_inv; [intros [= <-]; lia|]). done. Qed.
Lemma hex_nibble_upper n : 0 <= n < 16 -> hex_nibble (upper_digit n) = Some n.
Proof.
  intros Hn. unfold upper_digit, hex_nibble. destruct (n <? 10) eqn:E; bool_inv.
  - rewrite (proj2 (Z.leb_le 48 _)), (proj2 (Z.leb_le _ 57)) by lia. cbn [andb]. f_equal. lia.
  - rewrite (proj2 (Z.leb_gt _ 57)), (proj2 (Z.leb_gt 97 _)), (proj2 (Z.leb_le 65 _)), (proj2 (Z.leb_le _ 70)), andb_false_r by lia.
    cbn [andb]. f_equal. lia.
Qed.
Lemma hex_nibble_lower n : 0 <= n < 16 -> hex_nibble (lower_digit n) = Some n.
Proof.
  intros Hn. unfold lower_digit, hex_nibble. destruct (n <? 10) eqn:E; bool_inv.
  - rewrite (proj2 (Z.leb_le 48 _)), (proj2 (Z.leb_le _ 57)) by lia. cbn [andb]. f_equal. lia.
  - rewrite (proj2 (Z.leb_gt _ 57)), (proj2 (Z.leb_le 97 _)), (proj2 (Z.leb_le _ 102)), andb_false_r by lia.
    cbn [andb]. f_equal. lia.
Qed.
(** A digit is read the same in either case. *)
Lemma digit_cases v n : hex_nibble v = Some n ->
  to_ascii_uppercase v = upper_digit n /\ to_ascii_lowercase v = lower_digit n.
Proof.
  unfold hex_nibble, to_ascii_uppercase, to_ascii_lowercase, upper_digit, lower_digit. intros H.
  repeat (destruct (_ && _) eqn:?; bool_inv; try discriminate).
  all: repeat match goal with H : Some _ = Some _ |- _ => injection H as <- end.
  all: repeat match goal with H : _ \/ _ |- _ => destruct H end; bool_inv; try lia.
  all: repeat match goal with |- context [?a <? ?b] => destruct (Z.ltb_spec a b) end; split; lia.
Qed.
Lemma hex_nibble_lowercase v : hex_nibble (to_ascii_lowercase v) = hex_nibble v.
Proof.
  destruct (hex_nibble v) as [n|] eqn:E.
  - destruct (digit_cases v n E) as [_ ->]. apply hex_nibble_lower. by eapply hex_nibble_range.
  - unfold to_ascii_lowercase. destruct ((65 <=? v) && (v <=? 90)) eqn:Hr; [|done]. bool_inv. unfold hex_nibble in *.
    destruct ((48 <=? v) && (v <=? 57)) eqn:?; [done|]. destruct ((97 <=? v) && (v <=? 102)) eqn:?; [done|].
    destruct ((65 <=? v) && (v <=? 70)) eqn:Hn; [done|]. rewrite (proj2 (Z.leb_gt (v + 32) 57)), andb_false_r by lia.
    assert ((97 <=? v + 32) && (v + 32 <=? 102) = false) as ->.
    { apply andb_false_iff in Hn as [Hn|Hn]; bool_inv; [lia|]. apply andb_false_iff. right. apply Z.leb_gt. lia. }
    rewrite (proj2 (Z.leb_gt (v + 32) 70)), andb_false_r by lia. done.
Qed.
Lemma below_forall (n : nat) (P : Z -> bool) : forallb (fun k => P (Z.of_nat k)) (seq 0 n) = true -> forall b, 0 <= b < Z.of_nat n -> P b = true.
Proof.
  intros H b Hb. rewrite forallb_forall in H. rewrite <-(Z2Nat.id b) by lia. apply H, in_seq. lia.
Qed.
Lemma nibbles b : is_u8 b -> 0 <= b ≫ 4 < 16 /\ 0 <= Z.land b 15 < 16 /\ Z.lor ((b ≫ 4) ≪ 4) (Z.land b 15) = b.
Proof.
  intros Hb. pose proof (below_forall 256 (fun b => (0 <=? b ≫ 4) && (b ≫ 4 <? 16) && (0 <=? Z.land b 15) && (Z.land b 15 <? 16)
    && (Z.lor ((b ≫ 4) ≪ 4) (Z.land b 15) =? b)) ltac:(vm_compute; reflexivity) b) as H.
  specialize (H ltac:(unfold_int; lia)). cbn beta in H. bool_inv. lia.
Qed.
Lemma nibble_join h l : 0 <= h < 16 -> 0 <= l < 16 -> is_u8 (Z.lor (h ≪ 4) l) /\ Z.lor (h ≪ 4) l ≫ 4 = h /\ Z.land (Z.lor (h ≪ 4) l) 15 = l.
Proof.
  intros Hh Hl. pose proof (below_forall 16 (fun h => forallb (fun k => let l := Z.of_nat k in (0 <=? Z.lor (h ≪ 4) l) && (Z.lor (h ≪ 4) l <=? 255)
    && (Z.lor (h ≪ 4) l ≫ 4 =? h) && (Z.land (Z.lor (h ≪ 4) l) 15 =? l)) (seq 0 16)) ltac:(vm_compute; reflexivity) h ltac:(lia)) as H.
  pose proof (below_forall 16 (fun l => (0 <=? Z.lor (h ≪ 4) l) && (Z.lor (h ≪ 4) l <=? 255)
    && (Z.lor (h ≪ 4) l ≫ 4 =? h) && (Z.land (Z.lor (h ≪ 4) l) 15 =? l)) H l ltac:(lia)) as H2. cbn beta in H2. bool_inv. unfold_int. lia.
Qed.

(** ** Text *)

Section HexOf.
Context (digit : Z -> Z) (digit_read : forall n, 0 <= n < 16 -> hex_nibble (digit n) = Some n).
Lemma hex_of_length bs : length (hex_of digit bs) = (2 * length bs)%nat.
Proof. unfold hex_of. induction bs as [|b bs IH]; [done|]. cbn in *. rewrite IH. lia. Qed.
Lemma hex_bytes_of bs : bytes bs -> hex_bytes (hex_of digit bs) = Some bs.
Proof.
  induction 1 as [|b bs Hb _ IH]; [done|]. destruct (nibbles b Hb) as (H1 & H2 & E).
  change (hex_of digit (b :: bs)) with (digit (b ≫ 4) :: digit (Z.land b 15) :: hex_of digit bs). cbn [hex_bytes].
  rewrite !digit_read by done. cbn [mbind option_bind]. rewrite IH. cbn [mbind option_bind]. by rewrite E.
Qed.
End HexOf.
(** What digits read as: bytes, that print back as the digits in one case. *)
Lemma hex_bytes_inv text bs : hex_bytes text = Some bs ->
  length text = (2 * length bs)%nat /\ bytes bs /\ to_ascii_uppercase <$> text = hex_of upper_digit bs /\ fingerprint_key text = hex_of lower_digit bs.
Proof.
  revert bs. assert (forall n, forall text, (length text <= n)%nat -> forall bs, hex_bytes text = Some bs ->
    length text = (2 * length bs)%nat /\ bytes bs /\ to_ascii_uppercase <$> text = hex_of upper_digit bs
    /\ fingerprint_key text = hex_of lower_digit bs) as H.
  2: { intros bs. by apply (H (length text)). }
  clear text. induction n as [|n IH]; intros [|h [|l text]] Hl bs; cbn [length] in Hl; cbn [hex_bytes]; try lia; try done.
  1,2: intros [= <-]; split_and!; try done; constructor.
  destruct (hex_nibble h) as [x|] eqn:Eh; [|done]. destruct (hex_nibble l) as [y|] eqn:El; [|done]. cbn [mbind option_bind].
  destruct (hex_bytes text) as [rest|] eqn:Er; [|done]. intros [= <-]. destruct (IH text ltac:(lia) rest Er) as (E1 & E2 & E3 & E4).
  destruct (nibble_join x y (hex_nibble_range _ _ Eh) (hex_nibble_range _ _ El)) as (J1 & J2 & J3).
  destruct (digit_cases h x Eh) as [Uh Lh], (digit_cases l y El) as [Ul Ll]. split_and!.
  - cbn [length]. lia.
  - by constructor.
  - cbn [fmap list_fmap]. unfold hex_of in *. cbn [fmap list_fmap concat app]. rewrite J2, J3, Uh, Ul. by rewrite <-E3.
  - unfold fingerprint_key in *. cbn [fmap list_fmap]. unfold hex_of in *. cbn [fmap list_fmap concat app]. rewrite J2, J3, Lh, Ll. by rewrite <-E4.
Qed.
Lemma hex_bytes_key text : hex_bytes (fingerprint_key text) = hex_bytes text.
Proof.
  assert (forall n, forall text, (length text <= n)%nat -> hex_bytes (fingerprint_key text) = hex_bytes text) as H.
  2: by apply (H (length text)).
  clear text. induction n as [|n IH]; intros [|h [|l text]] Hl; cbn [length] in Hl; try lia; try done.
  unfold fingerprint_key in *. cbn [fmap list_fmap hex_bytes]. rewrite !hex_nibble_lowercase.
  destruct (hex_nibble h); [|done]. destruct (hex_nibble l); [|done]. cbn [mbind option_bind]. rewrite IH by lia. done.
Qed.

Lemma parse_full_hex f : is_fingerprint f -> parse_full (full_hex f) = Ok f.
Proof.
  intros [Hl Hb]. unfold parse_full, full_hex. rewrite hex_of_length, Hl. cbn [Nat.eqb Nat.mul Nat.add negb].
  rewrite (hex_bytes_of upper_digit hex_nibble_upper) by done. done.
Qed.
Lemma parse_full_Ok text f : parse_full text = Ok f ->
  is_fingerprint f /\ to_ascii_uppercase <$> text = full_hex f /\ fingerprint_key text = hex f.
Proof.
  unfold parse_full. destruct (length text =? 64)%nat eqn:El; [|done]. apply Nat.eqb_eq in El. cbn [negb].
  destruct (hex_bytes text) as [bs|] eqn:E; [|done]. intros [= <-]. apply hex_bytes_inv in E as (E1 & E2 & E3 & E4).
  split; [split; [lia|done]|done].
Qed.
Lemma parse_full_key text : parse_full (fingerprint_key text) = parse_full text.
Proof. unfold parse_full. rewrite hex_bytes_key. unfold fingerprint_key. by rewrite length_fmap. Qed.
Lemma device_of_key text : device_of (fingerprint_key text) = device_of text.
Proof. unfold device_of. by rewrite parse_full_key. Qed.
(** Two texts have one key exactly when they name one fingerprint. *)
Lemma fingerprint_key_inj a b f : parse_full a = Ok f -> (fingerprint_key a = fingerprint_key b <-> parse_full b = Ok f).
Proof.
  intros Ha. split.
  - intros E. by rewrite <-parse_full_key, <-E, parse_full_key.
  - intros Hb. apply parse_full_Ok in Ha as (_ & _ & ->). by apply parse_full_Ok in Hb as (_ & _ & ->).
Qed.
Lemma validate_fingerprint_spec text : validate_fingerprint text = true <-> exists f, is_fingerprint f /\ text = full_hex f.
Proof.
  unfold validate_fingerprint. split.
  - destruct (parse_full text) as [f|] eqn:E; [|done]. intros H. bool_inv. exists f. split; [|done]. by apply parse_full_Ok in E as [? _].
  - intros (f & Hf & ->). rewrite parse_full_hex by done. by apply bool_decide_eq_true.
Qed.
Lemma canonical_fingerprint_valid text c : canonical_fingerprint text = Some c ->
  validate_fingerprint c = true /\ fingerprint_key c = fingerprint_key text /\ canonical_fingerprint c = Some c.
Proof.
  unfold canonical_fingerprint. destruct (parse_full text) as [f|] eqn:E; [|done]. intros [= <-]. pose proof (parse_full_Ok _ _ E) as (Hf & _ & Hk).
  split_and!; [apply validate_fingerprint_spec; eauto| |by rewrite parse_full_hex].
  rewrite Hk. by apply parse_full_Ok, parse_full_hex.
Qed.
Lemma fingerprint_key_idem text : fingerprint_key (fingerprint_key text) = fingerprint_key text.
Proof.
  unfold fingerprint_key. rewrite <-list_fmap_compose. apply list_fmap_ext. intros _ b _. unfold compose, to_ascii_lowercase.
  destruct ((65 <=? b) && (b <=? 90)) eqn:E; [|by rewrite E]. bool_inv. by rewrite (proj2 (Z.leb_gt (b + 32) 90)), andb_false_r by lia.
Qed.

(** A digest survives its text. *)
Lemma lower_digit_is_lower n : 0 <= n < 16 -> is_lower_hex (lower_digit n) = true.
Proof.
  intros Hn. pose proof (below_forall 16 (fun n => is_lower_hex (lower_digit n)) ltac:(vm_compute; reflexivity) n) as H. apply H. lia.
Qed.
Lemma unhex_hex d : is_fingerprint d -> unhex (hex d) = Some d.
Proof.
  intros [Hl Hb]. unfold unhex, hex. rewrite hex_of_length, Hl. cbn [Nat.eqb Nat.mul Nat.add negb orb].
  rewrite (hex_bytes_of lower_digit hex_nibble_lower) by done.
  assert (forallb is_lower_hex (hex_of lower_digit d) = true) as ->; [|done]. clear Hl. induction Hb as [|b d Hb _ IH]; [done|].
  change (hex_of lower_digit (b :: d)) with (lower_digit (b ≫ 4) :: lower_digit (Z.land b 15) :: hex_of lower_digit d).
  cbn [forallb]. destruct (nibbles b Hb) as (H1 & H2 & _). by rewrite !lower_digit_is_lower, IH.
Qed.
