(* ===== verification/SavedLayout.v ===== *)
(** * Saved layouts (apps/monhop-desktop/src/sharing.rs, sharing_preferences.rs)

    Displays, crossings and arrangements as a record saves and sends them, in text
    and numbers, with what parses, validates, pairs and renames them. *)

From stdpp Require Import gmap list.
From S2P Require Import Prelude F64 Types Geometry Messages Codec SessionWire Topology Handshake Ordering Fingerprint.

Record DisplaySnapshot := mkSnapshot {
  s_id : Text; s_name : Text; s_origin : f64 * f64; s_size : f64 * f64; s_native : Z * Z; s_scale : Z; s_primary : bool;
  s_monitor : option Text }.
#[global] Instance DisplaySnapshot_eq_dec : EqDecision DisplaySnapshot.
Proof. solve_decision. Defined.
Record LinkRequest := mkLinkRequest {
  lr_from_display : Text; lr_from_edge : Text; lr_from_span : f64 * f64;
  lr_to_display : Text; lr_to_edge : Text; lr_to_span : f64 * f64; lr_hysteresis : f64 }.
#[global] Instance LinkRequest_eq_dec : EqDecision LinkRequest.
Proof. solve_decision. Defined.
Record DisplayPosition := mkPosition { pos_display : Text; pos_x : f64; pos_y : f64 }.
#[global] Instance DisplayPosition_eq_dec : EqDecision DisplayPosition.
Proof. solve_decision. Defined.
Record ArrangementRequest := mkArrangement { positions : list DisplayPosition; hidden : list Text }.
#[global] Instance ArrangementRequest_eq_dec : EqDecision ArrangementRequest.
Proof. solve_decision. Defined.
Abbreviation ControlMap := (gmap (list Z) bool) (only parsing).
Record LayoutRequest := mkLayoutRequest { links : list LinkRequest; arrangement : option ArrangementRequest; control : ControlMap }.
#[global] Instance LayoutRequest_eq_dec : EqDecision LayoutRequest.
Proof. solve_decision. Defined.

(** The messages a refused layout carries. *)
Inductive Refusal :=
| InvalidRecord | TooManyEdges | NotTouching | ChooseDisplay | ChooseEdge | ChooseSpan | InvalidGeometry
| PlacesTooMany | PlacesUnknown | PlacesOutOfRange | HidesUnknown | HiddenPlaced | CrossesHidden | NoneInUse
| ChooseControl | NotBothWays | CrossingsOverlap | OwnSeam | RecordTooLarge.
#[global] Instance Refusal_eq_dec : EqDecision Refusal.
Proof. solve_decision. Defined.

(** ** Numbers in text *)

Definition is_digit (b : Z) : bool := (48 <=? b) && (b <=? 57).
Definition decimal_value (digits : Text) : Z := foldl (fun v b => 10 * v + (b - 48)) 0 digits.
(** [parse_display]; [u64::parse] refuses a value past its width. *)
Definition parse_display (value : Text) : option DisplayId :=
  if bool_decide (value = []) || (20 <? length value)%nat || negb (forallb is_digit value) then None
  else if decimal_value value <=? u64_max then Some (decimal_value value) else None.
(** [u64::to_string]: at most twenty digits. *)
Fixpoint decimal_digits (fuel : nat) (n : Z) : Text :=
  match fuel with
  | O => []
  | S fuel => (if n <? 10 then [] else decimal_digits fuel (n / 10)) ++ [48 + n mod 10]
  end.
Definition to_string (n : Z) : Text := decimal_digits 20 n.

(** [{:04x}] of a [u16], [{:08x}] of a [u32]. *)
Fixpoint hex_width (width : nat) (v : Z) : Text :=
  match width with O => [] | S width => hex_width width (v ≫ 4) ++ [lower_digit (Z.land v 15)] end.
Definition minus : Z := 45.
Definition monitor_key (m : option MonitorIdentity) : option Text :=
  (fun m => hex_width 4 (vendor m) ++ [minus] ++ hex_width 4 (product m) ++ [minus] ++ hex_width 8 (serial m)) <$> m.
(** [str::split] at a byte. *)
Fixpoint split_at (c : Z) (l : Text) : Text * list Text :=
  match l with
  | [] => ([], [])
  | b :: l => let '(part, parts) := split_at c l in if b =? c then ([], part :: parts) else (b :: part, parts)
  end.
(** [from_str_radix(_, 16)] of an unsigned integer at most [max]: a plus sign is allowed. *)
Definition from_hex (max : Z) (s : Text) : option Z :=
  let digits := match s with 43 :: rest => rest | _ => s end in
  if bool_decide (digits = []) then None
  else v ← foldl (fun acc b => v ← acc; n ← hex_nibble b; Some (16 * v + n)) (Some 0) digits; if v <=? max then Some v else None.
Definition monitor_from_key (key : Text) : option MonitorIdentity :=
  let '(first, rest) := split_at minus key in
  v ← from_hex u16_max first;
  p ← match rest with second :: _ => from_hex u16_max second | [] => None end;
  s ← match rest with _ :: third :: _ => from_hex u32_max third | _ => None end;
  new_monitor_identity v p s.

(** ** Displays *)

(** [snapshots] and [topology_of]. *)
Definition snapshot_of (d : DisplayDescription) : DisplaySnapshot :=
  mkSnapshot (to_string (display_id d)) (display_name d) (px (logical_origin d), py (logical_origin d))
    (px (logical_size d), py (logical_size d)) (native_width d, native_height d) (scale_factor d) (is_primary d) (monitor_key (monitor d)).
Definition snapshots (ds : list DisplayDescription) : list DisplaySnapshot := snapshot_of <$> ds.
Definition description (s : DisplaySnapshot) : option DisplayDescription :=
  id ← parse_display (s_id s);
  Some (Messages.mkDisplay id (s_name s) (fst (s_native s)) (snd (s_native s)) (mkPoint (fst (s_origin s)) (snd (s_origin s)))
    (mkPoint (fst (s_size s)) (snd (s_size s))) (s_scale s) (s_primary s) (s_monitor s ≫= monitor_from_key)).
Definition topology_of (displays : list DisplaySnapshot) : option (list DisplayDescription) :=
  ds ← mapM description displays;
  match Messages.new_topology ds with Ok ds => Some ds | Err _ => None end.

(** The loop of [validate_displays]: the ids so far, and the primaries. *)
Definition snapshot_ok (d : DisplaySnapshot) : bool :=
  negb ((MAX_DISPLAY_NAME_BYTES <? length (s_name d))%nat
        || (fst (s_native d) =? 0) || (snd (s_native d) =? 0)
        || (MAX_NATIVE_DIMENSION <? fst (s_native d)) || (MAX_NATIVE_DIMENSION <? snd (s_native d))
        || negb (f64_is_finite (fst (s_origin d)) && f64_is_finite (snd (s_origin d)))
        || negb (f64_is_finite (fst (s_size d)) && f64_is_finite (snd (s_size d)))
        || negb (f32_is_finite (s_scale d))
        || f64_ltb MAX_LOGICAL_ORIGIN_ABS (f64_abs (fst (s_origin d))) || f64_ltb MAX_LOGICAL_ORIGIN_ABS (f64_abs (snd (s_origin d)))
        || f64_leb (fst (s_size d)) f64_zero || f64_leb (snd (s_size d)) f64_zero
        || f64_ltb MAX_LOGICAL_SIZE (fst (s_size d)) || f64_ltb MAX_LOGICAL_SIZE (snd (s_size d))
        || negb (f32_leb MIN_SCALE_FACTOR (s_scale d) && f32_leb (s_scale d) MAX_SCALE_FACTOR)
        || negb (f64_is_finite (f64_add (fst (s_origin d)) (fst (s_size d))))
        || negb (f64_is_finite (f64_add (snd (s_origin d)) (snd (s_size d))))).
Fixpoint validate_snapshots (ids : list DisplayId) (primary_count : Z) (displays : list DisplaySnapshot) : option Z :=
  match displays with
  | [] => Some primary_count
  | d :: displays =>
      id ← parse_display (s_id d);
      if negb (bool_decide (to_string id = s_id d)) || bool_decide (id ∈ ids) || negb (snapshot_ok d) then None
      else validate_snapshots (id :: ids) (primary_count + (if s_primary d then 1 else 0)) displays
  end.
Definition validate_displays (displays : list DisplaySnapshot) : bool :=
  if bool_decide (displays = []) || (MAX_DISPLAYS <? length displays)%nat then false
  else bool_decide (validate_snapshots [] 0 displays = Some 1).

Definition pair_eqb (a b : f64 * f64) : bool := f64_eqb (fst a) (fst b) && f64_eqb (snd a) (snd b).
Definition same_geometry (left right : DisplaySnapshot) : bool :=
  pair_eqb (s_origin left) (s_origin right) && pair_eqb (s_size left) (s_size right)
  && bool_decide (s_native left = s_native right) && f32_eqb (s_scale left) (s_scale right)
  && bool_decide (s_primary left = s_primary right).
Definition same_display_geometry (left right : list DisplaySnapshot) : bool :=
  (length left =? length right)%nat
  && forallb (fun d => existsb (fun candidate => bool_decide (s_id d = s_id candidate) && same_geometry d candidate) right) left.

(** ** The same monitors *)

Definition reports (key : Text) (d : DisplaySnapshot) : bool := bool_decide (s_monitor d = Some key).
Definition usable_monitor (d : DisplaySnapshot) (l : list DisplaySnapshot) : option Text :=
  key ← s_monitor d;
  if (length (List.filter (reports key) l) =? 1)%nat then Some key else None.
(** The first loop's candidate of a remembered display, and the second's. *)
Definition by_monitor (remembered live : list DisplaySnapshot) (d : DisplaySnapshot) : option DisplaySnapshot :=
  key ← usable_monitor d remembered;
  List.find (fun candidate => bool_decide (usable_monitor candidate live = Some key)) live.
Definition by_id (pairs : list (DisplaySnapshot * DisplaySnapshot)) (live : list DisplaySnapshot) (d : DisplaySnapshot) : option DisplaySnapshot :=
  List.find (fun candidate => bool_decide (s_id candidate = s_id d)
    && negb (existsb (fun p => bool_decide (s_id (snd p) = s_id candidate)) pairs)
    && (bool_decide (s_monitor d = None) || bool_decide (s_monitor candidate = None)
        || bool_decide (s_monitor d = s_monitor candidate))) live.
Definition pair_by_monitor (remembered live : list DisplaySnapshot) : list (DisplaySnapshot * DisplaySnapshot) :=
  omap (fun d => c ← by_monitor remembered live d; Some (d, c)) remembered.
Definition pair_rest (remembered live : list DisplaySnapshot) (pairs : list (DisplaySnapshot * DisplaySnapshot)) (d : DisplaySnapshot)
  : list (DisplaySnapshot * DisplaySnapshot) :=
  if bool_decide (is_Some (by_monitor remembered live d)) then pairs
  else match by_id pairs live d with Some c => pairs ++ [(d, c)] | None => pairs end.
Definition pair_displays (remembered live : list DisplaySnapshot) : list (DisplaySnapshot * DisplaySnapshot) :=
  foldl (pair_rest remembered live) (pair_by_monitor remembered live) remembered.
Definition same_displays (remembered live : list DisplaySnapshot) : option (list (DisplaySnapshot * DisplaySnapshot)) :=
  let pairs := pair_displays remembered live in
  if (length remembered =? length live)%nat && (length pairs =? length remembered)%nat then Some pairs else None.
Definition id_map (pairs : list (DisplaySnapshot * DisplaySnapshot)) : gmap (list Z) Text :=
  foldl (fun m p => <[s_id (fst p) := s_id (snd p)]> m) ∅ pairs.

(** ** Layouts *)

Definition rename (map : gmap (list Z) Text) (id : Text) : Text := default id (map !! id).
Definition rename_link (map : gmap (list Z) Text) (l : LinkRequest) : LinkRequest :=
  mkLinkRequest (rename map (lr_from_display l)) (lr_from_edge l) (lr_from_span l)
    (rename map (lr_to_display l)) (lr_to_edge l) (lr_to_span l) (lr_hysteresis l).
Definition remap_layout (l : LayoutRequest) (map : gmap (list Z) Text) : LayoutRequest :=
  mkLayoutRequest (rename_link map <$> links l)
    ((fun a => mkArrangement ((fun p => mkPosition (rename map (pos_display p)) (pos_x p) (pos_y p)) <$> positions a)
                             (rename map <$> hidden a)) <$> arrangement l) (control l).

Definition parse_edge (value : Text) : option Edge :=
  if bool_decide (value = [108; 101; 102; 116]) then Some LeftEdge           (* left *)
  else if bool_decide (value = [114; 105; 103; 104; 116]) then Some RightEdge (* right *)
  else if bool_decide (value = [116; 111; 112]) then Some TopEdge             (* top *)
  else if bool_decide (value = [98; 111; 116; 116; 111; 109]) then Some BottomEdge (* bottom *)
  else None.
Definition parse_link (l : LinkRequest) : result Refusal EdgeLink :=
  from_d ← ok_or ChooseDisplay (parse_display (lr_from_display l));
  from_e ← ok_or ChooseEdge (parse_edge (lr_from_edge l));
  from_s ← map_err (fun _ => ChooseSpan) (new_span (fst (lr_from_span l)) (snd (lr_from_span l)));
  to_d ← ok_or ChooseDisplay (parse_display (lr_to_display l));
  to_e ← ok_or ChooseEdge (parse_edge (lr_to_edge l));
  to_s ← map_err (fun _ => ChooseSpan) (new_span (fst (lr_to_span l)) (snd (lr_to_span l)));
  map_err (fun _ => InvalidGeometry) (new_link from_d from_e from_s to_d to_e to_s (lr_hysteresis l)).

Definition MAX_ARRANGED_DISPLAYS : nat := 32.
Definition MAX_ARRANGEMENT_COORDINATE : f64 := 0x417312D000000000. (* 20_000_000.0 *)
(** [validate_arrangement] on the ids of the connected displays, each local or not. *)
Fixpoint check_positions (known : list Text) (used : list Text) (l : list DisplayPosition) : result Refusal (list Text) :=
  match l with
  | [] => Ok used
  | p :: l =>
      if bool_decide (parse_display (pos_display p) = None) || negb (bool_decide (pos_display p ∈ known)) || bool_decide (pos_display p ∈ used)
      then Err PlacesUnknown
      else if negb (f64_is_finite (pos_x p)) || negb (f64_is_finite (pos_y p))
              || f64_ltb MAX_ARRANGEMENT_COORDINATE (f64_abs (pos_x p)) || f64_ltb MAX_ARRANGEMENT_COORDINATE (f64_abs (pos_y p))
      then Err PlacesOutOfRange
      else check_positions known (used ++ [pos_display p]) l
  end.
Definition names (id : DisplayId) (value : Text) : bool := bool_decide (parse_display value = Some id).
Fixpoint check_hidden (known : list Text) (ls : list LinkRequest) (used : list Text) (l : list Text) : result Refusal () :=
  match l with
  | [] => Ok ()
  | h :: l =>
      id ← ok_or HidesUnknown (if bool_decide (h ∈ known) then parse_display h else None);
      if bool_decide (h ∈ used) then Err HiddenPlaced
      else if existsb (fun k => names id (lr_from_display k) || names id (lr_to_display k)) ls then Err CrossesHidden
      else check_hidden known ls (used ++ [h]) l
  end.
Definition all_hidden (a : ArrangementRequest) (own : list Text) : bool :=
  negb (bool_decide (own = [])) && forallb (fun id => bool_decide (id ∈ hidden a)) own.
Definition validate_arrangement (layout : LayoutRequest) (displays : list (Text * bool)) : result Refusal () :=
  match arrangement layout with
  | None => Ok ()
  | Some a =>
      if (MAX_ARRANGED_DISPLAYS <? length (positions a))%nat || (MAX_ARRANGED_DISPLAYS <? length (hidden a))%nat then Err PlacesTooMany
      else
        let known := fst <$> displays in
        used ← check_positions known [] (positions a);
        _ ← check_hidden known (links layout) used (hidden a);
        if existsb (fun local => all_hidden a (fst <$> filter (fun d => snd d = local) displays)) [true; false] then Err NoneInUse
        else Ok ()
  end.

(** [block_translation]; an id that does not parse counts as the greatest. *)
Definition placed (a : ArrangementRequest) (d : DisplaySnapshot) : option DisplayPosition :=
  List.find (fun p => bool_decide (pos_display p = s_id d)) (positions a).
Definition is_placed (a : ArrangementRequest) (d : DisplaySnapshot) : bool := bool_decide (is_Some (placed a d)).
Definition numeric (d : DisplaySnapshot) : Z := default u64_max (parse_display (s_id d)).
Definition anchor (a : ArrangementRequest) (displays : list DisplaySnapshot) : option DisplaySnapshot :=
  match List.find (fun d => s_primary d && is_placed a d) displays with
  | Some d => Some d
  | None => min_by_key numeric (List.filter (is_placed a) displays)
  end.
Definition block_translation (a : ArrangementRequest) (displays : list DisplaySnapshot) : option (f64 * f64) :=
  d ← anchor a displays;
  p ← placed a d;
  Some (f64_sub (pos_x p) (fst (s_origin d)), f64_sub (pos_y p) (snd (s_origin d))).

(** ** Numbers survive their text *)

Lemma decimal_value_snoc l b : decimal_value (l ++ [b]) = 10 * decimal_value l + (b - 48).
Proof. unfold decimal_value. by rewrite foldl_app. Qed.
Lemma decimal_digits_spec fuel n : (0 < fuel)%nat -> 0 <= n < 10 ^ Z.of_nat fuel ->
  decimal_value (decimal_digits fuel n) = n /\ (0 < length (decimal_digits fuel n) <= fuel)%nat /\ forallb is_digit (decimal_digits fuel n) = true.
Proof.
  revert n. induction fuel as [|fuel IH]; intros n Hf Hn; [lia|]. cbn [decimal_digits].
  assert (is_digit (48 + n mod 10) = true) as Hd by (unfold is_digit; apply andb_true_iff; rewrite !Z.leb_le; Z.div_mod_to_equations; lia).
  rewrite decimal_value_snoc, length_app, forallb_app. cbn [length forallb]. rewrite Hd. destruct (n <? 10) eqn:E; bool_inv.
  - cbn. rewrite Z.mod_small by lia. split_and!; try done; lia.
  - assert (0 < fuel)%nat by (destruct fuel; [cbn in Hn; lia|lia]).
    rewrite Nat2Z.inj_succ, Z.pow_succ_r in Hn by lia. destruct (IH (n / 10)) as (-> & Hl & ->); [done| |].
    { split; [apply Z.div_pos; lia|apply Z.div_lt_upper_bound; lia]. }
    split_and!; [Z.div_mod_to_equations; lia|lia|lia|done].
Qed.
Lemma parse_display_to_string n : is_u64 n -> parse_display (to_string n) = Some n.
Proof.
  intros Hn. destruct (decimal_digits_spec 20 n) as (Ev & Hl & Hd); [lia|unfold_int; lia|]. unfold parse_display, to_string.
  rewrite bool_decide_eq_false_2 by (intros E; rewrite E in Hl; cbn in Hl; lia). rewrite (proj2 (Nat.ltb_ge 20 _)) by lia.
  rewrite Hd, Ev. cbn [orb negb]. by rewrite (proj2 (Z.leb_le n u64_max)) by (unfold_int; lia).
Qed.
Lemma to_string_inj n m : is_u64 n -> is_u64 m -> to_string n = to_string m -> n = m.
Proof. intros Hn Hm E. pose proof (parse_display_to_string n Hn) as H. rewrite E, parse_display_to_string in H by done. congruence. Qed.

Definition hex_step (acc : option Z) (b : Z) : option Z := v ← acc; n ← hex_nibble b; Some (16 * v + n).
Lemma hex_width_spec w v : 0 <= v < 16 ^ Z.of_nat w ->
  foldl hex_step (Some 0) (hex_width w v) = Some v /\ length (hex_width w v) = w /\ Forall (fun b => b <> minus /\ b <> 43) (hex_width w v).
Proof.
  revert v. induction w as [|w IH]; intros v Hv; cbn [hex_width]; [split_and!; [|done|constructor]; change (Some 0 = Some v); change (16 ^ Z.of_nat 0) with 1 in Hv; f_equal; lia|].
  rewrite Nat2Z.inj_succ, Z.pow_succ_r in Hv by lia. rewrite foldl_app, length_app. rewrite Z.shiftr_div_pow2 by lia. change (2 ^ 4) with 16.
  destruct (IH (v / 16)) as (-> & -> & HF); [split; [apply Z.div_pos; lia|apply Z.div_lt_upper_bound; lia]|].
  change 15 with (Z.ones 4). rewrite Z.land_ones by lia. change (2 ^ 4) with 16. assert (0 <= v mod 16 < 16) as Hm by (apply Z.mod_pos_bound; lia).
  cbn [foldl hex_step mbind option_bind length]. rewrite hex_nibble_lower by done. cbn [mbind option_bind]. split_and!; [f_equal; Z.div_mod_to_equations; lia|lia|].
  apply Forall_app. split; [done|]. constructor; [|constructor]. unfold lower_digit, minus. destruct (_ <? 10) eqn:E; bool_inv; lia.
Qed.
Lemma from_hex_width w v max : (0 < w)%nat -> 0 <= v < 16 ^ Z.of_nat w -> v <= max -> from_hex max (hex_width w v) = Some v.
Proof.
  intros Hw Hv Hm. destruct (hex_width_spec w v Hv) as (Ef & El & HF). unfold from_hex.
  assert ((match hex_width w v with 43 :: rest => rest | _ => hex_width w v end) = hex_width w v) as ->.
  { destruct HF as [|b l [_ Hb] _]; [done|]. destruct b as [|b|b]; try done. by repeat (destruct b as [b|b|]; try done). }
  rewrite bool_decide_eq_false_2 by (intros E; rewrite E in El; cbn in El; lia). fold hex_step. rewrite Ef. cbn [mbind option_bind].
  by rewrite (proj2 (Z.leb_le v max)).
Qed.
Lemma split_at_spec c l rest : Forall (fun b => b <> c) l -> split_at c (l ++ c :: rest) = (l, fst (split_at c rest) :: snd (split_at c rest)).
Proof.
  induction 1 as [|b l Hb _ IH]; cbn [app split_at].
  - destruct (split_at c rest). by rewrite Z.eqb_refl.
  - rewrite IH. by rewrite (proj2 (Z.eqb_neq b c)).
Qed.
Lemma split_at_last c l : Forall (fun b => b <> c) l -> split_at c l = (l, []).
Proof. induction 1 as [|b l Hb _ IH]; [done|]. cbn [split_at]. rewrite IH. by rewrite (proj2 (Z.eqb_neq b c)). Qed.
Lemma monitor_key_read m : is_monitor_identity m ->
  monitor_from_key (hex_width 4 (vendor m) ++ [minus] ++ hex_width 4 (product m) ++ [minus] ++ hex_width 8 (serial m))
  = new_monitor_identity (vendor m) (product m) (serial m).
Proof.
  intros (Hv & Hp & Hs). unfold is_u16, is_u32 in *.
  assert (0 <= vendor m < 16 ^ 4 /\ 0 <= product m < 16 ^ 4 /\ 0 <= serial m < 16 ^ 8) as (Bv & Bp & Bs) by (unfold_int; lia).
  destruct (hex_width_spec 4 _ Bv) as (_ & _ & Fv), (hex_width_spec 4 _ Bp) as (_ & _ & Fp), (hex_width_spec 8 _ Bs) as (_ & _ & Fs).
  assert (forall l, Forall (fun b => b <> minus /\ b <> 43) l -> Forall (fun b => b <> minus) l) as Hf.
  { intros l Hl. eapply list.Forall_impl; [exact Hl|]. by intros ? [? _]. }
  unfold monitor_from_key. cbn [app]. rewrite split_at_spec by auto. rewrite (split_at_spec _ (hex_width 4 (product m))) by auto.
  rewrite split_at_last by auto. cbn [fst snd]. rewrite (from_hex_width 4) by (lia || (unfold_int; lia)). cbn [mbind option_bind].
  rewrite (from_hex_width 4) by (lia || (unfold_int; lia)). cbn [mbind option_bind]. by rewrite (from_hex_width 8) by (lia || (unfold_int; lia)).
Qed.

(** ** Displays survive being saved *)

Lemma description_snapshot d : display_typed d -> description (snapshot_of d) = Some (normalise_display d).
Proof.
  intros (Hi & _ & _ & _ & _ & _ & _ & _ & Hm). unfold description, snapshot_of. cbn [s_id s_name s_native s_origin s_size s_scale s_primary s_monitor fst snd].
  rewrite parse_display_to_string by done. cbn [mbind option_bind]. unfold normalise_display, monitor_key. destruct d as [? ? ? ? [] [] ? ? [m|]]; [|done].
  cbn [Messages.monitor fmap option_fmap option_map mbind option_bind] in *. by rewrite monitor_key_read.
Qed.
Lemma descriptions_snapshots ds : Forall display_typed ds -> mapM description (snapshots ds) = Some (normalise_display <$> ds).
Proof.
  induction 1 as [|d ds Hd _ IH]; [done|]. cbn [snapshots fmap list_fmap mapM]. rewrite description_snapshot by done. cbn [mbind option_bind].
  unfold snapshots in IH. by rewrite IH.
Qed.
Lemma snapshot_validates d : Messages.validate_display d = Ok () -> snapshot_ok (snapshot_of d) = true.
Proof.
  unfold Messages.validate_display, snapshot_ok, point_is_finite. cbn [snapshot_of s_name s_native s_origin s_size s_scale fst snd]. intros H.
  repeat match goal with
  | H : (if ?c then Err _ else _) = Ok _ |- _ => let E := fresh "E" in destruct c eqn:E; [discriminate H|]
  end.
  bool_inv. apply negb_true_iff. repeat (apply orb_false_iff; split); try done.
  all: try (by apply Z.eqb_neq); try (by apply Z.ltb_ge); repeat match goal with E : ?x = true |- context [?x] => rewrite E end; done.
Qed.
Lemma snapshots_validate ds ids : Forall display_typed ds -> forall previous n k, validate_loop previous n ds = Ok k ->
  (forall i, i ∈ ids <-> i ∈ previous) -> validate_snapshots ids n (snapshots ds) = Some k.
Proof.
  intros HF. revert ids. induction HF as [|d ds Hd _ IH]; intros ids previous n k; cbn [validate_loop snapshots fmap list_fmap validate_snapshots]; [by intros [= <-]|].
  intros H Hids. result_inv. destruct x. cbn [s_id snapshot_of s_primary]. pose proof Hd as (Hi & _). rewrite parse_display_to_string by done.
  cbn [mbind option_bind]. rewrite bool_decide_eq_true_2 by done. fold (snapshot_of d). rewrite snapshot_validates by done. bool_inv.
  rewrite bool_decide_eq_false_2 by (by rewrite Hids). cbn [negb orb]. eapply IH; [|].
  - replace (n + (if is_primary d then 1 else 0)) with (if is_primary d then n + 1 else n) by (destruct (is_primary d); lia). eassumption.
  - intros i. rewrite elem_of_cons, elem_of_app, list_elem_of_singleton, Hids. tauto.
Qed.

(** C24. A computer's displays survive being saved: the snapshots of a topology that
    validates are a valid record entry, and read back as that topology, its
    displays as the wire itself normalises them. *)
Theorem displays_survive_saving ds : Forall display_typed ds -> validate_topology ds = Ok () ->
  validate_displays (snapshots ds) = true /\ topology_of (snapshots ds) = Some (normalise_display <$> ds).
Proof.
  intros HF Hv. split.
  - unfold validate_topology in Hv. unfold validate_displays. destruct (length ds =? 0)%nat eqn:E0; [done|]. destruct (MAX_DISPLAYS <? length ds)%nat eqn:E1; [done|].
    rewrite bool_decide_eq_false_2 by (by destruct ds). unfold snapshots at 1. rewrite length_fmap, E1. cbn [orb]. result_inv. bool_inv. subst.
    apply bool_decide_eq_true. by eapply snapshots_validate.
  - unfold topology_of. rewrite descriptions_snapshots by done. cbn [mbind option_bind]. unfold Messages.new_topology. by rewrite normalise_validate, Hv.
Qed.
Lemma displays_survive_saving_witness : topology_of (snapshots [Codec.sample_display 1 true None; Codec.sample_display 184467 false None])
  = Some [Codec.sample_display 1 true None; Codec.sample_display 184467 false None].
Proof.
  apply (displays_survive_saving [Codec.sample_display 1 true None; Codec.sample_display 184467 false None]); [|vm_compute; reflexivity].
  constructor; [|constructor; [|constructor]]; apply sample_display_typed; unfold_int; lia.
Defined.

(** ** Pairs are a matching *)

Definition compatible (p : DisplaySnapshot * DisplaySnapshot) : Prop :=
  s_monitor (fst p) = None \/ s_monitor (snd p) = None \/ s_monitor (fst p) = s_monitor (snd p).
Record Matching (remembered live : list DisplaySnapshot) (pairs : list (DisplaySnapshot * DisplaySnapshot)) : Prop := {
  matching_fst : forall p, p ∈ pairs -> fst p ∈ remembered;
  matching_snd : forall p, p ∈ pairs -> snd p ∈ live;
  matching_compatible : forall p, p ∈ pairs -> compatible p;
  matching_once : NoDup (fst <$> pairs);
  matching_live_once : NoDup ((s_id ∘ snd) <$> pairs) }.

Lemma usable_monitor_spec d l key : usable_monitor d l = Some key -> s_monitor d = Some key /\ length (List.filter (reports key) l) = 1%nat.
Proof.
  unfold usable_monitor. destruct (s_monitor d) as [k|]; [|done]. cbn [mbind option_bind]. destruct (_ =? 1)%nat eqn:E; [|done]. intros [= ->].
  split; [done|by apply Nat.eqb_eq].
Qed.
Lemma filter_once {A} (f : A -> bool) l x y : length (List.filter f l) = 1%nat -> x ∈ l -> y ∈ l -> f x = true -> f y = true -> x = y.
Proof.
  intros Hl Hx Hy Fx Fy. assert (forall z, z ∈ l -> f z = true -> In z (List.filter f l)) as H.
  { intros z Hz Fz. apply filter_In. split; [by apply list_elem_of_In|done]. }
  apply H in Hx; [|done]. apply H in Hy; [|done]. destruct (List.filter f l) as [|a [|]]; try done. destruct Hx as [->|[]], Hy as [->|[]]. done.
Qed.
Lemma by_monitor_spec remembered live d c : by_monitor remembered live d = Some c ->
  exists key, usable_monitor d remembered = Some key /\ usable_monitor c live = Some key /\ c ∈ live.
Proof.
  unfold by_monitor. destruct (usable_monitor d remembered) as [key|]; [|done]. cbn [mbind option_bind]. intros [Hin Hk]%List.find_some.
  bool_inv. exists key. split_and!; try done. by apply list_elem_of_In.
Qed.
Lemma elem_of_omap_pairs remembered live p : p ∈ pair_by_monitor remembered live <->
  fst p ∈ remembered /\ by_monitor remembered live (fst p) = Some (snd p).
Proof.
  unfold pair_by_monitor. rewrite list_elem_of_omap. split.
  - intros (d & Hd & E). destruct (by_monitor remembered live d) as [c|] eqn:Ec; [|done]. injection E as <-. done.
  - intros [Hd E]. exists (fst p). split; [done|]. rewrite E. by destruct p.
Qed.
Lemma omap_fst remembered live l : NoDup l ->
  NoDup (fst <$> omap (fun d => c ← by_monitor remembered live d; Some (d, c)) l).
Proof.
  induction 1 as [|d l Hd _ IH]; [constructor|]. cbn [omap list_omap]. destruct (by_monitor remembered live d) as [c|]; [|done].
  cbn [mbind option_bind fmap list_fmap fst]. constructor; [|done]. intros (p & -> & (x & Hx & E)%list_elem_of_omap)%list_elem_of_fmap.
  destruct (by_monitor remembered live x); [|done]. by injection E as <-.
Qed.
Lemma NoDup_fmap_on {A B} (f : A -> B) (l : list A) : NoDup l -> (forall x y, x ∈ l -> y ∈ l -> f x = f y -> x = y) -> NoDup (f <$> l).
Proof.
  induction 1 as [|x l Hx _ IH]; intros Hinj; [constructor|]. cbn [fmap list_fmap]. constructor.
  - intros (y & E & Hy)%list_elem_of_fmap. rewrite (Hinj x y) in Hx; [done|by left|by right|done].
  - apply IH. intros a b Ha Hb. apply Hinj; by right.
Qed.
Lemma NoDup_of_fmap {A B} (f : A -> B) l : NoDup (f <$> l) -> NoDup l.
Proof. apply NoDup_fmap_1. Qed.
Lemma id_inj (l : list DisplaySnapshot) x y : NoDup (s_id <$> l) -> x ∈ l -> y ∈ l -> s_id x = s_id y -> x = y.
Proof.
  induction l as [|z l IH]; [by intros _ ?%not_elem_of_nil|]. cbn [fmap list_fmap]. intros [Hz Hn]%list.NoDup_cons.
  intros [->|Hx]%elem_of_cons [->|Hy]%elem_of_cons E; [done|..|by apply IH].
  - destruct Hz. rewrite E. by apply list_elem_of_fmap_2.
  - destruct Hz. rewrite <-E. by apply list_elem_of_fmap_2.
Qed.
Lemma pair_by_monitor_matching remembered live : NoDup (s_id <$> remembered) -> NoDup (s_id <$> live) ->
  Matching remembered live (pair_by_monitor remembered live).
Proof.
  intros Hr Hl. pose proof (NoDup_of_fmap _ _ Hr) as Hr0. split.
  - by intros p [? _]%elem_of_omap_pairs.
  - by intros p [_ (key & _ & _ & ?)%by_monitor_spec]%elem_of_omap_pairs.
  - intros p [_ (key & [E1 _]%usable_monitor_spec & [E2 _]%usable_monitor_spec & _)%by_monitor_spec]%elem_of_omap_pairs. right. right. by rewrite E1, E2.
  - by apply omap_fst.
  - apply NoDup_fmap_on; [by apply (NoDup_of_fmap fst), omap_fst|]. intros p q [Hp Ep]%elem_of_omap_pairs [Hq Eq]%elem_of_omap_pairs E.
    destruct (by_monitor_spec _ _ _ _ Ep) as (k1 & U1 & V1 & L1), (by_monitor_spec _ _ _ _ Eq) as (k2 & U2 & V2 & L2).
    assert (snd p = snd q) as Es by (by apply (id_inj live)). rewrite Es, V2 in V1. injection V1 as ->.
    apply usable_monitor_spec in U1 as [M1 C1], U2 as [M2 _]. destruct p as [p1 p2], q as [q1 q2]. cbn [fst snd] in *. subst. f_equal.
    apply (filter_once (reports k1) remembered); try done; by apply bool_decide_eq_true.
Qed.
Lemma by_id_spec pairs live d c : by_id pairs live d = Some c ->
  c ∈ live /\ compatible (d, c) /\ s_id c ∉ (s_id ∘ snd) <$> pairs.
Proof.
  unfold by_id. intros [Hin H]%List.find_some. bool_inv. split_and!; [by apply list_elem_of_In| |].
  - unfold compatible. cbn [fst snd]. match goal with H : _ \/ _ |- _ => destruct H end; bool_inv; [|tauto]. match goal with H : _ \/ _ |- _ => destruct H end; bool_inv; tauto.
  - intros (p & E & Hp)%list_elem_of_fmap. match goal with H : existsb _ _ = false |- _ => rewrite <-not_true_iff_false, existsb_exists in H; apply H end.
    exists p. split; [by apply list_elem_of_In|]. by apply bool_decide_eq_true.
Qed.
Lemma pair_rest_matching remembered live l : forall pairs, NoDup l -> (forall d, d ∈ l -> d ∈ remembered) ->
  Matching remembered live pairs -> (forall p, p ∈ pairs -> fst p ∉ l \/ is_Some (by_monitor remembered live (fst p))) ->
  Matching remembered live (foldl (pair_rest remembered live) pairs l).
Proof.
  induction l as [|d l IH]; intros pairs Hn Hsub HM Hl; [done|]. cbn [foldl]. apply list.NoDup_cons in Hn as [Hd Hn].
  assert (forall p, p ∈ pairs -> fst p ∉ l \/ is_Some (by_monitor remembered live (fst p))) as Hl'.
  { intros p Hp. destruct (Hl p Hp) as [H|H]; [left; intros ?; apply H; by right|by right]. }
  assert (forall d, d ∈ l -> d ∈ remembered) as Hsub' by (intros x ?; apply Hsub; by right).
  unfold pair_rest at 2. case_bool_decide as Hb; [by apply IH|]. destruct (by_id pairs live d) as [c|] eqn:E; [|by apply IH].
  apply by_id_spec in E as (Hc & Hk & Hnew). apply IH; try done.
  - destruct HM as [M1 M2 M3 M4 M5]. split.
    + intros p [Hp| ->%list_elem_of_singleton]%elem_of_app; [auto|]. apply Hsub. by left.
    + intros p [Hp| ->%list_elem_of_singleton]%elem_of_app; auto.
    + intros p [Hp| ->%list_elem_of_singleton]%elem_of_app; auto.
    + rewrite fmap_app. apply list.NoDup_app. split_and!; [done| |apply list.NoDup_singleton]. intros x (p & -> & Hp)%list_elem_of_fmap Hx.
      apply list_elem_of_singleton in Hx. cbn [fst] in Hx. destruct (Hl p Hp) as [H|H]; [apply H; rewrite Hx; by left|]. by rewrite Hx in H.
    + rewrite fmap_app. apply list.NoDup_app. split_and!; [done| |apply list.NoDup_singleton]. intros x Hx Hy.
      apply list_elem_of_singleton in Hy. cbn in Hy. by subst.
  - intros p [Hp| ->%list_elem_of_singleton]%elem_of_app; [auto|]. by left.
Qed.
Lemma pair_displays_matching remembered live : NoDup (s_id <$> remembered) -> NoDup (s_id <$> live) ->
  Matching remembered live (pair_displays remembered live).
Proof.
  intros Hr Hl. apply pair_rest_matching; [by eapply NoDup_of_fmap|done|by apply pair_by_monitor_matching|].
  intros p [_ E]%elem_of_omap_pairs. right. by rewrite E.
Qed.

(** Displays that are the only ones to report a monitor are paired. *)
Lemma by_monitor_found remembered live d c key : c ∈ live -> usable_monitor d remembered = Some key ->
  usable_monitor c live = Some key -> by_monitor remembered live d = Some c.
Proof.
  intros Hc Hd Hk. unfold by_monitor. rewrite Hd. cbn [mbind option_bind]. destruct (List.find _ live) as [c'|] eqn:E.
  - apply List.find_some in E as [Hin Hk']. bool_inv. apply usable_monitor_spec in Hk as [M1 C1]. apply usable_monitor_spec in Hk' as [M2 _].
    f_equal. apply (filter_once (reports key) live); try done; [by apply list_elem_of_In|by apply bool_decide_eq_true..].
  - apply list_elem_of_In, (List.find_none _ _ E) in Hc. by rewrite bool_decide_eq_true_2 in Hc.
Qed.
Lemma pair_rest_keeps remembered live l : forall pairs p, p ∈ pairs -> p ∈ foldl (pair_rest remembered live) pairs l.
Proof.
  induction l as [|d l IH]; intros pairs p Hp; [done|]. cbn [foldl]. apply IH. unfold pair_rest. case_bool_decide; [done|].
  destruct (by_id _ _ _); [|done]. apply elem_of_app. by left.
Qed.
Lemma pair_displays_monitor remembered live d c key : d ∈ remembered -> c ∈ live -> usable_monitor d remembered = Some key ->
  usable_monitor c live = Some key -> (d, c) ∈ pair_displays remembered live.
Proof. intros Hd Hc Kd Kc. apply pair_rest_keeps, elem_of_omap_pairs. split; [done|]. by eapply by_monitor_found. Qed.
(** A display is paired with one of the same number, unless that reports another
    monitor or is taken. *)
Lemma pair_displays_id remembered live d c : d ∈ remembered -> c ∈ live -> s_id c = s_id d -> compatible (d, c) ->
  exists p, p ∈ pair_displays remembered live /\ (fst p = d \/ s_id (snd p) = s_id c).
Proof.
  intros Hd Hc Ei Hk. destruct (by_monitor remembered live d) as [c'|] eqn:Eb.
  { exists (d, c'). split; [|by left]. by apply pair_rest_keeps, elem_of_omap_pairs. }
  unfold pair_displays. generalize (pair_by_monitor remembered live) as pairs. assert (Hl : d ∈ remembered) by done. revert Hl.
  generalize remembered at 1 3 as l. induction l as [|x l IH]; [by intros ?%not_elem_of_nil|].
  intros [->|Hl]%elem_of_cons pairs; cbn [foldl]; [|by apply IH]. unfold pair_rest at 2.
  rewrite bool_decide_eq_false_2 by (rewrite Eb; by intros [? ?]). destruct (by_id pairs live x) as [c'|] eqn:E.
  { exists (x, c'). split; [|by left]. apply pair_rest_keeps, elem_of_app. right. by apply list_elem_of_singleton. }
  unfold by_id in E. apply (List.find_none _ _) with (x := c) in E; [|by apply list_elem_of_In].
  rewrite (bool_decide_eq_true_2 (s_id c = s_id x)) in E by done. cbn [andb] in E. apply andb_false_iff in E as [E|E].
  - apply negb_false_iff, existsb_exists in E as (p & Hp & Ep). bool_inv. exists p. split; [|by right]. apply pair_rest_keeps. by apply list_elem_of_In.
  - exfalso. unfold compatible in Hk. cbn [fst snd] in Hk. destruct Hk as [Hk|[Hk|Hk]];
      rewrite (bool_decide_eq_true_2 _ Hk), ?orb_true_r in E; done.
Qed.

(** Renaming through a matching sends distinct displays to distinct displays. *)
Lemma id_map_none pairs a : id_map pairs !! a = None -> forall p, p ∈ pairs -> s_id (fst p) <> a.
Proof.
  unfold id_map. assert (forall m : gmap (list Z) Text, foldl (fun (m : gmap (list Z) Text) p => <[s_id (fst p) := s_id (snd p)]> m) m pairs !! a = None ->
    m !! a = None /\ forall p, p ∈ pairs -> s_id (fst p) <> a) as H; [|by intros [_ ?]%H].
  induction pairs as [|p pairs IH]; intros m; cbn [foldl]; [intros ?; split; [done|by intros ? ?%not_elem_of_nil]|].
  intros [Hm Hn]%IH. destruct (decide (s_id (fst p) = a)) as [E|E]; [by rewrite E, lookup_insert_eq in Hm|].
  rewrite lookup_insert_ne in Hm by done. split; [done|]. intros q [->|Hq]%elem_of_cons; [done|by apply Hn].
Qed.
Lemma id_map_lookup pairs a x : id_map pairs !! a = Some x -> exists p, p ∈ pairs /\ s_id (fst p) = a /\ s_id (snd p) = x.
Proof.
  unfold id_map. assert (forall m, foldl (fun (m : gmap (list Z) Text) p => <[s_id (fst p) := s_id (snd p)]> m) m pairs !! a = Some x ->
    m !! a = Some x \/ exists p, p ∈ pairs /\ s_id (fst p) = a /\ s_id (snd p) = x) as H.
  { induction pairs as [|p pairs IH]; intros m; cbn [foldl]; [auto|]. intros [Hm|(q & Hq & Eq)]%IH; [|right; exists q; split; [by right|done]].
    destruct (decide (s_id (fst p) = a)) as [E|E]; [|rewrite lookup_insert_ne in Hm by done; auto].
    rewrite E, lookup_insert_eq in Hm. injection Hm as Hm. right. exists p. split; [by left|done]. }
  intros [Hm|?]%H; [|done]. by rewrite lookup_empty in Hm.
Qed.
Lemma id_map_inj remembered live pairs a b x : Matching remembered live pairs ->
  id_map pairs !! a = Some x -> id_map pairs !! b = Some x -> a = b.
Proof.
  intros HM (p & Hp & Ea & Ep)%id_map_lookup (q & Hq & Eb & Eq)%id_map_lookup. subst a b. pose proof (matching_live_once _ _ _ HM) as Hn.
  assert (p = q) as ->; [|done]. revert Hp Hq Hn. clear HM. induction pairs as [|r pairs IH]; [by intros ?%not_elem_of_nil|].
  cbn [fmap list_fmap]. intros [->|Hp]%elem_of_cons [->|Hq]%elem_of_cons [Hr Hn]%list.NoDup_cons; [done|..|by apply IH].
  - destruct Hr. apply list_elem_of_fmap. exists q. split; [cbn; congruence|done].
  - destruct Hr. apply list_elem_of_fmap. exists p. split; [cbn; congruence|done].
Qed.
