(* ===== verification/GroupRecord.v ===== *)
(** * One saved layout for a group (apps/monhop-desktop/src/group_record.rs)

    A record's checks, its stamp and the order of stamps, its canonical content,
    and what rebuilds it: restamping, leaving a member out, new labels, remapping
    and adapting to the displays shown now.  [serde_json]'s text and SHA-256 are
    parameters: the model keeps what is handed to them. *)

From stdpp Require Import gmap list.
From Stdlib Require Import SpecFloat.
From S2P Require Import Prelude F64 Types Geometry Messages Codec SessionWire Topology DisplayArrangement Handshake Ordering Fingerprint SavedLayout.

Definition GROUP_RECORD_VERSION : Z := 1.
Definition MAX_GROUP_MEMBERS : nat := 8.
Definition MAX_LINKS : nat := 64.
Definition RECORD_SUMMARY_VERSION : Z := 1.
Definition SHARED_GROUP_VERSION : Z := 3.
Definition MAX_LAYOUT_PAYLOAD_BYTES : Z := 32 * 1024.
Definition SHARED_GROUP_ENVELOPE_BYTES : Z := 256.
Definition MAX_RECORD_BYTES : Z := MAX_LAYOUT_PAYLOAD_BYTES - SHARED_GROUP_ENVELOPE_BYTES.

(** [ComputerPlatform] has [Platform]'s two values. *)
Record GroupMember := mkMember { gm_fingerprint : Text; gm_platform : Platform; gm_displays : list DisplaySnapshot }.
#[global] Instance GroupMember_eq_dec : EqDecision GroupMember.
Proof. solve_decision. Defined.
Record GroupRecord := mkGroupRecord {
  gr_version : Z; gr_revision : Z; gr_author : Text; gr_members : list GroupMember; gr_layout : LayoutRequest }.
#[global] Instance GroupRecord_eq_dec : EqDecision GroupRecord.
Proof. solve_decision. Defined.

(** ** Stamps *)

Record Stamp := mkStamp { st_revision : Z; st_author : DeviceId; st_content : list Z }.
#[global] Instance Stamp_eq_dec : EqDecision Stamp.
Proof. solve_decision. Defined.
(** Revision first, then the lower author, then the lower digest. *)
#[global] Instance Stamp_cmp : Cmp Stamp := fun a b =>
  then_with (cmp (st_revision a) (st_revision b))
    (then_with (cmp (st_author b) (st_author a)) (cmp (st_content b) (st_content a))).

(** ** Displays known now *)

Record KnownMember := mkKnown { km_platform : Platform; km_displays : list DisplaySnapshot }.
Abbreviation KnownDisplays := (gmap (list Z) KnownMember) (only parsing).
Definition known_insert (k : KnownDisplays) (fingerprint : Text) (p : Platform) (displays : list DisplayDescription) : KnownDisplays :=
  <[fingerprint_key fingerprint := mkKnown p (snapshots displays)]> k.
Definition known_get (k : KnownDisplays) (m : GroupMember) : option KnownMember := k !! fingerprint_key (gm_fingerprint m).
Definition with_entries_of (k : KnownDisplays) (r : GroupRecord) : KnownDisplays :=
  foldl (fun k m => match k !! fingerprint_key (gm_fingerprint m) with
                    | Some _ => k
                    | None => <[fingerprint_key (gm_fingerprint m) := mkKnown (gm_platform m) (gm_displays m)]> k
                    end) k (gr_members r).
Record InspectedPeer := mkInspected {
  in_local : Fingerprint; in_peer : Fingerprint; in_local_platform : Platform; in_peer_platform : Platform;
  in_local_displays : list DisplayDescription; in_peer_displays : list DisplayDescription }.
Definition of_link (i : InspectedPeer) : KnownDisplays :=
  known_insert (known_insert ∅ (full_hex (in_local i)) (in_local_platform i) (in_local_displays i))
    (full_hex (in_peer i)) (in_peer_platform i) (in_peer_displays i).

(** ** Members *)

Definition new_member (fingerprint : Text) (p : Platform) (displays : list DisplayDescription) : option GroupMember :=
  f ← canonical_fingerprint fingerprint; Some (mkMember f p (snapshots displays)).
Definition member_key (m : GroupMember) : Text := fingerprint_key (gm_fingerprint m).
Definition member_keys (r : GroupRecord) : list Text := member_key <$> gr_members r.
Definition index_of (r : GroupRecord) (fingerprint : Text) : option nat :=
  fst <$> list_find (fun m => member_key m = fingerprint_key fingerprint) (gr_members r).
Definition has_member (r : GroupRecord) (fingerprint : Text) : bool := bool_decide (is_Some (index_of r fingerprint)).
Definition member (r : GroupRecord) (fingerprint : Text) : option GroupMember := i ← index_of r fingerprint; gr_members r !! i.
(** [decided_by]: the lowest device of the members is this one. *)
Definition decided_by (r : GroupRecord) (local : Text) : bool :=
  let lowest := min_by_key (fun d : DeviceId => d) (omap (fun m => device_of (gm_fingerprint m)) (gr_members r)) in
  bool_decide (is_Some lowest) && bool_decide (device_of local = lowest).
Definition fits_local (r : GroupRecord) (local : Text) (displays : list DisplayDescription) : bool :=
  match member r local with Some m => same_display_geometry (gm_displays m) (snapshots displays) | None => false end.

(** ** The group's topology *)

(** [f64::round]: to the nearest integer, halves away from zero. *)
Definition f64_round (b : f64) : f64 :=
  match f64_to_sf b with
  | S754_finite s m e =>
      if 0 <=? e then b
      else let q := (Z.pos m + 2 ^ (- e - 1)) / 2 ^ (- e) in f64_of_sf (binary_normalize 53 1024 (if s then - q else q) 0 s)
  | _ => b
  end.
Definition f64_minus_one : f64 := f64_neg f64_one.
Definition offset_exact (offset : Point) (displays : list DisplaySnapshot) (sign : f64) : bool :=
  forallb (fun d =>
    f64_eqb (f64_sub (f64_add (fst (s_origin d)) (f64_mul sign (px offset))) (fst (s_origin d))) (f64_mul sign (px offset))
    && f64_eqb (f64_sub (f64_add (snd (s_origin d)) (f64_mul sign (py offset))) (snd (s_origin d))) (f64_mul sign (py offset))) displays.
Definition origin_point : Point := mkPoint f64_zero f64_zero.
Definition member_offset (l : LayoutRequest) (here there : list DisplaySnapshot) : Point :=
  match (a ← arrangement l; from ← block_translation a here; to ← block_translation a there; Some (from, to)) with
  | None => origin_point
  | Some (from, to) =>
      let offset := mkPoint (f64_round (f64_sub (fst to) (fst from))) (f64_round (f64_sub (snd to) (snd from))) in
      if point_is_finite offset && offset_exact offset there f64_one && offset_exact offset here f64_minus_one then offset else origin_point
  end.
Definition member_block (r : GroupRecord) (local index : nat) (m : GroupMember) (here : list DisplaySnapshot) (displays : list DisplayDescription)
  : option MemberBlock :=
  device ← device_of (gm_fingerprint m);
  Some (mkBlock device (gm_platform m) displays
    (if (index =? local)%nat then origin_point else member_offset (gr_layout r) here (gm_displays m))).
Fixpoint member_blocks (r : GroupRecord) (local index : nat) (here : list DisplaySnapshot) (ms : list (GroupMember * list DisplayDescription))
  : option (list MemberBlock) :=
  match ms with
  | [] => Some []
  | (m, displays) :: ms =>
      b ← member_block r local index m here displays;
      bs ← member_blocks r local (S index) here ms;
      Some (b :: bs)
  end.
Definition ok {E A} (r : result E A) : option A := match r with Ok a => Some a | Err _ => None end.
Definition topology_at (r : GroupRecord) (local : nat) : option Topology :=
  displays ← mapM (fun m => topology_of (gm_displays m)) (gr_members r);
  me ← gr_members r !! local;
  blocks ← member_blocks r local 0 (gm_displays me) (zip (gr_members r) displays);
  ls ← mapM (fun l => ok (parse_link l)) (links (gr_layout r));
  hid ← mapM parse_display (match arrangement (gr_layout r) with Some a => hidden a | None => [] end);
  ok (group_topology blocks ls hid).
Definition topology_for (r : GroupRecord) (local : Text) : option Topology := index_of r local ≫= topology_at r.

(** ** Checks *)

Definition span_eqb (a b : NormalizedSpan) : bool := f64_eqb (span_start a) (span_start b) && f64_eqb (span_end a) (span_end b).
Definition reverses (l other : EdgeLink) : bool :=
  bool_decide (from_display other = to_display l) && bool_decide (from_edge other = to_edge l) && span_eqb (from_span other) (to_span l)
  && bool_decide (to_display other = from_display l) && bool_decide (to_edge other = from_edge l) && span_eqb (to_span other) (from_span l).
Definition crossings_overlap (l other : EdgeLink) : bool :=
  bool_decide (from_display other = from_display l) && bool_decide (from_edge other = from_edge l)
  && f64_ltb (span_start (from_span other)) (span_end (from_span l)) && f64_ltb (span_start (from_span l)) (span_end (from_span other)).
Fixpoint any_overlap (ls : list EdgeLink) : bool :=
  match ls with [] => false | l :: ls => existsb (crossings_overlap l) ls || any_overlap ls end.

(** The owner of each display, by number; a number twice is refused. *)
Fixpoint claim_displays (owners : gmap Z nat) (index : nat) (displays : list DisplaySnapshot) : option (gmap Z nat) :=
  match displays with
  | [] => Some owners
  | d :: displays =>
      id ← parse_display (s_id d);
      match owners !! id with
      | Some _ => None
      | None => claim_displays (<[id := index]> owners) index displays
      end
  end.
Fixpoint check_members (owners : gmap Z nat) (index : nat) (previous : option Text) (ms : list GroupMember) : option (gmap Z nat) :=
  match ms with
  | [] => Some owners
  | m :: ms =>
      if negb (validate_fingerprint (gm_fingerprint m)) || negb (validate_displays (gm_displays m))
         || match previous with Some p => ge_b p (member_key m) | None => false end
      then None
      else owners ← claim_displays owners index (gm_displays m); check_members owners (S index) (Some (member_key m)) ms
  end.
Fixpoint check_arrangements (l : LayoutRequest) (ids : list (Text * nat)) (indices : list nat) : result Refusal () :=
  match indices with
  | [] => Ok ()
  | i :: indices =>
      _ ← validate_arrangement l ((fun p => (fst p, bool_decide (snd p = i))) <$> ids);
      check_arrangements l ids indices
  end.
Fixpoint parse_links (ls : list LinkRequest) : result Refusal (list EdgeLink) :=
  match ls with [] => Ok [] | l :: ls => e ← parse_link l; es ← parse_links ls; Ok (e :: es) end.
Definition display_owners (r : GroupRecord) : list (Text * nat) :=
  concat (imap (fun i m => (fun d => (s_id d, i)) <$> gm_displays m) (gr_members r)).
(** A crossing of one member's own displays, or of a display nobody has. *)
Definition own_crossing (owners : gmap Z nat) (l : EdgeLink) : bool :=
  match owners !! from_display l, owners !! to_display l with Some a, Some b => (a =? b)%nat | _, _ => true end.

Section Records.
(** The length of a record's JSON ([None]: it has none), a link's JSON text, the
    JSON of a canonical content, and SHA-256. *)
Context (json_length : GroupRecord -> option Z) (json_link : LinkRequest -> Text)
  (json_content : list GroupMember -> LayoutRequest -> list Z) (sha256 : list Z -> list Z).

Definition check_record (r : GroupRecord) : result Refusal () :=
  if negb (gr_version r =? GROUP_RECORD_VERSION) || (gr_revision r =? 0)
     || negb ((2 <=? length (gr_members r))%nat && (length (gr_members r) <=? MAX_GROUP_MEMBERS)%nat)
     || negb (existsb (fun m => bool_decide (gm_fingerprint m = gr_author r)) (gr_members r))
  then Err InvalidRecord
  else
    owners ← ok_or InvalidRecord (check_members ∅ 0 None (gr_members r));
    if (MAX_DISPLAYS <? size owners)%nat then Err InvalidRecord
    else
      let l := gr_layout r in
      if (MAX_LINKS <? length (links l))%nat then Err TooManyEdges
      else
        es ← parse_links (links l);
        if bool_decide (es = []) then Err NotTouching
        else
          _ ← check_arrangements l (display_owners r) (seq 0 (length (gr_members r)));
          if negb ((size (control l) =? length (gr_members r))%nat
                   && forallb (fun m => bool_decide (is_Some (control l !! member_key m))) (gr_members r))
             || negb (existsb snd (map_to_list (control l)))
          then Err ChooseControl
          else if existsb (fun l => negb (existsb (reverses l) es)) es then Err NotBothWays
          else if any_overlap es then Err CrossingsOverlap
          else if existsb (own_crossing owners) es
                  || existsb (fun i => bool_decide (topology_at r i = None)) (seq 0 (length (gr_members r)))
          then Err OwnSeam
          else match json_length r with
               | None => Err InvalidRecord
               | Some n => if MAX_RECORD_BYTES <? n then Err RecordTooLarge else Ok ()
               end.
Definition validate_record (r : GroupRecord) : bool := is_ok (check_record r).
Definition new_record (revision : Z) (author : Text) (ms : list GroupMember) (l : LayoutRequest) : option GroupRecord :=
  a ← canonical_fingerprint author;
  let r := mkGroupRecord GROUP_RECORD_VERSION revision a (sort_by_key member_key ms) l in
  if validate_record r then Some r else None.
(** [checked]: the same, refused with the reason. *)
Definition checked_record (revision : Z) (author : Text) (ms : list GroupMember) (l : LayoutRequest) : result Refusal GroupRecord :=
  a ← ok_or InvalidRecord (canonical_fingerprint author);
  let r := mkGroupRecord GROUP_RECORD_VERSION revision a (sort_by_key member_key ms) l in
  _ ← check_record r; Ok r.
Definition with_layout (r : GroupRecord) (l : LayoutRequest) : GroupRecord :=
  mkGroupRecord (gr_version r) (gr_revision r) (gr_author r) (gr_members r) l.
Definition with_control (r : GroupRecord) (c : ControlMap) : option GroupRecord :=
  let r := with_layout r (mkLayoutRequest (links (gr_layout r)) (arrangement (gr_layout r)) c) in
  if validate_record r then Some r else None.

(** ** Content *)

Definition display_order (id : Text) : option Z * Text := (parse_display id, id).
Definition blank (d : DisplaySnapshot) : DisplaySnapshot :=
  mkSnapshot (s_id d) [] (s_origin d) (s_size d) (s_native d) (s_scale d) (s_primary d) (s_monitor d).
Definition canonical_member (m : GroupMember) : GroupMember :=
  mkMember (gm_fingerprint m) (gm_platform m) (blank <$> sort_by_key (fun d => display_order (s_id d)) (gm_displays m)).
Definition canonical_members (ms : list GroupMember) : list GroupMember := canonical_member <$> sort_by_key member_key ms.
Definition canonical_arrangement (a : ArrangementRequest) : ArrangementRequest :=
  mkArrangement (sort_by_key (fun p => display_order (pos_display p)) (positions a)) (sort_by_key display_order (hidden a)).
Definition canonical_layout (l : LayoutRequest) : LayoutRequest :=
  mkLayoutRequest (sort_by_key json_link (links l)) (canonical_arrangement <$> arrangement l) (control l).
Definition content_digest (r : GroupRecord) : list Z :=
  sha256 (json_content (canonical_members (gr_members r)) (canonical_layout (gr_layout r))).
(** [DeviceId([u8::MAX; 16])] when the author does not parse. *)
Definition stamp (r : GroupRecord) : Stamp :=
  mkStamp (gr_revision r) (default (replicate 16 255) (device_of (gr_author r))) (content_digest r).
Definition merge (r other : GroupRecord) : GroupRecord := if lt_b (stamp r) (stamp other) then other else r.
Definition restamped (r : GroupRecord) (revision : Z) (author : Text) : option GroupRecord :=
  a ← canonical_fingerprint author;
  let r := mkGroupRecord (gr_version r) revision a (gr_members r) (gr_layout r) in
  if validate_record r then Some r else None.

(** ** Rebuilding *)

(** What is left of a layout once nothing names the displays [gone]. *)
Definition without_displays (gone : list Text) (l : LayoutRequest) : LayoutRequest :=
  mkLayoutRequest (filter (fun k => lr_from_display k ∉ gone /\ lr_to_display k ∉ gone) (links l))
    ((fun a => mkArrangement (filter (fun p => pos_display p ∉ gone) (positions a)) (filter (fun h => h ∉ gone) (hidden a))) <$> arrangement l)
    (control l).
Definition without_member (r : GroupRecord) (m : Text) (revision : Z) (author : Text) : option GroupRecord :=
  i ← index_of r m;
  removed ← gr_members r !! i;
  let l := without_displays (s_id <$> gm_displays removed) (gr_layout r) in
  let l := mkLayoutRequest (links l) (arrangement l) (delete (fingerprint_key m) (control l)) in
  restamped (mkGroupRecord (gr_version r) (gr_revision r) (gr_author r) (delete i (gr_members r)) l) revision author.

Definition relabel (live : KnownMember) (d : DisplaySnapshot) : DisplaySnapshot :=
  match List.find (fun now => bool_decide (s_id now = s_id d)) (km_displays live) with
  | Some now => mkSnapshot (s_id d) (s_name now) (s_origin d) (s_size d) (s_native d) (s_scale d) (s_primary d) (s_monitor d)
  | None => d
  end.
Definition relabel_member (k : KnownDisplays) (m : GroupMember) : GroupMember :=
  match known_get k m with
  | Some live => mkMember (gm_fingerprint m) (gm_platform m) (relabel live <$> gm_displays m)
  | None => m
  end.
Definition relabeled (r : GroupRecord) (k : KnownDisplays) : GroupRecord :=
  mkGroupRecord (gr_version r) (gr_revision r) (gr_author r) (relabel_member k <$> gr_members r) (gr_layout r).

(** A member shown with other displays or another platform than its entry holds. *)
Definition changed_member (k : KnownDisplays) (m : GroupMember) : option KnownMember :=
  live ← known_get k m;
  if negb (bool_decide (km_platform live = gm_platform m)) || negb (same_display_geometry (gm_displays m) (km_displays live))
  then Some live else None.
Definition changed_members (r : GroupRecord) (k : KnownDisplays) : list (GroupMember * KnownMember) :=
  omap (fun m => live ← changed_member k m; Some (m, live)) (gr_members r).
Definition fits_link (r : GroupRecord) (i : InspectedPeer) : bool :=
  validate_record r && has_member r (full_hex (in_local i)) && has_member r (full_hex (in_peer i))
  && bool_decide (changed_members r (of_link i) = []).
Definition shows_same_monitors (r : GroupRecord) (k : KnownDisplays) : bool :=
  forallb (fun m => match known_get k m with
                    | Some live => bool_decide (is_Some (same_displays (gm_displays m) (km_displays live)))
                    | None => false
                    end) (gr_members r).
Definition same_monitors_as (r other : GroupRecord) : bool :=
  bool_decide (member_keys r = member_keys other)
  && forallb (fun m => match member other (gm_fingerprint m) with
                       | Some theirs => bool_decide (is_Some (same_displays (gm_displays m) (gm_displays theirs)))
                       | None => false
                       end) (gr_members r).

(** The loop of [remap_to]: the pairs, and the members showing what they show now. *)
Fixpoint remap_members (k : KnownDisplays) (ms : list GroupMember) : option (list GroupMember * list (DisplaySnapshot * DisplaySnapshot)) :=
  match ms with
  | [] => Some ([], [])
  | m :: ms =>
      match known_get k m with
      | None => '(ms, pairs) ← remap_members k ms; Some (m :: ms, pairs)
      | Some live =>
          matched ← same_displays (gm_displays m) (km_displays live);
          if negb (bool_decide (km_platform live = gm_platform m)) || negb (forallb (fun p => same_geometry (fst p) (snd p)) matched) then None
          else '(ms, pairs) ← remap_members k ms; Some (mkMember (gm_fingerprint m) (gm_platform m) (km_displays live) :: ms, matched ++ pairs)
      end
  end.
Definition remap_to (r : GroupRecord) (k : KnownDisplays) : option GroupRecord :=
  if negb (validate_record r) then None
  else
    '(ms, pairs) ← remap_members k (gr_members r);
    let r := mkGroupRecord (gr_version r) (gr_revision r) (gr_author r) ms (remap_layout (gr_layout r) (id_map pairs)) in
    if validate_record r then Some r else None.
Definition remap_to_all (r : GroupRecord) (k : KnownDisplays) : option GroupRecord :=
  if forallb (fun m => bool_decide (is_Some (known_get k m))) (gr_members r) then remap_to r k else None.

(** [adapt], in the steps its body takes. *)
Definition show_now (k : KnownDisplays) (m : GroupMember) : GroupMember :=
  match changed_member k m with Some live => mkMember (gm_fingerprint m) (km_platform live) (km_displays live) | None => m end.
(** The positions of one changed member's shown displays, at its block's place. *)
Definition place_display (a : ArrangementRequest) (d : f64 * f64) (ps : list DisplayPosition) (s : DisplaySnapshot) : list DisplayPosition :=
  if bool_decide (s_id s ∈ hidden a) then ps
  else filter (fun p => pos_display p <> s_id s) ps
       ++ [mkPosition (s_id s) (f64_add (fst (s_origin s)) (fst d)) (f64_add (snd (s_origin s)) (snd d))].
Definition place_member (a : ArrangementRequest) (ps : list DisplayPosition) (c : KnownMember * option (f64 * f64)) : list DisplayPosition :=
  match snd c with None => ps | Some d => foldl (place_display a d) ps (km_displays (fst c)) end.
Record AdaptedGroup := mkAdapted { ad_record : GroupRecord; ad_left_out : bool }.
Definition adapt (r : GroupRecord) (k : KnownDisplays) : option AdaptedGroup :=
  let changed := changed_members r k in
  if bool_decide (changed = []) then (if validate_record r then Some (mkAdapted r false) else None)
  else
    let translations := (fun c => a ← arrangement (gr_layout r); block_translation a (gm_displays (fst c))) <$> changed in
    let pairs := concat ((fun c => pair_displays (gm_displays (fst c)) (km_displays (snd c))) <$> changed) in
    let unchanged := concat (gm_displays <$> filter (fun m => changed_member k m = None) (gr_members r)) in
    let kept := (s_id ∘ snd <$> pairs) ++ (s_id <$> unchanged) in
    let l := remap_layout (gr_layout r) (id_map pairs) in
    let ls := filter (fun k => lr_from_display k ∈ kept /\ lr_to_display k ∈ kept) (links l) in
    let appeared := filter (fun id => id ∉ kept) (concat ((fun c => s_id <$> km_displays (snd c)) <$> changed)) in
    let arranged :=
      (fun old =>
         let a := mkArrangement (filter (fun p => pos_display p ∈ kept) (positions old)) (filter (fun h => h ∈ kept) (hidden old)) in
         (mkArrangement (foldl (place_member a) (positions a) (zip (snd <$> changed) translations)) (hidden a),
          negb (length (positions a) =? length (positions old))%nat)) <$> arrangement l in
    let left_out := negb (length ls =? length (links l))%nat || match arranged with Some (_, lost) => lost | None => false end in
    let members := show_now k <$> gr_members r in
    let made a := mkGroupRecord (gr_version r) (gr_revision r) (gr_author r) members (mkLayoutRequest ls a (control l)) in
    let first := made (fst <$> arranged) in
    if validate_record first then Some (mkAdapted first left_out)
    else if bool_decide (appeared = []) then None
    else
      let a := default (mkArrangement [] []) (fst <$> arranged) in
      let second := made (Some (mkArrangement (filter (fun p => pos_display p ∉ appeared) (positions a)) (hidden a ++ appeared))) in
      if validate_record second then Some (mkAdapted second true) else None.
Definition preview_for (r : GroupRecord) (k : KnownDisplays) : GroupRecord :=
  let changed := changed_members r k in
  if bool_decide (changed = []) then r
  else match adapt r k with
       | Some a => ad_record a
       | None =>
           let gone := concat ((fun c => s_id <$> gm_displays (fst c)) <$> changed) in
           mkGroupRecord (gr_version r) (gr_revision r) (gr_author r) (show_now k <$> gr_members r) (without_displays gone (gr_layout r))
       end.

(** ** What is told of a record *)

Record SummaryStamp := mkSummaryStamp { ss_revision : Z; ss_author : Text; ss_content : Text }.
Record RecordSummary := mkSummary { su_version : Z; su_members : list Text; su_record : option SummaryStamp }.
Definition validate_summary (s : RecordSummary) : bool :=
  if negb (su_version s =? RECORD_SUMMARY_VERSION) || bool_decide (su_members s = []) || (MAX_GROUP_MEMBERS <? length (su_members s))%nat
     || negb (strictly_sorted (fun k : Text => k) (su_members s)) then false
  else if negb (forallb (fun m => validate_fingerprint (to_ascii_uppercase <$> m) && bool_decide (fingerprint_key m = m)) (su_members s)) then false
  else match su_record s with
       | None => true
       | Some r => validate_fingerprint (ss_author r) && negb ((ss_revision r =? 0) || (length (su_members s) <? 2)%nat
                     || negb (bool_decide (fingerprint_key (ss_author r) ∈ su_members s)) || bool_decide (unhex (ss_content r) = None))
       end.
Definition new_summary (ms : list Text) (r : option GroupRecord) : option RecordSummary :=
  let keys := sort_by_key (fun k : Text => k) (fingerprint_key <$> ms) in
  if match r with Some r => negb (bool_decide (member_keys r = keys)) | None => false end then None
  else
    let s := mkSummary RECORD_SUMMARY_VERSION keys
               ((fun r => mkSummaryStamp (gr_revision r) (gr_author r) (hex (content_digest r))) <$> r) in
    if validate_summary s then Some s else None.
Definition summary_stamp (s : RecordSummary) : option Stamp :=
  r ← su_record s;
  author ← device_of (ss_author r);
  content ← unhex (ss_content r);
  Some (mkStamp (ss_revision r) author content).

(** ** A record over a link *)

Inductive PreferenceError := PrefInvalid | InspectionChanged.
Record SharedGroup := mkShared { sh_version : Z; sh_sender : Text; sh_receiver : Text; sh_record : GroupRecord; sh_left_out : bool }.
Context (shared_to_json : SharedGroup -> option (list Z)) (shared_from_json : list Z -> option SharedGroup).
Definition shared_group_bytes (i : InspectedPeer) (r : GroupRecord) (left_out : bool) : result PreferenceError (list Z) :=
  if negb (validate_record r) then Err PrefInvalid
  else if negb (fits_link r i) then Err InspectionChanged
  else
    bs ← ok_or PrefInvalid (shared_to_json (mkShared SHARED_GROUP_VERSION (full_hex (in_local i)) (full_hex (in_peer i)) r left_out));
    if MAX_LAYOUT_PAYLOAD_BYTES <? Z.of_nat (length bs) then Err PrefInvalid else Ok bs.
Definition shared_group_for_link (fresh : InspectedPeer) (bs : list Z) : result PreferenceError (GroupRecord * bool) :=
  if MAX_LAYOUT_PAYLOAD_BYTES <? Z.of_nat (length bs) then Err PrefInvalid
  else
    shared ← ok_or PrefInvalid (shared_from_json bs);
    if negb (sh_version shared =? SHARED_GROUP_VERSION) then Err PrefInvalid
    else
      let local := full_hex (in_local fresh) in
      let peer := full_hex (in_peer fresh) in
      if negb (bool_decide ((sh_sender shared, sh_receiver shared) = (local, peer)))
         && negb (bool_decide ((sh_sender shared, sh_receiver shared) = (peer, local))) then Err InspectionChanged
      else if negb (validate_record (sh_record shared)) then Err PrefInvalid
      else if negb (fits_link (sh_record shared) fresh) then Err InspectionChanged
      else Ok (sh_record shared, sh_left_out shared).
End Records.

(** ** Who may control whom *)

Definition wire_control (c : ControlMap) (a b : Text) : option ControlPermissions :=
  if bool_decide (fingerprint_key a = fingerprint_key b) then None
  else
    a_allowed ← c !! fingerprint_key a;
    b_allowed ← c !! fingerprint_key b;
    da ← device_of a;
    db ← device_of b;
    let '(lower, higher) := if device_ltb da db then (a_allowed, b_allowed) else (b_allowed, a_allowed) in
    if lower || higher then Some (mkControl lower higher) else None.
