(* ===== verification/GroupTheorems.v ===== *)
(** * Properties of group records

    The order of stamps, what a validated record guarantees, canonical content,
    records rebuilt for the displays shown now, and what two computers that hold
    the same record agree on. *)

From stdpp Require Import gmap list sorting.
From S2P Require Import Prelude F64 Types Geometry Messages Codec SessionWire Topology DisplayArrangement Handshake Ordering Fingerprint SavedLayout GroupRecord.

(** ** Stamps *)

#[global] Instance Stamp_cmp_laws : CmpLaws Stamp.
Proof.
  split; unfold cmp, Stamp_cmp.
  - intros [r a c] [r' a' c']. cbn [st_revision st_author st_content]. destruct (cmp r r') eqn:E1; cbn [then_with].
    2,3: split; [done|intros [= -> _ _]; by rewrite cmp_refl in E1].
    apply cmp_eq in E1 as ->. destruct (cmp a' a) eqn:E2; cbn [then_with].
    2,3: split; [done|intros [= -> _]; by rewrite cmp_refl in E2].
    apply cmp_eq in E2 as ->. rewrite cmp_eq. naive_solver.
  - intros [r a c] [r' a' c']. cbn [st_revision st_author st_content]. apply then_with_flip, then_with_flip, cmp_flip.
  - intros [r a c] [r' a' c'] [r'' a'' c''] H1 H2. cbn [st_revision st_author st_content] in *.
    eapply then_with_trans; [exact H1|exact H2|]. intros H3 H4. eapply then_with_trans; [exact H4|exact H3|]. intros H5 H6. by eapply cmp_trans.
Qed.

(** ** What a validated record guarantees *)

Lemma validate_snapshots_spec ids n ds k : validate_snapshots ids n ds = Some k ->
  NoDup (s_id <$> ds) /\ Forall (fun d => snapshot_ok d = true) ds
  /\ Forall (fun d => exists i, parse_display (s_id d) = Some i /\ i ∉ ids) ds.
Proof.
  revert ids n. induction ds as [|d ds IH]; intros ids n; cbn [validate_snapshots]; [intros _; split_and!; constructor|].
  destruct (parse_display (s_id d)) as [i|] eqn:Ei; [|done]. cbn [mbind option_bind]. destruct (_ || _) eqn:Eg; [done|]. bool_inv.
  intros (J1 & J2 & J3)%IH. split_and!.
  - cbn [fmap list_fmap]. apply list.NoDup_cons. split; [|done]. intros (x & Ex & Hx)%list_elem_of_fmap.
    rewrite list.Forall_forall in J3. destruct (J3 x Hx) as (j & Ej & Hj). rewrite <-Ex, Ei in Ej. injection Ej as <-. apply Hj. by left.
  - by constructor.
  - constructor; [by exists i|]. eapply list.Forall_impl; [exact J3|]. intros x (j & Ej & Hj). exists j. split; [done|]. intros ?. apply Hj. by right.
Qed.
Lemma validate_displays_spec ds : validate_displays ds = true -> NoDup (s_id <$> ds) /\ Forall (fun d => snapshot_ok d = true) ds.
Proof. unfold validate_displays. destruct (_ || _); [done|]. intros H. bool_inv. by apply validate_snapshots_spec in H as (? & ? & _). Qed.

Definition member_ok (m : GroupMember) : Prop := validate_fingerprint (gm_fingerprint m) = true /\ validate_displays (gm_displays m) = true.
Lemma check_members_spec ms : forall owners i previous owners', check_members owners i previous ms = Some owners' ->
  Forall member_ok ms /\ Ascending member_key ms /\ (forall p m, previous = Some p -> m ∈ ms -> cmp p (member_key m) = Lt).
Proof.
  induction ms as [|m ms IH]; intros owners i previous owners'; cbn [check_members]; [intros _; split_and!; [constructor..|by intros ? ? _ ?%not_elem_of_nil]|].
  destruct (_ || _) eqn:Eg; [done|]. apply orb_false_iff in Eg as [Eg Ep]. bool_inv. destruct (claim_displays _ _ _); [|done]. cbn [mbind option_bind].
  intros (J1 & J2 & J3)%IH. split_and!.
  - by constructor.
  - constructor; [done|]. apply list.Forall_forall. intros x Hx. by apply J3.
  - intros p x -> Hx. assert (cmp p (member_key m) = Lt) as Hp.
    { unfold ge_b in Ep. apply negb_false_iff, lt_b_spec in Ep. done. }
    apply elem_of_cons in Hx as [->|Hx]; [done|]. eapply cmp_trans; [exact Hp|]. by apply J3.
Qed.
Lemma check_positions_spec known used l used' : check_positions known used l = Ok used' -> NoDup (pos_display <$> l) /\ (forall p, p ∈ l -> pos_display p ∉ used).
Proof.
  revert used. induction l as [|p l IH]; intros used; cbn [check_positions]; [intros _; split; [constructor|by intros ? ?%not_elem_of_nil]|].
  destruct (_ || _) eqn:Eg; [done|]. destruct (negb (f64_is_finite (pos_x p)) || _ || _ || _); [done|]. bool_inv. intros [J1 J2]%IH.
  split.
  - cbn [fmap list_fmap]. apply list.NoDup_cons. split; [|done]. intros (q & Eq & Hq)%list_elem_of_fmap. apply (J2 q Hq). rewrite <-Eq. set_solver.
  - intros q [->|Hq]%elem_of_cons; [done|]. specialize (J2 q Hq). set_solver.
Qed.
Lemma check_hidden_spec known ls used l : check_hidden known ls used l = Ok () -> NoDup l /\ (forall h, h ∈ l -> h ∉ used).
Proof.
  revert used. induction l as [|h l IH]; intros used; cbn [check_hidden]; [intros _; split; [constructor|by intros ? ?%not_elem_of_nil]|].
  intros H. result_inv. bool_inv. apply IH in H as [J1 J2]. split.
  - apply list.NoDup_cons. split; [|done]. intros Hh. specialize (J2 h Hh). set_solver.
  - intros k [->|Hk]%elem_of_cons; [done|]. specialize (J2 k Hk). set_solver.
Qed.
Definition arrangement_distinct (l : LayoutRequest) : Prop :=
  match arrangement l with Some a => NoDup (pos_display <$> positions a) /\ NoDup (hidden a) | None => True end.
Lemma validate_arrangement_spec l ds : validate_arrangement l ds = Ok () -> arrangement_distinct l.
Proof.
  unfold validate_arrangement, arrangement_distinct. destruct (arrangement l) as [a|]; [|done]. intros H. result_inv. destruct x0.
  split; [by eapply check_positions_spec|by eapply check_hidden_spec].
Qed.

Section Records.
Context (json_length : GroupRecord -> option Z) (json_link : LinkRequest -> Text)
  (json_content : list GroupMember -> LayoutRequest -> list Z) (sha256 : list Z -> list Z).

Lemma validate_record_spec r : validate_record json_length r = true ->
  gr_revision r <> 0 /\ (2 <= length (gr_members r) <= MAX_GROUP_MEMBERS)%nat /\ (exists m, m ∈ gr_members r /\ gm_fingerprint m = gr_author r)
  /\ Forall member_ok (gr_members r) /\ Ascending member_key (gr_members r) /\ arrangement_distinct (gr_layout r)
  /\ (forall i, (i < length (gr_members r))%nat -> is_Some (topology_at r i)).
Proof.
  unfold validate_record. destruct (check_record json_length r) as [[]|] eqn:E; [|done]. intros _. unfold check_record in E.
  result_inv. bool_inv. destruct x1 as []. rewrite Nat.leb_le in *.
  match goal with H : existsb (fun m => bool_decide (gm_fingerprint m = _)) _ = true |- _ => apply existsb_exists in H as (m & Hm & Ea) end. bool_inv.
  match goal with H : check_members _ _ _ _ = Some _ |- _ => apply check_members_spec in H as (M1 & M2 & _) end.
  split_and!; try done.
  - exists m. split; [by apply list_elem_of_In|done].
  - match goal with H : check_arrangements _ _ _ = Ok _ |- _ => destruct (length (gr_members r)) as [|n]; [lia|]; cbn [seq check_arrangements] in H end.
    result_inv. destruct x1. by eapply validate_arrangement_spec.
  - intros i Hi. match goal with H : existsb (fun i => bool_decide (topology_at r i = None)) _ = false |- _ =>
      rewrite <-not_true_iff_false, existsb_exists in H; apply not_eq_None_Some; intros En; apply H end.
    exists i. split; [apply in_seq; lia|by apply bool_decide_eq_true].
Qed.

(** ** Canonical content *)

(** The same entry, with other labels or its displays in another order. *)
Definition same_entry (m m' : GroupMember) : Prop :=
  gm_fingerprint m = gm_fingerprint m' /\ gm_platform m = gm_platform m' /\ (blank <$> gm_displays m) ≡ₚ (blank <$> gm_displays m').
Definition same_layout (l l' : LayoutRequest) : Prop :=
  links l ≡ₚ links l' /\ control l = control l'
  /\ match arrangement l, arrangement l' with
     | None, None => True
     | Some a, Some a' => positions a ≡ₚ positions a' /\ hidden a ≡ₚ hidden a'
     | _, _ => False
     end.
(** The same layout, whoever stamped it and however its lists are ordered. *)
Definition SameContent (r r' : GroupRecord) : Prop :=
  (exists ms, gr_members r' ≡ₚ ms /\ Forall2 same_entry (gr_members r) ms) /\ same_layout (gr_layout r) (gr_layout r').

Lemma insert_by_key_fmap {A B K} `{Cmp K} (key : B -> K) (f : A -> B) x l :
  insert_by_key key (f x) (f <$> l) = f <$> insert_by_key (key ∘ f) x l.
Proof. induction l as [|y l IH]; [done|]. cbn. destruct (cmp _ _); [done..|]. by rewrite IH. Qed.
Lemma sort_by_key_fmap {A B K} `{Cmp K} (key : B -> K) (f : A -> B) l : sort_by_key key (f <$> l) = f <$> sort_by_key (key ∘ f) l.
Proof. induction l as [|x l IH]; [done|]. cbn [fmap list_fmap sort_by_key foldr] in *. unfold sort_by_key in IH. rewrite IH. apply insert_by_key_fmap. Qed.

Lemma canonical_member_eq m m' : member_ok m -> same_entry m m' -> canonical_member m = canonical_member m'.
Proof.
  intros [_ [Hn _]%validate_displays_spec] (E1 & E2 & Hp). unfold canonical_member. rewrite E1, E2. f_equal.
  assert (forall ds, blank <$> sort_by_key (fun d => display_order (s_id d)) ds = sort_by_key (fun d => display_order (s_id d)) (blank <$> ds)) as Hb
    by (intros ds; symmetry; apply sort_by_key_fmap).
  rewrite !Hb. apply sort_by_key_unique; [done|]. intros x y Hx Hy [= _ E]. apply (id_inj (blank <$> gm_displays m)); try done.
  by rewrite <-list_fmap_compose.
Qed.
Lemma same_entry_keys ms ms' : Forall2 same_entry ms ms' -> Ascending member_key ms -> Ascending member_key ms'.
Proof.
  intros HF Ha. revert ms' HF. induction Ha as [|m ms Hs IH Hf]; intros ms' HF; inversion HF as [|? m' ? ms2 He HF']; subst; [constructor|].
  constructor; [by apply IH|]. apply list.Forall_forall. intros x' Hx'. apply list_elem_of_lookup in Hx' as [i Hi].
  destruct (Forall2_lookup_r _ _ _ _ _ HF' Hi) as (x & Hx & Ex). rewrite list.Forall_forall in Hf. specialize (Hf x ltac:(by eapply list_elem_of_lookup_2)).
  unfold member_key in *. destruct He as (<- & _), Ex as (<- & _). done.
Qed.
Lemma canonical_members_eq r r' ms : Forall member_ok (gr_members r) -> Ascending member_key (gr_members r) ->
  gr_members r' ≡ₚ ms -> Forall2 same_entry (gr_members r) ms ->
  canonical_members (gr_members r) = canonical_members (gr_members r').
Proof.
  intros Hok Ha Hp HF. pose proof (same_entry_keys _ _ HF Ha) as Ha'. unfold canonical_members.
  rewrite (sort_by_key_fix member_key (gr_members r)) by done.
  rewrite (sort_by_key_unique member_key (gr_members r') ms Hp), (sort_by_key_fix member_key ms) by
    (try done; intros x y; rewrite !Hp; by apply ascending_inj).
  clear Ha Ha' Hp. revert ms HF. induction Hok as [|m l Hm _ IH]; intros ms HF; inversion HF as [|? m' ? ms2 He HF']; subst; [done|].
  cbn [fmap list_fmap]. f_equal; [by apply canonical_member_eq|by apply IH].
Qed.
Lemma canonical_layout_eq l l' : arrangement_distinct l -> (forall x y, x ∈ links l -> y ∈ links l -> json_link x = json_link y -> x = y) ->
  same_layout l l' -> canonical_layout json_link l = canonical_layout json_link l'.
Proof.
  intros Hd Hj (Hl & Hc & Ha). unfold canonical_layout. rewrite Hc. f_equal; [by apply sort_by_key_unique|].
  unfold arrangement_distinct in Hd. destruct (arrangement l) as [a|], (arrangement l') as [a'|]; try done. destruct Hd as [D1 D2], Ha as [A1 A2].
  cbn [fmap option_fmap option_map]. f_equal. unfold canonical_arrangement. f_equal.
  - apply sort_by_key_unique; [done|]. intros x y Hx Hy [= _ E]. revert Hx Hy E D1. generalize (positions a) as l0. clear.
    induction l0 as [|z l IH]; [by intros ?%not_elem_of_nil|]. cbn [fmap list_fmap].
    intros [->|Hx]%elem_of_cons [->|Hy]%elem_of_cons E [Hz Hn]%list.NoDup_cons; [done|..|by apply IH].
    + destruct Hz. rewrite E. by apply list_elem_of_fmap_2.
    + destruct Hz. rewrite <-E. by apply list_elem_of_fmap_2.
  - apply sort_by_key_unique; [done|]. by intros x y _ _ [= _ ->].
Qed.

Lemma relabel_same_entry k m : same_entry m (relabel_member k m).
Proof.
  unfold relabel_member. destruct (known_get k m) as [live|]; [|by split_and!]. split_and!; try done. cbn [gm_displays].
  rewrite <-list_fmap_compose. match goal with |- ?a ≡ₚ ?b => assert (a = b) as ->; [|done] end. apply list_fmap_ext. intros _ d _. cbn [compose]. unfold relabel. by destruct (List.find _ _).
Qed.
Lemma same_entry_refl m : same_entry m m.
Proof. by split_and!. Qed.
Lemma same_layout_refl l : same_layout l l.
Proof. split_and!; try done. by destruct (arrangement l). Qed.
End Records.

(** A record's digest depends on its layout alone: two copies with their members,
    displays, crossings, positions and hidden displays in any order and with any
    labels have the same digest, whoever stamped them, as long as the JSON text
    tells the crossings apart; so fresh labels leave a record's stamp alone. *)
Theorem content_digest_canonical json_length json_link json_content sha256 r r' : validate_record json_length r = true ->
  (forall x y, x ∈ links (gr_layout r) -> y ∈ links (gr_layout r) -> json_link x = json_link y -> x = y) -> SameContent r r' ->
  content_digest json_link json_content sha256 r = content_digest json_link json_content sha256 r'
  /\ (forall k, stamp json_link json_content sha256 (relabeled r k) = stamp json_link json_content sha256 r).
Proof.
  intros (_ & _ & _ & Hm & Ha & Hd & _)%validate_record_spec Hj ((ms & Hp & HF) & Hl).
  assert (forall r', (exists ms, gr_members r' ≡ₚ ms /\ Forall2 same_entry (gr_members r) ms) -> same_layout (gr_layout r) (gr_layout r') ->
    content_digest json_link json_content sha256 r = content_digest json_link json_content sha256 r') as H.
  { intros r2 (ms2 & Hp2 & HF2) Hl2. unfold content_digest.
    by rewrite (canonical_members_eq r r2 ms2 Hm Ha Hp2 HF2), (canonical_layout_eq json_link _ _ Hd Hj Hl2). }
  split; [by apply H; eauto|]. intros k. unfold stamp, relabeled. cbn [gr_revision gr_author]. f_equal. symmetry. apply (H (relabeled r k)).
  - exists (relabel_member k <$> gr_members r). split; [done|]. apply Forall2_fmap_r, Forall_Forall2_diag, list.Forall_forall. intros m _. apply relabel_same_entry.
  - apply same_layout_refl.
Qed.

(** ** Rebuilt records *)

Lemma f64_eqb_refl b : f64_is_finite b = true -> f64_eqb b b = true.
Proof. intros H%f64_finite_not_nan. unfold f64_eqb. by rewrite H, Z.eqb_refl. Qed.
Lemma f32_eqb_refl b : f32_is_finite b = true -> f32_eqb b b = true.
Proof.
  intros H. unfold f32_is_finite in H. bool_inv. unfold f32_eqb, f32_is_nan. rewrite (proj2 (Z.ltb_ge f32_inf_bits _)) by lia. by rewrite Z.eqb_refl.
Qed.
Lemma same_geometry_refl d : snapshot_ok d = true -> same_geometry d d = true.
Proof.
  unfold snapshot_ok. intros H. bool_inv. unfold same_geometry, pair_eqb.
  rewrite !f64_eqb_refl, f32_eqb_refl, !bool_decide_eq_true_2 by done. done.
Qed.
Lemma same_display_geometry_refl ds : validate_displays ds = true -> same_display_geometry ds ds = true.
Proof.
  intros [_ Hok]%validate_displays_spec. unfold same_display_geometry. rewrite Nat.eqb_refl. apply forallb_forall. intros d Hd.
  apply existsb_exists. exists d. split; [done|]. rewrite bool_decide_eq_true_2 by done. apply same_geometry_refl.
  rewrite list.Forall_forall in Hok. apply Hok. by apply list_elem_of_In.
Qed.
(** A member shown as it is now has not changed. *)
Lemma show_now_fits k m : member_ok (show_now k m) -> changed_member k (show_now k m) = None.
Proof.
  intros [_ Hd]. destruct (changed_member k m) as [live|] eqn:E; unfold show_now in *; rewrite E in *; [|done].
  cbn [gm_displays] in Hd. unfold changed_member in *. unfold known_get in *. cbn [gm_fingerprint gm_platform gm_displays].
  destruct (k !! fingerprint_key (gm_fingerprint m)) as [live'|]; [|done]. cbn [mbind option_bind] in *. destruct (_ || _) in E; [|done]. injection E as ->.
  rewrite bool_decide_eq_true_2, same_display_geometry_refl by done. done.
Qed.
Lemma changed_members_nil r k : (forall m, m ∈ gr_members r -> changed_member k m = None) -> changed_members r k = [].
Proof.
  unfold changed_members. induction (gr_members r) as [|m ms IH]; intros H; [done|]. cbn [omap list_omap]. rewrite (H m) by (by left). cbn [mbind option_bind].
  apply IH. intros x Hx. apply H. by right.
Qed.
Lemma elem_of_changed r k m live : (m, live) ∈ changed_members r k <-> m ∈ gr_members r /\ changed_member k m = Some live.
Proof.
  unfold changed_members. rewrite list_elem_of_omap. split.
  - intros (x & Hx & E). destruct (changed_member k x) eqn:Ec; [|done]. injection E as -> ->. done.
  - intros [Hm E]. exists m. by rewrite E.
Qed.
Lemma filter_all {A} (P : A -> Prop) `{forall x, Decision (P x)} l : length (filter P l) = length l -> filter P l = l.
Proof.
  induction l as [|x l IH]; [done|]. rewrite filter_cons. destruct (decide (P x)); cbn [length]; [intros [= E]; by rewrite IH|].
  intros E. pose proof (length_filter P l). lia.
Qed.

Lemma elem_of_concat {A} (x : A) (ls : list (list A)) : x ∈ concat ls <-> exists l, l ∈ ls /\ x ∈ l.
Proof. rewrite list_elem_of_In, in_concat. split; intros (l & Hl & Hx); exists l; [by rewrite !list_elem_of_In|by rewrite <-!list_elem_of_In]. Qed.

(** How the displays of the changed members are followed to those shown now.  Each
    pair is of one changed member and of no two monitors; the only displays to
    report a monitor, before and now, are a pair; and a display shown under the same
    number without another monitor leaves only if that number is taken. *)
Record follows (r : GroupRecord) (k : KnownDisplays) (pairs : list (DisplaySnapshot * DisplaySnapshot)) : Prop := {
  follows_shown p : p ∈ pairs -> exists m live, m ∈ gr_members r /\ changed_member k m = Some live
    /\ fst p ∈ gm_displays m /\ snd p ∈ km_displays live /\ compatible p;
  follows_monitor m live d c key : m ∈ gr_members r -> changed_member k m = Some live -> d ∈ gm_displays m -> c ∈ km_displays live ->
    usable_monitor d (gm_displays m) = Some key -> usable_monitor c (km_displays live) = Some key -> (d, c) ∈ pairs;
  follows_id m live d c : m ∈ gr_members r -> changed_member k m = Some live -> d ∈ gm_displays m -> c ∈ km_displays live ->
    s_id c = s_id d -> compatible (d, c) -> exists p, p ∈ pairs /\ (fst p = d \/ s_id (snd p) = s_id c) }.
(** A display's number follows its pair, and stays without one. *)
Definition moved (pairs : list (DisplaySnapshot * DisplaySnapshot)) (id id' : Text) : Prop :=
  (exists p, p ∈ pairs /\ s_id (fst p) = id /\ s_id (snd p) = id') \/ (id' = id /\ forall p, p ∈ pairs -> s_id (fst p) <> id).
Definition moved_link (pairs : list (DisplaySnapshot * DisplaySnapshot)) (l l' : LinkRequest) : Prop :=
  moved pairs (lr_from_display l) (lr_from_display l') /\ moved pairs (lr_to_display l) (lr_to_display l')
  /\ lr_from_edge l' = lr_from_edge l /\ lr_from_span l' = lr_from_span l /\ lr_to_edge l' = lr_to_edge l /\ lr_to_span l' = lr_to_span l
  /\ lr_hysteresis l' = lr_hysteresis l.
(** The numbers a rebuilt record may name: of a followed display, or of a member
    that did not change. *)
Definition still_named (r : GroupRecord) (k : KnownDisplays) (pairs : list (DisplaySnapshot * DisplaySnapshot)) (id : Text) : Prop :=
  (exists p, p ∈ pairs /\ s_id (snd p) = id) \/ exists m d, m ∈ gr_members r /\ changed_member k m = None /\ d ∈ gm_displays m /\ s_id d = id.
(** The old crossings [old] became [new]: each with its displays moved, in order,
    and those of them left whose displays are both still named. *)
Definition crossings_follow (r : GroupRecord) (k : KnownDisplays) (pairs : list (DisplaySnapshot * DisplaySnapshot)) (left_out : bool)
    (new : list LinkRequest) : Prop :=
  exists all, Forall2 (moved_link pairs) (links (gr_layout r)) all /\ sublist new all
    /\ (forall l, l ∈ new <-> l ∈ all /\ still_named r k pairs (lr_from_display l) /\ still_named r k pairs (lr_to_display l))
    /\ (left_out = false -> new = all).

Lemma rename_moved pairs id : moved pairs id (rename (id_map pairs) id).
Proof.
  unfold rename. destruct (id_map pairs !! id) as [x|] eqn:E; [left; by apply id_map_lookup|right].
  split; [done|]. by apply id_map_none.
Qed.
Lemma rename_links_moved pairs ls : Forall2 (moved_link pairs) ls (rename_link (id_map pairs) <$> ls).
Proof. apply Forall2_fmap_r, Forall_Forall2_diag, list.Forall_forall. intros l _. split_and!; try done; apply rename_moved. Qed.
Lemma elem_of_kept r k pairs id :
  id ∈ (s_id ∘ snd <$> pairs) ++ (s_id <$> concat (gm_displays <$> filter (fun m => changed_member k m = None) (gr_members r))) <-> still_named r k pairs id.
Proof.
  unfold still_named. rewrite elem_of_app, !list_elem_of_fmap. f_equiv.
  - split; intros (p & H1 & H2); exists p; split; [done|by symmetry|by symmetry|done].
  - split.
    + intros (d & -> & (l & Hl & Hd)%elem_of_concat). apply list_elem_of_fmap in Hl as (m & -> & [Hc Hm]%list_elem_of_filter). by exists m, d.
    + intros (m & d & Hm & Hc & Hd & <-). exists d. split; [done|]. apply elem_of_concat. exists (gm_displays m). split; [|done].
      apply list_elem_of_fmap_2, list_elem_of_filter. done.
Qed.
Lemma show_now_unchanged r k : changed_members r k = [] -> show_now k <$> gr_members r = gr_members r.
Proof.
  intros E. rewrite <-(list_fmap_id (gr_members r)) at 2. apply list_fmap_ext. intros i m Hm%list_elem_of_lookup_2. unfold show_now.
  destruct (changed_member k m) as [live|] eqn:Ec; [|done]. assert ((m, live) ∈ changed_members r k) as H by (by apply elem_of_changed).
  rewrite E in H. by apply not_elem_of_nil in H.
Qed.
Lemma show_now_displays json_length r k m live : validate_record json_length r = true ->
  (forall m, m ∈ show_now k <$> gr_members r -> member_ok m) -> m ∈ gr_members r -> changed_member k m = Some live ->
  Matching (gm_displays m) (km_displays live) (pair_displays (gm_displays m) (km_displays live)).
Proof.
  intros Hr Hok Hm Eg. pose proof (validate_record_spec _ _ Hr) as (_ & _ & _ & Hok0 & _). rewrite list.Forall_forall in Hok0.
  destruct (Hok0 m Hm) as [_ [D1 _]%validate_displays_spec].
  destruct (Hok (show_now k m)) as [_ Hd2]; [by apply list_elem_of_fmap_2|]. unfold show_now in Hd2. rewrite Eg in Hd2.
  apply validate_displays_spec in Hd2 as [D2 _]. by apply pair_displays_matching.
Qed.
(** The pairs [adapt] collects follow the displays. *)
Lemma changed_pairs_follow json_length r k : validate_record json_length r = true ->
  (forall m, m ∈ show_now k <$> gr_members r -> member_ok m) ->
  follows r k (concat ((fun c => pair_displays (gm_displays (fst c)) (km_displays (snd c))) <$> changed_members r k)).
Proof.
  intros Hr Hok. assert (forall m live p, m ∈ gr_members r -> changed_member k m = Some live -> p ∈ pair_displays (gm_displays m) (km_displays live) ->
    p ∈ concat ((fun c => pair_displays (gm_displays (fst c)) (km_displays (snd c))) <$> changed_members r k)) as Hin.
  { intros m live p Hm E Hp. apply elem_of_concat. eexists. split; [|exact Hp]. apply list_elem_of_fmap. exists (m, live). split; [done|]. by apply elem_of_changed. }
  split.
  - intros p (l & Hl & Hp)%elem_of_concat. apply list_elem_of_fmap in Hl as ([m live] & -> & [Hm E]%elem_of_changed). cbn [fst snd] in Hp.
    exists m, live. destruct (show_now_displays _ _ _ _ _ Hr Hok Hm E) as [M1 M2 M3 _ _]. split_and!; auto.
  - intros m live d c key Hm E Hd Hc Kd Kc. by eapply Hin, pair_displays_monitor.
  - intros m live d c Hm E Hd Hc Ei Hk. destruct (pair_displays_id _ _ d c Hd Hc Ei Hk) as (p & Hp & Hor). exists p. eauto.
Qed.
Lemma adapt_spec json_length r k a : validate_record json_length r = true -> adapt json_length r k = Some a ->
  validate_record json_length (ad_record a) = true /\ gr_members (ad_record a) = show_now k <$> gr_members r
  /\ gr_revision (ad_record a) = gr_revision r /\ gr_author (ad_record a) = gr_author r /\ control (gr_layout (ad_record a)) = control (gr_layout r)
  /\ (changed_members r k = [] -> a = mkAdapted r false)
  /\ (changed_members r k <> [] -> exists pairs, follows r k pairs /\ crossings_follow r k pairs (ad_left_out a) (links (gr_layout (ad_record a)))).
Proof.
  intros Hr. unfold adapt. case_bool_decide as Hc.
  - rewrite Hr. intros [= <-]. cbn [ad_record ad_left_out]. split_and!; try done. by rewrite show_now_unchanged.
  - set (pairs := concat _). cbn [links remap_layout]. set (kept := _ ++ _). set (old := rename_link (id_map pairs) <$> links (gr_layout r)).
    set (ls := filter _ old). set (arranged := _ <$> arrangement _). set (appeared := filter _ _).
    assert (forall b, (b = false -> ls = old) -> crossings_follow r k pairs b ls) as Hcross.
    { intros b Hb. exists old. split_and!; [apply rename_links_moved|apply sublist_filter| |done].
      intros l. unfold ls. rewrite list_elem_of_filter. unfold kept, pairs. rewrite !elem_of_kept. tauto. }
    assert (forall ms, validate_record json_length ms = true -> gr_members ms = show_now k <$> gr_members r -> follows r k pairs) as Hf.
    { intros ms (_ & _ & _ & Hok & _)%validate_record_spec Em. rewrite Em, list.Forall_forall in Hok. by eapply changed_pairs_follow. }
    destruct (validate_record json_length (mkGroupRecord _ _ _ _ (mkLayoutRequest ls (fst <$> arranged) _))) eqn:Ev.
    + intros [= <-]. cbn [ad_record ad_left_out gr_members gr_revision gr_author gr_layout links control]. split_and!; try done.
      intros _. exists pairs. split; [by eapply Hf|]. apply Hcross. intros [Hl _]%orb_false_iff. apply negb_false_iff, Nat.eqb_eq in Hl. by apply filter_all.
    + destruct (bool_decide (appeared = [])); [done|]. match goal with |- (if ?c then _ else _) = _ -> _ => destruct c eqn:Ev2; [|done] end. intros [= <-].
      cbn [ad_record ad_left_out gr_members gr_revision gr_author gr_layout links control]. split_and!; try done.
      intros _. exists pairs. split; [by eapply Hf|]. by apply Hcross.
Qed.

(** C22. A record rebuilt for the displays shown now is valid, keeps its members,
    stamp and permissions, and fits what was shown, so rebuilding it again changes
    nothing; a record that fits already is left as it is.  Otherwise the displays of
    the members that changed are followed: by monitor where one display reported it
    before and one does now, else by number, never to one that reports another
    monitor.  The crossings are the old ones in their order with each display's
    number replaced by that of the display it was followed to: exactly those that
    then name, on both ends, a followed display or a member that did not change,
    and all of them unless it says that something was left out. *)
Theorem adapted_record_fits json_length r k a : validate_record json_length r = true -> adapt json_length r k = Some a ->
  validate_record json_length (ad_record a) = true /\ changed_members (ad_record a) k = []
  /\ adapt json_length (ad_record a) k = Some (mkAdapted (ad_record a) false)
  /\ member_keys (ad_record a) = member_keys r /\ gr_revision (ad_record a) = gr_revision r /\ gr_author (ad_record a) = gr_author r
  /\ control (gr_layout (ad_record a)) = control (gr_layout r)
  /\ (forall m, m ∈ gr_members r -> changed_member k m = None -> m ∈ gr_members (ad_record a))
  /\ (changed_members r k = [] -> a = mkAdapted r false)
  /\ (changed_members r k <> [] -> exists pairs, follows r k pairs /\ crossings_follow r k pairs (ad_left_out a) (links (gr_layout (ad_record a)))).
Proof.
  intros Hr (Hv & Em & Er & Ea & Ec & Hn0 & Hs)%adapt_spec; [|done]. pose proof (validate_record_spec _ _ Hv) as (_ & _ & _ & Hok & _).
  rewrite Em in Hok. rewrite list.Forall_forall in Hok.
  assert (changed_members (ad_record a) k = []) as Hn.
  { apply changed_members_nil. rewrite Em. intros m (x & -> & Hx)%list_elem_of_fmap. apply show_now_fits, Hok. by apply list_elem_of_fmap_2. }
  split_and!; try done.
  - unfold adapt. by rewrite Hn, bool_decide_eq_true_2, Hv.
  - unfold member_keys. rewrite Em, <-list_fmap_compose. apply list_fmap_ext. intros _ m _. unfold compose, show_now, member_key. by destruct (changed_member k m).
  - intros m Hm E. rewrite Em. apply list_elem_of_fmap. exists m. split; [|done]. unfold show_now. by rewrite E.
Qed.

(** ** A group of two *)

Definition sample_snapshot (id : Text) (width : f64) : DisplaySnapshot :=
  mkSnapshot id [77] (f64_zero, f64_zero) (width, 0x4090E00000000000) (1920, 1080) 0x3F800000 true (Some (hex_width 4 16 ++ [minus] ++ hex_width 4 32 ++ [minus] ++ hex_width 8 9)).
Definition left_text : Text := [108; 101; 102; 116].
Definition right_text : Text := [114; 105; 103; 104; 116].
Definition sample_links : list LinkRequest :=
  [mkLinkRequest [49] right_text (f64_zero, f64_one) [50] left_text (f64_zero, f64_one) 0x4010000000000000;
   mkLinkRequest [50] left_text (f64_zero, f64_one) [49] right_text (f64_zero, f64_one) 0x4010000000000000].
Definition hex_a : Text := full_hex (replicate 32 0xAA).
Definition hex_b : Text := full_hex (replicate 32 0xBB).
Definition sample_layout : LayoutRequest :=
  mkLayoutRequest sample_links (Some (mkArrangement [mkPosition [49] f64_zero f64_zero; mkPosition [50] 0x409E000000000000 f64_zero] []))
    (<[fingerprint_key hex_a := true]> (<[fingerprint_key hex_b := false]> ∅)).
Definition sample_record : GroupRecord :=
  mkGroupRecord 1 3 hex_a [mkMember hex_a MacOs [sample_snapshot [49] 0x409E000000000000]; mkMember hex_b Windows [sample_snapshot [50] 0x409E000000000000]] sample_layout.
Definition short_json (_ : GroupRecord) : option Z := Some 900.
Definition link_text (l : LinkRequest) : Text :=
  lr_from_display l ++ [44] ++ lr_from_edge l ++ [44; fst (lr_from_span l); snd (lr_from_span l)] ++ lr_to_display l ++ [44] ++ lr_to_edge l
  ++ [44; fst (lr_to_span l); snd (lr_to_span l); lr_hysteresis l].
Lemma sample_record_valid : validate_record short_json sample_record = true.
Proof. vm_compute. reflexivity. Qed.
(** The other computer's screen under another number, and smaller. *)
Definition shown_now : KnownDisplays := {[ fingerprint_key hex_b := mkKnown Windows [sample_snapshot [55] 0x4090E00000000000] ]}.
Definition reordered_record : GroupRecord :=
  mkGroupRecord 1 9 hex_b (reverse (gr_members (relabeled sample_record shown_now)))
    (mkLayoutRequest (reverse sample_links) (arrangement sample_layout) (control sample_layout)).

Definition adapted_sample : GroupRecord :=
  mkGroupRecord 1 3 hex_a [mkMember hex_a MacOs [sample_snapshot [49] 0x409E000000000000]; mkMember hex_b Windows [sample_snapshot [55] 0x4090E00000000000]]
    (mkLayoutRequest [mkLinkRequest [49] right_text (f64_zero, f64_one) [55] left_text (f64_zero, f64_one) 0x4010000000000000;
                      mkLinkRequest [55] left_text (f64_zero, f64_one) [49] right_text (f64_zero, f64_one) 0x4010000000000000]
       (Some (mkArrangement [mkPosition [49] f64_zero f64_zero; mkPosition [55] 0x409E000000000000 f64_zero] [])) (control sample_layout)).
Lemma sample_adapts : adapt short_json sample_record shown_now = Some (mkAdapted adapted_sample false).
Proof. vm_cast_no_check (@eq_refl (option AdaptedGroup) (Some (mkAdapted adapted_sample false))). Qed.
Lemma adapted_record_fits_witness : changed_members adapted_sample shown_now = []
  /\ adapt short_json adapted_sample shown_now = Some (mkAdapted adapted_sample false)
  /\ exists pairs, (sample_snapshot [50] 0x409E000000000000, sample_snapshot [55] 0x4090E00000000000) ∈ pairs
     /\ crossings_follow sample_record shown_now pairs false (links (gr_layout adapted_sample)).
Proof.
  destruct (adapted_record_fits short_json sample_record shown_now (mkAdapted adapted_sample false) sample_record_valid sample_adapts)
    as (_ & H1 & H2 & _ & _ & _ & _ & _ & _ & H3).
  split; [exact H1|]. split; [exact H2|]. destruct H3 as (pairs & Hf & Hc); [vm_compute; discriminate|].
  exists pairs. split; [|exact Hc].
  apply (follows_monitor _ _ _ Hf (mkMember hex_b Windows [sample_snapshot [50] 0x409E000000000000])
    (mkKnown Windows [sample_snapshot [55] 0x4090E00000000000]) _ _ (hex_width 4 16 ++ [minus] ++ hex_width 4 32 ++ [minus] ++ hex_width 8 9));
    [by right; left|vm_compute; reflexivity|by left|by left|vm_compute; reflexivity|vm_compute; reflexivity].
Defined.

(** *** A number taken over *)

(** The other computer has two screens, on either side of this one; the second one
    is unplugged, and the first then shows under its number. *)
Definition numbered_snapshot (id : Text) (x : f64) (primary : bool) (serial : Z) : DisplaySnapshot :=
  mkSnapshot id [77] (x, f64_zero) (0x409E000000000000, 0x4090E00000000000) (1920, 1080) 0x3F800000 primary
    (Some (hex_width 4 16 ++ [minus] ++ hex_width 4 32 ++ [minus] ++ hex_width 8 serial)).
Definition gone_screen : DisplaySnapshot := numbered_snapshot [51] 0x40BE000000000000 false 10.
Definition stayed_screen : DisplaySnapshot := numbered_snapshot [51] f64_zero true 9.
Definition crossing_to_gone : LinkRequest :=
  mkLinkRequest [49] left_text (f64_zero, f64_one) [51] right_text (f64_zero, f64_one) 0x4010000000000000.
Definition crossing_from_gone : LinkRequest :=
  mkLinkRequest [51] right_text (f64_zero, f64_one) [49] left_text (f64_zero, f64_one) 0x4010000000000000.
Definition two_screens : GroupMember := mkMember hex_b Windows [numbered_snapshot [50] f64_zero true 9; gone_screen].
Definition two_screen_record : GroupRecord :=
  mkGroupRecord 1 3 hex_a [mkMember hex_a MacOs [numbered_snapshot [49] f64_zero true 1]; two_screens]
    (mkLayoutRequest (sample_links ++ [crossing_to_gone; crossing_from_gone]) None (control sample_layout)).
Definition one_screen_now : KnownMember := mkKnown Windows [stayed_screen].
Definition number_taken_over : KnownDisplays := {[ fingerprint_key hex_b := one_screen_now ]}.
Definition unplugged_result : option (bool * list LinkRequest) :=
  (fun a => (ad_left_out a, links (gr_layout (ad_record a)))) <$> adapt short_json two_screen_record number_taken_over.
Lemma unplugged_runs : exists ls, unplugged_result = Some (false, ls) /\ crossing_to_gone ∈ ls.
Proof. vm_compute. eexists. split; [reflexivity|]. right. right. left. Qed.
(** A crossing of a display that is gone is not always dropped: when a monitor that
    stayed now shows under the gone one's number, the crossing stays and leads onto
    it, and nothing is said to be left out. *)
Theorem gone_display_keeps_crossing : exists a,
  validate_record short_json two_screen_record = true /\ adapt short_json two_screen_record number_taken_over = Some a
  /\ two_screens ∈ gr_members two_screen_record /\ changed_member number_taken_over two_screens = Some one_screen_now
  /\ gone_screen ∈ gm_displays two_screens /\ (forall c, c ∈ km_displays one_screen_now -> s_monitor c <> s_monitor gone_screen)
  /\ lr_to_display crossing_to_gone = s_id gone_screen /\ crossing_to_gone ∈ links (gr_layout two_screen_record)
  /\ crossing_to_gone ∈ links (gr_layout (ad_record a)) /\ ad_left_out a = false.
Proof.
  destruct unplugged_runs as (ls & E & Hl). unfold unplugged_result in E.
  destruct (adapt short_json two_screen_record number_taken_over) as [a|]; [|discriminate]. injection E as E1 E2. exists a.
  split_and!; [vm_compute; reflexivity|done|by right; left|vm_compute; reflexivity|by right; left| |done| |by rewrite E2|done].
  - intros c ->%list_elem_of_singleton. vm_compute. discriminate.
  - apply elem_of_app. right. by left.
Qed.
Lemma content_digest_canonical_witness :
  content_digest link_text (fun _ l => concat (link_text <$> links l)) id sample_record
  = content_digest link_text (fun _ l => concat (link_text <$> links l)) id reordered_record.
Proof.
  destruct (content_digest_canonical short_json link_text (fun _ l => concat (link_text <$> links l)) id sample_record reordered_record) as [H _].
  - exact sample_record_valid.
  - intros x y Hx Hy E. cbn [gr_layout sample_record sample_layout links] in Hx, Hy. unfold sample_links in Hx, Hy.
    apply elem_of_cons in Hx as [->|Hx], Hy as [->|Hy]; try apply list_elem_of_singleton in Hx as ->; try apply list_elem_of_singleton in Hy as ->; done.
  - split; [exists (relabel_member shown_now <$> gr_members sample_record); split; [apply reverse_Permutation|]|].
    + apply Forall2_fmap_r, Forall_Forall2_diag, list.Forall_forall. intros m _. apply relabel_same_entry.
    + split_and!; [|done|done..]. cbn [gr_layout sample_record sample_layout reordered_record links]. by rewrite reverse_Permutation.
  - exact H.
Defined.

(** ** A record sent over a link *)

(** The same link as its other end inspects it: each end's displays arrive there as
    the wire normalises them. *)
Definition other_end (i i' : InspectedPeer) : Prop :=
  in_local i' = in_peer i /\ in_peer i' = in_local i /\ in_local_platform i' = in_peer_platform i /\ in_peer_platform i' = in_local_platform i
  /\ in_peer_displays i = normalise_display <$> in_local_displays i' /\ in_peer_displays i' = normalise_display <$> in_local_displays i.
Definition link_ok (i : InspectedPeer) : Prop := is_fingerprint (in_local i) /\ is_fingerprint (in_peer i) /\ in_local i <> in_peer i.
Lemma same_display_geometry_normalised l ds : same_display_geometry l (snapshots (normalise_display <$> ds)) = same_display_geometry l (snapshots ds).
Proof.
  unfold same_display_geometry, snapshots. rewrite !length_fmap. f_equal. induction l as [|d l IH]; [done|]. cbn [forallb]. rewrite IH. f_equal.
  clear. induction ds as [|x ds IH]; [done|]. cbn [fmap list_fmap existsb]. by rewrite IH.
Qed.
Lemma keys_distinct i : link_ok i -> fingerprint_key (full_hex (in_local i)) <> fingerprint_key (full_hex (in_peer i)).
Proof.
  intros (Hl & Hp & Hne) E. apply (fingerprint_key_inj _ _ _ (parse_full_hex _ Hl)) in E. rewrite parse_full_hex in E by done. congruence.
Qed.
Lemma other_end_changed i i' m : link_ok i -> other_end i i' -> changed_member (of_link i') m = None <-> changed_member (of_link i) m = None.
Proof.
  intros Hok%keys_distinct (E1 & E2 & E3 & E4 & E5 & E6). unfold changed_member, known_get, of_link, known_insert. rewrite E1, E2, E3, E4, E5, E6. fold (member_key m).
  destruct (decide (member_key m = fingerprint_key (full_hex (in_local i)))) as [->|Hl].
  - rewrite lookup_insert_eq, lookup_insert_ne, lookup_insert_eq by done. cbn [mbind option_bind km_platform km_displays]. rewrite same_display_geometry_normalised. by destruct (_ || _).
  - destruct (decide (member_key m = fingerprint_key (full_hex (in_peer i)))) as [->|Hp].
    + rewrite lookup_insert_ne, lookup_insert_eq, lookup_insert_eq by done. cbn [mbind option_bind km_platform km_displays]. rewrite same_display_geometry_normalised. by destruct (_ || _).
    + by rewrite !lookup_insert_ne, lookup_empty by done.
Qed.
Lemma changed_members_None r k : changed_members r k = [] <-> forall m, m ∈ gr_members r -> changed_member k m = None.
Proof.
  split; [|apply changed_members_nil]. intros E m Hm. destruct (changed_member k m) as [live|] eqn:Ec; [|done].
  assert ((m, live) ∈ changed_members r k) as H by (by apply elem_of_changed). rewrite E in H. by apply not_elem_of_nil in H.
Qed.
Lemma other_end_fits json_length r i i' : link_ok i -> other_end i i' -> fits_link json_length r i = true -> fits_link json_length r i' = true.
Proof.
  intros Hok Ho. pose proof Ho as (E1 & E2 & _). unfold fits_link. rewrite !andb_true_iff, !bool_decide_eq_true, E1, E2, !changed_members_None.
  intros (((H1 & H2) & H3) & H4). split_and!; try done. intros m Hm. by apply (other_end_changed i i'), H4.
Qed.

(** A record one end of a link may send, the other end accepts as it was sent,
    and the sender itself still does: both judge it by the same two entries,
    though each knows the other's displays only as they came over the wire. *)
Theorem shared_record_arrives json_length to_json from_json i i' r left_out bs :
  (forall x text, to_json x = Some text -> from_json text = Some x) -> link_ok i -> other_end i i' ->
  shared_group_bytes json_length to_json i r left_out = Ok bs ->
  shared_group_for_link json_length from_json i' bs = Ok (r, left_out) /\ shared_group_for_link json_length from_json i bs = Ok (r, left_out).
Proof.
  intros Hj Hok Ho. unfold shared_group_bytes. destruct (validate_record json_length r) eqn:Ev; [|done]. destruct (fits_link json_length r i) eqn:Ef; [|done]. cbn [negb].
  destruct (to_json _) as [text|] eqn:Et; [|done]. cbn [ok_or mbind result_bind]. destruct (_ <? _) eqn:El; [done|]. intros [= <-].
  pose proof (other_end_fits _ _ _ _ Hok Ho Ef) as Ef'. destruct Ho as (E1 & E2 & _). unfold shared_group_for_link. rewrite El, (Hj _ _ Et). cbn [ok_or mbind result_bind sh_version sh_sender sh_receiver sh_record sh_left_out].
  rewrite Ev, Ef, Ef', E1, E2. change (SHARED_GROUP_VERSION =? SHARED_GROUP_VERSION) with true. cbn [negb].
  assert (forall x : Text * Text, bool_decide (x = x) = true) as Hx by (intros x; by apply bool_decide_eq_true). rewrite !Hx. cbn [negb andb].
  rewrite andb_false_r. split; reflexivity.
Qed.
Definition link_of_two : InspectedPeer :=
  mkInspected (replicate 32 0xAA) (replicate 32 0xBB) MacOs Windows
    (default [] (topology_of [sample_snapshot [49] 0x409E000000000000])) (default [] (topology_of [sample_snapshot [50] 0x409E000000000000])).
Definition link_from_there : InspectedPeer :=
  mkInspected (replicate 32 0xBB) (replicate 32 0xAA) Windows MacOs
    (default [] (topology_of [sample_snapshot [50] 0x409E000000000000])) (default [] (topology_of [sample_snapshot [49] 0x409E000000000000])).
(** A serialiser for one value. *)
Definition one_json (x : SharedGroup) : option (list Z) :=
  if bool_decide (sh_record x = sample_record /\ sh_version x = 3 /\ sh_sender x = hex_a /\ sh_receiver x = hex_b /\ sh_left_out x = false) then Some [123] else None.
Definition one_from_json (_ : list Z) : option SharedGroup := Some (mkShared 3 hex_a hex_b sample_record false).
Lemma link_of_two_ok : link_ok link_of_two.
Proof. split_and!; [split; [reflexivity|]; apply Forall_replicate; unfold_int; lia..|discriminate]. Qed.
Lemma shared_record_arrives_witness : shared_group_for_link short_json one_from_json link_from_there [123] = Ok (sample_record, false).
Proof.
  apply (shared_record_arrives short_json one_json one_from_json link_of_two link_from_there sample_record false [123]).
  - intros [v se re rec lo] text. unfold one_json. cbn [sh_record sh_version sh_sender sh_receiver sh_left_out]. case_bool_decide as H; [|discriminate].
    destruct H as (-> & -> & -> & -> & ->). reflexivity.
  - exact link_of_two_ok.
  - split_and!; vm_compute; reflexivity.
  - vm_compute. reflexivity.
Defined.

(** A summary tells its record's stamp, and merging keeps the greater of two. *)
Lemma summary_tells_stamp json_link json_content sha256 ms r s : new_summary json_link json_content sha256 ms (Some r) = Some s ->
  is_fingerprint (content_digest json_link json_content sha256 r) ->
  su_members s = member_keys r /\ summary_stamp s = Some (stamp json_link json_content sha256 r).
Proof.
  unfold new_summary. destruct (bool_decide _) eqn:Ek; [|done]. bool_inv. cbn [negb]. destruct (validate_summary _) eqn:Ev; [|done]. intros [= <-] Hd.
  cbn [su_members fmap option_fmap option_map]. split; [done|]. unfold summary_stamp, stamp. cbn [su_record mbind option_bind ss_author ss_content ss_revision].
  unfold validate_summary in Ev. cbn [su_record fmap option_fmap option_map ss_author] in Ev. destruct (_ || _) in Ev; [done|]. destruct (negb (forallb _ _)) in Ev; [done|].
  apply andb_true_iff in Ev as [(f & Hf & Ea)%validate_fingerprint_spec _]. unfold device_of. rewrite Ea, parse_full_hex by done. cbn [mbind option_bind default].
  by rewrite unhex_hex.
Qed.
Lemma merge_greatest json_link json_content sha256 r o : let stamp := stamp json_link json_content sha256 in let w := merge json_link json_content sha256 r o in
  (w = r \/ w = o) /\ cmp (stamp w) (stamp r) <> Lt /\ cmp (stamp w) (stamp o) <> Lt.
Proof.
  unfold merge. cbn zeta. destruct (lt_b _ _) eqn:E.
  - apply lt_b_spec in E. split_and!; [by right| |apply cmp_irrefl]. rewrite cmp_flip, E. done.
  - split_and!; [by left|apply cmp_irrefl|]. intros H. apply lt_b_spec in H. congruence.
Qed.
