(* ===== verification/SetupFile.v ===== *)
(** * The saved setup (apps/monhop-desktop/src/sharing_preferences.rs)

    Every group's record, the group sharing is on for, and the clock that stamps
    changes: what each operation does to the file, and that a file that loads
    stays a file that loads.  Reading and writing it is not modelled. *)

From stdpp Require Import gmap list sorting.
From S2P Require Import Prelude F64 Types Geometry Messages Codec SessionWire Topology DisplayArrangement Handshake Ordering Fingerprint SavedLayout GroupRecord GroupTheorems.

Definition SETUP_FILE_VERSION : Z := 4.
Definition MAX_GROUPS : nat := 16.
Definition MAX_CLOCK_STEP : Z := 1 ≪ 20.
Definition MAX_INTERFACE_ID_BYTES : nat := 512.

Record SetupFile := mkSetup {
  sf_version : Z; sf_interface_id : option Text; sf_local : option Text; sf_enabled : list Text; sf_paused : bool;
  sf_clock : Z; sf_groups : list GroupRecord; sf_newer : bool }.
Definition default_setup : SetupFile := mkSetup SETUP_FILE_VERSION None None [] false 0 [] false.
Definition with_enabled (f : SetupFile) (l : list Text) : SetupFile :=
  mkSetup (sf_version f) (sf_interface_id f) (sf_local f) l (sf_paused f) (sf_clock f) (sf_groups f) (sf_newer f).
Definition with_paused (f : SetupFile) (b : bool) : SetupFile :=
  mkSetup (sf_version f) (sf_interface_id f) (sf_local f) (sf_enabled f) b (sf_clock f) (sf_groups f) (sf_newer f).
Definition with_clock (f : SetupFile) (c : Z) : SetupFile :=
  mkSetup (sf_version f) (sf_interface_id f) (sf_local f) (sf_enabled f) (sf_paused f) c (sf_groups f) (sf_newer f).
Definition with_groups (f : SetupFile) (g : list GroupRecord) : SetupFile :=
  mkSetup (sf_version f) (sf_interface_id f) (sf_local f) (sf_enabled f) (sf_paused f) (sf_clock f) g (sf_newer f).
Definition set_interface_id (f : SetupFile) (id : Text) : SetupFile :=
  mkSetup (sf_version f) (Some id) (sf_local f) (sf_enabled f) (sf_paused f) (sf_clock f) (sf_groups f) (sf_newer f).

Definition within_clock_step (clock revision : Z) : bool := revision <=? Z.min (clock + MAX_CLOCK_STEP) u64_max.
(** [saturating_add(1)] of the clock. *)
Definition next_revision (f : SetupFile) : Z := Z.min (sf_clock f + 1) u64_max.
Definition local_key (f : SetupFile) : option Text := fingerprint_key <$> sf_local f.

Definition active_members (f : SetupFile) : option (list Text) :=
  if bool_decide (sf_enabled f = []) then None
  else local ← sf_local f; Some (sort_by_key (fun k : Text => k) (sf_enabled f ++ [fingerprint_key local])).
Definition group_of (gs : list GroupRecord) (keys : list Text) : option GroupRecord :=
  List.find (fun g => bool_decide (member_keys g = keys)) gs.
Definition active_group (f : SetupFile) : option GroupRecord := active_members f ≫= group_of (sf_groups f).
Definition active (f : SetupFile) : option Text :=
  match sf_enabled f with [peer] => if sf_paused f then None else Some peer | _ => None end.
Definition sharing_chosen (f : SetupFile) : bool := negb (sf_paused f) && negb (bool_decide (sf_enabled f = [])).
Definition set_active (f : SetupFile) (fp : option Fingerprint) : SetupFile :=
  match fp with
  | Some fp => with_paused (with_enabled f [fingerprint_key (full_hex fp)]) false
  | None => with_paused f true
  end.
Definition resume (f : SetupFile) : SetupFile := with_paused f false.
Definition observe_clock (f : SetupFile) (seen : Z) : SetupFile := with_clock f (Z.max (sf_clock f) seen).
Definition set_local (f : SetupFile) (local : Text) : SetupFile :=
  let key := fingerprint_key local in
  if bool_decide (local_key f = Some key) then f
  else mkSetup (sf_version f) (sf_interface_id f) (Some (to_ascii_uppercase <$> key)) (filter (fun p => p <> key) (sf_enabled f))
         (sf_paused f) (sf_clock f) (List.filter (fun g => has_member g key) (sf_groups f)) (sf_newer f).
Definition previewed (f : SetupFile) (preview : GroupRecord -> GroupRecord) : SetupFile := with_groups f (preview <$> sf_groups f).

Section Setup.
Context (json_length : GroupRecord -> option Z) (json_link : LinkRequest -> Text)
  (json_content : list GroupMember -> LayoutRequest -> list Z) (sha256 : list Z -> list Z).
#[local] Notation stamp := (stamp json_link json_content sha256).

(** [store]: the oldest inactive records past the bound go. *)
Definition inactive (active : option (list Text)) (p : nat * GroupRecord) : bool := negb (bool_decide (active = Some (member_keys (snd p)))).
Fixpoint drop_oldest (fuel : nat) (active : option (list Text)) (gs : list GroupRecord) : list GroupRecord :=
  match fuel with
  | O => gs
  | S fuel =>
      if (length gs <=? MAX_GROUPS)%nat then gs
      else match min_by_key (fun p => stamp (snd p)) (List.filter (inactive active) (imap pair gs)) with
           | None => gs
           | Some (i, _) => drop_oldest fuel active (delete i gs)
           end
  end.
Definition store (f : SetupFile) (r : GroupRecord) : SetupFile :=
  let gs := filter (fun g => member_keys g <> member_keys r) (sf_groups f) ++ [r] in
  let gs := sort_by_key member_keys gs in
  with_groups f (drop_oldest (length gs) (active_members f) gs).

(** [take], as [adopt] calls it; [replace] is the fixtures'. *)
Definition take_record (f : SetupFile) (local : Text) (r : GroupRecord) (replace : bool) : SetupFile * option bool :=
  if negb (validate_record json_length r) then (f, None)
  else match parse_full local with
       | Err _ => (f, None)
       | Ok fp =>
           let local := full_hex fp in
           if negb (has_member r local) then (f, None)
           else
             let f := set_local f local in
             let ms := member_keys r in
             let f := with_enabled f (filter (fun m => m <> fingerprint_key local) ms) in
             let f := with_clock f (Z.max (sf_clock f) (gr_revision r)) in
             let newer := replace || match group_of (sf_groups f) ms with
                                     | None => true
                                     | Some held => ge_b (stamp r) (stamp held)
                                     end in
             (if newer then store f r else f, Some newer)
       end.
Definition adopt (f : SetupFile) (local : Text) (r : GroupRecord) : SetupFile * option bool := take_record f local r false.

(** Replacing the first group of [keys]. *)
Definition replace_group (gs : list GroupRecord) (keys : list Text) (make : GroupRecord -> option GroupRecord) : option (list GroupRecord) :=
  '(i, held) ← list_find (fun g => member_keys g = keys) gs;
  touched ← make held;
  Some (<[i := touched]> gs).
Definition touch_active (f : SetupFile) : SetupFile * bool :=
  match sf_local f, active_members f with
  | Some local, Some ms =>
      let revision := next_revision f in
      match replace_group (sf_groups f) ms (fun held => restamped json_length held revision local) with
      | Some gs => (with_clock (with_groups f gs) revision, true)
      | None => (f, false)
      end
  | _, _ => (f, false)
  end.
Definition choose (f : SetupFile) (fp : Fingerprint) : SetupFile :=
  let chosen := bool_decide (active f = Some (fingerprint_key (full_hex fp))) in
  let f := set_active f (Some fp) in
  if chosen then f else fst (touch_active f).

Inductive EnableError := NotAnotherComputer | GroupFull.
(** Switching a computer on, or off. *)
Definition enable_key (f : SetupFile) (key : Text) : result EnableError SetupFile :=
  if bool_decide (key ∈ sf_enabled f) then Ok (with_paused f false)
  else if (MAX_GROUP_MEMBERS <=? length (sf_enabled f) + 1)%nat then Err GroupFull
  else Ok (with_paused (with_enabled f (sort_by_key (fun k : Text => k) (sf_enabled f ++ [key]))) false).
Definition derive_without (f : SetupFile) (previous : option GroupRecord) (key : Text) : SetupFile :=
  match previous, sf_local f with
  | Some previous, Some local =>
      let revision := next_revision f in
      match without_member json_length previous key revision local with
      | Some derived => with_clock (store f derived) revision
      | None => f
      end
  | _, _ => f
  end.
Definition set_enabled (f : SetupFile) (fp : Fingerprint) (enabled : bool) : SetupFile * result EnableError () :=
  let key := fingerprint_key (full_hex fp) in
  if bool_decide (local_key f = Some key) then (f, Err NotAnotherComputer)
  else
    let was := bool_decide (key ∈ sf_enabled f) in
    if Bool.eqb was enabled && negb (enabled && sf_paused f) then (f, Ok ())
    else
      let previous := active_group f in
      match (if enabled then enable_key f key else Ok (with_enabled f (filter (fun p => p <> key) (sf_enabled f)))) with
      | Err e => (f, Err e)
      | Ok f =>
          if bool_decide (sf_enabled f = []) then (f, Ok ())
          else let '(f, touched) := touch_active f in
               if touched || enabled then (f, Ok ()) else (derive_without f previous key, Ok ())
      end.

(** The loop of [forget] over the groups that named the computer. *)
Fixpoint derive_groups (key : Text) (revision : Z) (local : Text) (naming kept : list GroupRecord) : list GroupRecord * bool :=
  match naming with
  | [] => (kept, false)
  | g :: naming =>
      match without_member json_length g key revision local with
      | None => derive_groups key revision local naming kept
      | Some derived =>
          if existsb (fun held => bool_decide (member_keys held = member_keys derived)) kept then derive_groups key revision local naming kept
          else (fst (derive_groups key revision local naming (kept ++ [derived])), true)
      end
  end.
Definition forget (f : SetupFile) (fingerprint : Text) : SetupFile :=
  let key := fingerprint_key fingerprint in
  let was_enabled := bool_decide (key ∈ sf_enabled f) in
  let f := with_enabled f (filter (fun p => p <> key) (sf_enabled f)) in
  match sf_local f with
  | None => f
  | Some local =>
      let naming := List.filter (fun g => has_member g key) (sf_groups f) in
      let kept := List.filter (fun g => negb (has_member g key)) (sf_groups f) in
      let revision := next_revision f in
      let '(kept, derived) := derive_groups key revision local naming kept in
      let touched := if was_enabled then ms ← active_members f; replace_group kept ms (fun held => restamped json_length held revision local) else None in
      let f := with_groups f (sort_by_key member_keys (default kept touched)) in
      if derived || bool_decide (is_Some touched) then with_clock f revision else f
  end.

(** [group_with]: the record a computer's card draws. *)
Definition group_with (f : SetupFile) (fingerprint : Text) : option GroupRecord :=
  let naming := List.filter (fun g => has_member g fingerprint) (sf_groups f) in
  match active_group f with
  | Some g => if has_member g fingerprint then Some g else
      match List.find (fun g => (length (gr_members g) =? 2)%nat) naming with Some g => Some g | None => max_by_key stamp naming end
  | None => match List.find (fun g => (length (gr_members g) =? 2)%nat) naming with Some g => Some g | None => max_by_key stamp naming end
  end.

(** The loop of [validate] over the groups. *)
Fixpoint validate_groups (local : option Text) (clock : Z) (previous : option (list Text)) (gs : list GroupRecord) : bool :=
  match gs with
  | [] => true
  | g :: gs =>
      validate_record json_length g && match local with Some l => has_member g l | None => false end && (gr_revision g <=? clock)
      && match previous with Some p => lt_b p (member_keys g) | None => true end && validate_groups local clock (Some (member_keys g)) gs
  end.
Definition validate_setup (f : SetupFile) : bool :=
  (sf_version f =? SETUP_FILE_VERSION) && (length (sf_groups f) <=? MAX_GROUPS)%nat && (length (sf_enabled f) <? MAX_GROUP_MEMBERS)%nat
  && strictly_sorted (fun k : Text => k) (sf_enabled f)
  && match sf_interface_id f with Some id => negb (bool_decide (id = [])) && (length id <=? MAX_INTERFACE_ID_BYTES)%nat | None => true end
  && match sf_local f with Some l => validate_fingerprint l | None => true end
  && forallb (fun p => validate_fingerprint (to_ascii_uppercase <$> p) && bool_decide (fingerprint_key p = p)
                       && negb (bool_decide (local_key f = Some p))) (sf_enabled f)
  && validate_groups (local_key f) (sf_clock f) None (sf_groups f).
End Setup.
