(* ===== verification/SetupTheorems.v ===== *)
(** * Properties of the saved setup

    Every operation leaves a file that validates; the record kept for a group is
    the newest this computer has heard of; a change made here is newer than all
    of them. *)

From stdpp Require Import gmap list sorting.
From S2P Require Import Prelude F64 Types Geometry Messages Codec SessionWire Topology DisplayArrangement Handshake Ordering Fingerprint SavedLayout GroupRecord GroupTheorems SetupFile.

Lemma elem_of_List_filter {A} (f : A -> bool) l x : x ∈ List.filter f l <-> x ∈ l /\ f x = true.
Proof. by rewrite !list_elem_of_In, filter_In. Qed.
Lemma ascending_List_filter {B K} `{CmpLaws K} (key : B -> K) (f : B -> bool) l : Ascending key l -> Ascending key (List.filter f l).
Proof.
  induction 1 as [|x l Hs IH Hf]; [constructor|]. cbn [List.filter]. destruct (f x); [|done]. constructor; [done|].
  rewrite list.Forall_forall in Hf |- *. intros y [Hy _]%elem_of_List_filter. auto.
Qed.
Lemma elem_of_delete {A} (l : list A) i x : x ∈ delete i l -> x ∈ l.
Proof.
  revert i. induction l as [|y l IH]; intros [|i]; cbn; try done; [by right|]. intros [->|Hx]%elem_of_cons; [by left|right; by eapply IH].
Qed.
Lemma ascending_delete {B K} `{CmpLaws K} (key : B -> K) i l : Ascending key l -> Ascending key (delete i l).
Proof.
  intros Ha. revert i. induction Ha as [|x l Hs IH Hf]; intros [|i]; cbn; [constructor..|done|]. constructor; [apply IH|].
  rewrite list.Forall_forall in Hf |- *. intros y Hy. apply Hf. by eapply elem_of_delete.
Qed.
Lemma ascending_by_keys {B K} `{CmpLaws K} (key : B -> K) l l' : key <$> l = key <$> l' -> Ascending key l -> Ascending key l'.
Proof.
  intros E Ha. revert l' E. induction Ha as [|x l Hs IH Hf]; intros [|y l'] E; try done; [constructor|]. injection E as E1 E2. constructor; [by apply IH|].
  rewrite list.Forall_forall in Hf |- *. intros z Hz. assert (key z ∈ key <$> l) as (w & -> & Hw)%list_elem_of_fmap.
  { unfold fmap. rewrite E2. by apply (list_elem_of_fmap_2 key). }
  rewrite <-E1. by apply Hf.
Qed.

(** ** Members and stamps of a record *)

Lemma has_member_spec r x : has_member r x = true <-> fingerprint_key x ∈ member_keys r.
Proof.
  unfold has_member, index_of, member_keys. rewrite bool_decide_eq_true, fmap_is_Some. split.
  - intros [[i m] (Hm & E & _)%list_find_Some]. rewrite <-E. apply list_elem_of_fmap_2. by eapply list_elem_of_lookup_2.
  - intros (m & E & Hm)%list_elem_of_fmap. by apply (list_find_elem_of _ _ m).
Qed.
Lemma has_member_key r x : has_member r (fingerprint_key x) = has_member r x.
Proof. apply eq_true_iff_eq. by rewrite !has_member_spec, fingerprint_key_idem. Qed.

Section Setup.
Context (json_length : GroupRecord -> option Z) (json_link : LinkRequest -> Text)
  (json_content : list GroupMember -> LayoutRequest -> list Z) (sha256 : list Z -> list Z).
#[local] Notation stamp := (stamp json_link json_content sha256).
#[local] Notation validate_record := (validate_record json_length).

Lemma restamped_spec r rev a r' : restamped json_length r rev a = Some r' ->
  validate_record r' = true /\ gr_revision r' = rev /\ gr_members r' = gr_members r /\ gr_layout r' = gr_layout r
  /\ canonical_fingerprint a = Some (gr_author r') /\ has_member r' a = true.
Proof.
  unfold restamped. destruct (canonical_fingerprint a) as [c|] eqn:Ec; [|done]. cbn [mbind option_bind]. destruct (validate_record _) eqn:Ev; [|done].
  intros [= <-]. split_and!; try done. apply has_member_spec. apply canonical_fingerprint_valid in Ec as (_ & <- & _).
  apply validate_record_spec in Ev as (_ & _ & (m & Hm & E) & _). cbn [gr_members gr_author] in *. apply list_elem_of_fmap. exists m. by rewrite <-E.
Qed.
Lemma without_member_spec r x rev a r' : without_member json_length r x rev a = Some r' ->
  validate_record r' = true /\ gr_revision r' = rev /\ has_member r' a = true.
Proof.
  unfold without_member. destruct (index_of r x) as [i|]; [|done]. cbn [mbind option_bind]. destruct (gr_members r !! i); [|done]. cbn [mbind option_bind].
  by intros (? & ? & _ & _ & _ & ?)%restamped_spec.
Qed.
Lemma replace_group_spec gs keys make gs' : replace_group gs keys make = Some gs' ->
  exists i held touched, gs !! i = Some held /\ member_keys held = keys /\ make held = Some touched /\ gs' = <[i := touched]> gs.
Proof.
  unfold replace_group. destruct (list_find _ gs) as [[i held]|] eqn:E; [|done]. apply list_find_Some in E as (Hi & Hk & _). cbn [mbind option_bind].
  destruct (make held) as [t|] eqn:Et; [|done]. intros [= <-]. by exists i, held, t.
Qed.
Lemma replace_restamped gs keys rev a gs' : replace_group gs keys (fun held => restamped json_length held rev a) = Some gs' ->
  member_keys <$> gs' = member_keys <$> gs
  /\ forall g, g ∈ gs' -> g ∈ gs \/ (validate_record g = true /\ gr_revision g = rev /\ has_member g a = true).
Proof.
  intros (i & held & t & Hi & _ & Ht & ->)%replace_group_spec. apply restamped_spec in Ht as (Hv & Hr & Em & _ & _ & Hm). split.
  - rewrite list_fmap_insert. apply list_insert_id. rewrite list_lookup_fmap, Hi. cbn. unfold member_keys. by rewrite Em.
  - intros g [j Hj]%list_elem_of_lookup. apply list_lookup_insert_Some in Hj as [(_ & -> & _)|[_ Hj]]; [by right|left; by eapply list_elem_of_lookup_2].
Qed.

(** ** A file that loads *)

(** An enabled computer: a lower-case fingerprint. *)
Definition key_ok (p : Text) : Prop := validate_fingerprint (to_ascii_uppercase <$> p) = true /\ fingerprint_key p = p.
Definition group_ok (local : option Text) (clock : Z) (g : GroupRecord) : Prop :=
  validate_record g = true /\ (exists l, local = Some l /\ has_member g l = true) /\ gr_revision g <= clock.
Record FileOk (f : SetupFile) : Prop := {
  ok_version : sf_version f = SETUP_FILE_VERSION;
  ok_groups_bound : (length (sf_groups f) <= MAX_GROUPS)%nat;
  ok_enabled_bound : (length (sf_enabled f) < MAX_GROUP_MEMBERS)%nat;
  ok_enabled_sorted : Ascending (fun k : Text => k) (sf_enabled f);
  ok_interface : match sf_interface_id f with Some id => id <> [] /\ (length id <= MAX_INTERFACE_ID_BYTES)%nat | None => True end;
  ok_local : match sf_local f with Some l => validate_fingerprint l = true | None => True end;
  ok_enabled : forall p, p ∈ sf_enabled f -> key_ok p /\ local_key f <> Some p;
  ok_groups : forall g, g ∈ sf_groups f -> group_ok (local_key f) (sf_clock f) g;
  ok_groups_sorted : Ascending member_keys (sf_groups f) }.

Lemma validate_groups_spec local clock previous gs : validate_groups json_length local clock previous gs = true <->
  (forall g, g ∈ gs -> group_ok local clock g) /\ Ascending member_keys gs
  /\ (forall p g, previous = Some p -> g ∈ gs -> cmp p (member_keys g) = Lt).
Proof.
  revert previous. induction gs as [|g gs IH]; intros previous; cbn [validate_groups].
  { split; [|done]. intros _. split_and!; [by intros ? ?%not_elem_of_nil|constructor|by intros ? ? _ ?%not_elem_of_nil]. }
  rewrite !andb_true_iff, IH, Z.leb_le. split.
  - intros ((((Hv & Hl) & Hr) & Hp) & Hg & Ha & Hlt). split_and!.
    + intros x [->|Hx]%elem_of_cons; [|auto]. split_and!; try done. destruct local as [l|]; [by exists l|done].
    + constructor; [done|]. apply list.Forall_forall. intros x Hx. by apply Hlt.
    + intros p x -> Hx. apply lt_b_spec in Hp. apply elem_of_cons in Hx as [->|Hx]; [done|]. eapply cmp_trans; [exact Hp|]. by apply Hlt.
  - intros (Hg & Ha & Hp). inversion Ha as [|? ? Ha' Hf]; subst. rewrite list.Forall_forall in Hf.
    destruct (Hg g ltac:(by left)) as (Hv & (l & El & Hm) & Hr). rewrite El. split_and!; try done.
    + destruct previous as [p|]; [|done]. apply lt_b_spec, Hp; [done|by left].
    + intros x Hx. rewrite <-El. apply Hg. by right.
    + intros p x [= <-] Hx. by apply Hf.
Qed.
Lemma validate_setup_spec f : validate_setup json_length f = true <-> FileOk f.
Proof.
  unfold validate_setup. rewrite !andb_true_iff, Z.eqb_eq, Nat.leb_le, Nat.ltb_lt, strictly_sorted_ascending, validate_groups_spec, forallb_forall. split.
  - intros (((((((H1 & H2) & H3) & H4) & H5) & H6) & H7) & Hg & Ha & _). split; try done.
    + destruct (sf_interface_id f); [|done]. apply andb_true_iff in H5 as [? ?%Nat.leb_le]. by bool_inv.
    + by destruct (sf_local f).
    + intros p Hp%list_elem_of_In%H7. bool_inv. done.
  - intros [H1 H2 H3 H4 H5 H6 H7 Hg Ha]. split_and!; try done.
    + destruct (sf_interface_id f) as [id|]; [|done]. destruct H5. apply andb_true_iff. split; [|by apply Nat.leb_le]. by rewrite bool_decide_eq_false_2.
    + by destruct (sf_local f).
    + intros p Hp. apply list_elem_of_In in Hp. destruct (H7 p Hp) as [[-> Hk] Hl]. rewrite (bool_decide_eq_true_2 _ Hk), (bool_decide_eq_false_2 _ Hl). done.
Qed.

(** The clock only grows, and nothing else of a group's standing depends on it. *)
Lemma group_ok_clock local c c' g : c <= c' -> group_ok local c g -> group_ok local c' g.
Proof. intros Hc (H1 & H2 & H3). split_and!; try done. lia. Qed.
Lemma file_ok_groups f gs c : FileOk f -> (length gs <= MAX_GROUPS)%nat -> (forall g, g ∈ gs -> group_ok (local_key f) c g) -> Ascending member_keys gs ->
  FileOk (with_clock (with_groups f gs) c).
Proof. intros [H1 H2 H3 H4 H5 H6 H7 Hg Ha] Hl Hgs Hs. by split. Qed.
Lemma file_ok_enabled f l : FileOk f -> (length l < MAX_GROUP_MEMBERS)%nat -> Ascending (fun k : Text => k) l ->
  (forall p, p ∈ l -> key_ok p /\ local_key f <> Some p) -> FileOk (with_enabled f l).
Proof. intros [H1 H2 H3 H4 H5 H6 H7 Hg Ha] Hl Hs Hp. by split. Qed.
Lemma file_ok_paused f b : FileOk f -> FileOk (with_paused f b).
Proof. intros [H1 H2 H3 H4 H5 H6 H7 Hg Ha]. by split. Qed.
Lemma file_ok_clock f c : FileOk f -> sf_clock f <= c -> FileOk (with_clock f c).
Proof. intros [H1 H2 H3 H4 H5 H6 H7 Hg Ha] Hc. split; try done. intros g Hgg. apply (group_ok_clock _ (sf_clock f)); [done|by apply Hg]. Qed.
Lemma fingerprint_key_ok fp : is_fingerprint fp -> key_ok (fingerprint_key (full_hex fp)).
Proof.
  intros Hf. split; [|apply fingerprint_key_idem]. pose proof (parse_full_hex fp Hf) as E. rewrite <-parse_full_key in E.
  apply parse_full_Ok in E as (_ & -> & _). apply validate_fingerprint_spec. by exists fp.
Qed.
Lemma valid_key_ok l : validate_fingerprint l = true -> key_ok (fingerprint_key l).
Proof. intros (fp & Hf & ->)%validate_fingerprint_spec. by apply fingerprint_key_ok. Qed.

(** ** Storing a record *)

Lemma elem_of_imap_pair {A} (l : list A) i x : (i, x) ∈ imap pair l <-> l !! i = Some x.
Proof.
  rewrite list_elem_of_lookup. split.
  - intros (j & Hj). rewrite list_lookup_imap in Hj. destruct (l !! j) eqn:E; [|done]. by injection Hj as -> ->.
  - intros H. exists i. by rewrite list_lookup_imap, H.
Qed.
Lemma elem_of_delete_other {A} (l : list A) i x y : l !! i = Some y -> x ∈ l -> x <> y -> x ∈ delete i l.
Proof.
  revert i. induction l as [|z l IH]; intros [|i] Hi Hx Hne; try done; cbn in *.
  - injection Hi as ->. by apply elem_of_cons in Hx as [->|Hx].
  - apply elem_of_cons in Hx as [->|Hx]; [by left|]. right. by apply IH.
Qed.
Lemma drop_oldest_spec active fuel : forall gs, Ascending member_keys gs -> (length gs <= fuel + MAX_GROUPS)%nat ->
  let gs' := drop_oldest json_link json_content sha256 fuel active gs in
  Ascending member_keys gs' /\ (forall g, g ∈ gs' -> g ∈ gs) /\ (length gs' <= MAX_GROUPS)%nat
  /\ (forall g, g ∈ gs -> active = Some (member_keys g) -> g ∈ gs').
Proof.
  induction fuel as [|fuel IH]; intros gs Ha Hl; cbn [drop_oldest]; [by split_and!|].
  destruct (length gs <=? MAX_GROUPS)%nat eqn:El; [apply Nat.leb_le in El; by split_and!|]. apply Nat.leb_gt in El.
  destruct (min_by_key _ _) as [[i g]|] eqn:Em.
  - apply min_by_key_elem, elem_of_List_filter in Em as [Hi Hina]. apply elem_of_imap_pair in Hi.
    destruct (IH (delete i gs)) as (J1 & J2 & J3 & J4); [by apply ascending_delete| |].
    { rewrite length_delete by (by rewrite Hi). lia. }
    split_and!; try done.
    + intros x Hx. by eapply elem_of_delete, J2.
    + intros x Hx Hact. apply J4; [|done]. apply (elem_of_delete_other gs i x g); [done|done|]. intros ->.
      unfold inactive in Hina. bool_inv. done.
  - exfalso. apply min_by_key_None in Em. destruct gs as [|a [|b gs]]; [cbn in El; lia|cbn in El; unfold MAX_GROUPS in El; lia|].
    assert (forall j x, (a :: b :: gs) !! j = Some x -> active = Some (member_keys x)) as H.
    { intros j x Hj. apply elem_of_imap_pair in Hj. destruct (inactive active (j, x)) eqn:Ex; [|unfold inactive in Ex; bool_inv; done].
      assert ((j, x) ∈ List.filter (inactive active) (imap pair (a :: b :: gs))) as Hin by (by apply elem_of_List_filter).
      rewrite Em in Hin. by apply not_elem_of_nil in Hin. }
    pose proof (H 0%nat a eq_refl) as E1. pose proof (H 1%nat b eq_refl) as E2. rewrite E1 in E2. injection E2 as E2.
    inversion Ha as [|? ? _ Hf]; subst. inversion Hf as [|? ? Hlt]; subst. rewrite E2 in Hlt. by apply cmp_irrefl in Hlt.
Qed.
#[local] Notation store := (store json_link json_content sha256).
Lemma store_groups f r : Ascending member_keys (sf_groups f) ->
  let gs := sf_groups (store f r) in
  Ascending member_keys gs /\ (length gs <= MAX_GROUPS)%nat /\ (forall g, g ∈ gs -> g = r \/ (g ∈ sf_groups f /\ member_keys g <> member_keys r))
  /\ (active_members f = Some (member_keys r) -> r ∈ gs).
Proof.
  intros Ha. unfold store. cbn [sf_groups with_groups]. set (l := _ ++ [r]).
  assert (NoDup (member_keys <$> l)) as Hn.
  { unfold l. rewrite fmap_app. apply list.NoDup_app. split_and!; [|intros k (g & -> & [Hg _]%list_elem_of_filter)%list_elem_of_fmap Hk|apply list.NoDup_singleton].
    - apply ascending_keys_NoDup. by apply ascending_filter_by.
    - apply list_elem_of_singleton in Hk. done. }
  destruct (drop_oldest_spec (active_members f) (length (sort_by_key member_keys l)) (sort_by_key member_keys l)) as (J1 & J2 & J3 & J4);
    [by apply sort_by_key_ascending|lia|]. split_and!; try done.
  - intros g Hg. apply J2 in Hg. rewrite sort_by_key_perm in Hg. apply elem_of_app in Hg as [[H1 H2]%list_elem_of_filter| ->%list_elem_of_singleton]; auto.
  - intros Hact. apply J4; [|done]. rewrite sort_by_key_perm. apply elem_of_app. right. by apply list_elem_of_singleton.
Qed.
Lemma store_ok f r c : FileOk f -> sf_clock f <= c -> group_ok (local_key f) c r -> FileOk (with_clock (store f r) c).
Proof.
  intros Hf Hc Hr. destruct (store_groups f r (ok_groups_sorted f Hf)) as (J1 & J2 & J3 & _).
  change (with_clock (store f r) c) with (with_clock (with_groups f (sf_groups (store f r))) c). apply file_ok_groups; try done.
  intros g [->|[Hg _]]%J3; [done|]. apply (group_ok_clock _ (sf_clock f)); [done|]. by apply (ok_groups f Hf).
Qed.

(** ** Each operation *)

Definition clock_ok (f : SetupFile) : Prop := 0 <= sf_clock f <= u64_max.
Lemma next_revision_spec f : clock_ok f -> sf_clock f <= next_revision f <= u64_max /\ 0 < next_revision f.
Proof. unfold clock_ok, next_revision. intros H. unfold_int. lia. Qed.

Lemma key_of_key local : fingerprint_key (to_ascii_uppercase <$> fingerprint_key local) = fingerprint_key local.
Proof.
  unfold fingerprint_key. rewrite <-!list_fmap_compose. apply list_fmap_ext. intros _ b _. unfold compose, to_ascii_lowercase, to_ascii_uppercase.
  repeat match goal with |- context [(?a <=? ?b) && (?c <=? ?d)] => destruct ((a <=? b) && (c <=? d)) eqn:? end; bool_inv; try lia.
  all: repeat match goal with H : _ \/ _ |- _ => destruct H end; bool_inv; lia.
Qed.
Lemma set_local_key f local : local_key (set_local f local) = Some (fingerprint_key local).
Proof. unfold set_local. case_bool_decide as H; [done|]. unfold local_key. cbn [sf_local fmap option_fmap option_map]. by rewrite key_of_key. Qed.
Lemma set_local_ok f fp : FileOk f -> is_fingerprint fp -> FileOk (set_local f (full_hex fp)) /\ sf_clock (set_local f (full_hex fp)) = sf_clock f.
Proof.
  intros Hf Hfp. pose proof (set_local_key f (full_hex fp)) as Hk. unfold set_local in *. case_bool_decide as H; [done|]. split; [|done].
  destruct Hf as [H1 H2 H3 H4 H5 H6 H7 Hg Ha]. split; try done; cbn [sf_version sf_groups sf_enabled sf_interface_id sf_local sf_clock].
  - etransitivity; [apply List.filter_length_le|exact H2].
  - eapply Nat.le_lt_trans; [apply length_filter|done].
  - by apply ascending_filter_by.
  - by destruct (fingerprint_key_ok fp Hfp).
  - intros p [Hp Hin]%list_elem_of_filter. split; [by apply H7|]. rewrite Hk. congruence.
  - intros g [Hin Hm]%elem_of_List_filter. rewrite Hk. destruct (Hg g Hin) as (G1 & _ & G3). split_and!; try done. by exists (fingerprint_key (full_hex fp)).
  - by apply ascending_List_filter.
Qed.

Lemma ascending_fmap {B K} `{CmpLaws K} (key : B -> K) l : Ascending key l -> Ascending (fun k : K => k) (key <$> l).
Proof.
  induction 1 as [|x l Hs IH Hf]; [constructor|]. cbn [fmap list_fmap]. constructor; [done|]. apply list.Forall_forall. intros k (y & -> & Hy)%list_elem_of_fmap.
  rewrite list.Forall_forall in Hf. by apply Hf.
Qed.
Lemma record_keys r : validate_record r = true -> Ascending (fun k : Text => k) (member_keys r) /\ (forall k, k ∈ member_keys r -> key_ok k)
  /\ (2 <= length (member_keys r) <= MAX_GROUP_MEMBERS)%nat.
Proof.
  intros (_ & Hl & _ & Hm & Ha & _)%validate_record_spec. unfold member_keys. rewrite length_fmap. split_and!; try lia; [by apply ascending_fmap|].
  intros k (m & -> & Hin)%list_elem_of_fmap. rewrite list.Forall_forall in Hm. by apply valid_key_ok, Hm.
Qed.
Lemma store_same f r : with_clock (store f r) (sf_clock f) = store f r.
Proof. done. Qed.
Lemma store_clock f r : sf_clock (store f r) = sf_clock f.
Proof. done. Qed.

Definition others (r : GroupRecord) (key : Text) : list Text := filter (fun m => m <> key) (member_keys r).
(** [take_record] once its checks have passed, up to the store. *)
Definition taken (f : SetupFile) (fp : Fingerprint) (r : GroupRecord) : SetupFile :=
  let f := with_enabled (set_local f (full_hex fp)) (others r (fingerprint_key (full_hex fp))) in
  with_clock f (Z.max (sf_clock f) (gr_revision r)).
Lemma taken_ok f fp r : FileOk f -> is_fingerprint fp -> validate_record r = true -> has_member r (full_hex fp) = true ->
  FileOk (taken f fp r) /\ sf_clock (taken f fp r) = Z.max (sf_clock f) (gr_revision r)
  /\ local_key (taken f fp r) = Some (fingerprint_key (full_hex fp)) /\ group_ok (local_key (taken f fp r)) (sf_clock (taken f fp r)) r.
Proof.
  intros Hf Hfp Hv Hm. destruct (set_local_ok f fp Hf Hfp) as [Hl Hc]. pose proof (set_local_key f (full_hex fp)) as Hk.
  destruct (record_keys r Hv) as (Ks & Kok & Kl). unfold taken. cbn zeta. split_and!.
  - apply file_ok_clock; [|cbn; lia]. apply file_ok_enabled; try done.
    + eapply Nat.lt_le_trans; [apply (length_filter_lt _ _ (fingerprint_key (full_hex fp)))|apply Kl]; [by apply has_member_spec|tauto].
    + by apply ascending_filter_by.
    + intros p [Hp Hin]%list_elem_of_filter. split; [by apply Kok|]. rewrite Hk. congruence.
  - cbn. by rewrite Hc.
  - exact Hk.
  - split_and!; [done| |cbn; lia]. exists (fingerprint_key (full_hex fp)). split; [exact Hk|]. by rewrite has_member_key.
Qed.
#[local] Notation take_record := (take_record json_length json_link json_content sha256).
Lemma take_record_cases f local r replace f' b : take_record f local r replace = (f', b) ->
  (f' = f /\ b = None) \/ exists fp newer, parse_full local = Ok fp /\ validate_record r = true /\ has_member r (full_hex fp) = true
    /\ newer = replace || match group_of (sf_groups (taken f fp r)) (member_keys r) with None => true | Some held => ge_b (stamp r) (stamp held) end
    /\ f' = (if newer then store (taken f fp r) r else taken f fp r) /\ b = Some newer.
Proof.
  unfold take_record. destruct (validate_record r) eqn:Ev; cbn [negb]; [|intros [= <- <-]; auto]. destruct (parse_full local) as [fp|] eqn:Ep; [|intros [= <- <-]; auto].
  destruct (has_member r (full_hex fp)) eqn:Em; cbn [negb]; [|intros [= <- <-]; auto]. fold (others r (fingerprint_key (full_hex fp))). fold (taken f fp r).
  intros [= <- <-]. right. by exists fp, (replace || match group_of (sf_groups (taken f fp r)) (member_keys r) with None => true | Some held => ge_b (stamp r) (stamp held) end).
Qed.
Lemma take_record_ok f local r replace f' b : FileOk f -> clock_ok f -> is_u64 (gr_revision r) -> take_record f local r replace = (f', b) -> FileOk f' /\ clock_ok f'.
Proof.
  intros Hf Hc Hr [[-> _]|(fp & newer & Hp & Hv & Hm & _ & -> & _)]%take_record_cases; [done|]. apply parse_full_Ok in Hp as [Hfp _].
  destruct (taken_ok f fp r Hf Hfp Hv Hm) as (Hok & Ec & Hk & Hg).
  assert (clock_ok (taken f fp r)) as Hc' by (unfold clock_ok in *; rewrite Ec; unfold_int; lia). destruct newer; [|done]. split; [|done].
  rewrite <-store_same. apply store_ok; [done|lia|done].
Qed.

#[local] Notation touch_active := (touch_active json_length).
Lemma local_member f local g : sf_local f = Some local -> has_member g local = true -> exists l, local_key f = Some l /\ has_member g l = true.
Proof. intros E Hm. exists (fingerprint_key local). unfold local_key. rewrite E. by rewrite has_member_key. Qed.
Lemma touch_active_ok f : FileOk f -> clock_ok f -> FileOk (fst (touch_active f)) /\ clock_ok (fst (touch_active f)).
Proof.
  intros Hf Hc. unfold touch_active. destruct (sf_local f) as [local|] eqn:El; [|done]. destruct (active_members f) as [ms|]; [|done].
  destruct (replace_group _ _ _) as [gs|] eqn:Er; [|done]. apply replace_restamped in Er as [Ek Hgs]. destruct (next_revision_spec f Hc) as [Hn Hp]. cbn [fst]. split.
  - apply file_ok_groups; [done| | |].
    + rewrite <-(length_fmap member_keys gs), Ek, length_fmap. apply (ok_groups_bound f Hf).
    + intros g [Hg|(G1 & G2 & G3)]%Hgs.
      * apply (group_ok_clock _ (sf_clock f)); [lia|by apply (ok_groups f Hf)].
      * split_and!; [done|by eapply local_member|lia].
    + eapply ascending_by_keys; [symmetry; exact Ek|apply (ok_groups_sorted f Hf)].
  - unfold clock_ok. cbn. lia.
Qed.
Lemma set_active_ok f fp : FileOk f -> is_fingerprint fp -> local_key f <> Some (fingerprint_key (full_hex fp)) -> FileOk (set_active f (Some fp)).
Proof.
  intros Hf Hfp Hne. cbn [set_active]. apply file_ok_paused, file_ok_enabled; [done|cbn; unfold MAX_GROUP_MEMBERS; lia|by repeat constructor|].
  intros p ->%list_elem_of_singleton. split; [by apply fingerprint_key_ok|done].
Qed.
Lemma choose_ok f fp : FileOk f -> clock_ok f -> is_fingerprint fp -> local_key f <> Some (fingerprint_key (full_hex fp)) ->
  FileOk (choose json_length f fp) /\ clock_ok (choose json_length f fp).
Proof.
  intros Hf Hc Hfp Hne. pose proof (set_active_ok f fp Hf Hfp Hne) as Ha. unfold choose. cbn zeta. destruct (bool_decide _); [done|]. by apply touch_active_ok.
Qed.

(** Switching one computer on or off. *)
Lemma enable_key_ok f fp f' : FileOk f -> is_fingerprint fp -> local_key f <> Some (fingerprint_key (full_hex fp)) ->
  enable_key f (fingerprint_key (full_hex fp)) = Ok f' -> FileOk f' /\ sf_clock f' = sf_clock f.
Proof.
  intros Hf Hfp Hne. unfold enable_key. case_bool_decide as Hin; [intros [= <-]; split; [by apply file_ok_paused|done]|].
  destruct (_ <=? _)%nat eqn:El; [done|]. apply Nat.leb_gt in El. intros [= <-]. split; [|done]. apply file_ok_paused, file_ok_enabled; [done| | |].
  - rewrite sort_by_key_perm, length_app. cbn [length]. lia.
  - apply sort_by_key_ascending. rewrite list_fmap_id. apply list.NoDup_app. split_and!; [|by intros x Hx ->%list_elem_of_singleton|apply list.NoDup_singleton].
    pose proof (ascending_keys_NoDup _ _ (ok_enabled_sorted f Hf)) as Hn. by rewrite list_fmap_id in Hn.
  - intros p. rewrite sort_by_key_perm. intros [Hp| ->%list_elem_of_singleton]%elem_of_app; [by apply (ok_enabled f Hf)|]. split; [by apply fingerprint_key_ok|done].
Qed.
Lemma disable_key_ok f key : FileOk f -> FileOk (with_enabled f (filter (fun p => p <> key) (sf_enabled f))).
Proof.
  intros Hf. apply file_ok_enabled; [done| |by apply ascending_filter_by, (ok_enabled_sorted f Hf)|].
  - eapply Nat.le_lt_trans; [apply length_filter|apply (ok_enabled_bound f Hf)].
  - intros p [_ Hp]%list_elem_of_filter. by apply (ok_enabled f Hf).
Qed.
Lemma derive_without_ok f previous key : FileOk f -> clock_ok f ->
  FileOk (derive_without json_length json_link json_content sha256 f previous key) /\ clock_ok (derive_without json_length json_link json_content sha256 f previous key).
Proof.
  intros Hf Hc. unfold derive_without. destruct previous as [g|]; [|done]. destruct (sf_local f) as [local|] eqn:El; [|done].
  destruct (without_member _ _ _ _ _) as [d|] eqn:Ed; [|done]. apply without_member_spec in Ed as (D1 & D2 & D3). destruct (next_revision_spec f Hc) as [Hn Hp]. split.
  - apply store_ok; [done|lia|]. split_and!; [done|by eapply local_member|lia].
  - unfold clock_ok. cbn. lia.
Qed.
Lemma set_enabled_ok f fp enabled : FileOk f -> clock_ok f -> is_fingerprint fp ->
  let f' := fst (set_enabled json_length json_link json_content sha256 f fp enabled) in FileOk f' /\ clock_ok f'.
Proof.
  intros Hf Hc Hfp. unfold set_enabled. cbn zeta. case_bool_decide as Hl; [done|]. destruct (_ && _); [done|].
  destruct (if enabled then _ else _) as [f1|e] eqn:E1; [|done].
  assert (FileOk f1 /\ clock_ok f1) as [Hf1 Hc1].
  { destruct enabled; [|injection E1 as <-; split; [by apply disable_key_ok|done]]. apply enable_key_ok in E1 as [? E]; try done. split; [done|]. unfold clock_ok. by rewrite E. }
  destruct (bool_decide (sf_enabled f1 = [])); [done|]. pose proof (touch_active_ok f1 Hf1 Hc1) as [Ht Hct]. destruct (touch_active f1) as [f2 touched]. cbn [fst] in *.
  destruct (_ || _); [done|]. by apply derive_without_ok.
Qed.

(** Forgetting a computer. *)
Definition made_now (rev : Z) (local : Text) (g : GroupRecord) : Prop := validate_record g = true /\ gr_revision g = rev /\ has_member g local = true.
Lemma derive_groups_spec key rev local naming : forall kept, NoDup (member_keys <$> kept) ->
  let '(gs, derived) := derive_groups json_length key rev local naming kept in
  NoDup (member_keys <$> gs) /\ (length gs <= length kept + length naming)%nat /\ (forall g, g ∈ gs -> g ∈ kept \/ made_now rev local g)
  /\ (derived = false -> gs = kept).
Proof.
  induction naming as [|g naming IH]; intros kept Hn; cbn [derive_groups]; [split_and!; auto; cbn; lia|].
  destruct (without_member json_length g key rev local) as [d|] eqn:Ed.
  - destruct (existsb _ kept) eqn:Ex.
    + specialize (IH kept Hn). destruct (derive_groups _ _ _ _ _ _) as [gs derived]. destruct IH as (J1 & J2 & J3 & J4). split_and!; try done. cbn [length]. lia.
    + assert (NoDup (member_keys <$> (kept ++ [d]))) as Hn'.
      { rewrite fmap_app. apply list.NoDup_app. split_and!; [done| |apply list.NoDup_singleton]. intros k (h & -> & Hh)%list_elem_of_fmap Hk.
        apply list_elem_of_singleton in Hk. rewrite <-not_true_iff_false, existsb_exists in Ex. apply Ex. exists h.
        split; [by apply list_elem_of_In|by apply bool_decide_eq_true]. }
      specialize (IH (kept ++ [d]) Hn'). destruct (derive_groups _ _ _ _ _ _) as [gs derived]. cbn [fst]. destruct IH as (J1 & J2 & J3 & J4).
      rewrite length_app in J2. cbn [length] in *. split_and!; try done; [lia|]. intros x Hx. apply J3 in Hx as [[Hx| ->%list_elem_of_singleton]%elem_of_app|Hx]; auto.
      right. by apply without_member_spec in Ed.
  - specialize (IH kept Hn). destruct (derive_groups _ _ _ _ _ _) as [gs derived]. destruct IH as (J1 & J2 & J3 & J4). split_and!; try done. cbn [length]. lia.
Qed.
Lemma partition_length {A} (p : A -> bool) l : (length (List.filter (fun x => negb (p x)) l) + length (List.filter p l) = length l)%nat.
Proof. induction l as [|x l IH]; [done|]. cbn [List.filter]. destruct (p x); cbn [negb length]; lia. Qed.
Lemma forget_ok f fingerprint : FileOk f -> clock_ok f -> FileOk (forget json_length f fingerprint) /\ clock_ok (forget json_length f fingerprint).
Proof.
  intros Hf Hc. unfold forget. cbn zeta. set (key := fingerprint_key fingerprint). pose proof (disable_key_ok f key Hf) as Hd. revert Hd.
  set (f1 := with_enabled f _). intros Hd. assert (clock_ok f1) as Hc1 by done. change (sf_groups f1) with (sf_groups f) in *. change (sf_local f1) with (sf_local f) in *.
  destruct (sf_local f) as [local|] eqn:El; [|done].
  pose proof (derive_groups_spec key (next_revision f1) local (List.filter (fun g => has_member g key) (sf_groups f)) (List.filter (fun g => negb (has_member g key)) (sf_groups f))) as Hg.
  destruct (derive_groups _ _ _ _ _ _) as [gs derived]. destruct Hg as (J1 & J2 & J3 & J4); [by apply ascending_keys_NoDup, ascending_List_filter, (ok_groups_sorted f Hf)|].
  rewrite partition_length in J2. destruct (next_revision_spec f1 Hc1) as [Hn Hp].
  set (touched := if bool_decide (key ∈ sf_enabled f) then _ else _).
  assert (exists gs', gs' = default gs touched /\ member_keys <$> gs' = member_keys <$> gs
    /\ (forall g, g ∈ gs' -> g ∈ gs \/ made_now (next_revision f1) local g) /\ (touched = None -> gs' = gs)) as (gs' & <- & K1 & K2 & K3).
  { exists (default gs touched). split; [done|]. unfold touched. destruct (bool_decide _); [|split_and!; auto]. destruct (active_members f1) as [ms|]; [|split_and!; auto].
    cbn [mbind option_bind]. destruct (replace_group _ _ _) as [g2|] eqn:Er; [|split_and!; auto]. apply replace_restamped in Er as [E1 E2]. cbn [default from_option id]. by split_and!. }
  assert (forall c, sf_clock f1 <= c -> (c = next_revision f1 \/ (derived = false /\ touched = None)) -> FileOk (with_clock (with_groups f1 (sort_by_key member_keys gs')) c)) as H.
  { intros c Hcl Hcase. apply file_ok_groups; [done| | |].
    - rewrite sort_by_key_perm, <-(length_fmap member_keys gs'), K1, length_fmap. etransitivity; [exact J2|apply (ok_groups_bound f Hf)].
    - intros g. rewrite sort_by_key_perm. intros Hg.
      assert (g ∈ sf_groups f \/ (made_now (next_revision f1) local g /\ c = next_revision f1)) as [Ho|[(G1 & G2 & G3) Ec]].
      { destruct Hcase as [Ec|[Ed Et]].
        - apply K2 in Hg as [Hg|Hg]; [|by right]. apply J3 in Hg as [Hg|Hg]; [|by right]. left. by apply elem_of_List_filter in Hg as [? _].
        - left. rewrite (K3 Et), (J4 Ed) in Hg. by apply elem_of_List_filter in Hg as [? _]. }
      + apply (group_ok_clock _ (sf_clock f)); [done|by apply (ok_groups f Hf)].
      + split_and!; [done|by apply (local_member f1 local)|lia].
    - apply sort_by_key_ascending. by rewrite K1. }
  destruct (derived || bool_decide (is_Some touched)) eqn:Et.
  - split; [apply H; [lia|by left]|]. unfold clock_ok. cbn. lia.
  - apply orb_false_iff in Et as [Ed Et%bool_decide_eq_false]. split; [|done]. apply (H (sf_clock f1)); [lia|]. right. split; [done|]. by apply eq_None_not_Some.
Qed.

(** ** Every operation *)

(** The operations of a running application.  It switches on and chooses other
    computers than this one. *)
Inductive setup_step : SetupFile -> SetupFile -> Prop :=
| step_adopt f local r f' b : is_u64 (gr_revision r) -> adopt json_length json_link json_content sha256 f local r = (f', b) -> setup_step f f'
| step_choose f fp : is_fingerprint fp -> local_key f <> Some (fingerprint_key (full_hex fp)) -> setup_step f (choose json_length f fp)
| step_set_active f fp : is_fingerprint fp -> local_key f <> Some (fingerprint_key (full_hex fp)) -> setup_step f (set_active f (Some fp))
| step_pause f : setup_step f (set_active f None)
| step_resume f : setup_step f (resume f)
| step_enable f fp enabled : is_fingerprint fp -> setup_step f (fst (set_enabled json_length json_link json_content sha256 f fp enabled))
| step_touch f : setup_step f (fst (touch_active f))
| step_observe f seen : is_u64 seen -> setup_step f (observe_clock f seen)
| step_interface f id : id <> [] -> (length id <= MAX_INTERFACE_ID_BYTES)%nat -> setup_step f (set_interface_id f id)
| step_forget f fingerprint : setup_step f (forget json_length f fingerprint).
Lemma setup_step_ok f f' : setup_step f f' -> FileOk f -> clock_ok f -> FileOk f' /\ clock_ok f'.
Proof.
  intros Hs Hf Hc. destruct Hs as [f local r f' b Hr E|f fp H1 H2|f fp H1 H2|f|f|f fp e H1|f|f seen H1|f id H1 H2|f x].
  - by eapply take_record_ok.
  - by apply choose_ok.
  - split; [by apply set_active_ok|done].
  - split; [by apply file_ok_paused|done].
  - split; [by apply file_ok_paused|done].
  - by apply set_enabled_ok.
  - by apply touch_active_ok.
  - unfold observe_clock. split; [apply file_ok_clock; [done|lia]|]. unfold clock_ok in *. cbn. unfold_int. lia.
  - split; [|done]. destruct Hf as [O1 O2 O3 O4 O5 O6 O7 Og Oa]. by split.
  - by apply forget_ok.
Qed.
Lemma default_setup_ok : FileOk default_setup /\ clock_ok default_setup.
Proof.
  split; [|unfold clock_ok; cbn; unfold_int; lia]. apply validate_setup_spec. reflexivity.
Qed.
Lemma setup_reach_ok f : rtc setup_step default_setup f -> FileOk f /\ clock_ok f.
Proof.
  generalize default_setup_ok. generalize default_setup as f0. intros f0 H0 H. induction H as [f|f f1 f2 Hs _ IH]; [done|].
  apply IH. destruct H0. by eapply setup_step_ok.
Qed.

(** ** The newest record of a group *)

Lemma group_of_elem gs keys g : Ascending member_keys gs -> g ∈ gs -> member_keys g = keys -> group_of gs keys = Some g.
Proof.
  intros Ha Hg E. unfold group_of. destruct (List.find _ gs) as [h|] eqn:Eh.
  - apply find_some in Eh as [Hh Ek]. bool_inv. apply list_elem_of_In in Hh. f_equal. apply (ascending_inj member_keys gs); congruence.
  - apply list_elem_of_In in Hg. apply (find_none _ _ Eh) in Hg. bool_inv. done.
Qed.
Lemma group_of_Some gs keys g : group_of gs keys = Some g -> g ∈ gs /\ member_keys g = keys.
Proof. intros [Hg E]%find_some. bool_inv. split; [by apply list_elem_of_In|done]. Qed.
Lemma taken_active f fp r : validate_record r = true -> has_member r (full_hex fp) = true -> active_members (taken f fp r) = Some (member_keys r).
Proof.
  intros Hv Hm%has_member_spec. destruct (record_keys r Hv) as (Ks & _ & Kl). unfold active_members. change (sf_enabled (taken f fp r)) with (others r (fingerprint_key (full_hex fp))).
  pose proof (set_local_key f (full_hex fp)) as Hk. unfold local_key in Hk. change (sf_local (taken f fp r)) with (sf_local (set_local f (full_hex fp))).
  destruct (sf_local (set_local f (full_hex fp))) as [l|]; [|done]. injection Hk as Hk.
  assert (NoDup (member_keys r)) as Hn by (pose proof (ascending_keys_NoDup _ _ Ks) as Hn; by rewrite list_fmap_id in Hn).
  assert (others r (fingerprint_key (full_hex fp)) ++ [fingerprint_key (full_hex fp)] ≡ₚ member_keys r) as Hp.
  { rewrite Permutation_app_comm. unfold others. cbn [app]. apply NoDup_Permutation; [|done|].
    - apply list.NoDup_cons. split; [by intros [? _]%list_elem_of_filter|by apply list.NoDup_filter].
    - intros k. rewrite elem_of_cons, list_elem_of_filter. split; [intros [->|[_ ?]]; done|]. intros ?. destruct (decide (k = fingerprint_key (full_hex fp))); auto. }
  rewrite bool_decide_eq_false_2; [|intros E; rewrite E in Hp; apply Permutation_length in Hp; cbn in Hp; lia].
  cbn [mbind option_bind]. rewrite Hk. f_equal. rewrite <-(sort_by_key_fix (fun k : Text => k) (member_keys r)) by done. by apply sort_by_key_unique.
Qed.
Definition newest (f : SetupFile) (fp : Fingerprint) (keys : list Text) : option GroupRecord := group_of (sf_groups (set_local f (full_hex fp))) keys.
#[local] Notation adopt := (adopt json_length json_link json_content sha256).
(** One adoption: the newer of the two is kept, and its group is the active one. *)
Lemma adopt_newest f local fp r : FileOk f -> parse_full local = Ok fp -> validate_record r = true -> has_member r (full_hex fp) = true ->
  let f' := fst (adopt f local r) in
  local_key f' = Some (fingerprint_key (full_hex fp)) /\ active_members f' = Some (member_keys r)
  /\ exists g, group_of (sf_groups f') (member_keys r) = Some g /\ (g = r \/ newest f fp (member_keys r) = Some g)
     /\ cmp (stamp g) (stamp r) <> Lt /\ (forall h, newest f fp (member_keys r) = Some h -> cmp (stamp g) (stamp h) <> Lt)
     /\ snd (adopt f local r) = Some (match newest f fp (member_keys r) with Some h => ge_b (stamp r) (stamp h) | None => true end).
Proof.
  intros Hf Hp Hv Hm. destruct (adopt f local r) as [f' b] eqn:E. cbn [fst snd]. unfold adopt in E. pose proof E as E0. apply take_record_cases in E as [[-> ->]|(fp' & newer & Hp' & _ & _ & En & -> & ->)].
  { exfalso. revert E0. unfold take_record. rewrite Hv, Hp, Hm. cbn [negb]. by destruct (false || _). }
  rewrite Hp in Hp'. injection Hp' as <-. destruct (parse_full_Ok _ _ Hp) as [Hfp _]. destruct (taken_ok f fp r Hf Hfp Hv Hm) as (Hok & _ & Hk & _).
  pose proof (taken_active f fp r Hv Hm) as Hact. change (sf_groups (taken f fp r)) with (sf_groups (set_local f (full_hex fp))) in En. cbn [orb] in En.
  change (group_of (sf_groups (set_local f (full_hex fp))) (member_keys r)) with (newest f fp (member_keys r)) in En. rewrite <-En. split_and!.
  - by destruct newer.
  - by destruct newer.
  - destruct newer.
    + destruct (store_groups (taken f fp r) r (ok_groups_sorted _ Hok)) as (S1 & _ & _ & S4). exists r. split_and!; auto.
      * by apply group_of_elem; auto.
      * apply cmp_irrefl.
      * intros h Eh. rewrite Eh in En. symmetry in En. by apply ge_b_spec in En.
    + destruct (newest f fp (member_keys r)) as [h|] eqn:Eh; [|done]. symmetry in En. unfold ge_b in En. apply negb_false_iff, lt_b_spec in En. exists h. split_and!; auto.
      * rewrite cmp_flip, En. done.
      * intros ? [= ->]. apply cmp_irrefl.
Qed.

(** What a computer has heard of a group: the record it held and those it adopted. *)
Definition adopt_all (f : SetupFile) (local : Text) (rs : list GroupRecord) : SetupFile := foldl (fun f r => fst (adopt f local r)) f rs.
Definition heard (f : SetupFile) (fp : Fingerprint) (keys : list Text) (rs : list GroupRecord) : list GroupRecord := option_list (newest f fp keys) ++ rs.
Definition of_group (keys : list Text) (fp : Fingerprint) (r : GroupRecord) : Prop :=
  validate_record r = true /\ member_keys r = keys /\ has_member r (full_hex fp) = true /\ is_u64 (gr_revision r).
Definition greatest (g : GroupRecord) (l : list GroupRecord) : Prop := g ∈ l /\ forall x, x ∈ l -> cmp (stamp g) (stamp x) <> Lt.
Lemma set_local_same f fp : local_key f = Some (fingerprint_key (full_hex fp)) -> set_local f (full_hex fp) = f.
Proof. intros E. unfold set_local. by rewrite bool_decide_eq_true_2. Qed.
Lemma adopt_file_ok f local r : FileOk f -> clock_ok f -> is_u64 (gr_revision r) -> FileOk (fst (adopt f local r)) /\ clock_ok (fst (adopt f local r)).
Proof. intros Hf Hc Hr. destruct (adopt f local r) as [f' b] eqn:E. by eapply take_record_ok. Qed.
Lemma adopt_all_greatest local fp keys rs : parse_full local = Ok fp -> Forall (of_group keys fp) rs -> forall f, FileOk f -> clock_ok f -> rs <> [] ->
  active_members (adopt_all f local rs) = Some keys
  /\ exists g, group_of (sf_groups (adopt_all f local rs)) keys = Some g /\ greatest g (heard f fp keys rs).
Proof.
  intros Hp HF. assert (forall f, FileOk f -> clock_ok f -> forall r, of_group keys fp r ->
    let f' := fst (adopt f local r) in FileOk f' /\ clock_ok f' /\ active_members f' = Some keys /\ local_key f' = Some (fingerprint_key (full_hex fp))
    /\ exists g, group_of (sf_groups f') keys = Some g /\ greatest g (heard f fp keys [r])) as Hone.
  { intros f Hf Hc r (Hv & Hk & Hm & Hr). destruct (adopt_file_ok f local r Hf Hc Hr) as [Hf' Hc']. cbn zeta.
    destruct (adopt_newest f local fp r Hf Hp Hv Hm) as (A1 & A2 & g & A3 & A4 & A5 & A6 & _). rewrite Hk in *. split_and!; try done. exists g. split; [done|].
    unfold heard. split.
    - apply elem_of_app. destruct A4 as [->|E]; [right; by left|left]. rewrite E. by left.
    - intros x [Hx| ->%list_elem_of_singleton]%elem_of_app; [|done]. destruct (newest f fp keys) as [h|]; [|by apply not_elem_of_nil in Hx].
      apply list_elem_of_singleton in Hx as ->. by apply A6. }
  induction HF as [|r rs Hr HF IH]; intros f Hf Hc Hne; [done|]. destruct (Hone f Hf Hc r Hr) as (Hf' & Hc' & Ha & Hk & g & Hg & Hgr).
  change (adopt_all f local (r :: rs)) with (adopt_all (fst (adopt f local r)) local rs). destruct rs as [|r2 rs]; [by split; [|exists g]|].
  destruct (IH _ Hf' Hc' ltac:(done)) as (B1 & h & B2 & B3 & B4). split; [done|]. exists h. split; [done|].
  assert (newest (fst (adopt f local r)) fp keys = Some g) as En by (unfold newest; by rewrite set_local_same). unfold heard in B3, B4. rewrite En in B3, B4. cbn [option_list app] in B3, B4.
  assert (forall x, x ∈ heard f fp keys (r :: r2 :: rs) <-> x ∈ heard f fp keys [r] \/ x ∈ r2 :: rs) as Hin.
  { intros x. unfold heard. rewrite !elem_of_app, (elem_of_cons (r2 :: rs)), list_elem_of_singleton. tauto. }
  split.
  - apply Hin. apply elem_of_cons in B3 as [->|B3]; [left; apply Hgr|by right].
  - intros x [Hx|Hx]%Hin; [|apply B4; by right]. apply (cmp_ge_trans _ (stamp g)); [apply B4; by left|by apply Hgr].
Qed.
End Setup.

(** C23. Whatever the application does to its saved setup, from the empty one, the
    file that results validates: what it saves it loads again. *)
Theorem setup_file_always_loads json_length json_link json_content sha256 f :
  rtc (setup_step json_length json_link json_content sha256) default_setup f -> validate_setup json_length f = true.
Proof. intros [Hf _]%setup_reach_ok. by apply validate_setup_spec. Qed.

(** C19. Copies of a group's layout converge: two members that have heard of the same
    records of their group, in whatever order and however often, hold records
    with the same stamp as their active group's, the greatest of those, and so
    with the same content digest. *)
Theorem adopted_records_converge json_length json_link json_content sha256 keys fa fb la lb pa pb ra rb :
  FileOk json_length fa -> clock_ok fa -> FileOk json_length fb -> clock_ok fb -> parse_full la = Ok pa -> parse_full lb = Ok pb ->
  Forall (of_group json_length keys pa) ra -> Forall (of_group json_length keys pb) rb -> ra <> [] -> rb <> [] ->
  (forall x, x ∈ heard fa pa keys ra <-> x ∈ heard fb pb keys rb) ->
  exists ga gb, active_group (adopt_all json_length json_link json_content sha256 fa la ra) = Some ga
    /\ active_group (adopt_all json_length json_link json_content sha256 fb lb rb) = Some gb
    /\ stamp json_link json_content sha256 ga = stamp json_link json_content sha256 gb
    /\ content_digest json_link json_content sha256 ga = content_digest json_link json_content sha256 gb
    /\ greatest json_link json_content sha256 ga (heard fa pa keys ra).
Proof.
  intros Fa Ca Fb Cb Pa Pb Ra Rb Na Nb Hs.
  destruct (adopt_all_greatest json_length json_link json_content sha256 la pa keys ra Pa Ra fa Fa Ca Na) as (A1 & ga & A2 & A3 & A4).
  destruct (adopt_all_greatest json_length json_link json_content sha256 lb pb keys rb Pb Rb fb Fb Cb Nb) as (B1 & gb & B2 & B3 & B4).
  assert (stamp json_link json_content sha256 ga = stamp json_link json_content sha256 gb) as E.
  { apply cmp_total; [apply A4, Hs, B3|apply B4, Hs, A3]. }
  exists ga, gb. split_and!; [by unfold active_group; rewrite A1|by unfold active_group; rewrite B1|done|by injection E|done].
Qed.

(** A change made here wins: touching the active group keeps its content and
    stamps it past every record this computer has seen, so another member that
    holds no revision this computer has not seen adopts it. *)
Theorem local_change_wins json_length json_link json_content sha256 f f' : FileOk json_length f -> clock_ok f -> sf_clock f < u64_max ->
  touch_active json_length f = (f', true) ->
  exists g g', active_group f = Some g /\ active_group f' = Some g'
    /\ content_digest json_link json_content sha256 g' = content_digest json_link json_content sha256 g
    /\ (forall x, gr_revision x <= sf_clock f -> cmp (stamp json_link json_content sha256 x) (stamp json_link json_content sha256 g') = Lt)
    /\ (forall fb lb pb, FileOk json_length fb -> parse_full lb = Ok pb -> has_member g' (full_hex pb) = true -> sf_clock fb <= sf_clock f ->
          snd (adopt json_length json_link json_content sha256 fb lb g') = Some true).
Proof.
  intros Hf Hc Hlt. unfold touch_active. destruct (sf_local f) as [local|] eqn:El; [|done]. destruct (active_members f) as [ms|] eqn:Ea; [|done].
  destruct (replace_group _ _ _) as [gs|] eqn:Er; [|done]. intros [= <-]. pose proof Er as Ek. apply replace_restamped in Ek as [Ek _].
  apply replace_group_spec in Er as (i & held & t & Hi & Hk & Ht & ->). apply restamped_spec in Ht as (Hv & Hr & Em & Hl & _ & _).
  assert (member_keys t = ms) as Hkt by (unfold member_keys in *; by rewrite Em).
  assert (Ascending member_keys (<[i := t]> (sf_groups f))) as Hs by (eapply ascending_by_keys; [symmetry; exact Ek|apply (ok_groups_sorted _ f Hf)]).
  assert (gr_revision t = sf_clock f + 1) as Hrev by (rewrite Hr; unfold next_revision; unfold clock_ok in Hc; lia).
  assert (forall x, gr_revision x <= sf_clock f -> cmp (stamp json_link json_content sha256 x) (stamp json_link json_content sha256 t) = Lt) as Hlt'.
  { intros x Hx. unfold cmp, Stamp_cmp, stamp. cbn [st_revision st_author st_content]. unfold cmp at 1, Z_cmp. by rewrite (proj2 (Z.compare_lt_iff _ _)) by lia. }
  exists held, t. split_and!.
  - unfold active_group. rewrite Ea. cbn [mbind option_bind]. apply group_of_elem; [apply (ok_groups_sorted _ f Hf)|by eapply list_elem_of_lookup_2|done].
  - unfold active_group. change (active_members (with_clock (with_groups f (<[i:=t]> (sf_groups f))) (next_revision f))) with (active_members f). rewrite Ea.
    cbn [mbind option_bind]. apply group_of_elem; [done| |done]. apply list_elem_of_lookup. exists i. apply list_lookup_insert_eq. by eapply lookup_lt_Some.
  - unfold content_digest. by rewrite Em, Hl.
  - done.
  - intros fb lb pb Hfb Hpb Hm Hcb. destruct (adopt_newest json_length json_link json_content sha256 fb lb pb t Hfb Hpb Hv Hm) as (_ & _ & g & _ & _ & _ & _ & ->). f_equal.
    destruct (newest fb pb (member_keys t)) as [h|] eqn:Eh; [|done]. apply ge_b_spec. rewrite cmp_flip, Hlt'; [done|].
    destruct (parse_full_Ok _ _ Hpb) as [Hfp _]. destruct (set_local_ok json_length fb pb Hfb Hfp) as [Hok Ecl]. apply group_of_Some in Eh as [Eh _].
    destruct (ok_groups _ _ Hok h Eh) as (_ & _ & Hrh). rewrite Ecl in Hrh. lia.
Qed.

(** ** Two computers' files *)

Definition content_text (_ : list GroupMember) (l : LayoutRequest) : list Z := concat (link_text <$> links l).
Definition fp_b : Fingerprint := replicate 32 0xBB.
Definition later_record : GroupRecord :=
  mkGroupRecord 1 5 hex_b (gr_members sample_record) (mkLayoutRequest (links sample_layout) None (control sample_layout)).
Definition adopted_file : SetupFile := fst (adopt short_json link_text content_text id default_setup hex_a sample_record).
Lemma adopted_file_ok : FileOk short_json adopted_file /\ clock_ok adopted_file.
Proof.
  split; [apply validate_setup_spec; vm_compute; reflexivity|]. assert (sf_clock adopted_file = 3) as E by (vm_compute; reflexivity). unfold clock_ok. rewrite E. unfold_int. lia.
Qed.
Lemma fp_b_fingerprint : is_fingerprint fp_b.
Proof. split; [reflexivity|]. apply Forall_replicate. unfold_int. lia. Qed.

Lemma setup_file_always_loads_witness : validate_setup short_json (forget short_json (choose short_json adopted_file fp_b) hex_b) = true.
Proof.
  apply (setup_file_always_loads short_json link_text content_text id).
  apply (rtc_l _ _ adopted_file); [|apply (rtc_l _ _ (choose short_json adopted_file fp_b)); [|apply rtc_once; apply step_forget]].
  - apply (step_adopt _ _ _ _ _ hex_a sample_record _ (snd (adopt short_json link_text content_text id default_setup hex_a sample_record))); [unfold_int; cbn; lia|].
    unfold adopted_file. by destruct (adopt _ _ _ _ _ _ _).
  - apply step_choose; [exact fp_b_fingerprint|]. vm_compute. discriminate.
Defined.
Lemma adopted_records_converge_witness :
  exists ga gb, active_group (adopt_all short_json link_text content_text id default_setup hex_a [sample_record; later_record]) = Some ga
    /\ active_group (adopt_all short_json link_text content_text id default_setup hex_b [later_record; sample_record; later_record]) = Some gb
    /\ stamp link_text content_text id ga = stamp link_text content_text id gb.
Proof.
  assert (forall p r, is_u64 (gr_revision r) -> validate_record short_json r = true -> has_member r (full_hex p) = true -> member_keys r = member_keys sample_record ->
    of_group short_json (member_keys sample_record) p r) as Hg by (by intros).
  assert (forall p, p = replicate 32 0xAA \/ p = fp_b -> of_group short_json (member_keys sample_record) p sample_record /\ of_group short_json (member_keys sample_record) p later_record) as Ho.
  { intros p [->| ->]; split; apply Hg; try (unfold_int; cbn; lia); vm_compute; reflexivity. }
  destruct (Ho _ (or_introl eq_refl)) as [A1 A2], (Ho _ (or_intror eq_refl)) as [B1 B2].
  assert (newest default_setup (replicate 32 0xAA) (member_keys sample_record) = None) as Na by (vm_compute; reflexivity).
  assert (newest default_setup fp_b (member_keys sample_record) = None) as Nb by (vm_compute; reflexivity).
  destruct (adopted_records_converge short_json link_text content_text id (member_keys sample_record) default_setup default_setup hex_a hex_b
    (replicate 32 0xAA) fp_b [sample_record; later_record] [later_record; sample_record; later_record]) as (ga & gb & H1 & H2 & H3 & _).
  1,3: apply default_setup_ok. 1,2: apply (default_setup_ok short_json). 1,2: vm_compute; reflexivity.
  - constructor; [exact A1|constructor; [exact A2|constructor]].
  - constructor; [exact B2|constructor; [exact B1|constructor; [exact B2|constructor]]].
  - discriminate.
  - discriminate.
  - intros x. unfold heard. rewrite Na, Nb. change (option_list (@None GroupRecord)) with (@nil GroupRecord). cbn [app]. rewrite !elem_of_cons. tauto.
  - exact (ex_intro _ ga (ex_intro _ gb (conj H1 (conj H2 H3)))).
Defined.
Lemma local_change_wins_witness : exists f g', touch_active short_json adopted_file = (f, true) /\ active_group f = Some g'
  /\ cmp (stamp link_text content_text id sample_record) (stamp link_text content_text id g') = Lt.
Proof.
  destruct (touch_active short_json adopted_file) as [f b] eqn:E. assert (b = true) as Eb.
  { assert (snd (touch_active short_json adopted_file) = true) as H by (vm_compute; reflexivity). by rewrite E in H. }
  rewrite Eb in E. assert (sf_clock adopted_file = 3) as Ec by (vm_compute; reflexivity). destruct adopted_file_ok as [Hf Hc].
  destruct (local_change_wins short_json link_text content_text id adopted_file f Hf Hc) as (g & g' & _ & Hg & _ & Hlt & _); [rewrite Ec; unfold_int; lia|exact E|].
  exists f, g'. rewrite Eb. split; [reflexivity|]. split; [exact Hg|]. apply Hlt. rewrite Ec. cbn. lia.
Defined.
