(* ===== verification/GroupPlan.v ===== *)
(** * From a group's record to its sessions (apps/monhop-desktop/src/sharing_hub.rs,
    monhop-transport/src/session_setup.rs)

    The plan a computer runs for its group: the hub it starts, the members it
    shares with, and the handshake of each pair. *)

From stdpp Require Import gmap list sorting.
From S2P Require Import Hub.
From S2P Require Import Prelude F64 Types Geometry Messages Codec SessionWire Topology DisplayArrangement Handshake Ordering Fingerprint SavedLayout GroupRecord GroupTheorems.

Record GroupPlan := mkPlan { gp_epoch : Z; gp_local : Text; gp_record : GroupRecord; gp_agreement : list Z }.
Definition member_controls (p : GroupPlan) : list (Fingerprint * ControlPermissions) :=
  omap (fun m => f ← ok (parse_full (gm_fingerprint m));
                 c ← wire_control (control (gr_layout (gp_record p))) (gp_local p) (gm_fingerprint m);
                 Some (f, c)) (gr_members (gp_record p)).
(** [hub_config]; the double-click time is the system's, read when the hub starts. *)
Definition hub_config (p : GroupPlan) (generation double_click : Z) : option (list DisplayDescription * HubConfig) :=
  local ← ok (parse_full (gp_local p));
  devices ← mapM (fun m => device_of (gm_fingerprint m))
              (filter (fun m => member_key m <> fingerprint_key (gp_local p)) (gr_members (gp_record p)));
  me ← member (gp_record p) (gp_local p);
  displays ← topology_of (gm_displays me);
  group ← topology_for (gp_record p) (gp_local p);
  Some (displays, mkHubConfig (device_id_from_fingerprint local) group devices generation double_click).

(** [negotiate_pair]'s handshake: both ends announce and demand the same features,
    and a setup link carries every permission. *)
Definition RELATIVE_MOTION : Z := 1 ≪ 0.
Definition DISPLAY_TOPOLOGY : Z := 1 ≪ 2.
Definition pair_config (me peer : Fingerprint) (mine theirs : Platform) (c : ControlPermissions) (purpose : SessionPurpose) (agreed : option (list Z))
    (displays : list DisplayDescription) : result HandshakeError HandshakeConfig :=
  caps ← ok_or InvalidConfiguration (capabilities (Z.lor RELATIVE_MOTION DISPLAY_TOPOLOGY));
  config ← new_handshake_config me peer mine theirs caps caps displays (if bool_decide (purpose = Setup) then control_both else c) purpose;
  Ok (match agreed with Some a => with_agreement config a | None => config end).

(** ** The group's topology *)

Definition block_of (m : GroupMember) (b : MemberBlock) : Prop :=
  device_of (gm_fingerprint m) = Some (b_device b) /\ b_platform b = gm_platform m /\ topology_of (gm_displays m) = Some (b_displays b).
Lemma member_blocks_of r local here ms : forall index dss blocks, member_blocks r local index here (zip ms dss) = Some blocks ->
  Forall2 (fun m ds => topology_of (gm_displays m) = Some ds) ms dss -> Forall2 block_of ms blocks.
Proof.
  intros index dss blocks E HF. revert index blocks E. induction HF as [|m ds ms dss Hd _ IH]; intros index blocks; cbn [zip zip_with member_blocks].
  - intros [= <-]. constructor.
  - unfold member_block. destruct (device_of (gm_fingerprint m)) as [dev|] eqn:Ed; [|done]. cbn [mbind option_bind].
    destruct (member_blocks _ _ _ _ _) as [bs|] eqn:Eb; [|done]. intros [= <-]. constructor; [by split_and!|by eapply IH].
Qed.
Lemma topology_at_spec r i t : topology_at r i = Some t ->
  exists blocks hid, Forall2 block_of (gr_members r) blocks /\ NoDup (b_device <$> blocks)
    /\ mapM parse_display (match arrangement (gr_layout r) with Some a => hidden a | None => [] end) = Some hid
    /\ (forall n d, displays t !! n = Some d <-> d ∈ DisplayArrangement.group_displays hid blocks /\ d_id d = n).
Proof.
  unfold topology_at. destruct (mapM _ (gr_members r)) as [dss|] eqn:E1; [|done]. cbn [mbind option_bind]. apply mapM_Some in E1.
  destruct (gr_members r !! i) as [me|]; [|done]. cbn [mbind option_bind]. destruct (member_blocks _ _ _ _ _) as [blocks|] eqn:E2; [|done]. cbn [mbind option_bind].
  destruct (mapM _ (links _)) as [ls|]; [|done]. cbn [mbind option_bind]. destruct (mapM parse_display _) as [hid|] eqn:E3; [|done]. cbn [mbind option_bind].
  unfold group_topology. destruct (MAX_GROUP_LINKS <? length ls)%nat; [done|]. destruct (existsb _ blocks); [done|]. destruct (existsb _ hid); [done|].
  destruct (inherit_display_edges _ _ _) as [ls'|]; [|done]. cbn [mbind result_bind map_err]. destruct (MAX_GROUP_LINKS <? length ls')%nat; [done|].
  destruct (new_topology _ _ _) as [t'|] eqn:E4; [|done]. intros [= <-]. apply new_topology_stores in E4 as [(_ & Hm & _) (_ & Hd & _)].
  exists blocks, hid. split_and!; [by eapply member_blocks_of| |done|done]. rewrite <-list_fmap_compose in Hm. exact Hm.
Qed.
Lemma elem_of_group_displays t d : d ∈ Hub.group_displays t <-> exists n, displays t !! n = Some d.
Proof.
  unfold Hub.group_displays. rewrite list_elem_of_fmap. split.
  - intros ([n x] & -> & Hx). rewrite merge_sort_Permutation in Hx. apply elem_of_map_to_list in Hx. by exists n.
  - intros [n Hn]. exists (n, d). split; [done|]. rewrite merge_sort_Permutation. by apply elem_of_map_to_list.
Qed.
Lemma elem_of_block_displays hid blocks d : d ∈ DisplayArrangement.group_displays hid blocks <->
  exists b x, b ∈ blocks /\ x ∈ b_displays b /\ d = block_display hid b x.
Proof.
  unfold DisplayArrangement.group_displays. rewrite elem_of_concat. split.
  - intros (l & (b & -> & Hb)%list_elem_of_fmap & (x & -> & Hx)%list_elem_of_fmap). by exists b, x.
  - intros (b & x & Hb & Hx & ->). eexists. split; [by apply list_elem_of_fmap; exists b|]. by apply list_elem_of_fmap_2.
Qed.

(** ** What each member keeps in use *)

Lemma check_arrangements_Ok l ids idx i : check_arrangements l ids idx = Ok () -> i ∈ idx ->
  validate_arrangement l ((fun p => (fst p, bool_decide (snd p = i))) <$> ids) = Ok ().
Proof.
  induction idx as [|j idx IH]; [by intros _ ?%not_elem_of_nil|]. cbn [check_arrangements]. intros H. result_inv. destruct x.
  intros [->|Hi]%elem_of_cons; [done|by apply IH].
Qed.
Lemma validate_record_arrangement json_length r i : validate_record json_length r = true -> (i < length (gr_members r))%nat ->
  validate_arrangement (gr_layout r) ((fun p => (fst p, bool_decide (snd p = i))) <$> display_owners r) = Ok ().
Proof.
  unfold validate_record. destruct (check_record json_length r) as [[]|] eqn:E; [|done]. intros _ Hi. unfold check_record in E. result_inv.
  eapply check_arrangements_Ok; [destruct x1; eassumption|]. apply elem_of_seq. lia.
Qed.
Lemma elem_of_owners r t i : (t, i) ∈ display_owners r <-> exists m s, gr_members r !! i = Some m /\ s ∈ gm_displays m /\ s_id s = t.
Proof.
  unfold display_owners. rewrite elem_of_concat. split.
  - intros (l & Hl & Ht). apply list_elem_of_lookup in Hl as [j Hj]. rewrite list_lookup_imap in Hj. destruct (gr_members r !! j) as [m|] eqn:Em; [|done].
    injection Hj as <-. apply list_elem_of_fmap in Ht as (s & [= -> ->] & Hs). by exists m, s.
  - intros (m & s & Hm & Hs & <-). exists ((fun d => (s_id d, i)) <$> gm_displays m). split.
    + apply list_elem_of_lookup. exists i. by rewrite list_lookup_imap, Hm.
    + apply list_elem_of_fmap. by exists s.
Qed.
(** Some display of each member is in use, in the text and in the numbers. *)
Lemma canonical_id ds s : validate_displays ds = true -> s ∈ ds -> exists n, parse_display (s_id s) = Some n /\ to_string n = s_id s.
Proof.
  unfold validate_displays. destruct (_ || _); [done|]. intros H. bool_inv. revert H. generalize (@nil DisplayId) as ids. generalize 0 as k. generalize 1 as k'.
  induction ds as [|d ds IH]; intros k' k ids; [by intros _ ?%not_elem_of_nil|]. cbn [validate_snapshots].
  destruct (parse_display (s_id d)) as [n|] eqn:En; [|done]. cbn [mbind option_bind]. destruct (_ || _) eqn:Eg; [done|]. bool_inv.
  intros H2 [->|Hs]%elem_of_cons; [by exists n|by eapply IH].
Qed.
Lemma check_hidden_known known ls used l : check_hidden known ls used l = Ok () -> forall h, h ∈ l -> h ∈ known.
Proof.
  revert used. induction l as [|x l IH]; intros used; [by intros _ ? ?%not_elem_of_nil|]. cbn [check_hidden]. intros H. result_inv. bool_inv.
  intros h [->|Hh]%elem_of_cons; [done|by eapply IH].
Qed.
Lemma member_in_use json_length r i m : validate_record json_length r = true -> gr_members r !! i = Some m ->
  exists s n, s ∈ gm_displays m /\ parse_display (s_id s) = Some n
    /\ forall hid, mapM parse_display (match arrangement (gr_layout r) with Some a => hidden a | None => [] end) = Some hid -> n ∉ hid.
Proof.
  intros Hv Hm. pose proof (validate_record_spec _ _ Hv) as (_ & _ & _ & Hok & _). rewrite list.Forall_forall in Hok.
  assert (validate_displays (gm_displays m) = true) as Hd by (apply Hok; by eapply list_elem_of_lookup_2).
  assert (exists s, s ∈ gm_displays m /\ match arrangement (gr_layout r) with Some a => s_id s ∉ hidden a | None => True end
    /\ forall a h, arrangement (gr_layout r) = Some a -> h ∈ hidden a -> exists m' s', m' ∈ gr_members r /\ s' ∈ gm_displays m' /\ s_id s' = h) as (s & Hs & Hfree & Hknown).
  { assert (exists s, s ∈ gm_displays m) as [s0 Hs0].
    { unfold validate_displays in Hd. destruct (gm_displays m) as [|s l]; [done|]. exists s. by left. }
    pose proof (validate_record_arrangement _ _ i Hv ltac:(by eapply lookup_lt_Some)) as Ha. unfold validate_arrangement in Ha.
    destruct (arrangement (gr_layout r)) as [a|]; [|exists s0; split_and!; try done].
    destruct (_ || _) in Ha; [done|]. destruct (check_positions _ _ _) as [used|]; [|done]. cbn [mbind result_bind] in Ha.
    destruct (check_hidden _ _ _ _) as [[]|] eqn:Eh; [|done]. cbn [mbind result_bind existsb] in Ha. destruct (all_hidden a _) eqn:Eall in Ha; [done|]. clear Ha.
    unfold all_hidden in Eall. set (own := fst <$> _) in Eall.
    assert (s_id s0 ∈ own) as Hown.
    { unfold own. apply list_elem_of_fmap. exists (s_id s0, true). split; [done|]. apply list_elem_of_filter. split; [done|]. apply list_elem_of_fmap.
      exists (s_id s0, i). split; [cbn; by rewrite bool_decide_eq_true_2|]. apply elem_of_owners. by exists m, s0. }
    rewrite (bool_decide_eq_false_2 (own = [])) in Eall by (intros E; rewrite E in Hown; by apply not_elem_of_nil in Hown). cbn [negb andb] in Eall.
    assert (exists t, t ∈ own /\ t ∉ hidden a) as (t & Ht & Hfree).
    { clear Hown. induction own as [|t own IH]; [done|]. cbn [forallb] in Eall. apply andb_false_iff in Eall as [E|E].
      - bool_inv. exists t. split; [by left|done].
      - destruct (IH E) as (t' & ? & ?). exists t'. split; [by right|done]. }
    unfold own in Ht. apply list_elem_of_fmap in Ht as ([t' b] & -> & [Eb Hin]%list_elem_of_filter). cbn in Eb. subst b.
    apply list_elem_of_fmap in Hin as ([t j] & [= E1 E2] & Hin). cbn [fst snd] in *. symmetry in E2. bool_inv. subst. apply elem_of_owners in Hin as (m' & s & Hm' & Hs & Es).
    rewrite Hm in Hm'. injection Hm' as <-. exists s. split_and!; [done|by rewrite Es|]. intros a' h [= <-] Hh. eapply check_hidden_known in Hh; [|exact Eh].
    rewrite <-list_fmap_compose in Hh. apply list_elem_of_fmap in Hh as ([h' k] & -> & Hh). apply elem_of_owners in Hh as (m'' & s'' & Hm'' & Hs'' & E''). cbn.
    exists m'', s''. split_and!; [by eapply list_elem_of_lookup_2|done|done]. }
  destruct (canonical_id _ s Hd Hs) as (n & En & Et). exists s, n. split_and!; try done. intros hid Hh Hin. destruct (arrangement (gr_layout r)) as [a|]; [|injection Hh as <-; by apply not_elem_of_nil in Hin].
  apply mapM_Some in Hh. apply list_elem_of_lookup in Hin as [j Hj]. destruct (Forall2_lookup_r _ _ _ _ _ Hh Hj) as (h & Hh' & Eh).
  apply list_elem_of_lookup_2 in Hh'. destruct (Hknown a h eq_refl Hh') as (m' & s' & Hm' & Hs' & <-).
  destruct (canonical_id (gm_displays m') s') as (n' & En' & Et'); [by apply Hok|done|]. rewrite Eh in En'. injection En' as <-. apply Hfree. by rewrite <-Et, Et'.
Qed.
Lemma topology_of_display ds ts s n : topology_of ds = Some ts -> s ∈ ds -> parse_display (s_id s) = Some n -> exists x, x ∈ ts /\ display_id x = n.
Proof.
  unfold topology_of. destruct (mapM description ds) as [xs|] eqn:E; [|done]. cbn [mbind option_bind]. unfold Messages.new_topology.
  destruct (validate_topology xs); [|done]. cbn [mbind result_bind]. intros [= <-] Hs En. apply mapM_Some in E. apply list_elem_of_lookup in Hs as [j Hj].
  destruct (Forall2_lookup_l _ _ _ _ _ E Hj) as (x & Hx & Ex). exists x. split; [by eapply list_elem_of_lookup_2|]. unfold description in Ex. rewrite En in Ex.
  by injection Ex as <-.
Qed.

(** ** The hub starts *)

Lemma members_ok_intro local g l : forall before, (forall d, d ∈ l -> d <> local /\ d ∉ before /\ exists x, x ∈ Hub.group_displays g /\ d_machine x = d) -> NoDup l ->
  members_ok local g before l = true.
Proof.
  induction l as [|d l IH]; intros before Hl Hn; [done|]. apply list.NoDup_cons in Hn as [Hd Hn]. cbn [members_ok].
  destruct (Hl d ltac:(by left)) as (H1 & H2 & x & Hx & Ex). rewrite (bool_decide_eq_false_2 (d = local)), (bool_decide_eq_false_2 (d ∈ before)) by done.
  assert (existsb (fun y => bool_decide (d_machine y = d)) (Hub.group_displays g) = true) as ->.
  { apply existsb_exists. exists x. split; [by apply list_elem_of_In|by apply bool_decide_eq_true]. }
  cbn [negb andb]. apply IH; [|done]. intros e He. destruct (Hl e ltac:(by right)) as (E1 & E2 & E3). split_and!; try done.
  rewrite elem_of_app, list_elem_of_singleton. intros [?| ->]; done.
Qed.
Lemma head_filter_Some {A} (P : A -> Prop) `{forall x, Decision (P x)} l x : x ∈ l -> P x -> exists y, head (filter P l) = Some y.
Proof.
  intros Hx HP. assert (x ∈ filter P l) as Hf by (by apply list_elem_of_filter). destruct (filter P l) as [|y ys]; [by apply not_elem_of_nil in Hf|by exists y].
Qed.
Lemma home_display_Some c x : x ∈ Hub.group_displays (hc_group c) -> d_machine x = hc_local c -> d_in_use x = true -> is_Some (home_display c).
Proof.
  intros Hx Hm Hu. unfold home_display. destruct (d_id <$> head _); [done|]. destruct (head_filter_Some
    (fun d => bool_decide (d_machine d = hc_local c) && d_in_use d && (d_primary d || negb false) = true) (Hub.group_displays (hc_group c)) x) as [y ->]; [done| |done].
  rewrite (bool_decide_eq_true_2 _ Hm), Hu. cbn [negb andb]. by rewrite orb_true_r.
Qed.
Lemma mapM_filter_sublist {A B} (f : A -> option B) (P : A -> Prop) `{forall x, Decision (P x)} l ys zs :
  Forall2 (fun x y => f x = Some y) l ys -> mapM f (filter P l) = Some zs -> sublist zs ys.
Proof.
  intros HF. revert zs. induction HF as [|x y l ys Hxy _ IH]; intros zs; [cbn; intros [= <-]; constructor|]. rewrite filter_cons.
  destruct (decide (P x)); [|intros ?; constructor; by apply IH]. cbn [mapM]. rewrite Hxy. cbn [mbind option_bind].
  destruct (mapM f (filter P l)) as [zs'|]; [|done]. intros [= <-]. constructor. by apply IH.
Qed.
Lemma member_parses m : member_ok m -> exists fp, is_fingerprint fp /\ gm_fingerprint m = full_hex fp /\ parse_full (gm_fingerprint m) = Ok fp.
Proof. intros [(fp & Hf & E)%validate_fingerprint_spec _]. exists fp. split_and!; [done|done|]. rewrite E. by apply parse_full_hex. Qed.
Lemma index_of_member r local i : index_of r local = Some i -> exists m, gr_members r !! i = Some m /\ member_key m = fingerprint_key local.
Proof.
  unfold index_of. destruct (list_find _ _) as [[j m]|] eqn:E; [|done]. intros [= <-]. apply list_find_Some in E as (H1 & H2 & _). by exists m.
Qed.
Lemma local_parses m local : member_ok m -> member_key m = fingerprint_key local -> parse_full local = parse_full (gm_fingerprint m).
Proof. intros (fp & _ & _ & E)%member_parses Hk. rewrite E. by apply (fingerprint_key_inj (gm_fingerprint m)). Qed.

Lemma filter_true {A} (P : A -> Prop) `{forall x, Decision (P x)} (l : list A) : (forall x, x ∈ l -> P x) -> filter P l = l.
Proof.
  induction l as [|x l IH]; intros Hl; [done|]. rewrite filter_cons, decide_True by (apply Hl; by left). f_equal. apply IH. intros y Hy. apply Hl. by right.
Qed.
Lemma filter_others_length ms i me : Ascending member_key ms -> ms !! i = Some me ->
  length (filter (fun m => member_key m <> member_key me) ms) = (length ms - 1)%nat.
Proof.
  intros Ha Hi. pose proof (ascending_keys_NoDup member_key ms Ha) as Hn. clear Ha. revert i Hi. induction ms as [|m ms IH]; intros [|i] Hi; try done; cbn in Hi.
  - injection Hi as ->. rewrite filter_cons, decide_False by tauto. cbn [fmap list_fmap] in Hn. apply list.NoDup_cons in Hn as [Hn _].
    rewrite filter_true; [cbn [length]; lia|]. intros x Hx E. apply Hn. rewrite <-E. by apply list_elem_of_fmap_2.
  - cbn [fmap list_fmap] in Hn. apply list.NoDup_cons in Hn as [Hm Hn]. rewrite filter_cons, decide_True.
    + cbn [length]. rewrite (IH Hn i Hi). destruct ms; [done|cbn; lia].
    + intros E. apply Hm. rewrite E. apply list_elem_of_fmap_2. by eapply list_elem_of_lookup_2.
Qed.
Lemma block_in_use json_length r i t blocks hid j m b : validate_record json_length r = true -> topology_at r i = Some t -> Forall2 block_of (gr_members r) blocks ->
  mapM parse_display (match arrangement (gr_layout r) with Some a => hidden a | None => [] end) = Some hid ->
  (forall n d, displays t !! n = Some d <-> d ∈ DisplayArrangement.group_displays hid blocks /\ d_id d = n) ->
  gr_members r !! j = Some m -> blocks !! j = Some b ->
  exists x, x ∈ b_displays b /\ display_id x ∉ hid /\ block_display hid b x ∈ Hub.group_displays t.
Proof.
  intros Hv _ HB Hhid Hdisp Hj Hb. destruct (member_in_use _ _ _ _ Hv Hj) as (s & n & Hs & En & Hfree). destruct (Forall2_lookup_lr _ _ _ _ _ _ HB Hj Hb) as (_ & _ & Tb).
  destruct (topology_of_display _ _ _ _ Tb Hs En) as (x & Hx & Ex). exists x. split_and!; try done; [rewrite Ex; by apply Hfree|]. apply elem_of_group_displays.
  exists (display_id x). apply Hdisp. split; [|done]. apply elem_of_block_displays. exists b, x. split_and!; try done. by eapply list_elem_of_lookup_2.
Qed.

(** C21. A validated record runs on every one of its members: the plan gives the hub a
    configuration, and the hub starts with it, its own computer among displays
    in use and every other member in its group. *)
Theorem group_plan_starts_hub json_length r local epoch agreement generation double_click now :
  validate_record json_length r = true -> has_member r local = true ->
  exists ds c hub, hub_config (mkPlan epoch local r agreement) generation double_click = Some (ds, c) /\ new_hub c now = Ok hub
    /\ device_of local = Some (hc_local c) /\ length (hc_members c) = (length (gr_members r) - 1)%nat
    /\ (forall m, m ∈ gr_members r -> exists d, device_of (gm_fingerprint m) = Some d /\ (d = hc_local c \/ d ∈ hc_members c)).
Proof.
  intros Hv Hm. pose proof (validate_record_spec _ _ Hv) as (_ & Hlen & _ & Hok & Hasc & _ & Htop). pose proof Hok as HokF. rewrite list.Forall_forall in Hok.
  unfold has_member in Hm. bool_inv. destruct Hm as [i Hi]. destruct (index_of_member _ _ _ Hi) as (me & Hme & Hkey).
  assert (member_ok me) as Hmeok by (apply Hok; by eapply list_elem_of_lookup_2). destruct (member_parses me Hmeok) as (fp & Hfp & Efp & Pfp).
  pose proof (local_parses me local Hmeok Hkey) as Ploc. rewrite Pfp in Ploc. destruct (Htop i ltac:(by eapply lookup_lt_Some)) as [t Ht].
  destruct (topology_at_spec r i t Ht) as (blocks & hid & HB & Hnd & Hhid & Hdisp). destruct (Forall2_lookup_l _ _ _ _ _ HB Hme) as (bme & Hbme & Dme & _ & Tme).
  set (P := fun m => member_key m <> fingerprint_key local).
  assert (is_Some (mapM (fun m => device_of (gm_fingerprint m)) (filter P (gr_members r)))) as [devices Hdev].
  { apply mapM_is_Some_2, list.Forall_forall. intros m [_ Hin]%list_elem_of_filter. destruct (member_parses m (Hok m Hin)) as (f & _ & _ & E). change (is_Some (device_of (gm_fingerprint m))). unfold device_of. rewrite E. eauto. }
  assert (Forall2 (fun m d => device_of (gm_fingerprint m) = Some d) (gr_members r) (b_device <$> blocks)) as HD.
  { apply Forall2_fmap_r. eapply Forall2_impl; [|exact HB]. by intros ? ? (? & _). }
  pose proof (mapM_filter_sublist _ P _ _ _ HD Hdev) as Hsub. pose proof (sublist_NoDup _ _ Hnd Hsub) as Hndd.
  assert (device_of local = Some (b_device bme)) as Dl by (unfold device_of in *; by rewrite Ploc; rewrite Pfp in Dme).
  assert (device_id_from_fingerprint fp = b_device bme) as Dfp by (unfold device_of in Dl; rewrite Ploc in Dl; by injection Dl).
  assert (forall d, d ∈ devices -> exists j m b, gr_members r !! j = Some m /\ blocks !! j = Some b /\ b_device b = d /\ P m) as Hd.
  { intros d Hin. apply mapM_Some in Hdev. apply list_elem_of_lookup in Hin as [j Hj]. destruct (Forall2_lookup_r _ _ _ _ _ Hdev Hj) as (m & Hjm & Em).
    apply list_elem_of_lookup_2, list_elem_of_filter in Hjm as [HP Hin]. apply list_elem_of_lookup in Hin as [k Hk].
    destruct (Forall2_lookup_l _ _ _ _ _ HB Hk) as (b & Hb & Eb & _). exists k, m, b. split_and!; try done. congruence. }
  assert (forall j m b, gr_members r !! j = Some m -> blocks !! j = Some b -> exists x, x ∈ b_displays b /\ display_id x ∉ hid
    /\ block_display hid b x ∈ Hub.group_displays t) as Huse.
  { intros j m b. by apply (block_in_use json_length r i). }
  set (c := mkHubConfig (b_device bme) t devices generation double_click).
  assert (is_Some (home_display c)) as [home Hhome].
  { destruct (Huse i me bme Hme Hbme) as (x & _ & Hn & Hin). apply (home_display_Some c _ Hin); [done|]. cbn. by rewrite bool_decide_eq_false_2. }
  assert (length devices = (length (gr_members r) - 1)%nat) as Hdl.
  { pose proof (Forall2_length (proj1 (mapM_Some _ _ _) Hdev)) as <-. unfold P. rewrite <-Hkey. by eapply filter_others_length. }
  eexists (b_displays bme), c, _. split_and!.
  - unfold hub_config. cbn [gp_local gp_record]. rewrite Ploc. cbn [ok mbind option_bind]. fold P. rewrite Hdev. cbn [mbind option_bind]. unfold member, topology_for. rewrite Hi.
    cbn [mbind option_bind]. rewrite Hme. cbn [mbind option_bind]. rewrite Tme. cbn [mbind option_bind]. rewrite Ht, Dfp. reflexivity.
  - unfold new_hub. rewrite Hhome. cbn [hc_members c hc_local hc_group].
    rewrite (bool_decide_eq_false_2 (devices = [])) by (intros E; rewrite E in Hdl; cbn in Hdl; lia).
    unfold MAX_GROUP_MEMBERS in Hlen. rewrite (proj2 (Nat.ltb_ge GROUP _)) by (unfold GROUP, Floor.MAX_GROUP_PEERS; cbn; lia). rewrite members_ok_intro; [reflexivity| |done].
    intros d Hin. destruct (Hd d Hin) as (j & m & b & Hj & Hb & Eb & HP). split_and!.
    + intros E. rewrite <-Eb in E. apply HP. assert (i = j) as <-.
      { apply (NoDup_lookup (b_device <$> blocks) i j (b_device bme) Hnd); [by rewrite list_lookup_fmap, Hbme|by rewrite list_lookup_fmap, Hb, <-E]. }
      congruence.
    + by apply not_elem_of_nil.
    + destruct (Huse j m b Hj Hb) as (x & _ & _ & Hx). exists (block_display hid b x). by split.
  - done.
  - done.
  - intros m Hin. apply list_elem_of_lookup in Hin as [j Hj]. destruct (Forall2_lookup_l _ _ _ _ _ HB Hj) as (b & Hb & Eb & _). exists (b_device b). split; [done|].
    destruct (decide (member_key m = fingerprint_key local)) as [E|E].
    + left. assert (m = me) as -> by (apply (ascending_inj member_key (gr_members r)); [done|by eapply list_elem_of_lookup_2|by eapply list_elem_of_lookup_2|congruence]). change (b_device b = b_device bme). congruence.
    + right. apply mapM_Some in Hdev. assert (m ∈ filter P (gr_members r)) as Hf by (apply list_elem_of_filter; split; [done|by eapply list_elem_of_lookup_2]).
      apply list_elem_of_lookup in Hf as [k Hk]. destruct (Forall2_lookup_l _ _ _ _ _ Hdev Hk) as (d & Hdk & Ed). rewrite Eb in Ed. injection Ed as ->. by eapply list_elem_of_lookup_2.
Qed.
Lemma group_plan_starts_hub_witness : exists ds c hub, hub_config (mkPlan 1 hex_b sample_record []) 7 500 = Some (ds, c) /\ new_hub c 0 = Ok hub.
Proof.
  destruct (group_plan_starts_hub short_json sample_record hex_b 1 [] 7 500 0) as (ds & c & hub & H1 & H2 & _).
  - exact sample_record_valid.
  - vm_compute. reflexivity.
  - exact (ex_intro _ ds (ex_intro _ c (ex_intro _ hub (conj H1 H2)))).
Defined.

(** ** Two members of one record *)

Lemma device_of_length t d : device_of t = Some d -> is_device_id d.
Proof. unfold device_of. destruct (parse_full t) as [f|] eqn:E; [|done]. intros [= <-]. by apply device_id_typed, parse_full_Ok in E || (apply parse_full_Ok in E as [E _]; by apply device_id_typed). Qed.
Lemma wire_control_sym c a b da db : device_of a = Some da -> device_of b = Some db -> da <> db -> wire_control c a b = wire_control c b a.
Proof.
  intros Ea Eb Hne. destruct (device_of_length _ _ Ea) as [La _], (device_of_length _ _ Eb) as [Lb _]. unfold wire_control.
  rewrite (bool_decide_ext (fingerprint_key a = _) (fingerprint_key b = fingerprint_key a)) by done. destruct (bool_decide _); [done|].
  destruct (c !! fingerprint_key a) as [x|], (c !! fingerprint_key b) as [y|]; cbn [mbind option_bind]; try done. rewrite Ea, Eb. cbn [mbind option_bind].
  rewrite (device_ltb_flip da db) by congruence. by destruct (device_ltb da db).
Qed.
Lemma wire_control_some c a b w : wire_control c a b = Some w -> w <> mkControl false false.
Proof.
  unfold wire_control. destruct (bool_decide _); [done|]. destruct (c !! fingerprint_key a) as [x|]; [|done]. cbn [mbind option_bind].
  destruct (c !! fingerprint_key b) as [y|]; [|done]. cbn [mbind option_bind]. destruct (device_of a); [|done]. cbn [mbind option_bind]. destruct (device_of b); [|done]. cbn [mbind option_bind]. destruct (device_ltb _ _), x, y; try done; by intros [= <-].
Qed.
(** Distinct members are distinct devices: the topology would not hold them otherwise. *)
Lemma members_distinct json_length r ma mb : validate_record json_length r = true -> ma ∈ gr_members r -> mb ∈ gr_members r -> ma <> mb ->
  exists da db, device_of (gm_fingerprint ma) = Some da /\ device_of (gm_fingerprint mb) = Some db /\ da <> db.
Proof.
  intros Hv Ha Hb Hne. pose proof (validate_record_spec _ _ Hv) as (_ & Hl & _ & _ & _ & _ & Htop). destruct (Htop 0%nat ltac:(lia)) as [t Ht].
  destruct (topology_at_spec r 0 t Ht) as (blocks & hid & HB & Hnd & _). apply list_elem_of_lookup in Ha as [i Hi], Hb as [j Hj].
  destruct (Forall2_lookup_l _ _ _ _ _ HB Hi) as (ba & Ba & Da & _), (Forall2_lookup_l _ _ _ _ _ HB Hj) as (bb & Bb & Db & _).
  exists (b_device ba), (b_device bb). split_and!; try done. intros E. apply Hne. assert (i = j) as <-; [|congruence].
  apply (NoDup_lookup (b_device <$> blocks) i j (b_device ba) Hnd); [by rewrite list_lookup_fmap, Ba|by rewrite list_lookup_fmap, Bb, E].
Qed.
Lemma elem_of_member_controls json_length r ma mb fb epoch agreement c : validate_record json_length r = true -> mb ∈ gr_members r ->
  parse_full (gm_fingerprint mb) = Ok fb ->
  (fb, c) ∈ member_controls (mkPlan epoch (gm_fingerprint ma) r agreement) <-> wire_control (control (gr_layout r)) (gm_fingerprint ma) (gm_fingerprint mb) = Some c.
Proof.
  intros Hv Hb Ep. pose proof (validate_record_spec _ _ Hv) as (_ & _ & _ & _ & Hasc & _). unfold member_controls. cbn [gp_record gp_local]. rewrite list_elem_of_omap. split.
  - intros (m & Hm & E). destruct (parse_full (gm_fingerprint m)) as [f|] eqn:Ef; [|done]. cbn [ok mbind option_bind] in E.
    destruct (wire_control _ _ _) as [w|] eqn:Ew; [|done]. injection E as -> ->. assert (m = mb) as ->; [|done].
    apply (ascending_inj member_key (gr_members r)); try done. by apply (fingerprint_key_inj _ _ fb).
  - intros E. exists mb. split; [done|]. rewrite Ep. cbn [ok mbind option_bind]. by rewrite E.
Qed.
Lemma pair_config_Ok me peer mine theirs c agreed ds : validate_topology ds = Ok () -> c <> mkControl false false ->
  device_id_from_fingerprint me <> device_id_from_fingerprint peer ->
  exists config, pair_config me peer mine theirs c Share (Some agreed) ds = Ok config /\ validate_config config = Ok ()
    /\ config = mkHandshakeConfig me peer mine theirs 5 5 ds c Share agreed.
Proof.
  intros Ht Hc Hne. exists (mkHandshakeConfig me peer mine theirs 5 5 ds c Share agreed).
  assert (forall agreed, validate_config (mkHandshakeConfig me peer mine theirs 5 5 ds c Share agreed) = Ok ()) as Hv.
  { intros a. unfold validate_config, hs_local_device_id, expected_peer_device_id, Messages.new_topology.
    cbn [hs_local_capabilities hs_expected_peer_capabilities hs_local_topology hs_local_identity hs_expected_peer hs_control hs_purpose].
    change (capabilities 5) with (Some 5). rewrite Ht. cbn [ok_or map_err mbind result_bind]. rewrite bool_decide_eq_false_2 by done. by destruct c as [[] []]. }
  split_and!; [|apply Hv|done]. unfold pair_config, new_handshake_config. rewrite bool_decide_eq_false_2 by done.
  change (capabilities (Z.lor RELATIVE_MOTION DISPLAY_TOPOLOGY)) with (Some 5). cbn [ok_or mbind result_bind]. by rewrite Hv.
Qed.

(** C20. Two members that hold the same record offer each other the same permissions,
    or neither offers any; and the handshakes of a pair that shares, made from
    that record, are valid, expect each other, and disagree on nothing. *)
Theorem group_members_agree json_length r ma mb fa fb dsa dsb agreed epoch c :
  validate_record json_length r = true -> ma ∈ gr_members r -> mb ∈ gr_members r -> ma <> mb ->
  parse_full (gm_fingerprint ma) = Ok fa -> parse_full (gm_fingerprint mb) = Ok fb ->
  topology_of (gm_displays ma) = Some dsa -> topology_of (gm_displays mb) = Some dsb ->
  ((fb, c) ∈ member_controls (mkPlan epoch (gm_fingerprint ma) r agreed) <-> (fa, c) ∈ member_controls (mkPlan epoch (gm_fingerprint mb) r agreed))
  /\ ((fb, c) ∈ member_controls (mkPlan epoch (gm_fingerprint ma) r agreed) ->
      exists ca cb, pair_config fa fb (gm_platform ma) (gm_platform mb) c Share (Some agreed) dsa = Ok ca
        /\ pair_config fb fa (gm_platform mb) (gm_platform ma) c Share (Some agreed) dsb = Ok cb
        /\ validate_config ca = Ok () /\ validate_config cb = Ok () /\ Meet ca cb /\ Meet cb ca /\ disagreement ca cb = None).
Proof.
  intros Hv Ha Hb Hne Pa Pb Ta Tb. destruct (members_distinct _ _ _ _ Hv Ha Hb Hne) as (da & db & Da & Db & Hd).
  rewrite (elem_of_member_controls json_length r ma mb fb _ _ _ Hv Hb Pb), (elem_of_member_controls json_length r mb ma fa _ _ _ Hv Ha Pa). rewrite (wire_control_sym _ _ _ _ _ Da Db Hd). split; [done|]. intros Hw%wire_control_some.
  assert (forall ds l, topology_of l = Some ds -> validate_topology ds = Ok ()) as Ht.
  { intros ds l. unfold topology_of. destruct (mapM _ _); [|done]. cbn [mbind option_bind]. unfold Messages.new_topology. destruct (validate_topology _) as [[]|] eqn:E; [|done].
    cbn. by intros [= <-]. }
  unfold device_of in Da, Db. rewrite Pa in Da. rewrite Pb in Db. injection Da as Da. injection Db as Db. subst da db.
  destruct (pair_config_Ok fa fb (gm_platform ma) (gm_platform mb) c agreed dsa (Ht _ _ Ta) Hw Hd) as (ca & E1 & V1 & ->).
  destruct (pair_config_Ok fb fa (gm_platform mb) (gm_platform ma) c agreed dsb (Ht _ _ Tb) Hw (not_eq_sym Hd)) as (cb & E2 & V2 & ->).
  eexists _, _. split_and!; try done. unfold disagreement. cbn. by rewrite !bool_decide_eq_true_2.
Qed.
Definition member_a : GroupMember := mkMember hex_a MacOs [sample_snapshot [49] 0x409E000000000000].
Definition member_b : GroupMember := mkMember hex_b Windows [sample_snapshot [50] 0x409E000000000000].
Lemma group_members_agree_witness : exists ca cb, disagreement ca cb = None /\ Meet ca cb
  /\ pair_config (replicate 32 0xAA) (replicate 32 0xBB) MacOs Windows (mkControl true false) Share (Some [9]) (default [] (topology_of (gm_displays member_a))) = Ok ca.
Proof.
  assert (member_b ∈ gr_members sample_record) as Hb by (right; by left).
  destruct (group_members_agree short_json sample_record member_a member_b (replicate 32 0xAA) (replicate 32 0xBB)
    (default [] (topology_of (gm_displays member_a))) (default [] (topology_of (gm_displays member_b))) [9] 1 (mkControl true false)) as [_ H].
  - exact sample_record_valid.
  - by left.
  - exact Hb.
  - discriminate.
  - vm_compute. reflexivity.
  - vm_compute. reflexivity.
  - vm_compute. reflexivity.
  - vm_compute. reflexivity.
  - destruct H as (ca & cb & H1 & _ & _ & _ & H2 & _ & H3); [|exact (ex_intro _ ca (ex_intro _ cb (conj H3 (conj H2 H1))))].
    apply (proj2 (elem_of_member_controls short_json sample_record member_a member_b (replicate 32 0xBB) 1 [9] (mkControl true false) sample_record_valid Hb
      ltac:(vm_compute; reflexivity))). vm_compute. reflexivity.
Defined.
